(* ===== verification/_CoqProject ===== *)
-Q . S2P
Prelude.v
Bytes.v
Arena.v
Pool.v
BQueue.v
Lifecycle.v
Str.v
Registry.v
Queue.v
Routes.v
Num.v
Float.v
Walk.v
ArrStream.v
JsonWrite.v
JsonScan.v
ScanBytes.v
ScanSafe.v
ScanDoc.v
Envelope.v
ScanSim.v
Tok.v
TokTree.v
Populate.v
Scatter.v
PopulateBack.v
Parse.v
Data.v
DataHttp.v
DataHttpPump.v
DataHttpPools.v
DataHttpFlow.v
JsonObj.v
Logfmt.v
Buttons.v
Cache.v
CacheThreads.v
ScanStop.v
ScanTree.v
Manifest.v
Fsm.v
WifiReconn.v
WifiProv.v
Filter.v
Storage.v
Rtc.v
LogLevel.v
Config.v
Backends.v
Settings.v
SettingsStore.v
RebootBudget.v
RebootStore.v
RebootReason.v
OtaCheck.v
OtaHttp.v
OtaPull.v
OtaApply.v
Tasks.v
TaskCores.v
TaskWatch.v
