(* ===== verification/Prelude.v ===== *)
(** * A verification library for breadboard

    breadboard is a set of C components for small networked devices.  This
    library models the portable core of them, shallowly: a C function is a Rocq
    function on the component's state with the same name, structs are records,
    enums inductive types, machine integers [Z] with their wrap-around written
    out, and whatever the code calls outside the repository (httpd, the flash
    library, clocks, allocators, the application's callbacks) is an argument.
    Paths below are under src/.

    ** The parts and how they interact

    Serialization.  A component describes a struct by a table of fields; one
    walker (Walk) turns a snapshot into calls on an emit vtable.  Backends of
    that vtable are the JSON writer (JsonWrite) and the one-line formats
    (Logfmt).  The way back: the scanner (JsonScan) turns text into calls on an
    ingest vtable, whose sinks are the token recorder (Tok) and the release
    parser (Manifest); populate (Populate) scatters recorded tokens into memory
    by the same tables, and Parse composes the three over an arena.
    Data plane.  Data binds keys to descriptors with gather and apply hooks over
    the name registry (Registry), renders and parses through the above, and
    counts generations; DataHttp is its egress: attached keys, client pools, a
    shared event ring and outbound queues (Queue), drained and flushed to
    sockets.  Cache keeps the latest values, JsonObj streams responses, Routes
    decides which handler a request reaches.
    State machines.  Fsm is the table-driven engine under the Wi-Fi reconnect
    policy (WifiReconn) and the provisioning portal (WifiProv); Buttons holds
    the debouncing and the gesture recogniser.
    Updates.  OtaCheck asks the release server through Manifest's parsers, OtaHttp
    is its endpoints over Data and JsonObj, OtaPull downloads and shares one slot
    with the checks, OtaApply decides when a download starts.
    Storage.  Storage is the key/value facade with its RAM backend, Rtc the
    checksummed mirror of the credentials, Config typed fields and staged
    sessions over the facade, Settings the device's settings over Config and the
    mirror; RebootBudget and RebootReason keep what must outlive a restart.
    Tasks.  Tasks is the table of tasks by handle with its periodic scan, over
    Registry; TaskCores creates and deregisters tasks that own a core, TaskWatch
    registers tasks by name and checks that they feed their watchdog.
    Tools.  Arena, Pool, BQueue, Lifecycle, Filter, LogLevel, Str, Num, Float.

    ** Files, code and what the theorems show

    Each file opens with the source files it translates; operations keep their
    names.

    - [Prelude], [Bytes]: error codes, machine integers, list and option lemmas,
      bytes, C strings ([bytes before the NUL]) and byte-addressed memory.
    - [Arena] (platform/host/bb_mem_arena): bump allocator; live blocks lie apart
      and inside the region.  [Pool] (platform/host/bb_pool): objects in four
      modes; a slot has one holder, double and foreign releases are refused, a
      FIFO pool is a bounded list.  [BQueue] (bb_bqueue): steps are critical
      sections; every interleaving is linearizable, no wake-up is lost, bounded
      sleeps end.  [Lifecycle] (bb_lifecycle): services paused by sets of
      reasons, observers hear exactly the changes.
    - [Str], [LogLevel], [Num], [Float]: bb_str, bb_log levels, bb_num, and
      doubles as SpecFloat with decimal printing and reading.
    - [Registry], [Queue] (platform/host/bb_registry, bb_queue): the registry is
      a bounded map, a ring is a list under entry and byte budgets, the registry
      of rings never dangles.
    - [Routes] (bb_http_server, platform/espidf/bb_http_server): matcher,
      dispatch, exclusions and the provisioning gate; provisioning hides every
      route it should.  [JsonObj] (bb_http_json_obj.c): a response that is one
      object sends that object's text, which the scanner reads back.
    - [Walk] (bb_serialize_walk.c, bb_serialize_compose.c): a walk is the
      traversal of a finite document, for every backend.  [JsonWrite]
      (bb_serialize_json.c): rendered bytes are the document's text, buffered,
      chunked and sized.  [Logfmt] (bb_serialize_logfmt.c,
      bb_serialize_console.c): the line reads back as its keys and values.
    - [JsonScan] (bb_serialize_json_scan.c); [ScanBytes], [ScanSafe], [ScanDoc],
      [Envelope], [ScanSim], [ScanStop], [ScanTree]: chunking is irrelevant, the
      ingest contract, bounds of the scanner's arrays, round trip with the
      writer, simulation of sinks, sinks that stop, accepted texts are
      documents.  [Manifest] (bb_release_manifest): both release parsers answer
      what the document says.
    - [Tok], [TokTree], [Populate], [Scatter], [PopulateBack], [Parse]
      (bb_serialize_json_tok.c, bb_serialize_populate.c,
      bb_serialize_json_populate.c, bb_serialize_json_parse.c): the recorder's
      pool is the document's pre-order, populate is all or nothing, a snapshot
      rendered, parsed and populated arrives unchanged.
    - [Data] (bb_data.c, bb_serialize_format.c, bb_format.c): the binding table
      is a bounded map; render and parse through two bindings copy a document.
      [DataHttp], [DataHttpPump], [DataHttpPools], [DataHttpFlow]
      (bb_data_http_common.c): client bookkeeping under any order of calls,
      concurrent pumps push a generation once, a drain accounts for every event.
    - [Cache], [CacheThreads] (bb_cache_espidf.c, bb_cache_evaluate.c): the calls
      in critical sections, linearizable but for evictions.
    - [Fsm] (bb_fsm.c), [WifiReconn] (wifi_reconn_policy.c), [WifiProv]
      (wifi_prov_policy.c, wifi_prov_mgr.c), [Buttons] (bb_button.c,
      bb_button_events.c): machines by rule induction over reachable states.
    - [Filter] (bb_filter.c): selection by priority under pressure.
    - [Storage] (bb_storage.c, bb_storage_ram.c), [Backends], [Rtc]
      (bb_storage_rtc), [Config] (bb_config.c, bb_config_staged.c), [Settings],
      [SettingsStore] (bb_settings.c, bb_settings_creds_boot_decide.c): refinement
      of maps and records; promotion of credentials survives power loss at every
      write and the mirror restores them.
    - [RebootBudget], [RebootStore] (bb_system_reboot_budget.c), [RebootReason]
      (bb_reboot_reason.c, bb_system_reboot_record.c and the callers in
      platform/espidf): restarts stay within their budget across power cycles,
      and every boot reports the restart that caused it.
    - [OtaCheck], [OtaHttp] (bb_ota_check_common.c, the streaming GET of
      bb_http_client_espidf.c): a check reports what the release document says,
      however it arrives; the configuration endpoint stores the flag its body
      has.  [OtaPull], [OtaApply] (bb_ota_pull.c, bb_ota_check_espidf.c,
      bb_ota_hooks.c, bb_claim.c): a download closes every session it opens, the
      slot keeps checks and downloads apart under every interleaving, and only a
      newer release is ever applied.
    - [Tasks] (bb_task_common.c, bb_task_registry_base_scan_common.c): the table
      is a bounded map and a scan drops what it has missed twice.  [TaskCores]
      (bb_task_espidf.c, bb_wdt_core_claim.c, bb_wdt.c): a core has one owner
      under every interleaving.  [TaskWatch] (bb_task_registry.c): one miss an
      episode, on the account of the registration it belongs to.
    - [ArrStream] (bb_serialize_arr_stream.c): the rows of a buffer, in order.

    ** Interfaces

    A component promises through a record of functions or a class, and its
    clients are proved against that: the emit and ingest vtables (sinks related
    by [SinkSim], sinks blind to cuts), populate sources, storage backends
    ([vtable], with the contract [KeepsKeys] the RAM backend satisfies and the
    flash library is assumed to), the registry's specification lemmas.

    ** Bounds and fuel

    Loops of the code without a structural measure carry fuel, with a proof that
    it is enough: the streaming scan 2 * length + 1 turns; the walk and populate
    recurse on the remaining depth, BB_SERIALIZE_MAX_DEPTH = 8; decimal printing
    20 digits, conversion of doubles an exponent loop of 400; the filter one
    more than the number of elements; readers of lines the length of the line;
    ring eviction the number of entries; flushing the number of queued frames
    ([flush_fuel_enough]); the wait for an address and the poll for a check the
    quotient of their limits and steps plus two, for limits that do not wrap.  Sizes the build fixes are the code's defaults
    (scratch 64, flush buffer 768, token key 24, token pool 48, object buffer
    1024, mirror 108 bytes, history of 8) or, where theorems hold for all,
    parameters (capacities of pools, queues, registries, the caps of the HTTP
    server, the limits of the data egress).  Counters of 64 bits and of size_t
    that only grow are taken not to wrap; the cache's generations, 32 bits, are
    counted over runs below 2^32 steps, the generations of the task registry,
    16 bits, over runs below 2^16 - 2; where other integers wrap, the model
    wraps.  Text kept by settings and boot records is below the limits that
    [KeepsKeys] asks of a backend.

    ** What is not modelled

    Drivers and adapters (Wi-Fi, NVS, OTA push and boot, mDNS, sockets, TLS, MQTT,
    displays, LEDs, sensors, I2C, timers, locks), whose lines are calls into
    ESP-IDF, FreeRTOS, Arduino or POSIX; report tables that copy readings into
    structs; the OpenAPI emitter; log text, test hooks, Kconfig plumbing,
    examples, tests and scripts.  Callbacks that call back into the component
    that calls them are left out unless the file says otherwise.  Theorems about
    interleaving have the critical section, or the single call, as their step,
    as the file says; weak memory is not modelled. *)
From Stdlib Require Export ZArith Lia Bool.
From Stdlib Require Import Strings.Byte.
From stdpp Require Export base list gmap.

#[global] Open Scope Z_scope.
#[global] Arguments Nat.ltb : simpl never.

(** * Error codes ([bb_err_t], components/bb_core/include/bb_core.h) *)

Inductive bb_err : Set :=
  | BB_OK
  | BB_ERR_INVALID_ARG
  | BB_ERR_NOT_FOUND
  | BB_ERR_NOT_INITIALIZED
  | BB_ERR_NO_SPACE
  | BB_ERR_INVALID_STATE
  | BB_ERR_UNSUPPORTED
  | BB_ERR_VALIDATION
  | BB_ERR_TIMEOUT
  | BB_ERR_CONFLICT
  | BB_ERR_NO_MEM
  | BB_ERR_UNAUTHORIZED
  | BB_ERR_PARSE_GRAMMAR
  | BB_ERR_PARSE_INCOMPLETE.

#[export] Instance bb_err_eq_dec : EqDecision bb_err.
Proof. solve_decision. Defined.

Definition is_ok (e : bb_err) : bool := match e with BB_OK => true | _ => false end.

Lemma is_ok_true e : is_ok e = true <-> e = BB_OK.
Proof. by destruct e. Qed.

(** * Machine integers: a w-bit unsigned value is a [Z] reduced mod 2^w *)

Definition u8 (z : Z) : Z := z mod 2 ^ 8.
Definition u16 (z : Z) : Z := z mod 2 ^ 16.
Definition u32 (z : Z) : Z := z mod 2 ^ 32.
Definition u64 (z : Z) : Z := z mod 2 ^ 64.

Definition UINT16_MAX : Z := 65535.
Definition UINT32_MAX : Z := 4294967295.
(** [size_t] is 32 bits wide on the ESP32 targets and 64 on the host; the
    models take it as the 64-bit type unless they say otherwise. *)
Definition SIZE_MAX : Z := 18446744073709551615.

Lemma u8_small z : 0 <= z < 2 ^ 8 -> u8 z = z.
Proof. apply Z.mod_small. Qed.
Lemma u16_small z : 0 <= z < 2 ^ 16 -> u16 z = z.
Proof. apply Z.mod_small. Qed.
Lemma u32_small z : 0 <= z < 2 ^ 32 -> u32 z = z.
Proof. apply Z.mod_small. Qed.
Lemma u64_small z : 0 <= z < 2 ^ 64 -> u64 z = z.
Proof. apply Z.mod_small. Qed.
Lemma u8_range z : 0 <= u8 z < 2 ^ 8.
Proof. apply Z.mod_pos_bound. reflexivity. Qed.
Lemma u16_range z : 0 <= u16 z < 2 ^ 16.
Proof. apply Z.mod_pos_bound. reflexivity. Qed.
Lemma u32_range z : 0 <= u32 z < 2 ^ 32.
Proof. apply Z.mod_pos_bound. reflexivity. Qed.
Lemma u64_range z : 0 <= u64 z < 2 ^ 64.
Proof. apply Z.mod_pos_bound. reflexivity. Qed.

(** * Bit fields *)

Lemma land_shifted_ones v k n : 0 <= k -> 0 <= n ->
  Z.land v (Z.shiftl (Z.ones n) k) = Z.shiftl ((v / 2 ^ k) mod 2 ^ n) k.
Proof.
  intros Hk Hn. rewrite <- Z.land_ones, <- Z.shiftr_div_pow2 by lia.
  apply Z.bits_inj'. intros i Hi. rewrite Z.land_spec. destruct (Z.lt_ge_cases i k).
  - rewrite !Z.shiftl_spec_low by lia. by rewrite andb_false_r.
  - rewrite !Z.shiftl_spec by lia. rewrite Z.land_spec, Z.shiftr_spec by lia. do 2 f_equal. lia.
Qed.

Lemma testbit_small y k i : 0 <= y < 2 ^ k -> k <= i -> Z.testbit y i = false.
Proof.
  intros Hy Hi. destruct (Z.eq_dec y 0) as [->|]; [apply Z.bits_0|].
  apply Z.bits_above_log2; [lia|]. apply Z.log2_lt_pow2; [lia|].
  apply Z.lt_le_trans with (2 ^ k); [lia|]. destruct (Z.lt_ge_cases k 0).
  - rewrite (Z.pow_neg_r 2 k) in Hy by done. lia.
  - apply Z.pow_le_mono_r; lia.
Qed.

(** Fields that do not overlap: [lor] is addition. *)
Lemma lor_add x y k : 0 <= k -> 0 <= y < 2 ^ k -> Z.lor (x * 2 ^ k) y = x * 2 ^ k + y.
Proof.
  intros Hk Hy. assert (Z.land (x * 2 ^ k) y = 0).
  { apply Z.bits_inj'. intros i Hi. rewrite Z.land_spec, Z.bits_0.
    destruct (Z.lt_ge_cases i k); [by rewrite Z.mul_pow2_bits_low by lia|].
    by rewrite (testbit_small y k), andb_false_r. }
  by rewrite Z.add_nocarry_lxor, Z.lxor_lor.
Qed.

Create HintDb bbdb.
Create Rewrite HintDb bbdb.
#[export] Hint Resolve u8_range u16_range u32_range u64_range : bbdb.
#[export] Hint Rewrite u8_small u16_small u32_small u64_small using lia : bbdb.

(** Case analysis on every boolean integer test of the goal, with the order
    facts added, closing what [lia] closes. *)
Ltac zcases :=
  repeat match goal with
         | |- context [Z.eqb ?a ?b] => destruct (Z.eqb_spec a b)
         | |- context [Z.ltb ?a ?b] => destruct (Z.ltb_spec a b)
         | |- context [Z.leb ?a ?b] => destruct (Z.leb_spec a b)
         | |- context [Z.gtb ?a ?b] => rewrite (Z.gtb_ltb a b)
         | |- context [Z.geb ?a ?b] => rewrite (Z.geb_leb a b)
         | H : context [Z.eqb ?a ?b] |- _ => destruct (Z.eqb_spec a b)
         | H : context [Z.ltb ?a ?b] |- _ => destruct (Z.ltb_spec a b)
         | H : context [Z.leb ?a ?b] |- _ => destruct (Z.leb_spec a b)
         | H : context [Z.gtb ?a ?b] |- _ => rewrite (Z.gtb_ltb a b) in H
         | H : context [Z.geb ?a ?b] |- _ => rewrite (Z.geb_leb a b) in H
         end; try lia.

(** Destruct the scrutinee of a [match]/[if]/[let] found in the goal or in a
    hypothesis, keeping the equation. *)
Ltac dmatch :=
  match goal with
  | |- context [match ?x with _ => _ end] => destruct x eqn:?
  end.
Ltac dmatch_in H :=
  match type of H with
  | context [match ?x with _ => _ end] => destruct x eqn:?
  end.
