(* ===== verification/Bytes.v ===== *)
(** Bytes, C strings and byte-addressed memory: the data the string, number
    and serialization components share. *)
From Stdlib Require Import Strings.String.
From S2P Require Import Prelude.
From Stdlib Require Export Strings.Byte.
Local Open Scope Z_scope.

(** * Bytes *)

#[export] Instance byte_eq_dec : EqDecision byte := Byte.byte_eq_dec.
#[export] Instance byte_countable : Countable byte :=
  inj_countable' Byte.to_N (fun n => default x00 (Byte.of_N n)) (fun b => f_equal (default x00) (Byte.of_to_N b)).

(** The value of a byte, and the byte of a value (reduced mod 2^8). *)
Definition bz (b : byte) : Z := Z.of_N (Byte.to_N b).
Definition zb (z : Z) : byte :=
  match Byte.of_N (Z.to_N (z mod 256)) with Some b => b | None => x00 end.

Lemma bz_range b : 0 <= bz b < 256.
Proof. unfold bz. pose proof (Byte.to_N_bounded b). lia. Qed.

Lemma bz_zb z : bz (zb z) = z mod 256.
Proof.
  unfold bz, zb. pose proof (Z.mod_pos_bound z 256 ltac:(lia)) as Hz.
  destruct (Byte.of_N (Z.to_N (z mod 256))) eqn:E.
  - apply Byte.to_of_N in E. rewrite E. lia.
  - apply Byte.of_N_None_iff in E. lia.
Qed.

Lemma zb_bz b : zb (bz b) = b.
Proof. by destruct b. Qed.

Lemma bz_inj a b : bz a = bz b -> a = b.
Proof. intros H. by rewrite <- (zb_bz a), <- (zb_bz b), H. Qed.

Lemma bz_zb_small z : 0 <= z < 256 -> bz (zb z) = z.
Proof. intros. rewrite bz_zb. by apply Z.mod_small. Qed.

Lemma byte_eqb_eq a b : Byte.eqb a b = true <-> a = b.
Proof. split; [apply Byte.byte_dec_bl | apply Byte.byte_dec_lb]. Qed.

Lemma byte_eqb_neq a b : Byte.eqb a b = false <-> a <> b.
Proof. rewrite <- byte_eqb_eq. by destruct (Byte.eqb a b). Qed.

Lemma byte_eqb_refl a : Byte.eqb a a = true.
Proof. by apply byte_eqb_eq. Qed.

#[export] Hint Rewrite bz_zb zb_bz byte_eqb_refl : bbdb.
#[export] Hint Resolve bz_range : bbdb.

(** The bytes of a string literal. *)
Definition bs (s : String.string) : list byte := String.list_byte_of_string s.
Arguments bs s%_string.

(** * Decimal digits *)

Definition is_digit (b : byte) : bool := (48 <=? bz b) && (bz b <=? 57).
Definition digit_val (b : byte) : Z := bz b - 48.
Definition digit_of (d : Z) : byte := zb (48 + d).

Lemma is_digit_range b : is_digit b = true <-> 0 <= digit_val b < 10.
Proof. unfold is_digit, digit_val. rewrite andb_true_iff, !Z.leb_le. lia. Qed.

Lemma digit_val_of d : 0 <= d < 10 -> digit_val (digit_of d) = d.
Proof. intros. unfold digit_val, digit_of. rewrite bz_zb_small; lia. Qed.

Lemma is_digit_of d : 0 <= d < 10 -> is_digit (digit_of d) = true.
Proof. intros. apply is_digit_range. by rewrite digit_val_of. Qed.

Lemma digit_of_val b : is_digit b = true -> digit_of (digit_val b) = b.
Proof. intros _. unfold digit_of, digit_val. replace (48 + (bz b - 48)) with (bz b) by lia. apply zb_bz. Qed.

(** The value of a digit string, most significant digit first. *)
Definition dec_value (ds : list byte) : Z := fold_left (fun a d => 10 * a + digit_val d) ds 0.

Lemma dec_value_snoc ds d : dec_value (ds ++ [d]) = 10 * dec_value ds + digit_val d.
Proof. unfold dec_value. by rewrite fold_left_app. Qed.

(** * C strings *)

(** The bytes before the first NUL; the whole list when there is none. *)
Fixpoint cstr (l : list byte) : list byte :=
  match l with
  | [] => []
  | b :: rest => if Byte.eqb b x00 then [] else b :: cstr rest
  end.

(** [strnlen]: at most [n] bytes are looked at. *)
Definition strn (n : nat) (l : list byte) : list byte := cstr (take n l).

Lemma cstr_length l : (length (cstr l) <= length l)%nat.
Proof. induction l as [|b l IH]; cbn; [done|]. destruct (Byte.eqb b x00); cbn; lia. Qed.

Lemma strn_length n l : (length (strn n l) <= n)%nat.
Proof.
  unfold strn. pose proof (cstr_length (take n l)) as H.
  rewrite length_take in H. lia.
Qed.

Lemma cstr_no_nul l : Forall (fun b => b <> x00) (cstr l).
Proof.
  induction l as [|b l IH]; cbn; [constructor|].
  destruct (Byte.eqb b x00) eqn:E; [constructor|].
  constructor; [by apply byte_eqb_neq | done].
Qed.

Lemma cstr_id l : Forall (fun b => b <> x00) l -> cstr l = l.
Proof.
  induction 1 as [|b l Hb _ IH]; cbn; [done|].
  by rewrite (proj2 (byte_eqb_neq b x00) Hb), IH.
Qed.

Lemma cstr_nul l l' : Forall (fun b => b <> x00) l -> cstr (l ++ x00 :: l') = l.
Proof.
  induction 1 as [|b l Hb _ IH]; cbn; [done|].
  by rewrite (proj2 (byte_eqb_neq b x00) Hb), IH.
Qed.

(** Only what is before the first NUL counts. *)
Lemma cstr_cut l l' : x00 ∈ l -> cstr (l ++ l') = cstr l.
Proof.
  induction l as [|b l IH]; [by intros ?%elem_of_nil|]. intros H. cbn. destruct (Byte.eqb b x00) eqn:E; [done|].
  apply byte_eqb_neq in E. f_equal. apply IH. by apply elem_of_cons in H as [<-|].
Qed.
Lemma cstr_prefix l : exists l', l = cstr l ++ l'.
Proof.
  induction l as [|b l [l' IH]]; [by exists []|]. cbn. destruct (Byte.eqb b x00); [by exists (b :: l)|].
  exists l'. cbn. by rewrite <- IH.
Qed.
Lemma cstr_stop v l : cstr (v ++ x00 :: l) = cstr v.
Proof. induction v as [|b v IH]; [done|]. cbn. destruct (Byte.eqb b x00); [done|]. by rewrite IH. Qed.

(** * Memory *)

(** A byte at every address; [mread m a n] is the [n] bytes from [a] up. *)
Definition mem : Type := Z -> byte.
Definition mread (m : mem) (a : Z) (n : nat) : list byte :=
  map (fun i => m (a + Z.of_nat i)) (seq 0 n).

Lemma mread_length m a n : length (mread m a n) = n.
Proof. unfold mread. by rewrite length_map, length_seq. Qed.

(** Little-endian value of a byte list. *)
Fixpoint le_value (l : list byte) : Z :=
  match l with
  | [] => 0
  | b :: rest => bz b + 256 * le_value rest
  end.

Lemma le_value_range l : 0 <= le_value l < 256 ^ Z.of_nat (length l).
Proof.
  induction l as [|b l IH]; cbn [le_value length]; [lia|].
  rewrite Nat2Z.inj_succ, Z.pow_succ_r by lia. pose proof (bz_range b). lia.
Qed.

(** An unsigned read of [n] bytes, and its two's-complement reading. *)
Definition mread_u (m : mem) (a : Z) (n : nat) : Z := le_value (mread m a n).
Definition to_signed (bits v : Z) : Z := if v <? 2 ^ (bits - 1) then v else v - 2 ^ bits.

Lemma to_signed_range bits v : 0 < bits -> 0 <= v < 2 ^ bits ->
  - 2 ^ (bits - 1) <= to_signed bits v < 2 ^ (bits - 1).
Proof.
  intros Hb Hv. unfold to_signed.
  assert (2 ^ bits = 2 * 2 ^ (bits - 1)) by (rewrite <- Z.pow_succ_r by lia; f_equal; lia).
  zcases.
Qed.

(** Memory holding [l] at [a], zero elsewhere: for concrete examples. *)
Definition mem_of (a : Z) (l : list byte) : mem := fun p =>
  if (a <=? p) && (p <? a + Z.of_nat (length l)) then nth (Z.to_nat (p - a)) l x00 else x00.
(** [m] with [l] written at [a]. *)
Definition mwrite (m : mem) (a : Z) (l : list byte) : mem := fun p =>
  if (a <=? p) && (p <? a + Z.of_nat (length l)) then nth (Z.to_nat (p - a)) l x00 else m p.
Fixpoint le_bytes (n : nat) (v : Z) : list byte :=
  match n with O => [] | S n => zb v :: le_bytes n (v / 256) end.

Lemma le_bytes_length n v : length (le_bytes n v) = n.
Proof. revert v; induction n; intros; cbn; [done|]. by rewrite IHn. Qed.

Lemma le_value_bytes n v : 0 <= v < 256 ^ Z.of_nat n -> le_value (le_bytes n v) = v.
Proof.
  revert v; induction n as [|n IH]; intros v Hv; cbn [le_bytes le_value].
  - cbn in Hv. lia.
  - rewrite Nat2Z.inj_succ, Z.pow_succ_r in Hv by lia.
    rewrite IH, bz_zb; [pose proof (Z.div_mod v 256); lia|].
    split; [apply Z.div_pos; lia | apply Z.div_lt_upper_bound; lia].
Qed.

(** ** What a write changes *)

Definition within (p : Z) (n : nat) (a : Z) : Prop := p <= a < p + Z.of_nat n.
Definition disj (P Q : Z -> Prop) : Prop := forall a, P a -> Q a -> False.
(** [m'] has the bytes of [m] on [P]. *)
Definition agree (P : Z -> Prop) (m m' : mem) : Prop := forall a, P a -> m' a = m a.

Lemma mwrite_out m p l a : ~ within p (length l) a -> mwrite m p l a = m a.
Proof. unfold within, mwrite. intros H. destruct (Z.leb_spec p a), (Z.ltb_spec a (p + Z.of_nat (length l))); try done. lia. Qed.
Lemma mwrite_in m p l i : (i < length l)%nat -> mwrite m p l (p + Z.of_nat i) = nth i l x00.
Proof.
  intros H. unfold mwrite. destruct (Z.leb_spec p (p + Z.of_nat i)), (Z.ltb_spec (p + Z.of_nat i) (p + Z.of_nat (length l))); try lia.
  cbn [andb]. f_equal. lia.
Qed.

Lemma mread_agree m m' p n : agree (within p n) m m' -> mread m' p n = mread m p n.
Proof.
  intros H. unfold mread. apply map_ext_in. intros i Hi%in_seq. apply H. unfold within. lia.
Qed.
Lemma mread_u_agree m m' p n : agree (within p n) m m' -> mread_u m' p n = mread_u m p n.
Proof. intros H. unfold mread_u. by rewrite (mread_agree m). Qed.
Lemma mread_mwrite m p l : mread (mwrite m p l) p (length l) = l.
Proof.
  apply list_eq. intros i. unfold mread. rewrite list_lookup_fmap. destruct (decide (i < length l)%nat) as [H|H].
  - rewrite lookup_seq_lt by done. cbn. rewrite mwrite_in by done. destruct (nth_lookup_or_length l i x00) as [->|]; [done|lia].
  - rewrite lookup_seq_ge by lia. cbn. symmetry. apply lookup_ge_None. lia.
Qed.

Lemma mread_u_mwrite m p n v : 0 <= v < 256 ^ Z.of_nat n -> mread_u (mwrite m p (le_bytes n v)) p n = v.
Proof.
  intros H. unfold mread_u. rewrite <- (le_bytes_length n v) at 2. rewrite mread_mwrite. by apply le_value_bytes.
Qed.

Lemma mread_mwrite_parts m p l1 l2 :
  mread (mwrite m p (l1 ++ l2)) p (length l1) = l1 /\ mread (mwrite m p (l1 ++ l2)) (p + Z.of_nat (length l1)) (length l2) = l2.
Proof.
  pose proof (mread_mwrite m p (l1 ++ l2)) as H. unfold mread in *. rewrite length_app, seq_app, map_app in H.
  apply app_inj_1 in H as [H1 H2]; [|by rewrite length_map, length_seq]. split; [done|]. rewrite <- H2 at 2.
  rewrite <- (Nat.add_0_r (0 + length l1)), <- (fmap_add_seq (0 + length l1) 0), map_map. apply map_ext. intros j. f_equal. lia.
Qed.
Lemma nth_repeat_lookup {A} (x : A) n i : (i < n)%nat -> repeat x n !! i = Some x.
Proof. revert i; induction n as [|n IH]; intros [|i] H; cbn; try lia; [done|]. apply IH. lia. Qed.
