(* ===== verification/Arena.v ===== *)
(** bb_mem_arena: the contiguous-buffer bump allocator
    (platform/host/bb_mem_arena/bb_mem_arena.c). *)
From Stdlib Require Import Strings.String.
From S2P Require Import Prelude.
From stdpp Require Import sorting.
Local Open Scope Z_scope.

(** * Data *)

Record arena_stats := mk_stats { alloc_count : Z; free_count : Z; alloc_failed : Z; peak_offset : Z }.

(** [ar_buf]: the address of the data region; [ar_owned]: the block that
    destroy gives back, 0 for a caller's buffer. *)
Record arena := mk_arena { ar_buf : Z; ar_size : Z; ar_offset : Z; ar_stats : arena_stats; ar_owned : Z }.

Section Arena.
(** [_Alignof(max_align_t)] is [2 ^ align_log]; [struct_size] is
    [sizeof(struct bb_mem_arena)]. *)
Context (align_log struct_size : Z).

Definition BB_MEM_ARENA_ALIGN : Z := 2 ^ align_log.
Definition align_mask : Z := Z.lnot (BB_MEM_ARENA_ALIGN - 1).
(** The two roundings, on [size_t]. *)
Definition round_up (n : Z) : Z := Z.land (u64 (n + (BB_MEM_ARENA_ALIGN - 1))) align_mask.
Definition round_down (n : Z) : Z := Z.land n align_mask.
Definition BB_MEM_ARENA_HDR_SZ : Z := round_up struct_size.

(** * Making and destroying *)

(** [out_ok]: the out pointer is not NULL. *)
Definition bb_mem_arena_carve (out_ok : bool) (block block_size : Z) : bb_err * option arena :=
  if negb out_ok || (block =? 0) || (block_size <? u64 (BB_MEM_ARENA_HDR_SZ + BB_MEM_ARENA_ALIGN)) then (BB_ERR_INVALID_ARG, None)
  else (BB_OK, Some (mk_arena (block + BB_MEM_ARENA_HDR_SZ) (block_size - BB_MEM_ARENA_HDR_SZ) 0 (mk_stats 0 0 0 0) 0)).
Definition bb_mem_arena_init : bool -> Z -> Z -> bb_err * option arena := bb_mem_arena_carve.

(** [calloc n]: the block bb_calloc_prefer_spiram answers, 0 for none; the last
    component lists the blocks handed to bb_mem_free. *)
Definition bb_mem_arena_init_from_bb_mem (calloc : Z -> Z) (out_ok : bool) (size : Z) : bb_err * option arena * list Z :=
  if negb out_ok || (size =? 0) then (BB_ERR_INVALID_ARG, None, []) else
  if SIZE_MAX - BB_MEM_ARENA_HDR_SZ <? size then (BB_ERR_INVALID_ARG, None, []) else
  let total := BB_MEM_ARENA_HDR_SZ + size in
  let block := calloc total in
  if block =? 0 then (BB_ERR_NO_MEM, None, []) else
  match bb_mem_arena_carve out_ok block total with
  | (_, Some a) => (BB_OK, Some (mk_arena (ar_buf a) (ar_size a) (ar_offset a) (ar_stats a) block), [])
  | (err, None) => (err, None, [block])
  end.
Definition bb_mem_arena_init_heap : (Z -> Z) -> bool -> Z -> bb_err * option arena * list Z := bb_mem_arena_init_from_bb_mem.
Definition bb_mem_arena_init_spiram : (Z -> Z) -> bool -> Z -> bb_err * option arena * list Z := bb_mem_arena_init_from_bb_mem.

(** The blocks freed; [None] is the NULL handle, here and below. *)
Definition bb_mem_arena_destroy (a : option arena) : option arena * list Z :=
  match a with
  | None => (None, [])
  | Some a =>
      if ar_owned a =? 0 then (Some a, [])
      else (Some (mk_arena (ar_buf a) (ar_size a) (ar_offset a) (ar_stats a) 0), [ar_owned a])
  end.

(** * Allocation *)

Definition set_stats (st : arena_stats) (a : arena) : arena := mk_arena (ar_buf a) (ar_size a) (ar_offset a) st (ar_owned a).
Definition count_failed (a : arena) : arena :=
  let st := ar_stats a in
  set_stats (mk_stats (alloc_count st) (free_count st) (u64 (alloc_failed st + 1)) (peak_offset st)) a.
(** The offset moves past [n] bytes, with the statistics of a success. *)
Definition bump (n : Z) (a : arena) : Z * arena :=
  let st := ar_stats a in
  let off := u64 (ar_offset a + n) in
  (ar_buf a + ar_offset a,
   mk_arena (ar_buf a) (ar_size a) off
     (mk_stats (u64 (alloc_count st + 1)) (free_count st) (alloc_failed st) (if peak_offset st <? off then off else peak_offset st))
     (ar_owned a)).

(** The pointer, 0 for NULL. *)
Definition bb_mem_arena_alloc (a : option arena) (bytes : Z) : Z * option arena :=
  match a with
  | None => (0, None)
  | Some a =>
      if bytes =? 0 then (0, Some (count_failed a)) else
      let remaining := ar_size a - ar_offset a in
      if remaining <? bytes then (0, Some (count_failed a)) else
      let aligned := round_up bytes in
      if (aligned <? bytes) || (remaining <? aligned) then (0, Some (count_failed a)) else
      let '(p, a1) := bump aligned a in (p, Some a1)
  end.
(** The pointer and [*out_size]. *)
Definition bb_mem_arena_alloc_rest (a : option arena) : Z * Z * option arena :=
  match a with
  | None => (0, 0, None)
  | Some a =>
      let aligned_down := round_down (ar_size a - ar_offset a) in
      if aligned_down =? 0 then (0, 0, Some (count_failed a)) else
      let '(p, a1) := bump aligned_down a in (p, aligned_down, Some a1)
  end.

Definition bb_mem_arena_owns (a : option arena) (ptr : Z) : bool :=
  match a with
  | None => false
  | Some a => if ptr =? 0 then false else (ar_buf a <=? ptr) && (ptr <? ar_buf a + ar_size a)
  end.
(** [None]: the assertion fails. *)
Definition bb_mem_arena_free (a : option arena) (ptr : Z) : option (option arena) :=
  match a with
  | None => Some None
  | Some ar =>
      if ptr =? 0 then Some a else
      if negb (bb_mem_arena_owns a ptr) then None else
      let st := ar_stats ar in
      Some (Some (set_stats (mk_stats (alloc_count st) (u64 (free_count st + 1)) (alloc_failed st) (peak_offset st)) ar))
  end.
Definition bb_mem_arena_reset (a : option arena) : option arena :=
  match a with
  | None => None
  | Some a => Some (mk_arena (ar_buf a) (ar_size a) 0 (ar_stats a) (ar_owned a))
  end.
Definition bb_mem_arena_free_bytes (a : option arena) : Z := match a with None => 0 | Some a => ar_size a - ar_offset a end.
Definition bb_mem_arena_size (a : option arena) : Z := match a with None => 0 | Some a => ar_size a end.
Definition bb_mem_arena_get_stats (a : option arena) : option arena_stats := option_map ar_stats a.

(** * Histories *)

Inductive arena_call : Set := CAlloc (bytes : Z) | CRest | CFree (ptr : Z) | CReset.

(** The arena and the blocks handed out since the last reset, oldest first,
    each with the bytes it was granted. *)
Definition arena_world : Type := option arena * list (Z * Z).
Definition arena_step (c : arena_call) (w : arena_world) : option arena_world :=
  let '(a, live) := w in
  match c with
  | CAlloc bytes => let '(p, a1) := bb_mem_arena_alloc a bytes in Some (a1, if p =? 0 then live else live ++ [(p, round_up bytes)])
  | CRest => let '(p, n, a1) := bb_mem_arena_alloc_rest a in Some (a1, if p =? 0 then live else live ++ [(p, n)])
  | CFree ptr => match bb_mem_arena_free a ptr with Some a1 => Some (a1, live) | None => None end
  | CReset => Some (bb_mem_arena_reset a, [])
  end.
Fixpoint arena_run (cs : list arena_call) (w : arena_world) : option arena_world :=
  match cs with [] => Some w | c :: cs' => match arena_step c w with Some w1 => arena_run cs' w1 | None => None end end.
End Arena.

(** * Roundings *)

Section Proofs.
Context (align_log struct_size : Z) (Hal : 0 <= align_log <= 12) (Hss : 0 <= struct_size < 2 ^ 32).
Abbreviation ALIGN := (BB_MEM_ARENA_ALIGN align_log).

Lemma align_pos : 0 < ALIGN <= 4096.
Proof.
  unfold BB_MEM_ARENA_ALIGN. split; [apply Z.pow_pos_nonneg; lia|]. change 4096 with (2 ^ 12). apply Z.pow_le_mono_r; lia.
Qed.
Lemma mask_spec n : Z.land n (align_mask align_log) = ALIGN * (n / ALIGN).
Proof.
  unfold align_mask, BB_MEM_ARENA_ALIGN. replace (2 ^ align_log - 1) with (Z.ones align_log) by (rewrite Z.ones_equiv; lia).
  rewrite <- Z.ldiff_land, Z.ldiff_ones_r by lia. rewrite Z.shiftl_mul_pow2, Z.shiftr_div_pow2 by lia. lia.
Qed.
Lemma round_down_spec n : 0 <= n -> round_down align_log n = ALIGN * (n / ALIGN) /\ n - ALIGN < round_down align_log n <= n.
Proof.
  intros Hn. unfold round_down. rewrite mask_spec. split; [done|]. pose proof align_pos. pose proof (Z.mod_pos_bound n ALIGN ltac:(lia)).
  pose proof (Z.div_mod n ALIGN ltac:(lia)). lia.
Qed.
(** The least multiple of the alignment above [n]. *)
Lemma round_up_spec n : 0 <= n <= SIZE_MAX - (ALIGN - 1) ->
  (exists q, 0 <= q /\ round_up align_log n = ALIGN * q) /\ n <= round_up align_log n < n + ALIGN.
Proof.
  intros Hn. pose proof align_pos. unfold round_up. unfold SIZE_MAX in Hn. rewrite u64_small by lia. rewrite mask_spec.
  pose proof (Z.mod_pos_bound (n + (ALIGN - 1)) ALIGN ltac:(lia)). pose proof (Z.div_mod (n + (ALIGN - 1)) ALIGN ltac:(lia)).
  split; [|lia]. exists ((n + (ALIGN - 1)) / ALIGN). split; [apply Z.div_pos; lia|done].
Qed.
(** Near the top of [size_t] the sum wraps to something small. *)
Lemma round_up_wraps n : SIZE_MAX - (ALIGN - 1) < n <= SIZE_MAX -> round_up align_log n < n.
Proof.
  intros Hn. pose proof align_pos. unfold round_up. unfold SIZE_MAX in Hn. rewrite mask_spec.
  assert (E : u64 (n + (ALIGN - 1)) = n + (ALIGN - 1) - 2 ^ 64).
  { unfold u64. rewrite <- (Z_mod_plus_full _ (-1)). replace (n + (ALIGN - 1) + -1 * 2 ^ 64) with (n + (ALIGN - 1) - 2 ^ 64) by lia. apply Z.mod_small. lia. }
  rewrite E. pose proof (Z.mod_pos_bound (n + (ALIGN - 1) - 2 ^ 64) ALIGN ltac:(lia)).
  pose proof (Z.div_mod (n + (ALIGN - 1) - 2 ^ 64) ALIGN ltac:(lia)). lia.
Qed.

(** * What a history keeps *)

(** Blocks laid end to end from [start] to [fin]. *)
Fixpoint laid (start : Z) (live : list (Z * Z)) (fin : Z) : Prop :=
  match live with
  | [] => start = fin
  | (p, n) :: rest => p = start /\ 0 < n /\ (exists q, n = ALIGN * q) /\ laid (start + n) rest fin
  end.
Record arena_ok (buf size : Z) (a : arena) (live : list (Z * Z)) : Prop := {
  ao_buf : ar_buf a = buf;
  ao_size : ar_size a = size;
  ao_off : 0 <= ar_offset a <= size;
  ao_aligned : exists q, ar_offset a = ALIGN * q;
  ao_laid : laid buf live (buf + ar_offset a);
  ao_peak : ar_offset a <= peak_offset (ar_stats a) <= size
}.

Lemma laid_snoc start live p n : laid start live p -> 0 < n -> (exists q, n = ALIGN * q) -> laid start (live ++ [(p, n)]) (p + n).
Proof.
  revert start; induction live as [|[p' n'] live IH]; intros start Hl Hn Hq; cbn in *; [by subst|].
  destruct Hl as (-> & Hn' & Hq' & Hl). split_and!; try done. by apply IH.
Qed.
Lemma laid_le start live fin : laid start live fin -> start <= fin.
Proof. revert start; induction live as [|[p n] live IH]; intros start; cbn; [lia|]. intros (_ & Hn & _ & H%IH). lia. Qed.
Lemma laid_blocks start live fin : laid start live fin ->
  Forall (fun b => start <= b.1 /\ 0 < b.2 /\ b.1 + b.2 <= fin /\ exists q, b.1 = start + ALIGN * q) live /\
  StronglySorted (fun b b' => b.1 + b.2 <= b'.1) live.
Proof.
  revert start; induction live as [|[p n] live IH]; intros start; cbn; [split; constructor|].
  intros (-> & Hn & [q Hq] & H). pose proof (laid_le _ _ _ H). destruct (IH _ H) as [H1 H2]. split; constructor; try done; cbn [fst snd].
  - split_and!; try lia. exists 0. lia.
  - eapply Forall_impl; [exact H1|]. intros b (B1 & B2 & B3 & q' & B4). split_and!; try lia. exists (q + q'). lia.
  - eapply Forall_impl; [exact H1|]. intros b (B1 & _). cbn. lia.
Qed.

(** ** Steps *)

Lemma bump_ok buf size a live n : 0 < buf -> buf + size <= 2 ^ 64 -> arena_ok buf size a live -> 0 < n <= size - ar_offset a ->
  (exists q, n = ALIGN * q) ->
  let '(p, a1) := bump n a in p <> 0 /\ p = buf + ar_offset a /\ ar_offset a1 = ar_offset a + n /\ arena_ok buf size a1 (live ++ [(p, n)]).
Proof.
  intros Hb Hs [E1 E2 E3 E4 E5 E6] Hn Hq. cbn [bump]. rewrite u64_small by lia. rewrite E1. split; [lia|]. split; [done|]. split; [done|].
  split; cbn [ar_buf ar_size ar_offset ar_stats peak_offset]; try done; try lia.
  - destruct E4 as [q ->], Hq as [q' ->]. exists (q + q'). lia.
  - rewrite Z.add_assoc. apply laid_snoc; [done|lia|done].
  - destruct (Z.ltb_spec (peak_offset (ar_stats a)) (ar_offset a + n)); lia.
Qed.
Lemma failed_ok buf size a live : arena_ok buf size a live -> arena_ok buf size (count_failed a) live.
Proof. by intros [E1 E2 E3 E4 E5 E6]. Qed.

(** Exactly the requests that fit after rounding are served. *)
Definition fits (a : arena) (bytes : Z) : Prop := 0 < bytes /\ bytes <= SIZE_MAX - (ALIGN - 1) /\ round_up align_log bytes <= ar_size a - ar_offset a.
Lemma alloc_ok buf size a live bytes : 0 < buf -> buf + size <= 2 ^ 64 -> arena_ok buf size a live -> 0 <= bytes <= SIZE_MAX ->
  let '(p, a1) := bb_mem_arena_alloc align_log (Some a) bytes in
  (p <> 0 <-> fits a bytes) /\
  exists a1', a1 = Some a1' /\
  (p <> 0 -> p = buf + ar_offset a /\ ar_offset a1' = ar_offset a + round_up align_log bytes) /\ (p = 0 -> ar_offset a1' = ar_offset a) /\
  arena_ok buf size a1' (if p =? 0 then live else live ++ [(p, round_up align_log bytes)]).
Proof.
  intros Hb Hs Ha Hr. pose proof align_pos as Hal'. pose proof Ha as [E1 E2 E3 E4 E5 E6]. unfold bb_mem_arena_alloc, fits. rewrite E2 in *.
  assert (Hfail : forall P, ~ P -> (0 <> 0 <-> P) /\ exists a1', Some (count_failed a) = Some a1' /\
    (0 <> 0 -> 0 = buf + ar_offset a /\ ar_offset a1' = ar_offset a + round_up align_log bytes) /\ (0 = 0 -> ar_offset a1' = ar_offset a) /\
    arena_ok buf size a1' (if 0 =? 0 then live else live ++ [(0, round_up align_log bytes)])).
  { intros P HP. split; [by split|]. exists (count_failed a). split; [done|]. split; [done|]. split; [done|]. by apply failed_ok. }
  destruct (Z.eqb_spec bytes 0) as [Hz|Hz]; [apply Hfail; lia|].
  assert (Hle : bytes <= SIZE_MAX - (ALIGN - 1) -> bytes <= round_up align_log bytes /\ exists q, round_up align_log bytes = ALIGN * q).
  { intros H. destruct (round_up_spec bytes ltac:(lia)) as [(q & _ & Hq) H2]. split; [lia|by exists q]. }
  destruct (Z.ltb_spec (size - ar_offset a) bytes); [apply Hfail; intros (_ & H1 & H2); apply Hle in H1; lia|].
  destruct (Z.leb_spec bytes (SIZE_MAX - (ALIGN - 1))) as [Hbig|Hbig].
  - destruct (Hle Hbig) as [H1 Hq]. destruct (Z.ltb_spec (round_up align_log bytes) bytes); [lia|].
    destruct (Z.ltb_spec (size - ar_offset a) (round_up align_log bytes)); cbn [orb]; [apply Hfail; lia|].
    pose proof (bump_ok buf size a live (round_up align_log bytes) Hb Hs Ha ltac:(lia) Hq) as Hbp.
    destruct (bump (round_up align_log bytes) a) as [p a1]. destruct Hbp as (Hp & Hp' & Ho & Hok).
    split; [split; [lia|done]|]. exists a1. split; [done|]. split; [done|]. split; [lia|]. apply Z.eqb_neq in Hp. by rewrite Hp.
  - pose proof (round_up_wraps bytes ltac:(lia)). destruct (Z.ltb_spec (round_up align_log bytes) bytes); [|lia].
    cbn [orb]. apply Hfail. lia.
Qed.
Lemma rest_ok buf size a live : 0 < buf -> buf + size <= 2 ^ 64 -> arena_ok buf size a live ->
  let '(p, n, a1) := bb_mem_arena_alloc_rest align_log (Some a) in
  n = round_down align_log (ar_size a - ar_offset a) /\ (p <> 0 <-> 0 < n) /\ (p <> 0 -> p = buf + ar_offset a) /\
  exists a1', a1 = Some a1' /\ arena_ok buf size a1' (if p =? 0 then live else live ++ [(p, n)]).
Proof.
  intros Hb Hs Ha. pose proof Ha as [E1 E2 E3 E4 E5 E6]. pose proof align_pos as Hal'. unfold bb_mem_arena_alloc_rest. rewrite E2.
  destruct (round_down_spec (size - ar_offset a) ltac:(lia)) as [Hq Hd]. set (n := round_down _ _) in *.
  assert (0 <= n) by (rewrite Hq; apply Z.mul_nonneg_nonneg; [lia|apply Z.div_pos; lia]).
  destruct (Z.eqb_spec n 0) as [->|Hn].
  - split; [done|]. split; [lia|]. split; [lia|]. exists (count_failed a). split; [done|]. by apply failed_ok.
  - pose proof (bump_ok buf size a live n Hb Hs Ha ltac:(lia) ltac:(by eexists)) as Hbp. destruct (bump n a) as [p a1]. destruct Hbp as (Hp & Hp' & Ho & Hok).
    split; [done|]. split; [lia|]. split; [done|]. exists a1. split; [done|]. apply Z.eqb_neq in Hp. by rewrite Hp.
Qed.

Definition call_sane (c : arena_call) : Prop := match c with CAlloc bytes => 0 <= bytes <= SIZE_MAX | _ => True end.

Lemma step_ok buf size a live c w1 : 0 < buf -> buf + size <= 2 ^ 64 -> arena_ok buf size a live -> call_sane c ->
  arena_step align_log c (Some a, live) = Some w1 -> exists a1, w1.1 = Some a1 /\ arena_ok buf size a1 w1.2.
Proof.
  intros Hb Hs Ha Hc. destruct c as [bytes| |ptr|]; cbn [arena_step].
  - pose proof (alloc_ok buf size a live bytes Hb Hs Ha Hc) as H. destruct (bb_mem_arena_alloc _ _ _) as [p a1].
    destruct H as (_ & a1' & -> & _ & _ & H). intros [= <-]. by exists a1'.
  - pose proof (rest_ok buf size a live Hb Hs Ha) as H. destruct (bb_mem_arena_alloc_rest _ _) as [[p n] a1].
    destruct H as (_ & _ & _ & a1' & -> & H). intros [= <-]. by exists a1'.
  - cbn [bb_mem_arena_free]. destruct (ptr =? 0); [intros [= <-]; by exists a|]. destruct (bb_mem_arena_owns _ _); [|done]. intros [= <-].
    eexists. split; [reflexivity|]. by destruct Ha.
  - intros [= <-]. cbn. eexists. split; [reflexivity|]. destruct Ha as [E1 E2 E3 E4 E5 E6]. split; cbn; try done; try lia.
    exists 0. lia.
Qed.
Lemma run_ok buf size cs : forall a live w1, 0 < buf -> buf + size <= 2 ^ 64 -> arena_ok buf size a live -> Forall call_sane cs ->
  arena_run align_log cs (Some a, live) = Some w1 -> exists a1, w1.1 = Some a1 /\ arena_ok buf size a1 w1.2.
Proof.
  induction cs as [|c cs IH]; intros a live w1 Hb Hs Ha Hc Hr; cbn [arena_run] in Hr; [injection Hr as <-; by exists a|].
  inversion_clear Hc. destruct (arena_step align_log c (Some a, live)) as [[a2 live2]|] eqn:E; [|done].
  destruct (step_ok buf size a live c _ Hb Hs Ha H E) as (a2' & Ha2 & Hok). cbn in Ha2, Hok. subst a2. by apply (IH a2' live2).
Qed.

Lemma init_ok block total a : 0 < block -> block + total <= 2 ^ 64 ->
  bb_mem_arena_init align_log struct_size true block total = (BB_OK, Some a) ->
  arena_ok (block + BB_MEM_ARENA_HDR_SZ align_log struct_size) (total - BB_MEM_ARENA_HDR_SZ align_log struct_size) a [] /\
  0 <= BB_MEM_ARENA_HDR_SZ align_log struct_size /\ (exists q, BB_MEM_ARENA_HDR_SZ align_log struct_size = ALIGN * q) /\
  BB_MEM_ARENA_HDR_SZ align_log struct_size + ALIGN <= total.
Proof.
  intros Hb Ht. pose proof align_pos as Hal'. unfold bb_mem_arena_init, bb_mem_arena_carve. cbn [negb orb].
  destruct (round_up_spec struct_size) as [(q & Hq0 & Hq) Hr]; [unfold SIZE_MAX; lia|]. fold (BB_MEM_ARENA_HDR_SZ align_log struct_size) in Hq, Hr.
  destruct (block =? 0); [done|]. cbn [orb]. rewrite u64_small by lia. destruct (Z.ltb_spec total (BB_MEM_ARENA_HDR_SZ align_log struct_size + ALIGN)); [done|].
  intros [= <-]. split; [|split; [lia|split; [by exists q|lia]]]. split; cbn; try done; try lia. exists 0. lia.
Qed.
End Proofs.

(** * Properties *)

(** Whatever is asked of an arena on a suitably aligned buffer, the blocks it
    has handed out since the last reset are aligned, lie inside the data region,
    do not overlap and are owned by it; the free bytes are exactly what is not
    handed out; the offset never passes its recorded peak; and the next request
    is served exactly when, rounded up to the alignment, it fits. *)
Theorem arena_blocks_disjoint align_log struct_size block total a0 cs a live :
  let ALIGN := BB_MEM_ARENA_ALIGN align_log in
  0 <= align_log <= 12 -> 0 <= struct_size < 2 ^ 32 -> 0 < block -> block + total <= 2 ^ 64 -> (exists q, block = ALIGN * q) ->
  bb_mem_arena_init align_log struct_size true block total = (BB_OK, Some a0) ->
  Forall call_sane cs -> arena_run align_log cs (Some a0, []) = Some (a, live) ->
  Forall (fun b => block <= b.1 /\ 0 < b.2 /\ b.1 + b.2 <= block + total /\ (exists q, b.1 = ALIGN * q) /\
                   bb_mem_arena_owns a b.1 = true) live /\
  StronglySorted (fun b b' => b.1 + b.2 <= b'.1) live /\
  foldr Z.add 0 (map snd live) + bb_mem_arena_free_bytes a = bb_mem_arena_size a /\
  (exists st, bb_mem_arena_get_stats a = Some st /\ bb_mem_arena_size a - bb_mem_arena_free_bytes a <= peak_offset st <= bb_mem_arena_size a) /\
  forall bytes, 0 <= bytes <= SIZE_MAX ->
    (bb_mem_arena_alloc align_log a bytes).1 <> 0 <-> 0 < bytes <= SIZE_MAX - (ALIGN - 1) /\ round_up align_log bytes <= bb_mem_arena_free_bytes a.
Proof.
  intros ALIGN Hal Hss Hb Ht [qb Hqb] Hi Hc Hr.
  destruct (init_ok align_log struct_size Hal Hss block total a0 Hb Ht Hi) as (Hok0 & Hh & [qh Hqh] & Hmin).
  set (H := BB_MEM_ARENA_HDR_SZ align_log struct_size) in *.
  destruct (run_ok align_log Hal (block + H) (total - H) cs a0 [] (a, live) ltac:(lia) ltac:(lia) Hok0 Hc Hr) as (a1 & Ea & Hok).
  cbn [fst snd] in Ea, Hok. subst a. pose proof Hok as [E1 E2 E3 E4 E5 E6]. destruct (laid_blocks _ _ _ _ E5) as [Hblk Hsort].
  split_and!.
  - eapply Forall_impl; [exact Hblk|]. intros b (B1 & B2 & B3 & q & B4). cbv beta. split_and!; try lia.
    + exists (qb + qh + q). change (BB_MEM_ARENA_ALIGN align_log) with ALIGN in Hqh, B4. rewrite !Z.mul_add_distr_l. lia.
    + cbn [bb_mem_arena_owns]. destruct (Z.eqb_spec b.1 0); [lia|]. rewrite E1, E2. apply andb_true_iff. rewrite Z.leb_le, Z.ltb_lt. lia.
  - exact Hsort.
  - cbn [bb_mem_arena_free_bytes bb_mem_arena_size]. enough (Hsum : forall s l f, laid align_log s l f -> foldr Z.add 0 (map snd l) = f - s).
    { rewrite (Hsum _ _ _ E5). lia. }
    intros s l. revert s. induction l as [|[p n] l IH]; intros s f; cbn; [lia|]. intros (_ & _ & _ & Hl%IH). lia.
  - eexists. split; [reflexivity|]. cbn [bb_mem_arena_free_bytes bb_mem_arena_size]. lia.
  - intros bytes Hby. pose proof (alloc_ok align_log Hal (block + H) (total - H) a1 live bytes ltac:(lia) ltac:(lia) Hok Hby) as Hal'.
    destruct (bb_mem_arena_alloc _ _ _) as [p a2]. destruct Hal' as [Hp _]. cbn [fst bb_mem_arena_free_bytes]. rewrite Hp. unfold fits, ALIGN. lia.
Qed.

Lemma arena_blocks_disjoint_witness :
  let a0 := mk_arena 1088 112 0 (mk_stats 0 0 0 0) 0 in
  let cs := [CAlloc 20; CAlloc 0; CFree 1090; CAlloc 100; CRest] in
  bb_mem_arena_init 4 64 true 1024 176 = (BB_OK, Some a0) /\
  exists a, arena_run 4 cs (Some a0, []) = Some (a, [(1088, 32); (1120, 80)]) /\
    foldr Z.add 0 (map snd [(1088, 32); (1120, 80)]) + bb_mem_arena_free_bytes a = bb_mem_arena_size a.
Proof.
  assert (Hi : bb_mem_arena_init 4 64 true 1024 176 = (BB_OK, Some (mk_arena 1088 112 0 (mk_stats 0 0 0 0) 0))) by (vm_compute; reflexivity).
  split; [exact Hi|]. eexists. split; [vm_compute; reflexivity|].
  apply (arena_blocks_disjoint 4 64 1024 176 (mk_arena 1088 112 0 (mk_stats 0 0 0 0) 0) [CAlloc 20; CAlloc 0; CFree 1090; CAlloc 100; CRest] _ [(1088, 32); (1120, 80)]).
  - lia.
  - lia.
  - lia.
  - lia.
  - exists 64. reflexivity.
  - exact Hi.
  - repeat constructor; unfold SIZE_MAX; cbn; try lia.
  - vm_compute. reflexivity.
Defined.
