(* ===== verification/Pool.v ===== *)
(** bb_pool: the object pool carved from an arena, in its four modes
    (platform/host/bb_pool/bb_pool.c). *)
From Stdlib Require Import Strings.String.
From S2P Require Import Prelude Bytes Arena.
Local Open Scope Z_scope.

(** * Data (bb_pool.h) *)

Inductive pool_mode : Set := BB_POOL_MODE_RETAINED | BB_POOL_MODE_FIFO | BB_POOL_MODE_TRANSIENT | BB_POOL_MODE_SLOTS.
Inductive pool_full_policy : Set := BB_POOL_FULL_EVICT_OLDEST | BB_POOL_FULL_REJECT_NEW.
Inductive pool_backing : Set := BB_POOL_BACKING_HEAP | BB_POOL_BACKING_SPIRAM.
#[export] Instance pool_mode_eq_dec : EqDecision pool_mode.
Proof. solve_decision. Defined.
#[export] Instance pool_full_policy_eq_dec : EqDecision pool_full_policy.
Proof. solve_decision. Defined.

(** The callbacks act on what [cb_ctx] points to, a [W]; [None] is NULL. *)
Record pool_cfg (W : Type) := mk_pcfg {
  c_mode : pool_mode;
  c_capacity : Z;
  c_max_slot_bytes : Z;
  c_full_policy : pool_full_policy;
  c_name : option (list byte);
  c_transient_reserve_bytes : Z;
  c_on_acquire : option (Z -> W -> W);
  c_on_release : option (Z -> W -> W);
  c_slot_reusable : option (Z -> W -> bool * W);
  c_slot_reap : option (Z -> W -> W);
  c_on_destroy : option (Z -> W -> W)
}.
Arguments mk_pcfg {W}. Arguments c_mode {W}. Arguments c_capacity {W}. Arguments c_max_slot_bytes {W}.
Arguments c_full_policy {W}. Arguments c_name {W}. Arguments c_transient_reserve_bytes {W}. Arguments c_on_acquire {W}.
Arguments c_on_release {W}. Arguments c_slot_reusable {W}. Arguments c_slot_reap {W}. Arguments c_on_destroy {W}.

Record retained_slot := mk_rslot { rs_data : Z; rs_len : Z; rs_valid : bool }.
Record fifo := mk_fifo { ff_entries : Z; ff_stride : Z; ff_head : Z; ff_count : Z; ff_dropped : Z }.
(** [sl_free_list]: the whole array; the stack is its first [sl_free_top]
    entries.  The bitmaps are bytes. *)
Record slots := mk_slots {
  sl_storage : Z; sl_stride : Z; sl_free_list : list Z; sl_free_top : nat; sl_acquired : list Z; sl_pending : list Z
}.
(** The arena a pool lives in is passed beside it. *)
Record pool (W : Type) := mk_pool {
  p_cfg : pool_cfg W; p_owns_arena : bool; p_name : list byte;
  p_retained : list retained_slot; p_fifo : fifo; p_slots : slots
}.
Arguments mk_pool {W}. Arguments p_cfg {W}. Arguments p_owns_arena {W}. Arguments p_name {W}.
Arguments p_retained {W}. Arguments p_fifo {W}. Arguments p_slots {W}.

Definition BB_POOL_NAME_MAX : nat := 24.

(** * Overflow-safe arithmetic; [None]: it overflows *)

Definition add_ovf (a b : Z) : option Z := if SIZE_MAX - b <? a then None else Some (a + b).
Definition mul_ovf (a b : Z) : option Z := if negb (a =? 0) && (SIZE_MAX / a <? b) then None else Some (a * b).

(** * Bitmaps *)

Definition bitmap_bytes_for (capacity : Z) : Z := match add_ovf capacity 7 with None => SIZE_MAX | Some n => n / 8 end.
Definition bitmap_bit (idx : nat) : Z := Z.shiftl 1 (Z.of_nat (idx mod 8)).
Definition bitmap_test (bm : list Z) (idx : nat) : bool := negb (Z.land (nth (idx / 8) bm 0) (u8 (bitmap_bit idx)) =? 0).
Definition bitmap_set (bm : list Z) (idx : nat) : list Z := alter (fun b => Z.lor b (u8 (bitmap_bit idx))) (idx / 8)%nat bm.
Definition bitmap_clear (bm : list Z) (idx : nat) : list Z := alter (fun b => Z.land b (u8 (Z.lnot (bitmap_bit idx)))) (idx / 8)%nat bm.

Section Pool.
(** The alignment as a power of two, and the sizes of the structures and of a
    pointer. *)
Context (align_log sizeof_pool sizeof_rslot sizeof_ptr : Z).
Context {W : Type}.
Abbreviation cfg_t := (pool_cfg W).
Abbreviation pool_t := (pool W).

Definition BB_POOL_ALIGN : Z := BB_MEM_ARENA_ALIGN align_log.
Definition align_up (n : Z) : Z := if SIZE_MAX - (BB_POOL_ALIGN - 1) <? n then SIZE_MAX else round_up align_log n.

(** The header of a ring entry: [size_t len; int64_t ts; uint32_t id], padded. *)
Definition sizeof_fifo_hdr : Z := 24.

(** ** Sizing; [None] is the return of 0 *)

Definition size_needed (cfg : cfg_t) : option Z :=
  let total := align_up sizeof_pool in
  let cap := c_capacity cfg in
  let unsized := (cap =? 0) || (c_max_slot_bytes cfg =? 0) in
  match c_mode cfg with
  | BB_POOL_MODE_TRANSIENT =>
      if c_transient_reserve_bytes cfg =? 0 then Some total else add_ovf total (c_transient_reserve_bytes cfg)
  | BB_POOL_MODE_RETAINED =>
      if unsized then None else
      arr ← mul_ovf cap sizeof_rslot; t1 ← add_ovf total (align_up arr);
      data ← mul_ovf cap (align_up (c_max_slot_bytes cfg)); add_ovf t1 data
  | BB_POOL_MODE_FIFO =>
      if unsized then None else
      payload ← add_ovf sizeof_fifo_hdr (c_max_slot_bytes cfg);
      ring ← mul_ovf cap (align_up payload); add_ovf total ring
  | BB_POOL_MODE_SLOTS =>
      if unsized then None else
      storage ← mul_ovf cap (align_up (c_max_slot_bytes cfg)); t1 ← add_ovf total storage;
      list_bytes ← mul_ovf cap sizeof_ptr; t2 ← add_ovf t1 (align_up list_bytes);
      if bitmap_bytes_for cap =? SIZE_MAX then None else
      let bitmap_bytes := align_up (bitmap_bytes_for cap) in
      t3 ← add_ovf t2 bitmap_bytes; add_ovf t3 bitmap_bytes
  end.
Definition bb_pool_arena_size_needed (cfg : option cfg_t) : Z :=
  match cfg with None => 0 | Some cfg => default 0 (size_needed cfg) end.

(** ** Creation *)

(** [memset(p, 0, n)]. *)
Definition zeroed (m : mem) (p n : Z) : mem := mwrite m p (repeat x00 (Z.to_nat n)).
Definition no_fifo : fifo := mk_fifo 0 0 0 0 0.
Definition no_slots : slots := mk_slots 0 0 [] 0 [] [].
Definition fresh_pool (cfg : cfg_t) : pool_t :=
  mk_pool cfg false (match c_name cfg with Some n => take (BB_POOL_NAME_MAX - 1) (cstr n) | None => [] end) [] no_fifo no_slots.

(** One slot's buffer after another. *)
Fixpoint carve_retained (n : nat) (slot_bytes : Z) (a : option arena) : option (list retained_slot) * option arena :=
  match n with
  | O => (Some [], a)
  | S n' =>
      let '(p, a1) := bb_mem_arena_alloc align_log a slot_bytes in
      if p =? 0 then (None, a1) else
      let '(rest, a2) := carve_retained n' slot_bytes a1 in (option_map (cons (mk_rslot p 0 false)) rest, a2)
  end.

Definition created : Type := bb_err * option pool_t * option arena * mem.
Definition create_retained (cfg : cfg_t) (a : option arena) (m : mem) : created :=
  let '(arr, a1) := bb_mem_arena_alloc align_log a (c_capacity cfg * sizeof_rslot) in
  if arr =? 0 then (BB_ERR_NO_SPACE, None, a1, m) else
  let '(rs, a2) := carve_retained (Z.to_nat (c_capacity cfg)) (c_max_slot_bytes cfg) a1 in
  match rs with
  | None => (BB_ERR_NO_SPACE, None, a2, m)
  | Some rs => let p := fresh_pool cfg in (BB_OK, Some (mk_pool cfg false (p_name p) rs no_fifo no_slots), a2, m)
  end.
Definition create_fifo (cfg : cfg_t) (a : option arena) (m : mem) : created :=
  let stride := align_up (sizeof_fifo_hdr + c_max_slot_bytes cfg) in
  let '(entries, a1) := bb_mem_arena_alloc align_log a (c_capacity cfg * stride) in
  if entries =? 0 then (BB_ERR_NO_SPACE, None, a1, m) else
  (BB_OK, Some (mk_pool cfg false (p_name (fresh_pool cfg)) [] (mk_fifo entries stride 0 0 0) no_slots), a1, m).
Definition create_slots (cfg : cfg_t) (a : option arena) (m : mem) : created :=
  let cap := Z.to_nat (c_capacity cfg) in
  let stride := align_up (c_max_slot_bytes cfg) in
  let '(storage, a1) := bb_mem_arena_alloc align_log a (c_capacity cfg * stride) in
  if storage =? 0 then (BB_ERR_NO_SPACE, None, a1, m) else
  let m1 := zeroed m storage (c_capacity cfg * stride) in
  let '(fl, a2) := bb_mem_arena_alloc align_log a1 (c_capacity cfg * sizeof_ptr) in
  if fl =? 0 then (BB_ERR_NO_SPACE, None, a2, m1) else
  let bitmap_bytes := align_up (bitmap_bytes_for (c_capacity cfg)) in
  let '(acq, a3) := bb_mem_arena_alloc align_log a2 bitmap_bytes in
  if acq =? 0 then (BB_ERR_NO_SPACE, None, a3, m1) else
  let '(pend, a4) := bb_mem_arena_alloc align_log a3 bitmap_bytes in
  if pend =? 0 then (BB_ERR_NO_SPACE, None, a4, m1) else
  let zeros := repeat 0 (Z.to_nat bitmap_bytes) in
  let sl := mk_slots storage stride (map (fun i => storage + Z.of_nat i * stride) (seq 0 cap)) cap zeros zeros in
  (BB_OK, Some (mk_pool cfg false (p_name (fresh_pool cfg)) [] no_fifo sl), a4, m1).

(** [arena = None], [cfg = None], [out_ok = false]: NULL. *)
Definition bb_pool_create (cfg : option cfg_t) (arena : option Arena.arena) (out_ok : bool) (m : mem) : created :=
  match cfg, arena with
  | Some cfg, Some _ =>
      if negb out_ok then (BB_ERR_INVALID_ARG, None, arena, m) else
      if negb (bool_decide (c_mode cfg = BB_POOL_MODE_TRANSIENT)) && ((c_capacity cfg =? 0) || (c_max_slot_bytes cfg =? 0))
      then (BB_ERR_INVALID_ARG, None, arena, m) else
      let need := bb_pool_arena_size_needed (Some cfg) in
      if need =? 0 then (BB_ERR_INVALID_ARG, None, arena, m) else
      if bb_mem_arena_free_bytes arena <? need then (BB_ERR_NO_SPACE, None, arena, m) else
      let '(p, a1) := bb_mem_arena_alloc align_log arena sizeof_pool in
      if p =? 0 then (BB_ERR_NO_SPACE, None, a1, m) else
      match c_mode cfg with
      | BB_POOL_MODE_RETAINED => create_retained cfg a1 m
      | BB_POOL_MODE_FIFO => create_fifo cfg a1 m
      | BB_POOL_MODE_SLOTS => create_slots cfg a1 m
      | BB_POOL_MODE_TRANSIENT => (BB_OK, Some (fresh_pool cfg), a1, m)
      end
  | _, _ => (BB_ERR_INVALID_ARG, None, arena, m)
  end.

(** The blocks given back to the heap come last. *)
Definition bb_pool_create_owned (struct_size : Z) (calloc : Z -> Z) (cfg : option cfg_t) (backing : pool_backing) (out_ok : bool) (m : mem)
  : created * list Z :=
  match cfg with
  | None => ((BB_ERR_INVALID_ARG, None, None, m), [])
  | Some _ =>
      if negb out_ok then ((BB_ERR_INVALID_ARG, None, None, m), []) else
      let need := bb_pool_arena_size_needed cfg in
      if need =? 0 then ((BB_ERR_INVALID_ARG, None, None, m), []) else
      let '(rc, arena, freed) := match backing with
                                 | BB_POOL_BACKING_SPIRAM => bb_mem_arena_init_spiram align_log struct_size calloc true need
                                 | BB_POOL_BACKING_HEAP => bb_mem_arena_init_heap align_log struct_size calloc true need
                                 end in
      if negb (is_ok rc) then ((rc, None, None, m), freed) else
      match bb_pool_create cfg arena true m with
      | (BB_OK, Some p, a, m1) => ((BB_OK, Some (mk_pool (p_cfg p) true (p_name p) (p_retained p) (p_fifo p) (p_slots p)), a, m1), freed)
      | (rc, _, a, m1) => ((rc, None, None, m1), freed ++ (bb_mem_arena_destroy a).2)
      end
  end.

(** ** TRANSIENT *)

Definition bb_pool_alloc (p : option pool_t) (a : option arena) (bytes : Z) : Z * option arena :=
  match p with None => (0, a) | Some _ => bb_mem_arena_alloc align_log a bytes end.
Definition bb_pool_free (p : option pool_t) (a : option arena) (ptr : Z) : option (option arena) :=
  match p with None => Some a | Some _ => bb_mem_arena_free a ptr end.
Definition bb_pool_reset (p : option pool_t) (a : option arena) : option arena :=
  match p with None => a | Some _ => bb_mem_arena_reset a end.
Definition bb_pool_get_stats (p : option pool_t) (a : option arena) : option arena_stats :=
  match p with None => None | Some _ => bb_mem_arena_get_stats a end.

(** ** RETAINED *)

Definition set_retained (rs : list retained_slot) (p : pool_t) : pool_t :=
  mk_pool (p_cfg p) (p_owns_arena p) (p_name p) rs (p_fifo p) (p_slots p).
(** [data = None]: NULL, with the length [len]; else [len] is its length. *)
Definition bb_pool_retained_update (p : option pool_t) (slot_idx : Z) (data : option (list byte)) (len : Z) (m : mem)
  : bb_err * option pool_t * mem :=
  match p with
  | None => (BB_ERR_INVALID_ARG, p, m)
  | Some q =>
      if negb (bool_decide (c_mode (p_cfg q) = BB_POOL_MODE_RETAINED)) then (BB_ERR_INVALID_STATE, p, m) else
      if c_capacity (p_cfg q) <=? slot_idx then (BB_ERR_INVALID_ARG, p, m) else
      if c_max_slot_bytes (p_cfg q) <? len then (BB_ERR_INVALID_ARG, p, m) else
      if match data with None => 0 <? len | Some _ => false end then (BB_ERR_INVALID_ARG, p, m) else
      let i := Z.to_nat slot_idx in
      match p_retained q !! i with
      | None => (BB_ERR_INVALID_ARG, p, m)
      | Some s =>
          let m1 := match data with Some d => mwrite m (rs_data s) d | None => m end in
          (BB_OK, Some (set_retained (<[i := mk_rslot (rs_data s) len true]> (p_retained q)) q), m1)
      end
  end.
(** The address and the length. *)
Definition bb_pool_retained_get (p : option pool_t) (slot_idx : Z) (outs_ok : bool) : bb_err * option (Z * Z) :=
  match p with
  | None => (BB_ERR_INVALID_ARG, None)
  | Some q =>
      if negb outs_ok then (BB_ERR_INVALID_ARG, None) else
      if negb (bool_decide (c_mode (p_cfg q) = BB_POOL_MODE_RETAINED)) then (BB_ERR_INVALID_STATE, None) else
      if c_capacity (p_cfg q) <=? slot_idx then (BB_ERR_INVALID_ARG, None) else
      match p_retained q !! Z.to_nat slot_idx with
      | None => (BB_ERR_INVALID_ARG, None)
      | Some s => if negb (rs_valid s) then (BB_ERR_NOT_FOUND, None) else (BB_OK, Some (rs_data s, rs_len s))
      end
  end.

(** ** FIFO *)

Definition set_fifo (f : fifo) (p : pool_t) : pool_t :=
  mk_pool (p_cfg p) (p_owns_arena p) (p_name p) (p_retained p) f (p_slots p).
(** The header's bytes: the length, the time stamp, the id and four bytes of
    padding. *)
Definition fifo_hdr (len ts id : Z) : list byte := le_bytes 8 len ++ le_bytes 8 (u64 ts) ++ le_bytes 4 id ++ repeat x00 4.
Definition ring_next (cap head : Z) : Z := u64 (head + 1) mod cap.
Definition entry_at (cap : Z) (f : fifo) (logical_idx : Z) : Z :=
  ff_entries f + (u64 (ff_head f + logical_idx) mod cap) * ff_stride f.

(** The oldest entry is dropped when the ring is full and the policy allows. *)
Definition make_room (cap : Z) (policy : pool_full_policy) (f : fifo) : option fifo :=
  if negb (ff_count f =? cap) then Some f else
  match policy with
  | BB_POOL_FULL_REJECT_NEW => None
  | BB_POOL_FULL_EVICT_OLDEST =>
      Some (mk_fifo (ff_entries f) (ff_stride f) (ring_next cap (ff_head f)) (ff_count f - 1) (u64 (ff_dropped f + 1)))
  end.
Definition bb_pool_push (p : option pool_t) (data : option (list byte)) (len ts id : Z) (m : mem) : bb_err * option pool_t * mem :=
  match p with
  | None => (BB_ERR_INVALID_ARG, p, m)
  | Some q =>
      let cap := c_capacity (p_cfg q) in
      let f := p_fifo q in
      if negb (bool_decide (c_mode (p_cfg q) = BB_POOL_MODE_FIFO)) then (BB_ERR_INVALID_STATE, p, m) else
      if c_max_slot_bytes (p_cfg q) <? len then (BB_ERR_INVALID_ARG, p, m) else
      if match data with None => 0 <? len | Some _ => false end then (BB_ERR_INVALID_ARG, p, m) else
      match make_room cap (c_full_policy (p_cfg q)) f with
      | None => (BB_ERR_NO_SPACE, Some (set_fifo (mk_fifo (ff_entries f) (ff_stride f) (ff_head f) (ff_count f) (u64 (ff_dropped f + 1))) q), m)
      | Some f1 =>
          let slot := entry_at cap f1 (ff_count f1) in
          let m1 := mwrite m slot (fifo_hdr len ts id) in
          let m2 := match data with Some d => mwrite m1 (slot + sizeof_fifo_hdr) d | None => m1 end in
          (BB_OK, Some (set_fifo (mk_fifo (ff_entries f1) (ff_stride f1) (ff_head f1) (ff_count f1 + 1) (ff_dropped f1)) q), m2)
      end
  end.

(** The length, the time stamp and the id, and the bytes copied into a buffer of
    [buf_cap] bytes ([None]: NULL). *)
Definition bb_pool_peek_oldest (p : option pool_t) (buf_cap : option nat) (outs_ok : bool) (m : mem)
  : bb_err * option (Z * Z * Z * list byte) :=
  match p with
  | None => (BB_ERR_INVALID_ARG, None)
  | Some q =>
      if negb outs_ok then (BB_ERR_INVALID_ARG, None) else
      if negb (bool_decide (c_mode (p_cfg q) = BB_POOL_MODE_FIFO)) then (BB_ERR_INVALID_STATE, None) else
      if ff_count (p_fifo q) =? 0 then (BB_ERR_NOT_FOUND, None) else
      let slot := entry_at (c_capacity (p_cfg q)) (p_fifo q) 0 in
      let len := mread_u m slot 8 in
      let n := match buf_cap with None => 0%nat | Some c => Nat.min c (Z.to_nat len) end in
      (BB_OK, Some (len, to_signed 64 (mread_u m (slot + 8) 8), mread_u m (slot + 16) 4, mread m (slot + sizeof_fifo_hdr) n))
  end.
Definition bb_pool_pop_oldest (p : option pool_t) : bb_err * option pool_t :=
  match p with
  | None => (BB_ERR_INVALID_ARG, p)
  | Some q =>
      let f := p_fifo q in
      if negb (bool_decide (c_mode (p_cfg q) = BB_POOL_MODE_FIFO)) then (BB_ERR_INVALID_STATE, p) else
      if ff_count f =? 0 then (BB_ERR_NOT_FOUND, p) else
      (BB_OK, Some (set_fifo (mk_fifo (ff_entries f) (ff_stride f) (ring_next (c_capacity (p_cfg q)) (ff_head f)) (ff_count f - 1) (ff_dropped f)) q))
  end.
Definition bb_pool_count (p : option pool_t) : Z :=
  match p with Some q => if bool_decide (c_mode (p_cfg q) = BB_POOL_MODE_FIFO) then ff_count (p_fifo q) else 0 | None => 0 end.
Definition bb_pool_dropped (p : option pool_t) : Z :=
  match p with Some q => if bool_decide (c_mode (p_cfg q) = BB_POOL_MODE_FIFO) then ff_dropped (p_fifo q) else 0 | None => 0 end.

(** ** SLOTS *)

Definition set_slots (s : slots) (p : pool_t) : pool_t :=
  mk_pool (p_cfg p) (p_owns_arena p) (p_name p) (p_retained p) (p_fifo p) s.
Definition with_acquired (bm : list Z) (s : slots) : slots :=
  mk_slots (sl_storage s) (sl_stride s) (sl_free_list s) (sl_free_top s) bm (sl_pending s).
Definition with_pending (bm : list Z) (s : slots) : slots :=
  mk_slots (sl_storage s) (sl_stride s) (sl_free_list s) (sl_free_top s) (sl_acquired s) bm.
Definition with_free (fl : list Z) (top : nat) (s : slots) : slots :=
  mk_slots (sl_storage s) (sl_stride s) fl top (sl_acquired s) (sl_pending s).
Definition run_cb (cb : option (Z -> W -> W)) (ptr : Z) (w : W) : W := match cb with Some f => f ptr w | None => w end.

(** [None] is SIZE_MAX. *)
Definition slots_index_of (cap : Z) (s : slots) (ptr : Z) : option nat :=
  if ptr <? sl_storage s then None else
  let offset := ptr - sl_storage s in
  if negb (offset mod sl_stride s =? 0) then None else
  let idx := offset / sl_stride s in
  if cap <=? idx then None else Some (Z.to_nat idx).
Definition slots_ptr_at (s : slots) (idx : nat) : Z := sl_storage s + Z.of_nat idx * sl_stride s.

(** The first pending slot among [idxs] that the gate lets go. *)
Fixpoint first_reusable (reusable : Z -> W -> bool * W) (s : slots) (idxs : list nat) (w : W) : option nat * W :=
  match idxs with
  | [] => (None, w)
  | idx :: rest =>
      if negb (bitmap_test (sl_pending s) idx) then first_reusable reusable s rest w else
      let '(ok, w1) := reusable (slots_ptr_at s idx) w in
      if ok : bool then (Some idx, w1) else first_reusable reusable s rest w1
  end.

(** A slot from the free list, or one reaped now. *)
Definition take_slot (cfg : cfg_t) (s : slots) (w : W) : option Z * slots * W :=
  match sl_free_top s with
  | S top => (Some (nth top (sl_free_list s) 0), with_free (sl_free_list s) top s, w)
  | O =>
      match c_slot_reusable cfg with
      | None => (None, s, w)
      | Some reusable =>
          match first_reusable reusable s (seq 0 (Z.to_nat (c_capacity cfg))) w with
          | (None, w1) => (None, s, w1)
          | (Some idx, w1) =>
              let cand := slots_ptr_at s idx in
              (Some cand, with_pending (bitmap_clear (sl_pending s) idx) s, run_cb (c_slot_reap cfg) cand w1)
          end
      end
  end.
Definition bb_pool_acquire (p : option pool_t) (w : W) : Z * option pool_t * W :=
  match p with
  | None => (0, p, w)
  | Some q =>
      let cfg := p_cfg q in
      if negb (bool_decide (c_mode cfg = BB_POOL_MODE_SLOTS)) then (0, p, w) else
      match take_slot cfg (p_slots q) w with
      | (None, s, w1) => (0, Some (set_slots s q), w1)
      | (Some ptr, s, w1) =>
          let s1 := match slots_index_of (c_capacity cfg) s ptr with
                    | Some idx => with_acquired (bitmap_set (sl_acquired s) idx) s
                    | None => s
                    end in
          (ptr, Some (set_slots s1 q), run_cb (c_on_acquire cfg) ptr w1)
      end
  end.

Definition bb_pool_release (p : option pool_t) (ptr : Z) (w : W) : bb_err * option pool_t * W :=
  match p with
  | None => (BB_ERR_INVALID_ARG, p, w)
  | Some q =>
      let cfg := p_cfg q in
      let s := p_slots q in
      if ptr =? 0 then (BB_ERR_INVALID_ARG, p, w) else
      if negb (bool_decide (c_mode cfg = BB_POOL_MODE_SLOTS)) then (BB_ERR_INVALID_STATE, p, w) else
      match slots_index_of (c_capacity cfg) s ptr with
      | None => (BB_ERR_INVALID_ARG, p, w)
      | Some idx =>
          if negb (bitmap_test (sl_acquired s) idx) then (BB_ERR_INVALID_STATE, p, w) else
          let immediate := match c_slot_reusable cfg with None => true | Some _ => false end in
          if immediate && (c_capacity cfg <=? Z.of_nat (sl_free_top s)) then (BB_ERR_INVALID_STATE, p, w) else
          let s1 := with_acquired (bitmap_clear (sl_acquired s) idx) s in
          let w1 := run_cb (c_on_release cfg) ptr w in
          let s2 := if immediate then with_free (<[sl_free_top s1 := ptr]> (sl_free_list s1)) (S (sl_free_top s1)) s1
                    else with_pending (bitmap_set (sl_pending s1) idx) s1 in
          (BB_OK, Some (set_slots s2 q), w1)
      end
  end.

Fixpoint reap_all (reusable : Z -> W -> bool * W) (cfg : cfg_t) (idxs : list nat) (s : slots) (w : W) (reaped : Z) : Z * slots * W :=
  match idxs with
  | [] => (reaped, s, w)
  | idx :: rest =>
      if negb (bitmap_test (sl_pending s) idx) then reap_all reusable cfg rest s w reaped else
      let cand := slots_ptr_at s idx in
      let '(ok, w1) := reusable cand w in
      if negb ok then reap_all reusable cfg rest s w1 reaped else
      let s1 := with_pending (bitmap_clear (sl_pending s) idx) s in
      let w2 := run_cb (c_slot_reap cfg) cand w1 in
      let s2 := with_free (<[sl_free_top s1 := cand]> (sl_free_list s1)) (S (sl_free_top s1)) s1 in
      reap_all reusable cfg rest s2 w2 (reaped + 1)
  end.
Definition bb_pool_slots_reap_ready (p : option pool_t) (w : W) : Z * option pool_t * W :=
  match p with
  | None => (0, p, w)
  | Some q =>
      let cfg := p_cfg q in
      match c_slot_reusable cfg with
      | Some reusable =>
          if negb (bool_decide (c_mode cfg = BB_POOL_MODE_SLOTS)) then (0, p, w) else
          let '(n, s, w1) := reap_all reusable cfg (seq 0 (Z.to_nat (c_capacity cfg))) (p_slots q) w 0 in (n, Some (set_slots s q), w1)
      | None => (0, p, w)
      end
  end.

Definition count_bits (bm : list Z) (cap : Z) : Z := Z.of_nat (length (filter (fun idx => bitmap_test bm idx = true) (seq 0 (Z.to_nat cap)))).
Definition bb_pool_slots_pending_count (p : option pool_t) : Z :=
  match p with
  | Some q => if bool_decide (c_mode (p_cfg q) = BB_POOL_MODE_SLOTS) then count_bits (sl_pending (p_slots q)) (c_capacity (p_cfg q)) else 0
  | None => 0
  end.
Definition bb_pool_slots_acquired_count (p : option pool_t) : Z :=
  match p with
  | Some q => if bool_decide (c_mode (p_cfg q) = BB_POOL_MODE_SLOTS) then count_bits (sl_acquired (p_slots q)) (c_capacity (p_cfg q)) else 0
  | None => 0
  end.

(** ** Destruction: the finalizers in slot order, then the arena's block *)

Definition bb_pool_destroy (p : option pool_t) (a : option arena) (w : W) : option arena * list Z * W :=
  match p with
  | None => (a, [], w)
  | Some q =>
      let cfg := p_cfg q in
      let w1 := match c_mode cfg, c_on_destroy cfg with
                | BB_POOL_MODE_SLOTS, Some f => fold_left (fun w idx => f (slots_ptr_at (p_slots q) idx) w) (seq 0 (Z.to_nat (c_capacity cfg))) w
                | _, _ => w
                end in
      if p_owns_arena q then let '(a1, freed) := bb_mem_arena_destroy a in (a1, freed, w1) else (a, [], w1)
  end.
End Pool.

(** * Creation: all or nothing *)

Lemma add_ovf_some a b c : 0 <= a -> 0 <= b -> add_ovf a b = Some c <-> c = a + b /\ a + b <= SIZE_MAX.
Proof. intros Ha Hb. unfold add_ovf. destruct (Z.ltb_spec (SIZE_MAX - b) a); split; intros H'; try (injection H' as <-); try done; try lia. f_equal. lia. Qed.
Lemma mul_ovf_some a b c : 0 <= a -> 0 <= b -> mul_ovf a b = Some c -> c = a * b /\ 0 <= c <= SIZE_MAX.
Proof.
  intros Ha Hb. unfold mul_ovf. destruct (Z.eqb_spec a 0) as [->|Hn]; cbn [negb andb]; [intros [= <-]; unfold SIZE_MAX; lia|].
  destruct (Z.ltb_spec (SIZE_MAX / a) b) as [H|H]; [done|]. intros [= <-]. split; [done|]. split; [nia|].
  pose proof (Z.mul_div_le SIZE_MAX a ltac:(lia)). nia.
Qed.

Section Create.
Context (align_log sizeof_pool sizeof_rslot sizeof_ptr : Z) {W : Type}.
Context (Hal : 0 <= align_log <= 12) (Hp : 0 < sizeof_pool < 2 ^ 32) (Hr : 0 < sizeof_rslot < 2 ^ 32) (Hq : 0 < sizeof_ptr < 2 ^ 32).
Abbreviation ALIGN := (BB_MEM_ARENA_ALIGN align_log).
Abbreviation up := (align_up align_log).

Lemma align_up_spec n : 0 <= n <= SIZE_MAX -> n <= up n <= SIZE_MAX /\ (up n < SIZE_MAX -> n <= SIZE_MAX - (ALIGN - 1) /\ up n = round_up align_log n).
Proof.
  intros Hn. pose proof (align_pos align_log Hal). unfold align_up, BB_POOL_ALIGN. destruct (Z.ltb_spec (SIZE_MAX - (ALIGN - 1)) n); [lia|].
  destruct (round_up_spec align_log Hal n ltac:(lia)) as [_ H1].
  split; [|done]. split; [lia|]. unfold round_up. rewrite u64_small by (unfold SIZE_MAX in *; lia). rewrite (mask_spec align_log Hal).
  pose proof (Z.mul_div_le (n + (ALIGN - 1)) ALIGN ltac:(lia)). lia.
Qed.
Lemma round_up_multiple n : (exists q, n = ALIGN * q) -> 0 <= n <= SIZE_MAX - (ALIGN - 1) -> round_up align_log n = n.
Proof.
  intros [q ->] Hn. pose proof (align_pos align_log Hal). unfold round_up. rewrite u64_small by (unfold SIZE_MAX in *; lia). rewrite (mask_spec align_log Hal).
  f_equal. rewrite Z.mul_comm, Z.div_add_l by lia. rewrite Z.div_small by lia. lia.
Qed.
Lemma round_up_pos n : 0 < n <= SIZE_MAX - (ALIGN - 1) -> 0 < round_up align_log n /\ exists q, round_up align_log n = ALIGN * q.
Proof. intros Hn. destruct (round_up_spec align_log Hal n ltac:(lia)) as [(q & _ & E) H]. split; [lia|by exists q]. Qed.

(** A request within the free bytes. *)
Definition takes (buf size : Z) (a : arena) (live : list (Z * Z)) (n : Z) (p : Z) (a' : arena) (granted : Z) : Prop :=
  bb_mem_arena_alloc align_log (Some a) n = (p, Some a') /\ p = buf + ar_offset a /\ 0 < p /\ ar_offset a' = ar_offset a + granted /\
  arena_ok align_log buf size a' (live ++ [(p, granted)]).
Lemma alloc_takes buf size a live n : 0 < buf -> buf + size <= 2 ^ 64 -> arena_ok align_log buf size a live ->
  0 < n <= SIZE_MAX - (ALIGN - 1) -> round_up align_log n <= size - ar_offset a ->
  exists p a', takes buf size a live n p a' (round_up align_log n).
Proof.
  intros Hb Hs Hok Hn Hfit. pose proof (ao_size _ _ _ _ _ Hok) as Hsz. pose proof (ao_off _ _ _ _ _ Hok) as Hoff. pose proof (align_pos align_log Hal).
  pose proof (alloc_ok align_log Hal buf size a live n Hb Hs Hok ltac:(lia)) as H1. unfold takes.
  destruct (bb_mem_arena_alloc align_log (Some a) n) as [p a1]. destruct H1 as (Hf & a1' & -> & Hp1 & _ & Hok1). unfold fits in Hf. rewrite Hsz in Hf.
  assert (E : p <> 0) by (apply Hf; lia). destruct (Hp1 E) as [-> Ho]. exists (buf + ar_offset a), a1'. split_and!; try done; [lia|].
  apply Z.eqb_neq in E. by rewrite E in Hok1.
Qed.
(** The same of a size that is already aligned. *)
Lemma alloc_takes_aligned buf size a live n : 0 < buf -> buf + size <= 2 ^ 64 -> arena_ok align_log buf size a live ->
  (exists q, n = ALIGN * q) -> 0 < n <= SIZE_MAX - (ALIGN - 1) -> n <= size - ar_offset a ->
  exists p a', takes buf size a live n p a' n.
Proof.
  intros Hb Hs Hok Hm Hn Hfit. pose proof (round_up_multiple n Hm ltac:(lia)) as E.
  destruct (alloc_takes buf size a live n Hb Hs Hok Hn ltac:(lia)) as (p & a' & H). rewrite E in H. by exists p, a'.
Qed.

Lemma carve_retained_ok buf size slot_bytes n : forall a live, 0 < buf -> buf + size <= 2 ^ 64 -> arena_ok align_log buf size a live ->
  0 < slot_bytes <= SIZE_MAX - (ALIGN - 1) -> Z.of_nat n * round_up align_log slot_bytes <= size - ar_offset a ->
  exists rs a', carve_retained align_log n slot_bytes (Some a) = (Some rs, Some a') /\ length rs = n /\
    ar_offset a' = ar_offset a + Z.of_nat n * round_up align_log slot_bytes /\ (exists live', arena_ok align_log buf size a' live') /\
    (forall i s, rs !! i = Some s -> s = mk_rslot (buf + ar_offset a + Z.of_nat i * round_up align_log slot_bytes) 0 false).
Proof.
  induction n as [|n IH]; intros a live Hb Hs Hok Hsb Hfit; cbn [carve_retained].
  - exists [], a. split_and!; try done; [lia|by eexists].
  - destruct (round_up_pos slot_bytes Hsb) as [Hpos _].
    destruct (alloc_takes buf size a live slot_bytes Hb Hs Hok Hsb ltac:(nia)) as (p & a1 & -> & Hp1 & Hp0 & Ho & Hok1).
    destruct (Z.eqb_spec p 0); [lia|]. destruct (IH a1 _ Hb Hs Hok1 Hsb ltac:(nia)) as (rs & a2 & -> & Hl & Ho2 & Hok2 & Hrs).
    cbn [option_map]. eexists _, a2. split; [done|]. split; [cbn; by rewrite Hl|]. split; [lia|]. split; [done|].
    intros [|i] s Hi; cbn in Hi; [injection Hi as <-; subst p; f_equal; lia|]. apply Hrs in Hi. subst s. f_equal. lia.
Qed.

(** What a created pool looks like: its parts lie one after the other, in the
    room it took from the arena. *)
Record pool_made (cfg : pool_cfg W) (lo hi : Z) (p : pool W) : Prop := {
  pm_cfg : p_cfg p = cfg;
  pm_own : p_owns_arena p = false;
  pm_mode :
    let cap := c_capacity cfg in
    match c_mode cfg with
    | BB_POOL_MODE_TRANSIENT => True
    | BB_POOL_MODE_RETAINED =>
        exists d stride, lo < d /\ d + cap * stride <= hi /\ c_max_slot_bytes cfg <= stride /\ length (p_retained p) = Z.to_nat cap /\
          forall i s, p_retained p !! i = Some s -> s = mk_rslot (d + Z.of_nat i * stride) 0 false
    | BB_POOL_MODE_FIFO =>
        exists e stride, p_fifo p = mk_fifo e stride 0 0 0 /\ lo < e /\ e + cap * stride <= hi /\ sizeof_fifo_hdr + c_max_slot_bytes cfg <= stride
    | BB_POOL_MODE_SLOTS =>
        exists st stride n, p_slots p = mk_slots st stride (map (fun i => st + Z.of_nat i * stride) (seq 0 (Z.to_nat cap))) (Z.to_nat cap) (repeat 0 n) (repeat 0 n) /\
          lo < st /\ st + cap * stride <= hi /\ c_max_slot_bytes cfg <= stride /\ cap <= 8 * Z.of_nat n
    end
}.

Section Outcome.
Context (buf size : Z) (Hb : 0 < buf) (Hs : buf + size <= 2 ^ 64).
Context (cfg : pool_cfg W) (Hcap : 0 <= c_capacity cfg <= SIZE_MAX) (Hmax : 0 <= c_max_slot_bytes cfg <= SIZE_MAX)
  (Hres : 0 <= c_transient_reserve_bytes cfg <= SIZE_MAX).
Abbreviation needs := (size_needed align_log sizeof_pool sizeof_rslot sizeof_ptr cfg).

(** What creation takes: everything but a TRANSIENT pool's reserve. *)
Definition carved (need : Z) : Z := match c_mode cfg with BB_POOL_MODE_TRANSIENT => up sizeof_pool | _ => need end.
(** The end of a mode's own creation, from the arena after the pool's structure. *)
Definition made_from (a : arena) (room : Z) (r : created (W := W)) : Prop :=
  exists p a' m' live', r = (BB_OK, Some p, Some a', m') /\ ar_offset a' = ar_offset a + room /\ arena_ok align_log buf size a' live' /\
    pool_made cfg (buf + ar_offset a - 1) (buf + ar_offset a + room) p.

Lemma up_exact n : 0 <= n <= SIZE_MAX -> up n < SIZE_MAX ->
  n <= SIZE_MAX - (ALIGN - 1) /\ up n = round_up align_log n /\ n <= up n /\ exists q, up n = ALIGN * q.
Proof.
  intros Hn Hlt. destruct (align_up_spec n Hn) as [H1 H2]. destruct (H2 Hlt) as [H3 H4]. split_and!; try done; try lia.
  destruct (round_up_spec align_log Hal n ltac:(lia)) as [(q & _ & E) _]. exists q. lia.
Qed.

Lemma fifo_made a m live ring : arena_ok align_log buf size a live -> c_mode cfg = BB_POOL_MODE_FIFO ->
  0 < c_capacity cfg -> 0 < c_max_slot_bytes cfg -> sizeof_fifo_hdr + c_max_slot_bytes cfg <= SIZE_MAX ->
  ring = c_capacity cfg * up (sizeof_fifo_hdr + c_max_slot_bytes cfg) -> 0 <= ring <= SIZE_MAX - ALIGN -> ring <= size - ar_offset a ->
  made_from a ring (create_fifo align_log cfg (Some a) m).
Proof.
  intros Hok Hm Hc Hx Hpay -> Hring Hfit. unfold create_fifo, sizeof_fifo_hdr in *. pose proof (align_pos align_log Hal).
  destruct (align_up_spec (24 + c_max_slot_bytes cfg) ltac:(lia)) as [Hu _].
  destruct (up_exact (24 + c_max_slot_bytes cfg) ltac:(lia) ltac:(nia)) as (_ & _ & _ & q & Eq).
  destruct (alloc_takes_aligned buf size a live (c_capacity cfg * up (24 + c_max_slot_bytes cfg)) Hb Hs Hok) as (p & a1 & -> & Ep & Hp0 & Ho & Hok1).
  { exists (c_capacity cfg * q). rewrite Eq. lia. }
  { nia. }
  { lia. }
  destruct (Z.eqb_spec p 0); [lia|]. eexists _, a1, m, _. split; [reflexivity|]. split; [done|]. split; [exact Hok1|].
  split; [done|done|]. cbv zeta. rewrite Hm. eexists _, _. split; [reflexivity|]. subst p. unfold sizeof_fifo_hdr. split_and!; lia.
Qed.
Lemma retained_made a m live arr data : arena_ok align_log buf size a live -> c_mode cfg = BB_POOL_MODE_RETAINED ->
  0 < c_capacity cfg -> 0 < c_max_slot_bytes cfg ->
  arr = c_capacity cfg * sizeof_rslot -> data = c_capacity cfg * up (c_max_slot_bytes cfg) -> 0 <= arr <= SIZE_MAX ->
  0 <= up arr + data <= SIZE_MAX - ALIGN -> up arr + data <= size - ar_offset a ->
  made_from a (up arr + data) (create_retained align_log sizeof_rslot cfg (Some a) m).
Proof.
  intros Hok Hm Hc Hx -> -> Harr Hsum Hfit. unfold create_retained. pose proof (align_pos align_log Hal).
  destruct (align_up_spec (c_capacity cfg * sizeof_rslot) Harr) as [Hu1 _]. destruct (align_up_spec (c_max_slot_bytes cfg) Hmax) as [Hu2 _].
  assert (0 <= c_capacity cfg * up (c_max_slot_bytes cfg)) by nia.
  destruct (up_exact (c_capacity cfg * sizeof_rslot) Harr ltac:(lia)) as (B1 & E1 & _ & _).
  destruct (up_exact (c_max_slot_bytes cfg) Hmax ltac:(nia)) as (B2 & E2 & _ & _).
  destruct (alloc_takes buf size a live (c_capacity cfg * sizeof_rslot) Hb Hs Hok ltac:(nia) ltac:(lia)) as (p & a1 & -> & Ep & Hp0 & Ho & Hok1).
  destruct (Z.eqb_spec p 0); [lia|]. rewrite E1, E2 in *.
  destruct (carve_retained_ok buf size (c_max_slot_bytes cfg) (Z.to_nat (c_capacity cfg)) a1 _ Hb Hs Hok1 ltac:(lia)) as (rs & a2 & -> & Hl & Ho2 & [l2 Hok2] & Hrs).
  { rewrite Z2Nat.id by lia. lia. }
  rewrite Z2Nat.id in Ho2 by lia. eexists _, a2, m, l2. split; [reflexivity|]. split; [lia|]. split; [exact Hok2|].
  split; [done|done|]. cbv zeta. rewrite Hm. exists (buf + ar_offset a1), (round_up align_log (c_max_slot_bytes cfg)). split_and!; try done; lia.
Qed.
Lemma slots_made a m live storage fl bm : arena_ok align_log buf size a live -> c_mode cfg = BB_POOL_MODE_SLOTS ->
  0 < c_capacity cfg -> 0 < c_max_slot_bytes cfg ->
  storage = c_capacity cfg * up (c_max_slot_bytes cfg) -> fl = c_capacity cfg * sizeof_ptr -> bm = bitmap_bytes_for (c_capacity cfg) ->
  0 <= fl <= SIZE_MAX -> bm <> SIZE_MAX -> 0 <= storage + up fl + up bm + up bm <= SIZE_MAX - ALIGN -> storage + up fl + up bm + up bm <= size - ar_offset a ->
  made_from a (storage + up fl + up bm + up bm) (create_slots align_log sizeof_ptr cfg (Some a) m).
Proof.
  intros Hok Hm Hc Hx -> -> -> Hfl Hbm Hsum Hfit. unfold create_slots. pose proof (align_pos align_log Hal).
  assert (Hbits : 0 < bitmap_bytes_for (c_capacity cfg) <= SIZE_MAX /\ c_capacity cfg <= 8 * bitmap_bytes_for (c_capacity cfg)).
  { unfold bitmap_bytes_for in *. destruct (add_ovf (c_capacity cfg) 7) as [n|] eqn:E; [|done]. apply add_ovf_some in E as [-> E]; [|lia|lia].
    pose proof (Z.div_mod (c_capacity cfg + 7) 8 ltac:(lia)). pose proof (Z.mod_pos_bound (c_capacity cfg + 7) 8 ltac:(lia)). lia. }
  set (bm := bitmap_bytes_for (c_capacity cfg)) in *. set (fl := c_capacity cfg * sizeof_ptr) in *.
  destruct (align_up_spec (c_max_slot_bytes cfg) Hmax) as [Hu1 _]. destruct (align_up_spec fl Hfl) as [Hu2 _]. destruct (align_up_spec bm ltac:(lia)) as [Hu3 _].
  set (stride := up (c_max_slot_bytes cfg)) in *. assert (0 <= c_capacity cfg * stride) by nia.
  destruct (up_exact (c_max_slot_bytes cfg) Hmax ltac:(fold stride; nia)) as (_ & _ & _ & q1 & Q1). fold stride in Q1.
  destruct (up_exact fl Hfl ltac:(lia)) as (B2 & E2 & _ & _). destruct (up_exact bm ltac:(lia) ltac:(lia)) as (_ & _ & _ & Q3).
  destruct (alloc_takes_aligned buf size a live (c_capacity cfg * stride) Hb Hs Hok) as (p1 & a1 & -> & Ep1 & Hp1 & Ho1 & Hok1); [exists (c_capacity cfg * q1); rewrite Q1; lia|nia|lia|].
  destruct (Z.eqb_spec p1 0); [lia|].
  destruct (alloc_takes buf size a1 _ fl Hb Hs Hok1 ltac:(unfold fl in *; nia) ltac:(lia)) as (p2 & a2 & -> & Ep2 & Hp2 & Ho2 & Hok2).
  destruct (Z.eqb_spec p2 0); [lia|].
  destruct (alloc_takes_aligned buf size a2 _ (up bm) Hb Hs Hok2 Q3 ltac:(lia) ltac:(lia)) as (p3 & a3 & -> & Ep3 & Hp3 & Ho3 & Hok3).
  destruct (Z.eqb_spec p3 0); [lia|].
  destruct (alloc_takes_aligned buf size a3 _ (up bm) Hb Hs Hok3 Q3 ltac:(lia) ltac:(lia)) as (p4 & a4 & -> & Ep4 & Hp4 & Ho4 & Hok4).
  destruct (Z.eqb_spec p4 0); [lia|]. eexists _, a4, _, _. split; [reflexivity|]. split; [lia|]. split; [exact Hok4|].
  split; [done|done|]. cbv zeta. rewrite Hm. exists p1, stride, (Z.to_nat (up bm)). split; [reflexivity|]. split_and!; lia.
Qed.

(** The sizing function adds up the parts, without overflow. *)
Definition parts (need : Z) : Prop :=
  let cap := c_capacity cfg in
  let T := up sizeof_pool in
  need <= SIZE_MAX /\
  match c_mode cfg with
  | BB_POOL_MODE_TRANSIENT => need = T + c_transient_reserve_bytes cfg
  | BB_POOL_MODE_RETAINED =>
      0 < cap /\ 0 < c_max_slot_bytes cfg /\ 0 <= cap * sizeof_rslot <= SIZE_MAX /\
      0 <= cap * up (c_max_slot_bytes cfg) /\ need = T + (up (cap * sizeof_rslot) + cap * up (c_max_slot_bytes cfg))
  | BB_POOL_MODE_FIFO =>
      0 < cap /\ 0 < c_max_slot_bytes cfg /\ sizeof_fifo_hdr + c_max_slot_bytes cfg <= SIZE_MAX /\
      0 <= cap * up (sizeof_fifo_hdr + c_max_slot_bytes cfg) /\ need = T + cap * up (sizeof_fifo_hdr + c_max_slot_bytes cfg)
  | BB_POOL_MODE_SLOTS =>
      let bm := bitmap_bytes_for cap in
      0 < cap /\ 0 < c_max_slot_bytes cfg /\ 0 <= cap * sizeof_ptr <= SIZE_MAX /\ bm <> SIZE_MAX /\ 0 <= bm <= SIZE_MAX /\
      0 <= cap * up (c_max_slot_bytes cfg) /\
      need = T + (cap * up (c_max_slot_bytes cfg) + up (cap * sizeof_ptr) + up bm + up bm)
  end.
Lemma bitmap_bytes_range cap : 0 <= cap <= SIZE_MAX -> 0 <= bitmap_bytes_for cap <= SIZE_MAX.
Proof.
  intros Hc. unfold bitmap_bytes_for. destruct (add_ovf cap 7) as [n|] eqn:E; [|unfold SIZE_MAX; lia]. apply add_ovf_some in E as [-> E]; [|lia|lia].
  pose proof (Z.div_pos (cap + 7) 8 ltac:(lia) ltac:(lia)). pose proof (Z.mul_div_le (cap + 7) 8 ltac:(lia)). lia.
Qed.
Lemma size_needed_parts need : needs = Some need -> parts need.
Proof.
  unfold size_needed, parts. cbv zeta. destruct (align_up_spec sizeof_pool ltac:(unfold SIZE_MAX; lia)) as [HT _].
  destruct (align_up_spec (c_max_slot_bytes cfg) Hmax) as [HX _].
  assert (Huns : forall o : option Z, (if (c_capacity cfg =? 0) || (c_max_slot_bytes cfg =? 0) then None else o) = Some need ->
    o = Some need /\ 0 < c_capacity cfg /\ 0 < c_max_slot_bytes cfg).
  { intros o. destruct (Z.eqb_spec (c_capacity cfg) 0), (Z.eqb_spec (c_max_slot_bytes cfg) 0); try done. intros E. split; [done|lia]. }
  destruct (c_mode cfg).
  - intros (H & Hc & Hx)%Huns. apply bind_Some in H as (arr & H1 & (t1 & H2 & (data & H3 & H4)%bind_Some)%bind_Some).
    apply mul_ovf_some in H1 as [-> B1]; [|lia|lia]. destruct (align_up_spec _ B1) as [HA _]. apply add_ovf_some in H2 as [-> B2]; [|lia|lia].
    apply mul_ovf_some in H3 as [-> B3]; [|lia|lia]. apply add_ovf_some in H4 as [-> B4]; [|lia|lia]. split_and!; lia.
  - intros (H & Hc & Hx)%Huns. unfold sizeof_fifo_hdr in *. apply bind_Some in H as (pay & H1 & (ring & H2 & H3)%bind_Some).
    apply add_ovf_some in H1 as [-> B1]; [|lia|lia]. destruct (align_up_spec (24 + c_max_slot_bytes cfg) ltac:(lia)) as [HA _].
    apply mul_ovf_some in H2 as [-> B2]; [|lia|lia]. apply add_ovf_some in H3 as [-> B3]; [|lia|lia]. split_and!; lia.
  - destruct (Z.eqb_spec (c_transient_reserve_bytes cfg) 0) as [E|E]; [intros [= <-]; lia|]. intros H. apply add_ovf_some in H; lia.
  - intros (H & Hc & Hx)%Huns. apply bind_Some in H as (st & H1 & (t1 & H2 & (fl & H3 & (t2 & H4 & H5)%bind_Some)%bind_Some)%bind_Some).
    apply mul_ovf_some in H1 as [-> B1]; [|lia|lia]. apply add_ovf_some in H2 as [-> B2]; [|lia|lia].
    apply mul_ovf_some in H3 as [-> B3]; [|lia|lia]. destruct (align_up_spec _ B3) as [HA _]. apply add_ovf_some in H4 as [-> B4]; [|lia|lia].
    destruct (Z.eqb_spec (bitmap_bytes_for (c_capacity cfg)) SIZE_MAX); [done|]. pose proof (bitmap_bytes_range _ Hcap) as HB0.
    destruct (align_up_spec _ HB0) as [HB _].
    apply bind_Some in H5 as (t3 & H5 & H6). apply add_ovf_some in H5 as [-> B5]; [|lia|lia]. apply add_ovf_some in H6 as [-> B6]; [|lia|lia].
    split_and!; lia || done.
Qed.

Lemma needs_pool need : needs = Some need -> up sizeof_pool <= need.
Proof.
  intros [_ Hparts]%size_needed_parts. cbv zeta in Hparts. destruct (c_mode cfg); try lia;
    repeat match type of Hparts with _ /\ _ => destruct Hparts as [? Hparts] end;
    try (destruct (align_up_spec (c_capacity cfg * sizeof_rslot) ltac:(lia))); try (destruct (align_up_spec (c_capacity cfg * sizeof_ptr) ltac:(lia)));
    try (destruct (align_up_spec (bitmap_bytes_for (c_capacity cfg)) ltac:(lia))); lia.
Qed.
Lemma pool_struct_up : sizeof_pool <= SIZE_MAX - (ALIGN - 1) /\ up sizeof_pool = round_up align_log sizeof_pool /\ sizeof_pool <= up sizeof_pool /\ ALIGN <= up sizeof_pool.
Proof.
  pose proof (align_pos align_log Hal) as HA. destruct (up_exact sizeof_pool ltac:(unfold SIZE_MAX; lia)) as (HT1 & HT2 & HT3 & qT & HT4).
  { unfold align_up, BB_POOL_ALIGN. unfold SIZE_MAX in *. destruct (Z.ltb_spec (18446744073709551615 - (ALIGN - 1)) sizeof_pool); [lia|].
    destruct (round_up_spec align_log Hal sizeof_pool ltac:(unfold SIZE_MAX; lia)) as [_ ?]. lia. }
  split_and!; try done. assert (0 < qT) by nia. nia.
Qed.
Lemma needs_align need : needs = Some need -> ALIGN <= need.
Proof. intros H%needs_pool. destruct pool_struct_up as (_ & _ & _ & H1). lia. Qed.

(** Creation in an arena: refused with the arena untouched, or all of it. *)
Lemma create_outcome a m live : arena_ok align_log buf size a live ->
  let r := bb_pool_create align_log sizeof_pool sizeof_rslot sizeof_ptr (Some cfg) (Some a) true m in
  match needs with
  | None => r = (BB_ERR_INVALID_ARG, None, Some a, m)
  | Some need =>
      if size - ar_offset a <? need then r = (BB_ERR_NO_SPACE, None, Some a, m)
      else exists p a' m' live', r = (BB_OK, Some p, Some a', m') /\ ar_offset a' = ar_offset a + carved need /\
             arena_ok align_log buf size a' live' /\ pool_made cfg (buf + ar_offset a) (buf + ar_offset a + carved need) p
  end.
Proof.
  intros Hok. cbv zeta. unfold bb_pool_create. cbn [negb]. cbn [bb_pool_arena_size_needed bb_mem_arena_free_bytes].
  destruct pool_struct_up as (HT1 & HT2 & HT3 & HTA).
  destruct needs as [need|] eqn:En.
  2: { destruct (_ && _); [done|]. cbn. done. }
  pose proof (needs_pool need En) as Hneed. apply size_needed_parts in En as [Hn Hparts]. change (default 0 (Some need)) with need.
  assert (Hsized : negb (bool_decide (c_mode cfg = BB_POOL_MODE_TRANSIENT)) && ((c_capacity cfg =? 0) || (c_max_slot_bytes cfg =? 0)) = false).
  { destruct (c_mode cfg) eqn:E; cbn; [..|]; try done; destruct Hparts as (H1 & H2 & _); apply orb_false_iff; split; apply Z.eqb_neq; lia. }
  rewrite Hsized. clear Hsized. pose proof (ao_size _ _ _ _ _ Hok) as Hsz. pose proof (ao_off _ _ _ _ _ Hok) as Hoff. rewrite Hsz.
  destruct (Z.eqb_spec need 0); [lia|]. destruct (Z.ltb_spec (size - ar_offset a) need) as [|Hfit]; [done|].
  destruct (alloc_takes buf size a live sizeof_pool Hb Hs Hok ltac:(lia) ltac:(lia)) as (p & a1 & -> & Ep & Hp0 & Ho & Hok1).
  destruct (Z.eqb_spec p 0); [lia|]. rewrite <- HT2 in Ho.
  assert (Hgo : forall room r, need = up sizeof_pool + room -> carved need = need -> made_from a1 room r ->
    exists p a' m' live', r = (BB_OK, Some p, Some a', m') /\ ar_offset a' = ar_offset a + carved need /\
             arena_ok align_log buf size a' live' /\ pool_made cfg (buf + ar_offset a) (buf + ar_offset a + carved need) p).
  { intros room r -> -> (p' & a' & m' & l' & -> & Ho' & Hok' & [M1 M2 M3]). exists p', a', m', l'. split; [done|]. split; [lia|]. split; [done|].
    split; [done|done|]. cbv zeta in *. destruct (c_mode cfg); [..|].
    - destruct M3 as (d & st & H1 & H2 & H3). exists d, st. split; [lia|]. split; [lia|done].
    - destruct M3 as (e & st & H1 & H2 & H3 & H4). exists e, st. split; [done|]. lia.
    - done.
    - destruct M3 as (e & st & n' & H1 & H2 & H3 & H4 & H5). exists e, st, n'. split; [done|]. lia. }
  destruct (c_mode cfg) eqn:Em; cbv zeta in Hparts.
  - destruct Hparts as (P1 & P2 & P3 & P4 & P5). destruct (align_up_spec (c_capacity cfg * sizeof_rslot) P3) as [U1 _].
    apply Hgo with (1 := P5); [unfold carved; by rewrite Em|]. eapply retained_made; try done; lia.
  - destruct Hparts as (P1 & P2 & P3 & P4 & P5). apply Hgo with (1 := P5); [unfold carved; by rewrite Em|]. eapply fifo_made; try done; lia.
  - exists (fresh_pool cfg), a1, m. eexists. split; [done|]. unfold carved. rewrite Em. split; [exact Ho|]. split; [exact Hok1|].
    split; [done|done|]. cbv zeta. by rewrite Em.
  - destruct Hparts as (P1 & P2 & P3 & P4 & P5 & P6 & P7). destruct (align_up_spec (c_capacity cfg * sizeof_ptr) P3) as [U1 _].
    destruct (align_up_spec _ P5) as [U2 _].
    apply Hgo with (1 := P7); [unfold carved; by rewrite Em|]. eapply slots_made; try done; lia.
Qed.
End Outcome.
End Create.

(** * FIFO: a bounded queue *)

(** ** The specification *)

Record item := mk_item { it_ts : Z; it_id : Z; it_bytes : list byte }.
(** Oldest first, and how many were ever lost. *)
Record queue := mk_queue { q_items : list item; q_lost : Z }.

Inductive fifo_op : Set := FPush (data : option (list byte)) (len ts id : Z) | FPeek (buf_cap : option nat) | FPop | FCount | FDropped.
Inductive fifo_res : Set := RDone (e : bb_err) | RPeek (len ts id : Z) (bytes : list byte) | RNum (n : Z).

Definition queue_step {W} (cfg : pool_cfg W) (op : fifo_op) (q : queue) : fifo_res * queue :=
  match op with
  | FPush data len ts id =>
      if c_max_slot_bytes cfg <? len then (RDone BB_ERR_INVALID_ARG, q) else
      if match data with None => 0 <? len | Some _ => false end then (RDone BB_ERR_INVALID_ARG, q) else
      let it := mk_item ts id (default [] data) in
      if Z.of_nat (length (q_items q)) <? c_capacity cfg then (RDone BB_OK, mk_queue (q_items q ++ [it]) (q_lost q)) else
      match c_full_policy cfg with
      | BB_POOL_FULL_REJECT_NEW => (RDone BB_ERR_NO_SPACE, mk_queue (q_items q) (q_lost q + 1))
      | BB_POOL_FULL_EVICT_OLDEST => (RDone BB_OK, mk_queue (tail (q_items q) ++ [it]) (q_lost q + 1))
      end
  | FPeek buf_cap =>
      match q_items q with
      | [] => (RDone BB_ERR_NOT_FOUND, q)
      | it :: _ => (RPeek (Z.of_nat (length (it_bytes it))) (it_ts it) (it_id it) (take (default 0%nat buf_cap) (it_bytes it)), q)
      end
  | FPop =>
      match q_items q with
      | [] => (RDone BB_ERR_NOT_FOUND, q)
      | _ :: rest => (RDone BB_OK, mk_queue rest (q_lost q))
      end
  | FCount => (RNum (Z.of_nat (length (q_items q))), q)
  | FDropped => (RNum (u64 (q_lost q)), q)
  end.
Definition fifo_step {W} (op : fifo_op) (w : option (pool W) * mem) : fifo_res * (option (pool W) * mem) :=
  let '(p, m) := w in
  match op with
  | FPush data len ts id => let '(e, p1, m1) := bb_pool_push p data len ts id m in (RDone e, (p1, m1))
  | FPeek buf_cap =>
      match bb_pool_peek_oldest p buf_cap true m with
      | (BB_OK, Some (len, ts, id, bytes)) => (RPeek len ts id bytes, w)
      | (e, _) => (RDone e, w)
      end
  | FPop => let '(e, p1) := bb_pool_pop_oldest p in (RDone e, (p1, m))
  | FCount => (RNum (bb_pool_count p), w)
  | FDropped => (RNum (bb_pool_dropped p), w)
  end.
Fixpoint runs {Op Res St : Type} (step : Op -> St -> Res * St) (ops : list Op) (s : St) : list Res * St :=
  match ops with
  | [] => ([], s)
  | op :: ops' => let '(r, s1) := step op s in let '(rs, s2) := runs step ops' s1 in (r :: rs, s2)
  end.
(** A caller's data has the length it says; the numbers have their types. *)
Definition op_sane (op : fifo_op) : Prop :=
  match op with
  | FPush data len ts id =>
      0 <= len <= SIZE_MAX /\ - 2 ^ 63 <= ts < 2 ^ 63 /\ 0 <= id < 2 ^ 32 /\
      match data with Some d => Z.of_nat (length d) = len | None => True end
  | _ => True
  end.

(** ** Entries in memory *)

Lemma fifo_hdr_length len ts id : length (fifo_hdr len ts id) = 24%nat.
Proof. unfold fifo_hdr. by rewrite !length_app, !le_bytes_length, repeat_length. Qed.
Lemma mread_app m p n1 n2 : mread m p (n1 + n2) = mread m p n1 ++ mread m (p + Z.of_nat n1) n2.
Proof.
  unfold mread. rewrite seq_app, map_app. f_equal. rewrite Nat.add_0_l. replace (seq n1 n2) with (map (Nat.add n1) (seq 0 n2)) by (etransitivity; [apply fmap_add_seq|f_equal; lia]).
  rewrite map_map. apply map_ext. intros i. f_equal. lia.
Qed.
Lemma mread_take m p n k : take k (mread m p n) = mread m p (Nat.min k n).
Proof.
  destruct (decide (k <= n)%nat) as [H|H].
  - rewrite Nat.min_l by done. replace n with (k + (n - k))%nat at 1 by lia. rewrite mread_app. rewrite take_app_length' by (by rewrite mread_length). done.
  - rewrite Nat.min_r by lia. apply take_ge. rewrite mread_length. lia.
Qed.
Lemma hdr_fields m p len ts id : mread m p 24 = fifo_hdr len ts id -> 0 <= len < 2 ^ 64 -> - 2 ^ 63 <= ts < 2 ^ 63 -> 0 <= id < 2 ^ 32 ->
  mread_u m p 8 = len /\ to_signed 64 (mread_u m (p + 8) 8) = ts /\ mread_u m (p + 16) 4 = id.
Proof.
  intros H Hl Ht Hi. change 24%nat with (8 + (8 + (4 + 4)))%nat in H. rewrite !mread_app in H. unfold fifo_hdr in H.
  apply app_inj_1 in H as [H1 H]; [|by rewrite mread_length, le_bytes_length].
  apply app_inj_1 in H as [H2 H]; [|by rewrite mread_length, le_bytes_length].
  apply app_inj_1 in H as [H3 H]; [|by rewrite mread_length, le_bytes_length].
  change (Z.of_nat 8) with 8 in *. replace (p + 8 + 8) with (p + 16) in H3 by lia.
  unfold mread_u. rewrite H1, H2, H3. pose proof (u64_range ts). rewrite !le_value_bytes by lia. split_and!; try done.
  unfold to_signed, u64. change (2 ^ (64 - 1)) with (2 ^ 63). destruct (Z.ltb_spec (ts mod 2 ^ 64) (2 ^ 63)).
  - destruct (Z.leb_spec 0 ts); [by rewrite Z.mod_small by lia|]. rewrite <- (Z_mod_plus_full ts 1), Z.mod_small in * by lia. lia.
  - destruct (Z.leb_spec 0 ts); [rewrite Z.mod_small in * by lia; lia|]. rewrite <- (Z_mod_plus_full ts 1), Z.mod_small in * by lia. lia.
Qed.

(** An entry holds an item. *)
Definition holds (m : mem) (slot : Z) (it : item) : Prop :=
  mread m slot 24 = fifo_hdr (Z.of_nat (length (it_bytes it))) (it_ts it) (it_id it) /\ mread m (slot + 24) (length (it_bytes it)) = it_bytes it.
Definition item_ok (max : Z) (it : item) : Prop :=
  Z.of_nat (length (it_bytes it)) <= max /\ - 2 ^ 63 <= it_ts it < 2 ^ 63 /\ 0 <= it_id it < 2 ^ 32.
Lemma holds_agree m m' slot it n : (24 + length (it_bytes it) <= n)%nat -> agree (within slot n) m m' -> holds m slot it -> holds m' slot it.
Proof.
  intros Hn Ha [H1 H2]. split; [rewrite <- H1|rewrite <- H2 at 2]; apply mread_agree; intros a Hw; apply Ha; unfold within in *; lia.
Qed.
(** What a push writes. *)
Lemma entry_written m slot it : let m1 := mwrite m slot (fifo_hdr (Z.of_nat (length (it_bytes it))) (it_ts it) (it_id it)) in
  let m2 := mwrite m1 (slot + 24) (it_bytes it) in
  holds m2 slot it /\ forall a, ~ within slot (24 + length (it_bytes it)) a -> m2 a = m a.
Proof.
  cbv zeta. set (h := fifo_hdr _ _ _). assert (Hh : length h = 24%nat) by apply fifo_hdr_length. split; [split|].
  - etransitivity; [apply mread_agree|]; [|rewrite <- Hh; apply mread_mwrite]. intros a Ha. apply mwrite_out. unfold within in *. lia.
  - apply mread_mwrite.
  - intros a Ha. unfold within in Ha. rewrite !mwrite_out; [done|..]; unfold within; lia.
Qed.

(** ** The ring holds the queue *)

Section Ring.
Context {W : Type} (cfg : pool_cfg W) (e stride : Z).
Abbreviation cap := (c_capacity cfg).
Abbreviation max := (c_max_slot_bytes cfg).
Context (Hm : c_mode cfg = BB_POOL_MODE_FIFO) (Hcap : 0 < cap) (Hmax : 0 <= max) (Hst : 24 + max <= stride)
  (He : 0 < e) (Htop : e + cap * stride <= 2 ^ 64).

Definition slot_of (head : Z) (i : nat) : Z := e + ((head + Z.of_nat i) mod cap) * stride.
Definition ring (its : list item) (head : Z) (m : mem) : Prop :=
  0 <= head < cap /\ Z.of_nat (length its) <= cap /\
  forall i it, its !! i = Some it -> item_ok max it /\ holds m (slot_of head i) it.
Definition fifo_rep (q : queue) (p : pool W) (m : mem) : Prop :=
  p_cfg p = cfg /\ exists head, p_fifo p = mk_fifo e stride head (Z.of_nat (length (q_items q))) (u64 (q_lost q)) /\ ring (q_items q) head m.
Definition in_ring (a : Z) : Prop := e <= a < e + cap * stride.

Lemma cap_small : 2 * cap <= 2 ^ 64.
Proof. nia. Qed.
Lemma slot_in head i : e <= slot_of head i /\ slot_of head i + stride <= e + cap * stride.
Proof. unfold slot_of. pose proof (Z.mod_pos_bound (head + Z.of_nat i) cap Hcap). nia. Qed.
Lemma slots_apart head i j : Z.of_nat i < cap -> Z.of_nat j < cap -> i <> j ->
  slot_of head i + stride <= slot_of head j \/ slot_of head j + stride <= slot_of head i.
Proof.
  intros Hi Hj Hne. unfold slot_of.
  assert (Hd : (head + Z.of_nat i) mod cap <> (head + Z.of_nat j) mod cap).
  { intros E. apply Hne. pose proof (Z.div_mod (head + Z.of_nat i) cap ltac:(lia)). pose proof (Z.div_mod (head + Z.of_nat j) cap ltac:(lia)).
    set (x := (head + Z.of_nat i) / cap) in *. set (y := (head + Z.of_nat j) / cap) in *.
    assert (x = y) by nia. nia. }
  set (x := _ mod cap) in *. set (y := _ mod cap) in *. nia.
Qed.
Lemma ring_next_spec head : 0 <= head < cap -> ring_next cap head = (head + 1) mod cap.
Proof. intros H. unfold ring_next. pose proof cap_small. by rewrite u64_small by lia. Qed.
Lemma slot_next head i : 0 <= head < cap -> slot_of (ring_next cap head) i = slot_of head (S i).
Proof. intros H. unfold slot_of. rewrite ring_next_spec by done. rewrite Zplus_mod_idemp_l. do 2 f_equal. f_equal. lia. Qed.
Lemma entry_at_spec head n d i : 0 <= head < cap -> Z.of_nat i <= cap -> entry_at cap (mk_fifo e stride head n d) (Z.of_nat i) = slot_of head i.
Proof. intros H Hi. unfold entry_at, slot_of. cbn [ff_entries ff_head ff_stride]. pose proof cap_small. by rewrite u64_small by lia. Qed.

Lemma ring_tail it its head m : ring (it :: its) head m -> ring its (ring_next cap head) m.
Proof.
  intros (Hh & Hl & H). cbn in Hl. split; [rewrite ring_next_spec by done; by apply Z.mod_pos_bound|]. split; [lia|].
  intros i x Hx. rewrite slot_next by done. by apply (H (S i)).
Qed.
Lemma ring_snoc its head m it : ring its head m -> Z.of_nat (length its) < cap -> item_ok max it ->
  let slot := slot_of head (length its) in
  let m1 := mwrite m slot (fifo_hdr (Z.of_nat (length (it_bytes it))) (it_ts it) (it_id it)) in
  let m2 := mwrite m1 (slot + 24) (it_bytes it) in
  ring (its ++ [it]) head m2 /\ forall a, ~ in_ring a -> m2 a = m a.
Proof.
  intros (Hh & Hl & H) Hlt Hit. cbv zeta. set (sl := slot_of head (length its)). destruct (entry_written m sl it) as [Hw Hfr]. cbv zeta in Hw, Hfr.
  set (m2 := mwrite _ _ (it_bytes it)) in *. pose proof (slot_in head (length its)) as Hs. fold sl in Hs. destruct Hit as (I1 & I2 & I3). split.
  - split; [done|]. rewrite length_app. split; [cbn; lia|]. intros i x Hx. apply lookup_app_Some in Hx as [Hx|[Hi Hx]].
    + destruct (H i x Hx) as [Hok Hx']. split; [done|]. apply lookup_lt_Some in Hx. pose proof Hok as (O1 & _).
      eapply (holds_agree m _ _ _ (Z.to_nat stride)); [lia| |exact Hx']. intros a Ha. apply Hfr. unfold within in *.
      destruct (slots_apart head i (length its) ltac:(lia) ltac:(lia) ltac:(lia)); unfold sl in *; lia.
    + apply list_lookup_singleton_Some in Hx as [Hz <-]. replace i with (length its) by lia. by split.
  - intros a Ha. apply Hfr. unfold within, in_ring in *. lia.
Qed.

Lemma push_ring p m its head lost (data : option (list byte)) len ts id : p_cfg p = cfg ->
  ring its head m -> Z.of_nat (length its) < cap -> op_sane (FPush data len ts id) -> len <= max -> (data = None -> len = 0) ->
  let slot := slot_of head (length its) in
  let m1 := mwrite m slot (fifo_hdr len ts id) in
  let m2 := match data with Some d => mwrite m1 (slot + 24) d | None => m1 end in
  fifo_rep (mk_queue (its ++ [mk_item ts id (default [] data)]) lost)
    (set_fifo (mk_fifo e stride head (Z.of_nat (length its) + 1) (u64 lost)) p) m2 /\ forall a, ~ in_ring a -> m2 a = m a.
Proof.
  intros Hp Hr Hlt (S1 & S2 & S3 & S4) Hle Hnone. cbv zeta. set (it := mk_item ts id (default [] data)).
  assert (El : len = Z.of_nat (length (it_bytes it))) by (unfold it; destruct data; cbn in *; [lia|by apply Hnone]).
  destruct (ring_snoc its head m it Hr Hlt) as [H1 H2]; [unfold item_ok; cbn [it it_ts it_id]; lia|]. cbv zeta in H1, H2.
  rewrite <- El in H1, H2. change (it_ts it) with ts in *. change (it_id it) with id in *.
  assert (Em : forall a, match data with Some d => mwrite (mwrite m (slot_of head (length its)) (fifo_hdr len ts id)) (slot_of head (length its) + 24) d
    | None => mwrite m (slot_of head (length its)) (fifo_hdr len ts id) end a =
    mwrite (mwrite m (slot_of head (length its)) (fifo_hdr len ts id)) (slot_of head (length its) + 24) (it_bytes it) a).
  { intros a. unfold it. destruct data; [done|]. cbn [default it_bytes]. rewrite (mwrite_out _ _ []); [done|]. unfold within. cbn. lia. }
  split; [|intros a Ha; rewrite Em; by apply H2]. split; [done|]. exists head. cbn [q_items q_lost p_fifo set_fifo]. rewrite length_app. cbn [length].
  split; [f_equal; lia|]. destruct H1 as (R1 & R2 & R3). split; [done|]. split; [done|]. intros i x Hx. destruct (R3 i x Hx) as [O1 O2]. split; [done|].
  eapply (holds_agree _ _ _ _ (24 + length (it_bytes x))); [lia| |exact O2]. intros a _. apply Em.
Qed.

Lemma fifo_step_refines op q p m : op_sane op -> fifo_rep q p m ->
  let '(r, (p', m')) := fifo_step op (Some p, m) in
  r = (queue_step cfg op q).1 /\ (exists p1, p' = Some p1 /\ fifo_rep (queue_step cfg op q).2 p1 m') /\ forall a, ~ in_ring a -> m' a = m a.
Proof.
  intros Hop Hrep. pose proof Hrep as (Hc & head & Hf & Hr). pose proof Hr as (Hh & Hl & Hits).
  destruct op as [data len ts id|bc| | |]; cbn [fifo_step queue_step].
  - unfold bb_pool_push. rewrite Hc, Hm. cbn [bool_decide decide negb]. rewrite bool_decide_eq_true_2 by done. cbn [negb].
    destruct (Z.ltb_spec max len) as [|Hle]; [split_and!; try done; by exists p|].
    destruct (match data with None => 0 <? len | Some _ => false end) eqn:En; [split_and!; try done; by exists p|].
    assert (Hnone : data = None -> len = 0) by (intros ->; destruct (Z.ltb_spec 0 len); [done|]; destruct Hop; lia).
    unfold make_room. rewrite Hf. cbn [ff_count ff_entries ff_stride ff_head ff_dropped].
    destruct (Z.ltb_spec (Z.of_nat (length (q_items q))) cap) as [Hlt|Hge].
    + destruct (Z.eqb_spec (Z.of_nat (length (q_items q))) cap); [lia|]. cbn [negb ff_count ff_entries ff_stride ff_head ff_dropped fst snd].
      rewrite entry_at_spec by lia. destruct (push_ring p m (q_items q) head (q_lost q) data len ts id Hc Hr Hlt Hop Hle Hnone) as [H1 H2].
      split; [done|]. split; [|exact H2]. eexists. split; [reflexivity|exact H1].
    + destruct (Z.eqb_spec (Z.of_nat (length (q_items q))) cap) as [E|]; [|lia]. cbn [negb].
      assert (Elost : u64 (u64 (q_lost q) + 1) = u64 (q_lost q + 1)) by (unfold u64; apply Zplus_mod_idemp_l).
      destruct (c_full_policy cfg); cbn [ff_count ff_entries ff_stride ff_head ff_dropped fst snd]; rewrite Elost.
      * destruct (q_items q) as [|it its] eqn:Eq; [cbn in E; lia|]. pose proof (ring_tail it its head m Hr) as Hr1. cbn [length] in *.
        replace (Z.of_nat (S (length its)) - 1) with (Z.of_nat (length its)) by lia. rewrite entry_at_spec by (destruct Hr1; lia).
        destruct (push_ring p m its _ (q_lost q + 1) data len ts id Hc Hr1 ltac:(lia) Hop Hle Hnone) as [H1 H2].
        split; [done|]. split; [|exact H2]. eexists. split; [reflexivity|exact H1].
      * split; [done|]. split; [|done]. eexists. split; [reflexivity|]. split; [done|]. exists head. by split.
  - unfold bb_pool_peek_oldest. rewrite Hc, Hm. cbn [negb]. rewrite bool_decide_eq_true_2 by done. cbn [negb]. rewrite Hf. cbn [ff_count].
    destruct (q_items q) as [|it its] eqn:Eq; cbn [length]; [split_and!; try done; by exists p|].
    destruct (Z.eqb_spec (Z.of_nat (S (length its))) 0); [lia|]. change 0 with (Z.of_nat 0). rewrite entry_at_spec by lia.
    destruct (Hits 0%nat it eq_refl) as [(I1 & I2 & I3) [H1 H2]]. set (slot := slot_of head 0) in *.
    destruct (hdr_fields m slot _ _ _ H1 ltac:(nia) I2 I3) as (F1 & F2 & F3). rewrite F1, F2, F3. split; [|split; [by exists p|done]].
    cbn [fst]. f_equal. change sizeof_fifo_hdr with 24. rewrite Nat2Z.id. transitivity (take (default 0%nat bc) (mread m (slot + 24) (length (it_bytes it)))); [rewrite mread_take; by destruct bc|by rewrite H2].
  - unfold bb_pool_pop_oldest. rewrite Hc, Hm. rewrite bool_decide_eq_true_2 by done. cbn [negb]. rewrite Hf. cbn [ff_count].
    destruct (q_items q) as [|it its] eqn:Eq; cbn [length]; [split_and!; try done; by exists p|].
    destruct (Z.eqb_spec (Z.of_nat (S (length its))) 0); [lia|]. split; [done|]. split; [|done]. eexists. split; [reflexivity|]. split; [done|].
    exists (ring_next cap head). cbn [set_fifo p_fifo fst snd q_items q_lost ff_entries ff_stride ff_head ff_dropped]. split; [f_equal; lia|]. by apply (ring_tail it).
  - unfold bb_pool_count. rewrite Hc, Hm, bool_decide_eq_true_2, Hf by done. split_and!; try done. by exists p.
  - unfold bb_pool_dropped. rewrite Hc, Hm, bool_decide_eq_true_2, Hf by done. split_and!; try done. by exists p.
Qed.
Lemma fifo_runs_refine ops : forall q p m, Forall op_sane ops -> fifo_rep q p m ->
  let '(rs, (p', m')) := runs fifo_step ops (Some p, m) in
  rs = (runs (queue_step cfg) ops q).1 /\ (exists p1, p' = Some p1 /\ fifo_rep (runs (queue_step cfg) ops q).2 p1 m') /\ forall a, ~ in_ring a -> m' a = m a.
Proof.
  induction ops as [|op ops IH]; intros q p m Hs Hr; cbn [runs]; [split_and!; try done; by exists p|]. inversion_clear Hs.
  pose proof (fifo_step_refines op q p m H Hr) as H1. destruct (fifo_step op (Some p, m)) as [r [p1' m1]]. destruct (queue_step cfg op q) as [r' q1].
  cbn [fst snd] in H1. destruct H1 as (-> & (p1 & -> & Hr1) & Hfr). pose proof (IH q1 p1 m1 H0 Hr1) as H2. destruct (runs fifo_step ops (Some p1, m1)) as [rs [p2 m2]].
  destruct (runs (queue_step cfg) ops q1) as [rs' q2]. cbn [fst snd] in *. destruct H2 as (-> & Hp2 & Hfr2). split_and!; try done.
  intros a Ha. rewrite Hfr2 by done. by apply Hfr.
Qed.
End Ring.

(** * SLOTS: who holds what *)

(** ** Bitmaps *)

Lemma bitmap_test_bit bm idx : bitmap_test bm idx = Z.testbit (nth (idx / 8) bm 0) (Z.of_nat (idx mod 8)).
Proof.
  unfold bitmap_test, bitmap_bit. pose proof (Nat.mod_upper_bound idx 8 ltac:(lia)) as Hk. set (k := (idx mod 8)%nat) in *. set (b := nth _ _ _).
  rewrite Z.shiftl_1_l. unfold u8. rewrite Z.mod_small by (split; [apply Z.pow_nonneg; lia|apply Z.pow_lt_mono_r; lia]).
  destruct (Z.testbit b (Z.of_nat k)) eqn:E; [apply negb_true_iff, Z.eqb_neq; intros H|apply negb_false_iff, Z.eqb_eq; apply Z.bits_inj'; intros j Hj].
  - assert (H1 : Z.testbit (Z.land b (2 ^ Z.of_nat k)) (Z.of_nat k) = true) by (rewrite Z.land_spec, E, Z.pow2_bits_true by lia; done). by rewrite H, Z.bits_0 in H1.
  - rewrite Z.land_spec, Z.pow2_bits_eqb, Z.bits_0 by lia. destruct (Z.eqb_spec (Z.of_nat k) j) as [<-|]; [by rewrite E|apply andb_false_r].
Qed.
Lemma bit_same i j : (i / 8 = j / 8)%nat -> (i mod 8 = j mod 8)%nat -> i = j.
Proof. intros H1 H2. rewrite (Nat.div_mod_eq i 8), (Nat.div_mod_eq j 8). by rewrite H1, H2. Qed.
Lemma bitmap_test_set bm i j : (i / 8 < length bm)%nat -> bitmap_test (bitmap_set bm i) j = bool_decide (i = j) || bitmap_test bm j.
Proof.
  intros Hi. rewrite !bitmap_test_bit. unfold bitmap_set. rewrite !nth_lookup. pose proof (Nat.mod_upper_bound i 8 ltac:(lia)). pose proof (Nat.mod_upper_bound j 8 ltac:(lia)).
  destruct (decide (i / 8 = j / 8)%nat) as [E|E].
  - rewrite <- E. rewrite list_lookup_alter_eq. destruct (lookup_lt_is_Some_2 _ _ Hi) as [b ->]. cbn -[Z.lor Z.land Z.lnot Z.testbit u8 bitmap_bit Nat.modulo Nat.div].
    rewrite Z.lor_spec. unfold u8, bitmap_bit. rewrite Z.shiftl_1_l, Z.mod_pow2_bits_low by lia. rewrite Z.pow2_bits_eqb by lia. rewrite orb_comm. f_equal.
    destruct (Z.eqb_spec (Z.of_nat (i mod 8)) (Z.of_nat (j mod 8))); [rewrite bool_decide_eq_true_2|rewrite bool_decide_eq_false_2]; try done.
    + apply bit_same; [done|lia].
    + intros ->. done.
  - rewrite list_lookup_alter_ne by done. rewrite bool_decide_eq_false_2 by (intros ->; done). done.
Qed.
Lemma bitmap_test_clear bm i j : bitmap_test (bitmap_clear bm i) j = negb (bool_decide (i = j)) && bitmap_test bm j.
Proof.
  rewrite !bitmap_test_bit. unfold bitmap_clear. rewrite !nth_lookup. pose proof (Nat.mod_upper_bound i 8 ltac:(lia)). pose proof (Nat.mod_upper_bound j 8 ltac:(lia)).
  destruct (decide (i / 8 = j / 8)%nat) as [E|E].
  - rewrite <- E. rewrite list_lookup_alter_eq. destruct (bm !! (i / 8)%nat) as [b|]; cbn -[Z.lor Z.land Z.lnot Z.testbit u8 bitmap_bit Nat.modulo Nat.div]; [|by rewrite Z.bits_0, andb_false_r].
    rewrite Z.land_spec. unfold u8, bitmap_bit. rewrite Z.shiftl_1_l, Z.mod_pow2_bits_low, Z.lnot_spec by lia. rewrite Z.pow2_bits_eqb by lia. rewrite andb_comm. do 2 f_equal.
    destruct (Z.eqb_spec (Z.of_nat (i mod 8)) (Z.of_nat (j mod 8))); [rewrite bool_decide_eq_true_2|rewrite bool_decide_eq_false_2]; try done.
    + apply bit_same; [done|lia].
    + intros ->. done.
  - rewrite list_lookup_alter_ne by done. rewrite bool_decide_eq_false_2 by (intros ->; done). done.
Qed.
Lemma bitmap_set_length bm i : length (bitmap_set bm i) = length bm.
Proof. apply length_alter. Qed.
Lemma bitmap_clear_length bm i : length (bitmap_clear bm i) = length bm.
Proof. apply length_alter. Qed.

(** ** The state of every slot *)

(** [Held]: within an operation, between two owners. *)
Inductive slot_state : Set := Free | Loaned | Waiting | Held.
#[export] Instance slot_state_eq_dec : EqDecision slot_state.
Proof. solve_decision. Defined.
Definition move (i : nat) (x : slot_state) (st : nat -> slot_state) : nat -> slot_state := fun j => if decide (j = i) then x else st j.
Lemma move_eq i x st : move i x st i = x.
Proof. unfold move. by rewrite decide_True. Qed.
Lemma move_ne i j x st : j <> i -> move i x st j = st j.
Proof. intros H. unfold move. by rewrite decide_False. Qed.

Section Slots.
Context {W : Type} (cfg : pool_cfg W) (sto stride : Z).
Abbreviation cap := (c_capacity cfg).
Abbreviation capn := (Z.to_nat (c_capacity cfg)).
Context (Hm : c_mode cfg = BB_POOL_MODE_SLOTS) (Hcap : 0 < cap) (Hsto : 0 < sto) (Hst : 0 < stride).
Definition slot_ptr (i : nat) : Z := sto + Z.of_nat i * stride.

Record slots_inv (st : nat -> slot_state) (s : slots) : Prop := {
  si_sto : sl_storage s = sto;
  si_stride : sl_stride s = stride;
  si_len : length (sl_free_list s) = capn;
  si_abits : cap <= 8 * Z.of_nat (length (sl_acquired s));
  si_pbits : cap <= 8 * Z.of_nat (length (sl_pending s));
  si_free : exists stack, take (sl_free_top s) (sl_free_list s) = map slot_ptr stack /\ NoDup stack /\ sl_free_top s = length stack /\
              forall i, i ∈ stack <-> (i < capn)%nat /\ st i = Free;
  si_acq : forall i, (i < capn)%nat -> bitmap_test (sl_acquired s) i = bool_decide (st i = Loaned);
  si_pend : forall i, (i < capn)%nat -> bitmap_test (sl_pending s) i = bool_decide (st i = Waiting)
}.

Lemma slot_ptr_inj i j : slot_ptr i = slot_ptr j -> i = j.
Proof. unfold slot_ptr. intros H. apply Nat2Z.inj. nia. Qed.
Lemma ptr_at_slot st s i : slots_inv st s -> slots_ptr_at s i = slot_ptr i.
Proof. intros [E1 E2 _ _ _ _ _ _]. unfold slots_ptr_at, slot_ptr. by rewrite E1, E2. Qed.
Lemma index_of_slot st s i : slots_inv st s -> (i < capn)%nat -> slots_index_of cap s (slot_ptr i) = Some i.
Proof.
  intros [E1 E2 _ _ _ _ _ _] Hi. unfold slots_index_of, slot_ptr. rewrite E1, E2. destruct (Z.ltb_spec (sto + Z.of_nat i * stride) sto); [nia|].
  replace (sto + Z.of_nat i * stride - sto) with (Z.of_nat i * stride) by lia. rewrite Z_mod_mult. cbn [Z.eqb negb]. rewrite Z.div_mul by lia.
  destruct (Z.leb_spec cap (Z.of_nat i)); [lia|]. by rewrite Nat2Z.id.
Qed.
Lemma index_of_some st s p i : slots_inv st s -> slots_index_of cap s p = Some i -> (i < capn)%nat /\ p = slot_ptr i.
Proof.
  intros [E1 E2 _ _ _ _ _ _]. unfold slots_index_of, slot_ptr. rewrite E1, E2. destruct (Z.ltb_spec p sto); [done|].
  destruct (Z.eqb_spec ((p - sto) mod stride) 0) as [Hz|]; cbn [negb]; [|done]. destruct (Z.leb_spec cap ((p - sto) / stride)); [done|]. intros [= <-].
  pose proof (Z.div_pos (p - sto) stride ltac:(lia) Hst). pose proof (Z.div_mod (p - sto) stride ltac:(lia)). rewrite Z2Nat.id by lia. split; [lia|]. lia.
Qed.
Lemma byte_index i (bm : list Z) : (i < capn)%nat -> cap <= 8 * Z.of_nat (length bm) -> (i / 8 < length bm)%nat.
Proof. intros Hi Hb. apply Nat.Div0.div_lt_upper_bound. lia. Qed.

(** ** One slot changes hands *)

Ltac si_split := split; cbn [sl_storage sl_stride sl_free_list sl_free_top sl_acquired sl_pending with_acquired with_pending with_free];
  rewrite ?bitmap_set_length, ?bitmap_clear_length; try assumption.
(** A bitmap without and with its slot. *)
Ltac si_bit i := let j := fresh "j" in let Hj := fresh "Hj" in intros j Hj; rewrite ?bitmap_test_clear, ?bitmap_test_set by eauto using byte_index;
  destruct (decide (j = i)) as [->|]; [rewrite move_eq, bool_decide_eq_true_2 by done; cbn [negb andb orb]
                                      |rewrite (move_ne i j), (bool_decide_eq_false_2 (i = j)) by congruence; cbn [negb andb orb]; eauto].
(** The free list is not concerned. *)
Lemma free_moved st i x (stack : list nat) : st i <> Free -> x <> Free ->
  (forall j, j ∈ stack <-> (j < capn)%nat /\ st j = Free) -> forall j, j ∈ stack <-> (j < capn)%nat /\ move i x st j = Free.
Proof. intros H1 H2 H j. rewrite H. destruct (decide (j = i)) as [->|]; [rewrite move_eq; naive_solver|by rewrite move_ne]. Qed.

Lemma clear_acquired st s i : slots_inv st s -> (i < capn)%nat -> st i = Loaned -> slots_inv (move i Held st) (with_acquired (bitmap_clear (sl_acquired s) i) s).
Proof.
  intros [E1 E2 E3 E4 E5 (stack & F1 & F2 & F3 & F4) E7 E8] Hi Hs. si_split.
  - exists stack. split_and!; try done. apply free_moved; try done. congruence.
  - si_bit i. done.
  - intros j Hj. rewrite E8 by done. destruct (decide (j = i)) as [->|]; [rewrite move_eq, Hs|rewrite move_ne by done]; done.
Qed.
Lemma clear_pending st s i : slots_inv st s -> (i < capn)%nat -> st i = Waiting -> slots_inv (move i Held st) (with_pending (bitmap_clear (sl_pending s) i) s).
Proof.
  intros [E1 E2 E3 E4 E5 (stack & F1 & F2 & F3 & F4) E7 E8] Hi Hs. si_split.
  - exists stack. split_and!; try done. apply free_moved; try done. congruence.
  - intros j Hj. rewrite E7 by done. destruct (decide (j = i)) as [->|]; [rewrite move_eq, Hs|rewrite move_ne by done]; done.
  - si_bit i. done.
Qed.
Lemma set_acquired st s i : slots_inv st s -> (i < capn)%nat -> st i = Held -> slots_inv (move i Loaned st) (with_acquired (bitmap_set (sl_acquired s) i) s).
Proof.
  intros [E1 E2 E3 E4 E5 (stack & F1 & F2 & F3 & F4) E7 E8] Hi Hs. si_split.
  - exists stack. split_and!; try done. apply free_moved; try done. congruence.
  - si_bit i. done.
  - intros j Hj. rewrite E8 by done. destruct (decide (j = i)) as [->|]; [rewrite move_eq, Hs|rewrite move_ne by done]; done.
Qed.
Lemma set_pending st s i : slots_inv st s -> (i < capn)%nat -> st i = Held -> slots_inv (move i Waiting st) (with_pending (bitmap_set (sl_pending s) i) s).
Proof.
  intros [E1 E2 E3 E4 E5 (stack & F1 & F2 & F3 & F4) E7 E8] Hi Hs. si_split.
  - exists stack. split_and!; try done. apply free_moved; try done. congruence.
  - intros j Hj. rewrite E7 by done. destruct (decide (j = i)) as [->|]; [rewrite move_eq, Hs|rewrite move_ne by done]; done.
  - si_bit i. done.
Qed.
Lemma bits_kept st i x (b : slot_state) : st i <> b -> x <> b -> forall j, bool_decide (st j = b) = bool_decide (move i x st j = b).
Proof. intros H1 H2 j. destruct (decide (j = i)) as [->|]; [rewrite move_eq, !bool_decide_eq_false_2 by done; done|by rewrite move_ne]. Qed.
Lemma pop_free st s top : slots_inv st s -> sl_free_top s = S top -> exists i, (i < capn)%nat /\ st i = Free /\ nth top (sl_free_list s) 0 = slot_ptr i /\
  slots_inv (move i Held st) (with_free (sl_free_list s) top s).
Proof.
  intros [E1 E2 E3 E4 E5 (stack & F1 & F2 & F3 & F4) E7 E8] Ht. rewrite Ht in *. assert (Hne : stack <> []) by (intros ->; done). destruct (exists_last Hne) as (stack0 & i0 & ->).
  rewrite length_app in F3. cbn in F3. assert (top = length stack0) as -> by lia. rewrite map_app in F1. cbn [map] in F1.
  assert (Hi : (i0 < capn)%nat /\ st i0 = Free) by (apply F4, elem_of_app; right; by apply list_elem_of_singleton). destruct Hi as [Hi1 Hi2].
  assert (Hlen : (S (length stack0) <= length (sl_free_list s))%nat).
  { apply (f_equal length) in F1. rewrite length_take, length_app, length_map in F1. cbn [length] in F1. lia. }
  exists i0. split; [done|]. split; [done|]. split.
  - rewrite nth_lookup. rewrite <- (lookup_take_lt _ (S (length stack0))) by lia. rewrite F1. rewrite lookup_app_r by (by rewrite length_map). by rewrite length_map, Nat.sub_diag.
  - si_split.
    + apply NoDup_app in F2 as (N1 & N2 & _). exists stack0. split; [|split; [done|split; [done|]]].
      * apply (f_equal (take (length stack0))) in F1. rewrite take_take, Nat.min_l in F1 by lia. rewrite F1. by rewrite take_app_length' by (by rewrite length_map).
      * intros j. destruct (decide (j = i0)) as [->|Hj]; [rewrite move_eq; split; [intros H; destruct (N2 i0 H); set_solver|by intros [_ ?]]|].
        rewrite move_ne by done. rewrite <- F4. set_solver.
    + intros j Hj. rewrite E7 by done. apply bits_kept; congruence.
    + intros j Hj. rewrite E8 by done. apply bits_kept; congruence.
Qed.
(** Some slot is not on the stack, so the stack has room. *)
Lemma stack_room (stack : list nat) i : NoDup stack -> (i < capn)%nat -> ~ i ∈ stack -> (forall j, j ∈ stack -> (j < capn)%nat) -> (length stack < capn)%nat.
Proof.
  intros Hn Hi Hni Hb. assert (H : (length (i :: stack) <= length (seq 0 capn))%nat).
  { apply submseteq_length, NoDup_submseteq; [by constructor|]. intros j Hj. apply elem_of_seq. apply elem_of_cons in Hj as [->|Hj%Hb]; lia. }
  rewrite length_seq in H. cbn in H. lia.
Qed.
Lemma not_full st s i : slots_inv st s -> (i < capn)%nat -> st i <> Free -> (sl_free_top s < capn)%nat.
Proof.
  intros [E1 E2 E3 E4 E5 (stack & F1 & F2 & F3 & F4) E7 E8] Hi Hs. rewrite F3. apply (stack_room stack i); try done; intros j; rewrite ?F4; naive_solver.
Qed.
Lemma push_free st s i : slots_inv st s -> (i < capn)%nat -> st i = Held ->
  slots_inv (move i Free st) (with_free (<[sl_free_top s := slot_ptr i]> (sl_free_list s)) (S (sl_free_top s)) s).
Proof.
  intros Hinv Hi Hs. pose proof (not_full st s i Hinv Hi ltac:(congruence)) as Hroom. destruct Hinv as [E1 E2 E3 E4 E5 (stack & F1 & F2 & F3 & F4) E7 E8]. si_split.
  - by rewrite length_insert.
  - exists (stack ++ [i]). rewrite map_app, length_app. cbn [map length]. split_and!.
    + rewrite (take_S_r _ _ (slot_ptr i)) by (apply list_lookup_insert_eq; lia). rewrite take_insert_ge by lia. by rewrite F1.
    + apply NoDup_app. split; [done|]. split; [|apply NoDup_singleton]. intros j Hj ->%list_elem_of_singleton. apply F4 in Hj. naive_solver congruence.
    + lia.
    + intros j. rewrite elem_of_app, list_elem_of_singleton, F4. destruct (decide (j = i)) as [->|]; [rewrite move_eq; naive_solver|rewrite move_ne by done; naive_solver].
  - intros j Hj. rewrite E7 by done. apply bits_kept; congruence.
  - intros j Hj. rewrite E8 by done. apply bits_kept; congruence.
Qed.

(** ** Operations *)

Lemma first_reusable_ok st s (reusable : Z -> W -> bool * W) idxs : forall w, Forall (fun i => (i < capn)%nat) idxs -> slots_inv st s ->
  match (first_reusable reusable s idxs w).1 with Some i => (i < capn)%nat /\ st i = Waiting | None => True end.
Proof.
  induction idxs as [|i idxs IH]; intros w Hi Hinv; cbn [first_reusable]; [done|]. inversion_clear Hi. rewrite (si_pend _ _ Hinv) by done.
  case_bool_decide as Hw; cbn [negb]; [|by apply IH]. destruct (reusable _ w) as [[] w1]; [done|]. by apply IH.
Qed.
(** What acquisition takes is nobody's; nothing is taken only when nothing is
    free. *)
Lemma take_slot_ok st s w : slots_inv st s ->
  match take_slot cfg s w with
  | (Some p, s1, _) => exists i, (i < capn)%nat /\ p = slot_ptr i /\ (st i = Free \/ st i = Waiting) /\ slots_inv (move i Held st) s1
  | (None, s1, _) => s1 = s /\ forall i, (i < capn)%nat -> st i <> Free
  end.
Proof.
  intros Hinv. unfold take_slot. destruct (sl_free_top s) as [|top] eqn:Et.
  - assert (Hnone : forall i, (i < capn)%nat -> st i <> Free).
    { intros i Hi Hf. destruct (si_free _ _ Hinv) as (stack & _ & _ & F3 & F4). rewrite Et in F3. destruct stack; [|done]. by eapply not_elem_of_nil, F4. }
    destruct (c_slot_reusable cfg) as [reusable|]; [|done].
    pose proof (first_reusable_ok st s reusable (seq 0 capn) w) as H. destruct (first_reusable _ _ _ _) as [[i|] w1]; [|done]. cbn [fst] in H.
    destruct H as [Hi Hw]; [apply Forall_forall; intros i' [_ ?]%elem_of_seq; lia|done|]. exists i. rewrite (ptr_at_slot st) by done.
    split_and!; try done; [by right|]. by apply clear_pending.
  - destruct (pop_free st s top Hinv Et) as (i & Hi & Hf & -> & Hinv1). exists i. split_and!; try done. by left.
Qed.

(** The pool between two operations, with what has been lent out. *)
Record slots_rep (st : nat -> slot_state) (p : pool W) (lent : list Z) : Prop := {
  sr_cfg : p_cfg p = cfg;
  sr_inv : slots_inv st (p_slots p);
  sr_held : forall i, st i <> Held;
  sr_nodup : NoDup lent;
  sr_lent : forall q, q ∈ lent <-> exists i, (i < capn)%nat /\ q = slot_ptr i /\ st i = Loaned
}.
Lemma slot_ptr_pos i : 0 < slot_ptr i.
Proof. unfold slot_ptr. nia. Qed.
Lemma move_move i x y st j : move i y (move i x st) j = move i y st j.
Proof. unfold move. by destruct (decide (j = i)). Qed.
Lemma not_lent st p lent i : slots_rep st p lent -> st i <> Loaned -> ~ slot_ptr i ∈ lent.
Proof. intros Hr H Hin. apply (sr_lent _ _ _ Hr) in Hin as (j & _ & E%slot_ptr_inj & Hj). congruence. Qed.
Lemma move_held i x st : x <> Held -> (forall j, st j <> Held) -> forall j, move i x (move i Held st) j <> Held.
Proof. intros Hx H j. rewrite move_move. unfold move. destruct (decide (j = i)); [done|apply H]. Qed.

Lemma acquire_ok st p lent w : slots_rep st p lent ->
  let '(q, p1, _) := bb_pool_acquire (Some p) w in exists p1', p1 = Some p1' /\
  (q = 0 -> p1' = p /\ forall i, (i < capn)%nat -> st i <> Free) /\
  (q <> 0 -> exists i, (i < capn)%nat /\ q = slot_ptr i /\ (st i = Free \/ st i = Waiting) /\ slots_rep (move i Loaned (move i Held st)) p1' (q :: lent)).
Proof.
  intros Hr. pose proof Hr as [R1 R2 R3 R4 R5]. unfold bb_pool_acquire. rewrite R1, Hm, bool_decide_eq_true_2 by done. cbn [negb].
  pose proof (take_slot_ok st (p_slots p) w R2) as H. destruct (take_slot cfg (p_slots p) w) as [[[q|] s1] w1].
  - destruct H as (i & Hi & -> & Hf & Hinv). rewrite (index_of_slot (move i Held st)) by done. eexists. split; [reflexivity|]. pose proof (slot_ptr_pos i).
    split; [lia|]. intros _. exists i. split_and!; try done. split; cbn [set_slots p_cfg p_slots]; try done.
    + apply set_acquired; [done|done|apply move_eq].
    + by apply move_held.
    + constructor; [|done]. apply (not_lent st p); [done|]. destruct Hf; congruence.
    + intros q. rewrite elem_of_cons, R5. split.
      * intros [->|(j & Hj & -> & Hs)]; [exists i; rewrite move_eq; done|]. exists j. split_and!; try done. rewrite move_move, move_ne; [done|]. intros ->. destruct Hf; congruence.
      * intros (j & Hj & -> & Hs). rewrite move_move in Hs. destruct (decide (j = i)) as [->|]; [by left|]. rewrite move_ne in Hs by done. right. by exists j.
  - destruct H as [-> Hn]. eexists. split; [reflexivity|]. split; [|done]. intros _. split; [by destruct p|done].
Qed.
Lemma release_ok st p lent q w : slots_rep st p lent ->
  let '(e, p1, w1) := bb_pool_release (Some p) q w in exists p1', p1 = Some p1' /\
  (is_ok e = true <-> q ∈ lent) /\ (is_ok e = false -> p1' = p /\ w1 = w) /\
  (is_ok e = true -> exists st1, slots_rep st1 p1' (filter (fun x => x <> q) lent)).
Proof.
  intros Hr. pose proof Hr as [R1 R2 R3 R4 R5]. unfold bb_pool_release.
  assert (Hbad : forall e : bb_err, is_ok e = false -> ~ q ∈ lent -> exists p1', Some p = Some p1' /\ (is_ok e = true <-> q ∈ lent) /\
    (is_ok e = false -> p1' = p /\ w = w) /\ (is_ok e = true -> exists st1, slots_rep st1 p1' (filter (fun x => x <> q) lent))).
  { intros e He Hq. exists p. split; [done|]. rewrite He. done. }
  destruct (Z.eqb_spec q 0) as [->|Hq0].
  { apply Hbad; [done|]. intros (i & _ & E & _)%R5. pose proof (slot_ptr_pos i). lia. }
  rewrite R1, Hm, bool_decide_eq_true_2 by done. cbn [negb]. destruct (slots_index_of cap (p_slots p) q) as [i|] eqn:Ei.
  2: { apply Hbad; [done|]. intros (i & Hi & -> & _)%R5. by rewrite (index_of_slot st) in Ei. }
  apply (index_of_some st) in Ei as [Hi ->]; [|done]. rewrite (si_acq _ _ R2) by done. case_bool_decide as Hs; cbn [negb].
  2: { apply Hbad; [done|]. by apply (not_lent st p). }
  pose proof (not_full st (p_slots p) i R2 Hi ltac:(congruence)) as Hroom.
  set (imm := match c_slot_reusable cfg with None => true | Some _ => false end). destruct (Z.leb_spec cap (Z.of_nat (sl_free_top (p_slots p)))); [lia|]. rewrite andb_false_r.
  pose proof (clear_acquired st _ i R2 Hi Hs) as Hinv. eexists. split; [reflexivity|].
  assert (Hin : slot_ptr i ∈ lent) by (apply R5; by exists i). split; [done|]. split; [done|]. intros _.
  assert (Hgo : forall x s2, x <> Loaned -> x <> Held -> slots_inv (move i x (move i Held st)) s2 -> exists st1, slots_rep st1 (set_slots s2 p) (filter (fun y => y <> slot_ptr i) lent)).
  { intros x s2 Hx1 Hx2 Hinv2. exists (move i x (move i Held st)). split; cbn [set_slots p_cfg p_slots]; try done.
    - by apply move_held.
    - by apply NoDup_filter.
    - intros y. rewrite list_elem_of_filter, R5. split.
      + intros [Hy (j & Hj & -> & Hl)]. exists j. split_and!; try done. rewrite move_move, move_ne; [done|]. by intros ->.
      + intros (j & Hj & -> & Hl). rewrite move_move in Hl. destruct (decide (j = i)) as [->|]; [by rewrite move_eq in Hl|]. rewrite move_ne in Hl by done.
        split; [by intros ?%slot_ptr_inj|by exists j]. }
  destruct imm; [apply (Hgo Free); [done|done|]|apply (Hgo Waiting); [done|done|]].
  - apply (push_free _ (with_acquired _ _) i Hinv Hi). apply move_eq.
  - apply (set_pending _ (with_acquired _ _) i Hinv Hi). apply move_eq.
Qed.
Lemma reap_all_ok (reusable : Z -> W -> bool * W) idxs : forall st s w n, Forall (fun i => (i < capn)%nat) idxs -> slots_inv st s -> (forall j, st j <> Held) ->
  exists st1, slots_inv st1 (reap_all reusable cfg idxs s w n).1.2 /\ (forall j, st1 j <> Held) /\ forall j, st1 j = Loaned <-> st j = Loaned.
Proof.
  induction idxs as [|i idxs IH]; intros st s w n Hi Hinv Hh; cbn [reap_all]; [by exists st|]. inversion_clear Hi. rewrite (si_pend _ _ Hinv) by done.
  case_bool_decide as Hw; cbn [negb]; [|by apply IH]. destruct (reusable _ w) as [[] w1]; cbn [negb]; [|by apply IH]. rewrite (ptr_at_slot st) by done.
  pose proof (clear_pending st s i Hinv H Hw) as H1. apply (push_free _ (with_pending _ _) i) in H1; [|done|apply move_eq].
  destruct (IH _ _ (run_cb (c_slot_reap cfg) (slot_ptr i) w1) (n + 1) H0 H1) as (st1 & S1 & S2 & S3); [by apply move_held|].
  exists st1. split; [exact S1|]. split; [done|]. intros j. rewrite S3, move_move. destruct (decide (j = i)) as [->|]; [rewrite move_eq, Hw; done|by rewrite move_ne].
Qed.
Lemma reap_ok st p lent w : slots_rep st p lent ->
  exists p1' st1, (bb_pool_slots_reap_ready (Some p) w).1.2 = Some p1' /\ slots_rep st1 p1' lent.
Proof.
  intros Hr. pose proof Hr as [R1 R2 R3 R4 R5]. unfold bb_pool_slots_reap_ready. rewrite R1. destruct (c_slot_reusable cfg) as [reusable|]; [|by exists p, st].
  rewrite Hm, bool_decide_eq_true_2 by done. cbn [negb].
  destruct (reap_all_ok reusable (seq 0 capn) st (p_slots p) w 0) as (st1 & S1 & S2 & S3); [apply Forall_forall; intros i' [_ ?]%elem_of_seq; lia|done|done|].
  destruct (reap_all _ _ _ _ _ _) as [[n s1] w1]. eexists _, st1. split; [reflexivity|]. split; cbn [set_slots p_cfg p_slots fst snd] in *; try done.
  intros q. rewrite R5. split; intros (j & Hj & -> & Hl); exists j; split_and!; try done; by apply S3.
Qed.

(** ** Counting *)

Lemma filter_iff_in (P Q : nat -> Prop) `{!forall i, Decision (P i), !forall i, Decision (Q i)} (l : list nat) :
  (forall i, i ∈ l -> P i <-> Q i) -> filter P l = filter Q l.
Proof.
  intros Hpq. induction l as [|i l IH]; [done|]. rewrite !filter_cons, IH by (intros j Hj; apply Hpq; by right). specialize (Hpq i ltac:(left)).
  destruct (decide (P i)), (decide (Q i)); naive_solver.
Qed.
Lemma count_bits_state st s bm (b : slot_state) : (forall i, (i < capn)%nat -> bitmap_test bm i = bool_decide (st i = b)) -> slots_inv st s ->
  count_bits bm cap = Z.of_nat (length (filter (fun i => st i = b) (seq 0 capn))).
Proof.
  intros H _. unfold count_bits. do 2 f_equal. apply filter_iff_in. intros i [_ Hi]%elem_of_seq. rewrite H by lia. apply bool_decide_eq_true.
Qed.
Lemma split_count st (l : list nat) : (forall i, st i <> Held) -> let n b := length (filter (fun i => st i = b) l) in
  (n Free + n Loaned + n Waiting = length l)%nat.
Proof.
  intros H. cbv zeta. induction l as [|i l IH]; [done|]. rewrite !filter_cons. cbn [length]. specialize (H i).
  destruct (st i); repeat case_decide; try congruence; cbn [length]; lia.
Qed.
Lemma acquired_counts st p lent : slots_rep st p lent -> bb_pool_slots_acquired_count (Some p) = Z.of_nat (length lent).
Proof.
  intros Hr. pose proof Hr as [R1 R2 R3 R4 R5]. unfold bb_pool_slots_acquired_count. rewrite R1, Hm, bool_decide_eq_true_2 by done.
  rewrite (count_bits_state st (p_slots p) _ Loaned) by (done || apply R2). f_equal. rewrite <- (length_map slot_ptr). apply Permutation_length, NoDup_Permutation; [|done|].
  - apply NoDup_fmap_2_strong; [intros x y _ _; apply slot_ptr_inj|]. apply NoDup_filter, NoDup_seq.
  - intros q. rewrite list_elem_of_fmap, R5. split; [intros (i & -> & [Hi [_ Hs]%elem_of_seq]%list_elem_of_filter); exists i; split_and!; try done; lia|].
    intros (i & Hi & -> & Hs). exists i. split; [done|]. apply list_elem_of_filter. split; [done|]. apply elem_of_seq. lia.
Qed.
Lemma pending_counts st p lent : slots_rep st p lent ->
  Z.of_nat (length (filter (fun i => st i = Free) (seq 0 capn))) + bb_pool_slots_acquired_count (Some p) + bb_pool_slots_pending_count (Some p) = cap.
Proof.
  intros Hr. pose proof Hr as [R1 R2 R3 R4 R5]. unfold bb_pool_slots_acquired_count, bb_pool_slots_pending_count. rewrite R1, Hm, bool_decide_eq_true_2 by done.
  rewrite (count_bits_state st (p_slots p) _ Loaned), (count_bits_state st (p_slots p) _ Waiting) by (done || apply R2).
  pose proof (split_count st (seq 0 capn) R3) as H. cbv zeta in H. rewrite length_seq in H. lia.
Qed.
Lemma none_free st : (forall i, (i < capn)%nat -> st i <> Free) -> length (filter (fun i => st i = Free) (seq 0 capn)) = 0%nat.
Proof.
  intros H. destruct (filter _ _) as [|i l] eqn:E; [done|]. assert (Hi : i ∈ filter (fun i => st i = Free) (seq 0 capn)) by (rewrite E; left).
  apply list_elem_of_filter in Hi as [Hf [_ Hi]%elem_of_seq]. exfalso. apply (H i); [lia|done].
Qed.
End Slots.

(** ** Histories *)

Inductive slot_op : Set := SAcquire | SRelease (ptr : Z) | SReap.
(** The pool, what the callbacks act on, and the pointers lent out and not yet
    taken back. *)
Definition slot_step {W} (op : slot_op) (x : option (pool W) * W * list Z) : option (pool W) * W * list Z :=
  let '(p, w, lent) := x in
  match op with
  | SAcquire => let '(q, p1, w1) := bb_pool_acquire p w in (p1, w1, if q =? 0 then lent else q :: lent)
  | SRelease ptr => let '(e, p1, w1) := bb_pool_release p ptr w in (p1, w1, if is_ok e then filter (fun q => q <> ptr) lent else lent)
  | SReap => let '(_, p1, w1) := bb_pool_slots_reap_ready p w in (p1, w1, lent)
  end.

Lemma slot_step_ok {W} (cfg : pool_cfg W) sto stride st p lent w op : c_mode cfg = BB_POOL_MODE_SLOTS -> 0 < c_capacity cfg -> 0 < sto -> 0 < stride ->
  slots_rep cfg sto stride st p lent ->
  exists p1 w1 lent1 st1, slot_step op (Some p, w, lent) = (Some p1, w1, lent1) /\ slots_rep cfg sto stride st1 p1 lent1.
Proof.
  intros Hm Hcap Hsto Hst Hr. destruct op as [|ptr|]; cbn [slot_step].
  - pose proof (acquire_ok cfg sto stride Hm Hcap Hsto Hst st p lent w Hr) as H. destruct (bb_pool_acquire _ _) as [[q p1] w1]. destruct H as (p1' & -> & H0 & H1).
    destruct (Z.eqb_spec q 0) as [E|E]; [destruct (H0 E) as [-> _]; by eexists _, _, _, st|]. destruct (H1 E) as (i & _ & _ & _ & H). by eexists _, _, _, _.
  - pose proof (release_ok cfg sto stride Hm Hcap Hsto Hst st p lent ptr w Hr) as H. destruct (bb_pool_release _ _ _) as [[e p1] w1]. destruct H as (p1' & -> & _ & H0 & H1).
    destruct (is_ok e); [destruct (H1 eq_refl) as [st1 H]; by eexists _, _, _, _|]. destruct (H0 eq_refl) as [-> ->]. by eexists _, _, _, st.
  - pose proof (reap_ok cfg sto stride Hm Hcap st p lent w Hr) as (p1' & st1 & E & H). destruct (bb_pool_slots_reap_ready _ _) as [[n p1] w1]. cbn in E. subst p1. by eexists _, _, _, _.
Qed.
Lemma slot_run_ok {W} (cfg : pool_cfg W) sto stride ops : c_mode cfg = BB_POOL_MODE_SLOTS -> 0 < c_capacity cfg -> 0 < sto -> 0 < stride ->
  forall st p lent w, slots_rep cfg sto stride st p lent ->
  exists p1 w1 lent1 st1, fold_left (fun x op => slot_step op x) ops (Some p, w, lent) = (Some p1, w1, lent1) /\ slots_rep cfg sto stride st1 p1 lent1.
Proof.
  intros Hm Hcap Hsto Hst. induction ops as [|op ops IH]; intros st p lent w Hr; cbn [fold_left]; [by eexists _, _, _, st|].
  destruct (slot_step_ok cfg sto stride st p lent w op Hm Hcap Hsto Hst Hr) as (p1 & w1 & lent1 & st1 & -> & H1). by apply (IH st1).
Qed.
(** A created pool: every slot is free. *)
Lemma slots_fresh {W} (cfg : pool_cfg W) p st stride n : p_cfg p = cfg -> 0 < c_capacity cfg -> 0 < st -> 0 < stride -> c_capacity cfg <= 8 * Z.of_nat n ->
  p_slots p = mk_slots st stride (map (fun i => st + Z.of_nat i * stride) (seq 0 (Z.to_nat (c_capacity cfg)))) (Z.to_nat (c_capacity cfg)) (repeat 0 n) (repeat 0 n) ->
  slots_rep cfg st stride (fun _ => Free) p [].
Proof.
  intros Hc Hcap Hs Hstr Hn E. assert (Hz : forall i, bitmap_test (repeat 0 n) i = false).
  { intros i. rewrite bitmap_test_bit, nth_repeat. apply Z.bits_0. }
  split; try done; [|constructor|].
  - rewrite E. split; cbn [sl_storage sl_stride sl_free_list sl_free_top sl_acquired sl_pending]; rewrite ?repeat_length, ?length_map, ?length_seq; try done.
    exists (seq 0 (Z.to_nat (c_capacity cfg))). rewrite length_seq. split_and!; try done; [|apply NoDup_seq|].
    + apply take_ge. by rewrite length_map, length_seq.
    + intros i. rewrite elem_of_seq. split; [intros [_ ?]; split; [lia|done]|intros [? _]; lia].
  - intros q. split; [by intros ?%not_elem_of_nil|]. by intros (i & _ & _ & ?).
Qed.

(** * Properties *)

Definition sizes_sane (align_log sizeof_pool sizeof_rslot sizeof_ptr : Z) : Prop :=
  0 <= align_log <= 12 /\ 0 < sizeof_pool < 2 ^ 32 /\ 0 < sizeof_rslot < 2 ^ 32 /\ 0 < sizeof_ptr < 2 ^ 32.
Definition cfg_sane {W} (cfg : pool_cfg W) : Prop :=
  0 <= c_capacity cfg <= SIZE_MAX /\ 0 <= c_max_slot_bytes cfg <= SIZE_MAX /\ 0 <= c_transient_reserve_bytes cfg <= SIZE_MAX.
(** An arena set up on [total] bytes at [block], after any use of it. *)
Definition arena_at (align_log struct_size block total : Z) (a : arena) : Prop :=
  0 <= struct_size < 2 ^ 32 /\ 0 < block /\ block + total <= 2 ^ 64 /\
  exists a0 cs live, bb_mem_arena_init align_log struct_size true block total = (BB_OK, Some a0) /\ Forall call_sane cs /\
    arena_run align_log cs (Some a0, []) = Some (Some a, live).

Lemma arena_at_ok align_log struct_size block total a : 0 <= align_log <= 12 -> arena_at align_log struct_size block total a ->
  exists buf size live, block <= buf /\ buf + size = block + total /\ 0 < buf /\ buf + size <= 2 ^ 64 /\ arena_ok align_log buf size a live.
Proof.
  intros Hal (Hss & Hb & Ht & a0 & cs & live & Hi & Hc & Hr).
  destruct (init_ok align_log struct_size Hal Hss block total a0 Hb Ht Hi) as (Hok0 & Hh & _ & Hmin).
  set (H := BB_MEM_ARENA_HDR_SZ align_log struct_size) in *.
  destruct (run_ok align_log Hal (block + H) (total - H) cs a0 [] (Some a, live) ltac:(lia) ltac:(lia) Hok0 Hc Hr) as (a1 & Ea & Hok).
  cbn [fst snd] in Ea, Hok. injection Ea as <-. exists (block + H), (total - H), live. split_and!; try done; lia.
Qed.

Lemma hdr_pos align_log struct_size : 0 <= align_log <= 12 -> 0 <= struct_size < 2 ^ 32 -> 0 <= BB_MEM_ARENA_HDR_SZ align_log struct_size.
Proof.
  intros Hal Hss. pose proof (align_pos align_log Hal). destruct (round_up_spec align_log Hal struct_size) as [_ ?]; [unfold SIZE_MAX in *; lia|]. unfold BB_MEM_ARENA_HDR_SZ. lia.
Qed.

Section Created.
Context (align_log sizeof_pool sizeof_rslot sizeof_ptr struct_size block total : Z) {W : Type} (cfg : pool_cfg W) (a : arena) (m : mem).
Context (Hsz : sizes_sane align_log sizeof_pool sizeof_rslot sizeof_ptr) (Hcfg : cfg_sane cfg) (Ha : arena_at align_log struct_size block total a).
Abbreviation create := (bb_pool_create align_log sizeof_pool sizeof_rslot sizeof_ptr).

(** A pool that was created lies within the arena's buffer. *)
Lemma created_made p a' m' : create (Some cfg) (Some a) true m = (BB_OK, Some p, a', m') ->
  (c_mode cfg <> BB_POOL_MODE_TRANSIENT -> 0 < c_capacity cfg /\ 0 < c_max_slot_bytes cfg) /\
  exists lo hi, block <= lo /\ hi <= block + total /\ pool_made cfg lo hi p.
Proof.
  intros E. destruct Hsz as (Z1 & Z2 & Z3 & Z4), Hcfg as (C1 & C2 & C3).
  destruct (arena_at_ok _ _ _ _ _ Z1 Ha) as (buf & size & live & B1 & B2 & B3 & B4 & Hok).
  pose proof (create_outcome align_log sizeof_pool sizeof_rslot sizeof_ptr Z1 Z2 Z3 Z4 buf size B3 B4 cfg C1 C2 C3 a m live Hok) as H. cbv zeta in H. rewrite E in H.
  destruct (size_needed _ _ _ _ cfg) as [need|] eqn:En; [|done].
  apply (size_needed_parts align_log sizeof_pool sizeof_rslot sizeof_ptr Z1 Z2 Z3 Z4 cfg C1 C2 C3) in En as [_ Hp]. cbv zeta in Hp.
  split; [intros Hne; destruct (c_mode cfg); try done; by destruct Hp as (H1 & H2 & _)|].
  destruct (_ <? _); [done|]. destruct H as (p' & a1 & m1 & l1 & [= <- -> <-] & Ho & Hok1 & Hmade).
  pose proof (ao_off _ _ _ _ _ Hok1). pose proof (ao_off _ _ _ _ _ Hok). eexists _, _. split; [|split; [|exact Hmade]]; lia.
Qed.
End Created.

(** ** Creation *)

Lemma owned_arena align_log struct_size b need : 0 <= align_log <= 12 -> 0 <= struct_size < 2 ^ 32 ->
  let H := BB_MEM_ARENA_HDR_SZ align_log struct_size in
  0 < b -> b + H + need <= 2 ^ 64 -> BB_MEM_ARENA_ALIGN align_log <= need -> H + need <= SIZE_MAX ->
  exists a, (forall calloc, calloc (H + need) = b -> bb_mem_arena_init_from_bb_mem align_log struct_size calloc true need = (BB_OK, Some a, [])) /\
    ar_offset a = 0 /\ arena_ok align_log (b + H) need a [].
Proof.
  intros Hal Hss. cbv zeta. set (H := BB_MEM_ARENA_HDR_SZ align_log struct_size). intros Hb Ht Hmin Hmx.
  set (a0 := mk_arena (b + H) (H + need - H) 0 (mk_stats 0 0 0 0) 0). pose proof (align_pos align_log Hal).
  pose proof (hdr_pos align_log struct_size Hal Hss) as HH. fold H in HH.
  assert (Hi : bb_mem_arena_carve align_log struct_size true b (H + need) = (BB_OK, Some a0)).
  { unfold bb_mem_arena_carve. fold H. cbn [negb orb]. destruct (Z.eqb_spec b 0); [lia|]. cbn [orb]. rewrite u64_small by lia.
    destruct (Z.ltb_spec (H + need) (H + BB_MEM_ARENA_ALIGN align_log)); [lia|done]. }
  destruct (init_ok align_log struct_size Hal Hss b (H + need) a0 Hb ltac:(lia) Hi) as (Hok & _). fold H in Hok.
  replace (H + need - H) with need in * by lia.
  exists (mk_arena (ar_buf a0) (ar_size a0) (ar_offset a0) (ar_stats a0) b). split; [|split; [done|by destruct Hok]].
  intros calloc Hc. unfold bb_mem_arena_init_from_bb_mem. fold H. cbn [negb orb]. destruct (Z.eqb_spec need 0); [lia|]. destruct (Z.ltb_spec (SIZE_MAX - H) need); [lia|].
  rewrite Hc. destruct (Z.eqb_spec b 0); [lia|]. by rewrite Hi.
Qed.

(** A pool is created completely or not at all.  In an arena, whatever it
    was used for before: an invalid or overflowing configuration is refused, too
    little room is refused, both with the arena as it was; otherwise creation
    succeeds, takes exactly what bb_pool_arena_size_needed computed (a TRANSIENT
    pool leaves its reserve in the arena) and lays the pool's parts out in it
    without overlap.  With an arena of its own, creation fails only if the heap
    has no block of that size and the arena's header, and leaks nothing. *)
Theorem pool_created_whole align_log sizeof_pool sizeof_rslot sizeof_ptr struct_size block total {W} (cfg : pool_cfg W) a m :
  sizes_sane align_log sizeof_pool sizeof_rslot sizeof_ptr -> cfg_sane cfg -> arena_at align_log struct_size block total a ->
  let create := bb_pool_create align_log sizeof_pool sizeof_rslot sizeof_ptr (Some cfg) in
  let need := bb_pool_arena_size_needed align_log sizeof_pool sizeof_rslot sizeof_ptr (Some cfg) in
  let free a := bb_mem_arena_free_bytes (Some a) in
  (need = 0 -> create (Some a) true m = (BB_ERR_INVALID_ARG, None, Some a, m)) /\
  (need <> 0 -> free a < need -> create (Some a) true m = (BB_ERR_NO_SPACE, None, Some a, m)) /\
  (need <> 0 -> need <= free a -> exists p a' m', create (Some a) true m = (BB_OK, Some p, Some a', m') /\
     free a - free a' = carved align_log sizeof_pool cfg need /\
     exists lo, block <= lo /\ lo + carved align_log sizeof_pool cfg need <= block + total /\ pool_made cfg lo (lo + carved align_log sizeof_pool cfg need) p) /\
  (forall calloc backing, need <> 0 ->
     let H := BB_MEM_ARENA_HDR_SZ align_log struct_size in
     let b := calloc (H + need) in
     H + need <= SIZE_MAX -> 0 <= b -> b + H + need <= 2 ^ 64 ->
     let r := bb_pool_create_owned align_log sizeof_pool sizeof_rslot sizeof_ptr struct_size calloc (Some cfg) backing true m in
     if b =? 0 then r = ((BB_ERR_NO_MEM, None, None, m), [])
     else exists p a' m', r = ((BB_OK, Some p, Some a', m'), []) /\ p_owns_arena p = true).
Proof.
  intros (Z1 & Z2 & Z3 & Z4) (C1 & C2 & C3) Ha. cbv zeta. pose proof Ha as (Hss & _). pose proof (align_pos align_log Z1) as HA.
  destruct (arena_at_ok _ _ _ _ _ Z1 Ha) as (buf & size & live & B1 & B2 & B3 & B4 & Hok).
  assert (Hout := fun buf size B3 B4 => create_outcome align_log sizeof_pool sizeof_rslot sizeof_ptr Z1 Z2 Z3 Z4 buf size B3 B4 cfg C1 C2 C3). cbv zeta in Hout.
  pose proof (Hout buf size B3 B4 a m live Hok) as H. cbn [bb_pool_arena_size_needed bb_mem_arena_free_bytes].
  rewrite (ao_size _ _ _ _ _ Hok). destruct (align_up_spec align_log Z1 sizeof_pool ltac:(unfold SIZE_MAX; lia)) as [HT _].
  destruct (size_needed _ _ _ _ cfg) as [need|] eqn:En.
  2: { change (default 0 None) with 0. split; [by intros _|]. split; [done|]. split; done. }
  change (default 0 (Some need)) with need. pose proof (needs_align align_log sizeof_pool sizeof_rslot sizeof_ptr Z1 Z2 Z3 Z4 cfg C1 C2 C3 need En) as Hn.
  split; [lia|]. split; [|split].
  - intros _ Hlt. destruct (Z.ltb_spec (size - ar_offset a) need); [done|lia].
  - intros _ Hle. destruct (Z.ltb_spec (size - ar_offset a) need); [lia|]. destruct H as (p & a' & m' & l' & -> & Ho & Hok' & Hmade).
    exists p, a', m'. split; [done|]. rewrite (ao_size _ _ _ _ _ Hok'). split; [lia|]. exists (buf + ar_offset a). pose proof (ao_off _ _ _ _ _ Hok). pose proof (ao_off _ _ _ _ _ Hok').
    split; [lia|]. split; [lia|done].
  - intros calloc backing _ Hmx Hb0 Htop. set (Hd := BB_MEM_ARENA_HDR_SZ align_log struct_size) in *. unfold bb_pool_create_owned. cbn [negb bb_pool_arena_size_needed]. rewrite En.
    change (default 0 (Some need)) with need. destruct (Z.eqb_spec need 0); [lia|].
    assert (Ei : forall x, bb_mem_arena_init_from_bb_mem align_log struct_size calloc true need = x ->
      match backing with BB_POOL_BACKING_HEAP => bb_mem_arena_init_heap align_log struct_size calloc true need
                       | BB_POOL_BACKING_SPIRAM => bb_mem_arena_init_spiram align_log struct_size calloc true need end = x) by (by destruct backing).
    destruct (Z.eqb_spec (calloc (Hd + need)) 0) as [Eb|Eb].
    + rewrite (Ei (BB_ERR_NO_MEM, None, [])); [done|]. unfold bb_mem_arena_init_from_bb_mem. fold Hd. cbn [negb orb]. destruct (Z.eqb_spec need 0); [lia|].
      destruct (Z.ltb_spec (SIZE_MAX - Hd) need); [lia|]. by rewrite Eb.
    + destruct (owned_arena align_log struct_size (calloc (Hd + need)) need Z1 Hss ltac:(lia) Htop ltac:(lia) Hmx) as (a1 & Hi & Ho1 & Hok1). fold Hd in Hi, Hok1.
      rewrite (Ei _ (Hi calloc eq_refl)). cbn [is_ok negb].
      pose proof (hdr_pos align_log struct_size Z1 Hss) as HH. fold Hd in HH.
      pose proof (Hout (calloc (Hd + need) + Hd) need ltac:(lia) ltac:(lia) a1 m _ Hok1) as H1. rewrite Ho1 in H1.
      destruct (Z.ltb_spec (need - 0) need); [lia|]. destruct H1 as (p & a' & m' & l' & -> & _). eexists _, _, _. by split.
Qed.

(** ** FIFO *)

(** A FIFO pool is a bounded queue.  From its creation on, any sequence of
    pushes, peeks, pops and queries answers exactly what a list of items,
    oldest first, answers: a full pool loses its oldest item or refuses the new
    one, as its policy says, and counts it; a peek copies as much of the item as
    the buffer holds.  The ring never holds more than the capacity, and writes
    no byte outside the arena's buffer. *)
Theorem pool_fifo_queue align_log sizeof_pool sizeof_rslot sizeof_ptr struct_size block total {W} (cfg : pool_cfg W) a m p a' m' ops :
  sizes_sane align_log sizeof_pool sizeof_rslot sizeof_ptr -> cfg_sane cfg -> arena_at align_log struct_size block total a ->
  c_mode cfg = BB_POOL_MODE_FIFO ->
  bb_pool_create align_log sizeof_pool sizeof_rslot sizeof_ptr (Some cfg) (Some a) true m = (BB_OK, Some p, a', m') ->
  Forall op_sane ops ->
  let '(rs, (_, m2)) := runs fifo_step ops (Some p, m') in
  let '(rs', q) := runs (queue_step cfg) ops (mk_queue [] 0) in
  rs = rs' /\ Z.of_nat (length (q_items q)) <= c_capacity cfg /\ forall x, ~ (block <= x < block + total) -> m2 x = m' x.
Proof.
  intros Hsz Hcfg Ha Hm Hc Hops. pose proof Ha as (_ & Hb & Ht & _).
  destruct (created_made _ _ _ _ _ _ _ cfg a m Hsz Hcfg Ha p a' m' Hc) as [Hpos (lo & hi & H1 & H2 & [M1 _ M3])]. cbv zeta in M3. rewrite Hm in M3.
  destruct M3 as (e & stride & Ef & E1 & E2 & E3). destruct (Hpos ltac:(congruence)) as [P1 P2]. unfold sizeof_fifo_hdr in E3.
  assert (Hrep : fifo_rep cfg e stride (mk_queue [] 0) p m').
  { split; [done|]. exists 0. split; [done|]. split; [lia|]. split; [cbn; lia|]. intros i it Hx; cbn in Hx; by rewrite lookup_nil in Hx. }
  pose proof (fifo_runs_refine cfg e stride Hm P1 ltac:(lia) E3 ltac:(lia) ltac:(lia) ops _ p m' Hops Hrep) as H.
  destruct (runs fifo_step ops (Some p, m')) as [rs [p2 m2]]. destruct (runs (queue_step cfg) ops _) as [rs' q]. cbn [fst snd] in H.
  destruct H as (-> & (p1 & _ & _ & head & _ & _ & Hl & _) & Hfr). split; [done|]. split; [done|]. intros x Hx. apply Hfr. unfold in_ring. lia.
Qed.

(** ** SLOTS *)

(** C20: a SLOTS pool lends a slot to one holder at a time.  After any sequence of
    acquisitions, releases (of any pointer at all) and reaps, whatever the
    callbacks answer: the pointers lent out are distinct slots of the arena's
    buffer, far enough apart to hold their bytes, and the counters count them;
    the next acquisition never answers a slot that is lent out, and answers one
    whenever fewer than the capacity are lent out or waiting; and releasing
    succeeds exactly on a pointer that is lent out: a second release, or one of a
    foreign pointer, is refused, runs no callback and changes nothing. *)
Theorem pool_slots_exclusive align_log sizeof_pool sizeof_rslot sizeof_ptr struct_size block total {W} (cfg : pool_cfg W) a m p a' m' ops (w0 : W) :
  sizes_sane align_log sizeof_pool sizeof_rslot sizeof_ptr -> cfg_sane cfg -> arena_at align_log struct_size block total a ->
  c_mode cfg = BB_POOL_MODE_SLOTS ->
  bb_pool_create align_log sizeof_pool sizeof_rslot sizeof_ptr (Some cfg) (Some a) true m = (BB_OK, Some p, a', m') ->
  let '(p1, w, lent) := fold_left (fun x op => slot_step op x) ops (Some p, w0, []) in
  NoDup lent /\ Forall (fun q => block < q /\ q + c_max_slot_bytes cfg <= block + total) lent /\
  (forall q q', q ∈ lent -> q' ∈ lent -> q < q' -> q + c_max_slot_bytes cfg <= q') /\
  bb_pool_slots_acquired_count p1 = Z.of_nat (length lent) /\
  bb_pool_slots_acquired_count p1 + bb_pool_slots_pending_count p1 <= c_capacity cfg /\
  (let '(q, _, _) := bb_pool_acquire p1 w in
   (q <> 0 -> ~ q ∈ lent) /\ (bb_pool_slots_acquired_count p1 + bb_pool_slots_pending_count p1 < c_capacity cfg -> q <> 0)) /\
  forall q, let '(e, p2, w2) := bb_pool_release p1 q w in
    (is_ok e = true <-> q ∈ lent) /\ (~ q ∈ lent -> p2 = p1 /\ w2 = w).
Proof.
  intros Hsz Hcfg Ha Hm Hc. pose proof Ha as (_ & Hb & Ht & _).
  destruct (created_made _ _ _ _ _ _ _ cfg a m Hsz Hcfg Ha p a' m' Hc) as [Hpos (lo & hi & H1 & H2 & [M1 _ M3])]. cbv zeta in M3. rewrite Hm in M3.
  destruct M3 as (sto & stride & n & Es & E1 & E2 & E3 & E4). destruct (Hpos ltac:(congruence)) as [P1 P2].
  assert (G1 : 0 < sto) by lia. assert (G2 : 0 < stride) by lia.
  pose proof (slots_fresh cfg p sto stride n M1 P1 G1 G2 E4 Es) as Hfresh.
  destruct (slot_run_ok cfg sto stride ops Hm P1 G1 G2 _ p [] w0 Hfresh) as (p1 & w & lent & st & -> & Hr). clear Hfresh.
  pose proof Hr as [R1 R2 R3 R4 R5]. pose proof (pending_counts cfg sto stride Hm P1 st p1 lent Hr) as Hcount.
  split; [done|]. split; [apply Forall_forall; intros q (i & Hi & -> & _)%R5; unfold slot_ptr; assert ((Z.of_nat i + 1) * stride <= c_capacity cfg * stride) by (apply Z.mul_le_mono_nonneg_r; lia); nia|].
  split; [intros q q' (i & Hi & -> & _)%R5 (j & Hj & -> & _)%R5 Hlt; unfold slot_ptr in *; assert (Z.of_nat i + 1 <= Z.of_nat j) by nia; nia|].
  split; [exact (acquired_counts cfg sto stride Hm G2 st p1 lent Hr)|]. split; [lia|]. split.
  - pose proof (acquire_ok cfg sto stride Hm P1 G1 G2 st p1 lent w Hr) as H. destruct (bb_pool_acquire _ _) as [[q p2] w2]. destruct H as (p1' & _ & Hz & Hnz). split.
    + intros Hq. destruct (Hnz Hq) as (i & _ & -> & Hf & _). apply (not_lent cfg sto stride G2 st p1); [done|]. destruct Hf; congruence.
    + intros Hlt Hq. destruct (Hz Hq) as [_ Hnone]. rewrite (none_free cfg st Hnone) in Hcount. lia.
  - intros q. pose proof (release_ok cfg sto stride Hm P1 G1 G2 st p1 lent q w Hr) as H. destruct (bb_pool_release _ _ _) as [[e p2] w2]. destruct H as (p1' & -> & He & Hno & _).
    split; [done|]. intros Hq. destruct (is_ok e) eqn:Ee; [tauto|]. by destruct (Hno eq_refl) as [-> ->].
Qed.

(** * Concrete cases *)

(** A pool of two slots of 20 bytes, in the buffer at 4096; the callbacks count
    their calls, and every second question of the gate is answered yes. *)
Definition case_cfg (mode : pool_mode) (policy : pool_full_policy) : pool_cfg Z :=
  mk_pcfg mode 2 20 policy None 64 None (Some (fun _ w => w + 100)) (Some (fun _ w => (Z.odd w, w + 1))) None None.
Definition case_arena : arena := default (mk_arena 0 0 0 (mk_stats 0 0 0 0) 0) (bb_mem_arena_alloc 4 (bb_mem_arena_init 4 64 true 4096 1024).2 10).2.
Lemma case_at : arena_at 4 64 4096 1024 case_arena.
Proof.
  split; [lia|]. split; [lia|]. split; [lia|]. exists (mk_arena 4160 960 0 (mk_stats 0 0 0 0) 0), [CAlloc 10], [(4160, 16)].
  split; [vm_compute; reflexivity|]. split; [|vm_compute; reflexivity]. constructor; [cbn; unfold SIZE_MAX; lia|constructor].
Defined.
Lemma case_sizes : sizes_sane 4 256 24 8.
Proof. unfold sizes_sane. lia. Defined.
Lemma case_sane mode policy : cfg_sane (case_cfg mode policy).
Proof. unfold cfg_sane, SIZE_MAX. cbn. lia. Defined.
Definition case_mem : mem := fun _ => xff.
Definition case_made (mode : pool_mode) (policy : pool_full_policy) : created (W := Z) :=
  bb_pool_create 4 256 24 8 (Some (case_cfg mode policy)) (Some case_arena) true case_mem.

Lemma pool_created_whole_witness :
  let cfg := case_cfg BB_POOL_MODE_SLOTS BB_POOL_FULL_REJECT_NEW in
  let need := bb_pool_arena_size_needed 4 256 24 8 (Some cfg) in
  need = 368 /\ (exists p a' m', bb_pool_create 4 256 24 8 (Some cfg) (Some case_arena) true case_mem = (BB_OK, Some p, a', m')) /\
  exists p a' m', bb_pool_create_owned 4 256 24 8 64 (fun _ => 8192) (Some cfg) BB_POOL_BACKING_HEAP true case_mem = ((BB_OK, Some p, Some a', m'), []).
Proof.
  cbv zeta. assert (En : bb_pool_arena_size_needed 4 256 24 8 (Some (case_cfg BB_POOL_MODE_SLOTS BB_POOL_FULL_REJECT_NEW)) = 368) by (vm_compute; reflexivity).
  split; [exact En|].
  destruct (pool_created_whole 4 256 24 8 64 4096 1024 (case_cfg BB_POOL_MODE_SLOTS BB_POOL_FULL_REJECT_NEW) case_arena case_mem case_sizes (case_sane _ _) case_at) as (_ & _ & H1 & H2).
  rewrite En in H1, H2. split.
  - destruct H1 as (p & a' & m' & E & _); [lia|vm_compute; intros ?; discriminate|]. exists p, (Some a'), m'. exact E.
  - specialize (H2 (fun _ => 8192) BB_POOL_BACKING_HEAP ltac:(lia)). cbv zeta in H2.
    destruct H2 as (p & a' & m' & E & _); [vm_compute; intros ?; discriminate..|]. exists p, a', m'. exact E.
Defined.

Lemma pool_fifo_queue_witness :
  let ops := [FPush (Some (bs "one")) 3 (-5) 7; FPush None 0 1 8; FPush (Some (bs "three")) 5 2 9; FPeek (Some 4%nat); FPop; FPeek (Some 4%nat); FCount; FDropped] in
  match case_made BB_POOL_MODE_FIFO BB_POOL_FULL_EVICT_OLDEST with
  | (_, p, _, m) => (runs fifo_step ops (p, m)).1 =
      [RDone BB_OK; RDone BB_OK; RDone BB_OK; RPeek 0 1 8 []; RDone BB_OK; RPeek 5 2 9 (bs "thre"); RNum 1; RNum 1]
  end.
Proof.
  cbv zeta. set (ops := [_; _; _; _; _; _; _; _]). unfold case_made.
  destruct (bb_pool_create 4 256 24 8 (Some (case_cfg BB_POOL_MODE_FIFO BB_POOL_FULL_EVICT_OLDEST)) (Some case_arena) true case_mem) as [[[e p] a'] m'] eqn:E.
  assert (Hok : exists p', e = BB_OK /\ p = Some p').
  { assert (H : (bb_pool_create 4 256 24 8 (Some (case_cfg BB_POOL_MODE_FIFO BB_POOL_FULL_EVICT_OLDEST)) (Some case_arena) true case_mem).1.1.1 = BB_OK) by (vm_compute; reflexivity).
    assert (H' : is_Some (bb_pool_create 4 256 24 8 (Some (case_cfg BB_POOL_MODE_FIFO BB_POOL_FULL_EVICT_OLDEST)) (Some case_arena) true case_mem).1.1.2) by (eexists; vm_compute; reflexivity).
    rewrite E in H, H'. destruct H' as [p' H']. exists p'. by split. }
  destruct Hok as (p' & -> & ->).
  pose proof (pool_fifo_queue 4 256 24 8 64 4096 1024 _ case_arena case_mem p' a' m' ops case_sizes (case_sane _ _) case_at eq_refl E) as H.
  assert (Hops : Forall op_sane ops) by (unfold ops; repeat constructor; unfold SIZE_MAX; cbn; lia).
  specialize (H Hops). destruct (runs fifo_step ops (Some p', m')) as [rs [p2 m2]].
  destruct (runs (queue_step (case_cfg BB_POOL_MODE_FIFO BB_POOL_FULL_EVICT_OLDEST)) ops (mk_queue [] 0)) as [rs' q] eqn:Eq. destruct H as [-> _].
  apply (f_equal fst) in Eq. cbn [fst] in *. rewrite <- Eq. vm_compute. reflexivity.
Defined.

Lemma pool_slots_exclusive_witness :
  let ops := [SAcquire; SAcquire; SRelease 4432; SRelease 4432; SAcquire; SAcquire; SReap; SRelease 4464; SRelease 4433] in
  exists p a' m', case_made BB_POOL_MODE_SLOTS BB_POOL_FULL_REJECT_NEW = (BB_OK, Some p, a', m') /\
  let '(p1, w, lent) := fold_left (fun x op => slot_step op x) ops (Some p, 0, []) in
  lent = [4432] /\ w = 202 /\ bb_pool_slots_acquired_count p1 = 1 /\ bb_pool_slots_pending_count p1 = 1.
Proof.
  cbv zeta. set (ops := [_; _; _; _; _; _; _; _; _]).
  set (r := case_made BB_POOL_MODE_SLOTS BB_POOL_FULL_REJECT_NEW). destruct (r.1.1.2) as [p|] eqn:Ep; [|vm_compute in Ep; discriminate].
  assert (E : r = (BB_OK, Some p, r.1.2, r.2)).
  { assert (H : r.1.1.1 = BB_OK) by (vm_compute; reflexivity). destruct r as [[[e p'] a'] m']. cbn [fst snd] in *. by rewrite H, Ep. }
  exists p, (r.1.2), (r.2). split; [exact E|].
  assert (Hl : let x := fold_left (fun x op => slot_step op x) ops (r.1.1.2, 0, []) in x.2 = [4432] /\ x.1.2 = 202 /\ bb_pool_slots_pending_count x.1.1 = 1)
    by (split_and!; vm_compute; reflexivity).
  cbv zeta in Hl. rewrite Ep in Hl.
  pose proof (pool_slots_exclusive 4 256 24 8 64 4096 1024 _ case_arena case_mem p r.1.2 r.2 ops 0 case_sizes (case_sane _ _) case_at eq_refl E) as H.
  destruct (fold_left _ _ _) as [[p1 w] lent]. cbn [fst snd] in Hl. destruct Hl as (-> & -> & Hp). destruct H as (_ & _ & _ & Hc & _).
  split; [reflexivity|]. split; [reflexivity|]. split; [rewrite Hc; reflexivity|exact Hp].
Defined.
