(* ===== verification/BQueue.v ===== *)
(** bb_bqueue: the blocking queue, a mailbox or a bounded buffer between threads
    (components/bb_bqueue and platform/host/bb_bqueue/bb_bqueue.c).  Each
    critical section, from taking the lock to giving it up or waiting, is one
    step; the threads interleave between them. *)
From Stdlib Require Import Strings.String.
From S2P Require Import Prelude Bytes.
Local Open Scope Z_scope.

(** * Data *)

Definition BB_BQUEUE_WAIT_FOREVER : Z := 4294967295.
Definition BB_LOCK_COND_WAIT_FOREVER : Z := 4294967295.
Record bqueue_cfg := mk_bcfg { bc_capacity : Z; bc_item_bytes : Z }.
(** The two condition variables; the lock is what makes a step atomic. *)
Inductive cond : Set := not_empty | not_full.
#[export] Instance cond_eq_dec : EqDecision cond.
Proof. solve_decision. Defined.
Record inst := mk_inst {
  in_use : bool; capacity : Z; item_bytes : Z;
  storage : list (list byte); head : Z; count : Z; dropped : Z
}.

(** * Arithmetic shared by the backends (bb_bqueue_common.c) *)

Definition bb_bqueue_deadline_compute (now_us timeout_ms : Z) : Z := u64 (now_us + timeout_ms * 1000).
(** [None] is the answer false. *)
Definition bb_bqueue_deadline_remaining_ms (deadline_us now_us : Z) : option Z :=
  if deadline_us <=? now_us then None else Some (u32 ((deadline_us - now_us) / 1000)).

Section BQueue.
(** The Kconfig bounds. *)
Context (max_instances : nat) (max_capacity max_item_bytes : Z).

Definition bb_bqueue_validate_cfg (cfg : option bqueue_cfg) : bb_err :=
  match cfg with
  | None => BB_ERR_INVALID_ARG
  | Some c =>
      if (bc_capacity c =? 0) || (max_capacity <? bc_capacity c) then BB_ERR_INVALID_ARG else
      if (bc_item_bytes c =? 0) || (max_item_bytes <? bc_item_bytes c) then BB_ERR_INVALID_ARG else BB_OK
  end.

(** * The pool of instances; a handle is an index *)

Definition zero_inst : inst := mk_inst false 0 0 (repeat (repeat x00 (Z.to_nat max_item_bytes)) (Z.to_nat max_capacity)) 0 0 0.
Definition s_pool_init : list inst := repeat zero_inst max_instances.
Definition inst_from_handle (pool : list inst) (q : option nat) : option inst :=
  match q with
  | None => None
  | Some i => match pool !! i with Some q => if in_use q then Some q else None | None => None end
  end.
(** The first instance not in use. *)
Fixpoint first_unused (pool : list inst) : option nat :=
  match pool with [] => None | q :: rest => if negb (in_use q) then Some O else S <$> first_unused rest end.
Definition bb_bqueue_create (cfg : option bqueue_cfg) (out_ok : bool) (pool : list inst) : bb_err * option nat * list inst :=
  if negb out_ok then (BB_ERR_INVALID_ARG, None, pool) else
  match bb_bqueue_validate_cfg cfg, cfg with
  | BB_OK, Some c =>
      match first_unused pool with
      | None => (BB_ERR_NO_SPACE, None, pool)
      | Some idx => (BB_OK, Some idx, <[idx := mk_inst true (bc_capacity c) (bc_item_bytes c) (storage zero_inst) 0 0 0]> pool)
      end
  | vrc, _ => (vrc, None, pool)
  end.
Definition bb_bqueue_destroy (q : option nat) (pool : list inst) : list inst :=
  match q, inst_from_handle pool q with Some i, Some _ => <[i := zero_inst]> pool | _, _ => pool end.
End BQueue.

(** * Waiting *)

(** How a thread goes to sleep: the deadline of a bounded wait and how long this
    wait on the condition variable is, or for ever. *)
Inductive park : Set := park_forever | park_until (deadline_us remaining_ms : Z).
Inductive wait_outcome : Set := wait_done (rc : bb_err) | wait_sleep (p : park).

(** One turn of the bounded loop. *)
Definition wait_turn (q : inst) (blocked_at deadline_us now_us : Z) : wait_outcome :=
  if negb (count q =? blocked_at) then wait_done BB_OK else
  match bb_bqueue_deadline_remaining_ms deadline_us now_us with
  | None => wait_done BB_ERR_TIMEOUT
  | Some remaining_ms => wait_sleep (park_until deadline_us remaining_ms)
  end.
(** From the call to the first sleep; [now1] and [now2] are the two readings of
    the clock. *)
Definition bb_bqueue_wait_until (q : inst) (blocked_at timeout_ms : Z) (immediate_err : bb_err) (now1 now2 : Z) : wait_outcome :=
  if negb (count q =? blocked_at) then wait_done BB_OK else
  if timeout_ms =? 0 then wait_done immediate_err else
  if timeout_ms =? BB_BQUEUE_WAIT_FOREVER then wait_sleep park_forever else
  wait_turn q blocked_at (bb_bqueue_deadline_compute now1 timeout_ms) now2.
(** From a wake-up, with what bb_lock_cond_wait answered, to the next sleep. *)
Definition wait_woken (q : inst) (blocked_at : Z) (p : park) (wrc : bb_err) (now : Z) : wait_outcome :=
  match p with
  | park_forever => if negb (count q =? blocked_at) then wait_done BB_OK else wait_sleep park_forever
  | park_until deadline_us _ =>
      match wrc with
      | BB_ERR_TIMEOUT => wait_done BB_ERR_TIMEOUT
      | _ => wait_turn q blocked_at deadline_us now
      end
  end.

(** * Calls *)

(** [None] for a pointer is NULL; the flag says the out pointer is not NULL. *)
Inductive call : Set :=
  | bb_bqueue_overwrite (item : option (list byte))
  | bb_bqueue_reset
  | bb_bqueue_send (item : option (list byte)) (timeout_ms : Z)
  | bb_bqueue_peek (out_ok : bool) (timeout_ms : Z)
  | bb_bqueue_receive (out_ok : bool) (timeout_ms : Z)
  | bb_bqueue_dropped (out_ok : bool)
  | bb_bqueue_count
  | bb_bqueue_capacity.
Inductive result : Set := RErr (e : bb_err) | RItem (item : list byte) | RSize (n : Z).

Definition set_row (i : Z) (item : list byte) (q : inst) : list (list byte) :=
  alter (fun row => take (Z.to_nat (item_bytes q)) item ++ drop (Z.to_nat (item_bytes q)) row) (Z.to_nat i) (storage q).
Definition get_row (i : Z) (q : inst) : list byte := take (Z.to_nat (item_bytes q)) (nth (Z.to_nat i) (storage q) []).
Definition set_count (n : Z) (q : inst) : inst := mk_inst (in_use q) (capacity q) (item_bytes q) (storage q) (head q) n (dropped q).
Definition count_dropped (q : inst) : inst := mk_inst (in_use q) (capacity q) (item_bytes q) (storage q) (head q) (count q) (u64 (dropped q + 1)).

(** What a call does with the lock held, up to its first wait: its answer, the
    queue, and the condition it broadcasts; or how it waits. *)
Inductive section_end : Set := leaves (r : result) (q : inst) (wakes : option cond) | waits (p : park).
(** The rest of a blocking call after its wait. *)
Definition send_rest (item : list byte) (q : inst) (rc : bb_err) : section_end :=
  if negb (is_ok rc) then leaves (RErr rc) (count_dropped q) None else
  let tail := u64 (head q + count q) mod capacity q in
  leaves (RErr BB_OK) (mk_inst (in_use q) (capacity q) (item_bytes q) (set_row tail item q) (head q) (count q + 1) (dropped q)) (Some not_empty).
Definition peek_rest (q : inst) (rc : bb_err) : section_end :=
  if negb (is_ok rc) then leaves (RErr rc) q None else leaves (RItem (get_row (head q) q)) q None.
Definition receive_rest (q : inst) (rc : bb_err) : section_end :=
  if negb (is_ok rc) then leaves (RErr rc) q None else
  let item := get_row (head q) q in
  if capacity q =? 1 then leaves (RItem item) (set_count 0 q) None else
  leaves (RItem item)
    (mk_inst (in_use q) (capacity q) (item_bytes q) (storage q) (u64 (head q + 1) mod capacity q) (count q - 1) (dropped q)) (Some not_full).
Definition after_wait (rest : bb_err -> section_end) (o : wait_outcome) : section_end :=
  match o with wait_done rc => rest rc | wait_sleep p => waits p end.
Definition refuse (e : bb_err) (q : inst) : section_end := leaves (RErr e) q None.

(** A call entering on an instance. *)
Definition enter (c : call) (q : inst) (now1 now2 : Z) : section_end :=
  match c with
  | bb_bqueue_overwrite item =>
      match item with
      | Some it =>
          if negb (in_use q) then refuse BB_ERR_INVALID_ARG q else
          if negb (capacity q =? 1) then refuse BB_ERR_INVALID_STATE q else
          leaves (RErr BB_OK) (mk_inst (in_use q) (capacity q) (item_bytes q) (set_row 0 it q) (head q) 1 (dropped q)) (Some not_empty)
      | None => refuse BB_ERR_INVALID_ARG q
      end
  | bb_bqueue_reset =>
      if negb (in_use q) then refuse BB_ERR_INVALID_ARG q else
      if negb (capacity q =? 1) then refuse BB_ERR_INVALID_STATE q else leaves (RErr BB_OK) (set_count 0 q) None
  | bb_bqueue_send item timeout_ms =>
      match item with
      | Some it =>
          if negb (in_use q) then refuse BB_ERR_INVALID_ARG q else
          if capacity q =? 1 then refuse BB_ERR_INVALID_STATE q else
          after_wait (send_rest it q) (bb_bqueue_wait_until q (capacity q) timeout_ms BB_ERR_NO_SPACE now1 now2)
      | None => refuse BB_ERR_INVALID_ARG q
      end
  | bb_bqueue_peek out_ok timeout_ms =>
      if negb (in_use q) || negb out_ok then refuse BB_ERR_INVALID_ARG q else
      after_wait (peek_rest q) (bb_bqueue_wait_until q 0 timeout_ms BB_ERR_NOT_FOUND now1 now2)
  | bb_bqueue_receive out_ok timeout_ms =>
      if negb (in_use q) || negb out_ok then refuse BB_ERR_INVALID_ARG q else
      after_wait (receive_rest q) (bb_bqueue_wait_until q 0 timeout_ms BB_ERR_NOT_FOUND now1 now2)
  | bb_bqueue_dropped out_ok =>
      if negb (in_use q) || negb out_ok then refuse BB_ERR_INVALID_ARG q else
      if capacity q =? 1 then refuse BB_ERR_INVALID_STATE q else leaves (RSize (dropped q)) q None
  | bb_bqueue_count => leaves (RSize (if in_use q then count q else 0)) q None
  | bb_bqueue_capacity => leaves (RSize (if in_use q then capacity q else 0)) q None
  end.
(** Which condition a call waits for, and the count that blocks it. *)
Definition waits_for (c : call) : cond := match c with bb_bqueue_send _ _ => not_full | _ => not_empty end.
Definition blocked_at (c : call) (q : inst) : Z := match c with bb_bqueue_send _ _ => capacity q | _ => 0 end.
(** A call going on after a wake-up. *)
Definition resume (c : call) (q : inst) (p : park) (wrc : bb_err) (now : Z) : section_end :=
  let o := wait_woken q (blocked_at c q) p wrc now in
  match c with
  | bb_bqueue_send (Some it) _ => after_wait (send_rest it q) o
  | bb_bqueue_peek _ _ => after_wait (peek_rest q) o
  | bb_bqueue_receive _ _ => after_wait (receive_rest q) o
  | _ => refuse BB_ERR_INVALID_ARG q
  end.

(** * Threads *)

(** [since]: the first reading of the clock of the call; [until]: when the wait
    on the condition variable may time out. *)
Inductive thread : Set :=
  | Calling (c : call)
  | Asleep (c : call) (since : Z) (p : park) (until : option Z)
  | Awake (c : call) (since : Z) (p : park) (wrc : bb_err)
  | Idle.
(** An answered call: the thread, the call, when it began, when it was answered,
    the answer. *)
Record answer := mk_answer { an_tid : nat; an_call : call; an_since : Z; an_now : Z; an_result : result }.
Record system := mk_sys { sy_q : inst; sy_now : Z; sy_threads : gmap nat thread }.

(** What may happen next.  [Wake] is also the spurious wake-up the condition
    variable allows. *)
Inductive label : Set :=
  | Call (t : nat) (c : call) | Enter (t : nat) (now1 now2 : Z) | Resume (t : nat) (now : Z)
  | Wake (t : nat) | TimeOut (t : nat) | Tick (now : Z).

Definition wake_on (w : option cond) (th : thread) : thread :=
  match w, th with
  | Some cd, Asleep c since p _ => if decide (waits_for c = cd) then Awake c since p BB_OK else th
  | _, _ => th
  end.
(** When the wait of a thread that goes to sleep at [now] may time out. *)
Definition wait_ends (p : park) (now : Z) : option Z :=
  match p with
  | park_forever => None
  | park_until _ remaining_ms => if remaining_ms =? BB_LOCK_COND_WAIT_FOREVER then None else Some (now + remaining_ms * 1000)
  end.
Definition finish (t : nat) (c : call) (since now : Z) (o : section_end) (s : system) : system * list answer :=
  match o with
  | leaves r q w => (mk_sys q now (<[t := Idle]> (wake_on w <$> sy_threads s)), [mk_answer t c since now r])
  | waits p => (mk_sys (sy_q s) now (<[t := Asleep c since p (wait_ends p now)]> (sy_threads s)), [])
  end.
(** [None]: it cannot happen. *)
Definition step (l : label) (s : system) : option (system * list answer) :=
  match l with
  | Call t c => match sy_threads s !! t with
                | Some Idle | None => Some (mk_sys (sy_q s) (sy_now s) (<[t := Calling c]> (sy_threads s)), [])
                | _ => None
                end
  | Enter t now1 now2 => match sy_threads s !! t with
                         | Some (Calling c) =>
                             if (sy_now s <=? now1) && (now1 <=? now2) then Some (finish t c now1 now2 (enter c (sy_q s) now1 now2) s) else None
                         | _ => None
                         end
  | Resume t now => match sy_threads s !! t with
                    | Some (Awake c since p wrc) =>
                        if sy_now s <=? now then Some (finish t c since now (resume c (sy_q s) p wrc now) s) else None
                    | _ => None
                    end
  | Wake t => match sy_threads s !! t with
              | Some (Asleep c since p _) => Some (mk_sys (sy_q s) (sy_now s) (<[t := Awake c since p BB_OK]> (sy_threads s)), [])
              | _ => None
              end
  | TimeOut t => match sy_threads s !! t with
                 | Some (Asleep c since p (Some until)) =>
                     if until <=? sy_now s then Some (mk_sys (sy_q s) (sy_now s) (<[t := Awake c since p BB_ERR_TIMEOUT]> (sy_threads s)), []) else None
                 | _ => None
                 end
  | Tick now => if sy_now s <=? now then Some (mk_sys (sy_q s) now (sy_threads s), []) else None
  end.
Fixpoint run (ls : list label) (s : system) : option (system * list answer) :=
  match ls with
  | [] => Some (s, [])
  | l :: ls' =>
      match step l s with
      | None => None
      | Some (s1, a1) => match run ls' s1 with None => None | Some (s2, a2) => Some (s2, a1 ++ a2) end
      end
  end.

(** * The queue a user thinks of *)

(** What is in it, oldest first, and how many sends were lost. *)
Record contents := mk_contents { held : list (list byte); lost : Z }.
Definition timeout_of (c : call) : Z := match c with bb_bqueue_send _ t | bb_bqueue_peek _ t | bb_bqueue_receive _ t => t | _ => 0 end.
(** A wait with an end. *)
Definition bounded (timeout_ms : Z) : bool := (0 <? timeout_ms) && (timeout_ms <? BB_BQUEUE_WAIT_FOREVER).
(** The answer of a call to a queue of a given capacity, at one moment;
    [expired]: its time is over; [None]: the call waits. *)
Definition spec_step (cap : Z) (c : call) (expired : bool) (a : contents) : option (result * contents) :=
  let over := expired && bounded (timeout_of c) in
  match c with
  | bb_bqueue_overwrite None | bb_bqueue_send None _ | bb_bqueue_peek false _ | bb_bqueue_receive false _ | bb_bqueue_dropped false => Some (RErr BB_ERR_INVALID_ARG, a)
  | bb_bqueue_overwrite (Some it) => Some (if cap =? 1 then (RErr BB_OK, mk_contents [it] (lost a)) else (RErr BB_ERR_INVALID_STATE, a))
  | bb_bqueue_reset => Some (if cap =? 1 then (RErr BB_OK, mk_contents [] (lost a)) else (RErr BB_ERR_INVALID_STATE, a))
  | bb_bqueue_send (Some it) timeout_ms =>
      if cap =? 1 then Some (RErr BB_ERR_INVALID_STATE, a) else
      if over then Some (RErr BB_ERR_TIMEOUT, mk_contents (held a) (lost a + 1)) else
      if Z.of_nat (length (held a)) <? cap then Some (RErr BB_OK, mk_contents (held a ++ [it]) (lost a)) else
      if timeout_ms =? 0 then Some (RErr BB_ERR_NO_SPACE, mk_contents (held a) (lost a + 1)) else None
  | bb_bqueue_peek true timeout_ms =>
      if over then Some (RErr BB_ERR_TIMEOUT, a) else
      match held a with
      | it :: _ => Some (RItem it, a)
      | [] => if timeout_ms =? 0 then Some (RErr BB_ERR_NOT_FOUND, a) else None
      end
  | bb_bqueue_receive true timeout_ms =>
      if over then Some (RErr BB_ERR_TIMEOUT, a) else
      match held a with
      | it :: rest => Some (RItem it, mk_contents rest (lost a))
      | [] => if timeout_ms =? 0 then Some (RErr BB_ERR_NOT_FOUND, a) else None
      end
  | bb_bqueue_dropped true => Some (if cap =? 1 then (RErr BB_ERR_INVALID_STATE, a) else (RSize (u64 (lost a)), a))
  | bb_bqueue_count => Some (RSize (Z.of_nat (length (held a))), a)
  | bb_bqueue_capacity => Some (RSize cap, a)
  end.
(** The answers of a history, in the order they were given, are those of the
    queue used by one caller at a time; a call answers BB_ERR_TIMEOUT only when
    its time, less a millisecond, is over. *)
Fixpoint replays (cap : Z) (log : list answer) (a a' : contents) : Prop :=
  match log with
  | [] => a = a'
  | x :: log' =>
      exists expired a1, spec_step cap (an_call x) expired a = Some (an_result x, a1) /\
        (an_result x = RErr BB_ERR_TIMEOUT -> an_since x + timeout_of (an_call x) * 1000 - 1000 < an_now x) /\
        replays cap log' a1 a'
  end.

(** * Proofs *)

Definition call_sane (isz : Z) (c : call) : Prop :=
  0 <= timeout_of c <= BB_BQUEUE_WAIT_FOREVER /\
  match c with bb_bqueue_overwrite (Some it) | bb_bqueue_send (Some it) _ => Z.of_nat (length it) = isz | _ => True end.
Definition label_sane (isz : Z) (l : label) : Prop :=
  match l with
  | Call _ c => call_sane isz c
  | Enter _ now1 now2 => now2 < 2 ^ 63
  | Resume _ now | Tick now => now < 2 ^ 63
  | _ => True
  end.

Section Proofs.
Context (cap isz : Z) (Hcap : 0 < cap < 2 ^ 32) (Hisz : 0 < isz).

(** ** The instance holds the contents *)

Record holds (a : contents) (q : inst) : Prop := {
  ho_use : in_use q = true;
  ho_cap : capacity q = cap;
  ho_isz : item_bytes q = isz;
  ho_rows : cap <= Z.of_nat (length (storage q)) /\ Forall (fun r => isz <= Z.of_nat (length r)) (storage q);
  ho_head : 0 <= head q < cap;
  ho_count : count q = Z.of_nat (length (held a)) /\ count q <= cap;
  ho_items : forall i it, held a !! i = Some it -> get_row ((head q + Z.of_nat i) mod cap) q = it;
  ho_lost : dropped q = u64 (lost a)
}.
Lemma get_set_row q i j it : isz = item_bytes q -> Z.of_nat (length it) = isz -> 0 <= i < Z.of_nat (length (storage q)) -> 0 <= j ->
  let q' := mk_inst (in_use q) (capacity q) (item_bytes q) (set_row i it q) (head q) (count q) (dropped q) in
  get_row j q' = if i =? j then it else get_row j q.
Proof.
  intros E Hl Hi Hj. cbv zeta. unfold get_row, set_row. cbn [item_bytes storage]. rewrite !nth_lookup. destruct (Z.eqb_spec i j) as [<-|Hne].
  - rewrite list_lookup_alter_eq. destruct (lookup_lt_is_Some_2 (storage q) (Z.to_nat i) ltac:(lia)) as [row ->]. cbn.
    rewrite (take_ge it) by lia. rewrite take_app_length' by lia. done.
  - rewrite list_lookup_alter_ne by lia. done.
Qed.
Lemma set_row_rows q i it : Z.of_nat (length it) = isz -> item_bytes q = isz ->
  cap <= Z.of_nat (length (storage q)) /\ Forall (fun r => isz <= Z.of_nat (length r)) (storage q) ->
  cap <= Z.of_nat (length (set_row i it q)) /\ Forall (fun r => isz <= Z.of_nat (length r)) (set_row i it q).
Proof.
  intros Hl E [H1 H2]. unfold set_row. rewrite length_alter. split; [done|]. apply Forall_alter; [done|]. intros row _ Hr.
  rewrite length_app, length_take, length_drop. lia.
Qed.
Lemma row_set_count n j q : get_row j (set_count n q) = get_row j q.
Proof. done. Qed.
Lemma mod_apart h i j : 0 <= i < cap -> 0 <= j < cap -> i <> j -> (h + i) mod cap <> (h + j) mod cap.
Proof.
  intros Hi Hj Hne E. apply Hne. pose proof (Z.div_mod (h + i) cap ltac:(lia)). pose proof (Z.div_mod (h + j) cap ltac:(lia)).
  set (x := (h + i) / cap) in *. set (y := (h + j) / cap) in *. assert (x = y) by nia. nia.
Qed.

Lemma send_holds a q it : holds a q -> Z.of_nat (length it) = isz -> count q <> cap -> cap <> 1 ->
  holds (mk_contents (held a ++ [it]) (lost a))
    (mk_inst (in_use q) (capacity q) (item_bytes q) (set_row (u64 (head q + count q) mod capacity q) it q) (head q) (count q + 1) (dropped q)).
Proof.
  intros [H1 H2 H3 [H4 H4'] H5 [H6 H6'] H7 H8] Hl Hne _. rewrite u64_small by lia. rewrite H2. set (tl := (head q + count q) mod cap).
  pose proof (Z.mod_pos_bound (head q + count q) cap ltac:(lia)) as Ht. fold tl in Ht.
  pose proof (set_row_rows q tl it Hl H3 (conj H4 H4')) as Hrows.
  split; cbn [in_use capacity item_bytes storage head count dropped held lost]; try done.
  - rewrite length_app. cbn. lia.
  - intros i x Hx. pose proof (Z.mod_pos_bound (head q + Z.of_nat i) cap ltac:(lia)) as Hm.
    pose proof (get_set_row q tl ((head q + Z.of_nat i) mod cap) it (eq_sym H3) Hl ltac:(lia) ltac:(lia)) as E. cbv zeta in E. unfold get_row in E |- *. cbn [item_bytes storage] in E |- *. rewrite E. clear E.
    apply lookup_app_Some in Hx as [Hx|[Hi Hx]].
    + pose proof (lookup_lt_Some _ _ _ Hx) as Hlt. destruct (Z.eqb_spec tl ((head q + Z.of_nat i) mod cap)) as [E|_]; [|by apply H7].
      exfalso. symmetry in E. revert E. apply mod_apart; lia.
    + apply list_lookup_singleton_Some in Hx as [Hz <-]. replace (Z.of_nat i) with (count q) by lia. fold tl. by rewrite Z.eqb_refl.
Qed.
Lemma receive_holds a q it rest : holds a q -> held a = it :: rest -> cap <> 1 ->
  holds (mk_contents rest (lost a))
    (mk_inst (in_use q) (capacity q) (item_bytes q) (storage q) (u64 (head q + 1) mod capacity q) (count q - 1) (dropped q)).
Proof.
  intros [H1 H2 H3 H4 H5 [H6 H6'] H7 H8] E _. rewrite E in *. cbn [length] in H6. rewrite u64_small by lia. rewrite H2.
  split; cbn [in_use capacity item_bytes storage head count dropped held lost]; try done.
  - apply Z.mod_pos_bound. lia.
  - lia.
  - intros i x Hx. rewrite Zplus_mod_idemp_l. replace (head q + 1 + Z.of_nat i) with (head q + Z.of_nat (S i)) by lia. by apply (H7 (S i)).
Qed.
Lemma head_held a q it rest : holds a q -> held a = it :: rest -> get_row (head q) q = it.
Proof.
  intros Hh E. pose proof (ho_items _ _ Hh 0%nat it) as H. rewrite E in H. specialize (H eq_refl). pose proof (ho_head _ _ Hh).
  rewrite Z.add_0_r, Z.mod_small in H by lia. done.
Qed.
Lemma mailbox_holds a q it : holds a q -> Z.of_nat (length it) = isz -> cap = 1 ->
  holds (mk_contents [it] (lost a)) (mk_inst (in_use q) (capacity q) (item_bytes q) (set_row 0 it q) (head q) 1 (dropped q)).
Proof.
  intros [H1 H2 H3 [H4 H4'] H5 [H6 H6'] H7 H8] Hl Ec. pose proof (set_row_rows q 0 it Hl H3 (conj H4 H4')) as Hrows.
  split; cbn [in_use capacity item_bytes storage head count dropped held lost]; try done; [cbn; lia|].
  intros i x Hx. apply list_lookup_singleton_Some in Hx as [-> <-].
  pose proof (get_set_row q 0 0 it (eq_sym H3) Hl ltac:(lia) ltac:(lia)) as E. cbv zeta in E. unfold get_row in E |- *. cbn [item_bytes storage] in E |- *.
  replace ((head q + Z.of_nat 0) mod cap) with 0; [exact E|]. rewrite Ec. symmetry. apply Z.mod_1_r.
Qed.
Lemma empty_holds a q : holds a q -> holds (mk_contents [] (lost a)) (set_count 0 q).
Proof.
  intros [H1 H2 H3 H4 H5 [H6 H6'] H7 H8]. split; cbn [set_count in_use capacity item_bytes storage head count dropped held lost]; try done.
  cbn. lia.
Qed.
Lemma dropped_holds a q : holds a q -> holds (mk_contents (held a) (lost a + 1)) (count_dropped q).
Proof.
  intros [H1 H2 H3 H4 H5 H6 H7 H8]. split; cbn [count_dropped in_use capacity item_bytes storage head count dropped held lost]; try done.
  rewrite H8. unfold u64. apply Zplus_mod_idemp_l.
Qed.

(** ** Waiting *)

Definition can_wait (c : call) : Prop :=
  match c with
  | bb_bqueue_send (Some it) _ => cap <> 1 /\ Z.of_nat (length it) = isz
  | bb_bqueue_peek true _ | bb_bqueue_receive true _ => True
  | _ => False
  end.
Definition deadline (c : call) (since : Z) : Z := since + timeout_of c * 1000.
Definition park_ok (c : call) (since : Z) (p : park) : Prop :=
  match p with
  | park_forever => timeout_of c = BB_BQUEUE_WAIT_FOREVER
  | park_until d r => bounded (timeout_of c) = true /\ d = deadline c since
  end.
(** A bounded wait ends within the last millisecond before the deadline. *)
Definition ends_ok (c : call) (since : Z) (until : option Z) : Prop :=
  match until with
  | None => timeout_of c = BB_BQUEUE_WAIT_FOREVER
  | Some u => bounded (timeout_of c) = true /\ deadline c since - 1000 < u <= deadline c since
  end.
Definition expiry (c : call) (since now : Z) : Prop := bounded (timeout_of c) = true /\ deadline c since - 1000 < now.
Definition wait_spec (q : inst) (c : call) (since now : Z) (o : wait_outcome) : Prop :=
  match o with
  | wait_done BB_OK => count q <> blocked_at c q
  | wait_done BB_ERR_TIMEOUT => expiry c since now
  | wait_done e => timeout_of c = 0 /\ count q = blocked_at c q /\ e = match c with bb_bqueue_send _ _ => BB_ERR_NO_SPACE | _ => BB_ERR_NOT_FOUND end
  | wait_sleep p => count q = blocked_at c q /\ park_ok c since p /\ ends_ok c since (wait_ends p now)
  end.

Lemma bounded_range t : bounded t = true <-> 0 < t < BB_BQUEUE_WAIT_FOREVER.
Proof. unfold bounded. rewrite andb_true_iff, !Z.ltb_lt. lia. Qed.
Lemma turn_spec q c since now : bounded (timeout_of c) = true -> 0 <= since <= now -> now < 2 ^ 63 ->
  wait_spec q c since now (wait_turn q (blocked_at c q) (deadline c since) now).
Proof.
  intros Hb Hs Hn. pose proof Hb as Hb'. rewrite bounded_range in Hb'. unfold BB_BQUEUE_WAIT_FOREVER in Hb'. unfold wait_turn. destruct (Z.eqb_spec (count q) (blocked_at c q)) as [E|E]; [|done]. cbn [negb].
  unfold bb_bqueue_deadline_remaining_ms. destruct (Z.leb_spec (deadline c since) now); [split; [done|lia]|].
  pose proof (Z.div_mod (deadline c since - now) 1000 ltac:(lia)). pose proof (Z.mod_pos_bound (deadline c since - now) 1000 ltac:(lia)).
  assert (Hr : 0 <= (deadline c since - now) / 1000 <= timeout_of c) by (unfold deadline in *; lia).
  rewrite u32_small by lia. split; [done|]. split; [by split|]. cbn [wait_ends]. unfold BB_LOCK_COND_WAIT_FOREVER.
  destruct (Z.eqb_spec ((deadline c since - now) / 1000) 4294967295); [lia|]. split; [done|]. lia.
Qed.
Lemma wait_until_spec q c now1 now2 : 0 <= timeout_of c <= BB_BQUEUE_WAIT_FOREVER -> 0 <= now1 <= now2 -> now2 < 2 ^ 63 ->
  wait_spec q c now1 now2 (bb_bqueue_wait_until q (blocked_at c q) (timeout_of c) (match c with bb_bqueue_send _ _ => BB_ERR_NO_SPACE | _ => BB_ERR_NOT_FOUND end) now1 now2).
Proof.
  intros Ht Hn Hm. unfold bb_bqueue_wait_until. destruct (Z.eqb_spec (count q) (blocked_at c q)) as [E|E]; cbn [negb]; [|done].
  destruct (Z.eqb_spec (timeout_of c) 0) as [Z0|Z0]; [by destruct c|]. destruct (Z.eqb_spec (timeout_of c) BB_BQUEUE_WAIT_FOREVER) as [Zf|Zf]; [by split_and!|].
  unfold bb_bqueue_deadline_compute. rewrite u64_small by (unfold BB_BQUEUE_WAIT_FOREVER in *; lia). apply turn_spec; [|lia|lia]. apply bounded_range. lia.
Qed.
Lemma wait_woken_spec q c since p wrc now : park_ok c since p -> (wrc = BB_OK \/ wrc = BB_ERR_TIMEOUT /\ expiry c since now) -> 0 <= since <= now -> now < 2 ^ 63 ->
  wait_spec q c since now (wait_woken q (blocked_at c q) p wrc now).
Proof.
  intros Hp Hw Hs Hn. unfold wait_woken. destruct p as [|d r]; cbn [park_ok] in Hp.
  - destruct (Z.eqb_spec (count q) (blocked_at c q)) as [E|E]; cbn [negb]; [|done]. split; [done|]. by split.
  - destruct Hp as [Hb ->]. destruct Hw as [->|[-> He]]; [by apply turn_spec|exact He].
Qed.

(** ** One critical section *)

Definition section_ok (a : contents) (q : inst) (c : call) (since now : Z) (e : section_end) : Prop :=
  match e with
  | leaves r q' w =>
      exists expired a', spec_step cap c expired a = Some (r, a') /\ (r = RErr BB_ERR_TIMEOUT -> deadline c since - 1000 < now) /\ holds a' q' /\
        forall c', can_wait c' -> count q = blocked_at c' q -> w <> Some (waits_for c') -> count q' = blocked_at c' q'
  | waits p => can_wait c /\ count q = blocked_at c q /\ park_ok c since p /\ ends_ok c since (wait_ends p now)
  end.

Lemma over_expiry c since now : expiry c since now -> true && bounded (timeout_of c) = true.
Proof. by intros [-> _]. Qed.
Lemma send_section a q it t since now o : holds a q -> can_wait (bb_bqueue_send (Some it) t) -> wait_spec q (bb_bqueue_send (Some it) t) since now o ->
  section_ok a q (bb_bqueue_send (Some it) t) since now (after_wait (send_rest it q) o).
Proof.
  intros Hh Hw Ho. destruct o as [rc|p]; [|by destruct Ho as (H1 & H2 & H3)]. pose proof Hw as [Hc1 Hl]. pose proof (ho_count _ _ Hh) as [Hcnt Hle]. pose proof (ho_cap _ _ Hh) as Hcp.
  apply Z.eqb_neq in Hc1 as Hc1b. cbn [after_wait send_rest]. unfold send_rest. destruct (is_ok rc) eqn:Erc; cbn [negb].
  - apply is_ok_true in Erc as ->. cbn [wait_spec blocked_at] in Ho. exists false, (mk_contents (held a ++ [it]) (lost a)). split.
    + cbn [spec_step]. rewrite Hc1b. cbn [andb]. destruct (Z.ltb_spec (Z.of_nat (length (held a))) cap); [done|lia].
    + split; [done|]. split; [apply send_holds; try done; lia|]. intros c' Hc' Hb Hne. destruct c' as [| |[]|[]|[]| | |]; cbn [waits_for blocked_at] in *; try done; lia.
  - assert (Hout : exists expired, spec_step cap (bb_bqueue_send (Some it) t) expired a = Some (RErr rc, mk_contents (held a) (lost a + 1)) /\
      (RErr rc = RErr BB_ERR_TIMEOUT -> deadline (bb_bqueue_send (Some it) t) since - 1000 < now)).
    { cbn [spec_step]. rewrite Hc1b. destruct (decide (rc = BB_ERR_TIMEOUT)) as [->|Hrc].
      - exists true. cbn [wait_spec] in Ho. rewrite (over_expiry _ _ _ Ho). split; [done|]. intros _. apply Ho.
      - assert (Hs : timeout_of (bb_bqueue_send (Some it) t) = 0 /\ count q = capacity q /\ rc = BB_ERR_NO_SPACE) by (by destruct rc).
        destruct Hs as (Ht & Hb & ->). cbn [timeout_of] in Ht. exists false. cbn [andb]. destruct (Z.ltb_spec (Z.of_nat (length (held a))) cap); [lia|]. subst t. cbn. done. }
    destruct Hout as (ex & H1 & H2). exists ex, (mk_contents (held a) (lost a + 1)). split; [done|]. split; [done|]. split; [by apply dropped_holds|]. done.
Qed.
(** Peeking and receiving. *)
Lemma look_section a q c since now o rest : holds a q -> can_wait c -> wait_spec q c since now o ->
  (exists t, c = bb_bqueue_peek true t /\ rest = peek_rest q \/ c = bb_bqueue_receive true t /\ rest = receive_rest q) ->
  section_ok a q c since now (after_wait rest o).
Proof.
  intros Hh Hw Ho [t Hc]. destruct o as [rc|p]; [|by destruct Ho as (H1 & H2 & H3)]. pose proof (ho_count _ _ Hh) as [Hcnt Hle]. pose proof (ho_cap _ _ Hh) as Hcp.
  assert (Hbl : blocked_at c q = 0) by (by destruct Hc as [[-> _]|[-> _]]). cbn [after_wait].
  destruct (is_ok rc) eqn:Erc.
  - apply is_ok_true in Erc as ->. cbn [wait_spec] in Ho. rewrite Hbl in Ho. destruct (held a) as [|it rst] eqn:Eh; [cbn in Hcnt; lia|].
    pose proof (head_held a q it rst Hh Eh) as Hhead. destruct Hc as [[-> ->]|[-> ->]]; unfold peek_rest, receive_rest; cbn [is_ok negb]; rewrite Hhead.
    + exists false, a. split; [cbn [spec_step andb]; by rewrite Eh|]. split; [done|]. split; [done|]. done.
    + rewrite Hcp. destruct (Z.eqb_spec cap 1) as [Ec|Ec].
      * exists false, (mk_contents rst (lost a)). split; [cbn [spec_step andb]; by rewrite Eh|]. split; [done|]. cbn [length] in Hcnt.
        assert (rst = []) as -> by (destruct rst; [done|]; cbn in Hcnt; lia). split; [by apply empty_holds|].
        intros c' Hc' Hb _. destruct c' as [| |[]|[]|[]| | |]; cbn [can_wait blocked_at] in *; try done; lia.
      * exists false, (mk_contents rst (lost a)). split; [cbn [spec_step andb]; by rewrite Eh|]. split; [done|]. split; [rewrite <- Hcp; by apply (receive_holds a q it)|].
        intros c' Hc' Hb Hne. destruct c' as [| |[]|[]|[]| | |]; cbn [can_wait blocked_at waits_for] in *; try done; lia.
  - assert (Hout : exists expired, spec_step cap c expired a = Some (RErr rc, a) /\ (RErr rc = RErr BB_ERR_TIMEOUT -> deadline c since - 1000 < now)).
    { destruct (decide (rc = BB_ERR_TIMEOUT)) as [->|Hrc].
      - exists true. cbn [wait_spec] in Ho. pose proof (over_expiry _ _ _ Ho) as Hov. split; [|intros _; apply Ho].
        destruct Hc as [[-> _]|[-> _]]; cbn [spec_step timeout_of] in *; by rewrite Hov.
      - assert (Hs : timeout_of c = 0 /\ count q = blocked_at c q /\ rc = match c with bb_bqueue_send _ _ => BB_ERR_NO_SPACE | _ => BB_ERR_NOT_FOUND end) by (by destruct rc).
        destruct Hs as (Ht & Hb & E). rewrite Hbl in Hb. exists false. assert (Eh : held a = []) by (destruct (held a); [done|]; cbn in Hcnt; lia).
        destruct Hc as [[-> _]|[-> _]]; subst rc; cbn [spec_step timeout_of andb] in *; rewrite Eh, Ht; done. }
    destruct Hout as (ex & H1 & H2).
    assert (Er : rest rc = leaves (RErr rc) q None) by (destruct Hc as [[_ ->]|[_ ->]]; unfold peek_rest, receive_rest; by rewrite Erc).
    rewrite Er. exists ex, a. split; [done|]. split; [done|]. split; [done|]. done.
Qed.

Lemma refuse_section a q c since now e : holds a q -> e <> BB_ERR_TIMEOUT -> spec_step cap c false a = Some (RErr e, a) -> section_ok a q c since now (refuse e q).
Proof. intros Hh He Hs. exists false, a. split; [done|]. split; [congruence|]. by split. Qed.
Lemma enter_ok a q c now1 now2 : holds a q -> call_sane isz c -> 0 <= now1 <= now2 -> now2 < 2 ^ 63 -> section_ok a q c now1 now2 (enter c q now1 now2).
Proof.
  intros Hh [Ht Hl] Hn Hm. pose proof (ho_use _ _ Hh) as Hu. pose proof (ho_cap _ _ Hh) as Hc. pose proof (ho_count _ _ Hh) as [Hcnt _].
  destruct c as [[it|]| |[it|] t|[] t|[] t|[]| |]; cbn [enter]; rewrite ?Hu; cbn [negb orb]; rewrite ?Hc.
  - destruct (Z.eqb_spec cap 1) as [E|E]; cbn [negb].
    + exists false, (mk_contents [it] (lost a)). split; [cbn [spec_step]; apply Z.eqb_eq in E; by rewrite E|]. split; [done|].
      split; [pose proof (mailbox_holds a q it Hh Hl E) as H; rewrite Hu, Hc in H; exact H|].
      intros c' Hc' Hb Hne. destruct c' as [| |[]|[]|[]| | |]; cbn [can_wait blocked_at waits_for] in *; try done; lia.
    + apply refuse_section; [done|done|]. cbn [spec_step]. apply Z.eqb_neq in E. by rewrite E.
  - by apply refuse_section.
  - destruct (Z.eqb_spec cap 1) as [E|E]; cbn [negb].
    + exists false, (mk_contents [] (lost a)). split; [cbn [spec_step]; apply Z.eqb_eq in E; by rewrite E|]. split; [done|]. split; [by apply empty_holds|].
      intros c' Hc' Hb Hne. destruct c' as [| |[]|[]|[]| | |]; cbn [can_wait blocked_at waits_for] in *; try done; lia.
    + apply refuse_section; [done|done|]. cbn [spec_step]. apply Z.eqb_neq in E. by rewrite E.
  - destruct (Z.eqb_spec cap 1) as [E|E].
    + apply refuse_section; [done|done|]. cbn [spec_step]. apply Z.eqb_eq in E. by rewrite E.
    + apply send_section; [done|by split|]. rewrite <- Hc. by apply (wait_until_spec q (bb_bqueue_send (Some it) t)).
  - by apply refuse_section.
  - apply look_section; [done|done| |exists t; by left]. by apply (wait_until_spec q (bb_bqueue_peek true t)).
  - by apply refuse_section.
  - apply look_section; [done|done| |exists t; by right]. by apply (wait_until_spec q (bb_bqueue_receive true t)).
  - by apply refuse_section.
  - destruct (Z.eqb_spec cap 1) as [E|E].
    + apply refuse_section; [done|done|]. cbn [spec_step]. apply Z.eqb_eq in E. by rewrite E.
    + exists false, a. cbn [spec_step]. apply Z.eqb_neq in E. rewrite E, (ho_lost _ _ Hh). by split_and!.
  - by apply refuse_section.
  - exists false, a. cbn [spec_step]. rewrite Hcnt. by split_and!.
  - exists false, a. by split_and!.
Qed.
Lemma resume_ok a q c since p wrc now : holds a q -> can_wait c -> park_ok c since p -> (wrc = BB_OK \/ wrc = BB_ERR_TIMEOUT /\ expiry c since now) ->
  0 <= since <= now -> now < 2 ^ 63 -> section_ok a q c since now (resume c q p wrc now).
Proof.
  intros Hh Hw Hp Hwrc Hs Hn. pose proof (wait_woken_spec q c since p wrc now Hp Hwrc Hs Hn) as Ho. unfold resume.
  destruct c as [| |[it|] t|[] t|[] t| | |]; try done.
  - by apply send_section.
  - apply look_section; [done|done|done|exists t; by left].
  - apply look_section; [done|done|done|exists t; by right].
Qed.

(** ** The whole system *)

Definition thread_ok (q : inst) (now : Z) (th : thread) : Prop :=
  match th with
  | Calling c => call_sane isz c
  | Asleep c since p until => can_wait c /\ 0 <= since <= now /\ park_ok c since p /\ ends_ok c since until /\ count q = blocked_at c q
  | Awake c since p wrc => can_wait c /\ 0 <= since <= now /\ park_ok c since p /\ (wrc = BB_OK \/ wrc = BB_ERR_TIMEOUT /\ expiry c since now)
  | Idle => True
  end.
Record sys_ok (a : contents) (s : system) : Prop := {
  so_now : 0 <= sy_now s < 2 ^ 63;
  so_q : holds a (sy_q s);
  so_threads : forall t th, sy_threads s !! t = Some th -> thread_ok (sy_q s) (sy_now s) th
}.

Lemma thread_later q now now' th : now <= now' -> thread_ok q now th -> thread_ok q now' th.
Proof.
  intros Hn. destruct th as [c|c since p u|c since p wrc|]; cbn; try done.
  - intros (H1 & H2 & H3 & H4 & H5). split_and!; try done; lia.
  - intros (H1 & H2 & H3 & [->|[-> [H4 H5]]]); split_and!; try done; try lia; [by left|]. right. split; [done|]. split; [done|lia].
Qed.
(** The sleepers a section does not wake are still blocked. *)
Lemma wake_ok q q' w now th : (forall c', can_wait c' -> count q = blocked_at c' q -> w <> Some (waits_for c') -> count q' = blocked_at c' q') ->
  thread_ok q now th -> thread_ok q' now (wake_on w th).
Proof.
  intros Hb Ht. destruct th as [c|c since p u|c since p wrc|]; cbn [wake_on thread_ok] in *; try (by destruct w).
  destruct Ht as (H1 & H2 & H3 & H4 & H5). assert (Hstill : w <> Some (waits_for c) -> thread_ok q' now (Asleep c since p u)).
  { intros Hw. cbn. split_and!; try done; try lia. by apply Hb. }
  destruct w as [cd|]; cbn [wake_on]; [|by apply Hstill]. destruct (decide (waits_for c = cd)) as [<-|Hne]; [|apply Hstill; congruence].
  cbn. split_and!; try done; try lia. by left.
Qed.
Lemma finish_ok a t c since now e s : sys_ok a s -> 0 <= since <= now -> sy_now s <= now -> now < 2 ^ 63 -> section_ok a (sy_q s) c since now e ->
  exists a', sys_ok a' (finish t c since now e s).1 /\ replays cap (finish t c since now e s).2 a a'.
Proof.
  intros [S1 S2 S3] Hs Hn Hm He. destruct e as [r q' w|p]; cbn [section_ok finish fst snd] in *.
  - destruct He as (ex & a' & E1 & E2 & E3 & E4). exists a'. split.
    + split; cbn [sy_now sy_q sy_threads]; [lia|done|]. intros t' th Hth. destruct (decide (t = t')) as [<-|Hne].
      * rewrite lookup_insert_eq in Hth. by injection Hth as <-.
      * rewrite lookup_insert_ne, lookup_fmap in Hth by done. destruct (sy_threads s !! t') as [th0|] eqn:E0; [|done]. injection Hth as <-.
        apply (wake_ok (sy_q s)); [done|]. apply (thread_later _ (sy_now s)); [done|]. by apply (S3 t').
    + exists ex, a'. cbn [an_call an_result an_since an_now]. by split_and!.
  - destruct He as (E1 & E2 & E3 & E4). exists a. split; [|done]. split; cbn [sy_now sy_q sy_threads]; [lia|done|]. intros t' th Hth. destruct (decide (t = t')) as [<-|Hne].
    + rewrite lookup_insert_eq in Hth. injection Hth as <-. cbn. split_and!; done || lia.
    + rewrite lookup_insert_ne in Hth by done. apply (thread_later _ (sy_now s)); [done|]. by apply (S3 t').
Qed.
Lemma set_thread_ok a s t th : sys_ok a s -> thread_ok (sy_q s) (sy_now s) th -> sys_ok a (mk_sys (sy_q s) (sy_now s) (<[t := th]> (sy_threads s))).
Proof.
  intros [S1 S2 S3] Ht. split; cbn [sy_now sy_q sy_threads]; try done. intros t' th'. destruct (decide (t = t')) as [<-|Hne].
  - rewrite lookup_insert_eq. by intros [= <-].
  - rewrite lookup_insert_ne by done. apply S3.
Qed.
Lemma queue_step_ok a s l s1 log : sys_ok a s -> label_sane isz l -> step l s = Some (s1, log) -> exists a', sys_ok a' s1 /\ replays cap log a a'.
Proof.
  intros Hs Hl. pose proof Hs as [S1 S2 S3]. destruct l as [t c|t n1 n2|t n|t|t|n]; cbn [step label_sane] in *.
  - intros E. assert (E' : Some (mk_sys (sy_q s) (sy_now s) (<[t := Calling c]> (sy_threads s)), []) = Some (s1, log)) by (destruct (sy_threads s !! t) as [[]|]; done).
    injection E' as <- <-. exists a. split; [|done]. by apply set_thread_ok.
  - destruct (sy_threads s !! t) as [[c| | |]|] eqn:Et; try done. destruct (Z.leb_spec (sy_now s) n1); [|done]. destruct (Z.leb_spec n1 n2); [|done]. intros [= E].
    pose proof (enter_ok a (sy_q s) c n1 n2 S2 (S3 t _ Et) ltac:(lia) Hl) as He. destruct (finish_ok a t c n1 n2 _ s Hs ltac:(lia) ltac:(lia) Hl He) as (a' & H1 & H2).
    cbn [andb] in E. rewrite E in H1, H2. by exists a'.
  - destruct (sy_threads s !! t) as [[| |c since p wrc|]|] eqn:Et; try done. destruct (Z.leb_spec (sy_now s) n); [|done]. intros [= E].
    destruct (S3 t _ Et) as (T1 & T2 & T3 & T4).
    assert (T4' : wrc = BB_OK \/ wrc = BB_ERR_TIMEOUT /\ expiry c since n) by (destruct T4 as [->|[-> [B1 B2]]]; [by left|right; split; [done|split; [done|lia]]]).
    pose proof (resume_ok a (sy_q s) c since p wrc n S2 T1 T3 T4' ltac:(lia) Hl) as He.
    destruct (finish_ok a t c since n _ s Hs ltac:(lia) ltac:(lia) Hl He) as (a' & H1 & H2). rewrite E in H1, H2. by exists a'.
  - destruct (sy_threads s !! t) as [[|c since p u| |]|] eqn:Et; try done. intros [= <- <-]. exists a. split; [|done]. apply set_thread_ok; [done|].
    destruct (S3 t _ Et) as (T1 & T2 & T3 & T4 & T5). cbn. split_and!; try done; try lia. by left.
  - destruct (sy_threads s !! t) as [[|c since p [u|]| |]|] eqn:Et; try done. destruct (Z.leb_spec u (sy_now s)); [|done]. intros [= <- <-]. exists a. split; [|done].
    apply set_thread_ok; [done|]. destruct (S3 t _ Et) as (T1 & T2 & T3 & [T4 T4'] & T5). cbn. split_and!; try done; try lia. right. split; [done|]. split; [done|lia].
  - destruct (Z.leb_spec (sy_now s) n); [|done]. intros [= <- <-]. exists a. split; [|done]. split; cbn [sy_now sy_q sy_threads]; [lia|done|].
    intros t th Ht. apply (thread_later _ (sy_now s)); [done|]. by apply (S3 t).
Qed.
Lemma replays_app log1 log2 : forall a a1 a2, replays cap log1 a a1 -> replays cap log2 a1 a2 -> replays cap (log1 ++ log2) a a2.
Proof.
  induction log1 as [|x log1 IH]; intros a a1 a2 H1 H2; cbn [replays app] in *; [by subst|]. destruct H1 as (ex & a' & E1 & E2 & E3). exists ex, a'. split_and!; try done. by apply (IH a' a1).
Qed.
Lemma queue_run_ok ls : forall a s s1 log, sys_ok a s -> Forall (label_sane isz) ls -> run ls s = Some (s1, log) -> exists a', sys_ok a' s1 /\ replays cap log a a'.
Proof.
  induction ls as [|l ls IH]; intros a s s1 log Hs Hl; cbn [run]; [intros [= <- <-]; by exists a|]. inversion_clear Hl.
  destruct (step l s) as [[s' l1]|] eqn:E1; [|done]. destruct (run ls s') as [[s'' l2]|] eqn:E2; [|done]. intros [= <- <-].
  destruct (queue_step_ok a s l s' l1 Hs H E1) as (a1 & Hs1 & Hr1). destruct (IH a1 s' s'' l2 Hs1 H0 E2) as (a2 & Hs2 & Hr2). exists a2. split; [done|]. by apply (replays_app _ _ a a1).
Qed.

(** ** What was sent, what was received *)

Definition sent (log : list answer) : list (list byte) :=
  omap (fun x => match an_call x, an_result x with bb_bqueue_send (Some it) _, RErr BB_OK => Some it | _, _ => None end) log.
Definition received (log : list answer) : list (list byte) :=
  omap (fun x => match an_call x, an_result x with bb_bqueue_receive _ _, RItem it => Some it | _, _ => None end) log.
Lemma spec_flow c ex a r a1 : cap <> 1 -> spec_step cap c ex a = Some (r, a1) ->
  held a ++ match c, r with bb_bqueue_send (Some it) _, RErr BB_OK => [it] | _, _ => [] end =
  match c, r with bb_bqueue_receive _ _, RItem it => [it] | _, _ => [] end ++ held a1.
Proof.
  intros Hc. apply Z.eqb_neq in Hc. destruct c as [[it|]| |[it|] t|[] t|[] t|[]| |]; cbn [spec_step]; rewrite ?Hc; try (by intros [= <- <-]; cbn; rewrite app_nil_r).
  - destruct (ex && _); [intros [= <- <-]; cbn; by rewrite app_nil_r|]. destruct (_ <? cap); [by intros [= <- <-]|]. destruct (t =? 0); [|done]. intros [= <- <-]. cbn. by rewrite app_nil_r.
  - destruct (ex && _); [intros [= <- <-]; cbn; by rewrite app_nil_r|]. destruct (held a) as [|it rest] eqn:E; [|intros [= <- <-]; cbn; by rewrite app_nil_r, E].
    destruct (t =? 0); [|done]. intros [= <- <-]. cbn. by rewrite E.
  - destruct (ex && _); [intros [= <- <-]; cbn; by rewrite app_nil_r|]. destruct (held a) as [|it rest] eqn:E; [|intros [= <- <-]; cbn; by rewrite app_nil_r].
    destruct (t =? 0); [|done]. intros [= <- <-]. cbn. by rewrite E.
Qed.
Lemma replay_flow log : forall a a', cap <> 1 -> replays cap log a a' -> held a ++ sent log = received log ++ held a'.
Proof.
  induction log as [|x log IH]; intros a a' Hc; cbn [replays]; [intros ->; unfold sent, received; cbn; by rewrite app_nil_r|].
  intros (ex & a1 & E1 & _ & E2). pose proof (spec_flow _ _ _ _ _ Hc E1) as Hf. specialize (IH a1 a' Hc E2).
  assert (Hs : sent (x :: log) = match an_call x, an_result x with bb_bqueue_send (Some it) _, RErr BB_OK => [it] | _, _ => [] end ++ sent log)
    by (unfold sent; cbn [omap list_omap]; by destruct (an_call x) as [| |[]| | | | |], (an_result x) as [[]| |]).
  assert (Hr : received (x :: log) = match an_call x, an_result x with bb_bqueue_receive _ _, RItem it => [it] | _, _ => [] end ++ received log)
    by (unfold received; cbn [omap list_omap]; by destruct (an_call x) as [| |[]| | | | |], (an_result x) as [[]| |]).
  rewrite Hs, Hr, app_assoc, Hf, <- !app_assoc. by rewrite IH.
Qed.
End Proofs.

(** * Properties *)

Lemma first_unused_some pool i : first_unused pool = Some i -> (i < length pool)%nat.
Proof.
  revert i. induction pool as [|q pool IH]; intros i; cbn [first_unused]; [done|]. destruct (in_use q); cbn [negb]; [|intros [= <-]; cbn; lia].
  destruct (first_unused pool) as [j|]; [|done]. intros [= <-]. cbn. specialize (IH j eq_refl). lia.
Qed.
Lemma created_holds max_instances max_capacity max_item_bytes cfg pool i pool' q : max_capacity < 2 ^ 32 -> 0 <= bc_capacity cfg -> 0 <= bc_item_bytes cfg ->
  bb_bqueue_create max_capacity max_item_bytes (Some cfg) true pool = (BB_OK, Some i, pool') -> pool' !! i = Some q -> length pool = max_instances ->
  0 < bc_capacity cfg < 2 ^ 32 /\ 0 < bc_item_bytes cfg /\ holds (bc_capacity cfg) (bc_item_bytes cfg) (mk_contents [] 0) q.
Proof.
  intros Hm Hc Hi Hcr Hq _. unfold bb_bqueue_create in Hcr. cbn [negb] in Hcr. unfold bb_bqueue_validate_cfg in Hcr.
  destruct (Z.eqb_spec (bc_capacity cfg) 0), (Z.ltb_spec max_capacity (bc_capacity cfg)); try done. cbn [orb] in Hcr.
  destruct (Z.eqb_spec (bc_item_bytes cfg) 0), (Z.ltb_spec max_item_bytes (bc_item_bytes cfg)); try done. cbn [orb] in Hcr.
  destruct (first_unused pool) as [idx|] eqn:E; [|done]. injection Hcr as <- <-. apply first_unused_some in E. rewrite list_lookup_insert_eq in Hq by lia. injection Hq as <-.
  split; [lia|]. split; [lia|]. split; cbn [in_use capacity item_bytes storage head count dropped held lost zero_inst]; try done; try lia.
  split; [rewrite repeat_length; lia|]. apply Forall_forall. intros r Hr%list_elem_of_In%repeat_spec. subst r. rewrite repeat_length. lia.
Qed.

Section Created.
Context (max_capacity max_item_bytes : Z) (cfg : bqueue_cfg) (pool pool' : list inst) (i : nat) (q : inst) (now0 : Z).
(** A queue that was created, before any thread uses it. *)
Definition fresh : Prop :=
  max_capacity < 2 ^ 32 /\ 0 <= bc_capacity cfg /\ 0 <= bc_item_bytes cfg /\ 0 <= now0 < 2 ^ 63 /\
  bb_bqueue_create max_capacity max_item_bytes (Some cfg) true pool = (BB_OK, Some i, pool') /\ pool' !! i = Some q.
Lemma fresh_ok : fresh -> 0 < bc_capacity cfg < 2 ^ 32 /\ 0 < bc_item_bytes cfg /\ sys_ok (bc_capacity cfg) (bc_item_bytes cfg) (mk_contents [] 0) (mk_sys q now0 ∅).
Proof.
  intros (H1 & H2 & H3 & H4 & H5 & H6). destruct (created_holds _ max_capacity max_item_bytes cfg pool i pool' q H1 H2 H3 H5 H6 eq_refl) as (C1 & C2 & C3).
  split; [done|]. split; [done|]. split; cbn [sy_now sy_q sy_threads]; try done.
Qed.
End Created.

(** C21: the queue behaves as if one thread used it at a time.  Whatever threads
    call what, however their critical sections interleave, however they are woken
    (rightly, spuriously or by the clock): the answers, in the order they are
    given, are those of a list of at most the capacity used sequentially; a
    bounded buffer receives what was sent, in that order, each item once; and a
    call answers BB_ERR_TIMEOUT only when its time, less a millisecond, is over. *)
Theorem bqueue_linearizable max_capacity max_item_bytes cfg pool pool' i q now0 ls s log :
  fresh max_capacity max_item_bytes cfg pool pool' i q now0 -> Forall (label_sane (bc_item_bytes cfg)) ls -> run ls (mk_sys q now0 ∅) = Some (s, log) ->
  exists a, replays (bc_capacity cfg) log (mk_contents [] 0) a /\ Z.of_nat (length (held a)) <= bc_capacity cfg /\
    (bc_capacity cfg <> 1 -> sent log = received log ++ held a).
Proof.
  intros Hf Hl Hr. destruct (fresh_ok _ _ _ _ _ _ _ _ Hf) as (H1 & H2 & Hs). destruct (queue_run_ok _ _ H1 H2 ls _ _ _ _ Hs Hl Hr) as (a & Ha & Hrep).
  exists a. split; [done|]. pose proof (ho_count _ _ _ _ (so_q _ _ _ _ Ha)) as [C1 C2]. split; [lia|]. intros Hc. by apply (replay_flow _ _ _ _ Hc) in Hrep.
Qed.


(** * Concrete cases *)

(** A buffer of two items of three bytes; two peekers and a receiver wait, a
    spurious wake-up sends one back to sleep; two sends wake them; a third send
    waits for room, goes back to sleep once, and gets the receiver's. *)
Definition case_cfg : bqueue_cfg := mk_bcfg 2 3.
Definition case_pool : list inst := s_pool_init 2 4 8.
Definition case_inst : inst := default (zero_inst 4 8) ((bb_bqueue_create 4 8 (Some case_cfg) true case_pool).2 !! 0%nat).
Definition case_run : list label :=
  [Call 1 (bb_bqueue_peek true BB_BQUEUE_WAIT_FOREVER); Enter 1 10 10; Call 2 (bb_bqueue_peek true 5); Enter 2 20 30; Wake 2; Resume 2 2100;
   Call 3 (bb_bqueue_receive true BB_BQUEUE_WAIT_FOREVER); Enter 3 2100 2100;
   Call 4 (bb_bqueue_send (Some (bs "one")) 0); Enter 4 2200 2200; Call 4 (bb_bqueue_send (Some (bs "two")) 0); Enter 4 2300 2300;
   Call 4 (bb_bqueue_send (Some (bs "six")) 3); Enter 4 2400 2450; Resume 1 2500; Resume 2 2600; Tick 5000; Tick 5390; Wake 4; Resume 4 5390;
   Resume 3 5395; Resume 4 6000].
Definition case_end : option (system * list answer) := run case_run (mk_sys case_inst 0 ∅).
Lemma case_fresh : fresh 4 8 case_cfg case_pool (bb_bqueue_create 4 8 (Some case_cfg) true case_pool).2 0 case_inst 0.
Proof. unfold fresh. split_and!; try (cbn; lia); vm_compute; reflexivity. Defined.
Lemma case_labels_sane : Forall (label_sane 3) case_run.
Proof. unfold case_run. repeat constructor; cbn; unfold BB_BQUEUE_WAIT_FOREVER; lia. Defined.

Lemma bqueue_linearizable_witness :
  match case_end with
  | Some (s, log) =>
      map (fun x => (an_tid x, an_result x)) log =
        [(4%nat, RErr BB_OK); (4%nat, RErr BB_OK); (1%nat, RItem (bs "one")); (2%nat, RItem (bs "one")); (3%nat, RItem (bs "one")); (4%nat, RErr BB_OK)] /\
      exists a, replays 2 log (mk_contents [] 0) a /\ held a = [bs "two"; bs "six"]
  | None => False
  end.
Proof.
  destruct case_end as [[s log]|] eqn:E; [|vm_compute in E; discriminate].
  destruct (bqueue_linearizable 4 8 case_cfg case_pool _ 0%nat case_inst 0 case_run s log case_fresh case_labels_sane E) as (a & Hr & _ & Hf).
  assert (Hlog : (fun x => (sent x, received x, map (fun y => (an_tid y, an_result y)) x)) <$> (snd <$> case_end) =
    Some ([bs "one"; bs "two"; bs "six"], [bs "one"], [(4%nat, RErr BB_OK); (4%nat, RErr BB_OK); (1%nat, RItem (bs "one")); (2%nat, RItem (bs "one")); (3%nat, RItem (bs "one")); (4%nat, RErr BB_OK)]))
    by (vm_compute; reflexivity).
  rewrite E in Hlog. cbn [fmap option_fmap option_map snd] in Hlog. injection Hlog as H1 H2 H3. split; [exact H3|]. exists a. split; [exact Hr|].
  specialize (Hf ltac:(cbn; lia)). rewrite H1, H2 in Hf. cbn [app] in Hf. by injection Hf as <-.
Defined.

