(* ===== verification/Lifecycle.v ===== *)
(** bb_lifecycle: the run-state of named services, its pause reasons and its
    observers (components/bb_lifecycle/bb_lifecycle.c and
    bb_lifecycle_async.c). *)
From Stdlib Require Import Strings.String.
From S2P Require Import Prelude Bytes.
From S2P Require BQueue.
Local Open Scope Z_scope.

(** * Data *)

Inductive lifecycle_state : Set := BB_LIFECYCLE_STOPPED | BB_LIFECYCLE_PAUSED | BB_LIFECYCLE_RUNNING.
#[export] Instance lifecycle_state_eq_dec : EqDecision lifecycle_state.
Proof. solve_decision. Defined.
Inductive lifecycle_action : Set := BB_LIFECYCLE_ACTION_NONE | BB_LIFECYCLE_ACTION_START | BB_LIFECYCLE_ACTION_STOP.
Definition BB_LIFECYCLE_REASON_NONE : Z := 255.
Record event := mk_event { ev_svc : Z; ev_inhibits : Z; ev_version : Z; ev_old : lifecycle_state; ev_new : lifecycle_state; ev_reason : Z }.
Record service := mk_service { sv_name : list byte; sv_started : bool; sv_inhibits : list Z; sv_version : Z }.
(** A callback acts on a world [W]; its [user] pointer is part of it. *)
Record observer (W : Type) := mk_observer { ob_cb : event -> W -> W; ob_async : bool }.
Arguments mk_observer {W}. Arguments ob_cb {W}. Arguments ob_async {W}.
(** The entries in use of the three tables, and the emit slot: a sink takes the
    id and the payload. *)
Record lifecycle (W : Type) := mk_lifecycle {
  lc_services : list service; lc_reasons : list (list byte); lc_observers : list (observer W); lc_emit : option (Z -> event -> W -> W)
}.
Arguments mk_lifecycle {W}. Arguments lc_services {W}. Arguments lc_reasons {W}. Arguments lc_observers {W}. Arguments lc_emit {W}.
(** [None] for the classifier is NULL. *)
Record binding := mk_binding { bd_svc : Z; bd_classify : option (Z -> list byte -> lifecycle_action) }.

(** * Bitsets of words *)

Definition word_bit (bit : Z) : Z := Z.shiftl 1 (bit mod 32).
Definition word_set (words : list Z) (bit : Z) : list Z :=
  if Z.of_nat (length words) <=? bit / 32 then words else alter (fun w => Z.lor w (word_bit bit)) (Z.to_nat (bit / 32)) words.
Definition word_clear (words : list Z) (bit : Z) : list Z :=
  if Z.of_nat (length words) <=? bit / 32 then words else alter (fun w => Z.land w (u32 (Z.lnot (word_bit bit)))) (Z.to_nat (bit / 32)) words.
Definition word_test (words : list Z) (bit : Z) : bool :=
  if Z.of_nat (length words) <=? bit / 32 then false else negb (Z.land (nth (Z.to_nat (bit / 32)) words 0) (word_bit bit) =? 0).
Definition words_any_set (words : list Z) : bool := existsb (fun w => negb (w =? 0)) words.
Definition compute_state (started : bool) (words : list Z) : lifecycle_state :=
  if negb started then BB_LIFECYCLE_STOPPED else if words_any_set words then BB_LIFECYCLE_PAUSED else BB_LIFECYCLE_RUNNING.
Definition state_of (s : service) : lifecycle_state := compute_state (sv_started s) (sv_inhibits s).

(** A C string cut to a buffer of [dstsize] bytes. *)
Definition copy_truncated (dstsize : nat) (src : list byte) : list byte := take (dstsize - 1) (cstr src).

Section Lifecycle.
(** The Kconfig bounds. *)
Context (max_services max_reasons max_observers name_max reason_max : nat).
Context {W : Type}.
(** What bb_lifecycle_priv_async_notify does. *)
Context (async_notify : event -> W -> W).
Abbreviation lc_t := (lifecycle W).

Definition BB_LIFECYCLE_INHIBIT_WORDS : nat := (max_reasons + 31) / 32.
Definition lc_init : lc_t := mk_lifecycle [] [] [] None.
Definition set_services (l : list service) (lc : lc_t) : lc_t := mk_lifecycle l (lc_reasons lc) (lc_observers lc) (lc_emit lc).
Definition set_reasons (l : list (list byte)) (lc : lc_t) : lc_t := mk_lifecycle (lc_services lc) l (lc_observers lc) (lc_emit lc).

(** * Reasons *)

Fixpoint index_of (names : list (list byte)) (name : list byte) : option nat :=
  match names with
  | [] => None
  | n :: rest => if decide (n = name) then Some O else S <$> index_of rest name
  end.
Definition reason_lookup_locked (lc : lc_t) (truncated : list byte) : option Z := (fun i => u8 (Z.of_nat i)) <$> index_of (lc_reasons lc) truncated.
Definition reason_intern_locked (lc : lc_t) (reason : list byte) : bb_err * Z * lc_t :=
  let truncated := copy_truncated reason_max reason in
  match reason_lookup_locked lc truncated with
  | Some bit => (BB_OK, bit, lc)
  | None =>
      if (max_reasons <=? length (lc_reasons lc))%nat then (BB_ERR_NO_SPACE, 0, lc)
      else (BB_OK, u8 (Z.of_nat (length (lc_reasons lc))), set_reasons (lc_reasons lc ++ [copy_truncated reason_max truncated]) lc)
  end.

(** * Delivery *)

Definition svc_valid (lc : lc_t) (svc : Z) : bool := if svc <? 0 then false else svc <? Z.of_nat (length (lc_services lc)).
Definition find_svc (lc : lc_t) (svc : Z) : option service := if svc_valid lc svc then lc_services lc !! Z.to_nat svc else None.
Definition bb_lifecycle_set_emit (cb : option (Z -> event -> W -> W)) (lc : lc_t) : lc_t :=
  mk_lifecycle (lc_services lc) (lc_reasons lc) (lc_observers lc) cb.
Definition notify_all (lc : lc_t) (evt : event) (w : W) : W :=
  let w1 := fold_left (fun w o => if ob_async o then w else ob_cb o evt w) (lc_observers lc) w in
  let w2 := if existsb ob_async (lc_observers lc) then async_notify evt w1 else w1 in
  match lc_emit lc with Some cb => cb (ev_svc evt) evt w2 | None => w2 end.
Definition bb_lifecycle_priv_invoke_async_slots (lc : lc_t) (evt : event) (w : W) : W :=
  fold_left (fun w o => if ob_async o then ob_cb o evt w else w) (lc_observers lc) w.
(** The service with its new version, and the event of the transition. *)
Definition commit_and_snapshot (svc : Z) (s : service) (old_eff : lifecycle_state) (reason : Z) : service * event :=
  let new_version := u32 (sv_version s + 1) in
  (mk_service (sv_name s) (sv_started s) (sv_inhibits s) new_version,
   mk_event svc (nth 0 (sv_inhibits s) 0) new_version old_eff (state_of s) reason).

(** * Calls; [lk] is what the lazy initialisation of the lock answered *)

Definition bb_lifecycle_autoinit (lk : bb_err) : bb_err := lk.
Definition bb_lifecycle_register (lk : bb_err) (cfg : option (option (list byte))) (out_ok : bool) (lc : lc_t) : bb_err * option Z * lc_t :=
  match cfg with
  | Some (Some cname) =>
      if negb out_ok then (BB_ERR_INVALID_ARG, None, lc) else
      let name := copy_truncated name_max cname in
      if negb (is_ok lk) then (lk, None, lc) else
      if existsb (fun s => bool_decide (sv_name s = name)) (lc_services lc) then (BB_ERR_CONFLICT, None, lc) else
      let count := length (lc_services lc) in
      if (max_services <=? count)%nat then (BB_ERR_NO_SPACE, None, lc) else
      let s := mk_service (copy_truncated name_max name) false (repeat 0 BB_LIFECYCLE_INHIBIT_WORDS) 0 in
      (BB_OK, Some (Z.of_nat count), set_services (lc_services lc ++ [s]) lc)
  | _ => (BB_ERR_INVALID_ARG, None, lc)
  end.
Definition bb_lifecycle_find (lk : bb_err) (name : option (list byte)) (out_ok : bool) (lc : lc_t) : bb_err * option Z :=
  match name with
  | Some n =>
      if negb out_ok then (BB_ERR_INVALID_ARG, None) else
      let truncated := copy_truncated name_max n in
      if negb (is_ok lk) then (lk, None) else
      match index_of (map sv_name (lc_services lc)) truncated with
      | Some i => (BB_OK, Some (Z.of_nat i))
      | None => (BB_ERR_NOT_FOUND, None)
      end
  | None => (BB_ERR_INVALID_ARG, None)
  end.
Definition bb_lifecycle_name (lk : bb_err) (svc : Z) (lc : lc_t) : list byte :=
  if negb (is_ok lk) then [] else match find_svc lc svc with Some s => sv_name s | None => [] end.

(** The committed service is stored, the lock given up, the event delivered. *)
Definition commit (svc : Z) (s : service) (old_eff : lifecycle_state) (reason : Z) (lc : lc_t) (w : W) : bb_err * lc_t * W :=
  let '(s1, evt) := commit_and_snapshot svc s old_eff reason in
  let lc1 := set_services (<[Z.to_nat svc := s1]> (lc_services lc)) lc in
  (BB_OK, lc1, notify_all lc1 evt w).
Definition bb_lifecycle_start (lk : bb_err) (svc : Z) (lc : lc_t) (w : W) : bb_err * lc_t * W :=
  if negb (is_ok lk) then (lk, lc, w) else
  match find_svc lc svc with
  | None => (BB_ERR_NOT_FOUND, lc, w)
  | Some s =>
      if sv_started s then (BB_OK, lc, w) else
      commit svc (mk_service (sv_name s) true (sv_inhibits s) (sv_version s)) (state_of s) BB_LIFECYCLE_REASON_NONE lc w
  end.
Definition bb_lifecycle_stop (lk : bb_err) (svc : Z) (lc : lc_t) (w : W) : bb_err * lc_t * W :=
  if negb (is_ok lk) then (lk, lc, w) else
  match find_svc lc svc with
  | None => (BB_ERR_NOT_FOUND, lc, w)
  | Some s =>
      if negb (sv_started s) then (BB_OK, lc, w) else
      commit svc (mk_service (sv_name s) false (repeat 0 BB_LIFECYCLE_INHIBIT_WORDS) (sv_version s)) (state_of s) BB_LIFECYCLE_REASON_NONE lc w
  end.
Definition bb_lifecycle_pause_assert (lk : bb_err) (svc : Z) (reason : option (list byte)) (lc : lc_t) (w : W) : bb_err * lc_t * W :=
  match reason with
  | None => (BB_ERR_INVALID_ARG, lc, w)
  | Some reason =>
      if negb (is_ok lk) then (lk, lc, w) else
      match find_svc lc svc with
      | None => (BB_ERR_NOT_FOUND, lc, w)
      | Some s =>
          let '(err, bit, lc1) := reason_intern_locked lc reason in
          if negb (is_ok err) then (err, lc1, w) else
          if word_test (sv_inhibits s) bit then (BB_OK, lc1, w) else
          commit svc (mk_service (sv_name s) (sv_started s) (word_set (sv_inhibits s) bit) (sv_version s)) (state_of s) bit lc1 w
      end
  end.
Definition bb_lifecycle_pause_clear (lk : bb_err) (svc : Z) (reason : option (list byte)) (lc : lc_t) (w : W) : bb_err * lc_t * W :=
  match reason with
  | None => (BB_ERR_INVALID_ARG, lc, w)
  | Some reason =>
      if negb (is_ok lk) then (lk, lc, w) else
      match find_svc lc svc with
      | None => (BB_ERR_NOT_FOUND, lc, w)
      | Some s =>
          match reason_lookup_locked lc (copy_truncated reason_max reason) with
          | None => (BB_OK, lc, w)
          | Some bit =>
              if negb (word_test (sv_inhibits s) bit) then (BB_OK, lc, w) else
              commit svc (mk_service (sv_name s) (sv_started s) (word_clear (sv_inhibits s) bit) (sv_version s)) (state_of s) bit lc w
          end
      end
  end.

Definition bb_lifecycle_state (lk : bb_err) (svc : Z) (lc : lc_t) : lifecycle_state :=
  if negb (is_ok lk) then BB_LIFECYCLE_STOPPED else match find_svc lc svc with Some s => state_of s | None => BB_LIFECYCLE_STOPPED end.
Definition bb_lifecycle_is_paused (lk : bb_err) (svc : Z) (lc : lc_t) : bool :=
  if negb (is_ok lk) then false else match find_svc lc svc with Some s => bool_decide (state_of s = BB_LIFECYCLE_PAUSED) | None => false end.
Definition bb_lifecycle_version (svc : Z) (lc : lc_t) : Z := match find_svc lc svc with Some s => sv_version s | None => 0 end.
Definition bb_lifecycle_count (lc : lc_t) : Z := Z.of_nat (length (lc_services lc)).
(** The words written and how many. *)
Definition bb_lifecycle_inhibit_words (lk : bb_err) (svc : Z) (out_ok : bool) (max_words : nat) (lc : lc_t) : nat * list Z :=
  match find_svc lc svc with
  | Some s =>
      if negb out_ok || (max_words =? 0)%nat then (0%nat, []) else
      if negb (is_ok lk) then (0%nat, []) else
      let n := if (max_words <? BB_LIFECYCLE_INHIBIT_WORDS)%nat then max_words else BB_LIFECYCLE_INHIBIT_WORDS in
      (n, take n (sv_inhibits s))
  | None => (0%nat, [])
  end.
Definition bb_lifecycle_reason_name (lk : bb_err) (bit : Z) (lc : lc_t) : list byte :=
  if Z.of_nat max_reasons <=? bit then [] else
  if negb (is_ok lk) then [] else
  if bit <? Z.of_nat (length (lc_reasons lc)) then nth (Z.to_nat bit) (lc_reasons lc) [] else [].

(** * Observers and the emit binding *)

Definition bb_lifecycle_priv_observe_slot (lk : bb_err) (cb : option (event -> W -> W)) (async : bool) (lc : lc_t) : bb_err * lc_t :=
  match cb with
  | None => (BB_ERR_INVALID_ARG, lc)
  | Some cb =>
      if negb (is_ok lk) then (lk, lc) else
      if (max_observers <=? length (lc_observers lc))%nat then (BB_ERR_NO_SPACE, lc) else
      (BB_OK, mk_lifecycle (lc_services lc) (lc_reasons lc) (lc_observers lc ++ [mk_observer cb async]) (lc_emit lc))
  end.
Definition bb_lifecycle_observe (lk : bb_err) (cb : option (event -> W -> W)) (lc : lc_t) : bb_err * lc_t := bb_lifecycle_priv_observe_slot lk cb false lc.

Definition bb_lifecycle_emit_binding_init (out_ok : bool) (svc : Z) (classify : option (Z -> list byte -> lifecycle_action)) (lc : lc_t) : bb_err * option binding :=
  match classify with
  | None => (BB_ERR_INVALID_ARG, None)
  | Some f => if negb out_ok || negb (svc_valid lc svc) then (BB_ERR_INVALID_ARG, None) else (BB_OK, Some (mk_binding svc (Some f)))
  end.
(** [id]: as the sink gets it, a signed number. *)
Definition bb_lifecycle_emit_trampoline (lk : bb_err) (ctx : option binding) (id : Z) (payload : list byte) (lc : lc_t) (w : W) : lc_t * W :=
  match ctx with
  | Some (mk_binding svc (Some classify)) =>
      match classify (u32 id) payload with
      | BB_LIFECYCLE_ACTION_START => let '(_, lc1, w1) := bb_lifecycle_start lk svc lc w in (lc1, w1)
      | BB_LIFECYCLE_ACTION_STOP => let '(_, lc1, w1) := bb_lifecycle_stop lk svc lc w in (lc1, w1)
      | BB_LIFECYCLE_ACTION_NONE => (lc, w)
      end
  | _ => (lc, w)
  end.
End Lifecycle.

(** * Words *)

Definition words_ok (ws : list Z) : Prop := Forall (fun w => 0 <= w < 2 ^ 32) ws.
Lemma word_bit_pow bit : 0 <= bit -> word_bit bit = 2 ^ (bit mod 32) /\ 0 <= bit mod 32 < 32.
Proof. intros H. pose proof (Z.mod_pos_bound bit 32 ltac:(lia)). unfold word_bit. by rewrite Z.shiftl_1_l. Qed.
Lemma word_test_bit ws bit : 0 <= bit -> word_test ws bit = Z.testbit (nth (Z.to_nat (bit / 32)) ws 0) (bit mod 32).
Proof.
  intros Hb. destruct (word_bit_pow bit Hb) as [E Hk]. pose proof (Z.div_pos bit 32 Hb ltac:(lia)). unfold word_test. rewrite E.
  destruct (Z.leb_spec (Z.of_nat (length ws)) (bit / 32)); [rewrite nth_overflow by lia; by rewrite Z.bits_0|].
  set (w := nth _ _ _). destruct (Z.testbit w (bit mod 32)) eqn:Et; [apply negb_true_iff, Z.eqb_neq; intros Hz|apply negb_false_iff, Z.eqb_eq; apply Z.bits_inj'; intros j Hj].
  - assert (H1 : Z.testbit (Z.land w (2 ^ (bit mod 32))) (bit mod 32) = true) by (rewrite Z.land_spec, Et, Z.pow2_bits_true by lia; done). by rewrite Hz, Z.bits_0 in H1.
  - rewrite Z.land_spec, Z.pow2_bits_eqb, Z.bits_0 by lia. destruct (Z.eqb_spec (bit mod 32) j) as [<-|]; [by rewrite Et|apply andb_false_r].
Qed.
Lemma same_bit b c : b / 32 = c / 32 -> b mod 32 = c mod 32 -> b = c.
Proof. intros H1 H2. rewrite (Z.div_mod b 32), (Z.div_mod c 32) by lia. by rewrite H1, H2. Qed.
(** What changing one word's bit does to every bit. *)
Lemma word_alter_bit (f : Z -> Z) ws b c : 0 <= b -> 0 <= c -> b / 32 < Z.of_nat (length ws) ->
  (forall w j, 0 <= j < 32 -> j <> b mod 32 -> Z.testbit (f w) j = Z.testbit w j) ->
  let v w := Z.testbit (f w) (b mod 32) in
  word_test (alter f (Z.to_nat (b / 32)) ws) c = if b =? c then v (nth (Z.to_nat (b / 32)) ws 0) else word_test ws c.
Proof.
  intros Hb Hc Hl Hf. cbv zeta. rewrite !word_test_bit by done. pose proof (Z.div_pos b 32 Hb ltac:(lia)). pose proof (Z.div_pos c 32 Hc ltac:(lia)). pose proof (Z.mod_pos_bound c 32 ltac:(lia)).
  rewrite !nth_lookup. destruct (Z.eqb_spec b c) as [<-|Hne].
  - rewrite list_lookup_alter_eq. destruct (lookup_lt_is_Some_2 ws (Z.to_nat (b / 32)) ltac:(lia)) as [w ->]. done.
  - destruct (decide (b / 32 = c / 32)) as [E|E].
    + rewrite <- E, list_lookup_alter_eq. destruct (lookup_lt_is_Some_2 ws (Z.to_nat (b / 32)) ltac:(lia)) as [w ->]. cbn. apply Hf; [done|]. intros E'. apply Hne. by apply same_bit.
    + by rewrite list_lookup_alter_ne by lia.
Qed.
Lemma word_test_set ws b c : 0 <= b -> 0 <= c -> b / 32 < Z.of_nat (length ws) -> word_test (word_set ws b) c = (b =? c) || word_test ws c.
Proof.
  intros Hb Hc Hl. destruct (word_bit_pow b Hb) as [E Hk]. unfold word_set. destruct (Z.leb_spec (Z.of_nat (length ws)) (b / 32)); [lia|].
  rewrite (word_alter_bit _ ws b c Hb Hc Hl).
  - destruct (b =? c); cbn [orb]; [|done]. rewrite Z.lor_spec, E, Z.pow2_bits_true by lia. apply orb_true_r.
  - intros w j Hj Hne. rewrite Z.lor_spec, E, Z.pow2_bits_false by lia. apply orb_false_r.
Qed.
Lemma word_test_clear ws b c : 0 <= b -> 0 <= c -> b / 32 < Z.of_nat (length ws) -> word_test (word_clear ws b) c = negb (b =? c) && word_test ws c.
Proof.
  intros Hb Hc Hl. destruct (word_bit_pow b Hb) as [E Hk]. unfold word_clear. destruct (Z.leb_spec (Z.of_nat (length ws)) (b / 32)); [lia|].
  rewrite (word_alter_bit _ ws b c Hb Hc Hl).
  - destruct (b =? c); cbn [negb andb]; [|done]. rewrite Z.land_spec. unfold u32. rewrite Z.mod_pow2_bits_low, Z.lnot_spec, E, Z.pow2_bits_true by lia. apply andb_false_r.
  - intros w j Hj Hne. rewrite Z.land_spec. unfold u32. rewrite Z.mod_pow2_bits_low, Z.lnot_spec, E, Z.pow2_bits_false by lia. apply andb_true_r.
Qed.
Lemma word_set_ok ws b : 0 <= b -> words_ok ws -> words_ok (word_set ws b) /\ length (word_set ws b) = length ws.
Proof.
  intros Hb H. destruct (word_bit_pow b Hb) as [E Hk]. unfold word_set. destruct (_ <=? _); [done|]. split; [|apply length_alter]. apply Forall_alter; [done|]. intros w _ [Hw1 Hw2].
  pose proof (Z.pow_pos_nonneg 2 (b mod 32) ltac:(lia) ltac:(lia)). pose proof (Z.pow_lt_mono_r 2 (b mod 32) 32 ltac:(lia) ltac:(lia) ltac:(lia)).
  rewrite E. split; [apply Z.lor_nonneg; lia|]. destruct (Z.eq_dec (Z.lor w (2 ^ (b mod 32))) 0) as [->|Hn]; [lia|].
  apply Z.log2_lt_cancel. rewrite Z.log2_lor, Z.log2_pow2 by lia. change (Z.log2 (2 ^ 32)) with 32.
  destruct (Z.eq_dec w 0) as [->|]; [cbn; lia|]. pose proof (proj1 (Z.log2_lt_pow2 w 32 ltac:(lia)) Hw2). lia.
Qed.
Lemma word_clear_ok ws b : words_ok ws -> words_ok (word_clear ws b) /\ length (word_clear ws b) = length ws.
Proof.
  intros H. unfold word_clear. destruct (_ <=? _); [done|]. split; [|apply length_alter]. apply Forall_alter; [done|]. intros w _ [Hw1 Hw2].
  pose proof (u32_range (Z.lnot (word_bit b))). split; [apply Z.land_nonneg; by left|]. destruct (Z.eq_dec (Z.land w (u32 (Z.lnot (word_bit b)))) 0) as [->|Hn]; [lia|].
  assert (0 < w) by (destruct (Z.eq_dec w 0) as [->|]; [by rewrite Z.land_0_l in Hn|lia]).
  apply Z.log2_lt_cancel. change (Z.log2 (2 ^ 32)) with 32. pose proof (Z.log2_land w (u32 (Z.lnot (word_bit b))) Hw1 ltac:(lia)). pose proof (proj1 (Z.log2_lt_pow2 w 32 ltac:(lia)) Hw2). lia.
Qed.
(** No word is set exactly when no bit is. *)
Lemma words_any_bits ws : words_ok ws -> words_any_set ws = false <-> forall b, 0 <= b -> word_test ws b = false.
Proof.
  intros Hok. split.
  - intros H b Hb. rewrite word_test_bit by done. pose proof (Z.div_pos b 32 Hb ltac:(lia)). rewrite nth_lookup. destruct (ws !! Z.to_nat (b / 32)) as [w|] eqn:E; cbn; [|apply Z.bits_0].
    assert (w = 0) as ->; [|apply Z.bits_0]. apply not_true_iff_false in H. destruct (Z.eq_dec w 0) as [|Hn]; [done|]. exfalso. apply H. apply existsb_exists. exists w.
    split; [apply list_elem_of_In; by eapply list_elem_of_lookup_2|]. by apply negb_true_iff, Z.eqb_neq.
  - intros H. apply not_true_iff_false. intros (w & Hw & Hn)%existsb_exists. apply negb_true_iff, Z.eqb_neq in Hn. apply Hn.
    apply list_elem_of_In, list_elem_of_lookup in Hw as [i Hi]. pose proof (Forall_lookup_1 _ _ _ _ Hok Hi) as Hr. apply Z.bits_inj'. intros j Hj. rewrite Z.bits_0.
    destruct (Z.ltb_spec j 32); [|exact (testbit_small w 32 j Hr ltac:(lia))]. pose proof (H (32 * Z.of_nat i + j) ltac:(lia)) as Ht. rewrite word_test_bit in Ht by lia.
    replace ((32 * Z.of_nat i + j) / 32) with (Z.of_nat i) in Ht by (rewrite Z.mul_comm, Z.div_add_l by lia; rewrite (Z.div_small j) by lia; lia).
    replace ((32 * Z.of_nat i + j) mod 32) with j in Ht by (rewrite Z.add_comm, Z.mul_comm, Z_mod_plus_full; symmetry; apply Z.mod_small; lia).
    rewrite Nat2Z.id, nth_lookup, Hi in Ht. exact Ht.
Qed.
Lemma words_zero n : words_ok (repeat 0 n) /\ forall b, 0 <= b -> word_test (repeat 0 n) b = false.
Proof.
  split; [apply Forall_forall; intros w ->%list_elem_of_In%repeat_spec; lia|]. intros b Hb. rewrite word_test_bit by done. rewrite nth_repeat. apply Z.bits_0.
Qed.

(** * The specification: reasons are a set of strings *)

Record aservice := mk_aservice { as_name : list byte; as_on : bool; as_why : list (list byte); as_changes : Z }.
Record register := mk_register { rg_services : list aservice; rg_known : list (list byte) }.
Definition astate (a : aservice) : lifecycle_state :=
  if as_on a then match as_why a with [] => BB_LIFECYCLE_RUNNING | _ => BB_LIFECYCLE_PAUSED end else BB_LIFECYCLE_STOPPED.

(** The number whose bits are given, the lowest first. *)
Fixpoint number (l : list bool) : Z := match l with [] => 0 | b :: rest => Z.b2z b + 2 * number rest end.
Definition low_reasons (known why : list (list byte)) : Z := number (map (fun r => bool_decide (r ∈ why)) (take 32 known)).

Inductive lc_op : Type :=
  | LRegister (cfg : option (option (list byte))) (out_ok : bool) | LFind (name : option (list byte)) (out_ok : bool) | LName (svc : Z)
  | LStart (svc : Z) | LStop (svc : Z) | LAssert (svc : Z) (reason : option (list byte)) | LClear (svc : Z) (reason : option (list byte))
  | LState (svc : Z) | LPaused (svc : Z) | LVersion (svc : Z) | LCount | LReason (bit : Z)
  | LEmit (ctx : option binding) (id : Z) (payload : list byte).
Inductive lc_res : Set := LErr (e : bb_err) | LHandle (e : bb_err) (svc : option Z) | LText (s : list byte) | LSt (s : lifecycle_state) | LBool (b : bool) | LNum (n : Z) | LUnit.

Section Spec.
Context (max_services max_reasons name_max reason_max : nat).

Definition aget (rg : register) (svc : Z) : option aservice := if svc <? 0 then None else rg_services rg !! Z.to_nat svc.
(** A service changes, and says so. *)
Definition achange (svc : Z) (a a1 : aservice) (reason : Z) (known : list (list byte)) (rg : register) : bb_err * register * list event :=
  let a2 := mk_aservice (as_name a1) (as_on a1) (as_why a1) (as_changes a + 1) in
  (BB_OK, mk_register (<[Z.to_nat svc := a2]> (rg_services rg)) known,
   [mk_event svc (low_reasons known (as_why a1)) (u32 (as_changes a + 1)) (astate a) (astate a1) reason]).
Definition astart (lk : bb_err) (svc : Z) (rg : register) : bb_err * register * list event :=
  if negb (is_ok lk) then (lk, rg, []) else
  match aget rg svc with
  | None => (BB_ERR_NOT_FOUND, rg, [])
  | Some a => if as_on a then (BB_OK, rg, []) else achange svc a (mk_aservice (as_name a) true (as_why a) 0) BB_LIFECYCLE_REASON_NONE (rg_known rg) rg
  end.
Definition astop (lk : bb_err) (svc : Z) (rg : register) : bb_err * register * list event :=
  if negb (is_ok lk) then (lk, rg, []) else
  match aget rg svc with
  | None => (BB_ERR_NOT_FOUND, rg, [])
  | Some a => if as_on a then achange svc a (mk_aservice (as_name a) false [] 0) BB_LIFECYCLE_REASON_NONE (rg_known rg) rg else (BB_OK, rg, [])
  end.
Definition aassert (lk : bb_err) (svc : Z) (reason : option (list byte)) (rg : register) : bb_err * register * list event :=
  match reason with
  | None => (BB_ERR_INVALID_ARG, rg, [])
  | Some reason =>
      if negb (is_ok lk) then (lk, rg, []) else
      match aget rg svc with
      | None => (BB_ERR_NOT_FOUND, rg, [])
      | Some a =>
          let r := copy_truncated reason_max reason in
          let new := negb (bool_decide (r ∈ rg_known rg)) in
          if new && (max_reasons <=? length (rg_known rg))%nat then (BB_ERR_NO_SPACE, rg, []) else
          let known := if new then rg_known rg ++ [r] else rg_known rg in
          if bool_decide (r ∈ as_why a) then (BB_OK, rg, []) else
          achange svc a (mk_aservice (as_name a) (as_on a) (r :: as_why a) 0) (Z.of_nat (default 0%nat (index_of known r))) known rg
      end
  end.
Definition aclear (lk : bb_err) (svc : Z) (reason : option (list byte)) (rg : register) : bb_err * register * list event :=
  match reason with
  | None => (BB_ERR_INVALID_ARG, rg, [])
  | Some reason =>
      if negb (is_ok lk) then (lk, rg, []) else
      match aget rg svc with
      | None => (BB_ERR_NOT_FOUND, rg, [])
      | Some a =>
          let r := copy_truncated reason_max reason in
          if bool_decide (r ∈ as_why a)
          then achange svc a (mk_aservice (as_name a) (as_on a) (filter (fun x => x <> r) (as_why a)) 0) (Z.of_nat (default 0%nat (index_of (rg_known rg) r))) (rg_known rg) rg
          else (BB_OK, rg, [])
      end
  end.
Definition aregister (lk : bb_err) (cfg : option (option (list byte))) (out_ok : bool) (rg : register) : bb_err * option Z * register :=
  match cfg with
  | Some (Some cname) =>
      if negb out_ok then (BB_ERR_INVALID_ARG, None, rg) else
      if negb (is_ok lk) then (lk, None, rg) else
      let name := copy_truncated name_max cname in
      if bool_decide (name ∈ map as_name (rg_services rg)) then (BB_ERR_CONFLICT, None, rg) else
      let n := length (rg_services rg) in
      if (max_services <=? n)%nat then (BB_ERR_NO_SPACE, None, rg) else
      (BB_OK, Some (Z.of_nat n), mk_register (rg_services rg ++ [mk_aservice name false [] 0]) (rg_known rg))
  | _ => (BB_ERR_INVALID_ARG, None, rg)
  end.
(** One call: its answer, the register, the changes it announces. *)
Definition spec_call (lk : bb_err) (op : lc_op) (rg : register) : lc_res * register * list event :=
  let ask r := (r, rg, []) in
  let ok := is_ok lk in
  let act x := let '(e, rg1, evs) := x in (LErr e, rg1, evs) in
  match op with
  | LRegister cfg out_ok => let '(e, h, rg1) := aregister lk cfg out_ok rg in (LHandle e h, rg1, [])
  | LFind None _ | LFind _ false => ask (LHandle BB_ERR_INVALID_ARG None)
  | LFind (Some n) true =>
      if negb ok then ask (LHandle lk None) else
      match index_of (map as_name (rg_services rg)) (copy_truncated name_max n) with
      | Some i => ask (LHandle BB_OK (Some (Z.of_nat i)))
      | None => ask (LHandle BB_ERR_NOT_FOUND None)
      end
  | LName svc => ask (LText (if ok then match aget rg svc with Some a => as_name a | None => [] end else []))
  | LStart svc => act (astart lk svc rg)
  | LStop svc => act (astop lk svc rg)
  | LAssert svc r => act (aassert lk svc r rg)
  | LClear svc r => act (aclear lk svc r rg)
  | LState svc => ask (LSt (if ok then match aget rg svc with Some a => astate a | None => BB_LIFECYCLE_STOPPED end else BB_LIFECYCLE_STOPPED))
  | LPaused svc => ask (LBool (if ok then match aget rg svc with Some a => as_on a && negb (bool_decide (as_why a = [])) | None => false end else false))
  | LVersion svc => ask (LNum (match aget rg svc with Some a => u32 (as_changes a) | None => 0 end))
  | LCount => ask (LNum (Z.of_nat (length (rg_services rg))))
  | LReason bit => ask (LText (if ok then default [] (rg_known rg !! Z.to_nat bit) else []))
  | LEmit (Some (mk_binding svc (Some classify))) id payload =>
      let act' x := let '(_, rg1, evs) := x in (LUnit, rg1, evs) in
      match classify (u32 id) payload with
      | BB_LIFECYCLE_ACTION_START => act' (astart lk svc rg)
      | BB_LIFECYCLE_ACTION_STOP => act' (astop lk svc rg)
      | BB_LIFECYCLE_ACTION_NONE => ask LUnit
      end
  | LEmit _ _ _ => ask LUnit
  end.
End Spec.

(** The code's call. *)
Definition lc_call (max_services max_reasons name_max reason_max : nat) {W} (async_notify : event -> W -> W) (lk : bb_err) (op : lc_op) (x : lifecycle W * W)
  : lc_res * (lifecycle W * W) :=
  let '(lc, w) := x in
  let act y := let '(e, lc1, w1) := y in (LErr e, (lc1, w1)) in
  match op with
  | LRegister cfg out_ok => let '(e, h, lc1) := bb_lifecycle_register max_services max_reasons name_max lk cfg out_ok lc in (LHandle e h, (lc1, w))
  | LFind name out_ok => let '(e, h) := bb_lifecycle_find name_max lk name out_ok lc in (LHandle e h, x)
  | LName svc => (LText (bb_lifecycle_name lk svc lc), x)
  | LStart svc => act (bb_lifecycle_start async_notify lk svc lc w)
  | LStop svc => act (bb_lifecycle_stop max_reasons async_notify lk svc lc w)
  | LAssert svc r => act (bb_lifecycle_pause_assert max_reasons reason_max async_notify lk svc r lc w)
  | LClear svc r => act (bb_lifecycle_pause_clear reason_max async_notify lk svc r lc w)
  | LState svc => (LSt (bb_lifecycle_state lk svc lc), x)
  | LPaused svc => (LBool (bb_lifecycle_is_paused lk svc lc), x)
  | LVersion svc => (LNum (bb_lifecycle_version svc lc), x)
  | LCount => (LNum (bb_lifecycle_count lc), x)
  | LReason bit => (LText (bb_lifecycle_reason_name max_reasons lk bit lc), x)
  | LEmit ctx id payload => (LUnit, bb_lifecycle_emit_trampoline max_reasons async_notify lk ctx id payload lc w)
  end.
Fixpoint lc_calls (ms mr nm rm : nat) {W} (async_notify : event -> W -> W) (ops : list (bb_err * lc_op)) (x : lifecycle W * W) : list lc_res * (lifecycle W * W) :=
  match ops with
  | [] => ([], x)
  | (lk, op) :: ops' => let '(r, x1) := lc_call ms mr nm rm async_notify lk op x in let '(rs, x2) := lc_calls ms mr nm rm async_notify ops' x1 in (r :: rs, x2)
  end.
Fixpoint spec_calls (ms mr nm rm : nat) (ops : list (bb_err * lc_op)) (rg : register) : list lc_res * register * list event :=
  match ops with
  | [] => ([], rg, [])
  | (lk, op) :: ops' =>
      let '(r, rg1, evs) := spec_call ms mr nm rm lk op rg in let '(rs, rg2, evs') := spec_calls ms mr nm rm ops' rg1 in (r :: rs, rg2, evs ++ evs')
  end.

(** * Proofs *)

Lemma copy_truncated_idem n s : copy_truncated n (copy_truncated n s) = copy_truncated n s.
Proof.
  unfold copy_truncated. rewrite (cstr_id (take _ _)) by (apply Forall_take, cstr_no_nul). rewrite take_take. by rewrite Nat.min_id.
Qed.
Lemma reason_index_some l s i : index_of l s = Some i -> l !! i = Some s.
Proof.
  revert i. induction l as [|x l IH]; intros i; cbn [index_of]; [done|]. destruct (decide (x = s)) as [->|]; [by intros [= <-]|].
  destruct (index_of l s) as [j|]; [|done]. intros [= <-]. by apply IH.
Qed.
Lemma index_of_none l s : index_of l s = None <-> ~ s ∈ l.
Proof.
  induction l as [|x l IH]; cbn [index_of]; [split; [by intros _ ?%not_elem_of_nil|done]|]. rewrite not_elem_of_cons. destruct (decide (x = s)) as [->|Hne].
  - split; [done|]. by intros [? _].
  - destruct (index_of l s); cbn; [split; [done|]; intros [_ H]; by apply IH in H|]. split; [|done]. intros _. split; [congruence|by apply IH].
Qed.
Lemma index_of_snoc l s : ~ s ∈ l -> index_of (l ++ [s]) s = Some (length l).
Proof.
  induction l as [|x l IH]; intros H; cbn [index_of app length]; [by rewrite decide_True|]. rewrite not_elem_of_cons in H. destruct H as [H1 H2].
  rewrite decide_False by congruence. by rewrite IH.
Qed.
Lemma number_bits l i : Z.testbit (number l) (Z.of_nat i) = nth i l false.
Proof.
  revert i. induction l as [|b l IH]; intros [|i]; cbn [number nth]; try apply Z.bits_0; cycle 1.
  - rewrite Nat2Z.inj_succ. rewrite Z.add_comm, Z.mul_comm, <- (Z.shiftl_mul_pow2 _ 1) by lia. rewrite <- IH.
    replace (Z.shiftl (number l) 1 + Z.b2z b) with (2 * number l + Z.b2z b) by (rewrite Z.shiftl_mul_pow2 by lia; lia). by rewrite Z.testbit_succ_r by lia.
  - change (Z.of_nat 0) with 0. rewrite Z.add_comm. by rewrite Z.testbit_0_r.
Qed.

Section Refine.
Context (max_services max_reasons name_max reason_max : nat) (Hmr : (1 <= max_reasons <= 255)%nat).
Context {W : Type} (async_notify : event -> W -> W).
Abbreviation nwords := (BB_LIFECYCLE_INHIBIT_WORDS max_reasons).

Record svc_core (known : list (list byte)) (a : aservice) (s : service) : Prop := {
  sc_name : sv_name s = as_name a;
  sc_on : sv_started s = as_on a;
  sc_words : words_ok (sv_inhibits s) /\ length (sv_inhibits s) = nwords;
  sc_bits : forall b, 0 <= b -> word_test (sv_inhibits s) b = match known !! Z.to_nat b with Some r => bool_decide (r ∈ as_why a) | None => false end;
  sc_known : forall r, r ∈ as_why a -> r ∈ known
}.
Definition svc_rep (known : list (list byte)) (a : aservice) (s : service) : Prop := svc_core known a s /\ sv_version s = u32 (as_changes a).
Record known_ok (known : list (list byte)) : Prop := {
  ko_nodup : NoDup known;
  ko_len : (length known <= max_reasons)%nat;
  ko_cut : Forall (fun r => copy_truncated reason_max r = r) known
}.
Record rep (rg : register) (lc : lifecycle W) : Prop := {
  rp_known : lc_reasons lc = rg_known rg;
  rp_ok : known_ok (rg_known rg);
  rp_services : Forall2 (svc_rep (rg_known rg)) (rg_services rg) (lc_services lc)
}.

Lemma nwords_bits b : 0 <= b < Z.of_nat max_reasons -> b / 32 < Z.of_nat nwords.
Proof.
  intros Hb. unfold BB_LIFECYCLE_INHIBIT_WORDS. rewrite Nat2Z.inj_div. rewrite Nat2Z.inj_add. change (Z.of_nat 31) with 31. change (Z.of_nat 32) with 32.
  apply Z.div_lt_upper_bound; [lia|]. pose proof (Z.mod_pos_bound (Z.of_nat max_reasons + 31) 32 ltac:(lia)). pose proof (Z.div_mod (Z.of_nat max_reasons + 31) 32 ltac:(lia)). lia.
Qed.
Lemma core_state known a s : svc_core known a s -> state_of s = astate a.
Proof.
  intros [C1 C2 [C3 C3'] C4 C5]. unfold state_of, compute_state, astate. rewrite C2. destruct (as_on a); cbn [negb]; [|done].
  destruct (as_why a) as [|r why] eqn:E.
  - assert (words_any_set (sv_inhibits s) = false) as ->; [|done]. apply words_any_bits; [done|]. intros b Hb. rewrite C4 by done. destruct (known !! Z.to_nat b); [|done]. by rewrite bool_decide_eq_false_2 by apply not_elem_of_nil.
  - destruct (words_any_set (sv_inhibits s)) eqn:Ew; [done|]. exfalso. pose proof (proj1 (words_any_bits _ C3) Ew) as Hb.
    assert (Hr : r ∈ known) by (apply C5; left). apply list_elem_of_lookup in Hr as [i Hi]. specialize (Hb (Z.of_nat i) ltac:(lia)). rewrite C4, Nat2Z.id, Hi in Hb by lia.
    rewrite bool_decide_eq_true_2 in Hb by left. done.
Qed.
Lemma core_low known a s : svc_core known a s -> nth 0 (sv_inhibits s) 0 = low_reasons known (as_why a).
Proof.
  intros [C1 C2 [C3 C3'] C4 C5]. unfold low_reasons. apply Z.bits_inj'. intros j Hj. rewrite <- (Z2Nat.id j) by done. rewrite number_bits.
  pose proof (C4 j Hj) as Hb. destruct (Z.ltb_spec j 32).
  - rewrite word_test_bit, Z.div_small, Z.mod_small in Hb by lia. change (Z.to_nat 0) with 0%nat in Hb. rewrite Z2Nat.id by lia. rewrite Hb. rewrite nth_lookup, list_lookup_fmap.
    rewrite lookup_take_lt by lia. by destruct (known !! Z.to_nat j).
  - rewrite (nth_overflow (map _ _)) by (rewrite length_map, length_take; lia). destruct (sv_inhibits s) as [|w ws]; cbn [nth]; [apply Z.bits_0|]. inversion_clear C3.
    rewrite Z2Nat.id by lia. exact (testbit_small w 32 j H0 ltac:(lia)).
Qed.
Lemma core_extend known a s r : svc_core known a s -> ~ r ∈ known -> svc_core (known ++ [r]) a s.
Proof.
  intros [C1 C2 C3 C4 C5] Hr. split; try done.
  - intros b Hb. rewrite C4 by done. destruct (decide (Z.to_nat b < length known)%nat).
    + by rewrite lookup_app_l by lia.
    + rewrite (lookup_ge_None_2 known) by lia. rewrite lookup_app_r by lia. destruct (_ - _)%nat as [|k]; cbn; [|done]. rewrite bool_decide_eq_false_2; [done|]. intros H. by apply Hr, C5.
  - intros x Hx. apply elem_of_app. left. by apply C5.
Qed.

(** ** Lookups *)

Lemma find_aget rg lc svc : rep rg lc ->
  match find_svc lc svc, aget rg svc with Some s, Some a => svc_rep (rg_known rg) a s /\ 0 <= svc /\ rg_services rg !! Z.to_nat svc = Some a /\ lc_services lc !! Z.to_nat svc = Some s | None, None => True | _, _ => False end.
Proof.
  intros [R1 R2 R3]. unfold find_svc, svc_valid, aget. destruct (Z.ltb_spec svc 0); [done|]. pose proof (Forall2_length _ _ _ R3) as Hl.
  destruct (Z.ltb_spec svc (Z.of_nat (length (lc_services lc)))).
  - destruct (lookup_lt_is_Some_2 (lc_services lc) (Z.to_nat svc) ltac:(lia)) as [s Hs]. destruct (Forall2_lookup_r _ _ _ _ _ R3 Hs) as (a & Ha & Hr). rewrite Hs, Ha. split_and!; done || lia.
  - by rewrite lookup_ge_None_2 by lia.
Qed.
(** Delivery depends only on who listens. *)
Definition same_ears (lc lc' : lifecycle W) : Prop := lc_observers lc' = lc_observers lc /\ lc_emit lc' = lc_emit lc.
Lemma notify_same lc lc' evt w : same_ears lc lc' -> notify_all async_notify lc' evt w = notify_all async_notify lc evt w.
Proof. intros [H1 H2]. unfold notify_all. by rewrite H1, H2. Qed.
Definition heard (lc : lifecycle W) (evs : list event) (w : W) : W := fold_left (fun w e => notify_all async_notify lc e w) evs w.

(** A call of the code and one of the specification that agree. *)
Definition agrees (lc : lifecycle W) (w : W) (x : bb_err * lifecycle W * W) (y : bb_err * register * list event) : Prop :=
  let '(e, lc1, w1) := x in let '(e', rg1, evs) := y in e = e' /\ rep rg1 lc1 /\ same_ears lc lc1 /\ w1 = heard lc evs w.
Lemma agrees_still rg lc w e : rep rg lc -> agrees lc w (e, lc, w) (e, rg, []).
Proof. intros H. by split_and!. Qed.

Lemma commit_ok rg lc lcr known svc a s s1 a1 reason w : rep rg lc -> 0 <= svc -> rg_services rg !! Z.to_nat svc = Some a -> lc_services lc !! Z.to_nat svc = Some s ->
  svc_rep (rg_known rg) a s -> known_ok known -> Forall2 (svc_rep known) (rg_services rg) (lc_services lc) ->
  lc_services lcr = lc_services lc -> lc_reasons lcr = known -> same_ears lc lcr ->
  svc_core known a1 s1 -> sv_version s1 = sv_version s ->
  agrees lc w (commit async_notify svc s1 (state_of s) reason lcr w) (achange svc a a1 reason known rg).
Proof.
  intros Hrep Hsvc Ha Hs [Hcore Hver] Hk Hall El Er Hears Hcore1 Ev. unfold commit, achange. cbn [commit_and_snapshot].
  assert (Ever : u32 (sv_version s1 + 1) = u32 (as_changes a + 1)) by (rewrite Ev, Hver; unfold u32; by rewrite Zplus_mod_idemp_l). rewrite Ever.
  split; [done|]. split; [|split; [done|]].
  - split; cbn [lc_reasons set_services rg_known]; [done|done|]. rewrite El. cbn [rg_services lc_services]. apply Forall2_insert; [done|]. split; [|done]. by destruct Hcore1.
  - cbn [heard fold_left]. rewrite (core_state _ _ _ Hcore). rewrite (core_low _ _ _ Hcore1). rewrite (core_state _ _ _ Hcore1). apply notify_same. exact Hears.
Qed.

(** ** Operations *)

Lemma start_ok rg lc lk svc w : rep rg lc -> agrees lc w (bb_lifecycle_start async_notify lk svc lc w) (astart lk svc rg).
Proof.
  intros Hr. unfold bb_lifecycle_start, astart. destruct (is_ok lk) eqn:El; cbn [negb]; [|by apply agrees_still].
  pose proof (find_aget rg lc svc Hr) as H. destruct (find_svc lc svc) as [s|], (aget rg svc) as [a|]; try done; try by apply agrees_still. destruct H as (Hs & H1 & H2 & H3).
  pose proof Hs as [[C1 C2 C3 C4 C5] Cv]. rewrite C2. destruct (as_on a); [by apply agrees_still|].
  apply (commit_ok rg lc); try done; apply Hr.
Qed.
Lemma stop_ok rg lc lk svc w : rep rg lc -> agrees lc w (bb_lifecycle_stop max_reasons async_notify lk svc lc w) (astop lk svc rg).
Proof.
  intros Hr. unfold bb_lifecycle_stop, astop. destruct (is_ok lk) eqn:El; cbn [negb]; [|by apply agrees_still].
  pose proof (find_aget rg lc svc Hr) as H. destruct (find_svc lc svc) as [s|], (aget rg svc) as [a|]; try done; try by apply agrees_still. destruct H as (Hs & H1 & H2 & H3).
  pose proof Hs as [[C1 C2 C3 C4 C5] Cv]. rewrite C2. destruct (as_on a); cbn [negb]; [|by apply agrees_still]. destruct (words_zero nwords) as [Z1 Z2].
  apply (commit_ok rg lc); try done; try apply Hr. split; cbn [sv_name sv_started sv_inhibits as_name as_on as_why]; try done.
  - split; [done|apply repeat_length].
  - intros b Hb. rewrite Z2 by done. destruct (rg_known rg !! Z.to_nat b); [|done]. by rewrite bool_decide_eq_false_2 by apply not_elem_of_nil.
  - by intros r ?%not_elem_of_nil.
Qed.
Lemma known_bit known i r : known_ok known -> known !! i = Some r -> (i < max_reasons)%nat /\ u8 (Z.of_nat i) = Z.of_nat i.
Proof. intros [K1 K2 K3] Hi%lookup_lt_Some. split; [lia|]. apply u8_small. lia. Qed.
(** Asserting and clearing a known reason, on the words and on the set. *)
Lemma core_assert known a s i r : known_ok known -> known !! i = Some r -> svc_core known a s ->
  svc_core known (mk_aservice (as_name a) (as_on a) (r :: as_why a) 0) (mk_service (sv_name s) (sv_started s) (word_set (sv_inhibits s) (Z.of_nat i)) (sv_version s)).
Proof.
  intros Hk Hi [C1 C2 [C3 C3'] C4 C5]. pose proof (known_bit _ _ _ Hk Hi) as [Hb _]. split; cbn [sv_name sv_started sv_inhibits as_name as_on as_why]; try done.
  - destruct (word_set_ok (sv_inhibits s) (Z.of_nat i) ltac:(lia) C3) as [H1 H2]. split; [done|lia].
  - intros b Hb'. rewrite word_test_set by (try lia; rewrite C3'; apply nwords_bits; lia). rewrite C4 by done. destruct (Z.eqb_spec (Z.of_nat i) b) as [<-|Hne]; cbn [orb].
    + rewrite Nat2Z.id, Hi. by rewrite bool_decide_eq_true_2 by left.
    + destruct (known !! Z.to_nat b) as [r'|] eqn:E; [|done]. apply bool_decide_ext. rewrite elem_of_cons. split; [by right|]. intros [->|]; [|done]. exfalso. apply Hne.
      rewrite (NoDup_lookup _ _ _ _ (ko_nodup _ Hk) Hi E). lia.
  - intros x [->|Hx]%elem_of_cons; [|by apply C5]. by eapply list_elem_of_lookup_2.
Qed.
Lemma core_clear known a s i r : known_ok known -> known !! i = Some r -> svc_core known a s ->
  svc_core known (mk_aservice (as_name a) (as_on a) (filter (fun x => x <> r) (as_why a)) 0) (mk_service (sv_name s) (sv_started s) (word_clear (sv_inhibits s) (Z.of_nat i)) (sv_version s)).
Proof.
  intros Hk Hi [C1 C2 [C3 C3'] C4 C5]. pose proof (known_bit _ _ _ Hk Hi) as [Hb _]. split; cbn [sv_name sv_started sv_inhibits as_name as_on as_why]; try done.
  - destruct (word_clear_ok (sv_inhibits s) (Z.of_nat i) C3) as [H1 H2]. split; [done|lia].
  - intros b Hb'. rewrite word_test_clear by (try lia; rewrite C3'; apply nwords_bits; lia). rewrite C4 by done. destruct (Z.eqb_spec (Z.of_nat i) b) as [<-|Hne]; cbn [negb andb].
    + rewrite Nat2Z.id, Hi. rewrite bool_decide_eq_false_2; [done|]. by intros [? _]%list_elem_of_filter.
    + destruct (known !! Z.to_nat b) as [r'|] eqn:E; [|done]. apply bool_decide_ext. rewrite list_elem_of_filter. split; [|by intros [_ ?]]. intros Hx. split; [|done]. intros ->. apply Hne.
      rewrite (NoDup_lookup _ _ _ _ (ko_nodup _ Hk) Hi E). lia.
  - intros x [_ Hx]%list_elem_of_filter. by apply C5.
Qed.
Lemma core_tests known a s i r : svc_core known a s -> known !! i = Some r -> word_test (sv_inhibits s) (Z.of_nat i) = bool_decide (r ∈ as_why a).
Proof. intros H Hi. rewrite (sc_bits _ _ _ H) by lia. by rewrite Nat2Z.id, Hi. Qed.

Lemma assert_ok rg lc lk svc r w : rep rg lc -> agrees lc w (bb_lifecycle_pause_assert max_reasons reason_max async_notify lk svc r lc w) (aassert max_reasons reason_max lk svc r rg).
Proof.
  intros Hr. unfold bb_lifecycle_pause_assert, aassert. destruct r as [reason|]; [|by apply agrees_still]. destruct (is_ok lk) eqn:El; cbn [negb]; [|by apply agrees_still].
  pose proof (find_aget rg lc svc Hr) as H. destruct (find_svc lc svc) as [s|], (aget rg svc) as [a|]; try done; try by apply agrees_still. destruct H as (Hs & H1 & H2 & H3).
  pose proof Hr as [R1 R2 R3]. pose proof Hs as [Hcore Hver]. set (r := copy_truncated reason_max reason). unfold reason_intern_locked, reason_lookup_locked. fold r. rewrite R1.
  destruct (index_of (rg_known rg) r) as [i|] eqn:Ei; cbn [fmap option_fmap option_map].
  - pose proof (reason_index_some _ _ _ Ei) as Hi. destruct (known_bit _ _ _ R2 Hi) as [Hb ->]. rewrite (bool_decide_eq_true_2 (r ∈ rg_known rg)) by (by eapply list_elem_of_lookup_2).
    cbn [negb andb is_ok]. rewrite (core_tests _ _ _ _ _ Hcore Hi). case_bool_decide as Hin; [by apply agrees_still|]. rewrite Ei. cbn [default from_option id].
    apply (commit_ok rg lc); try done. by apply core_assert.
  - pose proof (proj1 (index_of_none _ _) Ei) as Hnew. rewrite (bool_decide_eq_false_2 (r ∈ rg_known rg)) by done. cbn [negb andb].
    destruct (Nat.leb_spec max_reasons (length (rg_known rg))) as [Hfull|Hroom]; [by apply agrees_still|]. cbn [is_ok negb].
    assert (Er : copy_truncated reason_max r = r) by apply copy_truncated_idem. rewrite Er. rewrite u8_small by lia.
    assert (Hk : known_ok (rg_known rg ++ [r])).
    { destruct R2 as [K1 K2 K3]. split; [|rewrite length_app; cbn; lia|apply Forall_app; split; [done|]; by constructor].
      apply NoDup_app. split; [done|]. split; [|apply NoDup_singleton]. intros x Hx ->%list_elem_of_singleton. done. }
    assert (Hi : (rg_known rg ++ [r]) !! length (rg_known rg) = Some r) by (by rewrite lookup_app_r, Nat.sub_diag by lia).
    pose proof (core_extend _ _ _ r Hcore Hnew) as Hcore'. rewrite (core_tests _ _ _ _ _ Hcore' Hi). rewrite bool_decide_eq_false_2 by (intros Hx; by apply Hnew, (sc_known _ _ _ Hcore)).
    rewrite index_of_snoc by done. cbn [default from_option id]. apply (commit_ok rg lc); try done.
    + eapply Forall2_impl; [exact R3|]. intros a' s' [Hc' Hv']. split; [by apply core_extend|done].
    + by apply core_assert.
Qed.
Lemma clear_ok rg lc lk svc r w : rep rg lc -> agrees lc w (bb_lifecycle_pause_clear reason_max async_notify lk svc r lc w) (aclear reason_max lk svc r rg).
Proof.
  intros Hr. unfold bb_lifecycle_pause_clear, aclear. destruct r as [reason|]; [|by apply agrees_still]. destruct (is_ok lk) eqn:El; cbn [negb]; [|by apply agrees_still].
  pose proof (find_aget rg lc svc Hr) as H. destruct (find_svc lc svc) as [s|], (aget rg svc) as [a|]; try done; try by apply agrees_still. destruct H as (Hs & H1 & H2 & H3).
  pose proof Hr as [R1 R2 R3]. pose proof Hs as [Hcore Hver]. set (r := copy_truncated reason_max reason). unfold reason_lookup_locked. rewrite R1.
  destruct (index_of (rg_known rg) r) as [i|] eqn:Ei; cbn [fmap option_fmap option_map].
  - pose proof (reason_index_some _ _ _ Ei) as Hi. destruct (known_bit _ _ _ R2 Hi) as [Hb ->]. rewrite (core_tests _ _ _ _ _ Hcore Hi). case_bool_decide as Hin; cbn [negb]; [|by apply agrees_still].
    cbn [default from_option id]. apply (commit_ok rg lc); try done. by apply core_clear.
  - pose proof (proj1 (index_of_none _ _) Ei) as Hnew. rewrite bool_decide_eq_false_2 by (intros Hx; by apply Hnew, (sc_known _ _ _ Hcore)). by apply agrees_still.
Qed.
Lemma names_same rg lc : rep rg lc -> map sv_name (lc_services lc) = map as_name (rg_services rg).
Proof. intros [_ _ H]. induction H as [|a s la ls [[E _ _ _ _] _] _ IH]; cbn; [done|]. by rewrite E, IH. Qed.
Lemma register_ok rg lc lk cfg out_ok : rep rg lc ->
  let '(e, h, lc1) := bb_lifecycle_register max_services max_reasons name_max lk cfg out_ok lc in
  let '(e', h', rg1) := aregister max_services name_max lk cfg out_ok rg in
  e = e' /\ h = h' /\ rep rg1 lc1 /\ same_ears lc lc1.
Proof.
  intros Hr. unfold bb_lifecycle_register, aregister. destruct cfg as [[cname|]|]; try done. destruct out_ok; cbn [negb]; [|done]. destruct (is_ok lk); cbn [negb]; [|done].
  set (name := copy_truncated name_max cname). pose proof (names_same _ _ Hr) as En. pose proof Hr as [R1 R2 R3]. pose proof (Forall2_length _ _ _ R3) as Hl.
  assert (Hex : existsb (fun s => bool_decide (sv_name s = name)) (lc_services lc) = bool_decide (name ∈ map as_name (rg_services rg))).
  { rewrite <- En. apply eq_true_iff_eq. rewrite bool_decide_eq_true, existsb_exists. rewrite list_elem_of_fmap. split.
    - intros (s & Hs & ?%bool_decide_eq_true). exists s. split; [done|]. by apply list_elem_of_In.
    - intros (s & -> & Hs). exists s. split; [by apply list_elem_of_In|]. by apply bool_decide_eq_true. }
  rewrite Hex. destruct (bool_decide (name ∈ _)); [done|]. rewrite Hl. destruct (_ <=? _)%nat; [done|]. split; [done|]. split; [done|]. split; [|done].
  split; cbn [set_services lc_reasons lc_services rg_known rg_services]; try done. apply Forall2_app; [done|]. constructor; [|done]. destruct (words_zero nwords) as [Z1 Z2].
  assert (Er : copy_truncated name_max name = name) by apply copy_truncated_idem. rewrite Er.
  split; [|done]. split; cbn [sv_name sv_started sv_inhibits as_name as_on as_why]; try done.
  - split; [done|apply repeat_length].
  - intros b Hb. rewrite Z2 by done. destruct (rg_known rg !! Z.to_nat b); [|done]. by rewrite bool_decide_eq_false_2 by apply not_elem_of_nil.
  - by intros r ?%not_elem_of_nil.
Qed.
Lemma call_ok rg lc lk op w : rep rg lc ->
  let '(r, (lc1, w1)) := lc_call max_services max_reasons name_max reason_max async_notify lk op (lc, w) in
  let '(r', rg1, evs) := spec_call max_services max_reasons name_max reason_max lk op rg in
  r = r' /\ rep rg1 lc1 /\ same_ears lc lc1 /\ w1 = heard lc evs w.
Proof.
  intros Hr. pose proof Hr as [R1 R2 R3].
  assert (Hget : forall svc, match find_svc lc svc, aget rg svc with
    | Some s, Some a => sv_name s = as_name a /\ state_of s = astate a /\ sv_version s = u32 (as_changes a) | None, None => True | _, _ => False end).
  { intros svc. pose proof (find_aget rg lc svc Hr) as H. destruct (find_svc lc svc), (aget rg svc); try done. destruct H as ([H Hv] & _). split_and!; [apply H|by apply (core_state _ _ _ H)|done]. }
  destruct op as [cfg out_ok|[n|] []|svc|svc|svc|svc r|svc r|svc|svc|svc| |bit|[[svc [classify|]]|] id payload]; cbn [lc_call spec_call bb_lifecycle_find bb_lifecycle_emit_trampoline negb]; try (by split_and!).
  - pose proof (register_ok rg lc lk cfg out_ok Hr) as H. destruct (bb_lifecycle_register _ _ _ _ _ _ _) as [[e h] lc1], (aregister _ _ _ _ _ _) as [[e' h'] rg1]. destruct H as (-> & -> & H1 & H2). by split_and!.
  - rewrite (names_same _ _ Hr). destruct (is_ok lk); cbn [negb]; [|by split_and!]. by destruct (index_of _ _).
  - unfold bb_lifecycle_name. specialize (Hget svc). destruct (is_ok lk); cbn [negb]; [|by split_and!]. destruct (find_svc lc svc), (aget rg svc); try done. destruct Hget as (-> & _). by split_and!.
  - pose proof (start_ok rg lc lk svc w Hr) as H. destruct (bb_lifecycle_start _ _ _ _ _) as [[e lc1] w1], (astart _ _ _) as [[e' rg1] evs]. destruct H as (-> & H1 & H2 & H3). by split_and!.
  - pose proof (stop_ok rg lc lk svc w Hr) as H. destruct (bb_lifecycle_stop _ _ _ _ _ _) as [[e lc1] w1], (astop _ _ _) as [[e' rg1] evs]. destruct H as (-> & H1 & H2 & H3). by split_and!.
  - pose proof (assert_ok rg lc lk svc r w Hr) as H. destruct (bb_lifecycle_pause_assert _ _ _ _ _ _ _ _) as [[e lc1] w1], (aassert _ _ _ _ _ _) as [[e' rg1] evs]. destruct H as (-> & H1 & H2 & H3). by split_and!.
  - pose proof (clear_ok rg lc lk svc r w Hr) as H. destruct (bb_lifecycle_pause_clear _ _ _ _ _ _ _) as [[e lc1] w1], (aclear _ _ _ _ _) as [[e' rg1] evs]. destruct H as (-> & H1 & H2 & H3). by split_and!.
  - unfold bb_lifecycle_state. specialize (Hget svc). destruct (is_ok lk); cbn [negb]; [|by split_and!]. destruct (find_svc lc svc), (aget rg svc); try done. destruct Hget as (_ & -> & _). by split_and!.
  - unfold bb_lifecycle_is_paused. specialize (Hget svc). destruct (is_ok lk); cbn [negb]; [|by split_and!]. destruct (find_svc lc svc), (aget rg svc) as [a|]; try done. destruct Hget as (_ & -> & _).
    split; [|by split_and!]. f_equal. unfold astate. destruct (as_on a), (as_why a); reflexivity.
  - unfold bb_lifecycle_version. specialize (Hget svc). destruct (find_svc lc svc), (aget rg svc); try done. destruct Hget as (_ & _ & ->). by split_and!.
  - unfold bb_lifecycle_count. rewrite (Forall2_length _ _ _ R3). by split_and!.
  - unfold bb_lifecycle_reason_name. rewrite R1. split; [|by split_and!]. f_equal. pose proof (ko_len _ R2). destruct (Z.leb_spec (Z.of_nat max_reasons) bit).
    + destruct (is_ok lk); [|done]. by rewrite lookup_ge_None_2 by lia.
    + destruct (is_ok lk); cbn [negb]; [|done]. destruct (Z.ltb_spec bit (Z.of_nat (length (rg_known rg)))); [by rewrite nth_lookup|]. by rewrite lookup_ge_None_2 by lia.
  - destruct (classify (u32 id) payload); [by split_and!|..].
    + pose proof (start_ok rg lc lk svc w Hr) as H. destruct (bb_lifecycle_start _ _ _ _ _) as [[e lc1] w1], (astart _ _ _) as [[e' rg1] evs]. destruct H as (-> & H1 & H2 & H3). by split_and!.
    + pose proof (stop_ok rg lc lk svc w Hr) as H. destruct (bb_lifecycle_stop _ _ _ _ _ _) as [[e lc1] w1], (astop _ _ _) as [[e' rg1] evs]. destruct H as (-> & H1 & H2 & H3). by split_and!.
Qed.
Lemma calls_ok ops : forall rg lc w, rep rg lc ->
  let '(rs, (lc1, w1)) := lc_calls max_services max_reasons name_max reason_max async_notify ops (lc, w) in
  let '(rs', rg1, evs) := spec_calls max_services max_reasons name_max reason_max ops rg in
  rs = rs' /\ rep rg1 lc1 /\ same_ears lc lc1 /\ w1 = heard lc evs w.
Proof.
  induction ops as [|[lk op] ops IH]; intros rg lc w Hr; cbn [lc_calls spec_calls]; [by split_and!|].
  pose proof (call_ok rg lc lk op w Hr) as H. destruct (lc_call _ _ _ _ _ _ _ _) as [r [lc1 w1]], (spec_call _ _ _ _ _ _ _) as [[r' rg1] evs]. destruct H as (-> & H1 & H2 & ->).
  specialize (IH rg1 lc1 (heard lc evs w) H1). destruct (lc_calls _ _ _ _ _ _ _) as [rs [lc2 w2]], (spec_calls _ _ _ _ _ _) as [[rs' rg2] evs']. destruct IH as (-> & H3 & H4 & ->).
  split; [done|]. split; [done|]. split; [destruct H2, H4; split; congruence|]. unfold heard. rewrite fold_left_app. revert H2. generalize (fold_left (fun w e => notify_all async_notify lc e w) evs w). clear. intros x H2. revert x.
  induction evs' as [|e evs' IH]; intros x; cbn [fold_left]; [done|]. rewrite (notify_same lc lc1 e x H2). apply IH.
Qed.
End Refine.

(** ** The events of one service form a chain *)

(** The state and the number of changes a listener works out from the events of
    a service; [None]: an event does not fit. *)
Definition follow1 (svc : Z) (x : option (lifecycle_state * Z)) (e : event) : option (lifecycle_state * Z) :=
  if negb (ev_svc e =? svc) then x else
  match x with
  | Some (st, n) => if bool_decide (ev_old e = st) && (ev_version e =? u32 (n + 1)) then Some (ev_new e, n + 1) else None
  | None => None
  end.
Definition follow (svc : Z) (evs : list event) : option (lifecycle_state * Z) := fold_left (follow1 svc) evs (Some (BB_LIFECYCLE_STOPPED, 0)).
Definition look (rg : register) (svc : Z) : lifecycle_state * Z := match aget rg svc with Some a => (astate a, as_changes a) | None => (BB_LIFECYCLE_STOPPED, 0) end.

Lemma change_followed svc a a1 reason known rg svc' : aget rg svc = Some a ->
  let '(_, rg1, evs) := achange svc a a1 reason known rg in fold_left (follow1 svc') evs (Some (look rg svc')) = Some (look rg1 svc').
Proof.
  intros Ha. unfold achange. cbn [fold_left]. unfold follow1. cbn [ev_svc ev_old ev_version ev_new]. pose proof Ha as Ha'. unfold aget in Ha'. destruct (Z.ltb_spec svc 0); [done|].
  pose proof (lookup_lt_Some _ _ _ Ha') as Hlt. destruct (Z.eqb_spec svc svc') as [<-|Hne]; cbn [negb].
  - unfold look at 1. rewrite Ha. rewrite bool_decide_eq_true_2, Z.eqb_refl by done. cbn [andb]. unfold look, aget. destruct (Z.ltb_spec svc 0); [lia|]. cbn [rg_services].
    rewrite list_lookup_insert_eq by done. done.
  - f_equal. unfold look, aget. destruct (Z.ltb_spec svc' 0); [done|]. cbn [rg_services]. by rewrite list_lookup_insert_ne by lia.
Qed.
Lemma call_followed ms mr nm rm lk op rg svc :
  let '(_, rg1, evs) := spec_call ms mr nm rm lk op rg in fold_left (follow1 svc) evs (Some (look rg svc)) = Some (look rg1 svc).
Proof.
  assert (Hstart : forall s, let '(_, rg1, evs) := astart lk s rg in fold_left (follow1 svc) evs (Some (look rg svc)) = Some (look rg1 svc)).
  { intros s. unfold astart. destruct (is_ok lk); cbn [negb]; [|done]. destruct (aget rg s) as [a|] eqn:E; [|done]. destruct (as_on a); [done|]. by apply change_followed. }
  assert (Hstop : forall s, let '(_, rg1, evs) := astop lk s rg in fold_left (follow1 svc) evs (Some (look rg svc)) = Some (look rg1 svc)).
  { intros s. unfold astop. destruct (is_ok lk); cbn [negb]; [|done]. destruct (aget rg s) as [a|] eqn:E; [|done]. destruct (as_on a); [|done]. by apply change_followed. }
  destruct op as [cfg out_ok|[n|] []|s|s|s|s r|s r|s|s|s| |bit|[[s [classify|]]|] id payload]; cbn [spec_call]; try done.
  - destruct (aregister ms nm lk cfg out_ok rg) as [[e h] rg1] eqn:E. cbn [fold_left]. f_equal. unfold aregister in E. destruct cfg as [[cname|]|]; try by injection E as <- <- <-.
    destruct out_ok; cbn [negb] in E; [|by injection E as <- <- <-]. destruct (is_ok lk); cbn [negb] in E; [|by injection E as <- <- <-].
    destruct (bool_decide _); [by injection E as <- <- <-|]. destruct (_ <=? _)%nat; [by injection E as <- <- <-|]. injection E as <- <- <-.
    unfold look, aget. destruct (svc <? 0); [done|]. cbn [rg_services]. destruct (rg_services rg !! Z.to_nat svc) as [a|] eqn:Ea; [by rewrite (lookup_app_l_Some _ _ _ _ Ea)|].
    apply lookup_ge_None in Ea. rewrite lookup_app_r by done. destruct (_ - _)%nat as [|k]; done.
  - destruct (is_ok lk); cbn [negb]; [|done]. by destruct (index_of _ _).
  - specialize (Hstart s). by destruct (astart lk s rg) as [[e rg1] evs].
  - specialize (Hstop s). by destruct (astop lk s rg) as [[e rg1] evs].
  - unfold aassert. destruct r as [reason|]; [|done]. destruct (is_ok lk); cbn [negb]; [|done]. destruct (aget rg s) as [a|] eqn:E; [|done].
    destruct (negb _ && _); [done|]. destruct (bool_decide (_ ∈ as_why a)); [done|]. pose proof (change_followed s a) as H. cbn [achange] in *. by apply H.
  - unfold aclear. destruct r as [reason|]; [|done]. destruct (is_ok lk); cbn [negb]; [|done]. destruct (aget rg s) as [a|] eqn:E; [|done].
    destruct (bool_decide (_ ∈ as_why a)); [|done]. pose proof (change_followed s a) as H. cbn [achange] in *. by apply H.
  - specialize (Hstart s). specialize (Hstop s). destruct (classify (u32 id) payload); [done|..]; [by destruct (astart lk s rg) as [[e rg1] evs]|by destruct (astop lk s rg) as [[e rg1] evs]].
Qed.
Lemma calls_followed ms mr nm rm svc ops : forall rg,
  let '(_, rg1, evs) := spec_calls ms mr nm rm ops rg in fold_left (follow1 svc) evs (Some (look rg svc)) = Some (look rg1 svc).
Proof.
  induction ops as [|[lk op] ops IH]; intros rg; cbn [spec_calls]; [done|]. pose proof (call_followed ms mr nm rm lk op rg svc) as H.
  destruct (spec_call _ _ _ _ _ _ _) as [[r rg1] evs]. specialize (IH rg1). destruct (spec_calls _ _ _ _ _ _) as [[rs rg2] evs']. rewrite fold_left_app, H. exact IH.
Qed.

(** * Properties *)

(** C23: services, reasons and notifications.  Whatever is called in whatever
    order, by name, handle or emit binding, and however often the lock cannot be
    had: the answers are those of a table where each service has a set of reason
    strings that hold it paused (cut to the buffer's length; at most
    CONFIG_BB_LIFECYCLE_MAX_REASONS different ones overall), where starting,
    stopping, asserting and clearing twice does nothing the second time, and
    stopping forgets all reasons; every listener hears exactly the changes of
    that table, in order; and from the events of one service alone it works out
    the service's state and version, each event taking up where the last one
    ended. *)
Theorem lifecycle_reasons_are_sets ms mr nm rm {W} (async_notify : event -> W -> W) lc0 w0 ops :
  (1 <= mr <= 255)%nat -> lc_services lc0 = [] -> lc_reasons lc0 = [] ->
  let '(rs, (lc, w)) := lc_calls ms mr nm rm async_notify ops (lc0, w0) in
  let '(rs', _, evs) := spec_calls ms mr nm rm ops (mk_register [] []) in
  rs = rs' /\ w = fold_left (fun w e => notify_all async_notify lc0 e w) evs w0 /\
  forall svc, exists n, follow svc evs = Some (bb_lifecycle_state BB_OK svc lc, n) /\ bb_lifecycle_version svc lc = u32 n.
Proof.
  intros Hmr Hs Hk.
  assert (Hrep : rep mr rm (mk_register [] []) lc0).
  { split; [done| |rewrite Hs; constructor]. split; [constructor|cbn; lia|constructor]. }
  pose proof (calls_ok ms mr nm rm Hmr async_notify ops _ lc0 w0 Hrep) as H. pose proof (fun svc => calls_followed ms mr nm rm svc ops (mk_register [] [])) as Hf.
  destruct (lc_calls _ _ _ _ _ _ _) as [rs [lc w]], (spec_calls _ _ _ _ _ _) as [[rs' rg] evs]. destruct H as (-> & Hr & _ & ->). split; [done|]. split; [done|].
  intros svc. specialize (Hf svc). unfold look in Hf at 1. assert (E : aget (mk_register [] []) svc = None) by (unfold aget; by destruct (svc <? 0)). rewrite E in Hf. unfold follow. rewrite Hf.
  exists (look rg svc).2. unfold bb_lifecycle_state, bb_lifecycle_version. cbn [is_ok negb]. pose proof (find_aget mr rm Hmr rg lc svc Hr) as Hg. unfold look.
  destruct (find_svc lc svc), (aget rg svc); try done. destruct Hg as ([Hc Hv] & _). by rewrite (core_state mr Hmr _ _ _ Hc).
Qed.

(** * A concrete case *)

(** One observer that keeps the events, and an emit sink that keeps the ids. *)
Definition case_lc : lifecycle (list (Z * lifecycle_state) * list Z) :=
  mk_lifecycle [] [] [mk_observer (fun e w => ((ev_version e, ev_new e) :: w.1, w.2)) false; mk_observer (fun e w => ([], [])) true] (Some (fun id _ w => (w.1, id :: w.2))).
Definition case_ops : list (bb_err * lc_op) :=
  [(BB_OK, LRegister (Some (Some (bs "net"))) true); (BB_OK, LRegister (Some (Some (bs "net"))) true); (BB_OK, LStart 0); (BB_OK, LStart 0);
   (BB_OK, LAssert 0 (Some (bs "ota"))); (BB_OK, LAssert 0 (Some (bs "heat"))); (BB_OK, LClear 0 (Some (bs "ota"))); (BB_OK, LPaused 0);
   (BB_ERR_NO_MEM, LStop 0); (BB_OK, LEmit (Some (mk_binding 0 (Some (fun id _ => if id =? 7 then BB_LIFECYCLE_ACTION_STOP else BB_LIFECYCLE_ACTION_NONE)))) 7 []);
   (BB_OK, LVersion 0); (BB_OK, LReason 1)].
Lemma lifecycle_reasons_are_sets_witness :
  match lc_calls 2 32 24 24 (fun _ w => w) case_ops (case_lc, ([], [])) with
  | (rs, (_, w)) =>
      rs = [LHandle BB_OK (Some 0); LHandle BB_ERR_CONFLICT None; LErr BB_OK; LErr BB_OK; LErr BB_OK; LErr BB_OK; LErr BB_OK; LBool true;
            LErr BB_ERR_NO_MEM; LUnit; LNum 5; LText (bs "heat")] /\
      w = ([(5, BB_LIFECYCLE_STOPPED); (4, BB_LIFECYCLE_PAUSED); (3, BB_LIFECYCLE_PAUSED); (2, BB_LIFECYCLE_PAUSED); (1, BB_LIFECYCLE_RUNNING)], [0; 0; 0; 0; 0])
  end.
Proof.
  pose proof (lifecycle_reasons_are_sets 2 32 24 24 (fun _ w => w) case_lc ([], []) case_ops ltac:(lia) eq_refl eq_refl) as H.
  destruct (lc_calls 2 32 24 24 (fun _ w => w) case_ops (case_lc, ([], []))) as [rs [lc w]].
  assert (Es : exists rg evs, spec_calls 2 32 24 24 case_ops (mk_register [] []) =
    ([LHandle BB_OK (Some 0); LHandle BB_ERR_CONFLICT None; LErr BB_OK; LErr BB_OK; LErr BB_OK; LErr BB_OK; LErr BB_OK; LBool true;
      LErr BB_ERR_NO_MEM; LUnit; LNum 5; LText (bs "heat")], rg, evs) /\
    fold_left (fun w e => notify_all (fun _ w => w) case_lc e w) evs ([], []) =
      ([(5, BB_LIFECYCLE_STOPPED); (4, BB_LIFECYCLE_PAUSED); (3, BB_LIFECYCLE_PAUSED); (2, BB_LIFECYCLE_PAUSED); (1, BB_LIFECYCLE_RUNNING)], [0; 0; 0; 0; 0]))
    by (eexists _, _; split; vm_compute; reflexivity).
  destruct Es as (rg & evs & E1 & E2). rewrite E1 in H. destruct H as (-> & -> & _). split; [reflexivity|exact E2].
Defined.

(** * Asynchronous observers (bb_lifecycle_async.c) *)

(** The event as it lies in memory: 16 bytes. *)
Definition state_code (s : lifecycle_state) : Z := match s with BB_LIFECYCLE_STOPPED => 0 | BB_LIFECYCLE_PAUSED => 1 | BB_LIFECYCLE_RUNNING => 2 end.
Definition state_of_code (z : Z) : lifecycle_state := if z =? 0 then BB_LIFECYCLE_STOPPED else if z =? 1 then BB_LIFECYCLE_PAUSED else BB_LIFECYCLE_RUNNING.
Definition sizeof_event : Z := 16.
Definition event_bytes (e : event) : list byte :=
  le_bytes 4 (u32 (ev_svc e)) ++ le_bytes 4 (ev_inhibits e) ++ le_bytes 4 (ev_version e) ++ le_bytes 1 (state_code (ev_old e)) ++
  le_bytes 1 (state_code (ev_new e)) ++ le_bytes 1 (ev_reason e) ++ [x00].
Definition bytes_event (l : list byte) : event :=
  let num i n := le_value (take n (drop i l)) in
  mk_event (to_signed 32 (num 0%nat 4%nat)) (num 4%nat 4%nat) (num 8%nat 4%nat) (state_of_code (num 12%nat 1%nat)) (state_of_code (num 13%nat 1%nat)) (num 14%nat 1%nat).

(** The state behind the asynchronous observers, the pool of queues, and the
    world [aw_user] the observers act on. *)
Record async_world (X : Type) := mk_aw {
  aw_ready : bool; aw_q : option nat; aw_err : bb_err; aw_drop_last : Z; aw_pool : list BQueue.inst; aw_user : X
}.
Arguments mk_aw {X}. Arguments aw_ready {X}. Arguments aw_q {X}. Arguments aw_err {X}. Arguments aw_drop_last {X}. Arguments aw_pool {X}. Arguments aw_user {X}.
Definition BB_LIFECYCLE_ASYNC_DROP_LOG_INTERVAL_MS : Z := 5000.
Definition BB_LIFECYCLE_ASYNC_DROP_LOG_UNSET : Z := -1.

Section Async.
(** The depth of the queue, and the bounds of bb_bqueue. *)
Context (depth max_capacity max_item_bytes : Z).
Context {X : Type}.
Abbreviation aw_t := (async_world X).
Definition set_pool (pool : list BQueue.inst) (aw : aw_t) : aw_t := mk_aw (aw_ready aw) (aw_q aw) (aw_err aw) (aw_drop_last aw) pool (aw_user aw).
(** What an observer does, in the larger world. *)
Definition on_user (cb : event -> X -> X) (e : event) (aw : aw_t) : aw_t :=
  mk_aw (aw_ready aw) (aw_q aw) (aw_err aw) (aw_drop_last aw) (aw_pool aw) (cb e (aw_user aw)).

(** [task_rc]: what bb_task_create answers. *)
Definition async_init (task_rc : bb_err) (aw : aw_t) : aw_t :=
  match BQueue.bb_bqueue_create max_capacity max_item_bytes (Some (BQueue.mk_bcfg depth sizeof_event)) true (aw_pool aw) with
  | (BB_OK, h, pool) =>
      if negb (is_ok task_rc)
      then mk_aw (aw_ready aw) None task_rc (aw_drop_last aw) (BQueue.bb_bqueue_destroy max_capacity max_item_bytes h pool) (aw_user aw)
      else mk_aw (aw_ready aw) h BB_OK (aw_drop_last aw) pool (aw_user aw)
  | (err, _, pool) => mk_aw (aw_ready aw) (aw_q aw) err (aw_drop_last aw) pool (aw_user aw)
  end.
Definition ensure_async_started (lk task_rc : bb_err) (aw : aw_t) : bb_err * aw_t :=
  if negb (is_ok lk) then (lk, aw) else
  if aw_ready aw then (BB_OK, aw) else
  let aw1 := async_init task_rc aw in
  (aw_err aw1, if is_ok (aw_err aw1) then mk_aw true (aw_q aw1) (aw_err aw1) (aw_drop_last aw1) (aw_pool aw1) (aw_user aw1) else aw1).
Definition bb_lifecycle_observe_async (max_observers : nat) (lk async_lk task_rc : bb_err) (cb : option (event -> aw_t -> aw_t)) (lc : lifecycle aw_t) (aw : aw_t)
  : bb_err * lifecycle aw_t * aw_t :=
  match cb with
  | None => (BB_ERR_INVALID_ARG, lc, aw)
  | Some _ =>
      let '(err, aw1) := ensure_async_started async_lk task_rc aw in
      if negb (is_ok err) then (err, lc, aw1) else
      let '(err, lc1) := bb_lifecycle_priv_observe_slot max_observers lk cb true lc in (err, lc1, aw1)
  end.

(** A queue call by one thread; [None]: it waits. *)
Definition queue_call (c : BQueue.call) (now_us : Z) (aw : aw_t) : option (BQueue.result * aw_t) :=
  match aw_q aw, BQueue.inst_from_handle (aw_pool aw) (aw_q aw) with
  | Some i, Some q =>
      match BQueue.enter c q now_us now_us with
      | BQueue.leaves r q1 _ => Some (r, set_pool (<[i := q1]> (aw_pool aw)) aw)
      | BQueue.waits _ => None
      end
  | _, _ => Some (BQueue.RErr BB_ERR_INVALID_ARG, aw)
  end.
(** Whether a drop is logged; the new time stamp. *)
Definition drop_log (now32 last : Z) : bool * Z :=
  let expired := (last =? BB_LIFECYCLE_ASYNC_DROP_LOG_UNSET) || (BB_LIFECYCLE_ASYNC_DROP_LOG_INTERVAL_MS <=? u32 (now32 - u32 last)) in
  (expired, if expired then now32 else last).
Definition bb_lifecycle_priv_async_notify (now_us now32 : Z) (evt : event) (aw : aw_t) : aw_t :=
  match queue_call (BQueue.bb_bqueue_send (Some (event_bytes evt)) 0) now_us aw with
  | None => aw
  | Some (BQueue.RErr BB_OK, aw1) => aw1
  | Some (_, aw1) => mk_aw (aw_ready aw1) (aw_q aw1) (aw_err aw1) (drop_log now32 (aw_drop_last aw1)).2 (aw_pool aw1) (aw_user aw1)
  end.
(** [None]: the task waits. *)
Definition drain_once (timeout_ms now_us : Z) (lc : lifecycle aw_t) (aw : aw_t) : option (bb_err * aw_t) :=
  match queue_call (BQueue.bb_bqueue_receive true timeout_ms) now_us aw with
  | None => None
  | Some (BQueue.RItem it, aw1) => Some (BB_OK, bb_lifecycle_priv_invoke_async_slots lc (bytes_event it) aw1)
  | Some (BQueue.RErr e, aw1) => Some (e, aw1)
  | Some (BQueue.RSize _, aw1) => Some (BB_OK, aw1)
  end.

(** ** Histories *)

Inductive async_op : Set := ANotify (e : event) (now_us now32 : Z) | ADrain (timeout_ms now_us : Z).
Definition async_step (lc : lifecycle aw_t) (aw : aw_t) (op : async_op) : aw_t :=
  match op with
  | ANotify e now_us now32 => bb_lifecycle_priv_async_notify now_us now32 e aw
  | ADrain timeout_ms now_us => match drain_once timeout_ms now_us lc aw with Some (_, aw1) => aw1 | None => aw end
  end.
End Async.

(** A bounded list of events, and those taken from it. *)
Definition async_spec_step (room : Z) (x : list event * list event) (op : async_op) : list event * list event :=
  let '(waiting, heard) := x in
  match op with
  | ANotify e _ _ => if Z.of_nat (length waiting) <? room then (waiting ++ [e], heard) else x
  | ADrain _ _ => match waiting with [] => x | e :: rest => (rest, heard ++ [e]) end
  end.

Definition event_sane (e : event) : Prop :=
  - 2 ^ 31 <= ev_svc e < 2 ^ 31 /\ 0 <= ev_inhibits e < 2 ^ 32 /\ 0 <= ev_version e < 2 ^ 32 /\ 0 <= ev_reason e < 2 ^ 8.
Lemma take_le_app n v l : take n (le_bytes n v ++ l) = le_bytes n v.
Proof. by rewrite take_app_length' by (by rewrite le_bytes_length). Qed.
Lemma drop_le_app n v l k : drop (n + k) (le_bytes n v ++ l) = drop k l.
Proof. rewrite <- drop_drop. by rewrite drop_app_length' by (by rewrite le_bytes_length). Qed.
Lemma event_bytes_length e : length (event_bytes e) = 16%nat.
Proof. unfold event_bytes. rewrite !length_app, !le_bytes_length. done. Qed.
Lemma event_roundtrip e : event_sane e -> bytes_event (event_bytes e) = e.
Proof.
  intros (H1 & H2 & H3 & H4). destruct e as [svc inh ver old new reason]. cbn [ev_svc ev_inhibits ev_version ev_reason] in *. unfold bytes_event, event_bytes.
  cbn [ev_svc ev_inhibits ev_version ev_old ev_new ev_reason]. pose proof (u32_range svc). rewrite drop_0.
  change 14%nat with (4 + (4 + (4 + (1 + (1 + 0)))))%nat. change 13%nat with (4 + (4 + (4 + (1 + 0))))%nat. change 12%nat with (4 + (4 + (4 + 0)))%nat. change 8%nat with (4 + (4 + 0))%nat.
  change (drop 4%nat) with (@drop byte (4 + 0)%nat). rewrite !drop_le_app, !drop_0, !take_le_app, !le_value_bytes by (try (destruct old; cbn; lia); try (destruct new; cbn; lia); lia).
  f_equal; [|by destruct old|by destruct new]. unfold to_signed. change (2 ^ (32 - 1)) with (2 ^ 31). unfold u32 in *.
  destruct (Z.leb_spec 0 svc).
  - rewrite Z.mod_small by lia. destruct (Z.ltb_spec svc (2 ^ 31)); lia.
  - rewrite <- (Z_mod_plus_full svc 1), Z.mod_small by lia. destruct (Z.ltb_spec (svc + 1 * 2 ^ 32) (2 ^ 31)); lia.
Qed.

Definition async_op_sane (op : async_op) : Prop :=
  match op with
  | ANotify e now_us _ => event_sane e /\ 0 <= now_us < 2 ^ 63
  | ADrain timeout_ms now_us => 0 <= timeout_ms <= BQueue.BB_BQUEUE_WAIT_FOREVER /\ 0 <= now_us < 2 ^ 63
  end.
(** The callbacks that asked for events asynchronously, in order. *)
Definition hears {X} (cbs : list ((event -> X -> X) * bool)) (e : event) (x : X) : X := fold_left (fun x cb => if cb.2 : bool then cb.1 e x else x) cbs x.
Definition observers_of {X} (cbs : list ((event -> X -> X) * bool)) : list (observer (async_world X)) := map (fun cb => mk_observer (on_user cb.1) cb.2) cbs.

Section AsyncProofs.
Context (depth max_capacity max_item_bytes : Z) (Hdepth : 1 <= depth <= max_capacity) (Hcap : max_capacity < 2 ^ 32) (Hitem : sizeof_event <= max_item_bytes).
Context {X : Type} (cbs : list ((event -> X -> X) * bool)) (lc : lifecycle (async_world X)) (Hlc : lc_observers lc = observers_of cbs).
Definition async_room : Z := if depth =? 1 then 0 else depth.

Record async_rep (x0 : X) (s : list event * list event) (aw : async_world X) : Prop := {
  ar_queue : exists i q a, aw_q aw = Some i /\ aw_pool aw !! i = Some q /\ BQueue.holds depth sizeof_event a q /\ BQueue.held a = map event_bytes s.1;
  ar_sane : Forall event_sane s.1;
  ar_room : Z.of_nat (length s.1) <= async_room;
  ar_user : aw_user aw = fold_left (fun x e => hears cbs e x) s.2 x0
}.

Lemma invoke_user e aw : bb_lifecycle_priv_invoke_async_slots lc e aw =
  mk_aw (aw_ready aw) (aw_q aw) (aw_err aw) (aw_drop_last aw) (aw_pool aw) (hears cbs e (aw_user aw)).
Proof.
  unfold bb_lifecycle_priv_invoke_async_slots, hears. rewrite Hlc. unfold observers_of. clear Hlc. revert aw. induction cbs as [|[cb []] l IH]; intros aw; cbn [map fold_left fst snd ob_async ob_cb].
  - by destruct aw.
  - rewrite IH. done.
  - apply IH.
Qed.
(** What enters the queue of a created instance. *)
Lemma queue_call_enter c now (aw : async_world X) i q : aw_q aw = Some i -> aw_pool aw !! i = Some q -> BQueue.in_use q = true ->
  queue_call c now aw = match BQueue.enter c q now now with
                        | BQueue.leaves r q1 _ => Some (r, set_pool (<[i := q1]> (aw_pool aw)) aw) | BQueue.waits _ => None end.
Proof. intros H1 H2 H3. unfold queue_call, BQueue.inst_from_handle. by rewrite H1, H2, H3. Qed.
Lemma same_pool i q (aw : async_world X) : aw_pool aw !! i = Some q -> set_pool (<[i := q]> (aw_pool aw)) aw = aw.
Proof. intros H. unfold set_pool. rewrite list_insert_id by done. by destruct aw. Qed.

Lemma room_cases : async_room = if depth =? 1 then 0 else depth.
Proof. done. Qed.
Lemma notify_rep x0 s aw e now_us now32 : async_rep x0 s aw -> event_sane e ->
  async_rep x0 (async_spec_step async_room s (ANotify e now_us now32)) (bb_lifecycle_priv_async_notify now_us now32 e aw).
Proof.
  intros [(i & q & a & A1 & A2 & A3 & A4) B C D] He. destruct s as [waiting hd]. cbn [fst snd] in *. pose proof A3 as [Q1 Q2 Q3 Q4 Q5 [Q6 Q6'] Q7 Q8].
  rewrite A4, length_map in Q6. unfold bb_lifecycle_priv_async_notify. rewrite (queue_call_enter _ _ _ i q A1 A2 Q1). cbn [BQueue.enter async_spec_step]. rewrite Q1, Q2. cbn [negb].
  pose proof room_cases as ER. destruct (Z.eqb_spec depth 1) as [E1|E1]; rewrite ER in C |- *.
  - cbn [BQueue.refuse]. destruct (Z.ltb_spec (Z.of_nat (length waiting)) 0); [lia|]. rewrite (same_pool i q aw A2). change (async_rep x0 (waiting, hd) (mk_aw (aw_ready aw) (aw_q aw) (aw_err aw) (drop_log now32 (aw_drop_last aw)).2 (aw_pool aw) (aw_user aw))).
    split; [by exists i, q, a|done|by rewrite ER|done].
  - unfold BQueue.bb_bqueue_wait_until. rewrite Q6. destruct (Z.eqb_spec (Z.of_nat (length waiting)) depth) as [Ef|Ef]; cbn [negb Z.eqb BQueue.after_wait]; unfold BQueue.send_rest; cbn [is_ok negb].
    + destruct (Z.ltb_spec (Z.of_nat (length waiting)) depth); [lia|]. split; cbn [aw_q aw_pool aw_user fst snd set_pool]; [|done|by rewrite ER|done].
      exists i, (BQueue.count_dropped q), (BQueue.mk_contents (BQueue.held a) (BQueue.lost a + 1)). split; [done|]. split; [by apply list_lookup_insert_eq, lookup_lt_Some in A2 || (rewrite list_lookup_insert_eq; [done|by eapply lookup_lt_Some])|].
      split; [by apply BQueue.dropped_holds|done].
    + destruct (Z.ltb_spec (Z.of_nat (length waiting)) depth); [|lia]. split; cbn [aw_q aw_pool aw_user fst snd set_pool].
      * eexists i, _, (BQueue.mk_contents (BQueue.held a ++ [event_bytes e]) (BQueue.lost a)). split; [done|]. split; [apply list_lookup_insert_eq; by eapply lookup_lt_Some|].
        split; [|cbn [BQueue.held]; by rewrite A4, map_app]. apply (BQueue.send_holds depth sizeof_event); try done; try lia; by rewrite event_bytes_length.
      * apply Forall_app. split; [done|]. by constructor.
      * rewrite ER, length_app. cbn [length]. lia.
      * done.
Qed.
Lemma drain_rep x0 s aw timeout_ms now_us : async_rep x0 s aw ->
  async_rep x0 (async_spec_step async_room s (ADrain timeout_ms now_us))
    (match drain_once timeout_ms now_us lc aw with Some (_, aw1) => aw1 | None => aw end).
Proof.
  intros [(i & q & a & A1 & A2 & A3 & A4) B C D]. destruct s as [waiting hd]. cbn [fst snd] in *. pose proof A3 as [Q1 Q2 Q3 Q4 Q5 [Q6 Q6'] Q7 Q8].
  rewrite A4, length_map in Q6. unfold drain_once. rewrite (queue_call_enter _ _ _ i q A1 A2 Q1). cbn [BQueue.enter async_spec_step]. rewrite Q1. cbn [negb orb].
  destruct waiting as [|e rest].
  - assert (Hsame : async_rep x0 ([], hd) aw) by (split; [by exists i, q, a|done..]). cbn [length] in Q6. unfold BQueue.bb_bqueue_wait_until, BQueue.wait_turn. rewrite Q6. change (Z.of_nat 0) with 0. cbn [Z.eqb negb].
    destruct (timeout_ms =? 0); [cbn [BQueue.after_wait is_ok negb]; unfold BQueue.receive_rest; cbn [is_ok negb]; by rewrite (same_pool i q aw A2)|]. destruct (timeout_ms =? BQueue.BB_BQUEUE_WAIT_FOREVER); [done|].
    destruct (BQueue.bb_bqueue_deadline_remaining_ms _ _); [done|]. cbn [BQueue.after_wait]. unfold BQueue.receive_rest. cbn [is_ok negb]. by rewrite (same_pool i q aw A2).
  - cbn [length map] in *. unfold BQueue.bb_bqueue_wait_until. destruct (Z.eqb_spec (BQueue.count q) 0); [lia|]. cbn [negb BQueue.after_wait]. unfold BQueue.receive_rest. cbn [is_ok negb].
    rewrite (BQueue.head_held depth sizeof_event a q (event_bytes e) (map event_bytes rest) A3 A4). inversion_clear B as [|? ? He Hrest].
    pose proof room_cases as ER. destruct (Z.eqb_spec depth 1) as [E1|E1]; rewrite ER in C; [lia|]. rewrite Q2. destruct (Z.eqb_spec depth 1); [done|]. rewrite invoke_user, (event_roundtrip e He). cbn [aw_ready aw_q aw_err aw_drop_last aw_pool aw_user set_pool].
    split; cbn [aw_q aw_pool aw_user fst snd].
    + eexists i, _, (BQueue.mk_contents (map event_bytes rest) (BQueue.lost a)). split; [done|]. split; [apply list_lookup_insert_eq; by eapply lookup_lt_Some|]. split; [|done].
      pose proof (BQueue.receive_holds depth sizeof_event ltac:(lia) a q (event_bytes e) (map event_bytes rest) ltac:(done) ltac:(done)) as Hr. rewrite Q2 in Hr. exact (Hr n0).
    + done.
    + rewrite ER. lia.
    + rewrite fold_left_app. cbn [fold_left]. by rewrite D.
Qed.
End AsyncProofs.
Lemma mailbox_hears_nothing ops : forall waiting heard, fold_left (async_spec_step 0) ops ([], []) = (waiting, heard) -> heard = [].
Proof.
  assert (H : fold_left (async_spec_step 0) ops ([], []) = ([], [])).
  { induction ops as [|[e now_us now32|timeout_ms now_us] ops IH]; cbn [fold_left async_spec_step]; done. }
  intros waiting heard E. rewrite H in E. by injection E as _ <-.
Qed.
Section AsyncStart.
Context (depth max_capacity max_item_bytes : Z) (Hdepth : 1 <= depth <= max_capacity) (Hcap : max_capacity < 2 ^ 32) (Hitem : sizeof_event <= max_item_bytes).
Context {X : Type} (cbs : list ((event -> X -> X) * bool)) (lc : lifecycle (async_world X)) (Hlc : lc_observers lc = observers_of cbs).
Lemma async_steps_rep x0 ops : Forall async_op_sane ops -> forall s aw, async_rep depth cbs x0 s aw ->
  async_rep depth cbs x0 (fold_left (async_spec_step (async_room depth)) ops s) (fold_left (async_step lc) ops aw).
Proof.
  induction 1 as [|op ops Hop Hops IH]; intros s aw Hs; cbn [fold_left]; [done|]. apply IH. destruct op as [e now_us now32|timeout_ms now_us]; cbn [async_op_sane async_step] in *.
  - apply (notify_rep depth max_capacity Hdepth Hcap cbs x0); [done|apply Hop].
  - by apply (drain_rep depth max_capacity Hdepth Hcap cbs lc Hlc x0).
Qed.
(** The first successful start leaves an empty queue of the configured depth. *)
Lemma started_rep aw0 aw : aw_ready aw0 = false -> ensure_async_started depth max_capacity max_item_bytes BB_OK BB_OK aw0 = (BB_OK, aw) ->
  async_rep depth cbs (aw_user aw0) ([], []) aw.
Proof.
  intros Hr H. unfold ensure_async_started in H. cbn [is_ok negb] in H. rewrite Hr in H. unfold async_init in H.
  destruct (BQueue.bb_bqueue_create _ _ _ _ _) as [[err h] pool] eqn:Ec. destruct err; cbn [is_ok negb aw_err] in H; try (by injection H; intros; congruence).
  injection H as <-. cbn [aw_q aw_pool]. pose proof Ec as Ec'. unfold BQueue.bb_bqueue_create in Ec'. cbn [negb] in Ec'.
  destruct (BQueue.bb_bqueue_validate_cfg _ _ _); try done. destruct (BQueue.first_unused _) as [idx|] eqn:Ei; [|done]. injection Ec' as <- _.
  pose proof (BQueue.first_unused_some _ _ Ei) as Hlt. destruct (lookup_lt_is_Some_2 pool idx) as [q Hq].
  { unfold BQueue.bb_bqueue_create in Ec. cbn [negb] in Ec. destruct (BQueue.bb_bqueue_validate_cfg _ _ _); try done. rewrite Ei in Ec. injection Ec as E'. rewrite <- E'. rewrite length_insert. exact Hlt. }
  destruct (BQueue.created_holds _ max_capacity max_item_bytes (BQueue.mk_bcfg depth sizeof_event) _ _ _ _ Hcap ltac:(cbn [BQueue.bc_capacity]; lia) ltac:(done) Ec Hq eq_refl) as (_ & _ & Hh).
  split; cbn [aw_q aw_pool aw_user fst snd]; [|constructor| |done].
  - exists idx, q, (BQueue.mk_contents [] 0). done.
  - cbn [length]. unfold async_room. destruct (depth =? 1); lia.
Qed.
End AsyncStart.

(** Asynchronous observers hear the events in order.  Once the queue and its
    task are started, each event goes to the waiting list or, when that is full,
    is dropped; each turn of the task that finds an event gives the oldest to
    the observers that asked for asynchronous delivery, in the order they
    registered, and to nobody else; the event arrives as it was sent, through
    its sixteen bytes in the queue.  With a depth of one, which the
    configuration allows, the queue is a mailbox that refuses a send: no
    event ever arrives. *)
Theorem lifecycle_async_in_order depth max_capacity max_item_bytes {X} (cbs : list ((event -> X -> X) * bool)) lc aw0 aw ops :
  1 <= depth <= max_capacity -> max_capacity < 2 ^ 32 -> sizeof_event <= max_item_bytes -> lc_observers lc = observers_of cbs ->
  aw_ready aw0 = false -> ensure_async_started depth max_capacity max_item_bytes BB_OK BB_OK aw0 = (BB_OK, aw) -> Forall async_op_sane ops ->
  let room := if depth =? 1 then 0 else depth in
  let '(waiting, heard) := fold_left (async_spec_step room) ops ([], []) in
  aw_user (fold_left (async_step lc) ops aw) = fold_left (fun x e => hears cbs e x) heard (aw_user aw0) /\
  (depth = 1 -> heard = []) /\ Z.of_nat (length waiting) <= room.
Proof.
  intros Hd Hc Hi Hlc Hr Hs Hops room. pose proof (started_rep depth max_capacity max_item_bytes Hd Hc cbs aw0 aw Hr Hs) as H0.
  pose proof (async_steps_rep depth max_capacity Hd Hc cbs lc Hlc (aw_user aw0) ops Hops _ _ H0) as [_ _ H1 H2]. change (async_room depth) with room in *.
  destruct (fold_left (async_spec_step room) ops ([], [])) as [waiting heard] eqn:E. cbn [fst snd] in *. split; [exact H2|]. split; [|exact H1].
  intros ->. by apply (mailbox_hears_nothing ops waiting heard).
Qed.
(** ** A queue of two, one listener *)
Definition case_user : list ((event -> list Z -> list Z) * bool) := [((fun e l => ev_version e :: l), true); ((fun _ _ => []), false)].
Definition case_alc : lifecycle (async_world (list Z)) := mk_lifecycle [] [] (observers_of case_user) None.
Definition case_aw0 : async_world (list Z) := mk_aw false None BB_OK BB_LIFECYCLE_ASYNC_DROP_LOG_UNSET [BQueue.zero_inst 4 16] [].
Definition case_event (n : Z) : event := mk_event 0 0 n BB_LIFECYCLE_STOPPED BB_LIFECYCLE_RUNNING 255.
Definition case_async_ops : list async_op :=
  [ANotify (case_event 1) 0 0; ANotify (case_event 2) 1000 1; ANotify (case_event 3) 2000 2; ADrain 0 3000; ANotify (case_event 4) 4000 4; ADrain 0 5000; ADrain 0 6000; ADrain 0 7000].
Lemma case_async_sane : Forall async_op_sane case_async_ops.
Proof. repeat (constructor; [repeat split; vm_compute; congruence|]). constructor. Qed.
Lemma lifecycle_async_in_order_witness :
  exists aw, ensure_async_started 2 4 16 BB_OK BB_OK case_aw0 = (BB_OK, aw) /\ aw_user (fold_left (async_step case_alc) case_async_ops aw) = [4; 2; 1].
Proof.
  destruct (ensure_async_started 2 4 16 BB_OK BB_OK case_aw0) as [e aw] eqn:E. assert (He : e = BB_OK) by (by vm_compute in E; injection E as <- _). subst e.
  exists aw. split; [reflexivity|]. pose proof (lifecycle_async_in_order 2 4 16 case_user case_alc case_aw0 aw case_async_ops ltac:(lia) ltac:(lia) ltac:(done) eq_refl eq_refl E case_async_sane) as H.
  cbv zeta in H. destruct (fold_left (async_spec_step (if 2 =? 1 then 0 else 2)) case_async_ops ([], [])) as [waiting heard] eqn:Es. vm_compute in Es. injection Es as <- <-. destruct H as [H _]. exact H.
Defined.
