(* ===== verification/Str.v ===== *)
(** Portable string helpers: platform/host/bb_str/bb_str.c, and the
    little-endian loads and stores of
    components/bb_core/include/bb_byte_order.h. *)
From Stdlib Require Import Strings.String.
From S2P Require Import Prelude Bytes.

(** * Byte order *)

Definition at_byte (p : list byte) (i : nat) : Z := bz (nth i p x00).

Definition bb_load_le16 (p : list byte) : Z := Z.lor (at_byte p 0) (Z.shiftl (at_byte p 1) 8).
Definition bb_load_le32 (p : list byte) : Z :=
  Z.lor (Z.lor (Z.lor (at_byte p 0) (Z.shiftl (at_byte p 1) 8)) (Z.shiftl (at_byte p 2) 16)) (Z.shiftl (at_byte p 3) 24).
Definition bb_store_le16 (v : Z) : list byte := [zb v; zb (Z.shiftr v 8)].
Definition bb_store_le32 (v : Z) : list byte := [zb v; zb (Z.shiftr v 8); zb (Z.shiftr v 16); zb (Z.shiftr v 24)].
Definition bb_load_be16 (p : list byte) : Z := Z.lor (Z.shiftl (at_byte p 0) 8) (at_byte p 1).
Definition bb_load_be32 (p : list byte) : Z :=
  Z.lor (Z.lor (Z.lor (Z.shiftl (at_byte p 0) 24) (Z.shiftl (at_byte p 1) 16)) (Z.shiftl (at_byte p 2) 8)) (at_byte p 3).
Definition bb_store_be16 (v : Z) : list byte := [zb (Z.shiftr v 8); zb v].
Definition bb_store_be32 (v : Z) : list byte := [zb (Z.shiftr v 24); zb (Z.shiftr v 16); zb (Z.shiftr v 8); zb v].

(** * Bounded copies *)

(** [src] is the memory from the pointer up, [dst] the destination before the
    call; the results are the return value and the destination after it. *)
Definition bb_strlcpy (dst src : list byte) (dstsize : nat) : nat * list byte :=
  let src_len := length (cstr src) in
  if (dstsize =? 0)%nat then (src_len, dst) else
  let copy_len := if (dstsize <=? src_len)%nat then (dstsize - 1)%nat else src_len in
  (src_len, take copy_len src ++ x00 :: drop (S copy_len) dst).

Definition bb_str_field (dst src : list byte) (dstsize : nat) : nat * list byte :=
  let src_len := length (cstr src) in
  if (dstsize =? 0)%nat then (src_len, dst) else
  let copy_len := if (dstsize <? src_len)%nat then dstsize else src_len in
  (src_len, take copy_len src ++ repeat x00 (dstsize - copy_len) ++ drop dstsize dst).

(** * key=value lists *)

Definition bb_str_kv_is_space (c : byte) : bool := Byte.eqb c x20 || Byte.eqb c x09.

(** The text before the first [c], and what follows it if there is one. *)
Fixpoint cut (c : byte) (s : list byte) : list byte * option (list byte) :=
  match s with
  | [] => ([], None)
  | b :: s => if Byte.eqb b c then ([], Some s) else let '(x, y) := cut c s in (b :: x, y)
  end.

Fixpoint trim_front (s : list byte) : list byte :=
  match s with
  | [] => []
  | b :: s' => if bb_str_kv_is_space b then trim_front s' else s
  end.
Definition trim (s : list byte) : list byte := rev (trim_front (rev (trim_front s))).

Section KvParse.
(** What the callback does to what its context points to. *)
Context {C : Type} (cb : list byte -> list byte -> C -> C).

Definition kv_entry (entry : list byte) (ctx : C) : C :=
  match cut x3d entry with
  | (key, Some val) => match trim key with [] => ctx | key => cb key (trim val) ctx end
  | (_, None) => ctx
  end.

(** [fuel] bounds the number of entries. *)
Fixpoint kv_loop (fuel : nat) (p : list byte) (ctx : C) : C :=
  match fuel, p with
  | O, _ | _, [] => ctx
  | S fuel, _ =>
      let '(entry, rest) := cut x2c p in
      let ctx := kv_entry entry ctx in
      match rest with None => ctx | Some p => kv_loop fuel p ctx end
  end.

(** [s = None]: NULL. *)
Definition bb_str_kv_parse (s : option (list byte)) (ctx : C) : C :=
  match s with None => ctx | Some s => let s := cstr s in kv_loop (S (length s)) s ctx end.
End KvParse.

(** * Hexadecimal *)

(** [None]: the function's -1. *)
Definition bb_str_hex_nibble (c : byte) : option Z :=
  let z := bz c in
  if (48 <=? z) && (z <=? 57) then Some (z - 48) else
  if (97 <=? z) && (z <=? 102) then Some (z - 97 + 10) else
  if (65 <=? z) && (z <=? 70) then Some (z - 65 + 10) else None.

(** The bytes written; their number is the return value.  The end of the list
    is the terminating NUL. *)
Fixpoint hex_loop (max_out : nat) (hex : list byte) : list byte :=
  match max_out, hex with
  | S n, h :: l :: hex =>
      match bb_str_hex_nibble h, bb_str_hex_nibble l with
      | Some hi, Some lo => zb (Z.lor (Z.shiftl hi 4) lo) :: hex_loop n hex
      | _, _ => []
      end
  | _, _ => []
  end.
Definition bb_str_hex_to_bytes (hex : option (list byte)) (max_out : nat) : list byte :=
  match hex with None => [] | Some hex => hex_loop max_out (cstr hex) end.

Definition bb_str_hex_digit (nibble : Z) : byte := nth (Z.to_nat (Z.land nibble 15)) (bs "0123456789abcdef") x00.
Definition hex_pair (b : byte) : list byte := [bb_str_hex_digit (Z.shiftr (bz b) 4); bb_str_hex_digit (Z.land (bz b) 15)].

Definition bb_str_bytes_to_hex (data hex : list byte) (hex_cap : nat) : nat * list byte :=
  if (hex_cap =? 0)%nat then (0%nat, hex) else
  let max_pairs := ((hex_cap - 1) / 2)%nat in
  let n := if (length data <? max_pairs)%nat then length data else max_pairs in
  (n, concat (map hex_pair (take n data)) ++ x00 :: drop (S (2 * n)) hex).

(** * The event envelope *)

(** Is [key] at the head of the bytes up to [end]? *)
Fixpoint starts_with (key s : list byte) : option (list byte) :=
  match key, s with
  | [], _ => Some s
  | k :: key, b :: s => if Byte.eqb k b then starts_with key s else None
  | _ :: _, [] => None
  end.
Definition is_json_space (b : byte) : bool := Byte.eqb b x20 || Byte.eqb b x09 || Byte.eqb b x0a || Byte.eqb b x0d.
Fixpoint skip_space (s : list byte) : list byte :=
  match s with [] => [] | b :: s' => if is_json_space b then skip_space s' else s end.

(** Pointers into the payload are the bytes from there to its end. *)
Fixpoint bb_str_envelope_find_key_value (key payload : list byte) : option (list byte) :=
  match starts_with key payload with
  | Some v => Some (skip_space v)
  | None => match payload with [] => None | _ :: q => bb_str_envelope_find_key_value key q end
  end.

Fixpoint span_digit (s : list byte) : list byte :=
  match s with [] => [] | b :: s => if is_digit b then b :: span_digit s else [] end.
(** The digits and the sign that were passed over; [None]: no number. *)
Definition envelope_number (v : list byte) : option (list byte) :=
  let t := match v with b :: v' => if Byte.eqb b x2d then b :: span_digit v' else span_digit v | [] => [] end in
  match t with [] => None | [b] => if Byte.eqb b x2d then None else Some t | _ => Some t end.

(** The scan of the balanced object: how many bytes it takes, with the depth it
    ended at.  [skip]: the byte after a backslash. *)
Fixpoint envelope_scan (s : list byte) (depth : Z) (in_str skip : bool) (n : nat) : nat * Z :=
  match s with
  | [] => ((if skip then S n else n), depth)
  | c :: s =>
      if skip then envelope_scan s depth in_str false (S n) else
      if in_str then
        if Byte.eqb c x5c then envelope_scan s depth true true (S n) else
        envelope_scan s depth (negb (Byte.eqb c x22)) false (S n)
      else if Byte.eqb c x22 then envelope_scan s depth true false (S n)
      else if Byte.eqb c x7b then envelope_scan s (depth + 1) false false (S n)
      else if Byte.eqb c x7d then
        if depth - 1 =? 0 then (S n, 0) else envelope_scan s (depth - 1) false false (S n)
      else envelope_scan s depth false false (S n)
  end.

Definition KEY_TS_MS : list byte := x22 :: bs "ts_ms" ++ [x22; x3a].
Definition KEY_DATA : list byte := x22 :: bs "data" ++ [x22; x3a].

(** The two ranges: where each starts in the payload, and its length. *)
Definition bb_str_envelope_split (payload : option (list byte)) : option ((nat * nat) * (nat * nat)) :=
  match payload with
  | None | Some [] => None
  | Some payload =>
      let at_ v := (length payload - length v)%nat in
      match bb_str_envelope_find_key_value (KEY_TS_MS) payload with
      | None => None
      | Some ts_v =>
          match envelope_number ts_v with
          | None => None
          | Some ts =>
              match bb_str_envelope_find_key_value (KEY_DATA) payload with
              | Some ((x7b :: _) as data_v) =>
                  let '(n, depth) := envelope_scan data_v 0 false false 0 in
                  if negb (depth =? 0) then None else Some ((at_ ts_v, length ts), (at_ data_v, n))
              | _ => None
              end
          end
      end
  end.

(** * Hash *)

Definition bb_str_hash32 (s : option (list byte)) : Z :=
  match s with
  | None => 0
  | Some s => fold_left (fun h c => u32 (Z.lxor h (bz c) * 16777619)) (cstr s) 2166136261
  end.

(** * Lemmas *)

(** ** Bytes in order *)

Ltac byte_lia := change (2 ^ 8) with 256 in *; change (2 ^ 16) with 65536 in *; change (2 ^ 24) with 16777216 in *;
  change (2 ^ 32) with 4294967296 in *; Z.to_euclidean_division_equations; lia.

Lemma load_store_le16 v rest : 0 <= v < 2 ^ 16 -> bb_load_le16 (bb_store_le16 v ++ rest) = v.
Proof.
  intros Hv. unfold bb_load_le16, bb_store_le16, at_byte. cbn [app nth]. rewrite !bz_zb, Z.lor_comm.
  rewrite Z.shiftl_mul_pow2, Z.shiftr_div_pow2 by lia. rewrite (lor_add _ _ 8) by (try apply Z.mod_pos_bound; lia). byte_lia.
Qed.
Lemma load_store_le32 v rest : 0 <= v < 2 ^ 32 -> bb_load_le32 (bb_store_le32 v ++ rest) = v.
Proof.
  intros Hv. unfold bb_load_le32, bb_store_le32, at_byte. cbn [app nth]. rewrite !bz_zb.
  rewrite !Z.shiftl_mul_pow2, !Z.shiftr_div_pow2 by lia.
  set (a := v mod 256). set (b := (v / 2 ^ 8) mod 256). set (c := (v / 2 ^ 16) mod 256). set (d := (v / 2 ^ 24) mod 256).
  assert (0 <= a < 256) by (apply Z.mod_pos_bound; lia). assert (0 <= b < 256) by (apply Z.mod_pos_bound; lia).
  assert (0 <= c < 256) by (apply Z.mod_pos_bound; lia). assert (0 <= d < 256) by (apply Z.mod_pos_bound; lia).
  rewrite (Z.lor_comm a), (lor_add b a 8) by lia.
  rewrite (Z.lor_comm _ (c * 2 ^ 16)), (lor_add c _ 16) by lia.
  rewrite (Z.lor_comm _ (d * 2 ^ 24)), (lor_add d _ 24) by lia. subst a b c d. byte_lia.
Qed.
Lemma load_store_be16 v rest : 0 <= v < 2 ^ 16 -> bb_load_be16 (bb_store_be16 v ++ rest) = v.
Proof.
  intros Hv. unfold bb_load_be16, bb_store_be16, at_byte. cbn [app nth]. rewrite !bz_zb.
  rewrite Z.shiftl_mul_pow2, Z.shiftr_div_pow2 by lia. rewrite (lor_add _ _ 8) by (try apply Z.mod_pos_bound; lia). byte_lia.
Qed.
Lemma load_store_be32 v rest : 0 <= v < 2 ^ 32 -> bb_load_be32 (bb_store_be32 v ++ rest) = v.
Proof.
  intros Hv. unfold bb_load_be32, bb_store_be32, at_byte. cbn [app nth]. rewrite !bz_zb.
  rewrite !Z.shiftl_mul_pow2, !Z.shiftr_div_pow2 by lia.
  set (a := v mod 256). set (b := (v / 2 ^ 8) mod 256). set (c := (v / 2 ^ 16) mod 256). set (d := (v / 2 ^ 24) mod 256).
  assert (0 <= a < 256) by (apply Z.mod_pos_bound; lia). assert (0 <= b < 256) by (apply Z.mod_pos_bound; lia).
  assert (0 <= c < 256) by (apply Z.mod_pos_bound; lia). assert (0 <= d < 256) by (apply Z.mod_pos_bound; lia).
  rewrite <- !Z.lor_assoc. rewrite (lor_add b a 8) by lia.
  rewrite (lor_add c _ 16) by lia. rewrite (lor_add d _ 24) by lia. subst a b c d. byte_lia.
Qed.

(** ** Copies *)

(** A copy into a buffer of [dstsize] bytes: what fits, a NUL, the old tail. *)
Lemma strlcpy_spec dst src dstsize : (0 < dstsize <= length dst)%nat ->
  let text := take (dstsize - 1) (cstr src) in
  bb_strlcpy dst src dstsize = (length (cstr src), text ++ x00 :: drop (S (length text)) dst) /\
  length (bb_strlcpy dst src dstsize).2 = length dst /\ cstr (bb_strlcpy dst src dstsize).2 = text.
Proof.
  intros Hd text. assert (E : bb_strlcpy dst src dstsize = (length (cstr src), text ++ x00 :: drop (S (length text)) dst)).
  { unfold bb_strlcpy. destruct (Nat.eqb_spec dstsize 0); [lia|].
    assert (Hc : take (if (dstsize <=? length (cstr src))%nat then (dstsize - 1)%nat else length (cstr src)) src = text).
    { subst text. destruct (cstr_prefix src) as [l2 E2]. revert E2. generalize (cstr src) as t. intros t ->.
      destruct (Nat.leb_spec dstsize (length t)).
      - by rewrite take_app_le by lia.
      - rewrite take_app_length. by rewrite take_ge by lia. }
    rewrite Hc. do 3 f_equal. f_equal. f_equal. subst text. rewrite length_take. destruct (Nat.leb_spec dstsize (length (cstr src))); lia. }
  rewrite E. cbn [snd]. split; [done|]. split.
  - rewrite length_app. cbn [length]. rewrite length_drop. subst text. rewrite length_take. lia.
  - apply cstr_nul. subst text. apply Forall_take, cstr_no_nul.
Qed.

(** ** Lists of pairs *)

Lemma cut_length c s : match cut c s with (x, Some y) => length s = (length x + S (length y))%nat | (x, None) => x = s end.
Proof.
  induction s as [|b s IH]; [done|]. cbn [cut]. destruct (Byte.eqb b c); [done|].
  destruct (cut c s) as [x [y|]]; cbn [length]; [lia|by subst].
Qed.
Lemma cut_here c x y : Forall (fun b => b <> c) x -> cut c (x ++ c :: y) = (x, Some y).
Proof.
  induction 1 as [|b x Hb _ IH]; cbn [cut app]; [by rewrite byte_eqb_refl|].
  by rewrite (proj2 (byte_eqb_neq b c) Hb), IH.
Qed.
Lemma cut_none c x : Forall (fun b => b <> c) x -> cut c x = (x, None).
Proof. induction 1 as [|b x Hb _ IH]; cbn [cut]; [done|]. by rewrite (proj2 (byte_eqb_neq b c) Hb), IH. Qed.

(** The entries of a list, with the empty ones. *)
Fixpoint entries (fuel : nat) (p : list byte) : list (list byte) :=
  match fuel, p with
  | O, _ | _, [] => []
  | S fuel, _ => let '(entry, rest) := cut x2c p in entry :: match rest with None => [] | Some p => entries fuel p end
  end.

Lemma kv_loop_fold {C} (cb : list byte -> list byte -> C -> C) fuel : forall p ctx,
  kv_loop cb fuel p ctx = fold_left (fun ctx e => kv_entry cb e ctx) (entries fuel p) ctx.
Proof.
  induction fuel as [|fuel IH]; intros p ctx; [by destruct p|]. destruct p as [|b p]; [done|]. cbn [kv_loop entries].
  destruct (cut x2c (b :: p)) as [e [r|]]; cbn [fold_left]; [apply IH|done].
Qed.

(** Fuel: an entry takes a byte at least. *)
Lemma entries_fuel f1 : forall f2 p, (length p < f1)%nat -> (length p < f2)%nat -> entries f1 p = entries f2 p.
Proof.
  induction f1 as [|f1 IH]; intros f2 p H1 H2; [lia|]. destruct f2 as [|f2]; [lia|]. destruct p as [|b p]; [done|]. cbn [entries].
  pose proof (cut_length x2c (b :: p)) as Hc. destruct (cut x2c (b :: p)) as [e [r|]]; [|done].
  rewrite (IH f2 r); [done|lia|lia].
Qed.

(** A name or value the list syntax carries as it is. *)
Definition trimmed (s : list byte) : Prop := trim s = s.
Definition kv_ok (kv : list byte * list byte) : Prop :=
  kv.1 <> [] /\ trimmed kv.1 /\ trimmed kv.2 /\
  Forall (fun b => b <> x00 /\ b <> x2c /\ b <> x3d) kv.1 /\ Forall (fun b => b <> x00 /\ b <> x2c) kv.2.

Definition kv_text (kv : list byte * list byte) : list byte := kv.1 ++ x3d :: kv.2.
Fixpoint kv_print (kvs : list (list byte * list byte)) : list byte :=
  match kvs with [] => [] | [kv] => kv_text kv | kv :: kvs => kv_text kv ++ x2c :: kv_print kvs end.

Lemma kv_entry_text {C} (cb : list byte -> list byte -> C -> C) kv ctx : kv_ok kv -> kv_entry cb (kv_text kv) ctx = cb kv.1 kv.2 ctx.
Proof.
  intros (Hn & Hk & Hv & Hf & _). unfold kv_entry, kv_text. rewrite cut_here.
  - rewrite Hk, Hv. by destruct kv.1.
  - eapply Forall_impl; [exact Hf|]. by intros b (_ & _ & H).
Qed.
Lemma kv_text_no_comma kv : kv_ok kv -> Forall (fun b => b <> x00 /\ b <> x2c) (kv_text kv).
Proof.
  intros (_ & _ & _ & Hf & Hg). apply Forall_app. split; [eapply Forall_impl; [exact Hf|]; by intros b (? & ? & _)|].
  by constructor.
Qed.

Lemma kv_print_entries kvs : Forall kv_ok kvs -> forall fuel, (length (kv_print kvs) < fuel)%nat -> entries fuel (kv_print kvs) = map kv_text kvs.
Proof.
  induction 1 as [|kv kvs Hkv _ IH]; intros fuel Hl; [by destruct fuel|].
  pose proof (kv_text_no_comma kv Hkv) as Hc. assert (Hc' : Forall (fun b => b <> x2c) (kv_text kv)) by (eapply Forall_impl; [exact Hc|]; by intros b [_ ?]).
  assert (Hne : kv_text kv <> []) by (unfold kv_text; by destruct kv.1).
  destruct fuel as [|fuel]; [lia|]. destruct kvs as [|kv' kvs].
  - cbn [kv_print map entries] in *. destruct (kv_text kv) as [|b t] eqn:E; [done|]. rewrite <- E in *.
    rewrite cut_none by done. done.
  - change (kv_print (kv :: kv' :: kvs)) with (kv_text kv ++ x2c :: kv_print (kv' :: kvs)) in *.
    cbn [map]. cbn [entries]. destruct (kv_text kv ++ x2c :: kv_print (kv' :: kvs)) as [|b t] eqn:E.
    { by destruct (kv_text kv). }
    rewrite <- E. rewrite cut_here by done. f_equal. apply IH. rewrite <- E, length_app in Hl. cbn [length] in Hl. lia.
Qed.

Lemma kv_print_no_nul kvs : Forall kv_ok kvs -> Forall (fun b => b <> x00) (kv_print kvs).
Proof.
  induction 1 as [|kv kvs Hkv _ IH]; [constructor|].
  assert (H : Forall (fun b => b <> x00) (kv_text kv)) by (eapply Forall_impl; [by apply kv_text_no_comma|]; by intros b [? _]).
  destruct kvs as [|kv' kvs]; [done|]. change (kv_print (kv :: kv' :: kvs)) with (kv_text kv ++ x2c :: kv_print (kv' :: kvs)).
  apply Forall_app. split; [done|]. by constructor.
Qed.

(** A printed list is read back pair by pair, whatever the callback does. *)
Lemma kv_roundtrip {C} (cb : list byte -> list byte -> C -> C) kvs ctx : Forall kv_ok kvs ->
  bb_str_kv_parse cb (Some (kv_print kvs)) ctx = fold_left (fun ctx kv => cb kv.1 kv.2 ctx) kvs ctx.
Proof.
  intros H. unfold bb_str_kv_parse. rewrite cstr_id by (by apply kv_print_no_nul).
  rewrite kv_loop_fold, kv_print_entries by (done || lia). revert ctx.
  induction H as [|kv kvs Hkv _ IH]; intros ctx; [done|]. cbn [map fold_left]. by rewrite kv_entry_text, IH.
Qed.

(** ** Hexadecimal *)

Lemma hex_pair_nibbles b : bb_str_hex_nibble (bb_str_hex_digit (Z.shiftr (bz b) 4)) = Some (Z.shiftr (bz b) 4) /\
  bb_str_hex_nibble (bb_str_hex_digit (Z.land (bz b) 15)) = Some (Z.land (bz b) 15) /\
  zb (Z.lor (Z.shiftl (Z.shiftr (bz b) 4) 4) (Z.land (bz b) 15)) = b.
Proof. by destruct b. Qed.
Lemma hex_pair_no_nul b : Forall (fun c => c <> x00) (hex_pair b).
Proof. destruct b; repeat constructor; done. Qed.

Lemma hex_text_length l : length (concat (map hex_pair l)) = (2 * length l)%nat.
Proof. induction l as [|b l IH]; [done|]. cbn [map concat length]. rewrite length_app, IH. cbn. lia. Qed.

(** Bytes written as text come back, and the text is cut at whole bytes. *)
Lemma hex_roundtrip data hex hex_cap max_out : (0 < hex_cap <= length hex)%nat ->
  let n := Nat.min (length data) ((hex_cap - 1) / 2) in
  (bb_str_bytes_to_hex data hex hex_cap).1 = n /\
  length (bb_str_bytes_to_hex data hex hex_cap).2 = length hex /\
  bb_str_hex_to_bytes (Some (bb_str_bytes_to_hex data hex hex_cap).2) max_out = take max_out (take n data).
Proof.
  intros Hc n. unfold bb_str_bytes_to_hex. destruct (Nat.eqb_spec hex_cap 0); [lia|].
  replace (if (length data <? (hex_cap - 1) / 2)%nat then length data else ((hex_cap - 1) / 2)%nat) with n
    by (subst n; destruct (Nat.ltb_spec (length data) ((hex_cap - 1) / 2)); lia). cbn [fst snd].
  assert (Hlen : length (concat (map hex_pair (take n data))) = (2 * n)%nat).
  { rewrite hex_text_length, length_take. subst n. lia. }
  assert (Hn2 : (2 * n + 1 <= hex_cap)%nat).
  { subst n. pose proof (Nat.div_mod_eq (hex_cap - 1) 2). lia. }
  split; [done|]. split; [rewrite length_app; cbn [length]; rewrite Hlen, length_drop; lia|].
  unfold bb_str_hex_to_bytes. rewrite cstr_nul.
  - clear Hlen. generalize (take n data) as l. clear. intros l. revert max_out. induction l as [|b l IH]; intros m; [by destruct m|].
    destruct m as [|m]; [done|]. cbn [map concat hex_pair app hex_loop take].
    destruct (hex_pair_nibbles b) as (H1 & H2 & H3). by rewrite H1, H2, H3, IH.
  - apply Forall_concat, Forall_map, Forall_true. apply hex_pair_no_nul.
Qed.
