(* ===== verification/Registry.v ===== *)
(** The generic name-to-handle registry:
    platform/host/bb_registry/bb_registry.c. *)
From Stdlib Require Import Strings.String.
From S2P Require Import Prelude Bytes.

(** * The registry *)

(** [bb_registry_entry_t]: two pointers. *)
Abbreviation entry := (Z * Z)%type.

Record bb_registry := mk_registry {
  rg_entries : list entry;
  rg_capacity : nat;
  rg_count : nat;
  rg_frozen : bool;
  rg_hwm_warned : bool
}.
(** BB_REGISTRY_DEFINE: the static array is zero. *)
Definition BB_REGISTRY_DEFINE (cap : nat) : bb_registry := mk_registry (repeat (0, 0) cap) cap 0 false false.

Definition set_count (es : list entry) (n : nat) (r : bb_registry) : bb_registry :=
  mk_registry es (rg_capacity r) n (rg_frozen r) (rg_hwm_warned r).
Definition set_hwm (r : bb_registry) : bb_registry :=
  mk_registry (rg_entries r) (rg_capacity r) (rg_count r) (rg_frozen r) true.
Definition set_frozen (r : bb_registry) : bb_registry :=
  mk_registry (rg_entries r) (rg_capacity r) (rg_count r) true (rg_hwm_warned r).

Section Registry.
(** The text a name pointer points to; names are borrowed and stay as they
    are. *)
Context (str : Z -> list byte).

(** The comparison [by_ptr] selects. *)
Definition same_key (by_ptr : bool) (a b : Z) : bool := if by_ptr then a =? b else bool_decide (str a = str b).

Fixpoint find_index_from (key : Z) (by_ptr : bool) (es : list entry) (i : nat) (n : nat) {struct n} : option nat :=
  match n, es with
  | S n, e :: es => if same_key by_ptr e.1 key then Some i else find_index_from key by_ptr es (S i) n
  | _, _ => None
  end.
Definition registry_find_index (r : bb_registry) (key : Z) (by_ptr : bool) : option nat :=
  find_index_from key by_ptr (rg_entries r) 0 (rg_count r).

(** [lock]: what registry_ensure_lock answers this time. *)
Definition registry_register_common (lock : bb_err) (key value : Z) (by_ptr : bool) (r : bb_registry) : bb_err * bb_registry :=
  if negb (is_ok lock) then (lock, r) else
  if rg_frozen r then (BB_ERR_INVALID_STATE, r) else
  match registry_find_index r key by_ptr with
  | Some _ => (BB_ERR_INVALID_STATE, r)
  | None =>
      if (rg_capacity r <=? rg_count r)%nat then (BB_ERR_NO_SPACE, r) else
      let r := set_count (<[rg_count r := (key, value)]> (rg_entries r)) (S (rg_count r)) r in
      (BB_OK, if negb (rg_hwm_warned r) && (rg_count r =? rg_capacity r - 1)%nat then set_hwm r else r)
  end.

(** [entries[j] = entries[j + 1]] for [n] values of [j] up from [j]. *)
Fixpoint shift_left (n j : nat) (es : list entry) : list entry :=
  match n with
  | O => es
  | S n => shift_left n (S j) (match es !! S j with Some e => <[j := e]> es | None => es end)
  end.

Definition registry_deregister_common (lock : bb_err) (key : Z) (by_ptr : bool) (r : bb_registry) : bb_err * bb_registry :=
  if negb (is_ok lock) then (lock, r) else
  if rg_frozen r then (BB_ERR_INVALID_STATE, r) else
  match registry_find_index r key by_ptr with
  | None => (BB_ERR_NOT_FOUND, r)
  | Some idx =>
      let tail := (rg_count r - 1)%nat in
      (BB_OK, set_count (shift_left (tail - idx) idx (rg_entries r)) tail r)
  end.

(** 0 is NULL. *)
Definition registry_lookup_common (lock : bb_err) (key : Z) (by_ptr : bool) (r : bb_registry) : Z :=
  if negb (is_ok lock) then 0 else
  match registry_find_index r key by_ptr with
  | Some idx => match rg_entries r !! idx with Some e => e.2 | None => 0 end
  | None => 0
  end.

Definition bb_registry_register (lock : bb_err) (name value : Z) (r : bb_registry) : bb_err * bb_registry :=
  if (name =? 0) || (value =? 0) then (BB_ERR_INVALID_ARG, r) else registry_register_common lock name value false r.
Definition bb_registry_deregister (lock : bb_err) (name : Z) (r : bb_registry) : bb_err * bb_registry :=
  if name =? 0 then (BB_ERR_INVALID_ARG, r) else registry_deregister_common lock name false r.
Definition bb_registry_freeze (lock : bb_err) (r : bb_registry) : bb_registry :=
  if negb (is_ok lock) then r else set_frozen r.
Definition registry_snapshot (lock : bb_err) (r : bb_registry) : list entry :=
  if negb (is_ok lock) then [] else take (rg_count r) (rg_entries r).
(** [cb] acts on what its context points to; [None] is NULL. *)
Definition bb_registry_foreach {C} (lock : bb_err) (r : bb_registry) (cb : option (Z -> Z -> C -> C)) (ctx : C) : C :=
  match cb with
  | None => ctx
  | Some cb => fold_left (fun ctx e => cb e.1 e.2 ctx) (registry_snapshot lock r) ctx
  end.
Definition bb_registry_foreach_ptr {C} := @bb_registry_foreach C.
Definition bb_registry_count (lock : bb_err) (r : bb_registry) : nat := if negb (is_ok lock) then 0%nat else rg_count r.
Definition bb_registry_get_by_index (lock : bb_err) (idx : nat) (out_ok : bool) (r : bb_registry) : bb_err * option entry :=
  if negb out_ok then (BB_ERR_INVALID_ARG, None) else
  if negb (is_ok lock) then (lock, None) else
  if (rg_count r <=? idx)%nat then (BB_ERR_NOT_FOUND, None) else (BB_OK, rg_entries r !! idx).
Definition bb_registry_lookup (lock : bb_err) (name : Z) (r : bb_registry) : Z :=
  if name =? 0 then 0 else registry_lookup_common lock name false r.
Definition bb_registry_register_ptr (lock : bb_err) (key value : Z) (r : bb_registry) : bb_err * bb_registry :=
  if (key =? 0) || (value =? 0) then (BB_ERR_INVALID_ARG, r) else registry_register_common lock key value true r.
Definition bb_registry_deregister_ptr (lock : bb_err) (key : Z) (r : bb_registry) : bb_err * bb_registry :=
  if key =? 0 then (BB_ERR_INVALID_ARG, r) else registry_deregister_common lock key true r.
Definition bb_registry_lookup_ptr (lock : bb_err) (key : Z) (r : bb_registry) : Z :=
  if key =? 0 then 0 else registry_lookup_common lock key true r.

(** * What it holds *)

(** The live entries, in the order of registration. *)
Definition live (r : bb_registry) : list entry := take (rg_count r) (rg_entries r).

Record registry_wf (by_ptr : bool) (r : bb_registry) : Prop := {
  rw_array : length (rg_entries r) = rg_capacity r;
  rw_count : (rg_count r <= rg_capacity r)%nat;
  rw_keys : ForallOrdPairs (fun a b => same_key by_ptr a.1 b.1 = false) (live r)
}.

Definition has_key (by_ptr : bool) (key : Z) (e : entry) : bool := same_key by_ptr e.1 key.

Lemma find_index_spec key by_ptr n : forall es i, (n <= length es)%nat ->
  match find_index_from key by_ptr es i n with
  | Some j => exists k e, j = (i + k)%nat /\ take n es !! k = Some e /\ has_key by_ptr key e = true /\
      Forall (fun e => has_key by_ptr key e = false) (take k (take n es))
  | None => Forall (fun e => has_key by_ptr key e = false) (take n es)
  end.
Proof.
  induction n as [|n IH]; intros es i Hl; [constructor|]. destruct es as [|e es]; [cbn in Hl; lia|]. cbn [find_index_from take].
  destruct (same_key by_ptr e.1 key) eqn:E.
  - exists 0%nat, e. split_and!; [lia|done|exact E|constructor].
  - specialize (IH es (S i) ltac:(cbn in Hl; lia)). destruct (find_index_from key by_ptr es (S i) n) as [j|].
    + destruct IH as (k & e' & -> & H1 & H2 & H3). exists (S k), e'. split_and!; [lia|done|done|]. by constructor.
    + by constructor.
Qed.

Lemma registry_find_spec key by_ptr r : registry_wf by_ptr r ->
  match registry_find_index r key by_ptr with
  | Some j => exists e, live r !! j = Some e /\ has_key by_ptr key e = true /\ Forall (fun e => has_key by_ptr key e = false) (take j (live r))
  | None => Forall (fun e => has_key by_ptr key e = false) (live r)
  end.
Proof.
  intros [H1 H2 _]. unfold registry_find_index. pose proof (find_index_spec key by_ptr (rg_count r) (rg_entries r) 0 ltac:(lia)) as H.
  destruct (find_index_from _ _ _ _ _) as [j|]; [|done]. destruct H as (k & e & -> & H3 & H4 & H5). by exists e.
Qed.

(** Compaction removes the slot. *)
Lemma shift_left_spec n : forall j es, (j + S n <= length es)%nat ->
  length (shift_left n j es) = length es /\ take (j + n) (shift_left n j es) = take j es ++ take n (drop (S j) es).
Proof.
  induction n as [|n IH]; intros j es Hl; cbn [shift_left].
  - split; [done|]. by rewrite Nat.add_0_r, app_nil_r.
  - destruct (lookup_lt_is_Some_2 es (S j) ltac:(lia)) as [e He]. rewrite He.
    destruct (IH (S j) (<[j:=e]> es)) as [H1 H2]; [rewrite length_insert; lia|]. rewrite length_insert in H1. split; [done|].
    replace (j + S n)%nat with (S j + n)%nat by lia. rewrite H2.
    rewrite drop_insert_lt by lia. rewrite (drop_S _ _ _ He). cbn [take].
    rewrite (take_S_r _ _ e) by (by rewrite list_lookup_insert_eq by lia). rewrite take_insert_ge by lia. by rewrite <- app_assoc.
Qed.

(** The specification: a list of entries with different keys, that grows at
    the end. *)
Definition remove_key (by_ptr : bool) (key : Z) (l : list entry) : list entry := filter (fun e => has_key by_ptr key e = false) l.

Lemma same_key_ext by_ptr a b k : same_key by_ptr a k = true -> same_key by_ptr b k = same_key by_ptr a b.
Proof.
  unfold same_key. destruct by_ptr.
  - intros ->%Z.eqb_eq. apply Z.eqb_sym.
  - intros H%bool_decide_eq_true. rewrite H. apply bool_decide_ext. split; congruence.
Qed.
Lemma filter_all {A} (f : A -> bool) (l : list A) : Forall (fun x => f x = false) l -> filter (fun x => f x = false) l = l.
Proof. induction 1 as [|x l Hx _ IH]; [done|]. rewrite filter_cons, decide_True by done. by rewrite IH. Qed.

Lemma remove_first by_ptr key l j e : ForallOrdPairs (fun a b => same_key by_ptr a.1 b.1 = false) l ->
  l !! j = Some e -> has_key by_ptr key e = true -> Forall (fun e => has_key by_ptr key e = false) (take j l) ->
  remove_key by_ptr key l = take j l ++ drop (S j) l.
Proof.
  intros Ho Hj Hk Hp. revert j Hj Hp. induction Ho as [|x l Hx Ho IH]; intros j Hj Hp; [done|].
  unfold remove_key. rewrite filter_cons. destruct j as [|j].
  - injection Hj as ->. rewrite decide_False by (by rewrite Hk). cbn [take drop app]. apply filter_all.
    eapply Forall_impl; [exact Hx|]. intros y Hy. unfold has_key in *. by rewrite (same_key_ext by_ptr e.1 y.1).
  - cbn in Hj, Hp |- *. apply Forall_cons in Hp as [Hx' Hp]. rewrite decide_True by done. cbn. f_equal. by apply IH.
Qed.
Lemma remove_absent by_ptr key l : Forall (fun e => has_key by_ptr key e = false) l -> remove_key by_ptr key l = l.
Proof. apply filter_all. Qed.

Lemma ord_sub {A} (R : A -> A -> Prop) (P : A -> Prop) `{!forall x, Decision (P x)} l : ForallOrdPairs R l -> ForallOrdPairs R (filter P l).
Proof.
  induction 1 as [|x l Hx _ IH]; [constructor|]. rewrite filter_cons. case_decide; [|done]. constructor; [|done].
  apply Forall_forall. intros y [_ Hy]%list_elem_of_filter. rewrite Forall_forall in Hx. by apply Hx.
Qed.
Lemma ord_snoc by_ptr l (e : entry) : ForallOrdPairs (fun a b => same_key by_ptr a.1 b.1 = false) l ->
  Forall (fun x => has_key by_ptr e.1 x = false) l -> ForallOrdPairs (fun a b => same_key by_ptr a.1 b.1 = false) (l ++ [e]).
Proof.
  intros Ho Hf. induction Ho as [|x l Hx _ IH]; [by repeat constructor|]. apply Forall_cons in Hf as [Hxe Hf]. cbn [app].
  constructor; [|by apply IH]. apply Forall_app. by repeat constructor.
Qed.

(** Registering appends, or says why not and changes nothing. *)
Lemma rg_register_spec lock key value by_ptr r : registry_wf by_ptr r ->
  let a := registry_register_common lock key value by_ptr r in
  registry_wf by_ptr a.2 /\ rg_capacity a.2 = rg_capacity r /\ rg_frozen a.2 = rg_frozen r /\
  if is_ok lock && negb (rg_frozen r) && forallb (fun e => negb (has_key by_ptr key e)) (live r) && (length (live r) <? rg_capacity r)%nat
  then a.1 = BB_OK /\ live a.2 = live r ++ [(key, value)]
  else a.1 <> BB_OK /\ a.2 = r.
Proof.
  intros Hw. pose proof (registry_find_spec key by_ptr r Hw) as Hf. destruct Hw as [H1 H2 H3].
  assert (Hlen : length (live r) = rg_count r) by (unfold live; rewrite length_take; lia). rewrite Hlen.
  unfold registry_register_common. destruct (is_ok lock) eqn:El; cbn [negb andb]; [|split_and!; try done; intros E; cbn [fst] in E; by rewrite E in El].
  destruct (rg_frozen r) eqn:Ef; cbn [negb andb]; [by split_and!|].
  destruct (registry_find_index r key by_ptr) as [j|].
  - destruct Hf as (e & He & Hk & _). replace (forallb _ (live r)) with false; [by split_and!|].
    symmetry. apply not_true_iff_false. rewrite forallb_forall. intros H. specialize (H e). rewrite Hk in H. cbn in H.
    apply diff_false_true, H, list_elem_of_In. by eapply list_elem_of_lookup_2.
  - replace (forallb _ (live r)) with true.
    2:{ symmetry. apply forallb_forall. intros e He%list_elem_of_In. rewrite Forall_forall in Hf. by rewrite Hf. }
    cbn [andb]. destruct (Nat.leb_spec (rg_capacity r) (rg_count r)) as [Hc|Hc].
    { rewrite (proj2 (Nat.ltb_ge _ _)) by lia. by split_and!. }
    rewrite (proj2 (Nat.ltb_lt _ _)) by lia. cbv zeta. cbn [rg_hwm_warned set_count rg_count rg_capacity].
    assert (Hlive : live (set_count (<[rg_count r:=(key, value)]> (rg_entries r)) (S (rg_count r)) r) = live r ++ [(key, value)]).
    { unfold live. cbn [rg_count rg_entries set_count]. rewrite (take_S_r _ _ (key, value)) by (rewrite list_lookup_insert_eq by lia; done).
      by rewrite take_insert_ge by lia. }
    assert (Hwf : registry_wf by_ptr (set_count (<[rg_count r:=(key, value)]> (rg_entries r)) (S (rg_count r)) r)).
    { split; [cbn; by rewrite length_insert|cbn; lia|]. rewrite Hlive. by apply ord_snoc. }
    destruct (negb _ && _); cbn [fst snd].
    + split_and!; try done. destruct Hwf. by split.
    + by split_and!.
Qed.

(** Deregistering removes the key's entry and keeps the order of the others. *)
Lemma rg_deregister_spec lock key by_ptr r : registry_wf by_ptr r ->
  let a := registry_deregister_common lock key by_ptr r in
  registry_wf by_ptr a.2 /\ rg_capacity a.2 = rg_capacity r /\ rg_frozen a.2 = rg_frozen r /\
  if is_ok lock && negb (rg_frozen r)
  then a.1 = (if existsb (has_key by_ptr key) (live r) then BB_OK else BB_ERR_NOT_FOUND) /\ live a.2 = remove_key by_ptr key (live r)
  else a.1 <> BB_OK /\ a.2 = r.
Proof.
  intros Hw. pose proof (registry_find_spec key by_ptr r Hw) as Hf.
  unfold registry_deregister_common. destruct (is_ok lock) eqn:El; cbn [negb andb]; [|split_and!; try done; intros E; cbn [fst] in E; by rewrite E in El].
  destruct (rg_frozen r) eqn:Ef; cbn [negb andb]; [by split_and!|]. destruct (registry_find_index r key by_ptr) as [j|].
  - destruct Hf as (e & He & Hk & Hp). destruct Hw as [H1 H2 H3].
    assert (Hj : (j < rg_count r)%nat) by (apply lookup_lt_Some in He; unfold live in He; rewrite length_take in He; lia).
    replace (existsb _ (live r)) with true.
    2:{ symmetry. apply existsb_exists. exists e. split; [apply list_elem_of_In; by eapply list_elem_of_lookup_2|done]. }
    destruct (shift_left_spec (rg_count r - 1 - j) j (rg_entries r)) as [H4 H5]; [lia|].
    assert (Hlive : live (set_count (shift_left (rg_count r - 1 - j) j (rg_entries r)) (rg_count r - 1) r) = remove_key by_ptr key (live r)).
    { rewrite (remove_first by_ptr key (live r) j e) by done. unfold live. cbn [rg_count rg_entries set_count].
      replace (rg_count r - 1)%nat with (j + (rg_count r - 1 - j))%nat at 1 by lia. rewrite H5.
      rewrite take_take, Nat.min_l by lia. f_equal. rewrite skipn_firstn_comm. f_equal. lia. }
    split_and!; try done. split; [cbn; by rewrite H4|cbn; lia|]. cbv zeta. cbn [snd]. rewrite Hlive. by apply ord_sub.
  - replace (existsb _ (live r)) with false.
    2:{ symmetry. apply not_true_iff_false. rewrite existsb_exists. intros (e & He%list_elem_of_In & Hk). rewrite Forall_forall in Hf. by rewrite Hf in Hk. }
    split_and!; try done. symmetry. by apply remove_absent.
Qed.

(** Looking up finds the value of the entry, NULL when there is none. *)
Lemma rg_lookup_spec key by_ptr r : registry_wf by_ptr r ->
  registry_lookup_common BB_OK key by_ptr r = match find (has_key by_ptr key) (live r) with Some e => e.2 | None => 0 end.
Proof.
  intros Hw. pose proof (registry_find_spec key by_ptr r Hw) as Hf. unfold registry_lookup_common. cbn [is_ok negb].
  destruct (registry_find_index r key by_ptr) as [j|].
  - destruct Hf as (e & He & Hk & Hp).
    assert (Hj : rg_entries r !! j = Some e) by (unfold live in He; apply lookup_take_Some in He; tauto). rewrite Hj.
    clear Hj. revert j He Hp. induction (live r) as [|x l IH]; intros j He Hp; [done|]. cbn [find].
    destruct j as [|j]; [injection He as ->; by rewrite Hk|]. cbn [take] in Hp. apply Forall_cons in Hp as [Hx Hp]. rewrite Hx. by apply (IH j).
  - induction Hf as [|x l Hx _ IH]; [done|]. cbn [find]. by rewrite Hx.
Qed.

Lemma define_wf by_ptr cap : registry_wf by_ptr (BB_REGISTRY_DEFINE cap) /\ live (BB_REGISTRY_DEFINE cap) = [].
Proof. split; [split; [apply repeat_length|cbn; lia|constructor]|done]. Qed.
End Registry.

(** Only the texts at the live names matter. *)
Lemma registry_wf_ext str str' r : registry_wf str false r -> Forall (fun e => str' e.1 = str e.1) (live r) -> registry_wf str' false r.
Proof.
  intros [H1 H2 H3] Hf. split; [done|done|]. revert Hf. induction H3 as [|x l Hx _ IH]; intros Hf; [constructor|].
  apply Forall_cons in Hf as [Hxe Hf]. constructor; [|by apply IH]. rewrite Forall_forall in Hx, Hf |- *. intros y Hy.
  specialize (Hx y Hy). unfold same_key in *. by rewrite Hxe, (Hf y Hy).
Qed.
