(* ===== verification/Queue.v ===== *)
(** Rings of variable-length entries: platform/host/bb_queue/bb_queue.c, the
    age classifier of components/bb_core/include/bb_age.h, and the registry of
    rings (bb_queue_registry.c) over Registry. *)
From Stdlib Require Import Strings.String.
From S2P Require Import Prelude Bytes Str Registry.

(** * Ages *)

Inductive bb_age_state : Set := BB_AGE_FRESH | BB_AGE_STALE | BB_AGE_EVICT.
Definition bb_age_classify (age_ms stale_age_ms evict_age_ms : Z) : bb_age_state :=
  if age_ms >=? evict_age_ms then BB_AGE_EVICT else
  if (stale_age_ms =? 0) || (age_ms <? stale_age_ms) then BB_AGE_FRESH else BB_AGE_STALE.

(** * The ring *)

Inductive full_policy : Set := BB_QUEUE_EVICT_OLDEST | BB_QUEUE_REJECT_NEW.

(** [bb_queue_cfg_t]; [qc_policy = None] is a value outside the enum. *)
Record queue_cfg := mk_qcfg {
  qc_capacity_entries : nat; qc_max_entry_bytes : nat; qc_policy : option full_policy;
  qc_name : option (list byte); qc_max_bytes : nat; qc_max_age : Z
}.
Record queue_entry := mk_qentry { qe_id : Z; qe_ts : Z; qe_len : nat }.
(** [payload]: the buffer as [capacity] blocks of [max_entry] bytes. *)
Record queue := mk_queue {
  q_capacity : nat; q_max_entry : nat;
  q_entries : list queue_entry; q_payload : list (list byte);
  q_head : nat; q_tail : nat; q_count : nat;
  q_bytes_used : nat; q_dropped : nat; q_truncated : nat;
  q_max_bytes : nat; q_max_age : Z;
  q_policy : full_policy; q_name : list byte
}.

Definition BB_QUEUE_NAME_MAX : nat := 24.

Definition bb_queue_bytes_used_sub (bytes_used len : nat) : nat := if (len <=? bytes_used)%nat then (bytes_used - len)%nat else 0%nat.

(** The fields a ring's operations change. *)
Definition set_ring (es : list queue_entry) (pl : list (list byte)) (head tail count bytes dropped : nat) (q : queue) : queue :=
  mk_queue (q_capacity q) (q_max_entry q) es pl head tail count bytes dropped (q_truncated q)
    (q_max_bytes q) (q_max_age q) (q_policy q) (q_name q).
Definition set_truncated (n : nat) (q : queue) : queue :=
  mk_queue (q_capacity q) (q_max_entry q) (q_entries q) (q_payload q) (q_head q) (q_tail q) (q_count q) (q_bytes_used q) (q_dropped q) n
    (q_max_bytes q) (q_max_age q) (q_policy q) (q_name q).

Definition entry0 : queue_entry := mk_qentry 0 0 0.
Definition entry_at (q : queue) (slot : nat) : queue_entry := nth slot (q_entries q) entry0.

(** A created ring: calloc'ed arrays. *)
Definition queue_made (cfg : queue_cfg) (policy : full_policy) : queue :=
  mk_queue (qc_capacity_entries cfg) (qc_max_entry_bytes cfg)
    (repeat entry0 (qc_capacity_entries cfg)) (repeat (repeat x00 (qc_max_entry_bytes cfg)) (qc_capacity_entries cfg))
    0 0 0 0 0 0 (qc_max_bytes cfg) (qc_max_age cfg) policy
    (match qc_name cfg with
     | Some name => cstr (bb_strlcpy (repeat x00 BB_QUEUE_NAME_MAX) name BB_QUEUE_NAME_MAX).2
     | None => []
     end).

(** The configuration check of bb_queue_create. *)
Definition queue_cfg_check (cfg : option queue_cfg) (out_ok : bool) : option (queue_cfg * full_policy) :=
  match cfg with
  | None => None
  | Some cfg =>
      if (qc_capacity_entries cfg =? 0)%nat || (qc_max_entry_bytes cfg =? 0)%nat || negb out_ok then None else
      match qc_policy cfg with
      | None => None
      | Some policy =>
          if (0 <? qc_max_bytes cfg)%nat && (qc_max_bytes cfg <? qc_max_entry_bytes cfg)%nat then None else Some (cfg, policy)
      end
  end.

(** One removal of the oldest entry, as the eviction loops make it. *)
Definition drop_oldest (q : queue) : queue :=
  set_ring (q_entries q) (q_payload q) (q_head q) ((q_tail q + 1) mod q_capacity q) (q_count q - 1)
    (bb_queue_bytes_used_sub (q_bytes_used q) (qe_len (entry_at q (q_tail q)))) (S (q_dropped q)) q.

(** The age of an entry at [now], 0 for a clock that went back. *)
Definition age_at (now ts : Z) : Z := let delta := now - ts in if 0 <? delta then delta else 0.
Definition entry_expired (max_age now ts : Z) : bool :=
  match bb_age_classify (age_at now ts) 0 max_age with BB_AGE_EVICT => true | _ => false end.

(** [fuel]: the count at the start. *)
Fixpoint evict_aged_loop (fuel : nat) (now : Z) (q : queue) (evicted : nat) : nat * queue :=
  match fuel with
  | O => (evicted, q)
  | S fuel =>
      if (0 <? q_count q)%nat && entry_expired (q_max_age q) now (qe_ts (entry_at q (q_tail q)))
      then evict_aged_loop fuel now (drop_oldest q) (S evicted) else (evicted, q)
  end.
Definition bb_queue_evict_aged (q : queue) (now : Z) : nat * queue :=
  if q_max_age q =? 0 then (0%nat, q) else evict_aged_loop (q_count q) now q 0.
Definition bb_queue_evict_expired := bb_queue_evict_aged.

Definition over_budget (q : queue) (len : nat) : bool :=
  (q_count q =? q_capacity q)%nat || ((0 <? q_max_bytes q)%nat && (q_max_bytes q <? q_bytes_used q + len)%nat).

Fixpoint evict_oldest_loop (fuel : nat) (len : nat) (q : queue) : queue :=
  match fuel with
  | O => q
  | S fuel => if (0 <? q_count q)%nat && over_budget q len then evict_oldest_loop fuel len (drop_oldest q) else q
  end.

(** The write of an entry at [write_idx]; [data] has [len] bytes. *)
Definition write_entry (write_idx : nat) (data : list byte) (ts id : Z) (q : queue) : queue :=
  let block := nth write_idx (q_payload q) [] in
  let pl := if (0 <? length data)%nat then <[write_idx := data ++ drop (length data) block]> (q_payload q) else q_payload q in
  set_ring (<[write_idx := mk_qentry id ts (length data)]> (q_entries q)) pl
    ((q_head q + 1) mod q_capacity q) (q_tail q) (S (q_count q)) (q_bytes_used q + length data) (q_dropped q) q.

Definition set_dropped (n : nat) (q : queue) : queue :=
  set_ring (q_entries q) (q_payload q) (q_head q) (q_tail q) (q_count q) (q_bytes_used q) n q.

(** [data = None]: NULL. *)
Definition bb_queue_push (data : option (list byte)) (len : nat) (ts id : Z) (q : queue) : bb_err * queue :=
  if (0 <? len)%nat && match data with None => true | _ => false end then (BB_ERR_INVALID_ARG, q) else
  if (q_max_entry q <? len)%nat then (BB_ERR_INVALID_ARG, set_truncated (S (q_truncated q)) q) else
  let q := if 0 <? q_max_age q then (bb_queue_evict_aged q ts).2 else q in
  let write_idx := q_head q in
  if over_budget q len then
    match q_policy q with
    | BB_QUEUE_REJECT_NEW => (BB_ERR_NO_SPACE, set_dropped (S (q_dropped q)) q)
    | BB_QUEUE_EVICT_OLDEST =>
        (BB_OK, write_entry write_idx (take len (default [] data)) ts id (evict_oldest_loop (q_count q) len q))
    end
  else (BB_OK, write_entry write_idx (take len (default [] data)) ts id q).

(** What a peek answers: the code and, on success, the length, timestamp, id
    and the bytes copied. *)
Definition peeked : Type := bb_err * option (nat * Z * Z * list byte).

(** [cap]: the buffer's size, 0 when there is none; [outs_ok]: the three output
    pointers. *)
Definition peek_slot (q : queue) (slot cap : nat) : peeked :=
  let e := entry_at q slot in
  let copied := if (0 <? cap)%nat && (0 <? qe_len e)%nat
                then take (if (qe_len e <? cap)%nat then qe_len e else cap) (nth slot (q_payload q) []) else [] in
  (BB_OK, Some (qe_len e, qe_ts e, qe_id e, copied)).
Definition bb_queue_peek_oldest (q : queue) (cap : nat) (outs_ok : bool) : peeked :=
  if negb outs_ok then (BB_ERR_INVALID_ARG, None) else
  if (q_count q =? 0)%nat then (BB_ERR_NOT_FOUND, None) else peek_slot q (q_tail q) cap.
Definition bb_queue_peek_at (q : queue) (index cap : nat) (outs_ok : bool) : peeked :=
  if negb outs_ok then (BB_ERR_INVALID_ARG, None) else
  if (q_count q =? 0)%nat || (q_count q <=? index)%nat then (BB_ERR_NOT_FOUND, None) else
  peek_slot q ((q_tail q + index) mod q_capacity q) cap.
Definition bb_queue_pop_oldest (q : queue) : bb_err * queue :=
  if (q_count q =? 0)%nat then (BB_ERR_NOT_FOUND, q) else
  (BB_OK, set_ring (q_entries q) (q_payload q) (q_head q) ((q_tail q + 1) mod q_capacity q) (q_count q - 1)
     (bb_queue_bytes_used_sub (q_bytes_used q) (qe_len (entry_at q (q_tail q)))) (q_dropped q) q).

Definition bb_queue_count (q : option queue) : nat := match q with Some q => q_count q | None => 0%nat end.
Definition bb_queue_capacity (q : option queue) : nat := match q with Some q => q_capacity q | None => 0%nat end.
Definition bb_queue_bytes_used (q : option queue) : nat := match q with Some q => q_bytes_used q | None => 0%nat end.
Definition bb_queue_dropped (q : option queue) : nat := match q with Some q => q_dropped q | None => 0%nat end.
Definition bb_queue_truncated (q : option queue) : nat := match q with Some q => q_truncated q | None => 0%nat end.
Definition bb_queue_name (q : option queue) : list byte := match q with Some q => q_name q | None => [] end.

Definition bb_queue_clear (q : queue) : queue := set_ring (q_entries q) (q_payload q) 0 0 0 0 (q_dropped q) q.

(** * What a ring holds *)

(** Identifier, timestamp, payload. *)
Abbreviation item := (Z * Z * list byte)%type.
Definition item_bytes (x : item) : list byte := x.2.
Definition total (l : list item) : nat := list_sum (map (fun x => length (item_bytes x)) l).

(** The items, oldest first, and the two counters. *)
Record ring := mk_ring { ri_items : list item; ri_dropped : nat; ri_truncated : nat }.

Section RingSpec.
(** The fixed part of a ring. *)
Context (cap max_entry max_bytes : nat) (max_age : Z) (policy : full_policy).

Definition ring_full (l : list item) (len : nat) : bool :=
  (length l =? cap)%nat || ((0 <? max_bytes)%nat && (max_bytes <? total l + len)%nat).
Fixpoint drop_expired (now : Z) (l : list item) : list item :=
  match l with x :: l' => if entry_expired max_age now x.1.2 then drop_expired now l' else l | [] => [] end.
Definition swept (now : Z) (l : list item) : list item := if max_age =? 0 then l else drop_expired now l.
Fixpoint make_room (len : nat) (l : list item) : list item :=
  match l with x :: l' => if ring_full l len then make_room len l' else l | [] => [] end.

Definition ring_sweep (now : Z) (r : ring) : nat * ring :=
  let l := swept now (ri_items r) in
  let n := (length (ri_items r) - length l)%nat in (n, mk_ring l (ri_dropped r + n) (ri_truncated r)).
Definition ring_push (data : list byte) (ts id : Z) (r : ring) : bb_err * ring :=
  if (max_entry <? length data)%nat then (BB_ERR_INVALID_ARG, mk_ring (ri_items r) (ri_dropped r) (S (ri_truncated r))) else
  let r := (ring_sweep ts r).2 in
  if ring_full (ri_items r) (length data) then
    match policy with
    | BB_QUEUE_REJECT_NEW => (BB_ERR_NO_SPACE, mk_ring (ri_items r) (S (ri_dropped r)) (ri_truncated r))
    | BB_QUEUE_EVICT_OLDEST =>
        let l := make_room (length data) (ri_items r) in
        (BB_OK, mk_ring (l ++ [(id, ts, data)]) (ri_dropped r + (length (ri_items r) - length l)) (ri_truncated r))
    end
  else (BB_OK, mk_ring (ri_items r ++ [(id, ts, data)]) (ri_dropped r) (ri_truncated r)).
Definition ring_peek (index buf_cap : nat) (r : ring) : peeked :=
  match ri_items r !! index with
  | Some x => (BB_OK, Some (length (item_bytes x), x.1.2, x.1.1, take buf_cap (item_bytes x)))
  | None => (BB_ERR_NOT_FOUND, None)
  end.
Definition ring_pop (r : ring) : bb_err * ring :=
  match ri_items r with
  | [] => (BB_ERR_NOT_FOUND, r)
  | _ :: l => (BB_OK, mk_ring l (ri_dropped r) (ri_truncated r))
  end.
End RingSpec.

(** ** The ring holds them *)

Definition slot_of (q : queue) (i : nat) : nat := ((q_tail q + i) mod q_capacity q)%nat.
Record holds (q : queue) (slot : nat) (x : item) : Prop := {
  ho_entry : entry_at q slot = mk_qentry x.1.1 x.1.2 (length (item_bytes x));
  ho_bytes : take (length (item_bytes x)) (nth slot (q_payload q) []) = item_bytes x
}.
Record ring_rel (q : queue) (r : ring) : Prop := {
  qr_cap : (0 < q_capacity q)%nat;
  qr_entry : (0 < q_max_entry q)%nat;
  qr_arrays : length (q_entries q) = q_capacity q /\ length (q_payload q) = q_capacity q;
  qr_tail : (q_tail q < q_capacity q)%nat;
  qr_head : q_head q = slot_of q (q_count q);
  qr_count : q_count q = length (ri_items r) /\ (q_count q <= q_capacity q)%nat;
  qr_items : forall i x, ri_items r !! i = Some x -> holds q (slot_of q i) x;
  qr_bytes : q_bytes_used q = total (ri_items r);
  qr_budget : (q_max_bytes q = 0 \/ q_max_entry q <= q_max_bytes q)%nat;
  qr_dropped : q_dropped q = ri_dropped r;
  qr_truncated : q_truncated q = ri_truncated r;
  qr_age : 0 <= q_max_age q
}.

Lemma slot_lt q i : (0 < q_capacity q)%nat -> (slot_of q i < q_capacity q)%nat.
Proof. intros H. apply Nat.mod_upper_bound. lia. Qed.

(** Consecutive slots differ. *)
Lemma slot_inj q i j : (0 < q_capacity q)%nat -> (i < q_capacity q)%nat -> (j < q_capacity q)%nat -> slot_of q i = slot_of q j -> i = j.
Proof.
  unfold slot_of. intros Hc Hi Hj E. set (c := q_capacity q) in *. set (t := q_tail q) in *.
  pose proof (Nat.div_mod_eq (t + i) c) as H1. pose proof (Nat.div_mod_eq (t + j) c) as H2. rewrite E in H1.
  set (a := ((t + i) / c)%nat) in *. set (b := ((t + j) / c)%nat) in *. clearbody a b.
  assert (a = b) as -> by (destruct (Nat.lt_trichotomy a b) as [?|[?|?]]; [|done|]; exfalso; nia). lia.
Qed.
Lemma slot_step q i t' : (0 < q_capacity q)%nat -> t' = ((q_tail q + 1) mod q_capacity q)%nat ->
  ((t' + i) mod q_capacity q)%nat = slot_of q (S i).
Proof.
  intros Hc ->. unfold slot_of. rewrite Nat.Div0.add_mod_idemp_l. f_equal. lia.
Qed.

Lemma total_cons x l : total (x :: l) = (length (item_bytes x) + total l)%nat.
Proof. done. Qed.
Lemma total_snoc l x : total (l ++ [x]) = (total l + length (item_bytes x))%nat.
Proof. unfold total. rewrite map_app, list_sum_app. cbn. lia. Qed.

(** Removing the oldest. *)
Lemma tail_advance q r x l d : ring_rel q r -> ri_items r = x :: l ->
  ring_rel (set_ring (q_entries q) (q_payload q) (q_head q) ((q_tail q + 1) mod q_capacity q) (q_count q - 1)
    (bb_queue_bytes_used_sub (q_bytes_used q) (qe_len (entry_at q (q_tail q)))) d q) (mk_ring l d (ri_truncated r)).
Proof.
  intros [H1 H2 H3 H4 H5 H6 H7 H8 H9 H10 H11] E. rewrite E in *. cbn [length] in H6.
  assert (Ht : slot_of q 0 = q_tail q) by (unfold slot_of; rewrite Nat.add_0_r; by apply Nat.mod_small).
  pose proof (H7 0%nat x eq_refl) as [He _]. rewrite Ht in He.
  split; cbn [q_capacity q_max_entry q_entries q_payload q_tail q_head q_count q_bytes_used q_max_bytes q_dropped q_truncated ri_items ri_dropped ri_truncated set_ring]; try done.
  - apply Nat.mod_upper_bound. lia.
  - rewrite H5. unfold slot_of at 2. cbn [q_tail q_capacity set_ring]. rewrite (slot_step q (q_count q - 1) _ H1 eq_refl). destruct H6 as [H6 _]. f_equal. lia.
  - lia.
  - intros i y Hy. destruct (H7 (S i) y Hy) as [H12 H13].
    unfold slot_of. cbn [q_tail q_capacity set_ring]. rewrite (slot_step q i _ H1 eq_refl). by split.
  - rewrite He, H8, total_cons. cbn [qe_len]. unfold bb_queue_bytes_used_sub.
    rewrite (proj2 (Nat.leb_le _ _)) by lia. lia.
Qed.
Lemma drop_oldest_rel q r x l : ring_rel q r -> ri_items r = x :: l ->
  ring_rel (drop_oldest q) (mk_ring l (S (ri_dropped r)) (ri_truncated r)).
Proof. intros Hr E. rewrite <- (qr_dropped _ _ Hr). by apply (tail_advance q r x). Qed.

(** The fixed part does not change. *)
Definition same_kind (q q' : queue) : Prop :=
  q_capacity q' = q_capacity q /\ q_max_entry q' = q_max_entry q /\ q_max_bytes q' = q_max_bytes q /\ q_max_age q' = q_max_age q /\
  q_policy q' = q_policy q /\ q_name q' = q_name q.

Lemma oldest_ts q r x l : ring_rel q r -> ri_items r = x :: l -> qe_ts (entry_at q (q_tail q)) = x.1.2.
Proof.
  intros Hr E. destruct (qr_items _ _ Hr 0%nat x) as [He _]; [by rewrite E|].
  unfold slot_of in He. rewrite Nat.add_0_r, Nat.mod_small in He by apply Hr. by rewrite He.
Qed.

Lemma evict_aged_rel now : forall fuel q r n, ring_rel q r -> (length (ri_items r) <= fuel)%nat ->
  let l := drop_expired (q_max_age q) now (ri_items r) in
  let k := (length (ri_items r) - length l)%nat in
  let a := evict_aged_loop fuel now q n in
  a.1 = (n + k)%nat /\ ring_rel a.2 (mk_ring l (ri_dropped r + k) (ri_truncated r)) /\ same_kind q a.2.
Proof.
  induction fuel as [|fuel IH]; intros q r n Hr Hf; cbv zeta.
  - destruct r as [l d t]. cbn [ri_items ri_dropped ri_truncated] in *. destruct l; [|cbn in Hf; lia]. cbn. rewrite !Nat.add_0_r. by split_and!.
  - destruct (ri_items r) as [|x l] eqn:E.
    + cbn [evict_aged_loop]. rewrite (proj1 (qr_count _ _ Hr)), E. cbn. rewrite !Nat.add_0_r. destruct r; cbn in *; subst. by split_and!.
    + cbn [evict_aged_loop]. rewrite (proj1 (qr_count _ _ Hr)), E, (oldest_ts q r x l Hr E). cbn [length Nat.ltb Nat.leb]. change (0 <? S (length l))%nat with true.
      cbn [andb drop_expired].
      destruct (entry_expired (q_max_age q) now x.1.2); cbn [length].
      * pose proof (drop_oldest_rel q r x l Hr E) as Hd.
        destruct (IH (drop_oldest q) _ (S n) Hd) as (H1 & H2 & H3); [cbn [length ri_items] in *; lia|].
        cbn [ri_items ri_dropped ri_truncated] in *. change (q_max_age (drop_oldest q)) with (q_max_age q) in *.
        assert (Hle : (length (drop_expired (q_max_age q) now l) <= length l)%nat).
        { clear. induction l as [|y l IH]; cbn; [done|]. destruct (entry_expired _ _ _); cbn; lia. }
        split_and!; [lia| |done]. replace (ri_dropped r + (S (length l) - length (drop_expired (q_max_age q) now l)))%nat
          with (S (ri_dropped r) + (length l - length (drop_expired (q_max_age q) now l)))%nat by lia. done.
      * rewrite Nat.sub_diag, !Nat.add_0_r. destruct r; cbn in *; subst. by split_and!.
Qed.

Lemma sweep_rel now q r : ring_rel q r -> let a := bb_queue_evict_aged q now in
  a.1 = (ring_sweep (q_max_age q) now r).1 /\ ring_rel a.2 (ring_sweep (q_max_age q) now r).2 /\ same_kind q a.2.
Proof.
  intros Hr. unfold bb_queue_evict_aged, ring_sweep, swept. destruct (q_max_age q =? 0).
  - rewrite Nat.sub_diag, Nat.add_0_r. destruct r. by split_and!.
  - apply (evict_aged_rel now (q_count q) q r 0 Hr). rewrite (proj1 (qr_count _ _ Hr)). lia.
Qed.

Lemma over_full q r len : ring_rel q r -> over_budget q len = ring_full (q_capacity q) (q_max_bytes q) (ri_items r) len.
Proof. intros Hr. unfold over_budget, ring_full. by rewrite (proj1 (qr_count _ _ Hr)), (qr_bytes _ _ Hr). Qed.

Lemma make_room_rel len : forall fuel q r, ring_rel q r -> (length (ri_items r) <= fuel)%nat ->
  let l := make_room (q_capacity q) (q_max_bytes q) len (ri_items r) in
  let q' := evict_oldest_loop fuel len q in
  ring_rel q' (mk_ring l (ri_dropped r + (length (ri_items r) - length l)) (ri_truncated r)) /\ same_kind q q' /\
  q_head q' = q_head q.
Proof.
  induction fuel as [|fuel IH]; intros q r Hr Hf; cbv zeta.
  - destruct r as [l d t]. cbn [ri_items ri_dropped ri_truncated] in *. destruct l; [|cbn in Hf; lia]. cbn. rewrite !Nat.add_0_r. by split_and!.
  - destruct (ri_items r) as [|x l] eqn:E.
    + cbn [evict_oldest_loop]. rewrite (proj1 (qr_count _ _ Hr)), E. cbn. rewrite !Nat.add_0_r. destruct r; cbn in *; subst. by split_and!.
    + cbn [evict_oldest_loop]. rewrite (over_full q r len Hr), (proj1 (qr_count _ _ Hr)), E. cbn [length]. change (0 <? S (length l))%nat with true.
      cbn [andb make_room]. destruct (ring_full (q_capacity q) (q_max_bytes q) (x :: l) len).
      * pose proof (drop_oldest_rel q r x l Hr E) as Hd.
        destruct (IH (drop_oldest q) _ Hd) as (H1 & H2 & H3); [cbn [length ri_items] in *; lia|].
        cbn [ri_items ri_dropped ri_truncated] in *. change (q_capacity (drop_oldest q)) with (q_capacity q) in *.
        change (q_max_bytes (drop_oldest q)) with (q_max_bytes q) in *.
        assert (Hle : (length (make_room (q_capacity q) (q_max_bytes q) len l) <= length l)%nat).
        { clear. induction l as [|y l IH]; cbn [make_room]; [done|]. destruct (ring_full _ _ _ _); cbn [length]; lia. }
        split_and!; [|done|done]. replace (ri_dropped r + (S (length l) - length (make_room (q_capacity q) (q_max_bytes q) len l)))%nat
          with (S (ri_dropped r) + (length l - length (make_room (q_capacity q) (q_max_bytes q) len l)))%nat by lia. done.
      * cbn [length]. rewrite Nat.sub_diag, !Nat.add_0_r. destruct r; cbn in *; subst. by split_and!.
Qed.

(** After making room there is room, for an entry that is not too long. *)
Lemma make_room_fits cap max_bytes len l : (0 < cap)%nat -> (length l <= cap)%nat -> (max_bytes = 0 \/ len <= max_bytes)%nat ->
  ring_full cap max_bytes (make_room cap max_bytes len l) len = false /\ (length (make_room cap max_bytes len l) < cap)%nat.
Proof.
  intros Hc Hl Hb.
  assert (Hgo : forall l, (length l <= cap)%nat -> ring_full cap max_bytes l len = false -> (length l < cap)%nat).
  { intros l' Hl' H. unfold ring_full in H. apply orb_false_iff in H as [H%Nat.eqb_neq _]. lia. }
  induction l as [|x l IH]; cbn [make_room].
  - assert (H : ring_full cap max_bytes [] len = false).
    { unfold ring_full. cbn [length total map list_sum fold_right]. destruct (Nat.eqb_spec 0 cap); [lia|]. cbn [orb].
      destruct (Nat.ltb_spec 0 max_bytes); [|done]. cbn [andb]. apply Nat.ltb_ge. unfold total. cbn. lia. }
    split; [done|]. cbn. lia.
  - destruct (ring_full cap max_bytes (x :: l) len) eqn:E; [apply IH; cbn in Hl; lia|]. split; [done|]. by apply Hgo.
Qed.

Lemma take_app_exact {A} (a b : list A) : take (length a) (a ++ b) = a.
Proof. by rewrite take_app_length. Qed.

(** Writing a new entry. *)
Lemma write_rel q r data ts id : ring_rel q r -> (length (ri_items r) < q_capacity q)%nat -> (length data <= q_max_entry q)%nat ->
  ring_rel (write_entry (q_head q) data ts id q) (mk_ring (ri_items r ++ [(id, ts, data)]) (ri_dropped r) (ri_truncated r)) /\
  same_kind q (write_entry (q_head q) data ts id q).
Proof.
  intros [H1 H2 H3 H4 H5 H6 H7 H8 H9 H10 H11] Hl Hd. destruct H3 as [H3 H3'].
  assert (Hh : (q_head q < q_capacity q)%nat) by (rewrite H5; by apply slot_lt).
  split; [|by split_and!]. unfold write_entry.
  split; cbn [q_capacity q_max_entry q_entries q_payload q_tail q_head q_count q_bytes_used q_max_bytes q_dropped q_truncated ri_items ri_dropped ri_truncated set_ring]; try done.
  - split; [by rewrite length_insert|]. destruct (0 <? length data)%nat; [by rewrite length_insert|done].
  - rewrite H5. unfold slot_of. cbn [q_tail q_capacity set_ring]. rewrite Nat.Div0.add_mod_idemp_l. f_equal. lia.
  - rewrite length_app. cbn. lia.
  - intros i x Hx. unfold slot_of. cbn [q_tail q_capacity set_ring]. fold (slot_of q i).
    apply lookup_app_Some in Hx as [Hx|[Hi Hx]].
    + pose proof (lookup_lt_Some _ _ _ Hx) as Hlt.
      assert (Hne : slot_of q i <> q_head q) by (rewrite H5; intros Heq%slot_inj; lia).
      destruct (H7 i x Hx) as [H12 H13]. split.
      * unfold entry_at in *. cbn [q_entries set_ring]. rewrite <- H12, !nth_lookup. by rewrite list_lookup_insert_ne.
      * cbn [q_payload set_ring]. destruct (0 <? length data)%nat; [|done]. rewrite <- H13 at 2.
        f_equal. by rewrite !nth_lookup, list_lookup_insert_ne.
    + assert (i = length (ri_items r)) as -> by (apply lookup_lt_Some in Hx; cbn in Hx; lia). rewrite Nat.sub_diag in Hx. injection Hx as <-.
      rewrite <- (proj1 H6), <- H5. unfold item_bytes. cbn [fst snd]. split.
      * unfold entry_at. cbn [q_entries set_ring]. rewrite nth_lookup, list_lookup_insert_eq by lia. done.
      * cbn [q_payload set_ring item_bytes snd fst]. destruct (Nat.ltb_spec 0 (length data)) as [Hp|Hp]; [|by destruct data; [|cbn in Hp; lia]].
        rewrite nth_lookup, list_lookup_insert_eq by lia. cbn [default from_option]. apply take_app_exact.
  - by rewrite H8, total_snoc.
Qed.

Lemma same_kind_trans q1 q2 q3 : same_kind q1 q2 -> same_kind q2 q3 -> same_kind q1 q3.
Proof. intros (?&?&?&?&?&?) (?&?&?&?&?&?). unfold same_kind. split_and!; congruence. Qed.

(** ** Operations *)

Lemma set_truncated_rel q r : ring_rel q r -> ring_rel (set_truncated (S (q_truncated q)) q) (mk_ring (ri_items r) (ri_dropped r) (S (ri_truncated r))).
Proof. intros []. split; try done; [|cbn; congruence]. intros i x Hi. destruct (qr_items0 i x Hi). by split. Qed.
Lemma set_dropped_rel q r : ring_rel q r -> ring_rel (set_dropped (S (q_dropped q)) q) (mk_ring (ri_items r) (S (ri_dropped r)) (ri_truncated r)).
Proof. intros []. split; try done; [|cbn; congruence]. intros i x Hi. destruct (qr_items0 i x Hi). by split. Qed.

Lemma push_rel q r data ts id : ring_rel q r ->
  let a := bb_queue_push (Some data) (length data) ts id q in
  let s := ring_push (q_capacity q) (q_max_entry q) (q_max_bytes q) (q_max_age q) (q_policy q) data ts id r in
  a.1 = s.1 /\ ring_rel a.2 s.2 /\ same_kind q a.2.
Proof.
  intros Hr. unfold bb_queue_push, ring_push. rewrite andb_false_r. destruct (Nat.ltb_spec (q_max_entry q) (length data)) as [Hl|Hl].
  { split_and!; [done|by apply set_truncated_rel|by split_and!]. }
  assert (Hsw : (if 0 <? q_max_age q then (bb_queue_evict_aged q ts).2 else q) = (bb_queue_evict_aged q ts).2).
  { destruct (Z.ltb_spec 0 (q_max_age q)); [done|]. pose proof (qr_age _ _ Hr). unfold bb_queue_evict_aged.
    by rewrite (proj2 (Z.eqb_eq (q_max_age q) 0)) by lia. }
  rewrite Hsw. destruct (sweep_rel ts q r Hr) as (_ & Hr1 & Hk). destruct Hk as (K1 & K2 & K3 & K4 & K5 & K6).
  set (q1 := (bb_queue_evict_aged q ts).2) in *. set (r1 := (ring_sweep (q_max_age q) ts r).2) in *. cbv zeta.
  assert (Hk1 : same_kind q q1) by by split_and!. clearbody q1 r1. rewrite (over_full q1 r1 _ Hr1), K1, K3, K5.
  rewrite firstn_all. cbn [default from_option]. destruct (ring_full _ _ _ _) eqn:Ef; [destruct (q_policy q)|].
  - destruct (make_room_rel (length data) (q_count q1) q1 r1 Hr1) as (H2 & H3 & H4); [rewrite (proj1 (qr_count _ _ Hr1)); lia|].
    pose proof H3 as (K7 & K8 & K9 & K10 & K11 & K12).
    destruct (make_room_fits (q_capacity q1) (q_max_bytes q1) (length data) (ri_items r1)) as [_ Hlt].
    { apply Hr1. } { rewrite <- (proj1 (qr_count _ _ Hr1)). apply Hr1. } { pose proof (qr_budget _ _ Hr1). lia. }
    rewrite K1, K3 in *. set (q2 := evict_oldest_loop _ _ _) in *. clearbody q2. rewrite <- H4.
    match type of H2 with ring_rel _ ?r2 => destruct (write_rel q2 r2 data ts id H2) as [H5 H6] end; cbn [ri_items]; [lia|lia|].
    cbn [fst snd]. split_and!; [done|exact H5|]. by eapply same_kind_trans; [|eapply same_kind_trans].
  - cbn [fst snd]. split_and!; [done|by apply set_dropped_rel|done].
  - destruct (write_rel q1 r1 data ts id Hr1) as [H5 H6]; [| lia |].
    { unfold ring_full in Ef. apply orb_false_iff in Ef as [Ef%Nat.eqb_neq _]. pose proof (qr_count _ _ Hr1). lia. }
    cbn [fst snd]. split_and!; [done|exact H5|]. by eapply same_kind_trans.
Qed.

Lemma peek_slot_rel q r i x cap : ring_rel q r -> ri_items r !! i = Some x ->
  peek_slot q (slot_of q i) cap = (BB_OK, Some (length (item_bytes x), x.1.2, x.1.1, take cap (item_bytes x))).
Proof.
  intros Hr Hx. destruct (qr_items _ _ Hr i x Hx) as [He Hb]. unfold peek_slot. rewrite He. cbn [qe_len qe_ts qe_id].
  assert (Htk : forall n, (n <= length (item_bytes x))%nat -> take n (nth (slot_of q i) (q_payload q) []) = take n (item_bytes x)).
  { intros n Hn. rewrite <- (Nat.min_l n _ Hn) at 1. by rewrite <- take_take, Hb. }
  do 3 f_equal. destruct (Nat.ltb_spec 0 cap) as [Hc|Hc]; cbn [andb].
  - destruct (Nat.ltb_spec 0 (length (item_bytes x))) as [Hl|Hl]; [|destruct (item_bytes x); [by rewrite take_nil|cbn in Hl; lia]].
    destruct (Nat.ltb_spec (length (item_bytes x)) cap); rewrite Htk by lia; [|done]. rewrite firstn_all, take_ge; [done|lia].
  - by replace cap with 0%nat by lia.
Qed.
Lemma peek_rel q r i cap : ring_rel q r -> bb_queue_peek_at q i cap true = ring_peek i cap r.
Proof.
  intros Hr. destruct (qr_count _ _ Hr) as [Hc _]. unfold bb_queue_peek_at, ring_peek. cbn [negb]. rewrite Hc.
  destruct (ri_items r !! i) as [x|] eqn:Hx.
  - pose proof (lookup_lt_Some _ _ _ Hx). rewrite (proj2 (Nat.eqb_neq _ _)), (proj2 (Nat.leb_gt _ _)) by lia. by apply peek_slot_rel with r.
  - apply lookup_ge_None in Hx. rewrite (proj2 (Nat.leb_le _ _)) by lia. by rewrite orb_true_r.
Qed.
Lemma peek_oldest_rel q r cap : ring_rel q r -> bb_queue_peek_oldest q cap true = ring_peek 0 cap r.
Proof.
  intros Hr. rewrite <- (peek_rel q r 0 cap Hr). unfold bb_queue_peek_oldest, bb_queue_peek_at. cbn [negb].
  replace (q_count q <=? 0)%nat with (q_count q =? 0)%nat by (destruct (q_count q); done). rewrite orb_diag, Nat.add_0_r.
  rewrite Nat.mod_small by apply Hr. done.
Qed.
Lemma pop_rel q r : ring_rel q r -> let a := bb_queue_pop_oldest q in
  a.1 = (ring_pop r).1 /\ ring_rel a.2 (ring_pop r).2 /\ same_kind q a.2.
Proof.
  intros Hr. unfold bb_queue_pop_oldest, ring_pop. rewrite (proj1 (qr_count _ _ Hr)). destruct (ri_items r) as [|x l] eqn:E; cbn [length Nat.eqb fst snd].
  - by split_and!.
  - split_and!; [done| |by split_and!]. rewrite <- (qr_dropped _ _ Hr). change (S (length l)) with (length (x :: l)). rewrite <- E, <- (proj1 (qr_count _ _ Hr)).
    by apply (tail_advance q r x).
Qed.
Lemma clear_rel q r : ring_rel q r -> ring_rel (bb_queue_clear q) (mk_ring [] (ri_dropped r) (ri_truncated r)) /\ same_kind q (bb_queue_clear q).
Proof.
  intros [H1 H2 H3 H4 H5 H6 H7 H8 H9 H10 H11 H12]. split; [|by split_and!]. split; try done; cbn; try lia.
  unfold slot_of. cbn. symmetry. apply Nat.mod_small. lia.
Qed.
Lemma made_rel cfg policy : queue_cfg_check (Some cfg) true = Some (cfg, policy) -> 0 <= qc_max_age cfg ->
  ring_rel (queue_made cfg policy) (mk_ring [] 0 0).
Proof.
  unfold queue_cfg_check. rewrite orb_false_r.
  destruct (Nat.eqb_spec (qc_capacity_entries cfg) 0); [done|]. destruct (Nat.eqb_spec (qc_max_entry_bytes cfg) 0); [done|]. cbn [orb].
  destruct (qc_policy cfg) as [p|]; [|done]. intros H Ha. split; cbn; try done; try lia.
  - by rewrite !repeat_length.
  - unfold slot_of. cbn. symmetry. apply Nat.mod_small. lia.
  - destruct (Nat.ltb_spec 0 (qc_max_bytes cfg)); [|lia]. destruct (Nat.ltb_spec (qc_max_bytes cfg) (qc_max_entry_bytes cfg)); [done|lia].
Qed.

(** * One ring under any sequence of calls *)

Inductive queue_call : Type :=
  | Push (data : list byte) (ts id : Z)
  | PushNull (len : nat) (ts id : Z)
  | PeekOldest (cap : nat) | PeekAt (index cap : nat) | Pop | Clear | EvictExpired (now : Z) | Stats.
Inductive queue_answer : Type :=
  | ACode (e : bb_err) | APeek (p : peeked) | AUnit | AEvicted (n : nat)
  | AStats (count capacity bytes_used dropped truncated : nat) (name : list byte).

Definition queue_call_step (c : queue_call) (q : queue) : queue_answer * queue :=
  match c with
  | Push data ts id => let a := bb_queue_push (Some data) (length data) ts id q in (ACode a.1, a.2)
  | PushNull len ts id => let a := bb_queue_push None len ts id q in (ACode a.1, a.2)
  | PeekOldest cap => (APeek (bb_queue_peek_oldest q cap true), q)
  | PeekAt index cap => (APeek (bb_queue_peek_at q index cap true), q)
  | Pop => let a := bb_queue_pop_oldest q in (ACode a.1, a.2)
  | Clear => (AUnit, bb_queue_clear q)
  | EvictExpired now => let a := bb_queue_evict_expired q now in (AEvicted a.1, a.2)
  | Stats => (AStats (bb_queue_count (Some q)) (bb_queue_capacity (Some q)) (bb_queue_bytes_used (Some q)) (bb_queue_dropped (Some q))
                (bb_queue_truncated (Some q)) (bb_queue_name (Some q)), q)
  end.
Definition ring_call_step (cfg : queue_cfg) (policy : full_policy) (name : list byte) (c : queue_call) (r : ring) : queue_answer * ring :=
  let push := ring_push (qc_capacity_entries cfg) (qc_max_entry_bytes cfg) (qc_max_bytes cfg) (qc_max_age cfg) policy in
  match c with
  | Push data ts id => let a := push data ts id r in (ACode a.1, a.2)
  | PushNull len ts id => if (len =? 0)%nat then let a := push [] ts id r in (ACode a.1, a.2) else (ACode BB_ERR_INVALID_ARG, r)
  | PeekOldest cap => (APeek (ring_peek 0 cap r), r)
  | PeekAt index cap => (APeek (ring_peek index cap r), r)
  | Pop => let a := ring_pop r in (ACode a.1, a.2)
  | Clear => (AUnit, mk_ring [] (ri_dropped r) (ri_truncated r))
  | EvictExpired now => let a := ring_sweep (qc_max_age cfg) now r in (AEvicted a.1, a.2)
  | Stats => (AStats (length (ri_items r)) (qc_capacity_entries cfg) (total (ri_items r)) (ri_dropped r) (ri_truncated r) name, r)
  end.
Fixpoint run_calls {S} (step : queue_call -> S -> queue_answer * S) (cs : list queue_call) (s : S) : list queue_answer * S :=
  match cs with
  | [] => ([], s)
  | c :: cs => let a := step c s in let b := run_calls step cs a.2 in (a.1 :: b.1, b.2)
  end.

(** The fixed part of [q] is that of [cfg]. *)
Definition kind_of (cfg : queue_cfg) (policy : full_policy) (name : list byte) (q : queue) : Prop :=
  q_capacity q = qc_capacity_entries cfg /\ q_max_entry q = qc_max_entry_bytes cfg /\ q_max_bytes q = qc_max_bytes cfg /\
  q_max_age q = qc_max_age cfg /\ q_policy q = policy /\ q_name q = name.
Lemma kind_same cfg policy name q q' : kind_of cfg policy name q -> same_kind q q' -> kind_of cfg policy name q'.
Proof. unfold kind_of, same_kind. naive_solver congruence. Qed.

Lemma call_step_rel cfg policy name c q r : kind_of cfg policy name q -> ring_rel q r ->
  let a := queue_call_step c q in let s := ring_call_step cfg policy name c r in
  a.1 = s.1 /\ ring_rel a.2 s.2 /\ kind_of cfg policy name a.2.
Proof.
  intros Hk Hr. assert (Hs : forall q', same_kind q q' -> kind_of cfg policy name q') by (intros; by eapply kind_same).
  pose proof Hk as (K1 & K2 & K3 & K4 & K5 & K6).
  assert (Hp : forall data ts id, let a := bb_queue_push (Some data) (length data) ts id q in
    let s := ring_push (qc_capacity_entries cfg) (qc_max_entry_bytes cfg) (qc_max_bytes cfg) (qc_max_age cfg) policy data ts id r in
    a.1 = s.1 /\ ring_rel a.2 s.2 /\ same_kind q a.2).
  { intros data ts id. cbv zeta. rewrite <- K1, <- K2, <- K3, <- K4, <- K5. by apply push_rel. }
  destruct c; cbn [queue_call_step ring_call_step]; cbv zeta; cbn [fst snd].
  - destruct (Hp data ts id) as (-> & H & H'). auto.
  - destruct (Nat.eqb_spec len 0) as [->|Hn].
    + change (bb_queue_push None 0 ts id q) with (bb_queue_push (Some []) (length (@nil byte)) ts id q). destruct (Hp [] ts id) as (-> & H & H'). auto.
    + unfold bb_queue_push. rewrite (proj2 (Nat.ltb_lt 0 len)) by lia. by cbn.
  - by rewrite (peek_oldest_rel q r).
  - by rewrite (peek_rel q r).
  - destruct (pop_rel q r Hr) as (-> & H & H'). auto.
  - destruct (clear_rel q r Hr). auto.
  - unfold bb_queue_evict_expired. destruct (sweep_rel now q r Hr) as (H1 & H2 & H3). rewrite K4 in *. rewrite H1. auto.
  - unfold bb_queue_count, bb_queue_capacity, bb_queue_bytes_used, bb_queue_dropped, bb_queue_truncated, bb_queue_name.
    rewrite (qr_bytes _ _ Hr), (qr_dropped _ _ Hr), (qr_truncated _ _ Hr), (proj1 (qr_count _ _ Hr)), K1, K6. by split_and!.
Qed.

(** A created ring answers every sequence of calls (pushes, peeks at any
    index, pops, age evictions, clears, the counters) exactly as a list of
    (id, timestamp, payload) items with two counters does: the items keep their
    order and bytes, the entry and byte budgets hold under both policies, an
    evicting ring drops exactly the oldest entries it must, and an entry older
    than the configured age goes when an entry is pushed. *)
Theorem queue_refines_ring cfg policy cs :
  queue_cfg_check (Some cfg) true = Some (cfg, policy) -> 0 <= qc_max_age cfg ->
  let q0 := queue_made cfg policy in
  let a := run_calls queue_call_step cs q0 in let s := run_calls (ring_call_step cfg policy (q_name q0)) cs (mk_ring [] 0 0) in
  a.1 = s.1 /\ ring_rel a.2 s.2.
Proof.
  intros Hc Ha. cbv zeta. pose proof (made_rel cfg policy Hc Ha) as Hr.
  assert (Hk : kind_of cfg policy (q_name (queue_made cfg policy)) (queue_made cfg policy)) by by split_and!.
  revert Hk Hr. generalize (q_name (queue_made cfg policy)) as name. intros name. generalize (queue_made cfg policy) as q, (mk_ring [] 0 0) as r.
  induction cs as [|c cs IH]; intros q r Hk Hr; [done|]. cbn [run_calls]. cbv zeta. cbn [fst snd].
  destruct (call_step_rel cfg policy name c q r Hk Hr) as (H1 & H2 & H3). destruct (IH _ _ H3 H2) as [H4 H5]. by rewrite H1, H4.
Qed.

Lemma queue_refines_ring_witness :
  let cfg := mk_qcfg 3 4 (Some BB_QUEUE_EVICT_OLDEST) (Some (bs "ring")) 6 100 in
  let cs := [Push (bs "abcd") 1 7; Push (bs "ef") 2 8; Push (bs "g") 3 9; PeekAt 0 8; EvictExpired 102; Stats] in
  queue_cfg_check (Some cfg) true = Some (cfg, BB_QUEUE_EVICT_OLDEST) /\
  (run_calls queue_call_step cs (queue_made cfg BB_QUEUE_EVICT_OLDEST)).1 =
    [ACode BB_OK; ACode BB_OK; ACode BB_OK; APeek (BB_OK, Some (2%nat, 2, 8, bs "ef")); AEvicted 1; AStats 1 3 1 2 0 (bs "ring")] /\
  (run_calls queue_call_step cs (queue_made cfg BB_QUEUE_EVICT_OLDEST)).1 =
  (run_calls (ring_call_step cfg BB_QUEUE_EVICT_OLDEST (bs "ring")) cs (mk_ring [] 0 0)).1.
Proof.
  split_and!; [vm_compute; reflexivity|vm_compute; reflexivity|].
  exact (proj1 (queue_refines_ring (mk_qcfg 3 4 (Some BB_QUEUE_EVICT_OLDEST) (Some (bs "ring")) 6 100) BB_QUEUE_EVICT_OLDEST
    [Push (bs "abcd") 1 7; Push (bs "ef") 2 8; Push (bs "g") 3 9; PeekAt 0 8; EvictExpired 102; Stats] eq_refl ltac:(done))).
Defined.

(** * The registry of rings *)

(** The rings by address, the static registry and whether its lock exists. *)
Record world := mk_world { w_rings : gmap Z queue; w_reg : bb_registry; w_ready : bool }.

(** registry_ensure_lock over bb_lock_once_ensure, one caller at a time:
    [init] says whether bb_lock_init succeeds, if it is called. *)
Definition ensure_lock (init : bool) (w : world) : bb_err * world :=
  if w_ready w then (BB_OK, w) else if init then (BB_OK, mk_world (w_rings w) (w_reg w) true) else (BB_ERR_NO_MEM, w).

Section RingRegistry.
(** The offset of [name] in struct bb_queue. *)
Context (off : Z) (Hoff : 0 <= off).
Definition name_ptr (a : Z) : Z := a + off.
(** The text at a ring's [name]. No text is read at a ring that was freed. *)
Definition text_at (rings : gmap Z queue) (p : Z) : list byte :=
  match rings !! (p - off) with Some q => q_name q | None => [] end.
Definition w_text (w : world) : Z -> list byte := text_at (w_rings w).

(** The caller's mutex makes each of these one step. *)
Definition bb_queue_registry_register (init : bool) (name a : Z) (w : world) : bb_err * world :=
  if (name =? 0) || (a =? 0) then (BB_ERR_INVALID_ARG, w) else
  let l := ensure_lock init w in
  let x := bb_registry_register (w_text w) l.1 name a (w_reg w) in
  (x.1, mk_world (w_rings w) x.2 (w_ready l.2)).

Definition find_by_value_cb (target : Z) (name value found : Z) : Z := if (found =? 0) && (value =? target) then name else found.

Definition bb_queue_registry_deregister (init : bool) (a : Z) (w : world) : bb_err * world :=
  if a =? 0 then (BB_ERR_INVALID_ARG, w) else
  let l := ensure_lock init w in
  let found := bb_registry_foreach l.1 (w_reg w) (Some (find_by_value_cb a)) 0 in
  if found =? 0 then (BB_ERR_NOT_FOUND, l.2) else
  let x := bb_registry_deregister (w_text w) l.1 found (w_reg w) in
  (x.1, mk_world (w_rings w) x.2 (w_ready l.2)).

Definition bb_queue_registry_count (init : bool) (w : world) : nat * world :=
  let l := ensure_lock init w in (bb_registry_count l.1 (w_reg w), l.2).
Definition bb_queue_registry_foreach {C} (init : bool) (cb : option (Z -> Z -> C -> C)) (ctx : C) (w : world) : C * world :=
  match cb with
  | None => (ctx, w)
  | Some cb => let l := ensure_lock init w in (bb_registry_foreach l.1 (w_reg w) (Some cb) ctx, l.2)
  end.

(** What the allocator answers for the struct, the entries and the payload. *)
Record allocs := mk_allocs { al_ring : option Z; al_entries : bool; al_payload : bool }.

(** The address of the new ring is 0 when there is none. *)
Definition bb_queue_create (al : allocs) (init : bool) (cfg : option queue_cfg) (out_ok : bool) (w : world) : bb_err * Z * world :=
  match queue_cfg_check cfg out_ok with
  | None => (BB_ERR_INVALID_ARG, 0, w)
  | Some (cfg, policy) =>
      match al_ring al with
      | None => (BB_ERR_NO_SPACE, 0, w)
      | Some a =>
          if negb (al_entries al) then (BB_ERR_NO_SPACE, 0, w) else
          if negb (al_payload al) then (BB_ERR_NO_SPACE, 0, w) else
          let w := mk_world (<[a := queue_made cfg policy]> (w_rings w)) (w_reg w) (w_ready w) in
          (BB_OK, a, (bb_queue_registry_register init (name_ptr a) a w).2)
      end
  end.
Definition bb_queue_destroy (init : bool) (a : Z) (w : world) : world :=
  if a =? 0 then w else
  let w := (bb_queue_registry_deregister init a w).2 in
  mk_world (delete a (w_rings w)) (w_reg w) (w_ready w).

(** ** Every sequence of calls *)

Inductive ring_op : Type :=
  | Create (al : allocs) (init : bool) (cfg : option queue_cfg) (out_ok : bool)
  | Destroy (init : bool) (a : Z)
  | Call (a : Z) (c : queue_call)
  | Deregister (init : bool) (a : Z)
  | Count (init : bool)
  | Foreach (init : bool).

(** What a diagnostic read copies out of each ring. *)
Definition snapshot_cb (rings : gmap Z queue) (_ value : Z) (acc : list (option queue)) : list (option queue) := acc ++ [rings !! value].

Inductive ring_op_answer : Type := RCreated (e : bb_err) (a : Z) | RDone | RCode (e : bb_err) | RCall (x : queue_answer) | RCount (n : nat) | RSeen (l : list (option queue)).

Definition ring_op_step (o : ring_op) (w : world) : ring_op_answer * world :=
  match o with
  | Create al init cfg out_ok => let x := bb_queue_create al init cfg out_ok w in (RCreated x.1.1 x.1.2, x.2)
  | Destroy init a => (RDone, bb_queue_destroy init a w)
  | Call a c =>
      match w_rings w !! a with
      | Some q => let x := queue_call_step c q in (RCall x.1, mk_world (<[a := x.2]> (w_rings w)) (w_reg w) (w_ready w))
      | None => (RDone, w)
      end
  | Deregister init a => let x := bb_queue_registry_deregister init a w in (RCode x.1, x.2)
  | Count init => let x := bb_queue_registry_count init w in (RCount x.1, x.2)
  | Foreach init => let x := bb_queue_registry_foreach init (Some (snapshot_cb (w_rings w))) [] w in (RSeen x.1, x.2)
  end.
(** calloc answers an address that is not NULL and not in use; a caller
    passes NULL or a live ring. *)
Definition ring_op_fine (w : world) (o : ring_op) : Prop :=
  match o with
  | Create al _ _ _ => forall a, al_ring al = Some a -> 0 < a /\ w_rings w !! a = None
  | Destroy _ a | Call a _ | Deregister _ a => a = 0 \/ is_Some (w_rings w !! a)
  | _ => True
  end.
Fixpoint ring_run (os : list ring_op) (w : world) : list ring_op_answer * world :=
  match os with [] => ([], w) | o :: os => let x := ring_op_step o w in let y := ring_run os x.2 in (x.1 :: y.1, y.2) end.
Fixpoint ring_run_fine (os : list ring_op) (w : world) : Prop :=
  match os with [] => True | o :: os => ring_op_fine w o /\ ring_run_fine os (ring_op_step o w).2 end.
Definition world0 (cap : nat) : world := mk_world ∅ (BB_REGISTRY_DEFINE cap) false.

(** ** The rings a read sees *)

(** The registered rings, in the order of their creation. *)
Definition registered (w : world) : list Z := map snd (live (w_reg w)).

Record world_wf (w : world) : Prop := {
  ww_reg : registry_wf (w_text w) false (w_reg w);
  ww_open : rg_frozen (w_reg w) = false;
  ww_live : Forall (fun e => e.1 = name_ptr e.2 /\ is_Some (w_rings w !! e.2)) (live (w_reg w));
  ww_nonnull : w_rings w !! 0 = None /\ map_Forall (fun a _ => 0 < a) (w_rings w);
  ww_ready : w_ready w = false -> live (w_reg w) = []
}.
(** What each operation does to the registered rings. *)
Definition name_free (w : world) (name : list byte) (l : list Z) : bool :=
  forallb (fun b => negb (bool_decide (text_at (w_rings w) (name_ptr b) = name))) l.
Definition order_step (cap : nat) (w : world) (o : ring_op) : list Z :=
  let l := registered w in
  match o with
  | Create al init cfg out_ok =>
      match queue_cfg_check cfg out_ok, al with
      | Some (cfg, policy), mk_allocs (Some a) true true =>
          if (w_ready w || init) && name_free w (q_name (queue_made cfg policy)) l && (length l <? cap)%nat then l ++ [a] else l
      | _, _ => l
      end
  | Destroy _ a | Deregister _ a => filter (fun b => b <> a) l
  | _ => l
  end.

Lemma text_of w a q : w_rings w !! a = Some q -> w_text w (name_ptr a) = q_name q.
Proof. intros H. unfold w_text, text_at, name_ptr. replace (a + off - off) with a by lia. by rewrite H. Qed.

(** The names of live rings stay. *)
Lemma wf_rings w rings' : world_wf w ->
  Forall (fun e => exists q q', w_rings w !! e.2 = Some q /\ rings' !! e.2 = Some q' /\ q_name q' = q_name q) (live (w_reg w)) ->
  rings' !! 0 = None -> map_Forall (fun a _ => 0 < a) rings' -> world_wf (mk_world rings' (w_reg w) (w_ready w)).
Proof.
  intros [H1 H2 H3 H4 H5] Hf H0 Hp. split; try done; cbn [w_rings w_reg w_ready].
  - eapply registry_wf_ext; [exact H1|]. rewrite Forall_forall in Hf, H3 |- *. intros e He. destruct (Hf e He) as (q & q' & Hq & Hq' & Hn).
    destruct (H3 e He) as [-> _]. by rewrite (text_of w _ q Hq), (text_of (mk_world rings' (w_reg w) (w_ready w)) _ q' Hq').
  - rewrite Forall_forall in Hf, H3 |- *. intros e He. destruct (Hf e He) as (q & q' & _ & Hq' & _). split; [by apply H3|by exists q'].
Qed.

Lemma ensure_wf init w : world_wf w -> world_wf (ensure_lock init w).2.
Proof.
  intros Hw. unfold ensure_lock. destruct (w_ready w) eqn:E; [done|]. destruct init; [|done].
  destruct Hw as [H1 H2 H3 H4 H5]. by split.
Qed.
Lemma ensure_same init w : w_rings (ensure_lock init w).2 = w_rings w /\ w_reg (ensure_lock init w).2 = w_reg w.
Proof. unfold ensure_lock. destruct (w_ready w); [done|]. by destruct init. Qed.
Lemma ensure_ok init w : is_ok (ensure_lock init w).1 = (w_ready w || init) /\ w_ready (ensure_lock init w).2 = (w_ready w || init).
Proof. unfold ensure_lock. destruct (w_ready w) eqn:E; [done|]. by destruct init. Qed.

(** Registering a live ring under its own name. *)
Lemma register_ring init a q w : world_wf w -> w_rings w !! a = Some q ->
  let w' := (bb_queue_registry_register init (name_ptr a) a w).2 in
  world_wf w' /\ w_rings w' = w_rings w /\ rg_capacity (w_reg w') = rg_capacity (w_reg w) /\
  registered w' = if (w_ready w || init) && name_free w (q_name q) (registered w) && (length (registered w) <? rg_capacity (w_reg w))%nat
    then registered w ++ [a] else registered w.
Proof.
  intros Hw Ha. pose proof (proj2 (ww_nonnull w Hw) a q Ha) as Hpos. cbn in Hpos. unfold bb_queue_registry_register, bb_registry_register.
  rewrite (proj2 (Z.eqb_neq (name_ptr a) 0)), (proj2 (Z.eqb_neq a 0)) by (unfold name_ptr; lia). cbn [orb]. cbv zeta.
  destruct (ensure_ok init w) as [E1 E2]. pose proof (rg_register_spec (w_text w) (ensure_lock init w).1 (name_ptr a) a false (w_reg w) (ww_reg w Hw)) as H.
  cbv zeta in H. rewrite E1, (ww_open w Hw) in H. cbn [negb] in H. rewrite andb_true_r in H.
  assert (Hfree : forallb (fun e => negb (has_key (w_text w) false (name_ptr a) e)) (live (w_reg w)) = name_free w (q_name q) (registered w)).
  { unfold name_free, registered. pose proof (ww_live w Hw) as Hl. clear H E1 E2. induction Hl as [|e l [He _] _ IH]; [done|]. cbn [map forallb].
    rewrite IH. unfold has_key at 1, same_key. by rewrite (text_of w a q Ha), He. }
  rewrite Hfree in H. unfold registered in *. rewrite length_map in *. cbn [fst snd w_reg w_rings].
  set (x := registry_register_common _ _ _ _ _ _) in *. clearbody x. destruct H as (H1 & H2 & H3 & H4).
  remember ((w_ready w || init) && _ && _) as b eqn:Eb. split_and!; [|done|done|].
  - destruct Hw as [W1 W2 W3 W4 W5]. split; cbn [w_rings w_reg w_ready]; [done|by rewrite H3| |done|].
    + destruct b; destruct H4 as [_ H4]; [rewrite H4; apply Forall_app; split; [done|]; by repeat constructor; eauto|by rewrite H4].
    + rewrite E2. intros Hn. apply orb_false_iff in Hn as [Hn Hi]. destruct b; destruct H4 as [_ H4]; [by rewrite Hn, Hi in Eb|rewrite H4; auto].
  - destruct b; destruct H4 as [_ H4]; rewrite H4; [|done]. by rewrite map_app.
Qed.
(** Deregistering by value. *)
Lemma find_by_value_first a l : Forall (fun e => e.1 = name_ptr e.2 /\ 0 < e.2) l ->
  fold_left (fun found e => find_by_value_cb a e.1 e.2 found) l 0 = if existsb (fun e => e.2 =? a) l then name_ptr a else 0.
Proof.
  assert (Hfix : forall l f, f <> 0 -> fold_left (fun found e => find_by_value_cb a e.1 e.2 found) l f = f).
  { clear l. induction l as [|e l IH]; intros f Hf; [done|]. cbn. unfold find_by_value_cb at 2. rewrite (proj2 (Z.eqb_neq f 0) Hf). by apply IH. }
  induction 1 as [|e l [He Hp] _ IH]; [done|]. cbn [fold_left existsb]. unfold find_by_value_cb at 2. change (0 =? 0) with true. cbn [andb].
  destruct (Z.eqb_spec e.2 a) as [Hea|Hne]; cbn [orb]; [|exact IH]. rewrite Hfix; [by rewrite He, Hea|]. rewrite He. unfold name_ptr. lia.
Qed.
Lemma filter_map_ne a (l : list entry) : filter (fun b => b <> a) (map snd l) = map snd (filter (fun e => e.2 <> a) l).
Proof. induction l as [|e l IH]; [done|]. cbn [map]. rewrite !filter_cons. destruct (decide (e.2 <> a)); [cbn [map]; by rewrite IH|done]. Qed.

Lemma live_pos w : world_wf w -> Forall (fun e => e.1 = name_ptr e.2 /\ 0 < e.2) (live (w_reg w)).
Proof.
  intros [_ _ W3 [_ W4] _]. eapply Forall_impl; [exact W3|]. intros e [He [q Hq]]. split; [done|]. exact (W4 _ _ Hq).
Qed.

(** The entry of a registered ring is found by its text alone. *)
Lemma remove_by_name w a : world_wf w -> existsb (fun e => e.2 =? a) (live (w_reg w)) = true ->
  remove_key (w_text w) false (name_ptr a) (live (w_reg w)) = filter (fun e => e.2 <> a) (live (w_reg w)).
Proof.
  intros Hw He. pose proof (live_pos w Hw) as Hp. pose proof (rw_keys _ _ _ (ww_reg w Hw)) as Hk. revert Hk Hp He. clear Hw.
  unfold remove_key. generalize (w_text w) as str. intros str.
  induction 1 as [|x l Hx Hk IH]; intros Hp He; [done|]. apply Forall_cons in Hp as [[Hxe Hx0] Hp]. rewrite !filter_cons.
  cbn [existsb] in He. destruct (Z.eqb_spec x.2 a) as [Hxa|Hxa].
  - rewrite decide_False by (unfold has_key, same_key; rewrite Hxe, Hxa, bool_decide_true; done). rewrite decide_False by tauto.
    clear IH He Hk. induction l as [|y l IHl]; [done|]. apply Forall_cons in Hx as [Hxy Hx]. apply Forall_cons in Hp as [[Hye _] Hp].
    unfold same_key in Hxy. apply bool_decide_eq_false in Hxy. rewrite !filter_cons, decide_True.
    + rewrite (decide_True (P := y.2 <> a)); [f_equal; by apply IHl|]. intros Hya. apply Hxy. by rewrite Hxe, Hye, Hxa, Hya.
    + unfold has_key, same_key. apply bool_decide_eq_false. intros Heq. apply Hxy. by rewrite Hxe, Hxa, Heq.
  - cbn [orb] in He. assert (Hna : str x.1 <> str (name_ptr a)).
    { apply existsb_exists in He as (y & Hy%list_elem_of_In & Hya%Z.eqb_eq). rewrite Forall_forall in Hx, Hp.
      specialize (Hx y Hy). destruct (Hp y Hy) as [Hye _]. rewrite Hya in Hye. unfold same_key in Hx. apply bool_decide_eq_false in Hx.
      by rewrite <- Hye. }
    rewrite decide_True by (unfold has_key, same_key; by apply bool_decide_eq_false). rewrite decide_True by done. f_equal. by apply IH.
Qed.

Lemma filter_none a (l : list entry) : existsb (fun e => e.2 =? a) l = false -> filter (fun e => e.2 <> a) l = l.
Proof.
  induction l as [|e l IH]; [done|]. cbn [existsb]. intros [He Hl]%orb_false_iff. apply Z.eqb_neq in He. rewrite filter_cons, decide_True by done.
  f_equal. by apply IH.
Qed.

Lemma deregister_ring init a w : world_wf w -> a = 0 \/ is_Some (w_rings w !! a) ->
  let w' := (bb_queue_registry_deregister init a w).2 in
  world_wf w' /\ w_rings w' = w_rings w /\ rg_capacity (w_reg w') = rg_capacity (w_reg w) /\
  registered w' = filter (fun b => b <> a) (registered w).
Proof.
  intros Hw Ha. cbv zeta. unfold registered. rewrite filter_map_ne. unfold bb_queue_registry_deregister.
  pose proof (live_pos w Hw) as Hp. destruct (Z.eqb_spec a 0) as [->|Hnz].
  { split_and!; try done. rewrite filter_none; [done|]. induction Hp as [|e l [_ He] _ IH]; [done|]. cbn [existsb].
    by rewrite (proj2 (Z.eqb_neq e.2 0)) by lia. }
  cbv zeta. unfold bb_registry_foreach, registry_snapshot. destruct (ensure_ok init w) as [E1 E2]. destruct (ensure_same init w) as [S1 S2].
  fold (live (w_reg w)). rewrite E1. destruct (w_ready w || init) eqn:Er; cbn [negb].
  - rewrite (find_by_value_first a _ Hp). destruct (existsb (fun e => e.2 =? a) (live (w_reg w))) eqn:Ef.
    + destruct Ha as [|[q Hq]]; [done|]. pose proof (proj2 (ww_nonnull w Hw) a q Hq) as Hpos. cbn in Hpos.
      unfold bb_registry_deregister. rewrite (proj2 (Z.eqb_neq (name_ptr a) 0)) by (unfold name_ptr; lia).
      pose proof (rg_deregister_spec (w_text w) (ensure_lock init w).1 (name_ptr a) false (w_reg w) (ww_reg w Hw)) as H. cbv zeta in H.
      rewrite E1, (ww_open w Hw) in H. cbn [andb negb] in H. destruct H as (H1 & H2 & H3 & _ & H4).
      rewrite (remove_by_name w a Hw Ef) in H4. cbn [fst snd w_reg w_rings]. split_and!; [|done|done|by rewrite H4].
      destruct Hw as [W1 W2 W3 W4 W5]. split; cbn [w_rings w_reg w_ready]; [done|done| |done|by rewrite E2].
      rewrite H4. apply Forall_forall. intros e [_ He]%list_elem_of_filter. rewrite Forall_forall in W3. by apply W3.
    + change (0 =? 0) with true. cbn [snd fst]. rewrite S1, S2, filter_none by done. split_and!; try done. by apply ensure_wf.
  - cbn [fold_left]. change (0 =? 0) with true. cbn [snd fst]. rewrite S1, S2. apply orb_false_iff in Er as [Er _].
    rewrite (ww_ready w Hw Er). split_and!; try done. by apply ensure_wf.
Qed.
(** Rings that stay or keep their names. *)
Lemma keep_rings w rings' : world_wf w -> (forall a q, w_rings w !! a = Some q -> a ∈ registered w -> exists q', rings' !! a = Some q' /\ q_name q' = q_name q) ->
  rings' !! 0 = None -> map_Forall (fun a _ => 0 < a) rings' -> world_wf (mk_world rings' (w_reg w) (w_ready w)).
Proof.
  intros Hw Hk H0 Hp. apply wf_rings; [done| |done|done]. pose proof (ww_live w Hw) as Hl. rewrite Forall_forall in Hl |- *. intros e He.
  destruct (Hl e He) as [_ [q Hq]]. destruct (Hk _ _ Hq) as (q' & Hq' & Hn); [apply list_elem_of_fmap; by exists e|]. by exists q, q'.
Qed.

Lemma call_keeps_name c q : q_name (queue_call_step c q).2 = q_name q.
Proof.
  assert (Hloop : forall fuel now q n, q_name (evict_aged_loop fuel now q n).2 = q_name q).
  { induction fuel as [|fuel IH]; intros now q' n; cbn; [done|]. destruct (_ && _); [|done]. by rewrite IH. }
  assert (Hag : forall now q, q_name (bb_queue_evict_aged q now).2 = q_name q).
  { intros. unfold bb_queue_evict_aged. destruct (_ =? _); [done|]. apply Hloop. }
  assert (Hroom : forall fuel len q, q_name (evict_oldest_loop fuel len q) = q_name q).
  { induction fuel as [|fuel IH]; intros len q'; cbn; [done|]. destruct (_ && _); [|done]. by rewrite IH. }
  assert (Hpush : forall d len ts id, q_name (bb_queue_push d len ts id q).2 = q_name q).
  { intros. unfold bb_queue_push. destruct (_ && _); [done|]. destruct (_ <? _)%nat; [done|]. cbv zeta.
    assert (Hq1 : q_name (if 0 <? q_max_age q then (bb_queue_evict_aged q ts).2 else q) = q_name q) by (destruct (0 <? _); [apply Hag|done]).
    set (q1 := if 0 <? q_max_age q then _ else q) in *. clearbody q1. destruct (over_budget _ _); [destruct (q_policy q1)|]; cbn; by rewrite ?Hroom. }
  destruct c; cbn [queue_call_step snd]; try apply Hpush; try apply Hag; try done. unfold bb_queue_pop_oldest. by destruct (_ =? _)%nat.
Qed.

Lemma ring_op_keeps cap w o : world_wf w -> rg_capacity (w_reg w) = cap -> ring_op_fine w o ->
  let w' := (ring_op_step o w).2 in
  world_wf w' /\ rg_capacity (w_reg w') = cap /\ registered w' = order_step cap w o.
Proof.
  intros Hw Hc Hf. destruct o as [al init cfg out_ok|init a|a c|init a|init|init]; cbn [ring_op_step order_step]; cbv zeta; cbn [snd].
  - unfold bb_queue_create. destruct (queue_cfg_check cfg out_ok) as [[cfg' policy]|]; [|done].
    destruct al as [[a|] es pl]; cbn [al_ring al_entries al_payload]; [|done]. destruct es; cbn [negb]; [|done]. destruct pl; cbn [negb]; [|done].
    destruct (Hf a eq_refl) as [Hpos Hfresh]. cbv zeta. cbn [snd].
    set (w1 := mk_world (<[a:=queue_made cfg' policy]> (w_rings w)) (w_reg w) (w_ready w)).
    assert (Hw1 : world_wf w1).
    { destruct (ww_nonnull w Hw) as [W4 W5]. apply keep_rings; [done| | |].
      - intros b q Hb _. exists q. by rewrite lookup_insert_ne by congruence.
      - rewrite lookup_insert_ne by lia. done.
      - by apply map_Forall_insert_2. }
    destruct (register_ring init a (queue_made cfg' policy) w1 Hw1) as (H1 & H2 & H3 & H4); [apply lookup_insert_eq|].
    split_and!; [done|by rewrite H3|]. rewrite H4. change (w_reg w1) with (w_reg w). change (w_ready w1) with (w_ready w).
    change (registered w1) with (registered w). rewrite Hc.
    replace (name_free w1 (q_name (queue_made cfg' policy)) (registered w)) with (name_free w (q_name (queue_made cfg' policy)) (registered w)); [done|].
    unfold name_free. assert (Hin : forall b, In b (registered w) -> b <> a).
    { intros b Hb ->. apply list_elem_of_In, list_elem_of_fmap in Hb as (e & -> & He). pose proof (ww_live w Hw) as Hl. rewrite Forall_forall in Hl.
      destruct (Hl e He) as [_ [q Hq]]. congruence. }
    induction (registered w) as [|b l IH]; [done|]. cbn [forallb]. rewrite IH by (intros; apply Hin; by right). f_equal. unfold text_at, name_ptr.
    replace (b + off - off) with b by lia. cbn [w1 w_rings]. rewrite lookup_insert_ne; [done|]. intros <-. by apply (Hin a); [left|].
  - unfold bb_queue_destroy. destruct (Z.eqb_spec a 0) as [->|Hnz].
    + split_and!; [done|done|]. destruct (deregister_ring init 0 w Hw) as (_ & _ & _ & H); [by left|]. rewrite <- H. done.
    + destruct (deregister_ring init a w Hw Hf) as (H1 & H2 & H3 & H4). set (w1 := (bb_queue_registry_deregister init a w).2) in *. cbv zeta.
      split_and!; [|cbn; by rewrite H3|unfold registered in *; cbn [w_reg]; exact H4]. destruct (ww_nonnull w1 H1) as [W4 W5].
      apply keep_rings; [done| | |].
      * intros b q Hb Hin. exists q. rewrite H4 in Hin. apply list_elem_of_filter in Hin as [Hne _]. by rewrite lookup_delete_ne by congruence.
      * rewrite lookup_delete_ne; done.
      * by apply map_Forall_delete.
  - destruct (w_rings w !! a) as [q|] eqn:Hq; [|done]. cbn [snd]. split_and!; [|done|done]. destruct (ww_nonnull w Hw) as [W4 W5].
    apply keep_rings; [done| | |].
    + intros b q' Hb _. destruct (decide (b = a)) as [->|Hne].
      * exists (queue_call_step c q).2. rewrite lookup_insert_eq, call_keeps_name. split; [done|congruence].
      * exists q'. by rewrite lookup_insert_ne.
    + rewrite lookup_insert_ne; [done|]. intros ->. congruence.
    + apply map_Forall_insert_2; [exact (W5 _ _ Hq)|done].
  - destruct (deregister_ring init a w Hw Hf) as (H1 & H2 & H3 & H4). by rewrite H3.
  - unfold bb_queue_registry_count. cbn [snd]. destruct (ensure_same init w) as [_ S2]. unfold registered. rewrite S2.
    split_and!; [by apply ensure_wf|done|done].
  - unfold bb_queue_registry_foreach. cbn [snd]. destruct (ensure_same init w) as [_ S2]. unfold registered. rewrite S2.
    split_and!; [by apply ensure_wf|done|done].
Qed.

Lemma ring_run_keeps cap os : forall w, world_wf w -> rg_capacity (w_reg w) = cap -> ring_run_fine os w ->
  world_wf (ring_run os w).2 /\ rg_capacity (w_reg (ring_run os w).2) = cap.
Proof.
  induction os as [|o os IH]; intros w Hw Hc Hf; [done|]. destruct Hf as [Ho Hf]. destruct (ring_op_keeps cap w o Hw Hc Ho) as (H1 & H2 & _).
  cbn [ring_run]. cbv zeta. cbn [snd]. by apply IH.
Qed.
Lemma world0_wf cap : world_wf (world0 cap).
Proof. split; [apply define_wf|done|constructor|split; [done|apply map_Forall_empty]|done]. Qed.

Lemma fold_snapshot (rings : gmap Z queue) l acc : fold_left (fun acc e => snapshot_cb rings e.1 e.2 acc) l acc = acc ++ map (fun e => rings !! e.2) l.
Proof. revert acc. induction l as [|e l IH]; intros acc; cbn [fold_left map]; [by rewrite app_nil_r|]. rewrite IH. unfold snapshot_cb. by rewrite <- app_assoc. Qed.

(** The names of the registered rings differ. *)
Lemma names_differ w : world_wf w -> NoDup (map (fun a => w_text w (name_ptr a)) (registered w)).
Proof.
  intros Hw. pose proof (rw_keys _ _ _ (ww_reg w Hw)) as Hk. pose proof (live_pos w Hw) as Hp. unfold registered. clear Hw. revert Hk Hp.
  generalize (w_text w) as str. intros str Hk. induction Hk as [|x l Hx _ IH]; intros Hp; [constructor|]. apply Forall_cons in Hp as [[Hxe _] Hp].
  cbn [map]. constructor; [|by apply IH]. rewrite map_map. intros (y & Hy & Hin)%list_elem_of_fmap. rewrite Forall_forall in Hx, Hp.
  specialize (Hx y Hin). destruct (Hp y Hin) as [Hye _]. unfold same_key in Hx. apply bool_decide_eq_false in Hx. apply Hx. rewrite Hxe, Hye. exact Hy.
Qed.

(** After any sequence of creations, destructions, ring calls and
    registry calls on live rings, no entry of the registry is dangling: a
    diagnostic read meets each registered ring once, alive, in the order of
    creation, and no two have the same name. The next operation changes the
    registered rings exactly as it should: a created ring is added when the
    lock exists, there is room and the name is free (and is created all the same
    when not), a destroyed one is taken out before it is freed. *)
Theorem ring_registry_never_dangles cap os o :
  ring_run_fine os (world0 cap) -> let w := (ring_run os (world0 cap)).2 in ring_op_fine w o ->
  registered (ring_op_step o w).2 = order_step cap w o /\
  NoDup (map (fun a => w_text w (name_ptr a)) (registered w)) /\
  forall init, exists qs, Forall2 (fun a q => w_rings w !! a = Some q) (registered w) qs /\
    ((w_ready w || init) = true -> (ring_op_step (Foreach init) w).1 = RSeen (map Some qs)).
Proof.
  intros Hf. cbv zeta. intros Ho. destruct (ring_run_keeps cap os (world0 cap) (world0_wf cap) eq_refl Hf) as [Hw Hc].
  set (w := (ring_run os (world0 cap)).2) in *. clearbody w. split_and!; [by apply ring_op_keeps|by apply names_differ|]. intros init.
  assert (Hqs : exists qs, Forall2 (fun a q => w_rings w !! a = Some q) (registered w) qs /\ map (fun e => w_rings w !! e.2) (live (w_reg w)) = map Some qs).
  { unfold registered. induction (ww_live w Hw) as [|e l [_ [q Hq]] _ (qs & H1 & H2)]; [by exists []|]. exists (q :: qs). cbn [map].
    split; [by constructor|]. by rewrite Hq, H2. }
  destruct Hqs as (qs & H1 & H2). exists qs. split; [done|]. intros Hi. cbn [ring_op_step fst]. unfold bb_queue_registry_foreach, bb_registry_foreach, registry_snapshot.
  cbv zeta. cbn [fst]. destruct (ensure_ok init w) as [-> _]. rewrite Hi. cbn [negb]. fold (live (w_reg w)). by rewrite fold_snapshot, H2.
Qed.
End RingRegistry.

Lemma ring_registry_never_dangles_witness :
  let cfg name := Some (mk_qcfg 2 4 (Some BB_QUEUE_REJECT_NEW) (Some name) 0 0) in
  let al a := mk_allocs (Some a) true true in
  let os := [Create (al 1000) true (cfg (bs "log")) true; Create (al 2000) true (cfg (bs "log")) true; Create (al 3000) true (cfg (bs "events")) true;
             Call 3000 (Push (bs "ab") 5 1); Destroy true 2000; Create (al 4000) true (cfg (bs "disp")) true] in
  let w := (ring_run 40 os (world0 2)).2 in
  ring_run_fine 40 os (world0 2) /\ registered w = [1000; 3000] /\
  registered (ring_op_step 40 (Destroy true 1000) w).2 = order_step 40 2 w (Destroy true 1000) /\ order_step 40 2 w (Destroy true 1000) = [3000].
Proof.
  assert (Hf : ring_run_fine 40 [Create (mk_allocs (Some 1000) true true) true (Some (mk_qcfg 2 4 (Some BB_QUEUE_REJECT_NEW) (Some (bs "log")) 0 0)) true;
      Create (mk_allocs (Some 2000) true true) true (Some (mk_qcfg 2 4 (Some BB_QUEUE_REJECT_NEW) (Some (bs "log")) 0 0)) true;
      Create (mk_allocs (Some 3000) true true) true (Some (mk_qcfg 2 4 (Some BB_QUEUE_REJECT_NEW) (Some (bs "events")) 0 0)) true;
      Call 3000 (Push (bs "ab") 5 1); Destroy true 2000;
      Create (mk_allocs (Some 4000) true true) true (Some (mk_qcfg 2 4 (Some BB_QUEUE_REJECT_NEW) (Some (bs "disp")) 0 0)) true] (world0 2)).
  { cbn [ring_run_fine ring_op_fine al_ring]. split_and!; try (intros a [= <-]; split; [done|vm_compute; reflexivity]); try done; right; eexists; vm_compute; reflexivity. }
  cbv zeta. split_and!; [exact Hf|vm_compute; reflexivity| |vm_compute; reflexivity].
  refine (proj1 (ring_registry_never_dangles 40 ltac:(done) 2 _ (Destroy true 1000) Hf _)). right. eexists. vm_compute. reflexivity.
Defined.
