(* ===== verification/Routes.v ===== *)
(** HTTP routing under components/bb_http_server/src: the URI matcher
    (bb_route_match.c), the exclusion table (bb_route_exclude.c), the route
    registry and the dispatch table (route_registry.c), the provisioning gate
    (bb_http_prov_gate.c), and section namespaces (bb_http_section.c,
    bb_http_section_status.c), as the ESP-IDF server composes them
    (platform/espidf/bb_http_server/bb_http.c, bb_http_section_dispatch.c). *)
From Stdlib Require Import Strings.String.
From S2P Require Import Prelude Bytes Str.

(** * Methods and matching *)

Inductive bb_http_method : Set :=
  | BB_HTTP_GET | BB_HTTP_POST | BB_HTTP_PATCH | BB_HTTP_PUT | BB_HTTP_DELETE | BB_HTTP_OPTIONS.
#[export] Instance bb_http_method_eq_dec : EqDecision bb_http_method.
Proof. solve_decision. Defined.

(** Paths and URIs are C strings; [None] is NULL. *)
Abbreviation text := (list byte).

Definition bb_route_match_is_wildcard (path : text) : bool :=
  let plen := length path in (0 <? plen)%nat && Byte.eqb (nth (plen - 1) path x00) x2a.
Definition bb_route_match_wildcard_in_api_scope (path : text) : bool := bool_decide (take 5 path = bs "/api/").

Definition bb_route_uri_match (pattern uri : option text) (match_upto : nat) : bool :=
  match pattern, uri with
  | Some pattern, Some uri =>
      let plen := length pattern in
      if bb_route_match_is_wildcard pattern then
        let prefix_len := (plen - 1)%nat in
        if (match_upto <? prefix_len)%nat then false else bool_decide (take prefix_len uri = take prefix_len pattern)
      else if negb (plen =? match_upto)%nat then false else bool_decide (take match_upto uri = take match_upto pattern)
  | _, _ => false
  end.

(** The length of the path before the query. *)
Fixpoint path_len (uri : text) : nat :=
  match uri with b :: uri => if Byte.eqb b x3f then 0%nat else S (path_len uri) | [] => 0%nat end.

(** [out] before the call, its capacity and the text it holds after. *)
Definition bb_http_uri_strip_query_copy (uri : option text) (out_cap : nat) : bb_err * text :=
  match uri with
  | None => (BB_ERR_INVALID_ARG, [])
  | Some uri =>
      if (out_cap =? 0)%nat then (BB_ERR_INVALID_ARG, []) else
      let n := path_len uri in
      let copy_len := if (n <? out_cap)%nat then n else (out_cap - 1)%nat in
      (BB_OK, cstr (bb_strlcpy (repeat x00 (S copy_len)) uri (copy_len + 1)).2)
  end.

(** * Tables *)

(** Addresses of handlers; 0 is NULL. *)
Definition handler : Type := Z.

Record exclude_entry := mk_exclude { xe_method : bb_http_method; xe_path : text; xe_matched : bool }.
(** [bb_route_t], less its documentation fields. *)
Record route := mk_route { rt_method : bb_http_method; rt_path : option text; rt_handler : handler }.
(** [bb_dispatch_api_entry_t] *)
Record dispatch_entry := mk_dispatch {
  de_method : bb_http_method; de_path : option text; de_handler : handler; de_wildcard : bool; de_prefix_len : nat
}.
(** [bb_http_prov_gate_entry_t] *)
Record gate_entry := mk_gate { ge_method : bb_http_method; ge_path : text }.

(** A namespace: its hooks take what they are handed and answer a code with a
    text, or a stage with a code. *)
Inductive section_stage : Set := BB_HTTP_SECTION_STAGE_PARSE | BB_HTTP_SECTION_STAGE_COMMIT.
Record section_ns := mk_section_ns {
  ns_prefix : option text;
  ns_render : option (text -> nat -> bb_err * text);
  ns_apply : option (text -> text -> section_stage * bb_err);
  ns_unsupported_status : Z
}.
Record section_slot := mk_section { ss_prefix : text; ss_wildcard : text; ss_ns : section_ns }.

(** Everything the files keep.  [sv_aborted]: an assertion failed and the
    program stopped. *)
Record server := mk_server {
  sv_exclude : list exclude_entry;
  sv_registry : list route; sv_watermark_warned : bool; sv_aborted : bool;
  sv_dispatch : list dispatch_entry; sv_dispatch_warned : bool;
  sv_allow : list gate_entry; sv_deny : list gate_entry; sv_active_fn : bool;
  sv_sections : list section_slot
}.
Definition server0 : server := mk_server [] [] false false [] false [] [] false [].
Definition set_exclude (x : list exclude_entry) (s : server) : server :=
  mk_server x (sv_registry s) (sv_watermark_warned s) (sv_aborted s) (sv_dispatch s) (sv_dispatch_warned s) (sv_allow s) (sv_deny s) (sv_active_fn s) (sv_sections s).
Definition set_registry (r : list route) (warned aborted : bool) (s : server) : server :=
  mk_server (sv_exclude s) r warned aborted (sv_dispatch s) (sv_dispatch_warned s) (sv_allow s) (sv_deny s) (sv_active_fn s) (sv_sections s).
Definition set_dispatch (d : list dispatch_entry) (warned : bool) (s : server) : server :=
  mk_server (sv_exclude s) (sv_registry s) (sv_watermark_warned s) (sv_aborted s) d warned (sv_allow s) (sv_deny s) (sv_active_fn s) (sv_sections s).
Definition set_gate (al de : list gate_entry) (active_fn : bool) (s : server) : server :=
  mk_server (sv_exclude s) (sv_registry s) (sv_watermark_warned s) (sv_aborted s) (sv_dispatch s) (sv_dispatch_warned s) al de active_fn (sv_sections s).
Definition set_sections (l : list section_slot) (s : server) : server :=
  mk_server (sv_exclude s) (sv_registry s) (sv_watermark_warned s) (sv_aborted s) (sv_dispatch s) (sv_dispatch_warned s) (sv_allow s) (sv_deny s) (sv_active_fn s) l.

(** The build's capacities. *)
Record http_caps := mk_caps {
  BB_HTTP_ROUTE_EXCLUDE_CAP : nat; BB_ROUTE_REGISTRY_CAP : nat; BB_HTTP_ROUTE_REGISTRY_STRICT : bool;
  BB_DISPATCH_API_CAP : nat; BB_HTTP_PROV_ALLOWLIST_CAP : nat; BB_HTTP_PROV_DENYLIST_CAP : nat; BB_WIFI_PROV_GATE_DISABLE : bool
}.
Definition default_caps : http_caps := mk_caps 8 64 true 64 8 4 false.
Definition BB_HTTP_SECTION_TABLE_CAP : nat := 16.
Definition BB_HTTP_SECTION_PREFIX_MAX : nat := 32.
Definition BB_HTTP_SECTION_NAME_MAX : nat := 32.
Definition BB_HTTP_SECTION_URI_MAX : nat := BB_HTTP_SECTION_PREFIX_MAX + BB_HTTP_SECTION_NAME_MAX.
Definition BB_HTTP_SECTION_BODY_MAX : nat := 512.

Section Routes.
Context (caps : http_caps).

(** * Exclusions *)

Definition bb_http_route_exclude (method : bb_http_method) (path : option text) (s : server) : bb_err * server :=
  match path with
  | None | Some [] => (BB_ERR_INVALID_ARG, s)
  | Some path =>
      if negb (bb_route_match_wildcard_in_api_scope path) then (BB_ERR_INVALID_ARG, s) else
      if (BB_HTTP_ROUTE_EXCLUDE_CAP caps <=? length (sv_exclude s))%nat then (BB_ERR_NO_SPACE, s) else
      (BB_OK, set_exclude (sv_exclude s ++ [mk_exclude method path false]) s)
  end.

Fixpoint exclude_scan (method : bb_http_method) (path : text) (xs : list exclude_entry) : bool * list exclude_entry :=
  match xs with
  | [] => (false, [])
  | x :: xs =>
      if negb (bool_decide (xe_method x = method)) || negb (bb_route_uri_match (Some (xe_path x)) (Some path) (length path))
      then let r := exclude_scan method path xs in (r.1, x :: r.2)
      else (true, mk_exclude (xe_method x) (xe_path x) true :: xs)
  end.
Definition route_excluded (method : bb_http_method) (path : option text) (s : server) : bool * server :=
  match path with
  | None => (false, s)
  | Some path => let r := exclude_scan method path (sv_exclude s) in (r.1, set_exclude r.2 s)
  end.
Definition bb_http_route_exclude_verify (s : server) : bb_err := if forallb xe_matched (sv_exclude s) then BB_OK else BB_ERR_NOT_FOUND.

(** * The registry of descriptors *)

Definition registry_add (r : route) (s : server) : bb_err * server :=
  let '(excluded, s) := route_excluded (rt_method r) (rt_path r) s in
  if excluded then (BB_OK, s) else
  if (BB_ROUTE_REGISTRY_CAP caps <=? length (sv_registry s))%nat then
    (BB_ERR_NO_SPACE, if BB_HTTP_ROUTE_REGISTRY_STRICT caps then set_registry (sv_registry s) (sv_watermark_warned s) true s else s)
  else
    let reg := sv_registry s ++ [r] in
    (BB_OK, set_registry reg (sv_watermark_warned s || (BB_ROUTE_REGISTRY_CAP caps <=? length reg + 8)%nat) (sv_aborted s) s).

Definition bb_http_route_registry_count (s : server) : nat := length (sv_registry s).
Definition bb_http_route_registry_foreach {C} (cb : option (route -> C -> C)) (ctx : C) (s : server) : C :=
  match cb with None => ctx | Some cb => fold_left (fun ctx r => cb r ctx) (sv_registry s) ctx end.

(** Is this URI served under some method? *)
Definition bb_http_uri_is_registered (uri : option text) (s : server) : bool :=
  match uri with
  | None => false
  | Some u =>
      existsb (fun r =>
        match rt_path r with
        | None => false
        | Some p =>
            if bool_decide (p = bs "/*") && bool_decide (rt_method r = BB_HTTP_OPTIONS) then false else
            if bool_decide (p = bs "/*") && bool_decide (rt_method r = BB_HTTP_GET) then false else
            bb_route_uri_match (Some p) (Some u) (path_len u)
        end) (sv_registry s)
  end.

(** * The dispatch table *)

Definition same_route (method : bb_http_method) (path : text) (e : dispatch_entry) : bool :=
  bool_decide (de_method e = method) &&
  match de_path e with None => false | Some p => (length p =? length path)%nat && bool_decide (p = path) end.

Definition bb_dispatch_api_add (method : bb_http_method) (path : option text) (h : handler) (s : server) : bb_err * server :=
  let '(excluded, s) := route_excluded method path s in
  if excluded then (BB_OK, s) else
  if (BB_DISPATCH_API_CAP caps <=? length (sv_dispatch s))%nat then (BB_ERR_NO_SPACE, s) else
  if match path with Some p => existsb (same_route method p) (sv_dispatch s) | None => false end then (BB_ERR_INVALID_STATE, s) else
  let plen := match path with Some p => length p | None => 0%nat end in
  let is_wildcard := match path with Some p => bb_route_match_is_wildcard p | None => false end in
  let d := sv_dispatch s ++ [mk_dispatch method path h is_wildcard (if is_wildcard then (plen - 1)%nat else 0%nat)] in
  (BB_OK, set_dispatch d (sv_dispatch_warned s || (8 <=? BB_DISPATCH_API_CAP caps)%nat && (BB_DISPATCH_API_CAP caps - 8 <=? length d)%nat) s).

Inductive dispatch_result : Type := BB_DISPATCH_API_HIT (h : handler) | BB_DISPATCH_API_METHOD_MISMATCH | BB_DISPATCH_API_MISS.

(** Pass 1: the handler of a hit, or whether the path was met. *)
Fixpoint exact_pass (method : bb_http_method) (uri : text) (es : list dispatch_entry) (matched : bool) : option handler * bool :=
  match es with
  | [] => (None, matched)
  | e :: es =>
      if de_wildcard e then exact_pass method uri es matched else
      match de_path e with
      | None => exact_pass method uri es matched
      | Some p =>
          if negb (bb_route_uri_match (Some p) (Some uri) (path_len uri)) then exact_pass method uri es matched else
          if bool_decide (de_method e = method) then (Some (de_handler e), true) else exact_pass method uri es true
      end
  end.
(** Pass 2: the best entry so far. *)
Fixpoint wildcard_pass (uri : text) (es : list dispatch_entry) (best : option dispatch_entry) : option dispatch_entry :=
  match es with
  | [] => best
  | e :: es =>
      if negb (de_wildcard e) then wildcard_pass uri es best else
      if negb (bb_route_uri_match (de_path e) (Some uri) (path_len uri)) then wildcard_pass uri es best else
      wildcard_pass uri es
        (match best with None => Some e | Some b => if (de_prefix_len b <? de_prefix_len e)%nat then Some e else best end)
  end.
Definition bb_dispatch_api_lookup (method : bb_http_method) (uri : option text) (s : server) : dispatch_result :=
  match uri with
  | None => BB_DISPATCH_API_MISS
  | Some uri =>
      match exact_pass method uri (sv_dispatch s) false with
      | (Some h, _) => BB_DISPATCH_API_HIT h
      | (None, true) => BB_DISPATCH_API_METHOD_MISMATCH
      | (None, false) =>
          match wildcard_pass uri (sv_dispatch s) None with
          | None => BB_DISPATCH_API_MISS
          | Some e => if bool_decide (de_method e = method) then BB_DISPATCH_API_HIT (de_handler e) else BB_DISPATCH_API_METHOD_MISMATCH
          end
      end
  end.
Definition bb_dispatch_api_count (s : server) : nat := length (sv_dispatch s).

(** * Registration *)

Section Register.
(** Does httpd_register_uri_handler take this route? *)
Context (httpd_register : bb_http_method -> option text -> handler -> bool).

(** bb_http.c; [server_ok]: the handle is not NULL. *)
Definition bb_http_register_route (server_ok : bool) (method : bb_http_method) (path : option text) (h : handler) (s : server) : bb_err * server :=
  if negb server_ok || (h =? 0) then (BB_ERR_INVALID_ARG, s) else
  if match path with Some p => bb_route_match_wildcard_in_api_scope p | None => false end then
    let r := bb_dispatch_api_add method path h s in
    (match r.1 with BB_ERR_INVALID_STATE => BB_OK | e => e end, r.2)
  else ((if httpd_register method path h then BB_OK else BB_ERR_INVALID_ARG), s).

Definition bb_http_register_route_descriptor_only (r : option route) (s : server) : bb_err * server :=
  match r with None => (BB_ERR_INVALID_ARG, s) | Some r => registry_add r s end.
Definition bb_http_register_described_route (server_ok : bool) (r : option route) (s : server) : bb_err * server :=
  match r with
  | None => (BB_ERR_INVALID_ARG, s)
  | Some r =>
      if rt_handler r =? 0 then registry_add r s else
      let a := bb_http_register_route server_ok (rt_method r) (rt_path r) (rt_handler r) s in
      if negb (is_ok a.1) then a else registry_add r a.2
  end.
Fixpoint register_table (server_ok : bool) (table : list (option route)) (s : server) : bb_err * server :=
  match table with
  | [] => (BB_OK, s)
  | r :: table =>
      let a := bb_http_register_described_route server_ok r s in
      if negb (is_ok a.1) then a else register_table server_ok table a.2
  end.
Definition bb_http_register_route_table (server_ok : bool) (table : option (list (option route))) (s : server) : bb_err * server :=
  match table with None => (BB_ERR_INVALID_ARG, s) | Some table => register_table server_ok table s end.

(** * Sections *)

(** Path segments of a prefix. *)
Fixpoint count_segments (p : text) (in_segment : bool) : nat :=
  match p with
  | [] => 0%nat
  | b :: p =>
      if Byte.eqb b x2f then count_segments p false else
      if negb in_segment then S (count_segments p true) else count_segments p true
  end.
Definition count_path_segments (prefix : text) : nat := count_segments prefix false.

Definition bb_http_section_register_ns (ns : option section_ns) (s : server) : bb_err * server :=
  match ns with
  | None => (BB_ERR_INVALID_ARG, s)
  | Some ns =>
      match ns_prefix ns with
      | None => (BB_ERR_INVALID_ARG, s)
      | Some prefix =>
          if match ns_render ns, ns_apply ns with None, None => true | _, _ => false end then (BB_ERR_INVALID_ARG, s) else
          if (BB_HTTP_SECTION_PREFIX_MAX <=? length prefix)%nat then (BB_ERR_INVALID_ARG, s) else
          if (count_path_segments prefix <? 2)%nat then (BB_ERR_INVALID_ARG, s) else
          if existsb (fun x => bool_decide (ss_prefix x = prefix)) (sv_sections s) then (BB_ERR_INVALID_STATE, s) else
          if (BB_HTTP_SECTION_TABLE_CAP <=? length (sv_sections s))%nat then (BB_ERR_NO_SPACE, s) else
          let p := take (BB_HTTP_SECTION_PREFIX_MAX - 1) prefix in
          (BB_OK, set_sections (sv_sections s ++
             [mk_section p (p ++ [x2a]) (mk_section_ns (Some p) (ns_render ns) (ns_apply ns) (ns_unsupported_status ns))]) s)
      end
  end.
Definition bb_http_section_count (s : server) : nat := length (sv_sections s).
Definition bb_http_section_at (idx : nat) (s : server) : option (section_ns * text) := (fun x => (ss_ns x, ss_wildcard x)) <$> sv_sections s !! idx.

Fixpoint section_scan (uri : text) (l : list section_slot) (best : option section_slot) (best_len : nat) : option section_slot * nat :=
  match l with
  | [] => (best, best_len)
  | x :: l =>
      let len := length (ss_prefix x) in
      if (len <? best_len)%nat then section_scan uri l best best_len else
      if negb (bool_decide (take len uri = ss_prefix x)) then section_scan uri l best best_len else
      section_scan uri l (Some x) len
  end.
(** The namespace and the name after its prefix. *)
Definition bb_http_section_find (uri : option text) (out_cap : nat) (s : server) : option (section_ns * text) :=
  match uri with
  | None => None
  | Some uri =>
      if (out_cap =? 0)%nat then None else
      match section_scan uri (sv_sections s) None 0 with
      | (None, _) => None
      | (Some x, n) => Some (ss_ns x, take (out_cap - 1) (drop n uri))
      end
  end.

Definition bb_http_section_status_for_render (rc : bb_err) : Z :=
  match rc with BB_OK => 200 | BB_ERR_NOT_FOUND => 404 | _ => 500 end.
Definition bb_http_section_status_for_apply (result : section_stage * bb_err) (unsupported_status_override : Z) : Z :=
  match result.1 with
  | BB_HTTP_SECTION_STAGE_PARSE =>
      match result.2 with
      | BB_ERR_PARSE_GRAMMAR | BB_ERR_PARSE_INCOMPLETE => 400
      | BB_ERR_NOT_FOUND => 404
      | BB_ERR_UNSUPPORTED => 405
      | _ => 500
      end
  | BB_HTTP_SECTION_STAGE_COMMIT =>
      match result.2 with
      | BB_OK => 200
      | BB_ERR_VALIDATION => 400
      | BB_ERR_UNSUPPORTED => if negb (unsupported_status_override =? 0) then unsupported_status_override else 405
      | _ => 500
      end
  end.

(** A response: its status and the text of a success. *)
Inductive response : Type := Status (code : Z) | Body (txt : text) | NoContent.

Definition section_get_handler (uri : text) (s : server) : response :=
  match bb_http_uri_strip_query_copy (Some uri) BB_HTTP_SECTION_URI_MAX with
  | (BB_OK, uri) =>
      match bb_http_section_find (Some uri) BB_HTTP_SECTION_NAME_MAX s with
      | None => Status 404
      | Some (ns, name) =>
          match ns_render ns with
          | None => Status 405
          | Some render =>
              let '(rc, out) := render name BB_HTTP_SECTION_BODY_MAX in
              let status := bb_http_section_status_for_render rc in
              if negb (status =? 200) then Status status else
              Body (if (BB_HTTP_SECTION_BODY_MAX <=? length out)%nat then take (BB_HTTP_SECTION_BODY_MAX - 1) out else out)
          end
      end
  | _ => Status 404
  end.
(** [body]: what bb_http_req_recv_body_stack delivers. *)
Definition section_patch_handler (uri : text) (body : option text) (s : server) : response :=
  match bb_http_uri_strip_query_copy (Some uri) BB_HTTP_SECTION_URI_MAX with
  | (BB_OK, uri) =>
      match bb_http_section_find (Some uri) BB_HTTP_SECTION_NAME_MAX s with
      | None => Status 404
      | Some (ns, name) =>
          match ns_apply ns with
          | None => Status 405
          | Some apply =>
              match body with
              | None => Status 400
              | Some body =>
                  let status := bb_http_section_status_for_apply (apply name body) (ns_unsupported_status ns) in
                  if negb (status =? 200) then Status status else NoContent
              end
          end
      end
  | _ => Status 404
  end.

(** [get], [patch]: the addresses of the two handlers above. *)
Fixpoint section_init_loop (server_ok : bool) (get patch : handler) (l : list section_slot) (s : server) : bb_err * server :=
  match l with
  | [] => (BB_OK, s)
  | x :: l =>
      let a := bb_http_register_route server_ok BB_HTTP_GET (Some (ss_wildcard x)) get s in
      if negb (is_ok a.1) then a else
      let b := bb_http_register_route server_ok BB_HTTP_PATCH (Some (ss_wildcard x)) patch a.2 in
      if negb (is_ok b.1) then b else section_init_loop server_ok get patch l b.2
  end.
Definition bb_http_section_init (server_ok : bool) (get patch : handler) (s : server) : bb_err * server :=
  section_init_loop server_ok get patch (sv_sections s) s.
End Register.

(** * The provisioning gate *)

Definition bb_http_prov_gate_set_active_fn (present : bool) (s : server) : server := set_gate (sv_allow s) (sv_deny s) present s.

Definition bb_http_prov_allow (method : bb_http_method) (path : option text) (s : server) : bb_err * server :=
  match path with
  | None => (BB_ERR_INVALID_ARG, s)
  | Some path =>
      if bb_route_match_is_wildcard path && negb (bb_route_match_wildcard_in_api_scope path) then (BB_ERR_INVALID_ARG, s) else
      if (BB_HTTP_PROV_ALLOWLIST_CAP caps <=? length (sv_allow s))%nat then (BB_ERR_NO_SPACE, s) else
      (BB_OK, set_gate (sv_allow s ++ [mk_gate method path]) (sv_deny s) (sv_active_fn s) s)
  end.
Definition bb_http_prov_deny (method : bb_http_method) (path : option text) (s : server) : bb_err * server :=
  match path with
  | None => (BB_ERR_INVALID_ARG, s)
  | Some path =>
      if bb_route_match_is_wildcard path && negb (bb_route_match_wildcard_in_api_scope path) then (BB_ERR_INVALID_ARG, s) else
      if (BB_HTTP_PROV_DENYLIST_CAP caps <=? length (sv_deny s))%nat then (BB_ERR_NO_SPACE, s) else
      (BB_OK, set_gate (sv_allow s) (sv_deny s ++ [mk_gate method path]) (sv_active_fn s) s)
  end.

Definition gate_hit (method : bb_http_method) (uri : text) (l : list gate_entry) : bool :=
  existsb (fun e => bool_decide (ge_method e = method) && bb_route_uri_match (Some (ge_path e)) (Some uri) (path_len uri)) l.
Definition bb_http_prov_gate_allow (prov_active : bool) (method : bb_http_method) (uri : option text) (s : server) : bool :=
  if BB_WIFI_PROV_GATE_DISABLE caps then true else
  if negb prov_active then true else
  match uri with
  | None => false
  | Some uri => if negb (gate_hit method uri (sv_allow s)) then false else negb (gate_hit method uri (sv_deny s))
  end.
(** [active]: what the signal source answers now. *)
Definition bb_http_prov_gate_check (active : bool) (method : bb_http_method) (uri : option text) (s : server) : bool :=
  bb_http_prov_gate_allow (if sv_active_fn s then active else false) method uri s.
Definition bb_http_prov_gate_is_active (active : bool) (s : server) : bool :=
  if BB_WIFI_PROV_GATE_DISABLE caps then false else if sv_active_fn s then active else false.

Definition bb_http_prov_gate_entries_overlap (allow deny : gate_entry) : bool :=
  let allow_wild := bb_route_match_is_wildcard (ge_path allow) in
  let deny_wild := bb_route_match_is_wildcard (ge_path deny) in
  if negb allow_wild && negb deny_wild then
    (length (ge_path allow) =? length (ge_path deny))%nat && bool_decide (ge_path allow = ge_path deny)
  else if allow_wild && deny_wild then
    let min_len := Nat.min (length (ge_path allow) - 1) (length (ge_path deny) - 1) in
    bool_decide (take min_len (ge_path allow) = take min_len (ge_path deny))
  else if allow_wild then bb_route_uri_match (Some (ge_path allow)) (Some (ge_path deny)) (length (ge_path deny))
  else bb_route_uri_match (Some (ge_path deny)) (Some (ge_path allow)) (length (ge_path allow)).

Definition bb_http_prov_gate_verify_denies (s : server) : bb_err :=
  if forallb (fun d => existsb (fun a => bool_decide (ge_method a = ge_method d) && bb_http_prov_gate_entries_overlap a d) (sv_allow s)) (sv_deny s)
  then BB_OK else BB_ERR_NOT_FOUND.

(** * A request *)

Inductive served : Type := Json404 | Json405 | Json501 | Plain404 | Plain405 | Called (h : handler).

(** [method = None]: one that bb_http_method_from_httpd does not map. *)
Definition api_dispatch_handler (active : bool) (method : option bb_http_method) (uri : text) (s : server) : served :=
  match method with
  | None => Json405
  | Some method =>
      if negb (bb_http_prov_gate_check active method (Some uri) s) then Json404 else
      match bb_dispatch_api_lookup method (Some uri) s with
      | BB_DISPATCH_API_HIT h => if h =? 0 then Json501 else Called h
      | BB_DISPATCH_API_METHOD_MISMATCH => Json405
      | BB_DISPATCH_API_MISS => Json404
      end
  end.
(** [fn]: the handler the route was registered with. *)
Definition bb_shim_handler (active : bool) (method : option bb_http_method) (uri : text) (fn : handler) (s : server) : option served :=
  if fn =? 0 then None else
  match method with
  | Some method => if negb (bb_http_prov_gate_check active method (Some uri) s) then Some Plain404 else Some (Called fn)
  | None => Some (Called fn)
  end.
Definition method_not_allowed_err_handler (active : bool) (method : option bb_http_method) (uri : text) (s : server) : served :=
  if match method with
     | Some method => negb (bb_http_prov_gate_check active method (Some uri) s)
     | None => bb_http_prov_gate_is_active active s
     end then Plain404 else
  if negb (bb_http_uri_is_registered (Some uri) s) then Plain404 else Plain405.
End Routes.

(** * What matching means *)

(** The path of a URI, without the query. *)
Definition path_of (uri : text) : text := take (path_len uri) uri.
Definition stem (pattern : text) : text := take (length pattern - 1) pattern.
Definition matches (pattern path : text) : bool :=
  if bb_route_match_is_wildcard pattern then bool_decide (stem pattern `prefix_of` path) else bool_decide (pattern = path).

Lemma path_len_le uri : (path_len uri <= length uri)%nat.
Proof. induction uri as [|b uri IH]; cbn; [done|]. destruct (Byte.eqb b x3f); lia. Qed.
Lemma path_len_plain p : Forall (fun b => b <> x3f) p -> path_len p = length p.
Proof. induction 1 as [|b p Hb _ IH]; [done|]. cbn. by rewrite (proj2 (byte_eqb_neq _ _) Hb), IH. Qed.
Lemma path_of_plain p : Forall (fun b => b <> x3f) p -> path_of p = p.
Proof. intros H. unfold path_of. by rewrite (path_len_plain p H), firstn_all. Qed.

Lemma take_is_prefix {A} `{!EqDecision A} n (p l : list A) : length p = n -> (n <= length l)%nat -> (take n l = p <-> p `prefix_of` l).
Proof.
  intros Hp Hl. split.
  - intros <-. exists (drop n l). by rewrite take_drop.
  - intros [k ->]. by rewrite take_app_length'.
Qed.
Lemma prefix_take_iff (p l : text) n : (n <= length l)%nat -> p `prefix_of` take n l <-> p `prefix_of` l /\ (length p <= n)%nat.
Proof.
  intros Hn. split.
  - intros H. split; [|apply prefix_length in H; rewrite length_take in H; lia]. destruct H as [k Hk]. exists (k ++ drop n l).
    by rewrite app_assoc, <- Hk, take_drop.
  - intros [[k ->] Hp]. rewrite take_app_ge by done. by exists (take (n - length p) k).
Qed.

Lemma uri_match_spec pattern uri n : (n <= length uri)%nat -> bb_route_uri_match (Some pattern) (Some uri) n = matches pattern (take n uri).
Proof.
  intros Hn. unfold bb_route_uri_match, matches. cbv zeta. destruct (bb_route_match_is_wildcard pattern).
  - fold (stem pattern). assert (Hs : length (stem pattern) = (length pattern - 1)%nat) by (unfold stem; rewrite length_take; lia).
    destruct (Nat.ltb_spec n (length pattern - 1)) as [Hlt|Hle].
    + symmetry. apply bool_decide_eq_false. intros H%prefix_length. rewrite length_take in H. lia.
    + apply bool_decide_ext. rewrite take_is_prefix by lia. rewrite prefix_take_iff by done. rewrite Hs. tauto.
  - destruct (Nat.eqb_spec (length pattern) n) as [<-|Hne]; cbn [negb].
    + rewrite firstn_all. apply bool_decide_ext. split; congruence.
    + symmetry. apply bool_decide_eq_false. intros ->. rewrite length_take in Hne. lia.
Qed.
Lemma uri_match_path pattern uri : bb_route_uri_match (Some pattern) (Some uri) (path_len uri) = matches pattern (path_of uri).
Proof. apply uri_match_spec, path_len_le. Qed.
Lemma uri_match_whole pattern p : bb_route_uri_match (Some pattern) (Some p) (length p) = matches pattern p.
Proof. rewrite uri_match_spec by done. by rewrite firstn_all. Qed.

Lemma wildcard_snoc p b : bb_route_match_is_wildcard (p ++ [b]) = Byte.eqb b x2a.
Proof.
  unfold bb_route_match_is_wildcard. rewrite length_app. cbn [length]. rewrite (proj2 (Nat.ltb_lt _ _)) by lia. cbn [andb].
  replace (length p + 1 - 1)%nat with (length p) by lia. by rewrite nth_middle.
Qed.
Lemma stem_snoc p b : stem (p ++ [b]) = p.
Proof. unfold stem. rewrite length_app. cbn [length]. replace (length p + 1 - 1)%nat with (length p) by lia. by rewrite take_app_length. Qed.
Lemma wildcard_shape p : bb_route_match_is_wildcard p = true -> p = stem p ++ [x2a].
Proof.
  destruct p as [|b p _] using rev_ind; [done|]. rewrite wildcard_snoc, stem_snoc. by intros ->%byte_eqb_eq.
Qed.

(** * The dispatch table answers as a reference says *)

Definition exact_on (p : text) (e : dispatch_entry) : bool := match de_path e with Some q => negb (bb_route_match_is_wildcard q) && bool_decide (q = p) | None => false end.
Definition covers (p : text) (e : dispatch_entry) : bool := match de_path e with Some q => bb_route_match_is_wildcard q && bool_decide (stem q `prefix_of` p) | None => false end.
Definition stem_len (e : dispatch_entry) : nat := match de_path e with Some q => length (stem q) | None => 0%nat end.
(** The first of the entries with the longest stem. *)
Definition longest (l : list dispatch_entry) : option dispatch_entry := find (fun e => (stem_len e =? max_list (map stem_len l))%nat) l.
Definition by_method (m : bb_http_method) (e : dispatch_entry) : bool := bool_decide (de_method e = m).
(** An exact route first; failing any for the path, the longest wildcard. *)
Definition dispatch_ref (m : bb_http_method) (p : text) (d : list dispatch_entry) : dispatch_result :=
  match List.filter (exact_on p) d with
  | [] =>
      match longest (List.filter (covers p) d) with
      | None => BB_DISPATCH_API_MISS
      | Some e => if by_method m e then BB_DISPATCH_API_HIT (de_handler e) else BB_DISPATCH_API_METHOD_MISMATCH
      end
  | es => match find (by_method m) es with Some e => BB_DISPATCH_API_HIT (de_handler e) | None => BB_DISPATCH_API_METHOD_MISMATCH end
  end.

(** Entries as bb_dispatch_api_add makes them. *)
Definition entry_made (e : dispatch_entry) : Prop :=
  match de_path e with
  | Some p => de_wildcard e = bb_route_match_is_wildcard p /\ de_prefix_len e = if de_wildcard e then (length p - 1)%nat else 0%nat
  | None => de_wildcard e = false
  end.

Lemma exact_pass_spec m uri es b : Forall entry_made es ->
  exact_pass m uri es b =
  match find (by_method m) (List.filter (exact_on (path_of uri)) es) with
  | Some e => (Some (de_handler e), true)
  | None => (None, b || negb (bool_decide (List.filter (exact_on (path_of uri)) es = [])))
  end.
Proof.
  intros Hf. revert b. induction Hf as [|e es He _ IH]; intros b; cbn [exact_pass List.filter find]; [by rewrite orb_false_r|].
  unfold entry_made in He. assert (Hex : exact_on (path_of uri) e = match de_path e with Some q => negb (bb_route_match_is_wildcard q) && bool_decide (q = path_of uri) | None => false end) by done.
  destruct (de_path e) as [p|].
  - destruct He as [Hw _]. rewrite Hw. destruct (bb_route_match_is_wildcard p) eqn:Ew; cbn [negb andb] in Hex; [rewrite Hex; apply IH|].
    rewrite uri_match_path. unfold matches. rewrite Ew. destruct (bool_decide (p = path_of uri)); rewrite Hex; cbn [negb]; [|apply IH].
    cbn [find]. unfold by_method at 1. destruct (bool_decide (de_method e = m)); [done|]. rewrite IH. destruct (find _ _); [done|].
    cbn. by rewrite orb_true_r.
  - rewrite He, Hex. apply IH.
Qed.

Lemma max_list_cons x l : max_list (x :: l) = Nat.max x (max_list l).
Proof. done. Qed.

(** The best so far, if it comes first. *)
Lemma wildcard_pass_fold uri es : forall best, Forall entry_made es -> (forall b, best = Some b -> entry_made b /\ de_wildcard b = true) ->
  wildcard_pass uri es best = longest (match best with Some b => b :: List.filter (covers (path_of uri)) es | None => List.filter (covers (path_of uri)) es end).
Proof.
  induction es as [|e es IH]; intros best Hf Hb.
  { destruct best as [b|]; [|done]. cbn. unfold longest. cbn. rewrite Nat.max_0_r, Nat.eqb_refl. done. }
  apply Forall_cons in Hf as [He Hf]. cbn [wildcard_pass List.filter].
  assert (Hcov : covers (path_of uri) e = match de_path e with Some q => bb_route_match_is_wildcard q && bool_decide (stem q `prefix_of` path_of uri) | None => false end) by done.
  assert (Hmade := He). unfold entry_made in He. destruct (de_path e) as [p|] eqn:Ep.
  2:{ rewrite He, Hcov. cbn [negb]. by apply IH. }
  destruct He as [Hw Hl]. rewrite Hw. destruct (bb_route_match_is_wildcard p) eqn:Ew; cbn [negb andb] in *; [|rewrite Hcov; by apply IH].
  rewrite uri_match_path. unfold matches. rewrite Ew. destruct (bool_decide (stem p `prefix_of` path_of uri)) eqn:Es; rewrite Hcov; cbn [negb]; [|by apply IH].
  assert (Hse : stem_len e = de_prefix_len e).
  { unfold stem_len. rewrite Ep, Hl, Hw. cbv iota. unfold stem. rewrite length_take. lia. }
  rewrite IH; [|done|].
  2:{ destruct best as [b|]; [destruct (_ <? _)%nat|]; intros b' [= <-]; try (by apply Hb); done. }
  destruct best as [b|]; [|done]. destruct (Hb b eq_refl) as [Hbm Hbw].
  assert (Hsb : stem_len b = de_prefix_len b).
  { unfold entry_made in Hbm. unfold stem_len. destruct (de_path b) as [q|]; [|congruence]. destruct Hbm as [_ ->]. rewrite Hbw. cbv iota. unfold stem. rewrite length_take. lia. }
  rewrite <- Hse, <- Hsb. set (L := List.filter _ es). unfold longest.
  destruct (Nat.ltb_spec (stem_len b) (stem_len e)) as [Hlt|Hge]; cbn [map find]; rewrite !max_list_cons.
  - replace (Nat.max (stem_len b) (Nat.max (stem_len e) (max_list (map stem_len L)))) with (Nat.max (stem_len e) (max_list (map stem_len L))) by lia.
    rewrite (proj2 (Nat.eqb_neq (stem_len b) _)) by lia. done.
  - replace (Nat.max (stem_len b) (Nat.max (stem_len e) (max_list (map stem_len L)))) with (Nat.max (stem_len b) (max_list (map stem_len L))) by lia.
    destruct (Nat.eqb_spec (stem_len b) (Nat.max (stem_len b) (max_list (map stem_len L)))) as [Heq|Hne]; [done|].
    rewrite (proj2 (Nat.eqb_neq (stem_len e) _)) by lia. done.
Qed.

Lemma lookup_ref m uri s : Forall entry_made (sv_dispatch s) -> bb_dispatch_api_lookup m (Some uri) s = dispatch_ref m (path_of uri) (sv_dispatch s).
Proof.
  intros Hf. unfold bb_dispatch_api_lookup, dispatch_ref. rewrite (exact_pass_spec m uri _ false Hf), (wildcard_pass_fold uri _ None Hf) by done.
  destruct (List.filter (exact_on (path_of uri)) (sv_dispatch s)) as [|e es]; cbn [find]; [by rewrite bool_decide_true|].
  destruct (by_method m e); [done|]. destruct (find (by_method m) es); [done|]. by rewrite bool_decide_false.
Qed.

(** * Composition *)

Inductive http_op : Type :=
  | Exclude (m : bb_http_method) (p : option text)
  | Register (server_ok : bool) (m : bb_http_method) (p : option text) (h : handler)
  | Described (server_ok : bool) (r : option route)
  | DescriptorOnly (r : option route)
  | Table (server_ok : bool) (t : option (list (option route)))
  | RegisterNs (ns : option section_ns)
  | SectionInit (server_ok : bool) (get patch : handler)
  | Allow (m : bb_http_method) (p : option text)
  | Deny (m : bb_http_method) (p : option text)
  | SetActiveFn (present : bool).

Section Runs.
Context (caps : http_caps) (httpd : bb_http_method -> option text -> handler -> bool).

Definition http_step (o : http_op) (s : server) : bb_err * server :=
  match o with
  | Exclude m p => bb_http_route_exclude caps m p s
  | Register ok m p h => bb_http_register_route caps httpd ok m p h s
  | Described ok r => bb_http_register_described_route caps httpd ok r s
  | DescriptorOnly r => bb_http_register_route_descriptor_only caps r s
  | Table ok t => bb_http_register_route_table caps httpd ok t s
  | RegisterNs ns => bb_http_section_register_ns ns s
  | SectionInit ok get patch => bb_http_section_init caps httpd ok get patch s
  | Allow m p => bb_http_prov_allow caps m p s
  | Deny m p => bb_http_prov_deny caps m p s
  | SetActiveFn present => (BB_OK, bb_http_prov_gate_set_active_fn present s)
  end.
Definition http_run (os : list http_op) (s : server) : server := fold_left (fun s o => (http_step o s).2) os s.

(** ** What registering can do to the tables *)

(** The excluded pairs. *)
Definition excluded_pair (s : server) (m : bb_http_method) (p : text) : bool :=
  existsb (fun x => bool_decide (xe_method x = m) && matches (xe_path x) p) (sv_exclude s).
Definition excludes (s : server) : list (bb_http_method * text) := map (fun x => (xe_method x, xe_path x)) (sv_exclude s).

Lemma scan_spec m p xs :
  (exclude_scan m p xs).1 = existsb (fun x => bool_decide (xe_method x = m) && matches (xe_path x) p) xs /\
  map (fun x => (xe_method x, xe_path x)) (exclude_scan m p xs).2 = map (fun x => (xe_method x, xe_path x)) xs.
Proof.
  induction xs as [|x xs [IH1 IH2]]; [done|]. cbn [exclude_scan existsb]. rewrite uri_match_whole.
  destruct (bool_decide (xe_method x = m)); cbn [negb orb andb]; [destruct (matches (xe_path x) p)|]; cbn [negb]; cbv zeta; cbn [fst snd map orb].
  - done.
  - by rewrite IH2.
  - by rewrite IH2.
Qed.
Lemma route_excluded_spec m p s :
  (route_excluded m (Some p) s).1 = excluded_pair s m p /\ excludes (route_excluded m (Some p) s).2 = excludes s.
Proof. unfold route_excluded. cbv zeta. cbn [fst snd]. apply scan_spec. Qed.

(** One call to the tables: what is appended to the dispatch table and to the
    registry; nothing else but latches changes. *)
Definition grows (s s' : server) (d : list dispatch_entry) (r : list route) : Prop :=
  sv_dispatch s' = sv_dispatch s ++ d /\ sv_registry s' = sv_registry s ++ r /\ excludes s' = excludes s /\
  sv_allow s' = sv_allow s /\ sv_deny s' = sv_deny s /\ sv_active_fn s' = sv_active_fn s /\ sv_sections s' = sv_sections s.
Definition made_entry (m : bb_http_method) (p : text) (h : handler) : dispatch_entry :=
  mk_dispatch m (Some p) h (bb_route_match_is_wildcard p) (if bb_route_match_is_wildcard p then (length p - 1)%nat else 0%nat).

Lemma table_grows_refl s : grows s s [] [].
Proof. unfold grows. by rewrite !app_nil_r. Qed.
Lemma grows_trans s1 s2 s3 d1 d2 r1 r2 : grows s1 s2 d1 r1 -> grows s2 s3 d2 r2 -> grows s1 s3 (d1 ++ d2) (r1 ++ r2).
Proof. unfold grows. rewrite !app_assoc. intuition congruence. Qed.
Lemma grows_latch s m p : grows s (route_excluded m p s).2 [] [].
Proof.
  destruct p as [p|]; [|apply table_grows_refl]. destruct (route_excluded_spec m p s) as [_ He]. unfold grows, route_excluded in *. cbv zeta in *. cbn [snd] in *.
  rewrite !app_nil_r. by split_and!.
Qed.

Definition has_route (m : bb_http_method) (p : text) (d : list dispatch_entry) : bool := existsb (same_route m p) d.
Lemma same_route_made m p h m' q : same_route m p (made_entry m' q h) = bool_decide (m' = m /\ q = p).
Proof.
  unfold same_route, made_entry. cbn [de_method de_path]. destruct (decide (m' = m /\ q = p)) as [[-> ->]|Hn].
  - by rewrite !bool_decide_true, Nat.eqb_refl.
  - rewrite (bool_decide_false (m' = m /\ q = p)) by done. destruct (decide (m' = m)) as [->|]; [|by rewrite bool_decide_false].
    rewrite bool_decide_true, (bool_decide_false (q = p)) by naive_solver. by rewrite andb_false_r.
Qed.

Lemma dispatch_add_spec m p h s :
  let a := bb_dispatch_api_add caps m (Some p) h s in
  if excluded_pair s m p then a.1 = BB_OK /\ grows s a.2 [] [] else
  if (length (sv_dispatch s) <? BB_DISPATCH_API_CAP caps)%nat && negb (has_route m p (sv_dispatch s))
  then a.1 = BB_OK /\ grows s a.2 [made_entry m p h] []
  else a.1 = (if (length (sv_dispatch s) <? BB_DISPATCH_API_CAP caps)%nat then BB_ERR_INVALID_STATE else BB_ERR_NO_SPACE) /\ grows s a.2 [] [].
Proof.
  cbv zeta. unfold bb_dispatch_api_add. pose proof (grows_latch s m (Some p)) as Hg. destruct (route_excluded_spec m p s) as [He _].
  destruct (route_excluded m (Some p) s) as [x s1]. cbn [fst snd] in *. subst x. destruct (excluded_pair s m p); [done|].
  assert (Hd : sv_dispatch s1 = sv_dispatch s) by (destruct Hg as (Hg & _); by rewrite app_nil_r in Hg). rewrite Hd.
  destruct (Nat.leb_spec (BB_DISPATCH_API_CAP caps) (length (sv_dispatch s))) as [Hc|Hc].
  { rewrite (proj2 (Nat.ltb_ge _ _)) by lia. done. }
  rewrite (proj2 (Nat.ltb_lt _ _)) by lia. unfold has_route. cbn [andb]. destruct (existsb (same_route m p) (sv_dispatch s)); cbn [negb]; [done|].
  cbv zeta. cbn [fst snd]. split; [done|]. unfold grows in *. cbn. rewrite !app_nil_r in *. intuition congruence.
Qed.

Lemma registry_add_spec r s :
  exists rs, grows s (registry_add caps r s).2 [] rs /\
    (rs = [] \/ rs = [r] /\ (length (sv_registry s) < BB_ROUTE_REGISTRY_CAP caps)%nat /\
      match rt_path r with Some p => excluded_pair s (rt_method r) p = false | None => True end).
Proof.
  unfold registry_add. pose proof (grows_latch s (rt_method r) (rt_path r)) as Hg.
  assert (He : match rt_path r with Some p => (route_excluded (rt_method r) (rt_path r) s).1 = excluded_pair s (rt_method r) p | None => True end).
  { destruct (rt_path r) as [p|]; [|done]. apply route_excluded_spec. }
  destruct (route_excluded (rt_method r) (rt_path r) s) as [x s1]. cbn [fst snd] in *. destruct x; [exists []; by auto|].
  assert (Hr : sv_registry s1 = sv_registry s) by (destruct Hg as (_ & Hg & _); by rewrite app_nil_r in Hg). rewrite Hr.
  destruct (Nat.leb_spec (BB_ROUTE_REGISTRY_CAP caps) (length (sv_registry s))) as [Hc|Hc].
  - exists []. split; [|by left]. cbn [snd]. destruct (BB_HTTP_ROUTE_REGISTRY_STRICT caps); [|done].
    unfold grows in *. cbn. rewrite !app_nil_r in *. intuition congruence.
  - exists [r]. cbv zeta. cbn [snd]. split; [unfold grows in *; cbn; rewrite !app_nil_r in *; intuition congruence|]. right. split_and!; [done|done|].
    by destruct (rt_path r).
Qed.

(** ** Safe growth: every table operation is a chain of such additions *)

(** Entry [e] may come next after [d]. *)
Definition may_dispatch (xs : list (bb_http_method * text)) (d : list dispatch_entry) (e : dispatch_entry) : Prop :=
  exists m p h, e = made_entry m p h /\ h <> 0 /\ bb_route_match_wildcard_in_api_scope p = true /\
    (length d < BB_DISPATCH_API_CAP caps)%nat /\ has_route m p d = false /\ Forall (fun x => x.1 = m -> matches x.2 p = false) xs.
Inductive dispatch_chain (xs : list (bb_http_method * text)) : list dispatch_entry -> list dispatch_entry -> Prop :=
  | chain_nil d : dispatch_chain xs d d
  | chain_snoc d d' e : dispatch_chain xs d d' -> may_dispatch xs d' e -> dispatch_chain xs d (d' ++ [e]).
Definition may_register (xs : list (bb_http_method * text)) (r : route) : Prop :=
  match rt_path r with Some p => Forall (fun x => x.1 = rt_method r -> matches x.2 p = false) xs | None => True end.

Lemma chain_trans xs a b c : dispatch_chain xs a b -> dispatch_chain xs b c -> dispatch_chain xs a c.
Proof. intros H. induction 1; [done|]. eapply chain_snoc; eauto. Qed.

(** What a registration does. *)
Definition safe_growth (s s' : server) : Prop :=
  dispatch_chain (excludes s) (sv_dispatch s) (sv_dispatch s') /\
  (exists rs, sv_registry s' = sv_registry s ++ rs /\ Forall (may_register (excludes s)) rs /\
     (rs <> [] -> (length (sv_registry s') <= BB_ROUTE_REGISTRY_CAP caps)%nat)) /\
  excludes s' = excludes s /\ sv_allow s' = sv_allow s /\ sv_deny s' = sv_deny s /\ sv_active_fn s' = sv_active_fn s /\ sv_sections s' = sv_sections s.

Lemma safe_refl s : safe_growth s s.
Proof. split_and!; try done; [constructor|]. exists []. by rewrite app_nil_r. Qed.
Lemma safe_trans a b c : safe_growth a b -> safe_growth b c -> safe_growth a c.
Proof.
  intros (A1 & (ra & A2 & A3 & A4) & A5 & A6 & A7 & A8 & A9) (B1 & (rb & B2 & B3 & B4) & B5 & B6 & B7 & B8 & B9).
  rewrite A5 in *. split_and!; try congruence; [by eapply chain_trans|]. exists (ra ++ rb). rewrite B2, A2, app_assoc. split_and!; [done|by apply Forall_app|].
  intros Hn. destruct rb as [|r rb].
  - rewrite app_nil_r in *. rewrite <- A2. by apply A4.
  - rewrite <- A2, <- B2. by apply B4.
Qed.

Lemma excluded_pair_false s m p : excluded_pair s m p = false -> Forall (fun x => x.1 = m -> matches x.2 p = false) (excludes s).
Proof.
  unfold excluded_pair, excludes. induction (sv_exclude s) as [|x xs IH]; [constructor|]. cbn [existsb map].
  intros [Hx Hxs]%orb_false_iff. constructor; [|by apply IH]. cbn [fst snd]. intros <-. by rewrite bool_decide_true in Hx.
Qed.

Lemma register_route_safe ok m p h s : safe_growth s (bb_http_register_route caps httpd ok m p h s).2.
Proof.
  unfold bb_http_register_route. destruct (negb ok || (h =? 0)) eqn:Eh; [apply safe_refl|]. apply orb_false_iff in Eh as [_ Eh%Z.eqb_neq].
  destruct p as [p|]; [|apply safe_refl]. destruct (bb_route_match_wildcard_in_api_scope p) eqn:Ea; [|apply safe_refl]. cbv zeta. cbn [snd].
  pose proof (dispatch_add_spec m p h s) as H. cbv zeta in H. set (s' := (bb_dispatch_api_add caps m (Some p) h s).2) in *. clearbody s'.
  assert (Hsafe : forall d, grows s s' d [] -> (d = [] \/ exists e, d = [e] /\ may_dispatch (excludes s) (sv_dispatch s) e) -> safe_growth s s').
  { intros d (G1 & G2 & G3 & G4 & G5 & G6 & G7) Hd. rewrite app_nil_r in G2. split_and!; try done.
    - rewrite G1. destruct Hd as [->|(e & -> & He)]; [rewrite app_nil_r; constructor|]. by constructor; [constructor|].
    - exists []. by rewrite app_nil_r. }
  destruct (excluded_pair s m p) eqn:Ex; [apply (Hsafe []); [apply H|by left]|].
  destruct ((length (sv_dispatch s) <? BB_DISPATCH_API_CAP caps)%nat && negb (has_route m p (sv_dispatch s))) eqn:Eb; [|apply (Hsafe []); [apply H|by left]].
  apply andb_true_iff in Eb as [E1%Nat.ltb_lt E2%negb_true_iff]. apply (Hsafe [made_entry m p h]); [apply H|]. right. eexists. split; [done|].
  exists m, p, h. split_and!; try done. by apply excluded_pair_false.
Qed.
Lemma registry_add_safe r s : safe_growth s (registry_add caps r s).2.
Proof.
  destruct (registry_add_spec r s) as (rs & (G1 & G2 & G3 & G4 & G5 & G6 & G7) & Hr). rewrite app_nil_r in G1. split_and!; try done.
  - rewrite G1. constructor.
  - exists rs. rewrite G2. destruct Hr as [->|(-> & Hl & Hx)]; [done|]. split_and!; [done| |intros _; rewrite length_app; cbn; lia].
    constructor; [|constructor]. unfold may_register. destruct (rt_path r); [|done]. by apply excluded_pair_false.
Qed.
Lemma described_safe ok r s : safe_growth s (bb_http_register_described_route caps httpd ok r s).2.
Proof.
  destruct r as [r|]; [|apply safe_refl]. unfold bb_http_register_described_route. destruct (rt_handler r =? 0); [apply registry_add_safe|]. cbv zeta.
  pose proof (register_route_safe ok (rt_method r) (rt_path r) (rt_handler r) s) as H. destruct (bb_http_register_route _ _ _ _ _ _ _) as [e s1]. cbn [fst snd] in *.
  destruct (negb (is_ok e)); [done|]. eapply safe_trans; [exact H|apply registry_add_safe].
Qed.
Lemma table_safe ok t : forall s, safe_growth s (register_table caps httpd ok t s).2.
Proof.
  induction t as [|r t IH]; intros s; [apply safe_refl|]. cbn [register_table]. cbv zeta. pose proof (described_safe ok r s) as H.
  destruct (bb_http_register_described_route _ _ _ _ _) as [e s1]. cbn [fst snd] in *. destruct (negb (is_ok e)); [done|]. eapply safe_trans; [exact H|apply IH].
Qed.
Lemma section_init_safe ok get patch l : forall s, safe_growth s (section_init_loop caps httpd ok get patch l s).2.
Proof.
  induction l as [|x l IH]; intros s; [apply safe_refl|]. cbn [section_init_loop]. cbv zeta.
  pose proof (register_route_safe ok BB_HTTP_GET (Some (ss_wildcard x)) get s) as H. destruct (bb_http_register_route _ _ _ BB_HTTP_GET _ _ _) as [e s1]. cbn [fst snd] in *.
  destruct (negb (is_ok e)); [done|]. pose proof (register_route_safe ok BB_HTTP_PATCH (Some (ss_wildcard x)) patch s1) as H1.
  destruct (bb_http_register_route _ _ _ BB_HTTP_PATCH _ _ _) as [e2 s2]. cbn [fst snd] in *. destruct (negb (is_ok e2)); [by eapply safe_trans|].
  eapply safe_trans; [exact H|]. eapply safe_trans; [exact H1|apply IH].
Qed.

(** ** Every reachable server *)

Definition good_entry (e : dispatch_entry) : Prop :=
  exists m p h, e = made_entry m p h /\ h <> 0 /\ bb_route_match_wildcard_in_api_scope p = true.
Record server_wf (s : server) : Prop := {
  sw_entries : Forall good_entry (sv_dispatch s);
  sw_once : ForallOrdPairs (fun a b => ~ (de_method a = de_method b /\ de_path a = de_path b)) (sv_dispatch s);
  sw_dispatch : (length (sv_dispatch s) <= BB_DISPATCH_API_CAP caps)%nat;
  sw_registry : (length (sv_registry s) <= BB_ROUTE_REGISTRY_CAP caps)%nat;
  sw_exclude : (length (sv_exclude s) <= BB_HTTP_ROUTE_EXCLUDE_CAP caps)%nat;
  sw_gate : (length (sv_allow s) <= BB_HTTP_PROV_ALLOWLIST_CAP caps)%nat /\ (length (sv_deny s) <= BB_HTTP_PROV_DENYLIST_CAP caps)%nat;
  sw_sections : Forall (fun x => ss_wildcard x = ss_prefix x ++ [x2a] /\ (length (ss_prefix x) < BB_HTTP_SECTION_PREFIX_MAX)%nat) (sv_sections s);
  sw_prefixes : NoDup (map ss_prefix (sv_sections s)) /\ (length (sv_sections s) <= BB_HTTP_SECTION_TABLE_CAP)%nat
}.

Lemma good_made e : good_entry e -> entry_made e.
Proof. intros (m & p & h & -> & _). unfold entry_made, made_entry. cbn. by destruct (bb_route_match_is_wildcard p). Qed.
Lemma good_all d : Forall good_entry d -> Forall entry_made d.
Proof. intros H. eapply Forall_impl; [exact H|]. apply good_made. Qed.

Lemma has_route_false m p h d : has_route m p d = false -> Forall good_entry d ->
  Forall (fun a => ~ (de_method a = de_method (made_entry m p h) /\ de_path a = de_path (made_entry m p h))) d.
Proof.
  unfold has_route. intros Hn Hg. induction Hg as [|e d He _ IH]; [constructor|]. cbn [existsb] in Hn. apply orb_false_iff in Hn as [Hn Hd].
  constructor; [|by apply IH]. destruct He as (m' & p' & h' & -> & _). rewrite same_route_made in Hn. apply bool_decide_eq_false in Hn. cbn. naive_solver.
Qed.
Lemma ord_pairs_snoc {A} (R : A -> A -> Prop) l x : ForallOrdPairs R l -> Forall (fun a => R a x) l -> ForallOrdPairs R (l ++ [x]).
Proof.
  induction 1 as [|a l Ha _ IH]; intros Hx; cbn [app]; [by repeat constructor|]. apply Forall_cons in Hx as [Hax Hx].
  constructor; [|by apply IH]. apply Forall_app. by repeat constructor.
Qed.

Lemma chain_wf xs d d' : dispatch_chain xs d d' -> Forall good_entry d -> (length d <= BB_DISPATCH_API_CAP caps)%nat ->
  ForallOrdPairs (fun a b => ~ (de_method a = de_method b /\ de_path a = de_path b)) d ->
  Forall good_entry d' /\ (length d' <= BB_DISPATCH_API_CAP caps)%nat /\
  ForallOrdPairs (fun a b => ~ (de_method a = de_method b /\ de_path a = de_path b)) d'.
Proof.
  induction 1 as [|d d' e _ IH (m & p & h & -> & Hh & Ha & Hl & Hr & _)]; intros H1 H2 H3; [done|]. destruct (IH H1 H2 H3) as (H4 & H5 & H6).
  split_and!; [|rewrite length_app; cbn; lia|apply ord_pairs_snoc; [done|by apply has_route_false]].
  apply Forall_app. split; [done|]. constructor; [|constructor]. by exists m, p, h.
Qed.
Lemma safe_wf s s' : safe_growth s s' -> server_wf s -> server_wf s'.
Proof.
  intros (H1 & (rs & H2 & _ & H3) & H4 & H5 & H6 & H7 & H8) [W1 W2 W3 W4 W5 W6 W7 W8]. destruct (chain_wf _ _ _ H1 W1 W3 W2) as (C1 & C2 & C3).
  split; try done; try congruence.
  - destruct rs as [|r rs]; [rewrite app_nil_r in H2; congruence|]. by apply H3.
  - unfold excludes in H4. apply (f_equal length) in H4. rewrite !length_map in H4. lia.
Qed.

Lemma register_ns_wf ns s : server_wf s -> server_wf (bb_http_section_register_ns ns s).2.
Proof.
  intros Hw. unfold bb_http_section_register_ns. destruct ns as [ns|]; [|done]. destruct (ns_prefix ns) as [p|]; [|done].
  destruct (match ns_render ns with Some _ => _ | None => _ end); [done|].
  destruct (Nat.leb_spec BB_HTTP_SECTION_PREFIX_MAX (length p)) as [|Hp]; [done|]. destruct (_ <? 2)%nat; [done|].
  destruct (existsb _ _) eqn:Ee; [done|]. destruct (Nat.leb_spec BB_HTTP_SECTION_TABLE_CAP (length (sv_sections s))) as [|Hl]; [done|].
  cbv zeta. cbn [snd]. rewrite (take_ge p) by (unfold BB_HTTP_SECTION_PREFIX_MAX in *; lia). destruct Hw as [W1 W2 W3 W4 W5 W6 W7 W8].
  split; try done; cbn [sv_sections set_sections].
  - apply Forall_app. split; [done|]. apply Forall_singleton. done.
  - rewrite map_app, length_app. cbn. split; [|lia]. apply NoDup_app. split_and!; [apply W8| |apply NoDup_singleton].
    intros q Hq ->%list_elem_of_singleton. apply list_elem_of_fmap in Hq as (x & Hx & Hin).
    apply not_true_iff_false in Ee. apply Ee, existsb_exists. exists x. split; [by apply list_elem_of_In|]. by rewrite bool_decide_true.
Qed.

Lemma step_wf o s : server_wf s -> server_wf (http_step o s).2.
Proof.
  intros Hw. destruct o; cbn [http_step].
  - unfold bb_http_route_exclude. destruct p as [[|b p]|]; [done| |done]. destruct (negb _); [done|].
    destruct (Nat.leb_spec (BB_HTTP_ROUTE_EXCLUDE_CAP caps) (length (sv_exclude s))) as [|Hl]; [done|]. cbn [snd]. destruct Hw.
    split; try done. cbn. rewrite length_app. cbn. lia.
  - eapply safe_wf; [apply register_route_safe|done].
  - eapply safe_wf; [apply described_safe|done].
  - destruct r as [r|]; [|done]. eapply safe_wf; [apply registry_add_safe|done].
  - destruct t as [t|]; [|done]. eapply safe_wf; [apply table_safe|done].
  - by apply register_ns_wf.
  - eapply safe_wf; [apply section_init_safe|done].
  - unfold bb_http_prov_allow. destruct p as [p|]; [|done]. destruct (_ && _); [done|].
    destruct (Nat.leb_spec (BB_HTTP_PROV_ALLOWLIST_CAP caps) (length (sv_allow s))) as [|Hl]; [done|]. cbn [snd]. destruct Hw.
    split; try done. cbn. rewrite length_app. cbn. lia.
  - unfold bb_http_prov_deny. destruct p as [p|]; [|done]. destruct (_ && _); [done|].
    destruct (Nat.leb_spec (BB_HTTP_PROV_DENYLIST_CAP caps) (length (sv_deny s))) as [|Hl]; [done|]. cbn [snd]. destruct Hw.
    split; try done. cbn. rewrite length_app. cbn. lia.
  - destruct Hw. by split.
Qed.
Lemma run_wf os : forall s, server_wf s -> server_wf (http_run os s).
Proof. unfold http_run. induction os as [|o os IH]; intros s Hw; cbn; [done|]. by apply IH, step_wf. Qed.
Lemma server0_wf : server_wf server0.
Proof. split; cbn; try done; try lia; try constructor; try constructor; lia. Qed.
Lemma reached_wf os : server_wf (http_run os server0).
Proof. apply run_wf, server0_wf. Qed.

(** Whatever exclusions, routes, tables, sections and gate entries were
    registered in whatever order, a lookup answers as the reference says: a route
    for the exact path of the URI (the query is not part of it) wins whatever the
    order, and its path is refused under other methods even when a wildcard would
    serve it; otherwise the first of the wildcards with the longest stem decides.
    The table holds each method and path at most once and stays within its
    capacity. *)
Theorem dispatch_answers_reference os :
  let s := http_run os server0 in
  (forall m uri, bb_dispatch_api_lookup m (Some uri) s = dispatch_ref m (path_of uri) (sv_dispatch s)) /\
  ForallOrdPairs (fun a b => ~ (de_method a = de_method b /\ de_path a = de_path b)) (sv_dispatch s) /\
  (length (sv_dispatch s) <= BB_DISPATCH_API_CAP caps)%nat.
Proof.
  cbv zeta. pose proof (reached_wf os) as Hw. split_and!; [|apply Hw|apply Hw]. intros m uri. apply lookup_ref, good_all, Hw.
Qed.

(** ** Exclusions *)

Lemma excludes_grow o s : exists xs, excludes (http_step o s).2 = excludes s ++ xs.
Proof.
  assert (Hs : forall s', safe_growth s s' -> exists xs, excludes s' = excludes s ++ xs).
  { intros s' (_ & _ & -> & _). exists []. by rewrite app_nil_r. }
  destruct o; cbn [http_step].
  - unfold bb_http_route_exclude. destruct p as [[|b p]|]; try (exists []; by rewrite app_nil_r).
    destruct (negb _); [exists []; by rewrite app_nil_r|]. destruct (_ <=? _)%nat; [exists []; by rewrite app_nil_r|].
    exists [(m, b :: p)]. cbn. unfold excludes. cbn. by rewrite map_app.
  - apply Hs, register_route_safe.
  - apply Hs, described_safe.
  - destruct r as [r|]; [|exists []; by rewrite app_nil_r]. apply Hs, registry_add_safe.
  - destruct t as [t|]; [|exists []; by rewrite app_nil_r]. apply Hs, table_safe.
  - exists []. rewrite app_nil_r. unfold bb_http_section_register_ns. destruct ns as [ns|]; [|done]. destruct (ns_prefix ns) as [p|]; [|done].
    by repeat (destruct (match ns_render ns with Some _ => _ | None => _ end) || case_match).
  - apply Hs, section_init_safe.
  - exists []. rewrite app_nil_r. unfold bb_http_prov_allow. by repeat case_match.
  - exists []. rewrite app_nil_r. unfold bb_http_prov_deny. by repeat case_match.
  - exists []. by rewrite app_nil_r.
Qed.

(** What a step adds is not excluded. *)
Definition not_excluded_dispatch (x : bb_http_method * text) (e : dispatch_entry) : Prop :=
  forall p, de_method e = x.1 -> de_path e = Some p -> matches x.2 p = false.
Definition not_excluded_route (x : bb_http_method * text) (r : route) : Prop :=
  forall p, rt_method r = x.1 -> rt_path r = Some p -> matches x.2 p = false.

Lemma chain_new xs x d d' : dispatch_chain xs d d' -> x ∈ xs -> exists n, d' = d ++ n /\ Forall (not_excluded_dispatch x) n.
Proof.
  intros H Hx. induction H as [d|d d' e _ (n & -> & Hn) (m & p & h & -> & _ & _ & _ & _ & Hxs)]; [exists []; by rewrite app_nil_r|].
  exists (n ++ [made_entry m p h]). rewrite app_assoc. split; [done|]. apply Forall_app. split; [done|]. constructor; [|constructor].
  rewrite Forall_forall in Hxs. specialize (Hxs x Hx). intros q Hm [= <-]. by apply Hxs.
Qed.
Lemma step_new x o s : x ∈ excludes s ->
  (exists n, sv_dispatch (http_step o s).2 = sv_dispatch s ++ n /\ Forall (not_excluded_dispatch x) n) /\
  (exists n, sv_registry (http_step o s).2 = sv_registry s ++ n /\ Forall (not_excluded_route x) n).
Proof.
  intros Hx. assert (Hs : forall s', safe_growth s s' ->
    (exists n, sv_dispatch s' = sv_dispatch s ++ n /\ Forall (not_excluded_dispatch x) n) /\
    (exists n, sv_registry s' = sv_registry s ++ n /\ Forall (not_excluded_route x) n)).
  { intros s' (H1 & (rs & H2 & H3 & _) & _). split; [by eapply chain_new|]. exists rs. split; [done|]. eapply Forall_impl; [exact H3|].
    intros r Hr p Hm Hp. unfold may_register in Hr. rewrite Hp, Forall_forall in Hr. by apply (Hr x Hx). }
  assert (Hsame : forall s', sv_dispatch s' = sv_dispatch s -> sv_registry s' = sv_registry s ->
    (exists n, sv_dispatch s' = sv_dispatch s ++ n /\ Forall (not_excluded_dispatch x) n) /\
    (exists n, sv_registry s' = sv_registry s ++ n /\ Forall (not_excluded_route x) n)).
  { intros s' -> ->. split; exists []; by rewrite app_nil_r. }
  destruct o; cbn [http_step].
  - apply Hsame; unfold bb_http_route_exclude; by repeat case_match.
  - apply Hs, register_route_safe.
  - apply Hs, described_safe.
  - destruct r as [r|]; [apply Hs, registry_add_safe|by apply Hsame].
  - destruct t as [t|]; [apply Hs, table_safe|by apply Hsame].
  - apply Hsame; unfold bb_http_section_register_ns; by repeat case_match.
  - apply Hs, section_init_safe.
  - apply Hsame; unfold bb_http_prov_allow; by repeat case_match.
  - apply Hsame; unfold bb_http_prov_deny; by repeat case_match.
  - by apply Hsame.
Qed.
Lemma run_new x os : forall s, x ∈ excludes s ->
  (exists n, sv_dispatch (http_run os s) = sv_dispatch s ++ n /\ Forall (not_excluded_dispatch x) n) /\
  (exists n, sv_registry (http_run os s) = sv_registry s ++ n /\ Forall (not_excluded_route x) n).
Proof.
  unfold http_run. induction os as [|o os IH]; intros s Hx; cbn [fold_left]; [split; exists []; by rewrite app_nil_r|].
  destruct (excludes_grow o s) as [xs Hxs]. destruct (step_new x o s Hx) as [(n1 & D1 & F1) (n2 & D2 & F2)].
  destruct (IH (http_step o s).2) as [(n3 & D3 & F3) (n4 & D4 & F4)]; [rewrite Hxs; set_solver|].
  split; [exists (n1 ++ n3); rewrite D3, D1, app_assoc|exists (n2 ++ n4); rewrite D4, D2, app_assoc]; (split; [done|by apply Forall_app]).
Qed.

(** An excluded method and path pattern stays out: once an exclusion is
    accepted, no route it matches enters the dispatch table or the registry,
    through any later registration, table or section. *)
Theorem excluded_stays_out os1 os2 m p s1 :
  bb_http_route_exclude caps m (Some p) (http_run os1 server0) = (BB_OK, s1) ->
  let s2 := http_run os2 s1 in
  (exists n, sv_dispatch s2 = sv_dispatch (http_run os1 server0) ++ n /\
     Forall (fun e => forall q, de_method e = m -> de_path e = Some q -> matches p q = false) n) /\
  (exists n, sv_registry s2 = sv_registry (http_run os1 server0) ++ n /\
     Forall (fun r => forall q, rt_method r = m -> rt_path r = Some q -> matches p q = false) n).
Proof.
  intros H. unfold bb_http_route_exclude in H. destruct p as [|b p]; [done|]. destruct (negb _); [done|]. destruct (_ <=? _)%nat; [done|].
  injection H as H. set (s0 := http_run os1 server0) in *. clearbody s0. cbv zeta.
  assert (Hd : sv_dispatch s0 = sv_dispatch s1) by by rewrite <- H. assert (Hr : sv_registry s0 = sv_registry s1) by by rewrite <- H.
  rewrite Hd, Hr. apply (run_new (m, b :: p) os2 s1). rewrite <- H. unfold excludes. cbn. rewrite map_app. set_solver.
Qed.

(** ** Wildcards with the same path *)

Lemma find_split {A} (f : A -> bool) l x : find f l = Some x -> exists l1 l2, l = l1 ++ x :: l2 /\ f x = true /\ Forall (fun y => f y = false) l1.
Proof.
  induction l as [|y l IH]; [done|]. cbn. destruct (f y) eqn:E.
  - intros [= ->]. by exists [], l.
  - intros (l1 & l2 & -> & Hx & Hf)%IH. exists (y :: l1), l2. split_and!; [done|done|]. by constructor.
Qed.
Lemma filter_split {A} (f : A -> bool) d l1 x l2 : List.filter f d = l1 ++ x :: l2 -> exists d1 d2, d = d1 ++ x :: d2 /\ List.filter f d1 = l1.
Proof.
  revert l1. induction d as [|y d IH]; intros l1; cbn; [by destruct l1|]. destruct (f y) eqn:E.
  - destruct l1 as [|z l1]; cbn; intros [= -> H]; [by exists [], d|]. destruct (IH l1 H) as (d1 & d2 & -> & <-). exists (z :: d1), d2. split; [done|].
    cbn. by rewrite E.
  - intros H. destruct (IH l1 H) as (d1 & d2 & -> & <-). exists (y :: d1), d2. split; [done|]. cbn. by rewrite E.
Qed.

Lemma list_filter_app {A} (f : A -> bool) a b : List.filter f (a ++ b) = List.filter f a ++ List.filter f b.
Proof. induction a as [|x a IH]; [done|]. cbn. rewrite IH. by destruct (f x). Qed.

Lemma longest_drop a x b y c : stem_len x = stem_len y -> longest (a ++ x :: b ++ y :: c) = longest (a ++ x :: b ++ c).
Proof.
  intros Hxy. unfold longest. assert (Hm : max_list (map stem_len (a ++ x :: b ++ y :: c)) = max_list (map stem_len (a ++ x :: b ++ c))).
  { repeat (rewrite ?map_app, ?map_cons). induction (map stem_len a) as [|n l IH].
    - cbn [app]. rewrite !max_list_cons. rewrite Hxy. induction (map stem_len b) as [|n l IH]; cbn [app]; rewrite ?max_list_cons; lia.
    - cbn [app]. by rewrite !max_list_cons, IH. }
  rewrite Hm. set (M := max_list _). clearbody M. clear Hm. induction a as [|z a IH]; cbn [app find]; [|by rewrite IH].
  destruct (stem_len x =? M)%nat eqn:E; [done|]. induction b as [|z b IH]; cbn [app find]; [by rewrite <- Hxy, E|]. by rewrite IH.
Qed.

(** Of two wildcards for one path and different methods only the first is
    ever served: without the second entry every lookup, of every method and URI,
    answers the same. *)
Theorem second_wildcard_dead s warned l1 e1 l2 e2 l3 p m uri :
  Forall entry_made (l1 ++ e1 :: l2 ++ e2 :: l3) -> de_path e1 = Some p -> de_path e2 = Some p -> bb_route_match_is_wildcard p = true ->
  bb_dispatch_api_lookup m uri (set_dispatch (l1 ++ e1 :: l2 ++ e2 :: l3) warned s) =
  bb_dispatch_api_lookup m uri (set_dispatch (l1 ++ e1 :: l2 ++ l3) warned s).
Proof.
  intros Hm H1 H2 Hw. destruct uri as [uri|]; [|done]. rewrite !lookup_ref; [|clear -Hm|done]; cbn [sv_dispatch set_dispatch].
  2:{ rewrite !Forall_app, !Forall_cons, !Forall_app, !Forall_cons in *. tauto. }
  unfold dispatch_ref. set (q := path_of uri).
  assert (He : exact_on q e2 = false) by (unfold exact_on; by rewrite H2, Hw).
  assert (Hc : covers q e2 = covers q e1) by (unfold covers; by rewrite H1, H2).
  repeat (rewrite !list_filter_app; cbn [List.filter]). rewrite He, Hc.
  destruct (covers q e1); [|done]. rewrite longest_drop; [done|]. unfold stem_len. by rewrite H1, H2.
Qed.

(** *** Section PATCH *)

Section SectionPatch.
Context (get patch : handler).
(** Every entry of the PATCH handler comes after another of its path. *)
Definition shadowed (d : list dispatch_entry) : Prop :=
  forall d1 e d2, d = d1 ++ e :: d2 -> de_handler e = patch ->
  exists e1 p, e1 ∈ d1 /\ de_handler e1 <> patch /\ de_path e1 = Some p /\ de_path e = Some p /\ bb_route_match_is_wildcard p = true.

Lemma shadowed_snoc d e : shadowed d ->
  (de_handler e = patch -> exists e1 p, e1 ∈ d /\ de_handler e1 <> patch /\ de_path e1 = Some p /\ de_path e = Some p /\ bb_route_match_is_wildcard p = true) ->
  shadowed (d ++ [e]).
Proof.
  intros Hd He d1 e' d2 Heq Hh. destruct d2 as [|z d2 _] using rev_ind.
  - apply app_inj_tail in Heq as [<- <-]. by apply He.
  - rewrite app_comm_cons, app_assoc in Heq. apply app_inj_tail in Heq as [-> <-]. by eapply Hd.
Qed.

Lemma lookup_not_shadowed m uri s : Forall entry_made (sv_dispatch s) -> shadowed (sv_dispatch s) ->
  bb_dispatch_api_lookup m (Some uri) s <> BB_DISPATCH_API_HIT patch.
Proof.
  intros Hm Hs. rewrite (lookup_ref m uri s Hm). unfold dispatch_ref. set (q := path_of uri). set (d := sv_dispatch s) in *.
  destruct (List.filter (exact_on q) d) as [|e0 es] eqn:Ef.
  - destruct (longest (List.filter (covers q) d)) as [e|] eqn:El; [|done]. destruct (by_method m e); [|done]. intros [= Hh].
    apply find_split in El as (l1 & l2 & Hl & Hmax & Hf). destruct (filter_split _ _ _ _ _ Hl) as (d1 & d2 & Hd & Hl1).
    destruct (Hs d1 e d2 Hd Hh) as (e1 & p & Hin & _ & Hp1 & Hp2 & Hw). rewrite Forall_forall in Hf.
    assert (Hce : covers q e = true).
    { assert (H : In e (List.filter (covers q) d)) by (rewrite Hl; apply in_app_iff; right; by left). by apply filter_In in H as [_ H]. }
    assert (Hin1 : e1 ∈ l1). { rewrite <- Hl1. apply list_elem_of_In, filter_In. split; [by apply list_elem_of_In|]. unfold covers in *. by rewrite Hp1; rewrite Hp2 in Hce. }
    specialize (Hf e1 Hin1). unfold stem_len in Hf, Hmax. rewrite Hp1 in Hf. rewrite Hp2 in Hmax. cbv beta in Hf. congruence.
  - destruct (find (by_method m) (e0 :: es)) as [e|] eqn:El; [|done]. intros [= Hh].
    apply find_split in El as (l1 & l2 & Hl & _). rewrite Hl in Ef. destruct (filter_split _ _ _ _ _ Ef) as (d1 & d2 & Hd & _).
    destruct (Hs d1 e d2 Hd Hh) as (_ & p & _ & _ & _ & Hp & Hw).
    assert (H : In e (List.filter (exact_on q) d)) by (rewrite Ef; apply in_app_iff; right; by left). apply filter_In in H as [_ H].
    unfold exact_on in H. by rewrite Hp, Hw in H.
Qed.

Lemma has_route_in m p d : has_route m p d = true -> Forall good_entry d -> exists h, made_entry m p h ∈ d.
Proof.
  unfold has_route. intros (e & Hin%list_elem_of_In & He)%existsb_exists Hg. rewrite Forall_forall in Hg. destruct (Hg e Hin) as (m' & p' & h & -> & _).
  rewrite same_route_made in He. apply bool_decide_eq_true in He as [-> ->]. by exists h.
Qed.

Lemma excluded_same s s' m p : excludes s' = excludes s -> excluded_pair s' m p = excluded_pair s m p.
Proof.
  unfold excludes, excluded_pair. generalize (sv_exclude s'), (sv_exclude s).
  induction l as [|a l IH]; intros [|b l1]; [done|done|done|]. cbn. intros [= Hm Hp Ht]. by rewrite Hm, Hp, (IH l1 Ht).
Qed.

(** The PATCH handler serves no GET. *)
Definition patch_not_get (d : list dispatch_entry) : Prop := Forall (fun e => de_handler e = patch -> de_method e <> BB_HTTP_GET) d.

(** Both routes of one section. *)
Lemma section_get_added p s : get <> patch -> server_wf s -> shadowed (sv_dispatch s) -> patch_not_get (sv_dispatch s) ->
  excluded_pair s BB_HTTP_GET p = false -> let a := bb_dispatch_api_add caps BB_HTTP_GET (Some p) get s in
  a.1 <> BB_ERR_NO_SPACE ->
  shadowed (sv_dispatch a.2) /\ patch_not_get (sv_dispatch a.2) /\ exists h, made_entry BB_HTTP_GET p h ∈ sv_dispatch a.2.
Proof.
  cbv zeta. intros Hgp Hw Hsh Hget Hex Hok. pose proof (dispatch_add_spec BB_HTTP_GET p get s) as G. cbv zeta in G. rewrite Hex in G.
  destruct (length (sv_dispatch s) <? BB_DISPATCH_API_CAP caps)%nat; cbn [andb] in G; [|by destruct G].
  destruct (has_route BB_HTTP_GET p (sv_dispatch s)) eqn:Eh; cbn [negb] in G; destruct G as [_ (G & _)]; rewrite G.
  - rewrite app_nil_r. split_and!; [done|done|]. apply has_route_in; [done|apply Hw].
  - split_and!; [apply shadowed_snoc; [done|]; cbn; congruence| |exists get; set_solver].
    apply Forall_app. split; [done|]. constructor; [|constructor]. cbn. congruence.
Qed.
Lemma section_patch_added p h s : shadowed (sv_dispatch s) -> patch_not_get (sv_dispatch s) -> bb_route_match_is_wildcard p = true ->
  made_entry BB_HTTP_GET p h ∈ sv_dispatch s -> let a := bb_dispatch_api_add caps BB_HTTP_PATCH (Some p) patch s in
  shadowed (sv_dispatch a.2) /\ patch_not_get (sv_dispatch a.2).
Proof.
  cbv zeta. intros Hsh Hget Hw Hin. pose proof (dispatch_add_spec BB_HTTP_PATCH p patch s) as K. cbv zeta in K.
  assert (Hsame : forall s'', grows s s'' [] [] -> shadowed (sv_dispatch s'') /\ patch_not_get (sv_dispatch s'')).
  { intros s'' (K1 & _). rewrite app_nil_r in K1. by rewrite K1. }
  destruct (excluded_pair s BB_HTTP_PATCH p); [by apply Hsame, K|].
  match type of K with (if ?b then _ else _) => destruct b end; [|by apply Hsame, K]. destruct K as [_ (K & _)]. rewrite K. split.
  - apply shadowed_snoc; [done|]. intros _. exists (made_entry BB_HTTP_GET p h), p. split_and!; try done.
    unfold patch_not_get in Hget. rewrite Forall_forall in Hget. intros Hh. by apply (Hget _ Hin Hh).
  - apply Forall_app. split; [done|]. constructor; [|constructor]. done.
Qed.

Lemma section_pair_shadowed ok p s s1 s2 : get <> patch -> server_wf s -> shadowed (sv_dispatch s) -> patch_not_get (sv_dispatch s) ->
  excluded_pair s BB_HTTP_GET p = false -> bb_route_match_is_wildcard p = true ->
  bb_http_register_route caps httpd ok BB_HTTP_GET (Some p) get s = (BB_OK, s1) ->
  bb_http_register_route caps httpd ok BB_HTTP_PATCH (Some p) patch s1 = (BB_OK, s2) ->
  shadowed (sv_dispatch s2) /\ patch_not_get (sv_dispatch s2).
Proof.
  intros Hgp Hw Hsh Hget Hex Hwild E1 E2. unfold bb_http_register_route in E1, E2. destruct (negb ok || (get =? 0)); [done|]. destruct (negb ok || (patch =? 0)); [done|].
  destruct (bb_route_match_wildcard_in_api_scope p).
  - injection E1 as E1 <-. injection E2 as _ <-.
    destruct (section_get_added p s Hgp Hw Hsh Hget Hex) as (G1 & G2 & h & G3); [intros G; by rewrite G in E1|]. by apply section_patch_added with h.
  - destruct (httpd _ _ get); [|done]. destruct (httpd _ _ patch); [|done]. injection E1 as <-. by injection E2 as <-.
Qed.

(** No GET wildcard of a section is excluded, and the PATCH handler serves
    nothing but wildcards already shadowed. *)
Lemma section_loop_shadowed ok l : forall s s', get <> patch -> server_wf s -> shadowed (sv_dispatch s) -> patch_not_get (sv_dispatch s) ->
  Forall (fun x => ss_wildcard x = ss_prefix x ++ [x2a] /\ excluded_pair s BB_HTTP_GET (ss_wildcard x) = false) l ->
  section_init_loop caps httpd ok get patch l s = (BB_OK, s') -> shadowed (sv_dispatch s').
Proof.
  induction l as [|x l IH]; intros s s' Hgp Hw Hsh Hget Hl H; [by injection H as <-|]. apply Forall_cons in Hl as [[Hx Hex] Hl].
  cbn [section_init_loop] in H. cbv zeta in H.
  pose proof (register_route_safe ok BB_HTTP_GET (Some (ss_wildcard x)) get s) as Hs1.
  destruct (bb_http_register_route _ _ _ BB_HTTP_GET _ _ _) as [e1 s1] eqn:E1. cbn [fst snd] in *. destruct e1; try done. cbn [is_ok negb] in H.
  pose proof (register_route_safe ok BB_HTTP_PATCH (Some (ss_wildcard x)) patch s1) as Hs2.
  destruct (bb_http_register_route _ _ _ BB_HTTP_PATCH _ _ _) as [e2 s2] eqn:E2. cbn [fst snd] in *. destruct e2; try done. cbn [is_ok negb] in H.
  pose proof (safe_trans _ _ _ Hs1 Hs2) as Hs.
  destruct (section_pair_shadowed ok (ss_wildcard x) s s1 s2) as [H1 H2]; try done; [rewrite Hx; apply wildcard_snoc|].
  eapply (IH s2 s'); try done; [by eapply safe_wf|]. eapply Forall_impl; [exact Hl|]. intros y [Hy1 Hy2]. split; [done|].
  rewrite (excluded_same s); [done|apply Hs].
Qed.

(** The PATCH handler that bb_http_section_init registers for every
    namespace, right after the GET handler of the same wildcard, is never
    reached: no lookup of any method and URI answers it, so every PATCH to a
    section is refused. *)
Theorem section_patch_never_reached os ok s' m uri :
  let s := http_run os server0 in
  get <> patch -> Forall (fun e => de_handler e <> patch) (sv_dispatch s) ->
  Forall (fun x => excluded_pair s BB_HTTP_GET (ss_wildcard x) = false) (sv_sections s) ->
  bb_http_section_init caps httpd ok get patch s = (BB_OK, s') ->
  bb_dispatch_api_lookup m (Some uri) s' <> BB_DISPATCH_API_HIT patch.
Proof.
  cbv zeta. intros Hgp Hp Hx H. pose proof (reached_wf os) as Hw. set (s := http_run os server0) in *. clearbody s.
  assert (Hw' : server_wf s').
  { replace s' with (bb_http_section_init caps httpd ok get patch s).2 by by rewrite H. eapply safe_wf; [apply section_init_safe|done]. }
  apply lookup_not_shadowed; [apply good_all, Hw'|]. apply (section_loop_shadowed ok (sv_sections s) s s'); try done.
  - intros d1 e d2 Hd Hh. rewrite Forall_forall in Hp. exfalso. apply (Hp e); [rewrite Hd; set_solver|done].
  - eapply Forall_impl; [exact Hp|]. cbn. tauto.
  - pose proof (sw_sections _ Hw) as Hs. rewrite Forall_forall in Hs, Hx |- *. intros x Hin. split; [by apply Hs|by apply Hx].
Qed.
End SectionPatch.

(** ** The provisioning gate *)

(** A path of a request: no query mark in it. *)
Definition plain (p : text) : Prop := Forall (fun b => b <> x3f) p.
#[local] Instance plain_dec p : Decision (plain p).
Proof. unfold plain. apply _. Defined.

Lemma take_min_prefix (a b : text) : take (Nat.min (length a) (length b)) a = take (Nat.min (length a) (length b)) b <-> a `prefix_of` b \/ b `prefix_of` a.
Proof.
  split.
  - intros H. destruct (Nat.le_ge_cases (length a) (length b)) as [Hl|Hl].
    + rewrite Nat.min_l, firstn_all in H by done. left. exists (drop (length a) b). rewrite H at 1. by rewrite take_drop.
    + rewrite Nat.min_r, firstn_all in H by done. right. exists (drop (length b) a). rewrite <- H at 1. by rewrite take_drop.
  - intros [[k ->]|[k ->]]; rewrite length_app.
    + rewrite Nat.min_l by lia. by rewrite firstn_all, take_app_length.
    + rewrite Nat.min_r by lia. by rewrite firstn_all, take_app_length.
Qed.
Lemma stem_take n p : (n <= length p - 1)%nat -> take n (stem p) = take n p.
Proof. intros H. unfold stem. by rewrite take_take, Nat.min_l. Qed.
Lemma stem_length p : length (stem p) = (length p - 1)%nat.
Proof. unfold stem. rewrite length_take. lia. Qed.
Lemma stem_plain p : plain p -> plain (stem p).
Proof. apply Forall_take. Qed.
Lemma matches_stem p : bb_route_match_is_wildcard p = true -> matches p (stem p) = true.
Proof. intros H. unfold matches. rewrite H. by apply bool_decide_true. Qed.
Lemma matches_self p : bb_route_match_is_wildcard p = false -> matches p p = true.
Proof. intros H. unfold matches. rewrite H. by apply bool_decide_true. Qed.

(** The overlap of two entries is decided rightly. *)
Lemma overlap_iff a d : plain (ge_path a) -> plain (ge_path d) ->
  bb_http_prov_gate_entries_overlap a d = true <-> exists p, plain p /\ matches (ge_path a) p = true /\ matches (ge_path d) p = true.
Proof.
  destruct a as [ma a], d as [md d]. cbn [ge_path]. intros Ha Hd. unfold bb_http_prov_gate_entries_overlap. cbn [ge_path]. cbv zeta.
  destruct (bb_route_match_is_wildcard a) eqn:Ea, (bb_route_match_is_wildcard d) eqn:Ed; cbn [negb andb].
  - rewrite bool_decide_eq_true. rewrite <- (stem_take _ a), <- (stem_take _ d) by lia. rewrite <- !stem_length, take_min_prefix. split.
    + intros [H|H]; [exists (stem d)|exists (stem a)]; (split_and!; [by apply stem_plain| |]); try (by apply matches_stem);
        unfold matches; [rewrite Ea|rewrite Ed]; by apply bool_decide_true.
    + intros (p & _ & H1 & H2). unfold matches in H1, H2. rewrite Ea in H1. rewrite Ed in H2. apply bool_decide_eq_true in H1, H2.
      destruct H1 as [k1 ->], H2 as [k2 H2]. destruct (Nat.le_ge_cases (length (stem a)) (length (stem d))) as [Hl|Hl]; [left|right].
      * exists (take (length (stem d) - length (stem a)) k1). apply (f_equal (take (length (stem d)))) in H2. rewrite take_app_length, take_app_ge in H2 by done. done.
      * exists (take (length (stem a) - length (stem d)) k2). apply (f_equal (take (length (stem a)))) in H2. rewrite take_app_length, take_app_ge in H2 by done. done.
  - rewrite uri_match_whole. split; [intros H; exists d; split_and!; [done|done|by apply matches_self]|].
    intros (p & _ & H1 & H2). unfold matches in H2. rewrite Ed in H2. apply bool_decide_eq_true in H2 as ->. done.
  - rewrite uri_match_whole. split; [intros H; exists a; split_and!; [done|by apply matches_self|done]|].
    intros (p & _ & H1 & H2). unfold matches in H1. rewrite Ea in H1. apply bool_decide_eq_true in H1 as ->. done.
  - rewrite andb_true_iff, bool_decide_eq_true. split.
    + intros [_ <-]. exists a. split_and!; [done|by apply matches_self|by apply matches_self].
    + intros (p & _ & H1 & H2). unfold matches in H1, H2. rewrite Ea in H1. rewrite Ed in H2. apply bool_decide_eq_true in H1, H2. subst.
      by rewrite Nat.eqb_refl.
Qed.

Lemma gate_hit_spec m uri l : gate_hit m uri l = existsb (fun e => bool_decide (ge_method e = m) && matches (ge_path e) (path_of uri)) l.
Proof. unfold gate_hit. induction l as [|e l IH]; [done|]. cbn [existsb]. by rewrite IH, uri_match_path. Qed.

(** The server with these deny entries only. *)
Definition with_denies (de : list gate_entry) (s : server) : server := set_gate (sv_allow s) de (sv_active_fn s) s.

(** The check of the deny list is right in both directions: it passes
    exactly when each deny entry refuses, while provisioning, some request that
    the gate would let through without it. *)
Theorem verify_denies_decides s : BB_WIFI_PROV_GATE_DISABLE caps = false ->
  Forall (fun e => plain (ge_path e)) (sv_allow s) -> Forall (fun e => plain (ge_path e)) (sv_deny s) ->
  bb_http_prov_gate_verify_denies s = BB_OK <->
  Forall (fun d => exists uri,
    bb_http_prov_gate_allow caps true (ge_method d) (Some uri) (with_denies [] s) = true /\
    bb_http_prov_gate_allow caps true (ge_method d) (Some uri) (with_denies [d] s) = false) (sv_deny s).
Proof.
  intros Hc Ha Hd. unfold bb_http_prov_gate_verify_denies.
  assert (Heach : forall d, plain (ge_path d) ->
    existsb (fun a => bool_decide (ge_method a = ge_method d) && bb_http_prov_gate_entries_overlap a d) (sv_allow s) = true <->
    exists uri, bb_http_prov_gate_allow caps true (ge_method d) (Some uri) (with_denies [] s) = true /\
      bb_http_prov_gate_allow caps true (ge_method d) (Some uri) (with_denies [d] s) = false).
  { intros d Hpd. unfold bb_http_prov_gate_allow. rewrite Hc. cbn [negb with_denies set_gate sv_allow sv_deny]. rewrite existsb_exists. split.
    - intros (a & Hin & Ho). apply andb_true_iff in Ho as [Hm%bool_decide_eq_true Ho]. pose proof Ha as Ha'. rewrite Forall_forall in Ha'.
      apply overlap_iff in Ho as (p & Hp & H1 & H2); [|by apply Ha', list_elem_of_In|done]. exists p. rewrite !gate_hit_spec, (path_of_plain p Hp).
      assert (Hal : existsb (fun e => bool_decide (ge_method e = ge_method d) && matches (ge_path e) p) (sv_allow s) = true).
      { apply existsb_exists. exists a. split; [done|]. by rewrite bool_decide_true. }
      rewrite Hal. cbn [negb existsb]. rewrite bool_decide_true by done. by rewrite H2.
    - intros (uri & H1 & H2). rewrite !gate_hit_spec in H1, H2. destruct (existsb _ (sv_allow s)) eqn:E; [|done]. cbn [negb existsb] in H2.
      apply existsb_exists in E as (a & Hin & Hm). apply andb_true_iff in Hm as [Hm Hma]. exists a. split; [done|]. rewrite Hm. cbn [andb].
      rewrite bool_decide_true in H2 by done. apply negb_false_iff in H2. rewrite orb_false_r in H2. cbn [andb] in H2.
      rewrite Forall_forall in Ha. apply overlap_iff; [by apply Ha, list_elem_of_In|done|]. exists (path_of uri). split_and!; [|done|done].
      unfold plain, path_of. clear. induction uri as [|b uri IH]; [constructor|]. cbn. destruct (Byte.eqb b x3f) eqn:E; [constructor|].
      cbn. constructor; [by apply byte_eqb_neq|done]. }
  destruct (forallb _ (sv_deny s)) eqn:E.
  - split; [intros _|done]. rewrite forallb_forall in E. rewrite Forall_forall in Hd |- *. intros d Hin. apply Heach; [by apply Hd|]. by apply E, list_elem_of_In.
  - split; [done|]. intros H. exfalso. apply not_true_iff_false in E. apply E, forallb_forall. intros d Hin%list_elem_of_In. rewrite Forall_forall in Hd, H.
    apply Heach; [by apply Hd|by apply H].
Qed.

End Runs.

(** ** Witnesses *)

Definition wit_route (m : bb_http_method) (p : String.string) (h : handler) : http_op := Register true m (Some (bs p)) h.
Definition wit_httpd (_ : bb_http_method) (_ : option text) (_ : handler) : bool := true.

Lemma excluded_stays_out_witness :
  let os1 := [wit_route BB_HTTP_GET "/api/old" 1] in
  let s1 := (bb_http_route_exclude default_caps BB_HTTP_GET (Some (bs "/api/o*")) (http_run default_caps wit_httpd os1 server0)).2 in
  let s2 := http_run default_caps wit_httpd [wit_route BB_HTTP_GET "/api/other" 2; wit_route BB_HTTP_GET "/api/x" 3] s1 in
  exists n, sv_dispatch s2 = sv_dispatch (http_run default_caps wit_httpd os1 server0) ++ n /\ length n = 1%nat.
Proof.
  destruct (excluded_stays_out default_caps wit_httpd [wit_route BB_HTTP_GET "/api/old" 1]
    [wit_route BB_HTTP_GET "/api/other" 2; wit_route BB_HTTP_GET "/api/x" 3] BB_HTTP_GET (bs "/api/o*")
    (bb_http_route_exclude default_caps BB_HTTP_GET (Some (bs "/api/o*")) (http_run default_caps wit_httpd [wit_route BB_HTTP_GET "/api/old" 1] server0)).2)
    as [(n & Hn & _) _]; [vm_compute; reflexivity|].
  exists n. split; [exact Hn|]. apply (f_equal length) in Hn. rewrite length_app in Hn. vm_compute in Hn. destruct n as [|e [|e' n]]; [done|done|]. discriminate Hn.
Defined.

Lemma second_wildcard_dead_witness :
  let e1 := mk_dispatch BB_HTTP_GET (Some (bs "/api/s/*")) 1 true 7 in
  let e2 := mk_dispatch BB_HTTP_PATCH (Some (bs "/api/s/*")) 2 true 7 in
  bb_dispatch_api_lookup BB_HTTP_PATCH (Some (bs "/api/s/x")) (set_dispatch [e1; e2] false server0) = BB_DISPATCH_API_METHOD_MISMATCH /\
  bb_dispatch_api_lookup BB_HTTP_PATCH (Some (bs "/api/s/x")) (set_dispatch [e1; e2] false server0) =
  bb_dispatch_api_lookup BB_HTTP_PATCH (Some (bs "/api/s/x")) (set_dispatch [e1] false server0).
Proof.
  split; [vm_compute; reflexivity|].
  refine (second_wildcard_dead server0 false [] (mk_dispatch BB_HTTP_GET (Some (bs "/api/s/*")) 1 true 7) []
    (mk_dispatch BB_HTTP_PATCH (Some (bs "/api/s/*")) 2 true 7) [] (bs "/api/s/*") BB_HTTP_PATCH (Some (bs "/api/s/x")) _ eq_refl eq_refl _);
    [repeat constructor|vm_compute; reflexivity].
Defined.

Definition wit_ns : section_ns := mk_section_ns (Some (bs "/api/sensors/")) (Some (fun name cap => (BB_OK, name))) (Some (fun name body => (BB_HTTP_SECTION_STAGE_COMMIT, BB_OK))) 0.
Lemma section_patch_never_reached_witness :
  let s := http_run default_caps wit_httpd [RegisterNs (Some wit_ns)] server0 in
  let s' := (bb_http_section_init default_caps wit_httpd true 10 20 s).2 in
  (bb_http_section_init default_caps wit_httpd true 10 20 s).1 = BB_OK /\
  bb_dispatch_api_lookup BB_HTTP_GET (Some (bs "/api/sensors/temp?x=1")) s' = BB_DISPATCH_API_HIT 10 /\
  bb_dispatch_api_lookup BB_HTTP_PATCH (Some (bs "/api/sensors/temp")) s' <> BB_DISPATCH_API_HIT 20 /\
  api_dispatch_handler default_caps false (Some BB_HTTP_PATCH) (bs "/api/sensors/temp") s' = Json405.
Proof.
  cbv zeta. split_and!; [vm_compute; reflexivity|vm_compute; reflexivity| |vm_compute; reflexivity].
  apply (section_patch_never_reached default_caps wit_httpd 10 20 [RegisterNs (Some wit_ns)] true); [done|constructor| |vm_compute; reflexivity].
  constructor; [vm_compute; reflexivity|constructor].
Defined.

Lemma verify_denies_decides_witness :
  let s := http_run default_caps wit_httpd [Allow BB_HTTP_GET (Some (bs "/api/wifi/*")); Deny BB_HTTP_GET (Some (bs "/api/wifi/pass"))] server0 in
  bb_http_prov_gate_verify_denies s = BB_OK /\
  Forall (fun d => exists uri,
    bb_http_prov_gate_allow default_caps true (ge_method d) (Some uri) (with_denies [] s) = true /\
    bb_http_prov_gate_allow default_caps true (ge_method d) (Some uri) (with_denies [d] s) = false) (sv_deny s).
Proof.
  split; [vm_compute; reflexivity|]. refine (proj1 (verify_denies_decides default_caps _ eq_refl _ _) _); [| |vm_compute; reflexivity];
    (constructor; [|constructor]); vm_compute; repeat (constructor; [discriminate|]); constructor.
Defined.

Definition wit_ops : list http_op :=
  [wit_route BB_HTTP_GET "/api/wifi/scan" 5; wit_route BB_HTTP_GET "/api/reboot" 6; Allow BB_HTTP_GET (Some (bs "/api/wifi/*")); SetActiveFn true].
