(* ===== verification/Num.v ===== *)
(** bb_num: decimal formatting, clamping and byte-order reversal
    (platform/host/bb_num/bb_num.c). *)
From Stdlib Require Import Strings.String.
From S2P Require Import Prelude Bytes.

(** * The code *)

Definition bb_clampi (x lo hi : Z) : Z := if x <? lo then lo else if x >? hi then hi else x.

(** The do-while of [bb_num_u64_to_dec]: least significant digit first.  The
    array has 20 entries, the fuel below. *)
Fixpoint digits_loop (fuel : nat) (v : Z) : list byte :=
  match fuel with
  | O => []
  | S fuel' => digit_of (v mod 10) :: (if v / 10 >? 0 then digits_loop fuel' (v / 10) else [])
  end.

(** Bytes stored at [buf + i]; the rest of the buffer is kept. *)
Definition store_at (buf : list byte) (i : nat) (l : list byte) : list byte :=
  take i buf ++ l ++ drop (i + length l) buf.

(** The buffer after the call and the number of digits written. *)
Definition bb_num_u64_to_dec (buf : list byte) (cap : nat) (v : Z) : list byte * nat :=
  if (cap =? 0)%nat then (buf, 0%nat) else
  let digits := digits_loop 20 v in
  let n := length digits in
  let avail := (cap - 1)%nat in
  let written := if (n <? avail)%nat then n else avail in
  (store_at buf 0 (take written (rev digits) ++ [x00]), written).

Definition bb_num_i64_to_dec (buf : list byte) (cap : nat) (v : Z) : list byte * nat :=
  if (cap =? 0)%nat then (buf, 0%nat) else
  if v >=? 0 then bb_num_u64_to_dec buf cap v else
  if (cap =? 1)%nat then (store_at buf 0 [x00], 0%nat) else
  let buf1 := store_at buf 0 [x2d] in
  let mag := u64 (- (v + 1) + 1) in
  let '(rest, n) := bb_num_u64_to_dec (drop 1 buf1) (cap - 1) mag in
  (take 1 buf1 ++ rest, S n).

Definition bb_num_bswap32 (v : Z) : Z :=
  Z.lor (Z.lor (Z.lor (u32 (Z.shiftl (Z.land v 0x000000ff) 24)) (u32 (Z.shiftl (Z.land v 0x0000ff00) 8)))
               (Z.shiftr (Z.land v 0x00ff0000) 8))
        (Z.shiftr (Z.land v 0xff000000) 24).

(** The in-place loop: [words] four-byte groups are reversed. *)
Fixpoint bswap_words_loop (words : nat) (buf : list byte) : list byte :=
  match words, buf with
  | S words', w0 :: w1 :: w2 :: w3 :: rest => w3 :: w2 :: w1 :: w0 :: bswap_words_loop words' rest
  | _, _ => buf
  end.
Definition bb_num_bswap32_words (buf : list byte) (len : nat) : list byte :=
  bswap_words_loop (len / 4) buf.

Definition bb_num_words_to_bytes (words word_size : Z) : Z :=
  to_signed 64 (u64 (to_signed 64 (u64 words) * to_signed 64 (u64 word_size))).

(** * Canonical decimal text *)

(** Unsigned and signed decimal text, most significant digit first. *)
Definition dec_u64 (v : Z) : list byte := rev (digits_loop 20 v).
Definition dec_i64 (v : Z) : list byte :=
  if v >=? 0 then dec_u64 v else x2d :: dec_u64 (u64 (- v)).

Lemma digits_loop_length fuel v : (length (digits_loop fuel v) <= fuel)%nat.
Proof. revert v; induction fuel as [|fuel IH]; intros v; cbn; [done|]. zcases; cbn; specialize (IH (v / 10)); lia. Qed.

Lemma digits_loop_digit fuel v : Forall (fun b => is_digit b = true) (digits_loop fuel v).
Proof.
  revert v; induction fuel as [|fuel IH]; intros v; cbn; constructor.
  - apply is_digit_of. by apply Z.mod_pos_bound.
  - by destruct (v / 10 >? 0).
Qed.

Lemma digits_loop_value fuel v :
  0 <= v < 10 ^ Z.of_nat fuel -> dec_value (rev (digits_loop fuel v)) = v.
Proof.
  revert v; induction fuel as [|fuel IH]; intros v Hv; [cbn in *; lia|].
  rewrite Nat2Z.inj_succ, Z.pow_succ_r in Hv by lia.
  pose proof (Z.div_mod v 10 ltac:(lia)) as Hdm. pose proof (Z.mod_pos_bound v 10 ltac:(lia)) as Hm.
  cbn [digits_loop rev]. rewrite dec_value_snoc, digit_val_of by done.
  rewrite Z.gtb_ltb. destruct (Z.ltb_spec 0 (v / 10)).
  - rewrite IH; [lia|]. split; [lia|]. apply Z.div_lt_upper_bound; lia.
  - cbn. assert (v / 10 = 0) by (pose proof (Z.div_pos v 10); lia). lia.
Qed.

(** The text has no leading zero unless it is the one digit 0. *)
Lemma digits_loop_last fuel v :
  0 < v < 10 ^ Z.of_nat fuel -> exists ds d, digits_loop fuel v = ds ++ [d] /\ digit_val d <> 0.
Proof.
  revert v; induction fuel as [|fuel IH]; intros v Hv; [cbn in *; lia|].
  rewrite Nat2Z.inj_succ, Z.pow_succ_r in Hv by lia.
  pose proof (Z.div_mod v 10 ltac:(lia)) as Hdm. pose proof (Z.mod_pos_bound v 10 ltac:(lia)) as Hm.
  cbn [digits_loop]. rewrite Z.gtb_ltb. destruct (Z.ltb_spec 0 (v / 10)).
  - destruct (IH (v / 10)) as (ds & d & -> & Hd); [|by exists (digit_of (v mod 10) :: ds), d].
    split; [lia|]. apply Z.div_lt_upper_bound; lia.
  - exists [], (digit_of (v mod 10)). split; [done|]. rewrite digit_val_of by done.
    assert (v / 10 = 0) by (pose proof (Z.div_pos v 10); lia). lia.
Qed.

Lemma digits_loop_nonempty fuel v : (0 < fuel)%nat -> digits_loop fuel v <> [].
Proof. by destruct fuel; [lia|]. Qed.

Lemma dec_u64_length v : (1 <= length (dec_u64 v) <= 20)%nat.
Proof.
  unfold dec_u64. rewrite length_rev. pose proof (digits_loop_length 20 v).
  pose proof (digits_loop_nonempty 20 v ltac:(lia)) as H'.
  destruct (digits_loop 20 v); cbn in *; [done|lia].
Qed.

Lemma dec_u64_digits v : Forall (fun b => is_digit b = true) (dec_u64 v).
Proof. apply Forall_rev, digits_loop_digit. Qed.

Lemma dec_u64_value v : 0 <= v < 2 ^ 64 -> dec_value (dec_u64 v) = v.
Proof. intros. apply digits_loop_value. cbn. lia. Qed.

Lemma dec_u64_zero : dec_u64 0 = [x30].
Proof. reflexivity. Qed.

Lemma dec_u64_first v : 0 < v < 2 ^ 64 -> exists d ds, dec_u64 v = d :: ds /\ digit_val d <> 0.
Proof.
  intros. destruct (digits_loop_last 20 v) as (ds & d & E & Hd); [cbn; lia|].
  exists d, (rev ds). unfold dec_u64. by rewrite E, rev_app_distr.
Qed.

Lemma digits_loop_S fuel v :
  digits_loop (S fuel) v = digit_of (v mod 10) :: (if v / 10 >? 0 then digits_loop fuel (v / 10) else []).
Proof. done. Qed.

(** Fuel beyond the number of digits changes nothing. *)
Lemma digits_loop_fuel fuel v :
  (0 < fuel)%nat -> 0 <= v < 10 ^ Z.of_nat fuel -> digits_loop (S fuel) v = digits_loop fuel v.
Proof.
  revert v; induction fuel as [|fuel IH]; intros v Hf Hv; [lia|].
  rewrite Nat2Z.inj_succ, Z.pow_succ_r in Hv by lia.
  rewrite (digits_loop_S (S fuel)), (digits_loop_S fuel v), Z.gtb_ltb.
  destruct (Z.ltb_spec 0 (v / 10)); [|done].
  destruct fuel as [|fuel]; [cbn in Hv; pose proof (Z.div_small v 10); lia|].
  rewrite IH; [done|lia|]. split; [lia|]. apply Z.div_lt_upper_bound; lia.
Qed.

Lemma digits_loop_length_pow fuel k v : (0 < k)%nat -> 0 <= v < 10 ^ Z.of_nat k -> (length (digits_loop fuel v) <= k)%nat.
Proof.
  revert k v; induction fuel as [|fuel IH]; intros k v Hk Hv; [cbn; lia|].
  destruct k as [|k]; [lia|]. rewrite Nat2Z.inj_succ, Z.pow_succ_r in Hv by lia.
  rewrite digits_loop_S, Z.gtb_ltb. destruct (Z.ltb_spec 0 (v / 10)); cbn [length]; [|lia].
  destruct k as [|k]; [pose proof (Z.div_small v 10); cbn in Hv; lia|].
  assert (0 <= v / 10 < 10 ^ Z.of_nat (S k)) by (split; [lia|apply Z.div_lt_upper_bound; lia]).
  specialize (IH (S k) (v / 10) ltac:(lia) ltac:(done)). lia.
Qed.
Lemma dec_u64_length_pow k v : (0 < k)%nat -> 0 <= v < 10 ^ Z.of_nat k -> (length (dec_u64 v) <= k)%nat.
Proof. unfold dec_u64. rewrite length_rev. apply digits_loop_length_pow. Qed.

Lemma dec_i64_len v : (length (dec_i64 v) <= 21)%nat.
Proof.
  unfold dec_i64. destruct (v >=? 0); cbn [length]; [pose proof (dec_u64_length v)|pose proof (dec_u64_length (u64 (- v)))]; lia.
Qed.

Lemma dec_i64_length v : - 2 ^ 63 <= v < 2 ^ 63 -> (1 <= length (dec_i64 v) <= 20)%nat.
Proof.
  intros Hv. unfold dec_i64. rewrite Z.geb_leb. destruct (Z.leb_spec 0 v); [apply dec_u64_length|].
  rewrite u64_small by lia. assert ((length (dec_u64 (- v)) <= 19)%nat); [|cbn [length]; lia].
  unfold dec_u64. rewrite length_rev, digits_loop_fuel by (cbn; lia). apply digits_loop_length.
Qed.

(** * The buffers *)

Lemma store_at_0 buf l : store_at buf 0 l = l ++ drop (length l) buf.
Proof. done. Qed.

Lemma u64_to_dec_spec buf cap v :
  (0 < cap)%nat ->
  bb_num_u64_to_dec buf cap v =
  (take (cap - 1) (dec_u64 v) ++ x00 :: drop (S (min (cap - 1) (length (dec_u64 v)))) buf,
   min (cap - 1) (length (dec_u64 v))).
Proof.
  intros Hc. unfold bb_num_u64_to_dec. destruct (Nat.eqb_spec cap 0) as [|_]; [lia|]. fold (dec_u64 v).
  cbv zeta. replace (length (digits_loop 20 v)) with (length (dec_u64 v)) by (apply length_rev).
  set (n := length (dec_u64 v)).
  assert ((if (n <? cap - 1)%nat then n else (cap - 1)%nat) = min (cap - 1) n) as ->
    by (destruct (Nat.ltb_spec n (cap - 1)); lia).
  rewrite store_at_0. rewrite length_app, length_take. cbn [length]. fold n.
  rewrite <- app_assoc. cbn [app]. f_equal.
  - f_equal.
    + destruct (Nat.le_gt_cases (cap - 1) n); [by rewrite Nat.min_l by lia|].
      rewrite Nat.min_r by lia. rewrite !take_ge; subst n; lia || done.
    + do 2 f_equal. lia.
Qed.

Lemma u64_to_dec_fits buf cap v :
  (21 <= cap)%nat ->
  bb_num_u64_to_dec buf cap v =
  (dec_u64 v ++ x00 :: drop (S (length (dec_u64 v))) buf, length (dec_u64 v)).
Proof.
  intros. rewrite u64_to_dec_spec by lia. pose proof (dec_u64_length v).
  by rewrite Nat.min_r, take_ge by lia.
Qed.

Lemma i64_to_dec_spec buf cap v :
  (0 < cap <= length buf)%nat ->
  bb_num_i64_to_dec buf cap v =
  (take (cap - 1) (dec_i64 v) ++ x00 :: drop (S (min (cap - 1) (length (dec_i64 v)))) buf,
   min (cap - 1) (length (dec_i64 v))).
Proof.
  intros Hc. unfold bb_num_i64_to_dec, dec_i64. destruct (Nat.eqb_spec cap 0) as [|_]; [lia|].
  rewrite Z.geb_leb. destruct (Z.leb_spec 0 v); [apply u64_to_dec_spec; lia|].
  destruct (Nat.eqb_spec cap 1) as [->|Hc1]; [done|].
  replace (- (v + 1) + 1) with (- v) by lia.
  destruct buf as [|b0 buf]; [cbn in Hc; lia|].
  cbn [store_at take drop app length Nat.add].
  rewrite u64_to_dec_spec by lia.
  destruct cap as [|[|cap]]; [lia..|]. cbn [Nat.sub take app length Nat.min drop].
  by rewrite !Nat.sub_0_r.
Qed.

(** * Byte order *)

(** The byte of [v] selected by a mask of eight ones at bit [k]. *)
Lemma land_byte_mask v k : 0 <= k -> Z.land v (Z.shiftl (Z.ones 8) k) = ((v / 2 ^ k) mod 256) * 2 ^ k.
Proof.
  intros Hk. change 256 with (2 ^ 8). rewrite land_shifted_ones by lia. by rewrite Z.shiftl_mul_pow2.
Qed.

Lemma bswap32_digits a b c d :
  0 <= a < 256 -> 0 <= b < 256 -> 0 <= c < 256 -> 0 <= d < 256 ->
  bb_num_bswap32 (a + 256 * (b + 256 * (c + 256 * d))) = d + 256 * (c + 256 * (b + 256 * a)).
Proof.
  intros Ha Hb Hc Hd. set (v := a + 256 * (b + 256 * (c + 256 * d))). unfold bb_num_bswap32.
  change 0x000000ff with (Z.shiftl (Z.ones 8) 0). change 0x0000ff00 with (Z.shiftl (Z.ones 8) 8).
  change 0x00ff0000 with (Z.shiftl (Z.ones 8) 16). change 0xff000000 with (Z.shiftl (Z.ones 8) 24).
  rewrite !land_byte_mask by lia.
  replace ((v / 2 ^ 0) mod 256) with a by (subst v; Z.div_mod_to_equations; lia).
  replace ((v / 2 ^ 8) mod 256) with b by (subst v; Z.div_mod_to_equations; lia).
  replace ((v / 2 ^ 16) mod 256) with c by (subst v; Z.div_mod_to_equations; lia).
  replace ((v / 2 ^ 24) mod 256) with d by (subst v; Z.div_mod_to_equations; lia).
  rewrite !Z.shiftl_mul_pow2, !Z.shiftr_div_pow2, !u32_small by lia.
  replace (c * 2 ^ 16 / 2 ^ 8) with (c * 2 ^ 8) by (Z.div_mod_to_equations; lia).
  rewrite Z.div_mul by lia.
  rewrite <- (Z.mul_assoc b), (lor_add (a * 2 ^ 0) (b * (2 ^ 8 * 2 ^ 8)) 24) by lia.
  replace (a * 2 ^ 0 * 2 ^ 24 + b * (2 ^ 8 * 2 ^ 8)) with ((a * 2 ^ 8 + b) * 2 ^ 16) by lia.
  rewrite (lor_add (a * 2 ^ 8 + b) (c * 2 ^ 8) 16) by lia.
  replace ((a * 2 ^ 8 + b) * 2 ^ 16 + c * 2 ^ 8) with ((a * 2 ^ 16 + b * 2 ^ 8 + c) * 2 ^ 8) by lia.
  rewrite lor_add by lia. lia.
Qed.

Lemma bswap32_bytes b0 b1 b2 b3 :
  bb_num_bswap32 (le_value [b0; b1; b2; b3]) = le_value [b3; b2; b1; b0].
Proof.
  cbn [le_value]. rewrite !Z.mul_0_r, !Z.add_0_r. apply bswap32_digits; apply bz_range.
Qed.

Lemma bswap_words_step words w0 w1 w2 w3 rest :
  bswap_words_loop (S words) (w0 :: w1 :: w2 :: w3 :: rest) =
  w3 :: w2 :: w1 :: w0 :: bswap_words_loop words rest.
Proof. done. Qed.

(** Induction on a buffer four bytes at a time. *)
Lemma words_ind (P : nat -> list byte -> Prop) :
  (forall buf, P O buf) ->
  (forall n w0 w1 w2 w3 rest, P n rest -> P (S n) (w0 :: w1 :: w2 :: w3 :: rest)) ->
  forall n buf, (4 * n <= length buf)%nat -> P n buf.
Proof.
  intros H0 HS n. induction n as [|n IH]; intros buf Hl; [apply H0|].
  destruct buf as [|w0 [|w1 [|w2 [|w3 rest]]]]; cbn in Hl; try lia.
  apply HS, IH. lia.
Qed.

Lemma bswap_words_length n buf : (4 * n <= length buf)%nat ->
  length (bswap_words_loop n buf) = length buf.
Proof.
  revert n buf. apply words_ind; [done|]. intros n w0 w1 w2 w3 rest IH.
  rewrite bswap_words_step. cbn. by rewrite IH.
Qed.

Lemma bswap_words_rest n buf : (4 * n <= length buf)%nat ->
  drop (4 * n) (bswap_words_loop n buf) = drop (4 * n) buf.
Proof.
  revert n buf. apply words_ind; [done|]. intros n w0 w1 w2 w3 rest IH.
  rewrite bswap_words_step. by replace (4 * S n)%nat with (S (S (S (S (4 * n))))) by lia.
Qed.

Lemma bswap_words_involutive n buf : (4 * n <= length buf)%nat ->
  bswap_words_loop n (bswap_words_loop n buf) = buf.
Proof.
  revert n buf. apply words_ind; [done|]. intros n w0 w1 w2 w3 rest IH.
  rewrite !bswap_words_step. by rewrite IH.
Qed.

(** The little-endian word at byte [4 * i]. *)
Definition word_at (buf : list byte) (i : nat) : Z := le_value (take 4 (drop (4 * i) buf)).

Lemma bswap_words_word n buf : (4 * n <= length buf)%nat -> forall i, (i < n)%nat ->
  word_at (bswap_words_loop n buf) i = bb_num_bswap32 (word_at buf i).
Proof.
  revert n buf. apply (words_ind (fun n buf => forall i, (i < n)%nat ->
    word_at (bswap_words_loop n buf) i = bb_num_bswap32 (word_at buf i))); [intros; lia|].
  intros n w0 w1 w2 w3 rest IH [|i] Hi.
  - symmetry. apply bswap32_bytes.
  - rewrite bswap_words_step. unfold word_at.
    replace (4 * S i)%nat with (S (S (S (S (4 * i))))) by lia. apply IH. lia.
Qed.

(** * Properties *)

(** The value of signed decimal text. *)
Definition sdec_value (ds : list byte) : Z :=
  match ds with
  | x2d :: rest => - dec_value rest
  | _ => dec_value ds
  end.

Lemma sdec_value_dec_i64 v : - 2 ^ 63 <= v < 2 ^ 63 -> sdec_value (dec_i64 v) = v.
Proof.
  intros Hv. unfold dec_i64. rewrite Z.geb_leb. destruct (Z.leb_spec 0 v).
  - pose proof (dec_u64_digits v) as Hd. pose proof (dec_u64_value v ltac:(lia)) as Hval.
    destruct (dec_u64 v) as [|b ds]; [done|]. apply Forall_inv in Hd.
    rewrite <- Hval. unfold sdec_value. by destruct b.
  - cbn [sdec_value]. rewrite dec_u64_value; rewrite u64_small; lia.
Qed.

(** [bb_num_i64_to_dec] for every 64-bit value and every capacity: the
    digits written are the leading ones of the decimal text, followed by a NUL
    inside the capacity, nothing past the capacity changes, and from capacity
    21 on the text is complete: reading it back gives the value, INT64_MIN
    included. *)
Theorem i64_to_dec_contract buf cap v :
  - 2 ^ 63 <= v < 2 ^ 63 -> (0 < cap <= length buf)%nat ->
  let '(buf', n) := bb_num_i64_to_dec buf cap v in
  n = min (cap - 1) (length (dec_i64 v)) /\
  take n buf' = take n (dec_i64 v) /\ buf' !! n = Some x00 /\
  length buf' = length buf /\ drop cap buf' = drop cap buf /\
  ((21 <= cap)%nat -> sdec_value (take n buf') = v).
Proof.
  intros Hv Hc. rewrite i64_to_dec_spec by done. set (t := dec_i64 v).
  pose proof (dec_i64_length v Hv) as Hl. fold t in Hl.
  assert (Hn : length (take (cap - 1) t) = min (cap - 1) (length t)) by apply length_take.
  split_and!.
  - done.
  - rewrite take_app_le by lia. rewrite take_take. f_equal. lia.
  - rewrite lookup_app_r by lia. by rewrite Hn, Nat.sub_diag.
  - rewrite length_app, Hn. cbn [length]. rewrite length_drop. lia.
  - rewrite drop_app_ge by lia. rewrite Hn.
    replace (cap - min (cap - 1) (length t))%nat with (S (cap - 1 - min (cap - 1) (length t)))%nat by lia.
    cbn [drop]. rewrite drop_drop. f_equal. lia.
  - intros H21. rewrite Nat.min_r by lia. rewrite take_ge with (n := (cap - 1)%nat) by lia.
    rewrite take_app_length. by apply sdec_value_dec_i64.
Qed.

Lemma i64_to_dec_contract_witness :
  bb_num_i64_to_dec (repeat xff 22) 22 (- 2 ^ 63) = (bs "-9223372036854775808" ++ [x00; xff], 20%nat) /\
  sdec_value (take 20 (bb_num_i64_to_dec (repeat xff 22) 22 (- 2 ^ 63)).1) = - 2 ^ 63.
Proof.
  split; [vm_compute; reflexivity|].
  assert (H1 : - 2 ^ 63 <= - 2 ^ 63 < 2 ^ 63) by lia.
  assert (H2 : (0 < 22 <= length (repeat xff 22))%nat) by (vm_compute; lia).
  exact (proj2 (proj2 (proj2 (proj2 (proj2
           (i64_to_dec_contract (repeat xff 22) 22 (- 2 ^ 63) H1 H2))))) ltac:(lia)).
Defined.

(** [bb_num_bswap32_words] applies [bb_num_bswap32] to every whole
    four-byte group of the first [len] bytes, read as a little-endian word; the
    bytes after the last whole group stay; twice is the identity. *)
Theorem bswap32_words_spec buf len :
  (len <= length buf)%nat ->
  let buf' := bb_num_bswap32_words buf len in
  length buf' = length buf /\
  (forall i, (i < len / 4)%nat -> word_at buf' i = bb_num_bswap32 (word_at buf i)) /\
  drop (4 * (len / 4)) buf' = drop (4 * (len / 4)) buf /\
  bb_num_bswap32_words buf' len = buf.
Proof.
  intros Hl. assert (4 * (len / 4) <= length buf)%nat by (pose proof (Nat.Div0.mul_div_le len 4); lia).
  cbv zeta. unfold bb_num_bswap32_words. split_and!.
  - by apply bswap_words_length.
  - by apply bswap_words_word.
  - by apply bswap_words_rest.
  - by apply bswap_words_involutive.
Qed.

Lemma bswap32_words_spec_witness :
  bb_num_bswap32_words [x01; x02; x03; x04; x05] 5 = [x04; x03; x02; x01; x05] /\
  bb_num_bswap32_words (bb_num_bswap32_words [x01; x02; x03; x04; x05] 5) 5 = [x01; x02; x03; x04; x05].
Proof.
  split; [reflexivity|].
  assert (H : (5 <= length [x01; x02; x03; x04; x05])%nat) by (cbn; lia).
  exact (proj2 (proj2 (proj2 (bswap32_words_spec _ 5 H)))).
Defined.
