(* ===== verification/Float.v ===== *)
(** Doubles as the JSON backend uses them: the IEEE 754 operations are the
    Standard Library's executable SpecFloat (precision 53, emax 1024); casts,
    decimal printing ([printf] "%.Pg") and reading ([strtod]) are written out. *)
From Stdlib Require Import Strings.String Floats.SpecFloat.
From S2P Require Import Prelude Bytes Num.
From Stdlib Require Export Floats.SpecFloat.

Definition prec : Z := 53.
Definition emax : Z := 1024.

Definition d_mul := SFmul prec emax.
Definition d_add := SFadd prec emax.
Definition d_sub := SFsub prec emax.
(** [(double)n] for an integer. *)
Definition d_of_Z (n : Z) : spec_float := binary_normalize prec emax n 0 false.

(** The double whose 64 bits are [w]. *)
Definition d_of_bits (w : Z) : spec_float :=
  let s := Z.testbit w 63 in
  let e := (w / 2 ^ 52) mod 2 ^ 11 in
  let m := w mod 2 ^ 52 in
  if e =? 2047 then (if m =? 0 then S754_infinity s else S754_nan)
  else if e =? 0 then
    match m with Zpos p => S754_finite s p (-1074) | _ => S754_zero s end
  else match m + 2 ^ 52 with Zpos p => S754_finite s p (e - 1075) | _ => S754_nan end.

Definition d_isnan (v : spec_float) : bool := match v with S754_nan => true | _ => false end.
Definition d_isinf (v : spec_float) : bool := match v with S754_infinity _ => true | _ => false end.
Definition d_abs (v : spec_float) : spec_float := SFabs v.

(** Truncation toward zero of a finite double, the value of an integer cast
    whose result fits; the sign is kept. *)
Definition d_trunc (v : spec_float) : Z :=
  match v with
  | S754_finite s m e =>
      let a := if 0 <=? e then Zpos m * 2 ^ e else Zpos m / 2 ^ (- e) in
      if s then - a else a
  | _ => 0
  end.

(** [x >= y], false on a NaN. *)
Definition d_ge (x y : spec_float) : bool := SFleb y x.
Definition d_lt (x y : spec_float) : bool := SFltb x y.
Definition d_gt (x y : spec_float) : bool := SFltb y x.
Definition d_eq (x y : spec_float) : bool := SFeqb x y.

(** The double nearest to [num / den], ties to even. *)
Definition d_of_ratio (s : bool) (num den : positive) : spec_float :=
  let '(q, e, loc) := SFdiv_core_binary prec emax (Zpos num) 0 (Zpos den) 0 in
  binary_round_aux prec emax s q e loc.

(** * Decimal printing *)

(** [num / den] rounded to the nearest integer, ties to even. *)
Definition round_half_even (num den : Z) : Z :=
  let q := num / den in
  let r := num mod den in
  if 2 * r <? den then q else if den <? 2 * r then q + 1 else if Z.even q then q else q + 1.

(** The decimal exponent of [num / den > 0]: 10^x <= num/den < 10^(x+1).
    [below] and [above] count down and up; a double needs at most 324 steps. *)
Fixpoint exp_down (fuel : nat) (num den x : Z) : Z :=
  match fuel with
  | O => x
  | S fuel' => if num <? den then exp_down fuel' (10 * num) den (x - 1) else x
  end.
Fixpoint exp_up (fuel : nat) (num den x : Z) : Z :=
  match fuel with
  | O => x
  | S fuel' => if 10 * den <=? num then exp_up fuel' num (10 * den) (x + 1) else x
  end.
Definition dec_exp (num den : Z) : Z :=
  if num <? den then exp_down 400 num den 0 else exp_up 400 num den 0.

Definition scale10 (num den k : Z) : Z * Z :=
  if 0 <=? k then (num * 10 ^ k, den) else (num, den * 10 ^ (- k)).

(** Digits without trailing zeros. *)
Fixpoint strip_zeros (rev_digits : list byte) : list byte :=
  match rev_digits with
  | x30 :: rest => strip_zeros rest
  | _ => rev_digits
  end.
Definition strip_trailing (ds : list byte) : list byte := rev (strip_zeros (rev ds)).

Definition with_point (int_digits frac_digits : list byte) : list byte :=
  match strip_trailing frac_digits with
  | [] => int_digits
  | fr => int_digits ++ x2e :: fr
  end.

(** At least two digits of exponent. *)
Definition exp_text (x : Z) : list byte :=
  let ds := dec_u64 (Z.abs x) in
  (if x <? 0 then x2d else x2b) :: (if (length ds <? 2)%nat then x30 :: ds else ds).

(** [printf("%.Pg")] of [num / den > 0] with the sign written first. *)
Definition fmt_g_ratio (P : Z) (s : bool) (num den : Z) : list byte :=
  let x0 := dec_exp num den in
  let '(n, d) := scale10 num den (P - 1 - x0) in
  let q0 := round_half_even n d in
  let '(q, x) := if q0 =? 10 ^ P then (10 ^ (P - 1), x0 + 1) else (q0, x0) in
  let ds := dec_u64 q in
  let body :=
    if (x <? -4) || (P <=? x)
    then with_point (take 1 ds) (drop 1 ds) ++ x65 :: exp_text x
    else if x <? 0 then with_point [x30] (repeat x30 (Z.to_nat (- x - 1)) ++ ds)
    else with_point (take (Z.to_nat (x + 1)) ds) (drop (Z.to_nat (x + 1)) ds) in
  if s then x2d :: body else body.

Definition fmt_g (P : Z) (v : spec_float) : list byte :=
  match v with
  | S754_finite s m e =>
      if 0 <=? e then fmt_g_ratio P s (Zpos m * 2 ^ e) 1 else fmt_g_ratio P s (Zpos m) (2 ^ (- e))
  | S754_zero true => [x2d; x30]
  | _ => [x30]
  end.

(** * [strtod] on the decimal forms [fmt_g] writes *)

Fixpoint span_digits (l : list byte) : list byte * list byte :=
  match l with
  | b :: rest => if is_digit b then let '(ds, r) := span_digits rest in (b :: ds, r) else ([], l)
  | [] => ([], [])
  end.

Definition strtod (text : list byte) : spec_float :=
  let '(s, t0) := match text with x2d :: r => (true, r) | _ => (false, text) end in
  let '(ip, t1) := span_digits t0 in
  let '(fp, t2) := match t1 with x2e :: r => span_digits r | _ => ([], t1) end in
  let ex := match t2 with
            | x65 :: x2d :: r => - dec_value (span_digits r).1
            | x65 :: x2b :: r => dec_value (span_digits r).1
            | x65 :: r => dec_value (span_digits r).1
            | _ => 0
            end in
  match dec_value (ip ++ fp) with
  | Zpos n =>
      let k := ex - Z.of_nat (length fp) in
      if 0 <=? k then d_of_ratio s (n * Z.to_pos (10 ^ k)) 1
      else d_of_ratio s n (Z.to_pos (10 ^ (- k)))
  | _ => S754_zero s
  end.

Definition DBL_EPSILON : spec_float := S754_finite false 4503599627370496 (-104).

(** * Checks of the float layer against known bit patterns *)

Example f_pi : fmt_g 15 (d_of_bits 0x400921FB54442D18) = bs "3.14159265358979".
Proof. vm_compute. reflexivity. Qed.
Example f_pi17 : fmt_g 17 (d_of_bits 0x400921FB54442D18) = bs "3.1415926535897931".
Proof. vm_compute. reflexivity. Qed.
Example f_tenth : strtod (bs "0.1") = d_of_bits 0x3FB999999999999A.
Proof. vm_compute. reflexivity. Qed.
Example f_big : fmt_g 15 (d_of_bits 0x444B1AE4D6E2EF50) = bs "1e+21".
Proof. vm_compute. reflexivity. Qed.
Example f_max : fmt_g 17 (d_of_bits 0x7FEFFFFFFFFFFFFF) = bs "1.7976931348623157e+308".
Proof. vm_compute. reflexivity. Qed.
Example f_min : fmt_g 17 (d_of_bits 1) = bs "4.9406564584124654e-324".
Proof. vm_compute. reflexivity. Qed.
Example f_max_back : strtod (bs "1.7976931348623157e+308") = d_of_bits 0x7FEFFFFFFFFFFFFF.
Proof. vm_compute. reflexivity. Qed.
Example f_eps : DBL_EPSILON = d_of_bits 0x3CB0000000000000.
Proof. vm_compute. reflexivity. Qed.
Example f_small : fmt_g 15 (d_of_bits 0x3F1A36E2EB1C432D) = bs "0.0001".
Proof. vm_compute. reflexivity. Qed.
