(* ===== verification/Walk.v ===== *)
(** The descriptor walker of bb_serialize: descriptors, snapshots, the emit
    vtable and the walk (components/bb_serialize/src/bb_serialize_walk.c,
    bb_serialize_compose.c). *)
From Stdlib Require Import Strings.String.
From S2P Require Import Prelude Bytes.

(** * Descriptors (bb_serialize.h, bb_type.h) *)

Inductive bb_type : Set :=
  | BB_TYPE_I64 | BB_TYPE_U64 | BB_TYPE_F64 | BB_TYPE_BOOL | BB_TYPE_STR | BB_TYPE_STR_N
  | BB_TYPE_OBJ | BB_TYPE_ARR | BB_TYPE_REF.
#[export] Instance bb_type_eq_dec : EqDecision bb_type.
Proof. solve_decision. Defined.

Inductive arr_cardinality : Set := BB_ARR_FIXED | BB_ARR_STREAM.

(** A pointer into memory: the memory it points into and the address.  Address
    0 is NULL. *)
Record snap := mk_snap { s_mem : mem; s_addr : Z }.
Definition snap_plus (s : snap) (off : Z) : snap := mk_snap (s_mem s) (s_addr s + off).

(** A key or name, NULL as [None]. *)
Abbreviation key_t := (option (list byte)).

(** [f_children] names a field table (the [children]/[n_children] pair), so a
    table that points back to itself can be written down, as it can in C. *)
Record field := mk_field {
  f_key : key_t;
  f_type : bb_type;
  f_offset : Z;
  f_present : option (snap -> bool);
  f_children : nat;
  f_max_len : nat;
  f_max_items : nat;
  f_elem_type : bb_type;
  f_elem_size : Z;
  f_cardinality : arr_cardinality;
  f_ref_key : list byte
}.

Record serialize_desc := mk_sdesc { sd_type_name : list byte; sd_fields : nat; sd_snap_size : Z }.

Definition BB_SERIALIZE_MAX_DEPTH : nat := 8.

(** * The emit vtable *)

(** A format backend: what each callback does to the backend's context. *)
Record emit_vtable (C : Type) := mk_emit {
  begin_obj : key_t -> C -> C;
  end_obj : C -> C;
  begin_arr : key_t -> C -> C;
  end_arr : C -> C;
  emit_i64 : key_t -> Z -> C -> C;
  emit_u64 : key_t -> Z -> C -> C;
  emit_f64 : key_t -> Z -> C -> C;
  emit_bool : key_t -> bool -> C -> C;
  emit_str : key_t -> list byte -> C -> C;
  emit_null : key_t -> C -> C
}.
Arguments begin_obj {C}. Arguments end_obj {C}. Arguments begin_arr {C}. Arguments end_arr {C}.
Arguments emit_i64 {C}. Arguments emit_u64 {C}. Arguments emit_f64 {C}. Arguments emit_bool {C}.
Arguments emit_str {C}. Arguments emit_null {C}. Arguments mk_emit {C}.

(** * Carriers *)

Section Walk.
(** Bytes of a pointer and of a [size_t]: 4 on the ESP32 targets, 8 on the
    64-bit host. *)
Context (ptr_size : nat).
(** The field tables, and the rows a stream carrier [next]/[iter_ctx] produces
    before it returns false (an iterator must return false after finitely many
    calls; bb_serialize.h). *)
Context (tables : nat -> list field).
Context (iter_rows : Z -> Z -> mem -> list snap).

Definition rd_i64 (s : snap) : Z := to_signed 64 (mread_u (s_mem s) (s_addr s) 8).
Definition rd_u64 (s : snap) : Z := mread_u (s_mem s) (s_addr s) 8.
(** A double is carried as its 64 bits. *)
Definition rd_f64 (s : snap) : Z := mread_u (s_mem s) (s_addr s) 8.
Definition rd_bool (s : snap) : bool := negb (bz (s_mem s (s_addr s)) =? 0).
Definition rd_word (s : snap) (i : nat) : Z :=
  mread_u (s_mem s) (s_addr s + Z.of_nat (i * ptr_size)) ptr_size.
(** [strnlen(p, max_len)] bytes at [p]. *)
Definition rd_str (s : snap) (max_len : nat) : list byte :=
  strn max_len (mread (s_mem s) (s_addr s) max_len).

Definition bb_serialize_ref_resolve_fn : Type :=
  list byte -> option (option serialize_desc * option snap).
Context (resolve : option bb_serialize_ref_resolve_fn).

(** * The walk *)

Section Emit.
Context {C : Type} (E : emit_vtable C).

(** One element of a fixed array of scalars or strings. *)
Definition walk_elem (f : field) (items : snap) (c : C) (j : nat) : C :=
  let at_stride w := snap_plus items (Z.of_nat (j * w)) in
  match f_elem_type f with
  | BB_TYPE_STR =>
      let s := rd_word (snap_plus items (Z.of_nat (j * ptr_size))) 0 in
      if s =? 0 then emit_null E None c
      else emit_str E None (rd_str (mk_snap (s_mem items) s) (f_max_len f)) c
  | BB_TYPE_I64 => emit_i64 E None (rd_i64 (at_stride 8%nat)) c
  | BB_TYPE_U64 => emit_u64 E None (rd_u64 (at_stride 8%nat)) c
  | BB_TYPE_F64 => emit_f64 E None (rd_f64 (at_stride 8%nat)) c
  | BB_TYPE_BOOL => emit_bool E None (rd_bool (at_stride 1%nat)) c
  | _ => c
  end.

(** The body of the field loop.  [sub] is [walk_fields] one level down, [None]
    at [depth >= BB_SERIALIZE_MAX_DEPTH]. *)
Definition walk_field (sub : option (nat -> snap -> C -> C)) (s : snap) (c : C) (f : field) : C :=
  if match f_present f with Some present => negb (present s) | None => false end then c else
  let p := snap_plus s (f_offset f) in
  match f_type f with
  | BB_TYPE_I64 => emit_i64 E (f_key f) (rd_i64 p) c
  | BB_TYPE_U64 => emit_u64 E (f_key f) (rd_u64 p) c
  | BB_TYPE_F64 => emit_f64 E (f_key f) (rd_f64 p) c
  | BB_TYPE_BOOL => emit_bool E (f_key f) (rd_bool p) c
  | BB_TYPE_STR => emit_str E (f_key f) (rd_str p (f_max_len f)) c
  | BB_TYPE_STR_N =>
      let ptr := rd_word p 0 in
      if ptr =? 0 then emit_null E (f_key f) c
      else emit_str E (f_key f) (mread (s_mem p) ptr (Z.to_nat (rd_word p 1))) c
  | BB_TYPE_OBJ =>
      match sub with
      | None => c
      | Some walk => end_obj E (walk (f_children f) p (begin_obj E (f_key f) c))
      end
  | BB_TYPE_ARR =>
      let obj_elem walk (c : C) (elem : snap) :=
        end_obj E (walk (f_children f) elem (begin_obj E None c)) in
      let c1 := begin_arr E (f_key f) c in
      end_arr E
        match f_cardinality f with
        | BB_ARR_STREAM =>
            match sub with
            | Some walk =>
                if rd_word p 0 =? 0 then c1
                else fold_left (obj_elem walk) (iter_rows (rd_word p 0) (rd_word p 1) (s_mem p)) c1
            | None => c1
            end
        | BB_ARR_FIXED =>
            let items := mk_snap (s_mem p) (rd_word p 0) in
            let idx := seq 0 (Z.to_nat (rd_word p 1)) in
            if s_addr items =? 0 then c1 else
            if decide (f_elem_type f = BB_TYPE_OBJ) then
              match sub with
              | Some walk =>
                  fold_left (fun c j => obj_elem walk c (snap_plus items (Z.of_nat j * f_elem_size f)))
                    idx c1
              | None => c1
              end
            else fold_left (walk_elem f items) idx c1
        end
  | BB_TYPE_REF =>
      match sub with
      | None => c
      | Some walk =>
          match resolve with
          | Some res =>
              match res (f_ref_key f) with
              | Some (Some desc, Some sn) =>
                  end_obj E (walk (sd_fields desc) sn (begin_obj E (f_key f) c))
              | _ => c
              end
          | None => c
          end
      end
  end.

(** [walk_fields] with [rem = BB_SERIALIZE_MAX_DEPTH - depth]. *)
Fixpoint walk_fields (rem : nat) : nat -> snap -> C -> C :=
  let sub := match rem with O => None | S rem' => Some (walk_fields rem') end in
  fun fields s c => fold_left (walk_field sub s) (tables fields) c.
End Emit.

(** [bb_serialize_walk]: the config's three required pointers may be NULL. *)
Definition bb_serialize_walk {C} (desc : option serialize_desc) (s : option snap)
    (emit : option (emit_vtable C)) (c : C) : C :=
  match desc, s, emit with
  | Some d, Some sn, Some E => walk_fields E BB_SERIALIZE_MAX_DEPTH (sd_fields d) sn c
  | _, _, _ => c
  end.

Definition bb_serialize_desc_find (desc : option serialize_desc) (key : key_t) : option field :=
  match desc, key with
  | Some d, Some k =>
      find (fun f => match f_key f with Some k' => bool_decide (k' = k) | None => false end)
        (tables (sd_fields d))
  | _, _ => None
  end.

(** * What a walk means: a finite tree *)

Inductive jval : Type :=
  | JNull
  | JBool (b : bool)
  | JI64 (v : Z)
  | JU64 (v : Z)
  | JF64 (bits : Z)
  | JStr (s : list byte)
  | JArr (vs : list jval)
  | JObj (ms : list (key_t * jval)).

Definition elem_value (f : field) (items : snap) (j : nat) : list jval :=
  let at_stride w := snap_plus items (Z.of_nat (j * w)) in
  match f_elem_type f with
  | BB_TYPE_STR =>
      let s := rd_word (snap_plus items (Z.of_nat (j * ptr_size))) 0 in
      [if s =? 0 then JNull else JStr (rd_str (mk_snap (s_mem items) s) (f_max_len f))]
  | BB_TYPE_I64 => [JI64 (rd_i64 (at_stride 8%nat))]
  | BB_TYPE_U64 => [JU64 (rd_u64 (at_stride 8%nat))]
  | BB_TYPE_F64 => [JF64 (rd_f64 (at_stride 8%nat))]
  | BB_TYPE_BOOL => [JBool (rd_bool (at_stride 1%nat))]
  | _ => []
  end.

(** The rows or elements of an array field, as values. *)
Definition array_value (sub : option (nat -> snap -> list (key_t * jval))) (p : snap) (f : field)
  : list jval :=
  match f_cardinality f with
  | BB_ARR_STREAM =>
      match sub with
      | Some fields =>
          if rd_word p 0 =? 0 then []
          else map (fun row => JObj (fields (f_children f) row))
                 (iter_rows (rd_word p 0) (rd_word p 1) (s_mem p))
      | None => []
      end
  | BB_ARR_FIXED =>
      let items := mk_snap (s_mem p) (rd_word p 0) in
      let idx := seq 0 (Z.to_nat (rd_word p 1)) in
      if s_addr items =? 0 then [] else
      if decide (f_elem_type f = BB_TYPE_OBJ) then
        match sub with
        | Some fields =>
            map (fun j => JObj (fields (f_children f) (snap_plus items (Z.of_nat j * f_elem_size f)))) idx
        | None => []
        end
      else concat (map (elem_value f items) idx)
  end.

Definition ref_target (f : field) : option (nat * snap) :=
  match resolve with
  | Some res =>
      match res (f_ref_key f) with
      | Some (Some desc, Some sn) => Some (sd_fields desc, sn)
      | _ => None
      end
  | None => None
  end.

(** The member a field contributes, if any. *)
Definition field_value (sub : option (nat -> snap -> list (key_t * jval))) (s : snap) (f : field)
  : list (key_t * jval) :=
  if match f_present f with Some present => negb (present s) | None => false end then [] else
  let p := snap_plus s (f_offset f) in
  let member v := [(f_key f, v)] in
  match f_type f with
  | BB_TYPE_I64 => member (JI64 (rd_i64 p))
  | BB_TYPE_U64 => member (JU64 (rd_u64 p))
  | BB_TYPE_F64 => member (JF64 (rd_f64 p))
  | BB_TYPE_BOOL => member (JBool (rd_bool p))
  | BB_TYPE_STR => member (JStr (rd_str p (f_max_len f)))
  | BB_TYPE_STR_N =>
      member (if rd_word p 0 =? 0 then JNull
              else JStr (mread (s_mem p) (rd_word p 0) (Z.to_nat (rd_word p 1))))
  | BB_TYPE_OBJ =>
      match sub with Some fields => member (JObj (fields (f_children f) p)) | None => [] end
  | BB_TYPE_ARR => member (JArr (array_value sub p f))
  | BB_TYPE_REF =>
      match sub, ref_target f with
      | Some fields, Some (tbl, sn) => member (JObj (fields tbl sn))
      | _, _ => []
      end
  end.

Fixpoint fields_value (rem : nat) : nat -> snap -> list (key_t * jval) :=
  let sub := match rem with O => None | S rem' => Some (fields_value rem') end in
  fun fields s => concat (map (field_value sub s) (tables fields)).

(** The document a walk of [desc] over [s] describes. *)
Definition document (desc : serialize_desc) (s : snap) : list (key_t * jval) :=
  fields_value BB_SERIALIZE_MAX_DEPTH (sd_fields desc) s.
End Walk.

(** * Composition (bb_serialize_compose.c) *)

Inductive compose_shape : Set :=
  | BB_SERIALIZE_COMPOSE_RAW | BB_SERIALIZE_COMPOSE_OBJECT | BB_SERIALIZE_COMPOSE_ARRAY.
#[export] Instance compose_shape_eq_dec : EqDecision compose_shape.
Proof. solve_decision. Defined.

(** One entry; [gather] refreshes the memory the snapshot lies in. *)
Record compose_entry := mk_centry {
  ce_name : key_t;
  ce_desc : option serialize_desc;
  ce_snap : Z;
  ce_gather : option (mem -> bb_err * mem)
}.

Section Compose.
Context (ptr_size : nat) (tables : nat -> list field) (iter_rows : Z -> Z -> mem -> list snap).
Context {C : Type} (E : emit_vtable C).

(** [bb_serialize_walk] over the entry's snapshot, without a resolver; a NULL
    snapshot makes it a no-op. *)
Definition walk_entry (d : serialize_desc) (a : Z) (m : mem) (c : C) : C :=
  bb_serialize_walk ptr_size tables iter_rows None (Some d)
    (if a =? 0 then None else Some (mk_snap m a)) (Some E) c.

Fixpoint compose_loop (entries : list compose_entry) (shape : compose_shape) (m : mem) (c : C)
  : bb_err * mem * C :=
  match entries with
  | [] => (BB_OK, m, c)
  | e :: rest =>
      match ce_desc e with
      | None => (BB_ERR_INVALID_ARG, m, c)
      | Some d =>
          let '(err, m1) := match ce_gather e with Some g => g m | None => (BB_OK, m) end in
          if negb (is_ok err) then (err, m1, c) else
          let raw := bool_decide (shape = BB_SERIALIZE_COMPOSE_RAW) in
          let name := if decide (shape = BB_SERIALIZE_COMPOSE_OBJECT) then ce_name e else None in
          let c1 := if raw then c else begin_obj E name c in
          let c2 := walk_entry d (ce_snap e) m1 c1 in
          compose_loop rest shape m1 (if raw then c2 else end_obj E c2)
      end
  end.
End Compose.

(** [bb_serialize_compose_walk]; [None]: a NULL pointer. *)
Definition bb_serialize_compose_walk (ptr_size : nat) (tables : nat -> list field)
    (iter_rows : Z -> Z -> mem -> list snap) {C} (entries : option (list compose_entry)) (n : nat)
    (shape : compose_shape) (emit : option (emit_vtable C)) (m : mem) (c : C) : bb_err * mem * C :=
  match emit, entries with
  | None, _ => (BB_ERR_INVALID_ARG, m, c)
  | Some _, None => (if (n =? 0)%nat then BB_OK else BB_ERR_INVALID_ARG, m, c)
  | Some E, Some es => compose_loop ptr_size tables iter_rows E (take n es) shape m c
  end.

(** * Driving a backend over a tree *)

Fixpoint emit_val {C} (E : emit_vtable C) (k : key_t) (v : jval) (c : C) : C :=
  match v with
  | JNull => emit_null E k c
  | JBool b => emit_bool E k b c
  | JI64 x => emit_i64 E k x c
  | JU64 x => emit_u64 E k x c
  | JF64 x => emit_f64 E k x c
  | JStr s => emit_str E k s c
  | JArr vs => end_arr E (fold_left (fun c v => emit_val E None v c) vs (begin_arr E k c))
  | JObj ms => end_obj E (fold_left (fun c m => emit_val E m.1 m.2 c) ms (begin_obj E k c))
  end.
Definition emit_members {C} (E : emit_vtable C) (ms : list (key_t * jval)) (c : C) : C :=
  fold_left (fun c m => emit_val E m.1 m.2 c) ms c.
Definition emit_elems {C} (E : emit_vtable C) (vs : list jval) (c : C) : C :=
  fold_left (fun c v => emit_val E None v c) vs c.

(** Induction over trees. *)
Lemma jval_nested_ind (P : jval -> Prop) :
  P JNull -> (forall b, P (JBool b)) -> (forall v, P (JI64 v)) -> (forall v, P (JU64 v)) ->
  (forall v, P (JF64 v)) -> (forall s, P (JStr s)) ->
  (forall vs, Forall P vs -> P (JArr vs)) ->
  (forall ms, Forall (fun m => P m.2) ms -> P (JObj ms)) -> forall v, P v.
Proof.
  intros Hn Hb Hi Hu Hf Hs Ha Ho. fix IH 1. intros [|b|x|x|x|s|vs|ms].
  - exact Hn.
  - apply Hb.
  - apply Hi.
  - apply Hu.
  - apply Hf.
  - apply Hs.
  - apply Ha. induction vs as [|v vs IHvs]; constructor; [apply IH | exact IHvs].
  - apply Ho. induction ms as [|m ms IHms]; constructor; [apply IH | exact IHms].
Qed.

(** How many containers are open at once. *)
Fixpoint jdepth (v : jval) : nat :=
  match v with
  | JArr vs => S (list_max (map jdepth vs))
  | JObj ms => S (list_max (map (fun m => jdepth m.2) ms))
  | _ => 0%nat
  end.

Lemma emit_members_app {C} (E : emit_vtable C) ms ms' c :
  emit_members E (ms ++ ms') c = emit_members E ms' (emit_members E ms c).
Proof. apply fold_left_app. Qed.

Lemma emit_elems_app {C} (E : emit_vtable C) vs vs' c :
  emit_elems E (vs ++ vs') c = emit_elems E vs' (emit_elems E vs c).
Proof. apply fold_left_app. Qed.

Lemma fold_left_ext_in {A B} (f g : A -> B -> A) l a :
  (forall a b, f a b = g a b) -> fold_left f l a = fold_left g l a.
Proof. intros H. revert a; induction l as [|b l IH]; intros a; cbn; [done|]. by rewrite H, IH. Qed.

(** A loop that emits a member list per step emits their concatenation. *)
Lemma emit_members_concat {C A} (E : emit_vtable C) (step : C -> A -> C) (val : A -> list (key_t * jval)) l c :
  (forall c a, step c a = emit_members E (val a) c) ->
  fold_left step l c = emit_members E (concat (map val l)) c.
Proof.
  intros H. revert c; induction l as [|a l IH]; intros c; cbn [fold_left map concat]; [done|].
  by rewrite emit_members_app, H, IH.
Qed.

Lemma emit_elems_concat {C A} (E : emit_vtable C) (step : C -> A -> C) (val : A -> list jval) l c :
  (forall c a, step c a = emit_elems E (val a) c) ->
  fold_left step l c = emit_elems E (concat (map val l)) c.
Proof.
  intros H. revert c; induction l as [|a l IH]; intros c; cbn [fold_left map concat]; [done|].
  by rewrite emit_elems_app, H, IH.
Qed.

Section Meaning.
Context (ptr_size : nat) (tables : nat -> list field) (iter_rows : Z -> Z -> mem -> list snap).
Context (resolve : option bb_serialize_ref_resolve_fn).
Context {C : Type} (E : emit_vtable C).

Abbreviation walkf := (walk_fields ptr_size tables iter_rows resolve E).
Abbreviation valf := (fields_value ptr_size tables iter_rows resolve).
Abbreviation step_field := (walk_field ptr_size iter_rows resolve E).
Abbreviation value_field := (field_value ptr_size iter_rows resolve).

Lemma walk_elem_value f items c j :
  walk_elem ptr_size E f items c j = emit_elems E (elem_value ptr_size f items j) c.
Proof. unfold walk_elem, elem_value. destruct (f_elem_type f); try done. cbn. by destruct (_ =? 0). Qed.

(** The relation between the two recursions one level down. *)
Definition sub_agrees (sub : option (nat -> snap -> C -> C))
    (vsub : option (nat -> snap -> list (key_t * jval))) : Prop :=
  match sub, vsub with
  | Some walk, Some val => forall t s c, walk t s c = emit_members E (val t s) c
  | None, None => True
  | _, _ => False
  end.

Lemma obj_elems {A} (walk : nat -> snap -> C -> C) val (elem : A -> snap) t l c :
  (forall t s c, walk t s c = emit_members E (val t s) c) ->
  fold_left (fun c a => end_obj E (walk t (elem a) (begin_obj E None c))) l c =
  emit_elems E (map (fun a => JObj (val t (elem a))) l) c.
Proof.
  intros H. revert c; induction l as [|a l IH]; intros c; [done|].
  cbn [fold_left map]. rewrite IH, H. done.
Qed.

Lemma walk_field_value sub vsub s f c :
  sub_agrees sub vsub -> step_field sub s c f = emit_members E (value_field vsub s f) c.
Proof.
  intros Hsub. unfold walk_field, field_value.
  destruct (match f_present f with Some _ => _ | None => _ end); [done|].
  set (p := snap_plus s (f_offset f)). destruct (f_type f); try done.
  - cbn [emit_members fold_left fst snd]. by destruct (rd_word ptr_size p 0 =? 0).
  - destruct sub as [walk|], vsub as [val|]; try done. cbn. by rewrite Hsub.
  - cbn [emit_members fold_left fst snd emit_val]. f_equal. fold (emit_elems E).
    unfold array_value. destruct (f_cardinality f).
    + cbv zeta. destruct (s_addr _ =? 0); [done|]. case_decide as Hobj.
      * destruct sub as [walk|], vsub as [val|]; try done. by apply (obj_elems walk val).
      * apply (emit_elems_concat E). apply walk_elem_value.
    + destruct sub as [walk|], vsub as [val|]; try done.
      destruct (rd_word ptr_size p 0 =? 0); [done|]. by apply (obj_elems walk val (fun s => s)).
  - unfold ref_target. destruct sub as [walk|], vsub as [val|]; try done;
      destruct resolve as [res|]; try done.
    destruct (res (f_ref_key f)) as [[[d|] [sn|]]|]; try done. cbn. by rewrite Hsub.
Qed.

Lemma walk_fields_value rem t s c : walkf rem t s c = emit_members E (valf rem t s) c.
Proof.
  revert t s c; induction rem as [|rem IH]; intros t s c; cbn [walk_fields fields_value];
    apply emit_members_concat; intros; by apply walk_field_value.
Qed.
End Meaning.

Lemma list_max_map_le {A} (f : A -> nat) l n :
  Forall (fun a => f a <= n)%nat l -> (list_max (map f l) <= n)%nat.
Proof. intros H. apply list_max_le. by apply Forall_map. Qed.

Section Depth.
Context (ptr_size : nat) (tables : nat -> list field) (iter_rows : Z -> Z -> mem -> list snap).
Context (resolve : option bb_serialize_ref_resolve_fn).

Definition members_depth (n : nat) (ms : list (key_t * jval)) : Prop :=
  Forall (fun m => jdepth m.2 <= n)%nat ms.

Lemma obj_depth n ms : members_depth n ms -> (jdepth (JObj ms) <= S n)%nat.
Proof. intros H. cbn. apply le_n_S. by apply list_max_map_le. Qed.

Lemma elem_value_depth f items j : Forall (fun v => jdepth v = 0)%nat (elem_value ptr_size f items j).
Proof. unfold elem_value. destruct (f_elem_type f); repeat constructor. by destruct (_ =? 0). Qed.

Lemma array_value_depth n sub p f :
  match sub with Some val => forall t s, members_depth n (val t s) | None => True end ->
  Forall (fun v => jdepth v <= match sub with Some _ => S n | None => 0 end)%nat
    (array_value ptr_size iter_rows sub p f).
Proof.
  intros Hsub. unfold array_value. destruct (f_cardinality f).
  - cbv zeta. destruct (s_addr _ =? 0); [constructor|]. case_decide.
    + destruct sub as [val|]; [|constructor]. apply Forall_map, Forall_true. intros j. by apply obj_depth.
    + apply Forall_concat, Forall_map, Forall_true. intros j.
      eapply Forall_impl; [apply elem_value_depth|]. cbn. intros v ->. lia.
  - destruct sub as [val|]; [|constructor]. destruct (_ =? 0); [constructor|].
    apply Forall_map, Forall_true. intros r. by apply obj_depth.
Qed.

Lemma fields_value_depth rem t s :
  members_depth (2 * rem + 1) (fields_value ptr_size tables iter_rows resolve rem t s).
Proof.
  revert t s; induction rem as [|rem IH]; intros t s; cbn [fields_value];
    apply Forall_concat, Forall_map, Forall_true; intros f; unfold field_value;
    (destruct (match f_present f with Some _ => _ | None => _ end); [constructor|]);
    destruct (f_type f); cbv zeta; try apply Forall_nil_2;
    try (apply Forall_singleton; cbn [jdepth snd]; (lia || (destruct (_ =? 0); cbn; lia))).
  - apply Forall_singleton. cbn [jdepth snd]. apply le_n_S, list_max_map_le.
    by apply (array_value_depth 0 None).
  - apply Forall_singleton. eapply Nat.le_trans; [apply (obj_depth _ _ (IH _ _))|lia].
  - apply Forall_singleton. cbn [jdepth snd].
    apply Nat.le_trans with (S (S (2 * rem + 1))); [|lia]. apply le_n_S, list_max_map_le.
    apply (array_value_depth (2 * rem + 1) (Some _) _ _ IH).
  - destruct (ref_target resolve f) as [[tbl sn]|]; [|apply Forall_nil_2]. apply Forall_singleton.
    eapply Nat.le_trans; [apply (obj_depth _ _ (IH _ _))|lia].
Qed.
End Depth.

(** * A concrete descriptor, for the examples *)

(** Tables: 0 = an object that holds itself and an array of itself; 1 = flat. *)
Definition ex_field (k : String.string) (t : bb_type) (off : Z) : field :=
  mk_field (Some (bs k)) t off None 0 8 4 BB_TYPE_I64 0 BB_ARR_FIXED [].
Definition ex_tables (n : nat) : list field :=
  match n with
  | O => [ex_field "n" BB_TYPE_U64 0; ex_field "self" BB_TYPE_OBJ 0]
  | _ => [ex_field "n" BB_TYPE_U64 0; ex_field "ok" BB_TYPE_BOOL 8; ex_field "s" BB_TYPE_STR 16;
          ex_field "xs" BB_TYPE_ARR 24]
  end.
Definition ex_snap : snap :=
  mk_snap (mem_of 4096 (le_bytes 8 7 ++ [x01; x00; x00; x00; x00; x00; x00; x00] ++ bs "hi" ++
             [x00; x00; x00; x00; x00; x00] ++ le_bytes 8 4136 ++ le_bytes 8 2 ++
             le_bytes 8 1 ++ le_bytes 8 (2 ^ 64 - 5))) 4096.
Definition no_rows (_ _ : Z) (_ : mem) : list snap := [].

Example ex_flat : document 8 ex_tables no_rows None (mk_sdesc (bs "ex") 1 40) ex_snap =
  [(Some (bs "n"), JU64 7); (Some (bs "ok"), JBool true); (Some (bs "s"), JStr (bs "hi"));
   (Some (bs "xs"), JArr [JI64 1; JI64 (-5)])].
Proof. vm_compute. reflexivity. Qed.

(** * Properties *)

(** C6: the emit seam.  For every backend, a walk is exactly the in-order
    traversal of one finite tree that depends only on the descriptor, the
    snapshot and the resolver: presence predicates drop a field with no call,
    NULL carriers are empty arrays or nulls, an unresolved reference is
    dropped, every begin is matched by its end.  Any required pointer being
    NULL makes the walk a no-op. *)
Theorem walk_emits_document ptr_size tables iter_rows resolve {C} (E : emit_vtable C) desc s c :
  bb_serialize_walk ptr_size tables iter_rows resolve (Some desc) (Some s) (Some E) c =
    emit_members E (document ptr_size tables iter_rows resolve desc s) c /\
  bb_serialize_walk ptr_size tables iter_rows resolve None (Some s) (Some E) c = c /\
  bb_serialize_walk ptr_size tables iter_rows resolve (Some desc) None (Some E) c = c /\
  bb_serialize_walk ptr_size tables iter_rows resolve (Some desc) (Some s) None c = c.
Proof. split_and!; try done. apply walk_fields_value. Qed.

(** nesting is bounded even when a table's [children] lead back to the
    table itself or a resolver answers in a cycle: no more than
    2 * BB_SERIALIZE_MAX_DEPTH + 1 containers are ever open below the root. *)
Theorem document_depth_bounded ptr_size tables iter_rows resolve desc s :
  members_depth (2 * BB_SERIALIZE_MAX_DEPTH + 1) (document ptr_size tables iter_rows resolve desc s).
Proof. apply fields_value_depth. Qed.
