(* ===== verification/ArrStream.v ===== *)
(** The pull iterator over a caller's buffer of rows that feeds the stream
    arrays of bb_serialize
    (components/bb_serialize/src/bb_serialize_arr_stream.c). *)
From S2P Require Import Prelude Bytes.

(** The buffer from its base on; [None]: NULL. *)
Record arr_buf_iter := mk_abi { ab_base : option (list byte); ab_count : nat; ab_elem_size : nat; ab_idx : nat }.
(** The carrier: the iterator it pulls from and the size of its rows. *)
Record arr_stream := mk_arr_stream { as_iter : arr_buf_iter; as_row_size : nat }.
(** The bytes of a row; the copy reads inside the buffer. *)
Definition row_at (base : option (list byte)) (idx elem_size : nat) : list byte := take elem_size (drop (idx * elem_size) (default [] base)).
Definition arr_buf_iter_next (st : arr_buf_iter) : option (list byte) * arr_buf_iter :=
  if (ab_count st <=? ab_idx st)%nat then (None, st)
  else (Some (row_at (ab_base st) (ab_idx st) (ab_elem_size st)), mk_abi (ab_base st) (ab_count st) (ab_elem_size st) (S (ab_idx st))).
Definition bb_serialize_arr_stream_from_buf (buf : option (list byte)) (count elem_size : nat) : arr_stream :=
  mk_arr_stream (mk_abi buf count elem_size 0) elem_size.
(** What pulling until the iterator is exhausted gives; [fuel] pulls at most. *)
Fixpoint pull (fuel : nat) (st : arr_buf_iter) : option (list (list byte)) :=
  match fuel with
  | O => None
  | S fuel => match arr_buf_iter_next st with (None, _) => Some [] | (Some row, st) => cons row <$> pull fuel st end
  end.

Lemma pull_from k : forall st fuel, (ab_count st = ab_idx st + k)%nat -> (k < fuel)%nat ->
  pull fuel st = Some (map (fun i => row_at (ab_base st) i (ab_elem_size st)) (seq (ab_idx st) k)).
Proof.
  induction k as [|k IH]; intros [base count size idx] fuel Hk Hf; cbn [ab_count ab_idx ab_base ab_elem_size] in *; (destruct fuel as [|fuel]; [lia|]); cbn [pull]; unfold arr_buf_iter_next; cbn [ab_count ab_idx ab_base ab_elem_size].
  - rewrite (proj2 (Nat.leb_le _ _)) by lia. done.
  - rewrite (proj2 (Nat.leb_gt _ _)) by lia. rewrite IH by (cbn; lia). done.
Qed.
(** The stream of a buffer ends after its count of rows, which are its
    consecutive slices; without rows the buffer is not looked at. *)
Lemma arr_stream_yields_rows buf count elem_size :
  pull (S count) (as_iter (bb_serialize_arr_stream_from_buf (Some buf) count elem_size)) = Some (map (fun i => take elem_size (drop (i * elem_size) buf)) (seq 0 count)).
Proof. by rewrite (pull_from count) by (cbn; lia). Qed.
Lemma arr_stream_whole buf count elem_size rows : length buf = (count * elem_size)%nat ->
  pull (S count) (as_iter (bb_serialize_arr_stream_from_buf (Some buf) count elem_size)) = Some rows -> concat rows = buf.
Proof.
  rewrite arr_stream_yields_rows. intros Hl [= <-]. revert buf Hl. induction count as [|n IH]; intros buf Hl; [by rewrite (nil_length_inv buf Hl)|].
  cbn [seq map concat]. cbn in Hl. rewrite <- (take_drop elem_size buf) at 2. f_equal. rewrite <- (IH (drop elem_size buf)) by (rewrite length_drop; lia).
  rewrite <- seq_shift, map_map. f_equal. apply map_ext. intros i. rewrite drop_drop. done.
Qed.
Lemma arr_stream_null elem_size : pull 1 (as_iter (bb_serialize_arr_stream_from_buf None 0 elem_size)) = Some [].
Proof. done. Qed.
