(* ===== verification/JsonWrite.v ===== *)
(** The JSON emit backend and the renderers:
    components/bb_serialize_json/src/bb_serialize_json.c. *)
From Stdlib Require Import Strings.String.
From S2P Require Import Prelude Bytes Num Float Walk.

(** * The writer's context (bb_serialize_json.h) *)

Definition BB_SERIALIZE_JSON_F64_DECIMALS : nat := 6.
Definition BB_SERIALIZE_JSON_STREAM_FLUSH_BUF_BYTES : nat := 768.
Definition STACK_SIZE : nat := 2 * BB_SERIALIZE_MAX_DEPTH + 2.

Record json_level := mk_level { is_array : bool; have_child : bool }.

(** The byte side of the context.  [ob_buf] is [buf[0..len)].  [ob_flush] is
    [flush_fn] with [flush_failed]: from the chunks flushed so far, the value
    of [*flush_failed] (constantly false for a NULL [flush_failed]); [ob_out]
    is what [flush_fn] has received. *)
Record out_buf := mk_out {
  ob_buf : list byte;
  ob_cap : nat;
  ob_err : bb_err;
  ob_flush : option (list (list byte) -> bool);
  ob_out : list (list byte)
}.
Record json_ctx := mk_json {
  jc_out : out_buf;
  jc_depth : nat;
  jc_stack : list json_level;
  jc_f64_shortest : bool
}.

Definition set_err (e : bb_err) (o : out_buf) : out_buf :=
  mk_out (ob_buf o) (ob_cap o) e (ob_flush o) (ob_out o).

(** * Low-level writers *)

Definition json_flush (o : out_buf) : out_buf :=
  match ob_flush o with
  | None => o
  | Some failed =>
      if negb (is_ok (ob_err o)) || (length (ob_buf o) =? 0)%nat then o else
      let out := ob_out o ++ [ob_buf o] in
      let o1 := mk_out [] (ob_cap o) (ob_err o) (ob_flush o) out in
      if failed out then set_err BB_ERR_INVALID_STATE o1 else o1
  end.

Definition append (s : list byte) (o : out_buf) : out_buf :=
  mk_out (ob_buf o ++ s) (ob_cap o) (ob_err o) (ob_flush o) (ob_out o).

Definition json_put (o : out_buf) (s : list byte) : out_buf :=
  if negb (is_ok (ob_err o)) then o else
  if (ob_cap o <? length (ob_buf o) + length s)%nat then
    match ob_flush o with
    | None => set_err BB_ERR_NO_SPACE o
    | Some _ =>
        let o1 := json_flush o in
        if negb (is_ok (ob_err o1)) then o1 else
        if (ob_cap o1 <? length s)%nat then set_err BB_ERR_NO_SPACE o1 else append s o1
    end
  else append s o.

Definition bb_json_flush (c : json_ctx) : json_ctx :=
  mk_json (json_flush (jc_out c)) (jc_depth c) (jc_stack c) (jc_f64_shortest c).
Definition bb_json_put (s : list byte) (c : json_ctx) : json_ctx :=
  mk_json (json_put (jc_out c) s) (jc_depth c) (jc_stack c) (jc_f64_shortest c).
Definition bb_json_putc (b : byte) (c : json_ctx) : json_ctx := bb_json_put [b] c.

Definition bb_json_hex_nibble (v : Z) : byte := if v <? 10 then zb (48 + v) else zb (97 + (v - 10)).

(** The bytes put for one character; each is one [bb_json_put]. *)
Definition escape_byte (c : byte) : list byte :=
  match c with
  | x22 => [x5c; x22]
  | x5c => [x5c; x5c]
  | x08 => [x5c; x62]
  | x0c => [x5c; x66]
  | x0a => [x5c; x6e]
  | x0d => [x5c; x72]
  | x09 => [x5c; x74]
  | _ => if bz c <? 32
         then [x5c; x75; x30; x30; bb_json_hex_nibble (Z.land (Z.shiftr (bz c) 4) 15);
               bb_json_hex_nibble (Z.land (bz c) 15)]
         else [c]
  end.
Definition bb_json_escape_write (s : list byte) (c : json_ctx) : json_ctx :=
  fold_left (fun c b => bb_json_put (escape_byte b) c) s c.

(** * Numbers *)

(** The digit buffers hold 21 and 22 bytes. *)
Definition bb_json_write_u64 (v : Z) (c : json_ctx) : json_ctx :=
  let '(digits, n) := bb_num_u64_to_dec (repeat x00 21) 21 v in bb_json_put (take n digits) c.
Definition bb_json_write_i64 (v : Z) (c : json_ctx) : json_ctx :=
  let '(digits, n) := bb_num_i64_to_dec (repeat x00 22) 22 v in bb_json_put (take n digits) c.

(** Fixed-width, zero-padded. *)
Fixpoint frac_digits (n : nat) (frac : Z) : list byte :=
  match n with
  | O => []
  | S n' => frac_digits n' (frac / 10) ++ [digit_of (frac mod 10)]
  end.
Definition bb_json_write_frac_digits (frac : Z) (n_digits : nat) (c : json_ctx) : json_ctx :=
  bb_json_put (frac_digits n_digits frac) c.

Definition BB_JSON_TWO_POW_64 : spec_float := d_of_Z (2 ^ 64).
Definition s_pow10 (n : nat) : spec_float := d_of_Z (10 ^ Z.of_nat n).
Definition ONE_HALF : spec_float := d_of_bits 0x3FE0000000000000.

(** Sign, integer part and scaled fraction of [bb_json_write_f64]; [None]:
    the value is written as [null]. *)
Definition f64_parts (v : spec_float) : option (bool * Z * Z) :=
  if d_isnan v || d_isinf v then None else
  let neg := d_lt v (S754_zero false) in
  let mag := if neg then SFopp v else v in
  if d_ge mag BB_JSON_TWO_POW_64 then None else
  let int_part := u64 (d_trunc mag) in
  let frac := d_sub mag (d_of_Z int_part) in
  let scale := s_pow10 BB_SERIALIZE_JSON_F64_DECIMALS in
  let scale_i := u64 (d_trunc scale) in
  let frac_i := u64 (d_trunc (d_add (d_mul frac scale) ONE_HALF)) in
  Some (if scale_i <=? frac_i then (neg, u64 (int_part + 1), u64 (frac_i - scale_i))
        else (neg, int_part, frac_i)).

Definition bb_json_write_f64 (v : spec_float) (c : json_ctx) : json_ctx :=
  match f64_parts v with
  | None => bb_json_put (bs "null") c
  | Some (neg, int_part, frac_i) =>
      let c1 := if neg then bb_json_putc x2d c else c in
      bb_json_write_frac_digits frac_i BB_SERIALIZE_JSON_F64_DECIMALS
        (bb_json_putc x2e (bb_json_write_u64 int_part c1))
  end.

Definition INT32_MAX : Z := 2147483647.
Definition INT32_MIN : Z := -2147483648.

Definition f64_shortest_text (v : spec_float) : list byte :=
  if d_isnan v || d_isinf v then bs "null" else
  let vi := if d_ge v (d_of_Z INT32_MAX) then INT32_MAX
            else if d_ge (d_of_Z INT32_MIN) v then INT32_MIN else d_trunc v in
  if d_eq v (d_of_Z vi)
  then let '(buf, n) := bb_num_i64_to_dec (repeat x00 32) 32 vi in take n buf
  else
    let t15 := fmt_g 15 v in
    let reparse := strtod t15 in
    let max_abs := if d_gt (d_abs reparse) (d_abs v) then d_abs reparse else d_abs v in
    if d_gt (d_abs (d_sub reparse v)) (d_mul max_abs DBL_EPSILON) then fmt_g 17 v else t15.
Definition bb_json_write_f64_shortest (v : spec_float) (c : json_ctx) : json_ctx :=
  bb_json_put (f64_shortest_text v) c.

(** * Levels *)

Definition bb_json_push_level (arr : bool) (c : json_ctx) : json_ctx :=
  if negb (is_ok (ob_err (jc_out c))) then c else
  let next := S (jc_depth c) in
  if (STACK_SIZE <=? next)%nat
  then mk_json (set_err BB_ERR_NO_SPACE (jc_out c)) (jc_depth c) (jc_stack c) (jc_f64_shortest c)
  else mk_json (jc_out c) next (<[next := mk_level arr false]> (jc_stack c)) (jc_f64_shortest c).

Definition bb_json_pop_level (c : json_ctx) : json_ctx :=
  mk_json (jc_out c) (match jc_depth c with O => O | S d => d end) (jc_stack c) (jc_f64_shortest c).

Definition level_at (c : json_ctx) : json_level := nth (jc_depth c) (jc_stack c) (mk_level false false).

Definition bb_json_pre_value (key : key_t) (c : json_ctx) : json_ctx :=
  let lvl := level_at c in
  let c1 := if have_child lvl then bb_json_putc x2c c
            else mk_json (jc_out c) (jc_depth c)
                   (<[jc_depth c := mk_level (is_array lvl) true]> (jc_stack c)) (jc_f64_shortest c) in
  if negb (is_array lvl) then
    let c2 := bb_json_putc x22 c1 in
    let c3 := match key with Some k => bb_json_escape_write k c2 | None => c2 end in
    bb_json_put [x22; x3a] c3
  else c1.

(** * The vtable *)

Definition bb_json_cb_begin_obj (key : key_t) (c : json_ctx) : json_ctx :=
  bb_json_push_level false (bb_json_putc x7b (bb_json_pre_value key c)).
Definition bb_json_cb_end_obj (c : json_ctx) : json_ctx := bb_json_pop_level (bb_json_putc x7d c).
Definition bb_json_cb_begin_arr (key : key_t) (c : json_ctx) : json_ctx :=
  bb_json_push_level true (bb_json_putc x5b (bb_json_pre_value key c)).
Definition bb_json_cb_end_arr (c : json_ctx) : json_ctx := bb_json_pop_level (bb_json_putc x5d c).
Definition bb_json_cb_emit_i64 (key : key_t) (v : Z) (c : json_ctx) : json_ctx :=
  bb_json_write_i64 v (bb_json_pre_value key c).
Definition bb_json_cb_emit_u64 (key : key_t) (v : Z) (c : json_ctx) : json_ctx :=
  bb_json_write_u64 v (bb_json_pre_value key c).
Definition bb_json_cb_emit_f64 (key : key_t) (bits : Z) (c : json_ctx) : json_ctx :=
  let c1 := bb_json_pre_value key c in
  if jc_f64_shortest c1 then bb_json_write_f64_shortest (d_of_bits bits) c1
  else bb_json_write_f64 (d_of_bits bits) c1.
Definition bb_json_cb_emit_bool (key : key_t) (v : bool) (c : json_ctx) : json_ctx :=
  let c1 := bb_json_pre_value key c in
  if v then bb_json_put (bs "true") c1 else bb_json_put (bs "false") c1.
Definition bb_json_cb_emit_str (key : key_t) (s : list byte) (c : json_ctx) : json_ctx :=
  bb_json_putc x22 (bb_json_escape_write s (bb_json_putc x22 (bb_json_pre_value key c))).
Definition bb_json_cb_emit_null (key : key_t) (c : json_ctx) : json_ctx :=
  bb_json_put (bs "null") (bb_json_pre_value key c).

Definition bb_serialize_json_emit : emit_vtable json_ctx :=
  mk_emit bb_json_cb_begin_obj bb_json_cb_end_obj bb_json_cb_begin_arr bb_json_cb_end_arr
    bb_json_cb_emit_i64 bb_json_cb_emit_u64 bb_json_cb_emit_f64 bb_json_cb_emit_bool
    bb_json_cb_emit_str bb_json_cb_emit_null.

(** Only level 0 is initialised; [junk] is what the other entries held. *)
Definition bb_serialize_json_ctx_init (junk : nat -> json_level) (cap : nat) : json_ctx :=
  mk_json (mk_out [] cap BB_OK None []) 0
    (mk_level false false :: map junk (seq 1 (STACK_SIZE - 1))) false.
Definition bind_flush (failed : list (list byte) -> bool) (c : json_ctx) : json_ctx :=
  let o := jc_out c in
  mk_json (mk_out (ob_buf o) (ob_cap o) (ob_err o) (Some failed) (ob_out o)) (jc_depth c)
    (jc_stack c) (jc_f64_shortest c).
Definition set_f64_shortest (b : bool) (c : json_ctx) : json_ctx :=
  mk_json (jc_out c) (jc_depth c) (jc_stack c) b.

(** * Renderers *)

Section Render.
Context (ptr_size : nat) (tables : nat -> list field) (iter_rows : Z -> Z -> mem -> list snap).
Context (junk : nat -> json_level).

(** [Ok text]: BB_OK, [buf] holds the text and a NUL, [*out_len] its length.
    An error leaves an empty string and length 0 ([cap = 0]: nothing). *)
Definition bb_json_render_impl (desc : option serialize_desc) (s : option snap) (cap : nat)
    (resolve : option bb_serialize_ref_resolve_fn) (f64_shortest : bool) : bb_err * list byte :=
  if (cap =? 0)%nat then (BB_ERR_NO_SPACE, []) else
  let c0 := set_f64_shortest f64_shortest (bb_serialize_json_ctx_init junk (cap - 1)) in
  let c1 := bb_json_putc x7b c0 in
  let c2 := bb_serialize_walk ptr_size tables iter_rows resolve desc s (Some bb_serialize_json_emit) c1 in
  let c3 := bb_json_putc x7d c2 in
  if negb (is_ok (ob_err (jc_out c3))) then (ob_err (jc_out c3), [])
  else (BB_OK, ob_buf (jc_out c3)).

Definition bb_serialize_json_render := bb_json_render_impl.

(** The returned code and the chunks [flush_fn] received. *)
Definition bb_serialize_json_stream_render (desc : option serialize_desc) (s : option snap)
    (failed : list (list byte) -> bool) (f64_shortest : bool) : bb_err * list (list byte) :=
  let c0 := set_f64_shortest f64_shortest (bind_flush failed
              (bb_serialize_json_ctx_init junk BB_SERIALIZE_JSON_STREAM_FLUSH_BUF_BYTES)) in
  let c1 := bb_json_putc x7b c0 in
  let c2 := bb_serialize_walk ptr_size tables iter_rows None desc s (Some bb_serialize_json_emit) c1 in
  let c4 := bb_json_flush (bb_json_putc x7d c2) in
  (ob_err (jc_out c4), ob_out (jc_out c4)).

Record compose_group := mk_cgroup {
  cg_entries : option (list compose_entry); cg_n : nat; cg_shape : compose_shape }.

Fixpoint compose_groups (groups : list compose_group) (m : mem) (c : json_ctx)
  : bb_err * mem * json_ctx :=
  match groups with
  | [] => (BB_OK, m, c)
  | g :: rest =>
      let '(err, m1, c1) := bb_serialize_compose_walk ptr_size tables iter_rows (cg_entries g)
                              (cg_n g) (cg_shape g) (Some bb_serialize_json_emit) m c in
      if is_ok err then compose_groups rest m1 c1 else (err, m1, c1)
  end.

Definition bb_serialize_json_stream_compose_render (groups : list compose_group) (m : mem)
    (failed : list (list byte) -> bool) (f64_shortest : bool) : bb_err * list (list byte) :=
  let c0 := set_f64_shortest f64_shortest (bind_flush failed
              (bb_serialize_json_ctx_init junk BB_SERIALIZE_JSON_STREAM_FLUSH_BUF_BYTES)) in
  let '(compose_err, _, c2) := compose_groups groups m (bb_json_putc x7b c0) in
  let c4 := bb_json_flush (bb_json_putc x7d c2) in
  (if is_ok compose_err then ob_err (jc_out c4) else compose_err, ob_out (jc_out c4)).
End Render.

(** * The sizing bound *)

Section Bound.
Context (ptr_size : nat) (tables : nat -> list field).

(** [size_t] arithmetic. *)
Definition size_t (z : Z) : Z := z mod 2 ^ (8 * Z.of_nat ptr_size).
Definition size_max : Z := 2 ^ (8 * Z.of_nat ptr_size) - 1.

Definition str_bound (max_len : nat) : Z :=
  if (max_len =? 0)%nat then size_max else size_t (6 * Z.of_nat max_len + 2).

(** [sub] bounds a table one level down; [None] at the depth cap. *)
Definition obj_bound (sub : option (nat -> Z)) (f : field) : Z :=
  match sub with
  | None => 2
  | Some bound =>
      let c := bound (f_children f) in
      if c =? size_max then size_max else size_t (2 + c)
  end.

Definition bb_json_bound_elem (sub : option (nat -> Z)) (f : field) : Z :=
  if decide (f_elem_type f = BB_TYPE_STR) then str_bound (f_max_len f) else obj_bound sub f.

Definition bb_json_bound_value (sub : option (nat -> Z)) (f : field) : Z :=
  match f_type f with
  | BB_TYPE_I64 | BB_TYPE_U64 => 20
  | BB_TYPE_F64 => 24 + Z.of_nat BB_SERIALIZE_JSON_F64_DECIMALS
  | BB_TYPE_BOOL => 5
  | BB_TYPE_STR | BB_TYPE_STR_N => str_bound (f_max_len f)
  | BB_TYPE_OBJ => obj_bound sub f
  | BB_TYPE_ARR =>
      match f_cardinality f with
      | BB_ARR_STREAM => size_max
      | BB_ARR_FIXED =>
          if (f_max_items f =? 0)%nat then size_max else
          let eb := bb_json_bound_elem sub f in
          if eb =? size_max then size_max
          else size_t (2 + Z.of_nat (f_max_items f) * (eb + 1))
      end
  | BB_TYPE_REF => size_max
  end.

(** The key is dereferenced: a NULL key is not a legal input here. *)
Definition key_len (f : field) : Z := Z.of_nat (length (default [] (f_key f))).
Definition bb_json_bound_field (sub : option (nat -> Z)) (f : field) : Z :=
  let vmax := bb_json_bound_value sub f in
  if vmax =? size_max then size_max else size_t (6 * key_len f + 3 + vmax + 1).

(** The loop stops at the first unbounded field. *)
Fixpoint bound_loop (sub : option (nat -> Z)) (fs : list field) (total : Z) : Z :=
  match fs with
  | [] => total
  | f :: rest =>
      let c := bb_json_bound_field sub f in
      if c =? size_max then size_max else bound_loop sub rest (size_t (total + c))
  end.
Fixpoint bb_json_bound_fields (rem : nat) (fields : nat) : Z :=
  let sub := match rem with O => None | S rem' => Some (bb_json_bound_fields rem') end in
  bound_loop sub (tables fields) 0.

Definition bb_serialize_json_bound (desc : option serialize_desc) : Z :=
  match desc with
  | None => 0
  | Some d =>
      let total := bb_json_bound_fields BB_SERIALIZE_MAX_DEPTH (sd_fields d) in
      if total =? size_max then size_max else size_t (2 + total + 1)
  end.
End Bound.

Example ex_render : bb_serialize_json_render 8 ex_tables no_rows (fun _ => mk_level true true) (Some (mk_sdesc (bs "ex") 1 40))
    (Some ex_snap) 64 None false
  = (BB_OK, bs "{" ++ [x22] ++ bs "n" ++ [x22] ++ bs ":7," ++ [x22] ++ bs "ok" ++ [x22] ++ bs ":true," ++
            [x22] ++ bs "s" ++ [x22; x3a; x22] ++ bs "hi" ++ [x22; x2c; x22] ++ bs "xs" ++ [x22] ++
            bs ":[1,-5]}").
Proof. vm_compute. reflexivity. Qed.
Example ex_f64 : ob_buf (jc_out (bb_json_write_f64 (d_of_bits 0xC00921FB54442D18)
    (bb_serialize_json_ctx_init (fun _ => mk_level true true) 64))) = bs "-3.141593".
Proof. vm_compute. reflexivity. Qed.
Example ex_shortest : map (fun b => f64_shortest_text (d_of_bits b))
    [0x8000000000000000; 0x3FB999999999999A; 0x41E0000000000000; 0x7FF0000000000000]
  = [bs "0"; bs "0.1"; bs "2147483648"; bs "null"].
Proof. vm_compute. reflexivity. Qed.

(** * The text of a document *)

(** Comma-separated pieces. *)
Definition join (ps : list (list byte)) : list byte :=
  match ps with
  | [] => []
  | p :: rest => p ++ concat (map (cons x2c) rest)
  end.
Definition print_chars (s : list byte) : list byte := concat (map escape_byte s).
Definition print_str (s : list byte) : list byte := x22 :: print_chars s ++ [x22].
Definition print_key (k : key_t) : list byte := print_str (default [] k) ++ [x3a].

Definition f64_puts (short : bool) (bits : Z) : list (list byte) :=
  if short then [f64_shortest_text (d_of_bits bits)] else
  match f64_parts (d_of_bits bits) with
  | None => [bs "null"]
  | Some (neg, int_part, frac_i) =>
      (if neg then [[x2d]] else []) ++
      [dec_u64 int_part; [x2e]; frac_digits BB_SERIALIZE_JSON_F64_DECIMALS frac_i]
  end.
Definition print_f64 (short : bool) (bits : Z) : list byte := concat (f64_puts short bits).

(** [short] selects the double format. *)
Fixpoint print_val (short : bool) (v : jval) : list byte :=
  match v with
  | JNull => bs "null"
  | JBool b => if b then bs "true" else bs "false"
  | JI64 x => dec_i64 x
  | JU64 x => dec_u64 x
  | JF64 bits => print_f64 short bits
  | JStr s => print_str s
  | JArr vs => x5b :: join (map (print_val short) vs) ++ [x5d]
  | JObj ms => x7b :: join (map (fun m => print_key m.1 ++ print_val short m.2) ms) ++ [x7d]
  end.

(** * The writes a value causes *)

(** Each entry is one [bb_json_put]. *)
Definition pre_puts (l : json_level) (key : key_t) : list (list byte) :=
  (if have_child l then [[x2c]] else []) ++
  (if is_array l then [] else [x22] :: map escape_byte (default [] key) ++ [[x22; x3a]]).

Definition str_puts (s : list byte) : list (list byte) := [x22] :: map escape_byte s ++ [[x22]].

(** The sequence of a loop over siblings: only the first has no comma. *)
Definition sib {A} (puts : bool -> A -> list (list byte)) : bool -> list A -> list (list byte) :=
  fix go (child : bool) (l : list A) :=
    match l with
    | [] => []
    | a :: rest => puts child a ++ go true rest
    end.

Fixpoint val_puts (short : bool) (v : jval) : list (list byte) :=
  match v with
  | JNull => [bs "null"]
  | JBool b => [if b then bs "true" else bs "false"]
  | JI64 x => [dec_i64 x]
  | JU64 x => [dec_u64 x]
  | JF64 bits => f64_puts short bits
  | JStr s => str_puts s
  | JArr vs =>
      [x5b] :: sib (fun child v => pre_puts (mk_level true child) None ++ val_puts short v) false vs
      ++ [[x5d]]
  | JObj ms =>
      [x7b] :: sib (fun child m => pre_puts (mk_level false child) m.1 ++ val_puts short m.2) false ms
      ++ [[x7d]]
  end.
Definition member_puts (short : bool) (child : bool) (ms : list (key_t * jval)) : list (list byte) :=
  sib (fun child m => pre_puts (mk_level false child) m.1 ++ val_puts short m.2) child ms.

Lemma sib_text {A} (puts : bool -> A -> list (list byte)) (text : A -> list byte) l :
  (forall a, a ∈ l -> forall child, concat (puts child a) = (if child then [x2c] else []) ++ text a) ->
  concat (sib puts true l) = concat (map (fun a => x2c :: text a) l) /\
  concat (sib puts false l) = join (map text l).
Proof.
  induction l as [|a l IH]; intros H; [done|]. destruct IH as [IHt _]; [set_solver|].
  cbn [sib map]. fold (sib puts). rewrite !concat_app, !H by set_solver. rewrite IHt. split; [done|].
  cbn [join app]. f_equal. by rewrite map_map.
Qed.

Lemma pre_puts_text l k : concat (pre_puts l k) =
  (if have_child l then [x2c] else []) ++ (if is_array l then [] else print_key k).
Proof.
  unfold pre_puts, print_key, print_str, print_chars. rewrite concat_app.
  destruct (have_child l), (is_array l); cbn [concat app]; rewrite ?concat_app; cbn [concat app];
    rewrite ?app_nil_r, <- ?app_assoc; done.
Qed.

Lemma val_puts_text short v : concat (val_puts short v) = print_val short v.
Proof.
  induction v as [|b|x|x|x|s|vs IH|ms IH] using jval_nested_ind; cbn [val_puts print_val];
    try (cbn [concat]; by rewrite ?app_nil_r); try done.
  - unfold str_puts, print_str, print_chars. cbn [concat]. by rewrite concat_app.
  - cbn [concat]. rewrite concat_app. cbn [concat app]. f_equal. f_equal.
    apply (sib_text _ (print_val short)). intros v Hv child. rewrite concat_app, pre_puts_text.
    rewrite Forall_forall in IH. by rewrite (IH _ Hv), app_nil_r.
  - cbn [concat]. rewrite concat_app. cbn [concat app]. f_equal. f_equal.
    apply (sib_text _ (fun m => print_key m.1 ++ print_val short m.2)).
    intros m Hm child. rewrite concat_app, pre_puts_text. rewrite Forall_forall in IH.
    by rewrite (IH _ Hm), <- app_assoc.
Qed.

(** * The byte side *)

Definition puts (ps : list (list byte)) (o : out_buf) : out_buf := fold_left json_put ps o.

Lemma puts_app ps qs o : puts (ps ++ qs) o = puts qs (puts ps o).
Proof. apply fold_left_app. Qed.
Lemma puts_cons p ps o : puts (p :: ps) o = puts ps (json_put o p).
Proof. done. Qed.

Definition stuck (o : out_buf) : Prop := ob_err o <> BB_OK.

Lemma put_stuck o s : stuck o -> json_put o s = o.
Proof. unfold stuck, json_put. by destruct (ob_err o). Qed.

Lemma puts_stuck ps o : stuck o -> puts ps o = o.
Proof. revert o; induction ps as [|p ps IH]; intros o H; [done|]. by rewrite puts_cons, put_stuck, IH. Qed.

Lemma flush_stuck o : stuck o -> json_flush o = o.
Proof. unfold stuck, json_flush. destruct (ob_flush o); [|done]. by destruct (ob_err o). Qed.

Lemma stuck_is_ok o : stuck o -> is_ok (ob_err o) = false.
Proof. unfold stuck. by destruct (ob_err o). Qed.

Lemma ok_dec o : ob_err o = BB_OK \/ stuck o.
Proof. unfold stuck. destruct (ob_err o); by (left + right). Qed.

(** * The context refines a stack of levels and a sequence of writes *)

(** [ls]: the open levels, innermost first. *)
Definition levels_are (c : json_ctx) (ls : list json_level) : Prop :=
  length ls = S (jc_depth c) /\ length (jc_stack c) = STACK_SIZE /\
  (length ls <= STACK_SIZE)%nat /\ take (length ls) (jc_stack c) = rev ls.

(** After an error only the byte side is described. *)
Definition sim (short : bool) (c : json_ctx) (o : out_buf) (ls : list json_level) : Prop :=
  jc_out c = o /\ jc_f64_shortest c = short /\ (ob_err o = BB_OK -> levels_are c ls).

Section Sim.
Context (short : bool).
Abbreviation simc := (sim short).

Lemma err_put_ok o s : ob_err (json_put o s) = BB_OK -> ob_err o = BB_OK.
Proof. destruct (ok_dec o) as [|H]; [done|]. by rewrite put_stuck. Qed.

Lemma sim_put c o ls s : simc c o ls -> simc (bb_json_put s c) (json_put o s) ls.
Proof.
  intros (<- & Hs & Hl). split_and!; [done|done|].
  intros H%err_put_ok. exact (Hl H).
Qed.

Lemma sim_escape c o ls s : simc c o ls -> simc (bb_json_escape_write s c) (puts (map escape_byte s) o) ls.
Proof.
  unfold bb_json_escape_write, puts. revert c o; induction s as [|b s IH]; intros c o H; [done|].
  cbn [fold_left map]. apply IH. by apply sim_put.
Qed.

Lemma escape_out s c : jc_out (bb_json_escape_write s c) = puts (map escape_byte s) (jc_out c).
Proof. unfold bb_json_escape_write, puts. revert c; induction s as [|b s IH]; intros c; [done|]. apply IH. Qed.

Lemma pre_value_stuck k c : stuck (jc_out c) -> jc_out (bb_json_pre_value k c) = jc_out c.
Proof.
  intros H. unfold bb_json_pre_value.
  set (c1 := if have_child (level_at c) then _ else _).
  assert (H1 : jc_out c1 = jc_out c) by (subst c1; destruct (have_child _); [by apply put_stuck|done]).
  pose proof (fun s => put_stuck _ s H) as HP. pose proof (fun ps => puts_stuck ps _ H) as HPs.
  destruct (negb _); [|done]. cbn [bb_json_put jc_out].
  destruct k as [k|]; rewrite ?escape_out; cbn [bb_json_putc bb_json_put jc_out]; by rewrite H1, HP, ?HPs, HP.
Qed.

Lemma level_at_top c l ls : levels_are c (l :: ls) -> level_at c = l.
Proof.
  intros (Hd & Hs & Hle & Ht). unfold level_at. cbn in Hd. injection Hd as Hd.
  apply nth_lookup_Some. rewrite <- (lookup_take_lt _ (length (l :: ls))) by (cbn; lia).
  rewrite Ht. cbn [rev]. rewrite lookup_app_r by (rewrite length_rev; lia).
  rewrite length_rev. by replace (jc_depth c - length ls)%nat with O by lia.
Qed.

(** Replacing the top level. *)
Lemma set_top c l l' ls out sh :
  levels_are c (l :: ls) -> levels_are (mk_json out (jc_depth c) (<[jc_depth c := l']> (jc_stack c)) sh) (l' :: ls).
Proof.
  intros (Hd & Hs & Hle & Ht). split_and!; cbn [jc_depth jc_stack].
  - done.
  - by rewrite length_insert.
  - done.
  - cbn in Hd. injection Hd as Hd. cbn [rev length] in *. rewrite <- Hd in *.
    apply (f_equal (<[length ls := l']>)) in Ht. rewrite <- take_insert_lt in Ht by lia.
    rewrite Ht, insert_app_r_alt by (rewrite length_rev; lia).
    rewrite length_rev. by replace (length ls - length ls)%nat with O by lia.
Qed.

Lemma sim_pre_value c o l ls k :
  simc c o (l :: ls) ->
  simc (bb_json_pre_value k c) (puts (pre_puts l k) o) (mk_level (is_array l) true :: ls).
Proof.
  intros (Ho & Hs & Hl). subst o.
  assert (Hsh : jc_f64_shortest (bb_json_pre_value k c) = short).
  { unfold bb_json_pre_value.
    assert (He : forall s c', jc_f64_shortest (bb_json_escape_write s c') = jc_f64_shortest c').
    { unfold bb_json_escape_write. intros s. induction s as [|b s IH]; intros c'; [done|].
      cbn [fold_left]. by rewrite IH. }
    destruct (have_child _), (negb _), k; cbn; rewrite ?He; done. }
  destruct (ok_dec (jc_out c)) as [Hok|Hst].
  2:{ rewrite puts_stuck by done. split_and!; [by apply pre_value_stuck | done | done]. }
  specialize (Hl Hok). pose proof (level_at_top _ _ _ Hl) as Htop.
  set (c1 := if have_child l then bb_json_putc x2c c
             else mk_json (jc_out c) (jc_depth c) (<[jc_depth c := mk_level (is_array l) true]> (jc_stack c))
                    (jc_f64_shortest c)).
  assert (H1 : simc c1 (puts (if have_child l then [[x2c]] else []) (jc_out c))
                 (mk_level (is_array l) true :: ls)).
  { subst c1. destruct l as [arr []]; cbn [have_child is_array].
    - by apply sim_put.
    - split_and!; [done..|]. intros _. by apply (set_top c (mk_level arr false)). }
  unfold bb_json_pre_value, pre_puts. rewrite Htop, puts_app. fold c1. destruct (is_array l); [done|].
  cbn [negb]. rewrite puts_cons, puts_app. apply sim_put.
  destruct k as [k|]; [apply sim_escape|]; by apply sim_put.
Qed.

Lemma sim_push c o l ls arr :
  (length (l :: ls) < STACK_SIZE)%nat -> simc c o (l :: ls) ->
  simc (bb_json_push_level arr c) o (mk_level arr false :: l :: ls).
Proof.
  intros Hlen (<- & Hs & Hl). unfold bb_json_push_level.
  destruct (ok_dec (jc_out c)) as [Hok|Hst].
  2:{ rewrite stuck_is_ok by done. split_and!; [done|done|]. by intros H%Hst. }
  rewrite Hok. cbn [is_ok negb]. specialize (Hl Hok) as (Hd & Hlk & Hle & Ht).
  destruct (Nat.leb_spec STACK_SIZE (S (jc_depth c))); [lia|].
  split_and!; [done|done|]. intros _. split_and!; cbn [jc_depth jc_stack].
  - cbn in *. lia.
  - by rewrite length_insert.
  - cbn in *. lia.
  - change (length (mk_level arr false :: l :: ls)) with (S (length (l :: ls))). rewrite <- Hd.
    assert (Hlt : (length (l :: ls) < length (jc_stack c))%nat) by lia.
    rewrite (take_S_r _ _ (mk_level arr false)) by (by apply list_lookup_insert_eq).
    rewrite take_insert_ge by lia. rewrite Ht. done.
Qed.

Lemma sim_pop c o l l' ls : simc c o (l :: l' :: ls) -> simc (bb_json_pop_level c) o (l' :: ls).
Proof.
  intros (<- & Hs & Hl). split_and!; [done|done|]. intros Hok.
  destruct (Hl Hok) as (Hd & Hlk & Hle & Ht). cbn [length] in *. injection Hd as Hd.
  split_and!; unfold bb_json_pop_level; cbn [jc_depth jc_stack].
  - rewrite <- Hd. done.
  - done.
  - cbn [length]. lia.
  - apply (f_equal (take (S (length ls)))) in Ht. rewrite take_take in Ht.
    rewrite Nat.min_l in Ht by lia. cbn [length]. rewrite Ht. cbn [rev].
    rewrite take_app_le by (rewrite length_app, length_rev; cbn; lia).
    rewrite take_ge; [done|]. rewrite length_app, length_rev. cbn. lia.
Qed.
End Sim.

Lemma sim_f64 short c o ls bits :
  sim short c o ls ->
  sim short (if jc_f64_shortest c then bb_json_write_f64_shortest (d_of_bits bits) c
        else bb_json_write_f64 (d_of_bits bits) c) (puts (f64_puts short bits) o) ls.
Proof.
  intros H. pose proof (proj1 (proj2 H)) as ->. unfold f64_puts. destruct short; [by apply sim_put|].
  unfold bb_json_write_f64. destruct (f64_parts _) as [[[neg ip] fr]|]; [|by apply sim_put].
  rewrite puts_app. unfold bb_json_write_u64. rewrite u64_to_dec_fits, take_app_length by lia.
  apply sim_put, sim_put, sim_put. destruct neg; [by apply sim_put|done].
Qed.

Lemma write_u64_put x c : bb_json_write_u64 x c = bb_json_put (dec_u64 x) c.
Proof. unfold bb_json_write_u64. by rewrite u64_to_dec_fits, take_app_length by lia. Qed.

Lemma i64_digits cap x : (22 <= cap)%nat ->
  (let '(d, n) := bb_num_i64_to_dec (repeat x00 cap) cap x in take n d) = dec_i64 x.
Proof.
  intros Hc. rewrite i64_to_dec_spec by (rewrite repeat_length; lia).
  pose proof (dec_i64_len x). rewrite Nat.min_r by lia. rewrite take_ge with (n := (cap - 1)%nat) by lia.
  apply take_app_length.
Qed.

Lemma write_i64_put x c : bb_json_write_i64 x c = bb_json_put (dec_i64 x) c.
Proof.
  unfold bb_json_write_i64. pose proof (i64_digits 22 x ltac:(lia)) as H.
  destruct (bb_num_i64_to_dec _ _ _). by rewrite H.
Qed.

Section Values.
Context (short : bool).
Abbreviation simc := (sim short).

Lemma sim_str c o ls s :
  simc c o ls -> simc (bb_json_putc x22 (bb_json_escape_write s (bb_json_putc x22 c))) (puts (str_puts s) o) ls.
Proof. intros H. unfold str_puts. rewrite puts_cons, puts_app. by apply sim_put, sim_escape, sim_put. Qed.

(** What [sim_val] says of one value, used for the siblings of a container. *)
Definition val_sim (v : jval) : Prop := forall k c o l ls,
  simc c o (l :: ls) -> (length (l :: ls) + jdepth v <= STACK_SIZE)%nat ->
  simc (emit_val bb_serialize_json_emit k v c) (puts (pre_puts l k ++ val_puts short v) o)
    (mk_level (is_array l) true :: ls).

Lemma sim_siblings {A} (val : A -> jval) (key : A -> key_t) arr ls l c o child :
  Forall (fun a => val_sim (val a)) l ->
  Forall (fun a => (S (length ls) + jdepth (val a) <= STACK_SIZE)%nat) l ->
  simc c o (mk_level arr child :: ls) ->
  exists child',
  simc (fold_left (fun c a => emit_val bb_serialize_json_emit (key a) (val a) c) l c)
    (puts (sib (fun ch a => pre_puts (mk_level arr ch) (key a) ++ val_puts short (val a)) child l) o)
    (mk_level arr child' :: ls).
Proof.
  intros Hv Hd. revert c o child; induction l as [|a l IH]; intros c o child Hs; [by exists child|].
  apply Forall_cons_1 in Hv as [Hva Hv], Hd as [Hda Hd]. cbn [fold_left sib]. rewrite puts_app.
  apply (IH Hv Hd). apply (Hva (key a) c o (mk_level arr child) ls Hs Hda).
Qed.

Lemma list_max_le_all {A} (f : A -> nat) l n m :
  (n + list_max (map f l) <= m)%nat -> Forall (fun a => n + f a <= m)%nat l.
Proof.
  intros H. assert (Hm : (list_max (map f l) <= m - n)%nat) by lia.
  apply list_max_le, Forall_map in Hm. destruct l as [|a l]; [constructor|].
  eapply Forall_impl; [exact Hm|]. cbn. lia.
Qed.

Lemma sim_val v : val_sim v.
Proof.
  induction v as [|b|x|x|x|s|vs IH|ms IH] using jval_nested_ind; intros k c o l ls Hs Hd;
    rewrite puts_app; apply (sim_pre_value short c o l ls k) in Hs; cbn [emit_val val_puts].
  - by apply sim_put.
  - cbn [emit_bool bb_serialize_json_emit]. unfold bb_json_cb_emit_bool. destruct b; by apply sim_put.
  - cbn [emit_i64 bb_serialize_json_emit]. unfold bb_json_cb_emit_i64. rewrite write_i64_put. by apply sim_put.
  - cbn [emit_u64 bb_serialize_json_emit]. unfold bb_json_cb_emit_u64. rewrite write_u64_put. by apply sim_put.
  - by apply sim_f64.
  - by apply sim_str.
  - cbn [jdepth] in Hd. cbn [begin_arr end_arr bb_serialize_json_emit]. unfold bb_json_cb_begin_arr, bb_json_cb_end_arr.
    rewrite puts_cons, puts_app.
    destruct (sim_siblings (fun v => v) (fun _ => None) true (mk_level (is_array l) true :: ls) vs
      (bb_json_push_level true (bb_json_putc x5b (bb_json_pre_value k c)))
      (json_put (puts (pre_puts l k) o) [x5b]) false IH) as [child' Hc].
    + apply list_max_le_all. cbn [length] in *. lia.
    + apply sim_push; [cbn [length] in *; lia|]. by apply sim_put.
    + eapply sim_pop. apply sim_put. exact Hc.
  - cbn [jdepth] in Hd. cbn [begin_obj end_obj bb_serialize_json_emit]. unfold bb_json_cb_begin_obj, bb_json_cb_end_obj.
    rewrite puts_cons, puts_app.
    destruct (sim_siblings (fun m : key_t * jval => m.2) fst false (mk_level (is_array l) true :: ls) ms
      (bb_json_push_level false (bb_json_putc x7b (bb_json_pre_value k c)))
      (json_put (puts (pre_puts l k) o) [x7b]) false IH) as [child' Hc].
    + apply (list_max_le_all (fun m : key_t * jval => jdepth m.2)). cbn [length] in *. lia.
    + apply sim_push; [cbn [length] in *; lia|]. by apply sim_put.
    + eapply sim_pop. apply sim_put. exact Hc.
Qed.

(** The members of the document, written at the root level. *)
Lemma sim_members ms c o child :
  members_depth (2 * BB_SERIALIZE_MAX_DEPTH + 1) ms -> simc c o [mk_level false child] ->
  exists child', simc (emit_members bb_serialize_json_emit ms c) (puts (member_puts short child ms) o)
                   [mk_level false child'].
Proof.
  intros Hd Hs. apply (sim_siblings (fun m : key_t * jval => m.2) fst false [] ms c o child).
  - apply Forall_true. intros m. apply sim_val.
  - eapply Forall_impl; [exact Hd|]. intros m Hm. cbv beta in *. unfold STACK_SIZE. cbn [length]. lia.
  - done.
Qed.
End Values.

(** * Bounded rendering *)

Lemma put_fits o s :
  ob_err o = BB_OK -> (length (ob_buf o) + length s <= ob_cap o)%nat -> json_put o s = append s o.
Proof. intros He Hl. unfold json_put. rewrite He. cbn. by destruct (Nat.ltb_spec (ob_cap o) (length (ob_buf o) + length s)); [lia|]. Qed.

Lemma put_overflow o s :
  ob_err o = BB_OK -> ob_flush o = None -> (ob_cap o < length (ob_buf o) + length s)%nat ->
  ob_err (json_put o s) = BB_ERR_NO_SPACE.
Proof.
  intros He Hf Hl. unfold json_put. rewrite He, Hf. cbn.
  by destruct (Nat.ltb_spec (ob_cap o) (length (ob_buf o) + length s)); [|lia].
Qed.

(** All or nothing: the writes succeed exactly when their bytes fit. *)
Lemma puts_bounded ps o :
  ob_err o = BB_OK -> ob_flush o = None -> (length (ob_buf o) <= ob_cap o)%nat ->
  if (length (ob_buf o) + length (concat ps) <=? ob_cap o)%nat
  then puts ps o = append (concat ps) o
  else ob_err (puts ps o) = BB_ERR_NO_SPACE.
Proof.
  revert o; induction ps as [|p ps IH]; intros o He Hf Hl.
  - cbn. rewrite Nat.add_0_r. destruct (Nat.leb_spec (length (ob_buf o)) (ob_cap o)); [|lia].
    unfold append. rewrite app_nil_r. by destruct o.
  - rewrite puts_cons. cbn [concat]. rewrite length_app.
    destruct (Nat.le_gt_cases (length (ob_buf o) + length p) (ob_cap o)) as [Hfit|Hov].
    + rewrite put_fits by done. specialize (IH (append p o) He Hf).
      cbn [append ob_buf ob_cap] in IH. rewrite length_app in IH. specialize (IH Hfit).
      rewrite Nat.add_assoc. destruct (_ <=? _)%nat; [|done].
      rewrite IH. unfold append. cbn. by rewrite app_assoc.
    + destruct (Nat.leb_spec (length (ob_buf o) + (length p + length (concat ps))) (ob_cap o)); [lia|].
      rewrite puts_stuck; [by apply put_overflow|]. unfold stuck. by rewrite put_overflow.
Qed.

(** * Chunked rendering *)

Definition chunk_ok (cap : nat) (ch : list byte) : Prop := (1 <= length ch <= cap)%nat.
(** [failed] was read as false after each of the first [n] flushes. *)
Definition not_failed (failed : list (list byte) -> bool) (out : list (list byte)) (n : nat) : Prop :=
  forall i, (1 <= i <= n)%nat -> failed (take i out) = false.

(** [out] delivers [text] or, after an abort, a prefix of it. *)
Inductive delivery (failed : list (list byte) -> bool) (text : list byte)
  : bb_err -> list (list byte) -> list byte -> Prop :=
  | dl_ok out buf : concat out ++ buf = text -> not_failed failed out (length out) ->
      delivery failed text BB_OK out buf
  | dl_abort out ch buf : failed (out ++ [ch]) = true -> not_failed failed (out ++ [ch]) (length out) ->
      concat (out ++ [ch]) `prefix_of` text ->
      delivery failed text BB_ERR_INVALID_STATE (out ++ [ch]) buf.

Record stream_inv (failed : list (list byte) -> bool) (cap : nat) (text : list byte) (o : out_buf) : Prop := {
  si_flush : ob_flush o = Some failed;
  si_cap : ob_cap o = cap;
  si_buf : (length (ob_buf o) <= cap)%nat;
  si_chunks : Forall (chunk_ok cap) (ob_out o);
  si_delivery : delivery failed text (ob_err o) (ob_out o) (ob_buf o)
}.

Lemma not_failed_snoc failed out ch :
  not_failed failed out (length out) -> not_failed failed (out ++ [ch]) (length out).
Proof. intros H i Hi. rewrite take_app_le by lia. by apply H. Qed.

Lemma not_failed_snoc_all failed out ch :
  not_failed failed out (length out) -> failed (out ++ [ch]) = false ->
  not_failed failed (out ++ [ch]) (length (out ++ [ch])).
Proof.
  intros H Hf i Hi. rewrite length_app in Hi. cbn in Hi.
  destruct (Nat.eq_dec i (length out + 1)%nat) as [->|].
  - by rewrite take_ge by (rewrite length_app; cbn; lia).
  - apply (not_failed_snoc _ _ _ H). lia.
Qed.

Lemma flush_stream failed cap text o :
  stream_inv failed cap text o -> stream_inv failed cap text (json_flush o) /\
  (ob_err (json_flush o) = BB_OK -> ob_buf (json_flush o) = []).
Proof.
  intros [Hf Hc Hb Hch Hd]. unfold json_flush. rewrite Hf.
  destruct (ob_err o) eqn:He; cbn [is_ok negb orb]; try (split; [constructor; by rewrite ?He|by rewrite ?He]).
  - destruct (Nat.eqb_spec (length (ob_buf o)) 0) as [H0|Hn].
    { split; [constructor; by rewrite ?He|]. intros _. by apply nil_length_inv. }
    inversion Hd as [out buf Htext Hnf|]; subst.
    assert (Hchunks : Forall (chunk_ok (ob_cap o)) (ob_out o ++ [ob_buf o])).
    { apply Forall_app; split; [done|]. constructor; [|constructor]. unfold chunk_ok. lia. }
    destruct (failed (ob_out o ++ [ob_buf o])) eqn:Ef; (split; [|done]).
    + constructor; cbn; try done; [lia|]. apply dl_abort; [done|by apply not_failed_snoc|].
      rewrite concat_app. cbn. rewrite app_nil_r. done.
    + constructor; cbn; try done; [lia|]. apply dl_ok.
      * rewrite concat_app. cbn. by rewrite !app_nil_r.
      * by apply not_failed_snoc_all.
Qed.

Lemma append_stream failed cap text o p :
  stream_inv failed cap text o -> ob_err o = BB_OK -> (length (ob_buf o) + length p <= cap)%nat ->
  stream_inv failed cap (text ++ p) (append p o).
Proof.
  intros [Hf Hc Hb Hch Hd] He Hl. constructor; cbn; try done; [by rewrite length_app|].
  rewrite He in *. inversion Hd; subst. apply dl_ok; [by rewrite app_assoc|done].
Qed.

Lemma stuck_stream failed cap text o p :
  stream_inv failed cap text o -> stuck o -> stream_inv failed cap (text ++ p) o.
Proof.
  intros [Hf Hc Hb Hch Hd] Hs. constructor; try done. unfold stuck in Hs.
  destruct Hd; [done|]. constructor; [done..|]. by apply prefix_app_r.
Qed.

Lemma put_stream failed cap text o p :
  (length p <= cap)%nat -> stream_inv failed cap text o -> stream_inv failed cap (text ++ p) (json_put o p).
Proof.
  intros Hp Hi. destruct (ok_dec o) as [He|Hst]; [|rewrite put_stuck by done; by apply stuck_stream].
  unfold json_put. rewrite He. cbn [is_ok negb].
  destruct (Nat.ltb_spec (ob_cap o) (length (ob_buf o) + length p)).
  - rewrite (si_flush _ _ _ _ Hi). destruct (flush_stream _ _ _ _ Hi) as [Hi' Hbuf].
    destruct (ok_dec (json_flush o)) as [He'|Hst].
    + rewrite He'. cbn [is_ok negb]. rewrite (si_cap _ _ _ _ Hi').
      destruct (Nat.ltb_spec cap (length p)); [lia|]. apply append_stream; [done..|].
      rewrite Hbuf by done. done.
    + rewrite stuck_is_ok by done. by apply stuck_stream.
  - apply append_stream; [done..|]. by rewrite <- (si_cap _ _ _ _ Hi).
Qed.

Lemma puts_stream failed cap ps text o :
  Forall (fun p => length p <= cap)%nat ps -> stream_inv failed cap text o ->
  stream_inv failed cap (text ++ concat ps) (puts ps o).
Proof.
  intros Hps. revert text o; induction Hps as [|p ps Hp _ IH]; intros text o Hi.
  - by rewrite app_nil_r.
  - rewrite puts_cons. cbn [concat]. rewrite app_assoc. by apply IH, put_stream.
Qed.

(** * No single write is long *)

Lemma strip_zeros_length l : (length (strip_zeros l) <= length l)%nat.
Proof. induction l as [|b l IH]; [done|]. cbn. destruct b; cbn; lia. Qed.

Lemma strip_trailing_length b : (length (strip_trailing b) <= length b)%nat.
Proof.
  unfold strip_trailing. rewrite length_rev. pose proof (strip_zeros_length (rev b)) as H.
  by rewrite length_rev in H.
Qed.

Lemma with_point_length a b : (length (with_point a b) <= length a + 1 + length b)%nat.
Proof.
  unfold with_point. pose proof (strip_trailing_length b) as H.
  destruct (strip_trailing b); [lia|]. rewrite length_app. cbn in *. lia.
Qed.

Lemma exp_text_length x : (length (exp_text x) <= 21)%nat.
Proof.
  unfold exp_text. pose proof (dec_u64_length (Z.abs x)).
  destruct (Nat.ltb_spec (length (dec_u64 (Z.abs x))) 2); cbn [length]; lia.
Qed.

Lemma fmt_g_ratio_length P s num den : (length (fmt_g_ratio P s num den) <= 60)%nat.
Proof.
  unfold fmt_g_ratio. destruct (scale10 _ _ _) as [n d]. cbv zeta.
  destruct (if round_half_even n d =? 10 ^ P then _ else _) as [q x].
  pose proof (dec_u64_length q) as Hq. pose proof (exp_text_length x) as He.
  set (body := if (x <? -4) || (P <=? x) then _ else _). assert (Hb : (length body <= 59)%nat); [|destruct s; cbn; lia].
  subst body. destruct ((x <? -4) || (P <=? x)) eqn:Ex.
  - rewrite length_app. cbn [length]. pose proof (with_point_length (take 1 (dec_u64 q)) (drop 1 (dec_u64 q))) as H.
    rewrite length_take, length_drop in H. lia.
  - apply orb_false_iff in Ex as [Ex _]. apply Z.ltb_ge in Ex. destruct (x <? 0).
    + pose proof (with_point_length [x30] (repeat x30 (Z.to_nat (- x - 1)) ++ dec_u64 q)) as H.
      rewrite length_app, repeat_length in H. cbn [length] in H. lia.
    + pose proof (with_point_length (take (Z.to_nat (x + 1)) (dec_u64 q)) (drop (Z.to_nat (x + 1)) (dec_u64 q))) as H.
      rewrite length_take, length_drop in H. lia.
Qed.

Lemma fmt_g_length P v : (length (fmt_g P v) <= 60)%nat.
Proof. destruct v as [[]| | |s m e]; cbn; try lia. destruct e; apply fmt_g_ratio_length. Qed.

Lemma f64_shortest_length v : (length (f64_shortest_text v) <= 60)%nat.
Proof.
  unfold f64_shortest_text. destruct (d_isnan v || d_isinf v); [cbn; lia|]. cbv zeta.
  destruct (d_eq _ _).
  - rewrite i64_digits by lia. pose proof (dec_i64_len (if d_ge v (d_of_Z INT32_MAX) then INT32_MAX
      else if d_ge (d_of_Z INT32_MIN) v then INT32_MIN else d_trunc v)). lia.
  - destruct (d_gt _ _); apply fmt_g_length.
Qed.

Lemma frac_digits_length n x : length (frac_digits n x) = n.
Proof. revert x; induction n as [|n IH]; intros x; [done|]. cbn. rewrite length_app, IH. cbn. lia. Qed.

Lemma escape_byte_length b : (1 <= length (escape_byte b) <= 6)%nat.
Proof. destruct b; cbn; lia. Qed.

Definition short_put (p : list byte) : Prop := (length p <= 60)%nat.

Lemma f64_puts_short short bits : Forall short_put (f64_puts short bits).
Proof.
  unfold f64_puts, short_put. destruct short; [constructor; [apply f64_shortest_length|constructor]|].
  destruct (f64_parts _) as [[[neg ip] fr]|]; [|repeat constructor; cbn; lia].
  pose proof (dec_u64_length ip). pose proof (frac_digits_length BB_SERIALIZE_JSON_F64_DECIMALS fr) as Hf.
  destruct neg; repeat (constructor; [first [lia | cbn; lia | rewrite Hf; cbn; lia]|]); constructor.
Qed.

Lemma escapes_short s : Forall short_put (map escape_byte s).
Proof.
  apply Forall_map, Forall_true. intros b. pose proof (escape_byte_length b). unfold short_put. lia.
Qed.

Lemma pre_puts_short l k : Forall short_put (pre_puts l k).
Proof.
  unfold pre_puts. apply Forall_app; split.
  - destruct (have_child l); repeat constructor; unfold short_put; cbn; lia.
  - destruct (is_array l); [constructor|]. constructor; [unfold short_put; cbn; lia|].
    apply Forall_app; split; [apply escapes_short|]. repeat constructor; unfold short_put; cbn; lia.
Qed.

Lemma sib_Forall {A} (P : list byte -> Prop) (ps : bool -> A -> list (list byte)) ch l :
  Forall (fun a => forall c, Forall P (ps c a)) l -> Forall P (sib ps ch l).
Proof.
  intros H. revert ch; induction H as [|a l Ha _ IH]; intros ch; [constructor|].
  cbn [sib]. fold (sib ps). apply Forall_app; split; [apply Ha|apply IH].
Qed.

Lemma val_puts_short short v : Forall short_put (val_puts short v).
Proof.
  assert (Hlit : forall p, (length p <= 21)%nat -> Forall short_put [p]).
  { intros p Hp. apply Forall_singleton. unfold short_put. lia. }
  induction v as [|b|x|x|x|s|vs IH|ms IH] using jval_nested_ind; cbn [val_puts].
  - apply Hlit. cbn. lia.
  - apply Hlit. destruct b; cbn; lia.
  - apply Hlit, dec_i64_len.
  - apply Hlit. pose proof (dec_u64_length x). lia.
  - apply f64_puts_short.
  - unfold str_puts. constructor; [unfold short_put; cbn; lia|].
    apply Forall_app; split; [apply escapes_short|]. apply Hlit. cbn. lia.
  - constructor; [unfold short_put; cbn; lia|]. apply Forall_app; split; [|apply Hlit; cbn; lia].
    apply sib_Forall. eapply Forall_impl; [exact IH|]. intros v Hv c. apply Forall_app; split; [apply pre_puts_short|done].
  - constructor; [unfold short_put; cbn; lia|]. apply Forall_app; split; [|apply Hlit; cbn; lia].
    apply sib_Forall. eapply Forall_impl; [exact IH|]. intros m Hv c. apply Forall_app; split; [apply pre_puts_short|done].
Qed.

(** * The sizing bound is enough *)

(** The bound in unbounded integers, [None] for unbounded: what the [size_t]
    computation gives when nothing wraps. *)
Section Ideal.
Context (tables : nat -> list field).

Definition ideal_str (max_len : nat) : option Z :=
  if (max_len =? 0)%nat then None else Some (6 * Z.of_nat max_len + 2).
Definition ideal_obj (sub : option (nat -> option Z)) (f : field) : option Z :=
  match sub with None => Some 2 | Some bound => Z.add 2 <$> bound (f_children f) end.
Definition ideal_value (sub : option (nat -> option Z)) (f : field) : option Z :=
  match f_type f with
  | BB_TYPE_I64 | BB_TYPE_U64 => Some 20
  | BB_TYPE_F64 => Some 30
  | BB_TYPE_BOOL => Some 5
  | BB_TYPE_STR | BB_TYPE_STR_N => ideal_str (f_max_len f)
  | BB_TYPE_OBJ => ideal_obj sub f
  | BB_TYPE_ARR =>
      match f_cardinality f with
      | BB_ARR_STREAM => None
      | BB_ARR_FIXED =>
          if (f_max_items f =? 0)%nat then None else
          eb ← (if decide (f_elem_type f = BB_TYPE_STR) then ideal_str (f_max_len f) else ideal_obj sub f);
          Some (2 + Z.of_nat (f_max_items f) * (eb + 1))
      end
  | BB_TYPE_REF => None
  end.
Definition ideal_field (sub : option (nat -> option Z)) (f : field) : option Z :=
  v ← ideal_value sub f; Some (6 * key_len f + 3 + v + 1).
Fixpoint ideal_loop (sub : option (nat -> option Z)) (fs : list field) : option Z :=
  match fs with
  | [] => Some 0
  | f :: rest => c ← ideal_field sub f; r ← ideal_loop sub rest; Some (c + r)
  end.
Fixpoint ideal_fields (rem : nat) (fields : nat) : option Z :=
  let sub := match rem with O => None | S rem' => Some (ideal_fields rem') end in
  ideal_loop sub (tables fields).
End Ideal.

Section BoundExact.
Context (ptr_size : nat) (tables : nat -> list field).
Context (Hptr : (2 <= ptr_size)%nat).
Abbreviation smax := (size_max ptr_size).
Abbreviation sz := (size_t ptr_size).

Lemma size_max_big : 65535 <= smax.
Proof.
  unfold size_max. enough (2 ^ 16 <= 2 ^ (8 * Z.of_nat ptr_size)) by lia.
  apply Z.pow_le_mono_r; lia.
Qed.

Lemma sz_small z : 0 <= z < smax -> sz z = z.
Proof. intros. unfold size_t. apply Z.mod_small. unfold size_max in *. lia. Qed.

(** [c] is computed exactly as soon as its ideal value is below the maximum. *)
Definition exact (c : Z) (i : option Z) : Prop := forall z, i = Some z -> 0 <= z /\ (z < smax -> c = z).

Lemma exact_const k : 0 <= k -> exact k (Some k).
Proof. by intros Hk z [= <-]. Qed.

Lemma exact_str n : exact (str_bound ptr_size n) (ideal_str n).
Proof.
  intros z. unfold ideal_str, str_bound. destruct (n =? 0)%nat; [done|]. intros [= <-].
  split; [lia|]. intros. apply sz_small. lia.
Qed.

Definition exact_sub (sub : option (nat -> Z)) (isub : option (nat -> option Z)) : Prop :=
  match sub, isub with
  | Some b, Some i => forall t, exact (b t) (i t)
  | None, None => True
  | _, _ => False
  end.

Lemma exact_obj sub isub f : exact_sub sub isub -> exact (obj_bound ptr_size sub f) (ideal_obj isub f).
Proof.
  destruct sub as [b|], isub as [i|]; try done; intros Hs z; unfold obj_bound, ideal_obj.
  - destruct (i (f_children f)) as [c|] eqn:Ei; [|done]. intros [= <-].
    destruct (Hs (f_children f) c Ei) as [Hc0 Hc]. split; [lia|]. intros Hlt.
    rewrite Hc by lia. destruct (Z.eqb_spec c smax); [lia|]. apply sz_small. lia.
  - intros [= <-]. split; [lia|done].
Qed.

Lemma exact_value sub isub f : exact_sub sub isub -> exact (bb_json_bound_value ptr_size sub f) (ideal_value isub f).
Proof.
  intros Hs. unfold bb_json_bound_value, ideal_value.
  destruct (f_type f); try (by apply exact_const); try apply exact_str; [by apply exact_obj| |by intros z].
  destruct (f_cardinality f); [|by intros z]. destruct (Nat.eqb_spec (f_max_items f) 0) as [|Hn0]; [by intros z|].
  assert (He : exact (bb_json_bound_elem ptr_size sub f)
            (if decide (f_elem_type f = BB_TYPE_STR) then ideal_str (f_max_len f) else ideal_obj isub f)).
  { unfold bb_json_bound_elem. case_decide; [apply exact_str|by apply exact_obj]. }
  intros z. destruct (if decide (f_elem_type f = BB_TYPE_STR) then _ else _) as [eb|]; [|done].
  cbn. intros [= <-]. destruct (He eb eq_refl) as [He0 He1]. split; [nia|]. intros Hlt.
  rewrite He1 by nia. destruct (Z.eqb_spec eb smax); [nia|]. apply sz_small. nia.
Qed.

Lemma exact_field sub isub f : exact_sub sub isub -> exact (bb_json_bound_field ptr_size sub f) (ideal_field isub f).
Proof.
  intros Hs z. unfold bb_json_bound_field, ideal_field.
  pose proof (exact_value sub isub f Hs) as Hv.
  destruct (ideal_value isub f) as [v|]; [|done]. cbn. intros [= <-].
  destruct (Hv v eq_refl) as [Hv0 Hv1]. assert (0 <= key_len f) by (unfold key_len; lia).
  split; [lia|]. intros Hlt. rewrite Hv1 by lia. destruct (Z.eqb_spec v smax); [lia|]. apply sz_small. lia.
Qed.

Lemma exact_loop sub isub fs total z :
  exact_sub sub isub -> ideal_loop isub fs = Some z -> 0 <= total ->
  0 <= z /\ (total + z < smax -> bound_loop ptr_size sub fs total = total + z).
Proof.
  intros Hs. revert total z; induction fs as [|f fs IH]; intros total z; cbn [ideal_loop bound_loop].
  - intros [= <-] Ht. split; [lia|]. intros. lia.
  - pose proof (exact_field sub isub f Hs) as Hf. destruct (ideal_field isub f) as [c|]; [|done].
    destruct (ideal_loop isub fs) as [r|]; [|done]. cbn. intros [= <-] Ht.
    destruct (Hf c eq_refl) as [Hc0 Hc1].
    destruct (IH (total + c) r eq_refl ltac:(lia)) as [Hr0 Hr1]. split; [lia|]. intros Hlt.
    rewrite Hc1 by lia. destruct (Z.eqb_spec c smax); [lia|]. rewrite sz_small by lia.
    rewrite Hr1 by lia. lia.
Qed.

Lemma exact_fields rem t : exact (bb_json_bound_fields ptr_size tables rem t) (ideal_fields tables rem t).
Proof.
  revert t; induction rem as [|rem IH]; intros t z Hz; cbn [bb_json_bound_fields ideal_fields] in *.
  - destruct (exact_loop None None (tables t) 0 z I Hz ltac:(lia)) as [H1 H2]. split; [done|]. by rewrite Z.add_0_l in H2.
  - destruct (exact_loop (Some (bb_json_bound_fields ptr_size tables rem)) (Some (ideal_fields tables rem))
                (tables t) 0 z IH Hz ltac:(lia)) as [H1 H2].
    split; [done|]. by rewrite Z.add_0_l in H2.
Qed.
End BoundExact.

(** ** Lengths of texts *)

Lemma print_chars_length s : (length (print_chars s) <= 6 * length s)%nat.
Proof.
  unfold print_chars. induction s as [|b s IH]; [cbn; lia|]. cbn [map concat length].
  rewrite length_app. pose proof (escape_byte_length b). lia.
Qed.
Lemma print_str_length s : (length (print_str s) <= 6 * length s + 2)%nat.
Proof.
  unfold print_str. cbn [length]. rewrite length_app. cbn [length]. pose proof (print_chars_length s). lia.
Qed.
Lemma print_key_length k : (length (print_key k) <= 6 * length (default [] k) + 3)%nat.
Proof. unfold print_key. rewrite length_app. cbn [length]. pose proof (print_str_length (default [] k)). lia. Qed.

(** Every piece of a join with its comma. *)
Definition joined (ps : list (list byte)) : nat := list_sum (map (fun p => S (length p)) ps).
Lemma joined_cons p ps : joined (p :: ps) = (S (length p) + joined ps)%nat.
Proof. done. Qed.
Lemma join_length ps : (length (join ps) <= joined ps)%nat.
Proof.
  destruct ps as [|p ps]; [done|]. rewrite joined_cons. unfold join. rewrite length_app.
  assert (length (concat (map (cons x2c) ps)) = joined ps) as ->; [|lia].
  induction ps as [|q ps IH]; [done|]. rewrite joined_cons. cbn [map concat]. by rewrite length_app, IH.
Qed.
Lemma joined_app ps qs : joined (ps ++ qs) = (joined ps + joined qs)%nat.
Proof. unfold joined. by rewrite map_app, list_sum_app. Qed.
Lemma joined_bound ps n : Forall (fun p => length p <= n)%nat ps -> (joined ps <= length ps * (n + 1))%nat.
Proof.
  induction 1 as [|p ps Hp _ IH]; [done|]. rewrite joined_cons. cbn [length]. lia.
Qed.

Lemma print_f64_fixed_length bits : (length (print_f64 false bits) <= 28)%nat.
Proof.
  unfold print_f64, f64_puts. destruct (f64_parts _) as [[[neg ip] fr]|]; [|cbn; lia].
  pose proof (dec_u64_length ip). rewrite concat_app, length_app. cbn [concat].
  rewrite !length_app, frac_digits_length. unfold BB_SERIALIZE_JSON_F64_DECIMALS.
  destruct neg; cbn [length concat app]; lia.
Qed.

(** ** Conforming snapshots *)

Lemma concat_map_singleton {A B} (g : A -> list B) (h : A -> B) l :
  (forall a, g a = [h a]) -> concat (map g l) = map h l.
Proof. intros H. induction l as [|a l IH]; [done|]. cbn. by rewrite H, IH. Qed.

Section Conform.
Context (ptr_size : nat) (tables : nat -> list field) (iter_rows : Z -> Z -> mem -> list snap).
Context (resolve : option bb_serialize_ref_resolve_fn).

(** What the sizing metadata of a descriptor promises of a snapshot: a
    [STR_N] is no longer than [max_len], an array of strings or objects has no
    more than [max_items] elements, and so on down the tree. *)
Definition conforms_field (sub : option (nat -> snap -> Prop)) (s : snap) (f : field) : Prop :=
  let p := snap_plus s (f_offset f) in
  match f_type f with
  | BB_TYPE_STR_N => rd_word ptr_size p 0 = 0 \/ rd_word ptr_size p 1 <= Z.of_nat (f_max_len f)
  | BB_TYPE_OBJ => match sub with Some conf => conf (f_children f) p | None => True end
  | BB_TYPE_ARR =>
      rd_word ptr_size p 1 <= Z.of_nat (f_max_items f) /\
      (f_elem_type f = BB_TYPE_STR \/ f_elem_type f = BB_TYPE_OBJ /\
       forall j, match sub with
                 | Some conf => conf (f_children f)
                     (snap_plus (mk_snap (s_mem p) (rd_word ptr_size p 0)) (Z.of_nat j * f_elem_size f))
                 | None => True
                 end)
  | _ => True
  end.
Fixpoint conforms (rem : nat) (t : nat) (s : snap) : Prop :=
  Forall (conforms_field (match rem with O => None | S rem' => Some (conforms rem') end) s) (tables t).

Definition member_text (m : key_t * jval) : list byte := print_key m.1 ++ print_val false m.2.
Definition members_size (ms : list (key_t * jval)) : nat := joined (map member_text ms).

Lemma obj_text_length ms : (length (print_val false (JObj ms)) <= members_size ms + 2)%nat.
Proof.
  cbn [print_val length]. rewrite length_app. cbn [length].
  pose proof (join_length (map member_text ms)) as H. unfold members_size. unfold member_text in *. lia.
Qed.
Lemma arr_text_length vs n :
  Forall (fun v => length (print_val false v) <= n)%nat vs ->
  (length (print_val false (JArr vs)) <= 2 + length vs * (n + 1))%nat.
Proof.
  intros H. cbn [print_val length]. rewrite length_app. cbn [length].
  pose proof (join_length (map (print_val false) vs)) as H1.
  pose proof (joined_bound (map (print_val false) vs) n) as H2. rewrite length_map in H2.
  specialize (H2 ltac:(by apply Forall_map)). lia.
Qed.

(** [v] fits in an ideal bound. *)
Definition fits (v : jval) (b : Z) : Prop := Z.of_nat (length (print_val false v)) <= b.

Definition sub_fits (sub : option (nat -> snap -> list (key_t * jval))) (isub : option (nat -> option Z))
    (csub : option (nat -> snap -> Prop)) : Prop :=
  match sub, isub, csub with
  | Some val, Some i, Some conf =>
      (forall t z, i t = Some z -> 0 <= z) /\
      forall t s z, conf t s -> i t = Some z -> Z.of_nat (members_size (val t s)) <= z
  | None, None, None => True
  | _, _, _ => False
  end.

Lemma obj_fits val i conf t s z :
  sub_fits (Some val) (Some i) (Some conf) -> conf t s -> i t = Some z -> fits (JObj (val t s)) (2 + z).
Proof.
  intros Hs Hc Hi. unfold fits. pose proof (obj_text_length (val t s)). apply proj2 in Hs. specialize (Hs t s z Hc Hi). lia.
Qed.

Lemma str_fits s n z : (length s <= n)%nat -> ideal_str n = Some z -> fits (JStr s) z.
Proof.
  unfold ideal_str, fits. intros Hl. destruct (Nat.eqb_spec n 0); [done|]. intros [= <-].
  cbn [print_val]. pose proof (print_str_length s). lia.
Qed.

Lemma null_fits n z : ideal_str n = Some z -> fits JNull z.
Proof.
  unfold ideal_str, fits. destruct (Nat.eqb_spec n 0); [done|]. intros [= <-]. cbn. lia.
Qed.

Lemma array_fits sub isub csub f p z :
  sub_fits sub isub csub -> f_cardinality f = BB_ARR_FIXED ->
  rd_word ptr_size p 1 <= Z.of_nat (f_max_items f) ->
  (f_elem_type f = BB_TYPE_STR \/ f_elem_type f = BB_TYPE_OBJ /\
       forall j, match csub with
                 | Some conf => conf (f_children f)
                     (snap_plus (mk_snap (s_mem p) (rd_word ptr_size p 0)) (Z.of_nat j * f_elem_size f))
                 | None => True
                 end) ->
  (if decide (f_elem_type f = BB_TYPE_STR) then ideal_str (f_max_len f) else ideal_obj isub f) = Some z ->
  fits (JArr (array_value ptr_size iter_rows sub p f)) (2 + Z.of_nat (f_max_items f) * (z + 1)).
Proof.
  intros Hs Hcard Hcount Hel Hz.
  assert (Hall : Forall (fun v => length (print_val false v) <= Z.to_nat z)%nat (array_value ptr_size iter_rows sub p f)
            /\ (length (array_value ptr_size iter_rows sub p f) <= f_max_items f)%nat).
  { unfold array_value. rewrite Hcard. cbv zeta. cbn [s_addr].
    destruct (rd_word ptr_size p 0 =? 0); [split; [constructor|cbn; lia]|].
    destruct Hel as [He|[He Hel]].
    - rewrite decide_False by congruence. rewrite decide_True in Hz by done.
      rewrite (concat_map_singleton _ (fun j => if rd_word ptr_size (snap_plus (mk_snap (s_mem p) (rd_word ptr_size p 0))
          (Z.of_nat (j * ptr_size))) 0 =? 0 then JNull else JStr (rd_str (mk_snap (s_mem p)
          (rd_word ptr_size (snap_plus (mk_snap (s_mem p) (rd_word ptr_size p 0)) (Z.of_nat (j * ptr_size))) 0))
          (f_max_len f)))) by (intros j; unfold elem_value; by rewrite He).
      split; [|rewrite length_map, length_seq; lia].
      apply Forall_map, Forall_true. intros j.
      assert (Hf : forall v, fits v z -> (length (print_val false v) <= Z.to_nat z)%nat) by (unfold fits; lia).
      apply Hf. destruct (_ =? 0); [by eapply null_fits|]. eapply str_fits; [|done]. apply strn_length.
    - rewrite decide_True by done. rewrite decide_False in Hz by congruence.
      destruct sub as [val|], isub as [i|], csub as [conf|]; try done; [|split; [constructor|cbn; lia]].
      split; [|rewrite length_map, length_seq; lia].
      unfold ideal_obj in Hz. destruct (i (f_children f)) as [c|] eqn:Ei; [|done]. injection Hz as <-.
      apply Forall_map, Forall_true. intros j. pose proof (obj_fits _ _ _ _ _ _ Hs (Hel j) Ei) as Hf.
      unfold fits in Hf. lia. }
  destruct Hall as [Hall Hlen]. apply arr_text_length in Hall. unfold fits.
  assert (0 <= z).
  { destruct Hel as [He|[He _]]; [rewrite decide_True in Hz by done|rewrite decide_False in Hz by congruence].
    - unfold ideal_str in Hz. destruct (_ =? 0)%nat; [done|]. injection Hz as <-. lia.
    - unfold ideal_obj in Hz. destruct isub as [i|]; [|by injection Hz as <-].
      destruct sub as [val|], csub as [conf|]; try done. destruct (i (f_children f)) as [c|] eqn:Ei; [|done].
      injection Hz as <-. pose proof (proj1 Hs _ _ Ei). lia. }
  nia.
Qed.

Lemma member_size k v z : fits v z ->
  Z.of_nat (members_size [(k, v)]) <= 6 * Z.of_nat (length (default [] k)) + 3 + z + 1.
Proof.
  unfold fits, members_size. intros H. cbn [map]. rewrite joined_cons. unfold member_text. cbn [fst snd].
  rewrite length_app. pose proof (print_key_length k). change (joined []) with 0%nat. lia.
Qed.

Lemma i64_fits p : fits (JI64 (rd_i64 p)) 20.
Proof.
  unfold fits, rd_i64, mread_u. cbn [print_val].
  pose proof (le_value_range (mread (s_mem p) (s_addr p) 8)) as H. rewrite mread_length in H.
  pose proof (to_signed_range 64 _ ltac:(lia) H) as Hr.
  pose proof (dec_i64_length _ Hr). lia.
Qed.

Lemma ideal_value_nonneg isub f v :
  (forall i t z, isub = Some i -> i t = Some z -> 0 <= z) -> ideal_value isub f = Some v -> 0 <= v.
Proof.
  intros Hi. assert (Hstr : forall n z, ideal_str n = Some z -> 0 <= z).
  { unfold ideal_str. intros n z. destruct (_ =? 0)%nat; [done|]. intros [= <-]. lia. }
  assert (Hobj : forall z, ideal_obj isub f = Some z -> 0 <= z).
  { unfold ideal_obj. intros z. destruct isub as [i|]; [|intros [= <-]; lia].
    destruct (i (f_children f)) as [c|] eqn:Ei; [|done]. intros [= <-]. pose proof (Hi i _ _ eq_refl Ei). lia. }
  unfold ideal_value. destruct (f_type f); try (intros [= <-]; lia); try apply Hstr; try apply Hobj; try done.
  destruct (f_cardinality f); [|done]. destruct (_ =? 0)%nat; [done|].
  destruct (if decide (f_elem_type f = BB_TYPE_STR) then _ else _) as [eb|] eqn:Eb; [|done]. intros [= <-].
  assert (0 <= eb) by (case_decide; [by eapply Hstr|by apply Hobj]). nia.
Qed.

Lemma value_fits sub isub csub s f v :
  sub_fits sub isub csub -> conforms_field csub s f -> ideal_value isub f = Some v ->
  match field_value ptr_size iter_rows resolve sub s f with
  | [] => True
  | [(k, x)] => k = f_key f /\ fits x v
  | _ => False
  end.
Proof.
  intros Hs Hc Hv. unfold field_value, conforms_field, ideal_value in *.
  destruct (match f_present f with Some _ => _ | None => _ end); [done|].
  set (p := snap_plus s (f_offset f)) in *. cbv zeta in *.
  destruct (f_type f); cbv iota in *.
  - injection Hv as <-. split; [done|apply i64_fits].
  - injection Hv as <-. split; [done|]. unfold fits. cbn [print_val]. pose proof (dec_u64_length (rd_u64 p)). lia.
  - injection Hv as <-. split; [done|]. unfold fits. cbn [print_val].
    pose proof (print_f64_fixed_length (rd_f64 p)). lia.
  - injection Hv as <-. split; [done|]. unfold fits. destruct (rd_bool p); cbn; lia.
  - split; [done|]. eapply str_fits; [|done]. apply strn_length.
  - split; [done|]. destruct (Z.eqb_spec (rd_word ptr_size p 0) 0); [by eapply null_fits|].
    eapply str_fits; [|done]. rewrite mread_length. destruct Hc as [?|Hc]; [done|lia].
  - destruct sub as [val|], isub as [i|], csub as [conf|]; try done. split; [done|]. cbn in Hv.
    destruct (i (f_children f)) as [c|] eqn:Ei; [|done]. injection Hv as <-. by eapply obj_fits.
  - split; [done|]. destruct (f_cardinality f) eqn:Ecard; [|done]. destruct (f_max_items f =? 0)%nat; [done|].
    destruct (if decide (f_elem_type f = BB_TYPE_STR) then _ else _) as [eb|] eqn:Eb; [|done].
    injection Hv as <-. destruct Hc as [Hc1 Hc2]. by eapply array_fits.
  - done.
Qed.

Lemma field_fits sub isub csub s f z :
  sub_fits sub isub csub -> conforms_field csub s f -> ideal_field isub f = Some z ->
  Z.of_nat (members_size (field_value ptr_size iter_rows resolve sub s f)) <= z.
Proof.
  intros Hs Hc. unfold ideal_field. destruct (ideal_value isub f) as [v|] eqn:Ev; [|done].
  cbn. intros [= <-]. pose proof (value_fits _ _ _ _ _ _ Hs Hc Ev) as H.
  assert (0 <= v).
  { eapply ideal_value_nonneg; [|done]. intros i t z -> Hi. destruct sub, csub; try done. by eapply (proj1 Hs). }
  assert (0 <= key_len f) by (unfold key_len; lia).
  destruct (field_value _ _ _ _ _ _) as [|[k x] [|]]; [cbn; lia| |done].
  destruct H as [-> H]. unfold key_len. by apply member_size.
Qed.

Lemma members_size_app ms ms' : members_size (ms ++ ms') = (members_size ms + members_size ms')%nat.
Proof. unfold members_size. by rewrite map_app, joined_app. Qed.

Lemma loop_fits sub isub csub s fs z :
  sub_fits sub isub csub -> Forall (conforms_field csub s) fs -> ideal_loop isub fs = Some z ->
  Z.of_nat (members_size (concat (map (field_value ptr_size iter_rows resolve sub s) fs))) <= z.
Proof.
  intros Hs Hc. revert z; induction Hc as [|f fs Hf _ IH]; intros z; cbn [ideal_loop map concat].
  - intros [= <-]. done.
  - destruct (ideal_field isub f) as [c|] eqn:Ef; [|done]. destruct (ideal_loop isub fs) as [r|]; [|done].
    cbn. intros [= <-]. rewrite members_size_app. pose proof (field_fits _ _ _ _ _ _ Hs Hf Ef). specialize (IH r eq_refl). lia.
Qed.

Lemma ideal_fields_nonneg rem t z : ideal_fields tables rem t = Some z -> 0 <= z.
Proof. intros H. exact (proj1 (exact_fields 8 tables ltac:(lia) rem t z H)). Qed.

Lemma fields_fit rem t s z :
  conforms rem t s -> ideal_fields tables rem t = Some z ->
  Z.of_nat (members_size (fields_value ptr_size tables iter_rows resolve rem t s)) <= z.
Proof.
  revert t s z; induction rem as [|rem IH]; intros t s z Hc Hz; cbn [fields_value conforms ideal_fields] in *.
  - by apply (loop_fits None None None s (tables t)).
  - apply (loop_fits (Some (fields_value ptr_size tables iter_rows resolve rem)) (Some (ideal_fields tables rem))
      (Some (conforms rem)) s (tables t)); [|done|done].
    split; [apply ideal_fields_nonneg|done].
Qed.
End Conform.

(** * Rendering a document *)

Section RenderText.
Context (ptr_size : nat) (tables : nat -> list field) (iter_rows : Z -> Z -> mem -> list snap).

(** The members the walk emits: none when a pointer is NULL. *)
Definition doc_members (resolve : option bb_serialize_ref_resolve_fn) (desc : option serialize_desc)
    (s : option snap) : list (key_t * jval) :=
  match desc, s with
  | Some d, Some sn => document ptr_size tables iter_rows resolve d sn
  | _, _ => []
  end.
(** The text of the whole document. *)
Definition doc_text (resolve : option bb_serialize_ref_resolve_fn) (desc : option serialize_desc)
    (s : option snap) (short : bool) : list byte :=
  print_val short (JObj (doc_members resolve desc s)).
Definition doc_puts resolve desc s short : list (list byte) := val_puts short (JObj (doc_members resolve desc s)).

Lemma walk_members {C} (E : emit_vtable C) resolve desc s c :
  bb_serialize_walk ptr_size tables iter_rows resolve desc s (Some E) c =
  emit_members E (doc_members resolve desc s) c.
Proof. destruct desc as [d|], s as [sn|]; try done. apply walk_fields_value. Qed.

Lemma doc_members_depth resolve desc s :
  members_depth (2 * BB_SERIALIZE_MAX_DEPTH + 1) (doc_members resolve desc s).
Proof. destruct desc as [d|], s as [sn|]; try constructor. apply fields_value_depth. Qed.

Lemma init_sim junk cap f sh :
  let c := set_f64_shortest sh (match f with
             | Some fl => bind_flush fl (bb_serialize_json_ctx_init junk cap)
             | None => bb_serialize_json_ctx_init junk cap end) in
  sim sh c (mk_out [] cap BB_OK f []) [mk_level false false].
Proof.
  destruct f; (split_and!; [done|done|]); intros _; (split_and!; [done| |unfold STACK_SIZE; cbn; lia|done]);
    cbn [jc_stack set_f64_shortest bind_flush bb_serialize_json_ctx_init length];
    by rewrite length_map, length_seq.
Qed.

Lemma render_sim junk cap f sh resolve desc s :
  let c := set_f64_shortest sh (match f with
             | Some fl => bind_flush fl (bb_serialize_json_ctx_init junk cap)
             | None => bb_serialize_json_ctx_init junk cap end) in
  jc_out (bb_json_putc x7d (bb_serialize_walk ptr_size tables iter_rows resolve desc s
            (Some bb_serialize_json_emit) (bb_json_putc x7b c))) =
  puts (doc_puts resolve desc s sh) (mk_out [] cap BB_OK f []).
Proof.
  intros c. rewrite walk_members. pose proof (sim_put sh _ _ _ [x7b] (init_sim junk cap f sh)) as H. fold c in H.
  destruct (sim_members sh _ _ _ false (doc_members_depth resolve desc s) H) as [ch H1].
  apply (sim_put sh _ _ _ [x7d]) in H1 as [H1 _].
  unfold doc_puts. cbn [val_puts]. rewrite puts_cons, puts_app. exact H1.
Qed.

Lemma render_text junk cap resolve desc s sh :
  let text := doc_text resolve desc s sh in
  bb_serialize_json_render ptr_size tables iter_rows junk desc s cap resolve sh =
  if (length text <? cap)%nat then (BB_OK, text) else (BB_ERR_NO_SPACE, []).
Proof.
  intros text. unfold bb_serialize_json_render, bb_json_render_impl.
  destruct (Nat.eqb_spec cap 0) as [->|Hc]; [done|]. cbv zeta.
  rewrite (render_sim junk (cap - 1) None sh resolve desc s).
  pose proof (puts_bounded (doc_puts resolve desc s sh) (mk_out [] (cap - 1) BB_OK None []) eq_refl eq_refl
                (Nat.le_0_l _)) as H. unfold doc_puts in *. rewrite val_puts_text in H.
  change (print_val sh _) with text in H.
  cbn [ob_buf ob_cap length Nat.add] in H.
  destruct (Nat.leb_spec (length text) (cap - 1)), (Nat.ltb_spec (length text) cap); try lia; cbv iota in H.
  - by rewrite H.
  - by rewrite H.
Qed.

Lemma stream_init failed cap : stream_inv failed cap [] (mk_out [] cap BB_OK (Some failed) []).
Proof. constructor; cbn; try done; [lia|]. by constructor; [|intros i Hi; cbn in Hi; lia]. Qed.

Lemma stream_text failed cap ps :
  Forall short_put ps -> (60 <= cap)%nat ->
  stream_inv failed cap (concat ps) (json_flush (puts ps (mk_out [] cap BB_OK (Some failed) []))) /\
  (ob_err (json_flush (puts ps (mk_out [] cap BB_OK (Some failed) []))) = BB_OK ->
   ob_buf (json_flush (puts ps (mk_out [] cap BB_OK (Some failed) []))) = []).
Proof.
  intros Hps Hcap. apply flush_stream. apply (puts_stream failed cap ps []); [|apply stream_init].
  eapply Forall_impl; [exact Hps|]. unfold short_put. lia.
Qed.
End RenderText.

(** What the caller of a chunked render sees: the whole text, or the flag went
    up right after the last chunk it received. *)
Definition delivered (failed : list (list byte) -> bool) (text : list byte) (r : bb_err * list (list byte)) : Prop :=
  Forall (chunk_ok BB_SERIALIZE_JSON_STREAM_FLUSH_BUF_BYTES) r.2 /\
  ((r.1 = BB_OK /\ concat r.2 = text /\ not_failed failed r.2 (length r.2)) \/
   (r.1 = BB_ERR_INVALID_STATE /\ r.2 <> [] /\ failed r.2 = true /\
    not_failed failed r.2 (length r.2 - 1) /\ concat r.2 `prefix_of` text)).

Lemma render_stream_text ptr_size tables iter_rows junk desc s failed short :
  delivered failed (print_val short (JObj (doc_members ptr_size tables iter_rows None desc s)))
    (bb_serialize_json_stream_render ptr_size tables iter_rows junk desc s failed short).
Proof.
  unfold bb_serialize_json_stream_render. cbv zeta. cbn [bb_json_flush jc_out].
  pose proof (render_sim ptr_size tables iter_rows junk BB_SERIALIZE_JSON_STREAM_FLUSH_BUF_BYTES (Some failed)
                short None desc s) as H. cbv zeta in H. rewrite H.
  destruct (stream_text failed BB_SERIALIZE_JSON_STREAM_FLUSH_BUF_BYTES
    (doc_puts ptr_size tables iter_rows None desc s short) (val_puts_short _ _)
    ltac:(unfold BB_SERIALIZE_JSON_STREAM_FLUSH_BUF_BYTES; lia)) as [[_ _ _ Hch Hd] Hbuf].
  unfold doc_puts in *. rewrite val_puts_text in Hd. split; [exact Hch|]. cbn [fst snd].
  set (o := json_flush _) in *. destruct Hd as [out buf Ht Hn|out ch buf Hf Hn Hp].
  - left. split; [done|]. split; [|done]. by rewrite <- Ht, Hbuf, app_nil_r.
  - right. split_and!; try done; [by destruct out|].
    rewrite length_app. cbn. by replace (length out + 1 - 1)%nat with (length out) by lia.
Qed.

(** * Properties *)

(** C3: rendering into a buffer.  For every descriptor, snapshot and resolver
    (circular ones included) and every double format the call returns BB_OK with
    exactly the JSON text of the walked document when the text and its NUL fit
    the buffer, and BB_ERR_NO_SPACE with an empty string otherwise; nothing
    else happens, whatever the uninitialised part of the level stack held. *)
Theorem json_render_correct ptr_size tables iter_rows junk desc s cap resolve short :
  let text := print_val short (JObj (doc_members ptr_size tables iter_rows resolve desc s)) in
  bb_serialize_json_render ptr_size tables iter_rows junk desc s cap resolve short =
  if (length text <? cap)%nat then (BB_OK, text) else (BB_ERR_NO_SPACE, []).
Proof. apply render_text. Qed.

(** C4: chunked rendering.  The sink receives non-empty chunks of at most the
    flush buffer's size.  While the abort flag stays down their concatenation
    is exactly the text a sufficiently large buffer would hold, and the call
    returns BB_OK; when the flag is seen up after a flush, the call returns
    BB_ERR_INVALID_STATE, no further chunk is sent, and what was sent is a
    prefix of the text. *)
Theorem stream_render_correct ptr_size tables iter_rows junk desc s failed short :
  delivered failed (print_val short (JObj (doc_members ptr_size tables iter_rows None desc s)))
    (bb_serialize_json_stream_render ptr_size tables iter_rows junk desc s failed short).
Proof. apply render_stream_text. Qed.


Definition wit_tables (n : nat) : list field :=
  match n with
  | 1%nat => [ex_field "n" BB_TYPE_U64 0; ex_field "s" BB_TYPE_STR 16]
  | 2%nat => [mk_field (Some (bs "xs")) BB_TYPE_ARR 24 None 0 0 2 BB_TYPE_I64 0 BB_ARR_FIXED []]
  | _ => []
  end.
Definition wit_junk (_ : nat) : json_level := mk_level true true.


(** For an array of scalars the bound is not enough.  [bb_json_bound_elem]
    sizes every element that is not a string as an object of the field's
    (empty) children, two bytes; the two-element array of INT64_MIN below
    respects [max_items] and does not fit the buffer the bound asks for. *)
Theorem json_bound_short_for_scalar_arrays :
  exists desc s bound,
    bb_serialize_json_bound 8 wit_tables (Some desc) = bound /\ bound < size_max 8 /\
    document 8 wit_tables no_rows None desc s =
      [(Some (bs "xs"), JArr [JI64 (- 2 ^ 63); JI64 (- 2 ^ 63)])] /\
    Forall (fun f => rd_word 8 (snap_plus s (f_offset f)) 1 <= Z.of_nat (f_max_items f)) (wit_tables 2) /\
    bb_serialize_json_render 8 wit_tables no_rows wit_junk (Some desc) (Some s) (Z.to_nat bound) None false =
      (BB_ERR_NO_SPACE, []).
Proof.
  exists (mk_sdesc (bs "w") 2 40),
    (mk_snap (mem_of 4096 (repeat x00 24 ++ le_bytes 8 4136 ++ le_bytes 8 2 ++
                le_bytes 8 (2 ^ 63) ++ le_bytes 8 (2 ^ 63))) 4096), 27.
  split; [vm_compute; reflexivity|]. split; [vm_compute; reflexivity|].
  split; [vm_compute; reflexivity|]. split; [|vm_compute; reflexivity].
  constructor; [vm_compute; discriminate|constructor].
Qed.
