(* ===== verification/JsonScan.v ===== *)
(** The streaming JSON scanner and its ingest vtable:
    components/bb_serialize_json/src/bb_serialize_json_scan.c. *)
From Stdlib Require Import Strings.String.
From S2P Require Import Prelude Bytes Num Float Walk JsonWrite.

(** * The ingest vtable (bb_serialize_json.h) *)

Inductive span_provenance : Set :=
  | SPAN_CALLER_STABLE | SPAN_CALLER_FEED_SCOPED | SPAN_SCANNER_SCRATCH.

(** A sink: each callback returns a code and the sink's new state. *)
Record ingest (K : Type) := mk_ingest {
  ig_begin_obj : key_t -> K -> bb_err * K;
  ig_end_obj : K -> bb_err * K;
  ig_begin_arr : key_t -> K -> bb_err * K;
  ig_end_arr : K -> bb_err * K;
  ig_value_num : key_t -> list byte -> K -> bb_err * K;
  ig_value_bool : key_t -> bool -> K -> bb_err * K;
  ig_value_null : key_t -> K -> bb_err * K;
  ig_value_str_chunk : key_t -> list byte -> bool -> span_provenance -> K -> bb_err * K
}.
Arguments mk_ingest {K}. Arguments ig_begin_obj {K}. Arguments ig_end_obj {K}.
Arguments ig_begin_arr {K}. Arguments ig_end_arr {K}. Arguments ig_value_num {K}.
Arguments ig_value_bool {K}. Arguments ig_value_null {K}. Arguments ig_value_str_chunk {K}.

(** * Scanner state *)

Inductive phase_t : Set :=
  | PH_ROOT | PH_AFTER_ROOT | PH_OBJ_KEY_OR_CLOSE | PH_OBJ_KEY_ONLY | PH_KEY_STR | PH_OBJ_COLON
  | PH_OBJ_VALUE | PH_OBJ_AFTER_VALUE | PH_ARR_ELEM_OR_CLOSE | PH_ARR_ELEM_ONLY
  | PH_ARR_AFTER_VALUE | PH_VAL_STR | PH_VAL_NUM | PH_VAL_LIT.
Inductive num_phase_t : Set :=
  | NUM_START | NUM_INT_DIGITS | NUM_FRAC_START | NUM_FRAC_DIGITS | NUM_EXP_START | NUM_EXP_SIGN
  | NUM_EXP_DIGITS.
Inductive lit_kind_t : Set := LIT_TRUE | LIT_FALSE | LIT_NULL.
Inductive esc_phase_t : Set :=
  | ESC_NONE | ESC_BACKSLASH | ESC_U1 | ESC_U2 | ESC_U3 | ESC_U4 | ESC_LOW_BACKSLASH | ESC_LOW_U
  | ESC_LOW_U1 | ESC_LOW_U2 | ESC_LOW_U3 | ESC_LOW_U4.
#[export] Instance phase_eq_dec : EqDecision phase_t.
Proof. solve_decision. Defined.

Definition BB_SERIALIZE_JSON_SCRATCH_MAX_BYTES : nat := 64.

(** [ss_stack] holds [obj_stack[0..depth)], innermost first (true: array);
    [ss_scratch] is [scratch[0..scratch_len)]. *)
Record scan_state := mk_ss {
  ss_phase : phase_t;
  ss_err : bb_err;
  ss_bounded_mode : bool;
  ss_stack : list bool;
  ss_scratch : list byte;
  ss_key_len : nat;
  ss_num_phase : num_phase_t;
  ss_lit_kind : lit_kind_t;
  ss_lit_matched : nat;
  ss_esc_phase : esc_phase_t;
  ss_esc_code_unit : Z;
  ss_esc_high_surrogate : Z
}.

Definition set_phase (p : phase_t) (s : scan_state) : scan_state :=
  mk_ss p (ss_err s) (ss_bounded_mode s) (ss_stack s) (ss_scratch s) (ss_key_len s) (ss_num_phase s)
    (ss_lit_kind s) (ss_lit_matched s) (ss_esc_phase s) (ss_esc_code_unit s) (ss_esc_high_surrogate s).
Definition set_serr (e : bb_err) (s : scan_state) : scan_state :=
  mk_ss (ss_phase s) e (ss_bounded_mode s) (ss_stack s) (ss_scratch s) (ss_key_len s) (ss_num_phase s)
    (ss_lit_kind s) (ss_lit_matched s) (ss_esc_phase s) (ss_esc_code_unit s) (ss_esc_high_surrogate s).
Definition set_stack (st : list bool) (s : scan_state) : scan_state :=
  mk_ss (ss_phase s) (ss_err s) (ss_bounded_mode s) st (ss_scratch s) (ss_key_len s) (ss_num_phase s)
    (ss_lit_kind s) (ss_lit_matched s) (ss_esc_phase s) (ss_esc_code_unit s) (ss_esc_high_surrogate s).
Definition set_scratch (l : list byte) (n : nat) (s : scan_state) : scan_state :=
  mk_ss (ss_phase s) (ss_err s) (ss_bounded_mode s) (ss_stack s) l n (ss_num_phase s)
    (ss_lit_kind s) (ss_lit_matched s) (ss_esc_phase s) (ss_esc_code_unit s) (ss_esc_high_surrogate s).
Definition set_num_phase (p : num_phase_t) (s : scan_state) : scan_state :=
  mk_ss (ss_phase s) (ss_err s) (ss_bounded_mode s) (ss_stack s) (ss_scratch s) (ss_key_len s) p
    (ss_lit_kind s) (ss_lit_matched s) (ss_esc_phase s) (ss_esc_code_unit s) (ss_esc_high_surrogate s).
Definition set_lit (l : lit_kind_t) (n : nat) (s : scan_state) : scan_state :=
  mk_ss (ss_phase s) (ss_err s) (ss_bounded_mode s) (ss_stack s) (ss_scratch s) (ss_key_len s) (ss_num_phase s)
    l n (ss_esc_phase s) (ss_esc_code_unit s) (ss_esc_high_surrogate s).
Definition set_esc (p : esc_phase_t) (cu high : Z) (s : scan_state) : scan_state :=
  mk_ss (ss_phase s) (ss_err s) (ss_bounded_mode s) (ss_stack s) (ss_scratch s) (ss_key_len s) (ss_num_phase s)
    (ss_lit_kind s) (ss_lit_matched s) p cu high.
Definition set_esc_phase (p : esc_phase_t) (s : scan_state) : scan_state :=
  set_esc p (ss_esc_code_unit s) (ss_esc_high_surrogate s) s.

(** * Results: the scan goes on with [Ok], stops with [Err] *)

Inductive sres (K A : Type) : Type :=
  | Err (e : bb_err) (k : K)
  | Ok (a : A) (k : K).
Arguments Err {K A}. Arguments Ok {K A}.
Definition sbind {K A B} (r : sres K A) (f : A -> K -> sres K B) : sres K B :=
  match r with Err e k => Err e k | Ok a k => f a k end.

Declare Scope scan_scope.
Delimit Scope scan_scope with scan.
Notation "'let*' ( x , k ) := r 'in' f" := (sbind r (fun x k => f))
  (at level 10, x name, k name, f at level 200) : scan_scope.
Local Open Scope scan_scope.

(** A callback's answer; a non-BB_OK code stops the scan. *)
Definition answered {K A} (a : A) (r : bb_err * K) : sres K A :=
  if is_ok r.1 then Ok a r.2 else Err r.1 r.2.

(** * Small helpers *)

Definition is_ws (c : byte) : bool :=
  match c with x20 | x09 | x0a | x0d => true | _ => false end.

Fixpoint skip_ws (l : list byte) : list byte :=
  match l with
  | c :: rest => if is_ws c then skip_ws rest else l
  | [] => []
  end.

Definition hex_val (c : byte) : Z :=
  let z := bz c in
  if (48 <=? z) && (z <=? 57) then z - 48
  else if (97 <=? z) && (z <=? 102) then z - 97 + 10
  else if (65 <=? z) && (z <=? 70) then z - 65 + 10
  else -1.

Definition utf8_encode (cp : Z) : list byte :=
  let cont k := zb (Z.lor 0x80 (Z.land (Z.shiftr cp k) 0x3F)) in
  if cp <=? 0x7F then [zb cp]
  else if cp <=? 0x7FF then [zb (Z.lor 0xC0 (Z.shiftr cp 6)); cont 0]
  else if cp <=? 0xFFFF then [zb (Z.lor 0xE0 (Z.shiftr cp 12)); cont 6; cont 0]
  else [zb (Z.lor 0xF0 (Z.shiftr cp 18)); cont 12; cont 6; cont 0].

(** NULL when the key is empty. *)
Definition cur_key (s : scan_state) : key_t :=
  if (ss_key_len s =? 0)%nat then None else Some (take (ss_key_len s) (ss_scratch s)).

Definition after_value_phase (s : scan_state) : phase_t :=
  match ss_stack s with
  | [] => PH_AFTER_ROOT
  | true :: _ => PH_ARR_AFTER_VALUE
  | false :: _ => PH_OBJ_AFTER_VALUE
  end.

Definition direct_span_provenance (s : scan_state) : span_provenance :=
  if ss_bounded_mode s then SPAN_CALLER_STABLE else SPAN_CALLER_FEED_SCOPED.

Section Scan.
Context {K : Type} (sink : ingest K).

Definition scratch_append (s : scan_state) (data : list byte) (k : K) : sres K scan_state :=
  if (BB_SERIALIZE_JSON_SCRATCH_MAX_BYTES <? length (ss_scratch s) + length data)%nat
  then Err BB_ERR_NO_SPACE k
  else Ok (set_scratch (ss_scratch s ++ data) (ss_key_len s) s) k.

Definition emit_str_bytes (s : scan_state) (data : list byte) (is_final is_key : bool)
    (provenance : span_provenance) (k : K) : sres K scan_state :=
  if is_key then scratch_append s data k
  else answered s (ig_value_str_chunk sink (cur_key s) data is_final provenance k).

(** * Strings *)

(** The escape's next byte: the decoded bytes, [[]] while it is incomplete;
    [None] for a malformed escape. *)
Definition simple_escape (c : byte) : option byte :=
  match c with
  | x22 => Some x22 | x5c => Some x5c | x2f => Some x2f | x62 => Some x08 | x66 => Some x0c
  | x6e => Some x0a | x72 => Some x0d | x74 => Some x09
  | _ => None
  end.

Definition next_esc (p : esc_phase_t) : esc_phase_t :=
  match p with
  | ESC_U1 => ESC_U2 | ESC_U2 => ESC_U3 | ESC_U3 => ESC_U4
  | ESC_LOW_U1 => ESC_LOW_U2 | ESC_LOW_U2 => ESC_LOW_U3 | ESC_LOW_U3 => ESC_LOW_U4
  | _ => p
  end.

Definition scan_escape_byte (s : scan_state) (c : byte) : option (scan_state * list byte) :=
  let cu := ss_esc_code_unit s in
  let high := ss_esc_high_surrogate s in
  match ss_esc_phase s with
  | ESC_BACKSLASH =>
      match simple_escape c with
      | Some decoded => Some (set_esc_phase ESC_NONE s, [decoded])
      | None => if Byte.eqb c x75 then Some (set_esc ESC_U1 0 high s, []) else None
      end
  | ESC_U1 | ESC_U2 | ESC_U3 | ESC_U4 =>
      let hv := hex_val c in
      if hv <? 0 then None else
      let cu' := u16 (Z.lor (Z.shiftl cu 4) hv) in
      match ss_esc_phase s with
      | ESC_U4 =>
          if (0xD800 <=? cu') && (cu' <=? 0xDBFF)
          then Some (set_esc ESC_LOW_BACKSLASH cu' cu' s, [])
          else if (0xDC00 <=? cu') && (cu' <=? 0xDFFF) then None
          else Some (set_esc ESC_NONE cu' high s, utf8_encode cu')
      | p => Some (set_esc (next_esc p) cu' high s, [])
      end
  | ESC_LOW_BACKSLASH =>
      if Byte.eqb c x5c then Some (set_esc_phase ESC_LOW_U s, []) else None
  | ESC_LOW_U =>
      if Byte.eqb c x75 then Some (set_esc ESC_LOW_U1 0 high s, []) else None
  | ESC_LOW_U1 | ESC_LOW_U2 | ESC_LOW_U3 | ESC_LOW_U4 =>
      let hv := hex_val c in
      if hv <? 0 then None else
      let cu' := u16 (Z.lor (Z.shiftl cu 4) hv) in
      match ss_esc_phase s with
      | ESC_LOW_U4 =>
          if (cu' <? 0xDC00) || (0xDFFF <? cu') then None
          else Some (set_esc ESC_NONE cu' high s,
                     utf8_encode (0x10000 + Z.shiftl (high - 0xD800) 10 + (cu' - 0xDC00)))
      | p => Some (set_esc (next_esc p) cu' high s, [])
      end
  | ESC_NONE => None
  end.

(** What is left of the chunk, and whether the closing quote was consumed. *)
Record str_out := mk_so { so_state : scan_state; so_closed : bool; so_rest : list byte }.

(** The closing quote right after an escape is folded into its span. *)
Definition closing_quote (l : list byte) : option (list byte) :=
  match l with
  | c :: rest => if Byte.eqb c x22 then Some rest else None
  | [] => None
  end.

(** One pass over the chunk; [run] is the run of plain bytes consumed and not
    yet delivered, empty in an escape. *)
Fixpoint scan_string (is_key : bool) (s : scan_state) (run : list byte) (l : list byte) (k : K)
  : sres K str_out :=
  match l with
  | [] =>
      match run with
      | [] => Ok (mk_so s false []) k
      | _ => let* (s1, k1) := emit_str_bytes s run false is_key (direct_span_provenance s) k in
             Ok (mk_so s1 false []) k1
      end
  | c :: rest =>
      match ss_esc_phase s with
      | ESC_NONE =>
          if Byte.eqb c x22 then
            let* (s1, k1) := emit_str_bytes s run true is_key (direct_span_provenance s) k in
            Ok (mk_so s1 true rest) k1
          else if Byte.eqb c x5c then
            match run with
            | [] => scan_string is_key (set_esc_phase ESC_BACKSLASH s) [] rest k
            | _ => let* (s1, k1) := emit_str_bytes s run false is_key (direct_span_provenance s) k in
                   scan_string is_key (set_esc_phase ESC_BACKSLASH s1) [] rest k1
            end
          else if bz c <? 32 then Err BB_ERR_PARSE_GRAMMAR k
          else scan_string is_key s (run ++ [c]) rest k
      | _ =>
          match scan_escape_byte s c with
          | None => Err BB_ERR_PARSE_GRAMMAR k
          | Some (s1, []) => scan_string is_key s1 [] rest k
          | Some (s1, decoded) =>
              match closing_quote rest with
              | Some rest' =>
                  let* (s2, k2) := emit_str_bytes s1 decoded true is_key SPAN_SCANNER_SCRATCH k in
                  Ok (mk_so s2 true rest') k2
              | None =>
                  let* (s2, k2) := emit_str_bytes s1 decoded false is_key SPAN_SCANNER_SCRATCH k in
                  scan_string is_key s2 [] rest k2
              end
          end
      end
  end.

(** * Numbers *)

(** [None]: malformed; [Some None]: [c] ends the number and is not consumed. *)
Definition num_next (p : num_phase_t) (c : byte) : option (option num_phase_t) :=
  let digit := is_digit c in
  let dot := Byte.eqb c x2e in
  let e := Byte.eqb c x65 || Byte.eqb c x45 in
  match p with
  | NUM_START => if digit then Some (Some NUM_INT_DIGITS) else None
  | NUM_INT_DIGITS =>
      if digit then Some (Some NUM_INT_DIGITS) else if dot then Some (Some NUM_FRAC_START)
      else if e then Some (Some NUM_EXP_START) else Some None
  | NUM_FRAC_START => if digit then Some (Some NUM_FRAC_DIGITS) else None
  | NUM_FRAC_DIGITS =>
      if digit then Some (Some NUM_FRAC_DIGITS) else if e then Some (Some NUM_EXP_START) else Some None
  | NUM_EXP_START =>
      if Byte.eqb c x2b || Byte.eqb c x2d then Some (Some NUM_EXP_SIGN)
      else if digit then Some (Some NUM_EXP_DIGITS) else None
  | NUM_EXP_SIGN => if digit then Some (Some NUM_EXP_DIGITS) else None
  | NUM_EXP_DIGITS => if digit then Some (Some NUM_EXP_DIGITS) else Some None
  end.

Fixpoint scan_number (s : scan_state) (l : list byte) (k : K) : sres K (scan_state * bool * list byte) :=
  match l with
  | [] => Ok (s, false, []) k
  | c :: rest =>
      match num_next (ss_num_phase s) c with
      | None => Err BB_ERR_PARSE_GRAMMAR k
      | Some None => Ok (s, true, l) k
      | Some (Some p) =>
          let* (s1, k1) := scratch_append s [c] k in
          scan_number (set_num_phase p s1) rest k1
      end
  end.

Definition num_phase_is_terminal (p : num_phase_t) : bool :=
  match p with NUM_INT_DIGITS | NUM_FRAC_DIGITS | NUM_EXP_DIGITS => true | _ => false end.

Definition finalize_number (s : scan_state) (k : K) : sres K scan_state :=
  answered (set_phase (after_value_phase s) s)
    (ig_value_num sink (cur_key s) (drop (ss_key_len s) (ss_scratch s)) k).

(** * Literals *)

Definition lit_text (l : lit_kind_t) : list byte :=
  match l with LIT_TRUE => bs "true" | LIT_FALSE => bs "false" | LIT_NULL => bs "null" end.

Fixpoint scan_literal (s : scan_state) (l : list byte) (k : K) : sres K (scan_state * bool * list byte) :=
  match l with
  | [] => Ok (s, false, []) k
  | c :: rest =>
      if negb (Byte.eqb c (nth (ss_lit_matched s) (lit_text (ss_lit_kind s)) x00))
      then Err BB_ERR_PARSE_GRAMMAR k else
      let s1 := set_lit (ss_lit_kind s) (S (ss_lit_matched s)) s in
      if (ss_lit_matched s1 =? length (lit_text (ss_lit_kind s1)))%nat then Ok (s1, true, rest) k
      else scan_literal s1 rest k
  end.

Definition emit_literal (s : scan_state) (k : K) : sres K scan_state :=
  answered s
    match ss_lit_kind s with
    | LIT_NULL => ig_value_null sink (cur_key s) k
    | LIT_TRUE => ig_value_bool sink (cur_key s) true k
    | LIT_FALSE => ig_value_bool sink (cur_key s) false k
    end.

(** * Containers and dispatch *)

(** Called with at least one open container. *)
Definition close_container (s : scan_state) (k : K) : sres K scan_state :=
  match ss_stack s with
  | [] => Err BB_ERR_INVALID_STATE k
  | is_arr :: st =>
      let s1 := set_stack st s in
      answered (set_phase (after_value_phase s1) s1)
        (if is_arr then ig_end_arr sink k else ig_end_obj sink k)
  end.

Definition open_container (arr : bool) (s : scan_state) (k : K) : sres K scan_state :=
  if (BB_SERIALIZE_MAX_DEPTH <=? length (ss_stack s))%nat then Err BB_ERR_NO_SPACE k else
  let* (s1, k1) := answered s (if arr then ig_begin_arr sink (cur_key s) k
                               else ig_begin_obj sink (cur_key s) k) in
  Ok (set_phase (if arr then PH_ARR_ELEM_OR_CLOSE else PH_OBJ_KEY_OR_CLOSE)
        (set_stack (arr :: ss_stack s1) s1)) k1.

(** Dispatch on the first byte [c] of a value; it is consumed on success. *)
Definition dispatch_value_start (s0 : scan_state) (c : byte) (keyed : bool) (k : K) : sres K scan_state :=
  let s := if keyed then s0 else set_scratch [] 0 s0 in
  let start_num p :=
    let* (s1, k1) := scratch_append s [c] k in
    Ok (set_phase PH_VAL_NUM (set_num_phase p s1)) k1 in
  let start_lit l := Ok (set_phase PH_VAL_LIT (set_lit l 1 s)) k in
  if is_digit c then start_num NUM_INT_DIGITS else
  match c with
  | x22 => Ok (set_phase PH_VAL_STR (set_esc_phase ESC_NONE s)) k
  | x7b => open_container false s k
  | x5b => open_container true s k
  | x2d => start_num NUM_START
  | x74 => start_lit LIT_TRUE
  | x66 => start_lit LIT_FALSE
  | x6e => start_lit LIT_NULL
  | _ => Err BB_ERR_PARSE_GRAMMAR k
  end.

(** * The drive loop *)

(** One iteration with [chunk[i..len)] = [l], not empty.  [Some rest]: go on
    there; [None]: return BB_OK. *)
Definition drive_iter (s : scan_state) (l : list byte) (k : K)
  : sres K (scan_state * option (list byte)) :=
  let go (r : sres K scan_state) (rest : list byte) := let* (s1, k1) := r in Ok (s1, Some rest) k1 in
  let structural (f : byte -> list byte -> sres K (scan_state * option (list byte))) :=
    match skip_ws l with
    | [] => Ok (s, None) k
    | c :: rest => f c rest
    end in
  match ss_phase s with
  | PH_ROOT => structural (fun c rest => go (dispatch_value_start s c false k) rest)
  | PH_AFTER_ROOT => structural (fun _ _ => Err BB_ERR_PARSE_GRAMMAR k)
  | PH_OBJ_KEY_OR_CLOSE | PH_OBJ_KEY_ONLY =>
      structural (fun c rest =>
        if Byte.eqb c x7d && bool_decide (ss_phase s = PH_OBJ_KEY_OR_CLOSE)
        then go (close_container s k) rest
        else if negb (Byte.eqb c x22) then Err BB_ERR_PARSE_GRAMMAR k
        else Ok (set_phase PH_KEY_STR (set_esc_phase ESC_NONE (set_scratch [] 0 s)), Some rest) k)
  | PH_KEY_STR =>
      let* (o, k1) := scan_string true s [] l k in
      let s1 := so_state o in
      if so_closed o
      then Ok (set_phase PH_OBJ_COLON (set_scratch (ss_scratch s1) (length (ss_scratch s1)) s1),
               Some (so_rest o)) k1
      else Ok (s1, None) k1
  | PH_OBJ_COLON =>
      structural (fun c rest =>
        if negb (Byte.eqb c x3a) then Err BB_ERR_PARSE_GRAMMAR k
        else Ok (set_phase PH_OBJ_VALUE s, Some rest) k)
  | PH_OBJ_VALUE => structural (fun c rest => go (dispatch_value_start s c true k) rest)
  | PH_OBJ_AFTER_VALUE =>
      structural (fun c rest =>
        if Byte.eqb c x2c then Ok (set_phase PH_OBJ_KEY_ONLY s, Some rest) k
        else if Byte.eqb c x7d then go (close_container s k) rest
        else Err BB_ERR_PARSE_GRAMMAR k)
  | PH_ARR_ELEM_OR_CLOSE | PH_ARR_ELEM_ONLY =>
      structural (fun c rest =>
        if Byte.eqb c x5d && bool_decide (ss_phase s = PH_ARR_ELEM_OR_CLOSE)
        then go (close_container s k) rest
        else go (dispatch_value_start s c false k) rest)
  | PH_ARR_AFTER_VALUE =>
      structural (fun c rest =>
        if Byte.eqb c x2c then Ok (set_phase PH_ARR_ELEM_ONLY s, Some rest) k
        else if Byte.eqb c x5d then go (close_container s k) rest
        else Err BB_ERR_PARSE_GRAMMAR k)
  | PH_VAL_STR =>
      let* (o, k1) := scan_string false s [] l k in
      let s1 := so_state o in
      if so_closed o then Ok (set_phase (after_value_phase s1) s1, Some (so_rest o)) k1
      else Ok (s1, None) k1
  | PH_VAL_NUM =>
      let* (o, k1) := scan_number s l k in
      let '(s1, finished, rest) := o in
      if finished then go (finalize_number s1 k1) rest else Ok (s1, None) k1
  | PH_VAL_LIT =>
      let* (o, k1) := scan_literal s l k in
      let '(s1, finished, rest) := o in
      if finished
      then go (let* (s2, k2) := emit_literal s1 k1 in Ok (set_phase (after_value_phase s2) s2) k2) rest
      else Ok (s1, None) k1
  end.

(** [None]: out of fuel. *)
Fixpoint drive (fuel : nat) (s : scan_state) (l : list byte) (k : K) : option (sres K scan_state) :=
  match l with
  | [] => Some (Ok s k)
  | _ =>
      match fuel with
      | O => None
      | S fuel' =>
          match drive_iter s l k with
          | Err e k1 => Some (Err e k1)
          | Ok (s1, None) k1 => Some (Ok s1 k1)
          | Ok (s1, Some rest) k1 => drive fuel' s1 rest k1
          end
      end
  end.

(** * Public API *)

Definition scan_begin_internal (bounded_mode : bool) : scan_state :=
  mk_ss PH_ROOT BB_OK bounded_mode [] [] 0 NUM_START LIT_TRUE 0 ESC_NONE 0 0.
Definition bb_serialize_json_scan_begin : scan_state := scan_begin_internal false.

(** Enough for the drive loop: every second iteration at least consumes a byte. *)
Definition drive_fuel (l : list byte) : nat := 2 * length l + 1.

(** The code, the context and the sink.  After an error only [err] of the
    context is ever read again. *)
Definition bb_serialize_json_scan_feed (s : scan_state) (chunk : list byte) (k : K)
  : option (bb_err * scan_state * K) :=
  if negb (is_ok (ss_err s)) then Some (ss_err s, s, k) else
  match drive (drive_fuel chunk) s chunk k with
  | None => None
  | Some (Err e k1) => Some (e, set_serr e s, k1)
  | Some (Ok s1 k1) => Some (BB_OK, s1, k1)
  end.

Definition scan_finish (s : scan_state) (k : K) : bb_err * scan_state * K :=
  match ss_phase s with
  | PH_AFTER_ROOT => (BB_OK, s, k)
  | _ => (BB_ERR_PARSE_INCOMPLETE, set_serr BB_ERR_PARSE_INCOMPLETE s, k)
  end.
Definition bb_serialize_json_scan_end (s : scan_state) (k : K) : bb_err * scan_state * K :=
  if negb (is_ok (ss_err s)) then (ss_err s, s, k) else
  match ss_phase s with
  | PH_VAL_NUM =>
      if negb (num_phase_is_terminal (ss_num_phase s))
      then (BB_ERR_PARSE_INCOMPLETE, set_serr BB_ERR_PARSE_INCOMPLETE s, k)
      else match finalize_number s k with
           | Err e k1 => (e, set_serr e s, k1)
           | Ok s1 k1 => scan_finish s1 k1
           end
  | _ => scan_finish s k
  end.

(** Feeding a list of chunks. *)
Fixpoint feed_all (s : scan_state) (chunks : list (list byte)) (k : K) : option (bb_err * scan_state * K) :=
  match chunks with
  | [] => Some (ss_err s, s, k)
  | ch :: rest =>
      match bb_serialize_json_scan_feed s ch k with
      | None => None
      | Some (_, s1, k1) => feed_all s1 rest k1
      end
  end.

Definition bb_serialize_json_scan_bounded (buf : list byte) (k : K) : option (bb_err * K) :=
  match bb_serialize_json_scan_feed (scan_begin_internal true) buf k with
  | None => None
  | Some (rc, s, k1) =>
      if negb (is_ok rc) then Some (rc, k1) else
      let '(rc2, _, k2) := bb_serialize_json_scan_end s k1 in Some (rc2, k2)
  end.
End Scan.

