(* ===== verification/ScanBytes.v ===== *)
(** The scanner one byte at a time: equal to the chunked scanner for every sink
    that does not see how a string is cut into spans. *)
From Stdlib Require Import Strings.String.
From S2P Require Import Prelude Bytes Num Float Walk JsonWrite JsonScan.
Local Open Scope scan_scope.

(** * Equality of accepted scans *)

(** Both go on with the same result, or both stop. *)
Definition same {K A} (r1 r2 : sres K A) : Prop :=
  match r1, r2 with
  | Ok a k, Ok b k' => a = b /\ k = k'
  | Err _ _, Err _ _ => True
  | _, _ => False
  end.

#[export] Instance same_equiv {K A} : Equivalence (@same K A).
Proof.
  split.
  - by intros [].
  - intros [] []; cbn; intuition congruence.
  - intros [] [] []; cbn; intuition congruence.
Qed.

Lemma same_bind {K A B} (r1 r2 : sres K A) (f g : A -> K -> sres K B) :
  same r1 r2 -> (forall a k, same (f a k) (g a k)) -> same (sbind r1 f) (sbind r2 g).
Proof. destruct r1, r2; cbn; try done. by intros [-> ->]. Qed.

Lemma same_bind_l {K A B} (r1 r2 : sres K A) (f : A -> K -> sres K B) :
  same r1 r2 -> same (sbind r1 f) (sbind r2 f).
Proof. intros H. apply same_bind; [done|]. intros. reflexivity. Qed.

Lemma same_ok {K A} (r : sres K A) a k : same r (Ok a k) -> r = Ok a k.
Proof. destruct r; cbn; [done|]. by intros [-> ->]. Qed.

Lemma bind_assoc {K A B D} (r : sres K A) (f : A -> K -> sres K B) (g : B -> K -> sres K D) :
  sbind (sbind r f) g = sbind r (fun a k => sbind (f a k) g).
Proof. by destruct r. Qed.

Lemma bind_ok {K A} (r : sres K A) : sbind r Ok = r.
Proof. by destruct r. Qed.

(** * Sinks that do not see how a string is cut into spans *)

(** The promise a sink makes: delivering a non-empty span and then the rest is
    the same as delivering both at once, whatever the provenance. *)
Class SplitInsensitive {K} (sink : ingest K) : Prop := {
  str_split key a b fin p p1 p2 k :
    a <> [] -> b <> [] \/ fin = true ->
    same (answered tt (ig_value_str_chunk sink key (a ++ b) fin p k))
      (let* (_, k1) := answered tt (ig_value_str_chunk sink key a false p1 k) in
       answered tt (ig_value_str_chunk sink key b fin p2 k1));
  str_provenance key a fin p p' k :
    same (answered tt (ig_value_str_chunk sink key a fin p k))
      (answered tt (ig_value_str_chunk sink key a fin p' k))
}.

Section Bytes.
Context {K : Type} (sink : ingest K).

(** * The scan, one byte at a time *)

Definition str_step (is_key : bool) (s : scan_state) (c : byte) (k : K) : sres K (scan_state * bool) :=
  let more (r : sres K scan_state) := let* (s1, k1) := r in Ok (s1, false) k1 in
  match ss_esc_phase s with
  | ESC_NONE =>
      if Byte.eqb c x22 then
        let* (s1, k1) := emit_str_bytes sink s [] true is_key (direct_span_provenance s) k in Ok (s1, true) k1
      else if Byte.eqb c x5c then Ok (set_esc_phase ESC_BACKSLASH s, false) k
      else if bz c <? 32 then Err BB_ERR_PARSE_GRAMMAR k
      else more (emit_str_bytes sink s [c] false is_key (direct_span_provenance s) k)
  | _ =>
      match scan_escape_byte s c with
      | None => Err BB_ERR_PARSE_GRAMMAR k
      | Some (s1, []) => Ok (s1, false) k
      | Some (s1, decoded) => more (emit_str_bytes sink s1 decoded false is_key SPAN_SCANNER_SCRATCH k)
      end
  end.

Fixpoint str_bytes (is_key : bool) (s : scan_state) (l : list byte) (k : K) : sres K str_out :=
  match l with
  | [] => Ok (mk_so s false []) k
  | c :: rest =>
      let* (r, k1) := str_step is_key s c k in
      if r.2 then Ok (mk_so r.1 true rest) k1 else str_bytes is_key r.1 rest k1
  end.

(** Between two tokens a byte is handled alone by the loop body. *)
Definition sbyte (s : scan_state) (c : byte) (k : K) : sres K scan_state :=
  let* (r, k1) := drive_iter sink s [c] k in Ok r.1 k1.

Definition key_done (s : scan_state) : scan_state :=
  set_phase PH_OBJ_COLON (set_scratch (ss_scratch s) (length (ss_scratch s)) s).
Definition val_done (s : scan_state) : scan_state := set_phase (after_value_phase s) s.

Definition sbyte_step (s : scan_state) (c : byte) (k : K) : sres K scan_state :=
  match ss_phase s with
  | PH_KEY_STR =>
      let* (r, k1) := str_step true s c k in Ok (if r.2 then key_done r.1 else r.1) k1
  | PH_VAL_STR =>
      let* (r, k1) := str_step false s c k in Ok (if r.2 then val_done r.1 else r.1) k1
  | PH_VAL_NUM =>
      match num_next (ss_num_phase s) c with
      | None => Err BB_ERR_PARSE_GRAMMAR k
      | Some None => let* (s1, k1) := finalize_number sink s k in sbyte s1 c k1
      | Some (Some p) => let* (s1, k1) := scratch_append s [c] k in Ok (set_num_phase p s1) k1
      end
  | PH_VAL_LIT =>
      if negb (Byte.eqb c (nth (ss_lit_matched s) (lit_text (ss_lit_kind s)) x00))
      then Err BB_ERR_PARSE_GRAMMAR k else
      let s1 := set_lit (ss_lit_kind s) (S (ss_lit_matched s)) s in
      if (ss_lit_matched s1 =? length (lit_text (ss_lit_kind s1)))%nat
      then let* (s2, k2) := emit_literal sink s1 k in Ok (val_done s2) k2
      else Ok s1 k
  | _ => sbyte s c k
  end.

Fixpoint bytes (s : scan_state) (l : list byte) (k : K) : sres K scan_state :=
  match l with
  | [] => Ok s k
  | c :: rest => let* (s1, k1) := sbyte_step s c k in bytes s1 rest k1
  end.

Lemma bytes_app s l l' k : bytes s (l ++ l') k = let* (s1, k1) := bytes s l k in bytes s1 l' k1.
Proof.
  revert s k; induction l as [|c l IH]; intros s k; [done|]. cbn [app bytes].
  rewrite bind_assoc. destruct (sbyte_step s c k); [done|]. apply IH.
Qed.

(** ** Structural phases *)

Definition structural (p : phase_t) : bool :=
  match p with PH_KEY_STR | PH_VAL_STR | PH_VAL_NUM | PH_VAL_LIT => false | _ => true end.

Lemma bytes_step_structural s c k : structural (ss_phase s) = true -> sbyte_step s c k = sbyte s c k.
Proof. unfold sbyte_step. by destruct (ss_phase s). Qed.

Lemma sbyte_ws s c k : structural (ss_phase s) = true -> is_ws c = true -> sbyte s c k = Ok s k.
Proof. unfold sbyte, drive_iter. intros Hs Hw. cbn [skip_ws]. rewrite Hw. by destruct (ss_phase s). Qed.

Lemma bytes_skip_ws s l k : structural (ss_phase s) = true -> bytes s l k = bytes s (skip_ws l) k.
Proof.
  intros Hs. induction l as [|c l IH]; [done|]. cbn [skip_ws]. destruct (is_ws c) eqn:Hw; [|done].
  cbn [bytes]. by rewrite bytes_step_structural, sbyte_ws.
Qed.

Lemma skip_ws_not_ws l c rest : skip_ws l = c :: rest -> is_ws c = false.
Proof. induction l as [|a l IH]; [done|]. cbn. destruct (is_ws a) eqn:E; [done|]. by intros [= <- <-]. Qed.

Lemma skip_ws_length l : (length (skip_ws l) <= length l)%nat.
Proof. induction l as [|a l IH]; [done|]. cbn. destruct (is_ws a); cbn in *; lia. Qed.

(** The loop body looks at the first byte that is not white space only. *)
Lemma drive_iter_structural s l k :
  structural (ss_phase s) = true ->
  drive_iter sink s l k =
  match skip_ws l with
  | [] => Ok (s, None) k
  | c :: rest => let* (s1, k1) := sbyte s c k in Ok (s1, Some rest) k1
  end.
Proof.
  intros Hs. destruct (skip_ws l) as [|c rest] eqn:El.
  - unfold drive_iter. rewrite El. by destruct (ss_phase s).
  - pose proof (skip_ws_not_ws _ _ _ El) as Hw. unfold sbyte, drive_iter. rewrite El. cbn [skip_ws].
    rewrite Hw. destruct (ss_phase s); try done; cbn [sbind];
      repeat match goal with
             | |- context [if ?b then _ else _] => destruct b
             | |- context [dispatch_value_start sink s c ?b k] => destruct (dispatch_value_start sink s c b k)
             | |- context [close_container sink s k] => destruct (close_container sink s k)
             end; done.
Qed.

(** ** Strings *)

Lemma emit_split `{!SplitInsensitive sink} s a b fin is_key p p1 p2 k :
  a <> [] -> b <> [] \/ fin = true ->
  same (emit_str_bytes sink s (a ++ b) fin is_key p k)
    (let* (s1, k1) := emit_str_bytes sink s a false is_key p1 k in
     emit_str_bytes sink s1 b fin is_key p2 k1).
Proof.
  intros Ha Hb. unfold emit_str_bytes. destruct is_key.
  - unfold scratch_append. rewrite length_app.
    destruct (Nat.ltb_spec BB_SERIALIZE_JSON_SCRATCH_MAX_BYTES (length (ss_scratch s) + length a)); cbn.
    + destruct (Nat.ltb_spec BB_SERIALIZE_JSON_SCRATCH_MAX_BYTES (length (ss_scratch s) + (length a + length b))); [done|lia].
    + rewrite length_app, Nat.add_assoc. destruct (_ <? _)%nat; [done|]. by rewrite app_assoc.
  - pose proof (str_split (cur_key s) a b fin p p1 p2 k Ha Hb) as H. unfold answered in *.
    destruct (is_ok (ig_value_str_chunk sink (cur_key s) (a ++ b) fin p k).1),
      (is_ok (ig_value_str_chunk sink (cur_key s) a false p1 k).1); cbn in *; try done;
      destruct (is_ok (ig_value_str_chunk sink (cur_key s) b fin p2 _).1); cbn in *; intuition.
Qed.

Lemma emit_state s data fin is_key p k s1 k1 :
  emit_str_bytes sink s data fin is_key p k = Ok s1 k1 ->
  ss_phase s1 = ss_phase s /\ ss_esc_phase s1 = ss_esc_phase s /\ ss_stack s1 = ss_stack s /\
  ss_bounded_mode s1 = ss_bounded_mode s.
Proof.
  unfold emit_str_bytes, scratch_append, answered. destruct is_key.
  - destruct (_ <? _)%nat; [done|]. by intros [= <- <-].
  - destruct (is_ok _); [|done]. by intros [= <- <-].
Qed.

Lemma escape_decoded s c s1 d ds : scan_escape_byte s c = Some (s1, d :: ds) -> ss_esc_phase s1 = ESC_NONE.
Proof.
  unfold scan_escape_byte. intros H.
  repeat (dmatch_in H; try done); by (injection H; intros; subst).
Qed.

(** A pending run, delivered. *)
Definition pend (is_key : bool) (run : list byte) (s : scan_state) (k : K) : sres K scan_state :=
  match run with
  | [] => Ok s k
  | _ => emit_str_bytes sink s run false is_key (direct_span_provenance s) k
  end.

Lemma pend_split `{!SplitInsensitive sink} is_key run c s k :
  same (pend is_key (run ++ [c]) s k)
    (let* (s1, k1) := pend is_key run s k in
     emit_str_bytes sink s1 [c] false is_key (direct_span_provenance s1) k1).
Proof.
  destruct run as [|a run]; [done|]. change (pend is_key ((a :: run) ++ [c]) s k) with
    (emit_str_bytes sink s ((a :: run) ++ [c]) false is_key (direct_span_provenance s) k).
  cbn [pend]. etransitivity; [apply (emit_split _ _ _ _ _ _ (direct_span_provenance s)); [done|by left]|].
  destruct (emit_str_bytes sink s (a :: run) false is_key _ k) as [|s1 k1] eqn:E; [done|]. cbn [sbind].
  apply emit_state in E as (_ & _ & _ & Hb). unfold direct_span_provenance. by rewrite Hb.
Qed.

Lemma pend_final `{!SplitInsensitive sink} is_key run s k :
  same (emit_str_bytes sink s run true is_key (direct_span_provenance s) k)
    (let* (s1, k1) := pend is_key run s k in
     emit_str_bytes sink s1 [] true is_key (direct_span_provenance s1) k1).
Proof.
  destruct run as [|a run]; [done|]. cbn [pend]. rewrite <- (app_nil_r (a :: run)) at 1.
  etransitivity; [apply (emit_split _ _ _ _ _ _ (direct_span_provenance s)); [done|by right]|].
  destruct (emit_str_bytes sink s (a :: run) false is_key _ k) as [|s1 k1] eqn:E; [done|]. cbn [sbind].
  apply emit_state in E as (_ & _ & _ & Hb). unfold direct_span_provenance. by rewrite Hb.
Qed.

Lemma pend_state is_key run s k s1 k1 : pend is_key run s k = Ok s1 k1 -> ss_esc_phase s1 = ss_esc_phase s.
Proof. destruct run; cbn; [by intros [= <- <-]|]. intros H. by apply emit_state in H as (_ & ? & _). Qed.

Lemma str_bytes_plain is_key s c l k :
  ss_esc_phase s = ESC_NONE -> Byte.eqb c x22 = false -> Byte.eqb c x5c = false -> (bz c <? 32) = false ->
  str_bytes is_key s (c :: l) k =
  let* (s1, k1) := emit_str_bytes sink s [c] false is_key (direct_span_provenance s) k in
  str_bytes is_key s1 l k1.
Proof.
  intros He H1 H2 H3. cbn [str_bytes]. unfold str_step. rewrite He, H1, H2, H3.
  by destruct (emit_str_bytes _ _ _ _ _ _ _).
Qed.
(** A resolved escape: folding the closing quote into the span is the same as
    delivering the span and then the quote. *)
Lemma decoded_bytes `{!SplitInsensitive sink} is_key l d s k :
  ss_esc_phase s = ESC_NONE -> d <> [] ->
  (forall s2 k2, same (scan_string sink is_key s2 [] l k2) (str_bytes is_key s2 l k2)) ->
  same (match closing_quote l with
        | Some rest' =>
            let* (s2, k2) := emit_str_bytes sink s d true is_key SPAN_SCANNER_SCRATCH k in
            Ok (mk_so s2 true rest') k2
        | None =>
            let* (s2, k2) := emit_str_bytes sink s d false is_key SPAN_SCANNER_SCRATCH k in
            scan_string sink is_key s2 [] l k2
        end)
    (let* (s2, k2) := emit_str_bytes sink s d false is_key SPAN_SCANNER_SCRATCH k in str_bytes is_key s2 l k2).
Proof.
  intros He Hd IH.
  assert (Hgo : same (let* (s2, k2) := emit_str_bytes sink s d false is_key SPAN_SCANNER_SCRATCH k in
                      scan_string sink is_key s2 [] l k2)
    (let* (s2, k2) := emit_str_bytes sink s d false is_key SPAN_SCANNER_SCRATCH k in str_bytes is_key s2 l k2)).
  { apply same_bind; [reflexivity|exact IH]. }
  destruct l as [|c l]; [exact Hgo|]. cbn [closing_quote]. destruct (Byte.eqb c x22) eqn:Hq; [|exact Hgo].
  apply byte_eqb_eq in Hq as ->. clear Hgo IH.
  rewrite <- (app_nil_r d) at 1.
  etransitivity; [apply same_bind_l, (emit_split _ _ _ _ _ _ SPAN_SCANNER_SCRATCH (direct_span_provenance s)); [done|by right]|].
  rewrite bind_assoc.
  destruct (emit_str_bytes sink s d false is_key _ k) as [|s2 k2] eqn:E; [done|]. cbn [sbind str_bytes].
  apply emit_state in E as (_ & E2 & _ & Hb). unfold str_step. rewrite E2, He.
  unfold direct_span_provenance. rewrite Hb. change (Byte.eqb x22 x22) with true. cbv iota.
  by destruct (emit_str_bytes sink s2 [] true is_key _ k2).
Qed.

Lemma scan_string_bytes `{!SplitInsensitive sink} is_key l : forall s run k,
  (run <> [] -> ss_esc_phase s = ESC_NONE) ->
  same (scan_string sink is_key s run l k)
    (let* (s1, k1) := pend is_key run s k in str_bytes is_key s1 l k1).
Proof.
  induction l as [|c l IH]; intros s run k Hrun.
  { cbn [scan_string str_bytes]. destruct run; cbn [pend]; done. }
  cbn [scan_string].
  destruct (ss_esc_phase s) eqn:He; [|assert (run = []) as -> by (destruct run; [done|]; by specialize (Hrun ltac:(done))); cbn [pend sbind]..].
  { destruct (Byte.eqb c x22) eqn:Hq; [|destruct (Byte.eqb c x5c) eqn:Hb; [|destruct (bz c <? 32) eqn:Hc]].
    - etransitivity; [apply same_bind_l, pend_final|]. rewrite bind_assoc.
      destruct (pend is_key run s k) as [|s1 k1] eqn:Ep; [done|]. cbn [sbind str_bytes].
      unfold str_step. rewrite (pend_state _ _ _ _ _ _ Ep), He, Hq.
      by destruct (emit_str_bytes sink s1 [] true is_key _ k1).
    - assert (Hgo : forall s1 k1, ss_esc_phase s1 = ESC_NONE ->
        same (scan_string sink is_key (set_esc_phase ESC_BACKSLASH s1) [] l k1) (str_bytes is_key s1 (c :: l) k1)).
      { intros s1 k1 H1. etransitivity; [by apply IH|]. cbn [pend sbind str_bytes]. unfold str_step.
        by rewrite H1, Hq, Hb. }
      destruct run as [|a run]; [by apply Hgo|]. cbn [pend].
      destruct (emit_str_bytes sink s (a :: run) false is_key _ k) as [|s1 k1] eqn:E; [done|].
      apply Hgo. apply emit_state in E as (_ & -> & _). done.
    - assert (Hgo : forall s1 k1, ss_esc_phase s1 = ESC_NONE ->
        same (Err BB_ERR_PARSE_GRAMMAR k) (str_bytes is_key s1 (c :: l) k1)).
      { intros s1 k1 H1. cbn [str_bytes]. unfold str_step. by rewrite H1, Hq, Hb, Hc. }
      destruct (pend is_key run s k) as [|s1 k1] eqn:Ep; [done|]. apply Hgo. by rewrite (pend_state _ _ _ _ _ _ Ep).
    - etransitivity; [apply IH; done|].
      etransitivity; [apply same_bind_l, pend_split|]. rewrite bind_assoc.
      destruct (pend is_key run s k) as [|s1 k1] eqn:Ep; [done|]. cbn [sbind].
      rewrite str_bytes_plain; try done. by rewrite (pend_state _ _ _ _ _ _ Ep). }
  all: cbn [str_bytes]; unfold str_step; rewrite He;
    destruct (scan_escape_byte s c) as [[s1 [|d ds]]|] eqn:Ee; [by apply IH| |done];
    (etransitivity; [apply (decoded_bytes is_key l (d :: ds) s1 k);
       [by apply escape_decoded in Ee | done | intros s2 k2; by apply IH]|]);
    by destruct (emit_str_bytes sink s1 (d :: ds) false is_key _ k).
Qed.

(** ** Whole tokens *)

Lemma str_step_phase is_key s c k r k1 : str_step is_key s c k = Ok r k1 -> ss_phase r.1 = ss_phase s.
Proof.
  assert (Hesc : forall s1 d, scan_escape_byte s c = Some (s1, d) -> ss_phase s1 = ss_phase s).
  { unfold scan_escape_byte. intros s1 d H. repeat (dmatch_in H; try done); by (injection H; intros; subst). }
  unfold str_step.
  assert (Hemit : forall s0 data fin p, ss_phase s0 = ss_phase s ->
    forall b, (let* (s1, k0) := emit_str_bytes sink s0 data fin is_key p k in Ok (s1, b) k0) = Ok r k1 ->
    ss_phase r.1 = ss_phase s).
  { intros s0 data fin p H0 b. destruct (emit_str_bytes sink s0 _ _ _ _ _) eqn:E; cbn [sbind]; [by intros [=]|]. intros [= <- <-].
    apply emit_state in E as (E1 & _). cbn [fst]. by rewrite E1. }
  assert (Hcase : match scan_escape_byte s c with
          | Some (s1, []) => Ok (s1, false) k
          | Some (s1, (_ :: _) as decoded) =>
              let* (s1, k1) := emit_str_bytes sink s1 decoded false is_key SPAN_SCANNER_SCRATCH k in Ok (s1, false) k1
          | None => Err BB_ERR_PARSE_GRAMMAR k
          end = Ok r k1 -> ss_phase r.1 = ss_phase s).
  { destruct (scan_escape_byte s c) as [[s1 [|d ds]]|] eqn:Ee; [|apply Hemit; by eapply Hesc|by intros [=]].
    intros [= <- <-]. by eapply Hesc. }
  destruct (ss_esc_phase s); try apply Hcase. clear Hcase.
  destruct (Byte.eqb c x22); [by apply Hemit|]. destruct (Byte.eqb c x5c); [by intros [= <- _]|].
  destruct (bz c <? 32); [by intros [=]|]. by apply Hemit.
Qed.

Lemma bytes_key s l k : ss_phase s = PH_KEY_STR ->
  bytes s l k = let* (o, k1) := str_bytes true s l k in
                if so_closed o then bytes (key_done (so_state o)) (so_rest o) k1 else Ok (so_state o) k1.
Proof.
  revert s k; induction l as [|c l IH]; intros s k Hp; [done|]. cbn [bytes str_bytes].
  unfold sbyte_step. rewrite Hp, !bind_assoc.
  destruct (str_step true s c k) as [|[s1 []] k1] eqn:E; [done|done|]. cbn [sbind fst snd].
  apply IH. apply str_step_phase in E. by rewrite <- Hp.
Qed.

Lemma bytes_str s l k : ss_phase s = PH_VAL_STR ->
  bytes s l k = let* (o, k1) := str_bytes false s l k in
                if so_closed o then bytes (val_done (so_state o)) (so_rest o) k1 else Ok (so_state o) k1.
Proof.
  revert s k; induction l as [|c l IH]; intros s k Hp; [done|]. cbn [bytes str_bytes].
  unfold sbyte_step. rewrite Hp, !bind_assoc.
  destruct (str_step false s c k) as [|[s1 []] k1] eqn:E; [done|done|]. cbn [sbind fst snd].
  apply IH. apply str_step_phase in E. by rewrite <- Hp.
Qed.

Lemma bytes_lit s l k : ss_phase s = PH_VAL_LIT ->
  bytes s l k = let* (o, k1) := scan_literal s l k in
                if o.1.2 then let* (s2, k2) := emit_literal sink o.1.1 k1 in bytes (val_done s2) o.2 k2
                else Ok o.1.1 k1.
Proof.
  revert s k; induction l as [|c l IH]; intros s k Hp; [done|]. cbn [bytes scan_literal].
  unfold sbyte_step. rewrite Hp. destruct (negb _); [done|]. cbv zeta.
  destruct (_ =? _)%nat; cbn [sbind fst snd]; [by rewrite bind_assoc|]. by apply IH.
Qed.

Lemma scratch_append_phase s d (k : K) s1 k1 : scratch_append s d k = Ok s1 k1 ->
  ss_phase s1 = ss_phase s /\ ss_num_phase s1 = ss_num_phase s /\ k1 = k.
Proof. unfold scratch_append. destruct (_ <? _)%nat; [done|]. by intros [= <- <-]. Qed.

Lemma finalize_phase s k s1 k1 : finalize_number sink s k = Ok s1 k1 ->
  structural (ss_phase s1) = true.
Proof.
  unfold finalize_number, answered. destruct (is_ok _); [|done]. intros [= <- <-].
  cbn. unfold after_value_phase. by destruct (ss_stack s) as [|[]].
Qed.

Lemma bytes_num s l k : ss_phase s = PH_VAL_NUM ->
  bytes s l k = let* (o, k1) := scan_number s l k in
                if o.1.2 then let* (s2, k2) := finalize_number sink o.1.1 k1 in bytes s2 o.2 k2
                else Ok o.1.1 k1.
Proof.
  revert s k; induction l as [|c l IH]; intros s k Hp; [done|]. cbn [bytes scan_number].
  unfold sbyte_step. rewrite Hp. destruct (num_next (ss_num_phase s) c) as [[p|]|]; [| |done].
  - rewrite !bind_assoc. destruct (scratch_append s [c] k) as [|s1 k1] eqn:E; [done|]. cbn [sbind].
    apply IH. cbn. apply scratch_append_phase in E as (-> & _). done.
  - cbn [sbind fst snd]. rewrite !bind_assoc.
    destruct (finalize_number sink s k) as [|s1 k1] eqn:E; [done|]. cbn [sbind bytes].
    apply finalize_phase in E. by rewrite bytes_step_structural.
Qed.

(** ** Progress *)

Lemma str_bytes_rest is_key s l k o k1 :
  str_bytes is_key s l k = Ok o k1 -> so_closed o = true -> (length (so_rest o) < length l)%nat.
Proof.
  revert s k; induction l as [|c l IH]; intros s k; cbn [str_bytes]; [by intros [= <- <-]|].
  destruct (str_step is_key s c k) as [|[s1 []] k0]; cbn [sbind fst snd]; [done| |].
  - intros [= <- <-] _. cbn. lia.
  - intros H1 H2. specialize (IH _ _ H1 H2). cbn. lia.
Qed.

Lemma scan_literal_rest s l (k : K) o k1 :
  scan_literal s l k = Ok o k1 -> o.1.2 = true -> (length o.2 < length l)%nat.
Proof.
  revert s; induction l as [|c l IH]; intros s; cbn [scan_literal]; [by intros [= <- <-]|].
  destruct (negb _); [done|]. cbv zeta. destruct (_ =? _)%nat.
  - intros [= <- <-] _. cbn. lia.
  - intros H1 H2. specialize (IH _ H1 H2). cbn. lia.
Qed.

Lemma scan_number_rest s l (k : K) o k1 :
  scan_number s l k = Ok o k1 -> (length o.2 <= length l)%nat.
Proof.
  revert s k; induction l as [|c l IH]; intros s k; cbn [scan_number]; [by intros [= <- <-]|].
  destruct (num_next _ _) as [[p|]|]; [| |done].
  - destruct (scratch_append s [c] k) as [|s1 k2]; [done|]. intros H1. specialize (IH _ _ H1). cbn. lia.
  - by intros [= <- <-].
Qed.

(** * The drive loop scans byte by byte *)

Definition is_num_phase (p : phase_t) : nat := match p with PH_VAL_NUM => 1 | _ => 0 end.

Lemma structural_num p : structural p = true -> is_num_phase p = 0%nat.
Proof. by destruct p. Qed.

Lemma drive_bytes `{!SplitInsensitive sink} n : forall l fuel s k,
  (2 * length l + is_num_phase (ss_phase s) <= n)%nat -> (n <= fuel)%nat ->
  exists r, drive sink fuel s l k = Some r /\ same r (bytes s l k).
Proof.
  induction n as [n IH] using lt_wf_ind. intros l fuel s k Hn Hf.
  destruct l as [|c l0]; [by (destruct fuel; eexists)|]. set (l := c :: l0) in *.
  destruct fuel as [|fuel]; [cbn in Hn; lia|].
  assert (Hgo : forall (rest : list byte) s1 k1, (2 * length rest + is_num_phase (ss_phase s1) < n)%nat ->
            exists r, drive sink fuel s1 rest k1 = Some r /\ same r (bytes s1 rest k1)).
  { intros rest s1 k1 Hlt. eapply (IH _ Hlt); lia. }
  assert (Hshort : forall (rest : list byte) s1, (length rest < length l)%nat ->
            (2 * length rest + is_num_phase (ss_phase s1) < n)%nat).
  { intros rest s1 Hlt. assert (is_num_phase (ss_phase s1) <= 1)%nat by (destruct (ss_phase s1); cbn; lia). lia. }
  change (drive sink (S fuel) s l k) with
    (match drive_iter sink s l k with
     | Err e k1 => Some (Err e k1)
     | Ok (s1, None) k1 => Some (Ok s1 k1)
     | Ok (s1, Some rest) k1 => drive sink fuel s1 rest k1
     end).
  destruct (structural (ss_phase s)) eqn:Hs.
  { rewrite drive_iter_structural, (bytes_skip_ws s l) by done.
    pose proof (skip_ws_length l) as Hw. destruct (skip_ws l) as [|c' rest]; [by eexists|]. cbn [bytes].
    rewrite bytes_step_structural by done. destruct (sbyte s c' k) as [|s1 k1]; [by eexists|]. cbn [sbind].
    apply Hgo, Hshort. cbn in Hw |- *. lia. }
  unfold drive_iter. destruct (ss_phase s) eqn:Hp; try done.
  - rewrite bytes_key by done. pose proof (scan_string_bytes true l s [] k ltac:(done)) as H. cbn [pend sbind] in H.
    destruct (scan_string sink true s [] l k) as [|o k1], (str_bytes true s l k) as [|o' k1'] eqn:E; try done;
      [by eexists|]. destruct H as [-> ->]. cbn [sbind]. destruct (so_closed o') eqn:Hc; [|by eexists].
    apply Hgo, Hshort. by eapply str_bytes_rest.
  - rewrite bytes_str by done. pose proof (scan_string_bytes false l s [] k ltac:(done)) as H. cbn [pend sbind] in H.
    destruct (scan_string sink false s [] l k) as [|o k1], (str_bytes false s l k) as [|o' k1'] eqn:E; try done;
      [by eexists|]. destruct H as [-> ->]. cbn [sbind]. destruct (so_closed o') eqn:Hc; [|by eexists].
    apply Hgo, Hshort. by eapply str_bytes_rest.
  - rewrite bytes_num by done. destruct (scan_number s l k) as [|[[s1 fin] rest] k1] eqn:E; [by eexists|].
    apply scan_number_rest in E. cbn [sbind fst snd] in *. destruct fin; [|by eexists].
    destruct (finalize_number sink s1 k1) as [|s2 k2] eqn:Ef; [by eexists|]. cbn [sbind].
    apply finalize_phase, structural_num in Ef. apply Hgo. rewrite Ef. cbn [is_num_phase] in Hn. lia.
  - rewrite bytes_lit by done. destruct (scan_literal s l k) as [|[[s1 fin] rest] k1] eqn:E; [by eexists|].
    pose proof (scan_literal_rest _ _ _ _ _ E) as Hr. cbn [sbind fst snd] in *. destruct fin; [|by eexists].
    destruct (emit_literal sink s1 k1) as [|s2 k2]; [by eexists|]. cbn [sbind]. apply Hgo, Hshort, Hr. done.
Qed.

(** ** A stopped scan has an error code *)

Definition real {A} (r : sres K A) : Prop := match r with Err e _ => e <> BB_OK | Ok _ _ => True end.

Lemma real_bind {A B} (r : sres K A) (f : A -> K -> sres K B) :
  real r -> (forall a k, real (f a k)) -> real (sbind r f).
Proof. intros Hr Hf. destruct r; [done|apply Hf]. Qed.
Lemma real_answered {A} (a : A) (r : bb_err * K) : real (answered a r).
Proof. unfold answered. destruct r as [e k]. by destruct e. Qed.
Lemma real_append s d (k : K) : real (scratch_append s d k).
Proof. unfold scratch_append. by destruct (_ <? _)%nat. Qed.
Lemma real_emit s d fin is_key p k : real (emit_str_bytes sink s d fin is_key p k).
Proof. unfold emit_str_bytes. destruct is_key; [apply real_append|apply real_answered]. Qed.

Lemma real_string is_key l : forall s run k, real (scan_string sink is_key s run l k).
Proof.
  induction l as [|c l IH]; intros s run k; cbn [scan_string].
  - destruct run; [done|]. apply real_bind; [apply real_emit|done].
  - assert (Hesc : real (match scan_escape_byte s c with
          | None => Err BB_ERR_PARSE_GRAMMAR k
          | Some (s1, []) => scan_string sink is_key s1 [] l k
          | Some (s1, (_ :: _) as decoded) =>
              match closing_quote l with
              | Some rest' =>
                  let* (s2, k2) := emit_str_bytes sink s1 decoded true is_key SPAN_SCANNER_SCRATCH k in
                  Ok (mk_so s2 true rest') k2
              | None =>
                  let* (s2, k2) := emit_str_bytes sink s1 decoded false is_key SPAN_SCANNER_SCRATCH k in
                  scan_string sink is_key s2 [] l k2
              end
          end)).
    { destruct (scan_escape_byte s c) as [[s1 [|d ds]]|]; [apply IH| |done].
      assert (Hgo : real (let* (s2, k2) := emit_str_bytes sink s1 (d :: ds) false is_key SPAN_SCANNER_SCRATCH k in
                  scan_string sink is_key s2 [] l k2)) by (apply real_bind; [apply real_emit|intros; apply IH]).
      destruct (closing_quote l); [|exact Hgo]. apply real_bind; [apply real_emit|done]. }
    destruct (ss_esc_phase s); try exact Hesc. clear Hesc.
    destruct (Byte.eqb c x22); [apply real_bind; [apply real_emit|done]|].
    destruct (Byte.eqb c x5c).
    + destruct run; [apply IH|]. apply real_bind; [apply real_emit|intros; apply IH].
    + destruct (bz c <? 32); [done|apply IH].
Qed.

Lemma real_number l : forall s (k : K), real (scan_number s l k).
Proof.
  induction l as [|c l IH]; intros s k; cbn [scan_number]; [done|].
  destruct (num_next _ _) as [[p|]|]; [|done..]. apply real_bind; [apply real_append|intros; apply IH].
Qed.
Lemma real_literal l : forall s (k : K), real (scan_literal s l k).
Proof.
  induction l as [|c l IH]; intros s k; cbn [scan_literal]; [done|].
  destruct (negb _); [done|]. cbv zeta. destruct (_ =? _)%nat; [done|apply IH].
Qed.
Lemma real_open arr s k : real (open_container sink arr s k).
Proof. unfold open_container. destruct (_ <=? _)%nat; [done|]. apply real_bind; [apply real_answered|done]. Qed.
Lemma real_close s k : real (close_container sink s k).
Proof. unfold close_container. destruct (ss_stack s); [done|apply real_answered]. Qed.
Lemma real_finalize s k : real (finalize_number sink s k).
Proof. apply real_answered. Qed.
Lemma real_dispatch s c keyed k : real (dispatch_value_start sink s c keyed k).
Proof.
  unfold dispatch_value_start. set (s0 := if keyed then _ else _).
  assert (Hn : forall p, real (let* (s1, k1) := scratch_append s0 [c] k in Ok (set_phase PH_VAL_NUM (set_num_phase p s1)) k1))
    by (intros; apply real_bind; [apply real_append|done]).
  destruct (is_digit c); [apply Hn|]. destruct c; try done; (apply Hn || apply real_open).
Qed.

Lemma real_iter s l k : real (drive_iter sink s l k).
Proof.
  unfold drive_iter.
  assert (Hgo : forall (r : sres K scan_state) (rest : list byte), real r ->
            real (sbind r (fun s1 k1 => Ok (s1, Some rest) k1))) by (intros; by apply real_bind).
  assert (Hst : forall f : byte -> list byte -> sres K (scan_state * option (list byte)),
     (forall c rest, real (f c rest)) ->
     real (match skip_ws l with [] => Ok (s, None) k | c :: rest => f c rest end)).
  { intros f Hf. by destruct (skip_ws l). }
  destruct (ss_phase s); try (apply Hst; intros c rest);
    repeat match goal with |- context [if ?b then _ else _] => destruct b end;
    try done; try (apply Hgo; first [apply real_dispatch | apply real_close]).
  - apply real_bind; [apply real_string|]. intros o k1. by destruct (so_closed o).
  - apply real_bind; [apply real_string|]. intros o k1. by destruct (so_closed o).
  - apply real_bind; [apply real_number|]. intros [[s1 []] rest] k1; [apply Hgo, real_finalize|done].
  - apply real_bind; [apply real_literal|]. intros [[s1 []] rest] k1; [|done].
    apply Hgo, real_bind; [apply real_answered|done].
Qed.

Lemma real_drive fuel : forall s l k r, drive sink fuel s l k = Some r -> real r.
Proof.
  induction fuel as [|fuel IH]; intros s [|c l] k r; cbn [drive]; try by intros [= <-].
  pose proof (real_iter s (c :: l) k) as H.
  destruct (drive_iter sink s (c :: l) k) as [|[s1 [rest|]] k1]; [by intros [= <-]|apply IH|by intros [= <-]].
Qed.

(** ** The sticky code is only written by [feed] and [end] *)

Definition keeps_err (s : scan_state) (r : sres K scan_state) : Prop :=
  match r with Ok s1 _ => ss_err s1 = ss_err s | Err _ _ => True end.

Lemma keeps_bind s r (f : scan_state -> K -> sres K scan_state) :
  keeps_err s r -> (forall s1 k1, ss_err s1 = ss_err s -> keeps_err s (f s1 k1)) -> keeps_err s (sbind r f).
Proof. destruct r; cbn; auto. Qed.
Lemma keeps_answered s s1 (r : bb_err * K) : ss_err s1 = ss_err s -> keeps_err s (answered s1 r).
Proof. unfold answered. by destruct (is_ok r.1). Qed.
Lemma keeps_append s0 s d (k : K) : ss_err s = ss_err s0 -> keeps_err s0 (scratch_append s d k).
Proof. unfold scratch_append. by destruct (_ <? _)%nat. Qed.
Lemma keeps_emit s0 s d fin is_key p k : ss_err s = ss_err s0 -> keeps_err s0 (emit_str_bytes sink s d fin is_key p k).
Proof. intros. unfold emit_str_bytes. destruct is_key; [by apply keeps_append|by apply keeps_answered]. Qed.
Lemma keeps_dispatch s c keyed k : keeps_err s (dispatch_value_start sink s c keyed k).
Proof.
  unfold dispatch_value_start. set (s0 := if keyed then _ else _).
  assert (H0 : ss_err s0 = ss_err s) by (by destruct keyed).
  assert (Hn : forall p, keeps_err s (let* (s1, k1) := scratch_append s0 [c] k in Ok (set_phase PH_VAL_NUM (set_num_phase p s1)) k1))
    by (intros; apply keeps_bind; [by apply keeps_append|done]).
  assert (Ho : forall arr, keeps_err s (open_container sink arr s0 k)).
  { intros arr. unfold open_container. destruct (_ <=? _)%nat; [done|].
    apply keeps_bind; [by apply keeps_answered|done]. }
  destruct (is_digit c); [apply Hn|]. destruct c; try done; (apply Hn || apply Ho).
Qed.
Lemma keeps_close s k : keeps_err s (close_container sink s k).
Proof. unfold close_container. destruct (ss_stack s); [done|by apply keeps_answered]. Qed.

Lemma keeps_sbyte s c k : structural (ss_phase s) = true -> keeps_err s (sbyte s c k).
Proof.
  intros Hs. destruct (is_ws c) eqn:Hw; [by rewrite sbyte_ws|].
  unfold sbyte, drive_iter. cbn [skip_ws]. rewrite Hw.
  pose proof (keeps_dispatch s c true k) as H1. pose proof (keeps_dispatch s c false k) as H2.
  pose proof (keeps_close s k) as H3.
  destruct (ss_phase s); try done;
    repeat match goal with |- context [if ?b then _ else _] => destruct b end;
    cbn [sbind fst]; try done;
    first [ destruct (dispatch_value_start sink s c false k); exact H2
          | destruct (dispatch_value_start sink s c true k); exact H1
          | destruct (close_container sink s k); exact H3 ].
Qed.

Lemma keeps_str_step is_key s c k : 
  match str_step is_key s c k with Ok r _ => ss_err r.1 = ss_err s | Err _ _ => True end.
Proof.
  assert (Hesc : forall s1 d, scan_escape_byte s c = Some (s1, d) -> ss_err s1 = ss_err s).
  { unfold scan_escape_byte. intros s1 d H. repeat (dmatch_in H; try done); by (injection H; intros; subst). }
  unfold str_step.
  assert (Hemit : forall s0 data fin p b, ss_err s0 = ss_err s ->
    match sbind (emit_str_bytes sink s0 data fin is_key p k) (fun s1 k0 => Ok (s1, b : bool) k0) with
    | Ok r _ => ss_err r.1 = ss_err s | Err _ _ => True end).
  { intros s0 data fin p b H0. pose proof (keeps_emit s s0 data fin is_key p k H0) as H.
    by destruct (emit_str_bytes sink s0 data fin is_key p k). }
  destruct (ss_esc_phase s) eqn:He;
    try (destruct (scan_escape_byte s c) as [[s1 [|d ds]]|]; [by eapply Hesc|by apply Hemit, (Hesc s1 (d :: ds))|done]).
  destruct (Byte.eqb c x22); [by apply Hemit|]. destruct (Byte.eqb c x5c); [done|].
  destruct (bz c <? 32); [done|]. by apply Hemit.
Qed.

Lemma keeps_step s c k : keeps_err s (sbyte_step s c k).
Proof.
  destruct (structural (ss_phase s)) eqn:Hs; [rewrite bytes_step_structural by done; by apply keeps_sbyte|].
  unfold sbyte_step. destruct (ss_phase s); try done.
  - pose proof (keeps_str_step true s c k) as H. destruct (str_step true s c k) as [|[s1 []] k1]; exact H.
  - pose proof (keeps_str_step false s c k) as H. destruct (str_step false s c k) as [|[s1 []] k1]; exact H.
  - destruct (num_next _ _) as [[p|]|]; [| |done].
    + apply keeps_bind; [by apply keeps_append|done].
    + destruct (finalize_number sink s k) as [|s1 k1] eqn:Ef; [done|]. cbn [sbind].
      pose proof (finalize_phase _ _ _ _ Ef) as Hp. pose proof (keeps_sbyte s1 c k1 Hp) as H.
      assert (He : ss_err s1 = ss_err s).
      { unfold finalize_number, answered in Ef. destruct (is_ok _); [|done]. by injection Ef as <- _. }
      destruct (sbyte s1 c k1); [done|]. cbn in *. congruence.
  - destruct (negb _); [done|]. cbv zeta. destruct (_ =? _)%nat; [|done].
    apply keeps_bind; [by apply keeps_answered|done].
Qed.

Lemma bytes_err s l k : keeps_err s (bytes s l k).
Proof.
  revert s k; induction l as [|c l IH]; intros s k; [done|]. cbn [bytes].
  apply keeps_bind; [apply keeps_step|]. intros s1 k1 H. specialize (IH s1 k1).
  destruct (bytes s1 l k1); cbn in *; congruence.
Qed.

(** ** The mode only labels spans *)

Definition set_mode (b : bool) (s : scan_state) : scan_state :=
  mk_ss (ss_phase s) (ss_err s) b (ss_stack s) (ss_scratch s) (ss_key_len s) (ss_num_phase s)
    (ss_lit_kind s) (ss_lit_matched s) (ss_esc_phase s) (ss_esc_code_unit s) (ss_esc_high_surrogate s).
Definition with_mode (b : bool) (r : sres K scan_state) : sres K scan_state :=
  let* (s, k) := r in Ok (set_mode b s) k.

Lemma mode_bind b (r1 r2 : sres K scan_state) (f g : scan_state -> K -> sres K scan_state) :
  same (with_mode b r1) r2 -> (forall s k, same (with_mode b (f s k)) (g (set_mode b s) k)) ->
  same (with_mode b (sbind r1 f)) (sbind r2 g).
Proof.
  intros H Hf. destruct r1 as [e k1|s1 k1], r2 as [e' k2|s2 k2]; cbn in H; try done.
  destruct H as [<- <-]. apply Hf.
Qed.
Lemma mode_answered b s (r : bb_err * K) : same (with_mode b (answered s r)) (answered (set_mode b s) r).
Proof. unfold answered. by destruct (is_ok r.1). Qed.
Lemma mode_append b s d (k : K) : same (with_mode b (scratch_append s d k)) (scratch_append (set_mode b s) d k).
Proof. unfold scratch_append. cbn. by destruct (_ <? _)%nat. Qed.
Lemma mode_emit `{!SplitInsensitive sink} b s d fin is_key p p' k :
  same (with_mode b (emit_str_bytes sink s d fin is_key p k)) (emit_str_bytes sink (set_mode b s) d fin is_key p' k).
Proof.
  unfold emit_str_bytes. destruct is_key; [apply mode_append|].
  change (cur_key (set_mode b s)) with (cur_key s).
  pose proof (str_provenance (cur_key s) d fin p p' k) as H. unfold answered in *.
  destruct (is_ok (ig_value_str_chunk sink _ d fin p k).1), (is_ok (ig_value_str_chunk sink _ d fin p' k).1);
    cbn in *; intuition.
Qed.
Lemma mode_escape b s c :
  scan_escape_byte (set_mode b s) c =
  match scan_escape_byte s c with Some (s1, d) => Some (set_mode b s1, d) | None => None end.
Proof.
  unfold scan_escape_byte. cbn [ss_esc_phase ss_esc_code_unit ss_esc_high_surrogate set_mode].
  destruct (ss_esc_phase s); cbv zeta; try done; repeat (dmatch; try done).
Qed.

Lemma mode_str_step `{!SplitInsensitive sink} b is_key s c k (f g : scan_state -> scan_state) :
  (forall s, set_mode b (f s) = f (set_mode b s)) -> (forall s, set_mode b (g s) = g (set_mode b s)) ->
  let fin (r : sres K (scan_state * bool)) := let* (r, k1) := r in Ok (if r.2 then f r.1 else g r.1) k1 in
  same (with_mode b (fin (str_step is_key s c k))) (fin (str_step is_key (set_mode b s) c k)).
Proof.
  intros Hf Hg fin. unfold fin, str_step.
  assert (Hemit : forall s0 d fi p p' x,
    same (with_mode b (sbind (sbind (emit_str_bytes sink s0 d fi is_key p k) (fun s1 k1 => Ok (s1, x) k1))
                        (fun r k1 => Ok (if r.2 : bool then f r.1 else g r.1) k1)))
         (sbind (sbind (emit_str_bytes sink (set_mode b s0) d fi is_key p' k) (fun s1 k1 => Ok (s1, x) k1))
                        (fun r k1 => Ok (if r.2 : bool then f r.1 else g r.1) k1))).
  { intros. rewrite !bind_assoc. apply mode_bind; [apply mode_emit|]. intros s1 k1. cbn.
    destruct x; by rewrite ?Hf, ?Hg. }
  change (ss_esc_phase (set_mode b s)) with (ss_esc_phase s).
  destruct (ss_esc_phase s); try (rewrite mode_escape;
    destruct (scan_escape_byte s c) as [[s1 [|d ds]]|]; [cbn; by rewrite Hg|apply Hemit|done]).
  destruct (Byte.eqb c x22); [apply Hemit|]. destruct (Byte.eqb c x5c).
  { cbn. by rewrite Hg. }
  destruct (bz c <? 32); [done|]. apply Hemit.
Qed.

Lemma mode_dispatch b s c keyed k :
  same (with_mode b (dispatch_value_start sink s c keyed k)) (dispatch_value_start sink (set_mode b s) c keyed k).
Proof.
  unfold dispatch_value_start.
  replace (if keyed then set_mode b s else set_scratch [] 0 (set_mode b s)) with
    (set_mode b (if keyed then s else set_scratch [] 0 s)) by (by destruct keyed).
  set (s0 := if keyed then _ else _).
  assert (Hn : forall p, same (with_mode b (let* (s1, k1) := scratch_append s0 [c] k in Ok (set_phase PH_VAL_NUM (set_num_phase p s1)) k1))
    (let* (s1, k1) := scratch_append (set_mode b s0) [c] k in Ok (set_phase PH_VAL_NUM (set_num_phase p s1)) k1))
    by (intros; apply mode_bind; [apply mode_append|done]).
  assert (Ho : forall arr, same (with_mode b (open_container sink arr s0 k)) (open_container sink arr (set_mode b s0) k)).
  { intros arr. unfold open_container. cbn [ss_stack set_mode]. destruct (_ <=? _)%nat; [done|].
    apply mode_bind; [apply mode_answered|done]. }
  destruct (is_digit c); [apply Hn|]. destruct c; try done; (apply Hn || apply Ho).
Qed.
Lemma mode_close b s k : same (with_mode b (close_container sink s k)) (close_container sink (set_mode b s) k).
Proof. unfold close_container. cbn [ss_stack set_mode]. destruct (ss_stack s); [done|apply mode_answered]. Qed.

Lemma mode_sbyte b s c k : structural (ss_phase s) = true ->
  same (with_mode b (sbyte s c k)) (sbyte (set_mode b s) c k).
Proof.
  intros Hs. destruct (is_ws c) eqn:Hw; [by rewrite !sbyte_ws|].
  unfold sbyte, drive_iter. cbn [skip_ws]. rewrite Hw. change (ss_phase (set_mode b s)) with (ss_phase s).
  pose proof (mode_dispatch b s c true k) as H1. pose proof (mode_dispatch b s c false k) as H2.
  pose proof (mode_close b s k) as H3.
  destruct (ss_phase s); try done;
    repeat match goal with |- context [if ?x then _ else _] => destruct x end;
    cbn [sbind fst]; try done; rewrite ?bind_assoc; cbn [sbind fst];
    apply mode_bind; done.
Qed.

Lemma mode_step `{!SplitInsensitive sink} b s c k :
  same (with_mode b (sbyte_step s c k)) (sbyte_step (set_mode b s) c k).
Proof.
  destruct (structural (ss_phase s)) eqn:Hs; [rewrite !bytes_step_structural by done; by apply mode_sbyte|].
  unfold sbyte_step. change (ss_phase (set_mode b s)) with (ss_phase s). destruct (ss_phase s); try done.
  - by apply (mode_str_step b true s c k key_done (fun s => s)).
  - by apply (mode_str_step b false s c k val_done (fun s => s)).
  - change (ss_num_phase (set_mode b s)) with (ss_num_phase s).
    destruct (num_next _ _) as [[p|]|]; [| |done].
    + apply mode_bind; [apply mode_append|done].
    + assert (Hf : same (with_mode b (finalize_number sink s k)) (finalize_number sink (set_mode b s) k))
        by apply mode_answered.
      destruct (finalize_number sink s k) as [e k1|s1 k1] eqn:Ef, (finalize_number sink (set_mode b s) k); try done.
      destruct Hf as [<- <-]. apply finalize_phase in Ef. by apply mode_sbyte.
  - cbn [ss_lit_matched ss_lit_kind set_mode set_lit]. destruct (negb _); [done|]. cbv zeta.
    destruct (_ =? _)%nat; [|done]. apply mode_bind; [apply mode_answered|done].
Qed.

Lemma mode_bytes `{!SplitInsensitive sink} b s l k :
  same (with_mode b (bytes s l k)) (bytes (set_mode b s) l k).
Proof.
  revert s k; induction l as [|c l IH]; intros s k; [done|]. cbn [bytes].
  apply mode_bind; [apply mode_step|apply IH].
Qed.

(** * Feeding *)

(** A call: it always answers; it is accepted exactly when the byte-by-byte
    scan is, with the same context and sink. *)
Lemma feed_bytes `{!SplitInsensitive sink} s l k : ss_err s = BB_OK ->
  exists rc s1 k1, bb_serialize_json_scan_feed sink s l k = Some (rc, s1, k1) /\
    match bytes s l k with
    | Ok s2 k2 => rc = BB_OK /\ s1 = s2 /\ k1 = k2
    | Err _ _ => rc <> BB_OK /\ ss_err s1 = rc
    end.
Proof.
  intros He. unfold bb_serialize_json_scan_feed. rewrite He. cbn [is_ok negb].
  assert (Hn : (is_num_phase (ss_phase s) <= 1)%nat) by (destruct (ss_phase s); cbn; lia).
  destruct (drive_bytes _ l (drive_fuel l) s k ltac:(reflexivity) ltac:(unfold drive_fuel; lia)) as (r & Hr & Hs).
  pose proof (real_drive _ _ _ _ _ Hr) as Hreal. rewrite Hr.
  destruct r as [e k1|s1 k1], (bytes s l k) as [e' k2|s2 k2]; try done; eexists _, _, _; (split; [reflexivity|]).
  - done.
  - by destruct Hs as [-> ->].
Qed.
End Bytes.

(** * Chunking *)

Section Chunks.
Context {K : Type} (sink : ingest K) `{!SplitInsensitive sink}.

(** What the scan of [l] from [s] ends in, when it is accepted. *)
Lemma feed_all_bytes chunks : forall s k, ss_err s = BB_OK ->
  exists rc s1 k1, feed_all sink s chunks k = Some (rc, s1, k1) /\
    match bytes sink s (concat chunks) k with
    | Ok s2 k2 => rc = BB_OK /\ s1 = s2 /\ k1 = k2
    | Err _ _ => rc <> BB_OK /\ ss_err s1 = rc
    end.
Proof.
  induction chunks as [|ch chunks IH]; intros s k He; cbn [feed_all concat].
  - eexists _, _, _. split; [reflexivity|]. cbn [bytes]. by rewrite He.
  - destruct (feed_bytes sink s ch k He) as (rc & s1 & k1 & -> & H). rewrite bytes_app.
    destruct (bytes sink s ch k) as [e k2|s2 k2] eqn:E; cbn [sbind].
    + destruct H as [Hrc Herr]. clear IH. revert s1 k1 Herr; induction chunks as [|ch' chunks IH]; intros s1 k1 Herr; cbn [feed_all].
      * eexists _, _, _. split; [reflexivity|]. by rewrite Herr.
      * unfold bb_serialize_json_scan_feed. destruct (is_ok (ss_err s1)) eqn:Eo.
        { apply is_ok_true in Eo. congruence. }
        cbn [negb]. apply IH. done.
    + destruct H as (_ & -> & ->). apply IH. pose proof (bytes_err sink s ch k) as H. rewrite E in H. cbn in H. congruence.
Qed.

(** The whole scan of a chunked document: code and sink. *)
Definition scan_chunks (chunks : list (list byte)) (k : K) : option (bb_err * K) :=
  match feed_all sink bb_serialize_json_scan_begin chunks k with
  | None => None
  | Some (_, s, k1) => let '(rc, _, k2) := bb_serialize_json_scan_end sink s k1 in Some (rc, k2)
  end.

(** The byte-by-byte scan with its end. *)
Definition scan_end_from (s : scan_state) (k : K) : bb_err * K :=
  let '(rc, _, k1) := bb_serialize_json_scan_end sink s k in (rc, k1).

Lemma end_sticky s k : ss_err s <> BB_OK -> scan_end_from s k = (ss_err s, k).
Proof. intros H. unfold scan_end_from, bb_serialize_json_scan_end. by destruct (ss_err s). Qed.

Lemma scan_chunks_bytes chunks k :
  exists rc k1, scan_chunks chunks k = Some (rc, k1) /\
    match bytes sink bb_serialize_json_scan_begin (concat chunks) k with
    | Ok s k2 => (rc, k1) = scan_end_from s k2
    | Err _ _ => rc <> BB_OK
    end.
Proof.
  destruct (feed_all_bytes chunks bb_serialize_json_scan_begin k eq_refl) as (rc & s1 & k1 & Hf & H).
  unfold scan_chunks. rewrite Hf. change (bb_serialize_json_scan_end sink s1 k1) with
    (bb_serialize_json_scan_end sink s1 k1). destruct (bytes _ _ _ _) as [e k2|s2 k2].
  - destruct H as [Hrc Herr]. pose proof (end_sticky s1 k1 ltac:(congruence)) as He. unfold scan_end_from in He.
    destruct (bb_serialize_json_scan_end sink s1 k1) as [[rc' s'] k']. injection He as -> ->.
    eexists _, _. split; [reflexivity|congruence].
  - destruct H as (_ & -> & ->). unfold scan_end_from.
    destruct (bb_serialize_json_scan_end sink s2 k2) as [[rc' s'] k']. by eexists _, _.
Qed.

(** The end of the scan does not look at the mode. *)
Lemma end_mode b s k : scan_end_from (set_mode b s) k = scan_end_from s k.
Proof.
  assert (Hfin : forall s k, (let '(rc, _, k1) := scan_finish (set_mode b s) k in (rc, k1)) =
    (let '(rc, _, k1) := scan_finish s k in (rc, k1) : bb_err * K)) by (intros []; cbn; by destruct ss_phase).
  unfold scan_end_from, bb_serialize_json_scan_end. cbn [ss_err set_mode ss_phase ss_num_phase].
  destruct (negb (is_ok (ss_err s))); [done|]. destruct (ss_phase s) eqn:Hp; try exact (Hfin s k).
  destruct (negb _); [done|].
  pose proof (mode_answered b (val_done s) (ig_value_num sink (cur_key s) (drop (ss_key_len s) (ss_scratch s)) k)) as H.
  unfold finalize_number. change (answered (set_phase (after_value_phase (set_mode b s)) (set_mode b s))
    (ig_value_num sink (cur_key (set_mode b s)) (drop (ss_key_len (set_mode b s)) (ss_scratch (set_mode b s))) k)) with
    (answered (set_mode b (val_done s)) (ig_value_num sink (cur_key s) (drop (ss_key_len s) (ss_scratch s)) k)).
  unfold answered, val_done in *. destruct (is_ok _); [|done]. apply (Hfin (val_done s)).
Qed.

Lemma scan_bounded_bytes buf k :
  exists rc k1, bb_serialize_json_scan_bounded sink buf k = Some (rc, k1) /\
    match bytes sink bb_serialize_json_scan_begin buf k with
    | Ok s k2 => (rc, k1) = scan_end_from s k2
    | Err _ _ => rc <> BB_OK
    end.
Proof.
  destruct (feed_bytes sink (scan_begin_internal true) buf k eq_refl) as (rc & s1 & k1 & Hf & H).
  unfold bb_serialize_json_scan_bounded. rewrite Hf.
  pose proof (mode_bytes sink true bb_serialize_json_scan_begin buf k) as Hm.
  change (set_mode true bb_serialize_json_scan_begin) with (scan_begin_internal true) in Hm.
  destruct (bytes sink (scan_begin_internal true) buf k) as [e k2|s2 k2],
    (bytes sink bb_serialize_json_scan_begin buf k) as [e' k2'|s2' k2']; try done.
  - destruct H as [Hrc _]. destruct (is_ok rc) eqn:E; [by apply is_ok_true in E|]. by exists rc, k1.
  - destruct H as (-> & -> & ->). cbn in Hm. destruct Hm as [<- <-]. cbn [is_ok negb].
    pose proof (end_mode true s2' k2') as He. unfold scan_end_from at 1 in He.
    destruct (bb_serialize_json_scan_end sink (set_mode true s2') k2') as [[rc s'] k']. by exists rc, k'.
Qed.

(** However the document is cut, whole or in pieces: the answers agree. *)
Lemma chunks_agree chunks k :
  exists rc k1 rc' k1', scan_chunks chunks k = Some (rc, k1) /\
    bb_serialize_json_scan_bounded sink (concat chunks) k = Some (rc', k1') /\
    (rc = BB_OK <-> rc' = BB_OK) /\ (rc = BB_OK -> k1 = k1').
Proof.
  destruct (scan_chunks_bytes chunks k) as (rc & k1 & H1 & H2).
  destruct (scan_bounded_bytes (concat chunks) k) as (rc' & k1' & H1' & H2').
  exists rc, k1, rc', k1'. split; [done|]. split; [done|].
  destruct (bytes sink bb_serialize_json_scan_begin (concat chunks) k) as [e k2|s k2]; [done|].
  rewrite <- H2 in H2'. injection H2' as -> ->. done.
Qed.
End Chunks.
