(* ===== verification/ScanSafe.v ===== *)
(** What a sink sees: the calls of a scan, for every sink, chunking and input,
    and the bounds of the scanner's own arrays. *)
From Stdlib Require Import Strings.String.
From S2P Require Import Prelude Bytes Num Float Walk JsonWrite JsonScan ScanBytes.
Local Open Scope scan_scope.

(** * Calls *)

Inductive call : Set :=
  | KBegin (arr : bool) (key : key_t) | KEnd (arr : bool)
  | KNum (key : key_t) (text : list byte) | KBool (key : key_t) (b : bool) | KNull (key : key_t)
  | KStr (key : key_t) (data : list byte) (fin : bool) (p : span_provenance).

(** The sink that keeps its history; a sink's answer is a function of it, so
    [answer] ranges over every sink. *)
Definition log_sink (answer : list call -> bb_err) : ingest (list call) :=
  let say c log := (answer (log ++ [c]), log ++ [c]) in
  mk_ingest (fun key => say (KBegin false key)) (say (KEnd false)) (fun key => say (KBegin true key)) (say (KEnd true))
    (fun key n => say (KNum key n)) (fun key b => say (KBool key b)) (fun key => say (KNull key))
    (fun key d fin p => say (KStr key d fin p)).

(** * The contract of the calls *)

(** What a sink may assume after the calls so far: the containers open, the
    string in progress with its key, and whether the root value is complete. *)
Record view := mk_view { v_stack : list bool; v_open : option key_t; v_done : bool }.
Definition view0 : view := mk_view [] None false.

(** A key only in an object, never empty, never longer than the scratch. *)
Definition key_ok (st : list bool) (key : key_t) : bool :=
  match key with
  | None => true
  | Some [] => false
  | Some k => match st with false :: _ => (length k <=? BB_SERIALIZE_JSON_SCRATCH_MAX_BYTES)%nat | _ => false end
  end.

(** Where the number automaton is after a number's text so far. *)
Fixpoint num_run (p : num_phase_t) (l : list byte) : option num_phase_t :=
  match l with
  | [] => Some p
  | c :: rest => match num_next p c with Some (Some p') => num_run p' rest | _ => None end
  end.
Definition num_prefix (l : list byte) : option num_phase_t :=
  match l with
  | [] => None
  | c :: rest =>
      if is_digit c then num_run NUM_INT_DIGITS rest
      else if Byte.eqb c x2d then num_run NUM_START rest else None
  end.
Definition num_complete (l : list byte) : bool :=
  match num_prefix l with Some p => num_phase_is_terminal p | None => false end.

Definition prov_ok (bounded : bool) (p : span_provenance) : bool :=
  match p with
  | SPAN_CALLER_STABLE => bounded
  | SPAN_CALLER_FEED_SCOPED => negb bounded
  | SPAN_SCANNER_SCRATCH => true
  end.

Definition ready (v : view) (key : key_t) : bool :=
  bool_decide (v_open v = None) && negb (v_done v) && key_ok (v_stack v) key.
Definition after_value (st : list bool) : view := mk_view st None (bool_decide (st = [])).

(** The calls a sink may receive next.  In bounded mode an empty span is the
    only span of an empty string. *)
Definition call_step (bounded : bool) (v : view) (c : call) : option view :=
  match c with
  | KBegin arr key =>
      if ready v key && (length (v_stack v) <? BB_SERIALIZE_MAX_DEPTH)%nat
      then Some (mk_view (arr :: v_stack v) None false) else None
  | KEnd arr =>
      match v_open v, v_stack v with
      | None, a :: st => if Bool.eqb a arr then Some (after_value st) else None
      | _, _ => None
      end
  | KNum key text => if ready v key && num_complete text then Some (after_value (v_stack v)) else None
  | KBool key _ | KNull key => if ready v key then Some (after_value (v_stack v)) else None
  | KStr key d fin p =>
      let continues := bool_decide (v_open v = Some key) in
      if (continues || ready v key) && prov_ok bounded p &&
         (negb (bool_decide (d = [])) || fin && (negb bounded || negb continues))
      then Some (if fin then after_value (v_stack v) else mk_view (v_stack v) (Some key) false)
      else None
  end.

Definition conforming (bounded : bool) (log : list call) : option view :=
  fold_left (fun v c => match v with Some v => call_step bounded v c | None => None end) log (Some view0).

Lemma conforming_snoc bounded log c v :
  conforming bounded log = Some v -> conforming bounded (log ++ [c]) = call_step bounded v c.
Proof. unfold conforming. rewrite fold_left_app. by intros ->. Qed.

(** * The scanner's invariant *)

(** [strict]: inside a bounded call, where no string is in progress between two
    iterations of the loop. *)
Definition phase_inv (strict : bool) (s : scan_state) (v : view) : Prop :=
  match ss_phase s with
  | PH_ROOT => ss_stack s = [] /\ v_open v = None /\ v_done v = false
  | PH_AFTER_ROOT => ss_stack s = [] /\ v_open v = None /\ v_done v = true
  | PH_OBJ_KEY_OR_CLOSE | PH_OBJ_KEY_ONLY | PH_OBJ_AFTER_VALUE =>
      (exists st, ss_stack s = false :: st) /\ v_open v = None /\ v_done v = false
  | PH_OBJ_COLON | PH_OBJ_VALUE =>
      (exists st, ss_stack s = false :: st) /\ v_open v = None /\ v_done v = false /\
      length (ss_scratch s) = ss_key_len s
  | PH_KEY_STR => (exists st, ss_stack s = false :: st) /\ v_open v = None /\ v_done v = false /\ ss_key_len s = 0%nat
  | PH_ARR_ELEM_OR_CLOSE | PH_ARR_ELEM_ONLY | PH_ARR_AFTER_VALUE =>
      (exists st, ss_stack s = true :: st) /\ v_open v = None /\ v_done v = false
  | PH_VAL_STR =>
      v_done v = false /\ key_ok (ss_stack s) (cur_key s) = true /\
      (v_open v = None /\ (strict = true -> ss_esc_phase s = ESC_NONE) \/ v_open v = Some (cur_key s) /\ strict = false)
  | PH_VAL_NUM =>
      v_done v = false /\ v_open v = None /\ key_ok (ss_stack s) (cur_key s) = true /\
      num_prefix (drop (ss_key_len s) (ss_scratch s)) = Some (ss_num_phase s)
  | PH_VAL_LIT =>
      v_done v = false /\ v_open v = None /\ key_ok (ss_stack s) (cur_key s) = true /\
      (ss_lit_matched s < length (lit_text (ss_lit_kind s)))%nat
  end.

(** The arrays of the context, [obj_stack] and [scratch], are never overrun,
    and no error is pending. *)
Record in_bounds (bounded : bool) (s : scan_state) : Prop := {
  ib_depth : (length (ss_stack s) <= BB_SERIALIZE_MAX_DEPTH)%nat;
  ib_mode : ss_bounded_mode s = bounded;
  ib_scratch : (length (ss_scratch s) <= BB_SERIALIZE_JSON_SCRATCH_MAX_BYTES)%nat;
  ib_key : (ss_key_len s <= length (ss_scratch s))%nat;
  ib_err : ss_err s = BB_OK
}.
Record scan_inv (bounded strict : bool) (s : scan_state) (v : view) : Prop := {
  si_stack : v_stack v = ss_stack s;
  si_bounds : in_bounds bounded s;
  si_phase : phase_inv strict s v
}.

(** * Results that keep to the contract *)

Section Contract.
Context (answer : list call -> bb_err) (bounded : bool).
Abbreviation sink := (log_sink answer).
Abbreviation log := (list call).

(** The calls made conform, and a result that goes on satisfies [Q]; an error
    is never BB_OK. *)
Definition holds {A} (r : sres log A) (Q : A -> view -> Prop) : Prop :=
  match r with
  | Ok a k => exists v, conforming bounded k = Some v /\ Q a v
  | Err e k => e <> BB_OK /\ exists v, conforming bounded k = Some v
  end.

Lemma holds_bind {A B} (r : sres log A) (f : A -> log -> sres log B) Q R :
  holds r Q -> (forall a k v, conforming bounded k = Some v -> Q a v -> holds (f a k) R) -> holds (sbind r f) R.
Proof. destruct r as [e k|a k]; cbn [sbind holds]; [done|]. intros (v & Hv & Ha) Hf. by apply (Hf a k v). Qed.

Lemma holds_mono {A} (r : sres log A) (Q R : A -> view -> Prop) :
  holds r Q -> (forall a v, Q a v -> R a v) -> holds r R.
Proof. destruct r as [e k|a k]; cbn; [done|]. intros (v & Hv & Ha) H. eauto. Qed.

Lemma holds_ok {A} (a : A) k v (Q : A -> view -> Prop) : conforming bounded k = Some v -> Q a v -> holds (Ok a k) Q.
Proof. cbn. eauto. Qed.
Lemma holds_err {A} e k v (Q : A -> view -> Prop) : conforming bounded k = Some v -> e <> BB_OK -> holds (Err e k) Q.
Proof. cbn. eauto. Qed.

(** An allowed call. *)
Lemma holds_call {A} (a : A) k v c v' :
  conforming bounded k = Some v -> call_step bounded v c = Some v' ->
  holds (answered a (answer (k ++ [c]), k ++ [c])) (fun a' w => a' = a /\ w = v').
Proof.
  intros Hk Hc. rewrite <- (conforming_snoc _ _ _ _ Hk) in Hc. unfold answered. cbn [fst snd].
  destruct (is_ok (answer (k ++ [c]))) eqn:E; cbn; [eauto|]. split; [|eauto]. intros H. by rewrite H in E.
Qed.

Lemma holds_append s d k v : conforming bounded k = Some v ->
  holds (scratch_append s d k) (fun s' w => w = v /\ s' = set_scratch (ss_scratch s ++ d) (ss_key_len s) s /\
    (length (ss_scratch s ++ d) <= BB_SERIALIZE_JSON_SCRATCH_MAX_BYTES)%nat).
Proof.
  intros Hk. unfold scratch_append.
  destruct (Nat.ltb_spec BB_SERIALIZE_JSON_SCRATCH_MAX_BYTES (length (ss_scratch s) + length d)).
  - by eapply holds_err.
  - eapply holds_ok; [done|]. rewrite length_app. auto.
Qed.

(** ** Leaving a value *)

Lemma after_value_inv strict s st : ss_stack s = st -> in_bounds bounded s ->
  scan_inv bounded strict (val_done s) (after_value st).
Proof.
  intros <- H. split; [done|by destruct H|]. unfold phase_inv, after_value, val_done, after_value_phase.
  cbn [ss_phase set_phase ss_stack v_open v_done]. destruct (ss_stack s) as [|[] st]; split_and!; eauto.
Qed.

Lemma weaken strict s v : scan_inv bounded strict s v -> scan_inv bounded false s v.
Proof.
  intros [H1 [H2 H3 H4 H5 H7] H6]. split; try done. unfold phase_inv in *. destruct (ss_phase s); try done.
  destruct H6 as (Ha & Hb & Hc). split_and!; [done|done|]. destruct Hc as [[Hc _]|[Hc _]]; [left|right]; done.
Qed.

(** Ready for a value: what [dispatch_value_start] needs. *)
Lemma ready_true v key : v_open v = None -> v_done v = false -> key_ok (v_stack v) key = true -> ready v key = true.
Proof. unfold ready. intros -> -> ->. done. Qed.

(** ** Numbers and literals *)

Lemma num_run_snoc p l c q r : num_run p l = Some q -> num_next q c = Some (Some r) -> num_run p (l ++ [c]) = Some r.
Proof.
  revert p; induction l as [|b l IH]; intros p; cbn [num_run app]; [by intros [= ->] ->|].
  destruct (num_next p b) as [[p'|]|]; [apply IH|done|done].
Qed.
Lemma num_prefix_snoc l c q r : num_prefix l = Some q -> num_next q c = Some (Some r) -> num_prefix (l ++ [c]) = Some r.
Proof.
  destruct l as [|b l]; [done|]. cbn [num_prefix app]. destruct (is_digit b); [apply num_run_snoc|].
  destruct (Byte.eqb b x2d); [apply num_run_snoc|done].
Qed.

Lemma cur_key_same s s' : ss_key_len s' = ss_key_len s ->
  take (ss_key_len s) (ss_scratch s') = take (ss_key_len s) (ss_scratch s) -> cur_key s' = cur_key s.
Proof. unfold cur_key. intros -> ->. done. Qed.

Lemma number_holds strict l : forall s k v,
  ss_phase s = PH_VAL_NUM -> conforming bounded k = Some v -> scan_inv bounded strict s v ->
  holds (scan_number s l k) (fun r w => w = v /\ ss_phase r.1.1 = PH_VAL_NUM /\ scan_inv bounded strict r.1.1 v /\
    (r.1.2 = true -> num_phase_is_terminal (ss_num_phase r.1.1) = true) /\ (length r.2 <= length l)%nat).
Proof.
  induction l as [|c l IH]; intros s k v Hp Hk Hi; cbn [scan_number].
  { eapply holds_ok; [done|]. split_and!; auto; done. }
  destruct (num_next (ss_num_phase s) c) as [[p|]|] eqn:En.
  - eapply holds_bind; [by apply holds_append|]. cbn beta. intros s' k' w Hk' (-> & -> & Hl).
    set (s1 := set_num_phase p _). eapply holds_mono; [apply (IH s1 k' v); [done|done|]|].
    + destruct Hi as [H1 [H2 H3 H4 H5 H7] H6]. unfold phase_inv in H6. rewrite Hp in H6. destruct H6 as (Ha & Hb & Hc & Hd).
      split; [done| |].
      * split; try done. cbn. rewrite length_app. lia.
      * unfold phase_inv. change (ss_phase s1) with (ss_phase s). rewrite Hp. split_and!; try done.
        -- change (ss_stack s1) with (ss_stack s). rewrite <- Hc. f_equal. apply cur_key_same; [done|]. cbn.
           by rewrite take_app_le by lia.
        -- cbn. rewrite drop_app_le by lia. by eapply num_prefix_snoc.
    + cbn. intros r w (-> & Hr1 & Hr2 & Hr3 & Hr4). split_and!; auto; lia.
  - eapply holds_ok; [done|]. cbn. split_and!; auto. intros _. by destruct (ss_num_phase s), c.
  - by eapply holds_err.
Qed.

Lemma literal_holds strict l : forall s k v,
  ss_phase s = PH_VAL_LIT -> conforming bounded k = Some v -> scan_inv bounded strict s v -> 
  holds (scan_literal s l k) (fun r w => w = v /\
    (if r.1.2 then (length r.2 < length l)%nat /\ exists kd n, r.1.1 = set_lit kd n s
     else scan_inv bounded strict r.1.1 v /\ r.2 = [])).
Proof.
  induction l as [|c l IH]; intros s k v Hp Hk Hi; cbn [scan_literal]; [by eapply holds_ok|].
  destruct (negb _); [by eapply holds_err|]. cbv zeta. set (s1 := set_lit _ _ s).
  assert (H0 : forall kd n, (n < length (lit_text kd))%nat -> scan_inv bounded strict (set_lit kd n s) v).
  { intros kd n Hn. destruct Hi as [H1 [H2 H3 H4 H5 H7] H6]. split; try done.
    unfold phase_inv in *. change (ss_phase (set_lit kd n s)) with (ss_phase s). rewrite Hp in *. by destruct H6 as (? & ? & ? & ?). }
  destruct (Nat.eqb_spec (ss_lit_matched s1) (length (lit_text (ss_lit_kind s1)))) as [E|E].
  - eapply holds_ok; [done|]. cbn [fst snd length]. split; [done|]. split; [lia|by eexists _, _].
  - eapply holds_mono; [apply (IH s1 k v); [done|done|]|].
    + apply H0. pose proof (si_phase _ _ _ _ Hi) as H6. unfold phase_inv in H6. rewrite Hp in H6.
      destruct H6 as (_ & _ & _ & H6). cbn in E |- *. lia.
    + cbn beta. intros [[r b] tl] w [-> H]. split; [done|]. cbn [fst snd] in *. destruct b; [|done].
      destruct H as (Hr & kd & n & ->). split; [cbn [length]; lia|]. by exists kd, n.
Qed.

Lemma finalize_holds strict s k v :
  ss_phase s = PH_VAL_NUM -> conforming bounded k = Some v -> scan_inv bounded strict s v ->
  num_phase_is_terminal (ss_num_phase s) = true ->
  holds (finalize_number sink s k) (fun s' w => scan_inv bounded strict s' w /\ ss_phase s' = after_value_phase s).
Proof.
  intros Hp Hk Hi Ht. pose proof (si_phase _ _ _ _ Hi) as H6. unfold phase_inv in H6. rewrite Hp in H6.
  destruct H6 as (Ha & Hb & Hc & Hd).
  eapply holds_mono; [eapply (holds_call _ _ _ (KNum _ _)); [done|]|].
  - cbn [call_step]. rewrite ready_true by (rewrite ?(si_stack _ _ _ _ Hi); done).
    unfold num_complete. rewrite Hd, Ht. reflexivity.
  - cbn beta. intros s' w [-> ->]. split; [|done]. rewrite (si_stack _ _ _ _ Hi). apply after_value_inv; [done|apply Hi].
Qed.

Lemma emit_literal_holds s k v :
  conforming bounded k = Some v -> v_open v = None -> v_done v = false -> key_ok (v_stack v) (cur_key s) = true ->
  holds (emit_literal sink s k) (fun s' w => s' = s /\ w = after_value (v_stack v)).
Proof.
  intros Hk Ha Hb Hc. unfold emit_literal. pose proof (ready_true _ _ Ha Hb Hc) as Hr.
  destruct (ss_lit_kind s); (eapply (holds_call s k v (KBool _ _)) || eapply (holds_call s k v (KNull _)));
    try done; cbn [call_step]; by rewrite Hr.
Qed.

(** ** Containers *)

Lemma close_holds strict s k v arr st :
  conforming bounded k = Some v -> scan_inv bounded strict s v -> v_open v = None -> ss_stack s = arr :: st ->
  holds (close_container sink s k) (fun s' w => scan_inv bounded strict s' w).
Proof.
  intros Hk Hi Ho Hst. unfold close_container. rewrite Hst.
  assert (Hc : call_step bounded v (KEnd arr) = Some (after_value st)).
  { cbn [call_step]. rewrite Ho, (si_stack _ _ _ _ Hi), Hst. by destruct arr. }
  assert (Hb : in_bounds bounded (set_stack st s)).
  { destruct Hi as [_ [H2 H3 H4 H5 H7] _]. split; try done. rewrite Hst in H2. cbn in *. lia. }
  eapply (holds_mono _ (fun a' w => a' = val_done (set_stack st s) /\ w = after_value st)).
  - destruct arr; by eapply holds_call.
  - cbn beta. intros s' w [-> ->]. by apply after_value_inv.
Qed.

Lemma open_holds strict s k v arr :
  conforming bounded k = Some v -> in_bounds bounded s -> v_stack v = ss_stack s ->
  v_open v = None -> v_done v = false -> key_ok (ss_stack s) (cur_key s) = true ->
  holds (open_container sink arr s k) (fun s' w => scan_inv bounded strict s' w).
Proof.
  intros Hk Hb Hst Ho Hd Hkey. unfold open_container.
  destruct (Nat.leb_spec BB_SERIALIZE_MAX_DEPTH (length (ss_stack s))); [by eapply holds_err|].
  rewrite <- Hst in Hkey. pose proof (ready_true _ _ Ho Hd Hkey) as Hr.
  assert (Hc : call_step bounded v (KBegin arr (cur_key s)) = Some (mk_view (arr :: ss_stack s) None false)).
  { cbn [call_step]. rewrite Hr, Hst. destruct (Nat.ltb_spec (length (ss_stack s)) BB_SERIALIZE_MAX_DEPTH); [done|lia]. }
  eapply (holds_bind _ _ (fun a' w => a' = s /\ w = mk_view (arr :: ss_stack s) None false)).
  - destruct arr; by eapply holds_call.
  - cbn beta. intros s' k' w Hk' [-> ->]. eapply holds_ok; [done|]. split; [done| |].
    + by destruct Hb as [H2 H3 H4 H5 H7].
    + unfold phase_inv. cbn [ss_phase set_phase]. destruct arr; cbn; eauto.
Qed.

Lemma dispatch_holds strict s0 c (keyed : bool) k v :
  conforming bounded k = Some v -> in_bounds bounded s0 -> v_stack v = ss_stack s0 ->
  v_open v = None -> v_done v = false ->
  (if keyed then length (ss_scratch s0) = ss_key_len s0 /\ (exists st, ss_stack s0 = false :: st) else True) ->
  holds (dispatch_value_start sink s0 c keyed k) (fun s' w => scan_inv bounded strict s' w).
Proof.
  intros Hk Hb0 Hst Ho Hd Hkeyed. unfold dispatch_value_start. set (s := if keyed then s0 else set_scratch [] 0 s0).
  assert (Hs : in_bounds bounded s /\ ss_stack s = ss_stack s0 /\ length (ss_scratch s) = ss_key_len s /\
    key_ok (ss_stack s) (cur_key s) = true).
  { subst s. destruct keyed.
    - destruct Hkeyed as [Hl [st Hs0]]. split_and!; try done. unfold key_ok, cur_key. rewrite Hs0.
      destruct (Nat.eqb_spec (ss_key_len s0) 0); [done|].
      rewrite <- Hl, firstn_all. destruct (ss_scratch s0) eqn:E; [cbn in Hl; lia|]. rewrite <- E.
      apply Nat.leb_le. apply Hb0.
    - split_and!; try done. destruct Hb0 as [H2 H3 H4 H5 H7]. split; try done; cbn; lia. }
  clearbody s. destruct Hs as (Hb & Hst' & Hl & Hkey). rewrite <- Hst' in Hst.
  assert (Hnum : forall p, num_prefix [c] = Some p ->
    holds (sbind (scratch_append s [c] k) (fun s1 k1 => Ok (set_phase PH_VAL_NUM (set_num_phase p s1)) k1 : sres log scan_state))
      (fun s' w => scan_inv bounded strict s' w)).
  { intros p Hp. eapply holds_bind; [by apply holds_append|]. cbn beta. intros s1 k1 w Hk1 (-> & -> & Hroom).
    eapply holds_ok; [done|]. split; [done| |].
    - destruct Hb as [H2 H3 H4 H5 H7]. split; try done. cbn. rewrite length_app. lia.
    - split_and!; try done.
      + rewrite <- Hkey. f_equal. apply cur_key_same; [done|]. cbn. by rewrite take_app_le by lia.
      + cbn. rewrite drop_app_ge by lia. by replace (ss_key_len s - length (ss_scratch s))%nat with O by lia. }
  assert (Hlit : forall kd, holds (Ok (set_phase PH_VAL_LIT (set_lit kd 1 s)) k : sres log scan_state)
      (fun s' w => scan_inv bounded strict s' w)).
  { intros kd. eapply holds_ok; [done|]. split; [done|by destruct Hb|]. split_and!; try done. cbn. destruct kd; cbn; lia. }
  assert (Hopen : forall arr, holds (open_container sink arr s k) (fun s' w => scan_inv bounded strict s' w)).
  { intros arr. by eapply open_holds. }
  destruct (is_digit c) eqn:Hdig; [apply Hnum; cbn; by rewrite Hdig|].
  destruct c; try (by eapply holds_err); try apply Hlit; try apply Hopen; try (by apply Hnum).
  eapply holds_ok; [done|]. split; [done|by destruct Hb|]. split_and!; try done. left. done.
Qed.

(** ** Strings *)

Lemma key_string_holds strict l : forall s run k v,
  ss_phase s = PH_KEY_STR -> conforming bounded k = Some v -> scan_inv bounded strict s v ->
  holds (scan_string sink true s run l k) (fun o w => w = v /\ ss_phase (so_state o) = PH_KEY_STR /\
    scan_inv bounded strict (so_state o) v /\ (so_closed o = true -> (length (so_rest o) < length l)%nat)).
Proof.
  assert (Hemit : forall s d fin p k v, ss_phase s = PH_KEY_STR -> conforming bounded k = Some v -> scan_inv bounded strict s v ->
    holds (emit_str_bytes sink s d fin true p k) (fun s' w => w = v /\ ss_phase s' = PH_KEY_STR /\ scan_inv bounded strict s' v)).
  { intros s d fin p k v Hp Hk [H1 [H2 H3 H4 H5 H7] H6]. eapply holds_mono; [by apply holds_append|].
    cbn beta. intros s' w (-> & -> & Hl). split_and!; [done|done|]. split; [done| |].
    - split; try done. cbn. rewrite length_app. lia.
    - unfold phase_inv in *. cbn [ss_phase set_scratch]. by rewrite Hp in *. }
  assert (Hesc : forall s v p cu hi, ss_phase s = PH_KEY_STR -> scan_inv bounded strict s v ->
    scan_inv bounded strict (set_esc p cu hi s) v).
  { intros s v p cu hi Hp [H1 H2 H6]. split; [done|by destruct H2|].
    unfold phase_inv in *. cbn [ss_phase set_esc]. by rewrite Hp in *. }
  assert (Hescape : forall s v c s' d, ss_phase s = PH_KEY_STR -> scan_inv bounded strict s v ->
    scan_escape_byte s c = Some (s', d) -> ss_phase s' = PH_KEY_STR /\ scan_inv bounded strict s' v).
  { intros s v c s' d Hp Hi H. unfold scan_escape_byte in H.
    repeat (dmatch_in H; try done); injection H as <- _; (split; [exact Hp|by apply Hesc]). }
  induction l as [|c l IH]; intros s run k v Hp Hk Hi; cbn [scan_string].
  { destruct run; [by eapply holds_ok|]. eapply holds_bind; [by apply Hemit|]. cbn beta.
    intros s1 k1 w Hk1 (-> & H1 & H2). by eapply holds_ok. }
  assert (Hrec : forall s1 run1 k1, ss_phase s1 = PH_KEY_STR -> conforming bounded k1 = Some v -> scan_inv bounded strict s1 v ->
    holds (scan_string sink true s1 run1 l k1) (fun o w => w = v /\ ss_phase (so_state o) = PH_KEY_STR /\
      scan_inv bounded strict (so_state o) v /\ (so_closed o = true -> (length (so_rest o) < length (c :: l))%nat))).
  { intros s1 run1 k1 H1 H2 H3. eapply holds_mono; [by apply IH|]. cbn. intros o w (-> & Ha & Hb & Hc).
    split_and!; try done. intros Hcl. specialize (Hc Hcl). lia. }
  assert (Hesc_case : holds (match scan_escape_byte s c with
      | None => Err BB_ERR_PARSE_GRAMMAR k
      | Some (s1, []) => scan_string sink true s1 [] l k
      | Some (s1, (_ :: _) as decoded) =>
          match closing_quote l with
          | Some rest' =>
              let* (s2, k2) := emit_str_bytes sink s1 decoded true true SPAN_SCANNER_SCRATCH k in
              Ok (mk_so s2 true rest') k2
          | None =>
              let* (s2, k2) := emit_str_bytes sink s1 decoded false true SPAN_SCANNER_SCRATCH k in
              scan_string sink true s2 [] l k2
          end
      end) (fun o w => w = v /\ ss_phase (so_state o) = PH_KEY_STR /\
      scan_inv bounded strict (so_state o) v /\ (so_closed o = true -> (length (so_rest o) < length (c :: l))%nat))).
  { destruct (scan_escape_byte s c) as [[s1 [|d ds]]|] eqn:E; [| |by eapply holds_err];
      destruct (Hescape s v c s1 _ Hp Hi E) as [Hp1 Hi1]; [by apply Hrec|].
    destruct (closing_quote l) as [rest'|] eqn:Eq; (eapply holds_bind; [by apply Hemit|]); cbn beta;
      intros s2 k2 w Hk2 (-> & H1 & H2); [|by apply Hrec].
    eapply holds_ok; [done|]. split_and!; try done. intros _. destruct l as [|b l']; [done|].
    cbn in Eq. destruct (Byte.eqb b x22); [|done]. injection Eq as ->. cbn. lia. }
  destruct (ss_esc_phase s); try exact Hesc_case. clear Hesc_case.
  destruct (Byte.eqb c x22).
  - eapply holds_bind; [by apply Hemit|]. cbn beta. intros s1 k1 w Hk1 (-> & H1 & H2). eapply holds_ok; [done|].
    split_and!; try done. cbn. lia.
  - destruct (Byte.eqb c x5c); [|destruct (bz c <? 32); [by eapply holds_err|by apply Hrec]].
    destruct run; [by apply Hrec; [| |apply Hesc]|].
    eapply holds_bind; [by apply Hemit|]. cbn beta. intros s1 k1 w Hk1 (-> & H1 & H2).
    by apply Hrec; [| |apply Hesc].
Qed.

(** In a value string. *)
Record str_inv (s : scan_state) (v : view) : Prop := {
  sv_phase : ss_phase s = PH_VAL_STR;
  sv_bounds : in_bounds bounded s;
  sv_stack : v_stack v = ss_stack s;
  sv_done : v_done v = false;
  sv_key : key_ok (ss_stack s) (cur_key s) = true;
  sv_open : v_open v = None \/ v_open v = Some (cur_key s)
}.

Lemma str_inv_scan s v : str_inv s v -> scan_inv bounded false s v.
Proof. intros [H1 H2 H3 H4 H5 H6]. split; try done. unfold phase_inv. rewrite H1. split; [done|]. split; [done|]. destruct H6; [by left|by right]. Qed.

Lemma str_inv_esc p cu hi s v : str_inv s v -> str_inv (set_esc p cu hi s) v.
Proof. intros [H1 H2 H3 H4 H5 H6]. split; try done. by destruct H2. Qed.

Lemma str_inv_escape s v c s' d : str_inv s v -> scan_escape_byte s c = Some (s', d) -> str_inv s' v.
Proof.
  intros Hi H. unfold scan_escape_byte in H.
  repeat (dmatch_in H; try done); injection H as <- _; by apply str_inv_esc.
Qed.

Lemma emit_value_holds s d fin p k v :
  conforming bounded k = Some v -> str_inv s v -> prov_ok bounded p = true ->
  d <> [] \/ fin = true /\ (bounded = true -> v_open v = None) ->
  holds (emit_str_bytes sink s d fin false p k)
    (fun s' w => s' = s /\ w = if fin then after_value (ss_stack s) else mk_view (ss_stack s) (Some (cur_key s)) false).
Proof.
  intros Hk [H1 H2 H3 H4 H5 H6] Hp Hd. cbn [emit_str_bytes].
  eapply (holds_call s k v (KStr (cur_key s) d fin p)); [done|]. cbn [call_step]. rewrite Hp.
  assert (bool_decide (v_open v = Some (cur_key s)) || ready v (cur_key s) = true) as ->.
  { destruct H6 as [H6|H6]; [|by rewrite bool_decide_true]. rewrite <- H3 in H5. rewrite (ready_true _ _ H6 H4 H5). apply orb_true_r. }
  assert (negb (bool_decide (d = [])) || fin && (negb bounded || negb (bool_decide (v_open v = Some (cur_key s)))) = true) as ->.
  { destruct Hd as [Hd|[-> Hd]]; [by rewrite bool_decide_false|]. destruct bounded; [|by rewrite orb_true_r].
    rewrite (Hd eq_refl). by rewrite orb_true_r. }
  cbn [andb]. rewrite H3. by destruct fin.
Qed.

Lemma str_inv_opened s v : str_inv s v -> str_inv s (mk_view (ss_stack s) (Some (cur_key s)) false).
Proof. intros [H1 H2 H3 H4 H5 H6]. split; try done. by right. Qed.

Lemma direct_ok s v : str_inv s v -> prov_ok bounded (direct_span_provenance s) = true.
Proof. intros [_ [_ H _ _ _] _ _ _ _]. unfold direct_span_provenance. rewrite H. by destruct bounded. Qed.

Lemma value_string_holds strict l : forall s run k v,
  conforming bounded k = Some v -> str_inv s v -> (run <> [] -> ss_esc_phase s = ESC_NONE) ->
  (bounded = true -> v_open v = None \/ ss_esc_phase s <> ESC_NONE \/ run <> [] \/ closing_quote l = None) ->
  holds (scan_string sink false s run l k) (fun o w =>
    if so_closed o then scan_inv bounded strict (val_done (so_state o)) w /\ (length (so_rest o) < length l)%nat
    else scan_inv bounded false (so_state o) w).
Proof.
  induction l as [|c l IH]; intros s run k v Hk Hi Hrun Hb; cbn [scan_string].
  { destruct run as [|a run]; [eapply holds_ok; [done|]; by apply str_inv_scan|].
    eapply holds_bind; [eapply emit_value_holds; [done|done|by eapply direct_ok|by left]|]. cbn beta.
    intros s1 k1 w Hk1 [-> ->]. eapply holds_ok; [done|]. by eapply str_inv_scan, str_inv_opened. }
  set (Q := fun o w => if so_closed o then _ else _).
  assert (Hrec : forall s1 run1 k1 v1, conforming bounded k1 = Some v1 -> str_inv s1 v1 -> (run1 <> [] -> ss_esc_phase s1 = ESC_NONE) ->
    (bounded = true -> v_open v1 = None \/ ss_esc_phase s1 <> ESC_NONE \/ run1 <> [] \/ closing_quote l = None) ->
    holds (scan_string sink false s1 run1 l k1) Q).
  { intros s1 run1 k1 v1 H1 H2 H3 H4. eapply holds_mono; [by eapply IH|]. subst Q. cbn. intros o w.
    destruct (so_closed o); [|done]. intros [? ?]. split; [done|lia]. }
  assert (Hlast : forall s1 d p rest k1 v1, conforming bounded k1 = Some v1 -> str_inv s1 v1 -> prov_ok bounded p = true ->
    d <> [] \/ (bounded = true -> v_open v1 = None) -> (length rest < length (c :: l))%nat ->
    holds (let* (s2, k2) := emit_str_bytes sink s1 d true false p k1 in Ok (mk_so s2 true rest) k2) Q).
  { intros s1 d p rest k1 v1 H1 H2 H3 H4 H5. eapply holds_bind; [eapply emit_value_holds; [done|done|done|]; by destruct H4; auto|].
    cbn beta. intros s2 k2 w Hk2 [-> ->]. eapply holds_ok; [done|]. split; [|done]. apply after_value_inv; [done|apply H2]. }
  assert (Hesc_case : ss_esc_phase s <> ESC_NONE -> holds (match scan_escape_byte s c with
      | None => Err BB_ERR_PARSE_GRAMMAR k
      | Some (s1, []) => scan_string sink false s1 [] l k
      | Some (s1, (_ :: _) as decoded) =>
          match closing_quote l with
          | Some rest' =>
              let* (s2, k2) := emit_str_bytes sink s1 decoded true false SPAN_SCANNER_SCRATCH k in
              Ok (mk_so s2 true rest') k2
          | None =>
              let* (s2, k2) := emit_str_bytes sink s1 decoded false false SPAN_SCANNER_SCRATCH k in
              scan_string sink false s2 [] l k2
          end
      end) Q).
  { intros Hesc. destruct (scan_escape_byte s c) as [[s1 [|d ds]]|] eqn:E; [| |by eapply holds_err];
      pose proof (str_inv_escape s v c s1 _ Hi E) as Hi1.
    - apply (Hrec _ _ _ v); try done. intros _. right; left.
      unfold scan_escape_byte in E. repeat (dmatch_in E; try done); try (injection E as <-; done).
      all: injection E as _ E; unfold utf8_encode in E; repeat (dmatch_in E; try done).
    - destruct (closing_quote l) as [rest'|] eqn:Eq.
      + apply (Hlast _ _ _ _ _ v); try done; [by left|]. destruct l as [|b l']; [done|].
        cbn in Eq. destruct (Byte.eqb b x22); [|done]. injection Eq as ->. cbn. lia.
      + eapply holds_bind; [eapply emit_value_holds; [done|done|done|by left]|]. cbn beta. intros s2 k2 w Hk2 [-> ->].
        eapply Hrec; [done|by eapply str_inv_opened|done|]. intros _. auto. }
  destruct (ss_esc_phase s) eqn:Ep; try (by apply Hesc_case). clear Hesc_case.
  destruct (Byte.eqb c x22) eqn:Hq.
  - apply (Hlast _ _ _ _ _ v); try done; [by eapply direct_ok| |cbn; lia].
    destruct run; [|by left]. right. intros Hbd. destruct (Hb Hbd) as [?|[?|[?|Hc]]]; try done. cbn in Hc. by rewrite Hq in Hc.
  - destruct (Byte.eqb c x5c).
    + destruct run as [|a run]; [eapply Hrec; [done|by apply str_inv_esc|done|]; intros _; by right; left|].
      eapply holds_bind; [eapply emit_value_holds; [done|done|by eapply direct_ok|by left]|]. cbn beta. intros s1 k1 w Hk1 [-> ->].
      eapply Hrec; [done|by eapply str_inv_esc, str_inv_opened|done|]. intros _; by right; left.
    + destruct (bz c <? 32); [by eapply holds_err|]. eapply Hrec; [done|done|done|]. intros _. right; right; left. by destruct run.
Qed.

(** ** The loop *)

(** What an iteration leaves: the invariant, and when the loop goes on, less
    to do. *)
Definition iter_post (l : list byte) (p : phase_t) (o : scan_state * option (list byte)) (w : view) : Prop :=
  match o.2 with
  | Some rest =>
      scan_inv bounded bounded o.1 w /\
      (2 * length rest + is_num_phase (ss_phase o.1) < 2 * length l + is_num_phase p)%nat
  | None => scan_inv bounded false o.1 w
  end.

Lemma iter_shorter l p s w (rest : list byte) :
  scan_inv bounded bounded s w -> (length rest < length l)%nat -> iter_post l p (s, Some rest) w.
Proof. intros Hi Hl. split; [done|]. cbn. destruct (ss_phase s); cbn; lia. Qed.

Lemma go_holds l p (r : sres log scan_state) rest :
  holds r (fun s w => scan_inv bounded bounded s w) -> (length rest < length l)%nat ->
  holds (let* (s1, k1) := r in Ok (s1, Some rest) k1) (iter_post l p).
Proof.
  intros Hr Hl. eapply holds_bind; [exact Hr|]. cbn beta. intros s1 k1 w Hk Hi. eapply holds_ok; [done|]. by apply iter_shorter.
Qed.

Lemma iter_structural l s k v : structural (ss_phase s) = true ->
  conforming bounded k = Some v -> scan_inv bounded bounded s v ->
  (forall c rest, skip_ws l = c :: rest -> is_ws c = false -> (length rest < length l)%nat ->
     holds (sbyte sink s c k) (fun s' w => scan_inv bounded bounded s' w)) ->
  holds (drive_iter sink s l k) (iter_post l (ss_phase s)).
Proof.
  intros Hs Hk Hi Hc. rewrite drive_iter_structural by done. pose proof (skip_ws_length l) as Hl.
  destruct (skip_ws l) as [|c rest] eqn:E; [eapply holds_ok; [done|]; by eapply weaken|].
  cbn in Hl. apply go_holds; [|lia]. apply (Hc c rest); [done|by eapply skip_ws_not_ws|lia].
Qed.

Lemma holds_fst r (Q : scan_state -> view -> Prop) (rest : list byte) :
  holds r Q -> holds (sbind (sbind r (fun s1 k1 => Ok (s1, Some rest) k1)) (fun o k1 => Ok o.1 k1) : sres log scan_state) Q.
Proof. by destruct r. Qed.

Lemma sbyte_holds s c k v : structural (ss_phase s) = true -> is_ws c = false ->
  conforming bounded k = Some v -> scan_inv bounded bounded s v ->
  holds (sbyte sink s c k) (fun s' w => scan_inv bounded bounded s' w).
Proof.
  intros Hs Hw Hk Hi. unfold sbyte, drive_iter. cbn [skip_ws]. rewrite Hw.
  pose proof Hi as [Hst Hb Hph]. unfold phase_inv in Hph.
  assert (Hmove : forall p, structural p = true -> phase_inv bounded (set_phase p s) v ->
    holds (Ok (set_phase p s) k : sres log scan_state) (fun s' w => scan_inv bounded bounded s' w)).
  { intros p Hp H. eapply holds_ok; [done|]. split; [done|by destruct Hb|done]. }
  assert (Herr : forall Q : scan_state -> view -> Prop, holds (Err BB_ERR_PARSE_GRAMMAR k) Q) by (intros; by eapply holds_err).
  destruct (ss_phase s) eqn:Hp; try done; cbn [sbind].
  - destruct Hph as (Ha & Ho & Hd). apply holds_fst. by eapply dispatch_holds.
  - destruct Hph as ([st Ha] & Ho & Hd). destruct (_ && _); [apply holds_fst; by eapply close_holds|].
    destruct (negb _); [by eapply holds_err|]. eapply holds_ok; [done|]. split; [done| |split_and!; eauto].
    destruct Hb as [H2 H3 H4 H5 H7]. split; try done; cbn; lia.
  - destruct Hph as ([st Ha] & Ho & Hd). destruct (_ && _); [apply holds_fst; by eapply close_holds|].
    destruct (negb _); [by eapply holds_err|]. eapply holds_ok; [done|]. split; [done| |split_and!; eauto].
    destruct Hb as [H2 H3 H4 H5 H7]. split; try done; cbn; lia.
  - destruct (negb _); [by eapply holds_err|]. by apply Hmove.
  - destruct Hph as ([st Ha] & Ho & Hd & Hl). apply holds_fst. eapply dispatch_holds; eauto.
  - destruct Hph as ([st Ha] & Ho & Hd). destruct (Byte.eqb c x2c); [by apply Hmove; [|split_and!; eauto]|].
    destruct (Byte.eqb c x7d); [apply holds_fst; by eapply close_holds|by eapply holds_err].
  - destruct Hph as ([st Ha] & Ho & Hd). destruct (_ && _); apply holds_fst; [by eapply close_holds|by eapply dispatch_holds].
  - destruct Hph as ([st Ha] & Ho & Hd). destruct (_ && _); apply holds_fst; [by eapply close_holds|by eapply dispatch_holds].
  - destruct Hph as ([st Ha] & Ho & Hd). destruct (Byte.eqb c x2c); [by apply Hmove; [|split_and!; eauto]|].
    destruct (Byte.eqb c x5d); [apply holds_fst; by eapply close_holds|by eapply holds_err].
Qed.

Lemma iter_holds l s k v : l <> [] ->
  conforming bounded k = Some v -> scan_inv bounded bounded s v ->
  holds (drive_iter sink s l k) (iter_post l (ss_phase s)).
Proof.
  intros Hl Hk Hi. pose proof Hi as [Hst Hb Hph].
  destruct (structural (ss_phase s)) eqn:Hs.
  { apply (iter_structural l s k v); try done. intros c rest _ Hw _. by eapply sbyte_holds. }
  unfold drive_iter. unfold phase_inv in Hph. destruct (ss_phase s) eqn:Hp; try done.
  - eapply holds_bind; [by eapply (key_string_holds bounded l s [] k v)|]. cbn beta.
    intros o k1 w Hk1 (-> & Hp1 & Hi1 & Hr). destruct (so_closed o); (eapply holds_ok; [done|]); [|by eapply weaken].
    apply iter_shorter; [|by apply Hr]. destruct Hi1 as [Hst1 Hb1 Hph1]. unfold phase_inv in Hph1. rewrite Hp1 in Hph1.
    split; [done| |split_and!; [apply Hph1..|done]]. destruct Hb1 as [H2 H3 H4 H5 H7]. by split.
  - destruct Hph as (Hd & Hkey & Ho).
    assert (Hsi : str_inv s v) by (split; try done; destruct Ho as [[? _]|[? _]]; [by left|by right]).
    eapply holds_bind; [apply (value_string_holds bounded l s [] k v); [done|done|done|]|].
    + intros Hbd. destruct Ho as [[Ho _]|[_ Ho]]; [by left|congruence].
    + cbn beta. intros o k1 w Hk1 H. destruct (so_closed o); (eapply holds_ok; [done|]); [|done]. apply iter_shorter; apply H.
  - eapply holds_bind; [by eapply (number_holds bounded l s k v)|]. cbn beta.
    intros [[s1 fin] rest] k1 w Hk1 (-> & Hp1 & Hi1 & Ht & Hr). cbn [fst snd] in *.
    destruct fin; [|eapply holds_ok; [done|]; by eapply weaken].
    eapply holds_bind; [by eapply finalize_holds; auto|]. cbn beta. intros s2 k2 w Hk2 [Hi2 Hp2]. eapply holds_ok; [done|].
    split; [done|]. cbn [fst snd]. rewrite Hp2. unfold after_value_phase. destruct (ss_stack s1) as [|[]]; cbn; lia.
  - destruct Hph as (Hd & Ho & Hkey & Hm). eapply holds_bind; [by eapply (literal_holds bounded l s k v)|]. cbn beta.
    intros [[s1 fin] rest] k1 w Hk1 (-> & H). cbn [fst snd] in *.
    destruct fin; [|destruct H; eapply holds_ok; [done|]; by eapply weaken]. destruct H as (Hr & kd & n & ->).
    apply go_holds; [|done]. eapply holds_bind; [eapply (emit_literal_holds (set_lit kd n s) k1 v); try done; by rewrite Hst|].
    cbn beta. intros s2 k2 w Hk2 [-> ->]. eapply holds_ok; [done|]. rewrite Hst. apply after_value_inv; [done|]. by destruct Hb.
Qed.

Lemma drive_holds n : forall l fuel s k v,
  (2 * length l + is_num_phase (ss_phase s) <= n)%nat -> (n <= fuel)%nat ->
  conforming bounded k = Some v -> scan_inv bounded bounded s v ->
  exists r, drive sink fuel s l k = Some r /\ holds r (fun s' w => scan_inv bounded false s' w).
Proof.
  induction n as [n IH] using lt_wf_ind. intros l fuel s k v Hn Hf Hk Hi.
  destruct l as [|c l0].
  { exists (Ok s k). split; [by destruct fuel|]. eapply holds_ok; [done|]. by eapply weaken. }
  destruct fuel as [|fuel]; [cbn in Hn; lia|]. cbn [drive].
  pose proof (iter_holds (c :: l0) s k v ltac:(done) Hk Hi) as H.
  destruct (drive_iter sink s (c :: l0) k) as [e k1|[s1 [rest|]] k1]; [by eexists| |by eexists].
  destruct H as (v1 & Hk1 & Hi1 & Hlt). cbn [fst snd] in *.
  apply (IH (2 * length rest + is_num_phase (ss_phase s1))%nat ltac:(lia) rest fuel s1 k1 v1); try done; lia.
Qed.

(** ** Calls of the API *)

Lemma feed_holds s l k v :
  conforming bounded k = Some v -> scan_inv bounded bounded s v ->
  exists rc s1 k1 v1, bb_serialize_json_scan_feed sink s l k = Some (rc, s1, k1) /\ conforming bounded k1 = Some v1 /\
    (rc = BB_OK /\ scan_inv bounded false s1 v1 \/ rc <> BB_OK /\ ss_err s1 = rc).
Proof.
  intros Hk Hi. unfold bb_serialize_json_scan_feed. rewrite (ib_err _ _ (si_bounds _ _ _ _ Hi)). cbn [is_ok negb].
  destruct (drive_holds _ l (drive_fuel l) s k v ltac:(reflexivity)) as (r & -> & Hr); [|done|done|].
  { unfold drive_fuel. destruct (ss_phase s); cbn; lia. }
  destruct r as [e k1|s1 k1]; cbn in Hr.
  - destruct Hr as (He & v1 & Hv). exists e, (set_serr e s), k1, v1. auto.
  - destruct Hr as (v1 & Hv & Hi1). exists BB_OK, s1, k1, v1. auto.
Qed.

Lemma finish_holds s k v :
  conforming bounded k = Some v -> scan_inv bounded false s v ->
  exists rc s1, scan_finish s k = (rc, s1, k) /\ (rc = BB_OK -> v = mk_view [] None true).
Proof.
  intros Hk [Hst _ Hph]. unfold scan_finish, phase_inv in *. destruct (ss_phase s); try (by eexists _, _).
  exists BB_OK, s. split; [done|]. intros _. destruct v, Hph as (H1 & H2 & H3). cbn in *. congruence.
Qed.

Lemma end_holds s k v :
  conforming bounded k = Some v -> scan_inv bounded false s v ->
  exists rc s1 k1 v1, bb_serialize_json_scan_end sink s k = (rc, s1, k1) /\ conforming bounded k1 = Some v1 /\
    (rc = BB_OK -> v1 = mk_view [] None true).
Proof.
  intros Hk Hi. unfold bb_serialize_json_scan_end. rewrite (ib_err _ _ (si_bounds _ _ _ _ Hi)). cbn [is_ok negb].
  assert (Hfin : exists rc s1 k1 v1, scan_finish s k = (rc, s1, k1) /\ conforming bounded k1 = Some v1 /\
    (rc = BB_OK -> v1 = mk_view [] None true)).
  { destruct (finish_holds s k v Hk Hi) as (rc & s1 & H1 & H2). by exists rc, s1, k, v. }
  destruct (ss_phase s) eqn:Hp; try exact Hfin. clear Hfin.
  destruct (num_phase_is_terminal (ss_num_phase s)) eqn:Ht; cbn [negb]; [|by eexists _, _, k, v].
  pose proof (finalize_holds false s k v Hp Hk Hi Ht) as H. destruct (finalize_number sink s k) as [e k1|s1 k1]; cbn in H.
  - destruct H as (He & v1 & Hv). by exists e, (set_serr e s), k1, v1.
  - destruct H as (v1 & Hk1 & Hi1 & _). destruct (finish_holds s1 k1 v1 Hk1 Hi1) as (rc & s2 & H1 & H2). by exists rc, s2, k1, v1.
Qed.

Lemma begin_inv : scan_inv bounded bounded (scan_begin_internal bounded) view0.
Proof. split; [done| |by split_and!]. split; cbn; try done; lia. Qed.
End Contract.

Lemma bounded_contract answer buf :
  exists rc log v, bb_serialize_json_scan_bounded (log_sink answer) buf [] = Some (rc, log) /\
    conforming true log = Some v /\ (rc = BB_OK -> v = mk_view [] None true).
Proof.
  destruct (feed_holds answer true (scan_begin_internal true) buf [] view0 eq_refl (begin_inv true))
    as (rc & s1 & k1 & v1 & Hf & Hk & H). unfold bb_serialize_json_scan_bounded. rewrite Hf.
  destruct H as [[-> Hi]|[Hrc _]].
  - cbn [is_ok negb]. destruct (end_holds answer true s1 k1 v1 Hk Hi) as (rc & s2 & k2 & v2 & -> & H2 & H3).
    by exists rc, k2, v2.
  - destruct (is_ok rc) eqn:E; [by apply is_ok_true in E|]. by exists rc, k1, v1.
Qed.

(** An error stays. *)
Lemma feed_all_sticky {K} (sink : ingest K) chunks s k :
  ss_err s <> BB_OK -> feed_all sink s chunks k = Some (ss_err s, s, k).
Proof.
  intros He. induction chunks as [|ch chunks IH]; [done|]. cbn [feed_all]. unfold bb_serialize_json_scan_feed.
  destruct (is_ok (ss_err s)) eqn:E; [by apply is_ok_true in E|]. exact IH.
Qed.

Lemma feed_all_app {K} (sink : ingest K) chunks more : forall s k,
  feed_all sink s (chunks ++ more) k =
  match feed_all sink s chunks k with None => None | Some (_, s1, k1) => feed_all sink s1 more k1 end.
Proof.
  induction chunks as [|ch chunks IH]; intros s k; [done|]. cbn [feed_all app].
  destruct (bb_serialize_json_scan_feed sink s ch k) as [[[rc s1] k1]|]; [apply IH|done].
Qed.

Lemma feed_all_holds answer chunks : forall s k v,
  conforming false k = Some v -> scan_inv false false s v ->
  exists rc s1 k1 v1, feed_all (log_sink answer) s chunks k = Some (rc, s1, k1) /\ conforming false k1 = Some v1 /\
    (rc = BB_OK /\ scan_inv false false s1 v1 \/ rc <> BB_OK /\ ss_err s1 = rc).
Proof.
  induction chunks as [|ch chunks IH]; intros s k v Hk Hi.
  - exists BB_OK, s, k, v. split; [|auto]. cbn. by rewrite (ib_err _ _ (si_bounds _ _ _ _ Hi)).
  - cbn [feed_all]. destruct (feed_holds answer false s ch k v Hk Hi) as (rc & s1 & k1 & v1 & -> & Hk1 & H).
    destruct H as [[-> Hi1]|[Hrc He]]; [by apply (IH s1 k1 v1)|].
    rewrite feed_all_sticky by congruence. exists (ss_err s1), s1, k1, v1. split; [done|]. split; [done|]. right. split; congruence.
Qed.

Lemma stream_contract answer chunks :
  exists rc log v, scan_chunks (log_sink answer) chunks [] = Some (rc, log) /\
    conforming false log = Some v /\ (rc = BB_OK -> v = mk_view [] None true).
Proof.
  destruct (feed_all_holds answer chunks bb_serialize_json_scan_begin [] view0 eq_refl (begin_inv false))
    as (rc & s1 & k1 & v1 & Hf & Hk & H). unfold scan_chunks. rewrite Hf.
  destruct H as [[-> Hi]|[Hrc He]].
  - destruct (end_holds answer false s1 k1 v1 Hk Hi) as (rc & s2 & k2 & v2 & -> & H2 & H3). by exists rc, k2, v2.
  - pose proof (end_sticky (log_sink answer) s1 k1 ltac:(congruence)) as H. unfold scan_end_from in H.
    destruct (bb_serialize_json_scan_end _ _ _) as [[rc' s'] k']. injection H as -> ->. exists (ss_err s1), k1, v1.
    split; [done|]. split; [done|]. congruence.
Qed.

(** * Properties *)


(** the calls of a bounded scan.  As for a streaming scan, and no span is
    feed-scoped, and an empty span is the only span of an empty string. *)
Theorem scan_bounded_contract answer buf :
  exists rc log v, bb_serialize_json_scan_bounded (log_sink answer) buf [] = Some (rc, log) /\
    conforming true log = Some v /\ (rc = BB_OK -> v = mk_view [] None true).
Proof. apply bounded_contract. Qed.

(** memory safety and stickiness.  After any number of feeds either the
    context is within its arrays, with no error pending, or the code of the
    first failed feed is stored and every later feed returns it and makes no
    call. *)
Theorem scan_context_safe answer chunks more :
  exists rc s log, feed_all (log_sink answer) bb_serialize_json_scan_begin chunks [] = Some (rc, s, log) /\
    (rc = BB_OK /\ in_bounds false s \/
     rc <> BB_OK /\ feed_all (log_sink answer) bb_serialize_json_scan_begin (chunks ++ more) [] = Some (rc, s, log) /\
     bb_serialize_json_scan_end (log_sink answer) s log = (rc, s, log)).
Proof.
  destruct (feed_all_holds answer chunks bb_serialize_json_scan_begin [] view0 eq_refl (begin_inv false))
    as (rc & s1 & k1 & v1 & Hf & Hk & H). exists rc, s1, k1. split; [done|].
  destruct H as [[-> Hi]|[Hrc He]]; [left; split; [done|apply Hi]|right]. subst rc. split; [done|].
  rewrite feed_all_app, Hf. split; [by apply feed_all_sticky|].
  unfold bb_serialize_json_scan_end. destruct (is_ok (ss_err s1)) eqn:E; [by apply is_ok_true in E|done].
Qed.
