(* ===== verification/ScanDoc.v ===== *)
(** Scanning a printed document. *)
From Stdlib Require Import Strings.String.
From S2P Require Import Prelude Bytes Num Float Walk JsonWrite JsonScan ScanBytes ScanSafe.
Local Open Scope scan_scope.

(** * A recording sink *)

Inductive jev : Type :=
  | EvBeginObj (k : key_t) | EvEndObj | EvBeginArr (k : key_t) | EvEndArr
  | EvNum (k : key_t) (text : list byte) | EvBool (k : key_t) (b : bool) | EvNull (k : key_t)
  | EvStr (k : key_t) (s : list byte).

(** The events so far and the spans of the string being received. *)
Definition recording : Type := list jev * list byte.
Definition record (e : jev) (r : recording) : bb_err * recording := (BB_OK, (r.1 ++ [e], r.2)).
Definition rec_sink : ingest recording :=
  mk_ingest (fun k => record (EvBeginObj k)) (record EvEndObj) (fun k => record (EvBeginArr k))
    (record EvEndArr) (fun k n => record (EvNum k n)) (fun k b => record (EvBool k b))
    (fun k => record (EvNull k))
    (fun k d fin _ r => (BB_OK, if fin : bool then (r.1 ++ [EvStr k (r.2 ++ d)], []) else (r.1, r.2 ++ d))).

#[export] Instance rec_split : SplitInsensitive rec_sink.
Proof.
  split.
  - intros key a b fin p p1 p2 k _ _. cbn. destruct fin; cbn; by rewrite app_assoc.
  - done.
Qed.

(** * Scanning a printed document *)

(** The scanner reports an empty key as no key. *)
Definition seen_key (k : key_t) : key_t := match k with Some [] => None | _ => k end.

Definition leaf_event (short : bool) (k : key_t) (v : jval) : list jev :=
  match v with
  | JNull => [EvNull k]
  | JBool b => [EvBool k b]
  | JI64 x => [EvNum k (dec_i64 x)]
  | JU64 x => [EvNum k (dec_u64 x)]
  | JF64 bits => if decide (print_f64 short bits = bs "null") then [EvNull k]
                 else [EvNum k (print_f64 short bits)]
  | JStr s => [EvStr k s]
  | _ => []
  end.
(** The events of a value, containers included. *)
Fixpoint events (short : bool) (k : key_t) (v : jval) : list jev :=
  match v with
  | JArr vs => EvBeginArr k :: concat (map (events short None) vs) ++ [EvEndArr]
  | JObj ms => EvBeginObj k :: concat (map (fun m => events short (seen_key m.1) m.2) ms) ++ [EvEndObj]
  | _ => leaf_event short k v
  end.

(** A number text: what the number automaton accepts to the end. *)
Definition num_text (l : list byte) : Prop :=
  match l with
  | [] => False
  | c :: rest =>
      exists p, num_run (if is_digit c then NUM_INT_DIGITS else NUM_START) rest = Some p /\
      num_phase_is_terminal p = true /\ (is_digit c = true \/ c = x2d)
  end.

(** The scratch holds a key and the number after it. *)
Definition scratch_room (short : bool) (klen : nat) (v : jval) : Prop :=
  match v with
  | JI64 x => (klen + length (dec_i64 x) <= BB_SERIALIZE_JSON_SCRATCH_MAX_BYTES)%nat
  | JU64 x => (klen + length (dec_u64 x) <= BB_SERIALIZE_JSON_SCRATCH_MAX_BYTES)%nat
  | JF64 bits => (klen + length (print_f64 short bits) <= BB_SERIALIZE_JSON_SCRATCH_MAX_BYTES)%nat
  | _ => (klen <= BB_SERIALIZE_JSON_SCRATCH_MAX_BYTES)%nat
  end.
Fixpoint scannable (short : bool) (klen : nat) (v : jval) : Prop :=
  scratch_room short klen v /\
  match v with
  | JArr vs => fold_right (fun v P => scannable short 0 v /\ P) True vs
  | JObj ms => fold_right (fun m P => scannable short (length (default [] m.1)) m.2 /\ P) True ms
  | _ => True
  end.

(** ** Number texts *)

Lemma num_run_digits p l : Forall (fun b => is_digit b = true) l ->
  p = NUM_INT_DIGITS \/ p = NUM_FRAC_DIGITS \/ p = NUM_EXP_DIGITS -> num_run p l = Some p.
Proof.
  intros Hl Hp. induction Hl as [|c l Hc _ IH]; [done|]. cbn [num_run].
  destruct Hp as [-> | [-> | ->]]; unfold num_next; by rewrite Hc.
Qed.

Lemma num_run_app p l l' : num_run p (l ++ l') = match num_run p l with Some q => num_run q l' | None => None end.
Proof.
  revert p; induction l as [|c l IH]; intros p; [done|]. cbn [app num_run].
  by destruct (num_next p c) as [[q|]|].
Qed.

Lemma num_text_digits l : l <> [] -> Forall (fun b => is_digit b = true) l -> num_text l.
Proof.
  intros Hl Hd. destruct l as [|c l]; [done|]. apply Forall_cons_1 in Hd as [Hc Hd]. cbn. rewrite Hc.
  exists NUM_INT_DIGITS. rewrite num_run_digits; auto.
Qed.

Lemma num_text_neg l : l <> [] -> Forall (fun b => is_digit b = true) l -> num_text (x2d :: l).
Proof.
  intros Hl Hd. destruct l as [|c l]; [done|]. apply Forall_cons_1 in Hd as [Hc Hd]. cbn. rewrite Hc.
  exists NUM_INT_DIGITS. rewrite num_run_digits; auto.
Qed.

Lemma dec_u64_nonempty v : dec_u64 v <> [].
Proof. pose proof (dec_u64_length v). by destruct (dec_u64 v); [cbn in *; lia|]. Qed.

Lemma num_text_u64 v : num_text (dec_u64 v).
Proof. apply num_text_digits; [apply dec_u64_nonempty|apply dec_u64_digits]. Qed.
Lemma num_text_i64 v : num_text (dec_i64 v).
Proof.
  unfold dec_i64. destruct (v >=? 0); [apply num_text_u64|].
  apply num_text_neg; [apply dec_u64_nonempty|apply dec_u64_digits].
Qed.

Definition sign_text (neg : bool) : list byte := if neg then [x2d] else [].
(** An integer text and what may follow it. *)
Lemma num_text_parts neg ip rest p :
  ip <> [] -> Forall (fun b => is_digit b = true) ip ->
  num_run NUM_INT_DIGITS rest = Some p -> num_phase_is_terminal p = true ->
  num_text (sign_text neg ++ ip ++ rest).
Proof.
  intros Hne Hd Hr Ht. destruct ip as [|c ip]; [done|]. apply Forall_cons_1 in Hd as [Hc Hd].
  assert (Hrun : num_run NUM_INT_DIGITS (ip ++ rest) = Some p).
  { rewrite num_run_app, (num_run_digits NUM_INT_DIGITS ip); auto. }
  destruct neg; cbn; rewrite Hc; exists p; auto.
Qed.

Lemma num_run_frac ds rest p :
  ds <> [] -> Forall (fun b => is_digit b = true) ds -> num_run NUM_FRAC_DIGITS rest = Some p ->
  num_run NUM_INT_DIGITS (x2e :: ds ++ rest) = Some p.
Proof.
  intros Hne Hd Hr. destruct ds as [|c ds]; [done|]. apply Forall_cons_1 in Hd as [Hc Hd].
  cbn. rewrite Hc. rewrite num_run_app, (num_run_digits NUM_FRAC_DIGITS ds); auto.
Qed.

Lemma frac_digits_digit n x : Forall (fun b => is_digit b = true) (frac_digits n x).
Proof.
  revert x; induction n as [|n IH]; intros x; cbn; [constructor|]. apply Forall_app; split; [apply IH|].
  constructor; [|constructor]. apply is_digit_of. by apply Z.mod_pos_bound.
Qed.

Lemma strip_zeros_digit l : Forall (fun b => is_digit b = true) l -> Forall (fun b => is_digit b = true) (strip_zeros l).
Proof. intros H. induction H as [|b l Hb Hl IH]; cbn; [constructor|]. destruct b; try (by constructor); done. Qed.

Lemma exp_text_run x p : p = NUM_INT_DIGITS \/ p = NUM_FRAC_DIGITS ->
  num_run p (x65 :: exp_text x) = Some NUM_EXP_DIGITS.
Proof.
  intros Hp. unfold exp_text. pose proof (dec_u64_digits (Z.abs x)) as Hd. pose proof (dec_u64_nonempty (Z.abs x)) as Hn.
  set (ds := dec_u64 (Z.abs x)) in *. set (ds' := if (length ds <? 2)%nat then x30 :: ds else ds).
  assert (Hd' : Forall (fun b => is_digit b = true) ds') by (subst ds'; destruct (_ <? _)%nat; [by constructor|done]).
  assert (Hn' : ds' <> []) by (subst ds'; by destruct (_ <? _)%nat).
  clearbody ds'. destruct ds' as [|c ds']; [done|]. apply Forall_cons_1 in Hd' as [Hc Hd'].
  assert (Hrun : num_run NUM_EXP_DIGITS ds' = Some NUM_EXP_DIGITS) by (apply num_run_digits; auto).
  destruct Hp as [-> | ->]; destruct (x <? 0); cbn; by rewrite Hc.
Qed.

(** [with_point] is an integer text with an optional fraction. *)
Lemma with_point_run a b rest p1 p2 :
  Forall (fun b => is_digit b = true) b ->
  num_run NUM_INT_DIGITS rest = Some p1 -> num_phase_is_terminal p1 = true ->
  num_run NUM_FRAC_DIGITS rest = Some p2 -> num_phase_is_terminal p2 = true ->
  exists tail p, with_point a b ++ rest = a ++ tail /\ num_run NUM_INT_DIGITS tail = Some p /\
    num_phase_is_terminal p = true.
Proof.
  intros Hb H1 Ht1 H2 Ht2. unfold with_point.
  assert (Hs : Forall (fun b => is_digit b = true) (strip_trailing b)).
  { unfold strip_trailing. apply Forall_rev, strip_zeros_digit. by apply Forall_rev. }
  destruct (strip_trailing b) as [|c fr] eqn:E; [by exists rest, p1|].
  exists (x2e :: (c :: fr) ++ rest), p2. split; [by rewrite <- app_assoc|]. split; [by apply num_run_frac|done].
Qed.

Lemma zeros_digits n : Forall (fun b => is_digit b = true) (repeat x30 n).
Proof. induction n; cbn; by constructor. Qed.

Lemma fmt_g_ratio_num P s num den : num_text (fmt_g_ratio P s num den).
Proof.
  unfold fmt_g_ratio. destruct (scale10 _ _ _) as [n d]. cbv zeta.
  destruct (if round_half_even n d =? 10 ^ P then _ else _) as [q x].
  pose proof (dec_u64_digits q) as Hd. pose proof (dec_u64_nonempty q) as Hn. set (ds := dec_u64 q) in *. clearbody ds.
  assert (Hgo : forall body ip, (exists tail p, body = ip ++ tail /\ num_run NUM_INT_DIGITS tail = Some p /\
    num_phase_is_terminal p = true) -> ip <> [] -> Forall (fun b => is_digit b = true) ip ->
    num_text (if s then x2d :: body else body)).
  { intros body ip (tail & p & -> & Hr & Ht) Hne Hf. pose proof (num_text_parts s ip tail p Hne Hf Hr Ht) as H. by destruct s. }
  assert (Htake : forall k, (0 < k)%nat -> take k ds <> []) by (intros [|k] Hk; [lia|]; by destruct ds).
  destruct ((x <? -4) || (P <=? x)).
  - apply (Hgo _ (take 1 ds)); [|apply Htake; lia|by apply Forall_take].
    eapply with_point_run; [by apply Forall_drop|apply exp_text_run; auto|done|apply exp_text_run; auto|done].
  - destruct (Z.ltb_spec x 0).
    + apply (Hgo _ [x30]); [|done|by constructor]. rewrite <- (app_nil_r (with_point _ _)).
      eapply with_point_run; try reflexivity. apply Forall_app; split; [apply zeros_digits|done].
    + apply (Hgo _ (take (Z.to_nat (x + 1)) ds)); [|apply Htake; lia|by apply Forall_take].
      rewrite <- (app_nil_r (with_point _ _)). eapply with_point_run; try reflexivity. by apply Forall_drop.
Qed.

Lemma fmt_g_num P v : num_text (fmt_g P v).
Proof.
  assert (H0 : num_text [x30]) by (apply num_text_digits; [done|by constructor]).
  destruct v as [[]| | |s m e]; cbn; try exact H0.
  - apply (num_text_neg [x30]); [done|by constructor].
  - destruct e; apply fmt_g_ratio_num.
Qed.

(** A printed double is [null] or a number. *)
Lemma print_f64_num short bits : print_f64 short bits = bs "null" \/ num_text (print_f64 short bits).
Proof.
  unfold print_f64, f64_puts. destruct short.
  - cbn [concat]. rewrite app_nil_r. unfold f64_shortest_text. destruct (d_isnan _ || d_isinf _); [by left|].
    right. cbv zeta. destruct (d_eq _ _).
    + rewrite i64_digits by lia. apply num_text_i64.
    + destruct (d_gt _ _); apply fmt_g_num.
  - destruct (f64_parts _) as [[[neg ip] fr]|]; [|by left]. right.
    rewrite concat_app. cbn [concat]. rewrite app_nil_r.
    replace (concat (if neg then [[x2d]] else [])) with (sign_text neg) by (by destruct neg).
    eapply num_text_parts; [apply dec_u64_nonempty|apply dec_u64_digits| |].
    + change ([x2e] ++ ?a) with (x2e :: a). rewrite <- (app_nil_r (frac_digits _ _)).
      apply num_run_frac; [|apply frac_digits_digit|reflexivity].
      intros H. apply (f_equal length) in H. by rewrite frac_digits_length in H.
    + done.
Qed.

(** ** Tokens of a printed value *)

Abbreviation rbytes := (bytes rec_sink).

Lemma bytes_cons {K} (sink : ingest K) s c l k :
  bytes sink s (c :: l) k = sbind (sbyte_step sink s c k) (fun s1 k1 => bytes sink s1 l k1).
Proof. done. Qed.

(** Ready for a value whose key is [key] with [klen] scratch bytes in use. *)
Definition value_ready (s : scan_state) (key : key_t) (klen : nat) (st : list bool) : Prop :=
  ss_stack s = st /\
  ((ss_phase s = PH_ROOT \/ ss_phase s = PH_ARR_ELEM_OR_CLOSE \/ ss_phase s = PH_ARR_ELEM_ONLY) /\
     key = None /\ klen = 0%nat \/
   ss_phase s = PH_OBJ_VALUE /\ cur_key s = key /\ ss_key_len s = klen /\ length (ss_scratch s) = klen).

(** The state in which the first byte of the value is dispatched. *)
Definition dispatching (s : scan_state) (key : key_t) (klen : nat) (st : list bool) : Prop :=
  cur_key s = key /\ ss_key_len s = klen /\ length (ss_scratch s) = klen /\ ss_stack s = st.

Lemma value_ready_dispatch s key klen st :
  value_ready s key klen st ->
  exists s0, dispatching s0 key klen st /\
    forall c (k : recording), is_ws c = false -> c <> x5d ->
      sbyte_step rec_sink s c k = dispatch_value_start rec_sink s0 c true k.
Proof.
  intros [Hst [[Hp [-> ->]]|(Hp & Hk & Hl & Hs)]].
  - exists (set_scratch [] 0 s). split; [done|]. intros c k Hw Hc.
    rewrite bytes_step_structural by (by destruct Hp as [-> | [-> | ->]]).
    unfold sbyte, drive_iter. cbn [skip_ws]. rewrite Hw.
    assert (Hd : sbind (dispatch_value_start rec_sink s c false k) Ok = dispatch_value_start rec_sink (set_scratch [] 0 s) c true k)
      by (by rewrite bind_ok).
    destruct Hp as [-> | [-> | ->]]; rewrite ?(proj2 (byte_eqb_neq c x5d) Hc); cbn [andb];
      rewrite <- Hd; by destruct (dispatch_value_start rec_sink s c false k).
  - exists s. split; [done|]. intros c k Hw Hc.
    rewrite bytes_step_structural by (by rewrite Hp). unfold sbyte, drive_iter. cbn [skip_ws]. rewrite Hw, Hp.
    by destruct (dispatch_value_start rec_sink s c true k).
Qed.

(** The value is complete. *)
Definition value_read (s : scan_state) (st : list bool) : Prop :=
  ss_stack s = st /\ ss_phase s = after_value_phase s.

Lemma val_done_read s st : ss_stack s = st -> value_read (val_done s) st.
Proof. intros <-. done. Qed.

Lemma lit_bytes s key klen st b text l evs :
  dispatching s key klen st ->
  (b, text) = (LIT_TRUE, bs "rue") \/ (b, text) = (LIT_FALSE, bs "alse") \/ (b, text) = (LIT_NULL, bs "ull") ->
  exists s', value_read s' st /\
    rbytes (set_phase PH_VAL_LIT (set_lit b 1 s)) (text ++ l) (evs, []) =
    rbytes s' l (evs ++ [match b with LIT_TRUE => EvBool key true | LIT_FALSE => EvBool key false
                         | LIT_NULL => EvNull key end], []).
Proof.
  intros (Hk & _ & _ & Hst) Hb. subst key.
  exists (val_done (set_phase PH_VAL_LIT (set_lit b (S (length text)) s))). split; [by apply val_done_read|].
  by destruct Hb as [[= -> ->] | [[= -> ->] | [= -> ->]]].
Qed.

(** ** Numbers *)

Lemma num_bytes p l : forall s k rest,
  ss_phase s = PH_VAL_NUM -> num_run (ss_num_phase s) l = Some p ->
  (length (ss_scratch s) + length l <= BB_SERIALIZE_JSON_SCRATCH_MAX_BYTES)%nat ->
  rbytes s (l ++ rest) k =
  rbytes (set_num_phase p (set_scratch (ss_scratch s ++ l) (ss_key_len s) s)) rest k.
Proof.
  induction l as [|c l IH]; intros s k rest Hp Hr Hl; cbn [num_run length app] in *.
  - injection Hr as <-. rewrite app_nil_r. by destruct s.
  - rewrite bytes_cons. unfold sbyte_step. rewrite Hp.
    destruct (num_next (ss_num_phase s) c) as [[q|]|]; try done.
    unfold scratch_append. cbn [length].
    destruct (Nat.ltb_spec BB_SERIALIZE_JSON_SCRATCH_MAX_BYTES (length (ss_scratch s) + 1)); [lia|].
    cbn [sbind]. rewrite IH; cbn [ss_phase ss_num_phase ss_scratch set_num_phase set_scratch ss_key_len]; try done.
    + by rewrite <- app_assoc.
    + rewrite length_app. cbn [length]. lia.
Qed.

Definition terminator (c : byte) : Prop := c = x2c \/ c = x7d \/ c = x5d.

Lemma num_end s key klen st c rest evs text :
  ss_phase s = PH_VAL_NUM -> cur_key s = key -> ss_key_len s = klen -> ss_stack s = st ->
  drop klen (ss_scratch s) = text -> num_phase_is_terminal (ss_num_phase s) = true -> terminator c ->
  exists s', value_read s' st /\
    rbytes s (c :: rest) (evs, []) = rbytes s' (c :: rest) (evs ++ [EvNum key text], []).
Proof.
  intros Hp Hk Hkl Hst Htext Ht Hc. exists (val_done s). split; [by apply val_done_read|].
  rewrite !bytes_cons. rewrite (bytes_step_structural rec_sink (val_done s)) by (cbn; unfold after_value_phase; by destruct (ss_stack s) as [|[]]).
  assert (Hn : num_next (ss_num_phase s) c = Some None).
  { destruct (ss_num_phase s); try done; by destruct Hc as [-> | [-> | ->]]. }
  unfold sbyte_step. rewrite Hp, Hn. unfold finalize_number. cbn [answered ig_value_num rec_sink record is_ok fst snd sbind].
  by rewrite Hk, Hkl, Htext.
Qed.

Lemma number_scan s key klen st text c rest evs :
  value_ready s key klen st -> num_text text ->
  (klen + length text <= BB_SERIALIZE_JSON_SCRATCH_MAX_BYTES)%nat -> terminator c ->
  exists s', value_read s' st /\
    rbytes s (text ++ c :: rest) (evs, []) = rbytes s' (c :: rest) (evs ++ [EvNum key text], []).
Proof.
  intros Hr Ht Hl Hc. destruct (value_ready_dispatch _ _ _ _ Hr) as (s0 & (Hk & Hkl & Hs & Hst) & Hd).
  destruct text as [|b text]; [done|]. destruct Ht as (p & Hrun & Hterm & Hb).
  assert (Hws : is_ws b = false /\ b <> x5d) by (destruct Hb as [Hb| ->]; [split; [by destruct b|by intros ->]|done]).
  cbn [app]. rewrite bytes_cons, Hd by apply Hws. unfold dispatch_value_start. cbv zeta.
  unfold scratch_append. cbn [length] in *.
  destruct (Nat.ltb_spec BB_SERIALIZE_JSON_SCRATCH_MAX_BYTES (length (ss_scratch s0) + 1)); [lia|]. cbn [sbind].
  set (q := if is_digit b then NUM_INT_DIGITS else NUM_START) in *.
  set (s1 := set_phase PH_VAL_NUM (set_num_phase q (set_scratch (ss_scratch s0 ++ [b]) (ss_key_len s0) s0))).
  assert (Hgoal : exists s', value_read s' st /\
    rbytes s1 (text ++ c :: rest) (evs, []) = rbytes s' (c :: rest) (evs ++ [EvNum key (b :: text)], [])).
  { rewrite (num_bytes p) by (try done; cbn [ss_scratch s1 set_phase set_num_phase set_scratch]; rewrite length_app; cbn [length]; lia).
    apply num_end with (klen := klen); try done.
    - unfold cur_key. cbn [ss_key_len ss_scratch s1 set_phase set_num_phase set_scratch].
      rewrite <- Hk. unfold cur_key. destruct (_ =? _)%nat; [done|]. f_equal.
      rewrite <- app_assoc. by rewrite take_app_le by lia.
    - cbn [ss_scratch s1 set_phase set_num_phase set_scratch]. rewrite <- app_assoc, drop_app_ge by lia.
      by replace (klen - length (ss_scratch s0))%nat with O by lia. }
  subst q s1. destruct Hb as [Hb| ->]; [rewrite Hb in *; exact Hgoal|exact Hgoal].
Qed.

(** ** Strings *)

(** In a string outside an escape. *)
Lemma plain_byte b : escape_byte b = [b] -> Byte.eqb b x22 = false /\ Byte.eqb b x5c = false /\ (bz b <? 32) = false.
Proof. by destruct b. Qed.

Definition string_phase (is_key : bool) : phase_t := if is_key then PH_KEY_STR else PH_VAL_STR.

(** The bytes of one escape after the backslash. *)
Fixpoint escape_run (s : scan_state) (l : list byte) : option (scan_state * list byte) :=
  match l with
  | [] => None
  | c :: rest =>
      match scan_escape_byte s c with
      | Some (s1, []) => escape_run s1 rest
      | Some (s1, d) => match rest with [] => Some (s1, d) | _ => None end
      | None => None
      end
  end.

Lemma escape_byte_run b :
  escape_byte b = [b] \/
  exists tl, escape_byte b = x5c :: tl /\
    forall s, exists cu, escape_run (set_esc_phase ESC_BACKSLASH s) tl =
      Some (set_esc ESC_NONE cu (ss_esc_high_surrogate s) s, [b]).
Proof.
  destruct b; first [left; reflexivity | right; eexists; split; [reflexivity|]; intros []; eexists; reflexivity].
Qed.

Section StringBytes.
Context {K : Type} (sink : ingest K) (is_key : bool).

Lemma step_string s c k : ss_phase s = string_phase is_key ->
  sbyte_step sink s c k =
  sbind (str_step sink is_key s c k)
    (fun r k1 => Ok (if r.2 then (if is_key then key_done r.1 else val_done r.1) else r.1) k1).
Proof. intros Hp. unfold sbyte_step. rewrite Hp. by destruct is_key. Qed.

Lemma bytes_string_step s c l k : ss_phase s = string_phase is_key ->
  bytes sink s (c :: l) k =
  sbind (str_step sink is_key s c k)
    (fun r k1 => bytes sink (if r.2 then (if is_key then key_done r.1 else val_done r.1) else r.1) l k1).
Proof. intros Hp. rewrite bytes_cons, step_string by done. by destruct (str_step sink is_key s c k). Qed.

Lemma escape_phase s c s1 d : scan_escape_byte s c = Some (s1, d) -> ss_phase s1 = ss_phase s.
Proof. unfold scan_escape_byte. intros H. repeat (dmatch_in H; try done); by (injection H; intros; subst). Qed.

Lemma escape_run_bytes tl : forall s s1 d ds l k,
  ss_phase s = string_phase is_key -> escape_run s tl = Some (s1, d :: ds) ->
  bytes sink s (tl ++ l) k =
  sbind (emit_str_bytes sink s1 (d :: ds) false is_key SPAN_SCANNER_SCRATCH k) (fun s2 k2 => bytes sink s2 l k2).
Proof.
  induction tl as [|c tl IH]; intros s s1 d ds l k Hp Hr; [done|]. cbn [escape_run] in Hr. cbn [app].
  rewrite bytes_string_step by done. unfold str_step.
  destruct (scan_escape_byte s c) as [[s' [|d' ds']]|] eqn:E; [| |done].
  - destruct (ss_esc_phase s) eqn:Ee; [by (unfold scan_escape_byte in E; rewrite Ee in E)|..];
      cbn [sbind fst snd]; (apply IH; [by rewrite (escape_phase _ _ _ _ E)|done]).
  - destruct tl; [|done]. injection Hr as -> -> ->.
    destruct (ss_esc_phase s) eqn:Ee; [by (unfold scan_escape_byte in E; rewrite Ee in E)|..];
      cbn [app]; by destruct (emit_str_bytes sink s1 (d :: ds) false is_key _ k).
Qed.

(** One written character, read back as itself. *)
Lemma string_char b s l k :
  ss_phase s = string_phase is_key -> ss_esc_phase s = ESC_NONE ->
  exists cu p, bytes sink s (escape_byte b ++ l) k =
    sbind (emit_str_bytes sink (set_esc ESC_NONE cu (ss_esc_high_surrogate s) s) [b] false is_key p k)
      (fun s1 k1 => bytes sink s1 l k1).
Proof.
  intros Hp He. destruct (escape_byte_run b) as [E|(tl & E & Hrun)]; rewrite E.
  - apply plain_byte in E as (H1 & H2 & H3). exists (ss_esc_code_unit s), (direct_span_provenance s).
    cbn [app]. rewrite bytes_string_step by done. unfold str_step. rewrite He, H1, H2, H3.
    replace (set_esc ESC_NONE (ss_esc_code_unit s) (ss_esc_high_surrogate s) s) with s
      by (destruct s; cbn in He; by subst).
    by destruct (emit_str_bytes sink s [b] false is_key _ k).
  - destruct (Hrun s) as [cu Hr]. exists cu, SPAN_SCANNER_SCRATCH. cbn [app].
    rewrite bytes_string_step by done. unfold str_step. rewrite He.
    change (Byte.eqb x5c x22) with false. change (Byte.eqb x5c x5c) with true. cbn [sbind fst snd].
    by apply escape_run_bytes.
Qed.
End StringBytes.

Lemma value_chars str : forall s evs pend l,
  ss_phase s = PH_VAL_STR -> ss_esc_phase s = ESC_NONE ->
  exists cu, rbytes s (print_chars str ++ l) (evs, pend) = rbytes (set_esc ESC_NONE cu (ss_esc_high_surrogate s) s) l (evs, pend ++ str).
Proof.
  unfold print_chars. induction str as [|b str IH]; intros s evs pend l Hp He.
  - exists (ss_esc_code_unit s). cbn [map concat app]. rewrite app_nil_r. destruct s; cbn in *; by subst.
  - cbn [map concat]. rewrite <- app_assoc.
    destruct (string_char rec_sink false b s (concat (map escape_byte str) ++ l) (evs, pend) Hp He) as (cu & p & ->).
    set (s1 := set_esc _ _ _ _). change (emit_str_bytes _ _ _ _ _ _ _) with (Ok s1 (evs, pend ++ [b]) : sres recording scan_state).
    cbn [sbind]. destruct (IH s1 evs (pend ++ [b]) l Hp eq_refl) as [cu' ->].
    exists cu'. by rewrite <- app_assoc.
Qed.

Lemma key_chars str : forall s k l,
  ss_phase s = PH_KEY_STR -> ss_esc_phase s = ESC_NONE ->
  (length (ss_scratch s) + length str <= BB_SERIALIZE_JSON_SCRATCH_MAX_BYTES)%nat ->
  exists cu, rbytes s (print_chars str ++ l) k =
    rbytes (set_scratch (ss_scratch s ++ str) (ss_key_len s) (set_esc ESC_NONE cu (ss_esc_high_surrogate s) s)) l k.
Proof.
  unfold print_chars. induction str as [|b str IH]; intros s k l Hp He Hl.
  - exists (ss_esc_code_unit s). cbn [map concat app]. rewrite app_nil_r. destruct s; cbn in *; by subst.
  - cbn [map concat length] in *. rewrite <- app_assoc.
    destruct (string_char rec_sink true b s (concat (map escape_byte str) ++ l) k Hp He) as (cu & p & ->).
    cbn [emit_str_bytes]. unfold scratch_append. cbn [length ss_scratch set_esc ss_key_len].
    destruct (Nat.ltb_spec BB_SERIALIZE_JSON_SCRATCH_MAX_BYTES (length (ss_scratch s) + 1)); [lia|]. cbn [sbind].
    set (s1 := set_scratch _ _ _).
    destruct (IH s1 k l Hp eq_refl) as [cu' ->]; [subst s1; cbn [ss_scratch set_scratch]; rewrite length_app; cbn [length]; lia|].
    exists cu'. subst s1. cbn [ss_scratch set_scratch set_esc]. by rewrite <- app_assoc.
Qed.

Lemma string_scan s key klen st str rest evs :
  value_ready s key klen st ->
  exists s', value_read s' st /\ rbytes s (print_str str ++ rest) (evs, []) = rbytes s' rest (evs ++ [EvStr key str], []).
Proof.
  intros Hr. destruct (value_ready_dispatch _ _ _ _ Hr) as (s0 & (Hk & Hkl & Hs & Hst) & Hd).
  unfold print_str. cbn [app]. rewrite bytes_cons, Hd by done. cbn [dispatch_value_start is_digit].
  change (dispatch_value_start rec_sink s0 x22 true (evs, [])) with
    (Ok (set_phase PH_VAL_STR (set_esc_phase ESC_NONE s0)) (evs, []) : sres recording scan_state). cbn [sbind].
  rewrite <- app_assoc.
  destruct (value_chars str (set_phase PH_VAL_STR (set_esc_phase ESC_NONE s0)) evs [] ([x22] ++ rest) eq_refl eq_refl) as [cu ->].
  set (s1 := set_esc _ _ _ _). exists (val_done s1). split; [by apply val_done_read|].
  cbn [app]. rewrite bytes_cons.
  change (sbyte_step rec_sink s1 x22 (evs, str)) with
    (Ok (val_done s1) (evs ++ [EvStr (cur_key s1) (str ++ [])], []) : sres recording scan_state).
  cbn [sbind]. rewrite app_nil_r, <- Hk. done.
Qed.
(** ** Keys *)

Definition key_ready (s : scan_state) (st : list bool) : Prop :=
  (ss_phase s = PH_OBJ_KEY_OR_CLOSE \/ ss_phase s = PH_OBJ_KEY_ONLY) /\ ss_stack s = st.

Lemma cur_key_seen s key : ss_scratch s = default [] key -> ss_key_len s = length (default [] key) ->
  cur_key s = seen_key key.
Proof.
  unfold cur_key. intros -> ->. destruct key as [[|b key]|]; cbn; [done| |done]. by rewrite firstn_all.
Qed.

Lemma key_scan s st key rest k :
  key_ready s st -> (length (default [] key) <= BB_SERIALIZE_JSON_SCRATCH_MAX_BYTES)%nat ->
  exists s', value_ready s' (seen_key key) (length (default [] key)) st /\
    rbytes s (print_key key ++ rest) k = rbytes s' rest k.
Proof.
  intros [Hp Hst] Hl. unfold print_key, print_str. set (str := default [] key) in *.
  rewrite <- app_assoc. cbn [app]. rewrite <- app_assoc. rewrite bytes_cons.
  set (s0 := set_phase PH_KEY_STR (set_esc_phase ESC_NONE (set_scratch [] 0 s))).
  assert (sbyte_step rec_sink s x22 k = Ok s0 k) as ->.
  { rewrite bytes_step_structural by (by destruct Hp as [-> | ->]). unfold sbyte, drive_iter.
    by destruct Hp as [-> | ->]. }
  cbn [sbind]. destruct (key_chars str s0 k ([x22] ++ [x3a] ++ rest) eq_refl eq_refl Hl) as [cu Hk].
  cbn [app] in Hk. cbn [app]. rewrite Hk. clear Hk. set (s1 := set_scratch _ _ _).
  rewrite (bytes_string_step rec_sink true) by done.
  change (str_step rec_sink true s1 x22 k) with
    (sbind (scratch_append s1 [] k) (fun s2 k2 => Ok (s2, true) k2)).
  unfold scratch_append. change (ss_scratch s1) with str. cbn [length].
  destruct (Nat.ltb_spec BB_SERIALIZE_JSON_SCRATCH_MAX_BYTES (length str + 0)); [lia|]. cbn [sbind fst snd].
  rewrite app_nil_r. set (s2 := key_done _). rewrite bytes_cons.
  change (sbyte_step rec_sink s2 x3a k) with (Ok (set_phase PH_OBJ_VALUE s2) k : sres recording scan_state).
  cbn [sbind]. exists (set_phase PH_OBJ_VALUE s2). split; [|done]. split; [done|]. right.
  split_and!; try done. by apply cur_key_seen.
Qed.

(** ** Containers *)

Definition open_text (arr : bool) : byte := if arr then x5b else x7b.
Definition close_text (arr : bool) : byte := if arr then x5d else x7d.
Definition begin_event (arr : bool) (key : key_t) : jev := if arr then EvBeginArr key else EvBeginObj key.
Definition end_event (arr : bool) : jev := if arr then EvEndArr else EvEndObj.
(** Ready for the first or a further sibling of the innermost container. *)
Definition sibling_ready (arr first : bool) (s : scan_state) (st : list bool) : Prop :=
  ss_stack s = arr :: st /\
  ss_phase s = match arr, first with
               | true, true => PH_ARR_ELEM_OR_CLOSE | true, false => PH_ARR_ELEM_ONLY
               | false, true => PH_OBJ_KEY_OR_CLOSE | false, false => PH_OBJ_KEY_ONLY
               end.

Lemma open_scan s key klen st arr rest evs :
  value_ready s key klen st -> (length st < BB_SERIALIZE_MAX_DEPTH)%nat ->
  exists s', sibling_ready arr true s' st /\
    rbytes s (open_text arr :: rest) (evs, []) = rbytes s' rest (evs ++ [begin_event arr key], []).
Proof.
  intros Hr Hd. destruct (value_ready_dispatch _ _ _ _ Hr) as (s0 & (Hk & _ & _ & Hst) & Hdis).
  rewrite bytes_cons, Hdis by (by destruct arr).
  exists (set_phase (if arr then PH_ARR_ELEM_OR_CLOSE else PH_OBJ_KEY_OR_CLOSE) (set_stack (arr :: st) s0)).
  split; [by destruct arr|]. subst key st.
  assert (dispatch_value_start rec_sink s0 (open_text arr) true (evs, []) = open_container rec_sink arr s0 (evs, [])) as ->
    by (by destruct arr).
  unfold open_container. destruct (Nat.leb_spec BB_SERIALIZE_MAX_DEPTH (length (ss_stack s0))); [lia|].
  by destruct arr.
Qed.

Lemma close_scan s arr st rest evs :
  value_read s (arr :: st) \/ sibling_ready arr true s st ->
  exists s', value_read s' st /\
    rbytes s (close_text arr :: rest) (evs, []) = rbytes s' rest (evs ++ [end_event arr], []).
Proof.
  intros H. exists (val_done (set_stack st s)). split; [by apply val_done_read|].
  assert (Hc : sbyte_step rec_sink s (close_text arr) (evs, []) = close_container rec_sink s (evs, []) /\ ss_stack s = arr :: st).
  { destruct H as [[Hst Hp]|[Hst Hp]].
    - unfold after_value_phase in Hp. rewrite Hst in Hp. split; [|done].
      rewrite bytes_step_structural by (rewrite Hp; by destruct arr). unfold sbyte, drive_iter. rewrite Hp.
      rewrite <- (bind_ok (close_container _ _ _)). destruct arr; cbn [skip_ws is_ws close_text];
        by destruct (close_container rec_sink s (evs, [])).
    - split; [|done]. rewrite bytes_step_structural by (rewrite Hp; by destruct arr). unfold sbyte, drive_iter. rewrite Hp.
      destruct arr; cbn [skip_ws is_ws close_text]; by destruct (close_container rec_sink s (evs, [])). }
  destruct Hc as [Hc Hst]. rewrite bytes_cons, Hc. unfold close_container. rewrite Hst. by destruct arr.
Qed.

Lemma comma_scan s arr st rest k :
  value_read s (arr :: st) ->
  exists s', sibling_ready arr false s' st /\ rbytes s (x2c :: rest) k = rbytes s' rest k.
Proof.
  intros [Hst Hp]. unfold after_value_phase in Hp. rewrite Hst in Hp.
  exists (set_phase (if arr then PH_ARR_ELEM_ONLY else PH_OBJ_KEY_ONLY) s).
  split; [by destruct arr|]. rewrite bytes_cons, bytes_step_structural by (rewrite Hp; by destruct arr).
  unfold sbyte, drive_iter. rewrite Hp. by destruct arr.
Qed.

(** Siblings, each with its text and its events, then the closing bracket. *)
Section Siblings.
Context {A : Type} (arr : bool) (text : A -> list byte) (evts : A -> list jev) (st : list bool).
Definition sibling_scans (a : A) : Prop :=
  forall s first c rest evs, sibling_ready arr first s st -> terminator c ->
  exists s', value_read s' (arr :: st) /\
    rbytes s (text a ++ c :: rest) (evs, []) = rbytes s' (c :: rest) (evs ++ evts a, []).

Lemma more_siblings_scan xs : Forall sibling_scans xs -> forall s rest evs,
  value_read s (arr :: st) ->
  exists s', value_read s' st /\
    rbytes s (concat (map (cons x2c) (map text xs)) ++ close_text arr :: rest) (evs, []) =
    rbytes s' rest (evs ++ concat (map evts xs) ++ [end_event arr], []).
Proof.
  induction 1 as [|x xs Hx _ IH]; intros s rest evs Hs; cbn [map concat app].
  - apply close_scan. by left.
  - destruct (comma_scan s arr st ((text x ++ concat (map (cons x2c) (map text xs))) ++ close_text arr :: rest) (evs, []) Hs)
      as (s1 & H1 & ->). rewrite <- app_assoc.
    assert (exists c tl, terminator c /\ concat (map (cons x2c) (map text xs)) ++ close_text arr :: rest = c :: tl) as (c & tl & Hc & E).
    { destruct xs; cbn [map concat app]; eexists _, _; (split; [|reflexivity]); [|by left].
      destruct arr; [right; by right|right; by left]. }
    destruct (Hx s1 false c tl evs H1 Hc) as (s2 & H2 & Hx2). rewrite E, Hx2, <- E.
    destruct (IH s2 rest (evs ++ evts x) H2) as (s3 & H3 & ->). exists s3. split; [done|].
    by rewrite <- !app_assoc.
Qed.

Lemma container_scan xs s key klen rest evs :
  Forall sibling_scans xs -> value_ready s key klen st -> (length st < BB_SERIALIZE_MAX_DEPTH)%nat ->
  exists s', value_read s' st /\
    rbytes s (open_text arr :: (join (map text xs) ++ [close_text arr]) ++ rest) (evs, []) =
    rbytes s' rest (evs ++ begin_event arr key :: concat (map evts xs) ++ [end_event arr], []).
Proof.
  intros Hxs Hr Hd.
  destruct (open_scan s key klen st arr ((join (map text xs) ++ [close_text arr]) ++ rest) evs Hr Hd) as (s1 & H1 & ->).
  rewrite <- app_assoc. cbn [app]. destruct Hxs as [|x xs Hx Hxs]; cbn [map join app concat].
  - destruct (close_scan s1 arr st rest (evs ++ [begin_event arr key])) as (s2 & H2 & ->); [by right|].
    exists s2. split; [done|]. by rewrite <- !app_assoc.
  - rewrite <- app_assoc.
    assert (exists c tl, terminator c /\ concat (map (cons x2c) (map text xs)) ++ close_text arr :: rest = c :: tl) as (c & tl & Hc & E).
    { destruct xs; cbn [map concat app]; eexists _, _; (split; [|reflexivity]); [|by left].
      destruct arr; [right; by right|right; by left]. }
    destruct (Hx s1 true c tl (evs ++ [begin_event arr key]) H1 Hc) as (s2 & H2 & Hx2). rewrite E, Hx2, <- E.
    destruct (more_siblings_scan xs Hxs s2 rest ((evs ++ [begin_event arr key]) ++ evts x) H2) as (s3 & H3 & ->).
    exists s3. split; [done|]. by rewrite <- !app_assoc.
Qed.
End Siblings.
(** ** Values *)

Lemma fold_right_and_Forall {A} (P : A -> Prop) l : fold_right (fun a Q => P a /\ Q) True l -> Forall P l.
Proof. induction l as [|a l IH]; cbn; [constructor|]. intros [Ha Hl]. constructor; auto. Qed.

Lemma list_max_Forall {A} (f : A -> nat) l n : (list_max (map f l) <= n)%nat -> Forall (fun a => f a <= n)%nat l.
Proof. intros H%list_max_le. by apply Forall_map in H. Qed.

Lemma literal_scan s key klen st b rest evs :
  value_ready s key klen st ->
  exists s', value_read s' st /\
    rbytes s (lit_text b ++ rest) (evs, []) =
    rbytes s' rest (evs ++ [match b with LIT_TRUE => EvBool key true | LIT_FALSE => EvBool key false
                         | LIT_NULL => EvNull key end], []).
Proof.
  intros Hr. destruct (value_ready_dispatch _ _ _ _ Hr) as (s0 & Hs0 & Hdis).
  destruct b; cbn [lit_text]; match goal with |- context [bs ?x ++ rest] => let y := eval cbv in (bs x) in change (bs x) with y end;
    cbn [app]; rewrite bytes_cons, Hdis by done; cbn [dispatch_value_start is_digit];
    cbn [sbind].
  - apply (lit_bytes s0 key klen st LIT_TRUE (bs "rue") rest evs Hs0). by left.
  - apply (lit_bytes s0 key klen st LIT_FALSE (bs "alse") rest evs Hs0). right; by left.
  - apply (lit_bytes s0 key klen st LIT_NULL (bs "ull") rest evs Hs0). right; by right.
Qed.

Lemma sibling_value s arr first st : arr = true -> sibling_ready arr first s st ->
  value_ready s None 0 (arr :: st).
Proof. intros -> [Hst Hp]. split; [done|]. left. split; [|done]. rewrite Hp. destruct first; auto. Qed.

Lemma sibling_key s first st : sibling_ready false first s st -> key_ready s (false :: st).
Proof. intros [Hst Hp]. split; [|done]. rewrite Hp. destruct first; auto. Qed.

Lemma room_key short klen v : scannable short klen v -> (klen <= BB_SERIALIZE_JSON_SCRATCH_MAX_BYTES)%nat.
Proof. destruct v; cbn; intros [H _]; lia. Qed.

Lemma value_scan short v : forall s key klen st c rest evs,
  value_ready s key klen st -> (length st + jdepth v <= BB_SERIALIZE_MAX_DEPTH)%nat ->
  scannable short klen v -> terminator c ->
  exists s', value_read s' st /\
    rbytes s (print_val short v ++ c :: rest) (evs, []) =
    rbytes s' (c :: rest) (evs ++ events short key v, []).
Proof.
  induction v as [|b|x|x|x|str|vs IH|ms IH] using jval_nested_ind; intros s key klen st c rest evs Hr Hd Hs Hc;
    cbn [print_val events leaf_event].
  - by apply (literal_scan s key klen st LIT_NULL).
  - destruct b; [by apply (literal_scan s key klen st LIT_TRUE)|by apply (literal_scan s key klen st LIT_FALSE)].
  - apply (number_scan s key klen); try done; [apply num_text_i64|apply Hs].
  - apply (number_scan s key klen); try done; [apply num_text_u64|apply Hs].
  - destruct (decide (print_f64 short x = bs "null")) as [->|Hn].
    + by apply (literal_scan s key klen st LIT_NULL).
    + destruct (print_f64_num short x); [done|]. apply (number_scan s key klen); try done. apply Hs.
  - by apply (string_scan s key klen).
  - cbn [scannable jdepth] in Hs, Hd. destruct Hs as [_ Hs%fold_right_and_Forall].
    pose proof (list_max_Forall jdepth vs (BB_SERIALIZE_MAX_DEPTH - length (true :: st)) ltac:(cbn [length]; lia)) as Hds.
    apply (container_scan true (print_val short) (events short None) st vs s key klen); [|done|lia].
    apply Forall_forall. intros v Hv s1 first c1 rest1 evs1 Hs1 Hc1. rewrite Forall_forall in IH, Hs, Hds.
    apply (IH v Hv s1 None 0%nat); [by eapply sibling_value|specialize (Hds v Hv); cbn [length] in Hds |- *; lia|by apply Hs|done].
  - cbn [scannable jdepth] in Hs, Hd. destruct Hs as [_ Hs].
    apply (fold_right_and_Forall (fun m => scannable short (length (default [] m.1)) m.2)) in Hs.
    pose proof (list_max_Forall (fun m => jdepth m.2) ms (BB_SERIALIZE_MAX_DEPTH - length (false :: st)) ltac:(cbn [length]; lia)) as Hds.
    apply (container_scan false (fun m => print_key m.1 ++ print_val short m.2) (fun m => events short (seen_key m.1) m.2) st ms s key klen); [|done|lia].
    apply Forall_forall. intros m Hm s1 first c1 rest1 evs1 Hs1 Hc1. rewrite Forall_forall in IH, Hs, Hds.
    rewrite <- app_assoc.
    destruct (key_scan s1 (false :: st) m.1 (print_val short m.2 ++ c1 :: rest1) (evs1, [])) as (s2 & H2 & ->);
      [by eapply sibling_key|by eapply room_key, Hs|].
    apply (IH m Hm s2 _ _ _ _ _ _ H2); [specialize (Hds m Hm); cbn [length] in Hds |- *; lia|by apply Hs|done].
Qed.

(** A printed object is accepted whole, with its events. *)
Lemma document_bytes short ms bounded :
  let v := JObj ms in
  (jdepth v <= BB_SERIALIZE_MAX_DEPTH)%nat -> scannable short 0 v ->
  exists s, ss_phase s = PH_AFTER_ROOT /\ ss_err s = BB_OK /\
    rbytes (scan_begin_internal bounded) (print_val short v) ([], []) = Ok s (events short None v, []).
Proof.
  intros v Hd Hs.
  assert (Hr : value_ready (scan_begin_internal bounded) None 0 []) by (split; [done|by left; auto]).
  assert (Hgo : exists s, value_read s [] /\ rbytes (scan_begin_internal bounded) (print_val short v) ([], []) = rbytes s [] (events short None v, [])).
  { subst v. cbn [scannable jdepth] in Hs, Hd. destruct Hs as [_ Hs].
    apply (fold_right_and_Forall (fun m => scannable short (length (default [] m.1)) m.2)) in Hs.
    pose proof (list_max_Forall (fun m => jdepth m.2) ms (BB_SERIALIZE_MAX_DEPTH - 1) ltac:(lia)) as Hds.
    cbn [print_val]. rewrite <- (app_nil_r (join _ ++ [x7d])).
    apply (container_scan false (fun m => print_key m.1 ++ print_val short m.2) (fun m => events short (seen_key m.1) m.2) [] ms _ None 0);
      [|done|unfold BB_SERIALIZE_MAX_DEPTH; cbn; lia].
    apply Forall_forall. intros m Hm s1 first c1 rest1 evs1 Hs1 Hc1. rewrite Forall_forall in Hs, Hds.
    rewrite <- app_assoc.
    destruct (key_scan s1 [false] m.1 (print_val short m.2 ++ c1 :: rest1) (evs1, [])) as (s2 & H2 & ->);
      [by eapply sibling_key|by eapply room_key, Hs|].
    apply (value_scan short m.2 s2 _ _ _ _ _ _ H2); [specialize (Hds m Hm); cbn [length] in Hds |- *; lia|by apply Hs|done]. }
  destruct Hgo as (s & [Hst Hp] & E). exists s. split; [rewrite Hp; unfold after_value_phase; by rewrite Hst|].
  pose proof (bytes_err rec_sink (scan_begin_internal bounded) (print_val short v) ([], [])) as H.
  rewrite E in H |- *. cbn [bytes] in *. by rewrite H.
Qed.

(** ** Whole documents *)

(** The writer's chunks, as they come, go into the scanner. *)
Lemma stream_render_chunks ptr_size tables iter_rows junk desc s short :
  let r := bb_serialize_json_stream_render ptr_size tables iter_rows junk (Some desc) (Some s) (fun _ => false) short in
  r.1 = BB_OK /\ concat r.2 = print_val short (JObj (document ptr_size tables iter_rows None desc s)).
Proof.
  cbv zeta. pose proof (render_stream_text ptr_size tables iter_rows junk (Some desc) (Some s) (fun _ => false) short) as [_ H].
  destruct H as [(H1 & H2 & _)|(_ & _ & H & _)]; [done|done].
Qed.

(** What a scan of a printed document answers, whole or in pieces. *)
Lemma scan_end_document s k : ss_phase s = PH_AFTER_ROOT -> ss_err s = BB_OK -> scan_end_from rec_sink s k = (BB_OK, k).
Proof. intros Hp He. unfold scan_end_from, bb_serialize_json_scan_end, scan_finish. by rewrite He, Hp. Qed.

Lemma chunks_document chunks short ms :
  let v := JObj ms in
  concat chunks = print_val short v -> (jdepth v <= BB_SERIALIZE_MAX_DEPTH)%nat -> scannable short 0 v ->
  scan_chunks rec_sink chunks ([], []) = Some (BB_OK, (events short None v, [])).
Proof.
  intros v Hc Hd Hs. destruct (document_bytes short ms false Hd Hs) as (s & Hp & He & Hb).
  destruct (scan_chunks_bytes rec_sink chunks ([], [])) as (rc & k1 & -> & H).
  change bb_serialize_json_scan_begin with (scan_begin_internal false) in H. rewrite Hc in H. fold v in Hb. rewrite Hb in H.
  by rewrite (scan_end_document s) in H; [injection H as -> ->|..].
Qed.

Lemma bounded_document short ms :
  let v := JObj ms in
  (jdepth v <= BB_SERIALIZE_MAX_DEPTH)%nat -> scannable short 0 v ->
  bb_serialize_json_scan_bounded rec_sink (print_val short v) ([], []) = Some (BB_OK, (events short None v, [])).
Proof.
  intros v Hd Hs. destruct (document_bytes short ms false Hd Hs) as (s & Hp & He & Hb).
  destruct (scan_bounded_bytes rec_sink (print_val short v) ([], [])) as (rc & k1 & -> & H).
  change bb_serialize_json_scan_begin with (scan_begin_internal false) in H. fold v in Hb. rewrite Hb in H.
  by rewrite (scan_end_document s) in H; [injection H as -> ->|..].
Qed.

(** * Properties *)

(** C15: chunk boundaries do not matter.  For every sink that does not see how a
    string is cut into spans, every input and every cut into chunks (inside
    escapes, surrogate pairs, numbers and literals included), the streaming scan
    and the bounded scan of the whole input both return, accept or reject
    together, and leave the sink in the same state when they accept. *)
Theorem scan_chunking_irrelevant {K} (sink : ingest K) (Hs : SplitInsensitive sink) chunks k :
  exists rc k1 rc' k1', scan_chunks sink chunks k = Some (rc, k1) /\
    bb_serialize_json_scan_bounded sink (concat chunks) k = Some (rc', k1') /\
    (rc = BB_OK <-> rc' = BB_OK) /\ (rc = BB_OK -> k1 = k1').
Proof. apply chunks_agree, Hs. Qed.

Definition wit_chunks : list (list byte) :=
  [bs "{"; [x22]; bs "a" ++ [x22]; bs ":[tr"; bs "ue,-1"; bs ".5e"; bs "3,"; [x22; x5c]; bs "u00"; bs "e9" ++ [x22]; bs "]}"].
Definition wit_events : list jev :=
  [EvBeginObj None; EvBeginArr (Some (bs "a")); EvBool None true; EvNum None (bs "-1.5e3");
   EvStr None [xc3; xa9]; EvEndArr; EvEndObj].

Lemma scan_chunking_irrelevant_witness :
  scan_chunks rec_sink wit_chunks ([], []) = Some (BB_OK, (wit_events, [])) /\
  exists rc k1 rc' k1', scan_chunks rec_sink wit_chunks ([], []) = Some (rc, k1) /\
    bb_serialize_json_scan_bounded rec_sink (concat wit_chunks) ([], []) = Some (rc', k1') /\
    (rc = BB_OK <-> rc' = BB_OK) /\ (rc = BB_OK -> k1 = k1').
Proof.
  split; [vm_compute; reflexivity|]. apply (scan_chunking_irrelevant rec_sink rec_split wit_chunks ([], [])).
Defined.

(** C14: writer and scanner.  What the chunked renderer sends, fed as it comes to
    the streaming scanner, is accepted with exactly the events of the walked
    document: the same nesting, keys, strings (every byte escaped and read
    back), and the number texts the writer chose; an empty key is seen as no
    key.  So is what the buffer renderer writes, in one bounded scan.  The
    scanner's own limits are the hypotheses: at most [BB_SERIALIZE_MAX_DEPTH]
    containers and room in the scratch for each key with its number. *)
Theorem writer_scanner_roundtrip ptr_size tables iter_rows junk desc s short cap :
  let v := JObj (document ptr_size tables iter_rows None desc s) in
  let sent := bb_serialize_json_stream_render ptr_size tables iter_rows junk (Some desc) (Some s) (fun _ => false) short in
  let written := bb_serialize_json_render ptr_size tables iter_rows junk (Some desc) (Some s) cap None short in
  (jdepth v <= BB_SERIALIZE_MAX_DEPTH)%nat -> scannable short 0 v ->
  (sent.1 = BB_OK /\ scan_chunks rec_sink sent.2 ([], []) = Some (BB_OK, (events short None v, []))) /\
  (written.1 = BB_OK ->
   bb_serialize_json_scan_bounded rec_sink written.2 ([], []) = Some (BB_OK, (events short None v, []))).
Proof.
  cbv zeta. intros Hd Hs. split.
  - pose proof (stream_render_chunks ptr_size tables iter_rows junk desc s short) as H. cbv zeta in H. destruct H as [H1 H2].
    split; [done|]. by apply chunks_document.
  - pose proof (render_text ptr_size tables iter_rows junk cap None (Some desc) (Some s) short) as H. unfold doc_text in H.
    cbn [doc_members] in H. rewrite H. destruct (_ <? _)%nat; [intros _|done]. by apply bounded_document.
Qed.

Lemma writer_scanner_roundtrip_witness :
  let v := JObj (document 8 wit_tables no_rows None (mk_sdesc (bs "w") 1 40) ex_snap) in
  (jdepth v <= BB_SERIALIZE_MAX_DEPTH)%nat /\ scannable false 0 v /\
  scan_chunks rec_sink
    (bb_serialize_json_stream_render 8 wit_tables no_rows wit_junk (Some (mk_sdesc (bs "w") 1 40)) (Some ex_snap) (fun _ => false) false).2
    ([], []) = Some (BB_OK, ([EvBeginObj None; EvNum (Some (bs "n")) (bs "7"); EvStr (Some (bs "s")) (bs "hi"); EvEndObj], [])).
Proof.
  assert (Hd : (jdepth (JObj (document 8 wit_tables no_rows None (mk_sdesc (bs "w") 1 40) ex_snap)) <= BB_SERIALIZE_MAX_DEPTH)%nat)
    by (apply Nat.leb_le; vm_compute; reflexivity).
  assert (Hs : scannable false 0 (JObj (document 8 wit_tables no_rows None (mk_sdesc (bs "w") 1 40) ex_snap))).
  { assert (document 8 wit_tables no_rows None (mk_sdesc (bs "w") 1 40) ex_snap =
      [(Some (bs "n"), JU64 7); (Some (bs "s"), JStr (bs "hi"))]) as -> by (vm_compute; reflexivity).
    assert (length (dec_u64 7) = 1%nat) as Hn by (vm_compute; reflexivity).
    cbn [scannable scratch_room fold_right fst snd]. rewrite Hn. unfold BB_SERIALIZE_JSON_SCRATCH_MAX_BYTES. cbn. lia. }
  split; [exact Hd|]. split; [exact Hs|].
  rewrite (proj2 (proj1 (writer_scanner_roundtrip 8 wit_tables no_rows wit_junk (mk_sdesc (bs "w") 1 40) ex_snap false 64 Hd Hs))).
  vm_compute. reflexivity.
Defined.
