(* ===== verification/Envelope.v ===== *)
(** The event envelope of Str over the documents the JSON writer prints. *)
From Stdlib Require Import Strings.String.
From S2P Require Import Prelude Bytes Num Float Walk JsonWrite JsonScan ScanBytes ScanSafe ScanDoc Str.

(** * The balanced scan passes over whole values *)

(** Bytes the scan takes no notice of outside a string. *)
Definition inert (b : byte) : Prop := b <> x22 /\ b <> x7b /\ b <> x7d.

Lemma scan_inert l t d n : Forall inert l ->
  envelope_scan (l ++ t) d false false n = envelope_scan t d false false (length l + n).
Proof.
  intros H. revert n. induction H as [|b l (H1 & H2 & H3) _ IH]; intros n; [done|]. cbn [app envelope_scan length].
  rewrite (proj2 (byte_eqb_neq _ _) H1), (proj2 (byte_eqb_neq _ _) H2), (proj2 (byte_eqb_neq _ _) H3), IH. f_equal. lia.
Qed.

Lemma digits_inert l : Forall (fun b => is_digit b = true) l -> Forall inert l.
Proof. intros H. eapply Forall_impl; [exact H|]. intros b Hb. by destruct b. Qed.
Lemma num_run_inert l : forall ph p, num_run ph l = Some p -> Forall inert l.
Proof.
  induction l as [|b l IH]; intros ph p H; [constructor|]. cbn [num_run] in H.
  destruct (num_next ph b) as [[ph'|]|] eqn:E; [|done|done]. constructor; [|by eapply IH]. by destruct ph, b.
Qed.
Lemma num_text_inert l : num_text l -> Forall inert l.
Proof.
  destruct l as [|c l]; [done|]. intros (p & Hr & _ & Hc). constructor; [|by eapply num_run_inert].
  destruct Hc as [Hc| ->]; [by destruct c|done].
Qed.

Lemma scan_escape c t d n :
  envelope_scan (escape_byte c ++ t) d true false n = envelope_scan t d true false (length (escape_byte c) + n).
Proof. by destruct c. Qed.
Lemma scan_chars s t d n :
  envelope_scan (print_chars s ++ t) d true false n = envelope_scan t d true false (length (print_chars s) + n).
Proof.
  unfold print_chars. revert n. induction s as [|c s IH]; intros n; [done|]. cbn [map concat].
  rewrite <- app_assoc, scan_escape, IH, length_app. f_equal. lia.
Qed.
Lemma scan_str s t d n :
  envelope_scan (print_str s ++ t) d false false n = envelope_scan t d false false (length (print_str s) + n).
Proof.
  unfold print_str. cbn [app envelope_scan]. change (Byte.eqb x22 x22) with true. rewrite <- app_assoc, scan_chars. cbn [app envelope_scan].
  change (Byte.eqb x22 x5c) with false. change (Byte.eqb x22 x22) with true. cbn [length]. rewrite length_app. cbn [length]. f_equal. lia.
Qed.

(** A text the scan passes over below the top level. *)
Definition balanced (l : list byte) : Prop := forall t d n, 1 <= d ->
  envelope_scan (l ++ t) d false false n = envelope_scan t d false false (length l + n).

Lemma inert_balanced l : Forall inert l -> balanced l.
Proof. intros H t d n _. by apply scan_inert. Qed.
Lemma balanced_app a b : balanced a -> balanced b -> balanced (a ++ b).
Proof. intros Ha Hb t d n Hd. rewrite <- app_assoc, Ha, Hb, length_app by done. f_equal. lia. Qed.
Lemma balanced_join ps : Forall balanced ps -> balanced (join ps).
Proof.
  intros H. destruct H as [|p ps Hp Hps]; [by apply inert_balanced|]. apply balanced_app; [done|].
  induction Hps as [|q ps Hq _ IH]; [by apply inert_balanced|]. cbn [map concat].
  apply (balanced_app (x2c :: q)); [|done]. apply (balanced_app [x2c]); [|done]. apply inert_balanced. by repeat constructor.
Qed.
Lemma balanced_braces l : balanced l -> balanced (x7b :: l ++ [x7d]).
Proof.
  intros H t d n Hd. cbn [app envelope_scan]. change (Byte.eqb x7b x22) with false. change (Byte.eqb x7b x7b) with true. cbv iota.
  rewrite <- app_assoc, H by lia. cbn [app envelope_scan].
  change (Byte.eqb x7d x22) with false. change (Byte.eqb x7d x7b) with false. change (Byte.eqb x7d x7d) with true. cbv iota.
  destruct (Z.eqb_spec (d + 1 - 1) 0); [lia|]. cbn [length]. rewrite length_app. cbn [length]. f_equal; lia.
Qed.

Lemma key_balanced k : balanced (print_key k).
Proof. apply balanced_app; [intros t d n _; apply scan_str|apply inert_balanced; by repeat constructor]. Qed.

Lemma val_balanced short v : balanced (print_val short v).
Proof.
  induction v as [|b|x|x|x|str|vs IH|ms IH] using jval_nested_ind; cbn [print_val].
  - apply inert_balanced. by repeat constructor.
  - destruct b; apply inert_balanced; by repeat constructor.
  - apply inert_balanced, num_text_inert, num_text_i64.
  - apply inert_balanced, num_text_inert, num_text_u64.
  - apply inert_balanced. destruct (print_f64_num short x) as [->|H]; [by repeat constructor|by apply num_text_inert].
  - intros t d n _. apply scan_str.
  - apply (balanced_app [x5b]); [apply inert_balanced; by repeat constructor|]. apply balanced_app; [|apply inert_balanced; by repeat constructor].
    apply balanced_join. by apply Forall_map.
  - apply balanced_braces, balanced_join, Forall_map. eapply Forall_impl; [exact IH|]. intros m Hm. by apply balanced_app; [apply key_balanced|].
Qed.

(** At the top level the scan stops right after the object. *)
Lemma object_scan short ms t :
  envelope_scan (print_val short (JObj ms) ++ t) 0 false false 0 = (length (print_val short (JObj ms)), 0).
Proof.
  cbn [print_val app envelope_scan]. change (Byte.eqb x7b x22) with false. change (Byte.eqb x7b x7b) with true. cbv iota.
  assert (Hb : balanced (join (map (fun m => print_key m.1 ++ print_val short m.2) ms))).
  { apply balanced_join, Forall_map, Forall_true. intros m. apply balanced_app; [apply key_balanced|apply val_balanced]. }
  rewrite <- app_assoc, Hb by lia. cbn [app envelope_scan].
  change (Byte.eqb x7d x22) with false. change (Byte.eqb x7d x7b) with false. change (Byte.eqb x7d x7d) with true. cbv iota.
  cbn [length]. rewrite length_app. cbn [length Z.add Z.sub Z.eqb]. f_equal; lia.
Qed.

(** * The keys *)

Lemma find_skip key l t : Forall (fun b => b <> x22) l ->
  bb_str_envelope_find_key_value (x22 :: key) (l ++ t) = bb_str_envelope_find_key_value (x22 :: key) t.
Proof.
  induction 1 as [|b l Hb _ IH]; [done|]. cbn [app bb_str_envelope_find_key_value starts_with].
  destruct (Byte.eqb x22 b) eqn:E; [apply byte_eqb_eq in E; congruence|]. exact IH.
Qed.

Definition envelope (ts : Z) (data rest : list byte) : list byte :=
  x7b :: KEY_TS_MS ++ dec_i64 ts ++ x2c :: KEY_DATA ++ data ++ rest.

Lemma span_digit_app l c t : Forall (fun b => is_digit b = true) l -> is_digit c = false -> span_digit (l ++ c :: t) = l.
Proof. intros H Hc. induction H as [|b l Hb _ IH]; cbn [app span_digit]; [by rewrite Hc|]. by rewrite Hb, IH. Qed.

Lemma envelope_number_dec ts t : envelope_number (dec_i64 ts ++ x2c :: t) = Some (dec_i64 ts) /\
  skip_space (dec_i64 ts ++ x2c :: t) = dec_i64 ts ++ x2c :: t /\ Forall (fun b => b <> x22) (dec_i64 ts).
Proof.
  assert (Hu : forall v, dec_u64 v <> [] /\ Forall (fun b => is_digit b = true) (dec_u64 v)) by (intros v; split; [apply dec_u64_nonempty|apply dec_u64_digits]).
  unfold dec_i64. match goal with |- context [if ?c then _ else _] => destruct c end.
  - match goal with |- context [dec_u64 ?v] => destruct (Hu v) as [Hn Hd]; set (ds := dec_u64 v) in * end. clearbody ds.
    destruct ds as [|c ds]; [done|]. apply Forall_cons_1 in Hd as [Hc Hd].
    assert (Hm : Byte.eqb c x2d = false) by (by destruct c). assert (Hs : is_json_space c = false) by (by destruct c).
    split_and!.
    + unfold envelope_number. cbn [app]. rewrite Hm. change (c :: ds ++ x2c :: t) with ((c :: ds) ++ x2c :: t).
      rewrite span_digit_app; [|by constructor|done]. destruct ds; [by rewrite Hm|done].
    + cbn [app skip_space]. by rewrite Hs.
    + constructor; [by intros ->|]. eapply Forall_impl; [exact Hd|]. intros b Hb ->. done.
  - match goal with |- context [dec_u64 ?v] => destruct (Hu v) as [Hn Hd]; set (ds := dec_u64 v) in * end. clearbody ds.
    split_and!; [|done|].
    + unfold envelope_number. cbn [app]. change (Byte.eqb x2d x2d) with true. cbv iota. rewrite span_digit_app by done. by destruct ds.
    + constructor; [done|]. eapply Forall_impl; [exact Hd|]. intros b Hb ->. done.
Qed.

(** An envelope is split into its parts.  For every timestamp, every
    document the JSON writer prints (names and strings with quotes, braces and
    backslashes in them, nested objects and arrays, doubles in either format)
    and whatever follows it, the byte scan of
    {"ts_ms":<n>,"data":<document>... answers exactly the range of the number
    and the range of the document. *)
Theorem envelope_splits_printed ts short ms rest :
  let data := print_val short (JObj ms) in
  bb_str_envelope_split (Some (envelope ts data rest)) =
  Some ((9%nat, length (dec_i64 ts)), ((9 + length (dec_i64 ts) + 8)%nat, length data)).
Proof.
  intros data. destruct (envelope_number_dec ts (KEY_DATA ++ data ++ rest)) as (Hnum & Hsp & Hq).
  assert (Hts : bb_str_envelope_find_key_value KEY_TS_MS (envelope ts data rest) = Some (dec_i64 ts ++ x2c :: KEY_DATA ++ data ++ rest)).
  { rewrite <- Hsp. reflexivity. }
  assert (Hdata : bb_str_envelope_find_key_value KEY_DATA (envelope ts data rest) = Some (data ++ rest)).
  { assert (Htail : bb_str_envelope_find_key_value KEY_DATA (dec_i64 ts ++ x2c :: KEY_DATA ++ data ++ rest) = Some (data ++ rest)).
    { unfold KEY_DATA at 1. rewrite find_skip by done. reflexivity. }
    rewrite <- Htail. reflexivity. }
  pose proof (object_scan short ms rest) as Hs. fold data in Hs.
  assert (Hd : exists l, data = x7b :: l) by (by eexists). destruct Hd as [l Hl]. clearbody data.
  assert (Hlen : length (envelope ts data rest) = (17 + length (dec_i64 ts) + length data + length rest)%nat).
  { unfold envelope, KEY_TS_MS, KEY_DATA. cbn [length app]. rewrite !length_app. cbn [length app]. rewrite !length_app. cbn. lia. }
  unfold bb_str_envelope_split. destruct (envelope ts data rest) as [|b e] eqn:E; [done|].
  subst data. rewrite Hts, Hnum, Hdata, Hlen. cbn [app] in Hs |- *. rewrite Hs. cbn [Z.eqb negb].
  rewrite !length_app. cbn [length]. rewrite !length_app. cbn [length]. rewrite !length_app. change (length KEY_DATA) with 7%nat.
  assert (Hn : forall a b c d : nat, a = b -> c = d -> Some ((a, length (dec_i64 ts)), (c, S (length l))) = Some ((b, length (dec_i64 ts)), (d, S (length l)))) by congruence.
  apply Hn; lia.
Qed.
