(* ===== verification/ScanSim.v ===== *)
(** Simulation of sinks: when one sink follows another call by call, a scan
    that succeeds with the first succeeds with the second, and their states
    stay related.  And a bounded scan returns whatever the sink answers. *)
From S2P Require Import Prelude Bytes Walk JsonScan ScanBytes ScanSafe.
Local Open Scope scan_scope.

Section Sim.
Context {K1 K2 : Type} (R : K1 -> K2 -> Prop).

(** When the first accepts, so does the second. *)
Definition follows (r1 : bb_err * K1) (r2 : bb_err * K2) : Prop := r1.1 = BB_OK -> r2.1 = BB_OK /\ R r1.2 r2.2.

Class SinkSim (i1 : ingest K1) (i2 : ingest K2) : Prop := {
  sim_begin_obj key k1 k2 : R k1 k2 -> follows (ig_begin_obj i1 key k1) (ig_begin_obj i2 key k2);
  sim_end_obj k1 k2 : R k1 k2 -> follows (ig_end_obj i1 k1) (ig_end_obj i2 k2);
  sim_begin_arr key k1 k2 : R k1 k2 -> follows (ig_begin_arr i1 key k1) (ig_begin_arr i2 key k2);
  sim_end_arr k1 k2 : R k1 k2 -> follows (ig_end_arr i1 k1) (ig_end_arr i2 k2);
  sim_num key n k1 k2 : R k1 k2 -> follows (ig_value_num i1 key n k1) (ig_value_num i2 key n k2);
  sim_bool key b k1 k2 : R k1 k2 -> follows (ig_value_bool i1 key b k1) (ig_value_bool i2 key b k2);
  sim_null key k1 k2 : R k1 k2 -> follows (ig_value_null i1 key k1) (ig_value_null i2 key k2);
  sim_str key d fin p k1 k2 : R k1 k2 -> follows (ig_value_str_chunk i1 key d fin p k1) (ig_value_str_chunk i2 key d fin p k2)
}.

Context (i1 : ingest K1) (i2 : ingest K2) `{!SinkSim i1 i2}.

Definition simres {A} (r1 : sres K1 A) (r2 : sres K2 A) : Prop :=
  match r1 with Ok a k1 => exists k2, r2 = Ok a k2 /\ R k1 k2 | Err e _ => e <> BB_OK end.

Lemma sim_ok {A} (a : A) k1 k2 : R k1 k2 -> simres (Ok a k1) (Ok a k2).
Proof. by exists k2. Qed.
Lemma sim_err {A} e k1 (r2 : sres K2 A) : e <> BB_OK -> simres (Err e k1) r2.
Proof. done. Qed.
Lemma sim_bind {A B} (r1 : sres K1 A) r2 (f1 : A -> K1 -> sres K1 B) f2 :
  simres r1 r2 -> (forall a k1 k2, R k1 k2 -> simres (f1 a k1) (f2 a k2)) -> simres (sbind r1 f1) (sbind r2 f2).
Proof. destruct r1 as [e k|a k]; [done|]. intros (k2 & -> & Hk) H. by apply H. Qed.
Lemma sim_answered {A} (a : A) r1 r2 : follows r1 r2 -> simres (answered a r1) (answered a r2).
Proof.
  unfold follows, answered. intros H. destruct (is_ok r1.1) eqn:E.
  2: { cbn. intros He. by rewrite He in E. }
  apply is_ok_true in E.
  destruct (H E) as [-> HR]. by exists r2.2.
Qed.

Create HintDb sim.
#[local] Hint Resolve sim_ok : sim.
Ltac sim := repeat first
  [ apply sim_bind; [|intros ? ? ? ?] | apply sim_answered | by eauto with sim
  | apply sim_begin_obj | apply sim_end_obj | apply sim_begin_arr | apply sim_end_arr | apply sim_num | apply sim_bool
  | apply sim_null | apply sim_str | by apply sim_err | dmatch ].

Lemma sim_scratch_append s d k1 k2 : R k1 k2 -> simres (scratch_append s d k1) (scratch_append s d k2).
Proof. intros H. unfold scratch_append. sim. Qed.

Lemma sim_emit_str s d fin is_key p k1 k2 : R k1 k2 ->
  simres (emit_str_bytes i1 s d fin is_key p k1) (emit_str_bytes i2 s d fin is_key p k2).
Proof. intros H. unfold emit_str_bytes. destruct is_key; [by apply sim_scratch_append|]. sim. Qed.

Lemma sim_scan_string is_key l : forall s run k1 k2, R k1 k2 ->
  simres (scan_string i1 is_key s run l k1) (scan_string i2 is_key s run l k2).
Proof.
  induction l as [l IH] using (induction_ltof1 _ length). unfold ltof in IH. intros s run k1 k2 H. destruct l as [|c l]; cbn [scan_string].
  - destruct run; [by apply sim_ok|]. apply sim_bind; [by apply sim_emit_str|]. intros. by apply sim_ok.
  - assert (IH' : forall s run k1 k2, R k1 k2 -> simres (scan_string i1 is_key s run l k1) (scan_string i2 is_key s run l k2))
      by (intros; apply IH; [cbn; lia|done]).
    destruct (ss_esc_phase s).
    1: { destruct (Byte.eqb c x22); [|destruct (Byte.eqb c x5c); [destruct run|destruct (bz c <? 32)]]; auto.
      - apply sim_bind; [by apply sim_emit_str|]. intros. by apply sim_ok.
      - apply sim_bind; [by apply sim_emit_str|]. intros. by apply IH'.
      - by apply sim_err. }
    all: destruct (scan_escape_byte s c) as [[s1 [|d ds]]|]; [by apply IH'| |by apply sim_err];
      destruct (closing_quote l); (apply sim_bind; [by apply sim_emit_str|]); intros; [by apply sim_ok|by apply IH'].
Qed.

Lemma sim_scan_number l : forall s k1 k2, R k1 k2 -> simres (scan_number s l k1) (scan_number s l k2).
Proof.
  induction l as [|c l IH]; intros s k1 k2 H; cbn [scan_number]; [by apply sim_ok|].
  destruct (num_next _ c) as [[p|]|]; [|by apply sim_ok|by apply sim_err].
  apply sim_bind; [by apply sim_scratch_append|]. intros. by apply IH.
Qed.

Lemma sim_finalize s k1 k2 : R k1 k2 -> simres (finalize_number i1 s k1) (finalize_number i2 s k2).
Proof. intros H. unfold finalize_number. sim. Qed.

Lemma sim_scan_literal l : forall s k1 k2, R k1 k2 -> simres (scan_literal s l k1) (scan_literal s l k2).
Proof.
  induction l as [|c l IH]; intros s k1 k2 H; cbn [scan_literal]; [by apply sim_ok|].
  destruct (negb _); [by apply sim_err|]. destruct (_ =? _)%nat; [by apply sim_ok|by apply IH].
Qed.

Lemma sim_emit_literal s k1 k2 : R k1 k2 -> simres (emit_literal i1 s k1) (emit_literal i2 s k2).
Proof. intros H. unfold emit_literal. apply sim_answered. destruct (ss_lit_kind s); [by apply sim_bool..|by apply sim_null]. Qed.

Lemma sim_close s k1 k2 : R k1 k2 -> simres (close_container i1 s k1) (close_container i2 s k2).
Proof.
  intros H. unfold close_container. destruct (ss_stack s) as [|[] st]; [by apply sim_err|..];
    apply sim_answered; [by apply sim_end_arr|by apply sim_end_obj].
Qed.

Lemma sim_open arr s k1 k2 : R k1 k2 -> simres (open_container i1 arr s k1) (open_container i2 arr s k2).
Proof.
  intros H. unfold open_container. destruct (_ <=? _)%nat; [by apply sim_err|].
  apply sim_bind; [|intros; by apply sim_ok]. apply sim_answered.
  destruct arr; [by apply sim_begin_arr|by apply sim_begin_obj].
Qed.

Lemma sim_dispatch s c keyed k1 k2 : R k1 k2 ->
  simres (dispatch_value_start i1 s c keyed k1) (dispatch_value_start i2 s c keyed k2).
Proof.
  intros H. unfold dispatch_value_start. set (s0 := if keyed then s else _).
  assert (Hn : forall p, simres (let* (s1, k3) := scratch_append s0 [c] k1 in Ok (set_phase PH_VAL_NUM (set_num_phase p s1)) k3)
                         (let* (s1, k3) := scratch_append s0 [c] k2 in Ok (set_phase PH_VAL_NUM (set_num_phase p s1)) k3)).
  { intros p. apply sim_bind; [by apply sim_scratch_append|]. intros. by apply sim_ok. }
  destruct (is_digit c); [apply Hn|].
  destruct c; try (by apply sim_err); first [apply Hn | by apply sim_ok | by apply sim_open].
Qed.

Lemma sim_drive_iter s l k1 k2 : R k1 k2 -> simres (drive_iter i1 s l k1) (drive_iter i2 s l k2).
Proof.
  intros H. unfold drive_iter.
  assert (Hgo : forall r1 r2 rest, simres r1 r2 ->
    simres (let* (s1, k3) := r1 in Ok (s1 : scan_state, Some rest : option (list byte)) k3)
           (let* (s1, k3) := r2 in Ok (s1, Some rest) k3)).
  { intros r1 r2 rest Hr. apply sim_bind; [done|]. intros. by apply sim_ok. }
  assert (Hst : forall (f1 : byte -> list byte -> sres K1 (scan_state * option (list byte))) f2, (forall c rest, simres (f1 c rest) (f2 c rest)) ->
    simres (match skip_ws l with [] => Ok (s, None) k1 | c :: rest => f1 c rest end)
           (match skip_ws l with [] => Ok (s, None) k2 | c :: rest => f2 c rest end)).
  { intros f1 f2 Hf. destruct (skip_ws l); [by apply sim_ok|apply Hf]. }
  pose proof (sim_close s k1 k2 H) as Hc.
  pose proof (fun c keyed => sim_dispatch s c keyed k1 k2 H) as Hd.
  destruct (ss_phase s).
  all: try (apply Hst; intros c rest).
  all: try (by repeat case_match; auto using sim_ok; by apply sim_err).
  - apply sim_bind; [by apply sim_scan_string|]. intros o k3 k4 H'. destruct (so_closed o); by apply sim_ok.
  - apply sim_bind; [by apply sim_scan_string|]. intros o k3 k4 H'. destruct (so_closed o); by apply sim_ok.
  - apply sim_bind; [by apply sim_scan_number|]. intros [[s1 []] rest] k3 k4 H'; [|by apply sim_ok].
    by apply Hgo, sim_finalize.
  - apply sim_bind; [by apply sim_scan_literal|]. intros [[s1 []] rest] k3 k4 H'; [|by apply sim_ok].
    apply Hgo, sim_bind; [by apply sim_emit_literal|]. intros. by apply sim_ok.
Qed.

Lemma sim_drive fuel : forall s l k1 k2, R k1 k2 ->
  match drive i1 fuel s l k1 with
  | Some (Ok s1 k1') => exists k2', drive i2 fuel s l k2 = Some (Ok s1 k2') /\ R k1' k2'
  | Some (Err e _) => e <> BB_OK
  | None => True
  end.
Proof.
  induction fuel as [|fuel IH]; intros s l k1 k2 H; destruct l as [|c l]; cbn [drive]; try done.
  1-2: by exists k2.
  pose proof (sim_drive_iter s (c :: l) k1 k2 H) as Hd.
  destruct (drive_iter i1 s (c :: l) k1) as [e k|[s2 [rest|]] k]; [done|..]; destruct Hd as (k' & -> & Hk).
  - by apply IH.
  - by exists k'.
Qed.

Lemma sim_scan_end s k1 k2 : R k1 k2 ->
  let r := bb_serialize_json_scan_end i1 s k1 in
  r.1.1 = BB_OK -> exists s2 k2', bb_serialize_json_scan_end i2 s k2 = (BB_OK, s2, k2') /\ R r.2 k2'.
Proof.
  intros H. unfold bb_serialize_json_scan_end. destruct (is_ok (ss_err s)) eqn:E; cbn [negb].
  2: { cbn. intros E'. by rewrite E' in E. }
  assert (Hf : forall s k1 k2, R k1 k2 -> (scan_finish s k1).1.1 = BB_OK ->
     exists s2 k2', scan_finish s k2 = (BB_OK, s2, k2') /\ R (scan_finish s k1).2 k2').
  { clear. intros s k1 k2 H. unfold scan_finish. destruct (ss_phase s); try done. cbn. eauto. }
  destruct (ss_phase s); try (by apply Hf).
  destruct (num_phase_is_terminal _); cbn [negb]; [|done].
  pose proof (sim_finalize s k1 k2 H) as Hz. destruct (finalize_number i1 s k1) as [e k|s1 k]; [done|].
  destruct Hz as (k' & -> & Hk). by apply Hf.
Qed.

Lemma sim_scan_bounded buf k1 k2 k1' : R k1 k2 -> bb_serialize_json_scan_bounded i1 buf k1 = Some (BB_OK, k1') ->
  exists k2', bb_serialize_json_scan_bounded i2 buf k2 = Some (BB_OK, k2') /\ R k1' k2'.
Proof.
  intros H. unfold bb_serialize_json_scan_bounded, bb_serialize_json_scan_feed. cbn [ss_err scan_begin_internal is_ok negb].
  pose proof (sim_drive (drive_fuel buf) (scan_begin_internal true) buf k1 k2 H) as Hd.
  destruct (drive i1 _ _ buf k1) as [[e k|s k]|]; [..|done].
  { destruct (is_ok e) eqn:Ee; cbn [negb]; [by apply is_ok_true in Ee|]. by intros [= -> _]. }
  destruct Hd as (k' & -> & Hk). cbn [is_ok negb].
  pose proof (sim_scan_end s k k' Hk) as He. destruct (bb_serialize_json_scan_end i1 s k) as [[rc s'] k3].
  intros [= -> ->]. destruct (He eq_refl) as (s2 & k4 & -> & H4). by exists k4.
Qed.
End Sim.

(** * A scan as the calls it makes *)

Definition apply_call {K} (i : ingest K) (c : call) (k : K) : bb_err * K :=
  match c with
  | KBegin false key => ig_begin_obj i key k
  | KBegin true key => ig_begin_arr i key k
  | KEnd false => ig_end_obj i k
  | KEnd true => ig_end_arr i k
  | KNum key n => ig_value_num i key n k
  | KBool key b => ig_value_bool i key b k
  | KNull key => ig_value_null i key k
  | KStr key d fin p => ig_value_str_chunk i key d fin p k
  end.
(** The state after calls that were all accepted. *)
Definition run_calls {K} (i : ingest K) (log : list call) (k : K) : option K :=
  fold_left (fun o c => match o with
                        | Some k => let r := apply_call i c k in if is_ok r.1 then Some r.2 else None
                        | None => None
                        end) log (Some k).

Lemma run_calls_snoc {K} (i : ingest K) log c k :
  run_calls i (log ++ [c]) k =
  match run_calls i log k with
  | Some k1 => let r := apply_call i c k1 in if is_ok r.1 then Some r.2 else None
  | None => None
  end.
Proof. unfold run_calls. by rewrite fold_left_app. Qed.

Section History.
Context {K : Type} (i : ingest K) (k0 : K).

Definition accepts (log : list call) : bb_err := match run_calls i log k0 with Some _ => BB_OK | None => BB_ERR_VALIDATION end.

Lemma accepts_step c log k : run_calls i log k0 = Some k ->
  follows (fun k log => run_calls i log k0 = Some k) (apply_call i c k) (accepts (log ++ [c]), log ++ [c]).
Proof.
  intros H E. unfold accepts. cbn [fst snd]. rewrite run_calls_snoc, H. cbv zeta. by rewrite (proj2 (is_ok_true _) E).
Qed.

#[local] Instance log_follows : SinkSim (fun k log => run_calls i log k0 = Some k) i (log_sink accepts).
Proof.
  split; intros.
  - by apply (accepts_step (KBegin false key)).
  - by apply (accepts_step (KEnd false)).
  - by apply (accepts_step (KBegin true key)).
  - by apply (accepts_step (KEnd true)).
  - by apply (accepts_step (KNum key n)).
  - by apply (accepts_step (KBool key b)).
  - by apply (accepts_step (KNull key)).
  - by apply (accepts_step (KStr key d fin p)).
Qed.

(** A sink that accepts every call. *)
Definition total {J} (j : ingest J) : Prop := forall c k, (apply_call j c k).1 = BB_OK.

Lemma total_step {J} (j : ingest J) (j0 : J) answer c log k : total j -> run_calls j log j0 = Some k ->
  follows (fun log k => run_calls j log j0 = Some k) (answer (log ++ [c]) : bb_err, log ++ [c]) (apply_call j c k).
Proof.
  intros Ht H _. split; [apply Ht|]. cbn [snd]. rewrite run_calls_snoc, H. cbv zeta.
  by rewrite (proj2 (is_ok_true _) (Ht c k)).
Qed.

Lemma total_follows {J} (j : ingest J) j0 answer : total j ->
  SinkSim (fun log k => run_calls j log j0 = Some k) (log_sink answer) j.
Proof.
  intros Ht. split; intros.
  - by apply (total_step j j0 answer (KBegin false key)).
  - by apply (total_step j j0 answer (KEnd false)).
  - by apply (total_step j j0 answer (KBegin true key)).
  - by apply (total_step j j0 answer (KEnd true)).
  - by apply (total_step j j0 answer (KNum key n)).
  - by apply (total_step j j0 answer (KBool key b)).
  - by apply (total_step j j0 answer (KNull key)).
  - by apply (total_step j j0 answer (KStr key d fin p)).
Qed.

(** An accepted bounded scan is a conforming sequence of calls, the same for
    every sink that accepts them. *)
Lemma scan_history buf k {J} (j : ingest J) j0 : total j ->
  bb_serialize_json_scan_bounded i buf k0 = Some (BB_OK, k) ->
  exists log j1, conforming true log = Some (mk_view [] None true) /\ run_calls i log k0 = Some k /\
    bb_serialize_json_scan_bounded j buf j0 = Some (BB_OK, j1) /\ run_calls j log j0 = Some j1.
Proof.
  intros Ht Hs.
  destruct (sim_scan_bounded _ i (log_sink accepts) buf k0 [] k eq_refl Hs) as (log & Hl & Hr).
  destruct (bounded_contract accepts buf) as (rc & log' & v & Hl' & Hv & Hok).
  rewrite Hl in Hl'. injection Hl' as <- <-. rewrite (Hok eq_refl) in Hv.
  pose proof (total_follows j j0 accepts Ht) as Hsim.
  destruct (sim_scan_bounded _ (log_sink accepts) j buf [] j0 log eq_refl Hl) as (j1 & Hj & Hr1).
  by exists log, j1.
Qed.
End History.

(** * Termination with any sink *)

Section Total.
Context {K : Type} (sink : ingest K).

Definition post {A} (Q : A -> Prop) (r : sres K A) : Prop := match r with Ok a _ => Q a | Err _ _ => True end.
Lemma post_bind {A B} (P : A -> Prop) (Q : B -> Prop) r (f : A -> K -> sres K B) :
  post P r -> (forall a k, P a -> post Q (f a k)) -> post Q (sbind r f).
Proof. destruct r as [e k|a k]; cbn; [done|]. intros Ha Hf. by apply Hf. Qed.
Lemma post_err {A} (Q : A -> Prop) e k : post Q (Err e k).
Proof. exact I. Qed.
#[local] Hint Resolve post_err : core.
Lemma post_any {A} (r : sres K A) : post (fun _ => True) r.
Proof. by destruct r. Qed.

Lemma string_shorter is_key l : forall s run k,
  post (fun o => so_closed o = true -> (length (so_rest o) < length l)%nat) (scan_string sink is_key s run l k).
Proof.
  induction l as [l IH] using (induction_ltof1 _ length). unfold ltof in IH. intros s run k. destruct l as [|c l]; cbn [scan_string length].
  - destruct run; [done|]. by eapply post_bind; [apply post_any|].
  - assert (IH' : forall l' s run k, (length l' <= length l)%nat ->
      post (fun o => so_closed o = true -> (length (so_rest o) < S (length l))%nat) (scan_string sink is_key s run l' k)).
    { intros l' s0 run0 k0 Hl. pose proof (IH l' ltac:(cbn; lia) s0 run0 k0) as H. destruct (scan_string _ _ _ _ _ _); cbn in *; [done|]. intros Hc. specialize (H Hc). lia. }
    destruct (ss_esc_phase s).
    1: { destruct (Byte.eqb c x22); [|destruct (Byte.eqb c x5c); [destruct run|destruct (bz c <? 32)]]; try (by apply IH'); try done.
      - eapply post_bind; [apply post_any|]. intros ? ? _. cbn. lia.
      - eapply post_bind; [apply post_any|]. intros. by apply IH'. }
    all: destruct (scan_escape_byte s c) as [[s1 [|d ds]]|]; [by apply IH'| |done]; destruct (closing_quote l) as [rest'|] eqn:Eq;
      (eapply post_bind; [apply post_any|]); intros; [|by apply IH'].
    all: unfold closing_quote in Eq; destruct l as [|c' l']; [done|]; destruct (Byte.eqb c' x22); [|done]; injection Eq as <-; cbn; lia.
Qed.
Lemma number_shorter l : forall s k, post (fun o => (length o.2 <= length l)%nat) (scan_number s l k).
Proof.
  induction l as [|c l IH]; intros s k; cbn [scan_number]; [cbn; lia|]. destruct (num_next _ c) as [[p|]|]; [|cbn; lia|done].
  eapply post_bind; [apply post_any|]. intros s1 k1 _. specialize (IH (set_num_phase p s1) k1). destruct (scan_number _ _ _); cbn in *; [done|lia].
Qed.
Lemma literal_shorter l : forall s k, post (fun o => o.1.2 = true -> (length o.2 < length l)%nat) (scan_literal s l k).
Proof.
  induction l as [|c l IH]; intros s k; cbn [scan_literal]; [cbn; done|]. destruct (negb _); [done|]. cbv zeta. destruct (_ =? _)%nat; [cbn; lia|].
  match goal with |- post _ (scan_literal ?s1 _ _) => specialize (IH s1 k) end.
  destruct (scan_literal _ _ _); cbn [post length] in *; [done|]. intros Hc. specialize (IH Hc). lia.
Qed.

Definition measure (l : list byte) (s : scan_state) : nat := (2 * length l + is_num_phase (ss_phase s))%nat.
Lemma iter_decreases s l k : l <> [] ->
  post (fun o => match o.2 with Some rest => (measure rest o.1 < measure l s)%nat | None => True end) (drive_iter sink s l k).
Proof.
  intros Hl. unfold drive_iter.
  assert (Hsh : forall (s1 : scan_state) rest, (length rest < length l)%nat -> (measure rest s1 < measure l s)%nat).
  { intros s1 rest H. unfold measure. destruct (ss_phase s1), (ss_phase s); cbn; lia. }
  assert (Hgo : forall (r : sres K scan_state) rest, (length rest < length l)%nat ->
    post (fun o : scan_state * option (list byte) => match o.2 with Some rest => (measure rest o.1 < measure l s)%nat | None => True end)
      (let* (s1, k1) := r in Ok (s1, Some rest) k1)).
  { intros r rest H. eapply post_bind; [apply post_any|]. intros s1 k1 _. cbn. by apply Hsh. }
  assert (Hst : forall f : byte -> list byte -> sres K (scan_state * option (list byte)),
    (forall c rest, (length rest < length l)%nat -> post (fun o => match o.2 with Some rest => (measure rest o.1 < measure l s)%nat | None => True end) (f c rest)) ->
    post (fun o => match o.2 with Some rest => (measure rest o.1 < measure l s)%nat | None => True end)
      (match skip_ws l with [] => Ok (s, None) k | c :: rest => f c rest end)).
  { intros f Hf. pose proof (skip_ws_length l) as Hw. destruct (skip_ws l) as [|c rest]; [exact I|]. apply Hf. cbn in Hw. lia. }
  destruct (ss_phase s) eqn:Ep.
  all: try (apply Hst; intros c rest Hr; repeat match goal with |- post _ (if ?b then _ else _) => destruct b end;
    first [done | by apply Hgo | exact (Hsh _ _ Hr)]).
  1-2: eapply post_bind; [apply string_shorter|]; intros o k1 Ho; cbv beta zeta; destruct (so_closed o) eqn:Ec; [exact (Hsh _ _ (Ho Ec))|exact I].
  - eapply post_bind; [apply number_shorter|]. intros [[s1 []] rest] k1 Ho; [|exact I]. cbn in Ho.
    destruct (finalize_number sink s1 k1) as [e k2|s2 k2] eqn:Ef; [done|]. cbn. unfold finalize_number, answered in Ef.
    destruct (is_ok _); [|done]. injection Ef as <- _. unfold measure. rewrite Ep. cbn [is_num_phase ss_phase set_phase].
    unfold after_value_phase. destruct (ss_stack s1) as [|[]]; cbn; lia.
  - eapply post_bind; [apply literal_shorter|]. intros [[s1 []] rest] k1 Ho; [|exact I]. apply Hgo. by apply Ho.
Qed.

Lemma drive_total fuel : forall s l k, (measure l s <= fuel)%nat -> exists r, drive sink fuel s l k = Some r.
Proof.
  induction fuel as [|fuel IH]; intros s l k Hf; destruct l as [|c l]; cbn [drive]; try by eexists.
  - unfold measure in Hf. cbn in Hf. lia.
  - pose proof (iter_decreases s (c :: l) k ltac:(done)) as H. destruct (drive_iter sink s (c :: l) k) as [e k1|[s1 [rest|]] k1]; try by eexists.
    change (measure rest s1 < measure (c :: l) s)%nat in H. apply IH. lia.
Qed.
Lemma scan_bounded_total buf k : exists rc k1, bb_serialize_json_scan_bounded sink buf k = Some (rc, k1).
Proof.
  unfold bb_serialize_json_scan_bounded, bb_serialize_json_scan_feed. cbn [ss_err scan_begin_internal is_ok negb].
  destruct (drive_total (drive_fuel buf) (scan_begin_internal true) buf k) as [r Hr]; [unfold measure, drive_fuel; cbn; lia|].
  rewrite Hr. destruct r as [e k1|s k1]; destruct (negb _); try by do 2 eexists.
  all: destruct (bb_serialize_json_scan_end _ _ _) as [[rc s2] k2]; by do 2 eexists.
Qed.
End Total.
