(* ===== verification/Tok.v ===== *)
(** The token recorder, a sink of the bounded scanner, and its navigation:
    components/bb_serialize_json/src/bb_serialize_json_tok.c. *)
From Stdlib Require Import Strings.String.
From S2P Require Import Prelude Bytes Num Float Walk JsonScan.

(** * Tokens (bb_serialize_json.h) *)

Definition BB_SERIALIZE_JSON_TOK_KEY_MAX_LEN : nat := 24.
Definition BB_SERIALIZE_JSON_TOK_POOL_DEFAULT_CAP : nat := 48.

Inductive tok_type : Set :=
  | BB_SERIALIZE_JSON_TOK_OBJ | BB_SERIALIZE_JSON_TOK_ARR | BB_SERIALIZE_JSON_TOK_STR
  | BB_SERIALIZE_JSON_TOK_NUM | BB_SERIALIZE_JSON_TOK_BOOL | BB_SERIALIZE_JSON_TOK_NULL.
#[export] Instance tok_type_eq_dec : EqDecision tok_type.
Proof. solve_decision. Defined.

(** A string's (ptr, len): bytes of the caller's buffer, which outlives the
    recorder, or [len] bytes of the arena from [start]. *)
Inductive str_ref : Type :=
  | InBuf (data : list byte)
  | InArena (start len : nat).

(** The union [v]; [PZero] is what memset leaves. *)
Inductive payload : Type :=
  | PZero
  | PStr (r : str_ref)
  | PNum (i64 : Z) (f64 : spec_float)
  | PBool (b : bool).

(** [t_parent]: an index of the pool, [None] is BB_SERIALIZE_JSON_TOK_ABSENT. *)
Record tok := mk_tok {
  t_type : tok_type;
  t_key : list byte;
  t_num_inexact : bool;
  t_child_count : Z;
  t_parent : option nat;
  t_v : payload
}.

(** [r_pool] is [pool[0..pool_n)]; [r_arena] is [arena[0..arena_used)], and
    [r_arena_cap = None] a NULL arena; [r_stack] is [stack[0..depth)],
    innermost first.  [r_str]: the token, the start and the length of the
    string being assembled, when [str_open]. *)
Record recorder := mk_rec {
  r_pool : list tok;
  r_pool_cap : nat;
  r_arena : list byte;
  r_arena_cap : option nat;
  r_stack : list nat;
  r_str : option (nat * nat * nat)
}.
Definition set_pool (p : list tok) (r : recorder) : recorder :=
  mk_rec p (r_pool_cap r) (r_arena r) (r_arena_cap r) (r_stack r) (r_str r).
Definition set_rstack (st : list nat) (r : recorder) : recorder :=
  mk_rec (r_pool r) (r_pool_cap r) (r_arena r) (r_arena_cap r) st (r_str r).
Definition set_arena (a : list byte) (r : recorder) : recorder :=
  mk_rec (r_pool r) (r_pool_cap r) a (r_arena_cap r) (r_stack r) (r_str r).
Definition set_str (s : option (nat * nat * nat)) (r : recorder) : recorder :=
  mk_rec (r_pool r) (r_pool_cap r) (r_arena r) (r_arena_cap r) (r_stack r) s.

(** * Recording *)

Definition bump_child (t : tok) : tok :=
  mk_tok (t_type t) (t_key t) (t_num_inexact t) (u16 (t_child_count t + 1)) (t_parent t) (t_v t).
Definition set_v (v : payload) (inexact : bool) (t : tok) : tok :=
  mk_tok (t_type t) (t_key t) inexact (t_child_count t) (t_parent t) v.

Definition tok_alloc (r : recorder) (ty : tok_type) (key : key_t) : option (nat * recorder) :=
  let key := default [] key in
  if (BB_SERIALIZE_JSON_TOK_KEY_MAX_LEN <? length key)%nat then None else
  if (r_pool_cap r <=? length (r_pool r))%nat then None else
  let parent := head (r_stack r) in
  if match parent with
     | Some p => match r_pool r !! p with Some t => t_child_count t =? UINT16_MAX | None => false end
     | None => false
     end then None else
  let idx := length (r_pool r) in
  let pool := r_pool r ++ [mk_tok ty key false 0 parent PZero] in
  Some (idx, set_pool (match parent with Some p => alter bump_child p pool | None => pool end) r).

(** [strtoll(buf, NULL, 10)] of an optional minus sign and digits: clamped to
    the range of a long long, stopping at the first other byte. *)
Definition strtoll (text : list byte) : Z :=
  let '(neg, t0) := match text with x2d :: rest => (true, rest) | _ => (false, text) end in
  let v := dec_value (Float.span_digits t0).1 in
  if neg : bool then Z.max (- 2 ^ 63) (- v) else Z.min (2 ^ 63 - 1) v.

(** [strtod] takes either case of the exponent's letter. *)
Definition lower_e (b : byte) : byte := if Byte.eqb b x45 then x65 else b.

(** The payload and the inexact flag. *)
Definition tok_parse_num (num : list byte) : payload * bool :=
  let buf := take BB_SERIALIZE_JSON_SCRATCH_MAX_BYTES num in
  (PNum (strtoll buf) (strtod (map lower_e buf)),
   existsb (fun b => Byte.eqb b x2e || Byte.eqb b x65 || Byte.eqb b x45) buf).

(** A token with its payload, or BB_ERR_NO_SPACE. *)
Definition tok_leaf (ty : tok_type) (key : key_t) (v : payload) (inexact : bool) (r : recorder) : bb_err * recorder :=
  match tok_alloc r ty key with
  | None => (BB_ERR_NO_SPACE, r)
  | Some (idx, r1) => (BB_OK, set_pool (alter (set_v v inexact) idx (r_pool r1)) r1)
  end.

Definition tok_begin (ty : tok_type) (key : key_t) (r : recorder) : bb_err * recorder :=
  if (BB_SERIALIZE_MAX_DEPTH <=? length (r_stack r))%nat then (BB_ERR_NO_SPACE, r) else
  match tok_alloc r ty key with
  | None => (BB_ERR_NO_SPACE, r)
  | Some (idx, r1) => (BB_OK, set_rstack (idx :: r_stack r1) r1)
  end.
Definition tok_end (r : recorder) : bb_err * recorder :=
  match r_stack r with
  | [] => (BB_ERR_INVALID_STATE, r)
  | _ :: st => (BB_OK, set_rstack st r)
  end.

Definition tok_begin_obj : key_t -> recorder -> bb_err * recorder := tok_begin BB_SERIALIZE_JSON_TOK_OBJ.
Definition tok_end_obj : recorder -> bb_err * recorder := tok_end.
Definition tok_begin_arr : key_t -> recorder -> bb_err * recorder := tok_begin BB_SERIALIZE_JSON_TOK_ARR.
Definition tok_end_arr : recorder -> bb_err * recorder := tok_end.
Definition tok_value_num (key : key_t) (num : list byte) (r : recorder) : bb_err * recorder :=
  let '(v, inexact) := tok_parse_num num in tok_leaf BB_SERIALIZE_JSON_TOK_NUM key v inexact r.
Definition tok_value_bool (key : key_t) (b : bool) (r : recorder) : bb_err * recorder :=
  tok_leaf BB_SERIALIZE_JSON_TOK_BOOL key (PBool b) false r.
Definition tok_value_null (key : key_t) (r : recorder) : bb_err * recorder :=
  tok_leaf BB_SERIALIZE_JSON_TOK_NULL key PZero false r.

(** The second half of [tok_value_str_chunk]: into the arena. *)
Definition str_assemble (idx start len : nat) (chunk : list byte) (is_final : bool) (r : recorder) : bb_err * recorder :=
  let store : option recorder :=
    match chunk with
    | [] => Some r
    | _ =>
        match r_arena_cap r with
        | None => None
        | Some cap => if (cap <? length (r_arena r) + length chunk)%nat then None
                      else Some (set_arena (r_arena r ++ chunk) r)
        end
    end in
  match store with
  | None => (BB_ERR_NO_SPACE, set_str (Some (idx, start, len)) r)
  | Some r1 =>
      let len1 := (len + length chunk)%nat in
      if is_final
      then (BB_OK, set_str None (set_pool (alter (set_v (PStr (InArena start len1)) false) idx (r_pool r1)) r1))
      else (BB_OK, set_str (Some (idx, start, len1)) r1)
  end.

Definition tok_value_str_chunk (key : key_t) (chunk : list byte) (is_final : bool) (p : span_provenance) (r : recorder)
  : bb_err * recorder :=
  match p with
  | SPAN_CALLER_FEED_SCOPED => (BB_ERR_INVALID_STATE, r)
  | _ =>
      match r_str r with
      | Some (idx, start, len) => str_assemble idx start len chunk is_final r
      | None =>
          match tok_alloc r BB_SERIALIZE_JSON_TOK_STR key with
          | None => (BB_ERR_NO_SPACE, r)
          | Some (idx, r1) =>
              match is_final, p with
              | true, SPAN_CALLER_STABLE => (BB_OK, set_pool (alter (set_v (PStr (InBuf chunk)) false) idx (r_pool r1)) r1)
              | _, _ => str_assemble idx (length (r_arena r1)) 0 chunk is_final r1
              end
          end
      end
  end.

(** [buf_ok], [pool_ok]: not NULL. *)
Definition bb_serialize_json_tok_recorder_init (buf_ok pool_ok : bool) (pool_cap : nat) (arena_cap : option nat)
  : bb_err + recorder :=
  if negb buf_ok || negb pool_ok || (pool_cap =? 0)%nat then inl BB_ERR_INVALID_ARG
  else inr (mk_rec [] pool_cap [] arena_cap [] None).

Definition bb_serialize_json_tok_recorder_ingest : ingest recorder :=
  mk_ingest tok_begin_obj tok_end_obj tok_begin_arr tok_end_arr tok_value_num tok_value_bool tok_value_null
    tok_value_str_chunk.

(** * Navigation; an index is [None] when absent *)

Section Navigation.
Context (r : recorder).

Definition bb_serialize_json_tok_root : option nat := match r_pool r with [] => None | _ => Some 0%nat end.

(** [tok_valid] and the token there. *)
Definition tok_at (idx : option nat) : option tok := match idx with Some i => r_pool r !! i | None => None end.
Definition has_type (ty : tok_type) (idx : option nat) : bool :=
  match tok_at idx with Some t => bool_decide (t_type t = ty) | None => false end.
Definition bb_serialize_json_tok_is_obj : option nat -> bool := has_type BB_SERIALIZE_JSON_TOK_OBJ.
Definition bb_serialize_json_tok_is_arr : option nat -> bool := has_type BB_SERIALIZE_JSON_TOK_ARR.
Definition bb_serialize_json_tok_is_str : option nat -> bool := has_type BB_SERIALIZE_JSON_TOK_STR.
Definition bb_serialize_json_tok_is_num : option nat -> bool := has_type BB_SERIALIZE_JSON_TOK_NUM.
Definition bb_serialize_json_tok_is_bool : option nat -> bool := has_type BB_SERIALIZE_JSON_TOK_BOOL.
Definition bb_serialize_json_tok_is_null : option nat -> bool := has_type BB_SERIALIZE_JSON_TOK_NULL.

(** The loop of obj_get from index [i], [rest] being [pool[i..pool_n)]. *)
Fixpoint obj_scan (obj : nat) (key : list byte) (i : nat) (rest : list tok) (remaining : Z) : option nat :=
  match rest with
  | [] => None
  | t :: rest' =>
      if remaining <=? 0 then None else
      if negb (bool_decide (t_parent t = Some obj)) then obj_scan obj key (S i) rest' remaining else
      if bool_decide (t_key t = key) then Some i else obj_scan obj key (S i) rest' (remaining - 1)
  end.
Definition bb_serialize_json_tok_obj_get (obj : option nat) (key : list byte) : option nat :=
  if negb (bb_serialize_json_tok_is_obj obj) then None else
  match obj, tok_at obj with
  | Some o, Some t => obj_scan o key (S o) (drop (S o) (r_pool r)) (t_child_count t)
  | _, _ => None
  end.

Definition bb_serialize_json_tok_arr_size (arr : option nat) : Z :=
  if negb (bb_serialize_json_tok_is_arr arr) then -1 else
  match tok_at arr with Some t => t_child_count t | None => -1 end.

Fixpoint arr_scan (arr elem_idx i : nat) (rest : list tok) (seen : nat) : option nat :=
  match rest with
  | [] => None
  | t :: rest' =>
      if negb (bool_decide (t_parent t = Some arr)) then arr_scan arr elem_idx (S i) rest' seen else
      if (seen =? elem_idx)%nat then Some i else arr_scan arr elem_idx (S i) rest' (S seen)
  end.
Definition bb_serialize_json_tok_arr_at (arr : option nat) (elem_idx : nat) : option nat :=
  if negb (bb_serialize_json_tok_is_arr arr) then None else
  match arr with
  | Some a => arr_scan a elem_idx (S a) (drop (S a) (r_pool r)) 0
  | None => None
  end.

(** The bytes behind a (ptr, len). *)
Definition read_ref (s : str_ref) : list byte :=
  match s with InBuf data => data | InArena start len => take len (drop start (r_arena r)) end.

Definition bb_serialize_json_tok_get_str (idx : option nat) : option (list byte) :=
  if negb (bb_serialize_json_tok_is_str idx) then None else
  match tok_at idx with
  | Some t => Some (match t_v t with PStr s => read_ref s | _ => [] end)
  | None => None
  end.
Definition bb_serialize_json_tok_get_i64 (idx : option nat) : option Z :=
  if negb (bb_serialize_json_tok_is_num idx) then None else
  match tok_at idx with
  | Some t => if t_num_inexact t then None else Some (match t_v t with PNum i _ => i | _ => 0 end)
  | None => None
  end.
Definition bb_serialize_json_tok_get_f64 (idx : option nat) : option spec_float :=
  if negb (bb_serialize_json_tok_is_num idx) then None else
  match tok_at idx with
  | Some t => Some (match t_v t with PNum _ d => d | _ => S754_zero false end)
  | None => None
  end.
Definition bb_serialize_json_tok_get_bool (idx : option nat) : option bool :=
  if negb (bb_serialize_json_tok_is_bool idx) then None else
  match tok_at idx with
  | Some t => Some (match t_v t with PBool b => b | _ => false end)
  | None => None
  end.
End Navigation.
