(* ===== verification/TokTree.v ===== *)
(** What the token recorder holds after a scan: the pool is the pre-order
    layout of the document, and the navigation functions read it back. *)
From Stdlib Require Import Strings.String.
From S2P Require Import Prelude Bytes Num Float Walk JsonWrite JsonScan ScanBytes ScanSafe ScanDoc ScanSim Tok.

(** * Trees of tokens *)

Inductive leaf : Type := LNum (text : list byte) | LBool (b : bool) | LNull | LStr (r : str_ref).
(** A child has a key; an array's have the empty one. *)
Inductive tree : Type :=
  | TLeaf (l : leaf)
  | TNode (arr : bool) (cs : list (list byte * tree)).
Abbreviation child := (list byte * tree)%type.

Section TreeInd.
Context (P : tree -> Prop) (Hleaf : forall l, P (TLeaf l))
  (Hnode : forall arr cs, Forall (fun c : child => P c.2) cs -> P (TNode arr cs)).
Fixpoint tree_rec' (t : tree) : P t :=
  match t with
  | TLeaf l => Hleaf l
  | TNode arr cs => Hnode arr cs ((fix go (cs : list child) : Forall (fun c : child => P c.2) cs :=
      match cs with [] => Forall_nil_2 _ | c :: cs' => Forall_cons_2 _ _ _ (tree_rec' c.2) (go cs') end) cs)
  end.
End TreeInd.

Definition sum (l : list nat) : nat := fold_right Nat.add 0%nat l.
Fixpoint tsize (t : tree) : nat :=
  match t with TLeaf _ => 1 | TNode _ cs => S (sum (map (fun c => tsize c.2) cs)) end.
Definition csize (cs : list child) : nat := sum (map (fun c => tsize c.2) cs).

Definition leaf_tok (l : leaf) (key : list byte) (parent : option nat) : tok :=
  match l with
  | LNum text => mk_tok BB_SERIALIZE_JSON_TOK_NUM key (tok_parse_num text).2 0 parent (tok_parse_num text).1
  | LBool b => mk_tok BB_SERIALIZE_JSON_TOK_BOOL key false 0 parent (PBool b)
  | LNull => mk_tok BB_SERIALIZE_JSON_TOK_NULL key false 0 parent PZero
  | LStr r => mk_tok BB_SERIALIZE_JSON_TOK_STR key false 0 parent (PStr r)
  end.
Definition node_type (arr : bool) : tok_type := if arr then BB_SERIALIZE_JSON_TOK_ARR else BB_SERIALIZE_JSON_TOK_OBJ.
Definition node_tok (arr : bool) (key : list byte) (n : nat) (parent : option nat) : tok :=
  mk_tok (node_type arr) key false (Z.of_nat n) parent PZero.

(** ** The layout *)

Section LayList.
Context (lay : nat -> list byte -> tree -> list tok).
Fixpoint lay_with (base : nat) (cs : list child) : list tok :=
  match cs with
  | [] => []
  | c :: cs' => lay base c.1 c.2 ++ lay_with (base + tsize c.2) cs'
  end.
End LayList.
Fixpoint lay (parent : option nat) (base : nat) (key : list byte) (t : tree) : list tok :=
  match t with
  | TLeaf l => [leaf_tok l key parent]
  | TNode arr cs => node_tok arr key (length cs) parent :: lay_with (lay (Some base)) (S base) cs
  end.
Definition lay_list (parent : option nat) : nat -> list child -> list tok := lay_with (lay parent).

Lemma lay_node parent base key arr cs :
  lay parent base key (TNode arr cs) = node_tok arr key (length cs) parent :: lay_list (Some base) (S base) cs.
Proof. reflexivity. Qed.
Lemma lay_list_cons parent base c cs :
  lay_list parent base (c :: cs) = lay parent base c.1 c.2 ++ lay_list parent (base + tsize c.2) cs.
Proof. reflexivity. Qed.
Lemma tsize_node arr cs : tsize (TNode arr cs) = S (csize cs).
Proof. reflexivity. Qed.
Lemma csize_cons c cs : csize (c :: cs) = (tsize c.2 + csize cs)%nat.
Proof. reflexivity. Qed.
Lemma csize_app cs cs' : csize (cs ++ cs') = (csize cs + csize cs')%nat.
Proof. induction cs as [|c cs IH]; [done|]. rewrite <- app_comm_cons, !csize_cons. lia. Qed.

Lemma lay_list_app parent cs cs' : forall base,
  lay_list parent base (cs ++ cs') = lay_list parent base cs ++ lay_list parent (base + csize cs) cs'.
Proof.
  induction cs as [|c cs IH]; intros base; [by rewrite Nat.add_0_r|].
  rewrite <- app_comm_cons, !lay_list_cons, IH, csize_cons, <- app_assoc, Nat.add_assoc. done.
Qed.

Lemma lay_list_length_of parent cs base :
  Forall (fun c : child => forall p b k, length (lay p b k c.2) = tsize c.2) cs -> length (lay_list parent base cs) = csize cs.
Proof.
  intros H. revert base. induction H as [|c cs Hc _ IH]; intros base; [done|].
  by rewrite lay_list_cons, length_app, Hc, IH.
Qed.
Lemma lay_length t : forall p b k, length (lay p b k t) = tsize t.
Proof.
  induction t as [l|arr cs IH] using tree_rec'; intros p b k; [done|].
  rewrite lay_node. cbn [length]. by rewrite lay_list_length_of.
Qed.
Lemma lay_list_length parent base cs : length (lay_list parent base cs) = csize cs.
Proof. apply lay_list_length_of, Forall_forall. intros c _. apply lay_length. Qed.

(** Below the first token, parents are inside the subtree. *)
Definition parent_in (lo hi : nat) (t : tok) : Prop := exists q, t_parent t = Some q /\ (lo <= q < hi)%nat.

Lemma lay_list_parents parent lo hi cs : forall base,
  Forall (fun c : child => forall p b k, exists t0 l, lay p b k c.2 = t0 :: l /\ t_parent t0 = p /\
     Forall (parent_in b (b + tsize c.2)) l) cs ->
  (lo <= parent < hi)%nat -> (lo <= base)%nat -> (base + csize cs <= hi)%nat ->
  Forall (parent_in lo hi) (lay_list (Some parent) base cs).
Proof.
  intros base H. revert base. induction H as [|c cs Hc _ IH]; intros base Hp Hlo Hhi; [constructor|].
  rewrite lay_list_cons. rewrite csize_cons in Hhi. apply Forall_app. split; [|apply IH; lia].
  destruct (Hc (Some parent) base c.1) as (t0 & l & -> & Ht & Hl). constructor; [by exists parent|].
  eapply Forall_impl; [exact Hl|]. intros t (q & Hq & Hr). exists q. split; [done|lia].
Qed.

Lemma lay_shape t : forall p b k, exists t0 l, lay p b k t = t0 :: l /\ t_parent t0 = p /\
  Forall (parent_in b (b + tsize t)) l.
Proof.
  induction t as [l|arr cs IH] using tree_rec'; intros p b k.
  - exists (leaf_tok l k p), []. split; [done|]. split; [by destruct l|constructor].
  - rewrite lay_node. eexists _, _. split; [reflexivity|]. split; [done|]. rewrite tsize_node.
    apply lay_list_parents; [done|lia..].
Qed.

Lemma lay_key t p b k t0 l : lay p b k t = t0 :: l -> t_key t0 = k.
Proof. destruct t as [[]|]; cbn; by intros [= <- _]. Qed.

(** ** Scanning a layout *)

Lemma obj_scan_end obj key i rest rem : rem <= 0 -> obj_scan obj key i rest rem = None.
Proof. intros H. destruct rest; [done|]. cbn. destruct (Z.leb_spec rem 0); [done|lia]. Qed.

Lemma obj_scan_skip obj key l : forall i rest rem, Forall (fun t => t_parent t <> Some obj) l ->
  obj_scan obj key i (l ++ rest) rem = obj_scan obj key (i + length l) rest rem.
Proof.
  induction l as [|t l IH]; intros i rest rem H; cbn [app length]; [by rewrite Nat.add_0_r|]. inversion_clear H.
  cbn [obj_scan]. destruct (Z.leb_spec rem 0); [by rewrite obj_scan_end|].
  rewrite bool_decide_false by done. cbn [negb]. rewrite IH by done. f_equal. lia.
Qed.

Lemma arr_scan_skip arr n l : forall i rest seen, Forall (fun t => t_parent t <> Some arr) l ->
  arr_scan arr n i (l ++ rest) seen = arr_scan arr n (i + length l) rest seen.
Proof.
  induction l as [|t l IH]; intros i rest seen H; cbn [app length]; [by rewrite Nat.add_0_r|]. inversion_clear H.
  cbn [arr_scan]. rewrite bool_decide_false by done. cbn [negb]. rewrite IH by done. f_equal. lia.
Qed.

Lemma inner_parent obj lo hi l : (obj < lo)%nat -> Forall (parent_in lo hi) l -> Forall (fun t => t_parent t <> Some obj) l.
Proof. intros Ho H. eapply Forall_impl; [exact H|]. intros t (q & -> & Hq) [= ->]. lia. Qed.

(** The child found by key, at its index. *)
Fixpoint find_child (key : list byte) (base : nat) (cs : list child) : option (nat * tree) :=
  match cs with
  | [] => None
  | c :: cs' => if bool_decide (c.1 = key) then Some (base, c.2) else find_child key (base + tsize c.2) cs'
  end.
Fixpoint nth_child (n : nat) (base : nat) (cs : list child) {struct cs} : option (nat * tree) :=
  match cs with
  | [] => None
  | c :: cs' => match n with O => Some (base, c.2) | S n' => nth_child n' (base + tsize c.2) cs' end
  end.

Lemma obj_scan_children obj key rest cs : forall base, (obj < base)%nat ->
  obj_scan obj key base (lay_list (Some obj) base cs ++ rest) (Z.of_nat (length cs)) = fst <$> find_child key base cs.
Proof.
  induction cs as [|c cs IH]; intros base Hb; [by apply obj_scan_end|].
  rewrite lay_list_cons. destruct (lay_shape c.2 (Some obj) base c.1) as (t0 & l & E & Hp & Hl).
  pose proof (lay_length c.2 (Some obj) base c.1) as Hlen. rewrite E in Hlen |- *. cbn [app obj_scan find_child length] in *.
  destruct (Z.leb_spec (Z.of_nat (S (length cs))) 0); [lia|]. rewrite Hp, bool_decide_true by done. cbn [negb].
  rewrite (lay_key _ _ _ _ _ _ E). destruct (bool_decide (c.1 = key)); [done|].
  rewrite <- app_assoc, obj_scan_skip by (by eapply inner_parent).
  replace (Z.of_nat (S (length cs)) - 1) with (Z.of_nat (length cs)) by lia. rewrite <- Hlen.
  replace (S base + length l)%nat with (base + S (length l))%nat by lia. apply IH. lia.
Qed.

Lemma arr_scan_children arr n rest cs : forall base seen, (arr < base)%nat -> (seen <= n)%nat ->
  Forall (fun t => t_parent t <> Some arr) rest ->
  arr_scan arr n base (lay_list (Some arr) base cs ++ rest) seen = fst <$> nth_child (n - seen) base cs.
Proof.
  induction cs as [|c cs IH]; intros base seen Hb Hs Hr.
  - change (arr_scan arr n base rest seen = None). rewrite <- (app_nil_r rest). by rewrite arr_scan_skip.
  - rewrite lay_list_cons. destruct (lay_shape c.2 (Some arr) base c.1) as (t0 & l & E & Hp & Hl).
    pose proof (lay_length c.2 (Some arr) base c.1) as Hlen. rewrite E in Hlen |- *. cbn [app arr_scan nth_child length] in *.
    rewrite Hp, bool_decide_true by done. cbn [negb]. destruct (Nat.eqb_spec seen n) as [->|Hne].
    + by rewrite Nat.sub_diag.
    + destruct (n - seen)%nat as [|m] eqn:Em; [lia|]. rewrite <- app_assoc, arr_scan_skip by (by eapply inner_parent).
      rewrite <- Hlen. replace (S base + length l)%nat with (base + S (length l))%nat by lia.
      rewrite IH by (done || lia). f_equal. f_equal. lia.
Qed.

(** * Documents, and how the navigation shows them *)

Inductive dleaf : Type := DNum (text : list byte) | DBool (b : bool) | DNull | DStr (s : list byte).
Inductive doc : Type :=
  | DLeaf (l : dleaf)
  | DNode (arr : bool) (cs : list (list byte * doc)).

Definition doc_leaf (r : recorder) (l : leaf) : dleaf :=
  match l with LNum text => DNum text | LBool b => DBool b | LNull => DNull | LStr s => DStr (read_ref r s) end.
Fixpoint doc_of (r : recorder) (t : tree) : doc :=
  match t with
  | TLeaf l => DLeaf (doc_leaf r l)
  | TNode arr cs => DNode arr (map (fun c => (c.1, doc_of r c.2)) cs)
  end.

(** A fraction or an exponent. *)
Definition inexact (text : list byte) : bool := (tok_parse_num text).2.
Definition num_i64 (text : list byte) : Z := strtoll (take BB_SERIALIZE_JSON_SCRATCH_MAX_BYTES text).
Definition num_f64 (text : list byte) : spec_float := strtod (map lower_e (take BB_SERIALIZE_JSON_SCRATCH_MAX_BYTES text)).

(** The first of [kids] whose member has the key. *)
Fixpoint key_lookup {A} (key : list byte) (kids : list nat) (cs : list (list byte * A)) : option nat :=
  match kids, cs with
  | i :: kids', c :: cs' => if bool_decide (c.1 = key) then Some i else key_lookup key kids' cs'
  | _, _ => None
  end.

(** What the public functions say at an index. *)
Definition shows_leaf (r : recorder) (l : dleaf) (i : nat) : Prop :=
  match l with
  | DNum text => bb_serialize_json_tok_get_f64 r (Some i) = Some (num_f64 text) /\
                 bb_serialize_json_tok_get_i64 r (Some i) = if inexact text then None else Some (num_i64 text)
  | DBool b => bb_serialize_json_tok_get_bool r (Some i) = Some b
  | DNull => bb_serialize_json_tok_is_null r (Some i) = true
  | DStr s => bb_serialize_json_tok_get_str r (Some i) = Some s
  end.
Fixpoint holds (r : recorder) (d : doc) (i : nat) : Prop :=
  match d with
  | DLeaf l => shows_leaf r l i
  | DNode arr cs =>
      exists kids, length kids = length cs /\
        (fix go (cs : list (list byte * doc)) (kids : list nat) : Prop :=
           match cs, kids with
           | c :: cs', k :: kids' => holds r c.2 k /\ go cs' kids'
           | _, _ => True
           end) cs kids /\
        if arr
        then bb_serialize_json_tok_arr_size r (Some i) = Z.of_nat (length cs) /\
             forall n, bb_serialize_json_tok_arr_at r (Some i) n = kids !! n
        else bb_serialize_json_tok_is_obj r (Some i) = true /\
             forall key, bb_serialize_json_tok_obj_get r (Some i) key = key_lookup key kids cs
  end.
Definition holds_all (r : recorder) : list (list byte * doc) -> list nat -> Prop :=
  fix go cs kids := match cs, kids with c :: cs', k :: kids' => holds r c.2 k /\ go cs' kids' | _, _ => True end.

(** The subtree [t] laid out at [base] of the pool. *)
Definition placed (r : recorder) (base : nat) (key : list byte) (t : tree) : Prop :=
  exists pre post parent, r_pool r = pre ++ lay parent base key t ++ post /\ length pre = base /\
    Forall (fun tk => forall q, t_parent tk = Some q -> (q < base \/ base + tsize t <= q)%nat) post.

Lemma placed_head r base key t : placed r base key t -> exists tk, tok_at r (Some base) = Some tk /\
  match t with TLeaf l => exists p, tk = leaf_tok l key p | TNode arr cs => exists p, tk = node_tok arr key (length cs) p end.
Proof.
  intros (pre & post & p & Hp & Hb & _). cbn [tok_at]. rewrite Hp, lookup_app_r by lia. rewrite Hb, Nat.sub_diag.
  destruct t as [l|arr cs]; [|rewrite lay_node]; cbn; eexists; (split; [reflexivity|]); by exists p.
Qed.

Fixpoint kid_bases (base : nat) (cs : list child) : list nat :=
  match cs with [] => [] | c :: cs' => base :: kid_bases (base + tsize c.2) cs' end.

Lemma kid_bases_length cs : forall base, length (kid_bases base cs) = length cs.
Proof. induction cs as [|c cs IH]; intros base; [done|]. cbn. by rewrite IH. Qed.
Lemma find_child_lookup r key cs : forall base,
  fst <$> find_child key base cs = key_lookup key (kid_bases base cs) (map (fun c => (c.1, doc_of r c.2)) cs).
Proof. induction cs as [|c cs IH]; intros base; [done|]. cbn. by case_bool_decide. Qed.
Lemma nth_child_lookup cs : forall n base, fst <$> nth_child n base cs = kid_bases base cs !! n.
Proof. induction cs as [|c cs IH]; intros [|n] base; try done. cbn. apply IH. Qed.

Lemma lay_list_above i b0 cs : forall base, (b0 <= base)%nat ->
  Forall (fun tk => forall q, t_parent tk = Some q -> q = i \/ (b0 <= q)%nat) (lay_list (Some i) base cs).
Proof.
  induction cs as [|c cs IH]; intros base H; [constructor|]. rewrite lay_list_cons. apply Forall_app. split; [|apply IH; lia].
  destruct (lay_shape c.2 (Some i) base c.1) as (t0 & l & -> & Hp & Hl). constructor.
  - intros q. rewrite Hp. intros [= <-]. by left.
  - eapply Forall_impl; [exact Hl|]. intros tk (q & Hq & Hr) q'. rewrite Hq. intros [= <-]. right. lia.
Qed.

(** Each child of a placed node is placed. *)
Lemma placed_children r i cs : forall base pre post, r_pool r = pre ++ lay_list (Some i) base cs ++ post ->
  length pre = base -> (i < base)%nat ->
  Forall (fun tk => forall q, t_parent tk = Some q -> (q < base \/ base + csize cs <= q)%nat) post ->
  Forall2 (fun c b => placed r b c.1 c.2) cs (kid_bases base cs).
Proof.
  induction cs as [|c cs IH]; intros base pre post Hp Hb Hi Hpost; [constructor|].
  rewrite lay_list_cons, <- app_assoc in Hp. rewrite csize_cons in Hpost. cbn [kid_bases]. constructor.
  - exists pre, (lay_list (Some i) (base + tsize c.2) cs ++ post), (Some i). split; [done|]. split; [done|].
    apply Forall_app. split.
    + eapply Forall_impl; [apply (lay_list_above i (base + tsize c.2)); lia|]. intros tk H q Hq. destruct (H q Hq); lia.
    + eapply Forall_impl; [exact Hpost|]. intros tk H q Hq. destruct (H q Hq); lia.
  - apply (IH _ (pre ++ lay (Some i) base c.1 c.2) post).
    + by rewrite Hp, <- app_assoc.
    + rewrite length_app, lay_length. lia.
    + lia.
    + eapply Forall_impl; [exact Hpost|]. intros tk H q Hq. destruct (H q Hq); lia.
Qed.

Lemma holds_all_kids r cs : forall base,
  Forall (fun c : child => forall i k, placed r i k c.2 -> holds r (doc_of r c.2) i) cs ->
  Forall2 (fun c b => placed r b c.1 c.2) cs (kid_bases base cs) ->
  holds_all r (map (fun c => (c.1, doc_of r c.2)) cs) (kid_bases base cs).
Proof.
  induction cs as [|c cs IH]; intros base Hf H2; [done|]. inversion_clear Hf. cbn in H2. inversion_clear H2.
  cbn [map kid_bases holds_all fst snd]. split; [by eapply H|by apply IH].
Qed.

Lemma has_type_at r ty i tk : tok_at r (Some i) = Some tk -> has_type r ty (Some i) = bool_decide (t_type tk = ty).
Proof. unfold has_type. by intros ->. Qed.

Lemma placed_shows r key l i : placed r i key (TLeaf l) -> shows_leaf r (doc_leaf r l) i.
Proof.
  intros H. apply placed_head in H as (tk & Ht & p & ->). destruct l; cbn [doc_leaf shows_leaf].
  - unfold bb_serialize_json_tok_get_f64, bb_serialize_json_tok_get_i64, bb_serialize_json_tok_is_num, inexact, num_i64, num_f64.
    rewrite (has_type_at _ _ _ _ Ht). rewrite Ht. cbn. destruct (existsb _ _); done.
  - unfold bb_serialize_json_tok_get_bool, bb_serialize_json_tok_is_bool. rewrite (has_type_at _ _ _ _ Ht). by rewrite Ht.
  - unfold bb_serialize_json_tok_is_null. by rewrite (has_type_at _ _ _ _ Ht).
  - unfold bb_serialize_json_tok_get_str, bb_serialize_json_tok_is_str. rewrite (has_type_at _ _ _ _ Ht). by rewrite Ht.
Qed.

(** The navigation functions read a placed tree back. *)
Lemma placed_holds r t : forall i key, placed r i key t -> holds r (doc_of r t) i.
Proof.
  induction t as [l|arr cs IH] using tree_rec'; intros i key H; [by eapply placed_shows|].
  pose proof (placed_head _ _ _ _ H) as (tk & Ht & p & ->). destruct H as (pre & post & p' & Hp & Hb & Hpost).
  rewrite lay_node in Hp. rewrite tsize_node in Hpost.
  assert (Hdrop : drop (S i) (r_pool r) = lay_list (Some i) (S i) cs ++ post).
  { rewrite Hp, <- Hb. replace (S (length pre)) with (length pre + 1)%nat by lia. rewrite <- drop_drop, drop_app_length. done. }
  assert (Hno : Forall (fun t => t_parent t <> Some i) post).
  { eapply Forall_impl; [exact Hpost|]. intros x Hx Hq. specialize (Hx i Hq). lia. }
  assert (Hkids : Forall2 (fun c b => placed r b c.1 c.2) cs (kid_bases (S i) cs)).
  { apply (placed_children r i cs (S i) (pre ++ [node_tok arr key (length cs) p']) post); [by rewrite Hp, <- app_assoc| |lia|].
    - rewrite length_app. cbn. lia.
    - eapply Forall_impl; [exact Hpost|]. intros x Hx q Hq. specialize (Hx q Hq). lia. }
  cbn [doc_of holds]. exists (kid_bases (S i) cs). rewrite length_map. split; [apply kid_bases_length|].
  split; [by apply holds_all_kids|]. destruct arr; cbn [node_type] in *.
  - unfold bb_serialize_json_tok_arr_size, bb_serialize_json_tok_arr_at, bb_serialize_json_tok_is_arr.
    rewrite (has_type_at _ _ _ _ Ht), Ht. cbn [t_type node_tok node_type negb]. rewrite bool_decide_true by done.
    split; [done|]. intros n. cbn [negb]. rewrite Hdrop, arr_scan_children by (done || lia).
    by rewrite Nat.sub_0_r, nth_child_lookup.
  - unfold bb_serialize_json_tok_obj_get, bb_serialize_json_tok_is_obj.
    rewrite (has_type_at _ _ _ _ Ht), Ht. cbn [t_type node_tok node_type negb]. rewrite bool_decide_true by done.
    split; [done|]. intros k. cbn [negb t_child_count]. rewrite Hdrop, obj_scan_children by lia. apply find_child_lookup.
Qed.

(** * The pool while a document is being recorded *)

(** An open container with its complete children; a state of the recording is
    the completed root values and the open containers, outermost first. *)
Record frame := mk_frame { fr_key : list byte; fr_arr : bool; fr_cs : list child }.
Definition zipper : Type := list child * list frame.

(** [e]: how many children more the innermost container has counted. *)
Definition frame_count (e : nat) (f : frame) (inner : list frame) : nat :=
  (length (fr_cs f) + match inner with [] => e | _ => 1 end)%nat.
Fixpoint lay_open (e : nat) (parent : option nat) (base : nat) (fs : list frame) : list tok :=
  match fs with
  | [] => []
  | f :: inner =>
      node_tok (fr_arr f) (fr_key f) (frame_count e f inner) parent :: lay_list (Some base) (S base) (fr_cs f) ++
      lay_open e (Some base) (S base + csize (fr_cs f)) inner
  end.
Fixpoint open_bases (base : nat) (fs : list frame) : list nat :=
  match fs with [] => [] | f :: inner => base :: open_bases (S base + csize (fr_cs f)) inner end.
Definition zpool (e : nat) (z : zipper) : list tok := lay_list None 0 z.1 ++ lay_open e None (csize z.1) z.2.
Definition zbases (z : zipper) : list nat := open_bases (csize z.1) z.2.
Definition zparent (z : zipper) : option nat := last (zbases z).

Fixpoint counts_ok (e : nat) (fs : list frame) : Prop :=
  match fs with [] => True | f :: inner => Z.of_nat (frame_count e f inner) <= UINT16_MAX /\ counts_ok e inner end.

Fixpoint add_frames (c : child) (fs : list frame) : list frame :=
  match fs with
  | [] => []
  | [f] => [mk_frame (fr_key f) (fr_arr f) (fr_cs f ++ [c])]
  | f :: inner => f :: add_frames c inner
  end.
Definition zadd (c : child) (z : zipper) : zipper :=
  match z.2 with [] => (z.1 ++ [c], []) | _ => (z.1, add_frames c z.2) end.
Definition zopen (key : list byte) (arr : bool) (z : zipper) : zipper := (z.1, z.2 ++ [mk_frame key arr []]).

Lemma lay_open_cons e parent base f inner :
  lay_open e parent base (f :: inner) =
  node_tok (fr_arr f) (fr_key f) (frame_count e f inner) parent :: lay_list (Some base) (S base) (fr_cs f) ++
  lay_open e (Some base) (S base + csize (fr_cs f)) inner.
Proof. reflexivity. Qed.
Lemma add_frames_cons c f g inner : add_frames c (f :: g :: inner) = f :: add_frames c (g :: inner).
Proof. reflexivity. Qed.
Lemma add_frames_nonempty c f fs : add_frames c (f :: fs) <> [].
Proof. by destruct fs. Qed.
Lemma frame_count_inner e e' f g inner : frame_count e f (g :: inner) = frame_count e' f (g :: inner).
Proof. reflexivity. Qed.
Lemma frame_count_nonempty e f fs : fs <> [] -> frame_count e f fs = (length (fr_cs f) + 1)%nat.
Proof. by destruct fs. Qed.

Lemma lay_open_length e parent fs : forall base, length (lay_open e parent base fs) = length (lay_open 0 parent base fs).
Proof. revert parent. induction fs as [|f fs IH]; intros parent base; [done|]. cbn. rewrite !length_app. f_equal. f_equal. apply IH. Qed.
Lemma zpool_length e z : length (zpool e z) = length (zpool 0 z).
Proof. unfold zpool. rewrite !length_app. f_equal. apply lay_open_length. Qed.

Lemma last_cons_nonempty {A} (x : A) l : l <> [] -> last (x :: l) = last l.
Proof. by destruct l. Qed.
Lemma open_bases_nonempty base f fs : open_bases base (f :: fs) <> [].
Proof. done. Qed.

Lemma alter_mid {A} (f : A -> A) pre x l : alter f (length pre) (pre ++ x :: l) = pre ++ f x :: l.
Proof. induction pre as [|y pre IH]; [done|]. cbn. f_equal. apply IH. Qed.

(** Counting a child in the innermost container. *)
Lemma lay_open_bump fs : forall pre parent base p, length pre = base -> last (open_bases base fs) = Some p ->
  counts_ok 1 fs -> alter bump_child p (pre ++ lay_open 0 parent base fs) = pre ++ lay_open 1 parent base fs.
Proof.
  induction fs as [|f fs IH]; intros pre parent base p Hb Hp Hc; [done|]. destruct Hc as [Hc Hcs].
  cbn [lay_open open_bases] in *. destruct fs as [|g fs].
  - cbn [open_bases last] in Hp. injection Hp as <-. rewrite <- Hb. cbn [lay_open]. rewrite !app_nil_r.
    rewrite alter_mid. unfold bump_child, node_tok.
    cbn [t_type t_key t_num_inexact t_child_count t_parent t_v]. unfold frame_count, UINT16_MAX in *. rewrite u16_small by lia.
    do 3 f_equal. lia.
  - rewrite last_cons_nonempty in Hp by apply open_bases_nonempty.
    pose proof (IH (pre ++ node_tok (fr_arr f) (fr_key f) (frame_count 0 f (g :: fs)) parent :: lay_list (Some base) (S base) (fr_cs f))
      (Some base) (S base + csize (fr_cs f))%nat p) as IH'.
    rewrite <- !app_assoc in IH'. cbn [app] in IH'. apply IH'; [|done|done].
    rewrite length_app. cbn [length]. rewrite lay_list_length. lia.
Qed.

Lemma zpool_bump z p : zparent z = Some p -> counts_ok 1 z.2 -> alter bump_child p (zpool 0 z) = zpool 1 z.
Proof. intros Hp Hc. apply lay_open_bump; [by rewrite lay_list_length|done|done]. Qed.
Lemma zpool_nobump z : zparent z = None -> zpool 0 z = zpool 1 z.
Proof. destruct z as [roots [|f fs]]; [done|]. unfold zparent, zbases. intros H. by apply last_None in H. Qed.

(** A complete child appended. *)
Lemma lay_open_add c fs : forall parent base p, last (open_bases base fs) = Some p ->
  lay_open 1 parent base fs ++ lay (Some p) (base + length (lay_open 1 parent base fs)) c.1 c.2 =
  lay_open 0 parent base (add_frames c fs).
Proof.
  induction fs as [|f fs IH]; intros parent base p Hp; [done|]. destruct fs as [|g fs].
  - cbn [open_bases last] in Hp. injection Hp as <-. cbn [add_frames lay_open fr_key fr_arr fr_cs]. rewrite !app_nil_r.
    rewrite lay_list_app. cbn [lay_list]. rewrite lay_list_cons. cbn [lay_list lay_with]. rewrite app_nil_r, <- app_comm_cons.
    f_equal.
    + unfold frame_count. cbn [fr_cs]. by rewrite length_app, Nat.add_0_r.
    + f_equal. f_equal. cbn [length]. rewrite lay_list_length. lia.
  - cbn [open_bases] in Hp. rewrite last_cons_nonempty in Hp by done. rewrite add_frames_cons.
    rewrite (lay_open_cons 1 parent base f), (lay_open_cons 0 parent base f).
    rewrite <- app_comm_cons, <- app_assoc. f_equal.
    + rewrite (frame_count_nonempty 0 f (add_frames c (g :: fs))) by apply add_frames_nonempty. done.
    + f_equal. rewrite <- (IH (Some base) (S base + csize (fr_cs f))%nat p Hp). f_equal. f_equal.
      cbn [length]. rewrite length_app, lay_list_length. lia.
Qed.

Lemma zpool_add c z : zpool 1 z ++ lay (zparent z) (length (zpool 1 z)) c.1 c.2 = zpool 0 (zadd c z).
Proof.
  destruct z as [roots fs]. unfold zadd, zparent, zbases. cbn [fst snd]. destruct fs as [|f fs].
  - unfold zpool. cbn [fst snd lay_open open_bases last]. rewrite !app_nil_r, lay_list_app, lay_list_length. cbn [Nat.add].
    rewrite lay_list_cons. cbn [lay_list lay_with]. by rewrite app_nil_r.
  - destruct (last (open_bases (csize roots) (f :: fs))) as [p|] eqn:Hp; [|by apply last_None in Hp].
    unfold zpool. cbn [fst snd]. rewrite <- app_assoc. f_equal. rewrite <- (lay_open_add c (f :: fs) None _ p Hp).
    f_equal. f_equal. by rewrite length_app, lay_list_length.
Qed.

Lemma lay_open_snoc key arr fs : forall parent base, 
  lay_open 0 parent base (fs ++ [mk_frame key arr []]) =
  lay_open 1 parent base fs ++ [node_tok arr key 0 (match last (open_bases base fs) with Some p => Some p | None => parent end)].
Proof.
  induction fs as [|f fs IH]; intros parent base; [done|]. rewrite <- app_comm_cons, !lay_open_cons, IH.
  rewrite <- app_comm_cons, <- app_assoc. f_equal.
  - f_equal. rewrite frame_count_nonempty by (by destruct fs). by destruct fs.
  - f_equal. f_equal. f_equal. f_equal. cbn [open_bases]. destruct fs as [|g fs]; [done|].
    rewrite last_cons_nonempty by done. destruct (last _) eqn:E; [done|]. by apply last_None in E.
Qed.

Lemma zpool_open key arr z : zpool 1 z ++ [node_tok arr key 0 (zparent z)] = zpool 0 (zopen key arr z).
Proof.
  unfold zpool, zopen, zparent, zbases. cbn [fst snd]. rewrite lay_open_snoc, <- app_assoc. do 4 f_equal. by destruct (last _).
Qed.

Lemma open_bases_snoc key arr fs : forall base,
  open_bases base (fs ++ [mk_frame key arr []]) = open_bases base fs ++ [(base + length (lay_open 0 None base fs))%nat].
Proof.
  induction fs as [|f fs IH]; intros base; [cbn; f_equal; lia|]. rewrite <- app_comm_cons. cbn [open_bases app]. f_equal.
  rewrite IH, lay_open_cons. f_equal. f_equal. cbn [length]. rewrite length_app, lay_list_length.
  assert (H : forall p, length (lay_open 0 p (S base + csize (fr_cs f)) fs) = length (lay_open 0 None (S base + csize (fr_cs f)) fs)).
  { by destruct fs. }
  rewrite (H (Some base)). lia.
Qed.
Lemma zbases_open key arr z : zbases (zopen key arr z) = zbases z ++ [length (zpool 1 z)].
Proof.
  unfold zbases, zopen. cbn [fst snd]. rewrite open_bases_snoc. f_equal. f_equal. rewrite zpool_length. unfold zpool.
  by rewrite length_app, lay_list_length.
Qed.

Lemma open_bases_add c fs : forall base, open_bases base (add_frames c fs) = open_bases base fs.
Proof.
  induction fs as [|f fs IH]; intros base; [done|]. destruct fs as [|g fs]; [done|].
  rewrite add_frames_cons. cbn [open_bases]. f_equal. apply IH.
Qed.
Lemma zbases_add c z : zbases (zadd c z) = zbases z.
Proof. destruct z as [roots [|f fs]]; [done|]. unfold zbases, zadd. cbn [fst snd]. apply open_bases_add. Qed.

(** Closing the innermost container makes it a child. *)
Definition closed (f : frame) : child := (fr_key f, TNode (fr_arr f) (fr_cs f)).
Lemma lay_open_close f g fs : forall parent base,
  lay_open 0 parent base ((g :: fs) ++ [f]) = lay_open 0 parent base (add_frames (closed f) (g :: fs)).
Proof.
  revert g. induction fs as [|h fs IH]; intros g parent base.
  - cbn [app add_frames lay_open fr_key fr_arr fr_cs]. unfold frame_count. cbn [fr_cs]. rewrite length_app, !app_nil_r. f_equal.
    + f_equal. cbn. lia.
    + rewrite lay_list_app, lay_list_cons. cbn [closed fst snd]. rewrite lay_node. cbn [lay_list lay_with]. by rewrite Nat.add_0_r, app_nil_r.
  - rewrite add_frames_cons, <- app_comm_cons, (lay_open_cons 0 parent base g), (lay_open_cons 0 parent base g). rewrite IH. f_equal.
    rewrite !frame_count_nonempty; [done|apply add_frames_nonempty|done].
Qed.
Lemma zpool_close f roots fs : zpool 0 (roots, fs ++ [f]) = zpool 0 (zadd (closed f) (roots, fs)).
Proof.
  unfold zadd, zpool. cbn [fst snd]. destruct fs as [|g fs]; cbn [fst snd].
  - rewrite lay_list_app, lay_list_cons. cbn [app lay_open lay_list lay_with closed fst snd]. rewrite lay_node, !app_nil_r.
    unfold frame_count. by rewrite Nat.add_0_r.
  - by rewrite lay_open_close.
Qed.
Lemma zbases_close f roots fs : exists b, zbases (roots, fs ++ [f]) = zbases (zadd (closed f) (roots, fs)) ++ [b].
Proof.
  rewrite zbases_add. unfold zbases. cbn [fst snd]. generalize (csize roots). clear roots.
  induction fs as [|g fs IH]; intros base; [by exists base|]. rewrite <- app_comm_cons. cbn [open_bases].
  destruct (IH (S base + csize (fr_cs g))%nat) as [b ->]. by exists b.
Qed.

(** The kinds of the open containers, and their counts. *)
Lemma kinds_add c fs : map fr_arr (add_frames c fs) = map fr_arr fs.
Proof. induction fs as [|f [|g fs] IH]; [done..|]. rewrite add_frames_cons. cbn [map]. f_equal. apply IH. Qed.
Lemma zkinds_add c z : map fr_arr (zadd c z).2 = map fr_arr z.2.
Proof. destruct z as [roots [|f fs]]; [done|]. unfold zadd. cbn [fst snd]. apply kinds_add. Qed.

Lemma counts_add c fs : counts_ok 1 fs -> counts_ok 0 (add_frames c fs).
Proof.
  induction fs as [|f [|g fs] IH]; [done|..].
  - intros [H _]. split; [|done]. unfold frame_count in *. cbn [fr_cs]. rewrite length_app. cbn [length] in *. lia.
  - intros [H1 H2]. rewrite add_frames_cons. specialize (IH H2). pose proof (add_frames_nonempty c g fs) as Hn.
    cbn [counts_ok]. split; [|done]. by rewrite frame_count_nonempty.
Qed.
Lemma counts_open key arr fs : counts_ok 1 fs -> counts_ok 0 (fs ++ [mk_frame key arr []]).
Proof.
  induction fs as [|f fs IH]; [done|]. intros [H1 H2]. rewrite <- app_comm_cons. cbn [counts_ok]. split; [|by apply IH].
  rewrite frame_count_nonempty by (by destruct fs). destruct fs; unfold frame_count in *; lia.
Qed.
Lemma counts_close f fs : counts_ok 0 (fs ++ [f]) -> counts_ok 1 fs.
Proof.
  induction fs as [|g fs IH]; [done|]. rewrite <- app_comm_cons. cbn [counts_ok]. intros [H1 H2]. split; [|by apply IH].
  rewrite frame_count_nonempty in H1 by (by destruct fs). destruct fs; unfold frame_count; lia.
Qed.
Lemma counts_weaken fs : counts_ok 1 fs -> counts_ok 0 fs.
Proof. induction fs as [|f fs IH]; [done|]. intros [H1 H2]. split; [|by apply IH]. destruct fs; unfold frame_count in *; lia. Qed.

(** * Events *)

Definition ev_key (k : list byte) : key_t := match k with [] => None | _ => Some k end.
Definition leaf_ev (k : key_t) (l : dleaf) : jev :=
  match l with DNum text => EvNum k text | DBool b => EvBool k b | DNull => EvNull k | DStr s => EvStr k s end.
Definition ev_begin (arr : bool) (k : key_t) : jev := if arr then EvBeginArr k else EvBeginObj k.
Definition ev_end (arr : bool) : jev := if arr then EvEndArr else EvEndObj.
Fixpoint doc_events (k : key_t) (d : doc) : list jev :=
  match d with
  | DLeaf l => [leaf_ev k l]
  | DNode arr cs => ev_begin arr k :: concat (map (fun c => doc_events (ev_key c.1) c.2) cs) ++ [ev_end arr]
  end.

Section Events.
Context (r : recorder).
Definition child_events (c : child) : list jev := doc_events (ev_key c.1) (doc_of r c.2).
Definition frame_events (f : frame) : list jev :=
  ev_begin (fr_arr f) (ev_key (fr_key f)) :: concat (map child_events (fr_cs f)).
Definition zevents (z : zipper) : list jev := concat (map child_events z.1) ++ concat (map frame_events z.2).

Lemma child_events_node k arr cs :
  child_events (k, TNode arr cs) = frame_events (mk_frame k arr cs) ++ [ev_end arr].
Proof.
  unfold child_events, frame_events. cbn [fst snd doc_of doc_events fr_arr fr_key fr_cs app].
  by rewrite map_map.
Qed.

Lemma frames_events_add c fs : fs <> [] ->
  concat (map frame_events (add_frames c fs)) = concat (map frame_events fs) ++ child_events c.
Proof.
  induction fs as [|f [|g fs] IH]; [done|..]; intros _.
  - cbn [add_frames map concat]. unfold frame_events. cbn [fr_key fr_arr fr_cs]. rewrite map_app, concat_app. cbn. by rewrite !app_nil_r.
  - rewrite add_frames_cons. cbn [map concat] in *. rewrite IH by done. by rewrite !app_assoc.
Qed.
Lemma zevents_add c z : zevents (zadd c z) = zevents z ++ child_events c.
Proof.
  destruct z as [roots [|f fs]]; unfold zevents, zadd; cbn [fst snd].
  - cbn. rewrite !app_nil_r, map_app, concat_app. cbn. by rewrite app_nil_r.
  - rewrite frames_events_add by done. by rewrite app_assoc.
Qed.
Lemma zevents_open key arr z : zevents (zopen key arr z) = zevents z ++ [ev_begin arr (ev_key key)].
Proof.
  unfold zevents, zopen. cbn [fst snd]. rewrite map_app, concat_app. cbn [map concat]. unfold frame_events at 2.
  cbn. by rewrite app_assoc.
Qed.
Lemma zevents_close f roots fs : zevents (zadd (closed f) (roots, fs)) = zevents (roots, fs ++ [f]) ++ [ev_end (fr_arr f)].
Proof.
  rewrite zevents_add. unfold closed. rewrite child_events_node. unfold zevents. cbn [fst snd].
  rewrite map_app, concat_app. cbn [map concat]. rewrite app_nil_r, <- !app_assoc. by destruct f.
Qed.
End Events.

(** Strings in the arena stay what they are when it grows. *)
Definition ref_ok (n : nat) (s : str_ref) : Prop := match s with InBuf _ => True | InArena start len => (start + len <= n)%nat end.
Fixpoint refs_ok (n : nat) (t : tree) : Prop :=
  match t with
  | TLeaf (LStr s) => ref_ok n s
  | TLeaf _ => True
  | TNode _ cs => Forall (fun P => P) (map (fun c => refs_ok n c.2) cs)
  end.
Definition crefs_ok (n : nat) (cs : list child) : Prop := Forall (fun c => refs_ok n c.2) cs.
Definition zrefs_ok (n : nat) (z : zipper) : Prop := crefs_ok n z.1 /\ Forall (fun f => crefs_ok n (fr_cs f)) z.2.

Definition grows (r r' : recorder) : Prop := exists x, r_arena r' = r_arena r ++ x.
Lemma grows_refl r : grows r r.
Proof. exists []. by rewrite app_nil_r. Qed.

Lemma read_ref_grows r r' s : grows r r' -> ref_ok (length (r_arena r)) s -> read_ref r' s = read_ref r s.
Proof.
  intros [x Hx] H. destruct s as [d|start len]; [done|]. cbn in *. rewrite Hx.
  rewrite drop_app_le by lia. by rewrite take_app_le by (rewrite length_drop; lia).
Qed.

Lemma doc_of_grows r r' t : grows r r' -> refs_ok (length (r_arena r)) t -> doc_of r' t = doc_of r t.
Proof.
  intros Hg. induction t as [l|arr cs IH] using tree_rec'; intros H.
  - destruct l as [| | |s]; try done. cbn. by rewrite (read_ref_grows r).
  - cbn in *. f_equal. apply map_ext_in. intros c Hc%list_elem_of_In. f_equal. rewrite Forall_forall in IH. apply IH; [done|].
    rewrite Forall_map, Forall_forall in H. by apply (H c).
Qed.
Lemma child_events_grows r r' c : grows r r' -> refs_ok (length (r_arena r)) c.2 -> child_events r' c = child_events r c.
Proof. intros Hg H. unfold child_events. by rewrite (doc_of_grows r). Qed.
Lemma crefs_events r r' cs : grows r r' -> crefs_ok (length (r_arena r)) cs ->
  map (child_events r') cs = map (child_events r) cs.
Proof.
  intros Hg H. apply map_ext_in. intros c Hc%list_elem_of_In. unfold crefs_ok in H. rewrite Forall_forall in H.
  apply child_events_grows; [done|by apply H].
Qed.
Lemma zevents_grows r r' z : grows r r' -> zrefs_ok (length (r_arena r)) z -> zevents r' z = zevents r z.
Proof.
  intros Hg [H1 H2]. unfold zevents. rewrite (crefs_events r) by done. f_equal. f_equal.
  apply map_ext_in. intros f Hf%list_elem_of_In. rewrite Forall_forall in H2. unfold frame_events.
  by rewrite (crefs_events r) by (done || by apply H2).
Qed.

Lemma refs_mono n n' t : (n <= n')%nat -> refs_ok n t -> refs_ok n' t.
Proof.
  intros Hn. induction t as [l|arr cs IH] using tree_rec'.
  - destruct l as [| | |[]]; cbn; try done. lia.
  - cbn. rewrite !Forall_map, !Forall_forall. rewrite Forall_forall in IH. intros H c Hc. by apply IH, H.
Qed.
Lemma crefs_mono n n' cs : (n <= n')%nat -> crefs_ok n cs -> crefs_ok n' cs.
Proof. intros Hn H. eapply Forall_impl; [exact H|]. intros c. by apply refs_mono. Qed.
Lemma zrefs_mono n n' z : (n <= n')%nat -> zrefs_ok n z -> zrefs_ok n' z.
Proof. intros Hn [H1 H2]. split; [by eapply crefs_mono|]. eapply Forall_impl; [exact H2|]. intros f. by apply crefs_mono. Qed.

Lemma zrefs_add n c z : zrefs_ok n z -> refs_ok n c.2 -> zrefs_ok n (zadd c z).
Proof.
  destruct z as [roots fs]. intros [H1 H2] Hc. unfold zadd. cbn [fst snd] in *. destruct fs as [|f fs].
  - split; [|constructor]. cbn. apply Forall_app. split; [done|by apply Forall_singleton].
  - split; [done|]. cbn [snd]. revert f H2. induction fs as [|g fs IH]; intros f H2.
    + cbn. apply Forall_singleton. cbn. inversion_clear H2. apply Forall_app. split; [done|by apply Forall_singleton].
    + rewrite add_frames_cons. inversion_clear H2. constructor; [done|]. by apply IH.
Qed.
Lemma zrefs_open n key arr z : zrefs_ok n z -> zrefs_ok n (zopen key arr z).
Proof. intros [H1 H2]. split; [done|]. cbn. apply Forall_app. split; [done|]. apply Forall_singleton. constructor. Qed.
Lemma zrefs_close n f roots fs : zrefs_ok n (roots, fs ++ [f]) -> zrefs_ok n (zadd (closed f) (roots, fs)).
Proof.
  intros [H1 H2]. cbn in *. apply Forall_app in H2 as [H2 Hf]. rewrite Forall_singleton in Hf. apply zrefs_add; [by split|].
  cbn. by rewrite Forall_map.
Qed.

(** * Recording keeps to the layout *)

Lemma counts_room fs : forall pre parent base p t, length pre = base -> last (open_bases base fs) = Some p ->
  (pre ++ lay_open 0 parent base fs) !! p = Some t -> t_child_count t <> UINT16_MAX -> counts_ok 0 fs -> counts_ok 1 fs.
Proof.
  induction fs as [|f fs IH]; intros pre parent base p t Hb Hp Ht Hc Hk; [done|]. destruct Hk as [Hk Hks].
  destruct fs as [|g fs].
  - cbn [open_bases last] in Hp. injection Hp as <-. rewrite lay_open_cons, lookup_app_r in Ht by lia.
    rewrite Hb, Nat.sub_diag in Ht. injection Ht as <-. cbn in Hc. split; [|done]. unfold frame_count, UINT16_MAX in *. lia.
  - cbn [open_bases] in Hp. rewrite last_cons_nonempty in Hp by done. rewrite lay_open_cons in Ht.
    split; [by unfold frame_count in *|].
    eapply (IH (pre ++ node_tok (fr_arr f) (fr_key f) (frame_count 0 f (g :: fs)) parent :: lay_list (Some base) (S base) (fr_cs f))
      (Some base) (S base + csize (fr_cs f))%nat p t); [|done| |done|done].
    + rewrite length_app. cbn [length]. rewrite lay_list_length. lia.
    + rewrite <- Ht. by rewrite <- app_assoc.
Qed.

Lemma open_bases_lt fs : forall base p, last (open_bases base fs) = Some p -> (p < base + length (lay_open 0 None base fs))%nat.
Proof.
  induction fs as [|f fs IH]; intros base p Hp; [done|]. rewrite lay_open_cons. cbn [length]. destruct fs as [|g fs].
  - cbn in Hp. injection Hp as <-. lia.
  - cbn [open_bases] in Hp. rewrite last_cons_nonempty in Hp by done. apply IH in Hp.
    rewrite length_app, lay_list_length. change (length (lay_open 0 (Some base) (S base + csize (fr_cs f)) (g :: fs)))
      with (length (lay_open 0 None (S base + csize (fr_cs f)) (g :: fs))). lia.
Qed.
Lemma zparent_lt z p : zparent z = Some p -> (p < length (zpool 0 z))%nat.
Proof. intros H%open_bases_lt. unfold zpool. by rewrite length_app, lay_list_length. Qed.

Lemma zparent_room z p t : zparent z = Some p -> zpool 0 z !! p = Some t -> t_child_count t <> UINT16_MAX ->
  counts_ok 0 z.2 -> counts_ok 1 z.2.
Proof. intros Hp Ht. apply (counts_room z.2 (lay_list None 0 z.1) None (csize z.1) p t); [apply lay_list_length|done|done]. Qed.

Lemma head_rev {A} (l : list A) : head (rev l) = last l.
Proof. induction l as [|x l IH] using rev_ind; [done|]. by rewrite rev_app_distr, last_snoc. Qed.

(** Between two values. *)
Record at_rest (r : recorder) (z : zipper) : Prop := {
  ar_stack : r_stack r = rev (zbases z);
  ar_counts : counts_ok 0 z.2;
  ar_pool : r_pool r = zpool 0 z;
  ar_str : r_str r = None;
  ar_refs : zrefs_ok (length (r_arena r)) z
}.

Lemma alloc_spec r z ty key idx r1 : at_rest r z -> tok_alloc r ty key = Some (idx, r1) ->
  counts_ok 1 z.2 /\ idx = length (zpool 1 z) /\
  r1 = set_pool (zpool 1 z ++ [mk_tok ty (default [] key) false 0 (zparent z) PZero]) r.
Proof.
  intros [Hst Hc Hp _ _]. unfold tok_alloc. rewrite Hst, head_rev, Hp. fold (zparent z).
  destruct (_ <? _)%nat; [done|]. destruct (_ <=? _)%nat; [done|]. rewrite (zpool_length 1 z). destruct (zparent z) as [p|] eqn:Ep.
  - pose proof (zparent_lt z p Ep) as Hlt. destruct (lookup_lt_is_Some_2 _ _ Hlt) as [t Ht]. rewrite Ht.
    destruct (Z.eqb_spec (t_child_count t) UINT16_MAX); [done|]. intros [= <- <-].
    assert (Hc1 : counts_ok 1 z.2) by (by eapply zparent_room). split; [done|]. split; [done|]. f_equal.
    rewrite alter_app_l by done. by rewrite zpool_bump.
  - intros [= <- <-]. assert (Hnil : z.2 = []).
    { destruct z as [roots [|f fs]]; [done|]. unfold zparent, zbases in Ep. by apply last_None in Ep. }
    rewrite Hnil. split; [done|]. split; [done|]. by rewrite zpool_nobump.
Qed.

Lemma alter_last {A} (f : A -> A) l x : alter f (length l) (l ++ [x]) = l ++ [f x].
Proof. apply alter_mid. Qed.

(** A leaf recorded in one call. *)
Lemma leaf_rest r z l key ty v ix : at_rest r z -> ref_ok (length (r_arena r)) match l with LStr s => s | _ => InBuf [] end ->
  leaf_tok l (default [] key) (zparent z) = mk_tok ty (default [] key) ix 0 (zparent z) v ->
  forall r', tok_leaf ty key v ix r = (BB_OK, r') ->
  at_rest r' (zadd (default [] key, TLeaf l) z) /\ r_arena r' = r_arena r.
Proof.
  intros Hr Hl Ht r'. unfold tok_leaf. destruct (tok_alloc r ty key) as [[idx r1]|] eqn:E; [|done].
  destruct (alloc_spec _ _ _ _ _ _ Hr E) as (Hc & -> & ->). intros [= <-]. cbn [set_pool r_pool].
  rewrite alter_last. unfold set_v. cbn [t_type t_key t_child_count t_parent]. rewrite <- Ht.
  destruct Hr as [Hst Hc0 Hp Hs Hrf]. split; [|done]. split; cbn [set_pool r_stack r_pool r_str r_arena].
  - by rewrite zbases_add.
  - destruct z as [roots [|f fs]]; [done|]. unfold zadd. cbn [fst snd] in *. by apply counts_add.
  - rewrite <- zpool_add. done.
  - done.
  - apply zrefs_add; [done|]. cbn. by destruct l.
Qed.

Lemma begin_rest r z arr key r' : at_rest r z -> tok_begin (node_type arr) key r = (BB_OK, r') ->
  at_rest r' (zopen (default [] key) arr z) /\ r_arena r' = r_arena r.
Proof.
  intros Hr. unfold tok_begin. destruct (_ <=? _)%nat; [done|].
  destruct (tok_alloc r _ key) as [[idx r1]|] eqn:E; [|done]. destruct (alloc_spec _ _ _ _ _ _ Hr E) as (Hc & -> & ->).
  intros [= <-]. destruct Hr as [Hst Hc0 Hp Hs Hrf]. split; [|done]. split; cbn [set_rstack set_pool r_stack r_pool r_str r_arena].
  - rewrite zbases_open, rev_app_distr. cbn. by rewrite Hst.
  - by apply counts_open.
  - by rewrite <- zpool_open.
  - done.
  - by apply zrefs_open.
Qed.

Lemma end_rest r z r' : at_rest r z -> tok_end r = (BB_OK, r') ->
  exists roots fs f, z = (roots, fs ++ [f]) /\ at_rest r' (zadd (closed f) (roots, fs)) /\ r_arena r' = r_arena r.
Proof.
  intros [Hst Hc Hp Hs Hrf]. unfold tok_end. destruct z as [roots fs].
  destruct fs as [|f fs _] using rev_ind; [rewrite Hst; done|].
  destruct (zbases_close f roots fs) as [b Hb]. rewrite Hst, Hb, rev_app_distr. cbn [app rev]. intros [= <-].
  exists roots, fs, f. split; [done|]. split; [|done]. split; cbn [set_rstack r_stack r_pool r_str r_arena].
  - done.
  - cbn [snd] in Hc. apply counts_close in Hc. destruct fs as [|g fs]; [done|]. unfold zadd. cbn [fst snd]. by apply counts_add.
  - by rewrite Hp, zpool_close.
  - done.
  - by apply zrefs_close.
Qed.

(** A string in the arena: [data] so far, from [start]. *)
Record assembling (r : recorder) (z : zipper) (key data : list byte) (start : nat) : Prop := {
  as_stack : r_stack r = rev (zbases z);
  as_counts : counts_ok 1 z.2;
  as_pool : r_pool r = zpool 1 z ++ [mk_tok BB_SERIALIZE_JSON_TOK_STR key false 0 (zparent z) PZero];
  as_refs : zrefs_ok (length (r_arena r)) z;
  as_arena : exists before, r_arena r = before ++ data /\ length before = start
}.

Lemma str_assemble_spec r z key data start chunk fin r' : assembling r z key data start ->
  str_assemble (length (zpool 1 z)) start (length data) chunk fin r = (BB_OK, r') ->
  grows r r' /\
  if fin
  then at_rest r' (zadd (key, TLeaf (LStr (InArena start (length (data ++ chunk))))) z) /\
       read_ref r' (InArena start (length (data ++ chunk))) = data ++ chunk
  else assembling r' z key (data ++ chunk) start /\
       r_str r' = Some (length (zpool 1 z), start, length (data ++ chunk)).
Proof.
  intros [Hst Hc Hp Hrf (before & Ha & Hb)] H. unfold str_assemble in H.
  assert (exists r1, grows r r1 /\ r_arena r1 = before ++ data ++ chunk /\ r_pool r1 = r_pool r /\ r_stack r1 = r_stack r /\
    (if fin then (BB_OK, set_str None (set_pool (alter (set_v (PStr (InArena start (length data + length chunk))) false)
        (length (zpool 1 z)) (r_pool r1)) r1)) else (BB_OK, set_str (Some (length (zpool 1 z), start, length data + length chunk)%nat) r1))
     = (BB_OK, r')) as (r1 & Hg & Har & Hpool & Hstack & H').
  { destruct chunk as [|c chunk].
    - exists r. rewrite app_nil_r. split_and!; try done; apply grows_refl.
    - destruct (r_arena_cap r) as [cap|]; [|done]. destruct (_ <? _)%nat; [done|]. eexists. split_and!; [|..|exact H].
      + by exists (c :: chunk).
      + cbn [set_arena r_arena]. by rewrite Ha, <- app_assoc.
      + done.
      + done. }
  clear H. assert (Hle : (length (r_arena r) <= length (r_arena r1))%nat) by (destruct Hg as [x ->]; rewrite length_app; lia).
  rewrite <- length_app in H'. rewrite Hpool, Hp, alter_last in H'.
  assert (Hread : take (length (data ++ chunk)) (drop start (r_arena r1)) = data ++ chunk).
  { by rewrite Har, <- Hb, drop_app_length, firstn_all. }
  destruct fin; injection H' as <-.
  - split; [done|]. split; [|done]. split; cbn [set_str set_pool r_stack r_pool r_str r_arena].
    + by rewrite zbases_add, Hstack.
    + destruct z as [roots [|f fs]]; [done|]. unfold zadd. cbn [fst snd] in *. by apply counts_add.
    + rewrite <- zpool_add. done.
    + done.
    + apply zrefs_add; [by eapply zrefs_mono|]. cbn. rewrite Har, !length_app. lia.
  - split; [done|]. split; [|done]. split; cbn [set_str r_stack r_pool r_str r_arena].
    + by rewrite Hstack.
    + done.
    + by rewrite Hpool.
    + by eapply zrefs_mono.
    + exists before. done.
Qed.

(** The outermost container has no key. *)
Definition root_key (z : zipper) : Prop := match z.2 with f :: _ => fr_key f = [] | [] => True end.
Lemma root_key_add c z : root_key z -> root_key (zadd c z).
Proof. destruct z as [roots [|f [|g fs]]]; done. Qed.

(** The scanner's view, the recorder and the events so far. *)
Record related (v : view) (r : recorder) (e : recording) (z : zipper) : Prop := {
  re_kinds : map fr_arr z.2 = rev (v_stack v);
  re_events : e.1 = zevents r z;
  re_none : v_done v = false -> z.1 = [];
  re_done : v_done v = true -> z.2 = [] /\ exists t, z.1 = [([], t)];
  re_root : root_key z;
  re_open : match v_open v with
            | None => at_rest r z /\ e.2 = []
            | Some key => v_done v = false /\ key_ok (v_stack v) key = true /\ exists start,
                assembling r z (default [] key) e.2 start /\ r_str r = Some (length (zpool 1 z), start, length e.2)
            end
}.

Lemma ev_key_default st key : key_ok st key = true -> ev_key (default [] key) = key.
Proof. by destruct key as [[|]|]. Qed.

(** A complete value in its place. *)
Lemma related_value v r' e' z key t : root_key z -> map fr_arr z.2 = rev (v_stack v) -> z.1 = [] -> key_ok (v_stack v) key = true ->
  at_rest r' (zadd (default [] key, t) z) -> e'.1 = zevents r' (zadd (default [] key, t) z) -> e'.2 = [] ->
  related (after_value (v_stack v)) r' e' (zadd (default [] key, t) z).
Proof.
  intros Hrk Hk Hn Hok Hr He Hp. split; cbn [after_value v_stack v_done v_open].
  - by rewrite zkinds_add.
  - done.
  - intros Hd%bool_decide_eq_false. destruct z as [roots fs]. cbn in *. unfold zadd. cbn. destruct fs; [|done].
    exfalso. apply Hd. cbn in Hk. symmetry in Hk. apply (f_equal (@rev bool)) in Hk. by rewrite rev_involutive in Hk.
  - intros Hd%bool_decide_eq_true. rewrite Hd in Hk, Hok. destruct z as [roots fs]. cbn in *. subst roots.
    destruct fs; [|done]. split; [done|]. destruct key as [[|? ?]|]; try done. by exists t.
  - by apply root_key_add.
  - done.
Qed.

Lemma ready_inv v key : ScanSafe.ready v key = true -> v_open v = None /\ v_done v = false /\ key_ok (v_stack v) key = true.
Proof.
  unfold ScanSafe.ready. rewrite !andb_true_iff, bool_decide_eq_true, negb_true_iff. tauto.
Qed.

Lemma same_arena_events r r' z : r_arena r' = r_arena r -> zrefs_ok (length (r_arena r)) z -> zevents r' z = zevents r z.
Proof. intros H. apply zevents_grows. exists []. by rewrite app_nil_r. Qed.

Lemma zevents_value r r' z key l : at_rest r z -> grows r r' -> ev_key (default [] key) = key ->
  zevents r' (zadd (default [] key, TLeaf l) z) = zevents r z ++ [leaf_ev key (doc_leaf r' l)].
Proof.
  intros [_ _ _ _ Hrf] Hg Hk. rewrite zevents_add, (zevents_grows r) by done. unfold child_events. cbn. by rewrite Hk.
Qed.

(** A scalar. *)
Lemma related_leaf v r e z key l ty pv ix r' : related v r e z -> ScanSafe.ready v key = true ->
  match l with LStr (InArena _ _) => False | _ => True end ->
  leaf_tok l (default [] key) (zparent z) = mk_tok ty (default [] key) ix 0 (zparent z) pv ->
  tok_leaf ty key pv ix r = (BB_OK, r') ->
  related (after_value (v_stack v)) r' (e.1 ++ [leaf_ev key (doc_leaf r l)], e.2) (zadd (default [] key, TLeaf l) z).
Proof.
  intros [Hk He Hn Hd Hrk Ho] (Hopen & Hdone & Hok)%ready_inv Hl Ht H. rewrite Hopen in Ho. destruct Ho as [Hr Hp].
  destruct (leaf_rest r z l key ty pv ix Hr) with (r' := r') as [Hr' Ha]; [|done|done|].
  { destruct l as [| | |[]]; done. }
  assert (Hg : grows r r') by (exists []; by rewrite app_nil_r).
  apply related_value; try done; [by apply Hn|]. cbn [fst]. rewrite He. rewrite (zevents_value r r') by (done || by eapply ev_key_default).
  do 3 f_equal. destruct l as [| | |[]]; done.
Qed.

Lemma related_begin v r e z arr key v' r' : related v r e z -> call_step true v (KBegin arr key) = Some v' ->
  tok_begin (node_type arr) key r = (BB_OK, r') ->
  related v' r' (e.1 ++ [ev_begin arr key], e.2) (zopen (default [] key) arr z).
Proof.
  intros [Hk He Hn Hd Hrk Ho] Hc H. cbn [call_step] in Hc.
  destruct (ScanSafe.ready v key && _) eqn:Er; [|done]. injection Hc as <-. apply andb_true_iff in Er as [Er _].
  apply ready_inv in Er as (Hopen & Hdone & Hok). rewrite Hopen in Ho. destruct Ho as [Hr Hp].
  destruct (begin_rest r z arr key r' Hr H) as [Hr' Ha]. split; cbn [v_stack v_done v_open fst snd].
  - unfold zopen. cbn [snd]. rewrite map_app, Hk. done.
  - rewrite zevents_open, (ev_key_default (v_stack v)) by done. rewrite (same_arena_events r) by (done || apply Hr). by rewrite He.
  - intros _. by apply Hn.
  - done.
  - unfold root_key, zopen. cbn [snd]. destruct z as [roots [|f fs]]; [|done]. cbn in *.
    destruct (v_stack v) as [|a st]; [by destruct key as [[|? ?]|]|]. cbn in Hk. by destruct (rev st).
  - done.
Qed.

Lemma related_end v r e z arr v' r' : related v r e z -> call_step true v (KEnd arr) = Some v' ->
  tok_end r = (BB_OK, r') -> exists z', related v' r' (e.1 ++ [ev_end arr], e.2) z'.
Proof.
  intros [Hk He Hn Hd Hrk Ho] Hc H. cbn [call_step] in Hc. destruct (v_open v); [done|]. destruct Ho as [Hr Hp].
  destruct (v_stack v) as [|a st] eqn:Est; [done|]. destruct (Bool.eqb_spec a arr) as [->|]; [|done]. injection Hc as <-.
  destruct (end_rest r z r' Hr H) as (roots & fs & f & -> & Hr' & Ha).
  assert (Hdone : v_done v = false).
  { destruct (v_done v); [|done]. destruct (Hd eq_refl) as [Hz _]. cbn in Hz. by destruct fs. }
  specialize (Hn Hdone). cbn in Hn, Hk. subst roots. rewrite map_app in Hk. cbn in Hk. apply app_inj_tail in Hk as [Hk Hf].
  exists (zadd (closed f) ([], fs)). 
  assert (Hkey : st = [] -> fr_key f = []).
  { intros ->. destruct fs; [|done]. done. }
  split; cbn [after_value v_stack v_done v_open fst snd].
  - by rewrite zkinds_add.
  - rewrite zevents_close, Hf. rewrite (same_arena_events r) by (done || apply Hr). by rewrite He.
  - intros Hb%bool_decide_eq_false. destruct fs as [|g fs]; [|done]. cbn in Hk. exfalso. apply Hb. symmetry in Hk.
    apply (f_equal (@rev bool)) in Hk. by rewrite rev_involutive in Hk.
  - intros Hb%bool_decide_eq_true. rewrite Hb in Hk. destruct fs; [|done]. split; [done|].
    exists (TNode (fr_arr f) (fr_cs f)). cbn. unfold closed. by rewrite (Hkey Hb).
  - apply root_key_add. unfold root_key in *. cbn in *. by destruct fs.
  - done.
Qed.

Lemma related_str v r e z key d fin p v' r' : related v r e z -> call_step true v (KStr key d fin p) = Some v' ->
  tok_value_str_chunk key d fin p r = (BB_OK, r') ->
  exists z', related v' r' (if fin then (e.1 ++ [EvStr key (e.2 ++ d)], []) else (e.1, e.2 ++ d)) z'.
Proof.
  intros Hrel Hc H. cbn [call_step] in Hc. destruct (_ && _ && _) eqn:Eg; [|done]. injection Hc as <-.
  apply andb_true_iff in Eg as [Eg _]. apply andb_true_iff in Eg as [Eg _].
  (* from an assembling state *)
  assert (Hass : forall r1 start, root_key z -> grows r r1 -> map fr_arr z.2 = rev (v_stack v) -> z.1 = [] -> v_done v = false ->
    key_ok (v_stack v) key = true -> e.1 = zevents r z -> zrefs_ok (length (r_arena r)) z ->
    assembling r1 z (default [] key) e.2 start ->
    str_assemble (length (zpool 1 z)) start (length e.2) d fin r1 = (BB_OK, r') ->
    exists z', related (if fin then after_value (v_stack v) else mk_view (v_stack v) (Some key) false) r'
      (if fin then (e.1 ++ [EvStr key (e.2 ++ d)], []) else (e.1, e.2 ++ d)) z').
  { intros r1 start Hrk Hg1 Hk Hn Hdone Hok He Hrf Has Hsa. destruct (str_assemble_spec _ _ _ _ _ _ _ _ Has Hsa) as [Hg2 Hres].
    assert (Hg : grows r r').
    { destruct Hg1 as [x Hx], Hg2 as [y Hy]. exists (x ++ y). by rewrite Hy, Hx, app_assoc. }
    destruct fin.
    - destruct Hres as [Hr' Hread]. eexists. apply related_value; try done. cbn [fst].
      rewrite zevents_add, (zevents_grows r) by done. unfold child_events. cbn [fst snd doc_of doc_leaf doc_events leaf_ev].
      rewrite Hread, (ev_key_default (v_stack v)) by done. by rewrite He.
    - destruct Hres as [Has' Hstr]. exists z. split; cbn [v_stack v_done v_open fst snd]; try done.
      + by rewrite (zevents_grows r).
      + split; [done|]. split; [done|]. by exists start. }
  pose proof Hrel as Hrel0. destruct Hrel as [Hk He Hn Hd Hrk Ho]. unfold tok_value_str_chunk in H. destruct (v_open v) as [key0|] eqn:Eopen.
  - destruct Ho as (Hdone & Hok & start & Has & Hstr). rewrite Hstr in H.
    assert (key0 = key) as ->.
    { apply orb_true_iff in Eg as [Eg|Eg]; [by apply bool_decide_eq_true in Eg; injection Eg|].
      apply ready_inv in Eg as [Eg _]. by rewrite Eopen in Eg. }
    destruct p; try done; (eapply (Hass r start); try done; [apply grows_refl|by apply Hn|apply Has]).
  - destruct Ho as [Hr Hp]. rewrite (ar_str _ _ Hr) in H. rewrite bool_decide_false in Eg by done. cbn [orb] in Eg.
    apply ready_inv in Eg as (_ & Hdone & Hok).
    destruct (tok_alloc r BB_SERIALIZE_JSON_TOK_STR key) as [[idx r1]|] eqn:Ea; [|by destruct p].
    pose proof (alloc_spec _ _ _ _ _ _ Hr Ea) as (Hc1 & -> & ->).
    set (r1 := set_pool _ r) in *.
    assert (Has : assembling r1 z (default [] key) e.2 (length (r_arena r1))).
    { rewrite Hp. split; try done; [apply Hr|apply Hr|]. exists (r_arena r1). by rewrite app_nil_r. }
    assert (Hgo : str_assemble (length (zpool 1 z)) (length (r_arena r1)) 0 d fin r1 = (BB_OK, r') ->
      exists z', related (if fin then after_value (v_stack v) else mk_view (v_stack v) (Some key) false) r'
        (if fin then (e.1 ++ [EvStr key (e.2 ++ d)], []) else (e.1, e.2 ++ d)) z').
    { intros H'. eapply (Hass r1 (length (r_arena r1))); try done; [exists []; by rewrite app_nil_r|by apply Hn|apply Hr|].
      by rewrite Hp. }
    destruct p; [|done|by destruct fin; apply Hgo]. destruct fin; [|by apply Hgo]. clear Hgo Hass.
    exists (zadd (default [] key, TLeaf (LStr (InBuf d))) z).
    assert (Hready : ScanSafe.ready v key = true).
    { unfold ScanSafe.ready. by rewrite Eopen, Hdone, Hok, bool_decide_true. }
    pose proof (related_leaf v r e z key (LStr (InBuf d)) BB_SERIALIZE_JSON_TOK_STR (PStr (InBuf d)) false r' Hrel0 Hready I eq_refl) as Hl.
    unfold tok_leaf in Hl. rewrite Ea in Hl. specialize (Hl H). rewrite Hp in Hl |- *. exact Hl.
Qed.

Lemma related_step v r e z c v' r' : related v r e z -> call_step true v c = Some v' ->
  apply_call bb_serialize_json_tok_recorder_ingest c r = (BB_OK, r') ->
  exists z', related v' r' (apply_call rec_sink c e).2 z'.
Proof.
  intros Hrel Hc H. destruct c as [arr key|arr|key text|key b|key|key d fin p]; cbn [apply_call] in *.
  - exists (zopen (default [] key) arr z).
    destruct arr; [exact (related_begin v r e z true key v' r' Hrel Hc H)|exact (related_begin v r e z false key v' r' Hrel Hc H)].
  - destruct arr; [exact (related_end v r e z true v' r' Hrel Hc H)|exact (related_end v r e z false v' r' Hrel Hc H)].
  - cbn [call_step] in Hc. destruct (ScanSafe.ready v key && _) eqn:Er; [|done]. injection Hc as <-.
    apply andb_true_iff in Er as [Er _]. exists (zadd (default [] key, TLeaf (LNum text)) z).
    by apply (related_leaf v r e z key (LNum text) BB_SERIALIZE_JSON_TOK_NUM (tok_parse_num text).1 (tok_parse_num text).2 r').
  - cbn [call_step] in Hc. destruct (ScanSafe.ready v key) eqn:Er; [|done]. injection Hc as <-.
    exists (zadd (default [] key, TLeaf (LBool b)) z).
    by apply (related_leaf v r e z key (LBool b) BB_SERIALIZE_JSON_TOK_BOOL (PBool b) false r').
  - cbn [call_step] in Hc. destruct (ScanSafe.ready v key) eqn:Er; [|done]. injection Hc as <-.
    exists (zadd (default [] key, TLeaf LNull) z).
    by apply (related_leaf v r e z key LNull BB_SERIALIZE_JSON_TOK_NULL PZero false r').
  - destruct (related_str v r e z key d fin p v' r' Hrel Hc H) as [z' Hz]. exists z'. by destruct fin.
Qed.

Lemma rec_sink_total : total rec_sink.
Proof. intros c [ev pend]. destruct c as [[]|[]| | | |? ? []]; done. Qed.

Lemma related_run r0 log : forall v r, related view0 r0 ([], []) ([], []) -> conforming true log = Some v ->
  run_calls bb_serialize_json_tok_recorder_ingest log r0 = Some r ->
  exists e z, run_calls rec_sink log ([], []) = Some e /\ related v r e z.
Proof.
  induction log as [|c log IH] using rev_ind; intros v r H0 Hv Hr.
  - injection Hv as <-. injection Hr as <-. by exists ([], []), ([], []).
  - unfold conforming in Hv. rewrite fold_left_app in Hv. fold (conforming true log) in Hv. cbn [fold_left] in Hv.
    destruct (conforming true log) as [v1|] eqn:E1; [|done]. rewrite run_calls_snoc in Hr. cbv zeta in Hr.
    destruct (run_calls bb_serialize_json_tok_recorder_ingest log r0) as [r1|] eqn:E2; [|done].
    destruct (apply_call bb_serialize_json_tok_recorder_ingest c r1) as [rc r2] eqn:E3. cbn [fst snd] in Hr.
    destruct (is_ok rc) eqn:Eok; [|done]. apply is_ok_true in Eok as ->. injection Hr as <-.
    destruct (IH v1 r1 H0 eq_refl eq_refl) as (e & z & He & Hrel).
    destruct (related_step v1 r1 e z c v r2 Hrel Hv E3) as [z' Hrel']. exists (apply_call rec_sink c e).2, z'. split; [|done].
    rewrite run_calls_snoc, He. cbv zeta. by rewrite (proj2 (is_ok_true _) (rec_sink_total c e)).
Qed.

Lemma init_related buf_ok pool_ok cap arena r : bb_serialize_json_tok_recorder_init buf_ok pool_ok cap arena = inr r ->
  related view0 r ([], []) ([], []).
Proof.
  unfold bb_serialize_json_tok_recorder_init. destruct (_ || _); [done|]. intros [= <-].
  split; try done. split; [|done]. split; try done. split; [by apply Forall_nil|by apply Forall_nil].
Qed.

(** An accepted scan leaves the document in the pool. *)
Lemma recorded buf buf_ok pool_ok cap arena r0 r : bb_serialize_json_tok_recorder_init buf_ok pool_ok cap arena = inr r0 ->
  bb_serialize_json_scan_bounded bb_serialize_json_tok_recorder_ingest buf r0 = Some (BB_OK, r) ->
  exists d, bb_serialize_json_scan_bounded rec_sink buf ([], []) = Some (BB_OK, (doc_events None d, [])) /\
    bb_serialize_json_tok_root r = Some 0%nat /\ holds r d 0.
Proof.
  intros Hi Hs. destruct (scan_history _ _ _ _ rec_sink ([], []) rec_sink_total Hs) as (log & e1 & Hv & Hr & Hrs & Hre).
  destruct (related_run r0 log _ r (init_related _ _ _ _ _ Hi) Hv Hr) as (e & z & He & [_ Hev _ Hd _ Ho]).
  rewrite Hre in He. injection He as ->. cbn [v_open v_done] in *. destruct Ho as [Hrest Hp].
  destruct (Hd eq_refl) as [Hz2 [t Hz1]]. destruct z as [roots fs]. cbn in Hz1, Hz2. subst roots fs.
  exists (doc_of r t). rewrite Hrs. split; [|].
  - do 2 f_equal. destruct e as [ev pend]. cbn in Hev, Hp. subst ev pend. unfold zevents. cbn. by rewrite !app_nil_r.
  - pose proof (ar_pool _ _ Hrest) as Hpool. unfold zpool in Hpool. cbn [fst snd lay_open] in Hpool.
    rewrite lay_list_cons in Hpool. cbn [lay_list lay_with fst snd] in Hpool. rewrite !app_nil_r in Hpool.
    split.
    + unfold bb_serialize_json_tok_root. rewrite Hpool. destruct (lay_shape t None 0 []) as (t0 & l & -> & _). done.
    + apply (placed_holds r t 0 []). exists [], [], None. rewrite app_nil_r. split; [done|]. split; [done|constructor].
Qed.

(** * Bounds *)

Definition rec_bounds (r : recorder) : Prop :=
  (length (r_pool r) <= r_pool_cap r)%nat /\ (length (r_arena r) <= default 0%nat (r_arena_cap r))%nat.

Lemma alloc_bounds r ty key idx r1 : rec_bounds r -> tok_alloc r ty key = Some (idx, r1) ->
  rec_bounds r1 /\ r_arena r1 = r_arena r /\ r_arena_cap r1 = r_arena_cap r.
Proof.
  intros [H1 H2]. unfold tok_alloc. destruct (_ <? _)%nat; [done|]. destruct (Nat.leb_spec (r_pool_cap r) (length (r_pool r))); [done|].
  destruct (match head (r_stack r) with Some p => _ | None => _ end); [done|]. intros [= _ <-]. split; [|done]. split; [|done].
  cbn [set_pool r_pool r_pool_cap]. destruct (head (r_stack r)); rewrite ?length_alter, length_app; cbn; lia.
Qed.
Lemma leaf_bounds ty key v ix r r' : rec_bounds r -> tok_leaf ty key v ix r = (BB_OK, r') -> rec_bounds r'.
Proof.
  intros H. unfold tok_leaf. destruct (tok_alloc r ty key) as [[idx r1]|] eqn:E; [|done]. intros [= <-].
  destruct (alloc_bounds _ _ _ _ _ H E) as [[H1 H2] _]. split; [|done]. cbn. by rewrite length_alter.
Qed.
Lemma assemble_bounds idx start len d fin r r' : rec_bounds r -> str_assemble idx start len d fin r = (BB_OK, r') -> rec_bounds r'.
Proof.
  intros [H1 H2]. unfold str_assemble.
  assert (Hs : forall r1, rec_bounds r1 -> (if fin then (BB_OK, set_str None (set_pool (alter
      (set_v (PStr (InArena start (len + length d))) false) idx (r_pool r1)) r1)) else (BB_OK, set_str (Some (idx, start, len + length d)%nat) r1))
      = (BB_OK, r') -> rec_bounds r').
  { intros r1 [G1 G2]. destruct fin; intros [= <-]; (split; [|done]); cbn; rewrite ?length_alter; done. }
  destruct d as [|c d]; [apply Hs; by split|]. destruct (r_arena_cap r) as [cap|] eqn:Ec; [|done].
  destruct (Nat.ltb_spec cap (length (r_arena r) + length (c :: d))); [done|]. apply Hs. split; [done|].
  cbn [set_arena r_arena r_arena_cap]. rewrite Ec, length_app. done.
Qed.

Lemma call_bounds c r r' : rec_bounds r -> apply_call bb_serialize_json_tok_recorder_ingest c r = (BB_OK, r') -> rec_bounds r'.
Proof.
  intros H Hc.
  assert (Hb : forall ty key, tok_begin ty key r = (BB_OK, r') -> rec_bounds r').
  { intros ty key. unfold tok_begin. destruct (_ <=? _)%nat; [done|]. destruct (tok_alloc r ty key) as [[idx r1]|] eqn:E; [|done].
    intros [= <-]. apply (alloc_bounds _ _ _ _ _ H E). }
  assert (He : tok_end r = (BB_OK, r') -> rec_bounds r').
  { unfold tok_end. destruct (r_stack r); [done|]. by intros [= <-]. }
  destruct c as [[]|[]|key text|key b|key|key d fin p]; cbn [apply_call] in Hc;
    [exact (Hb _ _ Hc)|exact (Hb _ _ Hc)|exact (He Hc)|exact (He Hc)|exact (leaf_bounds _ _ _ _ _ _ H Hc)..|].
  cbn [ig_value_str_chunk bb_serialize_json_tok_recorder_ingest] in Hc. unfold tok_value_str_chunk in Hc.
  destruct p; [|done|]; (destruct (r_str r) as [[[idx start] len]|]; [by eapply assemble_bounds|]);
    (destruct (tok_alloc r _ key) as [[idx r1]|] eqn:E; [|done]); destruct (alloc_bounds _ _ _ _ _ H E) as [H1 _];
    destruct fin; try (by eapply assemble_bounds); injection Hc as <-; destruct H1 as [G1 G2]; (split; [|done]); cbn; by rewrite length_alter.
Qed.

Lemma run_bounds log : forall r r', rec_bounds r -> run_calls bb_serialize_json_tok_recorder_ingest log r = Some r' -> rec_bounds r'.
Proof.
  induction log as [|c log IH] using rev_ind; intros r r' H Hr; [by injection Hr as <-|]. rewrite run_calls_snoc in Hr. cbv zeta in Hr.
  destruct (run_calls _ log r) as [r1|] eqn:E1; [|done].
  destruct (apply_call bb_serialize_json_tok_recorder_ingest c r1) as [rc r2] eqn:E2. cbn [fst snd] in Hr.
  destruct (is_ok rc) eqn:Eok; [|done]. apply is_ok_true in Eok as ->. injection Hr as <-. eapply call_bounds; [|exact E2]. by eapply IH.
Qed.

(** * Properties *)

(** The token recorder.  For every pool and arena, a bounded scan the
    recorder accepts leaves one document in the pool, the one whose events the
    scan of the same buffer sends; nothing is written past the pool or the
    arena; and the navigation functions read it back from the root: sizes and
    every element of each array and none beyond, the first member of each key
    of each object and none for other keys, strings (decoded, wherever they
    are stored), booleans, nulls, numbers as doubles, and as integers unless
    they have a fraction or an exponent. *)
Theorem recorder_reads_back buf buf_ok pool_ok cap arena r0 r :
  bb_serialize_json_tok_recorder_init buf_ok pool_ok cap arena = inr r0 ->
  bb_serialize_json_scan_bounded bb_serialize_json_tok_recorder_ingest buf r0 = Some (BB_OK, r) ->
  rec_bounds r /\
  exists d, bb_serialize_json_scan_bounded rec_sink buf ([], []) = Some (BB_OK, (doc_events None d, [])) /\
    bb_serialize_json_tok_root r = Some 0%nat /\ holds r d 0.
Proof.
  intros Hi Hs. split; [|by eapply recorded].
  destruct (scan_history _ _ _ _ rec_sink ([], []) rec_sink_total Hs) as (log & e1 & _ & Hr & _).
  eapply run_bounds; [|exact Hr]. unfold bb_serialize_json_tok_recorder_init in Hi. destruct (_ || _); [done|].
  injection Hi as <-. split; cbn; lia.
Qed.

Definition wit_buf : list byte :=
  bs "{" ++ [x22] ++ bs "a" ++ [x22] ++ bs ":[1,-2.5e1,true,null," ++ [x22; x5c; x22; x22] ++ bs "]," ++ [x22] ++ bs "b" ++ [x22] ++
  bs ":" ++ [x22] ++ bs "hi" ++ [x22] ++ bs "}".
Definition wit_recorder : recorder := mk_rec [] 8 [] (Some 4%nat) [] None.
Definition wit_recorded : recorder :=
  match bb_serialize_json_scan_bounded bb_serialize_json_tok_recorder_ingest wit_buf wit_recorder with
  | Some (_, r) => r
  | None => wit_recorder
  end.

Lemma recorder_reads_back_witness :
  rec_bounds wit_recorded /\
  (let arr := bb_serialize_json_tok_obj_get wit_recorded (Some 0%nat) (bs "a") in
   bb_serialize_json_tok_arr_size wit_recorded arr = 5 /\
   bb_serialize_json_tok_get_i64 wit_recorded (bb_serialize_json_tok_arr_at wit_recorded arr 0) = Some 1 /\
   bb_serialize_json_tok_get_i64 wit_recorded (bb_serialize_json_tok_arr_at wit_recorded arr 1) = None /\
   bb_serialize_json_tok_get_str wit_recorded (bb_serialize_json_tok_arr_at wit_recorded arr 4) = Some [x22]) /\
  exists d, holds wit_recorded d 0.
Proof.
  assert (Hi : bb_serialize_json_tok_recorder_init true true 8 (Some 4%nat) = inr wit_recorder) by reflexivity.
  assert (Hs : bb_serialize_json_scan_bounded bb_serialize_json_tok_recorder_ingest wit_buf wit_recorder = Some (BB_OK, wit_recorded))
    by (vm_compute; reflexivity).
  destruct (recorder_reads_back wit_buf true true 8 (Some 4%nat) wit_recorder wit_recorded Hi Hs) as (Hb & d & _ & _ & Hd).
  split; [exact Hb|]. split; [vm_compute; repeat split|]. exists d. exact Hd.
Defined.
