(* ===== verification/Populate.v ===== *)
(** The scatter side of bb_serialize: the populate vtable, the pre-flight check
    and the descriptor scatterer
    (components/bb_serialize/src/bb_serialize_populate.c), and its JSON source
    (components/bb_serialize_json/src/bb_serialize_json_populate.c). *)
From Stdlib Require Import Strings.String.
From S2P Require Import Prelude Bytes Num Float Walk JsonScan Tok.

(** * Doubles in memory *)

(** The 64 bits of a double: the inverse of [d_of_bits] but for NaN payloads. *)
Definition d_to_bits (v : spec_float) : Z :=
  let sign (s : bool) := if s then 2 ^ 63 else 0 in
  match v with
  | S754_zero s => sign s
  | S754_infinity s => sign s + 2047 * 2 ^ 52
  | S754_nan => 2047 * 2 ^ 52 + 2 ^ 51
  | S754_finite s m e =>
      if Zpos m <? 2 ^ 52 then sign s + Zpos m else sign s + (e + 1075) * 2 ^ 52 + (Zpos m - 2 ^ 52)
  end.

(** * The populate vtable (bb_serialize.h) *)

(** A source in state [S].  [None] and [false]: the field is absent.  [get_str]
    is given the capacity and answers the bytes it wrote. *)
Record populate_src (S : Type) := mk_src {
  src_get_i64 : key_t -> S -> option Z;
  src_get_u64 : key_t -> S -> option Z;
  src_get_f64 : key_t -> S -> option spec_float;
  src_get_bool : key_t -> S -> option bool;
  src_get_str : key_t -> nat -> S -> option (list byte) * S;
  src_begin_obj : key_t -> S -> bool * S;
  src_end_obj : S -> S;
  src_begin_arr : key_t -> S -> option nat * S;
  src_end_arr : S -> S
}.
Arguments mk_src {S}. Arguments src_get_i64 {S}. Arguments src_get_u64 {S}. Arguments src_get_f64 {S}.
Arguments src_get_bool {S}. Arguments src_get_str {S}. Arguments src_begin_obj {S}. Arguments src_end_obj {S}.
Arguments src_begin_arr {S}. Arguments src_end_arr {S}.

Section Populate.
Context (ptr_size : nat) (tables : nat -> list field).

(** * The pre-flight check *)

Definition populate_check_field (sub : option (nat -> bb_err)) (f : field) : bb_err :=
  match f_type f with
  | BB_TYPE_STR_N | BB_TYPE_REF => BB_ERR_UNSUPPORTED
  | BB_TYPE_OBJ => match sub with None => BB_ERR_NO_SPACE | Some check => check (f_children f) end
  | BB_TYPE_ARR =>
      match sub with
      | None => BB_ERR_NO_SPACE
      | Some check =>
          match f_cardinality f with
          | BB_ARR_STREAM => BB_ERR_UNSUPPORTED
          | BB_ARR_FIXED =>
              if (f_max_items f =? 0)%nat then BB_ERR_INVALID_ARG else
              if bool_decide (f_elem_type f = BB_TYPE_OBJ) then check (f_children f) else BB_OK
          end
      end
  | _ => BB_OK
  end.
Fixpoint first_err (check : field -> bb_err) (fs : list field) : bb_err :=
  match fs with
  | [] => BB_OK
  | f :: rest => if is_ok (check f) then first_err check rest else check f
  end.
(** [rem = BB_SERIALIZE_MAX_DEPTH - depth]. *)
Fixpoint populate_check_fields (rem : nat) (tbl : nat) : bb_err :=
  first_err (populate_check_field (match rem with O => None | S rem' => Some (populate_check_fields rem') end)) (tables tbl).

(** * The scatter *)

Section Scatter.
Context {S : Type} (src : populate_src S).
(** The code, the memory and the source's state. *)
Definition scatter : Type := bb_err * mem * S.

(** [items[written..n)] of an array of objects, [n] = [left] + written. *)
Fixpoint populate_objs (sub : nat -> Z -> mem -> S -> scatter) (f : field) (base : Z) (left written : nat) (m : mem) (s : S)
  : bb_err * mem * S * nat :=
  match left with
  | O => (BB_OK, m, s, written)
  | Datatypes.S left' =>
      let '(ok, s1) := src_begin_obj src None s in
      if ok : bool then
        let '(rc, m1, s2) := sub (f_children f) (base + Z.of_nat written * f_elem_size f) m s1 in
        let s3 := src_end_obj src s2 in
        if is_ok rc then populate_objs sub f base left' (Datatypes.S written) m1 s3 else (rc, m1, s3, written)
      else (BB_OK, m, s1, written)
  end.

(** The same of an array of [char *] buffers. *)
Fixpoint populate_strs (f : field) (items : Z) (left written : nat) (m : mem) (s : S) : mem * S * nat :=
  match left with
  | O => (m, s, written)
  | Datatypes.S left' =>
      let buf := mread_u m (items + Z.of_nat (written * ptr_size)) ptr_size in
      let '(data, s1) := src_get_str src None (f_max_len f) s in
      match data with
      | Some data => populate_strs f items left' (Datatypes.S written) (mwrite m buf data) s1
      | None => (m, s1, written)
      end
  end.

Definition store (m : mem) (p : Z) (n : nat) (v : option Z) : mem :=
  match v with Some v => mwrite m p (le_bytes n v) | None => m end.
(** [memcpy(p, &arr, sizeof(arr))]. *)
Definition store_arr (m : mem) (p items count : Z) : mem :=
  mwrite m p (le_bytes ptr_size items ++ le_bytes ptr_size count).

Definition populate_arr (sub : nat -> Z -> mem -> S -> scatter) (f : field) (p : Z) (m : mem) (s : S) : scatter :=
  match src_begin_arr src (f_key f) s with
  | (None, s1) => (BB_OK, m, s1)
  | (Some count, s1) =>
      let items := mread_u m p ptr_size in
      let n := if items =? 0 then 0%nat else Nat.min count (f_max_items f) in
      if bool_decide (f_elem_type f = BB_TYPE_OBJ) then
        let '(rc, m1, s2, written) := populate_objs sub f items n 0 m s1 in
        if is_ok rc then (BB_OK, store_arr m1 p items (Z.of_nat written), src_end_arr src s2)
        else (rc, m1, src_end_arr src s2)
      else
        let '(m1, s2, written) := populate_strs f items n 0 m s1 in
        (BB_OK, store_arr m1 p items (Z.of_nat written), src_end_arr src s2)
  end.

Definition populate_field (sub : option (nat -> Z -> mem -> S -> scatter)) (dst : Z) (f : field) (m : mem) (s : S) : scatter :=
  let p := dst + f_offset f in
  match f_type f with
  | BB_TYPE_I64 => (BB_OK, store m p 8 (option_map u64 (src_get_i64 src (f_key f) s)), s)
  | BB_TYPE_U64 => (BB_OK, store m p 8 (src_get_u64 src (f_key f) s), s)
  | BB_TYPE_F64 => (BB_OK, store m p 8 (option_map d_to_bits (src_get_f64 src (f_key f) s)), s)
  | BB_TYPE_BOOL => (BB_OK, store m p 1 (option_map Z.b2z (src_get_bool src (f_key f) s)), s)
  | BB_TYPE_STR =>
      let '(data, s1) := src_get_str src (f_key f) (f_max_len f) s in
      (BB_OK, match data with Some data => mwrite m p data | None => m end, s1)
  | BB_TYPE_STR_N | BB_TYPE_REF => (BB_OK, m, s)
  | BB_TYPE_OBJ =>
      match sub with
      | None => (BB_ERR_NO_SPACE, m, s)
      | Some sub =>
          let '(ok, s1) := src_begin_obj src (f_key f) s in
          if ok : bool then
            let '(rc, m1, s2) := sub (f_children f) p m s1 in (rc, m1, src_end_obj src s2)
          else (BB_OK, m, s1)
      end
  | BB_TYPE_ARR => match sub with None => (BB_ERR_NO_SPACE, m, s) | Some sub => populate_arr sub f p m s end
  end.

Fixpoint scatter_all (one : field -> mem -> S -> scatter) (fs : list field) (m : mem) (s : S) : scatter :=
  match fs with
  | [] => (BB_OK, m, s)
  | f :: rest => let '(rc, m1, s1) := one f m s in if is_ok rc then scatter_all one rest m1 s1 else (rc, m1, s1)
  end.
Fixpoint populate_fields (rem : nat) (tbl : nat) (dst : Z) (m : mem) (s : S) : scatter :=
  scatter_all (populate_field (match rem with O => None | Datatypes.S rem' => Some (populate_fields rem') end) dst) (tables tbl) m s.

(** [dst]: its address, 0 for NULL; [src_ok]: the source is not NULL. *)
Definition bb_serialize_populate (desc : option serialize_desc) (dst : Z) (src_ok : bool) (m : mem) (s : S) : scatter :=
  match desc with
  | None => (BB_ERR_INVALID_ARG, m, s)
  | Some d =>
      if (dst =? 0) || negb src_ok then (BB_ERR_INVALID_ARG, m, s) else
      let rc := populate_check_fields BB_SERIALIZE_MAX_DEPTH (sd_fields d) in
      if is_ok rc then populate_fields BB_SERIALIZE_MAX_DEPTH (sd_fields d) dst m s else (rc, m, s)
  end.
End Scatter.
End Populate.

(** * The JSON source *)

Section JsonSource.
Context (r : recorder).

(** A frame: the container's token and the next unread element. *)
Definition populate_frame : Type := option nat * nat.
(** [stack[0..depth]], the top first. *)
Record populate_state := mk_pst { ps_top : populate_frame; ps_below : list populate_frame }.

(** The member of the current object; a NULL key does not occur here. *)
Definition member (key : key_t) (st : populate_state) : option nat :=
  bb_serialize_json_tok_obj_get r (ps_top st).1 (default [] key).

Definition populate_get_i64 (key : key_t) (st : populate_state) : option Z := bb_serialize_json_tok_get_i64 r (member key st).
Definition populate_get_u64 (key : key_t) (st : populate_state) : option Z :=
  option_map u64 (bb_serialize_json_tok_get_i64 r (member key st)).
Definition populate_get_f64 (key : key_t) (st : populate_state) : option spec_float := bb_serialize_json_tok_get_f64 r (member key st).
Definition populate_get_bool (key : key_t) (st : populate_state) : option bool := bb_serialize_json_tok_get_bool r (member key st).

(** By key, or the next element of the current array. *)
Definition next_tok (key : key_t) (st : populate_state) : option nat * populate_state :=
  match key with
  | Some _ => (member key st, st)
  | None => (bb_serialize_json_tok_arr_at r (ps_top st).1 (ps_top st).2,
             mk_pst ((ps_top st).1, S (ps_top st).2) (ps_below st))
  end.
Definition populate_get_str (key : key_t) (cap : nat) (st : populate_state) : option (list byte) * populate_state :=
  let '(tok, st1) := next_tok key st in
  (option_map (take cap) (bb_serialize_json_tok_get_str r tok), st1).

Definition push (tok : option nat) (st : populate_state) : populate_state := mk_pst (tok, 0%nat) (ps_top st :: ps_below st).
Definition populate_begin_obj (key : key_t) (st : populate_state) : bool * populate_state :=
  let '(tok, st1) := next_tok key st in
  if negb (bb_serialize_json_tok_is_obj r tok) then (false, st1) else
  if (BB_SERIALIZE_MAX_DEPTH <=? length (ps_below st1))%nat then (false, st1) else (true, push tok st1).
Definition populate_begin_arr (key : key_t) (st : populate_state) : option nat * populate_state :=
  let tok := member key st in
  if negb (bb_serialize_json_tok_is_arr r tok) then (None, st) else
  if (BB_SERIALIZE_MAX_DEPTH <=? length (ps_below st))%nat then (None, st) else
  (Some (Z.to_nat (bb_serialize_json_tok_arr_size r tok)), push tok st).
Definition pop (st : populate_state) : populate_state :=
  match ps_below st with [] => st | top :: rest => mk_pst top rest end.
Definition populate_end_obj : populate_state -> populate_state := pop.
Definition populate_end_arr : populate_state -> populate_state := pop.

Definition json_source : populate_src populate_state :=
  mk_src populate_get_i64 populate_get_u64 populate_get_f64 populate_get_bool populate_get_str
    populate_begin_obj populate_end_obj populate_begin_arr populate_end_arr.
(** The cursor at the root and the vtable. *)
Definition bb_serialize_json_populate_from_tok : populate_state * populate_src populate_state :=
  (mk_pst (bb_serialize_json_tok_root r, 0%nat) [], json_source).
End JsonSource.
