(* ===== verification/Scatter.v ===== *)
(** What populate does to the caller's memory: the pre-flight check predicts the
    whole scatter, and the bytes of a destination (its footprint), which a
    sequence of writers over disjoint parts changes and nothing else. *)
From Stdlib Require Import Strings.String.
From S2P Require Import Prelude Bytes Num Float Walk JsonScan Tok Populate.

(** * The pre-flight check *)

Section Preflight.
Context (ptr_size : nat) (tables : nat -> list field) {S : Type} (src : populate_src S).

Lemma objs_ok sub f base : (forall d m s, exists m' s', sub (f_children f) d m s = (BB_OK, m', s')) ->
  forall left written m s, exists m' s' w, populate_objs src sub f base left written m s = (BB_OK, m', s', w).
Proof.
  intros Hsub left. induction left as [|left IH]; intros written m s; cbn [populate_objs]; [eauto|].
  destruct (src_begin_obj src None s) as [[] s1]; [|eauto].
  destruct (Hsub (base + Z.of_nat written * f_elem_size f) m s1) as (m1 & s2 & ->). apply IH.
Qed.

Lemma check_sound rem : forall tbl dst m s, populate_check_fields tables rem tbl = BB_OK ->
  exists m' s', populate_fields ptr_size tables src rem tbl dst m s = (BB_OK, m', s').
Proof.
  induction rem as [|rem IH]; intros tbl dst m s Hc; cbn [populate_fields populate_check_fields] in *;
    revert m s; induction (tables tbl) as [|f fs IHf]; intros m s; cbn [scatter_all first_err] in *; try (by eauto);
    destruct (is_ok (populate_check_field _ f)) eqn:Ef; try (by rewrite Hc in Ef);
    apply is_ok_true in Ef; specialize (IHf Hc).
  - assert (exists m1 s1, populate_field ptr_size src None dst f m s = (BB_OK, m1, s1)) as (m1 & s1 & ->).
    { unfold populate_check_field, populate_field in *. destruct (f_type f); try done; eauto.
      destruct (src_get_str src (f_key f) (f_max_len f) s). eauto. }
    cbn [is_ok]. apply IHf.
  - assert (exists m1 s1, populate_field ptr_size src (Some (populate_fields ptr_size tables src rem)) dst f m s = (BB_OK, m1, s1)) as (m1 & s1 & ->).
    { unfold populate_check_field, populate_field in *. destruct (f_type f); try done; eauto.
      - destruct (src_get_str src (f_key f) (f_max_len f) s). eauto.
      - destruct (src_begin_obj src (f_key f) s) as [[] s1]; [|eauto].
        destruct (IH (f_children f) (dst + f_offset f) m s1 Ef) as (m1 & s2 & ->). eauto.
      - destruct (f_cardinality f); [|done]. destruct (f_max_items f =? 0)%nat; [done|].
        unfold populate_arr. destruct (src_begin_arr src (f_key f) s) as [[count|] s1]; [|eauto].
        case_bool_decide.
        + edestruct (objs_ok (populate_fields ptr_size tables src rem) f) as (m1 & s2 & w & ->); [|eauto].
          intros. by apply IH.
        + destruct (populate_strs _ _ _ _ _ _ _ _) as [[m1 s2] w]. eauto. }
    cbn [is_ok]. apply IHf.
Qed.

Lemma populate_outcome desc dst src_ok m s :
  let r := bb_serialize_populate ptr_size tables src desc dst src_ok m s in
  match desc with
  | Some d =>
      if (dst =? 0) || negb src_ok then r = (BB_ERR_INVALID_ARG, m, s) else
      let rc := populate_check_fields tables BB_SERIALIZE_MAX_DEPTH (sd_fields d) in
      if is_ok rc then r.1.1 = BB_OK else r = (rc, m, s)
  | None => r = (BB_ERR_INVALID_ARG, m, s)
  end.
Proof.
  cbv zeta. unfold bb_serialize_populate. destruct desc as [d|]; [|done]. destruct (_ || _); [done|].
  destruct (is_ok (populate_check_fields tables BB_SERIALIZE_MAX_DEPTH (sd_fields d))) eqn:E; [|done].
  apply is_ok_true in E. by destruct (check_sound _ _ dst m s E) as (m' & s' & ->).
Qed.
End Preflight.

(** C13: the pre-flight check of bb_serialize_populate decides the outcome before
    anything is written.  A NULL argument, or a descriptor with a field that
    populate cannot scatter (a pointer string, a reference, a streamed array, an
    array without room, a container below the last level), gives the error and
    leaves the memory and the source as they were; otherwise the scatter runs to
    the end and answers BB_OK, whatever the source answers.  The check is the
    code's own guard on recursion, so this holds for tables that point back to
    themselves. *)
Theorem populate_all_or_nothing (ptr_size : nat) (tables : nat -> list field) {S : Type} (src : populate_src S)
    (desc : option serialize_desc) (dst : Z) (src_ok : bool) (m : mem) (s : S) :
  let r := bb_serialize_populate ptr_size tables src desc dst src_ok m s in
  match desc with
  | Some d =>
      if (dst =? 0) || negb src_ok then r = (BB_ERR_INVALID_ARG, m, s) else
      let rc := populate_check_fields tables BB_SERIALIZE_MAX_DEPTH (sd_fields d) in
      if is_ok rc then r.1.1 = BB_OK else r = (rc, m, s)
  | None => r = (BB_ERR_INVALID_ARG, m, s)
  end.
Proof. apply populate_outcome. Qed.

(** * Footprints *)

(** A sequence of writers over disjoint regions.  [foot m x]: the bytes of [x]
    in [m]; [val m x]: what is read from them; [stable m x]: the reading needs
    no other byte. *)
Section Chain.
Context {X V : Type} (foot : mem -> X -> Z -> Prop) (rdy : mem -> X -> Prop) (val : mem -> X -> V).
Context (one : X -> mem -> mem -> Prop) (goal : X -> V).

Definition stable (m : mem) (x : X) : Prop := forall m', agree (foot m x) m m' -> val m' x = val m x.
Record written (x : X) (m m' : mem) : Prop := {
  wr_one : one x m m';
  wr_frame a : ~ foot m x a -> m' a = m a;
  wr_foot a : foot m' x a <-> foot m x a;
  wr_val : val m' x = goal x;
  wr_stable : stable m' x
}.

(** A footprint depends on its own bytes only, and so does readiness. *)
Definition foot_local : Prop := forall m m' x, agree (foot m x) m m' -> forall a, foot m' x a <-> foot m x a.
Definition rdy_local : Prop := forall m m' x, rdy m x -> agree (foot m x) m m' -> rdy m' x.

Inductive chain : list X -> mem -> mem -> Prop :=
  | chain_nil m : chain [] m m
  | chain_cons x xs m m1 m2 : one x m m1 -> chain xs m1 m2 -> chain (x :: xs) m m2.

Fixpoint pairwise (m : mem) (xs : list X) : Prop :=
  match xs with [] => True | x :: rest => Forall (fun y => disj (foot m x) (foot m y)) rest /\ pairwise m rest end.

Record all_written (xs : list X) (m m' : mem) : Prop := {
  aw_chain : chain xs m m';
  aw_frame a : Forall (fun x => ~ foot m x a) xs -> m' a = m a;
  aw_each : Forall (fun x => (forall a, foot m' x a <-> foot m x a) /\ val m' x = goal x /\ stable m' x) xs
}.

Lemma disj_agree m m1 x y : disj (foot m x) (foot m y) -> (forall a, ~ foot m x a -> m1 a = m a) -> agree (foot m y) m m1.
Proof. intros Hd Hf a Ha. apply Hf. intros Hx. by apply (Hd a). Qed.

Lemma pairwise_agree (Hl : foot_local) m m1 xs : (forall x, x ∈ xs -> agree (foot m x) m m1) -> pairwise m xs -> pairwise m1 xs.
Proof.
  induction xs as [|y ys IHy]; [done|]. intros Hag [Hy Hp]. split.
  - rewrite Forall_forall in Hy |- *. intros z Hz a Ha Hza. apply (Hy z Hz a).
    + apply (Hl m m1 y); [apply Hag; left|done].
    + apply (Hl m m1 z); [apply Hag; by right|done].
  - apply IHy; [|done]. intros z Hz. apply Hag. by right.
Qed.

Lemma chain_written (Hl : foot_local) (Hrl : rdy_local) xs : forall m, pairwise m xs -> Forall (rdy m) xs ->
  (forall x m, x ∈ xs -> rdy m x -> exists m', written x m m') -> exists m', all_written xs m m'.
Proof.
  induction xs as [|x xs IH]; intros m Hp Hr Hone.
  - exists m. split; [constructor|done|constructor].
  - destruct Hp as [Hx Hp]. inversion_clear Hr. destruct (Hone x m ltac:(left) H) as [m1 Hw]. rewrite Forall_forall in Hx, H0.
    assert (Hag : forall y, y ∈ xs -> agree (foot m y) m m1).
    { intros y Hy. eapply disj_agree; [by apply Hx|apply Hw]. }
    assert (Hloc : forall y, y ∈ xs -> forall a, foot m1 y a <-> foot m y a) by (intros y Hy; by apply Hl, Hag).
    destruct (IH m1) as [m' [Hc Hf He]].
    + by apply (pairwise_agree Hl m).
    + apply Forall_forall. intros y Hy. apply (Hrl m); [by apply H0|by apply Hag].
    + intros y m0 Hy. apply Hone. by right.
    + exists m'. assert (Hagx : agree (foot m1 x) m1 m').
      { intros a Ha. apply Hf, Forall_forall. intros y Hy Hya. apply (wr_foot _ _ _ Hw) in Ha. apply (Hloc y Hy) in Hya.
        by apply (Hx y Hy a). }
      assert (Hfx : forall a, foot m' x a <-> foot m1 x a) by (by apply Hl).
      split.
      * econstructor; [apply Hw|done].
      * intros a Ha. inversion_clear Ha. rewrite Hf; [by apply Hw|]. rewrite Forall_forall in H2 |- *.
        intros y Hy Hya. apply (H2 y Hy). by apply Hloc.
      * constructor.
        -- split_and!.
           ++ intros a. rewrite Hfx. apply Hw.
           ++ rewrite (wr_stable _ _ _ Hw m' Hagx). apply Hw.
           ++ intros m2 Hm2. rewrite (wr_stable _ _ _ Hw m' Hagx). apply (wr_stable _ _ _ Hw).
              intros a Ha. rewrite Hm2 by (by apply Hfx). by apply Hagx.
        -- rewrite Forall_forall in He |- *. intros y Hy. destruct (He y Hy) as (E1 & E2 & E3). split_and!; [|done|done].
           intros a. rewrite E1. by apply Hloc.
Qed.
End Chain.
Arguments chain_nil {X one}. Arguments chain_cons {X one}.

(** ** The destination's own bytes *)

Section Dest.
Context (ptr_size : nat) (tables : nat -> list field) (iter_rows : Z -> Z -> mem -> list snap).

Definition items_at (m : mem) (p : Z) : Z := mread_u m p ptr_size.
Definition buf_at (m : mem) (items : Z) (j : nat) : Z := mread_u m (items + Z.of_nat (j * ptr_size)) ptr_size.
Definition obj_at (f : field) (items : Z) (j : nat) : Z := items + Z.of_nat j * f_elem_size f.
Definition is_obj_arr (f : field) : bool := bool_decide (f_elem_type f = BB_TYPE_OBJ).

(** An element: an object's fields, or a pointer and its buffer. *)
Definition elem_foot (sub : nat -> mem -> Z -> Z -> Prop) (f : field) (items : Z) (m : mem) (j : nat) (a : Z) : Prop :=
  if is_obj_arr f then sub (f_children f) m (obj_at f items j) a
  else within (items + Z.of_nat (j * ptr_size)) ptr_size a \/ within (buf_at m items j) (f_max_len f) a.
Definition field_foot (sub : nat -> mem -> Z -> Z -> Prop) (dst : Z) (m : mem) (f : field) (a : Z) : Prop :=
  let p := dst + f_offset f in
  match f_type f with
  | BB_TYPE_I64 | BB_TYPE_U64 | BB_TYPE_F64 => within p 8 a
  | BB_TYPE_BOOL => within p 1 a
  | BB_TYPE_STR => within p (f_max_len f) a
  | BB_TYPE_OBJ => sub (f_children f) m p a
  | BB_TYPE_ARR => within p (2 * ptr_size) a \/
      exists j, (j < f_max_items f)%nat /\ elem_foot sub f (items_at m p) m j a
  | _ => False
  end.
(** No objects below the last level. *)
Definition no_foot : nat -> mem -> Z -> Z -> Prop := fun _ _ _ _ => False.
Definition no_rdy : nat -> mem -> Z -> Prop := fun _ _ _ => True.
Fixpoint fields_foot (rem : nat) (tbl : nat) (m : mem) (dst a : Z) : Prop :=
  exists f, f ∈ tables tbl /\ field_foot (match rem with O => no_foot | S rem' => fields_foot rem' end) dst m f a.

(** Zeroed text buffers, pre-wired arrays, and no two parts on the same bytes. *)
Definition zero_at (m : mem) (p : Z) (n : nat) : Prop := forall a, within p n a -> m a = x00.
Definition elem_rdy (rsub : nat -> mem -> Z -> Prop) (f : field) (items : Z) (m : mem) (j : nat) : Prop :=
  if is_obj_arr f then rsub (f_children f) m (obj_at f items j)
  else disj (within (items + Z.of_nat (j * ptr_size)) ptr_size) (within (buf_at m items j) (f_max_len f)) /\
       buf_at m items j <> 0 /\ zero_at m (buf_at m items j) (f_max_len f).
Definition field_rdy (sub : nat -> mem -> Z -> Z -> Prop) (rsub : nat -> mem -> Z -> Prop) (dst : Z) (m : mem) (f : field) : Prop :=
  let p := dst + f_offset f in
  match f_type f with
  | BB_TYPE_STR => zero_at m p (f_max_len f)
  | BB_TYPE_OBJ => rsub (f_children f) m p
  | BB_TYPE_ARR =>
      let items := items_at m p in
      items <> 0 /\ Z.of_nat (f_max_items f) < 256 ^ Z.of_nat ptr_size /\
      Forall (fun j => elem_rdy rsub f items m j /\ disj (within p (2 * ptr_size)) (elem_foot sub f items m j)) (seq 0 (f_max_items f)) /\
      pairwise (elem_foot sub f items) m (seq 0 (f_max_items f))
  | _ => True
  end.
Fixpoint fields_rdy (rem : nat) (tbl : nat) (m : mem) (dst : Z) : Prop :=
  let sub := match rem with O => no_foot | S rem' => fields_foot rem' end in
  Forall (field_rdy sub (match rem with O => no_rdy | S rem' => fields_rdy rem' end) dst m) (tables tbl) /\
  pairwise (field_foot sub dst) m (tables tbl).

(** ** Locality *)

Definition sub_local (sub : nat -> mem -> Z -> Z -> Prop) : Prop := forall tbl dst, foot_local (fun m (_ : unit) => sub tbl m dst).

Lemma agree_weaken (P Q : Z -> Prop) m m' : (forall a, Q a -> P a) -> agree P m m' -> agree Q m m'.
Proof. intros H Ha a HQ. by apply Ha, H. Qed.

Lemma elem_foot_local sub f items : sub_local sub -> foot_local (elem_foot sub f items).
Proof.
  intros Hs m m' j Ha a. unfold elem_foot in *. destruct (is_obj_arr f).
  - by apply (Hs (f_children f) (obj_at f items j) m m' tt).
  - unfold buf_at. rewrite (mread_u_agree m); [done|]. intros b Hb. apply Ha. by left.
Qed.
Lemma field_foot_local sub dst : sub_local sub -> foot_local (field_foot sub dst).
Proof.
  intros Hs m m' f Ha a. unfold field_foot in *. destruct (f_type f); try done.
  - by apply (Hs (f_children f) (dst + f_offset f) m m' tt).
  - assert (Hi : items_at m' (dst + f_offset f) = items_at m (dst + f_offset f)).
    { apply mread_u_agree. intros b Hb. apply Ha. left. unfold within in *. lia. }
    rewrite Hi. split; (intros [H|(j & Hj & H)]; [by left|right; exists j; split; [done|]]);
      (eapply (elem_foot_local sub f (items_at m (dst + f_offset f)) Hs m m' j); [|done]);
      intros b Hb; apply Ha; right; by exists j.
Qed.
Lemma table_foot_local sub (fs : list field) dst m m' : sub_local sub ->
  agree (fun a => exists f, f ∈ fs /\ field_foot sub dst m f a) m m' ->
  forall a, (exists f, f ∈ fs /\ field_foot sub dst m' f a) <-> exists f, f ∈ fs /\ field_foot sub dst m f a.
Proof.
  intros Hs Ha a. split; intros (f & Hf & H); exists f; (split; [done|]);
    (eapply (field_foot_local _ _ Hs m m'); [|done]); intros b Hb; apply Ha; by exists f.
Qed.
Lemma no_foot_local : sub_local no_foot.
Proof. done. Qed.
Lemma fields_foot_local rem : sub_local (fields_foot rem).
Proof.
  induction rem as [|rem IH]; intros tbl dst m m' _ Ha a; cbn [fields_foot] in *; by apply table_foot_local.
Qed.

Definition rsub_local (sub : nat -> mem -> Z -> Z -> Prop) (rsub : nat -> mem -> Z -> Prop) : Prop :=
  forall tbl m m' dst, rsub tbl m dst -> agree (sub tbl m dst) m m' -> rsub tbl m' dst.

Lemma elem_rdy_local sub rsub f items m m' j : rsub_local sub rsub -> elem_rdy rsub f items m j ->
  agree (elem_foot sub f items m j) m m' -> elem_rdy rsub f items m' j.
Proof.
  intros Hr. unfold elem_rdy, elem_foot. destruct (is_obj_arr f); [apply Hr|]. intros (H1 & H2 & H3) Ha.
  assert (Hb : buf_at m' items j = buf_at m items j) by (apply mread_u_agree; intros b Hb; apply Ha; by left).
  rewrite Hb. split; [done|]. split; [done|]. intros a Hin. rewrite Ha by (by right). by apply H3.
Qed.

Lemma field_rdy_local sub rsub dst m m' f : sub_local sub -> rsub_local sub rsub -> field_rdy sub rsub dst m f ->
  agree (field_foot sub dst m f) m m' -> field_rdy sub rsub dst m' f.
Proof.
  intros Hs Hr. unfold field_rdy, field_foot. destruct (f_type f); try done.
  - intros H Ha a Hin. rewrite Ha by done. by apply H.
  - apply Hr.
  - intros (H1 & H2 & H3 & H4) Ha.
    assert (Hi : items_at m' (dst + f_offset f) = items_at m (dst + f_offset f)).
    { apply mread_u_agree. intros b Hb. apply Ha. left. unfold within in *. lia. }
    assert (Hel : forall j, (j < f_max_items f)%nat -> agree (elem_foot sub f (items_at m (dst + f_offset f)) m j) m m').
    { intros j Hj b Hb. apply Ha. right. by exists j. }
    rewrite Hi. split; [done|]. split; [done|]. split.
    + rewrite Forall_forall in H3 |- *. intros j Hj. destruct (H3 j Hj) as [E1 E2]. apply elem_of_seq in Hj. split.
      * apply (elem_rdy_local sub rsub f _ m m' j Hr E1). apply Hel. lia.
      * intros a Hw Hef. apply (E2 a Hw). eapply (elem_foot_local sub f _ Hs m m' j); [apply Hel; lia|done].
    + apply (pairwise_agree _ (elem_foot_local sub f _ Hs) m m'); [|done]. intros j Hj%elem_of_seq. apply Hel. lia.
Qed.
Lemma table_rdy_local sub rsub (fs : list field) dst m m' : sub_local sub -> rsub_local sub rsub ->
  Forall (field_rdy sub rsub dst m) fs /\ pairwise (field_foot sub dst) m fs ->
  agree (fun a => exists f, f ∈ fs /\ field_foot sub dst m f a) m m' ->
  Forall (field_rdy sub rsub dst m') fs /\ pairwise (field_foot sub dst) m' fs.
Proof.
  intros Hs Hr [H1 H2] Ha. split.
  - rewrite Forall_forall in H1 |- *. intros f Hf. eapply (field_rdy_local sub rsub dst m m' f Hs Hr); [by apply H1|].
    intros b Hb. apply Ha. by exists f.
  - apply (pairwise_agree _ (field_foot_local sub dst Hs) m m'); [|done]. intros f Hf b Hb. apply Ha. by exists f.
Qed.
Lemma no_rdy_local : rsub_local no_foot no_rdy.
Proof. done. Qed.
Lemma fields_rdy_local rem : rsub_local (fields_foot rem) (fields_rdy rem).
Proof.
  induction rem as [|rem IH]; intros tbl m m' dst; cbn [fields_rdy fields_foot]; intros H Ha;
    eapply table_rdy_local; try done; auto using no_foot_local, no_rdy_local, fields_foot_local.
Qed.
End Dest.
