(* ===== verification/PopulateBack.v ===== *)
(** A document the writer printed comes back as the snapshot it was printed
    from: the walk, the writer, the scanner, the token recorder and populate
    composed. *)
From Stdlib Require Import Strings.String.
From S2P Require Import Prelude Bytes Num Float Walk JsonWrite JsonScan ScanBytes ScanSafe ScanDoc ScanSim Tok TokTree Populate Scatter.


(** * What a snapshot must be like to come back *)

(** ** The document the writer prints *)

Fixpoint dval (short : bool) (v : jval) : doc :=
  match v with
  | JNull => DLeaf DNull
  | JBool b => DLeaf (DBool b)
  | JI64 x => DLeaf (DNum (dec_i64 x))
  | JU64 x => DLeaf (DNum (dec_u64 x))
  | JF64 bits => DLeaf (if decide (print_f64 short bits = bs "null") then DNull else DNum (print_f64 short bits))
  | JStr s => DLeaf (DStr s)
  | JArr vs => DNode true (map (fun v => ([], dval short v)) vs)
  | JObj ms => DNode false (map (fun m => (default [] m.1, dval short m.2)) ms)
  end.

Section DocInd.
Context (P : doc -> Prop) (Hleaf : forall l, P (DLeaf l))
  (Hnode : forall arr cs, Forall (fun c : list byte * doc => P c.2) cs -> P (DNode arr cs)).
Fixpoint doc_rec' (d : doc) : P d :=
  match d with
  | DLeaf l => Hleaf l
  | DNode arr cs => Hnode arr cs ((fix go (cs : list (list byte * doc)) : Forall (fun c : list byte * doc => P c.2) cs :=
      match cs with [] => Forall_nil_2 _ | c :: cs' => Forall_cons_2 _ _ _ (doc_rec' c.2) (go cs') end) cs)
  end.
End DocInd.
Section JvalInd.
Context (P : jval -> Prop) (Hleaf : forall v, match v with JArr _ | JObj _ => False | _ => True end -> P v)
  (Harr : forall vs, Forall P vs -> P (JArr vs)) (Hobj : forall ms, Forall (fun m : key_t * jval => P m.2) ms -> P (JObj ms)).
Fixpoint jval_rec' (v : jval) : P v :=
  match v with
  | JArr vs => Harr vs ((fix go vs : Forall P vs :=
      match vs with [] => Forall_nil_2 _ | v :: vs' => Forall_cons_2 _ _ _ (jval_rec' v) (go vs') end) vs)
  | JObj ms => Hobj ms ((fix go ms : Forall (fun m : key_t * jval => P m.2) ms :=
      match ms with [] => Forall_nil_2 _ | m :: ms' => Forall_cons_2 _ _ _ (jval_rec' m.2) (go ms') end) ms)
  | JNull => Hleaf JNull I | JBool b => Hleaf (JBool b) I | JI64 x => Hleaf (JI64 x) I | JU64 x => Hleaf (JU64 x) I
  | JF64 x => Hleaf (JF64 x) I | JStr s => Hleaf (JStr s) I
  end.
End JvalInd.

Lemma seen_key_ev k : seen_key k = ev_key (default [] k).
Proof. by destruct k as [[|]|]. Qed.

Lemma events_dval short v : forall k, events short k v = doc_events k (dval short v).
Proof.
  induction v as [v Hv|vs IH|ms IH] using jval_rec'; intros k.
  - destruct v; try done. cbn. by destruct (decide _).
  - cbn [events dval doc_events]. f_equal. f_equal. f_equal. rewrite map_map. apply map_ext_in. intros v Hv%list_elem_of_In.
    rewrite Forall_forall in IH. cbn. by apply IH.
  - cbn [events dval doc_events]. f_equal. f_equal. f_equal. rewrite map_map. apply map_ext_in. intros m Hm%list_elem_of_In.
    rewrite Forall_forall in IH. cbn. rewrite seen_key_ev. by apply IH.
Qed.

Definition is_end (e : jev) : bool := match e with EvEndObj | EvEndArr => true | _ => false end.
Lemma doc_events_head k d : exists e l, doc_events k d = e :: l /\ is_end e = false.
Proof. destruct d as [[]|[]]; cbn; eexists _, _; (split; [reflexivity|done]). Qed.

Lemma ev_key_inj k k' : ev_key k = ev_key k' -> k = k'.
Proof. destruct k, k'; cbn; congruence. Qed.

Definition kids_events (cs : list (list byte * doc)) : list jev := concat (map (fun c => doc_events (ev_key c.1) c.2) cs).

Lemma kids_events_inj cs :
  Forall (fun c : list byte * doc => forall k d' k' l l', doc_events k c.2 ++ l = doc_events k' d' ++ l' -> k = k' /\ c.2 = d' /\ l = l') cs ->
  forall cs' e l e' l', is_end e = true -> is_end e' = true ->
    kids_events cs ++ e :: l = kids_events cs' ++ e' :: l' -> cs = cs' /\ e = e' /\ l = l'.
Proof.
  induction 1 as [|c cs Hc _ IH]; intros cs' e l e' l' He He' H; destruct cs' as [|c' cs']; cbn in H.
  - by injection H as -> ->.
  - destruct (doc_events_head (ev_key c'.1) c'.2) as (e0 & l0 & E & Hn). rewrite E in H. injection H as -> _. by rewrite Hn in He.
  - destruct (doc_events_head (ev_key c.1) c.2) as (e0 & l0 & E & Hn). rewrite E in H. injection H as <- _. by rewrite Hn in He'.
  - rewrite <- !app_assoc in H. apply Hc in H as (Hk & Hd & H). apply ev_key_inj in Hk.
    destruct (IH cs' e l e' l' He He' H) as (-> & -> & ->). split; [|done]. f_equal. destruct c, c'. cbn in *. by subst.
Qed.

Lemma doc_events_inj d : forall k d' k' l l', doc_events k d ++ l = doc_events k' d' ++ l' -> k = k' /\ d = d' /\ l = l'.
Proof.
  induction d as [lf|arr cs IH] using doc_rec'; intros k d' k' l l' H.
  - destruct d' as [lf'|arr' cs'].
    + destruct lf, lf'; cbn in H; injection H; intros; subst; done.
    + destruct lf, arr'; cbn in H; discriminate H.
  - destruct d' as [lf'|arr' cs'].
    + destruct lf', arr; cbn in H; discriminate H.
    + cbn [doc_events] in H. fold (kids_events cs) in H. fold (kids_events cs') in H. rewrite <- !app_comm_cons in H.
      injection H as Hb H. rewrite <- !app_assoc in H. cbn [app] in H.
      destruct (kids_events_inj cs IH cs' (ev_end arr) l (ev_end arr') l') as (-> & He & ->); [by destruct arr|by destruct arr'|done|].
      destruct arr, arr'; try discriminate; injection Hb as ->; done.
Qed.

(** ** Numbers read back *)

Lemma float_span_digits ds : Forall (fun b => is_digit b = true) ds -> Float.span_digits ds = (ds, []).
Proof. induction 1 as [|d ds Hd _ IH]; [done|]. cbn. by rewrite Hd, IH. Qed.

Lemma strtoll_digits ds : ds <> [] -> Forall (fun b => is_digit b = true) ds -> strtoll ds = Z.min (2 ^ 63 - 1) (dec_value ds).
Proof.
  intros Hn Hd. pose proof (float_span_digits ds Hd) as Hs. unfold strtoll. destruct ds as [|d ds]; [done|]. inversion_clear Hd.
  destruct d; try discriminate H; by rewrite Hs.
Qed.
Lemma strtoll_neg ds : Forall (fun b => is_digit b = true) ds -> strtoll (x2d :: ds) = Z.max (- 2 ^ 63) (- dec_value ds).
Proof. intros Hd. unfold strtoll. by rewrite float_span_digits. Qed.

Lemma exact_digits ds : Forall (fun b => is_digit b = true) ds ->
  existsb (fun b => Byte.eqb b x2e || Byte.eqb b x65 || Byte.eqb b x45) ds = false.
Proof.
  induction 1 as [|d ds Hd _ IH]; [done|]. cbn [existsb]. rewrite IH, orb_false_r. destruct d; try discriminate Hd; reflexivity.
Qed.

Lemma num_u64_back v : 0 <= v < 2 ^ 63 -> num_i64 (dec_u64 v) = v /\ inexact (dec_u64 v) = false.
Proof.
  intros Hv. pose proof (dec_u64_length v) as Hl. pose proof (dec_u64_digits v) as Hd. unfold num_i64, inexact, tok_parse_num.
  rewrite take_ge by (unfold BB_SERIALIZE_JSON_SCRATCH_MAX_BYTES; lia). cbn [snd]. split; [|by apply exact_digits].
  rewrite strtoll_digits; [|by destruct (dec_u64 v); [cbn in Hl; lia|]|done]. rewrite dec_u64_value by lia. lia.
Qed.
(** From 2^63 on, an unsigned value comes back as the largest signed one. *)
Lemma num_u64_saturates v : 2 ^ 63 <= v < 2 ^ 64 ->
  u64 (num_i64 (dec_u64 v)) = 2 ^ 63 - 1 /\ inexact (dec_u64 v) = false.
Proof.
  intros Hv. pose proof (dec_u64_length v) as Hl. pose proof (dec_u64_digits v) as Hd. unfold num_i64, inexact, tok_parse_num.
  rewrite take_ge by (unfold BB_SERIALIZE_JSON_SCRATCH_MAX_BYTES; lia). cbn [snd]. split; [|by apply exact_digits].
  rewrite strtoll_digits; [|by destruct (dec_u64 v); [cbn in Hl; lia|]|done]. rewrite dec_u64_value by lia.
  rewrite Z.min_l by lia. by apply u64_small.
Qed.
Lemma num_i64_back v : - 2 ^ 63 <= v < 2 ^ 63 -> num_i64 (dec_i64 v) = v /\ inexact (dec_i64 v) = false.
Proof.
  intros Hv. unfold dec_i64. destruct (Z.geb_spec v 0); [apply num_u64_back; lia|].
  set (w := u64 (- v)). assert (Hw : w = - v) by (unfold w; apply u64_small; lia).
  pose proof (dec_u64_length w) as Hl. pose proof (dec_u64_digits w) as Hd. unfold num_i64, inexact, tok_parse_num.
  rewrite take_ge by (cbn [length]; unfold BB_SERIALIZE_JSON_SCRATCH_MAX_BYTES; lia). cbn [snd].
  split; [|cbn [existsb]; by apply exact_digits]. rewrite strtoll_neg by done. rewrite dec_u64_value by lia. lia.
Qed.

(** A double whose printed text reads back as the same bits. *)
Definition f64_exact (short : bool) (bits : Z) : Prop :=
  print_f64 short bits <> bs "null" /\ d_to_bits (num_f64 (print_f64 short bits)) = bits.

Section Source.
Context (ptr_size : nat) (tables : nat -> list field) (iter_rows : Z -> Z -> mem -> list snap) (short : bool).

(** The fields that populate supports, with values that survive the text:
    unsigned values below 2^63, exact doubles, arrays of objects or of strings
    within [max_items], no NULL string. *)
Definition field_ok (sub : option (nat -> snap -> Prop)) (s : snap) (f : field) : Prop :=
  let p := snap_plus s (f_offset f) in
  f_present f = None /\
  match f_type f with
  | BB_TYPE_I64 | BB_TYPE_BOOL | BB_TYPE_STR => True
  | BB_TYPE_U64 => rd_u64 p < 2 ^ 63
  | BB_TYPE_F64 => f64_exact short (rd_f64 p)
  | BB_TYPE_OBJ => match sub with Some ok => ok (f_children f) p | None => False end
  | BB_TYPE_ARR =>
      match sub with
      | None => False
      | Some ok =>
          let items := rd_word ptr_size p 0 in
          let count := Z.to_nat (rd_word ptr_size p 1) in
          f_cardinality f = BB_ARR_FIXED /\ (is_obj_arr f = false -> f_elem_type f = BB_TYPE_STR) /\
          (items <> 0 -> (count <= f_max_items f)%nat /\
             Forall (fun j =>
               if is_obj_arr f then ok (f_children f) (mk_snap (s_mem p) (obj_at f items j))
               else buf_at ptr_size (s_mem p) items j <> 0) (seq 0 count))
      end
  | BB_TYPE_STR_N | BB_TYPE_REF => False
  end.
(** Keys tell the members apart. *)
Fixpoint fields_ok (rem : nat) (tbl : nat) (s : snap) : Prop :=
  NoDup (map (fun f => default [] (f_key f)) (tables tbl)) /\
  Forall (fun f => exists k, f_key f = Some k) (tables tbl) /\
  Forall (field_ok (match rem with O => None | S rem' => Some (fields_ok rem') end) s) (tables tbl).

Abbreviation valsub rem := (match rem with O => None | S rem' => Some (fields_value ptr_size tables iter_rows None rem') end).
Definition fval (sub : option (nat -> snap -> list (key_t * jval))) (s : snap) (f : field) : jval :=
  match field_value ptr_size iter_rows None sub s f with (_, v) :: _ => v | [] => JNull end.

(** Such a field is one member of every snapshot. *)
Lemma field_ok_member sub s f (ok : option (nat -> snap -> Prop)) : (ok = None <-> sub = None) -> field_ok ok s f ->
  forall s', field_value ptr_size iter_rows None sub s' f = [(f_key f, fval sub s' f)].
Proof.
  intros Hs [Hp Hf] s'. unfold fval, field_value. rewrite Hp. destruct (f_type f); try done.
  destruct sub; [done|]. rewrite (proj2 Hs eq_refl) in Hf. done.
Qed.

Lemma members_of sub s fs ok : (ok = None <-> sub = None) -> Forall (field_ok ok s) fs ->
  forall s', concat (map (field_value ptr_size iter_rows None sub s') fs) = map (fun f => (f_key f, fval sub s' f)) fs.
Proof. intros Hs. induction 1 as [|f fs Hf _ IH]; intros s'; [done|]. cbn. by rewrite (field_ok_member sub s f ok Hs Hf), IH. Qed.
End Source.

(** ** Looking members up *)

Lemma key_lookup_holds r cs : forall kids, length kids = length cs -> holds_all r cs kids -> NoDup (map fst cs) ->
  forall c, c ∈ cs -> exists k, key_lookup c.1 kids cs = Some k /\ holds r c.2 k.
Proof.
  induction cs as [|c cs IH]; intros [|k kids] Hl Hh Hn c' Hc; try done; [by apply elem_of_nil in Hc|].
  cbn in Hl, Hh, Hn. injection Hl as Hl. destruct Hh as [Hh1 Hh]. apply NoDup_cons in Hn as [Hn1 Hn].
  apply elem_of_cons in Hc as [->|Hc]; cbn [key_lookup].
  - rewrite bool_decide_true by done. by exists k.
  - rewrite bool_decide_false; [by apply IH|]. intros E. apply Hn1. rewrite E. apply list_elem_of_fmap. by exists c'.
Qed.

Definition supplied (r : recorder) (i : nat) (key : key_t) (d : doc) : Prop :=
  exists kid, bb_serialize_json_tok_obj_get r (Some i) (default [] key) = Some kid /\ holds r d kid.

Lemma object_supplies r i short (ms : list (key_t * jval)) : holds r (dval short (JObj ms)) i ->
  NoDup (map (fun m => default [] m.1) ms) -> forall m, m ∈ ms -> supplied r i m.1 (dval short m.2).
Proof.
  intros (kids & Hl & Hh & _ & Hget) Hn m Hm.
  destruct (key_lookup_holds r _ kids Hl Hh) with (c := (default [] m.1, dval short m.2)) as (k & Hk & Hd).
  - rewrite map_map. done.
  - apply list_elem_of_fmap. by exists m.
  - exists k. split; [|done]. by rewrite Hget.
Qed.

(** ** Scalars in memory *)

Lemma pow256_8 : 256 ^ Z.of_nat 8 = 2 ^ 64.
Proof. reflexivity. Qed.
Lemma rd_u64_written m p v : 0 <= v < 2 ^ 64 -> rd_u64 (mk_snap (mwrite m p (le_bytes 8 v)) p) = v.
Proof. intros H. unfold rd_u64. cbn [s_mem s_addr]. apply mread_u_mwrite. by rewrite pow256_8. Qed.
Lemma to_signed_u64 v : - 2 ^ 63 <= v < 2 ^ 63 -> to_signed 64 (u64 v) = v.
Proof.
  intros H. unfold to_signed. replace (64 - 1) with 63 by lia. destruct (Z.ltb_spec v 0) as [Hv|Hv].
  - replace (u64 v) with (v + 2 ^ 64); [destruct (Z.ltb_spec (v + 2 ^ 64) (2 ^ 63)); lia|].
    unfold u64. rewrite <- (Z_mod_plus_full v 1). symmetry. apply Z.mod_small. lia.
  - rewrite u64_small by lia. destruct (Z.ltb_spec v (2 ^ 63)); lia.
Qed.
Lemma rd_i64_written m p v : - 2 ^ 63 <= v < 2 ^ 63 -> rd_i64 (mk_snap (mwrite m p (le_bytes 8 (u64 v))) p) = v.
Proof.
  intros H. unfold rd_i64. cbn [s_mem s_addr]. rewrite mread_u_mwrite; [by apply to_signed_u64|]. rewrite pow256_8. apply u64_range.
Qed.
Lemma rd_range s : 0 <= rd_u64 s < 2 ^ 64.
Proof. unfold rd_u64, mread_u. pose proof (le_value_range (mread (s_mem s) (s_addr s) 8)) as H. by rewrite mread_length, pow256_8 in H. Qed.
Lemma rd_i64_range s : - 2 ^ 63 <= rd_i64 s < 2 ^ 63.
Proof. unfold rd_i64. apply (to_signed_range 64); [lia|]. apply rd_range. Qed.

Lemma rd_bool_written m p b : rd_bool (mk_snap (mwrite m p (le_bytes 1 (Z.b2z b))) p) = b.
Proof.
  unfold rd_bool. cbn [s_mem s_addr]. rewrite <- (Z.add_0_r p) at 2. change 0 with (Z.of_nat 0) at 1.
  rewrite mwrite_in by (rewrite le_bytes_length; lia). by destruct b.
Qed.

(** A text over a zeroed buffer. *)
Lemma mread_over_zero m p n s : zero_at m p n -> (length s <= n)%nat -> mread (mwrite m p s) p n = s ++ repeat x00 (n - length s).
Proof.
  intros Hz Hl. apply list_eq. intros i. unfold mread. rewrite list_lookup_fmap. destruct (decide (i < n)%nat) as [H|H].
  - rewrite lookup_seq_lt by done. cbn. destruct (decide (i < length s)%nat) as [H'|H'].
    + rewrite mwrite_in by done. rewrite lookup_app_l by done. destruct (nth_lookup_or_length s i x00) as [->|]; [done|lia].
    + rewrite mwrite_out by (unfold within; lia). rewrite lookup_app_r by lia. rewrite Hz by (unfold within; lia).
      symmetry. apply nth_repeat_lookup. lia.
  - rewrite lookup_seq_ge by lia. cbn. symmetry. apply lookup_ge_None. rewrite length_app, repeat_length. lia.
Qed.
Lemma rd_str_written m p n s : zero_at m p n -> (length s <= n)%nat -> Forall (fun b => b <> x00) s ->
  rd_str (mk_snap (mwrite m p s) p) n = s.
Proof.
  intros Hz Hl Hs. unfold rd_str, strn. cbn [s_mem s_addr]. rewrite take_ge by (by rewrite mread_length).
  rewrite mread_over_zero by done. destruct (n - length s)%nat; cbn [repeat]; [by rewrite app_nil_r, cstr_id|by apply cstr_nul].
Qed.
Lemma rd_str_no_nul s n : Forall (fun b => b <> x00) (rd_str s n).
Proof. apply cstr_no_nul. Qed.
Lemma rd_str_length s n : (length (rd_str s n) <= n)%nat.
Proof. apply strn_length. Qed.

(** * One level *)

Section Level.
Context (ptr_size : nat) (tables : nat -> list field) (iter_rows : Z -> Z -> mem -> list snap) (short : bool) (r : recorder).
Abbreviation scatterer := (nat -> Z -> mem -> populate_state -> bb_err * mem * populate_state).
Abbreviation valuer := (nat -> snap -> list (key_t * jval)).

(** What populating a table of fields does when the source is a given object. *)
Definition level_written (down : scatterer) (value : valuer) (foot : nat -> mem -> Z -> Z -> Prop) (tbl : nat) (s : snap) (dst : Z)
    (st : populate_state) (m m' : mem) : Prop :=
  written (fun m (_ : unit) => foot tbl m dst) (fun m _ => value tbl (mk_snap m dst))
    (fun _ m m' => down tbl dst m st = (BB_OK, m', st)) (fun _ => value tbl s) tt m m'.
Definition level_back (down : scatterer) (value : valuer) (foot : nat -> mem -> Z -> Z -> Prop) (rdy : nat -> mem -> Z -> Prop)
    (ok : nat -> snap -> Prop) : Prop :=
  forall tbl s dst m i n below, ok tbl s -> rdy tbl m dst -> holds r (dval short (JObj (value tbl s))) i ->
    (length below + jdepth (JObj (value tbl s)) <= S BB_SERIALIZE_MAX_DEPTH)%nat ->
    exists m', level_written down value foot tbl s dst (mk_pst (Some i, n) below) m m'.

(** ** Elements *)

Section Elems.
Context (down : scatterer) (value : valuer) (foot : nat -> mem -> Z -> Z -> Prop) (rdy : nat -> mem -> Z -> Prop) (ok : nat -> snap -> Prop).
Context (foot_loc : sub_local foot) (back : level_back down value foot rdy ok).
Context (f : field).

Definition elem_val (items : Z) (m : mem) (j : nat) : jval :=
  if is_obj_arr f then JObj (value (f_children f) (mk_snap m (obj_at f items j)))
  else if buf_at ptr_size m items j =? 0 then JNull
  else JStr (rd_str (mk_snap m (buf_at ptr_size m items j)) (f_max_len f)).
Definition elem_one (ai : nat) (below : list populate_frame) (items : Z) (j : nat) (m m' : mem) : Prop :=
  exists k, bb_serialize_json_tok_arr_at r (Some ai) j = Some k /\
    if is_obj_arr f
    then let st := push (Some k) (mk_pst (Some ai, S j) below) in
         bb_serialize_json_tok_is_obj r (Some k) = true /\ (length below < BB_SERIALIZE_MAX_DEPTH)%nat /\
         down (f_children f) (obj_at f items j) m st = (BB_OK, m', st)
    else exists data, bb_serialize_json_tok_get_str r (Some k) = Some data /\
         m' = mwrite m (buf_at ptr_size m items j) (take (f_max_len f) data).

Lemma array_value_elems p : f_cardinality f = BB_ARR_FIXED -> (is_obj_arr f = false -> f_elem_type f = BB_TYPE_STR) ->
  array_value ptr_size iter_rows (Some value) p f =
  if rd_word ptr_size p 0 =? 0 then [] else
  map (elem_val (rd_word ptr_size p 0) (s_mem p)) (seq 0 (Z.to_nat (rd_word ptr_size p 1))).
Proof.
  intros Hc Ht. unfold array_value. rewrite Hc. cbv zeta. cbn [s_addr]. destruct (_ =? 0); [done|].
  unfold elem_val, is_obj_arr, obj_at in *. destruct (decide (f_elem_type f = BB_TYPE_OBJ)) as [E|E].
  - rewrite bool_decide_true by done. apply map_ext. done.
  - rewrite bool_decide_false in Ht |- * by done. apply concat_map_singleton. intros j. unfold elem_value.
    rewrite (Ht eq_refl). unfold rd_word, buf_at, snap_plus. cbn [s_mem s_addr]. by rewrite Z.add_0_r.
Qed.

Lemma elem_back items ai below sitems sm j k m :
  (if is_obj_arr f then ok (f_children f) (mk_snap sm (obj_at f sitems j)) else buf_at ptr_size sm sitems j <> 0) ->
  elem_rdy ptr_size rdy f items m j -> bb_serialize_json_tok_arr_at r (Some ai) j = Some k ->
  holds r (dval short (elem_val sitems sm j)) k -> (S (length below) + jdepth (elem_val sitems sm j) <= S BB_SERIALIZE_MAX_DEPTH)%nat ->
  exists m', written (elem_foot ptr_size foot f items) (elem_val items) (elem_one ai below items) (elem_val sitems sm) j m m'.
Proof.
  unfold elem_rdy, elem_val, elem_foot, elem_one. destruct (is_obj_arr f) eqn:Eo.
  - intros Hok Hr Hk Hh Hroom.
    destruct (back _ _ _ m k 0%nat ((Some ai, S j) :: below) Hok Hr Hh ltac:(cbn [length]; lia)) as [m' [Ho Hf Hfoot Hv Hst]].
    exists m'. split.
    + exists k. split; [done|]. destruct Hh as (kids & _ & _ & Hob & _). split; [done|]. split; [cbn [jdepth] in Hroom; lia|done].
    + done.
    + done.
    + by rewrite Hv.
    + intros m2 Ha. by rewrite (Hst m2 Ha).
  - intros Hok (Hd & Hn & Hz) Hk Hh _. apply Z.eqb_neq in Hok. rewrite Hok in *. cbn [dval holds shows_leaf] in Hh.
    set (data := rd_str _ _) in *. assert (Hl : (length data <= f_max_len f)%nat) by apply rd_str_length.
    assert (Hb : buf_at ptr_size (mwrite m (buf_at ptr_size m items j) data) items j = buf_at ptr_size m items j).
    { apply mread_u_agree. intros a Ha. apply mwrite_out. intros Hw. apply (Hd a Ha). unfold within in *. lia. }
    exists (mwrite m (buf_at ptr_size m items j) data). split.
    + exists k. split; [done|]. exists data. split; [done|]. by rewrite take_ge by done.
    + intros a Ha. apply mwrite_out. intros Hw. apply Ha. right. unfold within in *. lia.
    + intros a. by rewrite Hb.
    + rewrite Hb, Hok. apply Z.eqb_neq in Hn. rewrite Hn. f_equal. apply rd_str_written; [done..|apply rd_str_no_nul].
    + intros m2 Ha. rewrite Hb in *.
      assert (Hb2 : buf_at ptr_size m2 items j = buf_at ptr_size m items j).
      { rewrite <- Hb. apply mread_u_agree. intros a Hw. apply Ha. by left. }
      rewrite Hb2. apply Z.eqb_neq in Hn. rewrite Hn. f_equal. unfold rd_str. cbn [s_mem s_addr]. f_equal. apply mread_agree.
      intros a Hw. apply Ha. by right.
Qed.

Lemma objs_chain ai below items : is_obj_arr f = true -> forall left w m m', chain (elem_one ai below items) (seq w left) m m' ->
  populate_objs (json_source r) down f items left w m (mk_pst (Some ai, w) below) =
  (BB_OK, m', mk_pst (Some ai, (w + left)%nat) below, (w + left)%nat).
Proof.
  intros Eo. induction left as [|left IH]; intros w m m' Hc; inversion_clear Hc; cbn [populate_objs].
  - by rewrite Nat.add_0_r.
  - destruct H as (k & Hk & H). rewrite Eo in H. destruct H as (Hob & Hlt & Hp).
    cbn [json_source src_begin_obj src_end_obj]. unfold populate_begin_obj, next_tok. cbn [ps_top ps_below fst snd].
    rewrite Hk, Hob. cbn [negb]. destruct (Nat.leb_spec BB_SERIALIZE_MAX_DEPTH (length below)); [lia|].
    unfold obj_at in Hp. rewrite Hp. cbn [is_ok]. unfold populate_end_obj, pop. cbn [push ps_below ps_top].
    rewrite (IH (S w) m1 m' H0). by rewrite Nat.add_succ_r.
Qed.
Lemma strs_chain ai below items : is_obj_arr f = false -> forall left w m m', chain (elem_one ai below items) (seq w left) m m' ->
  populate_strs ptr_size (json_source r) f items left w m (mk_pst (Some ai, w) below) =
  (m', mk_pst (Some ai, (w + left)%nat) below, (w + left)%nat).
Proof.
  intros Eo. induction left as [|left IH]; intros w m m' Hc; inversion_clear Hc; cbn [populate_strs].
  - by rewrite Nat.add_0_r.
  - destruct H as (k & Hk & H). rewrite Eo in H. destruct H as (data & Hg & ->).
    cbn [json_source src_get_str]. unfold populate_get_str, next_tok. cbn [ps_top ps_below fst snd]. rewrite Hk, Hg.
    cbn [option_map]. fold (buf_at ptr_size m items w). rewrite (IH (S w) _ m' H0). by rewrite Nat.add_succ_r.
Qed.
End Elems.

(** ** The array carrier *)

Lemma store_arr_words m p items count : 0 <= items < 256 ^ Z.of_nat ptr_size -> 0 <= count < 256 ^ Z.of_nat ptr_size ->
  rd_word ptr_size (mk_snap (store_arr ptr_size m p items count) p) 0 = items /\
  rd_word ptr_size (mk_snap (store_arr ptr_size m p items count) p) 1 = count.
Proof.
  intros Hi Hc. destruct (mread_mwrite_parts m p (le_bytes ptr_size items) (le_bytes ptr_size count)) as [H1 H2].
  rewrite !le_bytes_length in *. unfold rd_word, store_arr, mread_u. cbn [s_mem s_addr]. rewrite Nat.mul_0_l, Nat.mul_1_l, Z.add_0_r, H1, H2.
  by rewrite !le_value_bytes.
Qed.
Lemma store_arr_out m p items count a : ~ within p (2 * ptr_size) a -> store_arr ptr_size m p items count a = m a.
Proof.
  intros H. apply mwrite_out. rewrite length_app, !le_bytes_length. unfold within in *. lia.
Qed.
Lemma rd_word_agree m m' p i : (i < 2)%nat -> agree (within p (2 * ptr_size)) m m' ->
  rd_word ptr_size (mk_snap m' p) i = rd_word ptr_size (mk_snap m p) i.
Proof. intros Hi Ha. apply mread_u_agree. intros a Hw. apply Ha. unfold within in *. cbn [s_addr] in Hw. nia. Qed.

Lemma holds_all_lookup cs : forall kids, length kids = length cs -> holds_all r cs kids ->
  forall j c, cs !! j = Some c -> exists k, kids !! j = Some k /\ holds r c.2 k.
Proof.
  induction cs as [|c cs IH]; intros [|k kids] Hl Hh j c' Hc; try done. cbn in Hl, Hh. injection Hl as Hl. destruct Hh as [H1 H2].
  destruct j as [|j]; cbn in *; [injection Hc as <-; by exists k|by apply (IH kids Hl H2 j)].
Qed.
Lemma jdepth_arr vs v : v ∈ vs -> (S (jdepth v) <= jdepth (JArr vs))%nat.
Proof.
  intros Hv. cbn [jdepth]. apply le_n_S. induction vs as [|w vs IH]; [by apply elem_of_nil in Hv|]. cbn [map list_max].
  change (list_max (?x :: ?l)) with (Nat.max x (list_max l)). apply elem_of_cons in Hv as [->|Hv]; [lia|]. specialize (IH Hv). lia.
Qed.
Lemma jdepth_obj ms m : m ∈ ms -> (S (jdepth m.2) <= jdepth (JObj ms))%nat.
Proof.
  intros Hm. cbn [jdepth]. apply le_n_S. induction ms as [|w ms IH]; [by apply elem_of_nil in Hm|]. cbn [map list_max].
  change (list_max (?x :: ?l)) with (Nat.max x (list_max l)). apply elem_of_cons in Hm as [->|Hm]; [lia|]. specialize (IH Hm). lia.
Qed.

Lemma pairwise_app {X} (ft : mem -> X -> Z -> Prop) m xs ys : pairwise ft m (xs ++ ys) ->
  pairwise ft m xs /\ forall x y, x ∈ xs -> y ∈ ys -> disj (ft m x) (ft m y).
Proof.
  induction xs as [|x xs IH]; [intros _; split; [done|]; intros x y Hx; by apply elem_of_nil in Hx|].
  intros [Hx Hp]. destruct (IH Hp) as [H1 H2]. apply Forall_app in Hx as [Hx1 Hx2]. split; [by split|].
  intros x' y [->|Hx']%elem_of_cons Hy; [|by apply H2]. rewrite Forall_forall in Hx2. by apply Hx2.
Qed.

(** ** An array field *)

Section Array.
Context (down : scatterer) (value : valuer) (foot : nat -> mem -> Z -> Z -> Prop) (rdy : nat -> mem -> Z -> Prop) (ok : nat -> snap -> Prop).
Context (foot_loc : sub_local foot) (rdy_loc : rsub_local foot rdy) (back : level_back down value foot rdy ok).
Context (f : field).

Lemma elems_back items ai below sitems sm count m :
  Forall (fun j => if is_obj_arr f then ok (f_children f) (mk_snap sm (obj_at f sitems j)) else buf_at ptr_size sm sitems j <> 0) (seq 0 count) ->
  Forall (elem_rdy ptr_size rdy f items m) (seq 0 count) -> pairwise (elem_foot ptr_size foot f items) m (seq 0 count) ->
  holds r (dval short (JArr (map (elem_val value f sitems sm) (seq 0 count)))) ai ->
  (length below + jdepth (JArr (map (elem_val value f sitems sm) (seq 0 count))) <= S BB_SERIALIZE_MAX_DEPTH)%nat ->
  exists m1, all_written (elem_foot ptr_size foot f items) (elem_val value f items) (elem_one down f ai below items)
    (elem_val value f sitems sm) (seq 0 count) m m1.
Proof.
  intros Hsrc Hrdy Hpw (kids & Hl & Hh & _ & Hat) Hroom.
  assert (Hl' : Forall (elem_rdy ptr_size rdy f items m) (seq 0 count)) by done. clear Hrdy.
  eapply (chain_written _ (fun m j => elem_rdy ptr_size rdy f items m j) _ _ _ (elem_foot_local ptr_size foot f items foot_loc)); [|done|done|].
  - intros m0 m' j Hr Ha. eapply elem_rdy_local; [exact rdy_loc|exact Hr|exact Ha].
  - intros j m0 Hj Hr. rewrite Forall_forall in Hsrc. specialize (Hsrc j Hj). apply elem_of_seq in Hj.
    rewrite map_map in Hl, Hh.
    destruct (holds_all_lookup _ kids Hl Hh j ([], dval short (elem_val value f sitems sm j))) as (k & Hk & Hd).
    { change (map ?g ?l) with (g <$> l). rewrite list_lookup_fmap, lookup_seq_lt by lia. done. }
    eapply elem_back; [exact back|exact Hsrc|exact Hr|rewrite Hat; exact Hk|exact Hd|].
    enough (S (jdepth (elem_val value f sitems sm j)) <= jdepth (JArr (map (elem_val value f sitems sm) (seq 0 count))))%nat by lia.
    apply jdepth_arr, list_elem_of_fmap. exists j. split; [done|]. apply elem_of_seq. lia.
Qed.

Lemma populate_arr_run i n below p m m1 ai count : let st := mk_pst (Some i, n) below in
  let items := items_at ptr_size m p in
  member r (f_key f) st = Some ai -> bb_serialize_json_tok_arr_size r (Some ai) = Z.of_nat count ->
  (count <= f_max_items f)%nat -> (length below < BB_SERIALIZE_MAX_DEPTH)%nat -> items <> 0 ->
  chain (elem_one down f ai (ps_top st :: ps_below st) items) (seq 0 count) m m1 ->
  populate_arr ptr_size (json_source r) down f p m st = (BB_OK, store_arr ptr_size m1 p items (Z.of_nat count), st).
Proof.
  intros st items Hm Hsz Hmax Hd Hi Hc. unfold populate_arr. cbn [json_source src_begin_arr src_end_arr]. unfold populate_begin_arr.
  fold st. rewrite Hm. assert (Ha : bb_serialize_json_tok_is_arr r (Some ai) = true).
  { unfold bb_serialize_json_tok_arr_size in Hsz. destruct (bb_serialize_json_tok_is_arr _ _); [done|]. cbn in Hsz. lia. }
  rewrite Ha. cbn [negb]. unfold st at 1. cbn [ps_below]. destruct (Nat.leb_spec BB_SERIALIZE_MAX_DEPTH (length below)); [lia|].
  fold (items_at ptr_size m p). fold items. apply Z.eqb_neq in Hi. rewrite Hi, Hsz, Nat2Z.id, Nat.min_l by done. unfold push.
  fold (is_obj_arr f). destruct (is_obj_arr f) eqn:Eo.
  - rewrite (objs_chain down f ai _ items Eo count 0 m m1 Hc). done.
  - rewrite (strs_chain down f ai _ items Eo count 0 m m1 Hc). done.
Qed.

(** The bytes of an array field: the carrier and the elements. *)
Definition arr_foot (p : Z) (m : mem) (a : Z) : Prop :=
  within p (2 * ptr_size) a \/ exists j, (j < f_max_items f)%nat /\ elem_foot ptr_size foot f (items_at ptr_size m p) m j a.
Lemma arr_assemble p m m1 count goal one :
  f_cardinality f = BB_ARR_FIXED -> (is_obj_arr f = false -> f_elem_type f = BB_TYPE_STR) ->
  let items := items_at ptr_size m p in
  let m2 := store_arr ptr_size m1 p items (Z.of_nat count) in
  (count <= f_max_items f)%nat -> items <> 0 -> Z.of_nat (f_max_items f) < 256 ^ Z.of_nat ptr_size ->
  Forall (fun j => disj (within p (2 * ptr_size)) (elem_foot ptr_size foot f items m j)) (seq 0 (f_max_items f)) ->
  pairwise (elem_foot ptr_size foot f items) m (seq 0 (f_max_items f)) ->
  all_written (elem_foot ptr_size foot f items) (elem_val value f items) one goal (seq 0 count) m m1 ->
  (forall a, ~ arr_foot p m a -> m2 a = m a) /\ (forall a, arr_foot p m2 a <-> arr_foot p m a) /\
  forall m3, agree (arr_foot p m2) m2 m3 -> array_value ptr_size iter_rows (Some value) (mk_snap m3 p) f = map goal (seq 0 count).
Proof.
  intros Hfix Helt items m2 Hmax Hi Hcap Hd Hpw [_ Hfr Hea].
  assert (Hloc : foot_local (elem_foot ptr_size foot f items)) by (by apply elem_foot_local).
  assert (Hir : 0 <= items < 256 ^ Z.of_nat ptr_size).
  { unfold items, items_at, mread_u. pose proof (le_value_range (mread m p ptr_size)) as H. by rewrite mread_length in H. }
  destruct (store_arr_words m1 p items (Z.of_nat count) Hir ltac:(lia)) as [Hw0 Hw1]. fold m2 in Hw0, Hw1.
  assert (Hitems : items_at ptr_size m2 p = items).
  { rewrite <- Hw0. unfold items_at, rd_word. cbn [s_mem s_addr]. by rewrite Nat.mul_0_l, Z.add_0_r. }
  assert (Hout : forall a, ~ within p (2 * ptr_size) a -> m2 a = m1 a) by (intros a Ha; by apply store_arr_out).
  rewrite Forall_forall in Hd. setoid_rewrite elem_of_seq in Hd.
  assert (Hm1 : forall a, (forall j, (j < f_max_items f)%nat -> ~ elem_foot ptr_size foot f items m j a) -> m1 a = m a).
  { intros a Ha. apply Hfr, Forall_forall. intros j Hj%elem_of_seq. apply Ha. lia. }
  assert (Hf1 : forall j, (j < f_max_items f)%nat -> forall a, elem_foot ptr_size foot f items m1 j a <-> elem_foot ptr_size foot f items m j a).
  { intros j Hj. destruct (decide (j < count)%nat) as [Hc|Hc].
    - rewrite Forall_forall in Hea. apply Hea, elem_of_seq. lia.
    - apply Hloc. intros a Ha. apply Hfr, Forall_forall. intros j' Hj'%elem_of_seq Ha'.
      replace (f_max_items f) with (count + (f_max_items f - count))%nat in Hpw by lia. rewrite seq_app in Hpw.
      apply pairwise_app in Hpw as [_ Hx]. apply (Hx j' j) with (a := a); [apply elem_of_seq; lia|apply elem_of_seq; lia|done..]. }
  assert (Hag : forall j, (j < f_max_items f)%nat -> agree (elem_foot ptr_size foot f items m1 j) m1 m2).
  { intros j Hj a Ha. apply Hout. intros Hw. apply (Hf1 j Hj) in Ha. apply (Hd j ltac:(lia) a Hw Ha). }
  assert (Hf2 : forall j, (j < f_max_items f)%nat -> forall a, elem_foot ptr_size foot f items m2 j a <-> elem_foot ptr_size foot f items m j a).
  { intros j Hj a. rewrite <- (Hf1 j Hj). by apply Hloc, Hag. }
  split; [|split].
  - intros a Ha. rewrite Hout by (intros Hw; apply Ha; by left). apply Hm1. intros j Hj Hef. apply Ha. right. by exists j.
  - intros a. unfold arr_foot. rewrite Hitems. fold items. split; (intros [H|(j & Hj & H)]; [by left|right; exists j; split; [done|by apply (Hf2 j Hj)]]).
  - intros m3 Ha.
    assert (Hcar : agree (within p (2 * ptr_size)) m2 m3) by (intros a Hw; apply Ha; by left).
    rewrite array_value_elems by done. cbn [s_mem].
    rewrite (rd_word_agree m2 m3 p 0 ltac:(lia) Hcar), (rd_word_agree m2 m3 p 1 ltac:(lia) Hcar), Hw0, Hw1, Nat2Z.id.
    apply Z.eqb_neq in Hi. rewrite Hi. apply map_ext_in. intros j Hj%in_seq. rewrite Forall_forall in Hea.
    destruct (Hea j ltac:(apply elem_of_seq; lia)) as (_ & Hv & Hs). rewrite <- Hv. apply Hs. intros a Hf.
    transitivity (m2 a); [apply Ha; right; exists j; split; [lia|]; rewrite Hitems; apply (Hf2 j ltac:(lia)); by apply (Hf1 j ltac:(lia))|].
    by apply (Hag j ltac:(lia)).
Qed.

Lemma arr_written s dst m i n below ai :
  f_type f = BB_TYPE_ARR -> field_ok ptr_size short (Some ok) s f -> field_rdy ptr_size foot rdy dst m f ->
  member r (f_key f) (mk_pst (Some i, n) below) = Some ai -> holds r (dval short (fval ptr_size iter_rows (Some value) s f)) ai ->
  (length below + jdepth (fval ptr_size iter_rows (Some value) s f) <= BB_SERIALIZE_MAX_DEPTH)%nat ->
  exists m', written (field_foot ptr_size foot dst) (fun m f => fval ptr_size iter_rows (Some value) (mk_snap m dst) f)
    (fun f m m' => populate_field ptr_size (json_source r) (Some down) dst f m (mk_pst (Some i, n) below) = (BB_OK, m', mk_pst (Some i, n) below))
    (fun f => fval ptr_size iter_rows (Some value) s f) f m m'.
Proof.
  intros Ety [Hpres Hok] Hrdy Hmem Hh Hroom. unfold field_rdy in Hrdy. rewrite Ety in Hok, Hrdy. cbv zeta in Hok. destruct Hok as (Hfix & Helt & Hsrc).
  set (p := dst + f_offset f) in *. destruct Hrdy as (Hi & Hcap & Hel & Hpw). set (items := items_at ptr_size m p) in *.
  assert (Hval : forall sn, fval ptr_size iter_rows (Some value) sn f = JArr (array_value ptr_size iter_rows (Some value) (snap_plus sn (f_offset f)) f)).
  { intros sn. unfold fval, field_value. by rewrite Hpres, Ety. }
  rewrite Hval in Hh, Hroom. set (sp := snap_plus s (f_offset f)) in *.
  set (sitems := rd_word ptr_size sp 0) in *. set (count := if sitems =? 0 then 0%nat else Z.to_nat (rd_word ptr_size sp 1)).
  assert (Hsrc' : (count <= f_max_items f)%nat /\
    Forall (fun j => if is_obj_arr f then ok (f_children f) (mk_snap (s_mem sp) (obj_at f sitems j)) else buf_at ptr_size (s_mem sp) sitems j <> 0) (seq 0 count)).
  { unfold count. destruct (Z.eqb_spec sitems 0) as [E|E]; [split; [lia|constructor]|]. by apply Hsrc. }
  destruct Hsrc' as [Hmax Hall].
  assert (Hvs : array_value ptr_size iter_rows (Some value) sp f = map (elem_val value f sitems (s_mem sp)) (seq 0 count)).
  { rewrite array_value_elems by done. fold sitems. unfold count. by destruct (sitems =? 0). }
  rewrite Hvs in Hh, Hroom.
  replace (f_max_items f) with (count + (f_max_items f - count))%nat in Hel, Hpw by lia. rewrite seq_app in Hel, Hpw.
  pose proof (proj1 (pairwise_app _ _ _ _ Hpw)) as Hpw0. apply Forall_app in Hel as Hel0. destruct Hel0 as [Hel0 _].
  destruct (elems_back items ai ((Some i, n) :: below) sitems (s_mem sp) count m Hall) as [m1 Hw];
    [eapply Forall_impl; [exact Hel0|]; by intros j []|exact Hpw0|exact Hh|cbn [length]; lia|].
  rewrite <- seq_app in Hel, Hpw. replace (count + (f_max_items f - count))%nat with (f_max_items f) in Hel, Hpw by lia.
  assert (Hdj : Forall (fun j => disj (within p (2 * ptr_size)) (elem_foot ptr_size foot f items m j)) (seq 0 (f_max_items f))).
  { eapply Forall_impl; [exact Hel|]. by intros j []. }
  destruct (arr_assemble p m m1 count _ _ Hfix Helt Hmax Hi Hcap Hdj Hpw Hw) as (H1 & H2 & H3).
  assert (Hsz : bb_serialize_json_tok_arr_size r (Some ai) = Z.of_nat count).
  { destruct Hh as (kids & _ & _ & Hsz & _). by rewrite !length_map, length_seq in Hsz. }
  exists (store_arr ptr_size m1 p items (Z.of_nat count)). unfold field_foot. split.
  - unfold populate_field. rewrite Ety. fold p. eapply populate_arr_run; try done; [cbn [jdepth] in Hroom; lia|]. apply Hw.
  - rewrite Ety. exact H1.
  - rewrite Ety. exact H2.
  - rewrite !Hval. fold sp. rewrite Hvs. f_equal. by apply H3.
  - intros m' Ha. rewrite !Hval. rewrite Ety in Ha. f_equal. etransitivity; [exact (H3 m' Ha)|]. symmetry. by apply H3.
Qed.
End Array.

(** ** Any field *)

Section Fields.
Context (dsub : option scatterer) (vsub : option valuer) (foot : nat -> mem -> Z -> Z -> Prop) (rdy : nat -> mem -> Z -> Prop)
  (osub : option (nat -> snap -> Prop)).
Context (foot_loc : sub_local foot) (rdy_loc : rsub_local foot rdy).
(** Both sides have a level below, or neither has. *)
Definition levels_back : Prop :=
  match dsub, vsub, osub with
  | Some d, Some v, Some o => level_back d v foot rdy o
  | None, None, None => True
  | _, _, _ => False
  end.
Context (back : levels_back).
Context (s : snap) (dst : Z) (i n : nat) (below : list populate_frame).
Abbreviation st := (mk_pst (Some i, n) below).

Definition field_written : field -> mem -> mem -> Prop :=
  written (field_foot ptr_size foot dst) (fun m f => fval ptr_size iter_rows vsub (mk_snap m dst) f)
    (fun f m m' => populate_field ptr_size (json_source r) dsub dst f m st = (BB_OK, m', st)) (fun f => fval ptr_size iter_rows vsub s f).

(** A field whose bytes are [n] at [dst + offset], written with [l]. *)
Lemma flat_written f m w l : (length l <= w)%nat ->
  (forall m a, field_foot ptr_size foot dst m f a <-> within (dst + f_offset f) w a) ->
  populate_field ptr_size (json_source r) dsub dst f m st = (BB_OK, mwrite m (dst + f_offset f) l, st) ->
  fval ptr_size iter_rows vsub (mk_snap (mwrite m (dst + f_offset f) l) dst) f = fval ptr_size iter_rows vsub s f ->
  (forall m1 m2, agree (within (dst + f_offset f) w) m1 m2 ->
    fval ptr_size iter_rows vsub (mk_snap m2 dst) f = fval ptr_size iter_rows vsub (mk_snap m1 dst) f) ->
  exists m', field_written f m m'.
Proof.
  intros Hl Hf Hp Hv Hs. exists (mwrite m (dst + f_offset f) l). split.
  - exact Hp.
  - intros a Ha. apply mwrite_out. intros Hw. apply Ha, Hf. unfold within in *. lia.
  - intros a. by rewrite !Hf.
  - exact Hv.
  - intros m' Ha. apply Hs. intros a Hw. by apply Ha, Hf.
Qed.

(** The fields that are values at the offset. *)
Definition is_flat (ty : bb_type) : bool :=
  match ty with BB_TYPE_I64 | BB_TYPE_U64 | BB_TYPE_F64 | BB_TYPE_BOOL | BB_TYPE_STR => true | _ => false end.
Definition flat_val (f : field) (p : snap) : jval :=
  match f_type f with
  | BB_TYPE_I64 => JI64 (rd_i64 p)
  | BB_TYPE_U64 => JU64 (rd_u64 p)
  | BB_TYPE_F64 => JF64 (rd_f64 p)
  | BB_TYPE_BOOL => JBool (rd_bool p)
  | _ => JStr (rd_str p (f_max_len f))
  end.
Definition flat_size (f : field) : nat :=
  match f_type f with BB_TYPE_BOOL => 1%nat | BB_TYPE_STR => f_max_len f | _ => 8%nat end.

Lemma fval_flat sn f : f_present f = None -> is_flat (f_type f) = true ->
  fval ptr_size iter_rows vsub sn f = flat_val f (snap_plus sn (f_offset f)).
Proof. intros Hp Hf. unfold fval, field_value, flat_val. rewrite Hp. by destruct (f_type f). Qed.

Lemma flat_foot f m a : is_flat (f_type f) = true -> field_foot ptr_size foot dst m f a <-> within (dst + f_offset f) (flat_size f) a.
Proof. unfold field_foot, flat_size. by destruct (f_type f). Qed.

Lemma flat_val_agree f m1 m2 p : is_flat (f_type f) = true -> agree (within p (flat_size f)) m1 m2 ->
  flat_val f (mk_snap m2 p) = flat_val f (mk_snap m1 p).
Proof.
  intros Hf Ha. unfold flat_val, flat_size in *. destruct (f_type f) eqn:E; try discriminate Hf;
    unfold rd_i64, rd_u64, rd_f64, rd_str; cbn [s_mem s_addr].
  1-3: by rewrite (mread_u_agree m1).
  - unfold rd_bool. cbn [s_mem s_addr]. rewrite Ha by (unfold within; lia). done.
  - by rewrite (mread_agree m1).
Qed.

(** The bytes the source supplies for a flat field. *)
Definition flat_bytes (f : field) (p : snap) : list byte :=
  match f_type f with
  | BB_TYPE_I64 => le_bytes 8 (u64 (rd_i64 p))
  | BB_TYPE_BOOL => le_bytes 1 (Z.b2z (rd_bool p))
  | BB_TYPE_STR => rd_str p (f_max_len f)
  | _ => le_bytes 8 (rd_u64 p)
  end.
Lemma flat_bytes_length f p : is_flat (f_type f) = true -> (length (flat_bytes f p) <= flat_size f)%nat.
Proof. unfold flat_bytes, flat_size. destruct (f_type f); intros H; try discriminate H; rewrite ?le_bytes_length; try done. apply rd_str_length. Qed.
Lemma flat_bytes_val f m p src : is_flat (f_type f) = true -> (f_type f = BB_TYPE_STR -> zero_at m p (f_max_len f)) ->
  flat_val f (mk_snap (mwrite m p (flat_bytes f src)) p) = flat_val f src.
Proof.
  intros Hf Hz. unfold flat_val, flat_bytes. destruct (f_type f) eqn:E; try discriminate Hf; f_equal.
  - apply rd_i64_written, rd_i64_range.
  - apply rd_u64_written, rd_range.
  - apply rd_u64_written, rd_range.
  - apply rd_bool_written.
  - apply rd_str_written; [by apply Hz|apply rd_str_length|apply rd_str_no_nul].
Qed.

Lemma flat_populate f m k kid : f_key f = Some k -> is_flat (f_type f) = true -> field_ok ptr_size short osub s f ->
  member r (f_key f) st = Some kid -> holds r (dval short (flat_val f (snap_plus s (f_offset f)))) kid ->
  populate_field ptr_size (json_source r) dsub dst f m st = (BB_OK, mwrite m (dst + f_offset f) (flat_bytes f (snap_plus s (f_offset f))), st).
Proof.
  intros Hk Hf [_ Hok] Hm Hh. unfold populate_field, flat_bytes, flat_val in *. set (p := snap_plus s (f_offset f)) in *.
  destruct (f_type f); try discriminate Hf; cbn [json_source src_get_i64 src_get_u64 src_get_f64 src_get_bool src_get_str dval holds shows_leaf] in *.
  - unfold populate_get_i64. rewrite Hm. destruct (num_i64_back _ (rd_i64_range p)) as [E1 E2], Hh as [_ ->]. rewrite E2, E1. done.
  - unfold populate_get_u64. rewrite Hm. pose proof (rd_range p) as Hr.
    destruct (num_u64_back (rd_u64 p) ltac:(lia)) as [E1 E2], Hh as [_ ->]. rewrite E2, E1. cbn [option_map store]. by rewrite u64_small.
  - unfold populate_get_f64. rewrite Hm. destruct Hok as [Hn Hb]. destruct (decide _) as [E|E] in Hh; [done|].
    cbn [shows_leaf] in Hh. destruct Hh as [-> _]. cbn [option_map store]. by rewrite Hb.
  - unfold populate_get_bool. by rewrite Hm, Hh.
  - unfold populate_get_str, next_tok. rewrite Hk. rewrite Hk in Hm. rewrite Hm, Hh. cbn [option_map].
    by rewrite take_ge by apply rd_str_length.
Qed.

Lemma flat_back f m k kid : f_key f = Some k -> is_flat (f_type f) = true -> field_ok ptr_size short osub s f ->
  field_rdy ptr_size foot rdy dst m f ->
  member r (f_key f) st = Some kid -> holds r (dval short (fval ptr_size iter_rows vsub s f)) kid -> exists m', field_written f m m'.
Proof.
  intros Hk Hf Hok Hrdy Hm Hh. pose proof (proj1 Hok) as Hp. rewrite fval_flat in Hh by done.
  eapply (flat_written f m (flat_size f) (flat_bytes f (snap_plus s (f_offset f)))).
  - by apply flat_bytes_length.
  - intros m' a. by apply flat_foot.
  - by eapply flat_populate.
  - rewrite !fval_flat by done. apply flat_bytes_val; [done|]. intros E. unfold field_rdy in Hrdy. by rewrite E in Hrdy.
  - intros m1 m2 Ha. rewrite !fval_flat by done. by apply flat_val_agree.
Qed.

Lemma obj_back f m k kid : f_key f = Some k -> f_type f = BB_TYPE_OBJ -> field_ok ptr_size short osub s f ->
  field_rdy ptr_size foot rdy dst m f ->
  member r (f_key f) st = Some kid -> holds r (dval short (fval ptr_size iter_rows vsub s f)) kid ->
  (length below + jdepth (fval ptr_size iter_rows vsub s f) <= BB_SERIALIZE_MAX_DEPTH)%nat -> exists m', field_written f m m'.
Proof.
  intros Hk Ety [Hp Hok] Hrdy Hm Hh Hroom. rewrite Ety in Hok. unfold field_rdy in Hrdy. rewrite Ety in Hrdy.
  pose proof back as Hb. unfold levels_back in Hb.
  unfold field_written. destruct osub as [ok|]; [|done]. destruct dsub as [down|], vsub as [value|]; try done.
  assert (Hval : forall sn, fval ptr_size iter_rows (Some value) sn f = JObj (value (f_children f) (snap_plus sn (f_offset f)))).
  { intros sn. unfold fval, field_value. by rewrite Hp, Ety. }
  rewrite Hval in Hh, Hroom.
  destruct (Hb (f_children f) _ (dst + f_offset f) m kid 0%nat (ps_top st :: ps_below st) Hok Hrdy Hh ltac:(cbn [length ps_below]; lia))
    as [m' [Ho Hf Hfoot Hv Hst]].
  exists m'. unfold field_foot. split.
  - unfold populate_field. rewrite Ety. cbn [json_source src_begin_obj src_end_obj]. unfold populate_begin_obj, next_tok.
    rewrite Hk in Hm |- *. rewrite Hm. destruct Hh as (kids & _ & _ & Hob & _). rewrite Hob. cbn [negb ps_below].
    destruct (Nat.leb_spec BB_SERIALIZE_MAX_DEPTH (length below)); [cbn [jdepth] in Hroom; lia|].
    unfold push. by rewrite Ho.
  - by rewrite Ety.
  - by rewrite Ety.
  - rewrite !Hval. by f_equal.
  - intros m2 Ha. rewrite !Hval. rewrite Ety in Ha. f_equal. by apply Hst.
Qed.

Lemma field_back f m k : f_key f = Some k -> field_ok ptr_size short osub s f -> field_rdy ptr_size foot rdy dst m f ->
  supplied r i (f_key f) (dval short (fval ptr_size iter_rows vsub s f)) ->
  (length below + jdepth (fval ptr_size iter_rows vsub s f) <= BB_SERIALIZE_MAX_DEPTH)%nat -> exists m', field_written f m m'.
Proof.
  intros Hk Hok Hrdy (kid & Hm & Hh) Hroom. destruct (is_flat (f_type f)) eqn:Ef; [by eapply flat_back|].
  destruct (f_type f) eqn:Ety; try discriminate Ef.
  - destruct Hok as [_ Hok]. by rewrite Ety in Hok.
  - by eapply obj_back.
  - pose proof (proj2 Hok) as H. rewrite Ety in H. pose proof back as Hb. unfold levels_back in Hb.
    unfold field_written. destruct osub as [ok|]; [|done]. destruct dsub as [down|], vsub as [value|]; try done. eapply arr_written; done.
  - destruct Hok as [_ Hok]. by rewrite Ety in Hok.
Qed.

(** ** The fields of a table *)

Lemma scatter_chain fs m m' :
  chain (fun f m m' => populate_field ptr_size (json_source r) dsub dst f m st = (BB_OK, m', st)) fs m m' ->
  scatter_all (populate_field ptr_size (json_source r) dsub dst) fs m st = (BB_OK, m', st).
Proof. induction 1 as [|f fs m m1 m2 Hf _ IH]; [done|]. cbn [scatter_all]. rewrite Hf. exact IH. Qed.

Definition table_value (fs : list field) (sn : snap) : list (key_t * jval) := concat (map (field_value ptr_size iter_rows None vsub sn) fs).
Definition table_foot (fs : list field) (m : mem) (a : Z) : Prop := exists f, f ∈ fs /\ field_foot ptr_size foot dst m f a.

Lemma table_back fs m :
  NoDup (map (fun f => default [] (f_key f)) fs) -> Forall (fun f => exists k, f_key f = Some k) fs ->
  Forall (field_ok ptr_size short osub s) fs ->
  Forall (field_rdy ptr_size foot rdy dst m) fs -> pairwise (field_foot ptr_size foot dst) m fs ->
  holds r (dval short (JObj (table_value fs s))) i ->
  (length below + jdepth (JObj (table_value fs s)) <= S BB_SERIALIZE_MAX_DEPTH)%nat ->
  exists m', written (fun m (_ : unit) => table_foot fs m) (fun m _ => table_value fs (mk_snap m dst))
    (fun _ m m' => scatter_all (populate_field ptr_size (json_source r) dsub dst) fs m st = (BB_OK, m', st))
    (fun _ => table_value fs s) tt m m'.
Proof.
  intros Hnd Hkeys Hok Hrdy Hpw Hh Hroom.
  assert (Hmem : forall sn, table_value fs sn = map (fun f => (f_key f, fval ptr_size iter_rows vsub sn f)) fs).
  { apply (members_of ptr_size iter_rows short _ s fs osub); [|done]. pose proof back as Hb. unfold levels_back in Hb. destruct dsub, vsub, osub; done. }
  rewrite Hmem in Hh, Hroom. rewrite Forall_forall in Hok, Hkeys.
  assert (Hsup : forall f, f ∈ fs -> supplied r i (f_key f) (dval short (fval ptr_size iter_rows vsub s f))).
  { intros f Hf. apply (object_supplies r i short _ Hh) with (m := (f_key f, fval ptr_size iter_rows vsub s f)).
    - by rewrite map_map.
    - apply list_elem_of_fmap. by exists f. }
  assert (Hdep : forall f, f ∈ fs -> (length below + jdepth (fval ptr_size iter_rows vsub s f) <= BB_SERIALIZE_MAX_DEPTH)%nat).
  { intros f Hf. enough (S (jdepth (f_key f, fval ptr_size iter_rows vsub s f).2) <= jdepth (JObj (map (fun f => (f_key f, fval ptr_size iter_rows vsub s f)) fs)))%nat
      by (cbn [snd] in *; lia).
    apply jdepth_obj, list_elem_of_fmap. by exists f. }
  destruct (chain_written (field_foot ptr_size foot dst) (field_rdy ptr_size foot rdy dst) (fun m f => fval ptr_size iter_rows vsub (mk_snap m dst) f)
    (fun f m m' => populate_field ptr_size (json_source r) dsub dst f m st = (BB_OK, m', st)) (fun f => fval ptr_size iter_rows vsub s f)
    (field_foot_local ptr_size foot dst foot_loc)) with (xs := fs) (m := m) as [m' [Hc Hf He]]; [|done|done| |].
  - intros m0 m1 f Hr Ha. by eapply field_rdy_local.
  - intros f m0 Hin Hr. destruct (Hkeys f Hin) as [k Hk]. by eapply field_back; eauto.
  - rewrite Forall_forall in He. exists m'. split.
    + by apply scatter_chain.
    + intros a Ha. apply Hf, Forall_forall. intros f Hin Hfa. apply Ha. by exists f.
    + intros a. split; intros (f & Hin & Hfa); exists f; (split; [done|by apply (He f Hin)]).
    + rewrite !Hmem. apply map_ext_in. intros f Hin%list_elem_of_In. f_equal. by apply He.
    + intros m2 Ha. rewrite !Hmem. apply map_ext_in. intros f Hin%list_elem_of_In. f_equal. apply (He f Hin). intros a Hfa. apply Ha. by exists f.
Qed.
End Fields.
End Level.

(** * All levels *)

Section Levels.
Context (ptr_size : nat) (tables : nat -> list field) (iter_rows : Z -> Z -> mem -> list snap) (short : bool) (r : recorder).

Lemma populate_back rem : level_back short r (populate_fields ptr_size tables (json_source r) rem)
  (fields_value ptr_size tables iter_rows None rem) (fields_foot ptr_size tables rem) (fields_rdy ptr_size tables rem)
  (fields_ok ptr_size tables short rem).
Proof.
  induction rem as [|rem IH]; intros tbl s dst m i n below Hok Hrdy Hh Hroom;
    cbn [fields_ok fields_rdy fields_value populate_fields] in *; destruct Hok as (Hnd & Hkeys & Hok), Hrdy as [Hrdy Hpw];
    unfold level_written; cbn [populate_fields fields_value fields_foot].
  - eapply (table_back ptr_size iter_rows short r None None no_foot no_rdy None no_foot_local no_rdy_local I); done.
  - eapply (table_back ptr_size iter_rows short r (Some _) (Some _) _ _ (Some _) (fields_foot_local ptr_size tables rem)
      (fields_rdy_local ptr_size tables rem) IH); done.
Qed.
End Levels.

(** * Struct to text to struct *)

Section Text.
Context (ptr_size : nat) (tables : nat -> list field) (iter_rows : Z -> Z -> mem -> list snap) (junk : nat -> json_level) (short : bool).
Context (d : serialize_desc) (s : snap).
Abbreviation v := (JObj (document ptr_size tables iter_rows None d s)).

(** The snapshot can be printed, scanned and scattered: it is within the
    scanner's limits ([scannable]), its values survive the text ([fields_ok]),
    and populate supports the descriptor. *)
Record transportable : Prop := {
  tr_depth : (jdepth v <= BB_SERIALIZE_MAX_DEPTH)%nat;
  tr_scannable : scannable short 0 v;
  tr_values : fields_ok ptr_size tables short BB_SERIALIZE_MAX_DEPTH (sd_fields d) s;
  tr_check : populate_check_fields tables BB_SERIALIZE_MAX_DEPTH (sd_fields d) = BB_OK
}.

Lemma populate_from_scan cap text buf_ok pool_ok pool_cap arena r0 r dst m : transportable ->
  bb_serialize_json_render ptr_size tables iter_rows junk (Some d) (Some s) cap None short = (BB_OK, text) ->
  bb_serialize_json_tok_recorder_init buf_ok pool_ok pool_cap arena = inr r0 ->
  bb_serialize_json_scan_bounded bb_serialize_json_tok_recorder_ingest text r0 = Some (BB_OK, r) ->
  dst <> 0 -> fields_rdy ptr_size tables BB_SERIALIZE_MAX_DEPTH (sd_fields d) m dst ->
  let '(st, src) := bb_serialize_json_populate_from_tok r in
  exists m', bb_serialize_populate ptr_size tables src (Some d) dst true m st = (BB_OK, m', st) /\
    document ptr_size tables iter_rows None d (mk_snap m' dst) = document ptr_size tables iter_rows None d s /\
    forall a, ~ fields_foot ptr_size tables BB_SERIALIZE_MAX_DEPTH (sd_fields d) m dst a -> m' a = m a.
Proof.
  intros [Hd Hs Hok Hcheck] Hrender Hi Hscan Hdst Hrdy. unfold bb_serialize_json_populate_from_tok.
  assert (Ht : text = print_val short v).
  { pose proof (render_text ptr_size tables iter_rows junk cap None (Some d) (Some s) short) as H. cbv zeta in H. rewrite Hrender in H.
    destruct (_ <? _)%nat in H; [by injection H|done]. }
  subst text. destruct (recorded _ _ _ _ _ _ _ Hi Hscan) as (d0 & He & Hroot & Hh).
  pose proof (bounded_document short _ Hd Hs) as Hb. cbv zeta in Hb. rewrite Hb in He.
  assert (He' : events short None v = doc_events None d0) by congruence. clear He. rename He' into He. rewrite events_dval in He.
  rewrite <- (app_nil_r (doc_events None (dval short v))), <- (app_nil_r (doc_events None d0)) in He.
  apply doc_events_inj in He as (_ & <- & _). rewrite Hroot.
  destruct (populate_back ptr_size tables iter_rows short r BB_SERIALIZE_MAX_DEPTH (sd_fields d) s dst m 0%nat 0%nat [] Hok Hrdy Hh) as [m' Hw].
  { unfold document in Hd. cbn [length]. lia. }
  exists m'. split; [|split; [apply Hw|apply Hw]].
  unfold bb_serialize_populate. apply Z.eqb_neq in Hdst. rewrite Hdst, Hcheck. cbn [orb negb is_ok]. apply Hw.
Qed.
End Text.

(** ** A concrete case: a number, a text, an array of objects and one of strings *)
Definition rt_field (k : String.string) (ty : bb_type) (off : Z) (child max_len max_items : nat) (et : bb_type) (sz : Z) : field :=
  mk_field (Some (bs k)) ty off None child max_len max_items et sz BB_ARR_FIXED [].
Definition rt_tables (t : nat) : list field :=
  match t with
  | 1%nat => [rt_field "n" BB_TYPE_I64 0 0 0 0 BB_TYPE_I64 0; rt_field "s" BB_TYPE_STR 8 0 4 0 BB_TYPE_I64 0;
              rt_field "o" BB_TYPE_ARR 12 2 0 2 BB_TYPE_OBJ 1; rt_field "t" BB_TYPE_ARR 20 0 4 1 BB_TYPE_STR 0]
  | 2%nat => [rt_field "b" BB_TYPE_BOOL 0 0 0 0 BB_TYPE_I64 0]
  | _ => []
  end.
Definition rt_rows (_ _ : Z) (_ : mem) : list snap := [].
Definition rt_desc : serialize_desc := mk_sdesc (bs "rt") 1 28.
(** The source at 100, its arrays at 200 and 210, its string at 220. *)
Definition rt_src : snap :=
  mk_snap (mwrite (mwrite (mwrite (mem_of 100 (le_bytes 8 (u64 (-5)) ++ bs "hi" ++ [x00; x00] ++ le_bytes 4 200 ++ le_bytes 4 2 ++
    le_bytes 4 210 ++ le_bytes 4 1)) 200 [x01; x00]) 210 (le_bytes 4 220)) 220 (bs "str")) 100.
(** The destination at 1000, wired to arrays at 1100 and 1200 and a buffer at 1300. *)
Definition rt_mem : mem :=
  mwrite (mem_of 1000 (repeat x00 12 ++ le_bytes 4 1100 ++ le_bytes 4 0 ++ le_bytes 4 1200 ++ le_bytes 4 0)) 1200 (le_bytes 4 1300).
Definition rt_text : list byte := print_val false (JObj (document 4 rt_tables rt_rows None rt_desc rt_src)).


Lemma rt_document : document 4 rt_tables rt_rows None rt_desc rt_src =
  [(Some (bs "n"), JI64 (-5)); (Some (bs "s"), JStr (bs "hi"));
   (Some (bs "o"), JArr [JObj [(Some (bs "b"), JBool true)]; JObj [(Some (bs "b"), JBool false)]]); (Some (bs "t"), JArr [JStr (bs "str")])].
Proof. vm_compute. reflexivity. Qed.
Lemma rt_scannable : scannable false 0 (JObj (document 4 rt_tables rt_rows None rt_desc rt_src)).
Proof.
  rewrite rt_document. assert (length (dec_i64 (-5)) = 2%nat) as Hn by (vm_compute; reflexivity).
  cbn [scannable scratch_room fold_right fst snd]. rewrite Hn. unfold BB_SERIALIZE_JSON_SCRATCH_MAX_BYTES. cbn. lia.
Qed.
Ltac rt_nodup := repeat constructor; rewrite ?list_elem_of_In; cbn; intuition discriminate.
Lemma rt_words : rd_word 4 (snap_plus rt_src 12) 0 = 200 /\ rd_word 4 (snap_plus rt_src 12) 1 = 2 /\
  rd_word 4 (snap_plus rt_src 20) 0 = 210 /\ rd_word 4 (snap_plus rt_src 20) 1 = 1 /\ buf_at 4 (s_mem rt_src) 210 0 = 220 /\
  items_at 4 rt_mem 1012 = 1100 /\ items_at 4 rt_mem 1020 = 1200 /\ buf_at 4 rt_mem 1200 0 = 1300.
Proof. vm_compute. split_and!; reflexivity. Qed.

Lemma rt_ok : fields_ok 4 rt_tables false BB_SERIALIZE_MAX_DEPTH 1 rt_src.
Proof.
  destruct rt_words as (W1 & W2 & W3 & W4 & W5 & _).
  unfold BB_SERIALIZE_MAX_DEPTH. cbn [fields_ok rt_tables]. split; [rt_nodup|]. split; [repeat constructor; by eexists|].
  rewrite !Forall_cons, Forall_nil.
  split_and!; try done; (split; [done|]); cbn [rt_field f_type f_offset f_cardinality f_elem_type f_max_items]; try done; cbv zeta.
  - rewrite W1, W2. split; [done|]. split; [done|]. intros _. split; [cbn; lia|].
    change (Z.to_nat 2) with 2%nat. cbn [seq]. rewrite !Forall_cons, Forall_nil. split_and!; try done.
    all: match goal with |- context [is_obj_arr ?f] => change (is_obj_arr f) with true end; cbn [f_children rt_field rt_tables fields_ok].
    all: split; [rt_nodup|]; split; [repeat constructor; by eexists|].
    all: rewrite !Forall_cons, Forall_nil; split; done.
  - rewrite W3, W4. split; [done|]. split; [done|]. intros _. split; [cbn; lia|].
    change (Z.to_nat 1) with 1%nat. cbn [seq]. rewrite !Forall_cons, Forall_nil. split; [|done].
    match goal with |- context [is_obj_arr ?f] => change (is_obj_arr f) with false end. cbn [snap_plus s_mem]. by rewrite W5.
Qed.

Lemma zero_at_read m p n : mread m p n = repeat x00 n -> zero_at m p n.
Proof.
  intros H a Ha. unfold within in Ha. assert (Hl : mread m p n !! Z.to_nat (a - p) = Some (m a)).
  { unfold mread. change (map ?g ?l) with (g <$> l). rewrite list_lookup_fmap, lookup_seq_lt by lia. cbn. do 2 f_equal. lia. }
  rewrite H, nth_repeat_lookup in Hl by lia. by injection Hl.
Qed.

Section RtReady.
Abbreviation ffoot := (field_foot 4 (fields_foot 4 rt_tables 7) 1000 rt_mem).
Lemma rt_obj_foot j a : (j < 2)%nat -> elem_foot 4 (fields_foot 4 rt_tables 7) (rt_field "o" BB_TYPE_ARR 12 2 0 2 BB_TYPE_OBJ 1) 1100 rt_mem j a ->
  a = 1100 + Z.of_nat j.
Proof.
  intros Hj. unfold elem_foot. change (is_obj_arr _) with true. cbv iota. intros (f & Hf & H). cbn in Hf.
  apply list_elem_of_singleton in Hf as ->. unfold field_foot, within, obj_at in H. cbn in H. lia.
Qed.
Lemma rt_str_foot j a : (j < 1)%nat -> elem_foot 4 (fields_foot 4 rt_tables 7) (rt_field "t" BB_TYPE_ARR 20 0 4 1 BB_TYPE_STR 0) 1200 rt_mem j a ->
  1200 <= a < 1204 \/ 1300 <= a < 1304.
Proof.
  intros Hj. assert (j = 0%nat) as -> by lia. unfold elem_foot. change (is_obj_arr _) with false. cbv iota.
  destruct rt_words as (_ & _ & _ & _ & _ & _ & _ & ->). unfold within. cbn [f_max_len rt_field]. lia.
Qed.
Lemma rt_feet f a : f ∈ rt_tables 1 -> ffoot f a ->
  match f_type f with
  | BB_TYPE_I64 => 1000 <= a < 1008
  | BB_TYPE_STR => 1008 <= a < 1012
  | _ => if f_offset f =? 12 then 1012 <= a < 1020 \/ 1100 <= a < 1102
         else 1020 <= a < 1028 \/ 1200 <= a < 1204 \/ 1300 <= a < 1304
  end.
Proof.
  intros Hf H. destruct rt_words as (_ & _ & _ & _ & _ & W6 & W7 & _). cbn [rt_tables] in Hf.
  repeat (apply elem_of_cons in Hf as [->|Hf]); [..|by apply elem_of_nil in Hf]; unfold field_foot in H; cbn [f_type rt_field f_offset] in *.
  - unfold within in H. lia.
  - unfold within in H. cbn [f_max_len rt_field] in H. lia.
  - change (12 =? 12) with true. change (1000 + 12) with 1012 in H. rewrite W6 in H. destruct H as [H|(j & Hj & H)].
    + unfold within in H. lia.
    + cbn [f_max_items rt_field] in Hj. apply rt_obj_foot in H; lia.
  - change (20 =? 12) with false. change (1000 + 20) with 1020 in H. rewrite W7 in H. destruct H as [H|(j & Hj & H)].
    + unfold within in H. lia.
    + cbn [f_max_items rt_field] in Hj. apply rt_str_foot in H; lia.
Qed.
Ltac rt_in := cbn [rt_tables]; rewrite !elem_of_cons; tauto.
Ltac rt_disj := intros a H1 H2; apply rt_feet in H1; [|rt_in]; apply rt_feet in H2; [|rt_in]; cbn [f_type f_offset rt_field Z.eqb Pos.eqb] in H1, H2; lia.

Lemma rt_bool_rdy rem m p : fields_rdy 4 rt_tables rem 2 m p.
Proof. destruct rem; (split; [by repeat constructor|]); split; [constructor|exact I|constructor|exact I]. Qed.

Lemma rt_ready : fields_rdy 4 rt_tables BB_SERIALIZE_MAX_DEPTH 1 rt_mem 1000.
Proof.
  destruct rt_words as (_ & _ & _ & _ & _ & W6 & W7 & W8). unfold BB_SERIALIZE_MAX_DEPTH. cbn [fields_rdy]. split.
  - cbn [rt_tables]. rewrite !Forall_cons, Forall_nil. split_and!; try done; unfold field_rdy; cbn [f_type rt_field f_offset f_max_items f_max_len].
    + apply zero_at_read. vm_compute. reflexivity.
    + change (1000 + 12) with 1012. rewrite W6. split; [done|]. split; [done|]. split.
      * cbn [seq]. apply Forall_cons; split; [|apply Forall_singleton]; split.
        2, 4: intros a H1 H2; apply rt_obj_foot in H2; unfold within in H1; lia.
        all: unfold elem_rdy; match goal with |- context [is_obj_arr ?f] => change (is_obj_arr f) with true end; apply (rt_bool_rdy 7).
      * cbn [seq pairwise]. split; [apply Forall_singleton|by split].
        intros a H1 H2. apply rt_obj_foot in H1, H2; lia.
    + change (1000 + 20) with 1020. rewrite W7. split; [done|]. split; [done|]. split.
      * cbn [seq]. apply Forall_singleton. split.
        -- unfold elem_rdy. match goal with |- context [is_obj_arr ?f] => change (is_obj_arr f) with false end. cbv iota. rewrite W8.
           split; [intros a H1 H2; unfold within in *; cbn in H1, H2; lia|]. split; [done|]. apply zero_at_read. vm_compute. reflexivity.
        -- intros a H1 H2. apply rt_str_foot in H2; unfold within in H1; lia.
      * by split.
  - cbn [rt_tables pairwise]. rewrite !Forall_cons, !Forall_nil. split_and!; try done; rt_disj.
Qed.
End RtReady.

Lemma rt_transportable : transportable 4 rt_tables rt_rows false rt_desc rt_src.
Proof.
  split.
  - apply Nat.leb_le. vm_compute. reflexivity.
  - exact rt_scannable.
  - exact rt_ok.
  - vm_compute. reflexivity.
Qed.
