(* ===== verification/Parse.v ===== *)
(** The composed parse adapter: bytes of a document and a scratch buffer to a
    populate source (components/bb_serialize_json/src/bb_serialize_json_parse.c),
    and the way from a snapshot to its text and back. *)
From Stdlib Require Import Strings.String.
From S2P Require Import Prelude Bytes Arena Num Float Walk JsonWrite JsonScan ScanBytes ScanSafe ScanDoc ScanSim Tok Populate Scatter PopulateBack.

Section Parse.
(** [_Alignof(max_align_t)] as a power of two, and the sizes of the arena's
    header, the recorder, the populate cursor and a token. *)
Context (align_log sizeof_arena sizeof_rec sizeof_ctx sizeof_tok : Z).

(** [buf = None], [scratch = 0], [out_ok = false]: NULL.  The source is what
    [*out_src] is bound to; [None] around the whole: the scan does not return. *)
Definition bb_serialize_json_parse_bytes (buf : option (list byte)) (scratch scratch_cap : Z) (out_ok : bool)
  : option (bb_err * option (populate_state * populate_src populate_state)) :=
  match buf with
  | None => Some (BB_ERR_INVALID_ARG, None)
  | Some text =>
      if (scratch =? 0) || negb out_ok then Some (BB_ERR_INVALID_ARG, None) else
      match bb_mem_arena_init align_log sizeof_arena true scratch scratch_cap with
      | (BB_OK, arena) =>
          let '(rec, a1) := bb_mem_arena_alloc align_log arena sizeof_rec in
          let '(pctx, a2) := bb_mem_arena_alloc align_log a1 sizeof_ctx in
          let '(pool, a3) := bb_mem_arena_alloc align_log a2 (Z.of_nat BB_SERIALIZE_JSON_TOK_POOL_DEFAULT_CAP * sizeof_tok) in
          if (rec =? 0) || (pctx =? 0) || (pool =? 0) then Some (BB_ERR_NO_SPACE, None) else
          let '(json_arena, json_arena_cap, _) := bb_mem_arena_alloc_rest align_log a3 in
          match bb_serialize_json_tok_recorder_init true true BB_SERIALIZE_JSON_TOK_POOL_DEFAULT_CAP
                  (if json_arena =? 0 then None else Some (Z.to_nat json_arena_cap)) with
          | inl rc => Some (rc, None)
          | inr r0 =>
              match bb_serialize_json_scan_bounded bb_serialize_json_tok_recorder_ingest text r0 with
              | Some (BB_OK, r) => Some (BB_OK, Some (bb_serialize_json_populate_from_tok r))
              | Some (rc, _) => Some (rc, None)
              | None => None
              end
          end
      | _ => Some (BB_ERR_NO_SPACE, None)
      end
  end.
End Parse.

(** * The layout of the scratch *)

Section Layout.
Context (align_log sizeof_arena sizeof_rec sizeof_ctx sizeof_tok : Z).
Context (Hal : 0 <= align_log <= 12) (Ha : 0 <= sizeof_arena < 2 ^ 32).
Context (Hr : 0 < sizeof_rec < 2 ^ 32) (Hc : 0 < sizeof_ctx < 2 ^ 32) (Ht : 0 < sizeof_tok < 2 ^ 16).

Abbreviation up := (round_up align_log).
Definition pool_bytes : Z := Z.of_nat BB_SERIALIZE_JSON_TOK_POOL_DEFAULT_CAP * sizeof_tok.
(** What the control structures take. *)
Definition scratch_need : Z := BB_MEM_ARENA_HDR_SZ align_log sizeof_arena + up sizeof_rec + up sizeof_ctx + up pool_bytes.
(** What is left for decoded strings. *)
Definition string_room (scratch_cap : Z) : option nat :=
  let n := round_down align_log (scratch_cap - scratch_need) in if n =? 0 then None else Some (Z.to_nat n).

Lemma sizes_up n : 0 < n < 2 ^ 32 -> n <= up n < n + BB_MEM_ARENA_ALIGN align_log /\ BB_MEM_ARENA_ALIGN align_log <= up n.
Proof.
  intros Hn. pose proof (align_pos align_log Hal). destruct (round_up_spec align_log Hal n) as [(q & Hq & E) H1]; [unfold SIZE_MAX; lia|].
  split; [lia|]. rewrite E in *. assert (0 < q) by nia. nia.
Qed.

(** One allocation of the layout. *)
Lemma alloc_next buf size a live n : 0 < buf -> buf + size <= 2 ^ 64 -> arena_ok align_log buf size a live -> 0 < n < 2 ^ 32 ->
  exists p a1 live1, bb_mem_arena_alloc align_log (Some a) n = (p, Some a1) /\ (p =? 0) = (size - ar_offset a <? up n) /\
    ar_offset a1 = ar_offset a + (if size - ar_offset a <? up n then 0 else up n) /\ arena_ok align_log buf size a1 live1.
Proof.
  intros Hb Hs Hok Hn. pose proof (align_pos align_log Hal). pose proof (ao_size _ _ _ _ _ Hok) as Hsz. pose proof (ao_off _ _ _ _ _ Hok) as Hoff.
  pose proof (alloc_ok align_log Hal buf size a live n Hb Hs Hok ltac:(unfold SIZE_MAX; lia)) as H1.
  destruct (bb_mem_arena_alloc align_log (Some a) n) as [p a1]. destruct H1 as (Hfit & a1' & -> & Hp & Hz & Hok1). unfold Arena.fits in Hfit. rewrite Hsz in Hfit.
  unfold SIZE_MAX in Hfit. exists p, a1', (if p =? 0 then live else live ++ [(p, up n)]). split; [done|].
  destruct (Z.eqb_spec p 0) as [E|E]; destruct (Z.ltb_spec (size - ar_offset a) (up n)) as [L|L].
  - rewrite (Hz E). split_and!; [done|lia|done].
  - lia.
  - apply Hfit in E. lia.
  - destruct (Hp E) as [_ ->]. done.
Qed.

Abbreviation parse := (bb_serialize_json_parse_bytes align_log sizeof_arena sizeof_rec sizeof_ctx sizeof_tok).

Lemma rest_room buf size a live : 0 < buf -> buf + size <= 2 ^ 64 -> arena_ok align_log buf size a live ->
  exists p n a', bb_mem_arena_alloc_rest align_log (Some a) = (p, n, a') /\
    (if p =? 0 then None else Some (Z.to_nat n)) =
    (let n := round_down align_log (size - ar_offset a) in if n =? 0 then None else Some (Z.to_nat n)).
Proof.
  intros Hb Hs Hok. pose proof (ao_size _ _ _ _ _ Hok) as Hsz. pose proof (ao_off _ _ _ _ _ Hok) as Hoff. pose proof (align_pos align_log Hal).
  pose proof (rest_ok align_log Hal buf size a live Hb Hs Hok) as H1. destruct (bb_mem_arena_alloc_rest align_log (Some a)) as [[p n] a'].
  destruct H1 as (-> & Hp & _). exists p, (round_down align_log (ar_size a - ar_offset a)), a'. split; [done|]. rewrite Hsz in *. cbv zeta.
  destruct (round_down_spec align_log Hal (size - ar_offset a) ltac:(lia)) as [E _].
  assert (0 <= round_down align_log (size - ar_offset a)) by (rewrite E; apply Z.mul_nonneg_nonneg; [lia|apply Z.div_pos; lia]).
  destruct (Z.eqb_spec p 0), (Z.eqb_spec (round_down align_log (size - ar_offset a)) 0); lia || done.
Qed.

(** The three control structures and the rest, from a fresh arena. *)
Lemma layout scratch cap a : 0 < scratch -> scratch + cap <= 2 ^ 64 ->
  bb_mem_arena_init align_log sizeof_arena true scratch cap = (BB_OK, Some a) ->
  let '(rec, a1) := bb_mem_arena_alloc align_log (Some a) sizeof_rec in
  let '(pctx, a2) := bb_mem_arena_alloc align_log a1 sizeof_ctx in
  let '(pool, a3) := bb_mem_arena_alloc align_log a2 pool_bytes in
  (rec =? 0) || (pctx =? 0) || (pool =? 0) = (cap <? scratch_need) /\
  (scratch_need <= cap -> exists p n a4, bb_mem_arena_alloc_rest align_log a3 = (p, n, a4) /\
     (if p =? 0 then None else Some (Z.to_nat n)) = string_room cap).
Proof.
  intros Hs Hcap Hi. destruct (init_ok align_log sizeof_arena Hal Ha scratch cap a Hs Hcap Hi) as (Hok & Hh & _ & Hmin).
  unfold scratch_need, string_room, scratch_need. set (H := BB_MEM_ARENA_HDR_SZ align_log sizeof_arena) in *.
  assert (Hp : 0 < pool_bytes < 2 ^ 32) by (unfold pool_bytes, BB_SERIALIZE_JSON_TOK_POOL_DEFAULT_CAP; lia).
  pose proof (sizes_up sizeof_rec Hr). pose proof (sizes_up sizeof_ctx Hc). pose proof (sizes_up pool_bytes Hp). pose proof (align_pos align_log Hal).
  assert (Ho0 : ar_offset a = 0).
  { unfold bb_mem_arena_init, bb_mem_arena_carve in Hi. destruct (_ || _); [done|]. by injection Hi as <-. }
  destruct (alloc_next (scratch + H) (cap - H) a [] sizeof_rec ltac:(lia) ltac:(lia) Hok Hr) as (p1 & a1 & l1 & -> & -> & O1 & K1).
  destruct (alloc_next (scratch + H) (cap - H) a1 l1 sizeof_ctx ltac:(lia) ltac:(lia) K1 Hc) as (p2 & a2 & l2 & -> & -> & O2 & K2).
  destruct (alloc_next (scratch + H) (cap - H) a2 l2 pool_bytes ltac:(lia) ltac:(lia) K2 Hp) as (p3 & a3 & l3 & -> & -> & O3 & K3).
  destruct (rest_room (scratch + H) (cap - H) a3 l3 ltac:(lia) ltac:(lia) K3) as (p & n & a4 & E4 & E).
  rewrite Ho0 in O1. rewrite O1 in O2. rewrite O2 in O3. rewrite Ho0, O1, O2. clear - H0 H1 H2 H3 O3 Hh E4 E. split; [zcases; cbn; lia|].
  intros Hneed. exists p, n, a4. split; [done|]. rewrite E, O3.
  repeat match goal with |- context [Z.ltb ?x ?y] => destruct (Z.ltb_spec x y) end; try lia. cbv zeta. by rewrite Z.add_0_l, !Z.sub_add_distr.
Qed.
End Layout.

(** * Properties *)

Section Outcome.
Context (align_log sizeof_arena sizeof_rec sizeof_ctx sizeof_tok : Z).
Context (Hal : 0 <= align_log <= 12) (Ha : 0 <= sizeof_arena < 2 ^ 32).
Context (Hr : 0 < sizeof_rec < 2 ^ 32) (Hc : 0 < sizeof_ctx < 2 ^ 32) (Ht : 0 < sizeof_tok < 2 ^ 16).
Abbreviation parse := (bb_serialize_json_parse_bytes align_log sizeof_arena sizeof_rec sizeof_ctx sizeof_tok).
Abbreviation need := (scratch_need align_log sizeof_arena sizeof_rec sizeof_ctx sizeof_tok).
(** The recorder a parse starts from. *)
Definition parse_recorder (cap : Z) : recorder :=
  mk_rec [] BB_SERIALIZE_JSON_TOK_POOL_DEFAULT_CAP [] (string_room align_log sizeof_arena sizeof_rec sizeof_ctx sizeof_tok cap) [] None.

Lemma parse_outcome text scratch cap : 0 < scratch -> scratch + cap <= 2 ^ 64 ->
  parse (Some text) scratch cap true =
  if cap <? need then Some (BB_ERR_NO_SPACE, None) else
  match bb_serialize_json_scan_bounded bb_serialize_json_tok_recorder_ingest text (parse_recorder cap) with
  | Some (BB_OK, r) => Some (BB_OK, Some (bb_serialize_json_populate_from_tok r))
  | Some (rc, _) => Some (rc, None)
  | None => None
  end.
Proof.
  intros Hs Hcap. unfold bb_serialize_json_parse_bytes. cbn [negb]. rewrite orb_false_r. destruct (Z.eqb_spec scratch 0); [lia|].
  destruct (bb_mem_arena_init align_log sizeof_arena true scratch cap) as [rc [a|]] eqn:Ei.
  - assert (rc = BB_OK) as -> by (unfold bb_mem_arena_init, bb_mem_arena_carve in Ei; destruct (_ || _); congruence).
    pose proof (layout align_log sizeof_arena sizeof_rec sizeof_ctx sizeof_tok Hal Ha Hr Hc Ht scratch cap a Hs Hcap Ei) as Hl.
    destruct (bb_mem_arena_alloc align_log (Some a) sizeof_rec) as [p1 a1]. destruct (bb_mem_arena_alloc align_log a1 sizeof_ctx) as [p2 a2].
    unfold pool_bytes in Hl. destruct (bb_mem_arena_alloc align_log a2 _) as [p3 a3]. destruct Hl as [-> Hrest].
    destruct (Z.ltb_spec cap need); [done|]. destruct (Hrest ltac:(lia)) as (p & n' & a4 & -> & ->). done.
  - assert (Hsmall : rc <> BB_OK /\ cap < need).
    { unfold bb_mem_arena_init, bb_mem_arena_carve in Ei. cbn [negb orb] in Ei. destruct (Z.eqb_spec scratch 0); [lia|]. cbn [orb] in Ei.
      pose proof (align_pos align_log Hal). destruct (round_up_spec align_log Hal sizeof_arena) as [_ Hu]; [unfold SIZE_MAX; lia|].
      fold (BB_MEM_ARENA_HDR_SZ align_log sizeof_arena) in Hu. rewrite u64_small in Ei by lia.
      destruct (Z.ltb_spec cap (BB_MEM_ARENA_HDR_SZ align_log sizeof_arena + BB_MEM_ARENA_ALIGN align_log)); [|congruence]. split; [congruence|].
      assert (Hp : 0 < pool_bytes sizeof_tok < 2 ^ 32) by (unfold pool_bytes, BB_SERIALIZE_JSON_TOK_POOL_DEFAULT_CAP; lia).
      pose proof (sizes_up align_log Hal sizeof_rec Hr). pose proof (sizes_up align_log Hal sizeof_ctx Hc).
      pose proof (sizes_up align_log Hal _ Hp). unfold scratch_need. lia. }
    destruct Hsmall as [H1 H2]. destruct (Z.ltb_spec cap need); [|lia]. by destruct rc.
Qed.
End Outcome.

(** C12: what bb_serialize_json_parse_bytes answers.  It always returns.  A NULL
    argument is BB_ERR_INVALID_ARG; a scratch buffer too small for the arena's
    header and the three control structures is BB_ERR_NO_SPACE, and that
    threshold is exact; otherwise the answer is that of the bounded scan into a
    recorder of the default pool with all the aligned rest of the scratch for
    decoded strings, and a source is bound exactly on BB_OK. *)
Theorem parse_bytes_outcome align_log sizeof_arena sizeof_rec sizeof_ctx sizeof_tok buf scratch cap out_ok :
  0 <= align_log <= 12 -> 0 <= sizeof_arena < 2 ^ 32 -> 0 < sizeof_rec < 2 ^ 32 -> 0 < sizeof_ctx < 2 ^ 32 -> 0 < sizeof_tok < 2 ^ 16 ->
  0 <= scratch -> scratch + cap <= 2 ^ 64 ->
  let parse := bb_serialize_json_parse_bytes align_log sizeof_arena sizeof_rec sizeof_ctx sizeof_tok in
  exists rc src, parse buf scratch cap out_ok = Some (rc, src) /\ (rc = BB_OK <-> src <> None) /\
  match buf with
  | None => rc = BB_ERR_INVALID_ARG
  | Some text =>
      if (scratch =? 0) || negb out_ok then rc = BB_ERR_INVALID_ARG else
      if cap <? scratch_need align_log sizeof_arena sizeof_rec sizeof_ctx sizeof_tok then rc = BB_ERR_NO_SPACE else
      exists r, bb_serialize_json_scan_bounded bb_serialize_json_tok_recorder_ingest text
                  (parse_recorder align_log sizeof_arena sizeof_rec sizeof_ctx sizeof_tok cap) = Some (rc, r) /\
                (rc = BB_OK -> src = Some (bb_serialize_json_populate_from_tok r))
  end.
Proof.
  intros Hal Ha Hr Hc Ht Hs Hcap parse. unfold parse. destruct buf as [text|]; [|by do 2 eexists].
  destruct ((scratch =? 0) || negb out_ok) eqn:Eg.
  { unfold bb_serialize_json_parse_bytes. rewrite Eg. by do 2 eexists. }
  apply orb_false_iff in Eg as [Eg1 Eg2]. apply negb_false_iff in Eg2 as ->. apply Z.eqb_neq in Eg1.
  rewrite parse_outcome by (try done; lia). destruct (cap <? _); [by do 2 eexists|].
  destruct (scan_bounded_total bb_serialize_json_tok_recorder_ingest text
    (parse_recorder align_log sizeof_arena sizeof_rec sizeof_ctx sizeof_tok cap)) as (rc & r & E). rewrite E.
  destruct rc; do 2 eexists; (split; [reflexivity|]); (split; [split; [done|try done; congruence]|exists r; split; [done|congruence]]).
Qed.

Definition small_doc : list byte := bs "[1]".
Lemma parse_bytes_outcome_witness :
  scratch_need 4 64 200 320 48 = 2896 /\
  bb_serialize_json_parse_bytes 4 64 200 320 48 (Some small_doc) 4096 2895 true = Some (BB_ERR_NO_SPACE, None) /\
  exists rc src, bb_serialize_json_parse_bytes 4 64 200 320 48 (Some small_doc) 4096 2896 true = Some (rc, src) /\ (rc = BB_OK <-> src <> None).
Proof.
  split; [vm_compute; reflexivity|]. split; [vm_compute; reflexivity|].
  destruct (parse_bytes_outcome 4 64 200 320 48 (Some small_doc) 4096 2896 true) as (rc & src & H1 & H2 & _); try lia.
  by exists rc, src.
Defined.


Abbreviation rt_bound := (bb_serialize_json_parse_bytes 4 64 200 320 48 (Some rt_text) 4096 4096 true).
