(* ===== verification/Data.v ===== *)
(** The data plane: components/bb_data/src/bb_data.c over the generic registry,
    with the format dispatch of components/bb_serialize/src/bb_serialize_format.c
    and components/bb_core/src/bb_format.c. *)
From Stdlib Require Import Strings.String.
From S2P Require Import Prelude Bytes Arena Walk JsonWrite JsonScan ScanSim Registry Tok Populate Scatter PopulateBack Parse.

(** * Formats *)

Inductive bb_format : Set := BB_FORMAT_NONE | BB_FORMAT_JSON | BB_FORMAT_CONSOLE | BB_FORMAT_LOGFMT.
#[export] Instance bb_format_eq_dec : EqDecision bb_format.
Proof. solve_decision. Defined.

(** The pointer to a format's name, 0 for NULL, and the text there. *)
Definition bb_format_name (fmt : bb_format) : Z :=
  match fmt with BB_FORMAT_NONE => 0 | BB_FORMAT_JSON => 1 | BB_FORMAT_CONSOLE => 2 | BB_FORMAT_LOGFMT => 3 end.
Definition s_bb_format_names (p : Z) : list byte :=
  if p =? 1 then bs "json" else if p =? 2 then bs "console" else bs "logfmt".

(** [bb_serialize_format_entry_t]: the addresses of two functions. *)
Record format_entry := mk_fentry { fe_render : Z; fe_parse : Z }.

Section Formats.
(** The entries in memory. *)
Context (entry_of : Z -> format_entry).

Definition bb_serialize_format_register (fmt : bb_format) (entry : Z) (r : bb_registry) : bb_err * bb_registry :=
  if entry =? 0 then (BB_ERR_INVALID_ARG, r) else
  let name := bb_format_name fmt in
  if name =? 0 then (BB_ERR_INVALID_ARG, r) else
  let existing := bb_registry_lookup s_bb_format_names BB_OK name r in
  if existing =? 0 then bb_registry_register s_bb_format_names BB_OK name entry r else
  if (fe_render (entry_of existing) =? fe_render (entry_of entry)) && (fe_parse (entry_of existing) =? fe_parse (entry_of entry))
  then (BB_OK, r) else (BB_ERR_INVALID_STATE, r).
Definition bb_serialize_format_lookup (fmt : bb_format) (r : bb_registry) : Z :=
  let name := bb_format_name fmt in if name =? 0 then 0 else bb_registry_lookup s_bb_format_names BB_OK name r.
Definition bb_serialize_format_get_render (fmt : bb_format) (r : bb_registry) : Z :=
  let e := bb_serialize_format_lookup fmt r in if e =? 0 then 0 else fe_render (entry_of e).
Definition bb_serialize_format_get_parse (fmt : bb_format) (r : bb_registry) : Z :=
  let e := bb_serialize_format_lookup fmt r in if e =? 0 then 0 else fe_parse (entry_of e).
End Formats.

(** * The binding table *)

Section Data.
(** What the application keeps, and a request's query. *)
Context {App Query : Type}.
Context (BB_DATA_MAX_BINDINGS BB_DATA_KEY_MAX : nat).

(** Everything a hook can change. *)
Record world := mk_world { w_app : App; w_mem : mem }.
(** Hooks, with the context they were bound with: gather fills the snapshot at
    an address, apply stores it, and a row gather fills an array of rows and
    answers how many. *)
Definition gather_hook : Type := Z -> option Query -> world -> bb_err * world.
Definition apply_hook : Type := Z -> world -> bb_err * world.
Definition row_gather_hook : Type := Z -> nat -> option Query -> world -> nat * world.
Definition plain_fill : Type := Z -> world -> bb_err * world.

(** [gather_plain] is bb_data_gather_plain; its context is the binding's. *)
Inductive gather_fn : Type := gather_plain | gather_other (f : gather_hook).
Record row_binding := mk_rows { rb_desc : option serialize_desc; rb_gather : option row_gather_hook; rb_size : Z }.
Inductive replay_kind : Set := BB_DATA_STATE | BB_DATA_EVENT.
(** [db_ctx]: NULL, or what a bb_data_plain_fill_ctx_t there has as its fill. *)
Record binding := mk_binding {
  db_key : option (list byte); db_desc : option serialize_desc; db_gather : option gather_fn; db_apply : option apply_hook;
  db_ctx : option (option plain_fill); db_replay : replay_kind; db_rows : option row_binding
}.

Record data_slot := mk_slot { ds_in_use : bool; ds_key : list byte; ds_binding : binding; ds_generation : Z }.
Definition binding0 : binding := mk_binding None None None None None BB_DATA_STATE None.
Definition slot0 : data_slot := mk_slot false [] binding0 0.
(** The slots and the registry of their addresses: slot [i] is at [i + 1]. *)
Record data := mk_data { dt_slots : list data_slot; dt_registry : bb_registry }.
Definition data0 : data := mk_data (repeat slot0 BB_DATA_MAX_BINDINGS) (BB_REGISTRY_DEFINE BB_DATA_MAX_BINDINGS).
Definition slot_addr (i : nat) : Z := Z.of_nat i + 1.
Definition slot_index (a : Z) : nat := Z.to_nat (a - 1).

(** The text at a pointer to a name: a slot's [key], or the caller's at -1. *)
Definition CALLER : Z := -1.
Definition name_text (key : list byte) (slots : list data_slot) (p : Z) : list byte :=
  if p =? CALLER then key else match slots !! slot_index p with Some s => ds_key s | None => [] end.

Definition find_slot (key : list byte) (d : data) : Z := bb_registry_lookup (name_text key (dt_slots d)) BB_OK CALLER (dt_registry d).
Fixpoint free_slot_from (slots : list data_slot) (i : nat) : option nat :=
  match slots with [] => None | s :: slots => if negb (ds_in_use s) then Some i else free_slot_from slots (S i) end.
Definition find_free_slot (d : data) : option nat := free_slot_from (dt_slots d) 0.

Definition bb_data_gather_plain (dst : Z) (ctx : option (option plain_fill)) (w : world) : bb_err * world :=
  match ctx with
  | None => (BB_ERR_INVALID_ARG, w)
  | Some None => (BB_ERR_INVALID_ARG, w)
  | Some (Some fill) => fill dst w
  end.
Definition call_gather (b : binding) (g : gather_fn) (dst : Z) (query : option Query) (w : world) : bb_err * world :=
  match g with gather_plain => bb_data_gather_plain dst (db_ctx b) w | gather_other f => f dst query w end.

(** The checks of bb_data_bind. *)
Definition binding_ok (b : binding) : option (list byte) :=
  match db_key b with
  | None => None
  | Some key =>
      let desc := match db_desc b with Some _ => true | None => false end in
      let gather := match db_gather b with Some _ => true | None => false end in
      let rows := match db_rows b with Some _ => true | None => false end in
      let apply := match db_apply b with Some _ => true | None => false end in
      if negb (desc && gather) && negb (negb desc && negb gather && rows) then None else
      if negb desc && apply then None else
      if (BB_DATA_KEY_MAX <=? length key)%nat then None else
      if match db_rows b with
         | Some r => match rb_desc r, rb_gather r with Some d, Some _ => negb (rb_size r =? sd_snap_size d) | _, _ => true end
         | None => false
         end then None else
      if match db_gather b with Some gather_plain => match db_ctx b with Some (Some _) => false | _ => true end | _ => false end then None else
      Some key
  end.

Definition put_binding (b : binding) (i : nat) (slots : list data_slot) : list data_slot :=
  match slots !! i with Some s => <[i := mk_slot (ds_in_use s) (ds_key s) b (ds_generation s)]> slots | None => slots end.

Definition bb_data_bind (b : option binding) (d : data) : bb_err * data :=
  match b with
  | None => (BB_ERR_INVALID_ARG, d)
  | Some b =>
      match binding_ok b with
      | None => (BB_ERR_INVALID_ARG, d)
      | Some key =>
          let found := find_slot key d in
          if found =? 0 then
            match find_free_slot d with
            | None => (BB_ERR_NO_SPACE, d)
            | Some i =>
                let copy := match dt_slots d !! i with
                            | Some s => <[i := mk_slot (ds_in_use s) (take (BB_DATA_KEY_MAX - 1) key) (ds_binding s) (ds_generation s)]> (dt_slots d)
                            | None => dt_slots d
                            end in
                let '(rc, reg) := bb_registry_register (name_text key copy) BB_OK (slot_addr i) (slot_addr i) (dt_registry d) in
                if negb (is_ok rc) then (rc, mk_data copy reg) else
                let used := match copy !! i with Some s => <[i := mk_slot true (ds_key s) (ds_binding s) (ds_generation s)]> copy | None => copy end in
                (BB_OK, mk_data (put_binding b i used) reg)
            end
          else (BB_OK, mk_data (put_binding b (slot_index found) (dt_slots d)) (dt_registry d))
      end
  end.

Definition with_slot {T} (key : option (list byte)) (d : data) (absent : T) (f : nat -> data_slot -> T) : T :=
  match key with
  | None => absent
  | Some key => let a := find_slot key d in if a =? 0 then absent else match dt_slots d !! slot_index a with Some s => f (slot_index a) s | None => absent end
  end.

Definition bb_data_binding_replay_kind (key : option (list byte)) (out_ok : bool) (d : data) : bb_err * option replay_kind :=
  if match key with None => true | _ => false end || negb out_ok then (BB_ERR_INVALID_ARG, None) else
  with_slot key d (BB_ERR_NOT_FOUND, None) (fun _ s => (BB_OK, Some (db_replay (ds_binding s)))).
Definition bb_data_touch (key : option (list byte)) (d : data) : bb_err * data :=
  match key with
  | None => (BB_ERR_INVALID_ARG, d)
  | _ => with_slot key d (BB_ERR_NOT_FOUND, d) (fun i s =>
      (BB_OK, mk_data (<[i := mk_slot (ds_in_use s) (ds_key s) (ds_binding s) (u32 (ds_generation s + 1))]> (dt_slots d)) (dt_registry d)))
  end.
Definition bb_data_generation (key : option (list byte)) (out_ok : bool) (d : data) : bb_err * option Z :=
  if match key with None => true | _ => false end || negb out_ok then (BB_ERR_INVALID_ARG, None) else
  with_slot key d (BB_ERR_NOT_FOUND, None) (fun _ s => (BB_OK, Some (ds_generation s))).

(** * Rendering and applying *)

Section Formatted.
(** The registered formats and the code at their addresses: what a render
    function leaves in its buffer, and what a parse function answers, [None] only
    if its scan did not end. *)
Definition source : Type := populate_state * populate_src populate_state.
Context (entry_of : Z -> format_entry) (formats : bb_registry).
Context (render_code : Z -> serialize_desc -> mem -> Z -> nat -> bb_err * list byte).
Context (parse_code : Z -> option (list byte) -> Z -> Z -> option (bb_err * option source)).
Context (ptr_size : nat) (tables : nat -> list field).

(** Pointers that are NULL are 0; [buf_cap] is [None] for a NULL buffer. *)
Definition bb_data_render (fmt : bb_format) (key : option (list byte)) (query : option Query) (scratch scratch_cap : Z) (buf_cap : option nat)
    (out_ok : bool) (d : data) (w : world) : bb_err * list byte * world :=
  match key, buf_cap with
  | Some _, Some buf_cap =>
      if (scratch =? 0) || negb out_ok then (BB_ERR_INVALID_ARG, [], w) else
      with_slot key d (BB_ERR_NOT_FOUND, [], w) (fun _ s =>
        let render := bb_serialize_format_get_render entry_of fmt formats in
        if render =? 0 then (BB_ERR_UNSUPPORTED, [], w) else
        match db_desc (ds_binding s), db_gather (ds_binding s) with
        | Some desc, Some g =>
            if scratch_cap <? sd_snap_size desc then (BB_ERR_NO_SPACE, [], w) else
            let '(rc, w) := call_gather (ds_binding s) g scratch query w in
            if negb (is_ok rc) then (rc, [], w) else (render_code render desc (w_mem w) scratch buf_cap, w)
        | _, _ => (BB_ERR_UNSUPPORTED, [], w)
        end)
  | _, _ => (BB_ERR_INVALID_ARG, [], w)
  end.

Definition BB_DATA_ROW_LINE_MAX_BYTES : nat := 160.
(** The lines emitted, with the code. *)
Fixpoint rows_loop (n : nat) (render : Z) (desc : serialize_desc) (m : mem) (row : Z) (size : Z) : bb_err * list (list byte) :=
  match n with
  | O => (BB_OK, [])
  | S n =>
      let '(rc, line) := render_code render desc m row BB_DATA_ROW_LINE_MAX_BYTES in
      if negb (is_ok rc) then (rc, []) else
      let '(rc, lines) := rows_loop n render desc m (row + size) size in (rc, line :: lines)
  end.
Definition bb_data_render_rows (fmt : bb_format) (key : option (list byte)) (query : option Query) (row_scratch : Z) (max_rows : nat) (emit_ok : bool)
    (d : data) (w : world) : bb_err * list (list byte) * world :=
  if match key with None => true | _ => false end || (row_scratch =? 0) || negb emit_ok then (BB_ERR_INVALID_ARG, [], w) else
  with_slot key d (BB_ERR_NOT_FOUND, [], w) (fun _ s =>
    if negb (bool_decide (fmt = BB_FORMAT_CONSOLE)) then (BB_ERR_UNSUPPORTED, [], w) else
    match db_rows (ds_binding s) with
    | None => (BB_ERR_UNSUPPORTED, [], w)
    | Some rows =>
        let render := bb_serialize_format_get_render entry_of BB_FORMAT_CONSOLE formats in
        if render =? 0 then (BB_ERR_UNSUPPORTED, [], w) else
        match rb_gather rows, rb_desc rows with
        | Some g, Some row_desc =>
            let '(n, w) := g row_scratch max_rows query w in
            let n := if (max_rows <? n)%nat then max_rows else n in
            (rows_loop n render row_desc (w_mem w) row_scratch (rb_size rows), w)
        | _, _ => (BB_ERR_UNSUPPORTED, [], w)
        end
    end).

(** [bb_data_parsed_t]: the slot and the source. *)
Definition bb_data_parse (fmt : bb_format) (key : option (list byte)) (body : option (list byte)) (body_len : nat) (parse_scratch parse_scratch_cap : Z) (out_ok : bool)
    (d : data) : option (bb_err * option (nat * source)) :=
  if match key with None => true | _ => false end || (parse_scratch =? 0) || negb out_ok then Some (BB_ERR_INVALID_ARG, None) else
  if (0 <? body_len)%nat && match body with None => true | _ => false end then Some (BB_ERR_INVALID_ARG, None) else
  with_slot key d (Some (BB_ERR_NOT_FOUND, None)) (fun i s =>
    let parse := bb_serialize_format_get_parse entry_of fmt formats in
    if parse =? 0 then Some (BB_ERR_UNSUPPORTED, None) else
    match db_apply (ds_binding s) with
    | None => Some (BB_ERR_UNSUPPORTED, None)
    | Some _ =>
        match parse_code parse (take body_len <$> body) parse_scratch parse_scratch_cap with
        | None => None
        | Some (rc, src) =>
            if negb (is_ok rc) then Some (rc, None) else match src with Some src => Some (BB_OK, Some (i, src)) | None => Some (rc, None) end
        end
    end).

Inductive apply_mode : Set := BB_DATA_APPLY_POST | BB_DATA_APPLY_PATCH.
(** What a commit comes to; [NullCall]: the code calls through a NULL apply
    pointer. *)
Inductive outcome : Type := Returned (rc : bb_err) (w : world) | NullCall.
(** The destination before the document is poured into it. *)
Definition seed_dst (b : binding) (g : gather_fn) (desc : serialize_desc) (mode : apply_mode) (dst : Z) (w : world) : bb_err * world :=
  match mode with
  | BB_DATA_APPLY_PATCH => call_gather b g dst None w
  | BB_DATA_APPLY_POST => (BB_OK, mk_world (w_app w) (mwrite (w_mem w) dst (repeat x00 (Z.to_nat (sd_snap_size desc)))))
  end.
Definition bb_data_commit (parsed : option (nat * source)) (mode : apply_mode) (dst dst_cap : Z) (d : data) (w : world) : outcome :=
  match parsed with
  | None => Returned BB_ERR_INVALID_ARG w
  | Some (i, (st, src)) =>
      if dst =? 0 then Returned BB_ERR_INVALID_ARG w else
      match dt_slots d !! i with
      | None => Returned BB_ERR_INVALID_ARG w
      | Some s =>
          match db_desc (ds_binding s), db_gather (ds_binding s) with
          | Some desc, Some g =>
              if dst_cap <? sd_snap_size desc then Returned BB_ERR_NO_SPACE w else
              let '(rc, w) := seed_dst (ds_binding s) g desc mode dst w in
              if negb (is_ok rc) then Returned rc w else
              let '(rc, m, _) := bb_serialize_populate ptr_size tables src (Some desc) dst true (w_mem w) st in
              let w := mk_world (w_app w) m in
              if negb (is_ok rc) then Returned rc w else
              match db_apply (ds_binding s) with Some apply => let '(rc, w) := apply dst w in Returned rc w | None => NullCall end
          | _, _ => Returned BB_ERR_UNSUPPORTED w
          end
      end
  end.
Definition bb_data_apply (fmt : bb_format) (key : option (list byte)) (mode : apply_mode) (body : option (list byte)) (body_len : nat) (parse_scratch parse_scratch_cap : Z)
    (dst dst_cap : Z) (d : data) (w : world) : option outcome :=
  if dst =? 0 then Some (Returned BB_ERR_INVALID_ARG w) else
  match bb_data_parse fmt key body body_len parse_scratch parse_scratch_cap true d with
  | None => None
  | Some (rc, parsed) => if negb (is_ok rc) then Some (Returned rc w) else Some (bb_data_commit parsed mode dst dst_cap d w)
  end.
End Formatted.
End Data.

(** * The shared scratch *)

Definition bb_data_scratch_acquire (out_ok in_use : bool) : bb_err * bool :=
  if negb out_ok then (BB_ERR_INVALID_ARG, in_use) else if in_use then (BB_ERR_INVALID_STATE, in_use) else (BB_OK, true).
Definition bb_data_scratch_release (in_use : bool) : bool := false.

(** * The table is a bounded map *)

Section Table.
Context {App Query : Type}.
Context (max key_max : nat).
Abbreviation bnd := (binding (App := App) (Query := Query)).
Abbreviation slt := (data_slot (App := App) (Query := Query)).
Abbreviation dta := (data (App := App) (Query := Query)).

(** Keys in the order of their first binding, each with what it is bound to now
    and how often it was touched. *)
Abbreviation entries := (list (list byte * bnd * Z)).

Definition keyed (key : list byte) (e : list byte * bnd * Z) : bool := bool_decide (e.1.1 = key).
Fixpoint index_of (key : list byte) (l : entries) : option nat :=
  match l with [] => None | e :: l => if keyed key e then Some 0%nat else S <$> index_of key l end.

Record table_rel (d : dta) (l : entries) : Prop := {
  tr_len : length (dt_slots d) = max;
  tr_cap : rg_capacity (dt_registry d) = max;
  tr_open : rg_frozen (dt_registry d) = false;
  tr_wf : registry_wf (name_text [] (dt_slots d)) false (dt_registry d);
  tr_live : live (dt_registry d) = map (fun i => (slot_addr i, slot_addr i)) (seq 0 (length l));
  tr_bound : forall i e, l !! i = Some e -> dt_slots d !! i = Some (mk_slot true e.1.1 e.1.2 e.2);
  tr_free : forall i s, (length l <= i)%nat -> dt_slots d !! i = Some s -> ds_in_use s = false /\ ds_generation s = 0;
  tr_once : NoDup (map (fun e => e.1.1) l);
  tr_valid : Forall (fun e => binding_ok key_max e.1.2 = Some e.1.1) l
}.

Lemma tr_room d l : table_rel d l -> (length l <= max)%nat.
Proof.
  intros Hr. pose proof (rw_count _ _ _ (tr_wf _ _ Hr)) as H. pose proof (rw_array _ _ _ (tr_wf _ _ Hr)) as H1. rewrite (tr_cap _ _ Hr) in *.
  pose proof (f_equal length (tr_live _ _ Hr)) as Hl. unfold live in Hl. rewrite length_take, length_map, length_seq in Hl. lia.
Qed.

Lemma slot_addr_index i : slot_index (slot_addr i) = i.
Proof. unfold slot_index, slot_addr. lia. Qed.
Lemma slot_addr_caller i : (slot_addr i =? CALLER) = false.
Proof. unfold slot_addr, CALLER. apply Z.eqb_neq. lia. Qed.
Lemma slot_addr_null i : (slot_addr i =? 0) = false.
Proof. unfold slot_addr. apply Z.eqb_neq. lia. Qed.
Lemma name_text_slot key (slots : list slt) i s : slots !! i = Some s -> name_text key slots (slot_addr i) = ds_key s.
Proof. intros H. unfold name_text. by rewrite slot_addr_caller, slot_addr_index, H. Qed.

Lemma wf_any_key key d l : table_rel d l -> registry_wf (name_text key (dt_slots d)) false (dt_registry d).
Proof.
  intros Hr. eapply registry_wf_ext; [apply Hr|]. rewrite (tr_live _ _ Hr). apply Forall_forall. intros e He.
  apply list_elem_of_fmap in He as (i & -> & _). cbn. unfold name_text. by rewrite slot_addr_caller.
Qed.

Lemma index_of_spec key l : match index_of key l with
  | Some i => exists e, l !! i = Some e /\ e.1.1 = key
  | None => Forall (fun e => e.1.1 <> key) l
  end.
Proof.
  induction l as [|e l IH]; [constructor|]. cbn [index_of]. unfold keyed. destruct (decide (e.1.1 = key)) as [He|He].
  - rewrite bool_decide_true by done. by exists e.
  - rewrite bool_decide_false by done. destruct (index_of key l) as [i|]; cbn; [|by constructor]. destruct IH as (e' & H1 & H2). by exists e'.
Qed.

(** Looking a key up finds its slot. *)
Lemma data_find_slot_spec key d l : table_rel d l -> find_slot key d = match index_of key l with Some i => slot_addr i | None => 0 end.
Proof.
  intros Hr. unfold find_slot, bb_registry_lookup. change (CALLER =? 0) with false. cbv iota.
  rewrite (rg_lookup_spec (name_text key (dt_slots d)) CALLER false (dt_registry d)) by by eapply wf_any_key. rewrite (tr_live _ _ Hr).
  assert (Hb : forall i e, l !! i = Some e -> has_key (name_text key (dt_slots d)) false CALLER (slot_addr i, slot_addr i) = keyed key e).
  { intros i e Hi. unfold has_key, same_key, keyed. cbn [fst]. rewrite (name_text_slot key _ i _ (tr_bound _ _ Hr i e Hi)). cbn [ds_key].
    unfold name_text. change (CALLER =? CALLER) with true. done. }
  revert Hb. clear Hr. generalize (dt_slots d) as slots. intros slots Hb.
  assert (Hgo : forall k, (forall i e, l !! i = Some e -> has_key (name_text key slots) false CALLER (slot_addr (k + i), slot_addr (k + i)) = keyed key e) ->
    match find (has_key (name_text key slots) false CALLER) (map (fun i => (slot_addr i, slot_addr i)) (seq k (length l))) with Some e => e.2 | None => 0 end =
    match index_of key l with Some i => slot_addr (k + i) | None => 0 end).
  { clear Hb. induction l as [|e l IH]; intros k Hb; [done|]. cbn [length seq map find index_of]. pose proof (Hb 0%nat e eq_refl) as H0. rewrite Nat.add_0_r in H0. rewrite H0.
    destruct (keyed key e); [by rewrite Nat.add_0_r|]. rewrite (IH (S k)).
    - destruct (index_of key l); [|done]. cbn. f_equal. lia.
    - intros i e' Hi. replace (S k + i)%nat with (k + S i)%nat by lia. by apply Hb. }
  apply (Hgo 0%nat). intros i e Hi. by apply Hb.
Qed.

Lemma free_slot_spec d l : table_rel d l -> find_free_slot d = if (length l <? max)%nat then Some (length l) else None.
Proof.
  intros Hr. unfold find_free_slot. pose proof (tr_room d l Hr) as Hle. pose proof (tr_bound _ _ Hr) as Hb. pose proof (tr_free _ _ Hr) as Hf. rewrite <- (tr_len _ _ Hr) in *.
  assert (Hgo : forall (slots : list slt) n k, (n <= length slots)%nat -> (forall i s, (i < n)%nat -> slots !! i = Some s -> ds_in_use s = true) ->
    (forall i s, (n <= i)%nat -> slots !! i = Some s -> ds_in_use s = false) ->
    free_slot_from slots k = if (n <? length slots)%nat then Some (k + n)%nat else None).
  { induction slots as [|s slots IH]; intros n k Hn Hu Hfr; [by rewrite (proj2 (Nat.ltb_ge _ _)) by (cbn; lia)|]. cbn [free_slot_from]. destruct n as [|n].
    - rewrite (Hfr 0%nat s) by done. cbn. by rewrite Nat.add_0_r.
    - rewrite (Hu 0%nat s) by (done || lia). cbn [negb]. rewrite (IH n (S k)).
      + cbn [length]. change (S n <? S (length slots))%nat with (n <? length slots)%nat. destruct (n <? length slots)%nat; [f_equal; lia|done].
      + cbn in Hn. lia.
      + intros i s' Hi Hs. apply (Hu (S i) s'); [lia|done].
      + intros i s' Hi Hs. apply (Hfr (S i) s'); [lia|done]. }
  rewrite (Hgo (dt_slots d) (length l) 0%nat); [done|done| |].
  - intros i s Hi Hs. destruct (lookup_lt_is_Some_2 l i Hi) as [e He]. rewrite (Hb i e He) in Hs. by injection Hs as <-.
  - intros i s Hi Hs. by apply (Hf i s).
Qed.

(** ** The specification of the calls *)

Definition bound (key : list byte) (b : bnd) (l : entries) : bb_err * entries :=
  match index_of key l with
  | Some i => (BB_OK, alter (fun e => (e.1.1, b, e.2)) i l)
  | None => if (length l <? max)%nat then (BB_OK, l ++ [(key, b, 0)]) else (BB_ERR_NO_SPACE, l)
  end.

Lemma alter_slots_rel d l i f g slots' : table_rel d l ->
  (forall e, l !! i = Some e -> (f e).1.1 = e.1.1 /\ binding_ok key_max (f e).1.2 = Some (f e).1.1 /\ g (mk_slot true e.1.1 e.1.2 e.2) = mk_slot true (f e).1.1 (f e).1.2 (f e).2) ->
  (i < length l)%nat -> slots' = alter g i (dt_slots d) ->
  table_rel (mk_data slots' (dt_registry d)) (alter f i l).
Proof.
  intros [H1 H2 H3 H4 H5 H6 H7 H8 H9] Hfg Hi ->. destruct (lookup_lt_is_Some_2 l i Hi) as [e He]. destruct (Hfg e He) as (Hk & Hv & Hg).
  assert (Hmap : map (fun e => e.1.1) (alter f i l) = map (fun e => e.1.1) l).
  { apply list_eq. intros j. rewrite !list_lookup_fmap. destruct (decide (i = j)) as [<-|Hn]; [|by rewrite list_lookup_alter_ne].
    rewrite list_lookup_alter_eq, He. cbn. by rewrite Hk. }
  assert (Hkeys : forall j s, dt_slots d !! j = Some s -> exists s', alter g i (dt_slots d) !! j = Some s' /\ (j = i -> ds_key s' = ds_key s) /\ (j <> i -> s' = s)).
  { intros j s Hs. destruct (decide (j = i)) as [->|Hn].
    - rewrite (H6 i e He) in Hs. injection Hs as <-. rewrite list_lookup_alter_eq, (H6 i e He). cbn. eexists. split; [done|]. split; [|done]. intros _. by rewrite Hg.
    - rewrite list_lookup_alter_ne by done. exists s. by rewrite Hs. }
  split; cbn [dt_slots dt_registry]; try done.
  - by rewrite length_alter.
  - eapply registry_wf_ext; [exact H4|]. rewrite H5. apply Forall_forall. intros x Hx. apply list_elem_of_fmap in Hx as (j & -> & Hj). cbn [fst].
    apply list_elem_of_In, in_seq in Hj. destruct (lookup_lt_is_Some_2 l j ltac:(lia)) as [e' He']. pose proof (H6 j e' He') as Hs.
    destruct (Hkeys j _ Hs) as (s' & Hs' & Ha & Hb). rewrite (name_text_slot [] _ j _ Hs), (name_text_slot [] _ j _ Hs').
    destruct (decide (j = i)); [by apply Ha|by rewrite Hb].
  - by rewrite length_alter.
  - intros j e' He'. destruct (decide (i = j)) as [<-|Hn].
    + rewrite list_lookup_alter_eq, He in He'. injection He' as <-. rewrite list_lookup_alter_eq, (H6 i e He). cbn. by rewrite Hg.
    + rewrite list_lookup_alter_ne in He' by done. rewrite list_lookup_alter_ne by done. by apply H6.
  - intros j s Hj Hs. rewrite length_alter in Hj. rewrite list_lookup_alter_ne in Hs by lia. by apply (H7 j).
  - by rewrite Hmap.
  - rewrite Forall_lookup in H9 |- *. intros j x Hx. destruct (decide (i = j)) as [<-|Hn].
    + rewrite list_lookup_alter_eq, He in Hx. by injection Hx as <-.
    + rewrite list_lookup_alter_ne in Hx by done. by eapply H9.
Qed.

Lemma snoc_slots_rel d l key b reg : table_rel d l -> (length l < max)%nat -> Forall (fun e => e.1.1 <> key) l -> binding_ok key_max b = Some key ->
  registry_wf (name_text [] (<[length l := mk_slot true key b 0]> (dt_slots d))) false reg -> rg_capacity reg = max -> rg_frozen reg = false ->
  live reg = live (dt_registry d) ++ [(slot_addr (length l), slot_addr (length l))] ->
  table_rel (mk_data (<[length l := mk_slot true key b 0]> (dt_slots d)) reg) (l ++ [(key, b, 0)]).
Proof.
  intros [H1 H2 H3 H4 H5 H6 H7 H8 H9] Hl Hk Hv Hw Hc Ho Hlive. split; cbn [dt_slots dt_registry]; try done.
  - by rewrite length_insert.
  - rewrite Hlive, H5, length_app. cbn [length]. rewrite Nat.add_1_r, seq_S, map_app. done.
  - intros i e He. apply lookup_app_Some in He as [He|[Hi He]].
    + pose proof (lookup_lt_Some _ _ _ He). rewrite list_lookup_insert_ne by lia. by apply H6.
    + destruct (i - length l)%nat as [|k] eqn:Ek; [|done]. injection He as <-. replace i with (length l) by lia. rewrite list_lookup_insert_eq by lia. done.
  - intros i s Hi Hs. rewrite length_app in Hi. cbn in Hi. rewrite list_lookup_insert_ne in Hs by lia. apply (H7 i); [lia|done].
  - rewrite map_app. apply NoDup_app. split_and!; [done| |apply NoDup_singleton]. intros k Hin ->%list_elem_of_singleton.
    apply list_elem_of_fmap in Hin as (e & He & Hin). rewrite Forall_forall in Hk. by apply (Hk e Hin).
  - apply Forall_app. split; [done|]. by apply Forall_singleton.
Qed.

(** Only the slot's key matters to the registry. *)
Lemma text_insert key (slots : list slt) i j s : i <> j -> name_text key (<[i := s]> slots) (slot_addr j) = name_text key slots (slot_addr j).
Proof. intros H. unfold name_text. by rewrite slot_addr_caller, slot_addr_index, list_lookup_insert_ne. Qed.
Lemma live_texts d l key key' s : table_rel d l -> (length l < max)%nat ->
  Forall (fun e => name_text key' (<[length l := s]> (dt_slots d)) e.1 = name_text key (dt_slots d) e.1) (live (dt_registry d)).
Proof.
  intros Hr Hl. rewrite (tr_live _ _ Hr). apply Forall_forall. intros e He. apply list_elem_of_fmap in He as (j & -> & Hj%list_elem_of_In%in_seq).
  cbn [fst]. rewrite text_insert by lia. unfold name_text. by rewrite slot_addr_caller.
Qed.

(** Registering the key of a fresh slot. *)
Lemma register_slot d l key s : table_rel d l -> (length l < max)%nat -> Forall (fun e => e.1.1 <> key) l -> ds_key s = key ->
  let a := bb_registry_register (name_text key (<[length l := s]> (dt_slots d))) BB_OK (slot_addr (length l)) (slot_addr (length l)) (dt_registry d) in
  a.1 = BB_OK /\ rg_capacity a.2 = max /\ rg_frozen a.2 = false /\
  live a.2 = live (dt_registry d) ++ [(slot_addr (length l), slot_addr (length l))] /\
  registry_wf (name_text key (<[length l := s]> (dt_slots d))) false a.2.
Proof.
  intros Hr Hl Hk Hs. cbv zeta. unfold bb_registry_register. rewrite slot_addr_null. cbn [orb]. set (str := name_text key (<[length l := s]> (dt_slots d))).
  assert (Hw : registry_wf str false (dt_registry d)) by (eapply registry_wf_ext; [by eapply (wf_any_key [])|by apply live_texts]).
  pose proof (rg_register_spec str BB_OK (slot_addr (length l)) (slot_addr (length l)) false (dt_registry d) Hw) as H. cbv zeta in H.
  destruct H as (H1 & H2 & H3 & H4). rewrite (tr_open _ _ Hr) in *. rewrite (tr_cap _ _ Hr) in *. cbn [is_ok negb andb] in H4.
  assert (Hfree : forallb (fun e => negb (has_key str false (slot_addr (length l)) e)) (live (dt_registry d)) = true).
  { rewrite (tr_live _ _ Hr). apply forallb_forall. intros e He%list_elem_of_In. apply list_elem_of_fmap in He as (j & -> & Hj%list_elem_of_In%in_seq).
    unfold has_key, same_key. cbn [fst]. unfold str. rewrite text_insert by lia. destruct (lookup_lt_is_Some_2 l j ltac:(lia)) as [e He].
    rewrite (name_text_slot key _ j _ (tr_bound _ _ Hr j e He)). cbn [ds_key].
    rewrite (name_text_slot key _ (length l) s) by (rewrite list_lookup_insert_eq; [done|by rewrite (tr_len _ _ Hr)]). rewrite Hs.
    rewrite bool_decide_false; [done|]. rewrite Forall_forall in Hk. apply Hk. by eapply list_elem_of_lookup_2. }
  rewrite Hfree in H4. pose proof (f_equal length (tr_live _ _ Hr)) as Hll. rewrite length_map, length_seq in Hll. rewrite Hll, (proj2 (Nat.ltb_lt _ _) Hl) in H4.
  cbn [andb] in H4. destruct H4 as [H4 H5]. by split_and!.
Qed.

Lemma binding_ok_key (b : bnd) key : binding_ok key_max b = Some key -> (length key < key_max)%nat.
Proof.
  unfold binding_ok. destruct (db_key b) as [k|]; [|done]. cbv zeta. destruct (_ && _); [done|]. destruct (_ && _); [done|].
  destruct (Nat.leb_spec key_max (length k)); [done|]. repeat case_match; try done; intros [= <-]; done.
Qed.
Lemma bind_rel (b : bnd) d l key : table_rel d l -> binding_ok key_max b = Some key ->
  (bb_data_bind key_max (Some b) d).1 = (bound key b l).1 /\ table_rel (bb_data_bind key_max (Some b) d).2 (bound key b l).2.
Proof.
  intros Hr Hb. unfold bb_data_bind, bound. rewrite Hb, (data_find_slot_spec key d l Hr). pose proof (index_of_spec key l) as Hi.
  destruct (index_of key l) as [i|].
  - rewrite slot_addr_null. cbn [fst snd]. split; [done|]. destruct Hi as (e & He & Hek). rewrite slot_addr_index.
    apply (alter_slots_rel d l i _ (fun s => mk_slot (ds_in_use s) (ds_key s) b (ds_generation s))); [done| |by eapply lookup_lt_Some|].
    { intros e' He'. rewrite He in He'. injection He' as <-. cbn. by rewrite Hek. }
    unfold put_binding. rewrite (tr_bound _ _ Hr i e He). cbn [ds_in_use ds_key ds_generation].
    apply list_eq. intros j. destruct (decide (i = j)) as [<-|Hn]; [|by rewrite list_lookup_insert_ne, list_lookup_alter_ne].
    rewrite list_lookup_insert_eq by (eapply lookup_lt_Some, (tr_bound _ _ Hr i e He)). by rewrite list_lookup_alter_eq, (tr_bound _ _ Hr i e He).
  - change (0 =? 0) with true. cbv iota. rewrite (free_slot_spec d l Hr). destruct (Nat.ltb_spec (length l) max) as [Hl|Hl]; [|done].
    destruct (lookup_lt_is_Some_2 (dt_slots d) (length l)) as [s Hs]; [by rewrite (tr_len _ _ Hr)|]. rewrite Hs.
    destruct (tr_free _ _ Hr (length l) s (le_n _) Hs) as [_ Hg]. rewrite Hg.
    assert (Hkey : take (key_max - 1) key = key).
    { apply take_ge. pose proof (binding_ok_key b key Hb). lia. }
    rewrite Hkey. destruct (register_slot d l key (mk_slot (ds_in_use s) key (ds_binding s) 0) Hr Hl Hi eq_refl) as (R1 & R2 & R3 & R4 & R5).
    set (reg := bb_registry_register _ _ _ _ _) in *. clearbody reg. destruct reg as [rc reg]. cbn [fst snd] in *. subst rc. cbn [is_ok negb].
    unfold put_binding. rewrite !list_lookup_insert_eq by (rewrite ?length_insert, (tr_len _ _ Hr); lia). cbn [ds_in_use ds_key ds_binding ds_generation fst snd].
    rewrite !list_insert_insert_eq. split; [done|]. apply snoc_slots_rel; try done. eapply registry_wf_ext; [exact R5|]. rewrite R4, (tr_live _ _ Hr).
    apply Forall_app. split; [apply Forall_forall; intros e He|apply Forall_singleton].
    + apply list_elem_of_fmap in He as (j & -> & Hj%list_elem_of_In%in_seq). cbn [fst]. rewrite !text_insert by lia. unfold name_text. by rewrite slot_addr_caller.
    + cbn [fst]. by erewrite !name_text_slot by (rewrite list_lookup_insert_eq; [done|rewrite (tr_len _ _ Hr); lia]).
Qed.

Lemma with_slot_spec {T} key d l (absent : T) f : table_rel d l ->
  with_slot (Some key) d absent f =
  match index_of key l with Some i => match l !! i with Some e => f i (mk_slot true e.1.1 e.1.2 e.2) | None => absent end | None => absent end.
Proof.
  intros Hr. unfold with_slot. rewrite (data_find_slot_spec key d l Hr). pose proof (index_of_spec key l) as Hi. destruct (index_of key l) as [i|]; [|done].
  rewrite slot_addr_null, slot_addr_index. destruct Hi as (e & He & _). by rewrite He, (tr_bound _ _ Hr i e He).
Qed.

(** ** Any sequence of calls *)

Inductive data_call : Type :=
  | Bind (b : option bnd) | Touch (key : option (list byte)) | Generation (key : option (list byte)) | ReplayKind (key : option (list byte)).
Inductive data_answer : Type := DCode (e : bb_err) | DGen (e : bb_err) (g : option Z) | DKind (e : bb_err) (k : option replay_kind).

Definition data_step (c : data_call) (d : dta) : data_answer * dta :=
  match c with
  | Bind b => let a := bb_data_bind key_max b d in (DCode a.1, a.2)
  | Touch key => let a := bb_data_touch key d in (DCode a.1, a.2)
  | Generation key => let a := bb_data_generation key true d in (DGen a.1 a.2, d)
  | ReplayKind key => let a := bb_data_binding_replay_kind key true d in (DKind a.1 a.2, d)
  end.
Definition found (key : list byte) (l : entries) : option (list byte * bnd * Z) := i ← index_of key l; l !! i.
Definition map_step (c : data_call) (l : entries) : data_answer * entries :=
  match c with
  | Bind None => (DCode BB_ERR_INVALID_ARG, l)
  | Bind (Some b) => match binding_ok key_max b with None => (DCode BB_ERR_INVALID_ARG, l) | Some key => let a := bound key b l in (DCode a.1, a.2) end
  | Touch None => (DCode BB_ERR_INVALID_ARG, l)
  | Touch (Some key) =>
      match index_of key l with
      | Some i => (DCode BB_OK, alter (fun e => (e.1.1, e.1.2, u32 (e.2 + 1))) i l)
      | None => (DCode BB_ERR_NOT_FOUND, l)
      end
  | Generation None => (DGen BB_ERR_INVALID_ARG None, l)
  | Generation (Some key) => (match found key l with Some e => DGen BB_OK (Some e.2) | None => DGen BB_ERR_NOT_FOUND None end, l)
  | ReplayKind None => (DKind BB_ERR_INVALID_ARG None, l)
  | ReplayKind (Some key) => (match found key l with Some e => DKind BB_OK (Some (db_replay e.1.2)) | None => DKind BB_ERR_NOT_FOUND None end, l)
  end.
Fixpoint data_run {S} (step : data_call -> S -> data_answer * S) (cs : list data_call) (s : S) : list data_answer * S :=
  match cs with [] => ([], s) | c :: cs => let a := step c s in let b := data_run step cs a.2 in (a.1 :: b.1, b.2) end.

Lemma touch_rel key d l : table_rel d l -> let a := bb_data_touch (Some key) d in let s := map_step (Touch (Some key)) l in
  DCode a.1 = s.1 /\ table_rel a.2 s.2.
Proof.
  intros Hr. cbv zeta. unfold bb_data_touch, map_step. rewrite (with_slot_spec key d l _ _ Hr). pose proof (index_of_spec key l) as Hi.
  destruct (index_of key l) as [i|]; [|done]. destruct Hi as (e & He & _). rewrite He. cbn [fst snd ds_in_use ds_key ds_binding ds_generation]. split; [done|].
  apply (alter_slots_rel d l i _ (fun s => mk_slot (ds_in_use s) (ds_key s) (ds_binding s) (u32 (ds_generation s + 1)))); [done| |by eapply lookup_lt_Some|].
  { intros e' He'. cbn. pose proof (tr_valid _ _ Hr) as Hv. rewrite Forall_lookup in Hv. by split_and!; [|eapply Hv|]. }
  apply list_eq. intros j. destruct (decide (i = j)) as [<-|Hn]; [|by rewrite list_lookup_insert_ne, list_lookup_alter_ne].
  rewrite list_lookup_insert_eq by (eapply lookup_lt_Some, (tr_bound _ _ Hr i e He)). by rewrite list_lookup_alter_eq, (tr_bound _ _ Hr i e He).
Qed.
Lemma data_step_rel c d l : table_rel d l -> (data_step c d).1 = (map_step c l).1 /\ table_rel (data_step c d).2 (map_step c l).2.
Proof.
  intros Hr. destruct c as [[b|]|[key|]|[key|]|[key|]]; try done; cbn [data_step map_step]; cbv zeta; cbn [fst snd].
  - destruct (binding_ok key_max b) as [key|] eqn:Eb.
    + destruct (bind_rel b d l key Hr Eb) as [H1 H2]. cbn [fst snd]. by rewrite H1.
    + unfold bb_data_bind. by rewrite Eb.
  - by apply touch_rel.
  - split; [|done]. unfold bb_data_generation. cbn [orb negb]. rewrite (with_slot_spec key d l _ _ Hr). unfold found, mbind, option_bind.
    destruct (index_of key l) as [i|]; [|done]. by destruct (l !! i).
  - split; [|done]. unfold bb_data_binding_replay_kind. cbn [orb negb]. rewrite (with_slot_spec key d l _ _ Hr). unfold found, mbind, option_bind.
    destruct (index_of key l) as [i|]; [|done]. by destruct (l !! i).
Qed.
Lemma data0_rel : table_rel (data0 max) [].
Proof.
  split; cbn [data0 dt_slots dt_registry]; try done; try (apply define_wf).
  - apply repeat_length.
  - intros i s _ Hs. assert (H : In s (repeat slot0 max)) by (apply list_elem_of_In; by eapply list_elem_of_lookup_2). apply repeat_spec in H as ->. done.
  - constructor.
Qed.

(** C27: any sequence of binds, touches and queries on the static table answers
    as a map of at most BB_DATA_MAX_BINDINGS keys does: a valid binding is stored
    under its key, binding a key again replaces what it is bound to and keeps its
    generation, a new key beyond the capacity is refused, and a generation counts
    the touches of its key modulo 2^32. *)
Theorem data_table_refines_map cs :
  (data_run data_step cs (data0 max)).1 = (data_run map_step cs []).1 /\
  table_rel (data_run data_step cs (data0 max)).2 (data_run map_step cs []).2.
Proof.
  pose proof data0_rel as Hr. revert Hr. generalize (data0 (App := App) (Query := Query) max) as d, (@nil (list byte * bnd * Z)) as l. induction cs as [|c cs IH]; intros d l Hr; [done|].
  cbn [data_run]. cbv zeta. cbn [fst snd]. destruct (data_step_rel c d l Hr) as [H1 H2]. destruct (IH _ _ H2) as [H3 H4]. by rewrite H1, H3.
Qed.
End Table.

(** * JSON through the table *)

Section Json.
Context {App Query : Type}.
Context (max key_max : nat).
Abbreviation bnd' := (binding (App := App) (Query := Query)).
Abbreviation dta' := (data (App := App) (Query := Query)).
Abbreviation wld := (world (App := App)).
(** The build's sizes and tables, as in Parse. *)
Context (align_log sizeof_arena sizeof_rec sizeof_ctx sizeof_tok : Z).
Context (Hal : 0 <= align_log <= 12) (Ha : 0 <= sizeof_arena < 2 ^ 32) (Hr : 0 < sizeof_rec < 2 ^ 32) (Hc : 0 < sizeof_ctx < 2 ^ 32) (Ht : 0 < sizeof_tok < 2 ^ 16).
Context (ptr_size : nat) (tables : nat -> list field) (iter_rows : Z -> Z -> mem -> list snap) (junk : nat -> json_level).

(** bb_json_format_render and the parse entry of bb_serialize_json_format.c. *)
Definition bb_json_format_render (desc : serialize_desc) (m : mem) (a : Z) (cap : nat) : bb_err * list byte :=
  bb_serialize_json_render ptr_size tables iter_rows junk (Some desc) (Some (mk_snap m a)) cap None false.
Definition json_parse (body : option (list byte)) (scratch cap : Z) : option (bb_err * option source) :=
  bb_serialize_json_parse_bytes align_log sizeof_arena sizeof_rec sizeof_ctx sizeof_tok body scratch cap true.

(** The registered formats and the code they point to. *)
Context (entry_of : Z -> format_entry) (formats : bb_registry).
Context (render_code : Z -> serialize_desc -> mem -> Z -> nat -> bb_err * list byte).
Context (parse_code : Z -> option (list byte) -> Z -> Z -> option (bb_err * option source)).
Record json_registered : Prop := {
  jr_render : bb_serialize_format_get_render entry_of BB_FORMAT_JSON formats <> 0;
  jr_render_code : render_code (bb_serialize_format_get_render entry_of BB_FORMAT_JSON formats) = bb_json_format_render;
  jr_parse : bb_serialize_format_get_parse entry_of BB_FORMAT_JSON formats <> 0;
  jr_parse_code : parse_code (bb_serialize_format_get_parse entry_of BB_FORMAT_JSON formats) = json_parse
}.
Context (Hj : json_registered).

Abbreviation render := (bb_data_render (App := App) (Query := Query) entry_of formats render_code).
Abbreviation parse_body := (bb_data_parse (App := App) (Query := Query) entry_of formats parse_code).
Abbreviation apply_body := (bb_data_apply (App := App) (Query := Query) entry_of formats parse_code ptr_size tables).
Abbreviation commit := (bb_data_commit (App := App) (Query := Query) ptr_size tables).

(** A successful parse. *)
Lemma parse_ok key body n scratch cap d l i src : table_rel max key_max d l ->
  parse_body BB_FORMAT_JSON (Some key) body n scratch cap true d = Some (BB_OK, Some (i, src)) ->
  index_of key l = Some i /\ json_parse (take n <$> body) scratch cap = Some (BB_OK, Some src) /\ scratch <> 0 /\
  exists e ap, l !! i = Some e /\ e.1.1 = key /\ db_apply e.1.2 = Some ap.
Proof.
  intros Hrel. unfold bb_data_parse. cbn [orb negb]. rewrite orb_false_r. destruct (Z.eqb_spec scratch 0); [done|]. destruct (_ && _); [done|].
  rewrite (with_slot_spec max key_max key d l _ _ Hrel). pose proof (index_of_spec key l) as Hi. destruct (index_of key l) as [j|]; [|done]. destruct Hi as (e & He & Hk). rewrite He.
  rewrite (proj2 (Z.eqb_neq _ _) (jr_parse Hj)), (jr_parse_code Hj). cbn [ds_binding]. destruct (db_apply e.1.2) as [ap|] eqn:Eap; [|done].
  destruct (json_parse (take n <$> body) scratch cap) as [[rc [s|]]|] eqn:Ep; [| |done]; destruct rc; cbn [is_ok negb]; try done; intros [= <- <-].
  split_and!; try done. by exists e, ap.
Qed.

(** What a bound key with an apply hook has. *)
Lemma bound_shape (e : list byte * bnd' * Z) ap : binding_ok key_max e.1.2 = Some e.1.1 -> db_apply e.1.2 = Some ap -> exists desc g, db_desc e.1.2 = Some desc /\ db_gather e.1.2 = Some g.
Proof.
  unfold binding_ok. intros H Hap. destruct (db_key e.1.2); [|done]. rewrite Hap in H. destruct (db_desc e.1.2) as [desc|], (db_gather e.1.2) as [g|]; cbn in H; try done; [by exists desc, g|].
  by destruct (db_rows e.1.2).
Qed.


(** The parse of a body always ends, and binds a source exactly on success. *)
Lemma json_parse_total body scratch cap : 0 < scratch -> scratch + cap <= 2 ^ 64 -> exists rc src, json_parse body scratch cap = Some (rc, src) /\ (rc = BB_OK <-> src <> None).
Proof.
  intros Hs Hcap. destruct body as [text|]; [|by do 2 eexists]. unfold json_parse.
  rewrite (parse_outcome align_log sizeof_arena sizeof_rec sizeof_ctx sizeof_tok Hal Ha Hr Hc Ht text scratch cap Hs Hcap).
  destruct (cap <? _); [by do 2 eexists|].
  destruct (scan_bounded_total bb_serialize_json_tok_recorder_ingest text (parse_recorder align_log sizeof_arena sizeof_rec sizeof_ctx sizeof_tok cap)) as (rc & r & ->).
  destruct rc; do 2 eexists; (split; [reflexivity|]); split; try done; congruence.
Qed.

(** Every commit of a parsed body on the slot it was parsed for. *)
Lemma commit_outcome d l i e src mode dst dst_cap w : table_rel max key_max d l -> l !! i = Some e ->
  exists desc g, (db_apply e.1.2 <> None -> db_desc e.1.2 = Some desc /\ db_gather e.1.2 = Some g) /\
  forall ap, db_apply e.1.2 = Some ap ->
  exists rc w', commit (Some (i, src)) mode dst dst_cap d w = Returned rc w' /\
  ((exists m', (rc, w') = ap dst (mk_world (w_app (seed_dst e.1.2 g desc mode dst w).2) m') /\ (seed_dst e.1.2 g desc mode dst w).1 = BB_OK) \/
   (rc <> BB_OK /\ (w' = w \/ w' = (seed_dst e.1.2 g desc mode dst w).2))).
Proof.
  intros Hrel Hi. pose proof (tr_valid _ _ _ _ Hrel) as Hv. rewrite Forall_lookup in Hv. specialize (Hv i e Hi).
  destruct (db_apply e.1.2) as [ap|] eqn:Eap; [|exists (mk_sdesc [] 0 0), gather_plain; by split].
  destruct (bound_shape e ap Hv Eap) as (desc & g & Hd & Hg). exists desc, g. split; [done|]. intros ap' [= <-].
  unfold bb_data_commit. destruct src as [st src]. destruct (dst =? 0) eqn:Edst; [do 2 eexists; split; [done|]; right; split; [done|by left]|].
  rewrite (tr_bound _ _ _ _ Hrel i e Hi). cbn [ds_binding]. rewrite Hd, Hg. destruct (dst_cap <? sd_snap_size desc); [do 2 eexists; split; [done|]; right; split; [done|by left]|].
  destruct (seed_dst e.1.2 g desc mode dst w) as [rc w1]. destruct rc; cbn [is_ok negb fst snd]; try (do 2 eexists; split; [done|]; right; split; [done|by right]).
  pose proof (populate_outcome ptr_size tables src (Some desc) dst true (w_mem w1) st) as Hpop. cbv zeta in Hpop. rewrite Edst in Hpop. cbn [orb negb] in Hpop.
  destruct (bb_serialize_populate ptr_size tables src (Some desc) dst true (w_mem w1) st) as [[rc m'] st']. cbn [fst] in Hpop.
  destruct (is_ok (populate_check_fields tables BB_SERIALIZE_MAX_DEPTH (sd_fields desc))) eqn:Eck.
  - subst rc. cbn [is_ok negb]. rewrite Eap. destruct (ap dst (mk_world (w_app w1) m')) as [rc w3] eqn:Ea. exists rc, w3. split; [done|]. left. by exists m'.
  - injection Hpop as Hrc -> ->. assert (Eck' : is_ok rc = false) by (rewrite Hrc; exact Eck). rewrite Eck'. cbn [negb].
    do 2 eexists. split; [done|]. right. split; [intros E; by rewrite E in Eck'|]. right. by destruct w1.
Qed.

(** [bb_data_apply] on any request always returns, and never through a NULL
    hook: either the apply hook of the key ran, once, on a seeded and populated
    destination and its answer is the answer, or the answer is an error and the
    application's state is that of the seeding at most. *)
Theorem data_apply_outcome d l key mode body n pscr pcap dst dst_cap w :
  table_rel max key_max d l -> 0 <= pscr -> pscr + pcap <= 2 ^ 64 ->
  exists rc w', apply_body BB_FORMAT_JSON key mode body n pscr pcap dst dst_cap d w = Some (Returned rc w') /\
  ((exists k e desc g ap m', key = Some k /\ found k l = Some e /\ db_desc e.1.2 = Some desc /\ db_gather e.1.2 = Some g /\ db_apply e.1.2 = Some ap /\
      (seed_dst e.1.2 g desc mode dst w).1 = BB_OK /\ (rc, w') = ap dst (mk_world (w_app (seed_dst e.1.2 g desc mode dst w).2) m')) \/
   (rc <> BB_OK /\ (w' = w \/ exists k e desc g, key = Some k /\ found k l = Some e /\ w' = (seed_dst e.1.2 g desc mode dst w).2))).
Proof.
  intros Hrel Hs Hcap. unfold bb_data_apply. destruct (dst =? 0) eqn:Edst; [do 2 eexists; split; [done|]; right; split; [done|by left]|].
  assert (Hp : exists rc p, parse_body BB_FORMAT_JSON key body n pscr pcap true d = Some (rc, p) /\ (rc = BB_OK -> exists x, p = Some x)).
  { unfold bb_data_parse. destruct key as [key|]; cbn [orb negb]; [|by do 2 eexists; split; [reflexivity|discriminate]]. rewrite orb_false_r. destruct (Z.eqb_spec pscr 0); [by do 2 eexists; split; [reflexivity|discriminate]|].
    destruct (_ && _); [by do 2 eexists; split; [reflexivity|discriminate]|]. rewrite (with_slot_spec max key_max key d l _ _ Hrel). destruct (index_of key l) as [i|]; [|by do 2 eexists; split; [reflexivity|discriminate]].
    destruct (l !! i) as [e|]; [|by do 2 eexists; split; [reflexivity|discriminate]]. rewrite (proj2 (Z.eqb_neq _ _) (jr_parse Hj)). cbn [ds_binding]. destruct (db_apply e.1.2); [|by do 2 eexists; split; [reflexivity|discriminate]].
    rewrite (jr_parse_code Hj). destruct (json_parse_total (take n <$> body) pscr pcap ltac:(lia) Hcap) as (rc & src & -> & Hiff).
    destruct src as [src|]; [|destruct rc; cbn; try (by do 2 eexists; split; [reflexivity|discriminate]); by destruct (proj1 Hiff eq_refl)].
    rewrite (proj2 Hiff) by done. cbn. do 2 eexists. split; [done|]. intros _. by eexists. }
  destruct Hp as (rc & p & Hp & Hok). rewrite Hp. destruct (is_ok rc) eqn:Erc; cbn [negb].
  2:{ do 2 eexists. split; [done|]. right. split; [intros ->; done|by left]. }
  apply is_ok_true in Erc as ->. destruct (Hok eq_refl) as [[i src] ->]. destruct key as [key|]; [|by unfold bb_data_parse in Hp].
  destruct (parse_ok key body n pscr pcap d l i src Hrel Hp) as (Hi & _ & _ & e & ap & He & Hk & Hap).
  assert (Hf : found key l = Some e) by (unfold found; rewrite Hi; exact He).
  destruct (commit_outcome d l i e src mode dst dst_cap w Hrel He) as (desc & g & Hdg & Hcom). destruct Hdg as [Hd Hg]; [by rewrite Hap|].
  destruct (Hcom ap Hap) as (rc & w' & Hc' & Hor). rewrite Hc'. exists rc, w'. split; [done|].
  destruct Hor as [(m' & Ha' & Hs')|[Hn Hw]]; [left; by exists key, e, desc, g, ap, m'|right]. split; [done|]. destruct Hw as [-> | ->]; [by left|right; by exists key, e, desc, g].
Qed.

(** A parse and its commit are two calls, and the key may be bound anew
    between them. When the new binding has a descriptor and a gather hook but no
    apply hook, which bb_data_bind accepts, the commit of the body parsed for the
    old one calls through the NULL apply pointer; only the case of a new binding
    without a descriptor is caught. *)
Theorem data_commit_calls_null d l key body n pscr pcap parsed b desc dst dst_cap w :
  table_rel max key_max d l ->
  parse_body BB_FORMAT_JSON (Some key) body n pscr pcap true d = Some (BB_OK, Some parsed) ->
  binding_ok key_max b = Some key -> db_desc b = Some desc -> db_apply b = None ->
  populate_check_fields tables BB_SERIALIZE_MAX_DEPTH (sd_fields desc) = BB_OK -> dst <> 0 -> sd_snap_size desc <= dst_cap ->
  (bb_data_bind key_max (Some b) d).1 = BB_OK /\
  commit (Some parsed) BB_DATA_APPLY_POST dst dst_cap (bb_data_bind key_max (Some b) d).2 w = NullCall.
Proof.
  intros Hrel Hp Hb Hd Hna Hck Hdst Hcap. destruct parsed as [i [st src]]. destruct (parse_ok key body n pscr pcap d l i (st, src) Hrel Hp) as (Hi & _ & _ & e & ap & He & Hk & _).
  destruct (bind_rel max key_max b d l key Hrel Hb) as [H1 H2]. unfold bound in H1, H2. rewrite Hi in H1, H2. cbn [fst snd] in H1, H2. split; [done|].
  set (d' := (bb_data_bind key_max (Some b) d).2) in *. clearbody d'. unfold bb_data_commit. rewrite (proj2 (Z.eqb_neq _ _) Hdst).
  assert (Hi' : alter (fun e => (e.1.1, b, e.2)) i l !! i = Some (e.1.1, b, e.2)) by by rewrite list_lookup_alter_eq, He.
  rewrite (tr_bound _ _ _ _ H2 i _ Hi'). cbn [ds_binding fst snd]. rewrite Hd.
  assert (Hg : exists g, db_gather b = Some g).
  { unfold binding_ok in Hb. destruct (db_key b); [|done]. rewrite Hd in Hb. destruct (db_gather b) as [g|]; [by exists g|]. by destruct (db_rows b). }
  destruct Hg as [g Hg]. rewrite Hg. rewrite (proj2 (Z.ltb_ge _ _)) by lia. unfold seed_dst. cbn [is_ok negb w_mem w_app].
  set (m0 := mwrite (w_mem w) dst _). clearbody m0. pose proof (populate_outcome ptr_size tables src (Some desc) dst true m0 st) as Hpop. cbv zeta in Hpop.
  rewrite (proj2 (Z.eqb_neq _ _) Hdst), Hck in Hpop. cbn [orb negb is_ok] in Hpop. destruct (bb_serialize_populate ptr_size tables src (Some desc) dst true m0 st) as [[rc m'] st'].
  cbn [fst] in Hpop. subst rc. cbn [is_ok negb]. by rewrite Hna.
Qed.
End Json.

(** ** Witnesses *)

Definition wit_entry (_ : Z) : format_entry := mk_fentry 1 1.
(** Only JSON is registered, by its own entry. *)
Definition wit_formats : bb_registry := (bb_serialize_format_register wit_entry BB_FORMAT_JSON 100 (BB_REGISTRY_DEFINE 8)).2.
Definition wit_render (_ : Z) : serialize_desc -> mem -> Z -> nat -> bb_err * list byte := bb_json_format_render 4 rt_tables rt_rows wit_junk.
Definition wit_parse (_ : Z) : option (list byte) -> Z -> Z -> option (bb_err * option source) := json_parse 4 64 200 320 48.
Lemma wit_registered : json_registered 4 64 200 320 48 4 rt_tables rt_rows wit_junk wit_entry wit_formats wit_render wit_parse.
Proof. split; [vm_compute; discriminate|reflexivity|vm_compute; discriminate|reflexivity]. Qed.

(** A producer whose snapshot is [rt_src], and a consumer that wires its arrays
    and counts what it takes in. *)
Definition wit_out : binding (App := nat) (Query := unit) :=
  mk_binding (Some (bs "out")) (Some rt_desc) (Some (gather_other (fun dst _ w => (BB_OK, mk_world (w_app w) (s_mem rt_src))))) None None BB_DATA_STATE None.
Definition wit_in (hook : option (apply_hook (App := nat))) : binding (App := nat) (Query := unit) :=
  mk_binding (Some (bs "in")) (Some rt_desc) (Some (gather_other (fun dst _ w => (BB_OK, mk_world (w_app w) rt_mem)))) hook None BB_DATA_STATE None.
Definition wit_take : apply_hook (App := nat) := fun dst w => (BB_OK, mk_world (S (w_app w)) (w_mem w)).
Definition wit_data : data (App := nat) (Query := unit) := (data_run (data_step 48) [Bind (Some wit_out); Bind (Some (wit_in (Some wit_take)))] (data0 12)).2.
Definition wit_list : list (list byte * binding (App := nat) (Query := unit) * Z) := [(bs "out", wit_out, 0); (bs "in", wit_in (Some wit_take), 0)].
Lemma wit_rel : table_rel 12 48 wit_data wit_list.
Proof.
  pose proof (data0_rel (App := nat) (Query := unit) 12 48) as H0. destruct (data_step_rel 12 48 (Bind (Some wit_out)) _ _ H0) as [_ H1].
  destruct (data_step_rel 12 48 (Bind (Some (wit_in (Some wit_take)))) _ _ H1) as [_ H2]. exact H2.
Qed.
Definition wit_w : world (App := nat) := mk_world 0%nat (fun _ => x00).
Abbreviation wit_apply := (bb_data_apply (App := nat) (Query := unit) wit_entry wit_formats wit_parse 4 rt_tables).

Abbreviation wit_parsed := (bb_data_parse wit_entry wit_formats wit_parse BB_FORMAT_JSON (Some (bs "in")) (Some rt_text) (length rt_text) 4096 4096 true wit_data).
Lemma wit_parse_ok : exists parsed, wit_parsed = Some (BB_OK, Some parsed).
Proof.
  unfold bb_data_parse. cbn [orb negb]. replace (_ && _) with false by (vm_compute; reflexivity).
  rewrite (with_slot_spec 12 48 (bs "in") wit_data wit_list _ _ wit_rel).
  replace (index_of (bs "in") wit_list) with (Some 1%nat) by (vm_compute; reflexivity). cbn [wit_list lookup list_lookup ds_binding fst snd].
  replace (bb_serialize_format_get_parse wit_entry BB_FORMAT_JSON wit_formats =? 0) with false by (vm_compute; reflexivity).
  cbn [db_apply wit_in]. unfold wit_parse, json_parse. cbn [fmap option_fmap option_map]. rewrite firstn_all.
  assert (Hb : exists st src, rt_bound = Some (BB_OK, Some (st, src))).
  { rewrite parse_outcome by lia. replace (4096 <? _) with false by (vm_compute; reflexivity).
    destruct (bb_serialize_json_scan_bounded _ _ _) as [[rc r]|] eqn:E; vm_compute in E; [|discriminate E].
    destruct rc; try discriminate E. by do 2 eexists. }
  destruct Hb as (st & src & ->). by eexists.
Qed.
Abbreviation wit_sent := (mk_world (App := nat) 0%nat (s_mem rt_src)).
Abbreviation wit_seeded := (mk_world (App := nat) 0%nat rt_mem).


Lemma data_apply_outcome_witness : exists rc w',
  wit_apply BB_FORMAT_JSON (Some (bs "in")) BB_DATA_APPLY_PATCH (Some rt_text) (length rt_text) 4096 4096 1000 4096 wit_data wit_w = Some (Returned rc w').
Proof.
  destruct (data_apply_outcome (App := nat) (Query := unit) 12 48 4 64 200 320 48 ltac:(lia) ltac:(lia) ltac:(lia) ltac:(lia) ltac:(lia) 4 rt_tables rt_rows wit_junk
    wit_entry wit_formats wit_render wit_parse wit_registered wit_data wit_list (Some (bs "in")) BB_DATA_APPLY_PATCH (Some rt_text) (length rt_text) 4096 4096 1000 4096 wit_w)
    as (rc & w' & H & _); [exact wit_rel|lia|lia|].
  exists rc, w'. exact H.
Defined.

(** The key "in" bound anew, for rendering only, while a parsed body is at hand. *)
Lemma data_commit_calls_null_witness : exists parsed,
  wit_parsed = Some (BB_OK, Some parsed) /\
  (bb_data_bind 48 (Some (wit_in None)) wit_data).1 = BB_OK /\
  bb_data_commit 4 rt_tables (Some parsed) BB_DATA_APPLY_POST 1000 4096 (bb_data_bind 48 (Some (wit_in None)) wit_data).2 wit_w = NullCall.
Proof.
  destruct wit_parse_ok as [parsed Hp]. exists parsed. split; [exact Hp|].
  apply (data_commit_calls_null (App := nat) (Query := unit) 12 48 4 64 200 320 48 4 rt_tables rt_rows wit_junk wit_entry wit_formats wit_render wit_parse wit_registered
    wit_data wit_list (bs "in") (Some rt_text) (length rt_text) 4096 4096 parsed (wit_in None) rt_desc 1000 4096 wit_w).
  - exact wit_rel.
  - exact Hp.
  - reflexivity.
  - reflexivity.
  - reflexivity.
  - vm_compute. reflexivity.
  - discriminate.
  - vm_compute. discriminate.
Defined.
