(* ===== verification/DataHttp.v ===== *)
(** The egress of the data plane:
    components/bb_data_http/src/bb_data_http_common.c over Registry (the attach
    table) and Queue (the outbound queues and the shared event ring). *)
From Stdlib Require Import Strings.String.
From S2P Require Import Prelude Bytes Num Str Registry Queue.

Definition BB_DATA_HTTP_TOPIC_MAX : nat := 32.
Definition BB_DATA_HTTP_KEY_MAX : nat := 48.
Definition BB_DATA_HTTP_MAX_ATTACH : nat := 8.
Definition BB_DATA_HTTP_MAX_DESCRIBE : nat := 8.

(** The build's configuration symbols. *)
Record limits := mk_limits {
  MAX_CLIENTS : nat; MAX_BLOCKING_CLIENTS : nat; MAX_POLL_CLIENTS : nat; MAX_PUSH_CLIENTS : nat;
  OUTBOUND_CAPACITY : nat; OUTBOUND_ENTRY_MAX : nat; OUTBOUND_MAX_BYTES : nat; EVENT_RING_CAPACITY : nat;
  RENDER_SCRATCH_BYTES : Z; SEND_FAIL_MAX : Z; MIN_INTERVAL_MAX_MS : Z
}.

(** * State *)

Inductive dh_kind : Set := BB_DATA_HTTP_STATE | BB_DATA_HTTP_EVENT.
#[export] Instance dh_kind_eq_dec : EqDecision dh_kind.
Proof. solve_decision. Defined.
Definition kind_bit (k : dh_kind) : Z := match k with BB_DATA_HTTP_STATE => 1 | BB_DATA_HTTP_EVENT => 2 end.
Definition BB_DATA_HTTP_SUBSCRIBE_ALL : Z := Z.lor (kind_bit BB_DATA_HTTP_STATE) (kind_bit BB_DATA_HTTP_EVENT).

Record attach_slot := mk_attach { at_in_use : bool; at_key : list byte; at_topic : list byte; at_kind : dh_kind; at_min_interval : Z }.
Definition attach0 : attach_slot := mk_attach false [] [] BB_DATA_HTTP_STATE 0.
(** The slots and the registry of their addresses: slot [i] is at [i + 1]. *)
Record attach_table := mk_table { tb_slots : list attach_slot; tb_registry : bb_registry }.
Definition table0 : attach_table := mk_table (repeat attach0 BB_DATA_HTTP_MAX_ATTACH) (BB_REGISTRY_DEFINE BB_DATA_HTTP_MAX_ATTACH).

Record describe_entry := mk_describe { de_key : list byte; de_topic : list byte; de_component : list byte; de_schema : list byte }.

Record poll_state := mk_poll { po_dirty : Z; po_seen : list Z; po_due : list Z; po_never : Z }.
Record push_state := mk_push { pu_cursor : Z; pu_dropped : Z; pu_marker : bool }.
(** A pool's states and its flags. *)
Record pool {T : Type} := mk_pool { pl_states : list T; pl_used : list bool }.
Arguments pool : clear implicits.
Arguments mk_pool {T}.

Inductive lifetime : Set := LIFETIME_EPHEMERAL | LIFETIME_DURABLE.
(** [bb_data_http_client_t].  [cl_poll] and [cl_push] point into the pools by
    index; [cl_send] and [cl_abort] are addresses of functions, 0 for NULL, with
    their context. *)
Record client := mk_client {
  cl_in_use : bool; cl_warned : bool; cl_non_blocking : bool; cl_topic : list byte; cl_mask : Z;
  cl_poll : option nat; cl_push : option nat; cl_out : option queue; cl_out_max : nat;
  cl_fails : Z; cl_pending : bool; cl_send : Z; cl_abort : Z; cl_lifetime : lifetime
}.
Definition client0 : client := mk_client false false false [] 0 None None None 0 0 false 0 0 LIFETIME_EPHEMERAL.

(** The shared event ring and what is known of each key's generation. *)
Record event_ring := mk_ev { ev_ring : option queue; ev_total : Z; ev_last : list Z; ev_stale : Z }.
Record seams := mk_seams { se_render : Z; se_gen : Z; se_send : Z; se_abort : Z }.
Record dh_cfg := mk_cfg { cf_clients : nat; cf_polls : nat; cf_pushes : nat; cf_init : bool }.

(** The file's statics. *)
Record dh := mk_dh {
  d_table : attach_table; d_describe : list describe_entry; d_seams : seams; d_cfg : dh_cfg;
  d_clients : list client; d_reserved : list bool; d_polls : pool poll_state; d_pushes : pool push_state;
  d_ev : event_ring; d_render_fails : Z
}.
Definition set_table (t : attach_table) (s : dh) : dh :=
  mk_dh t (d_describe s) (d_seams s) (d_cfg s) (d_clients s) (d_reserved s) (d_polls s) (d_pushes s) (d_ev s) (d_render_fails s).
Definition set_describe (l : list describe_entry) (s : dh) : dh :=
  mk_dh (d_table s) l (d_seams s) (d_cfg s) (d_clients s) (d_reserved s) (d_polls s) (d_pushes s) (d_ev s) (d_render_fails s).
Definition set_seams (x : seams) (s : dh) : dh :=
  mk_dh (d_table s) (d_describe s) x (d_cfg s) (d_clients s) (d_reserved s) (d_polls s) (d_pushes s) (d_ev s) (d_render_fails s).
Definition set_clients (l : list client) (s : dh) : dh :=
  mk_dh (d_table s) (d_describe s) (d_seams s) (d_cfg s) l (d_reserved s) (d_polls s) (d_pushes s) (d_ev s) (d_render_fails s).
Definition set_reserved (l : list bool) (s : dh) : dh :=
  mk_dh (d_table s) (d_describe s) (d_seams s) (d_cfg s) (d_clients s) l (d_polls s) (d_pushes s) (d_ev s) (d_render_fails s).
Definition set_polls (p : pool poll_state) (s : dh) : dh :=
  mk_dh (d_table s) (d_describe s) (d_seams s) (d_cfg s) (d_clients s) (d_reserved s) p (d_pushes s) (d_ev s) (d_render_fails s).
Definition set_pushes (p : pool push_state) (s : dh) : dh :=
  mk_dh (d_table s) (d_describe s) (d_seams s) (d_cfg s) (d_clients s) (d_reserved s) (d_polls s) p (d_ev s) (d_render_fails s).
Definition set_ev (e : event_ring) (s : dh) : dh :=
  mk_dh (d_table s) (d_describe s) (d_seams s) (d_cfg s) (d_clients s) (d_reserved s) (d_polls s) (d_pushes s) e (d_render_fails s).
Definition count_render_fail (s : dh) : dh :=
  mk_dh (d_table s) (d_describe s) (d_seams s) (d_cfg s) (d_clients s) (d_reserved s) (d_polls s) (d_pushes s) (d_ev s) (u32 (d_render_fails s + 1)).
Definition upd_client (i : nat) (f : client -> client) (s : dh) : dh := set_clients (alter f i (d_clients s)) s.
Definition upd_poll (p : nat) (f : poll_state -> poll_state) (s : dh) : dh := set_polls (mk_pool (alter f p (pl_states (d_polls s))) (pl_used (d_polls s))) s.
Definition upd_push (p : nat) (f : push_state -> push_state) (s : dh) : dh := set_pushes (mk_pool (alter f p (pl_states (d_pushes s))) (pl_used (d_pushes s))) s.

(** Single fields of a client. *)
Definition cl_set_out (q : option queue) (c : client) : client :=
  mk_client (cl_in_use c) (cl_warned c) (cl_non_blocking c) (cl_topic c) (cl_mask c) (cl_poll c) (cl_push c) q (cl_out_max c) (cl_fails c) (cl_pending c) (cl_send c) (cl_abort c) (cl_lifetime c).
Definition cl_set_fails (n : Z) (c : client) : client :=
  mk_client (cl_in_use c) (cl_warned c) (cl_non_blocking c) (cl_topic c) (cl_mask c) (cl_poll c) (cl_push c) (cl_out c) (cl_out_max c) n (cl_pending c) (cl_send c) (cl_abort c) (cl_lifetime c).
Definition cl_set_warned (c : client) : client :=
  mk_client (cl_in_use c) true (cl_non_blocking c) (cl_topic c) (cl_mask c) (cl_poll c) (cl_push c) (cl_out c) (cl_out_max c) (cl_fails c) (cl_pending c) (cl_send c) (cl_abort c) (cl_lifetime c).
Definition cl_set_pending (c : client) : client :=
  mk_client (cl_in_use c) (cl_warned c) (cl_non_blocking c) (cl_topic c) (cl_mask c) (cl_poll c) (cl_push c) (cl_out c) (cl_out_max c) (cl_fails c) true (cl_send c) (cl_abort c) (cl_lifetime c).
Definition cl_set_non_blocking (b : bool) (c : client) : client :=
  mk_client (cl_in_use c) (cl_warned c) b (cl_topic c) (cl_mask c) (cl_poll c) (cl_push c) (cl_out c) (cl_out_max c) (cl_fails c) (cl_pending c) (cl_send c) (cl_abort c) (cl_lifetime c).
Definition cl_publish (c : client) : client :=
  mk_client true (cl_warned c) (cl_non_blocking c) (cl_topic c) (cl_mask c) (cl_poll c) (cl_push c) (cl_out c) (cl_out_max c) (cl_fails c) (cl_pending c) (cl_send c) (cl_abort c) (cl_lifetime c).
Definition cl_released (c : client) : client :=
  mk_client false (cl_warned c) (cl_non_blocking c) (cl_topic c) (cl_mask c) None None None (cl_out_max c) (cl_fails c) false (cl_send c) (cl_abort c) (cl_lifetime c).

(** * The attach and describe tables *)

Definition attach_addr (i : nat) : Z := Z.of_nat i + 1.
Definition attach_index (a : Z) : nat := Z.to_nat (a - 1).
(** The text at a pointer to a name: a slot's key, or the caller's at -1. *)
Definition attach_text (key : list byte) (slots : list attach_slot) (p : Z) : list byte :=
  if p =? -1 then key else match slots !! attach_index p with Some s => at_key s | None => [] end.
Fixpoint free_attach_from (slots : list attach_slot) (i : nat) : option nat :=
  match slots with [] => None | s :: slots => if negb (at_in_use s) then Some i else free_attach_from slots (S i) end.
Definition find_free_attach_slot (t : attach_table) : option nat := free_attach_from (tb_slots t) 0.
(** What bb_strlcpy leaves in a field of [n] bytes. *)
Definition field_text (n : nat) (s : list byte) : list byte := take (n - 1) s.

Record attach_cfg := mk_acfg { ac_key : option (list byte); ac_topic : option (list byte); ac_kind : dh_kind; ac_snap_size : Z; ac_min_interval : Z }.
Definition text_missing (s : option (list byte)) : bool := match s with None | Some [] => true | _ => false end.

Definition bb_data_http_attach (L : limits) (cfg : option attach_cfg) (t : attach_table) : bb_err * attach_table :=
  match cfg with
  | None => (BB_ERR_INVALID_ARG, t)
  | Some cfg =>
      if RENDER_SCRATCH_BYTES L <? ac_snap_size cfg then (BB_ERR_NO_SPACE, t) else
      if MIN_INTERVAL_MAX_MS L <? ac_min_interval cfg then (BB_ERR_NO_SPACE, t) else
      match ac_key cfg, ac_topic cfg with
      | Some key, Some topic =>
          if text_missing (ac_key cfg) || text_missing (ac_topic cfg) then (BB_ERR_INVALID_ARG, t) else
          if (BB_DATA_HTTP_KEY_MAX <=? length key)%nat then (BB_ERR_INVALID_ARG, t) else
          if (BB_DATA_HTTP_TOPIC_MAX <=? length topic)%nat then (BB_ERR_INVALID_ARG, t) else
          let filled i slots := alter (fun s => mk_attach (at_in_use s) (at_key s) (field_text BB_DATA_HTTP_TOPIC_MAX topic) (ac_kind cfg) (ac_min_interval cfg)) i slots in
          let found := bb_registry_lookup (attach_text key (tb_slots t)) BB_OK (-1) (tb_registry t) in
          if found =? 0 then
            match find_free_attach_slot t with
            | None => (BB_ERR_NO_SPACE, t)
            | Some i =>
                let named := alter (fun s => mk_attach (at_in_use s) (field_text BB_DATA_HTTP_KEY_MAX key) (at_topic s) (at_kind s) (at_min_interval s)) i (tb_slots t) in
                let '(rc, reg) := bb_registry_register (attach_text key named) BB_OK (attach_addr i) (attach_addr i) (tb_registry t) in
                if negb (is_ok rc) then (rc, mk_table named reg) else
                let used := alter (fun s => mk_attach true (at_key s) (at_topic s) (at_kind s) (at_min_interval s)) i named in
                (BB_OK, mk_table (filled i used) reg)
            end
          else (BB_OK, mk_table (filled (attach_index found) (tb_slots t)) (tb_registry t))
      | _, _ => (BB_ERR_INVALID_ARG, t)
      end
  end.
Definition bb_data_http_attach_count (t : attach_table) : nat := bb_registry_count BB_OK (tb_registry t).
(** The slot of the [k]-th registered key. *)
Definition attach_at (t : attach_table) (k : nat) : option attach_slot :=
  match bb_registry_get_by_index BB_OK k true (tb_registry t) with
  | (BB_OK, Some e) => tb_slots t !! attach_index e.2
  | _ => None
  end.

Definition bb_data_http_describe (key topic component schema : option (list byte)) (l : list describe_entry) : bb_err * list describe_entry :=
  if text_missing key || text_missing topic || text_missing component || text_missing schema then (BB_ERR_INVALID_ARG, l) else
  let e := mk_describe (default [] key) (default [] topic) (default [] component) (default [] schema) in
  if existsb (fun x => bool_decide (de_key x = de_key e)) l then (BB_OK, l) else
  if (BB_DATA_HTTP_MAX_DESCRIBE <=? length l)%nat then (BB_ERR_NO_SPACE, l) else (BB_OK, l ++ [e]).
Definition bb_data_http_describe_foreach {C} (cb : option (describe_entry -> C -> C)) (l : list describe_entry) (ctx : C) : C :=
  match cb with None => ctx | Some cb => fold_left (fun ctx e => cb e ctx) l ctx end.

Definition client_subscribes (c : client) (topic : list byte) (kind : dh_kind) : bool :=
  if Z.land (cl_mask c) (kind_bit kind) =? 0 then false else
  match cl_topic c with [] => true | f => bool_decide (f = topic) end.

(** * Pools and lifecycle *)

Definition poll0 : poll_state := mk_poll 0 (repeat 0 BB_DATA_HTTP_MAX_ATTACH) (repeat 0 BB_DATA_HTTP_MAX_ATTACH) UINT32_MAX.
Definition push0 : push_state := mk_push 0 0 false.
(** The first free slot of the first [n]. *)
Fixpoint free_in_pool (n : nat) (used : list bool) (i : nat) : option nat :=
  match n, used with S n, u :: used => if negb u then Some i else free_in_pool n used (S i) | _, _ => None end.
Definition pool_alloc {T} (n : nat) (x : T) (p : pool T) : option (nat * pool T) :=
  match free_in_pool n (pl_used p) 0 with
  | Some i => Some (i, mk_pool (<[i := x]> (pl_states p)) (<[i := true]> (pl_used p)))
  | None => None
  end.
Definition pool_free {T} (i : option nat) (p : pool T) : pool T :=
  match i with None => p | Some i => mk_pool (pl_states p) (<[i := false]> (pl_used p)) end.
Definition poll_alloc (s : dh) : option (nat * pool poll_state) := pool_alloc (cf_polls (d_cfg s)) poll0 (d_polls s).
Definition poll_free (i : option nat) (s : dh) : dh := set_polls (pool_free i (d_polls s)) s.
Definition push_alloc (s : dh) : option (nat * pool push_state) := pool_alloc (cf_pushes (d_cfg s)) push0 (d_pushes s).
Definition push_free (i : option nat) (s : dh) : dh := set_pushes (pool_free i (d_pushes s)) s.

(** bb_queue_create, but for the diagnostic registry of rings; [alloc]: whether
    its allocations succeed. *)
Definition queue_create (alloc : bool) (cfg : queue_cfg) : bb_err * option queue :=
  match queue_cfg_check (Some cfg) true with
  | None => (BB_ERR_INVALID_ARG, None)
  | Some (cfg, policy) => if alloc then (BB_OK, Some (queue_made cfg policy)) else (BB_ERR_NO_SPACE, None)
  end.

Record init_cfg := mk_icfg { ic_clients : nat; ic_ring : nat; ic_polls : nat; ic_pushes : nat }.
Definition or_default (n d : nat) : nat := if (n =? 0)%nat then d else n.
Definition bb_data_http_init (L : limits) (cfg : option init_cfg) (alloc : bool) (s : dh) : bb_err * dh :=
  if cf_init (d_cfg s) then (BB_OK, s) else
  let field f d := match cfg with Some cfg => or_default (f cfg) d | None => d end in
  let max_clients := field ic_clients (MAX_CLIENTS L) in
  if (MAX_CLIENTS L <? max_clients)%nat then (BB_ERR_INVALID_ARG, s) else
  let ring_capacity := field ic_ring (EVENT_RING_CAPACITY L) in
  if (EVENT_RING_CAPACITY L <? ring_capacity)%nat then (BB_ERR_INVALID_ARG, s) else
  let max_polls := field ic_polls (MAX_POLL_CLIENTS L) in
  if (MAX_POLL_CLIENTS L <? max_polls)%nat then (BB_ERR_INVALID_ARG, s) else
  let max_pushes := field ic_pushes (MAX_PUSH_CLIENTS L) in
  if (MAX_PUSH_CLIENTS L <? max_pushes)%nat then (BB_ERR_INVALID_ARG, s) else
  let '(rc, ring) := queue_create alloc (mk_qcfg ring_capacity (OUTBOUND_ENTRY_MAX L) (Some BB_QUEUE_EVICT_OLDEST) (Some (bs "bbdhevt")) 0 0) in
  if negb (is_ok rc) then (rc, s) else
  let off c := mk_client false (cl_warned c) (cl_non_blocking c) (cl_topic c) (cl_mask c) (cl_poll c) (cl_push c) (cl_out c) (cl_out_max c) (cl_fails c) (cl_pending c) (cl_send c) (cl_abort c) (cl_lifetime c) in
  let none {T} (p : pool T) := mk_pool (pl_states p) (map (fun _ => false) (pl_used p)) in
  (BB_OK, mk_dh (d_table s) (d_describe s) (d_seams s) (mk_cfg max_clients max_polls max_pushes true)
            (map off (d_clients s)) (map (fun _ => false) (d_reserved s)) (none (d_polls s)) (none (d_pushes s))
            (mk_ev ring 0 (repeat 0 BB_DATA_HTTP_MAX_ATTACH) 0) (d_render_fails s)).

(** [bb_data_http_client_cfg_t]; [cc_topic] is [None] for NULL. *)
Record client_cfg := mk_ccfg { cc_topic : option (list byte); cc_send : Z; cc_abort : Z; cc_mask : Z; cc_lifetime : lifetime; cc_non_blocking : bool }.

Definition busy (s : dh) (i : nat) : bool :=
  match d_clients s !! i, d_reserved s !! i with Some c, Some r => cl_in_use c || r | _, _ => false end.
Definition blocking_at (s : dh) (i : nat) : bool := busy s i && match d_clients s !! i with Some c => negb (cl_non_blocking c) | None => false end.
Definition blocking_count (s : dh) : nat := length (filter (fun i => blocking_at s i = true) (seq 0 (cf_clients (d_cfg s)))).
Definition free_client (s : dh) : option nat := find (fun i => negb (busy s i)) (seq 0 (cf_clients (d_cfg s))).

(** The first critical section of bb_data_http_client_acquire. *)
Definition client_reserve (L : limits) (non_blocking : bool) (s : dh) : bb_err * option nat * dh :=
  if negb non_blocking && (MAX_BLOCKING_CLIENTS L <=? blocking_count s)%nat then (BB_ERR_NO_SPACE, None, s) else
  match free_client s with
  | None => (BB_ERR_NO_SPACE, None, s)
  | Some i => (BB_OK, Some i, upd_client i (cl_set_non_blocking non_blocking) (set_reserved (<[i := true]> (d_reserved s)) s))
  end.
Definition release_client_reservation_locked (i : nat) (s : dh) : dh := set_reserved (<[i := false]> (d_reserved s)) s.

(** Marks every STATE key the client subscribes. *)
Definition force_dirty (c : client) (t : attach_table) (ps : poll_state) : poll_state :=
  fold_left (fun ps k => match attach_at t k with
    | Some slot => if negb (bool_decide (at_kind slot = BB_DATA_HTTP_STATE)) then ps else if negb (client_subscribes c (at_topic slot) (at_kind slot)) then ps else
        mk_poll (Z.setbit (po_dirty ps) (Z.of_nat k)) (po_seen ps) (po_due ps) (po_never ps)
    | None => ps end) (seq 0 (bb_data_http_attach_count t)) ps.

(** The client between the critical sections: its pools, its queue, the keys it
    has to be shown.  A failure takes the reservation back. *)
Definition client_build (L : limits) (i : nat) (cfg : client_cfg) (alloc : bool) (s : dh) : bb_err * dh :=
  let mask := if cc_mask cfg =? 0 then BB_DATA_HTTP_SUBSCRIBE_ALL else cc_mask cfg in
  let polled := if Z.land mask (kind_bit BB_DATA_HTTP_STATE) =? 0 then Some (None, s) else
                match poll_alloc s with Some (p, pl) => Some (Some p, set_polls pl s) | None => None end in
  match polled with
  | None => (BB_ERR_NO_SPACE, release_client_reservation_locked i s)
  | Some (poll, s) =>
      let pushed := if Z.land mask (kind_bit BB_DATA_HTTP_EVENT) =? 0 then Some (None, s) else
                    match push_alloc s with Some (p, pl) => Some (Some p, set_pushes pl s) | None => None end in
      match pushed with
      | None => (BB_ERR_NO_SPACE, release_client_reservation_locked i (poll_free poll s))
      | Some (push, s) =>
          let topic := match cc_topic cfg with Some t => field_text BB_DATA_HTTP_TOPIC_MAX t | None => [] end in
          let made poll push out c := mk_client (cl_in_use c) false (cl_non_blocking c) topic mask poll push out (OUTBOUND_MAX_BYTES L) 0 false
                           (cc_send cfg) (cc_abort cfg) (cc_lifetime cfg) in
          let s := match push with Some p => upd_push p (fun x => mk_push (ev_total (d_ev s)) (pu_dropped x) (pu_marker x)) s | None => s end in
          let '(rc, out) := queue_create alloc (mk_qcfg (OUTBOUND_CAPACITY L) (OUTBOUND_ENTRY_MAX L) (Some BB_QUEUE_EVICT_OLDEST) (Some (bs "bbdhttp")) (OUTBOUND_MAX_BYTES L) 0) in
          if negb (is_ok rc) then
            (rc, release_client_reservation_locked i (upd_client i (fun c => made None None (cl_out c) c) (push_free push (poll_free poll s))))
          else
            let s := upd_client i (made poll push out) s in
            match poll, d_clients s !! i with
            | Some p, Some c => (BB_OK, upd_poll p (force_dirty c (d_table s)) s)
            | _, _ => (BB_OK, s)
            end
      end
  end.
(** The second critical section. *)
Definition client_publish (i : nat) (s : dh) : dh := release_client_reservation_locked i (upd_client i cl_publish s).

(** What is refused before the lock is taken. *)
Definition acquire_check (cfg : option client_cfg) (out_ok : bool) (lock : bb_err) (s : dh) : bb_err :=
  match cfg with
  | None => BB_ERR_INVALID_ARG
  | Some cfg =>
      if negb out_ok then BB_ERR_INVALID_ARG else
      if negb (cf_init (d_cfg s)) then BB_ERR_INVALID_STATE else
      if match cc_topic cfg with Some t => (BB_DATA_HTTP_TOPIC_MAX <=? length t)%nat | None => false end then BB_ERR_INVALID_ARG else lock
  end.
Definition bb_data_http_client_acquire (L : limits) (cfg : option client_cfg) (out_ok : bool) (lock : bb_err) (alloc : bool) (s : dh) : bb_err * option nat * dh :=
  match cfg with
  | None => (BB_ERR_INVALID_ARG, None, s)
  | Some c =>
      let rc := acquire_check cfg out_ok lock s in
      if negb (is_ok rc) then (rc, None, s) else
      match client_reserve L (cc_non_blocking c) s with
      | (_, Some i, s) =>
          let '(rc, s) := client_build L i c alloc s in
          if negb (is_ok rc) then (rc, None, s) else (BB_OK, Some i, client_publish i s)
      | (rc, None, s) => (rc, None, s)
      end
  end.

Definition bb_data_http_client_release (i : nat) (s : dh) : dh :=
  match d_clients s !! i with
  | None => s
  | Some c => upd_client i cl_released (push_free (cl_push c) (poll_free (cl_poll c) s))
  end.
Definition bb_data_http_client_request_release (i : nat) (s : dh) : dh := upd_client i cl_set_pending s.
Definition bb_data_http_active_client_count (s : dh) : nat := length (filter (fun c => cl_in_use c = true) (d_clients s)).

(** * Events for one client *)

Definition client_outbound_has_room (c : client) (len : nat) : bool :=
  if (bb_queue_capacity (cl_out c) <=? bb_queue_count (cl_out c))%nat then false else
  (bb_queue_bytes_used (cl_out c) + len <=? cl_out_max c)%nat.
Definition BB_DATA_HTTP_DROP_MARKER_ID : Z := UINT32_MAX.
Definition BB_DATA_HTTP_DROP_MARKER_KEY : list byte := bs "dropped".
Definition resolve_outbound_key (t : attach_table) (id : Z) : list byte :=
  if id =? BB_DATA_HTTP_DROP_MARKER_ID then BB_DATA_HTTP_DROP_MARKER_KEY else
  match attach_at t (Z.to_nat (u16 id)) with Some slot => at_key slot | None => BB_DATA_HTTP_DROP_MARKER_KEY end.

(** Putting a frame into the client's queue; the answer is not looked at. *)
Definition outbound_push (frame : list byte) (ts id : Z) (c : client) : client :=
  match cl_out c with Some q => cl_set_out (Some (bb_queue_push (Some frame) (length frame) ts id q).2) c | None => c end.
Definition marker_text (n : Z) : list byte := x7b :: x22 :: bs "dropped" ++ x22 :: x3a :: dec_u64 n ++ [x7d].
Definition try_flush_event_drop_marker (c : client) (x : push_state) : client * push_state :=
  if negb (pu_marker x) then (c, x) else
  let marker := marker_text (pu_dropped x) in
  if (24 <=? length marker)%nat then (c, x) else
  if negb (client_outbound_has_room c (length marker)) then (c, x) else
  (outbound_push marker 0 BB_DATA_HTTP_DROP_MARKER_ID c, mk_push (pu_cursor x) (pu_dropped x) false).

Definition to_i32 (z : Z) : Z := to_signed 32 (u32 z).
(** Entry [idx] of the ring, for the client. *)
Definition drain_entry (t : attach_table) (entry_max : nat) (ring : queue) (oldest_seq : Z) (a : client * push_state) (idx : nat) : client * push_state :=
  let '(c, x) := a in
  let seq := u32 (oldest_seq + Z.of_nat idx) in
  if to_i32 (seq - pu_cursor x) <? 0 then (c, x) else
  match bb_queue_peek_at ring idx entry_max true with
  | (BB_OK, Some (len, ts, id, buf)) =>
      let x := mk_push (u32 (seq + 1)) (pu_dropped x) (pu_marker x) in
      match attach_at t (Z.to_nat (u16 id)) with
      | None => (c, x)
      | Some slot =>
          if negb (client_subscribes c (at_topic slot) (at_kind slot)) then (c, x) else
          let '(c, x) := try_flush_event_drop_marker c x in
          if negb (client_outbound_has_room c len) then (c, mk_push (pu_cursor x) (u32 (pu_dropped x + 1)) true) else
          (outbound_push (take len buf) ts id c, x)
      end
  | _ => (c, x)
  end.
(** The jump over what the ring has evicted. *)
Definition skip_evicted (oldest_seq : Z) (x : push_state) : push_state :=
  if to_i32 (pu_cursor x - oldest_seq) <? 0 then mk_push oldest_seq (u32 (pu_dropped x + u32 (oldest_seq - pu_cursor x))) true else x.
Definition drain_client_events (t : attach_table) (entry_max : nat) (ev : event_ring) (a : client * push_state) : client * push_state :=
  let ring_count := bb_queue_count (ev_ring ev) in
  let oldest_seq := u32 (ev_total ev - Z.of_nat ring_count) in
  let '(c, x) := try_flush_event_drop_marker a.1 a.2 in
  let x := skip_evicted oldest_seq x in
  match ev_ring ev with
  | Some ring => fold_left (drain_entry t entry_max ring oldest_seq) (seq 0 ring_count) (c, x)
  | None => (c, x)
  end.

(** * Feeding the event ring *)

(** The locked sections of bb_data_http_push_pump for the key at [k]: taking the
    claim of a generation ([None]: nothing to do), and giving it back. *)
Definition pump_claim (k : nat) (gen : Z) (ev : event_ring) : option Z * event_ring :=
  match ev_last ev !! k with
  | Some prev => if gen =? prev then (None, ev) else (Some prev, mk_ev (ev_ring ev) (ev_total ev) (<[k := gen]> (ev_last ev)) (ev_stale ev))
  | None => (None, ev)
  end.
Definition claim_stands (k : nat) (gen : Z) (ev : event_ring) : bool :=
  match ev_last ev !! k with Some last => last =? gen | None => false end.
Definition pump_revoke (k : nat) (gen prev : Z) (ev : event_ring) : event_ring :=
  if claim_stands k gen ev then mk_ev (ev_ring ev) (ev_total ev) (<[k := prev]> (ev_last ev)) (ev_stale ev) else ev.
Definition ring_put (frame : list byte) (k : nat) (q : option queue) : option queue :=
  match q with Some q => Some (bb_queue_push (Some frame) (length frame) 0 (Z.of_nat k) q).2 | None => None end.
Definition pump_commit (k : nat) (gen : Z) (frame : list byte) (ev : event_ring) : event_ring :=
  if claim_stands k gen ev then mk_ev (ring_put frame k (ev_ring ev)) (u32 (ev_total ev + 1)) (ev_last ev) (ev_stale ev)
  else mk_ev (ev_ring ev) (ev_total ev) (ev_last ev) (u32 (ev_stale ev + 1)).

(** * The sweep *)

Section Sweep.
Context (L : limits).
(** The code behind the installed seams: the generation of a key (a read), the
    text a key renders to, the send of a frame to a client, the teardown of a
    client, and the clock. *)
Context {App : Type}.
Context (gen_code : Z -> list byte -> App -> bb_err * Z).
Context (render_code : Z -> list byte -> nat -> App -> bb_err * list byte * App).
Context (send_code : Z -> list byte -> nat -> list byte -> App -> bb_err * App).
Context (abort_code : Z -> nat -> dh -> App -> dh * App).
Context (now_ms : App -> Z).

Definition pump_key (k : nat) (w : dh * App) : dh * App :=
  let '(s, app) := w in
  match attach_at (d_table s) k with
  | None => w
  | Some slot =>
      if negb (bool_decide (at_kind slot = BB_DATA_HTTP_EVENT)) then w else
      match gen_code (se_gen (d_seams s)) (at_key slot) app with
      | (BB_OK, gen) =>
          match pump_claim k gen (d_ev s) with
          | (None, _) => w
          | (Some prev, ev) =>
              let s := set_ev ev s in
              if se_render (d_seams s) =? 0 then (s, app) else
              let '(rc, frame, app) := render_code (se_render (d_seams s)) (at_key slot) (OUTBOUND_ENTRY_MAX L) app in
              if negb (is_ok rc) then (set_ev (pump_revoke k gen prev (d_ev s)) (count_render_fail s), app)
              else (set_ev (pump_commit k gen frame (d_ev s)) s, app)
          end
      | _ => w
      end
  end.
Definition bb_data_http_push_pump (w : dh * App) : dh * App :=
  if se_gen (d_seams w.1) =? 0 then w else fold_left (fun w k => pump_key k w) (seq 0 (bb_data_http_attach_count (d_table w.1))) w.

(** Detection: a subscribed client whose last seen generation of a STATE key is
    another one gets the key marked. *)
Definition detect_client (k : nat) (slot : attach_slot) (gen : Z) (s : dh) (i : nat) : dh :=
  match d_clients s !! i with
  | Some c =>
      match cl_poll c with
      | Some p =>
          if negb (client_subscribes c (at_topic slot) (at_kind slot)) then s else
          match pl_states (d_polls s) !! p with
          | Some ps => if default 0 (po_seen ps !! k) =? gen then s else
              upd_poll p (fun ps => mk_poll (Z.setbit (po_dirty ps) (Z.of_nat k)) (<[k := gen]> (po_seen ps)) (po_due ps) (po_never ps)) s
          | None => s
          end
      | None => s
      end
  | None => s
  end.
Definition state_eligible (s : dh) : list nat :=
  filter (fun i => match d_clients s !! i with Some c => cl_in_use c && match cl_poll c with Some _ => true | None => false end | None => false end = true) (seq 0 (MAX_CLIENTS L)).
Definition detect_key (app : App) (eligible : list nat) (s : dh) (k : nat) : dh :=
  match attach_at (d_table s) k with
  | None => s
  | Some slot =>
      if bool_decide (at_kind slot = BB_DATA_HTTP_EVENT) then s else
      match gen_code (se_gen (d_seams s)) (at_key slot) app with
      | (BB_OK, gen) => fold_left (detect_client k slot gen) eligible s
      | _ => s
      end
  end.
Definition sweep_detect (count : nat) (app : App) (s : dh) : dh :=
  if se_gen (d_seams s) =? 0 then s else fold_left (detect_key app (state_eligible s)) (seq 0 count) s.

Definition rescheduled (slot : attach_slot) (k : nat) (now : Z) (ps : poll_state) : poll_state :=
  if 0 <? at_min_interval slot then
    let phase := bb_str_hash32 (Some (at_key slot)) mod at_min_interval slot in
    mk_poll (po_dirty ps) (po_seen ps) (<[k := u32 (now + at_min_interval slot + phase)]> (po_due ps)) (Z.clearbit (po_never ps) (Z.of_nat k))
  else ps.
Definition undirty (k : nat) (ps : poll_state) : poll_state := mk_poll (Z.clearbit (po_dirty ps) (Z.of_nat k)) (po_seen ps) (po_due ps) (po_never ps).
(** The cadence gate. *)
Definition gated (slot : attach_slot) (k : nat) (now : Z) (ps : poll_state) : bool :=
  (0 <? at_min_interval slot) && negb (Z.testbit (po_never ps) (Z.of_nat k)) && (0 <? to_i32 (default 0 (po_due ps !! k) - now)).

(** One marked key of the client at [i]. *)
Definition drain_key (i p : nat) (w : dh * App) (k : nat) : dh * App :=
  let '(s, app) := w in
  match pl_states (d_polls s) !! p with
  | None => w
  | Some ps =>
      if negb (Z.testbit (po_dirty ps) (Z.of_nat k)) then w else
      match attach_at (d_table s) k with
      | None => w
      | Some slot =>
          if se_render (d_seams s) =? 0 then (upd_poll p (fun ps => rescheduled slot k (now_ms app) (undirty k ps)) s, app) else
          if gated slot k (now_ms app) ps then w else
          let '(rc, frame, app) := render_code (se_render (d_seams s)) (at_key slot) (OUTBOUND_ENTRY_MAX L) app in
          if negb (is_ok rc) then (count_render_fail s, app) else
          (upd_client i (outbound_push frame 0 (Z.of_nat k)) (upd_poll p (fun ps => rescheduled slot k (now_ms app) (undirty k ps)) s), app)
      end
  end.
Definition drain_keys (count i : nat) (w : dh * App) : dh * App :=
  match d_clients w.1 !! i with
  | Some c =>
      match cl_poll c with
      | Some p => match pl_states (d_polls w.1) !! p with
                  | Some ps => if po_dirty ps =? 0 then w else fold_left (drain_key i p) (seq 0 count) w
                  | None => w
                  end
      | None => w
      end
  | None => w
  end.
Definition drain_events (i : nat) (s : dh) : dh :=
  match d_clients s !! i with
  | Some c =>
      match cl_push c with
      | Some p => match pl_states (d_pushes s) !! p with
                  | Some x => let '(c, x) := drain_client_events (d_table s) (OUTBOUND_ENTRY_MAX L) (d_ev s) (c, x) in
                              upd_client i (fun _ => c) (upd_push p (fun _ => x) s)
                  | None => s
                  end
      | None => s
      end
  | None => s
  end.

Definition outbound_pop (c : client) : client := match cl_out c with Some q => cl_set_out (Some (bb_queue_pop_oldest q).2) c | None => c end.
(** [fuel]: the frames queued at the start. *)
Fixpoint flush_loop (fuel : nat) (send : Z) (i : nat) (w : dh * App) : dh * App :=
  match fuel with
  | O => w
  | S fuel =>
      let '(s, app) := w in
      match d_clients s !! i with
      | None => w
      | Some c =>
          match cl_out c with
          | None => w
          | Some q =>
              match bb_queue_peek_oldest q (OUTBOUND_ENTRY_MAX L) true with
              | (BB_OK, Some (len, ts, id, frame)) =>
                  let '(rc, app) := send_code send (resolve_outbound_key (d_table s) id) i (take len frame) app in
                  match rc with
                  | BB_OK => flush_loop fuel send i (upd_client i (fun c => outbound_pop (cl_set_fails 0 c)) s, app)
                  | BB_ERR_TIMEOUT =>
                      let fails := u32 (cl_fails c + 1) in
                      if fails <? SEND_FAIL_MAX L then (upd_client i (cl_set_fails fails) s, app)
                      else (upd_client i (fun c => cl_set_fails 0 (outbound_pop c)) s, app)
                  | _ =>
                      match cl_lifetime c with
                      | LIFETIME_DURABLE => (upd_client i (cl_set_fails 0) s, app)
                      | LIFETIME_EPHEMERAL =>
                          let abort := if cl_abort c =? 0 then se_abort (d_seams s) else cl_abort c in
                          if abort =? 0 then (bb_data_http_client_release i s, app) else abort_code abort i s app
                      end
                  end
              | _ => w
              end
          end
      end
  end.
Definition flush_client (i : nat) (w : dh * App) : dh * App :=
  match d_clients w.1 !! i with
  | None => w
  | Some c =>
      let send := if cl_send c =? 0 then se_send (d_seams w.1) else cl_send c in
      if send =? 0 then
        if negb (cl_warned c) && (0 <? bb_queue_count (cl_out c))%nat then (upd_client i cl_set_warned w.1, w.2) else w
      else flush_loop (bb_queue_count (cl_out c)) send i w
  end.
Definition sweep_client (count : nat) (w : dh * App) (i : nat) : dh * App :=
  match d_clients w.1 !! i with
  | None => w
  | Some c =>
      if negb (cl_in_use c) then w else
      if cl_pending c then (bb_data_http_client_release i w.1, w.2) else
      let w := drain_keys count i w in flush_client i (drain_events i w.1, w.2)
  end.
Definition bb_data_http_sweep_step (w : dh * App) : dh * App :=
  let count := bb_data_http_attach_count (d_table w.1) in
  let w := bb_data_http_push_pump (sweep_detect count w.2 w.1, w.2) in
  fold_left (sweep_client count) (seq 0 (MAX_CLIENTS L)) w.
End Sweep.

Definition bb_data_http_render_fail_count (s : dh) : Z := d_render_fails s.
Definition bb_data_http_stale_discard_count (s : dh) : Z := ev_stale (d_ev s).
Definition bb_data_http_client_dropped_count (i : nat) (s : dh) : Z :=
  match c ← d_clients s !! i; p ← cl_push c; pl_states (d_pushes s) !! p with Some x => pu_dropped x | None => 0 end.
Definition bb_data_http_set_render_fn (fn : Z) (s : dh) : dh := set_seams (mk_seams fn (se_gen (d_seams s)) (se_send (d_seams s)) (se_abort (d_seams s))) s.
Definition bb_data_http_set_generation_fn (fn : Z) (s : dh) : dh := set_seams (mk_seams (se_render (d_seams s)) fn (se_send (d_seams s)) (se_abort (d_seams s))) s.
Definition bb_data_http_set_send_fn (fn : Z) (s : dh) : dh := set_seams (mk_seams (se_render (d_seams s)) (se_gen (d_seams s)) fn (se_abort (d_seams s))) s.
Definition bb_data_http_set_abort_fn (fn : Z) (s : dh) : dh := set_seams (mk_seams (se_render (d_seams s)) (se_gen (d_seams s)) (se_send (d_seams s)) fn) s.
(** The statics of a fresh image. *)
Definition dh0 (L : limits) : dh :=
  mk_dh table0 [] (mk_seams 0 0 0 0) (mk_cfg 0 0 0 false) (repeat client0 (MAX_CLIENTS L)) (repeat false (MAX_CLIENTS L))
    (mk_pool (repeat poll0 (MAX_POLL_CLIENTS L)) (repeat false (MAX_POLL_CLIENTS L)))
    (mk_pool (repeat push0 (MAX_PUSH_CLIENTS L)) (repeat false (MAX_PUSH_CLIENTS L)))
    (mk_ev None 0 (repeat 0 BB_DATA_HTTP_MAX_ATTACH) 0) 0.
