(* ===== verification/DataHttpPump.v ===== *)
(** Several threads feeding the event ring of DataHttp at once: the claims of
    bb_data_http_push_pump, step by step. *)
From Stdlib Require Import Strings.String Sorting.Sorted.
From S2P Require Import Prelude Bytes Num Str Registry Queue DataHttp.

(** * Several pumps at once *)

(** bb_data_http_notify_push runs the pump on a producer's task while the
    broadcaster runs it too.  A thread's pass over the key at [k]: it reads the
    generation, takes the claim, renders, and commits or gives the claim back;
    the threads interleave between these.  A render function is installed. *)
Inductive pump_thread : Type :=
  | Idle | HasRead (k : nat) (gen : Z) | HasClaimed (k : nat) (gen prev : Z)
  | HasFrame (k : nat) (gen : Z) (frame : list byte) | HasFailed (k : nat) (gen prev : Z).
(** [pm_gens]: the generation each key has now; [pm_pushed]: the keys and claimed
    generations of the frames put into the ring, in order. *)
Record pumps := mk_pumps { pm_ev : event_ring; pm_gens : nat -> Z; pm_threads : list pump_thread; pm_pushed : list (nat * Z) }.
Inductive pump_act : Type := Bump (k : nat) | ReadGen (t k : nat) | Claim (t : nat) | Render (t : nat) (frame : option (list byte)) | Finish (t : nat).

Definition bump (k : nat) (f : nat -> Z) : nat -> Z := fun j => if (j =? k)%nat then f j + 1 else f j.
Definition set_thread (t : nat) (th : pump_thread) (w : pumps) : pumps := mk_pumps (pm_ev w) (pm_gens w) (<[t := th]> (pm_threads w)) (pm_pushed w).
Definition set_pm_ev (ev : event_ring) (w : pumps) : pumps := mk_pumps ev (pm_gens w) (pm_threads w) (pm_pushed w).
Definition set_pushed (l : list (nat * Z)) (w : pumps) : pumps := mk_pumps (pm_ev w) (pm_gens w) (pm_threads w) l.
Definition pump_act_step (a : pump_act) (w : pumps) : option pumps :=
  match a with
  | Bump k => if pm_gens w k + 1 <? 2 ^ 32 then Some (mk_pumps (pm_ev w) (bump k (pm_gens w)) (pm_threads w) (pm_pushed w)) else None
  | ReadGen t k => match pm_threads w !! t with Some Idle => Some (set_thread t (HasRead k (pm_gens w k)) w) | _ => None end
  | Claim t =>
      match pm_threads w !! t with
      | Some (HasRead k gen) =>
          match pump_claim k gen (pm_ev w) with
          | (None, _) => Some (set_thread t Idle w)
          | (Some prev, ev) => Some (set_thread t (HasClaimed k gen prev) (set_pm_ev ev w))
          end
      | _ => None
      end
  | Render t frame =>
      match pm_threads w !! t with
      | Some (HasClaimed k gen prev) => Some (set_thread t (match frame with Some frame => HasFrame k gen frame | None => HasFailed k gen prev end) w)
      | _ => None
      end
  | Finish t =>
      match pm_threads w !! t with
      | Some (HasFrame k gen frame) =>
          let ev := pump_commit k gen frame (pm_ev w) in
          let pushed := if ev_total ev =? ev_total (pm_ev w) then pm_pushed w else pm_pushed w ++ [(k, gen)] in
          Some (set_thread t Idle (set_pushed pushed (set_pm_ev ev w)))
      | Some (HasFailed k gen prev) => Some (set_thread t Idle (set_pm_ev (pump_revoke k gen prev (pm_ev w)) w))
      | _ => None
      end
  end.
Fixpoint pumps_run (acts : list pump_act) (w : pumps) : option pumps :=
  match acts with [] => Some w | a :: acts => match pump_act_step a w with Some w => pumps_run acts w | None => None end end.
Definition pumps0 (ring : option queue) (threads : nat) : pumps :=
  mk_pumps (mk_ev ring 0 (repeat 0 BB_DATA_HTTP_MAX_ATTACH) 0) (fun _ => 0) (repeat Idle threads) [].

(** Nobody has claimed a later generation between a thread's reading and its
    claim. *)
Definition claims_forward (a : pump_act) (w : pumps) : Prop :=
  match a with
  | Claim t => match pm_threads w !! t with
               | Some (HasRead k gen) => forall last, ev_last (pm_ev w) !! k = Some last -> last <= gen
               | _ => True
               end
  | _ => True
  end.
Fixpoint forward_run (acts : list pump_act) (w : pumps) : Prop :=
  match acts with [] => True | a :: acts => claims_forward a w /\ match pump_act_step a w with Some w => forward_run acts w | None => True end end.

Definition claim_of (th : pump_thread) : option (nat * Z) :=
  match th with HasClaimed k gen _ | HasFrame k gen _ | HasFailed k gen _ => Some (k, gen) | _ => None end.
Definition prev_of (th : pump_thread) : option (nat * Z * Z) :=
  match th with HasClaimed k gen prev | HasFailed k gen prev => Some (k, gen, prev) | _ => None end.
Definition pushed_at (k : nat) (l : list (nat * Z)) : list Z := map snd (filter (fun x => x.1 = k) l).

Record pumps_inv (w : pumps) : Prop := {
  pi_last : forall k l, ev_last (pm_ev w) !! k = Some l -> l <= pm_gens w k;
  pi_read : forall t k g, pm_threads w !! t = Some (HasRead k g) -> g <= pm_gens w k;
  pi_live : forall t th k g, pm_threads w !! t = Some th -> claim_of th = Some (k, g) -> exists l, ev_last (pm_ev w) !! k = Some l /\ g <= l;
  pi_apart : forall t t' th th' k g, pm_threads w !! t = Some th -> pm_threads w !! t' = Some th' -> claim_of th = Some (k, g) -> claim_of th' = Some (k, g) -> t = t';
  pi_prev : forall t th k g p, pm_threads w !! t = Some th -> prev_of th = Some (k, g, p) -> p < g /\
    (forall t' th' g', pm_threads w !! t' = Some th' -> claim_of th' = Some (k, g') -> g' < g -> g' <= p) /\
    (forall g', (k, g') ∈ pm_pushed w -> g' < g -> g' <= p);
  pi_pushed : forall k g, (k, g) ∈ pm_pushed w -> (exists l, ev_last (pm_ev w) !! k = Some l /\ g <= l) /\
    forall t th, pm_threads w !! t = Some th -> claim_of th <> Some (k, g);
  pi_sorted : forall k, StronglySorted Z.lt (pushed_at k (pm_pushed w));
  pi_kept : forall k l, ev_last (pm_ev w) !! k = Some l -> l = 0 \/ (k, l) ∈ pm_pushed w \/
    (exists t th, pm_threads w !! t = Some th /\ claim_of th = Some (k, l)) \/ l < pm_gens w k
}.

Lemma prev_claim th k g p : prev_of th = Some (k, g, p) -> claim_of th = Some (k, g).
Proof. by destruct th; cbn; intros [= <- <- <-]. Qed.

Lemma pumps0_inv ring n : pumps_inv (pumps0 ring n).
Proof.
  assert (Hi : forall t th, repeat Idle n !! t = Some th -> th = Idle).
  { intros t th H. apply list_elem_of_lookup_2, list_elem_of_In, repeat_spec in H. done. }
  assert (Hz : forall k l, repeat 0 BB_DATA_HTTP_MAX_ATTACH !! k = Some l -> l = 0).
  { intros k l H. by apply list_elem_of_lookup_2, list_elem_of_In, repeat_spec in H. }
  split; cbn [pumps0 pm_ev ev_last pm_threads pm_gens pm_pushed].
  - intros k l H%Hz. lia.
  - by intros t k g H%Hi.
  - by intros t th k g ->%Hi.
  - by intros t t' th th' k g ->%Hi.
  - by intros t th k g p ->%Hi.
  - intros k g H. inversion H.
  - intros k. constructor.
  - intros k l H%Hz. by left.
Qed.

(** Looking up a thread after an update. *)
Lemma thread_cases (l : list pump_thread) t th t' x : <[t := th]> l !! t' = Some x -> (t' = t /\ x = th) \/ (t' <> t /\ l !! t' = Some x).
Proof. intros [(-> & -> & _)|[Hn H]]%list_lookup_insert_Some; [by left|right; split; [congruence|done]]. Qed.

(** A thread that changes what it holds, but not its claim. *)
Lemma thread_same_inv w t th th' : pumps_inv w -> pm_threads w !! t = Some th ->
  claim_of th' = claim_of th -> (forall x, prev_of th' = Some x -> prev_of th = Some x) -> (forall k g, th' = HasRead k g -> g <= pm_gens w k) -> pumps_inv (set_thread t th' w).
Proof.
  intros [H1 H2 H3 H4 H5 H6 H7 H8] Ht Hc Hp Hr.
  assert (Hold : forall t' x, <[t := th']> (pm_threads w) !! t' = Some x -> exists y, pm_threads w !! t' = Some y /\ claim_of x = claim_of y /\ (forall z, prev_of x = Some z -> prev_of y = Some z)).
  { intros t' x [[-> ->]|[Hn Hx]]%thread_cases; [by exists th|by exists x]. }
  split; cbn [set_thread pm_ev pm_gens pm_threads pm_pushed]; try done.
  - intros t' k g [[-> Hx]|[Hn Hx]]%thread_cases; [by apply Hr|by eapply H2].
  - intros t' x k g (y & Hy & -> & _)%Hold. by apply H3 with t'.
  - intros t1 t2 x1 x2 k g (y1 & Hy1 & -> & _)%Hold (y2 & Hy2 & -> & _)%Hold. by eapply H4.
  - intros t' x k g p (y & Hy & Hcy & Hpy)%Hold Hx. destruct (H5 t' y k g p Hy (Hpy _ Hx)) as (P1 & P2 & P3). split_and!; [done| |done].
    intros t2 x2 g' (y2 & Hy2 & -> & _)%Hold. by apply (P2 t2).
  - intros k g Hkg. destruct (H6 k g Hkg) as [Hl Hnc]. split; [done|]. intros t' x (y & Hy & -> & _)%Hold. by apply Hnc with t'.
  - intros k l Hl. destruct (H8 k l Hl) as [?|[?|[(t' & y & Hy & Hcy)|?]]]; [by left|by right; left| |by do 3 right]. do 2 right. left.
    destruct (decide (t = t')) as [<-|Hn].
    + exists t, th'. rewrite list_lookup_insert_eq by (by eapply lookup_lt_Some). split; [done|]. rewrite Hc. rewrite Ht in Hy. by injection Hy as ->.
    + exists t', y. by rewrite list_lookup_insert_ne.
Qed.

(** Taking a claim. *)
Lemma claim_inv w t k g p : pumps_inv w -> pm_threads w !! t = Some (HasRead k g) -> ev_last (pm_ev w) !! k = Some p -> p < g ->
  pumps_inv (set_thread t (HasClaimed k g p) (set_pm_ev (mk_ev (ev_ring (pm_ev w)) (ev_total (pm_ev w)) (<[k := g]> (ev_last (pm_ev w))) (ev_stale (pm_ev w))) w)).
Proof.
  intros [H1 H2 H3 H4 H5 H6 H7 H8] Ht Hl Hlt.
  assert (Hlast : forall j l, <[k := g]> (ev_last (pm_ev w)) !! j = Some l -> (j = k /\ l = g) \/ (j <> k /\ ev_last (pm_ev w) !! j = Some l)).
  { intros j l [(-> & -> & _)|[Hn H]]%list_lookup_insert_Some; [by left|right; split; [congruence|done]]. }
  assert (Hnew : <[k := g]> (ev_last (pm_ev w)) !! k = Some g) by (rewrite list_lookup_insert_eq; [done|by eapply lookup_lt_Some]).
  assert (Hup : forall j a, (exists l, ev_last (pm_ev w) !! j = Some l /\ a <= l) -> exists l, <[k := g]> (ev_last (pm_ev w)) !! j = Some l /\ a <= l).
  { intros j a (l & Hj & Ha). destruct (decide (j = k)) as [->|Hn]; [exists g; rewrite Hl in Hj; injection Hj as ->; split; [done|lia]|exists l; by rewrite list_lookup_insert_ne]. }
  assert (Hbelow : forall t' th' g', pm_threads w !! t' = Some th' -> claim_of th' = Some (k, g') -> g' <= p).
  { intros t' th' g' Ht' Hc. destruct (H3 t' th' k g' Ht' Hc) as (l & Hl' & Hle). rewrite Hl in Hl'. by injection Hl' as <-. }
  split; cbn [set_thread set_pm_ev pm_ev ev_last pm_gens pm_threads pm_pushed].
  - intros j l [[-> ->]|[_ Hj]]%Hlast; [by apply (H2 t)|by apply H1].
  - intros t' j a [[_ ?]|[_ Hx]]%thread_cases; [done|by eapply H2].
  - intros t' x j a [[-> ->]|[_ Hx]]%thread_cases Hc; [injection Hc as <- <-; by exists g|]. apply Hup. by eapply H3.
  - intros t1 t2 x1 x2 j a [[-> ->]|[_ Hx1]]%thread_cases [[-> ->]|[_ Hx2]]%thread_cases Hc1 Hc2; [done| | |by eapply H4].
    + injection Hc1 as <- <-. specialize (Hbelow t2 x2 g Hx2 Hc2). lia.
    + injection Hc2 as <- <-. specialize (Hbelow t1 x1 g Hx1 Hc1). lia.
  - intros t' x j a b [[-> ->]|[_ Hx]]%thread_cases Hp.
    + injection Hp as <- <- <-. split_and!; [done| |].
      * intros t2 x2 g' [[-> ->]|[_ Hx2]]%thread_cases Hc Hg; [injection Hc as <-; lia|by eapply Hbelow].
      * intros g' Hg _. destruct (H6 k g' Hg) as [(l & Hl' & Hle) _]. rewrite Hl in Hl'. by injection Hl' as <-.
    + destruct (H5 t' x j a b Hx Hp) as (P1 & P2 & P3). split_and!; [done| |done].
      intros t2 x2 g' [[-> ->]|[_ Hx2]]%thread_cases Hc Hg; [|by eapply P2]. injection Hc as <- <-.
      specialize (Hbelow t' x a Hx (prev_claim _ _ _ _ Hp)). lia.
  - intros j a Hja. destruct (H6 j a Hja) as [Hle Hnc]. split; [by apply Hup|]. intros t' x [[-> ->]|[_ Hx]]%thread_cases; [|by apply Hnc with t'].
    cbn. intros [= <- <-]. destruct Hle as (l & Hl' & Hle). rewrite Hl in Hl'. injection Hl' as <-. lia.
  - done.
  - intros j l [[-> ->]|[Hn Hj]]%Hlast.
    + do 2 right. left. exists t, (HasClaimed k g p). rewrite list_lookup_insert_eq by (by eapply lookup_lt_Some). done.
    + destruct (H8 j l Hj) as [?|[?|[(t' & y & Hy & Hcy)|?]]]; [by left|by right; left| |by do 3 right]. do 2 right. left.
      exists t', y. rewrite list_lookup_insert_ne; [done|]. intros <-. by rewrite Ht in Hy; injection Hy as <-.
Qed.

(** A thread that gives up its claim: a stale frame, or a failed render whose
    claim does not stand any more. *)
Lemma drop_claim_inv w t th k g ev' : pumps_inv w -> pm_threads w !! t = Some th -> claim_of th = Some (k, g) ->
  ev_last (pm_ev w) !! k <> Some g -> ev_last ev' = ev_last (pm_ev w) -> pumps_inv (set_thread t Idle (set_pm_ev ev' w)).
Proof.
  intros [H1 H2 H3 H4 H5 H6 H7 H8] Ht Hc Hl He.
  split; cbn [set_thread set_pm_ev pm_ev pm_gens pm_threads pm_pushed]; rewrite ?He; try done.
  - intros t' j a [[_ ?]|[_ Hx]]%thread_cases; [done|by eapply H2].
  - intros t' x j a [[-> ->]|[_ Hx]]%thread_cases Hcx; [done|by eapply H3].
  - intros t1 t2 x1 x2 j a [[-> ->]|[_ Hx1]]%thread_cases [[-> ->]|[_ Hx2]]%thread_cases Hc1 Hc2; try done. by eapply H4.
  - intros t' x j a b [[-> ->]|[_ Hx]]%thread_cases Hp; [done|]. destruct (H5 t' x j a b Hx Hp) as (P1 & P2 & P3). split_and!; [done| |done].
    intros t2 x2 g' [[-> ->]|[_ Hx2]]%thread_cases Hc2 Hg; [done|by eapply P2].
  - intros j a Hja. destruct (H6 j a Hja) as [Hle Hnc]. split; [done|]. intros t' x [[-> ->]|[_ Hx]]%thread_cases; [done|by apply Hnc with t'].
  - intros j l Hj. destruct (H8 j l Hj) as [?|[?|[(t' & y & Hy & Hcy)|?]]]; [by left|by right; left| |by do 3 right]. do 2 right. left.
    exists t', y. rewrite list_lookup_insert_ne; [done|]. intros <-. rewrite Ht in Hy. injection Hy as <-. rewrite Hc in Hcy. injection Hcy as <- <-. done.
Qed.

(** A failed render whose claim stands. *)
Lemma revoke_inv w t th k g p : pumps_inv w -> pm_threads w !! t = Some th -> prev_of th = Some (k, g, p) -> ev_last (pm_ev w) !! k = Some g ->
  pumps_inv (set_thread t Idle (set_pm_ev (mk_ev (ev_ring (pm_ev w)) (ev_total (pm_ev w)) (<[k := p]> (ev_last (pm_ev w))) (ev_stale (pm_ev w))) w)).
Proof.
  intros [H1 H2 H3 H4 H5 H6 H7 H8] Ht Hp Hl. pose proof (prev_claim _ _ _ _ Hp) as Hc. destruct (H5 t th k g p Ht Hp) as (Hpg & Hcl & Hpu).
  assert (Hlast : forall j l, <[k := p]> (ev_last (pm_ev w)) !! j = Some l -> (j = k /\ l = p) \/ (j <> k /\ ev_last (pm_ev w) !! j = Some l)).
  { intros j l [(-> & -> & _)|[Hn H]]%list_lookup_insert_Some; [by left|right; split; [congruence|done]]. }
  assert (Hnew : <[k := p]> (ev_last (pm_ev w)) !! k = Some p) by (rewrite list_lookup_insert_eq; [done|by eapply lookup_lt_Some]).
  split; cbn [set_thread set_pm_ev pm_ev ev_last pm_gens pm_threads pm_pushed]; try done.
  - intros j l [[-> ->]|[_ Hj]]%Hlast; [|by apply H1]. specialize (H1 k g Hl). lia.
  - intros t' j a [[_ ?]|[_ Hx]]%thread_cases; [done|by eapply H2].
  - intros t' x j a [[-> ->]|[Hn Hx]]%thread_cases Hcx; [done|]. destruct (H3 t' x j a Hx Hcx) as (l & Hj & Hle).
    destruct (decide (j = k)) as [->|Hnk]; [|exists l; by rewrite list_lookup_insert_ne]. rewrite Hl in Hj. injection Hj as <-. exists p. split; [done|].
    apply (Hcl t' x); [done|done|]. destruct (decide (a = g)) as [->|]; [|lia]. destruct Hn. by eapply H4.
  - intros t1 t2 x1 x2 j a [[-> ->]|[_ Hx1]]%thread_cases [[-> ->]|[_ Hx2]]%thread_cases Hc1 Hc2; try done. by eapply H4.
  - intros t' x j a b [[-> ->]|[_ Hx]]%thread_cases Hpx; [done|]. destruct (H5 t' x j a b Hx Hpx) as (P1 & P2 & P3). split_and!; [done| |done].
    intros t2 x2 g' [[-> ->]|[_ Hx2]]%thread_cases Hc2 Hg; [done|by eapply P2].
  - intros j a Hja. destruct (H6 j a Hja) as [(l & Hj & Hle) Hnc]. split.
    + destruct (decide (j = k)) as [->|Hnk]; [|exists l; by rewrite list_lookup_insert_ne]. rewrite Hl in Hj. injection Hj as <-. exists p. split; [done|].
      apply (Hpu a Hja). destruct (decide (a = g)) as [->|]; [|lia]. by destruct (Hnc t th Ht).
    + intros t' x [[-> ->]|[_ Hx]]%thread_cases; [done|by apply Hnc with t'].
  - intros j l [[-> ->]|[Hn Hj]]%Hlast.
    + do 3 right. specialize (H1 k g Hl). lia.
    + destruct (H8 j l Hj) as [?|[?|[(t' & y & Hy & Hcy)|?]]]; [by left|by right; left| |by do 3 right]. do 2 right. left.
      exists t', y. rewrite list_lookup_insert_ne; [done|]. intros <-. rewrite Ht in Hy. injection Hy as <-. rewrite Hc in Hcy. injection Hcy as <- <-. done.
Qed.

Lemma pushed_snoc k l x : pushed_at k (l ++ [x]) = if decide (x.1 = k) then pushed_at k l ++ [x.2] else pushed_at k l.
Proof.
  unfold pushed_at. rewrite filter_app, map_app, (filter_cons (fun x => x.1 = k) x []), filter_nil. case_decide; [done|]. by rewrite app_nil_r.
Qed.
Lemma pushed_in k g l : g ∈ pushed_at k l <-> (k, g) ∈ l.
Proof.
  unfold pushed_at. rewrite list_elem_of_fmap. split.
  - intros ([k' g'] & -> & [Hk H]%list_elem_of_filter). cbn in *. by subst.
  - intros H. exists (k, g). split; [done|]. by apply list_elem_of_filter.
Qed.
Lemma lt_sorted_snoc l (x : Z) : StronglySorted Z.lt l -> (forall y, y ∈ l -> y < x) -> StronglySorted Z.lt (l ++ [x]).
Proof.
  induction 1 as [|y l Hs IH Hf]; intros Hx; [by repeat constructor|]. cbn [app]. constructor.
  - apply IH. intros z Hz. apply Hx. by apply list_elem_of_further.
  - rewrite Forall_forall in Hf |- *. intros z [Hz| ->%list_elem_of_singleton]%elem_of_app; [by apply Hf|]. apply Hx. apply list_elem_of_here.
Qed.

(** A frame whose claim stands. *)
Lemma commit_inv w t k g frame ev' : pumps_inv w -> pm_threads w !! t = Some (HasFrame k g frame) -> ev_last (pm_ev w) !! k = Some g -> ev_last ev' = ev_last (pm_ev w) ->
  pumps_inv (set_thread t Idle (set_pushed (pm_pushed w ++ [(k, g)]) (set_pm_ev ev' w))).
Proof.
  intros [H1 H2 H3 H4 H5 H6 H7 H8] Ht Hl He. assert (Hc : claim_of (HasFrame k g frame) = Some (k, g)) by done.
  split; cbn [set_thread set_pm_ev set_pushed pm_ev pm_gens pm_threads pm_pushed]; rewrite ?He; try done.
  - intros t' j a [[_ ?]|[_ Hx]]%thread_cases; [done|by eapply H2].
  - intros t' x j a [[-> ->]|[_ Hx]]%thread_cases Hcx; [done|by eapply H3].
  - intros t1 t2 x1 x2 j a [[-> ->]|[_ Hx1]]%thread_cases [[-> ->]|[_ Hx2]]%thread_cases Hc1 Hc2; try done. by eapply H4.
  - intros t' x j a b [[-> ->]|[Hn Hx]]%thread_cases Hp; [done|]. destruct (H5 t' x j a b Hx Hp) as (P1 & P2 & P3). split_and!; [done| |].
    + intros t2 x2 g' [[-> ->]|[_ Hx2]]%thread_cases Hc2 Hg; [done|by eapply P2].
    + intros g' [Hg'|[= -> ->]%list_elem_of_singleton]%elem_of_app Hg; [by apply P3|]. by apply (P2 t _ g Ht Hc).
  - intros j a [Hja|[= -> ->]%list_elem_of_singleton]%elem_of_app.
    + destruct (H6 j a Hja) as [Hle Hnc]. split; [done|]. intros t' x [[-> ->]|[_ Hx]]%thread_cases; [done|by apply Hnc with t'].
    + split; [by exists g|]. intros t' x [[-> ->]|[Hn Hx]]%thread_cases; [done|]. intros Hcx. destruct Hn. by eapply H4.
  - intros j. rewrite pushed_snoc. cbn [fst snd]. case_decide as Hj; [subst j|by apply H7]. apply lt_sorted_snoc; [by apply H7|].
    intros y Hy%pushed_in. destruct (H6 k y Hy) as [(l & Hl' & Hle) Hnc]. rewrite Hl in Hl'. injection Hl' as <-.
    destruct (decide (y = g)) as [->|]; [|lia]. by destruct (Hnc t _ Ht).
  - intros j l Hj. destruct (H8 j l Hj) as [?|[?|[(t' & y & Hy & Hcy)|?]]]; [by left|right; left; apply elem_of_app; by left| |by do 3 right].
    destruct (decide (t = t')) as [<-|Hn].
    + right. left. rewrite Ht in Hy. injection Hy as <-. rewrite Hc in Hcy. injection Hcy as <- <-. apply elem_of_app. right. by apply list_elem_of_singleton.
    + do 2 right. left. exists t', y. by rewrite list_lookup_insert_ne.
Qed.

Lemma u32_next_ne z : (u32 (z + 1) =? z) = false.
Proof. apply Z.eqb_neq. unfold u32. pose proof (Z.mod_pos_bound (z + 1) (2 ^ 32)). destruct (Z.eq_dec z (2 ^ 32 - 1)) as [->|Hn]; [done|]. intros E. rewrite Z.mod_small in E; lia. Qed.
Lemma act_inv a w w' : pumps_inv w -> claims_forward a w -> pump_act_step a w = Some w' -> pumps_inv w'.
Proof.
  intros Hw Hf. destruct a as [k|t k|t|t frame|t]; cbn [pump_act_step claims_forward] in *.
  - destruct (_ <? _); [|done]. intros [= <-]. destruct Hw as [H1 H2 H3 H4 H5 H6 H7 H8].
    assert (Hb : forall j, pm_gens w j <= bump k (pm_gens w) j) by (intros j; unfold bump; destruct (j =? k)%nat; lia).
    split; cbn [pm_ev pm_gens pm_threads pm_pushed]; try done.
    + intros j l Hj. specialize (H1 j l Hj). specialize (Hb j). lia.
    + intros t j a Hj. specialize (H2 t j a Hj). specialize (Hb j). lia.
    + intros j l Hj. destruct (H8 j l Hj) as [?|[?|[?|?]]]; [by left|by right; left|by right; right; left|]. do 3 right. specialize (Hb j). lia.
  - destruct (pm_threads w !! t) as [[]|] eqn:Ht; try done. intros [= <-]. apply (thread_same_inv w t Idle); try done. by intros k' g [= <- <-].
  - destruct (pm_threads w !! t) as [[|k g| | |]|] eqn:Ht; try done. unfold pump_claim. destruct (ev_last (pm_ev w) !! k) as [p|] eqn:Hl.
    + destruct (Z.eqb_spec g p) as [->|Hn]; intros [= <-].
      * by apply (thread_same_inv w t (HasRead k p)).
      * apply claim_inv; try done. specialize (Hf p eq_refl). lia.
    + intros [= <-]. by apply (thread_same_inv w t (HasRead k g)).
  - destruct (pm_threads w !! t) as [[| |k g p| |]|] eqn:Ht; try done. intros [= <-]. destruct frame; by apply (thread_same_inv w t (HasClaimed k g p)).
  - destruct (pm_threads w !! t) as [[| | |k g frame|k g p]|] eqn:Ht; try done; intros [= <-].
    + unfold pump_commit, claim_stands. destruct (ev_last (pm_ev w) !! k) as [l|] eqn:Hl; [destruct (Z.eqb_spec l g) as [->|Hn]|].
      * cbn [ev_total]. rewrite u32_next_ne. by eapply commit_inv.
      * cbn [ev_total]. rewrite Z.eqb_refl. apply (drop_claim_inv w t (HasFrame k g frame) k g); try done. congruence.
      * cbn [ev_total]. rewrite Z.eqb_refl. apply (drop_claim_inv w t (HasFrame k g frame) k g); try done. congruence.
    + unfold pump_revoke, claim_stands. destruct (ev_last (pm_ev w) !! k) as [l|] eqn:Hl; [destruct (Z.eqb_spec l g) as [->|Hn]|].
      * apply (revoke_inv w t (HasFailed k g p) k g p); done.
      * apply (drop_claim_inv w t (HasFailed k g p) k g); try done. congruence.
      * apply (drop_claim_inv w t (HasFailed k g p) k g); try done. congruence.
Qed.
Lemma pumps_run_inv acts : forall w w', pumps_inv w -> forward_run acts w -> pumps_run acts w = Some w' -> pumps_inv w'.
Proof.
  induction acts as [|a acts IH]; intros w w' Hw Hf Hr; [by injection Hr as <-|]. cbn [pumps_run forward_run] in *. destruct Hf as [Ha Hf].
  destruct (pump_act_step a w) as [w1|] eqn:E; [|done]. eapply IH; [|exact Hf|exact Hr]. by eapply act_inv.
Qed.



(** The broadcaster (thread 0) reads a generation; before it takes the claim a
    producer (thread 1) reads the next one and claims it. *)
Definition overtaken (k : nat) : list pump_act := [Bump k; ReadGen 0 k; Bump k; ReadGen 1 k; Claim 1].
Definition published (t : nat) (frame : list byte) : list pump_act := [Render t (Some frame); Finish t].

Lemma some_such {A} (o : option A) (P : A -> Prop) : match o with Some x => P x | None => False end -> exists x, o = Some x /\ P x.
Proof. destruct o as [x|]; [|done]. intros H. by exists x. Qed.

(** The generation is read before the lock is taken, and the claim only
    compares it for being different: a thread overtaken between the two claims an
    older generation than the one recorded.  The claims do not keep frames from
    being put into the ring twice then: here the producer's pass, the overtaken
    pass and the next pass put generations 2, 1 and 2.  And a frame can be lost:
    when the overtaken thread's claim lies over the producer's finish and its own
    render fails, nothing has been put into the ring, no thread is at work, and
    the recorded generation is the present one, so no later pass tries again. *)
Theorem overtaken_claim_doubles_or_loses ring k frame : (k < BB_DATA_HTTP_MAX_ATTACH)%nat ->
  (exists w, pumps_run (overtaken k ++ published 1 frame ++ [Claim 0] ++ published 0 frame ++ [ReadGen 1 k; Claim 1] ++ published 1 frame) (pumps0 ring 2) = Some w /\
    pushed_at k (pm_pushed w) = [2; 1; 2]) /\
  (exists w, pumps_run (overtaken k ++ [Claim 0] ++ published 1 frame ++ [Render 0 None; Finish 0]) (pumps0 ring 2) = Some w /\
    pushed_at k (pm_pushed w) = [] /\ Forall (eq Idle) (pm_threads w) /\ ev_last (pm_ev w) !! k = Some 2 /\ pm_gens w k = 2).
Proof.
  unfold BB_DATA_HTTP_MAX_ATTACH. intros Hk.
  do 8 (destruct k as [|k]; [split; apply some_such; vm_compute; split_and?; repeat constructor|]). lia.
Qed.
Lemma overtaken_claim_doubles_or_loses_witness :
  exists w, pumps_run (overtaken 3 ++ [Claim 0] ++ published 1 [] ++ [Render 0 None; Finish 0]) (pumps0 None 2) = Some w /\ pushed_at 3 (pm_pushed w) = [] /\ pm_gens w 3 = 2.
Proof.
  destruct (overtaken_claim_doubles_or_loses None 3 []) as [_ (w & H1 & H2 & _ & _ & H3)]; [unfold BB_DATA_HTTP_MAX_ATTACH; lia|]. by exists w.
Defined.
