(* ===== verification/DataHttpPools.v ===== *)
(** The bookkeeping of DataHttp's clients: pools, reservations and the budget of
    blocking clients, whatever the order of calls. *)
From Stdlib Require Import Strings.String Sorting.Sorted.
From S2P Require Import Prelude Bytes Num Str Registry Queue DataHttp.

(** * Clients, pools and the budget *)

(** What the bookkeeping of clients is about. *)
Record core := mk_core { co_in_use : bool; co_non_blocking : bool; co_mask : Z; co_poll : option nat; co_push : option nat; co_out : bool }.
Definition core_of (c : client) : core :=
  mk_core (cl_in_use c) (cl_non_blocking c) (cl_mask c) (cl_poll c) (cl_push c) (match cl_out c with Some _ => true | None => false end).
Record skel := mk_skel { sk_cfg : dh_cfg; sk_clients : list core; sk_reserved : list bool; sk_polls : list bool; sk_pushes : list bool }.
Definition skel_of (s : dh) : skel := mk_skel (d_cfg s) (map core_of (d_clients s)) (d_reserved s) (pl_used (d_polls s)) (pl_used (d_pushes s)).
Definition sk_busy (k : skel) (i : nat) : bool :=
  match sk_clients k !! i, sk_reserved k !! i with Some c, Some r => co_in_use c || r | _, _ => false end.
Definition sk_blocking_at (k : skel) (i : nat) : bool := sk_busy k i && match sk_clients k !! i with Some c => negb (co_non_blocking c) | None => false end.

(** A pool's flags are those of the pointers of the clients, which differ. *)
Definition pool_exact (ptr : core -> option nat) (cap : nat) (used : list bool) (k : skel) : Prop :=
  (forall i c p, sk_clients k !! i = Some c -> ptr c = Some p -> (p < cap)%nat /\ used !! p = Some true /\ sk_busy k i = true) /\
  (forall i j c c' p, sk_clients k !! i = Some c -> sk_clients k !! j = Some c' -> ptr c = Some p -> ptr c' = Some p -> i = j) /\
  (forall p, used !! p = Some true -> exists i c, sk_clients k !! i = Some c /\ ptr c = Some p).

Record skel_ok (L : limits) (k : skel) : Prop := {
  so_len : length (sk_clients k) = MAX_CLIENTS L /\ length (sk_reserved k) = MAX_CLIENTS L /\ length (sk_polls k) = MAX_POLL_CLIENTS L /\ length (sk_pushes k) = MAX_PUSH_CLIENTS L;
  so_cfg : (cf_clients (sk_cfg k) <= MAX_CLIENTS L /\ cf_polls (sk_cfg k) <= MAX_POLL_CLIENTS L /\ cf_pushes (sk_cfg k) <= MAX_PUSH_CLIENTS L)%nat;
  so_polls : pool_exact co_poll (cf_polls (sk_cfg k)) (sk_polls k) k;
  so_pushes : pool_exact co_push (cf_pushes (sk_cfg k)) (sk_pushes k) k;
  so_live : forall i c, sk_clients k !! i = Some c -> co_in_use c = true -> co_out c = true /\ sk_reserved k !! i = Some false;
  so_built : forall i c, sk_clients k !! i = Some c -> co_out c = true ->
    (co_poll c <> None <-> Z.land (co_mask c) (kind_bit BB_DATA_HTTP_STATE) <> 0) /\ (co_push c <> None <-> Z.land (co_mask c) (kind_bit BB_DATA_HTTP_EVENT) <> 0);
  so_fresh : forall i c, sk_clients k !! i = Some c -> co_out c = false -> co_poll c = None /\ co_push c = None;
  so_idle : forall i c, sk_clients k !! i = Some c -> sk_busy k i = false -> co_out c = false;
  so_budget : (length (filter (fun i => sk_blocking_at k i = true) (seq 0 (cf_clients (sk_cfg k)))) <= MAX_BLOCKING_CLIENTS L)%nat;
  so_closed : cf_init (sk_cfg k) = false -> forall i, sk_busy k i = false
}.

Section Skel.
Context (L : limits).

(** One client changes, busy or not as it was told. *)
Record client_step (k k' : skel) (i : nat) (c c' : core) : Prop := {
  cs_old : sk_clients k !! i = Some c;
  cs_new : sk_clients k' = <[i := c']> (sk_clients k);
  cs_others : forall j, j <> i -> sk_busy k' j = sk_busy k j;
  cs_cfg : sk_cfg k' = sk_cfg k
}.
Lemma client_cases k k' i c c' j x : client_step k k' i c c' -> sk_clients k' !! j = Some x -> (j = i /\ x = c') \/ (j <> i /\ sk_clients k !! j = Some x).
Proof. intros [_ Hn _ _]. rewrite Hn. intros [(-> & -> & _)|[Hne H]]%list_lookup_insert_Some; [by left|right; split; [congruence|done]]. Qed.
Lemma client_new k k' i c c' : client_step k k' i c c' -> sk_clients k' !! i = Some c'.
Proof. intros [Ho Hn _ _]. rewrite Hn. by rewrite list_lookup_insert_eq by (by eapply lookup_lt_Some). Qed.
Lemma client_kept k k' i c c' j : client_step k k' i c c' -> j <> i -> sk_clients k' !! j = sk_clients k !! j.
Proof. intros [_ Hn _ _] Hj. by rewrite Hn, list_lookup_insert_ne. Qed.

Lemma pool_keep ptr cap used k k' i c c' : client_step k k' i c c' -> ptr c' = ptr c -> (ptr c <> None -> sk_busy k' i = true) -> pool_exact ptr cap used k -> pool_exact ptr cap used k'.
Proof.
  intros Hs Hp Hb (P1 & P2 & P3). pose proof (cs_old _ _ _ _ _ Hs) as Ho. split_and!.
  - intros j x p [[-> ->]|[Hn Hx]]%(client_cases _ _ _ _ _ _ _ Hs) Hpx; [|rewrite (cs_others _ _ _ _ _ Hs) by done; by eapply P1].
    rewrite Hp in Hpx. destruct (P1 i c p Ho Hpx) as (Q1 & Q2 & _). split_and!; [done|done|]. apply Hb. congruence.
  - intros j j' x x' p [[-> ->]|[Hn Hx]]%(client_cases _ _ _ _ _ _ _ Hs) [[-> ->]|[Hn' Hx']]%(client_cases _ _ _ _ _ _ _ Hs) H1 H2; try done.
    + rewrite Hp in H1. by eapply P2.
    + rewrite Hp in H2. by eapply P2.
    + by eapply P2.
  - intros p (j & x & Hx & Hpx)%P3. destruct (decide (j = i)) as [->|Hn].
    + rewrite Ho in Hx. injection Hx as <-. exists i, c'. split; [by eapply client_new|by rewrite Hp].
    + exists j, x. by rewrite (client_kept _ _ _ _ _ _ Hs Hn).
Qed.
Lemma pool_take ptr cap used k k' i c c' p : client_step k k' i c c' -> ptr c = None -> ptr c' = Some p -> sk_busy k' i = true -> (p < cap)%nat -> used !! p = Some false ->
  pool_exact ptr cap used k -> pool_exact ptr cap (<[p := true]> used) k'.
Proof.
  intros Hs Hc Hp Hb Hcap Hu (P1 & P2 & P3). pose proof (cs_old _ _ _ _ _ Hs) as Ho.
  assert (Hnot : forall j x q, sk_clients k !! j = Some x -> ptr x = Some q -> q <> p) by (intros j x q Hx Hq ->; destruct (P1 j x p Hx Hq) as (_ & H & _); congruence).
  assert (Hpl : (p < length used)%nat) by by eapply lookup_lt_Some. split_and!.
  - intros j x q [[-> ->]|[Hn Hx]]%(client_cases _ _ _ _ _ _ _ Hs) Hq.
    + rewrite Hp in Hq. injection Hq as <-. by rewrite list_lookup_insert_eq.
    + rewrite (cs_others _ _ _ _ _ Hs) by done. destruct (P1 j x q Hx Hq) as (Q1 & Q2 & Q3). split_and!; [done| |done]. rewrite list_lookup_insert_ne; [done|].
      intros ->. by eapply Hnot.
  - intros j j' x x' q [[-> ->]|[Hn Hx]]%(client_cases _ _ _ _ _ _ _ Hs) [[-> ->]|[Hn' Hx']]%(client_cases _ _ _ _ _ _ _ Hs) H1 H2; try done.
    + rewrite Hp in H1. injection H1 as <-. by destruct (Hnot j' x' p).
    + rewrite Hp in H2. injection H2 as <-. by destruct (Hnot j x p).
    + by eapply P2.
  - intros q [(-> & _ & _)|[Hn Hq]]%list_lookup_insert_Some; [exists i, c'; split; [by eapply client_new|done]|].
    destruct (P3 q Hq) as (j & x & Hx & Hqx). exists j, x. split; [|done]. rewrite (client_kept _ _ _ _ _ _ Hs); [done|]. intros ->. rewrite Ho in Hx. injection Hx as <-. congruence.
Qed.
Lemma pool_give ptr cap used k k' i c c' : client_step k k' i c c' -> ptr c' = None -> pool_exact ptr cap used k ->
  pool_exact ptr cap (match ptr c with Some p => <[p := false]> used | None => used end) k'.
Proof.
  intros Hs Hc (P1 & P2 & P3). pose proof (cs_old _ _ _ _ _ Hs) as Ho. destruct (ptr c) as [p|] eqn:Ep.
  2:{ eapply pool_keep; [exact Hs|congruence|congruence|done]. }
  destruct (P1 i c p Ho Ep) as (Q1 & Q2 & Q3). split_and!.
  - intros j x q [[-> ->]|[Hn Hx]]%(client_cases _ _ _ _ _ _ _ Hs) Hq; [congruence|]. rewrite (cs_others _ _ _ _ _ Hs) by done.
    destruct (P1 j x q Hx Hq) as (R1 & R2 & R3). split_and!; [done| |done]. rewrite list_lookup_insert_ne; [done|]. intros <-. apply Hn. by eapply P2.
  - intros j j' x x' q [[-> ->]|[Hn Hx]]%(client_cases _ _ _ _ _ _ _ Hs) [[-> ->]|[Hn' Hx']]%(client_cases _ _ _ _ _ _ _ Hs) H1 H2; try congruence. by eapply P2.
  - intros q [(_ & ? & _)|[Hn Hq]]%list_lookup_insert_Some; [done|]. destruct (P3 q Hq) as (j & x & Hx & Hqx). exists j, x. split; [|done].
    rewrite (client_kept _ _ _ _ _ _ Hs); [done|]. intros ->. rewrite Ho in Hx. injection Hx as <-. congruence.
Qed.

(** The count of blocking clients. *)
Lemma count_le (P Q : nat -> bool) l : (forall i, P i = true -> Q i = true) -> (length (filter (fun i => P i = true) l) <= length (filter (fun i => Q i = true) l))%nat.
Proof. intros H. induction l as [|x l IH]; [done|]. rewrite !filter_cons. repeat case_decide; cbn [length]; try lia. by destruct (H x). Qed.
Lemma count_none (P : nat -> bool) l : (forall i, P i = false) -> length (filter (fun i => P i = true) l) = 0%nat.
Proof. intros H. induction l as [|x l IH]; [done|]. rewrite filter_cons, decide_False by (by rewrite H). exact IH. Qed.
Lemma count_one (P Q : nat -> bool) i l : NoDup l -> (forall j, j <> i -> P j = true -> Q j = true) ->
  (length (filter (fun j => P j = true) l) <= S (length (filter (fun j => Q j = true) l)))%nat.
Proof.
  intros Hn H. induction Hn as [|x l Hx Hn IH]; [cbn; lia|]. rewrite !filter_cons. destruct (decide (x = i)) as [->|Hi].
  - assert (Hle : (length (filter (fun j => P j = true) l) <= length (filter (fun j => Q j = true) l))%nat).
    { clear IH Hn. induction l as [|y l IH]; [done|]. rewrite !filter_cons. apply not_elem_of_cons in Hx as [Hy Hx]. specialize (IH Hx).
      repeat case_decide; cbn [length]; try lia. by destruct (H y ltac:(congruence)). }
    repeat case_decide; cbn [length]; lia.
  - repeat case_decide; cbn [length]; try lia. by destruct (H x Hi).
Qed.
Definition sk_count (k : skel) : nat := length (filter (fun i => sk_blocking_at k i = true) (seq 0 (cf_clients (sk_cfg k)))).
Lemma blocking_others k k' i c c' j : client_step k k' i c c' -> j <> i -> sk_blocking_at k' j = sk_blocking_at k j.
Proof. intros Hs Hj. unfold sk_blocking_at. by rewrite (cs_others _ _ _ _ _ Hs j Hj), (client_kept _ _ _ _ _ _ Hs Hj). Qed.
Lemma budget_keep k k' i c c' : client_step k k' i c c' -> (sk_blocking_at k' i = true -> sk_blocking_at k i = true) -> (sk_count k' <= sk_count k)%nat.
Proof.
  intros Hs Hi. unfold sk_count. rewrite (cs_cfg _ _ _ _ _ Hs). apply count_le. intros j. destruct (decide (j = i)) as [->|Hj]; [done|]. by rewrite (blocking_others _ _ _ _ _ _ Hs Hj).
Qed.
Lemma budget_one k k' i c c' : client_step k k' i c c' -> (sk_count k' <= S (sk_count k))%nat.
Proof.
  intros Hs. unfold sk_count. rewrite (cs_cfg _ _ _ _ _ Hs). apply (count_one _ _ i); [apply NoDup_seq|]. intros j Hj. by rewrite (blocking_others _ _ _ _ _ _ Hs Hj).
Qed.

Lemma skel_step_ok k k' i c c' : skel_ok L k -> client_step k k' i c c' ->
  length (sk_reserved k') = length (sk_reserved k) -> length (sk_polls k') = length (sk_polls k) -> length (sk_pushes k') = length (sk_pushes k) ->
  pool_exact co_poll (cf_polls (sk_cfg k)) (sk_polls k') k' -> pool_exact co_push (cf_pushes (sk_cfg k)) (sk_pushes k') k' ->
  (co_in_use c' = true -> co_out c' = true /\ sk_reserved k' !! i = Some false) -> (forall j, j <> i -> sk_reserved k' !! j = sk_reserved k !! j) ->
  (co_out c' = true -> (co_poll c' <> None <-> Z.land (co_mask c') (kind_bit BB_DATA_HTTP_STATE) <> 0) /\ (co_push c' <> None <-> Z.land (co_mask c') (kind_bit BB_DATA_HTTP_EVENT) <> 0)) ->
  (co_out c' = false -> co_poll c' = None /\ co_push c' = None) -> (sk_busy k' i = false -> co_out c' = false) ->
  (sk_count k' <= MAX_BLOCKING_CLIENTS L)%nat -> (cf_init (sk_cfg k) = false -> sk_busy k' i = false) -> skel_ok L k'.
Proof.
  intros [S1 S2 S3 S4 S5 S6 S7 S8 S9 S10] Hs R1 R2 R3 Hpo Hpu Hl Hr Hb Hf Hi Hc Hn. split; rewrite ?(cs_cfg _ _ _ _ _ Hs); try done.
  - rewrite (cs_new _ _ _ _ _ Hs), length_insert, R1, R2, R3. done.
  - intros j x [[-> ->]|[Hj Hx]]%(client_cases _ _ _ _ _ _ _ Hs) Hu; [by apply Hl|]. rewrite Hr by done. by apply S5.
  - intros j x [[-> ->]|[Hj Hx]]%(client_cases _ _ _ _ _ _ _ Hs) Hu; [by apply Hb|by apply (S6 j)].
  - intros j x [[-> ->]|[Hj Hx]]%(client_cases _ _ _ _ _ _ _ Hs) Hu; [by apply Hf|by apply (S7 j)].
  - intros j x [[-> ->]|[Hj Hx]]%(client_cases _ _ _ _ _ _ _ Hs) Hu; [by apply Hi|]. rewrite (cs_others _ _ _ _ _ Hs) in Hu by done. by apply (S8 j).
  - unfold sk_count in Hc. rewrite (cs_cfg _ _ _ _ _ Hs) in Hc. exact Hc.
  - intros Hci j. destruct (decide (j = i)) as [->|Hj]; [by apply Hn|]. rewrite (cs_others _ _ _ _ _ Hs) by done. by apply S10.
Qed.

Lemma cores_alter (f : client -> client) i l c : l !! i = Some c -> map core_of (alter f i l) = <[i := core_of (f c)]> (map core_of l).
Proof.
  intros Hi. apply list_eq. intros j. rewrite list_lookup_fmap. destruct (decide (i = j)) as [<-|Hn].
  - rewrite list_lookup_alter_eq, Hi. cbn. rewrite list_lookup_insert_eq; [done|]. rewrite length_map. by eapply lookup_lt_Some.
  - rewrite list_lookup_alter_ne by done. rewrite list_lookup_insert_ne by done. by rewrite list_lookup_fmap.
Qed.
Lemma cores_same (f : client -> client) i l : (forall c, core_of (f c) = core_of c) -> map core_of (alter f i l) = map core_of l.
Proof.
  intros Hf. destruct (l !! i) as [c|] eqn:Hi.
  - rewrite (cores_alter f i l c Hi), Hf. apply list_insert_id. by rewrite list_lookup_fmap, Hi.
  - apply list_eq. intros j. rewrite !list_lookup_fmap. destruct (decide (i = j)) as [<-|Hn]; [by rewrite list_lookup_alter_eq, Hi|by rewrite list_lookup_alter_ne].
Qed.
Lemma upd_client_skel (f : client -> client) i s : (forall c, core_of (f c) = core_of c) -> skel_of (upd_client i f s) = skel_of s.
Proof. intros Hf. unfold skel_of, upd_client. cbn. by rewrite cores_same. Qed.
Lemma core_at s i c : d_clients s !! i = Some c -> sk_clients (skel_of s) !! i = Some (core_of c).
Proof. intros H. cbn. by rewrite list_lookup_fmap, H. Qed.

(** A client that changes on its own. *)
Lemma skel_client_step s s' i c f : d_clients s !! i = Some c -> d_cfg s' = d_cfg s -> d_clients s' = alter f i (d_clients s) ->
  (forall j, j <> i -> d_reserved s' !! j = d_reserved s !! j) -> client_step (skel_of s) (skel_of s') i (core_of c) (core_of (f c)).
Proof.
  intros Hi Hc Hl Hr. split; cbn; rewrite ?Hc, ?Hl; try done.
  - by rewrite list_lookup_fmap, Hi.
  - by apply cores_alter.
  - intros j Hj. unfold sk_busy. cbn. rewrite Hl, (Hr j Hj), (cores_alter f i _ c Hi), list_lookup_insert_ne by done. done.
Qed.

Lemma dh_release_ok i s : skel_ok L (skel_of s) -> skel_ok L (skel_of (bb_data_http_client_release i s)).
Proof.
  intros Hok. unfold bb_data_http_client_release. destruct (d_clients s !! i) as [c|] eqn:Hi; [|done].
  set (s' := upd_client i cl_released _).
  assert (Hs : client_step (skel_of s) (skel_of s') i (core_of c) (core_of (cl_released c))) by by apply skel_client_step.
  pose proof (pool_give co_poll _ _ _ _ _ _ _ Hs eq_refl (so_polls _ _ Hok)) as Hpo. pose proof (pool_give co_push _ _ _ _ _ _ _ Hs eq_refl (so_pushes _ _ Hok)) as Hpu.
  assert (Eb : sk_busy (skel_of s') i = true -> sk_busy (skel_of s) i = true).
  { unfold sk_busy. cbn. rewrite (cores_alter cl_released i _ c Hi), list_lookup_insert_eq, list_lookup_fmap, Hi by (rewrite length_map; by eapply lookup_lt_Some). cbn.
    destruct (d_reserved s !! i) as [r|]; [|done]. cbn. intros ->. apply orb_true_r. }
  eapply skel_step_ok; [exact Hok|exact Hs| | | | | | | | | | | |]; try done.
  - unfold s', upd_client, push_free, poll_free. cbn. destruct (cl_poll c); cbn; by rewrite ?length_insert.
  - unfold s', upd_client, push_free, poll_free. cbn. destruct (cl_push c); cbn; by rewrite ?length_insert.
  - unfold s', upd_client, push_free, poll_free in *. cbn in *. by destruct (cl_poll c).
  - unfold s', upd_client, push_free, poll_free in *. cbn in *. by destruct (cl_push c).
  - etransitivity; [|exact (so_budget _ _ Hok)]. apply (budget_keep _ _ _ _ _ Hs). unfold sk_blocking_at. intros [Hb Hn]%andb_true_iff. rewrite (Eb Hb).
    rewrite (client_new _ _ _ _ _ Hs) in Hn. by rewrite (cs_old _ _ _ _ _ Hs).
  - intros Hc. pose proof (so_closed _ _ Hok Hc i) as H. apply not_true_iff_false. intros Hb. apply Eb in Hb. congruence.
Qed.

Lemma busy_skel s i : busy s i = sk_busy (skel_of s) i.
Proof. unfold busy, sk_busy. cbn. rewrite list_lookup_fmap. by destruct (d_clients s !! i). Qed.
Lemma blocking_skel s i : blocking_at s i = sk_blocking_at (skel_of s) i.
Proof. unfold blocking_at, sk_blocking_at. rewrite busy_skel. cbn. rewrite list_lookup_fmap. by destruct (d_clients s !! i). Qed.
Lemma count_skel s : blocking_count s = sk_count (skel_of s).
Proof. unfold blocking_count, sk_count. f_equal. apply list_filter_iff. intros i. by rewrite blocking_skel. Qed.

(** The clients that can be reserved. *)
Lemma free_client_spec s i : skel_ok L (skel_of s) -> free_client s = Some i -> exists c, d_clients s !! i = Some c /\ busy s i = false /\ d_reserved s !! i = Some false.
Proof.
  intros Hok Hf. apply find_some in Hf as [Hin Hb]. apply negb_true_iff in Hb. apply in_seq in Hin.
  destruct (so_len _ _ Hok) as (L1 & L2 & _). destruct (so_cfg _ _ Hok) as (L3 & _). cbn in L1, L2, L3. rewrite length_map in L1.
  destruct (lookup_lt_is_Some_2 (d_clients s) i ltac:(lia)) as [c Hc]. destruct (lookup_lt_is_Some_2 (d_reserved s) i ltac:(lia)) as [r Hr].
  exists c. unfold busy in Hb |- *. rewrite Hc, Hr in Hb |- *. destruct r; [by rewrite orb_true_r in Hb|]. by rewrite Hb.
Qed.
Lemma reserve_ok nb s rc i s' : skel_ok L (skel_of s) -> cf_init (d_cfg s) = true -> client_reserve L nb s = (rc, i, s') -> skel_ok L (skel_of s').
Proof.
  intros Hok Hinit. unfold client_reserve. destruct (negb nb && _) eqn:Eb; [by intros [= <- <- <-]|]. destruct (free_client s) as [j|] eqn:Ef; [|by intros [= <- <- <-]].
  intros [= <- <- <-]. destruct (free_client_spec s j Hok Ef) as (c & Hc & Hb & Hr).
  set (s' := upd_client j (cl_set_non_blocking nb) _).
  assert (Hs : client_step (skel_of s) (skel_of s') j (core_of c) (core_of (cl_set_non_blocking nb c))).
  { apply skel_client_step; try done. intros x Hx. cbn. by rewrite list_lookup_insert_ne. }
  rewrite busy_skel in Hb. pose proof (so_idle _ _ Hok j _ (core_at s j c Hc) Hb) as Hout. cbn in Hout. destruct (so_fresh _ _ Hok j _ (core_at s j c Hc) Hout) as [Hpo Hpu]. cbn in Hpo, Hpu.
  assert (Hlr : (j < length (d_reserved s))%nat) by by eapply lookup_lt_Some.
  assert (Hbusy : sk_busy (skel_of s') j = true).
  { unfold sk_busy. rewrite (client_new _ _ _ _ _ Hs). cbn. rewrite list_lookup_insert_eq by done. by rewrite orb_true_r. }
  assert (Huse : cl_in_use c = false).
  { destruct (cl_in_use c) eqn:E; [|done]. unfold sk_busy in Hb. rewrite (core_at s j c Hc) in Hb. cbn in Hb. rewrite Hr, E in Hb. done. }
  eapply skel_step_ok; [exact Hok|exact Hs| | | | | | | | | | | |]; try done; cbn.
  - by rewrite length_insert.
  - eapply pool_keep; [exact Hs|done|done|apply Hok].
  - eapply pool_keep; [exact Hs|done|done|apply Hok].
  - by rewrite Huse.
  - intros x Hx. by rewrite list_lookup_insert_ne.
  - by rewrite Hout.
  - destruct nb.
    + etransitivity; [|exact (so_budget _ _ Hok)]. apply (budget_keep _ _ _ _ _ Hs). unfold sk_blocking_at. rewrite (client_new _ _ _ _ _ Hs). cbn. by rewrite andb_false_r.
    + cbn in Eb. apply Nat.leb_gt in Eb. rewrite count_skel in Eb. pose proof (budget_one _ _ _ _ _ Hs). lia.
  - by rewrite Hinit.
Qed.

Lemma free_in_pool_spec n : forall used k i, free_in_pool n used k = Some i -> exists j, i = (k + j)%nat /\ (j < n)%nat /\ used !! j = Some false.
Proof.
  induction n as [|n IH]; intros used k i; [done|]. destruct used as [|u used]; [done|]. cbn. destruct u; cbn.
  - intros (j & -> & Hj & Hu)%IH. exists (S j). split_and!; [lia|lia|done].
  - intros [= <-]. exists 0%nat. split_and!; [lia|lia|done].
Qed.
Lemma pool_alloc_spec {T} n (x : T) p i p' : pool_alloc n x p = Some (i, p') -> (i < n)%nat /\ pl_used p !! i = Some false /\ pl_used p' = <[i := true]> (pl_used p).
Proof.
  unfold pool_alloc. destruct (free_in_pool n (pl_used p) 0) as [j|] eqn:E; [|done]. intros [= <- <-]. apply free_in_pool_spec in E as (j' & -> & H1 & H2). done.
Qed.
Lemma pool_back {T} n (x : T) p i p' : pool_alloc n x p = Some (i, p') -> pl_used (pool_free (Some i) p') = pl_used p.
Proof. intros (H1 & H2 & H3)%pool_alloc_spec. cbn. rewrite H3, list_insert_insert_eq. by apply list_insert_id. Qed.

(** A reserved client that is not built yet. *)
Definition reserved_only (i : nat) (s : dh) : Prop := d_reserved s !! i = Some true /\ exists c, d_clients s !! i = Some c /\ cl_out c = None.

Lemma not_live i s c : skel_ok L (skel_of s) -> d_reserved s !! i = Some true -> d_clients s !! i = Some c -> cl_in_use c = false.
Proof.
  intros Hok Hr Hc. destruct (cl_in_use c) eqn:E; [|done]. destruct (so_live _ _ Hok i _ (core_at s i c Hc) E) as [_ H]. cbn in H. congruence.
Qed.

(** The reservation is taken back and nothing is kept. *)
Lemma unreserve_ok i s s' c f : skel_ok L (skel_of s) -> d_reserved s !! i = Some true -> d_clients s !! i = Some c -> cl_out c = None ->
  d_cfg s' = d_cfg s -> d_clients s' = alter f i (d_clients s) -> d_reserved s' = <[i := false]> (d_reserved s) ->
  pl_used (d_polls s') = pl_used (d_polls s) -> pl_used (d_pushes s') = pl_used (d_pushes s) ->
  cl_in_use (f c) = cl_in_use c -> cl_poll (f c) = None -> cl_push (f c) = None -> cl_out (f c) = None -> skel_ok L (skel_of s').
Proof.
  intros Hok Hr Hc Ho E1 E2 E3 E4 E5 F1 F2 F3 F4. pose proof (not_live i s c Hok Hr Hc) as Hu.
  assert (Hs : client_step (skel_of s) (skel_of s') i (core_of c) (core_of (f c))).
  { apply skel_client_step; try done. intros j Hj. rewrite E3. by rewrite list_lookup_insert_ne. }
  assert (Hcore : co_out (core_of c) = false) by (cbn; by rewrite Ho). destruct (so_fresh _ _ Hok i _ (core_at s i c Hc) Hcore) as [Hpo Hpu]. cbn in Hpo, Hpu.
  assert (Hlr : (i < length (d_reserved s))%nat) by by eapply lookup_lt_Some.
  assert (Hbusy : sk_busy (skel_of s') i = false).
  { unfold sk_busy. rewrite (client_new _ _ _ _ _ Hs). cbn. rewrite E3, list_lookup_insert_eq by done. by rewrite F1, Hu. }
  eapply skel_step_ok; [exact Hok|exact Hs| | | | | | | | | | | |]; cbn; rewrite ?E3, ?E4, ?E5, ?F1, ?F2, ?F3, ?F4, ?Hu; try done.
  - by rewrite length_insert.
  - eapply pool_keep; [exact Hs|cbn; congruence|cbn; congruence|apply Hok].
  - eapply pool_keep; [exact Hs|cbn; congruence|cbn; congruence|apply Hok].
  - intros j Hj. by rewrite list_lookup_insert_ne.
  - etransitivity; [|exact (so_budget _ _ Hok)]. apply (budget_keep _ _ _ _ _ Hs). unfold sk_blocking_at. by rewrite Hbusy.
Qed.

Lemma pool_maybe ptr cap used k k' i c c' (p : option nat) used' : client_step k k' i c c' -> ptr c = None -> ptr c' = p -> sk_busy k' i = true ->
  match p with Some p => (p < cap)%nat /\ used !! p = Some false /\ used' = <[p := true]> used | None => used' = used end ->
  pool_exact ptr cap used k -> pool_exact ptr cap used' k'.
Proof.
  intros Hs Hc Hp Hb Hm Hx. destruct p as [p|].
  - destruct Hm as (H1 & H2 & ->). by eapply pool_take.
  - subst used'. eapply pool_keep; [exact Hs|congruence|done|done].
Qed.

Lemma build_ok i cfg al s : skel_ok L (skel_of s) -> reserved_only i s ->
  skel_ok L (skel_of (client_build L i cfg al s).2) /\
  (is_ok (client_build L i cfg al s).1 = true -> exists c, d_clients (client_build L i cfg al s).2 !! i = Some c /\ d_reserved (client_build L i cfg al s).2 !! i = Some true /\ cl_out c <> None).
Proof.
  intros Hok (Hr & c & Hc & Ho). unfold client_build. set (mask := if cc_mask cfg =? 0 then BB_DATA_HTTP_SUBSCRIBE_ALL else cc_mask cfg). clearbody mask.
  set (polled := if Z.land mask (kind_bit BB_DATA_HTTP_STATE) =? 0 then _ else _).
  assert (Hpolled : match polled with
    | None => True
    | Some (po, s1) => exists pl, s1 = set_polls pl s /\ (po <> None <-> Z.land mask (kind_bit BB_DATA_HTTP_STATE) <> 0) /\ pl_used (pool_free po pl) = pl_used (d_polls s) /\
        match po with Some p => (p < cf_polls (d_cfg s))%nat /\ pl_used (d_polls s) !! p = Some false /\ pl_used pl = <[p := true]> (pl_used (d_polls s)) | None => pl_used pl = pl_used (d_polls s) end
    end).
  { unfold polled. destruct (Z.eqb_spec (Z.land mask (kind_bit BB_DATA_HTTP_STATE)) 0) as [E|E].
    - exists (d_polls s). split_and!; try done. by destruct s.
    - unfold poll_alloc. destruct (pool_alloc _ _ _) as [[p pl]|] eqn:Ea; [|done]. exists pl. pose proof (pool_alloc_spec _ _ _ _ _ Ea). split_and!; try done; try tauto. by eapply pool_back. }
  clearbody polled. destruct polled as [[po s1]|]; cbn [fst snd is_ok].
  2:{ split; [|done]. apply (unreserve_ok i s _ c (fun c => c)); try done; try (by apply (so_fresh _ _ Hok i _ (core_at s i c Hc)); cbn; rewrite Ho).
      cbn. symmetry. apply list_alter_id. by intros. }
  destruct Hpolled as (pl & -> & Hpm & Hpb & Hpx).
  set (pushed := if Z.land mask (kind_bit BB_DATA_HTTP_EVENT) =? 0 then _ else _).
  assert (Hpushed : match pushed with
    | None => True
    | Some (pu, s2) => exists pl', s2 = set_pushes pl' (set_polls pl s) /\ (pu <> None <-> Z.land mask (kind_bit BB_DATA_HTTP_EVENT) <> 0) /\ pl_used (pool_free pu pl') = pl_used (d_pushes s) /\
        match pu with Some p => (p < cf_pushes (d_cfg s))%nat /\ pl_used (d_pushes s) !! p = Some false /\ pl_used pl' = <[p := true]> (pl_used (d_pushes s)) | None => pl_used pl' = pl_used (d_pushes s) end
    end).
  { unfold pushed. destruct (Z.eqb_spec (Z.land mask (kind_bit BB_DATA_HTTP_EVENT)) 0) as [E|E].
    - exists (d_pushes s). split_and!; try done.
    - unfold push_alloc. destruct (pool_alloc _ _ _) as [[p pl']|] eqn:Ea; [|done]. exists pl'. pose proof (pool_alloc_spec _ _ _ _ _ Ea). split_and!; try done; try tauto. by eapply pool_back. }
  clearbody pushed. destruct pushed as [[pu s2]|]; cbn [fst snd is_ok].
  2:{ split; [|done]. apply (unreserve_ok i s _ c (fun c => c)); try done; try (by apply (so_fresh _ _ Hok i _ (core_at s i c Hc)); cbn; rewrite Ho).
      cbn. symmetry. apply list_alter_id. by intros. }
  destruct Hpushed as (pl' & -> & Hum & Hub & Hux).
  set (topic := match cc_topic cfg with Some t => field_text BB_DATA_HTTP_TOPIC_MAX t | None => [] end). clearbody topic.
  set (s3 := match pu with Some p => upd_push p _ _ | None => _ end).
  assert (H3 : exists pl2, s3 = set_pushes pl2 (set_polls pl s) /\ pl_used pl2 = pl_used pl') by (unfold s3; destruct pu; by eexists).
  clearbody s3. destruct H3 as (pl2 & -> & H2).
  destruct (queue_create al _) as [rc out] eqn:Eq. assert (Hout : is_ok rc = true -> out <> None).
  { unfold queue_create in Eq. destruct (queue_cfg_check _ _) as [[]|]; [destruct al|]; by injection Eq as <- <-. }
  clear Eq. destruct (is_ok rc) eqn:Erc; cbn [negb fst snd].
  2:{ split; [|intros H; by rewrite H in Erc]. eapply (unreserve_ok i s _ c); try done; cbn; try done.
      destruct pu as [p|]; cbn in *; [by rewrite H2|by rewrite H2]. }
  specialize (Hout eq_refl). set (made := fun c => mk_client _ _ _ _ _ _ _ _ _ _ _ _ _ _). set (s4 := upd_client i made _).
  assert (Hgoal : skel_ok L (skel_of s4) /\ exists c', d_clients s4 !! i = Some c' /\ d_reserved s4 !! i = Some true /\ cl_out c' <> None).
  { assert (Hs : client_step (skel_of s) (skel_of s4) i (core_of c) (core_of (made c))) by by apply skel_client_step.
    pose proof (not_live i s c Hok Hr Hc) as Hu. assert (Hcore : co_out (core_of c) = false) by (cbn; by rewrite Ho).
    destruct (so_fresh _ _ Hok i _ (core_at s i c Hc) Hcore) as [Hpo Hpu].
    assert (Hbusy : sk_busy (skel_of s4) i = true) by (unfold sk_busy; rewrite (client_new _ _ _ _ _ Hs); cbn; by rewrite Hr, orb_true_r).
    assert (Hob : match out with Some _ => true | None => false end = true) by by destruct out.
    split.
    - eapply skel_step_ok; [exact Hok|exact Hs| | | | | | | | | | | |]; cbn; rewrite ?Hob, ?Hu; try done.
      + destruct po; [destruct Hpx as (_ & _ & ->); by rewrite length_insert|by rewrite Hpx].
      + rewrite H2. destruct pu; [destruct Hux as (_ & _ & ->); by rewrite length_insert|by rewrite Hux].
      + by eapply (pool_maybe co_poll _ _ _ _ _ _ _ po); [exact Hs| | | | |apply Hok].
      + rewrite H2. by eapply (pool_maybe co_push _ _ _ _ _ _ _ pu); [exact Hs| | | | |apply Hok].
      + by rewrite Hbusy.
      + etransitivity; [|exact (so_budget _ _ Hok)]. apply (budget_keep _ _ _ _ _ Hs). unfold sk_blocking_at. rewrite (client_new _ _ _ _ _ Hs), (cs_old _ _ _ _ _ Hs), Hbusy. cbn.
        intros ->. unfold sk_busy. rewrite (core_at s i c Hc). cbn. by rewrite Hr, orb_true_r.
      + intros Hci. pose proof (so_closed _ _ Hok Hci i) as H. unfold sk_busy in H. rewrite (core_at s i c Hc) in H. cbn in H. by rewrite Hr, orb_true_r in H.
    - exists (made c). split_and!; [|done|done]. unfold s4, upd_client. cbn. by rewrite list_lookup_alter_eq, Hc. }
  destruct Hgoal as [G1 (c' & Hc' & G2 & G3)]. destruct po as [p|]; [rewrite Hc'|]; cbn [fst snd]; (split; [exact G1|]); intros _; exists c'; by split_and!.
Qed.

Lemma publish_ok i s c : skel_ok L (skel_of s) -> d_clients s !! i = Some c -> d_reserved s !! i = Some true -> cl_out c <> None -> skel_ok L (skel_of (client_publish i s)).
Proof.
  intros Hok Hc Hr Ho. unfold client_publish. set (s' := release_client_reservation_locked i _).
  assert (Hs : client_step (skel_of s) (skel_of s') i (core_of c) (core_of (cl_publish c))).
  { apply skel_client_step; try done. intros j Hj. cbn. by rewrite list_lookup_insert_ne. }
  assert (Hlr : (i < length (d_reserved s))%nat) by by eapply lookup_lt_Some.
  assert (Hbusy : sk_busy (skel_of s') i = true).
  { unfold sk_busy. rewrite (client_new _ _ _ _ _ Hs). cbn. by rewrite list_lookup_insert_eq by done. }
  assert (Hob : co_out (core_of c) = true) by (cbn; by destruct (cl_out c)).
  pose proof (so_built _ _ Hok i _ (core_at s i c Hc) Hob) as Hm.
  assert (Hold : sk_busy (skel_of s) i = true) by (unfold sk_busy; rewrite (core_at s i c Hc); cbn; by rewrite Hr, orb_true_r).
  eapply skel_step_ok; [exact Hok|exact Hs| | | | | | | | | | | |]; try done.
  - cbn. by rewrite length_insert.
  - eapply pool_keep; [exact Hs|done|done|apply Hok].
  - eapply pool_keep; [exact Hs|done|done|apply Hok].
  - intros _. split; [exact Hob|]. cbn. by rewrite list_lookup_insert_eq.
  - intros j Hj. cbn. by rewrite list_lookup_insert_ne.
  - intros H. cbn in H, Hob. congruence.
  - by rewrite Hbusy.
  - etransitivity; [|exact (so_budget _ _ Hok)]. apply (budget_keep _ _ _ _ _ Hs). unfold sk_blocking_at. rewrite Hold, (client_new _ _ _ _ _ Hs), (cs_old _ _ _ _ _ Hs), Hbusy. done.
  - intros Hci. pose proof (so_closed _ _ Hok Hci i). congruence.
Qed.
End Skel.

Lemma core_push frame ts id c : core_of (outbound_push frame ts id c) = core_of c.
Proof. unfold outbound_push. destruct (cl_out c) eqn:E; [|done]. unfold core_of. cbn. by rewrite E. Qed.
Lemma core_pop c : core_of (outbound_pop c) = core_of c.
Proof. unfold outbound_pop. destruct (cl_out c) eqn:E; [|done]. unfold core_of. cbn. by rewrite E. Qed.
Lemma core_marker c x : core_of (try_flush_event_drop_marker c x).1 = core_of c.
Proof. unfold try_flush_event_drop_marker. repeat case_match; try done. apply core_push. Qed.
Lemma core_entry t n ring seq a idx : core_of (drain_entry t n ring seq a idx).1 = core_of a.1.
Proof.
  destruct a as [c x]. unfold drain_entry. cbv zeta. destruct (_ <? 0); [done|]. destruct (bb_queue_peek_at _ _ _ _) as [[] [[[[len ts] id] buf]|]]; try done.
  destruct (attach_at _ _); [|done]. destruct (negb _); [done|]. destruct (try_flush_event_drop_marker _ _) as [c1 x1] eqn:E. destruct (negb _).
  - change c1 with ((c1, x1).1). rewrite <- E. apply core_marker.
  - cbn [fst]. rewrite core_push. change c1 with ((c1, x1).1). rewrite <- E. apply core_marker.
Qed.
Lemma core_drain t n ev a : core_of (drain_client_events t n ev a).1 = core_of a.1.
Proof.
  unfold drain_client_events. cbv zeta. destruct (try_flush_event_drop_marker _ _) as [c x] eqn:E. rewrite <- (core_marker a.1 a.2), E. cbn [fst]. clear E.
  destruct (ev_ring ev) as [ring|]; [|done]. generalize (skip_evicted (u32 (ev_total ev - Z.of_nat (bb_queue_count (Some ring)))) x). intros x'.
  change (core_of c) with (core_of (c, x').1). generalize (c, x') as a'. generalize (seq 0 (bb_queue_count (Some ring))) as l.
  induction l as [|idx l IH]; intros a'; [done|]. cbn [fold_left]. by rewrite IH, core_entry.
Qed.

Lemma fold_kept {S T} (f : S -> T -> S) (P : S -> Prop) l : (forall s x, P s -> P (f s x)) -> forall s, P s -> P (fold_left f l s).
Proof. intros Hf. induction l as [|x l IH]; intros s Hs; [done|]. cbn. apply IH. by apply Hf. Qed.

Section Keeps.
Context (L : limits).
Context {App : Type}.
Context (gen_code : Z -> list byte -> App -> bb_err * Z).
Context (render_code : Z -> list byte -> nat -> App -> bb_err * list byte * App).
Context (send_code : Z -> list byte -> nat -> list byte -> App -> bb_err * App).
Context (abort_code : Z -> nat -> dh -> App -> dh * App).
Context (now_ms : App -> Z).
(** The contract of an abort seam: it tears the transport down and releases the
    client. *)
Context (Habort : forall a i s app, (abort_code a i s app).1 = bb_data_http_client_release i s).
Abbreviation sweep := (bb_data_http_sweep_step L gen_code render_code send_code abort_code now_ms).
Abbreviation pump := (bb_data_http_push_pump L gen_code render_code).
Abbreviation ok := (fun w : dh * App => skel_ok L (skel_of w.1)).

Lemma detect_skel count app s : skel_of (sweep_detect L gen_code count app s) = skel_of s.
Proof.
  unfold sweep_detect. destruct (_ =? _); [done|]. generalize (state_eligible L s) as el. intros el.
  apply (fold_kept _ (fun s' => skel_of s' = skel_of s)); [|done]. intros s' k <-. unfold detect_key. destruct (attach_at _ _) as [slot|]; [|done].
  destruct (bool_decide _); [done|]. destruct (gen_code _ _ _) as [[] g]; try done. apply (fold_kept _ (fun s2 => skel_of s2 = skel_of s')); [|done].
  intros s2 i <-. unfold detect_client. repeat case_match; done.
Qed.
Lemma pump_key_skel k w : skel_of (pump_key L gen_code render_code k w).1 = skel_of w.1.
Proof.
  destruct w as [s app]. unfold pump_key. destruct (attach_at _ _); [|done]. destruct (negb _); [done|]. destruct (gen_code _ _ _) as [[] g]; try done.
  destruct (pump_claim _ _ _) as [[prev|] ev]; [|done]. cbv zeta. destruct (_ =? _); [done|]. destruct (render_code _ _ _ _) as [[rc f] app']. by destruct (negb (is_ok rc)).
Qed.
Lemma pump_skel w : skel_of (pump w).1 = skel_of w.1.
Proof.
  unfold bb_data_http_push_pump. destruct (_ =? _); [done|]. apply (fold_kept _ (fun w' : dh * App => skel_of w'.1 = skel_of w.1)); [|done].
  intros w' k <-. apply pump_key_skel.
Qed.
Lemma drain_key_skel i p w k : skel_of (drain_key L render_code now_ms i p w k).1 = skel_of w.1.
Proof.
  destruct w as [s app]. unfold drain_key. destruct (_ !! p); [|done]. destruct (negb _); [done|]. destruct (attach_at _ _); [|done]. destruct (_ =? _); [done|].
  destruct (gated _ _ _ _); [done|]. destruct (render_code _ _ _ _) as [[rc f] app']. destruct (negb _); [done|]. cbn [fst]. rewrite upd_client_skel; [done|]. intros c. apply core_push.
Qed.
Lemma drain_keys_skel count i w : skel_of (drain_keys L render_code now_ms count i w).1 = skel_of w.1.
Proof.
  unfold drain_keys. repeat case_match; try done. apply (fold_kept _ (fun w' : dh * App => skel_of w'.1 = skel_of w.1)); [|done]. intros w' k <-. apply drain_key_skel.
Qed.
Lemma drain_events_skel i s : skel_of (drain_events L i s) = skel_of s.
Proof.
  unfold drain_events. destruct (d_clients s !! i) as [c|] eqn:Hc; [|done]. destruct (cl_push c) as [p|]; [|done]. destruct (_ !! p) as [x|]; [|done].
  destruct (drain_client_events _ _ _ _) as [c' x'] eqn:E. pose proof (core_drain (d_table s) (OUTBOUND_ENTRY_MAX L) (d_ev s) (c, x)) as Hcore. rewrite E in Hcore. cbn [fst] in Hcore.
  unfold skel_of, upd_client, upd_push. cbn. f_equal. rewrite (cores_alter _ i _ c Hc), Hcore. apply list_insert_id. by rewrite list_lookup_fmap, Hc.
Qed.
Lemma flush_loop_ok fuel : forall send i w, ok w -> ok (flush_loop L send_code abort_code fuel send i w).
Proof.
  induction fuel as [|fuel IH]; intros send i w Hw; [done|]. destruct w as [s app]. cbn [flush_loop]. destruct (d_clients s !! i) as [c|]; [|done]. destruct (cl_out c) as [q|]; [|done].
  destruct (bb_queue_peek_oldest _ _ _) as [[] [[[[len ts] id] f]|]]; try done. destruct (send_code _ _ _ _ _) as [rc app'].
  assert (Hsame : forall f : client -> client, (forall c, core_of (f c) = core_of c) -> skel_ok L (skel_of (upd_client i f s))) by (intros g Hg; by rewrite upd_client_skel).
  assert (Hfatal : ok match cl_lifetime c with
      | LIFETIME_DURABLE => (upd_client i (cl_set_fails 0) s, app')
      | LIFETIME_EPHEMERAL => let abort := if cl_abort c =? 0 then se_abort (d_seams s) else cl_abort c in
          if abort =? 0 then (bb_data_http_client_release i s, app') else abort_code abort i s app'
      end).
  { destruct (cl_lifetime c); [|by apply Hsame]. cbv zeta. destruct (_ =? 0); [|cbn; rewrite Habort]; by apply dh_release_ok. }
  destruct rc; try exact Hfatal.
  - apply IH. cbn. apply Hsame. intros c'. by rewrite core_pop.
  - cbv zeta. destruct (_ <? _); cbn; apply Hsame; intros c'; [done|]. apply (core_pop c').
Qed.
Lemma sweep_client_ok count w i : ok w -> ok (sweep_client L render_code send_code abort_code now_ms count w i).
Proof.
  intros Hw. unfold sweep_client. destruct (_ !! i) as [c|]; [|done]. destruct (negb _); [done|]. destruct (cl_pending c); [by apply dh_release_ok|]. cbv zeta.
  set (w' := drain_keys _ _ _ _ _ _). assert (Hw' : ok (drain_events L i w'.1, w'.2)) by (cbn; rewrite drain_events_skel; unfold w'; by rewrite drain_keys_skel).
  clearbody w'. unfold flush_client. cbn [fst snd] in *. destruct (_ !! i) as [c'|]; [|done]. cbv zeta. destruct (_ =? 0); [|by apply flush_loop_ok].
  destruct (_ && _); [|done]. cbn. by rewrite upd_client_skel.
Qed.
Lemma sweep_ok w : ok w -> ok (sweep w).
Proof.
  intros Hw. unfold bb_data_http_sweep_step. cbv zeta. apply (fold_kept _ ok); [intros w' i; apply sweep_client_ok|]. cbn beta. rewrite pump_skel. cbn. by rewrite detect_skel.
Qed.

(** ** Any sequence of calls *)

(** Between its critical sections an acquire interleaves with everything else:
    its three parts are operations of their own. *)
Inductive dh_op : Type :=
  | OInit (cfg : option init_cfg) (alloc : bool) | OAttach (cfg : option attach_cfg) | ODescribe (key topic component schema : option (list byte)) | OSeams (x : seams)
  | OReserve (non_blocking : bool) | OBuild (i : nat) (cfg : client_cfg) (alloc : bool) | OPublish (i : nat)
  | ORelease (i : nat) | ORequestRelease (i : nat) | OPump | OSweep | OApp (app : App).
Definition dh_op_step (o : dh_op) (w : dh * App) : dh * App :=
  match o with
  | OInit cfg al => ((bb_data_http_init L cfg al w.1).2, w.2)
  | OAttach cfg => (set_table (bb_data_http_attach L cfg (d_table w.1)).2 w.1, w.2)
  | ODescribe k t c x => (set_describe (bb_data_http_describe k t c x (d_describe w.1)).2 w.1, w.2)
  | OSeams x => (set_seams x w.1, w.2)
  | OReserve nb => ((client_reserve L nb w.1).2, w.2)
  | OBuild i cfg al => ((client_build L i cfg al w.1).2, w.2)
  | OPublish i => (client_publish i w.1, w.2)
  | ORelease i => (bb_data_http_client_release i w.1, w.2)
  | ORequestRelease i => (bb_data_http_client_request_release i w.1, w.2)
  | OPump => pump w
  | OSweep => sweep w
  | OApp app => (w.1, app)
  end.
(** The parts of an acquire come in their order; nothing is acquired before
    init. *)
Definition built (i : nat) (s : dh) : Prop := d_reserved s !! i = Some true /\ exists c, d_clients s !! i = Some c /\ cl_out c <> None.
Definition dh_op_fine (o : dh_op) (s : dh) : Prop :=
  match o with
  | OReserve _ => cf_init (d_cfg s) = true
  | OBuild i _ _ => reserved_only i s
  | OPublish i => built i s
  | _ => True
  end.
Fixpoint dh_ops_run (os : list dh_op) (w : dh * App) : dh * App := match os with [] => w | o :: os => dh_ops_run os (dh_op_step o w) end.
Fixpoint dh_ops_fine (os : list dh_op) (w : dh * App) : Prop := match os with [] => True | o :: os => dh_op_fine o w.1 /\ dh_ops_fine os (dh_op_step o w) end.

Lemma dh_init_ok cfg al s : skel_ok L (skel_of s) -> skel_ok L (skel_of (bb_data_http_init L cfg al s).2).
Proof.
  intros Hok. unfold bb_data_http_init. destruct (cf_init (d_cfg s)) eqn:Ei; [done|]. cbv zeta.
  do 4 (match goal with |- context [(?a <? ?b)%nat] => destruct (Nat.ltb_spec a b) end; [done|]).
  destruct (queue_create _ _) as [rc ring]. destruct (negb _); [done|]. cbn [snd].
  pose proof Hok as [S1 S2 S3 S4 S5 S6 S7 S8 S9 S10]. specialize (S10 Ei).
  assert (Hp : forall ptr cap used, pool_exact ptr cap used (skel_of s) -> Forall (eq false) used).
  { intros ptr cap used (P1 & _ & P3). apply Forall_forall. intros [] Hb; [|done]. apply list_elem_of_lookup_1 in Hb as [p Hp]. destruct (P3 p Hp) as (i & c & Hi & Hc).
    destruct (P1 i c p Hi Hc) as (_ & _ & Hb). by rewrite S10 in Hb. }
  pose proof (Hp _ _ _ S3) as F1. pose proof (Hp _ _ _ S4) as F2.
  assert (Hmap : forall l : list bool, Forall (eq false) l -> map (fun _ => false) l = l) by (induction 1 as [|x l <- _ IH]; [done|]; cbn; by rewrite IH).
  assert (Hbusy : forall i c r, sk_clients (skel_of s) !! i = Some c -> d_reserved s !! i = Some r -> co_in_use c = false /\ r = false).
  { intros i c r Hi Hr. specialize (S10 i). unfold sk_busy in S10. rewrite Hi in S10. cbn in S10. rewrite Hr in S10. by apply orb_false_iff in S10. }
  assert (Hres : Forall (eq false) (d_reserved s)).
  { apply Forall_lookup. intros i r Hr. destruct S1 as (L1 & L2 & _). cbn in L2. destruct (lookup_lt_is_Some_2 (sk_clients (skel_of s)) i) as [c Hc]; [rewrite L1, <- L2; by eapply lookup_lt_Some|].
    by destruct (Hbusy i c r Hc Hr) as [_ ->]. }
  match goal with |- skel_ok L (skel_of (mk_dh _ _ _ ?cfg' ?cl _ _ _ _ _)) => set (cf := cfg'); set (cls := cl) end.
  assert (Hcores : map core_of cls = map core_of (d_clients s)).
  { unfold cls. rewrite map_map. apply map_ext_in. intros c Hc%list_elem_of_In. apply list_elem_of_lookup_1 in Hc as [i Hi]. pose proof (core_at s i c Hi) as Hco.
    destruct S1 as (L1 & L2 & _). cbn in L2. destruct (lookup_lt_is_Some_2 (d_reserved s) i) as [r Hr]; [rewrite L2, <- L1; by eapply lookup_lt_Some|].
    destruct (Hbusy i _ r Hco Hr) as [Hu _]. cbn in Hu. unfold core_of. cbn. by rewrite Hu. }
  clearbody cls. assert (Hsk : forall a b c d e, skel_of (mk_dh a b c cf cls (map (fun _ => false) (d_reserved s)) (mk_pool (pl_states (d_polls s)) (map (fun _ => false) (pl_used (d_polls s))))
      (mk_pool (pl_states (d_pushes s)) (map (fun _ => false) (pl_used (d_pushes s)))) d e) = mk_skel cf (sk_clients (skel_of s)) (sk_reserved (skel_of s)) (sk_polls (skel_of s)) (sk_pushes (skel_of s))).
  { intros. unfold skel_of. cbn. rewrite Hcores, (Hmap (pl_used (d_polls s)) F1), (Hmap (pl_used (d_pushes s)) F2), (Hmap _ Hres). done. }
  rewrite Hsk. clear Hsk. generalize (skel_of s) as k, S1, S2, S5, S6, S7, S8, S10, S3, S4, F1, F2. clear - H H0 H1 H2. intros k S1 S2 S5 S6 S7 S8 S10 S3 S4 F1 F2.
  assert (Hempty : forall ptr cap cap' used, pool_exact ptr cap used k -> Forall (eq false) used -> pool_exact ptr cap' used (mk_skel cf (sk_clients k) (sk_reserved k) (sk_polls k) (sk_pushes k))).
  { intros ptr cap cap' used (P1 & P2 & P3) Hu. rewrite Forall_lookup in Hu. split_and!.
    - intros i c p Hi Hc. destruct (P1 i c p Hi Hc) as (_ & Hp & _). by specialize (Hu p _ Hp).
    - exact P2.
    - intros p Hp. by specialize (Hu p _ Hp). }
  assert (Hnb : forall i, sk_busy (mk_skel cf (sk_clients k) (sk_reserved k) (sk_polls k) (sk_pushes k)) i = false) by (intros i; apply (S10 i)).
  split; try done; cbn; try (by eapply Hempty).
  rewrite count_none; [lia|]. intros i. unfold sk_blocking_at. by rewrite Hnb.
Qed.

Lemma dh0_ok : skel_ok L (skel_of (dh0 L)).
Proof.
  assert (Hc : forall i c, sk_clients (skel_of (dh0 L)) !! i = Some c -> c = core_of client0).
  { intros i c. cbn. rewrite list_lookup_fmap. intros (x & Hx & ->)%fmap_Some. apply list_elem_of_lookup_2, list_elem_of_In, repeat_spec in Hx. by subst. }
  assert (Hr : forall i b n, repeat false n !! i = Some b -> b = false) by (intros i b n H; by apply list_elem_of_lookup_2, list_elem_of_In, repeat_spec in H).
  assert (Hb : forall i, sk_busy (skel_of (dh0 L)) i = false).
  { intros i. unfold sk_busy. destruct (sk_clients _ !! i) as [c|] eqn:E; [|done]. apply Hc in E as ->. destruct (sk_reserved _ !! i) as [r|] eqn:Er; [|done]. apply Hr in Er as ->. done. }
  assert (Hp : forall ptr cap n, ptr (core_of client0) = None -> pool_exact ptr cap (repeat false n) (skel_of (dh0 L))).
  { intros ptr cap n Hn. split_and!.
    - by intros i c p ->%Hc Hp; rewrite Hn in Hp.
    - by intros i j c c' p ->%Hc ->%Hc Hp; rewrite Hn in Hp.
    - by intros p Hp%Hr. }
  split; try (by intros i c ->%Hc); try (by apply Hp); try done.
  - cbn. by rewrite length_map, !repeat_length.
  - cbn. lia.
  - cbn. lia.
Qed.

Lemma op_ok o w : ok w -> dh_op_fine o w.1 -> ok (dh_op_step o w).
Proof.
  intros Hok Hf. destruct o as [cfg al|cfg|k t c x|x|nb|i cfg al|i|i|i| | |app]; cbn [dh_op_step dh_op_fine fst snd] in *; try done.
  - by apply dh_init_ok.
  - destruct (client_reserve L nb w.1) as [[rc o] s'] eqn:E. by eapply reserve_ok.
  - by apply build_ok.
  - destruct Hf as (Hr & c & Hc & Ho). by eapply publish_ok.
  - by apply dh_release_ok.
  - unfold bb_data_http_client_request_release. by rewrite upd_client_skel.
  - by rewrite pump_skel.
  - by apply sweep_ok.
Qed.
Lemma ops_ok os : forall w, ok w -> dh_ops_fine os w -> ok (dh_ops_run os w).
Proof. induction os as [|o os IH]; intros w Hw Hf; [done|]. cbn. destruct Hf as [Ho Hf]. apply IH; [by apply op_ok|done]. Qed.

End Keeps.

(** * Witnesses *)

Definition wit_limits : limits := mk_limits 3 2 2 2 4 64 100 4 256 3 86400000.
Definition wit_gen (_ : Z) (_ : list byte) (app : Z) : bb_err * Z := (BB_OK, app).
Definition wit_show (_ : Z) (key : list byte) (_ : nat) (app : Z) : bb_err * list byte * Z := (BB_OK, key, app).
Definition wit_send (_ : Z) (_ : list byte) (_ : nat) (_ : list byte) (app : Z) : bb_err * Z := (BB_ERR_TIMEOUT, app).
Definition wit_abort (_ : Z) (i : nat) (s : dh) (app : Z) : dh * Z := (bb_data_http_client_release i s, app).
Definition wit_client (mask : Z) : client_cfg := mk_ccfg None 9 0 mask LIFETIME_EPHEMERAL false.
Definition wit_ops : list (dh_op (App := Z)) :=
  [OInit None true; OAttach (Some (mk_acfg (Some (bs "temp")) (Some (bs "t")) BB_DATA_HTTP_STATE 8 1000)); OAttach (Some (mk_acfg (Some (bs "log")) (Some (bs "l")) BB_DATA_HTTP_EVENT 8 0));
   OSeams (mk_seams 1 2 0 0); OReserve false; OReserve false; OReserve false; OBuild 1 (wit_client 1) true; OSweep; OBuild 0 (wit_client 0) true; OPublish 0; OApp 5; OSweep; OPublish 1; OSweep;
   ORequestRelease 0; OSweep].
Abbreviation wit_run := (dh_ops_run wit_limits wit_gen wit_show wit_send wit_abort (fun app => app)).


