(* ===== verification/DataHttpFlow.v ===== *)
(** What DataHttp does with an event, with a key that has to wait for its turn,
    and with the frames of a queue. *)
From Stdlib Require Import Strings.String Sorting.Sorted.
From S2P Require Import Prelude Bytes Num Str Registry Queue DataHttp DataHttpPools.

(** * What happens to an event *)

Section Events.
Context (t : attach_table) (entry_max : nat).

(** The client's outbound queue holds [l]. *)
Record out_rel (c : client) (l : list item) : Prop := {
  or_queue : exists q r, cl_out c = Some q /\ ring_rel q r /\ ri_items r = l /\ q_max_age q = 0 /\ q_max_bytes q = cl_out_max c /\ q_policy q = BB_QUEUE_EVICT_OLDEST /\
    (24 <= q_max_entry q)%nat /\ (entry_max <= q_max_entry q)%nat;
  or_cap : (0 < cl_out_max c)%nat
}.
(** A change of the client that is not its subscription. *)
Definition same_sub (c c' : client) : Prop := cl_mask c' = cl_mask c /\ cl_topic c' = cl_topic c.
Lemma subscribes_same c c' topic kind : same_sub c c' -> client_subscribes c' topic kind = client_subscribes c topic kind.
Proof. intros [H1 H2]. unfold client_subscribes. by rewrite H1, H2. Qed.

Lemma push_out c l frame ts id : out_rel c l -> client_outbound_has_room c (length frame) = true -> (length frame <= max 24 entry_max)%nat ->
  out_rel (outbound_push frame ts id c) (l ++ [(id, ts, frame)]) /\ same_sub c (outbound_push frame ts id c).
Proof.
  intros [(q & r & Hq & Hr & Hl & Ha & Hb & Hp & He & He') Hc] Hroom Hlen. unfold client_outbound_has_room in Hroom. rewrite Hq in Hroom. cbn in Hroom.
  destruct (Nat.leb_spec (q_capacity q) (q_count q)) as [|Hcap]; [done|]. apply Nat.leb_le in Hroom.
  unfold outbound_push. rewrite Hq. pose proof (push_rel q r frame ts id Hr) as (_ & Hrel & Hk). cbv zeta in Hrel.
  assert (Hs : (ring_push (q_capacity q) (q_max_entry q) (q_max_bytes q) (q_max_age q) (q_policy q) frame ts id r).2 = mk_ring (l ++ [(id, ts, frame)]) (ri_dropped r) (ri_truncated r)).
  { unfold ring_push, ring_sweep, swept. rewrite (proj2 (Nat.ltb_ge _ _)) by lia. rewrite Ha. change (0 =? 0) with true. cbv iota. cbn [fst snd ri_items ri_dropped ri_truncated].
    rewrite Nat.sub_diag, Nat.add_0_r. unfold ring_full. rewrite Hl. destruct (qr_count _ _ Hr) as [Hn _]. rewrite Hl in Hn. rewrite (proj2 (Nat.eqb_neq _ _)) by lia.
    pose proof (qr_bytes _ _ Hr) as Hbytes. rewrite Hl in Hbytes. rewrite (proj2 (Nat.ltb_ge (q_max_bytes q) _)) by lia. by rewrite andb_false_r. }
  rewrite Hs in Hrel. destruct Hk as (K1 & K2 & K3 & K4 & K5 & K6). split; [|done]. split; [|done]. do 2 eexists. split_and!; [done|exact Hrel|done|congruence|cbn; congruence|congruence|lia|lia].
Qed.

Lemma marker_length n : 0 <= n < 2 ^ 32 -> (length (marker_text n) < 24)%nat.
Proof.
  intros Hn. change (marker_text n) with ((x7b :: x22 :: bs "dropped" ++ [x22; x3a]) ++ dec_u64 n ++ [x7d]). rewrite !length_app.
  change (length (x7b :: x22 :: bs "dropped" ++ [x22; x3a])) with 11%nat. change (length [x7d]) with 1%nat. pose proof (dec_u64_length_pow 10 n ltac:(lia) ltac:(lia)). lia.
Qed.

(** What a drain adds: events of the ring in their order, and markers. *)
Definition is_event (x : item) : bool := negb (x.1.1 =? BB_DATA_HTTP_DROP_MARKER_ID).
Definition events_of (l : list item) : list item := filter (fun x => is_event x = true) l.

Lemma flush_marker c x l : out_rel c l -> 0 <= pu_dropped x < 2 ^ 32 ->
  exists add, let a := try_flush_event_drop_marker c x in
  out_rel a.1 (l ++ add) /\ same_sub c a.1 /\ events_of add = [] /\ pu_cursor a.2 = pu_cursor x /\ pu_dropped a.2 = pu_dropped x /\
  (pu_marker a.2 = false -> pu_marker x = true -> add = [(BB_DATA_HTTP_DROP_MARKER_ID, 0, marker_text (pu_dropped x))]).
Proof.
  intros Ho Hd. cbv zeta. unfold try_flush_event_drop_marker. destruct (pu_marker x) eqn:Em; cbn [negb].
  2:{ exists []. rewrite app_nil_r. by split_and!. }
  pose proof (marker_length _ Hd) as Hl. rewrite (proj2 (Nat.leb_gt _ _)) by lia.
  destruct (client_outbound_has_room c (length (marker_text (pu_dropped x)))) eqn:Er; cbn [negb].
  - destruct (push_out c l (marker_text (pu_dropped x)) 0 BB_DATA_HTTP_DROP_MARKER_ID Ho Er ltac:(lia)) as [H1 H2]. eexists. split_and!; [exact H1|done|done|done|done|done].
  - exists []. rewrite app_nil_r. split_and!; try done. cbn. by rewrite Em.
Qed.

(** Does the client want the event? *)
Definition wanted (c : client) (x : item) : bool :=
  match attach_at t (Z.to_nat (u16 x.1.1)) with Some slot => client_subscribes c (at_topic slot) (at_kind slot) | None => false end.
Lemma wanted_same c c' x : same_sub c c' -> wanted c' x = wanted c x.
Proof. intros H. unfold wanted. destruct (attach_at _ _); [|done]. by apply subscribes_same. Qed.
Definition wants (c : client) (l : list item) : list item := filter (fun x => wanted c x = true) l.

(** One entry that is next for the client. *)
Lemma next_entry c x l ring r idx e seq : out_rel c l -> ring_rel ring r -> ri_items r !! idx = Some e -> (length (item_bytes e) <= entry_max)%nat -> (0 < entry_max)%nat -> is_event e = true ->
  0 <= pu_dropped x < 2 ^ 32 -> pu_cursor x = u32 (seq + Z.of_nat idx) ->
  exists add k, let a := drain_entry t entry_max ring seq (c, x) idx in
  out_rel a.1 (l ++ add) /\ same_sub c a.1 /\ pu_cursor a.2 = u32 (seq + Z.of_nat (S idx)) /\ 0 <= pu_dropped a.2 < 2 ^ 32 /\
  pu_dropped a.2 = u32 (pu_dropped x + Z.of_nat k) /\ (events_of add = [] /\ (k = length (wants c [e])) \/ events_of add = [e] /\ wanted c e = true /\ k = 0%nat).
Proof.
  intros Ho Hr Hi Hlen Hmax Hev Hd Hcur. cbv zeta. unfold drain_entry.
  assert (Hz : to_i32 (u32 (seq + Z.of_nat idx) - pu_cursor x) = 0) by (rewrite Hcur, Z.sub_diag; reflexivity). rewrite Hz. change (0 <? 0) with false. cbv iota.
  rewrite (peek_rel ring r idx entry_max Hr). unfold ring_peek. rewrite Hi. destruct e as [[id ts] buf]. cbn [item_bytes fst snd] in *.
  assert (Hnext : u32 (u32 (seq + Z.of_nat idx) + 1) = u32 (seq + Z.of_nat (S idx))).
  { unfold u32. rewrite Z.add_mod_idemp_l by lia. f_equal. lia. }
  rewrite Hnext. unfold wants, wanted. cbn [filter list_filter fst].
  destruct (attach_at t (Z.to_nat (u16 id))) as [slot|] eqn:Ea.
  2:{ exists [], 0%nat. cbn [fst snd pu_cursor pu_dropped Z.of_nat]. rewrite app_nil_r, Z.add_0_r, (u32_small _ Hd). cbn. rewrite decide_False by done. split_and!; try done; try lia. by left. }
  destruct (client_subscribes c (at_topic slot) (at_kind slot)) eqn:Es; cbn [negb].
  2:{ exists [], 0%nat. cbn [fst snd pu_cursor pu_dropped Z.of_nat]. rewrite app_nil_r, Z.add_0_r, (u32_small _ Hd). rewrite decide_False by done. split_and!; try done; try lia. by left. }
  destruct (flush_marker c (mk_push (u32 (seq + Z.of_nat (S idx))) (pu_dropped x) (pu_marker x)) l Ho Hd) as (add & F1 & F2 & F3 & F4 & F5 & _).
  destruct (try_flush_event_drop_marker _ _) as [c1 x1]. cbn [fst snd pu_cursor pu_dropped] in *.
  rewrite (firstn_all2 (n := entry_max) buf) by lia. rewrite firstn_all. destruct (client_outbound_has_room c1 (length buf)) eqn:Eroom; cbn [negb fst snd].
  - destruct (push_out c1 (l ++ add) buf ts id F1 Eroom ltac:(lia)) as [P1 P2]. exists (add ++ [(id, ts, buf)]), 0%nat. rewrite app_assoc. rewrite F5, Z.add_0_r, (u32_small _ Hd).
    split_and!; try done; try lia; [destruct F2, P2; split; congruence|]. right. split_and!; try done. unfold events_of in *. rewrite filter_app, F3, filter_cons, decide_True by done. done.
  - exists add, 1%nat. cbn [pu_cursor pu_dropped]. rewrite F5. split_and!; try done; try apply u32_range. left. split; [done|]. by rewrite decide_True by done.
Qed.

Lemma to_i32_small z d : u32 z = u32 d -> - 2 ^ 31 <= d < 2 ^ 31 -> to_i32 z = d.
Proof.
  intros Hz Hd. unfold to_i32, to_signed. rewrite Hz. unfold u32. destruct (Z.lt_ge_cases d 0).
  - rewrite <- (Z.mod_add d 1 (2 ^ 32)) by lia. rewrite Z.mod_small by lia. zcases.
  - rewrite Z.mod_small by lia. zcases.
Qed.
Lemma u32_sub a b : u32 (u32 a - u32 b) = u32 (a - b).
Proof. unfold u32. by rewrite <- Zminus_mod. Qed.

Lemma skip_entry c x ring seq idx C S : pu_cursor x = u32 C -> seq = u32 S -> S + Z.of_nat idx < C -> C - S < 2 ^ 31 -> drain_entry t entry_max ring seq (c, x) idx = (c, x).
Proof.
  intros Hx -> Hlt Hb. unfold drain_entry. cbv zeta. rewrite Hx.
  assert (Hz : to_i32 (u32 (u32 S + Z.of_nat idx) - u32 C) = S + Z.of_nat idx - C).
  { apply to_i32_small; [|lia]. rewrite u32_sub. unfold u32. rewrite Zminus_mod, Z.add_mod_idemp_l by lia. by rewrite <- Zminus_mod. }
  rewrite Hz, (proj2 (Z.ltb_lt _ _)) by lia. done.
Qed.
Lemma skip_entries c x ring seq C S k : pu_cursor x = u32 C -> seq = u32 S -> S + Z.of_nat k <= C -> C - S < 2 ^ 31 ->
  fold_left (drain_entry t entry_max ring seq) (List.seq 0 k) (c, x) = (c, x).
Proof.
  intros Hx Hs Hk Hb. assert (Hgo : forall l, Forall (fun i => (i < k)%nat) l -> fold_left (drain_entry t entry_max ring seq) l (c, x) = (c, x)).
  { induction 1 as [|i l Hi _ IH]; [done|]. cbn [fold_left]. rewrite (skip_entry c x ring seq i C S) by (try done; lia). exact IH. }
  apply Hgo. apply Forall_forall. intros i Hi%list_elem_of_In%in_seq. lia.
Qed.

Lemma events_app a b : events_of (a ++ b) = events_of a ++ events_of b.
Proof. apply filter_app. Qed.
Lemma wants_cons c e l : wants c (e :: l) = wants c [e] ++ wants c l.
Proof. unfold wants. rewrite !filter_cons, filter_nil. by case_decide. Qed.
Lemma wants_same c c' l : same_sub c c' -> wants c' l = wants c l.
Proof. intros H. unfold wants. apply list_filter_iff. intros e. by rewrite (wanted_same c c' e H). Qed.
Lemma same_sub_trans c1 c2 c3 : same_sub c1 c2 -> same_sub c2 c3 -> same_sub c1 c3.
Proof. intros [] []. split; congruence. Qed.

Lemma next_entries ring r seq : ring_rel ring r -> (0 < entry_max)%nat -> Forall (fun e => (length (item_bytes e) <= entry_max)%nat /\ is_event e = true) (ri_items r) ->
  forall rest idx c x l, drop idx (ri_items r) = rest -> out_rel c l -> 0 <= pu_dropped x < 2 ^ 32 -> pu_cursor x = u32 (seq + Z.of_nat idx) ->
  exists add, let a := fold_left (drain_entry t entry_max ring seq) (List.seq idx (length rest)) (c, x) in
  out_rel a.1 (l ++ add) /\ same_sub c a.1 /\ pu_cursor a.2 = u32 (seq + Z.of_nat (idx + length rest)) /\
  events_of add `sublist_of` wants c rest /\ pu_dropped a.2 = u32 (pu_dropped x + (Z.of_nat (length (wants c rest)) - Z.of_nat (length (events_of add)))) /\ 0 <= pu_dropped a.2 < 2 ^ 32.
Proof.
  intros Hr Hmax Hf rest. induction rest as [|e rest IH]; intros idx c x l Hrest Ho Hd Hcur; cbv zeta.
  - exists []. cbn [fold_left List.seq length]. rewrite app_nil_r, Nat.add_0_r. cbn. rewrite Z.add_0_r, (u32_small _ Hd). split_and!; try done; lia.
  - assert (Hi : ri_items r !! idx = Some e) by (rewrite <- (Nat.add_0_r idx), <- lookup_drop, Hrest; done).
    assert (Hrest' : drop (S idx) (ri_items r) = rest) by (rewrite <- Nat.add_1_r, <- drop_drop, Hrest; done).
    rewrite Forall_lookup in Hf. destruct (Hf idx e Hi) as [Hlen Hev].
    destruct (next_entry c x l ring r idx e seq Ho Hr Hi Hlen Hmax Hev Hd Hcur) as (add1 & k & N1 & N2 & N3 & N4 & N5 & N6).
    cbn [length List.seq fold_left]. destruct (drain_entry t entry_max ring seq (c, x) idx) as [c1 x1]. cbn [fst snd] in *.
    destruct (IH (S idx) c1 x1 (l ++ add1) Hrest' N1 N4 N3) as (add2 & I1 & I2 & I3 & I4 & I5 & I6). rewrite (wants_same c c1 rest N2) in *.
    exists (add1 ++ add2). rewrite app_assoc, events_app, wants_cons, !length_app. split_and!; try done; try lia.
    + by eapply same_sub_trans.
    + rewrite I3. do 2 f_equal. lia.
    + apply sublist_app; [|done]. destruct N6 as [[-> _]|(-> & Hw & _)]; [apply sublist_nil_l|]. unfold wants. by rewrite filter_cons, decide_True.
    + rewrite I5, N5. unfold u32 at 1 2. rewrite Z.add_mod_idemp_l by lia. unfold u32. f_equal.
      destruct N6 as [[-> ->]|(-> & Hw & ->)]; [cbn [length]; lia|]. unfold wants at 2. rewrite filter_cons, decide_True by done. cbn [filter list_filter length]. lia.
Qed.

(** One drain of the shared event ring into a client's outbound queue.  Of
    the events the client has not seen (it has seen the first C of the T ever put
    into the ring, which still holds the last ones), those its subscription wants
    are put into its queue, each at most once and in order, behind what the queue
    holds; nothing that was queued is lost; the cursor stands after the last one;
    and the dropped counter grows by exactly the wanted events that found no room
    and by the events the ring had evicted before the client could see them. *)
Theorem drain_accounts_for_every_event c x l ring r last stale T C :
  out_rel c l -> ring_rel ring r -> (0 < entry_max)%nat -> Forall (fun e => (length (item_bytes e) <= entry_max)%nat /\ is_event e = true) (ri_items r) ->
  0 <= pu_dropped x < 2 ^ 32 -> pu_cursor x = u32 C -> 0 <= C <= T -> T - C < 2 ^ 31 ->
  let n := Z.of_nat (length (ri_items r)) in n <= T -> n < 2 ^ 31 ->
  let fresh := drop (Z.to_nat (C - (T - n))) (ri_items r) in
  exists add, let a := drain_client_events t entry_max (mk_ev (Some ring) (u32 T) last stale) (c, x) in
  out_rel a.1 (l ++ add) /\ events_of add `sublist_of` wants c fresh /\ pu_cursor a.2 = u32 T /\
  pu_dropped a.2 = u32 (pu_dropped x + Z.max 0 (T - n - C) + (Z.of_nat (length (wants c fresh)) - Z.of_nat (length (events_of add)))).
Proof.
  intros Ho Hr Hmax Hf Hd Hcur HC HTC n Hn Hn' fresh. unfold drain_client_events. cbn [fst snd ev_ring ev_total].
  destruct (qr_count _ _ Hr) as [Hcount _]. cbn [bb_queue_count]. rewrite Hcount. fold n.
  assert (Hseq : u32 (u32 T - n) = u32 (T - n)) by (unfold u32; by rewrite Zminus_mod_idemp_l). rewrite Hseq.
  destruct (flush_marker c x l Ho Hd) as (add0 & F1 & F2 & F3 & F4 & F5 & _). destruct (try_flush_event_drop_marker c x) as [c1 x1]. cbn [fst snd] in *.
  set (x2 := skip_evicted (u32 (T - n)) x1). set (C' := Z.max C (T - n)).
  assert (Hx2 : pu_cursor x2 = u32 C' /\ pu_dropped x2 = u32 (pu_dropped x + Z.max 0 (T - n - C)) /\ 0 <= pu_dropped x2 < 2 ^ 32).
  { unfold x2, skip_evicted. rewrite F4, Hcur.
    assert (Hz : to_i32 (u32 C - u32 (T - n)) = C - (T - n)) by (apply to_i32_small; [apply u32_sub|lia]). rewrite Hz. destruct (Z.ltb_spec (C - (T - n)) 0).
    - cbn [pu_cursor pu_dropped]. unfold C'. rewrite !Z.max_r, F5, u32_sub by lia. split_and!; try apply u32_range; [done|]. unfold u32. by rewrite Z.add_mod_idemp_r.
    - unfold C'. rewrite !Z.max_l by lia. rewrite F5, Z.add_0_r, (u32_small _ Hd). split_and!; try done; lia. }
  destruct Hx2 as (X1 & X2 & X3). clearbody x2. set (k := Z.to_nat (C - (T - n))).
  assert (Hk : (k <= length (ri_items r))%nat) by (unfold k; lia). assert (Hsplit : List.seq 0 (length (ri_items r)) = List.seq 0 k ++ List.seq k (length fresh)).
  { replace (length (ri_items r)) with (k + length fresh)%nat by (unfold fresh; fold k; rewrite length_drop; lia). by rewrite seq_app. }
  rewrite Hsplit, fold_left_app, (skip_entries c1 x2 ring (u32 (T - n)) C' (T - n) k X1 eq_refl) by (unfold k, C'; lia).
  assert (Hcur2 : pu_cursor x2 = u32 (u32 (T - n) + Z.of_nat k)).
  { rewrite X1. unfold u32. rewrite Z.add_mod_idemp_l by lia. f_equal. unfold k, C'. lia. }
  destruct (next_entries ring r (u32 (T - n)) Hr Hmax Hf fresh k c1 x2 (l ++ add0) eq_refl F1 X3 Hcur2) as (add & N1 & N2 & N3 & N4 & N5 & _).
  rewrite (wants_same c c1 fresh F2) in *. exists (add0 ++ add). cbv zeta. rewrite app_assoc, events_app, F3. cbn [app]. split_and!; [exact N1|exact N4| |].
  - rewrite N3. unfold u32. rewrite Z.add_mod_idemp_l by lia. f_equal. unfold fresh. fold k. rewrite length_drop. lia.
  - rewrite N5, X2. unfold u32. rewrite Z.add_mod_idemp_l by lia. done.
Qed.
End Events.

(** * The cadence gate *)

Section Cadence.
Context (L : limits).
Context {App : Type}.
Context (render_code : Z -> list byte -> nat -> App -> bb_err * list byte * App).
Context (now_ms : App -> Z).

(** A key with a minimum interval that was rendered before, and was due at D,
    is held back at N exactly when N lies before D, or more than 2^31 ms (24.8
    days) after it: the due time is compared by the sign of a 32-bit difference,
    which does not bound how long a key stays unchanged.  Such a key stays marked
    and unrendered in every sweep until 2^32 ms have passed. *)
Theorem cadence_gate_reopens_and_closes s app i p ps k slot D N :
  pl_states (d_polls s) !! p = Some ps -> attach_at (d_table s) k = Some slot -> 0 < at_min_interval slot -> se_render (d_seams s) <> 0 ->
  Z.testbit (po_dirty ps) (Z.of_nat k) = true -> Z.testbit (po_never ps) (Z.of_nat k) = false -> po_due ps !! k = Some (u32 D) -> now_ms app = u32 N ->
  - 2 ^ 31 < N - D < 2 ^ 32 ->
  (gated slot k (now_ms app) ps = true <-> N < D \/ 2 ^ 31 < N - D) /\
  (2 ^ 31 < N - D -> drain_key L render_code now_ms i p (s, app) k = (s, app)).
Proof.
  intros Hps Hslot Hmin Hren Hdirty Hnever Hdue Hnow Hd.
  assert (Hz : to_i32 (u32 D - u32 N) = if N - D <=? 2 ^ 31 then D - N else D - N + 2 ^ 32).
  { destruct (Z.leb_spec (N - D) (2 ^ 31)).
    - apply to_i32_small; [apply u32_sub|lia].
    - apply to_i32_small; [|lia]. rewrite u32_sub. unfold u32. rewrite <- (Z.mod_add (D - N) 1 (2 ^ 32)) by lia. by f_equal. }
  assert (Hg : gated slot k (now_ms app) ps = true <-> N < D \/ 2 ^ 31 < N - D).
  { unfold gated. rewrite Hnever, Hdue, Hnow. cbn [default negb]. rewrite (proj2 (Z.ltb_lt _ _) Hmin). cbn [andb]. rewrite Z.ltb_lt. cbn [from_option id]. rewrite Hz.
    destruct (Z.leb_spec (N - D) (2 ^ 31)); lia. }
  split; [exact Hg|]. intros Hlong. unfold drain_key. rewrite Hps, Hdirty, Hslot. cbn [negb]. rewrite (proj2 (Z.eqb_neq _ _) Hren), (proj2 Hg (or_intror Hlong)). done.
Qed.
End Cadence.

(** * The flush loop ends *)

Lemma pop_count q : q_count (bb_queue_pop_oldest q).2 = (q_count q - 1)%nat.
Proof. unfold bb_queue_pop_oldest. destruct (Nat.eqb_spec (q_count q) 0) as [E|]; [by rewrite E|done]. Qed.

Section Fuel.
Context (L : limits).
Context {App : Type}.
Context (send_code : Z -> list byte -> nat -> list byte -> App -> bb_err * App).
Context (abort_code : Z -> nat -> dh -> App -> dh * App).

(** The frames queued at the start are fuel enough. *)
Lemma flush_fuel_enough send i : forall fuel extra s app, (match d_clients s !! i with Some c => bb_queue_count (cl_out c) | None => 0 end <= fuel)%nat ->
  flush_loop L send_code abort_code (fuel + extra) send i (s, app) = flush_loop L send_code abort_code fuel send i (s, app).
Proof.
  induction fuel as [|fuel IH]; intros extra s app Hf; cbn [Nat.add flush_loop].
  - destruct extra as [|extra]; [done|]. cbn [flush_loop]. destruct (d_clients s !! i) as [c|]; [|done]. destruct (cl_out c) as [q|]; [|done].
    cbn in Hf. unfold bb_queue_peek_oldest. cbn [negb]. by rewrite (proj2 (Nat.eqb_eq _ _)) by lia.
  - destruct (d_clients s !! i) as [c|] eqn:Hc; [|done]. destruct (cl_out c) as [q|] eqn:Ho; [|done].
    destruct (bb_queue_peek_oldest _ _ _) as [[] [[[[len ts] id] f]|]]; try done. destruct (send_code _ _ _ _ _) as [rc app']. destruct rc; try done.
    apply IH. unfold upd_client. cbn. rewrite list_lookup_alter_eq, Hc. cbn. unfold outbound_pop. cbn. rewrite Ho. cbn. rewrite pop_count. cbn in Hf. lia.
Qed.
End Fuel.

(** * Witnesses *)

(** A ring that holds the last two of three events, and a client with room for
    one, of four bytes. *)
Definition wit_ring_made : queue := queue_made (mk_qcfg 2 64 (Some BB_QUEUE_EVICT_OLDEST) None 0 0) BB_QUEUE_EVICT_OLDEST.
Definition wit_put (frame : list byte) (q : queue) : queue := (bb_queue_push (Some frame) (length frame) 0 1 q).2.
Definition wit_ring : queue := wit_put (bs "c") (wit_put (bs "bb") (wit_put (bs "aaa") wit_ring_made)).
Lemma wit_ring_rel : exists r, ring_rel wit_ring r /\ ri_items r = [(1, 0, bs "bb"); (1, 0, bs "c")].
Proof.
  assert (H0 : ring_rel wit_ring_made (mk_ring [] 0 0)) by (apply made_rel; [reflexivity|done]).
  destruct (push_rel _ _ (bs "aaa") 0 1 H0) as (_ & H1 & _). destruct (push_rel _ _ (bs "bb") 0 1 H1) as (_ & H2 & _). destruct (push_rel _ _ (bs "c") 0 1 H2) as (_ & H3 & _).
  eexists. split; [exact H3|reflexivity].
Qed.
Definition wit_out : queue := queue_made (mk_qcfg 1 64 (Some BB_QUEUE_EVICT_OLDEST) None 100 0) BB_QUEUE_EVICT_OLDEST.
Definition wit_listener : client := mk_client true false true [] 2 None (Some 0%nat) (Some wit_out) 100 0 false 9 0 LIFETIME_EPHEMERAL.
Definition wit_table : attach_table := d_table (wit_run wit_ops (dh0 wit_limits, 0)).1.
Lemma wit_listener_rel : out_rel 64 wit_listener [].
Proof.
  split; [|cbn; lia]. exists wit_out, (mk_ring [] 0 0). split_and!; try done; try (cbn; lia). by apply made_rel.
Qed.

Lemma drain_accounts_for_every_event_witness :
  let a := drain_client_events wit_table 64 (mk_ev (Some wit_ring) 3 [] 0) (wit_listener, mk_push 0 0 false) in
  (exists add, out_rel 64 a.1 ([] ++ add) /\ events_of add `sublist_of` [(1, 0, bs "bb"); (1, 0, bs "c")] /\ pu_dropped a.2 = u32 (0 + 1 + (2 - Z.of_nat (length (events_of add))))) /\
  pu_cursor a.2 = 3 /\ pu_dropped a.2 = 3.
Proof.
  cbv zeta. destruct wit_ring_rel as (r & Hr & Hi).
  destruct (drain_accounts_for_every_event wit_table 64 wit_listener (mk_push 0 0 false) [] wit_ring r [] 0 3 0) as (add & H1 & H2 & H3 & H4); rewrite ?Hi in *.
  - exact wit_listener_rel.
  - exact Hr.
  - lia.
  - by repeat constructor.
  - cbn. lia.
  - reflexivity.
  - lia.
  - lia.
  - cbn. lia.
  - cbn. lia.
  - split; [|split; vm_compute; reflexivity]. exists add. split; [exact H1|]. split; [exact H2|exact H4].
Defined.

(** Forty days unchanged. *)
Lemma cadence_gate_reopens_and_closes_witness :
  let s := (wit_run (take 15 wit_ops) (dh0 wit_limits, 0)).1 in
  exists ps slot, pl_states (d_polls s) !! 0%nat = Some ps /\ attach_at (d_table s) 0 = Some slot /\
  let s := upd_poll 0 (fun ps => mk_poll (Z.setbit (po_dirty ps) 0) (po_seen ps) (po_due ps) (po_never ps)) s in
  let now := default 0 (po_due ps !! 0%nat) + 40 * 86400000 in
  drain_key wit_limits wit_show (fun app => u32 app) 1 0 (s, now) 0 = (s, now).
Proof.
  cbv zeta. do 2 eexists. split; [vm_compute; reflexivity|]. split; [vm_compute; reflexivity|].
  match goal with |- context [po_due ?ps] => set (D := default 0 (po_due ps !! 0%nat)) end.
  eapply (cadence_gate_reopens_and_closes wit_limits wit_show (fun app => u32 app) _ _ 1 0 _ 0 _ D).
  - vm_compute. reflexivity.
  - vm_compute. reflexivity.
  - reflexivity.
  - vm_compute. discriminate.
  - vm_compute. reflexivity.
  - vm_compute. reflexivity.
  - vm_compute. reflexivity.
  - reflexivity.
  - vm_compute. split; reflexivity.
  - vm_compute. reflexivity.
Defined.
