(* ===== verification/JsonObj.v ===== *)
(** The streaming JSON object of a response:
    components/bb_http_server/src/bb_http_json_obj.c. *)
From Stdlib Require Import Strings.String Floats.SpecFloat.
From S2P Require Import Prelude Bytes Num Float Walk JsonWrite JsonScan ScanBytes ScanSafe ScanDoc.

Definition BB_JSON_OBJ_MAX_DEPTH : nat := 8.
Definition BB_HTTP_JSON_OBJ_BUF_SIZE : nat := 1024.

(** [bb_http_json_obj_stream_t]; the request is the frames sent so far, [None]
    the empty one that ends the response. *)
Record obj_stream := mk_os { os_err : bb_err; os_open : bool; os_depth : nat; os_commas : list bool; os_buf : list byte }.
Definition frames : Type := list (option (list byte)).
Definition ostate : Type := obj_stream * frames.
Definition os_fail (e : bb_err) (s : obj_stream) : obj_stream := mk_os e (os_open s) (os_depth s) (os_commas s) (os_buf s).
Definition os_set_buf (b : list byte) (s : obj_stream) : obj_stream := mk_os (os_err s) (os_open s) (os_depth s) (os_commas s) b.
Definition os_set_comma (b : bool) (s : obj_stream) : obj_stream := mk_os (os_err s) (os_open s) (os_depth s) (<[os_depth s := b]> (os_commas s)) (os_buf s).
Definition os_set_depth (d : nat) (s : obj_stream) : obj_stream := mk_os (os_err s) (os_open s) d (os_commas s) (os_buf s).

(** The early return of an error. *)
Definition ok_then (r : bb_err * ostate) (f : ostate -> bb_err * ostate) : bb_err * ostate := if is_ok r.1 then f r.2 else r.
Notation "r >>? f" := (ok_then r f) (at level 60, f at next level, right associativity).

(** [printf("%g")]; a number by its bits. *)
Definition g_text (bits : Z) : list byte :=
  let sign := if Z.testbit bits 63 then [x2d] else [] in
  match d_of_bits bits with
  | S754_nan => sign ++ bs "nan"
  | S754_infinity _ => sign ++ bs "inf"
  | v => fmt_g 6 v
  end.
(** [printf("\\u%04x")] of a byte below 32. *)
Definition u_escape (c : byte) : list byte :=
  [x5c; x75; x30; x30; bb_json_hex_nibble (bz c / 16); bb_json_hex_nibble (bz c mod 16)].
Definition obj_escape (c : byte) : list byte :=
  match c with
  | x22 => [x5c; x22]
  | x5c => [x5c; x5c]
  | x0a => [x5c; x6e]
  | x0d => [x5c; x72]
  | x09 => [x5c; x74]
  | _ => if bz c <? 32 then u_escape c else [c]
  end.

Section Stream.
(** What bb_http_resp_send_chunk answers, the frame sent being the last. *)
Context (send : frames -> bb_err).

Definition obj_flush (st : ostate) : bb_err * ostate :=
  let '(s, out) := st in
  if negb (is_ok (os_err s)) then (os_err s, st) else
  let out := out ++ [Some (os_buf s)] in
  let err := send out in
  let s := os_set_buf [] s in
  (err, (if is_ok err then s else os_fail err s, out)).
Definition obj_append (data : list byte) (st : ostate) : bb_err * ostate :=
  (if (BB_HTTP_JSON_OBJ_BUF_SIZE <? length (os_buf st.1) + length data)%nat then obj_flush st else (BB_OK, st)) >>? fun st =>
  (BB_OK, (os_set_buf (os_buf st.1 ++ data) st.1, st.2)).
Definition obj_putc (c : byte) (st : ostate) : bb_err * ostate := obj_append [c] st.
Definition obj_maybe_comma (st : ostate) : bb_err * ostate :=
  let s := st.1 in
  if (BB_JSON_OBJ_MAX_DEPTH <=? os_depth s)%nat then (BB_ERR_INVALID_ARG, (os_fail BB_ERR_INVALID_ARG s, st.2)) else
  (if nth (os_depth s) (os_commas s) false then obj_putc x2c st else (BB_OK, st)) >>? fun st => (BB_OK, (os_set_comma true st.1, st.2)).
Fixpoint obj_chars (str : list byte) (st : ostate) : bb_err * ostate :=
  match str with [] => (BB_OK, st) | c :: str => obj_append (obj_escape c) st >>? obj_chars str end.
Definition obj_emit_str_escaped (str : list byte) (st : ostate) : bb_err * ostate :=
  obj_putc x22 st >>? fun st => obj_chars (cstr str) st >>? obj_putc x22.
Definition obj_emit_key (key : option (list byte)) (st : ostate) : bb_err * ostate :=
  obj_maybe_comma st >>? fun st =>
  match key with None => (BB_OK, st) | Some key => obj_emit_str_escaped key st >>? obj_putc x3a end.

(** [set_type]: what bb_http_resp_set_type answers.  [None]: the stream is left
    as it was in memory. *)
Definition bb_http_resp_json_obj_begin (args_ok : bool) (set_type : bb_err) (out : frames) : bb_err * option obj_stream * frames :=
  if negb args_ok then (BB_ERR_INVALID_ARG, None, out) else
  if negb (is_ok set_type) then (set_type, None, out) else
  let s := mk_os BB_OK true 0 (repeat false BB_JSON_OBJ_MAX_DEPTH) [] in
  let out := out ++ [Some [x7b]] in
  let err := send out in
  (err, Some (if is_ok err then s else os_fail err s), out).
(** What every setter asks first. *)
Definition obj_guard (st : ostate) (f : ostate -> bb_err * ostate) : bb_err * ostate :=
  if negb (os_open st.1) then (BB_ERR_INVALID_STATE, st) else
  if negb (is_ok (os_err st.1)) then (os_err st.1, st) else f st.
Definition obj_set (key : option (list byte)) (f : ostate -> bb_err * ostate) (st : ostate) : bb_err * ostate := obj_guard st (fun st => obj_emit_key key st >>? f).
Definition bb_http_resp_json_obj_set_str (key val : option (list byte)) (st : ostate) : bb_err * ostate :=
  obj_set key (fun st => match val with None => obj_append (bs "null") st | Some val => obj_emit_str_escaped val st end) st.
Definition bb_http_resp_json_obj_set_num (key : option (list byte)) (bits : Z) (st : ostate) : bb_err * ostate := obj_set key (obj_append (g_text bits)) st.
Definition bb_http_resp_json_obj_set_int (key : option (list byte)) (val : Z) (st : ostate) : bb_err * ostate :=
  obj_set key (fun st => let '(buf, n) := bb_num_i64_to_dec (repeat x00 24) 24 val in obj_append (take n buf) st) st.
Definition bb_http_resp_json_obj_set_bool (key : option (list byte)) (val : bool) (st : ostate) : bb_err * ostate := obj_set key (obj_append (if val then bs "true" else bs "false")) st.
Definition bb_http_resp_json_obj_set_null (key : option (list byte)) (st : ostate) : bb_err * ostate := obj_set key (obj_append (bs "null")) st.
(** [fuel]: the bytes left. *)
Fixpoint raw_loop (fuel : nat) (raw : list byte) (st : ostate) : bb_err * ostate :=
  match fuel, raw with
  | S fuel, _ :: _ => obj_append (take BB_HTTP_JSON_OBJ_BUF_SIZE raw) st >>? raw_loop fuel (drop BB_HTTP_JSON_OBJ_BUF_SIZE raw)
  | _, _ => (BB_OK, st)
  end.
Definition bb_http_resp_json_obj_set_raw (key raw : option (list byte)) (st : ostate) : bb_err * ostate :=
  obj_guard st (fun st =>
    match raw with
    | None | Some [] => (BB_ERR_INVALID_ARG, st)
    | Some raw => obj_emit_key key st >>? raw_loop (length raw) raw
    end).
Definition obj_open_level (c : byte) (key : option (list byte)) (st : ostate) : bb_err * ostate :=
  obj_guard st (fun st =>
    if (BB_JSON_OBJ_MAX_DEPTH <=? os_depth st.1 + 1)%nat then (BB_ERR_INVALID_ARG, (os_fail BB_ERR_INVALID_ARG st.1, st.2)) else
    obj_emit_key key st >>? fun st => obj_putc c st >>? fun st =>
    (BB_OK, (os_set_comma false (os_set_depth (S (os_depth st.1)) st.1), st.2))).
Definition obj_close_level (c : byte) (st : ostate) : bb_err * ostate :=
  obj_guard st (fun st =>
    match os_depth st.1 with
    | O => (BB_ERR_INVALID_STATE, (os_fail BB_ERR_INVALID_STATE st.1, st.2))
    | S d => obj_putc c (os_set_depth d st.1, st.2)
    end).
Definition bb_http_resp_json_obj_set_obj_begin : option (list byte) -> ostate -> bb_err * ostate := obj_open_level x7b.
Definition bb_http_resp_json_obj_set_obj_end : ostate -> bb_err * ostate := obj_close_level x7d.
Definition bb_http_resp_json_obj_set_arr_begin : option (list byte) -> ostate -> bb_err * ostate := obj_open_level x5b.
Definition bb_http_resp_json_obj_set_arr_end : ostate -> bb_err * ostate := obj_close_level x5d.
Definition bb_http_resp_json_obj_end (st : ostate) : bb_err * ostate :=
  let st := (mk_os (os_err st.1) false (os_depth st.1) (os_commas st.1) (os_buf st.1), st.2) in
  let st := if is_ok (os_err st.1) then (obj_putc x7d st).2 else st in
  let st := (obj_flush st).2 in
  let out := st.2 ++ [None] in
  let fin := send out in
  let s := if negb (is_ok fin) && is_ok (os_err st.1) then os_fail fin st.1 else st.1 in
  (os_err s, (s, out)).

(** * A document by its setters *)

Inductive onode : Type :=
  | NStr (s : option (list byte)) | NNum (bits : Z) | NInt (v : Z) | NBool (b : bool) | NNull | NRaw (raw : list byte)
  | NArr (vs : list onode) | NObj (ms : list (list byte * onode)).
Fixpoint set_node (key : option (list byte)) (v : onode) (st : ostate) : ostate :=
  match v with
  | NStr s => (bb_http_resp_json_obj_set_str key s st).2
  | NNum bits => (bb_http_resp_json_obj_set_num key bits st).2
  | NInt x => (bb_http_resp_json_obj_set_int key x st).2
  | NBool b => (bb_http_resp_json_obj_set_bool key b st).2
  | NNull => (bb_http_resp_json_obj_set_null key st).2
  | NRaw raw => (bb_http_resp_json_obj_set_raw key (Some raw) st).2
  | NArr vs => (bb_http_resp_json_obj_set_arr_end (fold_left (fun st v => set_node None v st) vs (bb_http_resp_json_obj_set_arr_begin key st).2)).2
  | NObj ms => (bb_http_resp_json_obj_set_obj_end (fold_left (fun st m => set_node (Some m.1) m.2 st) ms (bb_http_resp_json_obj_set_obj_begin key st).2)).2
  end.
Definition set_members (ms : list (list byte * onode)) (st : ostate) : ostate := fold_left (fun st m => set_node (Some m.1) m.2 st) ms st.
(** A response that is one object: begin, the members, end.  The setters'
    answers are not looked at. *)
Definition respond_object (set_type : bb_err) (ms : list (list byte * onode)) (out : frames) : bb_err * frames :=
  match bb_http_resp_json_obj_begin true set_type out with
  | (BB_OK, Some s, out) => let '(err, st) := bb_http_resp_json_obj_end (set_members ms (s, out)) in (err, st.2)
  | (err, _, out) => (err, out)
  end.
End Stream.

Definition obj_chars_text (s : list byte) : list byte := concat (map obj_escape s).
Definition obj_str_text (s : list byte) : list byte := x22 :: obj_chars_text (cstr s) ++ [x22].
Fixpoint node_text (v : onode) : list byte :=
  match v with
  | NStr (Some s) => obj_str_text s
  | NStr None | NNull => bs "null"
  | NNum bits => g_text bits
  | NInt x => dec_i64 x
  | NBool b => if b then bs "true" else bs "false"
  | NRaw raw => raw
  | NArr vs => x5b :: join (map node_text vs) ++ [x5d]
  | NObj ms => x7b :: join (map (fun m => obj_str_text m.1 ++ x3a :: node_text m.2) ms) ++ [x7d]
  end.
Fixpoint node_depth (v : onode) : nat :=
  match v with
  | NArr vs => S (list_max (map node_depth vs))
  | NObj ms => S (list_max (map (fun m => node_depth m.2) ms))
  | _ => 0%nat
  end.
(** Spliced text is not empty, integers are 64-bit ones. *)
Fixpoint node_fine (v : onode) : Prop :=
  match v with
  | NInt x => - 2 ^ 63 <= x < 2 ^ 63
  | NRaw raw => raw <> []
  | NArr vs => fold_right (fun v P => node_fine v /\ P) True vs
  | NObj ms => fold_right (fun m P => node_fine m.2 /\ P) True ms
  | _ => True
  end.

(** * What is sent *)

Section Sent.
Context (send : frames -> bb_err).

Definition sent_text (out : frames) : list byte := concat (omap id out).
Definition frame_fine (f : option (list byte)) : Prop := match f with Some ch => (1 <= length ch <= BB_HTTP_JSON_OBJ_BUF_SIZE)%nat | None => False end.
Definition taken (out : frames) : Prop := forall n, (1 <= n <= length out)%nat -> send (take n out) = BB_OK.
(** Everything was taken so far: sent and buffered, [t] has been written. *)
Record going (t : list byte) (d : nat) (cs : list bool) (st : ostate) : Prop := {
  go_err : os_err st.1 = BB_OK; go_depth : os_depth st.1 = d; go_commas : os_commas st.1 = cs;
  go_buf : (length (os_buf st.1) <= BB_HTTP_JSON_OBJ_BUF_SIZE)%nat; go_text : sent_text st.2 ++ os_buf st.1 = t;
  go_taken : taken st.2; go_frames : Forall frame_fine st.2
}.
(** The last frame was refused, and nothing sent since. *)
Record refused (t : list byte) (st : ostate) : Prop := {
  re_out : exists out f e, st.2 = out ++ [f] /\ send st.2 = e /\ e <> BB_OK /\ os_err st.1 = e /\ taken out;
  re_frames : Forall frame_fine st.2; re_text : sent_text st.2 `prefix_of` t
}.
Lemma refused_more t p st : refused t st -> refused (t ++ p) st.
Proof. intros [H1 H2 H3]. split; [done|done|by apply prefix_app_r]. Qed.
Lemma refused_err t st : refused t st -> is_ok (os_err st.1) = false.
Proof. intros [(out & f & e & _ & _ & He & -> & _) _ _]. by destruct e. Qed.
Lemma sent_app a b : sent_text (a ++ b) = sent_text a ++ sent_text b.
Proof. unfold sent_text. by rewrite omap_app, concat_app. Qed.
Lemma taken_snoc out f : taken out -> send (out ++ [f]) = BB_OK -> taken (out ++ [f]).
Proof.
  intros Ht Hs n Hn. rewrite length_app in Hn. cbn [length] in Hn. destruct (decide (n = length out + 1)%nat) as [->|Hne].
  - rewrite take_ge; [done|]. rewrite length_app. cbn. lia.
  - rewrite take_app_le by lia. apply Ht. lia.
Qed.

(** [f] writes [p] and takes the levels from one to the other, or is refused a
    frame on the way. *)
Definition writes (f : ostate -> bb_err * ostate) (p : list byte) (d : nat) (cs : list bool) (d' : nat) (cs' : list bool) : Prop :=
  forall t st, going t d cs st -> os_open (f st).2.1 = os_open st.1 /\
    ((exists st', f st = (BB_OK, st') /\ going (t ++ p) d' cs' st') \/ (exists e st', f st = (e, st') /\ e <> BB_OK /\ refused (t ++ p) st')).
Lemma writes_then f g p q d cs d1 cs1 d2 cs2 : writes f p d cs d1 cs1 -> writes g q d1 cs1 d2 cs2 -> writes (fun st => ok_then (f st) g) (p ++ q) d cs d2 cs2.
Proof.
  intros Hf Hg t st Hst. rewrite app_assoc. destruct (Hf t st Hst) as [Ho [(st1 & E & H1)|(e & st1 & E & He & H1)]]; unfold ok_then; rewrite E in *; cbn [fst snd] in *.
  - cbn [is_ok]. rewrite <- Ho. exact (Hg _ _ H1).
  - assert (is_ok e = false) as -> by (by destruct e). split; [done|]. right. exists e, st1. split; [done|]. split; [done|by apply refused_more].
Qed.
Lemma writes_ext f g p d cs d' cs' : (forall st, f st = g st) -> writes f p d cs d' cs' -> writes g p d cs d' cs'.
Proof. intros He Hf t st Hst. rewrite <- He. by apply Hf. Qed.
Lemma writes_nothing d cs : writes (fun st => (BB_OK, st)) [] d cs d cs.
Proof. intros t st Hst. split; [done|]. left. exists st. by rewrite app_nil_r. Qed.

Lemma append_writes data d cs : (length data <= BB_HTTP_JSON_OBJ_BUF_SIZE)%nat -> writes (obj_append send data) data d cs d cs.
Proof.
  intros Hlen t [s out] [H1 H3 H4 H5 H6 H7 H8]. cbn [fst snd] in *. unfold obj_append, ok_then. cbn [fst snd]. destruct (Nat.ltb_spec BB_HTTP_JSON_OBJ_BUF_SIZE (length (os_buf s) + length data)) as [Hfull|Hfit].
  - unfold obj_flush. rewrite H1. cbn [is_ok negb].
    assert (Hframe : frame_fine (Some (os_buf s))) by (cbn; lia).
    assert (Hsent : sent_text (out ++ [Some (os_buf s)]) = t) by (rewrite sent_app; cbn; by rewrite app_nil_r).
    destruct (send (out ++ [Some (os_buf s)])) eqn:Hsend; cbn [is_ok fst snd]; (split; [done|]).
    1: { left. eexists. split; [reflexivity|]. split; cbn [fst snd os_set_buf os_err os_depth os_commas os_buf app]; try done.
      - by rewrite Hsent.
      - by apply taken_snoc.
      - by apply Forall_app; split; [|constructor]. }
    all: right; eexists _, _; split; [reflexivity|]; split; [done|]; split; cbn [fst snd os_fail os_set_buf os_err]; [|by apply Forall_app; split; [|constructor]|rewrite Hsent; by apply prefix_app_r];
      eexists out, _, _; split; [reflexivity|]; rewrite Hsend; split_and!; [reflexivity|done|reflexivity|done].
  - split; [done|]. left. eexists. split; [reflexivity|]. split; cbn [fst snd os_set_buf os_err os_depth os_commas os_buf]; try done.
    + rewrite length_app. lia.
    + by rewrite app_assoc, H6.
Qed.
Lemma putc_writes c d cs : writes (obj_putc send c) [c] d cs d cs.
Proof. apply append_writes. unfold BB_HTTP_JSON_OBJ_BUF_SIZE. cbn. lia. Qed.
Lemma escape_short c : (length (obj_escape c) <= 6)%nat.
Proof. unfold obj_escape. destruct c; cbn [length]; try lia; vm_compute; lia. Qed.
Lemma chars_writes str d cs : writes (obj_chars send str) (obj_chars_text str) d cs d cs.
Proof.
  induction str as [|c str IH]; [apply writes_nothing|]. change (obj_chars_text (c :: str)) with (obj_escape c ++ obj_chars_text str).
  apply (writes_then (obj_append send (obj_escape c)) (obj_chars send str) _ _ d cs d cs d cs); [|exact IH].
  apply append_writes. pose proof (escape_short c). unfold BB_HTTP_JSON_OBJ_BUF_SIZE. lia.
Qed.
Lemma str_writes str d cs : writes (obj_emit_str_escaped send str) (obj_str_text str) d cs d cs.
Proof.
  unfold obj_str_text. apply (writes_then (obj_putc send x22) (fun st => ok_then (obj_chars send (cstr str) st) (obj_putc send x22)) [x22] _ d cs d cs d cs); [apply putc_writes|].
  apply (writes_then _ _ _ _ d cs d cs d cs); [apply chars_writes|apply putc_writes].
Qed.
Definition comma_text (cs : list bool) (d : nat) : list byte := if nth d cs false then [x2c] else [].
Lemma set_comma_writes b d cs : writes (fun st => (BB_OK, (os_set_comma b st.1, st.2))) [] d cs d (<[d := b]> cs).
Proof.
  intros t [s out] [H1 H3 H4 H5 H6 H7 H8]. split; [done|]. left. eexists. split; [reflexivity|]. rewrite app_nil_r. cbn [fst snd] in *. split; cbn [fst snd os_set_comma os_err os_depth os_commas os_buf]; try done. by rewrite H3, H4.
Qed.
Lemma comma_writes d cs : (d < BB_JSON_OBJ_MAX_DEPTH)%nat -> writes (obj_maybe_comma send) (comma_text cs d) d cs d (<[d := true]> cs).
Proof.
  intros Hd t st Hst. unfold obj_maybe_comma. rewrite (go_depth _ _ _ _ Hst), (go_commas _ _ _ _ Hst), (proj2 (Nat.leb_gt _ _)) by lia. unfold comma_text.
  rewrite <- (app_nil_r (if nth d cs false then [x2c] else [])).
  refine (writes_then (fun st => if nth d cs false then obj_putc send x2c st else (BB_OK, st)) (fun st => (BB_OK, (os_set_comma true st.1, st.2))) _ _ d cs d cs d _ _ _ t st Hst); [|apply set_comma_writes].
  destruct (nth d cs false); [apply putc_writes|apply writes_nothing].
Qed.
Definition key_text (key : option (list byte)) : list byte := match key with Some key => obj_str_text key ++ [x3a] | None => [] end.
Lemma key_writes key d cs : (d < BB_JSON_OBJ_MAX_DEPTH)%nat -> writes (obj_emit_key send key) (comma_text cs d ++ key_text key) d cs d (<[d := true]> cs).
Proof.
  intros Hd. unfold obj_emit_key. eapply writes_then; [by apply comma_writes|]. destruct key as [key|]; cbn [key_text]; [|apply writes_nothing].
  eapply writes_then; [apply str_writes|apply putc_writes].
Qed.
Lemma raw_writes d cs : forall fuel raw, (length raw <= fuel)%nat -> writes (raw_loop send fuel raw) raw d cs d cs.
Proof.
  induction fuel as [|fuel IH]; intros raw Hf; [destruct raw; [apply writes_nothing|cbn in Hf; lia]|]. destruct raw as [|b raw]; [apply writes_nothing|].
  rewrite <- (take_drop BB_HTTP_JSON_OBJ_BUF_SIZE (b :: raw)) at 2. cbn [raw_loop]. eapply writes_then.
  - apply append_writes. rewrite length_take. lia.
  - apply IH. rewrite length_drop. cbn [length] in Hf |- *. unfold BB_HTTP_JSON_OBJ_BUF_SIZE. lia.
Qed.

(** Written so far, or refused: what every setter keeps. *)
Record level (t : list byte) (d : nat) (cs : list bool) (st : ostate) : Prop := {
  lv_open : os_open st.1 = true; lv_len : length cs = BB_JSON_OBJ_MAX_DEPTH; lv_depth : (d < BB_JSON_OBJ_MAX_DEPTH)%nat; lv_state : going t d cs st \/ refused t st
}.
Lemma guarded (f : ostate -> bb_err * ostate) p t d cs d' cs' st : writes f p d cs d' cs' -> length cs' = BB_JSON_OBJ_MAX_DEPTH -> (d' < BB_JSON_OBJ_MAX_DEPTH)%nat ->
  level t d cs st -> level (t ++ p) d' cs' (obj_guard st f).2.
Proof.
  intros Hf Hl Hd [Ho _ _ Hst]. unfold obj_guard. rewrite Ho. cbn [negb]. destruct Hst as [Hg|Hr].
  - rewrite (go_err _ _ _ _ Hg). cbn [negb is_ok]. destruct (Hf _ _ Hg) as [Hopen Hw]. rewrite Ho in Hopen. split; [done|done|done|].
    destruct Hw as [(st' & -> & H)|(e & st' & -> & _ & H)]; [by left|by right].
  - rewrite (refused_err _ _ Hr). cbn [negb snd]. split; [done|done|done|]. right. by apply refused_more.
Qed.
Lemma set_level key f p t d cs st : writes f p d (<[d := true]> cs) d (<[d := true]> cs) -> level t d cs st ->
  level (t ++ comma_text cs d ++ key_text key ++ p) d (<[d := true]> cs) (obj_set send key f st).2.
Proof.
  intros Hf Hl. destruct (Hl) as [_ Hlen Hd _]. eapply (guarded _ _ t d cs); [|by rewrite length_insert|done|done].
  rewrite app_assoc. eapply writes_then; [by apply key_writes|done].
Qed.
Lemma open_writes c key d cs : (S d < BB_JSON_OBJ_MAX_DEPTH)%nat ->
  writes (fun st => if (BB_JSON_OBJ_MAX_DEPTH <=? os_depth st.1 + 1)%nat then (BB_ERR_INVALID_ARG, (os_fail BB_ERR_INVALID_ARG st.1, st.2)) else
    ok_then (obj_emit_key send key st) (fun st => ok_then (obj_putc send c st) (fun st => (BB_OK, (os_set_comma false (os_set_depth (S (os_depth st.1)) st.1), st.2)))))
    (comma_text cs d ++ key_text key ++ [c]) d cs (S d) (<[S d := false]> (<[d := true]> cs)).
Proof.
  intros Hd t st Hst. rewrite (go_depth _ _ _ _ Hst), (proj2 (Nat.leb_gt _ _)) by lia. revert t st Hst.
  change (writes (fun st => ok_then (obj_emit_key send key st) (fun st => ok_then (obj_putc send c st) (fun st => (BB_OK, (os_set_comma false (os_set_depth (S (os_depth st.1)) st.1), st.2)))))
    (comma_text cs d ++ key_text key ++ [c]) d cs (S d) (<[S d := false]> (<[d := true]> cs))).
  rewrite app_assoc. eapply writes_then; [apply key_writes; lia|]. rewrite <- (app_nil_r [c]). eapply writes_then; [apply putc_writes|].
  intros t [s out] [H1 H3 H4 H5 H6 H7 H8]. split; [done|]. left. eexists. split; [reflexivity|]. rewrite app_nil_r. cbn [fst snd] in *.
  split; cbn [fst snd os_set_comma os_set_depth os_err os_depth os_commas os_buf]; try done; by rewrite ?H3, ?H4.
Qed.
Lemma open_level c key t d cs st : (S d < BB_JSON_OBJ_MAX_DEPTH)%nat -> level t d cs st ->
  level (t ++ comma_text cs d ++ key_text key ++ [c]) (S d) (<[S d := false]> (<[d := true]> cs)) (obj_open_level send c key st).2.
Proof. intros Hd Hl. eapply guarded; [by apply open_writes|rewrite !length_insert; apply Hl|done|done]. Qed.
Lemma close_level c t d cs st : level t (S d) cs st -> level (t ++ [c]) d cs (obj_close_level send c st).2.
Proof.
  intros Hl. destruct (Hl) as [_ Hlen Hd _]. eapply (guarded _ _ t (S d) cs); [|done|lia|done].
  intros u [s out] Hst. destruct (Hst) as [H1 H3 H4 H5 H6 H7 H8]. cbn [fst snd] in *. rewrite H3. cbn [fst snd].
  apply (putc_writes c d cs u (os_set_depth d s, out)). by split.
Qed.

Lemma onode_nested_ind (P : onode -> Prop) :
  (forall s, P (NStr s)) -> (forall b, P (NNum b)) -> (forall x, P (NInt x)) -> (forall b, P (NBool b)) -> P NNull -> (forall r, P (NRaw r)) ->
  (forall vs, Forall P vs -> P (NArr vs)) -> (forall ms, Forall (fun m => P m.2) ms -> P (NObj ms)) -> forall v, P v.
Proof.
  intros H1 H2 H3 H4 H5 H6 Ha Ho. fix IH 1. intros [s|b|x|b| |r|vs|ms]; [apply H1|apply H2|apply H3|apply H4|apply H5|apply H6|apply Ha|apply Ho].
  - induction vs as [|v vs IHvs]; constructor; [apply IH|exact IHvs].
  - induction ms as [|m ms IHms]; constructor; [apply IH|exact IHms].
Qed.

(** One value, after a comma when the level has had one already. *)
Definition node_sent (v : onode) : Prop := forall key t d cs st,
  (d + node_depth v < BB_JSON_OBJ_MAX_DEPTH)%nat -> node_fine v -> level t d cs st ->
  exists cs', level (t ++ comma_text cs d ++ key_text key ++ node_text v) d cs' (set_node send key v st) /\ nth d cs' false = true /\ forall i, (i < d)%nat -> nth i cs' false = nth i cs false.
(** The members of a container, the first without a comma. *)
Lemma nodes_sent {A} (key : A -> option (list byte)) (val : A -> onode) l : Forall (fun a => node_sent (val a)) l ->
  forall t d cs st, Forall (fun a => (d + node_depth (val a) < BB_JSON_OBJ_MAX_DEPTH)%nat) l -> Forall (fun a => node_fine (val a)) l -> level t d cs st ->
  exists cs', level (t ++ (if nth d cs false then concat (map (fun a => x2c :: key_text (key a) ++ node_text (val a)) l) else join (map (fun a => key_text (key a) ++ node_text (val a)) l)))
    d cs' (fold_left (fun st a => set_node send (key a) (val a) st) l st) /\ forall i, (i < d)%nat -> nth i cs' false = nth i cs false.
Proof.
  induction 1 as [|a l Ha _ IH]; intros t d cs st Hd Hf Hl; cbn [fold_left map].
  - exists cs. split; [|done]. destruct (nth d cs false); by rewrite app_nil_r.
  - apply Forall_cons in Hd as [Hda Hd]. apply Forall_cons in Hf as [Hfa Hf]. destruct (Ha (key a) t d cs st Hda Hfa Hl) as (cs1 & H1 & Hc & Hlow).
    destruct (IH _ d cs1 _ Hd Hf H1) as (cs2 & H2 & Hlow2). rewrite Hc in H2. exists cs2. split; [|intros i Hi; by rewrite Hlow2, Hlow].
    refine (eq_ind _ (fun u => level u d cs2 _) H2 _ _). unfold comma_text. rewrite <- !app_assoc. f_equal. destruct (nth d cs false); cbn [concat join app].
    + f_equal. by rewrite <- !app_assoc.
    + by rewrite map_map, <- !app_assoc.
Qed.
Lemma nth_set {A} (l : list A) i x j d : (i < length l)%nat -> nth j (<[i := x]> l) d = if (i =? j)%nat then x else nth j l d.
Proof.
  intros Hi. destruct (Nat.eqb_spec i j) as [<-|Hn].
  - by rewrite nth_lookup, list_lookup_insert_eq.
  - by rewrite !nth_lookup, list_lookup_insert_ne.
Qed.

Lemma leaf_sent v p (f : ostate -> bb_err * ostate) :
  (forall key st, set_node send key v st = (obj_set send key f st).2) -> node_text v = p -> (forall d cs, writes f p d cs d cs) -> node_sent v.
Proof.
  intros Hset Htext Hw key t d cs st Hd Hf Hl. exists (<[d := true]> cs). rewrite Hset, Htext. destruct (Hl) as [_ Hlen Hdd _]. split; [by apply set_level|]. split.
  - rewrite nth_set by lia. by rewrite Nat.eqb_refl.
  - intros i Hi. rewrite nth_set by lia. by rewrite (proj2 (Nat.eqb_neq d i)) by lia.
Qed.
Lemma short_writes p d cs : (length p <= 80)%nat -> writes (obj_append send p) p d cs d cs.
Proof. intros H. apply append_writes. unfold BB_HTTP_JSON_OBJ_BUF_SIZE. lia. Qed.
Lemma g_text_short bits : (length (g_text bits) <= 80)%nat.
Proof.
  assert (H : forall v, (length (fmt_g 6 v) <= 80)%nat) by (intros v; apply (Nat.le_trans _ 60); [apply fmt_g_length|lia]).
  unfold g_text. destruct (d_of_bits bits) as [s|s| |s m e]; [apply H| | |apply H]; destruct (Z.testbit bits 63); cbn; lia.
Qed.
(** What is below a level comes back as it was. *)
Lemma container_sent (o c : byte) key t d cs st (inner : ostate -> ostate) (body : list byte) :
  (S d < BB_JSON_OBJ_MAX_DEPTH)%nat -> level t d cs st ->
  (forall t cs st, nth (S d) cs false = false -> level t (S d) cs st -> exists cs', level (t ++ body) (S d) cs' (inner st) /\ forall i, (i < S d)%nat -> nth i cs' false = nth i cs false) ->
  exists cs', level (t ++ comma_text cs d ++ key_text key ++ o :: body ++ [c]) d cs' (obj_close_level send c (inner (obj_open_level send o key st).2)).2 /\
    nth d cs' false = true /\ forall i, (i < d)%nat -> nth i cs' false = nth i cs false.
Proof.
  intros Hd Hl Hin. destruct (Hl) as [_ Hlen _ _]. pose proof (open_level o key t d cs st Hd Hl) as H1.
  assert (Hnew : nth (S d) (<[S d := false]> (<[d := true]> cs)) false = false) by (rewrite nth_set by (rewrite length_insert; lia); by rewrite Nat.eqb_refl).
  destruct (Hin _ _ _ Hnew H1) as (cs' & H2 & Hlow).
  exists cs'. split; [|split].
  - refine (eq_ind _ (fun u => level u d cs' _) (close_level c _ _ _ _ H2) _ _). rewrite <- !app_assoc. done.
  - rewrite Hlow by lia. rewrite nth_set by (rewrite length_insert; lia). rewrite (proj2 (Nat.eqb_neq _ _)) by lia. rewrite nth_set by lia. by rewrite Nat.eqb_refl.
  - intros i Hi. rewrite Hlow by lia. rewrite nth_set by (rewrite length_insert; lia). rewrite (proj2 (Nat.eqb_neq _ _)) by lia. rewrite nth_set by lia.
    by rewrite (proj2 (Nat.eqb_neq _ _)) by lia.
Qed.
Lemma node_sends v : node_sent v.
Proof.
  induction v as [s|b|x|b| |r|vs IH|ms IH] using onode_nested_ind.
  - destruct s as [s|].
    + eapply leaf_sent; [done|done|]. intros d cs. apply str_writes.
    + eapply leaf_sent; [done|done|]. intros d cs. apply short_writes. cbn. lia.
  - eapply leaf_sent; [done|done|]. intros d cs. apply short_writes, g_text_short.
  - intros key t d cs st Hd Hf Hl. cbn [node_fine] in Hf.
    assert (Hdec : (let '(buf, n) := bb_num_i64_to_dec (repeat x00 24) 24 x in take n buf) = dec_i64 x) by (apply i64_digits; lia).
    destruct (bb_num_i64_to_dec (repeat x00 24) 24 x) as [buf n] eqn:E.
    refine (leaf_sent (NInt x) (dec_i64 x) (obj_append send (dec_i64 x)) _ _ _ key t d cs st Hd Hf Hl); [|done|].
    + intros k s. cbn [set_node]. unfold bb_http_resp_json_obj_set_int. rewrite E. by rewrite Hdec.
    + intros d' cs'. apply short_writes. pose proof (dec_i64_len x). lia.
  - eapply leaf_sent; [done|done|]. intros d cs. apply short_writes. destruct b; cbn; lia.
  - eapply leaf_sent; [done|done|]. intros d cs. apply short_writes. cbn. lia.
  - intros key t d cs st Hd Hf Hl. cbn [node_fine] in Hf. destruct r as [|c r]; [done|]. destruct (Hl) as [_ Hlen Hdd _].
    exists (<[d := true]> cs). split; [|split].
    + cbn [set_node node_text]. unfold bb_http_resp_json_obj_set_raw. rewrite app_assoc with (l := comma_text cs d).
      eapply (guarded _ _ t d cs); [|by rewrite length_insert|done|done]. eapply writes_then; [by apply key_writes|by apply raw_writes].
    + rewrite nth_set by lia. by rewrite Nat.eqb_refl.
    + intros i Hi. rewrite nth_set by lia. by rewrite (proj2 (Nat.eqb_neq d i)) by lia.
  - intros key t d cs st Hd Hf Hl. cbn [node_depth node_fine set_node node_text] in *. apply (fold_right_and_Forall node_fine) in Hf.
    apply (container_sent x5b x5d key t d cs st (fun st => fold_left (fun st v => set_node send None v st) vs st)); [lia|done|].
    intros t' cs' st' Hc Hl'. destruct (nodes_sent (fun _ => None) (fun v => v) vs IH t' (S d) cs' st') as (cs2 & H2 & Hlow); [|done|done|].
    + pose proof (list_max_le_all node_depth vs (S d) (S d + list_max (map node_depth vs)) ltac:(lia)) as Hm. eapply Forall_impl; [exact Hm|]. cbn. lia.
    + rewrite Hc in H2. by exists cs2.
  - intros key t d cs st Hd Hf Hl. cbn [node_depth node_fine set_node node_text] in *. apply (fold_right_and_Forall (fun m => node_fine m.2)) in Hf.
    apply (container_sent x7b x7d key t d cs st (fun st => fold_left (fun st m => set_node send (Some m.1) m.2 st) ms st)); [lia|done|].
    intros t' cs' st' Hc Hl'. destruct (nodes_sent (fun m : list byte * onode => Some m.1) snd ms IH t' (S d) cs' st') as (cs2 & H2 & Hlow); [|done|done|].
    + pose proof (list_max_le_all (fun m : list byte * onode => node_depth m.2) ms (S d) (S d + list_max (map (fun m : list byte * onode => node_depth m.2) ms)) ltac:(lia)) as Hm.
      eapply Forall_impl; [exact Hm|]. cbn. lia.
    + rewrite Hc in H2. exists cs2. split; [|done]. refine (eq_ind _ (fun u => level u (S d) cs2 _) H2 _ _). f_equal. f_equal. apply map_ext. intros m.
      cbn [key_text]. by rewrite <- app_assoc.
Qed.

(** * The response *)

(** The frame that was refused first, and with what. *)
Definition refused_with (rc : bb_err) (out : frames) : Prop :=
  exists n, (1 <= n <= length out)%nat /\ send (take n out) = rc /\ forall m, (1 <= m < n)%nat -> send (take m out) = BB_OK.
Lemma refused_last out f more : taken out -> refused_with (send (out ++ [f])) ((out ++ [f]) ++ more).
Proof.
  intros Ht. exists (length (out ++ [f])). assert (Hlen : length (out ++ [f]) = (length out + 1)%nat) by by rewrite length_app. split_and!.
  - lia.
  - rewrite (length_app _ more). lia.
  - by rewrite take_app_length.
  - intros m Hm. rewrite Hlen in Hm. rewrite <- app_assoc, take_app_le by lia. apply Ht. lia.
Qed.
(** Everything was sent, or a frame was refused. *)
Definition sent_or_refused (t : list byte) (st : ostate) : Prop :=
  (os_err st.1 = BB_OK /\ sent_text st.2 = t /\ taken st.2 /\ Forall frame_fine st.2) \/ refused t st.
Lemma flush_sends t d cs st : going t d cs st -> os_buf st.1 <> [] -> sent_or_refused t (obj_flush send st).2.
Proof.
  destruct st as [s out]. intros [H1 _ _ H5 H6 H7 H8] Hb. cbn [fst snd] in *. unfold obj_flush. rewrite H1. cbn [negb is_ok snd].
  assert (Hframe : Forall frame_fine (out ++ [Some (os_buf s)])).
  { apply Forall_app. split; [done|]. constructor; [|done]. cbn. destruct (os_buf s); [done|]. cbn [length] in *. lia. }
  assert (Hsent : sent_text (out ++ [Some (os_buf s)]) = t) by (rewrite sent_app; cbn; by rewrite app_nil_r).
  destruct (send (out ++ [Some (os_buf s)])) eqn:Hsend; cbn [is_ok].
  1: { left. split_and!; [done|done|by apply taken_snoc|done]. }
  all: right; split; [|done|by cbn [fst snd]; rewrite Hsent]; eexists out, _, _; split; [reflexivity|]; cbn [fst snd]; rewrite Hsend; split_and!; [reflexivity|done|reflexivity|done].
Qed.
Lemma putc_fills c st : (obj_putc send c st).1 = BB_OK -> os_buf (obj_putc send c st).2.1 <> [].
Proof.
  unfold obj_putc, obj_append, ok_then. destruct (if (_ <? _)%nat then obj_flush send st else (BB_OK, st)) as [e st1]. cbn [fst snd]. destruct (is_ok e) eqn:He; cbn [fst snd os_set_buf os_buf].
  - intros _. by destruct (os_buf st1.1).
  - intros ->. done.
Qed.
Lemma close_sends t d cs st : going t d cs st \/ refused t st ->
  sent_or_refused (t ++ [x7d]) (obj_flush send (if is_ok (os_err st.1) then (obj_putc send x7d st).2 else st)).2.
Proof.
  assert (Hskip : forall u st, refused u st -> sent_or_refused u (obj_flush send st).2).
  { intros u [s out] Hr. unfold obj_flush. pose proof (refused_err _ _ Hr) as E. cbn [fst] in E. rewrite E. by right. }
  intros [Hg|Hr].
  - rewrite (go_err _ _ _ _ Hg). cbn [is_ok]. pose proof (putc_fills x7d st) as Hfill. destruct (putc_writes x7d d cs _ _ Hg) as [_ [(st' & E & H)|(e & st' & E & _ & H)]]; rewrite E in *.
    + by eapply flush_sends, Hfill.
    + by apply Hskip.
  - rewrite (refused_err _ _ Hr). apply Hskip. by apply refused_more.
Qed.

(** What the caller of a finished response knows. *)
Definition response (rc : bb_err) (text : list byte) (out : frames) : Prop :=
  exists chunks, out = chunks ++ [None] /\ Forall frame_fine chunks /\ sent_text chunks `prefix_of` text /\
  (rc = BB_OK -> sent_text chunks = text /\ taken out) /\ (rc <> BB_OK -> refused_with rc out).
Lemma end_sent t d cs st : level t d cs st -> let r := bb_http_resp_json_obj_end send st in response r.1 (t ++ [x7d]) r.2.2.
Proof.
  intros [_ _ _ Hst]. cbv zeta. unfold bb_http_resp_json_obj_end. cbn [fst snd].
  assert (Hst' : let st' := (mk_os (os_err st.1) false (os_depth st.1) (os_commas st.1) (os_buf st.1), st.2) in going t d cs st' \/ refused t st').
  { destruct Hst as [[]|[]]; [left|right]; by split. }
  apply close_sends in Hst'. revert Hst'. cbn [fst snd os_err]. generalize (obj_flush send (if is_ok (os_err st.1) then (obj_putc send x7d (mk_os (os_err st.1) false (os_depth st.1) (os_commas st.1) (os_buf st.1), st.2)).2 else (mk_os (os_err st.1) false (os_depth st.1) (os_commas st.1) (os_buf st.1), st.2))).2.
  intros [s out] [(He & Ht & Htk & Hf)|Hr]; exists out; cbn [fst snd] in *; (split; [done|]).
  - rewrite He, andb_true_r. split; [done|]. split; [by rewrite Ht|]. pose proof (refused_last out None [] Htk) as Hlast. rewrite app_nil_r in Hlast.
    destruct (send (out ++ [None])) eqn:Hs; cbn [negb is_ok]; rewrite ?He; cbn [os_fail os_err]; (split; [intros Ho|intros Ho]); try done. split; [done|by apply taken_snoc].
  - pose proof (refused_err _ _ Hr) as Hne. cbn [fst] in Hne. rewrite Hne, andb_false_r. destruct Hr as [(o & f & e & Ho & Hs & Hnok & He & Htk) Hf Hp]. cbn [fst snd] in *. split; [done|]. split; [done|]. rewrite He. split; [done|]. intros _.
    rewrite <- Hs, Ho. by apply refused_last.
Qed.

(** Levels of members below the depth the stream tracks. *)
Definition members_fine (ms : list (list byte * onode)) : Prop := Forall (fun m => (node_depth m.2 < BB_JSON_OBJ_MAX_DEPTH)%nat /\ node_fine m.2) ms.
Lemma members_sent ms t cs st : members_fine ms -> level t 0 cs st -> nth 0 cs false = false ->
  exists cs', level (t ++ join (map (fun m => obj_str_text m.1 ++ x3a :: node_text m.2) ms)) 0 cs' (set_members send ms st).
Proof.
  intros Hm Hl Hc. destruct (nodes_sent (fun m : list byte * onode => Some m.1) snd ms) with (t := t) (d := 0%nat) (cs := cs) (st := st) as (cs' & H & _); [|..|done|].
  - apply Forall_true. intros m. apply node_sends.
  - eapply Forall_impl; [exact Hm|]. intros m [H _]. exact H.
  - eapply Forall_impl; [exact Hm|]. intros m [_ H]. exact H.
  - exists cs'. rewrite Hc in H. refine (eq_ind _ (fun u => level u 0 cs' _) H _ _). do 2 f_equal. apply map_ext. intros m. cbn [key_text]. by rewrite <- app_assoc.
Qed.
End Sent.

(** * What the scanner reads back *)

(** Text the setters carry: no NUL, and neither of the two controls the scanner's
    writer escapes by a letter. *)
Definition plain_byte (c : byte) : Prop := c <> x00 /\ c <> x08 /\ c <> x0c.
Fixpoint plain (v : jval) : Prop :=
  match v with
  | JI64 x => - 2 ^ 63 <= x < 2 ^ 63
  | JStr s => Forall plain_byte s
  | JArr vs => fold_right (fun v P => plain v /\ P) True vs
  | JObj ms => fold_right (fun m P => (Forall plain_byte (default [] m.1) /\ plain m.2) /\ P) True ms
  | _ => True
  end.
(** The setter calls for a value; what [set_int] and [set_num] do not take goes
    through [set_raw]. *)
Fixpoint json_node (short : bool) (v : jval) : onode :=
  match v with
  | JNull => NNull
  | JBool b => NBool b
  | JI64 x => NInt x
  | JU64 x => NRaw (dec_u64 x)
  | JF64 bits => NRaw (print_f64 short bits)
  | JStr s => NStr (Some s)
  | JArr vs => NArr (map (json_node short) vs)
  | JObj ms => NObj (map (fun m => (default [] m.1, json_node short m.2)) ms)
  end.
Lemma plain_escape c : plain_byte c -> obj_escape c = escape_byte c.
Proof. intros (H0 & H8 & Hc). destruct c; try done; reflexivity. Qed.
Lemma plain_cstr s : Forall plain_byte s -> cstr s = s.
Proof. intros H. apply cstr_id. eapply Forall_impl; [exact H|]. by intros c []. Qed.
Lemma plain_str s : Forall plain_byte s -> obj_str_text s = print_str s.
Proof.
  intros H. unfold obj_str_text, print_str. rewrite plain_cstr by done. do 2 f_equal. unfold obj_chars_text, print_chars. f_equal.
  induction H as [|c s Hc _ IH]; [done|]. cbn [map]. by rewrite plain_escape, IH.
Qed.
Lemma json_text short v : plain v -> node_text (json_node short v) = print_val short v.
Proof.
  induction v as [|b|x|x|b|s|vs IH|ms IH] using jval_nested_ind; try done; cbn [plain json_node node_text print_val]; intros H.
  - by apply plain_str.
  - do 2 f_equal. f_equal. rewrite map_map. revert H. induction IH as [|v vs Hv _ IHvs]; cbn [fold_right map]; [done|]. intros [H1 H2]. by rewrite Hv, IHvs.
  - do 2 f_equal. f_equal. rewrite map_map. cbn [fst snd]. revert H. induction IH as [|m ms Hm _ IHms]; cbn [fold_right map fst snd]; [done|]. intros [[H1 H2] H3].
    rewrite Hm, IHms by done. unfold print_key. by rewrite plain_str, <- app_assoc.
Qed.
Lemma json_depth short v : node_depth (json_node short v) = jdepth v.
Proof.
  induction v as [|b|x|x|b|s|vs IH|ms IH] using jval_nested_ind; try done; cbn [json_node node_depth jdepth]; f_equal; f_equal; rewrite map_map; by apply map_ext_Forall.
Qed.
Lemma print_f64_some short bits : print_f64 short bits <> [].
Proof. destruct (print_f64_num short bits) as [->|H]; [done|]. by destruct (print_f64 short bits). Qed.
Lemma json_fine short v : plain v -> node_fine (json_node short v).
Proof.
  induction v as [|b|x|x|b|s|vs IH|ms IH] using jval_nested_ind; try done; cbn [plain json_node node_fine]; intros H.
  - intros E. pose proof (dec_u64_length x) as Hl. rewrite E in Hl. cbn in Hl. lia.
  - apply print_f64_some.
  - revert H. induction IH as [|v vs Hv _ IHvs]; cbn [fold_right map]; [done|]. intros [H1 H2]. split; [by apply Hv|by apply IHvs].
  - revert H. induction IH as [|m ms Hm _ IHms]; cbn [fold_right map fst snd]; [done|]. intros [[H1 H2] H3]. split; [by apply Hm|by apply IHms].
Qed.

Lemma respond_ends send ms : members_fine ms -> let r := respond_object send BB_OK ms [] in
  response send r.1 (node_text (NObj ms)) r.2 \/ (r.1 <> BB_OK /\ send [Some [x7b]] = r.1 /\ r.2 = [Some [x7b]]).
Proof.
  intros Hm. unfold respond_object, bb_http_resp_json_obj_begin. cbn [negb is_ok app].
  assert (Hone : taken send []) by (intros n; cbn; lia).
  destruct (send [Some [x7b]]) eqn:Hs; cbn [is_ok]; [|by right..]. left.
  assert (Hbegin : level send [x7b] 0 (repeat false BB_JSON_OBJ_MAX_DEPTH) (mk_os BB_OK true 0 (repeat false BB_JSON_OBJ_MAX_DEPTH) [], [Some [x7b]])).
  { split; [done|done|unfold BB_JSON_OBJ_MAX_DEPTH; lia|]. left. split; try done; [cbn; lia|exact (taken_snoc send [] _ Hone Hs)|].
    constructor; [|done]. cbn. unfold BB_HTTP_JSON_OBJ_BUF_SIZE. lia. }
  destruct (members_sent send ms _ _ _ Hm Hbegin eq_refl) as (cs & H). apply end_sent in H. cbv zeta in H.
  by destruct (bb_http_resp_json_obj_end _ _) as [rc [s out]].
Qed.

(** * Properties *)

(** A response that is one object, begun and ended, with members of fewer
    than eight levels, sends the object's text in chunks of at most 1024 bytes
    and then the empty frame when it answers BB_OK; otherwise what it sent is a
    prefix of the text and it answers what the first refused frame was answered. *)
Theorem object_response (send : frames -> bb_err) (ms : list (list byte * onode)) :
  members_fine ms ->
  let '(rc, out) := respond_object send BB_OK ms [] in
  (rc = BB_OK -> exists chunks, out = chunks ++ [None] /\ Forall frame_fine chunks /\ sent_text chunks = node_text (NObj ms) /\ taken send out) /\
  (rc <> BB_OK -> refused_with send rc out /\ sent_text out `prefix_of` node_text (NObj ms)).
Proof.
  intros Hm. pose proof (respond_ends send ms Hm) as H. cbv zeta in H. destruct (respond_object send BB_OK ms []) as [rc out]. cbn [fst snd] in H.
  destruct H as [(chunks & -> & Hf & Hp & Hok & Hbad)|(Hne & <- & ->)].
  - split; intros Hrc; [destruct (Hok Hrc) as [Ht Htk]; by exists chunks|]. split; [by apply Hbad|].
    refine (eq_ind_r (fun t => prefix t _) Hp _). pose proof (sent_app chunks [None]) as E. rewrite app_nil_r in E. exact E.
  - split; [done|]. intros _. split; [|by eexists]. apply (refused_last send [] _ []). intros n. cbn. lia.
Qed.

Lemma object_response_witness :
  let ms := [(bs "a", NInt 1); (bs "b", NArr [NBool true; NStr None])] in
  members_fine ms /\ respond_object (fun _ => BB_OK) BB_OK ms [] = (BB_OK, [Some (bs "{"); Some ([x22] ++ bs "a" ++ [x22] ++ bs ":1," ++ [x22] ++ bs "b" ++ [x22] ++ bs ":[true,null]}"); None]) /\
  (let '(rc, out) := respond_object (fun f => if (length f =? 2)%nat then BB_ERR_TIMEOUT else BB_OK) BB_OK ms [] in rc = BB_ERR_TIMEOUT /\ refused_with (fun f => if (length f =? 2)%nat then BB_ERR_TIMEOUT else BB_OK) rc out).
Proof.
  assert (Hm : members_fine [(bs "a", NInt 1); (bs "b", NArr [NBool true; NStr None])]) by (repeat constructor; cbn; try lia; try done).
  split; [exact Hm|]. split; [vm_compute; reflexivity|].
  pose proof (object_response (fun f => if (length f =? 2)%nat then BB_ERR_TIMEOUT else BB_OK) _ Hm) as H. revert H.
  match goal with |- context [respond_object ?s ?t ?m ?o] => assert (E : (respond_object s t m o).1 = BB_ERR_TIMEOUT) by (vm_compute; reflexivity); destruct (respond_object s t m o) as [rc out] end.
  cbn [fst] in E. subst rc. intros [_ H]. split; [reflexivity|]. by apply H.
Defined.

(** C32: What such a response sent for a JSON object of plain texts, whatever the
    chunks, the streaming scanner reads back as that object's events. *)
Theorem response_reads_back (send : frames -> bb_err) (short : bool) (ms : list (key_t * jval)) (out : frames) :
  plain (JObj ms) -> (jdepth (JObj ms) <= BB_SERIALIZE_MAX_DEPTH)%nat -> scannable short 0 (JObj ms) ->
  respond_object send BB_OK (map (fun m => (default [] m.1, json_node short m.2)) ms) [] = (BB_OK, out) ->
  scan_chunks rec_sink (omap id out) ([], []) = Some (BB_OK, (events short None (JObj ms), [])).
Proof.
  intros Hp Hd Hs Hr. assert (Hm : members_fine (map (fun m : key_t * jval => (default [] m.1, json_node short m.2)) ms)).
  { apply Forall_map. cbn [plain jdepth] in Hp, Hd. apply (fold_right_and_Forall (fun m : key_t * jval => Forall plain_byte (default [] m.1) /\ plain m.2)) in Hp.
    pose proof (list_max_le_all (fun m : key_t * jval => jdepth m.2) ms 0 _ (le_n _)) as Hall.
    eapply Forall_impl; [exact (proj2 (Forall_and _ _) (conj Hp Hall))|]. intros m [[_ Hpl] Hle]. cbn [fst snd]. split; [|by apply json_fine].
    rewrite json_depth. cbn in Hle. unfold BB_JSON_OBJ_MAX_DEPTH. unfold BB_SERIALIZE_MAX_DEPTH in Hd. lia. }
  pose proof (respond_ends send _ Hm) as H. cbv zeta in H. rewrite Hr in H. cbn [fst snd] in H. destruct H as [(chunks & -> & _ & _ & Hok & _)|(Hne & _)]; [|done].
  destruct (Hok eq_refl) as [Ht _]. rewrite omap_app. cbn [omap list_omap]. rewrite app_nil_r. apply chunks_document; [|done|done].
  rewrite <- json_text by done. exact Ht.
Qed.

Lemma response_reads_back_witness :
  let ms := [(Some (bs "a"), JI64 (-7)); (Some (bs "b"), JArr [JBool true; JStr (bs "hi")])] in
  scan_chunks rec_sink (omap id (respond_object (fun _ => BB_OK) BB_OK (map (fun m => (default [] m.1, json_node false m.2)) ms) []).2) ([], [])
  = Some (BB_OK, ([EvBeginObj None; EvNum (Some (bs "a")) (bs "-7"); EvBeginArr (Some (bs "b")); EvBool None true; EvStr None (bs "hi"); EvEndArr; EvEndObj], [])).
Proof.
  cbv zeta. refine (eq_trans (response_reads_back (fun _ => BB_OK) false [(Some (bs "a"), JI64 (-7)); (Some (bs "b"), JArr [JBool true; JStr (bs "hi")])] _ _ _ _ _) _).
  - cbn. repeat split; try lia; repeat constructor; try done.
  - vm_compute. lia.
  - cbn. unfold BB_SERIALIZE_JSON_SCRATCH_MAX_BYTES. repeat split; vm_compute; lia.
  - vm_compute. reflexivity.
  - vm_compute. reflexivity.
Defined.
