(* ===== verification/Logfmt.v ===== *)
(** One-line backends of the walker: the logfmt line
    (components/bb_serialize_logfmt/src/bb_serialize_logfmt.c) and the console
    line (components/bb_serialize_console/src/bb_serialize_console.c). *)
From Stdlib Require Import Strings.String.
From S2P Require Import Prelude Bytes Num Float Walk JsonWrite JsonObj.

(** * The logfmt writer *)

(** [lf_buf] is [buf[0..len)]. *)
Record logfmt_ctx := mk_logfmt { lf_buf : list byte; lf_cap : nat; lf_err : bb_err }.
Definition BB_SERIALIZE_LOGFMT_F64_DECIMALS : nat := 6.

Definition bb_logfmt_put (s : list byte) (c : logfmt_ctx) : logfmt_ctx :=
  if negb (is_ok (lf_err c)) then c else
  if (lf_cap c <? length (lf_buf c) + length s)%nat then mk_logfmt (lf_buf c) (lf_cap c) BB_ERR_NO_SPACE else
  mk_logfmt (lf_buf c ++ s) (lf_cap c) (lf_err c).
Definition bb_logfmt_putc (b : byte) (c : logfmt_ctx) : logfmt_ctx := bb_logfmt_put [b] c.

Definition quote_byte (c : byte) : bool :=
  match c with x20 | x22 | x3d | x5c => true | _ => bz c <? 0x20 end.
Definition bb_logfmt_needs_quote (s : list byte) : bool :=
  match s with [] => true | _ => existsb quote_byte s end.

(** The bytes of one character of a quoted value, written by one call. *)
Definition logfmt_escape (c : byte) : list byte :=
  match c with
  | x22 => [x5c; x22]
  | x5c => [x5c; x5c]
  | x0a => [x5c; x6e]
  | x0d => [x5c; x72]
  | x09 => [x5c; x74]
  | _ => if bz c <? 0x20
         then [x5c; x78; bb_json_hex_nibble (Z.land (Z.shiftr (bz c) 4) 0xF); bb_json_hex_nibble (Z.land (bz c) 0xF)]
         else [c]
  end.
Definition bb_logfmt_write_quoted (s : list byte) (c : logfmt_ctx) : logfmt_ctx :=
  bb_logfmt_putc x22 (fold_left (fun c b => bb_logfmt_put (logfmt_escape b) c) s (bb_logfmt_putc x22 c)).
Definition bb_logfmt_write_str (s : list byte) (c : logfmt_ctx) : logfmt_ctx :=
  if bb_logfmt_needs_quote s then bb_logfmt_write_quoted s c else bb_logfmt_put s c.

Definition bb_logfmt_write_u64 (v : Z) (c : logfmt_ctx) : logfmt_ctx :=
  let '(digits, n) := bb_num_u64_to_dec (repeat x00 21) 21 v in bb_logfmt_put (take n digits) c.
Definition bb_logfmt_write_i64 (v : Z) (c : logfmt_ctx) : logfmt_ctx :=
  let '(digits, n) := bb_num_i64_to_dec (repeat x00 22) 22 v in bb_logfmt_put (take n digits) c.
Definition bb_logfmt_write_frac_digits (frac : Z) (n_digits : nat) (c : logfmt_ctx) : logfmt_ctx :=
  bb_logfmt_put (frac_digits n_digits frac) c.

(** 2^64; the double's sign, integer part and scaled fraction, [None] for what
    is written as null. *)
Definition BB_LOGFMT_TWO_POW_64 : spec_float := d_of_Z (2 ^ 64).
Definition logfmt_f64_parts (v : spec_float) : option (bool * Z * Z) :=
  if d_isnan v || d_isinf v then None else
  let neg := d_lt v (S754_zero false) in
  let mag := if neg then SFopp v else v in
  if d_ge mag BB_LOGFMT_TWO_POW_64 then None else
  let int_part := u64 (d_trunc mag) in
  let frac := d_sub mag (d_of_Z int_part) in
  let scale := s_pow10 BB_SERIALIZE_LOGFMT_F64_DECIMALS in
  let scale_i := u64 (d_trunc scale) in
  let frac_i := u64 (d_trunc (d_add (d_mul frac scale) ONE_HALF)) in
  Some (if scale_i <=? frac_i then (neg, u64 (int_part + 1), u64 (frac_i - scale_i)) else (neg, int_part, frac_i)).
Definition bb_logfmt_write_f64 (v : spec_float) (c : logfmt_ctx) : logfmt_ctx :=
  match logfmt_f64_parts v with
  | None => bb_logfmt_put (bs "null") c
  | Some (neg, int_part, frac_i) =>
      let c := if neg then bb_logfmt_putc x2d c else c in
      bb_logfmt_write_frac_digits frac_i BB_SERIALIZE_LOGFMT_F64_DECIMALS
        (bb_logfmt_putc x2e (bb_logfmt_write_u64 int_part c))
  end.

Definition bb_logfmt_pre_value (key : key_t) (c : logfmt_ctx) : logfmt_ctx :=
  let c := if (0 <? length (lf_buf c))%nat then bb_logfmt_putc x20 c else c in
  match key with Some k => bb_logfmt_putc x3d (bb_logfmt_put k c) | None => c end.

Definition bb_logfmt_cb_emit_i64 key v c := bb_logfmt_write_i64 v (bb_logfmt_pre_value key c).
Definition bb_logfmt_cb_emit_u64 key v c := bb_logfmt_write_u64 v (bb_logfmt_pre_value key c).
Definition bb_logfmt_cb_emit_f64 key (bits : Z) c := bb_logfmt_write_f64 (d_of_bits bits) (bb_logfmt_pre_value key c).
Definition bb_logfmt_cb_emit_bool key (v : bool) c :=
  let c := bb_logfmt_pre_value key c in if v then bb_logfmt_put (bs "true") c else bb_logfmt_put (bs "false") c.
Definition bb_logfmt_cb_emit_str key s c := bb_logfmt_write_str s (bb_logfmt_pre_value key c).
Definition bb_logfmt_cb_emit_null key c := bb_logfmt_put (bs "null") (bb_logfmt_pre_value key c).

(** The container callbacks do nothing. *)
Definition bb_serialize_logfmt_emit : emit_vtable logfmt_ctx :=
  mk_emit (fun _ c => c) (fun c => c) (fun _ c => c) (fun c => c) bb_logfmt_cb_emit_i64 bb_logfmt_cb_emit_u64
    bb_logfmt_cb_emit_f64 bb_logfmt_cb_emit_bool bb_logfmt_cb_emit_str bb_logfmt_cb_emit_null.
Definition bb_serialize_logfmt_ctx_init (cap : nat) : logfmt_ctx := mk_logfmt [] cap BB_OK.

Section Render.
Context (ptr_size : nat) (tables : nat -> list field) (iter_rows : Z -> Z -> mem -> list snap).

(** The code, and the text before the NUL (nothing is written for a capacity of 0). *)
Definition bb_serialize_logfmt_render (desc : option serialize_desc) (s : option snap) (buf_ok : bool) (cap : nat)
  : bb_err * list byte :=
  if negb buf_ok || (cap =? 0)%nat then (BB_ERR_NO_SPACE, []) else
  let c := bb_serialize_walk ptr_size tables iter_rows None desc s (Some bb_serialize_logfmt_emit)
             (bb_serialize_logfmt_ctx_init (cap - 1)) in
  if negb (is_ok (lf_err c)) then (lf_err c, []) else (BB_OK, lf_buf c).
End Render.

(** * The console writer *)

(** [cn_path] is [path[0..path_depth)]. *)
Record console_ctx := mk_console { cn_buf : list byte; cn_cap : nat; cn_path : list key_t }.

(** [vsnprintf] of a fragment that formats to [s]: what fits before the NUL. *)
Definition bb_console_appendf (s : list byte) (c : console_ctx) : console_ctx :=
  if (cn_cap c <? length (cn_buf c) + 1)%nat then c else
  let avail := (cn_cap c - length (cn_buf c))%nat in
  match s with
  | [] => c
  | _ => let written := if (avail <=? length s)%nat then (avail - 1)%nat else length s in
         mk_console (cn_buf c ++ take written s) (cn_cap c) (cn_path c)
  end.
(** The digits [bb_num] puts behind the text, and their number added to [len]. *)
Definition console_number (to_dec : list byte -> nat -> Z -> list byte * nat) (v : Z) (c : console_ctx) : console_ctx :=
  let avail := (cn_cap c - length (cn_buf c))%nat in
  let '(digits, n) := to_dec (repeat x00 avail) avail v in
  mk_console (cn_buf c ++ take n digits) (cn_cap c) (cn_path c).

Definition bb_console_pre_value (key : key_t) (c : console_ctx) : console_ctx :=
  let c := if (0 <? length (cn_buf c))%nat then bb_console_appendf [x20] c else c in
  match key with
  | None => c
  | Some k =>
      let c := fold_left (fun c p => match p with Some p => bb_console_appendf (p ++ [x2e]) c | None => c end) (cn_path c) c in
      bb_console_appendf (k ++ [x3d]) c
  end.
Definition bb_console_push_path (key : key_t) (c : console_ctx) : console_ctx :=
  if (BB_SERIALIZE_MAX_DEPTH <=? length (cn_path c))%nat then c else mk_console (cn_buf c) (cn_cap c) (cn_path c ++ [key]).
Definition bb_console_pop_path (c : console_ctx) : console_ctx :=
  if (length (cn_path c) =? 0)%nat then c else mk_console (cn_buf c) (cn_cap c) (take (length (cn_path c) - 1) (cn_path c)).

Definition bb_console_cb_emit_i64 key v c := console_number bb_num_i64_to_dec v (bb_console_pre_value key c).
Definition bb_console_cb_emit_u64 key v c := console_number bb_num_u64_to_dec v (bb_console_pre_value key c).
Definition bb_console_cb_emit_f64 key (bits : Z) c := bb_console_appendf (g_text bits) (bb_console_pre_value key c).
Definition bb_console_cb_emit_bool key (v : bool) c :=
  bb_console_appendf (if v then bs "true" else bs "false") (bb_console_pre_value key c).
(** ["%.*s"]: up to a NUL. *)
Definition bb_console_cb_emit_str key s c := bb_console_appendf (cstr s) (bb_console_pre_value key c).
Definition bb_console_cb_emit_null key c := bb_console_appendf (bs "null") (bb_console_pre_value key c).
Definition bb_serialize_console_emit : emit_vtable console_ctx :=
  mk_emit bb_console_push_path bb_console_pop_path (fun _ c => c) (fun c => c) bb_console_cb_emit_i64 bb_console_cb_emit_u64
    bb_console_cb_emit_f64 bb_console_cb_emit_bool bb_console_cb_emit_str bb_console_cb_emit_null.
Definition bb_serialize_console_ctx_init (cap : nat) : console_ctx := mk_console [] cap [].
Definition bb_serialize_console_render (ptr_size : nat) (tables : nat -> list field) (iter_rows : Z -> Z -> mem -> list snap)
    (desc : option serialize_desc) (s : option snap) (buf_ok : bool) (cap : nat) : bb_err * list byte :=
  if negb buf_ok || (cap =? 0)%nat then (BB_ERR_NO_SPACE, []) else
  (BB_OK, cn_buf (bb_serialize_walk ptr_size tables iter_rows None desc s (Some bb_serialize_console_emit)
                    (bb_serialize_console_ctx_init cap))).

(** * The line a document makes *)

(** The scalars of a tree in order, each under its own key and the keys of the
    objects around it. *)
Record leaf := mk_leaf { lf_path : list key_t; lf_key : key_t; lf_val : jval }.
Fixpoint leaves (path : list key_t) (k : key_t) (v : jval) : list leaf :=
  match v with
  | JArr vs => concat (map (leaves path None) vs)
  | JObj ms => concat (map (fun m => leaves (path ++ [k]) m.1 m.2) ms)
  | _ => [mk_leaf path k v]
  end.
Definition doc_leaves (ms : list (key_t * jval)) : list leaf := concat (map (fun m => leaves [] m.1 m.2) ms).

(** A line is its items with a space wherever something stands already. *)
Definition add_item (item line : list byte) : list byte := line ++ (if (0 <? length line)%nat then [x20] else []) ++ item.
Definition line_of (items : list (list byte)) : list byte := fold_left (fun l i => add_item i l) items [].

Definition fixed_text (v : spec_float) : list byte :=
  match logfmt_f64_parts v with
  | None => bs "null"
  | Some (neg, int_part, frac_i) =>
      (if neg then [x2d] else []) ++ dec_u64 int_part ++ [x2e] ++ frac_digits BB_SERIALIZE_LOGFMT_F64_DECIMALS frac_i
  end.
(** The bytes of a value before quoting. *)
Definition plain_value (v : jval) : list byte :=
  match v with
  | JNull => bs "null" | JBool b => if b then bs "true" else bs "false"
  | JI64 x => dec_i64 x | JU64 x => dec_u64 x | JF64 b => fixed_text (d_of_bits b) | JStr s => s
  | JArr _ | JObj _ => []
  end.
Definition quoted (s : list byte) : list byte := [x22] ++ concat (map logfmt_escape s) ++ [x22].
Definition value_text (v : jval) : list byte :=
  match v with JStr s => if bb_logfmt_needs_quote s then quoted s else s | _ => plain_value v end.
Definition logfmt_item (l : leaf) : list byte := (match lf_key l with Some k => k ++ [x3d] | None => [] end) ++ value_text (lf_val l).
Definition logfmt_line (ms : list (key_t * jval)) : list byte := line_of (logfmt_item <$> doc_leaves ms).

Definition console_value (v : jval) : list byte :=
  match v with JF64 b => g_text b | JStr s => cstr s | _ => plain_value v end.
Definition dotted (path : list key_t) (k : list byte) : list byte :=
  concat (map (fun p => match p with Some p => p ++ [x2e] | None => [] end) path) ++ k ++ [x3d].
Definition console_item (l : leaf) : list byte :=
  (match lf_key l with Some k => dotted (lf_path l) k | None => [] end) ++ console_value (lf_val l).
Definition console_line (ms : list (key_t * jval)) : list byte := line_of (console_item <$> doc_leaves ms).

(** ** Reading a logfmt line *)

Definition hex_value (c : byte) : Z := if is_digit c then digit_val c else bz c - 87.
(** What follows an opening quote: the text up to the closing one, and the rest. *)
Fixpoint read_quoted (l : list byte) : option (list byte * list byte) :=
  match l with
  | [] => None
  | x22 :: rest => Some ([], rest)
  | x5c :: x78 :: h :: w :: rest =>
      match read_quoted rest with Some (s, r) => Some (zb (16 * hex_value h + hex_value w) :: s, r) | None => None end
  | x5c :: c :: rest =>
      match read_quoted rest with
      | Some (s, r) => Some ((match c with x6e => x0a | x72 => x0d | x74 => x09 | _ => c end) :: s, r)
      | None => None
      end
  | c :: rest => match read_quoted rest with Some (s, r) => Some (c :: s, r) | None => None end
  end.
Fixpoint read_until (stop : byte -> bool) (l : list byte) : list byte * list byte :=
  match l with
  | [] => ([], [])
  | c :: rest => if stop c then ([], l) else let '(w, r) := read_until stop rest in (c :: w, r)
  end.
Definition is_blank (c : byte) : bool := Byte.eqb c x20.
Definition read_value (l : list byte) : option (list byte * list byte) :=
  match l with x22 :: rest => read_quoted rest | _ => Some (read_until is_blank l) end.
(** One item: a key if an equals sign comes before the first quote or space. *)
Definition read_item (l : list byte) : option (key_t * list byte * list byte) :=
  let '(w, rest) := read_until (fun c => is_blank c || Byte.eqb c x3d || Byte.eqb c x22) l in
  match rest with
  | x3d :: rest => match read_value rest with Some (v, r) => Some (Some w, v, r) | None => None end
  | _ => match read_value l with Some (v, r) => Some (None, v, r) | None => None end
  end.
Fixpoint read_items (fuel : nat) (l : list byte) : option (list (key_t * list byte)) :=
  match fuel with
  | O => None
  | S fuel =>
      match read_item l with
      | Some (k, v, []) => Some [(k, v)]
      | Some (k, v, x20 :: rest) => match read_items fuel rest with Some its => Some ((k, v) :: its) | None => None end
      | _ => None
      end
  end.
Definition read_line (l : list byte) : option (list (key_t * list byte)) :=
  match l with [] => Some [] | _ => read_items (length l) l end.

Definition wit_line_doc : list (key_t * jval) :=
  [(Some (bs "up"), JU64 61); (Some (bs "msg"), JStr (bs "a b=c" ++ [x22; x5c; x0a; x01]));
   (Some (bs "net"), JObj [(Some (bs "ssid"), JStr (bs "lab")); (Some (bs "ch"), JArr [JI64 (-3); JStr []])]); (Some (bs "t"), JF64 0xC00921FB54442D18)].
Example ex_logfmt_line : logfmt_line wit_line_doc =
  bs "up=61 msg=" ++ [x22] ++ bs "a b=c\" ++ [x22] ++ bs "\\\n\x01" ++ [x22] ++ bs " ssid=lab -3 " ++ [x22; x22] ++ bs " t=-3.141593".
Proof. vm_compute. reflexivity. Qed.
Example ex_console_line : console_line wit_line_doc =
  bs "up=61 msg=a b=c" ++ [x22; x5c; x0a; x01] ++ bs " net.ssid=lab -3  t=-3.14159".
Proof. vm_compute. reflexivity. Qed.
Example ex_read_line : read_line (logfmt_line wit_line_doc) =
  Some ((fun l => (lf_key l, plain_value (lf_val l))) <$> doc_leaves wit_line_doc).
Proof. vm_compute. reflexivity. Qed.

(** * The writers follow the line *)

Definition sep (line : list byte) : list byte := if (0 <? length line)%nat then [x20] else [].
Abbreviation add_items items line := (fold_left (fun l i => add_item i l) items line).

Lemma concat_items {A B} (f : B -> list byte) (g : A -> list B) l line :
  add_items (f <$> concat (map g l)) line = fold_left (fun line a => add_items (f <$> g a) line) l line.
Proof.
  revert line; induction l as [|a l IH]; intros line; [done|]. cbn [map concat fold_left]. by rewrite fmap_app, fold_left_app, IH.
Qed.

Section LogfmtLine.
Context (cap : nat).
(** All of the line while it fits; then the error, for good. *)
Definition follows (c : logfmt_ctx) (line : list byte) : Prop :=
  lf_cap c = cap /\
  if (length line <=? cap)%nat then lf_err c = BB_OK /\ lf_buf c = line else lf_err c = BB_ERR_NO_SPACE.

Lemma follows_put s c line : follows c line -> follows (bb_logfmt_put s c) (line ++ s).
Proof.
  unfold follows, bb_logfmt_put. intros [Hc H]. rewrite length_app. destruct (Nat.leb_spec (length line) cap).
  - destruct H as [He Hb]. rewrite He, Hb, Hc. cbn [is_ok negb].
    destruct (Nat.ltb_spec cap (length line + length s)), (Nat.leb_spec (length line + length s) cap); try lia; done.
  - rewrite H. cbn [is_ok negb]. destruct (Nat.leb_spec (length line + length s) cap); [lia|done].
Qed.
Lemma follows_sep c line : follows c line -> follows (if (0 <? length (lf_buf c))%nat then bb_logfmt_putc x20 c else c) (line ++ sep line).
Proof.
  intros H. destruct (Nat.leb_spec (length line) cap) as [Hl|Hl].
  - assert (lf_buf c = line) as -> by (destruct H as [_ H]; rewrite (proj2 (Nat.leb_le _ _) Hl) in H; apply H).
    unfold sep. destruct (0 <? length line)%nat; [by apply follows_put|by rewrite app_nil_r].
  - destruct H as [Hc H]. rewrite (proj2 (Nat.leb_gt _ _) Hl) in H.
    assert (Hs : follows c (line ++ sep line)).
    { split; [done|]. rewrite length_app. destruct (Nat.leb_spec (length line + length (sep line)) cap); [lia|done]. }
    destruct (0 <? length (lf_buf c))%nat; [|done]. unfold bb_logfmt_putc, bb_logfmt_put. by rewrite H.
Qed.
Lemma follows_pre_value k c line : follows c line ->
  follows (bb_logfmt_pre_value k c) (line ++ sep line ++ match k with Some k => k ++ [x3d] | None => [] end).
Proof.
  intros H. unfold bb_logfmt_pre_value. apply follows_sep in H. destruct k as [k|]; [|by rewrite app_nil_r].
  rewrite (app_assoc line), (app_assoc _ k). by apply follows_put, follows_put.
Qed.
Lemma follows_puts (f : byte -> list byte) s c line : follows c line ->
  follows (fold_left (fun c b => bb_logfmt_put (f b) c) s c) (line ++ concat (map f s)).
Proof.
  revert c line; induction s as [|b s IH]; intros c line H; cbn [fold_left map concat]; [by rewrite app_nil_r|].
  rewrite app_assoc. by apply IH, follows_put.
Qed.
Lemma follows_str s c line : follows c line ->
  follows (bb_logfmt_write_str s c) (line ++ if bb_logfmt_needs_quote s then quoted s else s).
Proof.
  intros H. unfold bb_logfmt_write_str. destruct (bb_logfmt_needs_quote s); [|by apply follows_put].
  unfold quoted. rewrite !app_assoc. by apply follows_put, follows_puts, follows_put.
Qed.
Lemma logfmt_u64_put v c : bb_logfmt_write_u64 v c = bb_logfmt_put (dec_u64 v) c.
Proof. unfold bb_logfmt_write_u64. by rewrite u64_to_dec_fits, take_app_length by lia. Qed.
Lemma logfmt_i64_put v c : bb_logfmt_write_i64 v c = bb_logfmt_put (dec_i64 v) c.
Proof.
  unfold bb_logfmt_write_i64. pose proof (i64_digits 22 v ltac:(lia)) as H. destruct (bb_num_i64_to_dec _ _ _). by rewrite H.
Qed.
Lemma follows_f64 v c line : follows c line -> follows (bb_logfmt_write_f64 v c) (line ++ fixed_text v).
Proof.
  intros H. unfold bb_logfmt_write_f64, fixed_text. destruct (logfmt_f64_parts v) as [[[neg ip] fr]|]; [|by apply follows_put].
  rewrite logfmt_u64_put, !app_assoc. do 3 apply follows_put. destruct neg; [by apply follows_put|by rewrite app_nil_r].
Qed.

Lemma follows_val v : forall path k c line, follows c line ->
  follows (emit_val bb_serialize_logfmt_emit k v c) (add_items (logfmt_item <$> leaves path k v) line).
Proof.
  induction v as [|b|x|x|x|s|vs IH|ms IH] using jval_nested_ind; intros path k c line H.
  1-6: cbn [emit_val leaves fmap list_fmap fold_left]; unfold add_item, logfmt_item; cbn [lf_key lf_val value_text plain_value];
    rewrite !app_assoc, <- (app_assoc line); apply (follows_pre_value k) in H.
  - by apply follows_put.
  - cbn [emit_bool bb_serialize_logfmt_emit]. unfold bb_logfmt_cb_emit_bool. destruct b; by apply follows_put.
  - cbn [emit_i64 bb_serialize_logfmt_emit]. unfold bb_logfmt_cb_emit_i64. rewrite logfmt_i64_put. by apply follows_put.
  - cbn [emit_u64 bb_serialize_logfmt_emit]. unfold bb_logfmt_cb_emit_u64. rewrite logfmt_u64_put. by apply follows_put.
  - by apply follows_f64.
  - by apply follows_str.
  - cbn [emit_val leaves begin_arr end_arr bb_serialize_logfmt_emit]. rewrite concat_items.
    revert c line H. induction IH as [|v vs Hv _ IHvs]; intros c line H; [done|]. cbn [fold_left]. by apply IHvs, Hv.
  - cbn [emit_val leaves begin_obj end_obj bb_serialize_logfmt_emit]. rewrite concat_items.
    revert c line H. induction IH as [|m ms Hm _ IHms]; intros c line H; [done|]. cbn [fold_left]. by apply IHms, Hm.
Qed.
Lemma follows_members ms : forall c line, follows c line ->
  follows (emit_members bb_serialize_logfmt_emit ms c) (add_items (logfmt_item <$> doc_leaves ms) line).
Proof.
  intros c line H. unfold doc_leaves, emit_members. rewrite concat_items. revert c line H.
  induction ms as [|m ms IH]; intros c line H; [done|]. cbn [fold_left]. by apply IH, follows_val.
Qed.
End LogfmtLine.

(** ** The console: a prefix of its line *)

(** How many objects are open at once. *)
Fixpoint odepth (v : jval) : nat :=
  match v with
  | JArr vs => list_max (map odepth vs)
  | JObj ms => S (list_max (map (fun m => odepth m.2) ms))
  | _ => 0%nat
  end.
Definition members_odepth (n : nat) (ms : list (key_t * jval)) : Prop := Forall (fun m => odepth m.2 <= n)%nat ms.

Section ConsoleDepth.
Context (ptr_size : nat) (tables : nat -> list field) (iter_rows : Z -> Z -> mem -> list snap).
Context (resolve : option bb_serialize_ref_resolve_fn).

Lemma obj_odepth n ms : members_odepth n ms -> (odepth (JObj ms) <= S n)%nat.
Proof. intros H. cbn. apply le_n_S. by apply list_max_map_le. Qed.
Lemma array_value_odepth n sub p f :
  match sub with Some val => forall t s, members_odepth n (val t s) | None => True end ->
  Forall (fun v => odepth v <= match sub with Some _ => S n | None => 0 end)%nat (array_value ptr_size iter_rows sub p f).
Proof.
  intros Hsub. unfold array_value. destruct (f_cardinality f).
  - cbv zeta. destruct (s_addr _ =? 0); [constructor|]. case_decide.
    + destruct sub as [val|]; [|constructor]. apply Forall_map, Forall_true. intros j. by apply obj_odepth.
    + apply Forall_concat, Forall_map, Forall_true. intros j. unfold elem_value.
      destruct (f_elem_type f); repeat constructor; cbn; try lia. destruct (_ =? 0); cbn; lia.
  - destruct sub as [val|]; [|constructor]. destruct (_ =? 0); [constructor|].
    apply Forall_map, Forall_true. intros r. by apply obj_odepth.
Qed.
Lemma fields_value_odepth rem t s : members_odepth rem (fields_value ptr_size tables iter_rows resolve rem t s).
Proof.
  revert t s; induction rem as [|rem IH]; intros t s; cbn [fields_value];
    apply Forall_concat, Forall_map, Forall_true; intros f; unfold field_value;
    (destruct (match f_present f with Some _ => _ | None => _ end); [constructor|]);
    destruct (f_type f); cbv zeta; try apply Forall_nil_2;
    try (apply Forall_singleton; cbn [odepth snd]; (lia || (destruct (_ =? 0); cbn; lia))).
  - apply Forall_singleton. cbn [odepth snd]. apply list_max_map_le. by apply (array_value_odepth 0 None).
  - apply Forall_singleton. apply (obj_odepth _ _ (IH _ _)).
  - apply Forall_singleton. cbn [odepth snd]. apply list_max_map_le. apply (array_value_odepth rem (Some _) _ _ IH).
  - destruct (ref_target resolve f) as [[tbl sn]|]; [|apply Forall_nil_2]. apply Forall_singleton. apply (obj_odepth _ _ (IH _ _)).
Qed.
End ConsoleDepth.

Section ConsoleLine.
Context (cap : nat) (Hcap : (0 < cap)%nat).
Definition clipped (path : list key_t) (c : console_ctx) (line : list byte) : Prop :=
  cn_cap c = cap /\ cn_buf c = take (cap - 1) line /\ cn_path c = path.

Lemma take_grow (line s : list byte) : take (cap - 1) line ++ take (cap - 1 - length (take (cap - 1) line)) s = take (cap - 1) (line ++ s).
Proof.
  rewrite take_app, length_take. f_equal. destruct (Nat.le_ge_cases (length line) (cap - 1)).
  - by rewrite Nat.min_r by lia.
  - rewrite Nat.min_l, Nat.sub_diag by lia. by replace (cap - 1 - length line)%nat with 0%nat by lia.
Qed.
Lemma clipped_append s path c line : clipped path c line -> clipped path (bb_console_appendf s c) (line ++ s).
Proof.
  intros (Hc & Hb & Hp). unfold bb_console_appendf. rewrite Hc, Hb, Hp.
  assert (Hl : (length (take (cap - 1) line) <= cap - 1)%nat) by (rewrite length_take; lia).
  destruct (Nat.ltb_spec cap (length (take (cap - 1) line) + 1)); [lia|].
  destruct s as [|x s']; [by rewrite app_nil_r|]. set (s := x :: s') in *. split; [done|]. split; [|done]. cbn [cn_buf].
  rewrite <- take_grow. f_equal. set (n := length (take (cap - 1) line)) in *.
  destruct (Nat.leb_spec (cap - n) (length s)); [f_equal; lia|]. rewrite !take_ge by lia. done.
Qed.
Lemma clipped_number to_dec (dec : Z -> list byte) v path c line :
  (forall n, (0 < n)%nat -> let '(d, k) := to_dec (repeat x00 n) n v in take k d = take (n - 1) (dec v)) ->
  clipped path c line -> clipped path (console_number to_dec v c) (line ++ dec v).
Proof.
  intros Hd (Hc & Hb & Hp). unfold console_number. rewrite Hc, Hb, Hp.
  assert (Hl : (length (take (cap - 1) line) <= cap - 1)%nat) by (rewrite length_take; lia).
  specialize (Hd (cap - length (take (cap - 1) line))%nat ltac:(lia)).
  destruct (to_dec _ _ _) as [d k]. split; [done|]. split; [|done]. cbn [cn_buf]. rewrite Hd, <- take_grow. do 2 f_equal. lia.
Qed.
Lemma dec_u64_prefix v n : (0 < n)%nat -> let '(d, k) := bb_num_u64_to_dec (repeat x00 n) n v in take k d = take (n - 1) (dec_u64 v).
Proof.
  intros Hn. rewrite u64_to_dec_spec by done. rewrite <- length_take at 1. by rewrite take_app_length.
Qed.
Lemma dec_i64_prefix v n : (0 < n)%nat -> let '(d, k) := bb_num_i64_to_dec (repeat x00 n) n v in take k d = take (n - 1) (dec_i64 v).
Proof.
  intros Hn. rewrite i64_to_dec_spec by (rewrite repeat_length; lia). rewrite <- length_take at 1. by rewrite take_app_length.
Qed.

Lemma clipped_sep path c line : clipped path c line ->
  clipped path (if (0 <? length (cn_buf c))%nat then bb_console_appendf [x20] c else c) (line ++ sep line).
Proof.
  intros H. pose proof H as (_ & Hb & _). rewrite Hb, length_take. unfold sep.
  destruct (Nat.ltb_spec 0 (Nat.min (cap - 1) (length line))), (Nat.ltb_spec 0 (length line)); try lia.
  - by apply clipped_append.
  - assert (cap = 1%nat) as Hc by lia. destruct H as (E1 & E2 & E3). split; [done|]. split; [|done].
    by rewrite Hb, Hc, !take_0.
  - by rewrite app_nil_r.
Qed.
Lemma clipped_path pre path : forall c line, clipped path c line ->
  clipped path (fold_left (fun c p => match p with Some p => bb_console_appendf (p ++ [x2e]) c | None => c end) pre c)
    (line ++ concat (map (fun p => match p with Some p => p ++ [x2e] | None => [] end) pre)).
Proof.
  induction pre as [|p pre IH]; intros c line H; cbn [fold_left map concat]; [by rewrite app_nil_r|].
  rewrite app_assoc. apply IH. destruct p; [by apply clipped_append|by rewrite app_nil_r].
Qed.
Lemma clipped_pre_value k path c line : clipped path c line ->
  clipped path (bb_console_pre_value k c) (line ++ sep line ++ match k with Some k => dotted path k | None => [] end).
Proof.
  intros H. unfold bb_console_pre_value. apply clipped_sep in H. destruct k as [k|]; [|by rewrite app_nil_r].
  unfold dotted. rewrite (app_assoc line), (app_assoc _ (concat _)). apply clipped_append.
  pose proof H as (_ & _ & Hp). rewrite Hp. by apply clipped_path.
Qed.

Lemma clipped_val v : forall path k c line, (length path + odepth v <= BB_SERIALIZE_MAX_DEPTH)%nat -> clipped path c line ->
  clipped path (emit_val bb_serialize_console_emit k v c) (add_items (console_item <$> leaves path k v) line).
Proof.
  induction v as [|b|x|x|x|s|vs IH|ms IH] using jval_nested_ind; intros path k c line Hd H.
  1-6: cbn [emit_val leaves fmap list_fmap fold_left]; unfold add_item, console_item; cbn [lf_key lf_val lf_path console_value plain_value];
    rewrite !app_assoc, <- (app_assoc line); apply (clipped_pre_value k) in H.
  - by apply clipped_append.
  - by apply clipped_append.
  - apply (clipped_number _ dec_i64); [apply dec_i64_prefix|done].
  - apply (clipped_number _ dec_u64); [apply dec_u64_prefix|done].
  - by apply clipped_append.
  - by apply clipped_append.
  - cbn [emit_val leaves begin_arr end_arr bb_serialize_console_emit]. rewrite concat_items. cbn [odepth] in Hd.
    revert c line H Hd. induction IH as [|v vs Hv _ IHvs]; intros c line H Hd; [done|]. cbn [fold_left map list_max fold_right] in *.
    apply IHvs; [|unfold list_max; lia]. apply Hv; [lia|done].
  - cbn [emit_val leaves begin_obj end_obj bb_serialize_console_emit]. rewrite concat_items. cbn [odepth] in Hd.
    assert (Hpush : clipped (path ++ [k]) (bb_console_push_path k c) line).
    { destruct H as (H1 & H2 & H3). unfold bb_console_push_path. rewrite H3.
      destruct (Nat.leb_spec BB_SERIALIZE_MAX_DEPTH (length path)); [lia|]. by split_and!. }
    clear H. revert Hpush. generalize (bb_console_push_path k c) as d. intros d Hpush.
    assert (Hgo : clipped (path ++ [k]) (fold_left (fun c m => emit_val bb_serialize_console_emit m.1 m.2 c) ms d)
      (fold_left (fun line a => add_items (console_item <$> leaves (path ++ [k]) a.1 a.2) line) ms line)).
    { revert d line Hpush Hd. induction IH as [|m ms Hm _ IHms]; intros d line Hpush Hd; [done|]. cbn [fold_left map list_max fold_right] in *.
      apply IHms; [|unfold list_max; lia]. apply Hm; [rewrite length_app; cbn; lia|done]. }
    destruct Hgo as (H1 & H2 & H3). unfold bb_console_pop_path. rewrite H3, length_app. cbn [length].
    destruct (Nat.eqb_spec (length path + 1) 0); [lia|]. split; [done|]. split; [done|]. cbn [cn_path].
    by rewrite Nat.add_sub, take_app_length.
Qed.
Lemma clipped_members ms : members_odepth BB_SERIALIZE_MAX_DEPTH ms -> forall c line, clipped [] c line ->
  clipped [] (emit_members bb_serialize_console_emit ms c) (add_items (console_item <$> doc_leaves ms) line).
Proof.
  intros Hd c line H. unfold doc_leaves, emit_members. rewrite concat_items. revert c line H.
  induction Hd as [|m ms Hm _ IH]; intros c line H; [done|]. cbn [fold_left]. by apply IH, clipped_val.
Qed.
End ConsoleLine.

(** ** A logfmt line reads back *)

Definition bare (l : list byte) : Prop := Forall (fun c => quote_byte c = false) l.
(** A key without the bytes that end one. *)
Definition plain_key (l : leaf) : Prop :=
  match lf_key l with Some k => Forall (fun c => is_blank c || Byte.eqb c x3d || Byte.eqb c x22 = false) k | None => True end.
Definition ends (l : list byte) : Prop := l = [] \/ exists r, l = x20 :: r.

Lemma escape_back c l : read_quoted (logfmt_escape c ++ l) = match read_quoted l with Some (s, r) => Some (c :: s, r) | None => None end.
Proof. destruct c; reflexivity. Qed.
Lemma quoted_back s rest : read_quoted (concat (map logfmt_escape s) ++ [x22] ++ rest) = Some (s, rest).
Proof. induction s as [|c s IH]; [done|]. cbn [map concat]. by rewrite <- app_assoc, escape_back, IH. Qed.

Lemma read_until_app stop w rest : Forall (fun c => stop c = false) w ->
  (rest = [] \/ exists c r, rest = c :: r /\ stop c = true) -> read_until stop (w ++ rest) = (w, rest).
Proof.
  intros Hw Hr. induction Hw as [|c w Hc _ IH].
  - destruct Hr as [-> |(c & r & -> & Hc)]; [done|]. cbn. by rewrite Hc.
  - cbn [app read_until]. by rewrite Hc, IH.
Qed.
Lemma bare_byte c : quote_byte c = false -> is_blank c || Byte.eqb c x3d || Byte.eqb c x22 = false.
Proof. by destruct c. Qed.
Lemma bare_not_blank w : bare w -> Forall (fun c => is_blank c = false) w.
Proof. intros H. eapply Forall_impl; [exact H|]. intros c Hc%bare_byte. by destruct (is_blank c). Qed.

Lemma digits_bare l : Forall (fun b => is_digit b = true) l -> bare l.
Proof. intros H. eapply Forall_impl; [exact H|]. by intros c; destruct c. Qed.
Lemma dec_i64_bare v : bare (dec_i64 v).
Proof. unfold dec_i64. destruct (v >=? 0); [apply digits_bare, dec_u64_digits|]. constructor; [done|apply digits_bare, dec_u64_digits]. Qed.
Lemma frac_digits_bare n fr : bare (frac_digits n fr).
Proof.
  revert fr; induction n as [|n IH]; intros fr; [constructor|]. cbn [frac_digits]. apply Forall_app. split; [apply IH|].
  apply digits_bare, Forall_singleton, is_digit_of. apply Z.mod_pos_bound. lia.
Qed.
Lemma fixed_text_bare v : bare (fixed_text v) /\ fixed_text v <> [].
Proof.
  unfold fixed_text. destruct (logfmt_f64_parts v) as [[[neg ip] fr]|]; [|by repeat constructor]. split.
  - apply Forall_app. split; [by destruct neg; [apply Forall_singleton|]|]. apply Forall_app. split; [apply digits_bare, dec_u64_digits|].
    apply Forall_cons. split; [done|apply frac_digits_bare].
  - destruct neg; [done|]. pose proof (dec_u64_length ip). by destruct (dec_u64 ip).
Qed.
Lemma dec_nonempty v : dec_u64 v <> [] /\ dec_i64 v <> [].
Proof.
  assert (H : forall w, dec_u64 w <> []) by (intros w; pose proof (dec_u64_length w); by destruct (dec_u64 w); cbn in *; [lia|]).
  split; [apply H|]. unfold dec_i64. by destruct (v >=? 0); [apply H|].
Qed.

(** A value is quoted text or bare and not empty. *)
Inductive written : list byte -> list byte -> Prop :=
  | Wbare w : bare w -> w <> [] -> written w w
  | Wquoted s : written s (quoted s).
Definition scalar (v : jval) : Prop := match v with JArr _ | JObj _ => False | _ => True end.
Lemma value_written v : scalar v -> written (plain_value v) (value_text v).
Proof.
  destruct v as [|b|x|x|x|s|vs|ms]; try done; intros _; cbn [plain_value value_text].
  - by repeat constructor.
  - destruct b; by repeat constructor.
  - constructor; [apply dec_i64_bare|apply dec_nonempty].
  - constructor; [apply digits_bare, dec_u64_digits|apply dec_nonempty].
  - constructor; apply fixed_text_bare.
  - unfold bb_logfmt_needs_quote. destruct s as [|c s]; [constructor|].
    destruct (existsb quote_byte (c :: s)) eqn:E; [constructor|]. constructor; [|done].
    apply Forall_forall. intros b Hb. destruct (quote_byte b) eqn:Eb; [|done].
    assert (existsb quote_byte (c :: s) = true); [|congruence]. apply existsb_exists. exists b. split; [by apply list_elem_of_In|done].
Qed.

Lemma value_back s t rest : written s t -> ends rest -> read_value (t ++ rest) = Some (s, rest).
Proof.
  intros [w Hb Hn|s'] Hr.
  - assert (E : read_until is_blank (w ++ rest) = (w, rest)).
    { apply read_until_app; [by apply bare_not_blank|]. destruct Hr as [-> |[r ->]]; [by left|right; by eexists _, _]. }
    destruct w as [|c w]; [done|]. inversion_clear Hb as [|?? Hc Hw]. unfold read_value. cbn [app] in *. rewrite E. by destruct c.
  - unfold quoted. rewrite <- !app_assoc. cbn [app read_value]. apply quoted_back.
Qed.
Lemma ends_stop rest : ends rest -> rest = [] \/ exists c r, rest = c :: r /\ is_blank c || Byte.eqb c x3d || Byte.eqb c x22 = true.
Proof. intros [-> |[r ->]]; [by left|right; by eexists _, _]. Qed.

Lemma item_back l rest : plain_key l -> scalar (lf_val l) -> ends rest ->
  read_item (logfmt_item l ++ rest) = Some (lf_key l, plain_value (lf_val l), rest).
Proof.
  intros Hk Hv%value_written Hr. unfold read_item, logfmt_item, plain_key in *. destruct (lf_key l) as [k|].
  - rewrite <- !app_assoc. cbn [app]. rewrite read_until_app; [|done|right; by eexists _, _]. by rewrite (value_back _ _ _ Hv Hr).
  - rewrite app_nil_l. pose proof (value_back _ _ _ Hv Hr) as E. destruct Hv as [w Hb Hn|s].
    + rewrite read_until_app; [|eapply Forall_impl; [exact Hb|apply bare_byte]|by apply ends_stop].
      rewrite E. by destruct Hr as [-> |[r ->]].
    + rewrite E. unfold quoted. rewrite <- !app_assoc. cbn [app read_until]. done.
Qed.
Lemma item_nonempty l : scalar (lf_val l) -> logfmt_item l <> [].
Proof.
  intros Hv%value_written. unfold logfmt_item. intros [_ E]%app_nil. destruct Hv as [w _ Hn|s]; [done|]. by unfold quoted in E.
Qed.

Lemma leaves_scalar v : forall path k, Forall (fun l => scalar (lf_val l)) (leaves path k v).
Proof.
  induction v as [|b|x|x|x|s|vs IH|ms IH] using jval_nested_ind; intros path k; cbn [leaves]; try by constructor.
  - apply Forall_concat, Forall_map. eapply Forall_impl; [exact IH|]. cbn. auto.
  - apply Forall_concat, Forall_map. eapply Forall_impl; [exact IH|]. cbn. auto.
Qed.
Lemma doc_leaves_scalar ms : Forall (fun l => scalar (lf_val l)) (doc_leaves ms).
Proof. apply Forall_concat, Forall_map, Forall_true. intros m. apply leaves_scalar. Qed.

Lemma add_items_spaced items : forall line, line <> [] -> add_items items line = line ++ concat (map (cons x20) items).
Proof.
  induction items as [|i items IH]; intros line Hl; cbn [fold_left map concat]; [by rewrite app_nil_r|].
  assert (E : add_item i line = line ++ x20 :: i) by (unfold add_item; by destruct line).
  rewrite IH, E; [by rewrite <- app_assoc|rewrite E; by destruct line].
Qed.
Lemma line_spaced i items : i <> [] -> line_of (i :: items) = i ++ concat (map (cons x20) items).
Proof. intros Hi. unfold line_of. cbn [fold_left]. apply (add_items_spaced items). exact Hi. Qed.

Lemma items_back ls : forall l fuel, Forall (fun l => plain_key l /\ scalar (lf_val l)) (l :: ls) -> (length ls < fuel)%nat ->
  read_items fuel (logfmt_item l ++ concat (map (cons x20) (logfmt_item <$> ls))) =
  Some ((fun l => (lf_key l, plain_value (lf_val l))) <$> l :: ls).
Proof.
  induction ls as [|l' ls IH]; intros l [|fuel] H Hf; try (cbn in Hf; lia); inversion_clear H as [|?? [Hk Hv] Hls]; cbn [read_items].
  - cbn [fmap list_fmap map concat]. rewrite item_back by (done || by left). done.
  - cbn [fmap list_fmap map concat app]. rewrite item_back by (done || (right; by eexists)).
    cbn in Hf. pose proof (IH l' fuel Hls ltac:(lia)) as E. cbn [fmap list_fmap] in E. by rewrite E.
Qed.
Lemma spaced_length items : (length items <= length (concat (map (cons x20) items)))%nat.
Proof. induction items as [|i items IH]; cbn; [lia|]. rewrite length_app. lia. Qed.
Lemma line_back ms : Forall plain_key (doc_leaves ms) ->
  read_line (logfmt_line ms) = Some ((fun l => (lf_key l, plain_value (lf_val l))) <$> doc_leaves ms).
Proof.
  intros Hk. unfold logfmt_line. pose proof (doc_leaves_scalar ms) as Hs. 
  assert (H : Forall (fun l => plain_key l /\ scalar (lf_val l)) (doc_leaves ms)) by (by apply Forall_and). clear Hk Hs.
  destruct (doc_leaves ms) as [|l ls]; [done|]. cbn [fmap list_fmap].
  assert (Hi : logfmt_item l <> []) by (inversion_clear H as [|?? [_ Hv] _]; by apply item_nonempty).
  rewrite line_spaced by done. unfold read_line. pose proof (items_back ls l) as E. cbn [fmap list_fmap] in E.
  destruct (logfmt_item l) as [|x t] eqn:El; [done|]. cbn [app]. cbn [app] in E. apply E; [done|].
  cbn [length]. rewrite length_app. pose proof (spaced_length (logfmt_item <$> ls)) as Hl. rewrite length_fmap in Hl.
  change (list_fmap _ _ logfmt_item ls) with (logfmt_item <$> ls). lia.
Qed.

(** * Properties *)

(** C36: a logfmt line says what the document says.  For every descriptor and
    snapshot the renderer writes the one line of the walked document, every
    scalar in order under its own key, or, when the line and its NUL do not fit
    the buffer, an empty string and BB_ERR_NO_SPACE: never a part of a line.
    If no key holds a space, an equals sign or a quote, the line reads back as
    the same items: each key with exactly the bytes of its value, whatever the
    strings hold, empty strings, quotes and control bytes included. *)
Theorem logfmt_line_reads_back ptr_size tables iter_rows desc s cap :
  let ms := document ptr_size tables iter_rows None desc s in
  bb_serialize_logfmt_render ptr_size tables iter_rows (Some desc) (Some s) true cap =
    (if (length (logfmt_line ms) <? cap)%nat then (BB_OK, logfmt_line ms) else (BB_ERR_NO_SPACE, [])) /\
  (Forall plain_key (doc_leaves ms) ->
   read_line (logfmt_line ms) = Some ((fun l => (lf_key l, plain_value (lf_val l))) <$> doc_leaves ms)).
Proof.
  intros ms. split; [|apply line_back]. unfold bb_serialize_logfmt_render. cbn [negb orb].
  destruct (Nat.eqb_spec cap 0) as [->|Hc]; [done|]. unfold bb_serialize_walk. rewrite walk_fields_value.
  change (fields_value _ _ _ _ _ _ _) with ms.
  assert (H0 : follows (cap - 1) (bb_serialize_logfmt_ctx_init (cap - 1)) []) by done.
  pose proof (follows_members _ ms _ _ H0) as [_ H]. change (add_items _ []) with (logfmt_line ms) in H.
  destruct (Nat.leb_spec (length (logfmt_line ms)) (cap - 1)), (Nat.ltb_spec (length (logfmt_line ms)) cap); try lia.
  - by destruct H as [-> ->].
  - by rewrite H.
Qed.

Definition wit_line_fields : nat -> list field := fun n =>
  let fld k t off := mk_field (Some k) t off None 1 8 0 BB_TYPE_I64 0 BB_ARR_FIXED [] in
  match n with O => [fld (bs "msg") BB_TYPE_STR 0; fld (bs "n") BB_TYPE_OBJ 8] | _ => [fld (bs "up") BB_TYPE_U64 0] end.
Definition wit_line_snap : snap := mk_snap (mem_of 100 (bs "a b" ++ [x22; x00; x00; x00; x00] ++ le_bytes 8 61)) 100.
Lemma logfmt_line_reads_back_witness :
  bb_serialize_logfmt_render 8 wit_line_fields no_rows (Some (mk_sdesc [] 0 16)) (Some wit_line_snap) true 40 =
    (BB_OK, bs "msg=" ++ [x22] ++ bs "a b\" ++ [x22; x22] ++ bs " up=61") /\
  read_line (bs "msg=" ++ [x22] ++ bs "a b\" ++ [x22; x22] ++ bs " up=61") =
    Some [(Some (bs "msg"), bs "a b" ++ [x22]); (Some (bs "up"), bs "61")].
Proof.
  destruct (logfmt_line_reads_back 8 wit_line_fields no_rows (mk_sdesc [] 0 16) wit_line_snap 40) as [H1 H2].
  split; [rewrite H1; vm_compute; reflexivity|]. refine (eq_trans _ (eq_trans (H2 _) _)); [vm_compute; reflexivity| |vm_compute; reflexivity].
  vm_compute. repeat constructor.
Defined.

(** A console line is cut, not refused: what does not fit before the NUL is
    missing at its end, and the stack of keys is always popped to the bottom. *)
Theorem console_line_clipped ptr_size tables iter_rows desc s cap :
  bb_serialize_console_render ptr_size tables iter_rows (Some desc) (Some s) true cap =
  if (cap =? 0)%nat then (BB_ERR_NO_SPACE, [])
  else (BB_OK, take (cap - 1) (console_line (document ptr_size tables iter_rows None desc s))).
Proof.
  unfold bb_serialize_console_render. cbn [negb orb]. destruct (Nat.eqb_spec cap 0) as [->|Hc]; [done|].
  unfold bb_serialize_walk. rewrite walk_fields_value. set (ms := fields_value _ _ _ _ _ _ _).
  assert (Hd : members_odepth BB_SERIALIZE_MAX_DEPTH ms) by apply fields_value_odepth.
  assert (H0 : clipped cap [] (bb_serialize_console_ctx_init cap) []) by (split_and!; [done|by rewrite take_nil|done]).
  destruct (clipped_members cap ltac:(lia) ms Hd _ _ H0) as (_ & H & _). by rewrite H.
Qed.
