(* ===== verification/Buttons.v ===== *)
(** Buttons: the debouncing dispatcher (platform/host/bb_button/bb_button.c)
    and the gestures recognised above it
    (platform/host/bb_button_events/bb_button_events.c). *)
From Stdlib Require Import Strings.String.
From S2P Require Import Prelude.
Local Open Scope Z_scope.
#[local] Arguments u32 : simpl never.

(** * bb_button: raw edges to pressed and released *)

Inductive button_kind : Set := BB_BTN_PRESSED | BB_BTN_RELEASED.
#[export] Instance button_kind_eq_dec : EqDecision button_kind.
Proof. solve_decision. Defined.
Record button_event := mk_bevent { be_kind : button_kind; be_timestamp_ms : Z }.
Definition BB_BUTTON_DEBOUNCE_MS_DEFAULT : Z := 25.

(** [bt_cb]: the callback with its user pointer, whatever stands for them. *)
Record button (C : Type) := mk_button {
  bt_cb : option C; bt_last_debounced : bool; bt_last_change_ms : Z; bt_debounce_ms : Z; bt_closed : bool
}.
Arguments mk_button {C}. Arguments bt_cb {C}. Arguments bt_last_debounced {C}. Arguments bt_last_change_ms {C}.
Arguments bt_debounce_ms {C}. Arguments bt_closed {C}.

Section Button.
Context {C : Type}.
(** A handle is NULL or a button; a closed one is freed. *)
Definition valid (h : option (button C)) : bool := match h with Some b => negb (bt_closed b) | None => false end.

(** [drv]: the driver's debounce time, if there is a driver. *)
Definition bb_button_handle_create (drv : option Z) (out_ok calloc_ok : bool) : bb_err * option (button C) :=
  match drv with
  | Some ms =>
      if negb out_ok then (BB_ERR_INVALID_ARG, None) else
      if negb calloc_ok then (BB_ERR_NO_SPACE, None) else
      (BB_OK, Some (mk_button None false 0 (if ms =? 0 then BB_BUTTON_DEBOUNCE_MS_DEFAULT else ms) false))
  | None => (BB_ERR_INVALID_ARG, None)
  end.

(** The code, the button, and the call of the callback, if there is one. *)
Definition bb_button_dispatch_raw (h : option (button C)) (raw_pressed : bool) (now_ms : Z)
  : bb_err * option (button C) * option (C * button_event) :=
  match h with
  | Some b =>
      if bt_closed b then (BB_ERR_INVALID_STATE, h, None) else
      if u32 (now_ms - bt_last_change_ms b) <? bt_debounce_ms b then (BB_OK, h, None) else
      if Bool.eqb raw_pressed (bt_last_debounced b)
      then (BB_OK, Some (mk_button (bt_cb b) (bt_last_debounced b) now_ms (bt_debounce_ms b) false), None)
      else (BB_OK, Some (mk_button (bt_cb b) raw_pressed now_ms (bt_debounce_ms b) false),
            option_map (fun c => (c, mk_bevent (if raw_pressed then BB_BTN_PRESSED else BB_BTN_RELEASED) now_ms)) (bt_cb b))
  | None => (BB_ERR_INVALID_STATE, None, None)
  end.

Definition bb_button_set_callback (h : option (button C)) (cb : option C) : bb_err * option (button C) :=
  match h with
  | Some b =>
      if bt_closed b then (BB_ERR_INVALID_STATE, h) else
      (BB_OK, Some (mk_button cb (bt_last_debounced b) (bt_last_change_ms b) (bt_debounce_ms b) false))
  | None => (BB_ERR_INVALID_STATE, None)
  end.
(** [poll_rc], [close_rc]: what the driver answers ([None]: it has no close). *)
Definition bb_button_poll (h : option (button C)) (poll_rc : bb_err) : bb_err := if valid h then poll_rc else BB_ERR_INVALID_STATE.
Definition bb_button_is_pressed (h : option (button C)) : bool :=
  match h with Some b => if bt_closed b then false else bt_last_debounced b | None => false end.
Definition bb_button_close (h : option (button C)) (close_rc : option bb_err) : bb_err * option (button C) :=
  match h with
  | Some b => if bt_closed b then (BB_OK, h) else (default BB_OK close_rc, None)
  | None => (BB_ERR_INVALID_STATE, None)
  end.
End Button.

(** * bb_button_events: gestures *)

Inductive gesture_kind : Set :=
  | BB_BTN_EVT_CLICK | BB_BTN_EVT_DOUBLE_CLICK | BB_BTN_EVT_LONG_PRESS_START | BB_BTN_EVT_LONG_PRESS_END | BB_BTN_EVT_REPEAT.
#[export] Instance gesture_kind_eq_dec : EqDecision gesture_kind.
Proof. solve_decision. Defined.
Record gesture := mk_gesture { ge_kind : gesture_kind; ge_timestamp_ms : Z; ge_held_ms : Z }.
Inductive btn_evt_state : Set := S_IDLE | S_PRESSED_PENDING | S_WAIT_DOUBLE | S_LONG_HELD.

Definition BB_BUTTON_EVENTS_CLICK_MAX_MS_DEFAULT : Z := 400.
Definition BB_BUTTON_EVENTS_DOUBLE_CLICK_MS_DEFAULT : Z := 400.
Definition BB_BUTTON_EVENTS_LONG_PRESS_MS_DEFAULT : Z := 800.
Definition BB_BUTTON_EVENTS_REPEAT_MS_DEFAULT : Z := 100.
Definition BB_BUTTON_EVENTS_TICK_MS_DEFAULT : Z := 20.

Record button_events_cfg := mk_becfg {
  bc_button : bool; bc_click_max_ms : Z; bc_double_click_window_ms : Z; bc_long_press_ms : Z; bc_repeat_interval_ms : Z;
  bc_tick_period_ms : Z; bc_auto_start_timer : bool; bc_cb : bool
}.
Record button_events := mk_bevents {
  ev_cb : bool; ev_click_max_ms : Z; ev_double_click_window_ms : Z; ev_long_press_ms : Z; ev_repeat_interval_ms : Z; ev_tick_period_ms : Z;
  ev_state : btn_evt_state; ev_press_ms : Z; ev_release_ms : Z; ev_last_repeat_ms : Z; ev_last_tick_ms : Z; ev_timer : bool
}.
Definition set_state (s : btn_evt_state) (h : button_events) : button_events :=
  mk_bevents (ev_cb h) (ev_click_max_ms h) (ev_double_click_window_ms h) (ev_long_press_ms h) (ev_repeat_interval_ms h) (ev_tick_period_ms h)
    s (ev_press_ms h) (ev_release_ms h) (ev_last_repeat_ms h) (ev_last_tick_ms h) (ev_timer h).
Definition set_press (t : Z) (h : button_events) : button_events :=
  mk_bevents (ev_cb h) (ev_click_max_ms h) (ev_double_click_window_ms h) (ev_long_press_ms h) (ev_repeat_interval_ms h) (ev_tick_period_ms h)
    (ev_state h) t (ev_release_ms h) (ev_last_repeat_ms h) (ev_last_tick_ms h) (ev_timer h).
Definition set_release (t : Z) (h : button_events) : button_events :=
  mk_bevents (ev_cb h) (ev_click_max_ms h) (ev_double_click_window_ms h) (ev_long_press_ms h) (ev_repeat_interval_ms h) (ev_tick_period_ms h)
    (ev_state h) (ev_press_ms h) t (ev_last_repeat_ms h) (ev_last_tick_ms h) (ev_timer h).
Definition set_repeat (t : Z) (h : button_events) : button_events :=
  mk_bevents (ev_cb h) (ev_click_max_ms h) (ev_double_click_window_ms h) (ev_long_press_ms h) (ev_repeat_interval_ms h) (ev_tick_period_ms h)
    (ev_state h) (ev_press_ms h) (ev_release_ms h) t (ev_last_tick_ms h) (ev_timer h).
Definition set_tick (t : Z) (h : button_events) : button_events :=
  mk_bevents (ev_cb h) (ev_click_max_ms h) (ev_double_click_window_ms h) (ev_long_press_ms h) (ev_repeat_interval_ms h) (ev_tick_period_ms h)
    (ev_state h) (ev_press_ms h) (ev_release_ms h) (ev_last_repeat_ms h) t (ev_timer h).

(** The calls of the user's callback a step makes. *)
Definition emit (h : button_events) (kind : gesture_kind) (timestamp_ms held_ms : Z) : list gesture :=
  if ev_cb h then [mk_gesture kind timestamp_ms held_ms] else [].

(** [now]: the clock as the step reads it. *)
Definition do_step (now : Z) (h : button_events) : list gesture * button_events :=
  let '(out, h) :=
    match ev_state h with
    | S_IDLE => ([], h)
    | S_PRESSED_PENDING =>
        if ev_long_press_ms h <=? u32 (now - ev_press_ms h)
        then (emit h BB_BTN_EVT_LONG_PRESS_START now 0, set_state S_LONG_HELD (set_repeat now h))
        else ([], h)
    | S_WAIT_DOUBLE =>
        if ev_double_click_window_ms h <? u32 (now - ev_release_ms h)
        then (emit h BB_BTN_EVT_CLICK now 0, set_state S_IDLE h)
        else ([], h)
    | S_LONG_HELD =>
        if ev_repeat_interval_ms h <=? u32 (now - ev_last_repeat_ms h)
        then (emit h BB_BTN_EVT_REPEAT now (u32 (now - ev_press_ms h)), set_repeat now h)
        else ([], h)
    end in
  (out, set_tick now h).

Definition btn_raw_cb (e : button_event) (h : button_events) : list gesture * button_events :=
  let ts := be_timestamp_ms e in
  match be_kind e with
  | BB_BTN_PRESSED =>
      match ev_state h with
      | S_IDLE => ([], set_state S_PRESSED_PENDING (set_press ts h))
      | S_WAIT_DOUBLE =>
          (if u32 (ts - ev_release_ms h) <=? ev_double_click_window_ms h then emit h BB_BTN_EVT_DOUBLE_CLICK ts 0 else [],
           set_state S_IDLE h)
      | _ => ([], h)
      end
  | BB_BTN_RELEASED =>
      match ev_state h with
      | S_PRESSED_PENDING =>
          if u32 (ts - ev_press_ms h) <=? ev_click_max_ms h
          then ([], set_state S_WAIT_DOUBLE (set_release ts h))
          else ([], set_state S_IDLE h)
      | S_LONG_HELD => (emit h BB_BTN_EVT_LONG_PRESS_END ts (u32 (ts - ev_press_ms h)), set_state S_IDLE h)
      | _ => ([], h)
      end
  end.

Definition or_default (v d : Z) : Z := if v =? 0 then d else v.
(** [timer_rc]: what creating and starting the timer answer; a handle that is
    not handed out is freed, a timer that was created is deleted.  The button
    gets the callback. *)
Definition bb_button_events_attach (cfg : option button_events_cfg) (out_ok calloc_ok : bool) (now : Z) (timer_rc : bb_err * bb_err)
    (b : option (button unit)) : bb_err * option button_events * option (button unit) :=
  match cfg with
  | Some cfg =>
      if negb out_ok || negb (bc_button cfg) then (BB_ERR_INVALID_ARG, None, b) else
      if negb calloc_ok then (BB_ERR_NO_SPACE, None, b) else
      let h := mk_bevents (bc_cb cfg) (or_default (bc_click_max_ms cfg) BB_BUTTON_EVENTS_CLICK_MAX_MS_DEFAULT)
        (or_default (bc_double_click_window_ms cfg) BB_BUTTON_EVENTS_DOUBLE_CLICK_MS_DEFAULT)
        (or_default (bc_long_press_ms cfg) BB_BUTTON_EVENTS_LONG_PRESS_MS_DEFAULT)
        (or_default (bc_repeat_interval_ms cfg) BB_BUTTON_EVENTS_REPEAT_MS_DEFAULT)
        (or_default (bc_tick_period_ms cfg) BB_BUTTON_EVENTS_TICK_MS_DEFAULT) S_IDLE 0 0 0 now (bc_auto_start_timer cfg) in
      if bc_auto_start_timer cfg && (negb (is_ok timer_rc.1) || negb (is_ok timer_rc.2)) then (BB_ERR_INVALID_STATE, None, b) else
      (BB_OK, Some h, (bb_button_set_callback b (Some tt)).2)
  | None => (BB_ERR_INVALID_ARG, None, b)
  end.
(** The clock is read for the comparison, and again by the step. *)
Definition bb_button_events_tick (h : option button_events) (now now' : Z) : bb_err * list gesture * option button_events :=
  match h with
  | Some h =>
      if u32 (now - ev_last_tick_ms h) <? ev_tick_period_ms h then (BB_OK, [], Some h) else
      let '(out, h) := do_step now' h in (BB_OK, out, Some h)
  | None => (BB_ERR_INVALID_ARG, [], None)
  end.
Definition bb_button_events_detach (h : option button_events) (b : option (button unit))
  : bb_err * option button_events * option (button unit) :=
  match h with
  | Some _ => (BB_OK, None, (bb_button_set_callback b None).2)
  | None => (BB_ERR_INVALID_ARG, None, b)
  end.

(** * A button with its gestures *)

(** What can happen: an edge of the pin, a tick of the loop, the timer. *)
Inductive button_op : Type :=
  | OpEdge (raw_pressed : bool) (now : Z) | OpTick (now now' : Z) | OpTimer (now : Z).
Definition button_sys : Type := button unit * button_events.
(** The debounced event of the step, the gestures it made, and the state. *)
Definition button_step (op : button_op) (s : button_sys) : option button_event * list gesture * button_sys :=
  let '(b, h) := s in
  match op with
  | OpEdge raw now =>
      match bb_button_dispatch_raw (Some b) raw now with
      | (_, Some b', Some (_, e)) => let '(out, h) := btn_raw_cb e h in (Some e, out, (b', h))
      | (_, Some b', None) => (None, [], (b', h))
      | (_, None, _) => (None, [], s)
      end
  | OpTick now now' =>
      match bb_button_events_tick (Some h) now now' with
      | (_, out, Some h) => (None, out, (b, h))
      | (_, out, None) => (None, out, s)
      end
  | OpTimer now => let '(out, h) := do_step now h in (None, out, (b, h))
  end.

(** The history: debounced events and gestures, newest first. *)
Inductive moment : Type := MEdge (e : button_event) | MGesture (g : gesture).
Definition add_moments (e : option button_event) (out : list gesture) (past : list moment) : list moment :=
  rev_append (MGesture <$> out) (match e with Some e => MEdge e :: past | None => past end).
Fixpoint button_run (ops : list button_op) (s : button_sys) (past : list moment) : button_sys * list moment :=
  match ops with
  | [] => (s, past)
  | op :: ops => let '(e, out, s) := button_step op s in button_run ops s (add_moments e out past)
  end.

(** ** When a gesture is right, from what came before it *)

Definition edges_of (past : list moment) : list button_event :=
  omap (fun m => match m with MEdge e => Some e | MGesture _ => None end) past.
Fixpoint held_gesture (past : list moment) : bool :=
  match past with
  | [] => false
  | MEdge _ :: past => held_gesture past
  | MGesture g :: past =>
      match ge_kind g with BB_BTN_EVT_LONG_PRESS_START => true | BB_BTN_EVT_REPEAT => held_gesture past | _ => false end
  end.
(** The newest moment is an edge: no gesture was made of it yet. *)
Definition fresh (past : list moment) : bool := match past with MEdge _ :: _ => true | _ => false end.
Definition right_gesture (cfg : button_events) (g : gesture) (past : list moment) : Prop :=
  let t := ge_timestamp_ms g in
  fresh past = negb (bool_decide (ge_kind g = BB_BTN_EVT_REPEAT)) /\
  match ge_kind g, edges_of past with
  | BB_BTN_EVT_CLICK, r :: p :: _ =>
      be_kind r = BB_BTN_RELEASED /\ be_kind p = BB_BTN_PRESSED /\
      u32 (be_timestamp_ms r - be_timestamp_ms p) <= ev_click_max_ms cfg /\
      ev_double_click_window_ms cfg < u32 (t - be_timestamp_ms r) /\ held_gesture past = false
  | BB_BTN_EVT_DOUBLE_CLICK, p2 :: r :: p :: _ =>
      be_kind p2 = BB_BTN_PRESSED /\ be_kind r = BB_BTN_RELEASED /\ be_kind p = BB_BTN_PRESSED /\ t = be_timestamp_ms p2 /\
      u32 (be_timestamp_ms r - be_timestamp_ms p) <= ev_click_max_ms cfg /\
      u32 (t - be_timestamp_ms r) <= ev_double_click_window_ms cfg /\ held_gesture past = false
  | BB_BTN_EVT_LONG_PRESS_START, p :: _ =>
      be_kind p = BB_BTN_PRESSED /\ ev_long_press_ms cfg <= u32 (t - be_timestamp_ms p) /\ held_gesture past = false
  | BB_BTN_EVT_REPEAT, p :: _ =>
      be_kind p = BB_BTN_PRESSED /\ ge_held_ms g = u32 (t - be_timestamp_ms p) /\ held_gesture past = true
  | BB_BTN_EVT_LONG_PRESS_END, r :: p :: _ =>
      be_kind r = BB_BTN_RELEASED /\ be_kind p = BB_BTN_PRESSED /\ t = be_timestamp_ms r /\
      ge_held_ms g = u32 (t - be_timestamp_ms p) /\ held_gesture past = true
  | _, _ => False
  end.
(** Every moment of a history: debounced events alternate, the first is a
    press, and every gesture is right for what came before it. *)
Fixpoint all_right (cfg : button_events) (past : list moment) : Prop :=
  match past with
  | [] => True
  | MEdge e :: past =>
      all_right cfg past /\
      match edges_of past with
      | e' :: _ => be_kind e' <> be_kind e
      | [] => be_kind e = BB_BTN_PRESSED
      end
  | MGesture g :: past => all_right cfg past /\ right_gesture cfg g past
  end.

Section Gestures.
Context (cfg : button_events) (Hcb : ev_cb cfg = true).

Definition same_cfg (h : button_events) : Prop :=
  ev_cb h = true /\ ev_click_max_ms h = ev_click_max_ms cfg /\ ev_double_click_window_ms h = ev_double_click_window_ms cfg /\
  ev_long_press_ms h = ev_long_press_ms cfg.
(** What the state of the recogniser says of the history. *)
Definition state_says (h : button_events) (past : list moment) : Prop :=
  match ev_state h with
  | S_IDLE => held_gesture past = false
  | S_PRESSED_PENDING => held_gesture past = false /\ exists past', past = MEdge (mk_bevent BB_BTN_PRESSED (ev_press_ms h)) :: past'
  | S_WAIT_DOUBLE =>
      held_gesture past = false /\ exists t past', u32 (ev_release_ms h - t) <= ev_click_max_ms cfg /\
      past = MEdge (mk_bevent BB_BTN_RELEASED (ev_release_ms h)) :: MEdge (mk_bevent BB_BTN_PRESSED t) :: past'
  | S_LONG_HELD =>
      held_gesture past = true /\ fresh past = false /\ exists es, edges_of past = mk_bevent BB_BTN_PRESSED (ev_press_ms h) :: es
  end.
Record button_inv (s : button_sys) (past : list moment) : Prop := {
  bi_button : bt_cb s.1 = Some tt /\ bt_closed s.1 = false;
  bi_level : bt_last_debounced s.1 = match edges_of past with e :: _ => bool_decide (be_kind e = BB_BTN_PRESSED) | [] => false end;
  bi_cfg : same_cfg s.2;
  bi_state : state_says s.2 past;
  bi_right : all_right cfg past
}.

(** A turn of the clock. *)
Lemma do_step_inv now b h past : button_inv (b, h) past ->
  let '(out, h') := do_step now h in button_inv (b, h') (add_moments None out past).
Proof.
  intros [Hb Hl Hc Hs Hr]. cbn [fst snd] in *. pose proof Hc as (Hcb' & Hk & Hw & Hp). unfold do_step, state_says in *.
  destruct (ev_state h) eqn:Es.
  - by split; cbn; [..|unfold state_says; cbn; rewrite Es|].
  - destruct Hs as (Hh & past' & ->). destruct (Z.leb_spec (ev_long_press_ms h) (u32 (now - ev_press_ms h))) as [Ht|Ht].
    + unfold emit. rewrite Hcb'. split; [done|done|done| |].
      * cbn. split_and!; try done. by eexists.
      * cbn. split; [done|]. split; [done|]. cbn. split_and!; try done. by rewrite <- Hp.
    + split; [done|done|done| |done]. unfold state_says; cbn. rewrite Es. split; [done|by eexists].
  - destruct Hs as (Hh & t & past' & Hcl & ->). destruct (Z.ltb_spec (ev_double_click_window_ms h) (u32 (now - ev_release_ms h))) as [Ht|Ht].
    + unfold emit. rewrite Hcb'. split; [done|done|done|done|]. cbn. cbn in Hr. split; [done|]. split; [done|]. cbn. split_and!; try done. by rewrite <- Hw.
    + split; [done|done|done| |done]. unfold state_says; cbn. rewrite Es. split; [done|by eexists _, _].
  - destruct Hs as (Hh & Hf & es & He). destruct (Z.leb_spec (ev_repeat_interval_ms h) (u32 (now - ev_last_repeat_ms h))) as [Ht|Ht].
    + unfold emit. rewrite Hcb'. split; [done|done|done| |].
      * unfold state_says; cbn. rewrite Es. split_and!; [done|done|by eexists].
      * cbn. split; [done|]. unfold right_gesture. cbn. split; [done|]. rewrite He. by split_and!.
    + split; [done|done|done| |done]. unfold state_says; cbn. rewrite Es. split_and!; [done|done|by eexists].
Qed.

(** A debounced event, which is of the other kind than the one before it. *)
Definition alternates (e : button_event) (past : list moment) : Prop :=
  match edges_of past with e' :: _ => be_kind e' <> be_kind e | [] => be_kind e = BB_BTN_PRESSED end.
Lemma raw_cb_inv e b b' h past : button_inv (b, h) past -> alternates e past ->
  bt_cb b' = Some tt -> bt_closed b' = false -> bt_last_debounced b' = bool_decide (be_kind e = BB_BTN_PRESSED) ->
  let '(out, h') := btn_raw_cb e h in button_inv (b', h') (add_moments (Some e) out past).
Proof.
  intros [Hb Hl Hc Hs Hr] Ha H1 H2 H3. cbn [fst snd] in *. pose proof Hc as (Hcb' & Hk & Hw & Hp).
  destruct e as [kind ts]. unfold btn_raw_cb. cbn [be_kind be_timestamp_ms] in *. unfold state_says in Hs.
  destruct kind, (ev_state h) eqn:Es.
  - split; [done|done|done| |by cbn]. cbn. split; [done|by eexists].
  - destruct Hs as (Hh & past' & ->). by cbn in Ha.
  - destruct Hs as (Hh & t & past' & Hcl & ->). cbn [add_moments].
    destruct (Z.leb_spec (u32 (ts - ev_release_ms h)) (ev_double_click_window_ms h)) as [Ht|Ht].
    + unfold emit. rewrite Hcb'. split; [done|done|done|done|]. cbn in Hr |- *. split; [done|]. split; [done|]. cbn. split_and!; try done.
      by rewrite <- Hw.
    + split; [done|done|done|done|by cbn].
  - destruct Hs as (Hh & Hf & es & He). unfold alternates in Ha. rewrite He in Ha. by cbn in Ha.
  - split; [done|done|done| |by cbn]. cbn. unfold state_says. by rewrite Es.
  - destruct Hs as (Hh & past' & ->). destruct (Z.leb_spec (u32 (ts - ev_press_ms h)) (ev_click_max_ms h)) as [Ht|Ht].
    + split; [done|done|done| |by cbn]. cbn. split; [done|]. rewrite <- Hk. by eexists _, _.
    + split; [done|done|done|done|by cbn].
  - destruct Hs as (Hh & t & past' & Hcl & ->). by cbn in Ha.
  - destruct Hs as (Hh & Hf & es & He). unfold emit. rewrite Hcb'. split; [done|done|done|done|].
    cbn. unfold alternates in Ha. split; [done|]. unfold right_gesture. cbn. split; [done|]. change (omap _ past) with (edges_of past). rewrite He. cbn. by split_and!.
Qed.

Lemma button_step_inv op s past : button_inv s past ->
  let '(e, out, s') := button_step op s in button_inv s' (add_moments e out past).
Proof.
  destruct s as [b h]. intros Hi. pose proof Hi as [Hb Hl Hc Hs Hr]. cbn [fst snd] in *. destruct Hb as [Hb1 Hb2].
  destruct op as [raw now|now now'|now]; cbn [button_step].
  - unfold bb_button_dispatch_raw. rewrite Hb2, Hb1. destruct (_ <? _); [by split|]. destruct (Bool.eqb raw (bt_last_debounced b)) eqn:Ee.
    + by split.
    + cbn [option_map]. apply eqb_false_iff in Ee.
      pose proof (raw_cb_inv (mk_bevent (if raw then BB_BTN_PRESSED else BB_BTN_RELEASED) now) b
        (mk_button (bt_cb b) raw now (bt_debounce_ms b) false) h past Hi) as H.
      destruct (btn_raw_cb _ h) as [out h']. rewrite <- Hb1. apply H; [|done|done|by destruct raw].
      unfold alternates. rewrite Hl in Ee. destruct (edges_of past) as [|e' es]; cbn [be_kind]; [by destruct raw|].
      intros E. rewrite E in Ee. by destruct raw.
  - unfold bb_button_events_tick. destruct (_ <? _); [by split|]. pose proof (do_step_inv now' b h past Hi) as H.
    by destruct (do_step now' h).
  - pose proof (do_step_inv now b h past Hi) as H. by destruct (do_step now h).
Qed.
Lemma button_run_inv ops : forall s past, button_inv s past ->
  button_inv (button_run ops s past).1 (button_run ops s past).2.
Proof.
  induction ops as [|op ops IH]; intros s past Hi; [done|]. cbn [button_run].
  pose proof (button_step_inv op s past Hi) as H. destruct (button_step op s) as [[e out] s']. by apply IH.
Qed.
End Gestures.

(** ** A click comes *)

Definition timers (ts : list Z) : list button_op := OpTimer <$> ts.
Lemma button_run_app ops ops' s past :
  button_run (ops ++ ops') s past = let '(s, past) := button_run ops s past in button_run ops' s past.
Proof.
  revert s past; induction ops as [|op ops IH]; intros s past; [done|]. cbn [app button_run].
  destruct (button_step op s) as [[e out] s']. apply IH.
Qed.
(** Steps that find nothing to do. *)
Definition idles (h : button_events) (t : Z) : Prop := do_step t h = ([], set_tick t h).
Lemma do_step_tick x t h : do_step x (set_tick t h) = do_step x h.
Proof. destruct h as [? ? ? ? ? ? st ? ? ? ? ?], st; unfold do_step; cbn; [done|by destruct (_ <=? _)|by destruct (_ <? _)|by destruct (_ <=? _)]. Qed.
Lemma waiting_steps ts b : forall h past, Forall (idles h) ts ->
  exists t', button_run (timers ts) (b, h) past = ((b, set_tick t' h), past).
Proof.
  induction ts as [|t ts IH]; intros h past H; [exists (ev_last_tick_ms h); by destruct h|].
  inversion_clear H as [|?? E Hts]. cbn [timers fmap list_fmap button_run button_step]. rewrite E.
  destruct (IH (set_tick t h) past) as [t' Ht'].
  { eapply Forall_impl; [exact Hts|]. intros x Hx. unfold idles in *. by rewrite do_step_tick, Hx. }
  exists t'. unfold timers in Ht'. cbn [add_moments fmap list_fmap rev_append]. rewrite Ht'. by destruct h.
Qed.

(** A press and a release that are far enough apart for the dispatcher and
    close enough for a click, with the timer running and no other edge until
    the window is over, make a click and nothing else. *)
Theorem click_comes b h past p r ts1 ts2 t :
  bt_cb b = Some tt -> bt_closed b = false -> bt_last_debounced b = false -> ev_cb h = true -> ev_state h = S_IDLE ->
  bt_debounce_ms b <= u32 (p - bt_last_change_ms b) -> bt_debounce_ms b <= u32 (r - p) ->
  u32 (r - p) <= ev_click_max_ms h -> Forall (fun x => u32 (x - p) < ev_long_press_ms h) ts1 ->
  Forall (fun x => u32 (x - r) <= ev_double_click_window_ms h) ts2 -> ev_double_click_window_ms h < u32 (t - r) ->
  (button_run ([OpEdge true p] ++ timers ts1 ++ [OpEdge false r] ++ timers ts2 ++ [OpTimer t]) (b, h) past).2 =
  MGesture (mk_gesture BB_BTN_EVT_CLICK t 0) :: MEdge (mk_bevent BB_BTN_RELEASED r) :: MEdge (mk_bevent BB_BTN_PRESSED p) :: past.
Proof.
  intros Hb1 Hb2 Hb3 Hcb Hs Hd1 Hd2 Hc H1 H2 Ht. destruct b as [cb deb lc dms cl], h as [ecb km wm lm rm tm st pm rm' rp tk tim].
  cbn in *. subst cb cl deb ecb st. rewrite (proj2 (Z.ltb_ge _ _)) by lia. cbn.
  rewrite button_run_app. match goal with |- context [button_run (timers ts1) (?b, ?h) ?q] => destruct (waiting_steps ts1 b h q) as [t1 ->] end.
  { eapply Forall_impl; [exact H1|]. intros x Hx. cbn in Hx. unfold idles, do_step. cbn. by rewrite (proj2 (Z.leb_gt _ _)) by lia. }
  cbn. rewrite (proj2 (Z.ltb_ge _ _)) by lia. cbn. rewrite (proj2 (Z.leb_le _ _)) by lia. cbn.
  rewrite button_run_app. match goal with |- context [button_run (timers ts2) (?b, ?h) ?q] => destruct (waiting_steps ts2 b h q) as [t2 ->] end.
  { eapply Forall_impl; [exact H2|]. intros x Hx. cbn in Hx. unfold idles, do_step. cbn. by rewrite (proj2 (Z.ltb_ge _ _)) by lia. }
  cbn. unfold do_step. cbn. by rewrite (proj2 (Z.ltb_lt _ _)) by lia.
Qed.

(** A press that comes after the window is over but before a step has noticed
    drops the click that waited, and is itself not seen as a press. *)
Definition wit_btn_cfg : button_events_cfg := mk_becfg true 0 0 0 0 0 false true.
Definition wit_button : button unit := mk_button None false 0 BB_BUTTON_DEBOUNCE_MS_DEFAULT false.
Definition wit_sys : button_sys :=
  match bb_button_events_attach (Some wit_btn_cfg) true true 0 (BB_OK, BB_OK) (Some wit_button) with
  | (_, Some h, Some b) => (b, h)
  | _ => (wit_button, mk_bevents false 0 0 0 0 0 S_IDLE 0 0 0 0 false)
  end.
Definition gestures_of (past : list moment) : list (gesture_kind * Z) :=
  rev (omap (fun m => match m with MGesture g => Some (ge_kind g, ge_timestamp_ms g) | _ => None end) past).
Example late_press_loses_click :
  gestures_of (button_run ([OpEdge true 1000; OpEdge false 1100; OpEdge true 1501; OpTimer 1510; OpEdge false 1600] ++
    timers [1700; 2100; 2500]) wit_sys []).2 = [].
Proof. vm_compute. reflexivity. Qed.
(** A step that read the clock before the edge it then finds starts a long press
    at once. *)
Example early_clock_starts_long_press :
  gestures_of (button_run [OpEdge true 1000; OpTimer 999] wit_sys []).2 = [(BB_BTN_EVT_LONG_PRESS_START, 999)].
Proof. vm_compute. reflexivity. Qed.

(** * Properties *)

