(* ===== verification/Cache.v ===== *)
(** The keyed cache: platform/espidf/bb_cache/bb_cache_espidf.c (which the host
    build includes as it is) and components/bb_cache/src/bb_cache_evaluate.c.
    The state is the table of slots; each call is composed of the sections that
    run under one lock, which CacheThreads interleaves. *)
From Stdlib Require Import Strings.String.
From S2P Require Import Prelude Bytes Queue.

(** * State *)

Inductive entry_state : Set := BB_CACHE_ENTRY_FRESH | BB_CACHE_ENTRY_STALE | BB_CACHE_ENTRY_EVICT.
#[export] Instance entry_state_eq_dec : EqDecision entry_state.
Proof. solve_decision. Defined.
Definition bb_cache_evaluate_age (age_ms stale_age_ms evict_age_ms : Z) : entry_state :=
  match bb_age_classify age_ms stale_age_ms evict_age_ms with
  | BB_AGE_EVICT => BB_CACHE_ENTRY_EVICT
  | BB_AGE_STALE => BB_CACHE_ENTRY_STALE
  | BB_AGE_FRESH => BB_CACHE_ENTRY_FRESH
  end.

Inductive evict_policy : Set := BB_CACHE_EVICT_PINNED | BB_CACHE_EVICT_AGE_OUT.
Record eviction := mk_eviction { ev_policy : evict_policy; ev_stale_age : Z; ev_evict_age : Z }.

(** What a slot holds for its key.  [cd_snapshot]: the address of the getter, 0
    for NULL; [cd_owned]: [None] for NULL. *)
Record cache_data := mk_cd {
  cd_snapshot : Z; cd_owned : option (list byte); cd_size : nat; cd_has_value : bool; cd_seeded : bool;
  cd_flags : Z; cd_ts : Z; cd_eviction : eviction; cd_version : Z
}.
(** [bb_cache_entry_t] without its mutex; a free slot has the empty key. *)
Record cache_entry := mk_ce { ce_key : list byte; ce_gen : Z; ce_data : cache_data }.
Definition no_data : cache_data := mk_cd 0 None 0 false false 0 0 (mk_eviction BB_CACHE_EVICT_PINNED 0 0) 0.
Definition no_entry : cache_entry := mk_ce [] 0 no_data.
(** The table of a fresh image with [n] slots. *)
Definition cache0 (n : nat) : list cache_entry := repeat no_entry n.

(** [bb_cache_config_t] without its out parameter. *)
Record cache_cfg := mk_ccfg { cc_key : option (list byte); cc_snapshot : Z; cc_size : nat; cc_flags : Z; cc_eviction : eviction }.

(** * The sections *)

Definition live (e : cache_entry) : bool := match ce_key e with [] => false | _ => true end.
Fixpoint find_from (p : cache_entry -> bool) (es : list cache_entry) (i : nat) : option nat :=
  match es with [] => None | e :: es => if p e then Some i else find_from p es (S i) end.
Definition has_key (key : list byte) (e : cache_entry) : bool := live e && bool_decide (ce_key e = key).
Definition find_entry (key : list byte) (es : list cache_entry) : option nat := find_from (has_key key) es 0.
Definition free_slot (es : list cache_entry) : option nat := find_from (fun e => negb (live e)) es 0.

(** A slot and the generation it had. *)
Definition find_entry_locked_ref (key : list byte) (es : list cache_entry) : option (nat * Z) :=
  match find_entry key es with Some i => match es !! i with Some e => Some (i, ce_gen e) | None => None end | None => None end.
Definition entry_matches_locked (key : list byte) (gen : Z) (e : cache_entry) : bool :=
  live e && (ce_gen e =? gen) && bool_decide (ce_key e = key).

Definition set_data (d : cache_data) (e : cache_entry) : cache_entry := mk_ce (ce_key e) (ce_gen e) d.
Definition bump_gen (e : cache_entry) : cache_entry := mk_ce (ce_key e) (u32 (ce_gen e + 1)) (ce_data e).
Definition set_key (key : list byte) (e : cache_entry) : cache_entry := mk_ce key (ce_gen e) (ce_data e).
Definition free_entry_locked (d : cache_data) : cache_data :=
  mk_cd (cd_snapshot d) None (cd_size d) false false (cd_flags d) (cd_ts d) (cd_eviction d) 0.
(** teardown_found_entry_locked up to the release of the entry's lock; the key
    is cleared after it. *)
Definition teardown (e : cache_entry) : cache_entry := bump_gen (set_data (free_entry_locked (ce_data e)) e).
Definition teardown_found_entry_locked (e : cache_entry) : cache_entry := set_key [] (teardown e).

(** [snap]: what the getter answers, [None] for NULL. *)
Definition maybe_seed_fallback (now : Z) (snap : option (list byte)) (d : cache_data) : cache_data :=
  if cd_snapshot d =? 0 then d else
  if cd_has_value d || cd_seeded d then d else
  match snap with
  | Some snap => mk_cd (cd_snapshot d) (Some (take (cd_size d) snap)) (cd_size d) (cd_has_value d) true (cd_flags d) now (cd_eviction d) (cd_version d)
  | None => mk_cd (cd_snapshot d) (cd_owned d) (cd_size d) (cd_has_value d) true (cd_flags d) (cd_ts d) (cd_eviction d) (cd_version d)
  end.
Definition age_at (now : Z) (d : cache_data) : Z := u64 (now - u64 (cd_ts d)).
(** The question evict_if_aged_out_locked asks before it lets the lock go. *)
Definition aged_out (now : Z) (d : cache_data) : bool :=
  match ev_policy (cd_eviction d) with
  | BB_CACHE_EVICT_PINNED => false
  | BB_CACHE_EVICT_AGE_OUT => bool_decide (bb_cache_evaluate_age (age_at now d) (ev_stale_age (cd_eviction d)) (ev_evict_age (cd_eviction d)) = BB_CACHE_ENTRY_EVICT)
  end.
Definition is_stale (now : Z) (d : cache_data) : bool :=
  match ev_policy (cd_eviction d) with
  | BB_CACHE_EVICT_PINNED => false
  | BB_CACHE_EVICT_AGE_OUT => negb (bool_decide (bb_cache_evaluate_age (age_at now d) (ev_stale_age (cd_eviction d)) (ev_evict_age (cd_eviction d)) = BB_CACHE_ENTRY_FRESH))
  end.
(** The bytes, and the version they have. *)
Definition copy_owned_and_capture_locked (cap : nat) (now : Z) (snap : option (list byte)) (d : cache_data) : bb_err * list byte * Z * cache_data :=
  match cd_owned d with
  | None => (BB_ERR_INVALID_STATE, [], 0, d)
  | Some _ =>
      if (cap <? cd_size d)%nat then (BB_ERR_NO_SPACE, [], 0, d) else
      let d := maybe_seed_fallback now snap d in
      (BB_OK, default [] (cd_owned d), cd_version d, d)
  end.

(** The write of bb_cache_update: whether it changed anything, and the version
    the notification carries ([None]: a getter's key, no write). *)
Definition write_data (snap : list byte) (ts now : Z) (d : cache_data) : bool * option Z * cache_data :=
  match cd_owned d with
  | None => (false, None, d)
  | Some old =>
      let new := take (cd_size d) snap in
      let v := u32 (cd_version d + 1) in
      (negb (cd_has_value d) || negb (bool_decide (new = old)), Some v,
       mk_cd (cd_snapshot d) (Some new) (cd_size d) true (cd_seeded d) (cd_flags d) (if ts =? 0 then now else ts) (cd_eviction d) v)
  end.

(** What bb_cache_register checks before it takes the lock. *)
Definition cfg_check (key_max : nat) (cfg : option cache_cfg) : option (list byte * cache_cfg) :=
  match cfg with
  | None => None
  | Some cfg =>
      match cc_key cfg with
      | None => None
      | Some key =>
          if (key_max <=? length key)%nat then None else
          match ev_policy (cc_eviction cfg) with
          | BB_CACHE_EVICT_PINNED => Some (key, cfg)
          | BB_CACHE_EVICT_AGE_OUT =>
              if ev_evict_age (cc_eviction cfg) =? 0 then None else
              if ev_evict_age (cc_eviction cfg) <=? ev_stale_age (cc_eviction cfg) then None else
              if negb (cc_snapshot cfg =? 0) then None else Some (key, cfg)
          end
      end
  end.
Definition cfg_data (cfg : cache_cfg) : cache_data :=
  mk_cd (cc_snapshot cfg) (if (0 <? cc_size cfg)%nat then Some (repeat x00 (cc_size cfg)) else None) (cc_size cfg) false false
    (cc_flags cfg) 0 (cc_eviction cfg) 0.
(** The locked part of bb_cache_register: an answer (with whether the key is
    new), or the slot to fill.  [alloc]: whether the allocation succeeds. *)
Definition register_locked (key : list byte) (cfg : cache_cfg) (alloc : bool) (es : list cache_entry) : bb_err + nat :=
  match find_entry key es with
  | Some _ => inl BB_OK
  | None =>
      match free_slot es with
      | None => inl BB_ERR_NO_SPACE
      | Some i =>
          if (0 <? cc_size cfg)%nat then if alloc then inr i else inl BB_ERR_NO_SPACE
          else if cc_snapshot cfg =? 0 then inl BB_ERR_INVALID_ARG else inr i
      end
  end.
Definition fill_slot (key : list byte) (cfg : cache_cfg) (e : cache_entry) : cache_entry := set_data (cfg_data cfg) (set_key key e).

(** * The calls, when nothing comes between *)

Definition bb_cache_register (key_max : nat) (cfg : option cache_cfg) (alloc : bool) (es : list cache_entry) : bb_err * bool * list cache_entry :=
  match cfg_check key_max cfg with
  | None => (BB_ERR_INVALID_ARG, false, es)
  | Some (key, cfg) =>
      match register_locked key cfg alloc es with
      | inl rc => (rc, false, es)
      | inr i => (BB_OK, true, alter (fun e => fill_slot key cfg (bump_gen e)) i es)
      end
  end.
(** The caller's error, whether the value changed, and the notification. *)
Definition bb_cache_update (key : option (list byte)) (snap : option (list byte)) (ts now : Z) (es : list cache_entry) : bb_err * bool * option (list byte * Z) * list cache_entry :=
  match key, snap with
  | Some key, Some snap =>
      match find_entry_locked_ref key es with
      | None => (BB_ERR_NOT_FOUND, false, None, es)
      | Some (i, gen) =>
          match es !! i with
          | Some e =>
              if negb (entry_matches_locked key gen e) then (BB_ERR_NOT_FOUND, false, None, es) else
              let '(changed, v, d) := write_data snap ts now (ce_data e) in
              (BB_OK, changed, option_map (pair key) v, <[i := set_data d e]> es)
          | None => (BB_ERR_NOT_FOUND, false, None, es)
          end
      end
  | _, _ => (BB_ERR_INVALID_ARG, false, None, es)
  end.
(** Whether the evict hook is called. *)
Definition bb_cache_delete (key : option (list byte)) (es : list cache_entry) : bb_err * bool * list cache_entry :=
  match key with
  | None => (BB_ERR_INVALID_ARG, false, es)
  | Some key =>
      match find_entry key es with
      | None => (BB_ERR_NOT_FOUND, false, es)
      | Some i => (BB_OK, true, alter teardown_found_entry_locked i es)
      end
  end.
Definition bb_cache_delete_if_generation (key : list byte) (gen : Z) (es : list cache_entry) : bb_err * bool * list cache_entry :=
  match find_entry_locked_ref key es with
  | None => (BB_ERR_NOT_FOUND, false, es)
  | Some (i, g) => if negb (g =? gen) then (BB_OK, false, es) else (BB_OK, true, alter teardown_found_entry_locked i es)
  end.

(** A reading call on the slot at [i], its lock taken: the answer and the slot's
    data, or the eviction to carry out once the lock is let go. *)
Definition read_locked (cap : nat) (now : Z) (snap : option (list byte)) (d : cache_data) : option (bb_err * list byte * Z * cache_data) :=
  if aged_out now d then None else Some (copy_owned_and_capture_locked cap now snap d).
(** The reading calls: the error, the bytes, their version, whether the evict
    hook is called. *)
Definition read_key (key : list byte) (cap : nat) (now : Z) (snap : option (list byte)) (es : list cache_entry) : bb_err * list byte * Z * bool * list cache_entry :=
  match find_entry_locked_ref key es with
  | None => (BB_ERR_NOT_FOUND, [], 0, false, es)
  | Some (i, gen) =>
      match es !! i with
      | Some e =>
          if negb (entry_matches_locked key gen e) then (BB_ERR_NOT_FOUND, [], 0, false, es) else
          match read_locked cap now snap (ce_data e) with
          | None => let '(_, told, es) := bb_cache_delete_if_generation key gen es in (BB_ERR_NOT_FOUND, [], 0, told, es)
          | Some (rc, bytes, v, d) => (rc, bytes, v, false, <[i := set_data d e]> es)
          end
      | None => (BB_ERR_NOT_FOUND, [], 0, false, es)
      end
  end.
Definition bb_cache_get_raw (key : option (list byte)) (buf_ok : bool) (cap : nat) (now : Z) (snap : option (list byte)) (es : list cache_entry) : bb_err * list byte * bool * list cache_entry :=
  match key with
  | Some key =>
      if negb buf_ok || (cap =? 0)%nat then (BB_ERR_INVALID_ARG, [], false, es) else
      let '(rc, bytes, _, told, es) := read_key key cap now snap es in (rc, bytes, told, es)
  | None => (BB_ERR_INVALID_ARG, [], false, es)
  end.
Definition bb_cache_snapshot (key : option (list byte)) (args_ok : bool) (cap : nat) (now : Z) (snap : option (list byte)) (es : list cache_entry) : bb_err * list byte * Z * bool * list cache_entry :=
  match key with
  | Some key => if negb args_ok then (BB_ERR_INVALID_ARG, [], 0, false, es) else read_key key cap now snap es
  | None => (BB_ERR_INVALID_ARG, [], 0, false, es)
  end.
(** A question that changes nothing, put to the slot of a key. *)
Definition ask_key {A} (key : option (list byte)) (out_ok : bool) (f : cache_data -> A) (es : list cache_entry) : bb_err * option A :=
  match key with
  | Some key =>
      if negb out_ok then (BB_ERR_INVALID_ARG, None) else
      match find_entry_locked_ref key es with
      | None => (BB_ERR_NOT_FOUND, None)
      | Some (i, gen) =>
          match es !! i with
          | Some e => if negb (entry_matches_locked key gen e) then (BB_ERR_NOT_FOUND, None) else (BB_OK, Some (f (ce_data e)))
          | None => (BB_ERR_NOT_FOUND, None)
          end
      end
  | None => (BB_ERR_INVALID_ARG, None)
  end.
Definition bb_cache_state_version (key : option (list byte)) (out_ok : bool) (es : list cache_entry) : bb_err * option Z := ask_key key out_ok cd_version es.
Definition bb_cache_is_stale (key : option (list byte)) (out_ok : bool) (now : Z) (es : list cache_entry) : bb_err * option bool := ask_key key out_ok (is_stale now) es.

Definition bb_cache_exists (key : option (list byte)) (es : list cache_entry) : bool :=
  match key with Some key => match find_entry key es with Some _ => true | None => false end | None => false end.
Definition live_keys (es : list cache_entry) : list (list byte) := map ce_key (filter (fun e => live e = true) es).
Definition bb_cache_count (es : list cache_entry) : nat := length (live_keys es).
Definition bb_cache_key_at (index : nat) (buf_ok : bool) (cap : nat) (es : list cache_entry) : bb_err * list byte :=
  if negb buf_ok || (cap =? 0)%nat then (BB_ERR_INVALID_ARG, []) else
  match es !! index with
  | None => (BB_ERR_NOT_FOUND, [])
  | Some e => if (cap <? length (ce_key e) + 1)%nat then (BB_ERR_NO_SPACE, []) else (BB_OK, ce_key e)
  end.
(** The keys are copied before the first call; [cb] may change the cache. *)
Definition bb_cache_foreach {C} (cb : option (list byte -> C -> C)) (es : list cache_entry) (ctx : C) : bb_err * C :=
  match cb with None => (BB_ERR_INVALID_ARG, ctx) | Some cb => (BB_OK, fold_left (fun ctx key => cb key ctx) (live_keys es) ctx) end.

(** One key of the sweep. *)
Definition sweep_cb (now : Z) (key : list byte) (es : list cache_entry) : list cache_entry :=
  match find_entry_locked_ref key es with
  | None => es
  | Some (i, gen) =>
      match es !! i with
      | Some e =>
          if negb (entry_matches_locked key gen e) then es else
          if aged_out now (ce_data e) then (bb_cache_delete_if_generation key gen es).2 else es
      | None => es
      end
  end.
Definition sweep_work_fn (now : Z) (es : list cache_entry) : list cache_entry := (bb_cache_foreach (Some (sweep_cb now)) es es).2.

(** * Ages *)

(** A registration that was never written has the sample time 0: it is as old as
    the clock, and the first read or sweep evicts it once that is the limit. *)
Lemma registered_already_aged cfg now : ev_policy (cc_eviction cfg) = BB_CACHE_EVICT_AGE_OUT -> ev_evict_age (cc_eviction cfg) <= now < 2 ^ 64 ->
  aged_out now (cfg_data cfg) = true.
Proof.
  intros Hp Hn. unfold aged_out, age_at, bb_cache_evaluate_age, bb_age_classify. cbn [cfg_data cd_eviction cd_ts]. rewrite Hp.
  rewrite (u64_small 0), Z.sub_0_r by lia. destruct (Z.lt_ge_cases now 0); [|rewrite u64_small by lia; by rewrite (proj2 (Z.geb_le _ _)) by lia].
  unfold u64. rewrite (proj2 (Z.geb_le _ _)); [done|]. pose proof (Z.mod_pos_bound now (2 ^ 64)). lia.
Qed.
(** A sample time ahead of the clock is an age near 2^64. *)
Lemma future_sample_aged d now : ev_policy (cd_eviction d) = BB_CACHE_EVICT_AGE_OUT -> ev_evict_age (cd_eviction d) < 2 ^ 32 -> 0 <= now < cd_ts d -> cd_ts d < 2 ^ 63 ->
  aged_out now d = true.
Proof.
  intros Hp He Hn Ht. unfold aged_out, age_at, bb_cache_evaluate_age, bb_age_classify. rewrite Hp.
  replace (u64 (now - u64 (cd_ts d))) with (now - cd_ts d + 2 ^ 64).
  - by rewrite (proj2 (Z.geb_le _ _)) by lia.
  - rewrite (u64_small (cd_ts d)) by lia. unfold u64. rewrite <- (Z.mod_add _ 1) by lia. symmetry. apply Z.mod_small. lia.
Qed.
(** A key without a stale window is reported stale once it could be evicted. *)
Lemma stale_without_window d now : ev_policy (cd_eviction d) = BB_CACHE_EVICT_AGE_OUT -> ev_stale_age (cd_eviction d) = 0 -> is_stale now d = aged_out now d.
Proof.
  intros Hp Hs. unfold is_stale, aged_out, bb_cache_evaluate_age, bb_age_classify. rewrite Hp, Hs. cbn [Z.eqb orb].
  by destruct (age_at now d >=? ev_evict_age (cd_eviction d)).
Qed.

(** * Alone *)

Lemma found_again key es i gen e e' : find_entry_locked_ref key es = Some (i, gen) -> es !! i = Some e -> ce_key e' = ce_key e -> ce_gen e' = ce_gen e ->
  find_entry_locked_ref key (<[i := e']> es) = Some (i, gen) /\ entry_matches_locked key gen e = true.
Proof.
  unfold find_entry_locked_ref, find_entry. intros H Hi Hk Hg.
  assert (Hf : forall l k j, find_from (has_key key) l k = Some j -> exists m x, j = (k + m)%nat /\ l !! m = Some x /\ has_key key x = true /\
    forall x', ce_key x' = ce_key x -> find_from (has_key key) (<[m := x']> l) k = Some j).
  { induction l as [|x l IH]; intros k j; cbn [find_from]; [done|]. destruct (has_key key x) eqn:E.
    - intros [= <-]. exists 0%nat, x. split; [lia|]. split; [done|]. split; [done|]. intros x' Hx'. cbn [insert list_insert find_from].
      assert (has_key key x' = true) as -> by (unfold has_key, live in *; by rewrite Hx'). done.
    - intros (m & y & -> & Hy & Hyk & Hins)%IH. exists (S m), y. split; [lia|]. split; [done|]. split; [done|]. intros x' Hx'.
      cbn [insert list_insert find_from]. rewrite E. by apply Hins. }
  destruct (find_from (has_key key) es 0) as [j|] eqn:E; [|done]. destruct (Hf _ _ _ E) as (m & x & -> & Hx & Hxk & Hins). cbn [Nat.add] in *.
  rewrite Hx in H. injection H as <- <-. rewrite Hi in Hx. injection Hx as <-. rewrite (Hins e' Hk), list_lookup_insert_eq by (by eapply lookup_lt_Some). rewrite Hg. split; [done|].
  unfold entry_matches_locked, has_key in *. apply andb_true_iff in Hxk as [-> ->]. by rewrite Z.eqb_refl.
Qed.
(** What was written is what is read. *)
Lemma update_then_get key snap ts now now' cap snapped es changed n es' i gen e :
  bb_cache_update (Some key) (Some snap) ts now es = (BB_OK, changed, n, es') ->
  find_entry_locked_ref key es = Some (i, gen) -> es !! i = Some e -> cd_owned (ce_data e) <> None -> (0 < cd_size (ce_data e) <= cap)%nat ->
  ev_policy (cd_eviction (ce_data e)) = BB_CACHE_EVICT_PINNED ->
  exists es2, bb_cache_get_raw (Some key) true cap now' snapped es' = (BB_OK, take (cd_size (ce_data e)) snap, false, es2).
Proof.
  intros Hu Href Hi Ho Hcap Hpin. unfold bb_cache_update in Hu. rewrite Href, Hi in Hu. destruct (found_again key es i gen e e Href Hi eq_refl eq_refl) as [_ Hm].
  rewrite Hm in Hu. cbn [negb] in Hu. unfold write_data in Hu. destruct (cd_owned (ce_data e)) as [old|]; [|done]. injection Hu as _ _ <-.
  unfold bb_cache_get_raw, read_key. rewrite (proj2 (Nat.eqb_neq cap 0)) by lia. cbn [negb orb].
  rewrite (proj1 (found_again key es i gen e (set_data _ e) Href Hi eq_refl eq_refl)), list_lookup_insert_eq by (by eapply lookup_lt_Some).
  assert (Hm' : forall d, entry_matches_locked key gen (set_data d e) = true) by done. rewrite Hm'. cbn [negb]. unfold read_locked, aged_out. cbn [set_data ce_data cd_eviction]. rewrite Hpin.
  unfold copy_owned_and_capture_locked. cbn [cd_owned cd_size]. rewrite (proj2 (Nat.ltb_ge _ _)) by lia.
  unfold maybe_seed_fallback. cbn [cd_snapshot cd_has_value orb]. destruct (cd_snapshot (ce_data e) =? 0); by eexists.
Qed.
