(* ===== verification/CacheThreads.v ===== *)
(** Threads calling Cache at once: the sections of the calls as steps, their
    order as an explicit sequence, and the table of registrations they agree on. *)
From Stdlib Require Import Strings.String Sorting.Sorted.
From stdpp Require Import sorting.
From S2P Require Import Prelude Bytes Queue Cache.

(** * Calls in steps *)

(** The calls with their arguments checked; [CRead] is bb_cache_get_raw and
    bb_cache_snapshot, [CSweep] one key of the sweep. *)
Inductive cache_call : Type :=
  | CRegister (key : list byte) (cfg : cache_cfg) | CUpdate (key snap : list byte) (ts : Z) | CDelete (key : list byte)
  | CRead (key : list byte) (cap : nat) | CVersion (key : list byte) | CStale (key : list byte) | CSweep (key : list byte)
  | CExists (key : list byte) | CCount | CKeyAt (index cap : nat).
Record answer := mk_ans { an_rc : bb_err; an_flag : bool; an_bytes : list byte; an_num : Z }.
Definition rc_answer (rc : bb_err) : answer := mk_ans rc false [] 0.
(** What a call answers when its key is not there; sweep_cb has no answer. *)
Definition missed (c : cache_call) : answer := match c with CSweep _ => rc_answer BB_OK | _ => rc_answer BB_ERR_NOT_FOUND end.
(** What the world answers a step: the clock, the getter, the allocator. *)
Record env := mk_env { en_now : Z; en_snap : option (list byte); en_alloc : bool }.
Inductive notice : Type := Written (key : list byte) (version : Z) | Gone (key : list byte).

(** Where a thread is in its call: before its first section; holding a slot and
    the generation it had; having found the entry aged; filling a slot or
    clearing a key, with the registry's lock held; about to call a hook and
    return. *)
Inductive phase : Type :=
  | Called | Found (key : list byte) (i : nat) (gen : Z) | Aged (key : list byte) (i : nat) (gen : Z)
  | Filling (key : list byte) (cfg : cache_cfg) (i : nat) | Tearing (i : nat) (key : list byte) (ans : answer)
  | Telling (ans : answer) (n : option notice).
Record thread := mk_th { th_call : cache_call; th_start : nat; th_at : phase }.
(** [cw_lock]: who holds s_reg_lock.  [cw_done]: the calls answered so far: the
    thread, the call, the steps it began and ended at, the answer. *)
Record cache_world := mk_cw {
  cw_es : list cache_entry; cw_lock : option nat; cw_threads : list (option thread); cw_notices : list notice; cw_time : nat;
  cw_done : list (nat * cache_call * nat * nat * answer)
}.
Inductive cache_act : Type := Start (t : nat) (c : cache_call) | Go (t : nat) (e : env).

(** The section under s_reg_lock a call begins with. *)
Inductive first_section : Type := Answers (ans : answer) | Refers (key : list byte) (i : nat) (gen : Z) | Fills (key : list byte) (cfg : cache_cfg) (i : nat) | Tears (i : nat) (key : list byte).
Definition refer (c : cache_call) (key : list byte) (es : list cache_entry) : first_section :=
  match find_entry_locked_ref key es with None => Answers (missed c) | Some (i, gen) => Refers key i gen end.
Definition begin_call (c : cache_call) (e : env) (es : list cache_entry) : first_section :=
  match c with
  | CRegister key cfg => match register_locked key cfg (en_alloc e) es with inl rc => Answers (rc_answer rc) | inr i => Fills key cfg i end
  | CDelete key => match find_entry key es with None => Answers (missed c) | Some i => Tears i key end
  | CUpdate key _ _ | CRead key _ | CVersion key | CStale key | CSweep key => refer c key es
  | CExists key => Answers (mk_ans BB_OK (bb_cache_exists (Some key) es) [] 0)
  | CCount => Answers (mk_ans BB_OK false [] (Z.of_nat (bb_cache_count es)))
  | CKeyAt index cap => let '(rc, key) := bb_cache_key_at index true cap es in Answers (mk_ans rc false key 0)
  end.
(** The section under the lock of an entry that matches; [None]: it is to be
    evicted. *)
Definition on_entry (c : cache_call) (key : list byte) (e : env) (d : cache_data) : option (answer * option notice * cache_data) :=
  match c with
  | CUpdate _ snap ts => let '(changed, v, d) := write_data snap ts (en_now e) d in Some (mk_ans BB_OK changed [] 0, option_map (Written key) v, d)
  | CRead _ cap =>
      match read_locked cap (en_now e) (en_snap e) d with
      | None => None
      | Some (rc, bytes, v, d) => Some (mk_ans rc false bytes v, None, d)
      end
  | CVersion _ => Some (mk_ans BB_OK false [] (cd_version d), None, d)
  | CStale _ => Some (mk_ans BB_OK (is_stale (en_now e) d) [] 0, None, d)
  | CSweep _ => if aged_out (en_now e) d then None else Some (rc_answer BB_OK, None, d)
  | _ => Some (rc_answer BB_OK, None, d)
  end.

Definition goto (t : nat) (th : thread) (p : phase) (w : cache_world) : cache_world :=
  mk_cw (cw_es w) (cw_lock w) (<[t := Some (mk_th (th_call th) (th_start th) p)]> (cw_threads w)) (cw_notices w) (cw_time w) (cw_done w).
Definition with_es (es : list cache_entry) (w : cache_world) : cache_world := mk_cw es (cw_lock w) (cw_threads w) (cw_notices w) (cw_time w) (cw_done w).
Definition with_lock (l : option nat) (w : cache_world) : cache_world := mk_cw (cw_es w) l (cw_threads w) (cw_notices w) (cw_time w) (cw_done w).
Definition free_lock (w : cache_world) : bool := match cw_lock w with None => true | Some _ => false end.
Definition thread_step (t : nat) (th : thread) (e : env) (w : cache_world) : option cache_world :=
  match th_at th with
  | Called =>
      if negb (free_lock w) then None else
      Some match begin_call (th_call th) e (cw_es w) with
           | Answers ans => goto t th (Telling ans None) w
           | Refers key i gen => goto t th (Found key i gen) w
           | Fills key cfg i => goto t th (Filling key cfg i) (with_lock (Some t) (with_es (alter bump_gen i (cw_es w)) w))
           | Tears i key => goto t th (Tearing i key (rc_answer BB_OK)) (with_lock (Some t) (with_es (alter teardown i (cw_es w)) w))
           end
  | Found key i gen =>
      match cw_es w !! i with
      | None => None
      | Some entry =>
          if negb (entry_matches_locked key gen entry) then Some (goto t th (Telling (missed (th_call th)) None) w) else
          match on_entry (th_call th) key e (ce_data entry) with
          | None => Some (goto t th (Aged key i gen) w)
          | Some (ans, n, d) => Some (goto t th (Telling ans n) (with_es (<[i := set_data d entry]> (cw_es w)) w))
          end
      end
  | Aged key _ gen =>
      if negb (free_lock w) then None else
      Some match find_entry_locked_ref key (cw_es w) with
           | Some (j, g) =>
               if g =? gen then goto t th (Tearing j key (missed (th_call th))) (with_lock (Some t) (with_es (alter teardown j (cw_es w)) w))
               else goto t th (Telling (missed (th_call th)) None) w
           | None => goto t th (Telling (missed (th_call th)) None) w
           end
  | Filling key cfg i => Some (goto t th (Telling (mk_ans BB_OK true [] 0) None) (with_lock None (with_es (alter (fill_slot key cfg) i (cw_es w)) w)))
  | Tearing i key ans => Some (goto t th (Telling ans (Some (Gone key))) (with_lock None (with_es (alter (set_key []) i (cw_es w)) w)))
  | Telling ans n =>
      Some (mk_cw (cw_es w) (cw_lock w) (<[t := None]> (cw_threads w)) (cw_notices w ++ match n with Some n => [n] | None => [] end) (cw_time w)
              (cw_done w ++ [(t, th_call th, th_start th, cw_time w, ans)]))
  end.
Definition tick (w : cache_world) : cache_world := mk_cw (cw_es w) (cw_lock w) (cw_threads w) (cw_notices w) (S (cw_time w)) (cw_done w).
Definition cache_step (a : cache_act) (w : cache_world) : option cache_world :=
  match a with
  | Start t c =>
      match cw_threads w !! t with
      | Some None => Some (tick (mk_cw (cw_es w) (cw_lock w) (<[t := Some (mk_th c (cw_time w) Called)]> (cw_threads w)) (cw_notices w) (cw_time w) (cw_done w)))
      | _ => None
      end
  | Go t e =>
      match cw_threads w !! t with
      | Some (Some th) => option_map tick (thread_step t th e w)
      | _ => None
      end
  end.
Fixpoint cache_run (acts : list cache_act) (w : cache_world) : option cache_world :=
  match acts with [] => Some w | a :: acts => match cache_step a w with Some w => cache_run acts w | None => None end end.
Definition cache_world0 (slots threads : nat) : cache_world := mk_cw (cache0 slots) None (repeat None threads) [] 0 [].

(** * The table the calls agree on *)

(** A registration without generations: the slots, each free or with a key and
    what it holds. *)
Record item := mk_item { it_key : list byte; it_data : cache_data }.
Definition item_has (key : list byte) (x : option item) : bool := match x with Some x => bool_decide (it_key x = key) | None => false end.
Fixpoint item_from (p : option item -> bool) (l : list (option item)) (i : nat) : option nat :=
  match l with [] => None | x :: l => if p x then Some i else item_from p l (S i) end.
Definition item_at (key : list byte) (l : list (option item)) : option nat := item_from (item_has key) l 0.
Definition item_free (l : list (option item)) : option nat := item_from (fun x => match x with None => true | Some _ => false end) l 0.
Definition items (l : list (option item)) : list item := omap id l.

Definition on_item (c : cache_call) (key : list byte) (e : env) (l : list (option item)) : option (answer * list (option item)) :=
  match item_at key l with
  | None => Some (missed c, l)
  | Some i =>
      match l !! i with
      | Some (Some x) => match on_entry c key e (it_data x) with Some (ans, _, d) => Some (ans, <[i := Some (mk_item (it_key x) d)]> l) | None => None end
      | _ => None
      end
  end.
(** A call at one moment.  Reading an aged entry is no answer: it has to be
    evicted first. *)
Definition at_once (c : cache_call) (e : env) (l : list (option item)) : option (answer * list (option item)) :=
  match c with
  | CRegister key cfg =>
      match item_at key l with
      | Some _ => Some (rc_answer BB_OK, l)
      | None =>
          match item_free l with
          | None => Some (rc_answer BB_ERR_NO_SPACE, l)
          | Some i =>
              if (0 <? cc_size cfg)%nat && negb (en_alloc e) then Some (rc_answer BB_ERR_NO_SPACE, l) else
              if (cc_size cfg =? 0)%nat && (cc_snapshot cfg =? 0) then Some (rc_answer BB_ERR_INVALID_ARG, l) else
              Some (mk_ans BB_OK true [] 0, match key with [] => l | _ => <[i := Some (mk_item key (cfg_data cfg))]> l end)
          end
      end
  | CDelete key =>
      match item_at key l with None => Some (missed c, l) | Some i => Some (rc_answer BB_OK, <[i := None]> l) end
  | CUpdate key _ _ | CRead key _ | CVersion key | CStale key | CSweep key => on_item c key e l
  | CExists key => Some (mk_ans BB_OK (match item_at key l with Some _ => true | None => false end) [] 0, l)
  | CCount => Some (mk_ans BB_OK false [] (Z.of_nat (length (items l))), l)
  | CKeyAt index cap =>
      Some (match l !! index with
            | None => rc_answer BB_ERR_NOT_FOUND
            | Some x => let key := match x with Some x => it_key x | None => [] end in
                        if (cap <? length key + 1)%nat then rc_answer BB_ERR_NO_SPACE else mk_ans BB_OK false key 0
            end, l)
  end.
Definition call_key (c : cache_call) : list byte :=
  match c with CRegister key _ | CUpdate key _ _ | CDelete key | CRead key _ | CVersion key | CStale key | CSweep key | CExists key => key | CCount | CKeyAt _ _ => [] end.

(** What a call does to the table at a moment: answer; see the entry of its key
    aged; evict the entry of its key. *)
Inductive effect : Type := Answered (ans : answer) | SawAged | Evicted.
Record event := mk_event { ev_time : nat; ev_thread : nat; ev_start : nat; ev_call : cache_call; ev_effect : effect }.
Definition event_step (x : event) (l l' : list (option item)) : Prop :=
  match ev_effect x with
  | Answered ans => exists e, at_once (ev_call x) e l = Some (ans, l')
  | SawAged => l' = l /\ exists i it now, item_at (call_key (ev_call x)) l = Some i /\ l !! i = Some (Some it) /\ aged_out now (it_data it) = true
  | Evicted => exists i, item_at (call_key (ev_call x)) l = Some i /\ l' = <[i := None]> l
  end.
Fixpoint history (log : list event) (l l' : list (option item)) : Prop :=
  match log with [] => l' = l | x :: log => exists l1, event_step x l l1 /\ history log l1 l' end.
(** The table a world shows when nobody is in the middle of a change. *)
Definition show (e : cache_entry) : option item := if live e then Some (mk_item (ce_key e) (ce_data e)) else None.
Definition shown (es : list cache_entry) : list (option item) := show <$> es.

(** * Tables *)

Definition keys_of (l : list (option item)) : list (option (list byte)) := option_map it_key <$> l.

Lemma find_from_shift p es : forall i j, find_from p es i = Some j -> exists k, j = (i + k)%nat /\ (exists e, es !! k = Some e /\ p e = true).
Proof.
  induction es as [|e es IH]; intros i j; cbn [find_from]; [done|]. destruct (p e) eqn:E.
  - intros [= <-]. exists 0%nat. split; [lia|]. by exists e.
  - intros (k & -> & x & Hx)%IH. exists (S k). split; [lia|]. by exists x.
Qed.
Lemma item_from_shift p l : forall i j, item_from p l i = Some j -> exists k, j = (i + k)%nat /\ (exists x, l !! k = Some x /\ p x = true).
Proof.
  induction l as [|e l IH]; intros i j; cbn [item_from]; [done|]. destruct (p e) eqn:E.
  - intros [= <-]. exists 0%nat. split; [lia|]. by exists e.
  - intros (k & -> & x & Hx)%IH. exists (S k). split; [lia|]. by exists x.
Qed.
Lemma item_from_none p l : forall i, item_from p l i = None <-> forall k x, l !! k = Some x -> p x = false.
Proof.
  induction l as [|e l IH]; intros i; cbn [item_from]; [by split; [intros _ [|k] x H; inversion H|]|]. destruct (p e) eqn:E.
  - split; [done|]. intros H. specialize (H 0%nat e eq_refl). congruence.
  - rewrite IH. split; [intros H [|k] x Hx; [by injection Hx as <-|by apply (H k)]|intros H k; by apply (H (S k))].
Qed.
(** The searches of the code see the table it shows. *)
Lemma find_shown p q es : (forall e, p e = q (show e)) -> forall i, find_from p es i = item_from q (shown es) i.
Proof. intros H. induction es as [|e es IH]; intros i; [done|]. cbn. rewrite H. by rewrite IH. Qed.
Lemma find_entry_shown key es : find_entry key es = item_at key (shown es).
Proof. apply find_shown. intros e. unfold has_key, show, item_has. by destruct (live e). Qed.
Lemma free_slot_shown es : free_slot es = item_free (shown es).
Proof. apply find_shown. intros e. unfold show. by destruct (live e). Qed.

Lemma item_at_some key l i : item_at key l = Some i -> exists x, l !! i = Some (Some x) /\ it_key x = key.
Proof. intros (k & -> & [x|] & Hx & Hk)%item_from_shift; [|done]. cbn in Hk. apply bool_decide_eq_true in Hk. by exists x. Qed.
Lemma item_at_none key l : item_at key l = None <-> forall i x, l !! i = Some (Some x) -> it_key x <> key.
Proof.
  unfold item_at. rewrite item_from_none. split.
  - intros H i x Hx. specialize (H i _ Hx). by apply bool_decide_eq_false in H.
  - intros H i [x|] Hx; [|done]. apply bool_decide_eq_false. by apply (H i).
Qed.
Lemma item_free_some l i : item_free l = Some i -> l !! i = Some None.
Proof. by intros (k & -> & [x|] & Hx & Hk)%item_from_shift. Qed.

(** No two registrations of a key. *)
Definition distinct (l : list (option item)) : Prop := forall i j x y, l !! i = Some (Some x) -> l !! j = Some (Some y) -> it_key x = it_key y -> i = j.
Lemma item_at_unique l i x : distinct l -> l !! i = Some (Some x) -> item_at (it_key x) l = Some i.
Proof.
  intros Hd Hi. destruct (item_at (it_key x) l) as [j|] eqn:E.
  - apply item_at_some in E as (y & Hj & Hk). f_equal. by apply (Hd j i y x).
  - rewrite item_at_none in E. by destruct (E i x Hi).
Qed.
Lemma distinct_remove l i : distinct l -> distinct (<[i := None]> l).
Proof. intros Hd j k x y [(_ & ? & _)|[_ Hj]]%list_lookup_insert_Some [(_ & ? & _)|[_ Hk]]%list_lookup_insert_Some; try done. by apply Hd. Qed.
Lemma distinct_same_key l i x d : distinct l -> l !! i = Some (Some x) -> distinct (<[i := Some (mk_item (it_key x) d)]> l).
Proof.
  intros Hd Hi j k y z [(<- & Hy & _)|[Hij Hj]]%list_lookup_insert_Some [(<- & Hz & _)|[Hik Hk]]%list_lookup_insert_Some; try done.
  - injection Hy as <-. cbn. intros Hkey. by apply (Hd i k x z).
  - injection Hz as <-. cbn. intros Hkey. by apply (Hd j i y x).
  - by apply Hd.
Qed.
Lemma distinct_add l i key d : distinct l -> item_at key l = None -> distinct (<[i := Some (mk_item key d)]> l).
Proof.
  rewrite item_at_none. intros Hd Hn j k y z [(<- & Hy & _)|[Hij Hj]]%list_lookup_insert_Some [(<- & Hz & _)|[Hik Hk]]%list_lookup_insert_Some; try done.
  - injection Hy as <-. cbn. intros Hkey. by destruct (Hn k z Hk).
  - injection Hz as <-. cbn. intros Hkey. by destruct (Hn j y Hj).
  - by apply Hd.
Qed.
Lemma removed_gone l i x : distinct l -> l !! i = Some (Some x) -> item_at (it_key x) (<[i := None]> l) = None.
Proof.
  intros Hd Hi. apply item_at_none. intros j y [(_ & ? & _)|[Hij Hj]]%list_lookup_insert_Some; [done|]. intros Hk. by destruct Hij; apply (Hd i j x y).
Qed.
Lemma keys_same l i x d : l !! i = Some (Some x) -> keys_of (<[i := Some (mk_item (it_key x) d)]> l) = keys_of l.
Proof.
  intros Hi. unfold keys_of. rewrite list_fmap_insert. apply list_insert_id. by rewrite list_lookup_fmap, Hi.
Qed.
Lemma items_count l : length (items l) = length (filter (fun x => is_Some x) l).
Proof. unfold items. induction l as [|[x|] l IH]; [done| |]; cbn [omap list_omap]; rewrite filter_cons; [rewrite decide_True by done; cbn; by rewrite IH|rewrite decide_False by (by intros [? ?]); done]. Qed.
Lemma count_shown es : bb_cache_count es = length (items (shown es)).
Proof.
  unfold bb_cache_count, live_keys, items. rewrite length_map. induction es as [|e es IH]; [done|]. rewrite filter_cons. change (shown (e :: es)) with (show e :: shown es). unfold show. destruct (live e).
  - rewrite decide_True by done. cbn [length omap list_omap id]. by rewrite IH.
  - rewrite decide_False by done. exact IH.
Qed.

(** * What holds between steps *)

(** What is agreed on for slot [i] while the holder of the lock is at [p]: a slot
    being filled already has its registration, one being cleared has lost it. *)
Definition slot_shown (p : option phase) (i : nat) (e : cache_entry) : option item :=
  match p with
  | Some (Filling key cfg j) => if (j =? i)%nat then match key with [] => None | _ => Some (mk_item key (cfg_data cfg)) end else show e
  | Some (Tearing j _ _) => if (j =? i)%nat then None else show e
  | _ => show e
  end.
Definition phase_of (l : list (option thread)) (t : nat) : option phase := match l !! t with Some (Some th) => Some (th_at th) | _ => None end.
Definition holder (w : cache_world) : option phase := match cw_lock w with Some t => phase_of (cw_threads w) t | None => None end.
Definition holds_lock (p : phase) : bool := match p with Filling _ _ _ | Tearing _ _ _ => true | _ => false end.

Definition of_call (t s : nat) (c : cache_call) (x : event) : Prop := ev_thread x = t /\ ev_start x = s /\ ev_call x = c.
Definition answered (log : list event) (t : nat) (th : thread) (ans : answer) : Prop :=
  exists x, x ∈ log /\ of_call t (th_start th) (th_call th) x /\ ev_effect x = Answered ans.
Definition saw_aged (log : list event) (t s : nat) (c : cache_call) : Prop := exists x, x ∈ log /\ of_call t s c x /\ ev_effect x = SawAged.
Definition answered_id (x : event) : option (nat * nat) := match ev_effect x with Answered _ => Some (ev_thread x, ev_start x) | _ => None end.
Definition ids (log : list event) : list (nat * nat) := omap answered_id log.

Definition refers (c : cache_call) (key : list byte) : Prop :=
  match c with CUpdate k _ _ | CRead k _ | CVersion k | CStale k | CSweep k => k = key | _ => False end.
(** A slot a thread has looked up: either it is that registration still, or the
    call has missed it, at the moment the registration went. *)
Definition ref_ok (es : list cache_entry) (l : list (option item)) (log : list event) (t : nat) (th : thread) (key : list byte) (i : nat) (g : Z) : Prop :=
  refers (th_call th) key /\ exists e, es !! i = Some e /\ g <= ce_gen e /\
    (g = ce_gen e -> ce_key e = key /\ live e = true /\ l !! i = Some (show e) /\ (t, th_start th) ∉ ids log) /\
    (g < ce_gen e -> answered log t th (missed (th_call th))).
(** An index is asked for with room for an answer. *)
Definition call_fine (c : cache_call) : Prop := match c with CKeyAt _ cap => (0 < cap)%nat | _ => True end.
Definition thread_ok (es : list cache_entry) (l : list (option item)) (log : list event) (now t : nat) (th : thread) : Prop :=
  (th_start th < now)%nat /\ call_fine (th_call th) /\
  match th_at th with
  | Called => (t, th_start th) ∉ ids log
  | Found key i g => ref_ok es l log t th key i g
  | Aged key i g => ref_ok es l log t th key i g /\ saw_aged log t (th_start th) (th_call th)
  | Filling _ _ _ => answered log t th (mk_ans BB_OK true [] 0)
  | Tearing _ _ ans | Telling ans _ => answered log t th ans
  end.
(** An event is of a call that is answered, or in progress. *)
Definition event_of (w : cache_world) (x : event) : Prop :=
  (exists f ans, (ev_thread x, ev_call x, ev_start x, f, ans) ∈ cw_done w) \/
  (exists th, cw_threads w !! ev_thread x = Some (Some th) /\ th_start th = ev_start x /\ th_call th = ev_call x).

Record cache_inv (w : cache_world) (log : list event) (l0 l : list (option item)) : Prop := {
  iv_table : l = imap (slot_shown (holder w)) (cw_es w);
  iv_fill : forall key cfg i e, holder w = Some (Filling key cfg i) -> cw_es w !! i = Some e -> live e = false;
  iv_lock : forall t th, cw_threads w !! t = Some (Some th) -> holds_lock (th_at th) = true -> cw_lock w = Some t;
  iv_distinct : distinct l;
  iv_gens : forall i e, cw_es w !! i = Some e -> 0 <= ce_gen e <= Z.of_nat (cw_time w);
  iv_threads : forall t th, cw_threads w !! t = Some (Some th) -> thread_ok (cw_es w) l log (cw_time w) t th;
  iv_done : forall t c s f ans, (t, c, s, f, ans) ∈ cw_done w -> exists x, x ∈ log /\ of_call t s c x /\ ev_effect x = Answered ans /\ (s <= ev_time x <= f)%nat;
  iv_ids : NoDup (ids log);
  iv_log : forall x, x ∈ log -> (ev_start x <= ev_time x < cw_time w)%nat /\ event_of w x;
  iv_sorted : StronglySorted le (ev_time <$> log);
  iv_saw : forall i x, log !! i = Some x -> ev_effect x = Evicted -> exists j y, (j < i)%nat /\ log !! j = Some y /\ of_call (ev_thread x) (ev_start x) (ev_call x) y /\ ev_effect y = SawAged;
  iv_history : history log l0 l
}.

Lemma history_app a b l l1 l2 : history a l l1 -> history b l1 l2 -> history (a ++ b) l l2.
Proof. revert l. induction a as [|x a IH]; intros l; [by intros ->|]. intros (m & Hx & Ha) Hb. exists m. split; [done|by apply IH]. Qed.
Lemma ids_app a b : ids (a ++ b) = ids a ++ ids b.
Proof. apply omap_app. Qed.
Lemma ids_in log t s : (t, s) ∈ ids log <-> exists x ans, x ∈ log /\ ev_effect x = Answered ans /\ ev_thread x = t /\ ev_start x = s.
Proof.
  unfold ids. rewrite list_elem_of_omap. split.
  - intros (x & Hx & Hid). unfold answered_id in Hid. destruct (ev_effect x) as [ans| |] eqn:E; try done. injection Hid as <- <-. by exists x, ans.
  - intros (x & ans & Hx & He & <- & <-). exists x. split; [done|]. unfold answered_id. by rewrite He.
Qed.
Lemma answered_app log new t th ans : answered log t th ans -> answered (log ++ new) t th ans.
Proof. intros (x & Hx & H). exists x. split; [apply elem_of_app; by left|done]. Qed.
Lemma answered_in log t th ans : answered log t th ans -> (t, th_start th) ∈ ids log.
Proof. intros (x & Hx & (H1 & H2 & _) & He). apply ids_in. by exists x, ans. Qed.
Lemma saw_app log new t s c : saw_aged log t s c -> saw_aged (log ++ new) t s c.
Proof. intros (x & Hx & H). exists x. split; [apply elem_of_app; by left|done]. Qed.
Lemma not_in_app log new t s : (t, s) ∉ ids log -> (t, s) ∉ ids new -> (t, s) ∉ ids (log ++ new).
Proof. rewrite ids_app, elem_of_app. tauto. Qed.

(** The slots a step leaves as they are, for whoever has looked them up. *)
Definition slots_kept (es es' : list cache_entry) (l l' : list (option item)) : Prop :=
  forall i e, es !! i = Some e -> exists e', es' !! i = Some e' /\ ce_gen e' = ce_gen e /\
    (live e = true -> l !! i = Some (show e) -> ce_key e' = ce_key e /\ live e' = true /\ l' !! i = Some (show e')).
Lemma slots_kept_refl es l : slots_kept es es l l.
Proof. intros i e He. by exists e. Qed.
Lemma ref_kept es es' l l' log new t th key i g : slots_kept es es' l l' -> (t, th_start th) ∉ ids new ->
  ref_ok es l log t th key i g -> ref_ok es' l' (log ++ new) t th key i g.
Proof.
  intros Hk Hn (Hr & e & He & Hle & Heq & Hlt). split; [done|]. destruct (Hk i e He) as (e' & He' & Hg & Hs). exists e'. rewrite Hg. split_and!; [done|done| |].
  - intros Hge. destruct (Heq Hge) as (H1 & H2 & H3 & H4). destruct (Hs H2 H3) as (S1 & S2 & S3). split_and!; [congruence|done|done|by apply not_in_app].
  - intros Hge. by apply answered_app, Hlt.
Qed.
Lemma thread_kept es es' l l' log new now t th : slots_kept es es' l l' -> (t, th_start th) ∉ ids new ->
  thread_ok es l log now t th -> thread_ok es' l' (log ++ new) (S now) t th.
Proof.
  intros Hk Hn (Hs & Hf & Hp). split; [lia|]. split; [done|]. destruct (th_at th).
  - by apply not_in_app.
  - by eapply ref_kept.
  - destruct Hp as [Hp Ha]. split; [by eapply ref_kept|by apply saw_app].
  - by apply answered_app.
  - by apply answered_app.
  - by apply answered_app.
Qed.

(** * One step *)

(** What a thread's step makes of the world. *)
Definition moved (t : nat) (th : thread) (p : phase) (lk : option nat) (es : list cache_entry) (w : cache_world) : cache_world :=
  tick (goto t th p (with_lock lk (with_es es w))).
Lemma moved_threads t th p lk es w t' : cw_threads (moved t th p lk es w) !! t' = (<[t := Some (mk_th (th_call th) (th_start th) p)]> (cw_threads w)) !! t'.
Proof. done. Qed.

Lemma insert_cases {A} (l : list A) t x t' y : <[t := x]> l !! t' = Some y -> (t' = t /\ y = x) \/ (t' <> t /\ l !! t' = Some y).
Proof. intros [(-> & -> & _)|[Hn H]]%list_lookup_insert_Some; [by left|right; split; [congruence|done]]. Qed.

Lemma sorted_now log new now : StronglySorted le (ev_time <$> log) -> (forall x, x ∈ log -> (ev_time x < now)%nat) -> (forall x, x ∈ new -> ev_time x = now) ->
  StronglySorted le (ev_time <$> (log ++ new)).
Proof.
  intros Hs Hl Hn. rewrite fmap_app. apply StronglySorted_app_2; [|done|].
  - intros a b (x & -> & Hx)%list_elem_of_fmap (y & -> & Hy)%list_elem_of_fmap. rewrite (Hn y Hy). specialize (Hl x Hx). lia.
  - clear Hs Hl. induction new as [|x new IH]; [constructor|]. constructor; [apply IH; intros y Hy; apply Hn; by right|].
    apply Forall_forall. intros a (y & -> & Hy)%list_elem_of_fmap. rewrite (Hn x), (Hn y); [done|by right|by left].
Qed.
Lemma saw_kept log new : (forall i x, log !! i = Some x -> ev_effect x = Evicted -> exists j y, (j < i)%nat /\ log !! j = Some y /\ of_call (ev_thread x) (ev_start x) (ev_call x) y /\ ev_effect y = SawAged) ->
  (forall x, x ∈ new -> ev_effect x = Evicted -> saw_aged log (ev_thread x) (ev_start x) (ev_call x)) ->
  forall i x, (log ++ new) !! i = Some x -> ev_effect x = Evicted -> exists j y, (j < i)%nat /\ (log ++ new) !! j = Some y /\ of_call (ev_thread x) (ev_start x) (ev_call x) y /\ ev_effect y = SawAged.
Proof.
  intros Hl Hn i x Hx He. apply lookup_app_Some in Hx as [Hx|[Hlen Hx]].
  - destruct (Hl i x Hx He) as (j & y & Hj & Hy & H). exists j, y. split; [done|]. split; [by apply lookup_app_l_Some|done].
  - destruct (Hn x) as (y & Hy & H & He'); [by eapply list_elem_of_lookup_2|done|]. apply list_elem_of_lookup in Hy as [j Hj].
    pose proof (lookup_lt_Some _ _ _ Hj). exists j, y. split; [lia|]. split; [by apply lookup_app_l_Some|done].
Qed.

Lemma still_there t th p (l : list (option thread)) x : l !! t = Some (Some th) ->
  (exists th', l !! ev_thread x = Some (Some th') /\ th_start th' = ev_start x /\ th_call th' = ev_call x) ->
  exists th', <[t := Some (mk_th (th_call th) (th_start th) p)]> l !! ev_thread x = Some (Some th') /\ th_start th' = ev_start x /\ th_call th' = ev_call x.
Proof.
  intros Ht (th' & H' & Hs & Hc). destruct (decide (ev_thread x = t)) as [Heq|Hn]; [|exists th'; by rewrite list_lookup_insert_ne].
  rewrite Heq in *. rewrite Ht in H'. injection H' as <-. eexists. rewrite list_lookup_insert_eq by (by eapply lookup_lt_Some). done.
Qed.
Lemma advance w log l0 l t th p lk es' l' new :
  cache_inv w log l0 l -> cw_threads w !! t = Some (Some th) ->
  history new l l' -> l' = imap (slot_shown (holder (moved t th p lk es' w))) es' ->
  (forall key cfg i e, holder (moved t th p lk es' w) = Some (Filling key cfg i) -> es' !! i = Some e -> live e = false) ->
  (forall t' th', t' <> t -> cw_threads w !! t' = Some (Some th') -> holds_lock (th_at th') = true -> lk = Some t') -> (holds_lock p = true -> lk = Some t) ->
  distinct l' -> (forall i e, es' !! i = Some e -> 0 <= ce_gen e <= Z.of_nat (S (cw_time w))) ->
  (forall t' th', t' <> t -> cw_threads w !! t' = Some (Some th') -> thread_ok (cw_es w) l log (cw_time w) t' th' -> thread_ok es' l' (log ++ new) (S (cw_time w)) t' th') ->
  thread_ok es' l' (log ++ new) (S (cw_time w)) t (mk_th (th_call th) (th_start th) p) ->
  (forall x, x ∈ new -> ev_time x = cw_time w /\ exists th', cw_threads w !! ev_thread x = Some (Some th') /\ th_start th' = ev_start x /\ th_call th' = ev_call x) ->
  NoDup (ids (log ++ new)) -> (forall x, x ∈ new -> ev_effect x = Evicted -> saw_aged log (ev_thread x) (ev_start x) (ev_call x)) ->
  cache_inv (moved t th p lk es' w) (log ++ new) l0 l'.
Proof.
  intros [I1 I1b I2 I3 I4 I5 I6 I7 I8 I9 I10 I11] Ht Hh Hl Hfill Hlk Hlk' Hd Hg Hth Hthis Hnew Hids Hsaw.
  assert (Hstart : forall t' th', cw_threads w !! t' = Some (Some th') -> (th_start th' < cw_time w)%nat) by (intros t' th' H'; by destruct (I5 t' th' H')).
  split; cbn [moved tick goto with_lock with_es cw_es cw_lock cw_threads cw_notices cw_time cw_done].
  - exact Hl.
  - exact Hfill.
  - intros t' th' [[-> [= ->]]|[Hn Ht']]%insert_cases; [by apply Hlk'|by apply Hlk].
  - exact Hd.
  - exact Hg.
  - intros t' th' [[-> [= ->]]|[Hn Ht']]%insert_cases; [done|]. by apply Hth, I5.
  - intros t' c s f ans Hin. destruct (I6 _ _ _ _ _ Hin) as (x & Hx & H). exists x. split; [apply elem_of_app; by left|done].
  - exact Hids.
  - intros x [Hx|Hx]%elem_of_app.
    + destruct (I8 x Hx) as [Ht' Hof]. split; [lia|]. destruct Hof as [?|Hof]; [by left|]. right. by apply still_there.
    + destruct (Hnew x Hx) as (-> & Hof). split; [destruct Hof as (th' & H' & <- & _); specialize (Hstart _ _ H'); lia|]. right. by apply still_there.
  - eapply sorted_now; [done| |by apply Hnew]. intros x Hx. by destruct (I8 x Hx) as [[_ ?] _].
  - by apply saw_kept.
  - by eapply history_app.
Qed.

(** * The sections and the table *)

Lemma imap_insert {A B} (f : nat -> A -> B) es i e : imap f (<[i := e]> es) = <[i := f i e]> (imap f es).
Proof.
  apply list_eq. intros j. rewrite list_lookup_imap. destruct (decide (i = j)) as [<-|Hn].
  - destruct (decide (i < length es)%nat) as [Hi|Hi].
    + rewrite list_lookup_insert_eq by done. rewrite list_lookup_insert_eq; [done|by rewrite length_imap].
    + rewrite !list_insert_ge, ?length_imap by (rewrite ?length_imap; lia). by rewrite list_lookup_imap.
  - rewrite !list_lookup_insert_ne by done. by rewrite list_lookup_imap.
Qed.
Lemma alter_at {A} (f : A -> A) (i : nat) (l : list A) x : l !! i = Some x -> alter f i l = <[i := f x]> l.
Proof.
  intros Hx. apply list_eq. intros j. destruct (decide (i = j)) as [<-|Hn].
  - rewrite list_lookup_alter_eq, Hx, list_lookup_insert_eq; [done|by eapply lookup_lt_Some].
  - by rewrite list_lookup_alter_ne, list_lookup_insert_ne.
Qed.
Lemma shown_imap es : imap (slot_shown None) es = shown es.
Proof. apply list_eq. intros i. unfold shown. rewrite list_lookup_imap, list_lookup_fmap. done. Qed.
Lemma shown_quiet p i e : holds_lock p = false -> slot_shown (Some p) i e = show e.
Proof. by destruct p. Qed.
(** A step of a thread without the lock does not change who is changing what. *)
Lemma holder_moved w t th p es' i e : cw_threads w !! t = Some (Some th) -> holds_lock (th_at th) = false -> holds_lock p = false ->
  slot_shown (holder (moved t th p (cw_lock w) es' w)) i e = slot_shown (holder w) i e.
Proof.
  intros Ht Hn Hp. unfold holder. cbn [moved tick goto with_lock with_es cw_lock cw_threads]. destruct (cw_lock w) as [t0|]; [|done].
  unfold phase_of. destruct (decide (t = t0)) as [<-|Hne].
  - rewrite list_lookup_insert_eq by (by eapply lookup_lt_Some). rewrite Ht. cbn [th_at]. by rewrite !shown_quiet.
  - by rewrite list_lookup_insert_ne.
Qed.
Lemma imap_same {A B} (f g : nat -> A -> B) es : (forall i e, f i e = g i e) -> imap f es = imap g es.
Proof. intros H. apply list_eq. intros i. rewrite !list_lookup_imap. destruct (es !! i); cbn; [by rewrite H|done]. Qed.

Lemma shown_at es i e : es !! i = Some e -> shown es !! i = Some (show e).
Proof. intros H. unfold shown. by rewrite list_lookup_fmap, H. Qed.
Lemma find_at key es i : find_entry key es = Some i -> exists e, es !! i = Some e /\ live e = true /\ ce_key e = key.
Proof.
  intros (k & -> & e & He & Hp)%find_from_shift. exists e. unfold has_key in Hp. apply andb_true_iff in Hp as [H1 H2%bool_decide_eq_true]. done.
Qed.
Lemma ref_at key es i g : find_entry_locked_ref key es = Some (i, g) -> find_entry key es = Some i /\ exists e, es !! i = Some e /\ ce_gen e = g.
Proof. unfold find_entry_locked_ref. destruct (find_entry key es) as [j|] eqn:E; [|done]. destruct (es !! j) as [e|] eqn:He; [|done]. intros [= <- <-]. split; [done|by exists e]. Qed.
Lemma ref_none key es : find_entry_locked_ref key es = None -> find_entry key es = None.
Proof. unfold find_entry_locked_ref. destruct (find_entry key es) as [j|] eqn:E; [|done]. destruct (find_at key es j E) as (e & -> & _). done. Qed.

Lemma key_at_shown index cap es : (0 < cap)%nat -> at_once (CKeyAt index cap) (mk_env 0 None false) (shown es) = Some (let '(rc, key) := bb_cache_key_at index true cap es in mk_ans rc false key 0, shown es).
Proof.
  intros Hcap. cbn [at_once]. unfold bb_cache_key_at. rewrite (proj2 (Nat.eqb_neq cap 0)) by lia. cbn [negb orb]. unfold shown. rewrite list_lookup_fmap.
  destruct (es !! index) as [e|]; cbn [fmap option_fmap option_map]; [|done]. unfold show. destruct (live e) eqn:E; cbn.
  - by destruct (_ <? _)%nat.
  - unfold live in E. destruct (ce_key e); [|done]. cbn. by destruct (_ <? _)%nat.
Qed.
Lemma refer_answers c key e es ans : refers c key -> refer c key es = Answers ans -> at_once c e (shown es) = Some (ans, shown es).
Proof.
  intros Hr. unfold refer. destruct (find_entry_locked_ref key es) as [[i g]|] eqn:E; [done|]. intros [= <-]. apply ref_none in E. rewrite find_entry_shown in E.
  destruct c; try done; cbn in Hr; subst; cbn; unfold on_item; by rewrite E.
Qed.
Lemma refer_fills c key es k cfg i : refer c key es <> Fills k cfg i.
Proof. unfold refer. by destruct (find_entry_locked_ref key es) as [[]|]. Qed.
Lemma refer_tears c key es k i : refer c key es <> Tears i k.
Proof. unfold refer. by destruct (find_entry_locked_ref key es) as [[]|]. Qed.
Lemma begin_answers c e es ans : call_fine c -> begin_call c e es = Answers ans -> exists e', at_once c e' (shown es) = Some (ans, shown es).
Proof.
  destruct c as [key cfg|key snap ts|key|key cap|key|key|key|key| |index cap]; cbn [begin_call call_fine]; intros Hf Hb; try (exists e; by eapply refer_answers).
  - unfold register_locked in Hb. exists e. cbn. rewrite <- find_entry_shown, <- free_slot_shown. destruct (find_entry key es); [by injection Hb as <-|].
    destruct (free_slot es) as [i|]; [|by injection Hb as <-]. destruct (0 <? cc_size cfg)%nat eqn:Hs; cbn [andb].
    + destruct (en_alloc e); [done|]. by injection Hb as <-.
    + apply Nat.ltb_ge in Hs. rewrite (proj2 (Nat.eqb_eq (cc_size cfg) 0)) by lia. destruct (cc_snapshot cfg =? 0); [by injection Hb as <-|done].
  - exists e. cbn. rewrite <- find_entry_shown. destruct (find_entry key es); [done|by injection Hb as <-].
  - exists e. injection Hb as <-. cbn. by rewrite find_entry_shown.
  - exists e. injection Hb as <-. cbn. by rewrite count_shown.
  - exists (mk_env 0 None false). rewrite key_at_shown by done. destruct (bb_cache_key_at index true cap es). by injection Hb as <-.
Qed.
Lemma begin_refers c e es key i g : begin_call c e es = Refers key i g -> refers c key /\ exists en, es !! i = Some en /\ ce_gen en = g /\ live en = true /\ ce_key en = key.
Proof.
  assert (Hrefer : forall k, refers c k -> refer c k es = Refers key i g -> refers c key /\ exists en, es !! i = Some en /\ ce_gen en = g /\ live en = true /\ ce_key en = key).
  { intros k Hr. unfold refer. destruct (find_entry_locked_ref k es) as [[j g']|] eqn:E; [|done]. intros [= <- <- <-]. split; [done|].
    apply ref_at in E as (Hf & en & He & Hg). destruct (find_at _ _ _ Hf) as (en' & He' & H1 & H2). rewrite He in He'. injection He' as <-. by exists en. }
  destruct c as [k cfg|k snap ts|k|k cap|k|k|k|k| |index cap]; cbn [begin_call]; try by apply Hrefer.
  - by destruct (register_locked _ _ _ _).
  - by destruct (find_entry k es).
  - done.
  - done.
  - by destruct (bb_cache_key_at _ _ _ _).
Qed.
Lemma begin_fills c e es key cfg i : begin_call c e es = Fills key cfg i -> c = CRegister key cfg /\ item_at key (shown es) = None /\
  (exists en, es !! i = Some en /\ live en = false) /\
  at_once c e (shown es) = Some (mk_ans BB_OK true [] 0, match key with [] => shown es | _ => <[i := Some (mk_item key (cfg_data cfg))]> (shown es) end).
Proof.
  destruct c as [k cf|k snap ts|k|k cap|k|k|k|k| |index cap]; cbn [begin_call]; try (intros H; by apply refer_fills in H); try done.
  - unfold register_locked. intros Hb. destruct (find_entry k es) eqn:Hf; [done|]. rewrite find_entry_shown in Hf. destruct (free_slot es) as [j|] eqn:Hj; [|done].
    assert (Hfree : exists en, es !! j = Some en /\ live en = false).
    { unfold free_slot in Hj. apply find_from_shift in Hj as (j' & -> & en & Hen & Hl). exists en. split; [done|by apply negb_true_iff]. }
    rewrite free_slot_shown in Hj. cbn [at_once]. destruct (0 <? cc_size cf)%nat eqn:Hs.
    + destruct (en_alloc e); [|done]. injection Hb as <- <- <-. rewrite Hf, Hj. apply Nat.ltb_lt in Hs. by rewrite (proj2 (Nat.eqb_neq (cc_size cf) 0)) by lia.
    + destruct (cc_snapshot cf =? 0) eqn:Hz; [done|]. injection Hb as <- <- <-. rewrite Hf, Hj. by rewrite andb_false_r.
  - by destruct (find_entry k es).
  - by destruct (bb_cache_key_at _ _ _ _).
Qed.
Lemma begin_tears c e es i key : begin_call c e es = Tears i key -> c = CDelete key /\ find_entry key es = Some i.
Proof.
  destruct c as [k cf|k snap ts|k|k cap|k|k|k|k| |index cap]; cbn [begin_call]; try (intros H; by apply refer_tears in H); try done.
  - by destruct (register_locked _ _ _ _).
  - destruct (find_entry k es) eqn:E; [|done]. by intros [= <- <-].
  - by destruct (bb_cache_key_at _ _ _ _).
Qed.
(** The section under an entry's lock is the call at that moment. *)
Lemma section_at_once c key e l i x ans n d : refers c key -> distinct l -> l !! i = Some (Some x) -> it_key x = key -> on_entry c key e (it_data x) = Some (ans, n, d) ->
  at_once c e l = Some (ans, <[i := Some (mk_item key d)]> l).
Proof.
  intros Hr Hd Hi Hk Ho. pose proof (item_at_unique l i x Hd Hi) as Hat. rewrite Hk in Hat.
  destruct c; try done; cbn in Hr; subst; cbn [at_once]; unfold on_item; rewrite Hat, Hi, Ho; done.
Qed.

(** * The kinds of steps *)

Lemma moved_same t th p w : tick (goto t th p w) = moved t th p (cw_lock w) (cw_es w) w.
Proof. by destruct w. Qed.
Lemma moved_lock t th p lk w : tick (goto t th p (with_lock lk w)) = moved t th p lk (cw_es w) w.
Proof. by destruct w. Qed.
Lemma moved_es t th p es w : tick (goto t th p (with_es es w)) = moved t th p (cw_lock w) es w.
Proof. by destruct w. Qed.

Definition event_now (w : cache_world) (t : nat) (th : thread) (f : effect) : event := mk_event (cw_time w) t (th_start th) (th_call th) f.
Lemma not_others new t t' (s' : nat) : (forall x, x ∈ new -> ev_thread x = t) -> t' <> t -> (t', s') ∉ ids new.
Proof. intros Hn Ht (x & ans & Hx & _ & <- & _)%ids_in. by apply Ht, Hn. Qed.
Lemma ids_fresh log new t s : NoDup (ids log) -> (ids new = [] \/ (ids new = [(t, s)] /\ (t, s) ∉ ids log)) -> NoDup (ids (log ++ new)).
Proof.
  intros Hd Hn. rewrite ids_app. apply NoDup_app. destruct Hn as [->|[-> Hnot]].
  - split; [done|]. split; [|constructor]. intros x _ H. inversion H.
  - split; [done|]. split; [|by apply NoDup_singleton]. by intros x Hx ->%list_elem_of_singleton.
Qed.

(** Steps that change no generation: the events are the thread's own. *)
Lemma kept_step w log l0 l t th p lk es' l' new :
  cache_inv w log l0 l -> cw_threads w !! t = Some (Some th) -> holds_lock p = false -> (lk = cw_lock w \/ (lk = None /\ holds_lock (th_at th) = true)) ->
  slots_kept (cw_es w) es' l l' -> length es' = length (cw_es w) -> (lk = None \/ forall i e e', cw_es w !! i = Some e -> es' !! i = Some e' -> live e = false -> live e' = false) -> history new l l' -> l' = imap (slot_shown (holder (moved t th p lk es' w))) es' -> distinct l' ->
  (forall x, x ∈ new -> ev_time x = cw_time w /\ of_call t (th_start th) (th_call th) x /\ ev_effect x <> Evicted) ->
  (ids new = [] \/ (ids new = [(t, th_start th)] /\ (t, th_start th) ∉ ids log)) ->
  thread_ok es' l' (log ++ new) (S (cw_time w)) t (mk_th (th_call th) (th_start th) p) ->
  cache_inv (moved t th p lk es' w) (log ++ new) l0 l'.
Proof.
  intros Hw Ht Hp Hlk Hk Hlen Hfill Hh Hl Hd Hnew Hids Hthis. assert (Hown : forall x, x ∈ new -> ev_thread x = t) by (intros x Hx; by destruct (Hnew x Hx) as (_ & (? & _) & _)).
  assert (Hat : forall i e', es' !! i = Some e' -> exists e, cw_es w !! i = Some e).
  { intros i e' Hi. destruct (lookup_lt_is_Some_2 (cw_es w) i) as [e He]; [rewrite <- Hlen; by eapply lookup_lt_Some|by exists e]. }
  apply (advance w log l0 l t th p lk es' l' new); try done.
  - intros key cfg i e' Hhold Hi. destruct Hfill as [-> |Hfill]; [done|]. destruct (Hat i e' Hi) as [e He]. eapply Hfill; [done|done|].
    apply (iv_fill _ _ _ _ Hw key cfg i e); [|done]. unfold holder, phase_of in *. cbn [moved tick goto with_lock with_es cw_lock cw_threads] in Hhold.
    destruct lk as [t0|]; [|done]. destruct (decide (t = t0)) as [<-|Hne].
    + rewrite list_lookup_insert_eq in Hhold by (by eapply lookup_lt_Some). injection Hhold as ->. done.
    + rewrite list_lookup_insert_ne in Hhold by done. destruct Hlk as [<-|[? _]]; done.
  - intros t' th' Hn Ht' Hh'. pose proof (iv_lock _ _ _ _ Hw t' th' Ht' Hh') as Hl'. destruct Hlk as [-> |[_ Hlk]]; [done|]. pose proof (iv_lock _ _ _ _ Hw t th Ht Hlk). congruence.
  - by rewrite Hp.
  - intros i e' Hi. destruct (Hat i e' Hi) as [e He].
    destruct (Hk i e He) as (e2 & He2 & Hg & _). rewrite Hi in He2. injection He2 as <-. rewrite Hg. pose proof (iv_gens _ _ _ _ Hw i e He). lia.
  - intros t' th' Hn Ht' Hok. eapply thread_kept; [done| |done]. by eapply not_others.
  - intros x Hx. destruct (Hnew x Hx) as (H1 & (H2 & H3 & H4) & _). split; [done|]. exists th. by rewrite H2.
  - eapply ids_fresh; [by apply Hw|exact Hids].
  - intros x Hx He. by destruct (Hnew x Hx) as (_ & _ & ?).
Qed.

(** A thread whose registration goes with the slot [j] of generation [g]. *)
Definition waits (j : nat) (g : Z) (th : thread) : bool :=
  match th_at th with Found _ i g' | Aged _ i g' => (i =? j)%nat && (g' =? g) | _ => false end.
Lemma ref_taken es l l' log new t th key i g j en en' :
  es !! j = Some en -> ce_gen en' = ce_gen en + 1 -> (forall k, k <> j -> l' !! k = l !! k) ->
  (i = j -> g = ce_gen en -> live en = true -> answered (log ++ new) t th (missed (th_call th))) -> (i <> j \/ g <> ce_gen en -> (t, th_start th) ∉ ids new) ->
  ref_ok es l log t th key i g -> ref_ok (<[j := en']> es) l' (log ++ new) t th key i g.
Proof.
  intros Hj Hg Hl Hw Hn (Hr & e & He & Hle & Heq & Hlt). split; [done|]. destruct (decide (i = j)) as [->|Hij].
  - rewrite Hj in He. injection He as <-. exists en'. rewrite list_lookup_insert_eq by (by eapply lookup_lt_Some). split_and!; [done|lia|lia|]. intros _.
    destruct (Z.eq_dec g (ce_gen en)) as [->|Hne]; [apply Hw; try done; by apply Heq|]. apply answered_app, Hlt. lia.
  - exists e. rewrite list_lookup_insert_ne by done. split_and!; [done|done| |].
    + intros Hge. destruct (Heq Hge) as (H1 & H2 & H3 & H4). split_and!; [done|done|by rewrite Hl|apply not_in_app; [done|apply Hn; by left]].
    + intros Hge. by apply answered_app, Hlt.
Qed.
Lemma thread_taken es l l' log new now t th j en en' :
  es !! j = Some en -> ce_gen en' = ce_gen en + 1 -> (forall k, k <> j -> l' !! k = l !! k) ->
  (waits j (ce_gen en) th = true -> live en = true -> answered (log ++ new) t th (missed (th_call th))) -> (waits j (ce_gen en) th = false -> (t, th_start th) ∉ ids new) ->
  thread_ok es l log now t th -> thread_ok (<[j := en']> es) l' (log ++ new) (S now) t th.
Proof.
  intros Hj Hg Hl Hw Hn (Hs & Hf & Hp). split; [lia|]. split; [done|]. unfold waits in *. destruct (th_at th) as [|key i g|key i g| | |]; try by apply answered_app.
  - apply not_in_app; [done|by apply Hn].
  - eapply ref_taken; try done.
    + intros -> -> Hlive. apply Hw; [|done]. by rewrite Nat.eqb_refl, Z.eqb_refl.
    + intros Hne. apply Hn. apply andb_false_iff. destruct Hne as [?|?]; [left; by apply Nat.eqb_neq|right; by apply Z.eqb_neq].
  - destruct Hp as [Hp Ha]. split; [|by apply saw_app]. eapply ref_taken; try done.
    + intros -> -> Hlive. apply Hw; [|done]. by rewrite Nat.eqb_refl, Z.eqb_refl.
    + intros Hne. apply Hn. apply andb_false_iff. destruct Hne as [?|?]; [left; by apply Nat.eqb_neq|right; by apply Z.eqb_neq].
Qed.

(** A step that takes the lock and a generation: the slot at [j] is about to be
    filled or cleared. *)
Lemma take_step w log l0 l t th p j en en' l' new :
  cache_inv w log l0 l -> cw_threads w !! t = Some (Some th) -> holds_lock p = true -> cw_lock w = None -> (forall key cfg i, p = Filling key cfg i -> i = j /\ live en' = false) ->
  cw_es w !! j = Some en -> ce_gen en' = ce_gen en + 1 -> slot_shown (Some p) j en' = default None (l' !! j) -> is_Some (l' !! j) ->
  (forall k e, k <> j -> slot_shown (Some p) k e = show e) -> (forall k, k <> j -> l' !! k = l !! k) -> length l' = length l -> history new l l' -> distinct l' ->
  (forall x, x ∈ new -> ev_time x = cw_time w /\ exists th', cw_threads w !! ev_thread x = Some (Some th') /\ th_start th' = ev_start x /\ th_call th' = ev_call x) ->
  NoDup (ids (log ++ new)) -> (forall x, x ∈ new -> ev_effect x = Evicted -> saw_aged log (ev_thread x) (ev_start x) (ev_call x)) ->
  (forall t' th', t' <> t -> cw_threads w !! t' = Some (Some th') -> (waits j (ce_gen en) th' = true -> live en = true -> answered (log ++ new) t' th' (missed (th_call th'))) /\
     (waits j (ce_gen en) th' = false -> (t', th_start th') ∉ ids new)) ->
  thread_ok (<[j := en']> (cw_es w)) l' (log ++ new) (S (cw_time w)) t (mk_th (th_call th) (th_start th) p) ->
  cache_inv (moved t th p (Some t) (<[j := en']> (cw_es w)) w) (log ++ new) l0 l'.
Proof.
  intros Hw Ht Hp Hlk Hpf Hj Hg Hs Hsome Hother Hl Hlen Hh Hd Hnew Hids Hsaw Hwait Hthis.
  assert (Htable : l = shown (cw_es w)) by (rewrite (iv_table _ _ _ _ Hw); unfold holder; by rewrite Hlk, shown_imap).
  assert (Hhold : holder (moved t th p (Some t) (<[j := en']> (cw_es w)) w) = Some p).
  { unfold holder, phase_of. cbn. by rewrite list_lookup_insert_eq by (by eapply lookup_lt_Some). }
  apply (advance w log l0 l t th p (Some t)); try done.
  - rewrite Hhold, imap_insert, Hs. apply list_eq. intros k. destruct (decide (j = k)) as [<-|Hn].
    + rewrite list_lookup_insert_eq; [by destruct Hsome as [x ->]|]. rewrite length_imap. by eapply lookup_lt_Some.
    + rewrite list_lookup_insert_ne by done. rewrite Hl by done. rewrite list_lookup_imap, Htable. unfold shown. rewrite list_lookup_fmap.
      destruct (cw_es w !! k); cbn [fmap option_fmap option_map]; [by rewrite Hother|done].
  - intros key cfg i e Hf Hi. rewrite Hhold in Hf. injection Hf as Hf. destruct (Hpf _ _ _ Hf) as [-> Hlive].
    rewrite list_lookup_insert_eq in Hi by (by eapply lookup_lt_Some). by injection Hi as <-.
  - intros t' th' Hn Ht' Hh'. pose proof (iv_lock _ _ _ _ Hw t' th' Ht' Hh'). congruence.
  - intros i e [[-> ->]|[Hn He]]%insert_cases; [rewrite Hg; pose proof (iv_gens _ _ _ _ Hw j en Hj); lia|pose proof (iv_gens _ _ _ _ Hw i e He); lia].
  - intros t' th' Hn Ht' Hok. destruct (Hwait t' th' Hn Ht') as [W1 W2]. by eapply thread_taken.
Qed.

(** The calls that miss their key because slot [j] is being cleared. *)
Fixpoint waiting (now j : nat) (g : Z) (k : nat) (ths : list (option thread)) : list event :=
  match ths with
  | [] => []
  | Some th :: ths => (if waits j g th then [mk_event now k (th_start th) (th_call th) (Answered (missed (th_call th)))] else []) ++ waiting now j g (S k) ths
  | None :: ths => waiting now j g (S k) ths
  end.
Lemma waiting_in now j g x : forall ths k, x ∈ waiting now j g k ths <-> exists i th, ths !! i = Some (Some th) /\ waits j g th = true /\ x = mk_event now (k + i) (th_start th) (th_call th) (Answered (missed (th_call th))).
Proof.
  induction ths as [|[th|] ths IH]; intros k; cbn [waiting].
  - split; [intros H; inversion H|intros ([|i] & th & H & _); inversion H].
  - rewrite elem_of_app, IH. split.
    + intros [H|(i & th' & Hi & Hw & ->)]; [|exists (S i), th'; split; [done|]; split; [done|]; f_equal; lia].
      destruct (waits j g th) eqn:E; [|inversion H]. apply list_elem_of_singleton in H as ->. exists 0%nat, th. rewrite Nat.add_0_r. done.
    + intros ([|i] & th' & Hi & Hw & ->).
      * injection Hi as ->. rewrite Hw, Nat.add_0_r. left. by apply list_elem_of_singleton.
      * right. exists i, th'. split; [done|]. split; [done|]. f_equal. lia.
  - rewrite IH. split; [intros (i & th' & Hi & Hw & ->); exists (S i), th'; split; [done|]; split; [done|]; f_equal; lia|].
    intros ([|i] & th' & Hi & Hw & ->); [done|]. exists i, th'. split; [done|]. split; [done|]. f_equal. lia.
Qed.
Lemma waiting_ids now j g : forall ths k, NoDup (ids (waiting now j g k ths)).
Proof.
  induction ths as [|[th|] ths IH]; intros k; cbn [waiting]; [constructor| |by apply IH]. rewrite ids_app. apply NoDup_app. split_and!; [| |by apply IH].
  - destruct (waits j g th); [apply NoDup_singleton|constructor].
  - intros [t s] Hin (x & ans & Hx & _ & <- & _)%ids_in. apply waiting_in in Hx as (i & th' & _ & _ & ->). destruct (waits j g th); [|inversion Hin].
    apply list_elem_of_singleton in Hin. cbn in Hin. injection Hin as Hin _. lia.
Qed.
Lemma waiting_thread now j g ths t s : (t, s) ∈ ids (waiting now j g 0 ths) -> exists th, ths !! t = Some (Some th) /\ waits j g th = true /\ s = th_start th.
Proof. intros (x & ans & Hx & _ & <- & <-)%ids_in. apply waiting_in in Hx as (i & th & Hi & Hw & ->). by exists th. Qed.
Lemma waiting_answered now j g ths t th log : ths !! t = Some (Some th) -> waits j g th = true -> answered (log ++ waiting now j g 0 ths) t th (missed (th_call th)).
Proof.
  intros Ht Hw. eexists. split; [apply elem_of_app; right; apply waiting_in; by exists t, th|]. done.
Qed.
(** Missing a key that is not there changes nothing. *)
Lemma history_missed l new : (forall x, x ∈ new -> exists key, refers (ev_call x) key /\ ev_effect x = Answered (missed (ev_call x)) /\ item_at key l = None) -> history new l l.
Proof.
  induction new as [|x new IH]; intros H; [done|]. exists l. split; [|apply IH; intros y Hy; apply H; by right].
  destruct (H x ltac:(by left)) as (key & Hr & He & Hn). unfold event_step. rewrite He. exists (mk_env 0 None false).
  destruct (ev_call x); try done; cbn in Hr; subst; cbn; unfold on_item; by rewrite Hn.
Qed.

Lemma waits_ref w log l0 l t th j en : cache_inv w log l0 l -> cw_threads w !! t = Some (Some th) -> cw_es w !! j = Some en -> waits j (ce_gen en) th = true ->
  refers (th_call th) (ce_key en) /\ (t, th_start th) ∉ ids log.
Proof.
  intros Hw Ht Hj. destruct (iv_threads _ _ _ _ Hw t th Ht) as (_ & _ & Hp). unfold waits.
  assert (Href : forall key i g, ref_ok (cw_es w) l log t th key i g -> (i =? j)%nat && (g =? ce_gen en) = true -> refers (th_call th) (ce_key en) /\ (t, th_start th) ∉ ids log).
  { intros key i g (Hr & e & He & _ & Heq & _) [->%Nat.eqb_eq ->%Z.eqb_eq]%andb_true_iff. rewrite Hj in He. injection He as <-.
    destruct (Heq eq_refl) as (-> & _ & _ & ?). done. }
  destruct (th_at th) as [|key i g|key i g| | |]; try done; [by eapply Href|destruct Hp as [Hp _]; by eapply Href].
Qed.
(** Clearing slot [j]: one event of the thread's own, then everybody who has
    looked that registration up has missed it. *)
Lemma clear_step w log l0 l t th j en key ans f :
  cache_inv w log l0 l -> cw_threads w !! t = Some (Some th) -> cw_lock w = None -> Z.of_nat (S (cw_time w)) < 2 ^ 32 ->
  find_entry key (cw_es w) = Some j -> cw_es w !! j = Some en ->
  event_step (event_now w t th f) l (<[j := None]> l) -> (f = Evicted -> saw_aged log t (th_start th) (th_call th)) ->
  (forall a, f = Answered a -> ((t, th_start th) ∉ ids log) /\ waits j (ce_gen en) th = false) ->
  let new := event_now w t th f :: waiting (cw_time w) j (ce_gen en) 0 (cw_threads w) in
  answered (log ++ new) t th ans ->
  cache_inv (moved t th (Tearing j key ans) (Some t) (<[j := teardown en]> (cw_es w)) w) (log ++ new) l0 (<[j := None]> l).
Proof.
  intros Hw Ht Hlk Hwrap Hfind Hj Hstep Hevict Hans new Hansd.
  assert (Htable : l = shown (cw_es w)) by (rewrite (iv_table _ _ _ _ Hw); unfold holder; by rewrite Hlk, shown_imap).
  destruct (find_at _ _ _ Hfind) as (en0 & Hen0 & Hlive & Hkey). rewrite Hj in Hen0. injection Hen0 as <-.
  assert (Hlj : l !! j = Some (Some (mk_item (ce_key en) (ce_data en)))) by (rewrite Htable, (shown_at _ _ _ Hj); unfold show; by rewrite Hlive).
  assert (Hgone : item_at (ce_key en) (<[j := None]> l) = None) by (apply (removed_gone l j _ (iv_distinct _ _ _ _ Hw) Hlj)).
  pose proof (iv_gens _ _ _ _ Hw j en Hj) as Hgen.
  assert (Hwaiting : forall x, x ∈ waiting (cw_time w) j (ce_gen en) 0 (cw_threads w) -> ev_time x = cw_time w /\ (exists a, ev_effect x = Answered a) /\ exists th', cw_threads w !! ev_thread x = Some (Some th') /\ th_start th' = ev_start x /\ th_call th' = ev_call x).
  { intros x (i & th' & Hi & _ & ->)%waiting_in. split; [done|]. split; [by eexists|]. by exists th'. }
  apply (take_step w log l0 l t th (Tearing j key ans) j en (teardown en)); try done.
  - cbn. by rewrite u32_small by lia.
  - cbn. rewrite Nat.eqb_refl. rewrite list_lookup_insert_eq; [done|by eapply lookup_lt_Some].
  - rewrite list_lookup_insert_eq; [by eexists|by eapply lookup_lt_Some].
  - intros k e Hk. cbn. by rewrite (proj2 (Nat.eqb_neq j k)) by done.
  - intros k Hk. by rewrite list_lookup_insert_ne.
  - by rewrite length_insert.
  - exists (<[j := None]> l). split; [done|]. apply history_missed. intros x Hx. apply waiting_in in Hx as (i & th' & Hi & Hwt & ->).
    destruct (waits_ref w log l0 l i th' j en Hw Hi Hj Hwt) as [Hr _]. by exists (ce_key en).
  - apply distinct_remove, Hw.
  - intros x [->|Hx]%elem_of_cons; [split; [done|]; by exists th|]. destruct (Hwaiting x Hx) as (? & _ & ?). done.
  - rewrite ids_app. apply NoDup_app. split; [apply Hw|].
    assert (Hin : forall y, y ∈ ids (waiting (cw_time w) j (ce_gen en) 0 (cw_threads w)) -> y ∉ ids log).
    { intros [t' s'] (th' & Hth' & Hwt & ->)%waiting_thread. by destruct (waits_ref w log l0 l t' th' j en Hw Hth' Hj Hwt). }
    unfold new. change (ids (event_now w t th f :: ?l)) with (ids ([event_now w t th f] ++ l)). rewrite ids_app. destruct f as [a| |].
    + destruct (Hans a eq_refl) as [H1 H2]. cbn [ids omap list_omap event_now answered_id ev_effect ev_thread ev_start app]. split.
      * intros y Hy [->|Hy']%elem_of_cons; [done|by apply (Hin y)].
      * apply NoDup_cons. split; [|apply waiting_ids]. intros (th' & Hth' & Hwt & _)%waiting_thread. rewrite Ht in Hth'. injection Hth' as <-. congruence.
    + cbn. split; [intros y Hy Hy'; by apply (Hin y)|apply waiting_ids].
    + cbn. split; [intros y Hy Hy'; by apply (Hin y)|apply waiting_ids].
  - intros x [->|Hx]%elem_of_cons He; [by apply Hevict|]. destruct (Hwaiting x Hx) as (_ & [a Ha] & _). congruence.
  - intros t' th' Hn Ht'. split.
    + intros Hwt _. unfold new. change (event_now w t th f :: ?l) with ([event_now w t th f] ++ l). rewrite app_assoc. by apply waiting_answered.
    + intros Hwt. unfold new. change (ids (event_now w t th f :: ?l)) with (ids ([event_now w t th f] ++ l)). rewrite ids_app. intros [Hin|Hin]%elem_of_app.
      * revert Hin. by apply (not_others _ t); [intros x ->%list_elem_of_singleton|].
      * apply waiting_thread in Hin as (th2 & Hth2 & Hwt2 & _). rewrite Ht' in Hth2. injection Hth2 as <-. congruence.
  - destruct (iv_threads _ _ _ _ Hw t th Ht) as (Hs & Hf & _). split; [cbn; lia|]. split; [done|]. done.
Qed.

(** * Every step *)

Lemma answered_new log w t th th' ans : th_start th' = th_start th -> th_call th' = th_call th -> answered (log ++ [event_now w t th (Answered ans)]) t th' ans.
Proof. intros H1 H2. eexists. split; [apply elem_of_app; right; by apply list_elem_of_singleton|]. by rewrite H1, H2. Qed.
(** A thread answers and nothing else happens. *)
Lemma answer_step w log l0 l t th ans n new :
  cache_inv w log l0 l -> cw_threads w !! t = Some (Some th) -> holds_lock (th_at th) = false -> history new l l ->
  (new = [] \/ (new = [event_now w t th (Answered ans)] /\ (t, th_start th) ∉ ids log)) ->
  answered (log ++ new) t th ans ->
  cache_inv (tick (goto t th (Telling ans n) w)) (log ++ new) l0 l.
Proof.
  intros Hw Ht Hp Hh Hnew Hans. rewrite moved_same. destruct (iv_threads _ _ _ _ Hw t th Ht) as (Hs & Hf & _).
  apply (kept_step w log l0 l t th (Telling ans n) (cw_lock w)); try done.
  - by left.
  - apply slots_kept_refl.
  - right. intros i e e' H1 H2. congruence.
  - rewrite (iv_table _ _ _ _ Hw) at 1. apply imap_same. intros i e. symmetry. by apply holder_moved.
  - apply Hw.
  - intros x Hx. destruct Hnew as [-> | [-> _]]; [inversion Hx|]. by apply list_elem_of_singleton in Hx as ->.
  - destruct Hnew as [-> | [-> Hnot]]; [by left|right]. done.
  - split; [cbn; lia|]. done.
Qed.

Lemma called_step w log l0 l t th e w' : cache_inv w log l0 l -> cw_threads w !! t = Some (Some th) -> th_at th = Called -> Z.of_nat (S (cw_time w)) < 2 ^ 32 ->
  thread_step t th e w = Some w' -> exists log' l', cache_inv (tick w') log' l0 l'.
Proof.
  intros Hw Ht Hat Hwrap. destruct (iv_threads _ _ _ _ Hw t th Ht) as (Hs & Hf & Hp). rewrite Hat in Hp. unfold thread_step. rewrite Hat. unfold free_lock.
  destruct (cw_lock w) as [t0|] eqn:Hlk; [done|]. cbn [negb]. intros [= <-].
  assert (Htable : l = shown (cw_es w)) by (rewrite (iv_table _ _ _ _ Hw); unfold holder; by rewrite Hlk, shown_imap).
  assert (Hnh : holds_lock (th_at th) = false) by (by rewrite Hat).
  destruct (begin_call (th_call th) e (cw_es w)) as [ans|key i g|key cfg i|i key] eqn:Hb.
  - exists (log ++ [event_now w t th (Answered ans)]), l. apply answer_step; try done.
    + exists l. split; [|done]. unfold event_step. cbn. rewrite Htable. by apply (begin_answers _ e).
    + by right.
    + by apply answered_new.
  - destruct (begin_refers _ _ _ _ _ _ Hb) as (Hr & en & Hen & <- & Hlive & <-). exists (log ++ []), l. rewrite moved_same.
    apply (kept_step w log l0 l t th (Found (ce_key en) i (ce_gen en)) (cw_lock w)); try done.
    + by left.
    + apply slots_kept_refl.
    + right. intros j e1 e2 H1 H2. congruence.
    + rewrite (iv_table _ _ _ _ Hw) at 1. apply imap_same. intros k x. symmetry. by apply holder_moved.
    + apply Hw.
    + intros x Hx. inversion Hx.
    + by left.
    + split; [cbn; lia|]. split; [done|]. cbn. split; [done|]. exists en. rewrite app_nil_r, Htable. split_and!; [done|lia| |lia]. intros _. split_and!; try done. by apply shown_at.
  - destruct (begin_fills _ _ _ _ _ _ Hb) as (Hc & Hnone & (en & Hen & Hlive) & Honce). rewrite (alter_at _ _ _ _ Hen). pose proof (iv_gens _ _ _ _ Hw i en Hen) as Hgen.
    assert (Hli : l !! i = Some None) by (rewrite Htable, (shown_at _ _ _ Hen); unfold show; by rewrite Hlive).
    set (l' := match key with [] => l | _ => <[i := Some (mk_item key (cfg_data cfg))]> l end).
    exists (log ++ [event_now w t th (Answered (mk_ans BB_OK true [] 0))]), l'.
    change (tick (goto t th (Filling key cfg i) (with_lock (Some t) (with_es (<[i:=bump_gen en]> (cw_es w)) w)))) with (moved t th (Filling key cfg i) (Some t) (<[i:=bump_gen en]> (cw_es w)) w).
    apply (take_step w log l0 l t th (Filling key cfg i) i en (bump_gen en)); try done.
    + by intros ? ? ? [= _ _ <-].
    + cbn. by rewrite u32_small by lia.
    + cbn. rewrite Nat.eqb_refl. unfold l'. destruct key; [by rewrite Hli|]. rewrite list_lookup_insert_eq; [done|by eapply lookup_lt_Some].
    + unfold l'. destruct key; [by eexists|]. rewrite list_lookup_insert_eq; [by eexists|by eapply lookup_lt_Some].
    + intros k x Hk. cbn. by rewrite (proj2 (Nat.eqb_neq i k)) by done.
    + intros k Hk. unfold l'. destruct key; [done|]. by rewrite list_lookup_insert_ne.
    + unfold l'. destruct key; [done|]. by rewrite length_insert.
    + exists l'. split; [|done]. unfold event_step. cbn. exists e. unfold l'. rewrite Htable. exact Honce.
    + unfold l'. destruct key; [apply Hw|]. apply distinct_add; [apply Hw|by rewrite Htable].
    + intros x ->%list_elem_of_singleton. split; [done|]. by exists th.
    + eapply ids_fresh; [apply Hw|]. right. done.
    + by intros x ->%list_elem_of_singleton.
    + intros t' th' Hn Ht'. split; [intros _ Hl2; congruence|]. intros _. apply (not_others _ t); [|done]. by intros x ->%list_elem_of_singleton.
    + split; [cbn; lia|]. split; [done|]. by apply answered_new.
  - destruct (begin_tears _ _ _ _ _ Hb) as [Hc Hfind]. destruct (find_at _ _ _ Hfind) as (en & Hen & Hlive & Hkey). rewrite (alter_at _ _ _ _ Hen).
    eexists _, _. eapply (clear_step w log l0 l t th i en key (rc_answer BB_OK) (Answered (rc_answer BB_OK))); try done.
    + unfold event_step. cbn. exists e. rewrite Hc. cbn. rewrite Htable, <- find_entry_shown, Hfind. done.
    + intros a _. split; [done|]. unfold waits. by rewrite Hat.
    + eexists. split; [apply elem_of_app; right; by left|]. done.
Qed.
Lemma match_iff key g e : entry_matches_locked key g e = true <-> live e = true /\ ce_gen e = g /\ ce_key e = key.
Proof. unfold entry_matches_locked. rewrite !andb_true_iff, Z.eqb_eq, bool_decide_eq_true. tauto. Qed.
(** Looking at a slot again: it is the registration looked up, and is so for
    everybody, or the call has been answered already. *)
Lemma ref_seen es l log t th key i g entry : ref_ok es l log t th key i g -> es !! i = Some entry ->
  (entry_matches_locked key g entry = true /\ refers (th_call th) key /\ l !! i = Some (Some (mk_item key (ce_data entry))) /\ (t, th_start th) ∉ ids log) \/
  (entry_matches_locked key g entry = false /\ answered log t th (missed (th_call th))).
Proof.
  intros (Hr & e & He & Hle & Heq & Hlt) Hi. rewrite Hi in He. injection He as <-. destruct (Z.eq_dec g (ce_gen entry)) as [->|Hn].
  - left. destruct (Heq eq_refl) as (Hk & Hl & Hs & Hnot). split; [by apply match_iff|]. split; [done|]. split; [|done]. rewrite Hs. unfold show. by rewrite Hl, Hk.
  - right. split; [|apply Hlt; lia]. apply not_true_iff_false. intros (_ & ? & _)%match_iff. congruence.
Qed.
Lemma entry_live key g e : entry_matches_locked key g e = true -> live e = true.
Proof. by intros (? & _)%match_iff. Qed.

Lemma on_entry_aged c key e d : refers c key -> on_entry c key e d = None -> aged_out (en_now e) d = true.
Proof.
  destruct c as [k cf|k snap ts|k|k cap|k|k|k|k| |index cap]; cbn; intros Hr; try done.
  - by destruct (write_data snap ts (en_now e) d) as [[]].
  - unfold read_locked. destruct (aged_out (en_now e) d); [done|]. by destruct (copy_owned_and_capture_locked cap (en_now e) (en_snap e) d) as [[[]]].
  - by destruct (aged_out (en_now e) d).
Qed.
Lemma refers_key c key : refers c key -> call_key c = key.
Proof. by destruct c. Qed.

Lemma found_step w log l0 l t th key i g e w' : cache_inv w log l0 l -> cw_threads w !! t = Some (Some th) -> th_at th = Found key i g ->
  thread_step t th e w = Some w' -> exists log' l', cache_inv (tick w') log' l0 l'.
Proof.
  intros Hw Ht Hat. destruct (iv_threads _ _ _ _ Hw t th Ht) as (Hs & Hf & Hp). rewrite Hat in Hp. unfold thread_step. rewrite Hat.
  assert (Hnh : holds_lock (th_at th) = false) by (by rewrite Hat).
  destruct (cw_es w !! i) as [entry|] eqn:Hi; [|done]. destruct (ref_seen _ _ _ _ _ _ _ _ _ Hp Hi) as [(Hm & Hr & Hli & Hnot)|[Hm Hans]]; rewrite Hm; cbn [negb].
  2: { intros [= <-]. exists (log ++ []), l. apply answer_step; try done; [by left|by apply answered_app]. }
  destruct (on_entry (th_call th) key e (ce_data entry)) as [[[ans n] d]|] eqn:Ho; intros [= <-].
  - exists (log ++ [event_now w t th (Answered ans)]), (<[i := Some (mk_item key d)]> l).
    change (tick (goto t th (Telling ans n) (with_es (<[i:=set_data d entry]> (cw_es w)) w))) with (moved t th (Telling ans n) (cw_lock w) (<[i:=set_data d entry]> (cw_es w)) w).
    pose proof (proj1 (match_iff _ _ _) Hm) as (Hlive & Hg & Hk).
    assert (Hshow : show (set_data d entry) = Some (mk_item key d)) by (unfold show, live; cbn; unfold live in Hlive; destruct (ce_key entry); [done|by subst]).
    assert (Hkeep : l !! i = Some (slot_shown (holder w) i entry)) by (rewrite (iv_table _ _ _ _ Hw), list_lookup_imap, Hi; done).
    apply (kept_step w log l0 l t th (Telling ans n) (cw_lock w)); try done.
    + by left.
    + intros k x Hx. destruct (decide (k = i)) as [->|Hn].
      * rewrite Hi in Hx. injection Hx as <-. exists (set_data d entry). rewrite list_lookup_insert_eq by (by eapply lookup_lt_Some). split; [done|]. split; [done|].
        intros _ _. split; [done|]. split; [done|]. rewrite list_lookup_insert_eq by (by eapply lookup_lt_Some). by rewrite Hshow.
      * exists x. by rewrite !list_lookup_insert_ne.
    + by rewrite length_insert.
    + right. intros k x x' Hx [[-> ->]|[_ Hx']]%insert_cases Hl2; [rewrite Hi in Hx; injection Hx as <-; congruence|congruence].
    + exists (<[i := Some (mk_item key d)]> l). split; [|done]. unfold event_step. cbn. exists e. by eapply (section_at_once _ key e l i (mk_item key (ce_data entry))); [|apply Hw| | |].
    + rewrite imap_insert. rewrite (imap_same _ (slot_shown (holder w))) by (intros k x; by apply holder_moved). rewrite <- (iv_table _ _ _ _ Hw).
      f_equal. rewrite holder_moved by done. rewrite Hkeep in Hli. injection Hli as Hli.
      unfold slot_shown in *. destruct (holder w) as [[| | |k2 cfg2 j2|j2 k2 a2|]|] eqn:Hh; try (by rewrite Hshow).
      * destruct (j2 =? i)%nat eqn:Hj; [|by rewrite Hshow]. apply Nat.eqb_eq in Hj as ->. pose proof (iv_fill _ _ _ _ Hw _ _ _ _ Hh Hi). congruence.
      * destruct (j2 =? i)%nat eqn:Hj; [done|by rewrite Hshow].
    + apply (distinct_same_key l i (mk_item key (ce_data entry)) d); [apply Hw|done].
    + by intros x ->%list_elem_of_singleton.
    + by right.
    + split; [cbn; lia|]. split; [done|]. by apply answered_new.
  - pose proof (on_entry_aged _ _ _ _ Hr Ho) as Haged. exists (log ++ [event_now w t th SawAged]), l. rewrite moved_same.
    apply (kept_step w log l0 l t th (Aged key i g) (cw_lock w)); try done.
    + by left.
    + apply slots_kept_refl.
    + right. intros j e1 e2 H1 H2. congruence.
    + exists l. split; [|done]. split; [done|]. exists i, (mk_item key (ce_data entry)), (en_now e). cbn. rewrite (refers_key _ _ Hr). split; [|done].
      by apply (item_at_unique l i (mk_item key (ce_data entry)) (iv_distinct _ _ _ _ Hw)).
    + rewrite (iv_table _ _ _ _ Hw) at 1. apply imap_same. intros k x. symmetry. by apply holder_moved.
    + apply Hw.
    + by intros x ->%list_elem_of_singleton.
    + by left.
    + split; [cbn; lia|]. split; [done|]. split.
      * eapply ref_kept; [apply slots_kept_refl| |exact Hp]. intros H. inversion H.
      * eexists. split; [apply elem_of_app; right; by apply list_elem_of_singleton|]. done.
Qed.

Lemma aged_step w log l0 l t th key i g e w' : cache_inv w log l0 l -> cw_threads w !! t = Some (Some th) -> th_at th = Aged key i g -> Z.of_nat (S (cw_time w)) < 2 ^ 32 ->
  thread_step t th e w = Some w' -> exists log' l', cache_inv (tick w') log' l0 l'.
Proof.
  intros Hw Ht Hat Hwrap. destruct (iv_threads _ _ _ _ Hw t th Ht) as (Hs & Hf & Hp). rewrite Hat in Hp. destruct Hp as [Hp Hsaw].
  unfold thread_step. rewrite Hat. unfold free_lock.
  destruct (cw_lock w) as [t0|] eqn:Hlk; [done|]. cbn [negb]. intros [= <-].
  assert (Htable : l = shown (cw_es w)) by (rewrite (iv_table _ _ _ _ Hw); unfold holder; by rewrite Hlk, shown_imap).
  assert (Hnh : holds_lock (th_at th) = false) by (by rewrite Hat).
  destruct Hp as (Hr & entry & Hi & Hle & Heq & Hlt).
  (* the registration found aged is still there, or the call has been answered *)
  assert (Hstale : g <> ce_gen entry -> answered log t th (missed (th_call th))) by (intros; apply Hlt; lia).
  assert (Hfound : g = ce_gen entry -> find_entry key (cw_es w) = Some i).
  { intros Hg. destruct (Heq Hg) as (Hk & Hlive & Hli & _). rewrite find_entry_shown, <- Htable. unfold show in Hli. rewrite Hlive, Hk in Hli.
    apply (item_at_unique l i _ (iv_distinct _ _ _ _ Hw) Hli). }
  destruct (find_entry_locked_ref key (cw_es w)) as [[j g']|] eqn:Href.
  - apply ref_at in Href as (Hfind & en & Hen & <-). destruct (Z.eqb_spec (ce_gen en) g) as [Hg|Hg].
    + rewrite (alter_at _ _ _ _ Hen). destruct (find_at _ _ _ Hfind) as (en0 & Hen0 & Hlive & Hkey). rewrite Hen in Hen0. injection Hen0 as <-.
      eexists _, _. eapply (clear_step w log l0 l t th j en key (missed (th_call th)) Evicted); try done.
      * exists j. cbn. rewrite (refers_key _ _ Hr), Htable, <- find_entry_shown. done.
      * destruct (Z.eq_dec g (ce_gen entry)) as [Hge|Hne]; [|by apply answered_app, Hstale]. rewrite (Hfound Hge) in Hfind. injection Hfind as <-.
        rewrite Hi in Hen. injection Hen as <-. change (event_now w t th Evicted :: ?l) with ([event_now w t th Evicted] ++ l). rewrite app_assoc. apply waiting_answered; [done|].
        unfold waits. by rewrite Hat, Nat.eqb_refl, <- Hg, Z.eqb_refl.
    + exists (log ++ []), l. apply answer_step; try done; [by left|]. apply answered_app, Hstale. intros Hge. rewrite (Hfound Hge) in Hfind. injection Hfind as <-. congruence.
  - apply ref_none in Href. exists (log ++ []), l. apply answer_step; try done; [by left|]. apply answered_app, Hstale. intros Hge. rewrite (Hfound Hge) in Href. done.
Qed.

(** Releasing the lock: what was agreed on is now in the table. *)
Lemma release_step w log l0 l t th j f ans n w' :
  cache_inv w log l0 l -> cw_threads w !! t = Some (Some th) -> holds_lock (th_at th) = true -> answered log t th ans ->
  (forall e, ce_gen (f e) = ce_gen e /\ show (f e) = slot_shown (Some (th_at th)) j e) -> (forall k e, k <> j -> slot_shown (Some (th_at th)) k e = show e) ->
  w' = goto t th (Telling ans n) (with_lock None (with_es (alter f j (cw_es w)) w)) -> exists log' l', cache_inv (tick w') log' l0 l'.
Proof.
  intros Hw Ht Hp Hans Hf Hother ->. destruct (iv_threads _ _ _ _ Hw t th Ht) as (Hs & Hfine & _).
  assert (Hhold : holder w = Some (th_at th)) by (unfold holder, phase_of; by rewrite (iv_lock _ _ _ _ Hw t th Ht Hp), Ht).
  assert (Htable : l = imap (slot_shown None) (alter f j (cw_es w))).
  { rewrite (iv_table _ _ _ _ Hw), Hhold. apply list_eq. intros k. rewrite !list_lookup_imap. destruct (decide (j = k)) as [<-|Hn].
    - rewrite list_lookup_alter_eq. destruct (cw_es w !! j) as [e|]; [|done]. cbn [fmap option_fmap option_map]. f_equal. symmetry. apply Hf.
    - rewrite list_lookup_alter_ne by done. destruct (cw_es w !! k) as [e|]; [|done]. cbn [fmap option_fmap option_map]. f_equal. by apply Hother. }
  exists (log ++ []), l. change (tick _) with (moved t th (Telling ans n) None (alter f j (cw_es w)) w).
  apply (kept_step w log l0 l t th (Telling ans n) None); try done.
  - right. done.
  - intros k e He. destruct (decide (j = k)) as [<-|Hn].
    + exists (f e). rewrite list_lookup_alter_eq, He. destruct (Hf e) as [Hg Hshow]. split; [done|]. split; [done|]. intros Hlive Hl.
      assert (Hsame : show (f e) = show e).
      { rewrite (iv_table _ _ _ _ Hw), Hhold, list_lookup_imap, He in Hl. cbn [fmap option_fmap option_map] in Hl. assert (Hl3 : slot_shown (Some (th_at th)) j e = show e) by congruence. by rewrite Hshow. }
      unfold show in Hsame. rewrite Hlive in Hsame. destruct (live (f e)) eqn:Hl2; [|done]. injection Hsame as Hk Hd. split; [done|]. split; [done|].
      rewrite Hl. unfold show. by rewrite Hlive, Hl2, Hk, Hd.
    + exists e. by rewrite list_lookup_alter_ne.
  - by rewrite length_alter.
  - by left.
  - apply Hw.
  - intros x Hx. inversion Hx.
  - by left.
  - split; [cbn; lia|]. split; [done|]. by apply answered_app.
Qed.
Lemma holding_step w log l0 l t th e w' : cache_inv w log l0 l -> cw_threads w !! t = Some (Some th) -> holds_lock (th_at th) = true ->
  thread_step t th e w = Some w' -> exists log' l', cache_inv (tick w') log' l0 l'.
Proof.
  intros Hw Ht Hp. destruct (iv_threads _ _ _ _ Hw t th Ht) as (_ & _ & Hans). unfold thread_step.
  destruct (th_at th) as [| | |key cfg j|j key ans|] eqn:Hat; try done; intros [= <-].
  - eapply (release_step w log l0 l t th j (fill_slot key cfg)); [done|done|by rewrite Hat|exact Hans| | |done]; rewrite Hat.
    + intros x. split; [done|]. cbn. rewrite Nat.eqb_refl. unfold show, live. cbn. by destruct key.
    + intros k x Hk. cbn. by rewrite (proj2 (Nat.eqb_neq j k)) by done.
  - eapply (release_step w log l0 l t th j (set_key [])); [done|done|by rewrite Hat|exact Hans| | |done]; rewrite Hat.
    + intros x. split; [done|]. cbn. by rewrite Nat.eqb_refl.
    + intros k x Hk. cbn. by rewrite (proj2 (Nat.eqb_neq j k)) by done.
Qed.

(** Threads that come and go. *)
Lemma swap_step w log l0 l t o notices done' :
  cache_inv w log l0 l -> (forall th, cw_threads w !! t = Some (Some th) -> holds_lock (th_at th) = false) ->
  (forall th, o = Some th -> th_at th = Called /\ th_start th = cw_time w /\ call_fine (th_call th)) ->
  (forall x, x ∈ cw_done w -> x ∈ done') ->
  (forall th, cw_threads w !! t = Some (Some th) -> exists f ans, (t, th_call th, th_start th, f, ans) ∈ done') ->
  (forall t' c s f ans, (t', c, s, f, ans) ∈ done' -> (t', c, s, f, ans) ∈ cw_done w \/ exists x, x ∈ log /\ of_call t' s c x /\ ev_effect x = Answered ans /\ (s <= ev_time x <= f)%nat) ->
  cache_inv (tick (mk_cw (cw_es w) (cw_lock w) (<[t := o]> (cw_threads w)) notices (cw_time w) done')) log l0 l.
Proof.
  intros [I1 I1b I2 I3 I4 I5 I6 I7 I8 I9 I10 I11] Hnh Ho Hsub Hdone Hev.
  set (w' := tick _).
  assert (Hhold : forall i e, slot_shown (holder w') i e = slot_shown (holder w) i e).
  { intros i e. unfold holder, w'. cbn. destruct (cw_lock w) as [t0|]; [|done]. unfold phase_of. destruct (decide (t = t0)) as [<-|Hn]; [|by rewrite list_lookup_insert_ne].
    destruct (decide (t < length (cw_threads w))%nat) as [Hlt|Hge]; [|by rewrite list_insert_ge by lia].
    rewrite list_lookup_insert_eq by done. transitivity (show e).
    - destruct o as [th'|]; [|done]. by rewrite (proj1 (Ho _ eq_refl)).
    - destruct (cw_threads w !! t) as [[th|]|] eqn:Ht; [|done|done]. symmetry. by apply shown_quiet, Hnh. }
  split; cbn [w' tick cw_es cw_lock cw_threads cw_notices cw_time cw_done].
  - rewrite I1. apply imap_same. intros. symmetry. apply Hhold.
  - intros key cfg i e Hf Hi. apply (I1b key cfg i e); [|done]. unfold holder, w' in *. cbn in Hf. destruct (cw_lock w) as [t0|]; [|done]. unfold phase_of in *.
    destruct (decide (t = t0)) as [<-|Hn]; [|by rewrite list_lookup_insert_ne in Hf].
    destruct (<[t:=o]> (cw_threads w) !! t) as [[th|]|] eqn:Hx; try done. apply list_lookup_insert_Some in Hx as [(_ & -> & _)|[? _]]; [|done].
    injection Hf as Hf. destruct (Ho th eq_refl) as [Hc _]. congruence.
  - intros t' th [[-> <-]|[Hn Ht']]%insert_cases Hh; [|by apply (I2 t' th)]. by rewrite (proj1 (Ho th eq_refl)) in Hh.
  - done.
  - intros i e Hi. specialize (I4 i e Hi). lia.
  - intros t' th [[-> <-]|[Hn Ht']]%insert_cases.
    + destruct (Ho th eq_refl) as (Hc & Hs & Hf). split; [lia|]. split; [done|]. rewrite Hc. rewrite ids_in. intros (x & ans & Hx & _ & _ & Hst). destruct (I8 x Hx) as [? _]. lia.
    + rewrite <- (app_nil_r log). eapply thread_kept; [apply slots_kept_refl| |by apply I5]. intros H. inversion H.
  - intros t' c s f ans [Hin|Hin]%Hev; [by apply I6|done].
  - done.
  - intros x Hx. destruct (I8 x Hx) as [Htm Hof]. split; [lia|]. destruct Hof as [(f & ans & Hin)|(th & Ht' & Hs & Hc)]; [left; exists f, ans; by apply Hsub|].
    destruct (decide (t = ev_thread x)) as [Heq|Hn].
    + left. rewrite <- Heq in *. destruct (Hdone th Ht') as (f & ans & Hin). exists f, ans. cbn. by rewrite <- Hc, <- Hs.
    + right. exists th. cbn. by rewrite list_lookup_insert_ne.
  - done.
  - done.
  - done.
Qed.

Definition act_fine (a : cache_act) : Prop := match a with Start _ c => call_fine c | Go _ _ => True end.
Lemma cache_step_inv a w w' log l0 l : cache_inv w log l0 l -> act_fine a -> Z.of_nat (S (cw_time w)) < 2 ^ 32 -> cache_step a w = Some w' -> exists log' l', cache_inv w' log' l0 l'.
Proof.
  intros Hw Hf Hwrap. destruct a as [t c|t e]; cbn [cache_step].
  - destruct (cw_threads w !! t) as [[th|]|] eqn:Ht; try done. intros [= <-]. exists log, l. apply swap_step; try done.
    + intros th Hth. congruence.
    + by intros th [= <-].
    + intros th Hth. congruence.
    + intros. by left.
  - destruct (cw_threads w !! t) as [[th|]|] eqn:Ht; try done. destruct (thread_step t th e w) as [w1|] eqn:Hs; [|done]. intros [= <-].
    destruct (th_at th) as [|key i g|key i g|key cfg i|i key ans|ans n] eqn:Hat.
    + by eapply called_step.
    + by eapply found_step.
    + by eapply aged_step.
    + eapply holding_step; [done|done|by rewrite Hat|done].
    + eapply holding_step; [done|done|by rewrite Hat|done].
    + unfold thread_step in Hs. rewrite Hat in Hs. injection Hs as <-. destruct (iv_threads _ _ _ _ Hw t th Ht) as (Hst & _ & Hp). rewrite Hat in Hp.
      exists log, l. apply swap_step; try done.
      * intros th' Ht'. rewrite Ht in Ht'. injection Ht' as <-. by rewrite Hat.
      * intros x Hx. apply elem_of_app. by left.
      * intros th' Ht'. rewrite Ht in Ht'. injection Ht' as <-. eexists _, _. apply elem_of_app. right. by apply list_elem_of_singleton.
      * intros t' c s f a [Hin|Hin]%elem_of_app; [by left|]. right. apply list_elem_of_singleton in Hin. injection Hin as -> -> -> -> ->.
        destruct Hp as (x & Hx & Hof & He). exists x. split; [done|]. split; [done|]. split; [done|]. destruct (iv_log _ _ _ _ Hw x Hx) as [? _]. destruct Hof as (_ & <- & _). lia.
Qed.
Lemma cache_step_time a w w' : cache_step a w = Some w' -> cw_time w' = S (cw_time w).
Proof.
  destruct a as [t c|t e]; cbn [cache_step].
  - destruct (cw_threads w !! t) as [[th|]|]; try done. by intros [= <-].
  - destruct (cw_threads w !! t) as [[th|]|]; try done. unfold thread_step.
    destruct (th_at th); repeat first [case_match | progress cbn [option_map]]; intros [= <-]; done.
Qed.
Lemma cache_run_inv acts : forall w w' log l0 l, cache_inv w log l0 l -> Forall act_fine acts -> Z.of_nat (cw_time w + length acts) < 2 ^ 32 -> cache_run acts w = Some w' ->
  exists log' l', cache_inv w' log' l0 l'.
Proof.
  induction acts as [|a acts IH]; intros w w' log l0 l Hw Hf Hlen; cbn [cache_run length] in *; [intros [= <-]; by exists log, l|].
  apply Forall_cons in Hf as [Ha Hf]. destruct (cache_step a w) as [w1|] eqn:E; [|done]. intros Hr.
  destruct (cache_step_inv a w w1 log l0 l Hw Ha ltac:(lia) E) as (log1 & l1 & H1). eapply (IH w1); [done|done| |done]. rewrite (cache_step_time _ _ _ E). lia.
Qed.
Lemma cache_world0_inv n m : cache_inv (cache_world0 n m) [] (repeat None n) (repeat None n).
Proof.
  assert (Hi : forall t th, repeat (None (A := thread)) m !! t = Some (Some th) -> False) by (intros t th H; by apply list_elem_of_lookup_2, list_elem_of_In, repeat_spec in H).
  assert (Hn : forall (i : nat) e, cache0 n !! i = Some e -> e = no_entry) by (intros i e H; by apply list_elem_of_lookup_2, list_elem_of_In, repeat_spec in H).
  split; cbn [cache_world0 cw_es cw_lock cw_threads cw_notices cw_time cw_done].
  - unfold holder. cbn. rewrite shown_imap. unfold cache0, shown. induction n as [|n IH]; [done|]. cbn. f_equal. by rewrite IH at 1 by (intros i; by apply (Hn (S i))).
  - intros key cfg i e _ ->%Hn. done.
  - by intros t th []%Hi.
  - intros i j x y H. by apply list_elem_of_lookup_2, list_elem_of_In, repeat_spec in H.
  - intros i e ->%Hn. done.
  - by intros t th []%Hi.
  - intros t c s f ans H. inversion H.
  - constructor.
  - intros x H. inversion H.
  - constructor.
  - intros i x H. by rewrite lookup_nil in H.
  - done.
Qed.

(** * What the calls promise, and what eviction breaks *)

(** C31: however threads interleave their sections, up to 2^32 steps: the calls
    answer as if each had been carried out at one moment between its beginning
    and its end, one after the other, on one table of registrations (a key is
    there at most once; between changes it is what the slots hold).  The only
    other changes of that table are evictions, each by a reading call that has
    seen an entry of its key aged out before; so whoever has looked a slot up
    never reads or writes a later registration in it. *)
Theorem cache_calls_linearize n m acts w :
  Forall act_fine acts -> Z.of_nat (length acts) < 2 ^ 32 -> cache_run acts (cache_world0 n m) = Some w ->
  exists log l, history log (repeat None n) l /\ distinct l /\ (cw_lock w = None -> l = shown (cw_es w)) /\
  StronglySorted le (ev_time <$> log) /\ NoDup (ids log) /\
  (forall t c s f ans, (t, c, s, f, ans) ∈ cw_done w -> exists x, x ∈ log /\ of_call t s c x /\ ev_effect x = Answered ans /\ (s <= ev_time x <= f)%nat) /\
  (forall x, x ∈ log -> (ev_start x <= ev_time x)%nat /\ event_of w x) /\
  (forall i x, log !! i = Some x -> ev_effect x = Evicted -> exists j y, (j < i)%nat /\ log !! j = Some y /\ of_call (ev_thread x) (ev_start x) (ev_call x) y /\ ev_effect y = SawAged).
Proof.
  intros Hf Hlen Hr. destruct (cache_run_inv acts _ w [] _ _ (cache_world0_inv n m) Hf Hlen Hr) as (log & l & Hw). exists log, l. split_and!; try by apply Hw.
  - intros Hlk. rewrite (iv_table _ _ _ _ Hw). unfold holder. by rewrite Hlk, shown_imap.
  - intros x Hx. destruct (iv_log _ _ _ _ Hw x Hx) as [? ?]. split; [lia|done].
Qed.

(** A run of one thread through a whole call at time [now]. *)
Definition whole (t : nat) (now : Z) (sections : nat) (c : cache_call) : list cache_act := Start t c :: repeat (Go t (mk_env now None true)) sections.
Definition plain (policy : evict_policy) : cache_cfg := mk_ccfg None 0 1 0 (mk_eviction policy 0 100).
Definition key_a : list byte := bs "a".
Definition key_b : list byte := bs "b".
(** Thread 0 reads an entry written at 1 at time 500 and finds it aged. *)
Definition found_aged : list cache_act :=
  whole 0 1 3 (CRegister key_a (plain BB_CACHE_EVICT_AGE_OUT)) ++ whole 0 1 3 (CUpdate key_a (bs "x") 0) ++ whole 0 500 2 (CRead key_a 1).
(** It goes on to evict; then the key is read again. *)
Definition evicted_then_read : list cache_act := repeat (Go 0 (mk_env 500 None true)) 3 ++ whole 1 500 2 (CRead key_a 1).
(** Thread 1 meanwhile writes the entry. *)
Definition written_meanwhile : list cache_act := found_aged ++ whole 1 500 3 (CUpdate key_a (bs "y") 0) ++ evicted_then_read.
(** Or it deletes the key, another key takes the slot, and the key is registered
    anew, pinned, in a slot never used. *)
Definition registered_meanwhile : list cache_act :=
  found_aged ++ whole 1 500 3 (CDelete key_a) ++ whole 1 500 3 (CRegister key_b (plain BB_CACHE_EVICT_PINNED)) ++
  whole 1 500 3 (CRegister key_a (plain BB_CACHE_EVICT_PINNED)) ++ whole 1 500 3 (CUpdate key_a (bs "y") 0) ++ evicted_then_read.
Definition answers_of (w : cache_world) : list (nat * cache_call * answer) := map (fun x => let '(t, c, _, _, ans) := x in (t, c, ans)) (cw_done w).

(** Between finding an entry aged and deleting it, eviction lets the entry's
    lock go, and the deletion looks the key up again and compares generations,
    which are counted per slot.  So a value written in between, for which
    bb_cache_update answered BB_OK, is deleted with its key at once.  And when
    the key has been registered anew in between, in a slot whose count happens to
    be the same, that registration is deleted, even a pinned one: here the first
    of slot 0 and the first of slot 1. *)
Theorem eviction_hits_newer_registration :
  (exists w, cache_run written_meanwhile (cache_world0 2 2) = Some w /\
    drop 2 (answers_of w) = [(1%nat, CUpdate key_a (bs "y") 0, mk_ans BB_OK true [] 0); (0%nat, CRead key_a 1, rc_answer BB_ERR_NOT_FOUND); (1%nat, CRead key_a 1, rc_answer BB_ERR_NOT_FOUND)] /\
    cw_notices w = [Written key_a 1; Written key_a 2; Gone key_a]) /\
  (exists w, cache_run registered_meanwhile (cache_world0 2 2) = Some w /\
    drop 2 (answers_of w) = [(1%nat, CDelete key_a, rc_answer BB_OK);
      (1%nat, CRegister key_b (plain BB_CACHE_EVICT_PINNED), mk_ans BB_OK true [] 0); (1%nat, CRegister key_a (plain BB_CACHE_EVICT_PINNED), mk_ans BB_OK true [] 0);
      (1%nat, CUpdate key_a (bs "y") 0, mk_ans BB_OK true [] 0); (0%nat, CRead key_a 1, rc_answer BB_ERR_NOT_FOUND); (1%nat, CRead key_a 1, rc_answer BB_ERR_NOT_FOUND)]).
Proof. split; (eexists; split; [vm_compute; reflexivity|]; vm_compute; done). Qed.

Lemma cache_calls_linearize_witness : exists w log l, cache_run registered_meanwhile (cache_world0 2 2) = Some w /\ history log (repeat None 2) l /\ l = shown (cw_es w) /\ length (cw_done w) = 8%nat.
Proof.
  destruct (cache_run registered_meanwhile (cache_world0 2 2)) as [w|] eqn:E; [|by vm_compute in E].
  destruct (cache_calls_linearize 2 2 registered_meanwhile w) as (log & l & H1 & _ & H2 & _); [repeat constructor|vm_compute; reflexivity|exact E|].
  vm_compute in E. injection E as <-. eexists _, log, l. split; [reflexivity|]. split; [exact H1|]. split; [by apply H2|reflexivity].
Defined.
