(* ===== verification/ScanStop.v ===== *)
(** Sinks that stop the scan early: a scan with a sink that answers an error is
    the scan with a sink that keeps the error to itself, ignores every later
    call and lets the scan run to its end. *)
From S2P Require Import Prelude Bytes Walk JsonScan ScanBytes.
Local Open Scope scan_scope.

Section Stop.
Context {K : Type} (i : ingest K) (norm : bb_err -> K -> K).

(** [norm]: what is kept of the state when the sink stops with an error. *)
Definition patient (x : bb_err * K) (f : K -> bb_err * K) : bb_err * (bb_err * K) :=
  (BB_OK, if is_ok x.1 then let r := f x.2 in if is_ok r.1 then r else (r.1, norm r.1 r.2) else x).
Definition patient_sink : ingest (bb_err * K) :=
  mk_ingest (fun key x => patient x (ig_begin_obj i key)) (fun x => patient x (ig_end_obj i))
    (fun key x => patient x (ig_begin_arr i key)) (fun x => patient x (ig_end_arr i))
    (fun key n x => patient x (ig_value_num i key n)) (fun key b x => patient x (ig_value_bool i key b))
    (fun key x => patient x (ig_value_null i key)) (fun key d fin p x => patient x (ig_value_str_chunk i key d fin p)).
Abbreviation ps := patient_sink.

(** From the state [x] the patient scan goes on as [r1], the scan itself as [r2]:
    as long as the sink is content they go on together, when it stops the scan
    has its error, and from then on the patient sink's state stays as it is. *)
Definition agree {A} (x : bb_err * K) (r1 : sres (bb_err * K) A) (r2 : sres K A) : Prop :=
  match r1 with
  | Ok a y =>
      if is_ok x.1
      then if is_ok y.1 then r2 = Ok a y.2 else exists k, r2 = Err y.1 k /\ y.2 = norm y.1 k
      else y = x
  | Err e _ => e <> BB_OK
  end.

Lemma agree_ok {A} (a : A) x : agree x (Ok a x) (Ok a x.2).
Proof. unfold agree. by destruct (is_ok x.1). Qed.
Lemma agree_err {A} x y e (r : sres K A) : e <> BB_OK -> agree x (Err e y) r.
Proof. done. Qed.
Lemma agree_bind {A B} x (r1 : sres (bb_err * K) A) r2 (f1 : A -> bb_err * K -> sres (bb_err * K) B) f2 :
  agree x r1 r2 -> (forall a y, agree y (f1 a y) (f2 a y.2)) -> agree x (sbind r1 f1) (sbind r2 f2).
Proof.
  unfold agree. destruct r1 as [e y|a y]; [done|]. cbn [sbind]. intros H Hf. specialize (Hf a y).
  destruct (is_ok x.1) eqn:Ex; [destruct (is_ok y.1) eqn:Ey|subst y; rewrite Ex in Hf].
  - rewrite H. exact Hf.
  - destruct H as (k & -> & Hk). destruct (f1 a y) as [|b z]; [done|]. subst z. rewrite Ey. by exists k.
  - exact Hf.
Qed.
Lemma agree_answered {A} (a : A) x f : agree x (answered a (patient x f)) (answered a (f x.2)).
Proof.
  unfold answered, patient, agree. cbn [fst snd is_ok]. destruct (is_ok x.1) eqn:Ex; [|done]. cbv zeta.
  destruct (is_ok (f x.2).1) eqn:Ef; cbn [fst snd]; rewrite Ef; [done|]. by exists (f x.2).2.
Qed.

Lemma agree_append s d x : agree x (scratch_append s d x) (scratch_append s d x.2).
Proof. unfold scratch_append. dmatch; [by apply agree_err|by apply agree_ok]. Qed.
Lemma agree_emit_str s d fin is_key p x :
  agree x (emit_str_bytes ps s d fin is_key p x) (emit_str_bytes i s d fin is_key p x.2).
Proof. unfold emit_str_bytes. destruct is_key; [apply agree_append|apply agree_answered]. Qed.

Lemma agree_scan_string is_key l : forall s run x, agree x (scan_string ps is_key s run l x) (scan_string i is_key s run l x.2).
Proof.
  induction l as [l IH] using (induction_ltof1 _ length). unfold ltof in IH. intros s run x. destruct l as [|c l]; cbn [scan_string].
  - destruct run; [by apply agree_ok|]. apply agree_bind; [by apply agree_emit_str|]. intros. by apply agree_ok.
  - assert (IH' : forall s run x, agree x (scan_string ps is_key s run l x) (scan_string i is_key s run l x.2)) by (intros; apply IH; cbn; lia).
    destruct (ss_esc_phase s).
    1: { destruct (Byte.eqb c x22); [|destruct (Byte.eqb c x5c); [destruct run|destruct (bz c <? 32)]]; auto.
      - apply agree_bind; [by apply agree_emit_str|]. intros. by apply agree_ok.
      - apply agree_bind; [by apply agree_emit_str|]. intros. by apply IH'.
      - by apply agree_err. }
    all: destruct (scan_escape_byte s c) as [[s1 [|d ds]]|]; [by apply IH'| |by apply agree_err];
      destruct (closing_quote l); (apply agree_bind; [by apply agree_emit_str|]); intros; [by apply agree_ok|by apply IH'].
Qed.
Lemma agree_scan_number l : forall s x, agree x (scan_number s l x) (scan_number s l x.2).
Proof.
  induction l as [|c l IH]; intros s x; cbn [scan_number]; [by apply agree_ok|].
  destruct (num_next _ c) as [[p|]|]; [|by apply agree_ok|by apply agree_err]. apply agree_bind; [by apply agree_append|]. intros. by apply IH.
Qed.
Lemma agree_finalize s x : agree x (finalize_number ps s x) (finalize_number i s x.2).
Proof. apply agree_answered. Qed.
Lemma agree_scan_literal l : forall s x, agree x (scan_literal s l x) (scan_literal s l x.2).
Proof.
  induction l as [|c l IH]; intros s x; cbn [scan_literal]; [by apply agree_ok|].
  destruct (negb _); [by apply agree_err|]. destruct (_ =? _)%nat; [by apply agree_ok|by apply IH].
Qed.
Lemma agree_emit_literal s x : agree x (emit_literal ps s x) (emit_literal i s x.2).
Proof. unfold emit_literal. destruct (ss_lit_kind s); apply agree_answered. Qed.
Lemma agree_close s x : agree x (close_container ps s x) (close_container i s x.2).
Proof. unfold close_container. destruct (ss_stack s) as [|[] st]; [by apply agree_err|apply agree_answered..]. Qed.
Lemma agree_open arr s x : agree x (open_container ps arr s x) (open_container i arr s x.2).
Proof.
  unfold open_container. destruct (_ <=? _)%nat; [by apply agree_err|]. apply agree_bind; [destruct arr; apply agree_answered|]. intros. apply agree_ok.
Qed.
Lemma agree_dispatch s c keyed x : agree x (dispatch_value_start ps s c keyed x) (dispatch_value_start i s c keyed x.2).
Proof.
  unfold dispatch_value_start. set (s0 := if keyed then s else _).
  assert (Hn : forall p, agree x (let* (s1, k3) := scratch_append s0 [c] x in Ok (set_phase PH_VAL_NUM (set_num_phase p s1)) k3)
                         (let* (s1, k3) := scratch_append s0 [c] x.2 in Ok (set_phase PH_VAL_NUM (set_num_phase p s1)) k3)).
  { intros p. apply agree_bind; [by apply agree_append|]. intros. by apply agree_ok. }
  destruct (is_digit c); [apply Hn|].
  destruct c; try (by apply agree_err); first [apply Hn | by apply agree_ok | by apply agree_open].
Qed.

Lemma agree_drive_iter s l x : agree x (drive_iter ps s l x) (drive_iter i s l x.2).
Proof.
  unfold drive_iter.
  assert (Hgo : forall r1 r2 rest x, agree x r1 r2 ->
    agree x (let* (s1, k3) := r1 in Ok (s1 : scan_state, Some rest : option (list byte)) k3) (let* (s1, k3) := r2 in Ok (s1, Some rest) k3)).
  { intros r1 r2 rest y Hr. apply agree_bind; [done|]. intros. by apply agree_ok. }
  assert (Hst : forall (f1 : byte -> list byte -> sres (bb_err * K) (scan_state * option (list byte))) f2, (forall c rest, agree x (f1 c rest) (f2 c rest)) ->
    agree x (match skip_ws l with [] => Ok (s, None) x | c :: rest => f1 c rest end) (match skip_ws l with [] => Ok (s, None) x.2 | c :: rest => f2 c rest end)).
  { intros f1 f2 Hf. destruct (skip_ws l); [by apply agree_ok|apply Hf]. }
  pose proof (agree_close s x) as Hc. pose proof (fun c keyed => agree_dispatch s c keyed x) as Hd.
  destruct (ss_phase s).
  all: try (apply Hst; intros c rest).
  all: try (by repeat case_match; auto using agree_ok; by apply agree_err).
  - apply agree_bind; [by apply agree_scan_string|]. intros o y. destruct (so_closed o); by apply agree_ok.
  - apply agree_bind; [by apply agree_scan_string|]. intros o y. destruct (so_closed o); by apply agree_ok.
  - apply agree_bind; [by apply agree_scan_number|]. intros [[s1 []] rest] y; [|by apply agree_ok]. by apply Hgo, agree_finalize.
  - apply agree_bind; [by apply agree_scan_literal|]. intros [[s1 []] rest] y; [|by apply agree_ok].
    apply Hgo, agree_bind; [by apply agree_emit_literal|]. intros. by apply agree_ok.
Qed.

(** The same of a whole run of the loop that the patient sink survives. *)
Definition run_agrees {A} (x y : bb_err * K) (a : A) (r : option (sres K A)) : Prop :=
  if is_ok x.1
  then if is_ok y.1 then r = Some (Ok a y.2) else exists k, r = Some (Err y.1 k) /\ y.2 = norm y.1 k
  else y = x.
Lemma agree_drive fuel : forall s l x,
  match drive ps fuel s l x with
  | Some (Ok s1 y) => run_agrees x y s1 (drive i fuel s l x.2)
  | Some (Err e _) => e <> BB_OK
  | None => True
  end.
Proof.
  induction fuel as [|fuel IH]; intros s l x; destruct l as [|c l]; cbn [drive]; try done.
  1-2: (unfold run_agrees; by destruct (is_ok x.1)).
  pose proof (agree_drive_iter s (c :: l) x) as Hd. destruct (drive_iter ps s (c :: l) x) as [e z|[s2 o] z]; [done|].
  unfold agree, run_agrees in *. destruct o as [rest|].
  - specialize (IH s2 rest z). destruct (drive ps fuel s2 rest z) as [[|s1 y]|]; try done. destruct (is_ok x.1) eqn:Ex.
    + destruct (is_ok z.1) eqn:Ez; [by rewrite Hd|]. subst y. rewrite Ez. destruct Hd as (k & -> & Hk). by exists k.
    + subst z. by rewrite Ex in IH.
  - destruct (is_ok x.1) eqn:Ex; [|done]. destruct (is_ok z.1) eqn:Ez; [by rewrite Hd|].
    destruct Hd as (k & -> & Hk). by exists k.
Qed.

Lemma agree_finish s x s1 y : scan_finish (K := bb_err * K) s x = (BB_OK, s1, y) -> y = x /\ scan_finish (K := K) s x.2 = (BB_OK, s1, x.2).
Proof. unfold scan_finish. destruct (ss_phase s); intros H; try done. by injection H as <- <-. Qed.
Lemma agree_end s x s1 y : bb_serialize_json_scan_end ps s x = (BB_OK, s1, y) ->
  if is_ok x.1
  then if is_ok y.1 then bb_serialize_json_scan_end i s x.2 = (BB_OK, s1, y.2)
       else exists s2 k, bb_serialize_json_scan_end i s x.2 = (y.1, s2, k) /\ y.2 = norm y.1 k
  else y = x.
Proof.
  unfold bb_serialize_json_scan_end. intros H. destruct (is_ok (ss_err s)) eqn:E; cbn [negb] in *.
  2: { injection H as H _ _. by rewrite H in E. }
  assert (Hf : forall s, scan_finish (K := bb_err * K) s x = (BB_OK, s1, y) -> if is_ok x.1 then if is_ok y.1 then scan_finish (K := K) s x.2 = (BB_OK, s1, y.2)
     else exists s2 k, scan_finish (K := K) s x.2 = (y.1, s2, k) /\ y.2 = norm y.1 k else y = x).
  { clear. intros s H. apply agree_finish in H as [-> H]. by destruct (is_ok x.1). }
  destruct (ss_phase s); try (by apply Hf). destruct (num_phase_is_terminal _); cbn [negb] in *; [|done].
  pose proof (agree_finalize s x) as Hz. destruct (finalize_number ps s x) as [e z|s2 z]; [unfold agree in Hz; injection H; congruence|].
  unfold agree in Hz. apply agree_finish in H as [-> H]. destruct (is_ok x.1) eqn:Ex; [|done]. destruct (is_ok z.1) eqn:Ez.
  - rewrite Hz. exact H.
  - destruct Hz as (k & -> & Hk). by exists (set_serr z.1 s), k.
Qed.

(** ** Whole scans *)

(** What the sink's own scan answers when the patient sink's is accepted. *)
Definition stops_like (y : bb_err * K) (r : option (bb_err * K)) : Prop :=
  if is_ok y.1 then r = Some (BB_OK, y.2) else exists k, r = Some (y.1, k) /\ y.2 = norm y.1 k.

Lemma patient_bounded buf k y : bb_serialize_json_scan_bounded ps buf (BB_OK, k) = Some (BB_OK, y) ->
  stops_like y (bb_serialize_json_scan_bounded i buf k).
Proof.
  unfold bb_serialize_json_scan_bounded, bb_serialize_json_scan_feed, stops_like. cbn [ss_err scan_begin_internal is_ok negb].
  pose proof (agree_drive (drive_fuel buf) (scan_begin_internal true) buf (BB_OK, k)) as Ed.
  destruct (drive ps _ _ buf _) as [[e z|s1 z]|]; try done.
  { destruct (is_ok e) eqn:Ee; cbn [negb]; [by apply is_ok_true in Ee|]. by intros [= -> _]. }
  cbn [is_ok negb]. destruct (bb_serialize_json_scan_end ps s1 z) as [[rc s2] w] eqn:Ee. intros [= -> ->].
  apply agree_end in Ee. unfold run_agrees in Ed. cbn [fst snd is_ok] in Ed. destruct (is_ok z.1) eqn:Ez.
  - rewrite Ed. cbn [is_ok negb]. destruct (is_ok y.1); [by rewrite Ee|]. destruct Ee as (s3 & k1 & -> & Hk). by exists k1.
  - subst y. rewrite Ez. destruct Ed as (k1 & -> & Hk). rewrite Ez. cbn [negb]. by exists k1.
Qed.

Lemma feed_err s chunks (x : bb_err * K) : ss_err s <> BB_OK -> feed_all ps s chunks x = Some (ss_err s, s, x).
Proof.
  intros H. induction chunks as [|ch chunks IH]; [done|]. cbn [feed_all]. unfold bb_serialize_json_scan_feed.
  destruct (is_ok (ss_err s)) eqn:E; [by apply is_ok_true in E|]. cbn [negb]. exact IH.
Qed.
Lemma feed_stopped s chunks (k : K) : ss_err s <> BB_OK -> feed_all i s chunks k = Some (ss_err s, s, k).
Proof.
  intros H. induction chunks as [|ch chunks IH]; [done|]. cbn [feed_all]. unfold bb_serialize_json_scan_feed.
  destruct (is_ok (ss_err s)) eqn:E; [by apply is_ok_true in E|]. cbn [negb]. exact IH.
Qed.
Lemma patient_feeds chunks : forall s x e s1 y, ss_err s = BB_OK -> feed_all ps s chunks x = Some (e, s1, y) -> ss_err s1 = BB_OK ->
  if is_ok x.1
  then if is_ok y.1 then exists e', feed_all i s chunks x.2 = Some (e', s1, y.2)
       else exists e' s2 k, feed_all i s chunks x.2 = Some (e', s2, k) /\ ss_err s2 = y.1 /\ y.2 = norm y.1 k
  else y = x.
Proof.
  induction chunks as [|ch chunks IH]; intros s x e s1 y Hs H H1; cbn [feed_all] in *.
  { injection H as <- <- <-. destruct (is_ok x.1); [by exists (ss_err s)|done]. }
  unfold bb_serialize_json_scan_feed in *. rewrite Hs in *. cbn [is_ok negb] in *.
  pose proof (agree_drive (drive_fuel ch) s ch x) as Hd. destruct (drive ps (drive_fuel ch) s ch x) as [[e1 z|s2 z]|]; [| |done].
  { rewrite feed_err in H by done. injection H as _ <- _. cbn in H1. done. }
  assert (Hs2 : ss_err s2 = BB_OK).
  { destruct (is_ok (ss_err s2)) eqn:E; [by apply is_ok_true in E|]. rewrite feed_err in H by (intros E'; by rewrite E' in E). injection H as _ <- _. congruence. }
  specialize (IH s2 z e s1 y Hs2 H H1). unfold run_agrees in Hd. destruct (is_ok x.1) eqn:Ex; [|by subst z; rewrite Ex in IH].
  destruct (is_ok z.1) eqn:Ez; [by rewrite Hd|]. subst y. rewrite Ez. destruct Hd as (k & -> & Hk).
  exists z.1, (set_serr z.1 s), k. split; [|done]. rewrite feed_stopped; [done|]. cbn. intros E. by rewrite E in Ez.
Qed.
Lemma patient_chunks chunks k y : scan_chunks ps chunks (BB_OK, k) = Some (BB_OK, y) -> stops_like y (scan_chunks i chunks k).
Proof.
  unfold scan_chunks, stops_like. destruct (feed_all ps _ chunks _) as [[[e s1] z]|] eqn:Ef; [|done].
  destruct (bb_serialize_json_scan_end ps s1 z) as [[rc s2] w] eqn:Ee. intros [= -> ->].
  assert (Hs1 : ss_err s1 = BB_OK).
  { destruct (is_ok (ss_err s1)) eqn:E; [by apply is_ok_true in E|]. unfold bb_serialize_json_scan_end in Ee. rewrite E in Ee. cbn [negb] in Ee. by injection Ee as -> _ _. }
  pose proof (patient_feeds chunks bb_serialize_json_scan_begin (BB_OK, k) e s1 z eq_refl Ef Hs1) as Hf. cbn [fst snd is_ok] in Hf.
  apply agree_end in Ee. destruct (is_ok z.1) eqn:Ez.
  - destruct Hf as (e' & ->). destruct (is_ok y.1); [by rewrite Ee|]. destruct Ee as (s3 & k1 & -> & Hk). by exists k1.
  - subst y. rewrite Ez. destruct Hf as (e' & s3 & k1 & -> & Hs3 & Hk). unfold bb_serialize_json_scan_end. rewrite Hs3, Ez. cbn [negb]. by exists k1.
Qed.
End Stop.
