(* ===== verification/ScanTree.v ===== *)
(** Every text a bounded scan accepts is a document: the calls it makes are the
    traversal of one tree. *)
From S2P Require Import Prelude Bytes Walk JsonScan ScanBytes ScanSafe ScanDoc ScanSim Tok TokTree.

(** A container still open: its key, its kind, its children so far. *)
Record open_node := mk_open { on_key : list byte; on_arr : bool; on_children : list (list byte * doc) }.
Definition kids_events (cs : list (list byte * doc)) : list jev := concat (map (fun c => doc_events (ev_key c.1) c.2) cs).
Definition open_events (f : open_node) : list jev := ev_begin (on_arr f) (ev_key (on_key f)) :: kids_events (on_children f).
(** Complete root values and the open containers, innermost first. *)
Abbreviation partial_doc := (list (list byte * doc) * list open_node)%type.
Definition partial_events (z : partial_doc) : list jev := kids_events z.1 ++ concat (rev (map open_events z.2)).
Definition put_child (c : list byte * doc) (z : partial_doc) : partial_doc :=
  match z.2 with
  | [] => (z.1 ++ [c], [])
  | f :: fs => (z.1, mk_open (on_key f) (on_arr f) (on_children f ++ [c]) :: fs)
  end.

Lemma kids_events_snoc cs c : kids_events (cs ++ [c]) = kids_events cs ++ doc_events (ev_key c.1) c.2.
Proof. unfold kids_events. rewrite map_app, concat_app. cbn. by rewrite app_nil_r. Qed.
Lemma put_child_events c z : partial_events (put_child c z) = partial_events z ++ doc_events (ev_key c.1) c.2.
Proof.
  destruct z as [roots [|f fs]]; unfold partial_events, put_child; cbn [fst snd map rev concat].
  - by rewrite kids_events_snoc, !app_nil_r.
  - rewrite !concat_app. cbn [concat]. rewrite !app_nil_r, <- !app_assoc. do 2 f_equal.
    change (ev_begin (on_arr f) (ev_key (on_key f)) :: kids_events (on_children f ++ [c]) = open_events f ++ doc_events (ev_key c.1) c.2).
    by rewrite kids_events_snoc.
Qed.

(** The scanner's view and the tree so far. *)
Record reads (v : view) (e : recording) (z : partial_doc) : Prop := {
  rd_kinds : map on_arr z.2 = v_stack v;
  rd_events : e.1 = partial_events z;
  rd_none : v_done v = false -> z.1 = [];
  rd_done : v_done v = true -> z.2 = [] /\ exists d, z.1 = [([], d)];
  rd_open : match v_open v with
            | None => e.2 = []
            | Some key => v_done v = false /\ key_ok (v_stack v) key = true
            end;
  rd_root : forall f, last z.2 = Some f -> on_key f = []
}.

Lemma reads_value v e z key d : reads v e z -> v_done v = false -> key_ok (v_stack v) key = true ->
  forall evs, evs = partial_events z ++ doc_events key d ->
  reads (after_value (v_stack v)) (evs, []) (put_child (default [] key, d) z).
Proof.
  intros [Hk He Hn _ _ Hr] Hd Hok evs ->. specialize (Hn Hd). destruct z as [roots fs]. cbn [fst snd] in *. subst roots.
  split; cbn [after_value v_stack v_open v_done fst snd].
  - rewrite <- Hk. by destruct fs.
  - rewrite put_child_events. cbn [fst snd]. by rewrite (ev_key_default (v_stack v)).
  - intros Hb%bool_decide_eq_false. rewrite <- Hk in Hb. by destruct fs.
  - intros Hb%bool_decide_eq_true. rewrite Hb in *. destruct fs; [|done]. split; [done|]. destruct key as [[|? ?]|]; try done; by exists d.
  - done.
  - intros f. destruct fs as [|g [|h fs]]; [done|..].
    + intros [= <-]. by apply (Hr g).
    + intros Hl. by apply Hr.
Qed.

Lemma reads_step v e z c v' : reads v e z -> call_step true v c = Some v' -> exists z', reads v' (apply_call rec_sink c e).2 z'.
Proof.
  intros Hrd Hc. pose proof Hrd as [Hk He Hn Hdn Ho Hr]. destruct c as [arr key|arr|key text|key b|key|key d fin p]; cbn [call_step] in Hc.
  - destruct (ready v key && _) eqn:Er; [|done]. injection Hc as <-. apply andb_true_iff in Er as [Er _]. apply ready_inv in Er as (Hop & Hd & Hok).
    rewrite Hop in Ho. exists (z.1, mk_open (default [] key) arr [] :: z.2).
    assert (E : (apply_call rec_sink (KBegin arr key) e).2 = (e.1 ++ [ev_begin arr key], e.2)) by (by destruct arr, e). rewrite E.
    split; cbn [v_stack v_done v_open fst snd].
    + cbn. by rewrite Hk.
    + rewrite He. unfold partial_events. cbn [fst snd map rev]. rewrite concat_app. cbn [concat].
      change (open_events (mk_open (default [] key) arr [])) with [ev_begin arr (ev_key (default [] key))]. rewrite (ev_key_default (v_stack v)) by done. by rewrite app_nil_r, app_assoc.
    + intros _. by apply Hn.
    + done.
    + done.
    + intros f. destruct z as [roots [|g fs]]; cbn [fst snd] in *; [|by apply (Hr f)]. intros [= <-]. cbn [on_key].
      rewrite <- Hk in Hok. by destruct key as [[|? ?]|].
  - destruct (v_open v); [done|]. destruct (v_stack v) as [|a st] eqn:Est; [done|]. destruct (Bool.eqb_spec a arr) as [->|]; [|done]. injection Hc as <-.
    destruct z as [roots [|f fs]]; [done|]. cbn [fst snd map] in *. injection Hk as Hf Hk.
    assert (Hd : v_done v = false) by (destruct (v_done v); [|done]; by destruct (Hdn eq_refl)). specialize (Hn Hd). subst roots.
    exists (put_child (on_key f, DNode arr (on_children f)) ([], fs)).
    assert (E : (apply_call rec_sink (KEnd arr) e).2 = (e.1 ++ [ev_end arr], e.2)) by (by destruct arr, e). rewrite E, Ho.
    split; cbn [after_value v_stack v_open v_done fst snd].
    + rewrite <- Hk. by destruct fs.
    + rewrite put_child_events, He. cbn [fst snd doc_events]. unfold partial_events. cbn [fst snd map rev]. rewrite concat_app. cbn [concat].
      rewrite app_nil_r, <- !app_assoc. do 2 f_equal. unfold open_events. by rewrite Hf.
    + intros Hb%bool_decide_eq_false. rewrite <- Hk in Hb. by destruct fs.
    + intros Hb%bool_decide_eq_true. rewrite <- Hk in Hb. destruct fs; [|done]. split; [done|]. exists (DNode arr (on_children f)). cbn. by rewrite (Hr f).
    + done.
    + intros g. destruct fs as [|h [|h' fs]]; [done|..].
      * intros Hl. apply (Hr h eq_refl) || (injection Hl as <-; apply (Hr h); done).
      * intros Hl. by apply Hr.
  - destruct (ready v key && _) eqn:Er; [|done]. injection Hc as <-. apply andb_true_iff in Er as [Er _]. apply ready_inv in Er as (Hop & Hd & Hok).
    rewrite Hop in Ho. eexists. destruct e as [ev pend]. cbn [fst snd] in *. subst pend. eapply (reads_value v _ z key (DLeaf (DNum text)) Hrd Hd Hok). by rewrite He.
  - destruct (ready v key) eqn:Er; [|done]. injection Hc as <-. apply ready_inv in Er as (Hop & Hd & Hok).
    rewrite Hop in Ho. eexists. destruct e as [ev pend]. cbn [fst snd] in *. subst pend. eapply (reads_value v _ z key (DLeaf (DBool b)) Hrd Hd Hok). by rewrite He.
  - destruct (ready v key) eqn:Er; [|done]. injection Hc as <-. apply ready_inv in Er as (Hop & Hd & Hok).
    rewrite Hop in Ho. eexists. destruct e as [ev pend]. cbn [fst snd] in *. subst pend. eapply (reads_value v _ z key (DLeaf DNull) Hrd Hd Hok). by rewrite He.
  - destruct (_ && _ && _) eqn:Eg; [|done]. injection Hc as <-. apply andb_true_iff in Eg as [Eg _]. apply andb_true_iff in Eg as [Eg _].
    assert (Hdk : v_done v = false /\ key_ok (v_stack v) key = true).
    { apply orb_true_iff in Eg as [Eg|Eg]; [apply bool_decide_eq_true in Eg; by rewrite Eg in Ho|]. by apply ready_inv in Eg as (_ & ? & ?). }
    destruct Hdk as [Hd Hok]. destruct e as [ev pend]. destruct fin; cbn [apply_call ig_value_str_chunk rec_sink fst snd] in *.
    + eexists. eapply (reads_value v _ z key (DLeaf (DStr (pend ++ d))) Hrd Hd Hok). by rewrite He.
    + exists z. split; cbn [v_stack v_done v_open fst snd]; try done. intros _. by apply Hn.
Qed.

Lemma reads_calls log : forall v, conforming true log = Some v -> exists e z, run_calls rec_sink log ([], []) = Some e /\ reads v e z.
Proof.
  induction log as [|c log IH] using rev_ind; intros v Hv.
  - injection Hv as <-. exists ([], []), ([], []). by split.
  - unfold conforming in Hv. rewrite fold_left_app in Hv. fold (conforming true log) in Hv. cbn [fold_left] in Hv.
    destruct (conforming true log) as [v1|] eqn:E1; [|done]. destruct (IH v1 eq_refl) as (e & z & He & Hz). rewrite run_calls_snoc, He. cbv zeta.
    rewrite (proj2 (is_ok_true _) (rec_sink_total c e)). destruct (reads_step v1 e z c v Hz Hv) as [z' Hz']. by exists (apply_call rec_sink c e).2, z'.
Qed.

(** The document of an accepted text. *)
Lemma accepted_document {K} (i : ingest K) buf k0 k : bb_serialize_json_scan_bounded i buf k0 = Some (BB_OK, k) ->
  exists d log, bb_serialize_json_scan_bounded rec_sink buf ([], []) = Some (BB_OK, (doc_events None d, [])) /\
    conforming true log = Some (mk_view [] None true) /\ run_calls i log k0 = Some k /\ run_calls rec_sink log ([], []) = Some (doc_events None d, []).
Proof.
  intros H. destruct (scan_history i k0 buf k rec_sink ([], []) rec_sink_total H) as (log & e1 & Hv & Hi & Hs & Hr).
  destruct (reads_calls log _ Hv) as (e & z & He & [Hk Hev Hn Hd Ho Hroot]). rewrite Hr in He. injection He as <-. cbn [v_stack v_done v_open] in *.
  destruct (Hd eq_refl) as (Hz2 & d & Hz1). destruct z as [roots fs]. cbn [fst snd] in *. subst roots fs. exists d, log.
  assert (E : e1 = (doc_events None d, [])).
  { destruct e1 as [ev pend]. cbn [fst snd] in *. subst. f_equal. unfold partial_events, kids_events. cbn. by rewrite !app_nil_r. }
  rewrite <- E. done.
Qed.
