(* ===== verification/Manifest.v ===== *)
(** bb_release_manifest: the release tag and the asset URL of a GitHub release
    document, by a sink on the JSON scanner
    (components/bb_release_manifest/src). *)
From Stdlib Require Import Strings.String.
From S2P Require Import Prelude Bytes Walk JsonScan ScanBytes ScanSafe ScanDoc ScanSim ScanStop Tok TokTree ScanTree.
Local Open Scope Z_scope.

(** * The sink (bb_release_manifest_json_sink.c) *)

Definition BB_RELEASE_MANIFEST_SINK_NAME_MAX : nat := 64.
Definition BB_RELEASE_MANIFEST_SINK_DONE : bb_err := BB_ERR_CONFLICT.

(** Each text is the bytes written to its buffer, the closing NUL apart. *)
Record sink_state := mk_sink {
  ms_tag_out : list byte; ms_tag_cap : nat; ms_url_out : list byte; ms_url_cap : nat;
  ms_board_name : list byte; ms_name_tmp : list byte;
  ms_depth : Z; ms_assets_arr_depth : Z; ms_assets_elem_depth : Z; ms_asset_obj_depth : Z;
  ms_tag_found : bool; ms_url_found : bool; ms_in_assets : bool; ms_in_asset_obj : bool;
  ms_asset_name_matched : bool; ms_assets_invalid_shape : bool
}.
Definition set_depth (d : Z) (s : sink_state) : sink_state :=
  mk_sink (ms_tag_out s) (ms_tag_cap s) (ms_url_out s) (ms_url_cap s) (ms_board_name s) (ms_name_tmp s) d (ms_assets_arr_depth s)
    (ms_assets_elem_depth s) (ms_asset_obj_depth s) (ms_tag_found s) (ms_url_found s) (ms_in_assets s) (ms_in_asset_obj s)
    (ms_asset_name_matched s) (ms_assets_invalid_shape s).
Definition set_tag (out : list byte) (found : bool) (s : sink_state) : sink_state :=
  mk_sink out (ms_tag_cap s) (ms_url_out s) (ms_url_cap s) (ms_board_name s) (ms_name_tmp s) (ms_depth s) (ms_assets_arr_depth s)
    (ms_assets_elem_depth s) (ms_asset_obj_depth s) found (ms_url_found s) (ms_in_assets s) (ms_in_asset_obj s)
    (ms_asset_name_matched s) (ms_assets_invalid_shape s).
Definition set_url (out : list byte) (found : bool) (s : sink_state) : sink_state :=
  mk_sink (ms_tag_out s) (ms_tag_cap s) out (ms_url_cap s) (ms_board_name s) (ms_name_tmp s) (ms_depth s) (ms_assets_arr_depth s)
    (ms_assets_elem_depth s) (ms_asset_obj_depth s) (ms_tag_found s) found (ms_in_assets s) (ms_in_asset_obj s)
    (ms_asset_name_matched s) (ms_assets_invalid_shape s).
Definition set_name (tmp : list byte) (matched : bool) (s : sink_state) : sink_state :=
  mk_sink (ms_tag_out s) (ms_tag_cap s) (ms_url_out s) (ms_url_cap s) (ms_board_name s) tmp (ms_depth s) (ms_assets_arr_depth s)
    (ms_assets_elem_depth s) (ms_asset_obj_depth s) (ms_tag_found s) (ms_url_found s) (ms_in_assets s) (ms_in_asset_obj s)
    matched (ms_assets_invalid_shape s).
Definition set_invalid (s : sink_state) : sink_state :=
  mk_sink (ms_tag_out s) (ms_tag_cap s) (ms_url_out s) (ms_url_cap s) (ms_board_name s) (ms_name_tmp s) (ms_depth s) (ms_assets_arr_depth s)
    (ms_assets_elem_depth s) (ms_asset_obj_depth s) (ms_tag_found s) (ms_url_found s) (ms_in_assets s) (ms_in_asset_obj s)
    (ms_asset_name_matched s) true.
(** Entering and leaving the assets array and one of its objects. *)
Definition set_in_assets (b : bool) (arr_depth elem_depth : Z) (s : sink_state) : sink_state :=
  mk_sink (ms_tag_out s) (ms_tag_cap s) (ms_url_out s) (ms_url_cap s) (ms_board_name s) (ms_name_tmp s) (ms_depth s) arr_depth
    elem_depth (ms_asset_obj_depth s) (ms_tag_found s) (ms_url_found s) b (ms_in_asset_obj s)
    (ms_asset_name_matched s) (ms_assets_invalid_shape s).
Definition set_in_asset_obj (b : bool) (obj_depth : Z) (s : sink_state) : sink_state :=
  mk_sink (ms_tag_out s) (ms_tag_cap s) (ms_url_out s) (ms_url_cap s) (ms_board_name s) (ms_name_tmp s) (ms_depth s) (ms_assets_arr_depth s)
    (ms_assets_elem_depth s) obj_depth (ms_tag_found s) (ms_url_found s) (ms_in_assets s) b
    (ms_asset_name_matched s) (ms_assets_invalid_shape s).

(** The new contents, or [None] for BB_ERR_NO_SPACE. *)
Definition sink_append (dst : list byte) (cap : nat) (chunk : list byte) : option (list byte) :=
  match chunk with
  | [] => Some dst
  | _ => if (cap <? length dst + length chunk + 1)%nat then None else Some (dst ++ chunk)
  end.
Definition sink_append_truncate (dst : list byte) (cap : nat) (chunk : list byte) : list byte :=
  if (cap <=? length dst + 1)%nat then dst else
  let avail := (cap - length dst - 1)%nat in
  dst ++ take (if (length chunk <? avail)%nat then length chunk else avail) chunk.

Definition is_toplevel_assets_key (depth : Z) (key : key_t) : bool := (depth =? 1) && bool_decide (key = Some (bs "assets")).
Definition mark_if_assets_scalar (key : key_t) (s : sink_state) : sink_state :=
  if negb (ms_in_assets s) && is_toplevel_assets_key (ms_depth s) key then set_invalid s else s.

Definition sink_begin_obj (key : key_t) (s : sink_state) : bb_err * sink_state :=
  let s1 := if negb (ms_in_assets s) && is_toplevel_assets_key (ms_depth s) key then set_invalid s else s in
  let s2 := if ms_in_assets s1 && negb (ms_in_asset_obj s1) && (ms_depth s1 =? ms_assets_elem_depth s1)
            then set_name [] false (set_in_asset_obj true (ms_depth s1) s1) else s1 in
  (BB_OK, set_depth (ms_depth s2 + 1) s2).
Definition sink_end_obj (s : sink_state) : bb_err * sink_state :=
  let s1 := set_depth (ms_depth s - 1) s in
  (BB_OK, if ms_in_asset_obj s1 && (ms_depth s1 =? ms_asset_obj_depth s1)
          then set_name (ms_name_tmp s1) false (set_in_asset_obj false (ms_asset_obj_depth s1) s1) else s1).
Definition sink_begin_arr (key : key_t) (s : sink_state) : bb_err * sink_state :=
  let s1 := if negb (ms_in_assets s) && is_toplevel_assets_key (ms_depth s) key
            then set_in_assets true (ms_depth s) (ms_depth s + 1) s else s in
  (BB_OK, set_depth (ms_depth s1 + 1) s1).
Definition sink_end_arr (s : sink_state) : bb_err * sink_state :=
  let s1 := set_depth (ms_depth s - 1) s in
  (BB_OK, if ms_in_assets s1 && (ms_depth s1 =? ms_assets_arr_depth s1)
          then set_in_assets false (ms_assets_arr_depth s1) (ms_assets_elem_depth s1) s1 else s1).
Definition sink_value_num (key : key_t) (num : list byte) (s : sink_state) : bb_err * sink_state := (BB_OK, mark_if_assets_scalar key s).
Definition sink_value_bool (key : key_t) (v : bool) (s : sink_state) : bb_err * sink_state := (BB_OK, mark_if_assets_scalar key s).
Definition sink_value_null (key : key_t) (s : sink_state) : bb_err * sink_state := (BB_OK, mark_if_assets_scalar key s).

Definition is_tag (key : key_t) (s : sink_state) : bool :=
  negb (ms_tag_found s) && (ms_depth s =? 1) && bool_decide (key = Some (bs "tag_name")).
Definition is_name (key : key_t) (s : sink_state) : bool :=
  ms_in_asset_obj s && negb (ms_asset_name_matched s) && (ms_depth s =? ms_asset_obj_depth s + 1) && bool_decide (key = Some (bs "name")).
Definition is_url (key : key_t) (s : sink_state) : bool :=
  ms_in_asset_obj s && ms_asset_name_matched s && negb (ms_url_found s) && (ms_depth s =? ms_asset_obj_depth s + 1) &&
  bool_decide (key = Some (bs "browser_download_url")).
Definition sink_value_str_chunk (key : key_t) (chunk : list byte) (is_final : bool) (p : span_provenance) (s0 : sink_state) : bb_err * sink_state :=
  let tag := is_tag key s0 in
  let name := is_name key s0 in
  let url := is_url key s0 in
  let s := mark_if_assets_scalar key s0 in
  if tag then
    match sink_append (ms_tag_out s) (ms_tag_cap s) chunk with
    | None => (BB_ERR_NO_SPACE, s)
    | Some out =>
        let s1 := set_tag out is_final s in
        (if is_final && ms_url_found s1 then BB_RELEASE_MANIFEST_SINK_DONE else BB_OK, s1)
    end
  else if name then
    let tmp := sink_append_truncate (ms_name_tmp s) BB_RELEASE_MANIFEST_SINK_NAME_MAX chunk in
    (BB_OK, set_name tmp (if is_final then bool_decide (tmp = ms_board_name s) else ms_asset_name_matched s) s)
  else if url then
    match sink_append (ms_url_out s) (ms_url_cap s) chunk with
    | None => (BB_ERR_NO_SPACE, s)
    | Some out =>
        let s1 := set_url out is_final s in
        (if is_final && ms_tag_found s1 then BB_RELEASE_MANIFEST_SINK_DONE else BB_OK, s1)
    end
  else (BB_OK, s).

Definition bb_release_manifest_sink_init (board_fallback : list byte) (tag_cap url_cap : nat) : sink_state :=
  let board := cstr board_fallback in
  let bl := length board in
  let full_len := (bl + 4)%nat in
  let bl' := if (BB_RELEASE_MANIFEST_SINK_NAME_MAX <=? full_len)%nat then (BB_RELEASE_MANIFEST_SINK_NAME_MAX - 1 - 4)%nat else bl in
  mk_sink [] tag_cap [] url_cap (take bl' board ++ bs ".bin") [] 0 0 0 0 false false false false false false.
Definition bb_release_manifest_sink_ingest : ingest sink_state :=
  mk_ingest sink_begin_obj sink_end_obj sink_begin_arr sink_end_arr sink_value_num sink_value_bool sink_value_null sink_value_str_chunk.
Definition bb_release_manifest_sink_finalize (s : sink_state) (scan_result : bb_err) : bb_err * sink_state :=
  if bool_decide (scan_result = BB_RELEASE_MANIFEST_SINK_DONE) then (BB_OK, s) else
  if bool_decide (scan_result = BB_ERR_NO_SPACE) then (BB_ERR_NO_SPACE, s) else
  let s1 := if negb (ms_tag_found s) then set_tag [] (ms_tag_found s) s else s in
  let s2 := if negb (ms_url_found s1) then set_url [] (ms_url_found s1) s1 else s1 in
  if negb (is_ok scan_result) then (BB_ERR_NOT_FOUND, s2) else
  if ms_assets_invalid_shape s2 then (BB_ERR_NOT_FOUND, s2) else
  (if ms_tag_found s2 then BB_OK else BB_ERR_NOT_FOUND, s2).

(** * The two parsers *)

(** What is in the caller's buffers when a parser returns: the tag and the URL;
    [None]: not written to. *)
Abbreviation texts := (option (list byte * list byte)).
Definition texts_of (s : sink_state) : texts := Some (ms_tag_out s, ms_url_out s).

(** bb_release_manifest_github.c; [None] for a pointer is NULL.  The outer
    [None] is a scan without end, which there is not. *)
Definition bb_release_manifest_parse_github (body board_name : option (list byte)) (tag_ok : bool) (tag_size : nat) (url_ok : bool) (url_size : nat)
  : option (bb_err * texts) :=
  match body, board_name with
  | Some body, Some board =>
      if negb tag_ok || negb url_ok then Some (BB_ERR_INVALID_ARG, None) else
      if (tag_size =? 0)%nat || (url_size =? 0)%nat then Some (BB_ERR_INVALID_ARG, None) else
      match bb_serialize_json_scan_bounded bb_release_manifest_sink_ingest body (bb_release_manifest_sink_init board tag_size url_size) with
      | None => None
      | Some (rc, st) => let '(err, st1) := bb_release_manifest_sink_finalize st rc in Some (err, texts_of st1)
      end
  | _, _ => Some (BB_ERR_INVALID_ARG, None)
  end.

(** bb_release_manifest_github_stream.c *)
Definition stream_state : Type := scan_state * sink_state.
Definition bb_release_manifest_parse_github_stream_begin (ctx_ok : bool) (board : option (list byte)) (tag_ok : bool) (tag_cap : nat) (url_ok : bool) (url_cap : nat)
  : bb_err * option stream_state :=
  match board with
  | Some board =>
      if negb ctx_ok || negb tag_ok || negb url_ok then (BB_ERR_INVALID_ARG, None) else
      if (tag_cap <? 2)%nat || (url_cap <? 2)%nat then (BB_ERR_INVALID_ARG, None) else
      (BB_OK, Some (bb_serialize_json_scan_begin, bb_release_manifest_sink_init board tag_cap url_cap))
  | None => (BB_ERR_INVALID_ARG, None)
  end.
Definition bb_release_manifest_parse_github_stream_feed (s : stream_state) (chunk : option (list byte)) : option (bb_err * stream_state) :=
  match chunk with
  | None => Some (BB_ERR_INVALID_ARG, s)
  | Some chunk =>
      match bb_serialize_json_scan_feed bb_release_manifest_sink_ingest s.1 chunk s.2 with
      | None => None
      | Some (rc, scan, sink) => Some (if bool_decide (rc = BB_ERR_NO_SPACE) then BB_ERR_NO_SPACE else BB_OK, (scan, sink))
      end
  end.
Definition bb_release_manifest_parse_github_stream_end (s : stream_state) : bb_err * stream_state :=
  let '(rc, scan, sink) := bb_serialize_json_scan_end bb_release_manifest_sink_ingest s.1 s.2 in
  let '(err, sink1) := bb_release_manifest_sink_finalize sink rc in (err, (scan, sink1)).

(** A whole stream: a transport that feeds every chunk, whatever the feeds answer,
    and what the end answers. *)
Fixpoint stream_feeds (s : stream_state) (chunks : list (list byte)) : option stream_state :=
  match chunks with
  | [] => Some s
  | ch :: rest => match bb_release_manifest_parse_github_stream_feed s (Some ch) with None => None | Some (_, s1) => stream_feeds s1 rest end
  end.
Definition stream_parse (board : list byte) (tag_cap url_cap : nat) (chunks : list (list byte)) : option (bb_err * texts) :=
  match bb_release_manifest_parse_github_stream_begin true (Some board) true tag_cap true url_cap with
  | (BB_OK, Some s) =>
      match stream_feeds s chunks with
      | None => None
      | Some s1 => let '(err, s2) := bb_release_manifest_parse_github_stream_end s1 in Some (err, texts_of s2.2)
      end
  | (err, _) => Some (err, None)
  end.

(** * What a release document says *)

(** The tag and the URL found so far, and whether "assets" was something else
    than an array. *)
Record release := mk_release { rl_tag : option (list byte); rl_url : option (list byte); rl_bad : bool }.
(** A reading goes on, or ends with an error or with both texts. *)
Inductive reading := Reads (r : release) | Ends (e : bb_err) (r : release).
Definition and_then (x : reading) (f : release -> reading) : reading := match x with Reads r => f r | Ends _ _ => x end.

Section Reading.
Context (board_file : list byte) (tag_cap url_cap : nat).
Definition fits (cap : nat) (s : list byte) : bool := (length s + 1 <=? cap)%nat.
Definition read_tag (s : list byte) (r : release) : reading :=
  match rl_tag r with
  | Some _ => Reads r
  | None =>
      if negb (fits tag_cap s) then Ends BB_ERR_NO_SPACE r else
      let r1 := mk_release (Some s) (rl_url r) (rl_bad r) in
      match rl_url r with Some _ => Ends BB_RELEASE_MANIFEST_SINK_DONE r1 | None => Reads r1 end
  end.
Definition read_url (s : list byte) (r : release) : reading :=
  match rl_url r with
  | Some _ => Reads r
  | None =>
      if negb (fits url_cap s) then Ends BB_ERR_NO_SPACE r else
      let r1 := mk_release (rl_tag r) (Some s) (rl_bad r) in
      match rl_tag r with Some _ => Ends BB_RELEASE_MANIFEST_SINK_DONE r1 | None => Reads r1 end
  end.
(** The members of an asset in order: names add up, each cut to the buffer,
    until they are the board's file; from there on the first URL counts. *)
Fixpoint read_asset (name : list byte) (matched : bool) (ms : list (list byte * doc)) (r : release) : reading :=
  match ms with
  | [] => Reads r
  | (k, d) :: rest =>
      match d with
      | DLeaf (DStr s) =>
          if negb matched && bool_decide (k = bs "name") then
            let name' := take (BB_RELEASE_MANIFEST_SINK_NAME_MAX - 1) (name ++ s) in
            read_asset name' (bool_decide (name' = board_file)) rest r
          else if matched && bool_decide (k = bs "browser_download_url") then and_then (read_url s r) (read_asset name matched rest)
          else read_asset name matched rest r
      | _ => read_asset name matched rest r
      end
  end.
Fixpoint read_assets (es : list (list byte * doc)) (r : release) : reading :=
  match es with
  | [] => Reads r
  | (_, DNode false ms) :: rest => and_then (read_asset [] false ms r) (read_assets rest)
  | _ :: rest => read_assets rest r
  end.
Definition read_member (k : list byte) (d : doc) (r : release) : reading :=
  if bool_decide (k = bs "assets") then
    match d with
    | DNode true es => read_assets es r
    | _ => Reads (mk_release (rl_tag r) (rl_url r) true)
    end
  else if bool_decide (k = bs "tag_name") then match d with DLeaf (DStr s) => read_tag s r | _ => Reads r end
  else Reads r.
Fixpoint read_members (ms : list (list byte * doc)) (r : release) : reading :=
  match ms with [] => Reads r | (k, d) :: rest => and_then (read_member k d r) (read_members rest) end.
(** The elements of a root array have the empty key: nothing in it counts. *)
Definition read_release (d : doc) : reading :=
  match d with DNode _ ms => read_members ms (mk_release None None false) | DLeaf _ => Reads (mk_release None None false) end.

(** The answer, and the texts in the buffers; when a text does not fit its
    buffer, a part of it may be in there. *)
Definition texts_found (r : release) : list byte * list byte := (default [] (rl_tag r), default [] (rl_url r)).
Definition release_answer (x : reading) : bb_err * texts :=
  match x with
  | Ends e r => if bool_decide (e = BB_ERR_NO_SPACE) then (BB_ERR_NO_SPACE, None) else (BB_OK, Some (texts_found r))
  | Reads r => (if rl_bad r then BB_ERR_NOT_FOUND else match rl_tag r with Some _ => BB_OK | None => BB_ERR_NOT_FOUND end, Some (texts_found r))
  end.
End Reading.
(** The parser's answer with the buffers of a BB_ERR_NO_SPACE left out. *)
Definition told (x : bb_err * texts) : bb_err * texts := if bool_decide (x.1 = BB_ERR_NO_SPACE) then (x.1, None) else x.

(** * The sink's scan as a patient one *)

Definition forget (e : bb_err) (s : sink_state) : sink_state :=
  if bool_decide (e = BB_ERR_NO_SPACE) then set_tag [] false (set_url [] false s) else s.
Abbreviation psink := (patient_sink bb_release_manifest_sink_ingest forget).

Lemma append_split dst cap a b : a <> [] ->
  sink_append dst cap (a ++ b) = match sink_append dst cap a with Some out => sink_append out cap b | None => None end.
Proof.
  intros Ha. destruct a as [|x a]; [done|]. unfold sink_append. rewrite <- app_comm_cons. cbn [length]. rewrite !length_app.
  destruct (Nat.ltb_spec cap (length dst + S (length a) + 1)), (Nat.ltb_spec cap (length dst + S (length a + length b) + 1)); try lia.
  - done.
  - destruct b as [|y b]; [cbn in *; lia|]. rewrite length_app. cbn [length] in *. destruct (Nat.ltb_spec cap (length dst + S (length a) + S (length b) + 1)); [done|lia].
  - destruct b as [|y b]; [by rewrite app_nil_r|]. rewrite length_app. cbn [length] in *. destruct (Nat.ltb_spec cap (length dst + S (length a) + S (length b) + 1)); [lia|].
    by rewrite <- app_assoc.
Qed.
Lemma append_truncate_take dst cap c : (length dst <= cap - 1)%nat -> sink_append_truncate dst cap c = take (cap - 1) (dst ++ c).
Proof.
  intros H. unfold sink_append_truncate. destruct (Nat.leb_spec cap (length dst + 1)).
  - rewrite take_app_le by lia. rewrite take_ge by lia. done.
  - rewrite take_app_ge by lia. f_equal. destruct (Nat.ltb_spec (length c) (cap - length dst - 1)).
    + rewrite !take_ge by lia. done.
    + f_equal. lia.
Qed.
Lemma append_truncate_split dst cap a b :
  sink_append_truncate (sink_append_truncate dst cap a) cap b = sink_append_truncate dst cap (a ++ b).
Proof.
  destruct (Nat.le_gt_cases cap (length dst + 1)) as [Hf|H].
  { assert (E : forall c, sink_append_truncate dst cap c = dst) by (intros c; unfold sink_append_truncate; by rewrite (proj2 (Nat.leb_le _ _) Hf)). by rewrite !E. }
  assert (H' : (length dst <= cap - 1)%nat) by lia. clear H. rename H' into H. rewrite (append_truncate_take dst cap a), (append_truncate_take dst cap (a ++ b)) by done. rewrite append_truncate_take by (rewrite length_take; lia).
  rewrite app_assoc. generalize (dst ++ a). intros l. generalize (cap - 1)%nat. intros n.
  destruct (Nat.le_gt_cases (length l) n).
  - by rewrite (take_ge l) by lia.
  - rewrite (take_app_le l) by lia. rewrite take_app_le by (rewrite length_take; lia). by rewrite take_take, Nat.min_id.
Qed.
Lemma mark_split key s : mark_if_assets_scalar key (mark_if_assets_scalar key s) = mark_if_assets_scalar key s.
Proof. unfold mark_if_assets_scalar. destruct (negb (ms_in_assets s) && _) eqn:E; cbn [ms_in_assets ms_depth set_invalid]; by rewrite E. Qed.
(** What a chunk does to the fields that decide where it goes: nothing, unless
    it is the last. *)
Lemma mark_routes key s : is_tag key (mark_if_assets_scalar key s) = is_tag key s /\ is_name key (mark_if_assets_scalar key s) = is_name key s /\
  is_url key (mark_if_assets_scalar key s) = is_url key s.
Proof. unfold mark_if_assets_scalar. by destruct (negb _ && _). Qed.
Lemma route_tag out key s : is_tag key s = true -> is_tag key (set_tag out false s) = true.
Proof. unfold is_tag. cbn [ms_tag_found ms_depth set_tag]. by destruct (ms_tag_found s). Qed.
Lemma route_name tmp key s : is_tag key (set_name tmp (ms_asset_name_matched s) s) = is_tag key s /\ is_name key (set_name tmp (ms_asset_name_matched s) s) = is_name key s.
Proof. done. Qed.
Lemma route_url out key s : is_url key s = true -> is_tag key (set_url out false s) = is_tag key s /\ is_name key (set_url out false s) = is_name key s /\
  is_url key (set_url out false s) = true.
Proof. unfold is_url. cbn [ms_in_asset_obj ms_asset_name_matched ms_url_found ms_depth ms_asset_obj_depth set_url]. destruct (ms_url_found s); [|done]. rewrite andb_false_r. done. Qed.

Lemma mark_tag out found key s : mark_if_assets_scalar key (set_tag out found s) = set_tag out found (mark_if_assets_scalar key s).
Proof. unfold mark_if_assets_scalar. cbn [ms_in_assets ms_depth set_tag]. by destruct (negb _ && _). Qed.
Lemma mark_url out found key s : mark_if_assets_scalar key (set_url out found s) = set_url out found (mark_if_assets_scalar key s).
Proof. unfold mark_if_assets_scalar. cbn [ms_in_assets ms_depth set_url]. by destruct (negb _ && _). Qed.
Lemma mark_name tmp m key s : mark_if_assets_scalar key (set_name tmp m s) = set_name tmp m (mark_if_assets_scalar key s).
Proof. unfold mark_if_assets_scalar. cbn [ms_in_assets ms_depth set_name]. by destruct (negb _ && _). Qed.

Definition chunk_step (key : key_t) (d : list byte) (fin : bool) (x : bb_err * sink_state) : bb_err * sink_state :=
  (patient forget x (sink_value_str_chunk key d fin SPAN_CALLER_STABLE)).2.
Lemma chunk_call key d fin p x : ig_value_str_chunk psink key d fin p x = (BB_OK, chunk_step key d fin x).
Proof. done. Qed.
Abbreviation chunk_of key d fin s := (sink_value_str_chunk key d fin SPAN_CALLER_STABLE s).
Lemma chunk_to_tag key d fin s : is_tag key s = true -> let m := mark_if_assets_scalar key s in
  chunk_of key d fin s = match sink_append (ms_tag_out m) (ms_tag_cap m) d with
    | None => (BB_ERR_NO_SPACE, m) | Some out => (if fin && ms_url_found m then BB_RELEASE_MANIFEST_SINK_DONE else BB_OK, set_tag out fin m) end.
Proof. intros H. unfold sink_value_str_chunk. by rewrite H. Qed.
Lemma chunk_to_name key d fin s : is_tag key s = false -> is_name key s = true -> let m := mark_if_assets_scalar key s in
  let tmp := sink_append_truncate (ms_name_tmp m) BB_RELEASE_MANIFEST_SINK_NAME_MAX d in
  chunk_of key d fin s = (BB_OK, set_name tmp (if fin then bool_decide (tmp = ms_board_name m) else ms_asset_name_matched m) m).
Proof. intros H1 H2. unfold sink_value_str_chunk. by rewrite H1, H2. Qed.
Lemma chunk_to_url key d fin s : is_tag key s = false -> is_name key s = false -> is_url key s = true -> let m := mark_if_assets_scalar key s in
  chunk_of key d fin s = match sink_append (ms_url_out m) (ms_url_cap m) d with
    | None => (BB_ERR_NO_SPACE, m) | Some out => (if fin && ms_tag_found m then BB_RELEASE_MANIFEST_SINK_DONE else BB_OK, set_url out fin m) end.
Proof. intros H1 H2 H3. unfold sink_value_str_chunk. by rewrite H1, H2, H3. Qed.
Lemma chunk_to_none key d fin s : is_tag key s = false -> is_name key s = false -> is_url key s = false ->
  chunk_of key d fin s = (BB_OK, mark_if_assets_scalar key s).
Proof. intros H1 H2 H3. unfold sink_value_str_chunk. by rewrite H1, H2, H3. Qed.

Definition kept (r : bb_err * sink_state) : bb_err * sink_state := if is_ok r.1 then r else (r.1, forget r.1 r.2).
Lemma chunk_kept key a b fin s : a <> [] ->
  kept (chunk_of key (a ++ b) fin s) = let r := chunk_of key a false s in if is_ok r.1 then kept (chunk_of key b fin r.2) else kept r.
Proof.
  intros Ha. pose proof (mark_routes key s) as (Mt & Mn & Mu). pose proof (mark_split key s) as Hm. set (m := mark_if_assets_scalar key s) in *.
  destruct (is_tag key s) eqn:Et; [|destruct (is_name key s) eqn:En; [|destruct (is_url key s) eqn:Eu]].
  - rewrite !(chunk_to_tag key _ _ s) by done. fold m. rewrite append_split by done.
    destruct (sink_append (ms_tag_out m) (ms_tag_cap m) a) as [out|]; cbn [andb fst snd is_ok]; [|done].
    rewrite chunk_to_tag by (by apply route_tag). cbv zeta. rewrite mark_tag, Hm. cbn [ms_tag_out ms_tag_cap ms_url_found set_tag].
    by destruct (sink_append out (ms_tag_cap m) b).
  - rewrite !(chunk_to_name key _ _ s) by done. fold m. cbn [fst snd is_ok]. rewrite chunk_to_name by (by rewrite ?(proj1 (route_name _ _ _)), ?(proj2 (route_name _ _ _))).
    cbv zeta. rewrite mark_name, Hm. cbn [ms_name_tmp ms_board_name ms_asset_name_matched set_name]. rewrite append_truncate_split. done.
  - rewrite !(chunk_to_url key _ _ s) by done. fold m. rewrite append_split by done.
    destruct (sink_append (ms_url_out m) (ms_url_cap m) a) as [out|]; cbn [andb fst snd is_ok]; [|done].
    destruct (route_url out key m) as (R1 & R2 & R3); [done|]. rewrite chunk_to_url by (by rewrite ?R1, ?R2, ?R3). cbv zeta. rewrite mark_url, Hm.
    cbn [ms_url_out ms_url_cap ms_tag_found set_url]. by destruct (sink_append out (ms_url_cap m) b).
  - rewrite !(chunk_to_none key _ _ s) by done. fold m. cbn [fst snd is_ok]. rewrite chunk_to_none by done. by rewrite Hm.
Qed.
Lemma chunk_split key a b fin x : a <> [] -> chunk_step key b fin (chunk_step key a false x) = chunk_step key (a ++ b) fin x.
Proof.
  intros Ha. destruct x as [e0 s]. unfold chunk_step, patient. cbn [fst snd]. destruct (is_ok e0) eqn:Ex; cbv zeta; [|cbn [fst snd]; by rewrite Ex].
  pose proof (chunk_kept key a b fin s Ha) as H. unfold kept in H. rewrite H. cbv zeta. destruct (is_ok (chunk_of key a false s).1) eqn:E; cbn [fst snd]; rewrite E; done.
Qed.
#[export] Instance psink_split : SplitInsensitive psink.
Proof.
  split.
  - intros key a b fin p p1 p2 k Ha _. rewrite !chunk_call. unfold answered. cbn [fst snd is_ok sbind]. rewrite chunk_call. cbn [fst snd is_ok same]. by rewrite chunk_split.
  - done.
Qed.

(** ** From calls to whole events *)

Definition ev_call (e : jev) : call :=
  match e with
  | EvBeginObj k => KBegin false k | EvEndObj => KEnd false | EvBeginArr k => KBegin true k | EvEndArr => KEnd true
  | EvNum k t => KNum k t | EvBool k b => KBool k b | EvNull k => KNull k | EvStr k s => KStr k s true SPAN_CALLER_STABLE
  end.
Definition ev_step (x : bb_err * sink_state) (e : jev) : bb_err * sink_state := (apply_call psink (ev_call e) x).2.
Definition ev_run (evs : list jev) (x : bb_err * sink_state) : bb_err * sink_state := fold_left ev_step evs x.
Lemma psink_total : total psink.
Proof. by intros [[]|[]| | | |] x. Qed.
Lemma ev_run_app evs evs' x : ev_run (evs ++ evs') x = ev_run evs' (ev_run evs x).
Proof. apply fold_left_app. Qed.
Lemma ev_run_cons e evs x : ev_run (e :: evs) x = ev_run evs (ev_step x e).
Proof. done. Qed.

(** The sink's state is that after the events so far and the pending part of a
    string. *)
Definition caught_up (v : view) (e : recording) (x0 y : bb_err * sink_state) : Prop :=
  match v_open v with
  | None => e.2 = [] /\ y = ev_run e.1 x0
  | Some key => e.2 <> [] /\ y = chunk_step key e.2 false (ev_run e.1 x0)
  end.
Lemma caught_up_step v v' c e x0 y : caught_up v e x0 y -> call_step true v c = Some v' ->
  caught_up v' (apply_call rec_sink c e).2 x0 (apply_call psink c y).2.
Proof.
  intros H Hc. unfold caught_up in H. destruct e as [evs pend]. cbn [fst snd] in H.
  assert (Hw : forall jv, v_open v = None -> ev_call jv = c -> (apply_call rec_sink c (evs, pend)).2 = (evs ++ [jv], pend) -> v_open v' = None ->
    caught_up v' (apply_call rec_sink c (evs, pend)).2 x0 (apply_call psink c y).2).
  { intros jv Ho <- -> Ho'. rewrite Ho in H. unfold caught_up. rewrite Ho'. cbn [fst snd]. destruct H as [-> ->]. by rewrite ev_run_app. }
  destruct c as [arr key|arr|key text|key b|key|key d fin p]; cbn [call_step] in Hc.
  - destruct (ready v key && _) eqn:Er; [|done]. injection Hc as <-. apply andb_true_iff in Er as [Er _]. apply ready_inv in Er as (Hop & _ & _).
    destruct arr; [by apply (Hw (EvBeginArr key))|by apply (Hw (EvBeginObj key))].
  - destruct (v_open v) eqn:Hop; [done|]. destruct (v_stack v) as [|a st]; [done|]. destruct (Bool.eqb a arr); [|done]. injection Hc as <-.
    destruct arr; [by apply (Hw EvEndArr)|by apply (Hw EvEndObj)].
  - destruct (ready v key && _) eqn:Er; [|done]. injection Hc as <-. apply andb_true_iff in Er as [Er _]. apply ready_inv in Er as (Hop & _ & _). by apply (Hw (EvNum key text)).
  - destruct (ready v key) eqn:Er; [|done]. injection Hc as <-. apply ready_inv in Er as (Hop & _ & _). by apply (Hw (EvBool key b)).
  - destruct (ready v key) eqn:Er; [|done]. injection Hc as <-. apply ready_inv in Er as (Hop & _ & _). by apply (Hw (EvNull key)).
  - clear Hw. destruct (_ && _ && _) eqn:Eg; [|done]. injection Hc as <-. apply andb_true_iff in Eg as [Eg Hd]. apply andb_true_iff in Eg as [Eg _].
    change (apply_call psink (KStr key d fin p) y) with (BB_OK, chunk_step key d fin y).
    assert (Hy : chunk_step key d fin y = chunk_step key (pend ++ d) fin (ev_run evs x0)).
    { destruct (v_open v) as [key0|] eqn:Eo; [|by destruct H as [-> ->]]. destruct H as [Hp ->].
      assert (key0 = key) as ->.
      { apply orb_true_iff in Eg as [Eg|Eg]; [by apply bool_decide_eq_true in Eg; injection Eg|]. apply ready_inv in Eg as (Eg & _). by rewrite Eo in Eg. }
      by apply chunk_split. }
    cbn [apply_call rec_sink ig_value_str_chunk snd]. rewrite Hy. unfold caught_up. destruct fin; cbn [v_open after_value fst snd].
    + rewrite ev_run_app. done.
    + split; [|done]. intros E. apply app_eq_nil in E as [_ E]. subst d. by rewrite bool_decide_true in Hd.
Qed.
Lemma caught_up_calls log x0 : forall v, conforming true log = Some v ->
  exists e y, run_calls rec_sink log ([], []) = Some e /\ run_calls psink log x0 = Some y /\ caught_up v e x0 y.
Proof.
  induction log as [|c log IH] using rev_ind; intros v Hv.
  - injection Hv as <-. by exists ([], []), x0.
  - unfold conforming in Hv. rewrite fold_left_app in Hv. fold (conforming true log) in Hv. cbn [fold_left] in Hv.
    destruct (conforming true log) as [v1|] eqn:E1; [|done]. destruct (IH v1 eq_refl) as (e & y & He & Hy & Hc). rewrite !run_calls_snoc, He, Hy. cbv zeta.
    rewrite (proj2 (is_ok_true _) (rec_sink_total c e)), (proj2 (is_ok_true _) (psink_total c y)). eexists _, _. split; [done|]. split; [done|]. by eapply caught_up_step.
Qed.

(** * The sink on a document *)

Section DocInd.
Context (P : doc -> Prop) (Hleaf : forall l, P (DLeaf l)) (Hnode : forall arr cs, Forall (fun c => P c.2) cs -> P (DNode arr cs)).
Fixpoint doc_induction (d : doc) : P d :=
  match d with
  | DLeaf l => Hleaf l
  | DNode arr cs => Hnode arr cs ((fix go (cs : list (list byte * doc)) : Forall (fun c => P c.2) cs :=
      match cs with [] => List.Forall_nil _ | c :: cs' => List.Forall_cons _ _ _ (doc_induction c.2) (go cs') end) cs)
  end.
End DocInd.

Lemma ev_run_stopped evs e s : e <> BB_OK -> ev_run evs (e, s) = (e, s).
Proof.
  intros He. induction evs as [|ev evs IH]; [done|]. rewrite ev_run_cons. replace (ev_step (e, s) ev) with (e, s); [done|].
  assert (Ho : is_ok e = false) by (destruct e; done). destruct ev; cbn; unfold patient; cbn [fst snd]; by rewrite Ho.
Qed.
Lemma ev_key_is k lit : lit <> [] -> bool_decide (ev_key k = Some lit) = bool_decide (k = lit).
Proof. intros Hl. apply bool_decide_ext. destruct k as [|b k]; cbn; [split; congruence|]. split; congruence. Qed.
Lemma set_depth_back s d : d = ms_depth s + 1 -> set_depth (d - 1) (set_depth d s) = s.
Proof. intros ->. destruct s. unfold set_depth. cbn. f_equal. lia. Qed.

(** Where nothing that comes can matter. *)
Definition quiet (s : sink_state) : Prop :=
  if ms_in_assets s
  then ms_assets_arr_depth s = 1 /\ ms_assets_elem_depth s = 2 /\
       (if ms_in_asset_obj s then ms_asset_obj_depth s = 2 /\ 4 <= ms_depth s else 3 <= ms_depth s)
  else ms_in_asset_obj s = false /\ 2 <= ms_depth s.
(** Where a container with the key only counts as one level. *)
Definition passes (key : key_t) (s : sink_state) : Prop :=
  (ms_in_assets s = false -> is_toplevel_assets_key (ms_depth s) key = false) /\
  (ms_in_assets s = true -> ms_depth s <> ms_assets_arr_depth s /\ (ms_in_asset_obj s = false -> ms_depth s <> ms_assets_elem_depth s)) /\
  (ms_in_asset_obj s = true -> ms_depth s <> ms_asset_obj_depth s).

Lemma kids_quiet cs s : Forall (fun c : list byte * doc => forall key s, quiet s -> ev_run (doc_events key c.2) (BB_OK, s) = (BB_OK, s)) cs -> quiet s ->
  ev_run (kids_events cs) (BB_OK, s) = (BB_OK, s).
Proof.
  intros H Hq. unfold kids_events. induction H as [|c cs Hc _ IH]; [done|]. cbn [map concat]. rewrite ev_run_app, Hc by done. exact IH.
Qed.
Lemma begin_passes arr key s : passes key s -> ev_step (BB_OK, s) (ev_begin arr key) = (BB_OK, set_depth (ms_depth s + 1) s).
Proof.
  intros (H1 & H2 & H3).
  assert (Hm : negb (ms_in_assets s) && is_toplevel_assets_key (ms_depth s) key = false) by (destruct (ms_in_assets s); [done|]; by rewrite H1).
  destruct arr; cbn; unfold sink_begin_arr, sink_begin_obj; rewrite Hm; [done|]. cbv zeta.
  replace (ms_in_assets s && negb (ms_in_asset_obj s) && (ms_depth s =? ms_assets_elem_depth s)) with false; [done|].
  destruct (ms_in_assets s) eqn:E1; [|done]. destruct (ms_in_asset_obj s) eqn:E2; [done|]. destruct H2 as [_ H2]; [done|]. specialize (H2 eq_refl). cbn. symmetry. by apply Z.eqb_neq.
Qed.
Lemma end_passes arr s : passes None s -> ev_step (BB_OK, set_depth (ms_depth s + 1) s) (ev_end arr) = (BB_OK, s).
Proof.
  intros (H1 & H2 & H3). destruct arr; unfold ev_step, ev_end, ev_call, apply_call, patient_sink, ig_end_arr, ig_end_obj, patient; cbn [fst snd is_ok bb_release_manifest_sink_ingest]; unfold sink_end_arr, sink_end_obj; cbv zeta;
    change (ms_depth (set_depth (ms_depth s + 1) s)) with (ms_depth s + 1); rewrite set_depth_back by done; cbn [fst snd is_ok].
  - destruct (ms_in_assets s) eqn:E1; [|done]. destruct H2 as [H2 _]; [done|]. rewrite (proj2 (Z.eqb_neq _ _) H2). done.
  - destruct (ms_in_asset_obj s) eqn:E1; [|done]. rewrite (proj2 (Z.eqb_neq _ _) (H3 eq_refl)). done.
Qed.
Lemma passes_any key s : passes key s -> passes None s.
Proof. intros (H1 & H2 & H3). split; [|done]. intros _. unfold is_toplevel_assets_key. by rewrite andb_false_r. Qed.
Lemma doc_node_events key arr cs : doc_events key (DNode arr cs) = [ev_begin arr key] ++ kids_events cs ++ [ev_end arr].
Proof. done. Qed.
Lemma node_passes arr key cs s : passes key s -> ev_run (kids_events cs) (BB_OK, set_depth (ms_depth s + 1) s) = (BB_OK, set_depth (ms_depth s + 1) s) ->
  ev_run (doc_events key (DNode arr cs)) (BB_OK, s) = (BB_OK, s).
Proof.
  intros Hp Hk. rewrite doc_node_events, !ev_run_app. unfold ev_run at 3. cbn [fold_left]. rewrite begin_passes, Hk by done.
  unfold ev_run. cbn [fold_left]. by apply end_passes, (passes_any key).
Qed.
Lemma quiet_passes key s : quiet s -> passes key s.
Proof.
  unfold quiet, passes. destruct (ms_in_assets s) eqn:E1, (ms_in_asset_obj s) eqn:E2; intros Hq.
  - destruct Hq as (H1 & H2 & H3 & H4). split; [done|]. split; [intros _; split; [lia|done]|lia].
  - destruct Hq as (H1 & H2 & H3). split; [done|]. split; [intros _; split; [lia|lia]|done].
  - by destruct Hq.
  - destruct Hq as [_ Hq]. split; [|done]. intros _. unfold is_toplevel_assets_key. rewrite (proj2 (Z.eqb_neq _ _)); [done|lia].
Qed.
Lemma quiet_deeper s : quiet s -> quiet (set_depth (ms_depth s + 1) s).
Proof. unfold quiet. cbn [ms_in_assets ms_in_asset_obj ms_assets_arr_depth ms_assets_elem_depth ms_asset_obj_depth ms_depth set_depth]. destruct (ms_in_assets s), (ms_in_asset_obj s); intuition lia. Qed.
Lemma quiet_leaf key l s : quiet s -> ev_run (doc_events key (DLeaf l)) (BB_OK, s) = (BB_OK, s).
Proof.
  intros Hq. pose proof (quiet_passes key s Hq) as (H1 & H2 & H3).
  assert (Hm : mark_if_assets_scalar key s = s) by (unfold mark_if_assets_scalar; destruct (ms_in_assets s); [done|]; by rewrite H1).
  destruct l as [text|b| |str]; unfold ev_run; cbn [doc_events leaf_ev fold_left]; [change ((BB_OK, mark_if_assets_scalar key s) = (BB_OK, s)); by rewrite Hm..|].
  change (chunk_step key str true (BB_OK, s) = (BB_OK, s)). unfold chunk_step, patient. cbn [fst snd is_ok]. rewrite chunk_to_none, Hm; [done|..].
  - unfold is_tag, quiet in *. destruct (Z.eqb_spec (ms_depth s) 1); [|by rewrite andb_false_r]. destruct (ms_in_assets s), (ms_in_asset_obj s); lia || (destruct Hq; done).
  - unfold is_name, quiet in *. destruct (ms_in_asset_obj s) eqn:E2; [|done]. destruct (ms_in_assets s); [|by destruct Hq]. destruct (Z.eqb_spec (ms_depth s) (ms_asset_obj_depth s + 1)); [lia|]. by rewrite andb_false_r.
  - unfold is_url, quiet in *. destruct (ms_in_asset_obj s) eqn:E2; [|done]. destruct (ms_in_assets s); [|by destruct Hq]. destruct (Z.eqb_spec (ms_depth s) (ms_asset_obj_depth s + 1)); [lia|]. by rewrite andb_false_r.
Qed.
Lemma quiet_doc d : forall key s, quiet s -> ev_run (doc_events key d) (BB_OK, s) = (BB_OK, s).
Proof.
  induction d as [l|arr cs IH] using doc_induction; intros key s Hq; [by apply quiet_leaf|].
  apply node_passes; [by apply quiet_passes|]. apply kids_quiet; [done|]. by apply quiet_deeper.
Qed.
Lemma container_passes arr key cs s : passes key s -> quiet (set_depth (ms_depth s + 1) s) -> ev_run (doc_events key (DNode arr cs)) (BB_OK, s) = (BB_OK, s).
Proof. intros Hp Hq. apply node_passes; [done|]. apply kids_quiet; [|done]. apply Forall_forall. intros c _ key' s'. apply quiet_doc. Qed.

Section OnDocument.
Context (board : list byte) (tc uc : nat) (Htc : (1 <= tc)%nat) (Huc : (1 <= uc)%nat).
Definition some_of {A} (o : option A) : bool := match o with Some _ => true | None => false end.
(** The sink in the root object, in the array of assets, in an asset. *)
Definition at_root (r : release) (name : list byte) (ad ed od : Z) (m : bool) : sink_state :=
  mk_sink (default [] (rl_tag r)) tc (default [] (rl_url r)) uc board name 1 ad ed od (some_of (rl_tag r)) (some_of (rl_url r)) false false m (rl_bad r).
Definition at_assets (r : release) (name : list byte) (od : Z) (m : bool) : sink_state :=
  mk_sink (default [] (rl_tag r)) tc (default [] (rl_url r)) uc board name 2 1 2 od (some_of (rl_tag r)) (some_of (rl_url r)) true false m (rl_bad r).
Definition at_member (r : release) (name : list byte) (m : bool) : sink_state :=
  mk_sink (default [] (rl_tag r)) tc (default [] (rl_url r)) uc board name 3 1 2 2 (some_of (rl_tag r)) (some_of (rl_url r)) true true m (rl_bad r).

(** The sink is where the reading is. *)
Definition says (P : release -> sink_state -> Prop) (y : bb_err * sink_state) (x : reading) : Prop :=
  match x with
  | Reads r => exists s, y = (BB_OK, s) /\ P r s
  | Ends e r => y.1 = e /\ (e = BB_ERR_NO_SPACE \/ e = BB_RELEASE_MANIFEST_SINK_DONE /\
      ms_tag_out y.2 = default [] (rl_tag r) /\ ms_url_out y.2 = default [] (rl_url r))
  end.
Lemma says_then P Q y x evs f : says P y x -> (forall r s, P r s -> says Q (ev_run evs (BB_OK, s)) (f r)) -> says Q (ev_run evs y) (and_then x f).
Proof.
  destruct x as [r|e r]; cbn [says and_then].
  - intros (s & -> & Hs) H. by apply H.
  - intros [H1 H2] _. destruct y as [e' s]. cbn [fst snd] in *. subst e'.
    rewrite ev_run_stopped; [done|]. destruct H2 as [->|[-> _]]; done.
Qed.
Definition rooted (r : release) (s : sink_state) : Prop := exists name ad ed od m, s = at_root r name ad ed od m.
Definition among (r : release) (s : sink_state) : Prop := exists name od m, s = at_assets r name od m.
Definition inside (r : release) (s : sink_state) : Prop := exists name m, s = at_member r name m.

Lemma and_then_reads x : and_then x Reads = x.
Proof. by destruct x. Qed.
(** A text that goes into an empty buffer. *)
Lemma append_fits cap s : (1 <= cap)%nat -> sink_append [] cap s = if fits cap s then Some s else None.
Proof.
  intros H. unfold sink_append, fits. destruct s as [|c s]; cbn [length app].
  - destruct (Nat.leb_spec (0 + 1) cap); [done|lia].
  - destruct (Nat.ltb_spec cap (0 + S (length s) + 1)), (Nat.leb_spec (S (length s) + 1) cap); try done; lia.
Qed.
Lemma ev_string key str s : ev_run (doc_events key (DLeaf (DStr str))) (BB_OK, s) = kept (chunk_of key str true s).
Proof. unfold ev_run. cbn [doc_events leaf_ev fold_left]. change (chunk_step key str true (BB_OK, s) = kept (chunk_of key str true s)). unfold chunk_step, patient, kept. cbn [fst snd is_ok]. done. Qed.

Lemma forget_done s : forget BB_RELEASE_MANIFEST_SINK_DONE s = s.
Proof. done. Qed.
Lemma member_string k str r name m : (length name <= BB_RELEASE_MANIFEST_SINK_NAME_MAX - 1)%nat ->
  let y := ev_run (doc_events (ev_key k) (DLeaf (DStr str))) (BB_OK, at_member r name m) in
  if negb m && bool_decide (k = bs "name")
  then let name' := take (BB_RELEASE_MANIFEST_SINK_NAME_MAX - 1) (name ++ str) in y = (BB_OK, at_member r name' (bool_decide (name' = board)))
  else if m && bool_decide (k = bs "browser_download_url") then says (fun r s => s = at_member r name m) y (read_url uc str r)
  else y = (BB_OK, at_member r name m).
Proof.
  intros Hn. cbv zeta. rewrite ev_string. assert (Ht : is_tag (ev_key k) (at_member r name m) = false) by (unfold is_tag; cbn; by rewrite andb_false_r).
  assert (Hna : is_name (ev_key k) (at_member r name m) = negb m && bool_decide (k = bs "name")) by (unfold is_name; cbn; by rewrite ev_key_is, andb_true_r by done).
  assert (Hu : is_url (ev_key k) (at_member r name m) = m && negb (some_of (rl_url r)) && bool_decide (k = bs "browser_download_url"))
    by (unfold is_url; cbn; by rewrite ev_key_is, andb_true_r by done).
  destruct (negb m && bool_decide (k = bs "name")) eqn:En.
  { rewrite chunk_to_name by done. cbn [mark_if_assets_scalar ms_in_assets at_member negb andb ms_name_tmp]. rewrite append_truncate_take by done. done. }
  destruct (m && bool_decide (k = bs "browser_download_url")) eqn:Eu.
  - apply andb_true_iff in Eu as [-> Eu]. rewrite Eu in Hu. unfold read_url. destruct (rl_url r) as [u|] eqn:Er; cbn [some_of negb andb] in Hu.
    + rewrite chunk_to_none by done. exists (at_member r name true). by split.
    + rewrite chunk_to_url by done. cbn [mark_if_assets_scalar ms_in_assets at_member negb andb ms_url_out ms_url_cap ms_tag_found]. rewrite Er. cbn [default]. rewrite append_fits by done.
      destruct (fits uc str); cbn [negb]; [|split; [done|by left]]. unfold kept. cbn [andb]. destruct (rl_tag r) as [t|] eqn:Eg; cbn [some_of fst snd is_ok].
      * split; [done|]. right. split; [done|]. rewrite forget_done. cbn. by rewrite Eg.
      * eexists. split; [reflexivity|]. unfold at_member, set_url. cbn. by rewrite Eg.
  - rewrite chunk_to_none; [done..|]. rewrite Hu. destruct m; [|done]. cbn [andb] in *. by rewrite Eu, andb_false_r.
Qed.
Lemma member_other k d r name m : (forall s, d <> DLeaf (DStr s)) -> ev_run (doc_events (ev_key k) d) (BB_OK, at_member r name m) = (BB_OK, at_member r name m).
Proof.
  intros Hd. destruct d as [[text|b| |str]|arr cs]; try reflexivity; [by destruct (Hd str)|].
  apply container_passes; [|cbn; lia]. split; [done|]. cbn. split; [|lia]. intros _. split; [lia|done].
Qed.
Lemma asset_read ms : forall r name m, (length name <= BB_RELEASE_MANIFEST_SINK_NAME_MAX - 1)%nat ->
  says inside (ev_run (kids_events ms) (BB_OK, at_member r name m)) (read_asset board uc name m ms r).
Proof.
  induction ms as [|[k d] ms IH]; intros r name m Hn; cbn [read_asset].
  { eexists. split; [reflexivity|]. by exists name, m. }
  change (kids_events ((k, d) :: ms)) with (doc_events (ev_key k) d ++ kids_events ms). rewrite ev_run_app.
  assert (Hother : (forall s, d <> DLeaf (DStr s)) -> says inside (ev_run (kids_events ms) (ev_run (doc_events (ev_key k) d) (BB_OK, at_member r name m))) (read_asset board uc name m ms r)).
  { intros Hd. rewrite member_other by done. by apply IH. }
  destruct d as [[text|b| |str]|arr cs]; try (by apply Hother). clear Hother. pose proof (member_string k str r name m Hn) as Hs. cbv zeta in Hs.
  destruct (negb m && _); [|destruct (m && _)].
  - rewrite Hs. apply IH. rewrite length_take. lia.
  - eapply says_then; [exact Hs|]. intros r' s ->. by apply IH.
  - rewrite Hs. by apply IH.
Qed.

Lemma element_read k d r name od m :
  says among (ev_run (doc_events (ev_key k) d) (BB_OK, at_assets r name od m)) (match d with DNode false ms => read_asset board uc [] false ms r | _ => Reads r end).
Proof.
  destruct d as [l|[] ms].
  - eexists. split; [|by exists name, od, m]. destruct l as [text|b| |str]; try reflexivity. rewrite ev_string, chunk_to_none; try reflexivity.
    unfold is_tag. cbn. by rewrite andb_false_r.
  - eexists. split; [|by exists name, od, m]. change (ev_key k) with (ev_key k). rewrite doc_node_events, !ev_run_app. unfold ev_run at 3. cbn [fold_left].
    assert (Hb : ev_step (BB_OK, at_assets r name od m) (ev_begin true (ev_key k)) = (BB_OK, set_depth 3 (at_assets r name od m))) by reflexivity.
    rewrite Hb, kids_quiet; [reflexivity| |cbn; lia]. apply Forall_forall. intros c _ key' s'. apply quiet_doc.
  - rewrite doc_node_events, !ev_run_app. unfold ev_run at 3. cbn [fold_left].
    assert (Hb : ev_step (BB_OK, at_assets r name od m) (ev_begin false (ev_key k)) = (BB_OK, at_member r [] false)) by reflexivity. rewrite Hb.
    rewrite <- (and_then_reads (read_asset board uc [] false ms r)). eapply says_then; [apply asset_read; cbn; lia|].
    intros r' s (name' & m' & ->). eexists. split; [reflexivity|]. by exists name', 2, false.
Qed.
Lemma assets_read es : forall r s, among r s -> says among (ev_run (kids_events es) (BB_OK, s)) (read_assets board uc es r).
Proof.
  induction es as [|[k d] es IH]; intros r s Hs; cbn [read_assets].
  { by exists s. }
  change (kids_events ((k, d) :: es)) with (doc_events (ev_key k) d ++ kids_events es). rewrite ev_run_app. destruct Hs as (name & od & m & ->).
  pose proof (element_read k d r name od m) as He. destruct d as [l|[] ms].
  - destruct He as (s1 & -> & Hs1). by apply IH.
  - destruct He as (s1 & -> & Hs1). by apply IH.
  - eapply says_then; [exact He|]. intros r' s' Hs'. by apply IH.
Qed.

(** ** The root's members *)

Lemma root_other k d r name ad ed od m : k <> bs "assets" -> (k = bs "tag_name" -> forall s, d <> DLeaf (DStr s)) ->
  ev_run (doc_events (ev_key k) d) (BB_OK, at_root r name ad ed od m) = (BB_OK, at_root r name ad ed od m).
Proof.
  intros Hk Ht. assert (Hm : is_toplevel_assets_key 1 (ev_key k) = false) by (unfold is_toplevel_assets_key; rewrite ev_key_is by done; by rewrite bool_decide_false).
  assert (Hmark : mark_if_assets_scalar (ev_key k) (at_root r name ad ed od m) = at_root r name ad ed od m) by (unfold mark_if_assets_scalar; cbn [ms_in_assets ms_depth at_root]; by rewrite Hm).
  destruct d as [[text|b| |str]|arr cs].
  1-3: (change ((BB_OK, mark_if_assets_scalar (ev_key k) (at_root r name ad ed od m)) = (BB_OK, at_root r name ad ed od m)); by rewrite Hmark).
  - rewrite ev_string, chunk_to_none, Hmark; try done. unfold is_tag. rewrite ev_key_is by done. rewrite bool_decide_false; [by rewrite andb_false_r|].
    intros ->. by apply (Ht eq_refl str).
  - apply container_passes; [|cbn; lia]. split; [done|]. done.
Qed.
Lemma root_tag str r name ad ed od m :
  says rooted (ev_run (doc_events (ev_key (bs "tag_name")) (DLeaf (DStr str))) (BB_OK, at_root r name ad ed od m)) (read_tag tc str r).
Proof.
  rewrite ev_string. assert (Ht : is_tag (ev_key (bs "tag_name")) (at_root r name ad ed od m) = negb (some_of (rl_tag r))) by (unfold is_tag; cbn; by rewrite !andb_true_r).
  unfold read_tag. destruct (rl_tag r) as [t|] eqn:Er; cbn [some_of negb] in Ht.
  - rewrite chunk_to_none by done. eexists. split; [reflexivity|]. by exists name, ad, ed, od, m.
  - rewrite chunk_to_tag by done. change (mark_if_assets_scalar (ev_key (bs "tag_name")) (at_root r name ad ed od m)) with (at_root r name ad ed od m).
    cbn [ms_tag_out ms_tag_cap ms_url_found at_root]. rewrite Er. cbn [default]. rewrite append_fits by done. destruct (fits tc str); cbn [negb]; [|split; [done|by left]].
    unfold kept. cbn [andb]. destruct (rl_url r) as [u|] eqn:Eu; cbn [some_of fst snd is_ok].
    + split; [done|]. right. split; [done|]. rewrite forget_done. cbn. by rewrite Eu.
    + eexists. split; [reflexivity|]. exists name, ad, ed, od, m. unfold at_root, set_tag. cbn. by rewrite Eu.
Qed.
Lemma root_assets d r name ad ed od m :
  says rooted (ev_run (doc_events (ev_key (bs "assets")) d) (BB_OK, at_root r name ad ed od m))
    (match d with DNode true es => read_assets board uc es r | _ => Reads (mk_release (rl_tag r) (rl_url r) true) end).
Proof.
  destruct d as [l|[] es].
  - eexists. split; [|by exists name, ad, ed, od, m]. destruct l as [text|b| |str]; try reflexivity. rewrite ev_string, chunk_to_none; try reflexivity.
    unfold is_tag. rewrite ev_key_is by done. rewrite bool_decide_false by done. by rewrite andb_false_r.
  - rewrite doc_node_events, !ev_run_app. unfold ev_run at 3. cbn [fold_left].
    assert (Hb : ev_step (BB_OK, at_root r name ad ed od m) (ev_begin true (ev_key (bs "assets"))) = (BB_OK, at_assets r name od m)) by reflexivity. rewrite Hb.
    rewrite <- (and_then_reads (read_assets board uc es r)). eapply says_then; [apply assets_read; by exists name, od, m|].
    intros r' s (name' & od' & m' & ->). eexists. split; [reflexivity|]. by exists name', 1, 2, od', m'.
  - eexists. split; [|by exists name, ad, ed, od, m]. rewrite doc_node_events, !ev_run_app. unfold ev_run at 3. cbn [fold_left].
    assert (Hb : ev_step (BB_OK, at_root r name ad ed od m) (ev_begin false (ev_key (bs "assets"))) = (BB_OK, set_depth 2 (at_root (mk_release (rl_tag r) (rl_url r) true) name ad ed od m))) by reflexivity.
    rewrite Hb, kids_quiet; [reflexivity| |cbn; lia]. apply Forall_forall. intros c _ key' s'. apply quiet_doc.
Qed.
Lemma members_read ms : forall r s, rooted r s -> says rooted (ev_run (kids_events ms) (BB_OK, s)) (read_members board tc uc ms r).
Proof.
  induction ms as [|[k d] ms IH]; intros r s Hs; cbn [read_members].
  { by exists s. }
  change (kids_events ((k, d) :: ms)) with (doc_events (ev_key k) d ++ kids_events ms). rewrite ev_run_app. destruct Hs as (name & ad & ed & od & m & ->).
  eapply says_then; [|intros r' s' Hs'; by apply IH]. unfold read_member. case_bool_decide as Ha; [subst k; apply root_assets|].
  assert (Hreads : ev_run (doc_events (ev_key k) d) (BB_OK, at_root r name ad ed od m) = (BB_OK, at_root r name ad ed od m) ->
    says rooted (ev_run (doc_events (ev_key k) d) (BB_OK, at_root r name ad ed od m)) (Reads r)).
  { intros ->. eexists. split; [done|]. by exists name, ad, ed, od, m. }
  case_bool_decide as Ht; [subst k|by apply Hreads, root_other].
  destruct d as [[text|b| |str]|arr cs]; [by apply Hreads, root_other..|apply root_tag|by apply Hreads, root_other].
Qed.

(** The whole document. *)
Definition sink0 : sink_state := mk_sink [] tc [] uc board [] 0 0 0 0 false false false false false false.
Lemma document_read d :
  match read_release board tc uc d with
  | Reads r => exists s, ev_run (doc_events None d) (BB_OK, sink0) = (BB_OK, s) /\ ms_tag_out s = default [] (rl_tag r) /\
      ms_url_out s = default [] (rl_url r) /\ ms_tag_found s = some_of (rl_tag r) /\ ms_url_found s = some_of (rl_url r) /\ ms_assets_invalid_shape s = rl_bad r
  | Ends e r => let y := ev_run (doc_events None d) (BB_OK, sink0) in (y.1 = e /\ (e = BB_ERR_NO_SPACE \/ e = BB_RELEASE_MANIFEST_SINK_DONE /\
      ms_tag_out y.2 = default [] (rl_tag r) /\ ms_url_out y.2 = default [] (rl_url r)))
  end.
Proof.
  destruct d as [l|arr ms]; cbn [read_release].
  { exists sink0. split; [|done]. by destruct l. }
  set (r0 := mk_release None None false).
  assert (Hev : ev_run (doc_events None (DNode arr ms)) (BB_OK, sink0) = ev_run [ev_end arr] (ev_run (kids_events ms) (BB_OK, at_root r0 [] 0 0 0 false))).
  { rewrite doc_node_events, !ev_run_app. by destruct arr. }
  rewrite Hev.
  assert (Hs : says (fun r s => exists s', rooted r s' /\ s = set_depth 0 s') (ev_run [ev_end arr] (ev_run (kids_events ms) (BB_OK, at_root r0 [] 0 0 0 false))) (read_members board tc uc ms r0)).
  { rewrite <- (and_then_reads (read_members board tc uc ms r0)). eapply says_then; [apply members_read; by exists [], 0, 0, 0, false|].
    intros r s (name & ad & ed & od & m & ->). exists (set_depth 0 (at_root r name ad ed od m)). split; [by destruct arr|].
    eexists. split; [by exists name, ad, ed, od, m|done]. }
  destruct (read_members board tc uc ms r0) as [r|e r]; cbn [says] in Hs; [|exact Hs].
  destruct Hs as (s & -> & (s' & (name & ad & ed & od & m & ->) & ->)). eexists. split; [reflexivity|]. done.
Qed.
End OnDocument.

(** * Both parsers *)

(** The file name an asset is compared with. *)
Definition asset_file (board : list byte) : list byte := take (BB_RELEASE_MANIFEST_SINK_NAME_MAX - 5) (cstr board) ++ bs ".bin".
Lemma init_sink board tc uc : bb_release_manifest_sink_init board tc uc = sink0 (asset_file board) tc uc.
Proof.
  unfold bb_release_manifest_sink_init, sink0, asset_file. f_equal. f_equal. unfold BB_RELEASE_MANIFEST_SINK_NAME_MAX.
  destruct (Nat.leb_spec 64 (length (cstr board) + 4)); [done|]. by rewrite !take_ge by lia.
Qed.

(** A scan that stops like the patient one ends in the answer of the reading. *)
Lemma finalized board tc uc d r : (1 <= tc)%nat -> (1 <= uc)%nat ->
  stops_like forget (ev_run (doc_events None d) (BB_OK, sink0 board tc uc)) r ->
  exists rc s, r = Some (rc, s) /\ let '(err, s1) := bb_release_manifest_sink_finalize s rc in told (err, texts_of s1) = release_answer (read_release board tc uc d).
Proof.
  intros Htc Huc H. pose proof (document_read board tc uc Htc Huc d) as Hd. destruct (read_release board tc uc d) as [rl|e rl]; cbn [release_answer].
  - destruct Hd as (s & Hev & H1 & H2 & H3 & H4 & H5). rewrite Hev in H. unfold stops_like in H. cbn [fst snd is_ok] in H. exists BB_OK, s. split; [done|].
    unfold bb_release_manifest_sink_finalize. rewrite !bool_decide_false by done. cbn [is_ok negb].
    assert (E1 : (if negb (ms_tag_found s) then set_tag [] (ms_tag_found s) s else s) = s).
    { destruct (rl_tag rl); cbn [some_of default] in *; rewrite H3; [done|]. cbn [negb]. rewrite <- H1, <- H3. by destruct s. }
    rewrite E1. assert (E2 : (if negb (ms_url_found s) then set_url [] (ms_url_found s) s else s) = s).
    { destruct (rl_url rl); cbn [some_of default] in *; rewrite H4; [done|]. cbn [negb]. rewrite <- H2, <- H4. by destruct s. }
    rewrite E2, H5, H3. unfold told, texts_of, texts_found. rewrite <- H1, <- H2. destruct (rl_bad rl); [|destruct (rl_tag rl)]; done.
  - cbv zeta in Hd. destruct (ev_run _ _) as [e' s]. cbn [fst snd] in Hd. destruct Hd as [-> He]. unfold stops_like in H. cbn [fst snd] in H.
    destruct He as [->|(-> & H1 & H2)]; cbn [is_ok] in H; destruct H as (k & -> & Hk).
    + by exists BB_ERR_NO_SPACE, k.
    + exists BB_RELEASE_MANIFEST_SINK_DONE, k. split; [done|]. assert (k = s) as -> by done. unfold bb_release_manifest_sink_finalize. rewrite bool_decide_true by done.
      unfold told, texts_of, texts_found. by rewrite H1, H2.
Qed.

Lemma stream_feeds_all chunks : forall s, stream_feeds s chunks =
  match feed_all bb_release_manifest_sink_ingest s.1 chunks s.2 with Some (_, scan, sink) => Some (scan, sink) | None => None end.
Proof.
  induction chunks as [|ch chunks IH]; intros [scan sink]; [done|]. cbn [stream_feeds feed_all bb_release_manifest_parse_github_stream_feed fst snd].
  destruct (bb_serialize_json_scan_feed _ scan ch sink) as [[[rc s1] k1]|]; [|done]. by rewrite IH.
Qed.
Lemma stream_parse_chunks board tc uc chunks : (2 <= tc)%nat -> (2 <= uc)%nat ->
  stream_parse board tc uc chunks =
  match scan_chunks bb_release_manifest_sink_ingest chunks (bb_release_manifest_sink_init board tc uc) with
  | Some (rc, s) => let '(err, s1) := bb_release_manifest_sink_finalize s rc in Some (err, texts_of s1)
  | None => None
  end.
Proof.
  intros Ht Hu. unfold stream_parse, bb_release_manifest_parse_github_stream_begin. cbn [negb orb].
  destruct (Nat.ltb_spec tc 2); [lia|]. destruct (Nat.ltb_spec uc 2); [lia|]. cbn [orb]. rewrite stream_feeds_all. cbn [fst snd]. unfold scan_chunks.
  destruct (feed_all _ _ chunks _) as [[[e s1] k1]|]; [|done]. unfold bb_release_manifest_parse_github_stream_end. cbn [fst snd].
  destruct (bb_serialize_json_scan_end _ s1 k1) as [[rc s2] k2]. by destruct (bb_release_manifest_sink_finalize k2 rc).
Qed.

(** Both parsers on a text the scanner accepts. *)
Lemma readings_agree body board tc uc e chunks :
  bb_serialize_json_scan_bounded rec_sink body ([], []) = Some (BB_OK, e) -> (2 <= tc)%nat -> (2 <= uc)%nat -> concat chunks = body ->
  exists d, e = (doc_events None d, []) /\
    let answer := release_answer (read_release (asset_file board) tc uc d) in
    (told <$> bb_release_manifest_parse_github (Some body) (Some board) true tc true uc) = Some answer /\
    (told <$> stream_parse board tc uc chunks) = Some answer.
Proof.
  intros Hs Ht Hu Hc. destruct (accepted_document rec_sink body ([], []) e Hs) as (d & _ & Hd & _). rewrite Hs in Hd. injection Hd as ->.
  exists d. split; [done|]. cbv zeta. set (x0 := (BB_OK, sink0 (asset_file board) tc uc)).
  destruct (scan_history rec_sink ([], []) body _ psink x0 psink_total Hs) as (log & y & Hv & Hr & Hp & Hy).
  destruct (caught_up_calls log x0 _ Hv) as (e1 & y1 & He1 & Hy1 & [_ Hev]). rewrite Hr in He1. injection He1 as <-. rewrite Hy in Hy1. injection Hy1 as <-. cbn [fst] in Hev. subst y.
  split.
  - unfold bb_release_manifest_parse_github. cbn [negb orb]. destruct (Nat.eqb_spec tc 0); [lia|]. destruct (Nat.eqb_spec uc 0); [lia|]. cbn [orb].
    pose proof (patient_bounded bb_release_manifest_sink_ingest forget body _ _ Hp) as Hb. rewrite init_sink.
    destruct (finalized (asset_file board) tc uc d _ ltac:(lia) ltac:(lia) Hb) as (rc & s & -> & Ha).
    destruct (bb_release_manifest_sink_finalize s rc) as [err s1]. cbn. by rewrite Ha.
  - rewrite stream_parse_chunks, init_sink by done. destruct (chunks_agree psink chunks x0) as (rc & k & rc' & k' & H1 & H2 & H3 & H4).
    rewrite Hc, Hp in H2. injection H2 as <- <-. assert (rc = BB_OK) as -> by (by apply H3). rewrite (H4 eq_refl) in H1.
    pose proof (patient_chunks bb_release_manifest_sink_ingest forget chunks _ _ H1) as Hb.
    destruct (finalized (asset_file board) tc uc d _ ltac:(lia) ltac:(lia) Hb) as (rc & s & -> & Ha).
    destruct (bb_release_manifest_sink_finalize s rc) as [err s1]. cbn. by rewrite Ha.
Qed.

(** * Properties *)


(** ** A concrete release *)

Definition q (s : string) : list byte := [x22] ++ bs s ++ [x22].
Definition case_body : list byte :=
  bs "{" ++ q "url" ++ bs ":" ++ q "x" ++ bs "," ++ q "assets" ++ bs ":[{" ++ q "name" ++ bs ":" ++ q "other.bin" ++ bs "," ++ q "browser_download_url" ++ bs ":" ++ q "no" ++
  bs "}, {" ++ q "id" ++ bs ":7," ++ q "name" ++ bs ":" ++ q "s3.bin" ++ bs "," ++ q "uploader" ++ bs ":{" ++ q "name" ++ bs ":" ++ q "joe" ++ bs "}," ++
  q "browser_download_url" ++ bs ":" ++ q "http://h/s3.bin" ++ bs "}]," ++ q "tag_name" ++ bs ":" ++ q "v1.2" ++ bs "}".
Definition case_chunks : list (list byte) := [take 50 case_body; take 70 (drop 50 case_body); drop 120 case_body].

(** A board name of 59 bytes or more: an asset whose longer name is the board's
    file with something appended is taken for the board's file. *)
Definition long_board : list byte := repeat x61 59.
Definition long_body : list byte :=
  bs "{" ++ q "tag_name" ++ bs ":" ++ q "v1" ++ bs "," ++ q "assets" ++ bs ":[{" ++ q "name" ++ bs ":" ++ [x22] ++ long_board ++ bs ".bin.sig" ++ [x22] ++ bs "," ++
  q "browser_download_url" ++ bs ":" ++ q "http://h/sig" ++ bs "}]}".
Example cut_name_matches :
  bb_release_manifest_parse_github (Some long_body) (Some long_board) true 16 true 32 = Some (BB_OK, Some (bs "v1", bs "http://h/sig")).
Proof. vm_compute. reflexivity. Qed.
(** A text too long for its buffer: a part of it is left there. *)
Definition split_body : list byte := bs "{" ++ q "tag_name" ++ bs ":" ++ [x22] ++ bs "abc" ++ [x5c; x22] ++ bs "defghijk" ++ [x22] ++ bs "}".
Example part_left_behind : bb_release_manifest_parse_github (Some split_body) (Some (bs "b")) true 8 true 8 = Some (BB_ERR_NO_SPACE, Some (bs "abc" ++ [x22], [])).
Proof. vm_compute. reflexivity. Qed.
