(* ===== verification/Fsm.v ===== *)
(** The table-driven state machine engine, components/bb_fsm/bb_fsm.c. *)
From S2P Require Import Prelude.


Definition BB_FSM_STATE_ANY : Z := -1.
Definition BB_FSM_STATE_SAME : Z := -2.
Definition BB_FSM_STATE_TERMINAL : Z := -3.

(** One slot of the [timers] array embedded in [struct bb_fsm]. *)
Record fsm_timer := mk_timer { t_event : Z; t_ms : Z; t_armed : bool }.

(** [struct bb_fsm]. The table the [desc] pointer points at is constant and is
    an argument of the operations; the record keeps whether the pointer was
    set ([bb_fsm_init] ran). *)
Record bb_fsm := mk_fsm {
  f_desc : bool;
  f_current : Z;
  f_terminal : bool;
  f_timers : list fsm_timer
}.

Definition set_current (s : Z) (f : bb_fsm) : bb_fsm :=
  mk_fsm (f_desc f) s (f_terminal f) (f_timers f).
Definition set_terminal (b : bool) (f : bb_fsm) : bb_fsm :=
  mk_fsm (f_desc f) (f_current f) b (f_timers f).
Definition set_timers (ts : list fsm_timer) (f : bb_fsm) : bb_fsm :=
  mk_fsm (f_desc f) (f_current f) (f_terminal f) ts.

(** * The timer seam *)

Definition disarm (t : fsm_timer) : fsm_timer := mk_timer (t_event t) (t_ms t) false.

Definition clear_timers (f : bb_fsm) : bb_fsm := set_timers (disarm <$> f_timers f) f.

(** The scan of [bb_fsm_arm_timer]: the index of the first armed slot holding
    the event, where the loop returns, and the first free slot seen so far. *)
Fixpoint arm_scan (i : nat) (ts : list fsm_timer) (ev : Z) (free_slot : option nat)
  : option nat * option nat :=
  match ts with
  | [] => (None, free_slot)
  | t :: rest =>
      if t_armed t && (t_event t =? ev) then (Some i, free_slot)
      else arm_scan (S i) rest ev
             (match free_slot with
              | None => if t_armed t then None else Some i
              | Some _ => free_slot
              end)
  end.

Definition fsm_arm_timer (f : bb_fsm) (ev ms : Z) : bb_err * bb_fsm :=
  if negb (f_desc f) then (BB_ERR_INVALID_STATE, f) else
  match arm_scan 0 (f_timers f) ev None with
  | (Some i, _) =>
      (BB_OK, set_timers (alter (fun t => if ms =? 0 then disarm t
                                          else mk_timer (t_event t) ms (t_armed t))
                                i (f_timers f)) f)
  | (None, free_slot) =>
      if ms =? 0 then (BB_OK, f) else
      match free_slot with
      | None => (BB_ERR_NO_SPACE, f)
      | Some i => (BB_OK, set_timers (<[i := mk_timer ev ms true]> (f_timers f)) f)
      end
  end.

Definition bb_fsm_arm_timer (h : option bb_fsm) (ev ms : Z) : bb_err * option bb_fsm :=
  match h with
  | None => (BB_ERR_INVALID_ARG, None)
  | Some f => let '(e, f') := fsm_arm_timer f ev ms in (e, Some f')
  end.

(** Only the first armed slot holding the event is disarmed. *)
Fixpoint disarm_first (ts : list fsm_timer) (ev : Z) : list fsm_timer :=
  match ts with
  | [] => []
  | t :: rest => if t_armed t && (t_event t =? ev) then disarm t :: rest
                 else t :: disarm_first rest ev
  end.

Definition bb_fsm_disarm_timer (h : option bb_fsm) (ev : Z) : option bb_fsm :=
  match h with
  | None => None
  | Some f => Some (set_timers (disarm_first (f_timers f) ev) f)
  end.

Fixpoint count_armed (ts : list fsm_timer) (count : nat) : nat :=
  match ts with
  | [] => count
  | t :: rest => count_armed rest (if t_armed t then S count else count)
  end.

Definition bb_fsm_timer_count (h : option bb_fsm) : nat :=
  match h with None => 0%nat | Some f => count_armed (f_timers f) 0 end.

Fixpoint timer_scan (ts : list fsm_timer) (i seen : nat) : option (Z * Z) :=
  match ts with
  | [] => None
  | t :: rest =>
      if negb (t_armed t) then timer_scan rest i seen
      else if Nat.eqb seen i then Some (t_event t, t_ms t)
      else timer_scan rest i (S seen)
  end.

(** [Some (event, ms)] is the [true] return with both out-parameters set. *)
Definition bb_fsm_timer_at (h : option bb_fsm) (i : nat) : option (Z * Z) :=
  match h with None => None | Some f => timer_scan (f_timers f) i 0 end.

Definition bb_fsm_state (h : option bb_fsm) : Z :=
  match h with None => BB_FSM_STATE_ANY | Some f => f_current f end.

Definition bb_fsm_is_terminal (h : option bb_fsm) : bool :=
  match h with None => false | Some f => f_terminal f end.

(** * The table and the step *)

Section Engine.
(** [W]: what the callbacks can read and change, the consumer's [ctx] and the
    world behind its adapter; [D]: what [evt_data] points at. *)
Context {W D : Type}.

Definition guard_fn : Type := W -> Z -> D -> bool * W.
Definition action_fn : Type := bb_fsm -> W -> Z -> D -> bb_fsm * W.
Definition hook_fn : Type := bb_fsm -> W -> Z -> bb_fsm * W.

Record bb_fsm_row := mk_row {
  r_state : Z;
  r_event : Z;
  r_guard : option guard_fn;
  r_action : option action_fn;
  r_next : Z
}.

Record bb_fsm_state_desc := mk_state_desc {
  sd_state : Z;
  sd_on_entry : option hook_fn;
  sd_on_exit : option hook_fn
}.

(** [None] is the NULL array pointer. *)
Record bb_fsm_desc := mk_desc {
  d_rows : option (list bb_fsm_row);
  d_row_count : nat;
  d_states : option (list bb_fsm_state_desc);
  d_state_count : nat;
  d_initial : Z
}.

Fixpoint find_state_desc (sds : list bb_fsm_state_desc) (state : Z)
  : option bb_fsm_state_desc :=
  match sds with
  | [] => None
  | sd :: rest => if sd_state sd =? state then Some sd else find_state_desc rest state
  end.

Definition run_hook (which : bb_fsm_state_desc -> option hook_fn)
    (d : bb_fsm_desc) (f : bb_fsm) (w : W) (state : Z) : bb_fsm * W :=
  match d_states d with
  | None => (f, w)
  | Some sds =>
      match find_state_desc (take (d_state_count d) sds) state with
      | None => (f, w)
      | Some sd => match which sd with None => (f, w) | Some hk => hk f w state end
      end
  end.

Definition run_entry := run_hook sd_on_entry.
Definition run_exit := run_hook sd_on_exit.

Fixpoint scan_rows (rows : list bb_fsm_row) (current event : Z) (evt_data : D) (w : W)
  : option bb_fsm_row * W :=
  match rows with
  | [] => (None, w)
  | row :: rest =>
      let state_match := (r_state row =? current) || (r_state row =? BB_FSM_STATE_ANY) in
      if negb state_match || negb (r_event row =? event)
      then scan_rows rest current event evt_data w
      else match r_guard row with
           | None => (Some row, w)
           | Some g =>
               let '(pass, w') := g w event evt_data in
               if pass then (Some row, w') else scan_rows rest current event evt_data w'
           end
  end.

Definition find_row (d : bb_fsm_desc) (current event : Z) (evt_data : D) (w : W)
  : option bb_fsm_row * W :=
  match d_rows d with
  | None => (None, w)
  | Some rows => scan_rows (take (d_row_count d) rows) current event evt_data w
  end.

Definition is_NULL {A} (p : option A) : bool := match p with None => true | Some _ => false end.

Definition bb_fsm_init (h : option bb_fsm) (desc : option bb_fsm_desc) (w : W)
  : bb_err * option bb_fsm * W :=
  match h, desc with
  | Some f, Some d =>
      if is_NULL (d_rows d) && (0 <? d_row_count d)%nat then (BB_ERR_INVALID_ARG, h, w) else
      if is_NULL (d_states d) && (0 <? d_state_count d)%nat then (BB_ERR_INVALID_ARG, h, w) else
      let f1 := clear_timers (mk_fsm true (d_initial d) false (f_timers f)) in
      let '(f2, w') := run_entry d f1 w (f_current f1) in
      (BB_OK, Some f2, w')
  | _, _ => (BB_ERR_INVALID_ARG, h, w)
  end.

Definition run_action (row : bb_fsm_row) (f : bb_fsm) (w : W) (event : Z) (evt_data : D)
  : bb_fsm * W :=
  match r_action row with None => (f, w) | Some a => a f w event evt_data end.

(** What [bb_fsm_step] does once a row is chosen. *)
Definition take_row (d : bb_fsm_desc) (row : bb_fsm_row) (f : bb_fsm) (w : W)
    (event : Z) (evt_data : D) : bb_fsm * W :=
  let '(f1, w1) := run_action row f w event evt_data in
  if r_next row =? BB_FSM_STATE_SAME then (f1, w1)
  else if r_next row =? BB_FSM_STATE_TERMINAL then (clear_timers (set_terminal true f1), w1)
  else
    let old_state := f_current f1 in
    let '(f2, w2) := run_exit d f1 w1 old_state in
    let f3 := set_current (r_next row) (clear_timers f2) in
    run_entry d f3 w2 (f_current f3).

Definition fsm_step (d : bb_fsm_desc) (f : bb_fsm) (event : Z) (evt_data : D) (w : W)
  : bb_err * bb_fsm * W :=
  if negb (f_desc f) then (BB_ERR_INVALID_STATE, f, w) else
  if f_terminal f then (BB_ERR_INVALID_STATE, f, w) else
  match find_row d (f_current f) event evt_data w with
  | (None, w') => (BB_ERR_NOT_FOUND, f, w')
  | (Some row, w') =>
      let '(f', w'') := take_row d row f w' event evt_data in (BB_OK, f', w'')
  end.

Definition bb_fsm_step (d : bb_fsm_desc) (h : option bb_fsm) (event : Z) (evt_data : D) (w : W)
  : bb_err * option bb_fsm * W :=
  match h with
  | None => (BB_ERR_INVALID_ARG, None, w)
  | Some f => let '(e, f', w') := fsm_step d f event evt_data w in (e, Some f', w')
  end.
End Engine.

Arguments bb_fsm_row : clear implicits.
Arguments bb_fsm_state_desc : clear implicits.
Arguments bb_fsm_desc : clear implicits.

(** * The timers as a finite map from event to delay *)

Definition armed (ts : list fsm_timer) : list (Z * Z) :=
  omap (fun t => if t_armed t then Some (t_event t, t_ms t) else None) ts.

Definition armed_map (f : bb_fsm) : gmap Z Z := list_to_map (armed (f_timers f)).

(** No event is armed in two slots. *)
Definition timers_wf (f : bb_fsm) : Prop := NoDup ((armed (f_timers f)).*1).

(** What [bb_fsm_arm_timer] promises: a bounded map of [cap] entries. *)
Definition arm_spec (cap : nat) (m : gmap Z Z) (ev ms : Z) : bb_err * gmap Z Z :=
  if ms =? 0 then (BB_OK, delete ev m)
  else match m !! ev with
       | Some _ => (BB_OK, <[ev := ms]> m)
       | None => if (size m <? cap)%nat then (BB_OK, <[ev := ms]> m) else (BB_ERR_NO_SPACE, m)
       end.

Lemma armed_cons t ts :
  armed (t :: ts) = if t_armed t then (t_event t, t_ms t) :: armed ts else armed ts.
Proof. unfold armed. cbn. by destruct (t_armed t). Qed.

Lemma armed_app ts1 ts2 : armed (ts1 ++ ts2) = armed ts1 ++ armed ts2.
Proof. unfold armed. by rewrite omap_app. Qed.

Lemma armed_clear f : armed (f_timers (clear_timers f)) = [].
Proof. cbn. induction (f_timers f) as [|t ts IH]; [done|]. cbn [fmap list_fmap]. by rewrite armed_cons. Qed.

Lemma length_armed ts : (length (armed ts) <= length ts)%nat.
Proof. induction ts as [|t ts IH]; [done|]. rewrite armed_cons. destruct (t_armed t); cbn; lia. Qed.

Lemma count_armed_length ts n : count_armed ts n = (n + length (armed ts))%nat.
Proof.
  revert n. induction ts as [|t ts IH]; intros n; cbn [count_armed]; [cbn; lia|].
  rewrite IH, armed_cons. destruct (t_armed t); cbn; lia.
Qed.

Lemma timer_scan_lookup ts i seen :
  (seen <= i)%nat -> timer_scan ts i seen = armed ts !! (i - seen)%nat.
Proof.
  revert seen. induction ts as [|t ts IH]; intros seen Hle; [done|].
  cbn [timer_scan]. rewrite armed_cons. destruct (t_armed t); cbn [negb]; [|by apply IH].
  destruct (Nat.eqb_spec seen i) as [->|Hne].
  - by rewrite Nat.sub_diag.
  - rewrite IH by lia. by replace (i - seen)%nat with (S (i - S seen)) by lia.
Qed.

(** The scan either stops at the first armed slot holding the event, or reports
    the first free slot. *)
Lemma arm_scan_found ts ev i0 fs0 i fs :
  arm_scan i0 ts ev fs0 = (Some i, fs) ->
  exists pre t post, ts = pre ++ t :: post /\ i = (i0 + length pre)%nat /\
    t_armed t = true /\ t_event t = ev /\ (ev ∉ (armed pre).*1).
Proof.
  revert i0 fs0. induction ts as [|t ts IH]; intros i0 fs0; cbn [arm_scan]; [done|].
  destruct (t_armed t && (t_event t =? ev)) eqn:E.
  - intros [= <- <-]. apply andb_prop in E as [Ha He%Z.eqb_eq].
    exists [], t, ts. cbn. split_and!; [done|lia|done|done|]. by apply not_elem_of_nil.
  - intros (pre & t' & post & -> & -> & Ha & He & Hni)%IH.
    exists (t :: pre), t', post. split_and!; [done|cbn; lia|done|done|].
    rewrite armed_cons. destruct (t_armed t); [|done]. cbn in *.
    rewrite not_elem_of_cons. split; [|done]. apply Z.eqb_neq in E. congruence.
Qed.

Lemma arm_scan_none ts ev i0 fs0 fs :
  arm_scan i0 ts ev fs0 = (None, fs) ->
  (ev ∉ (armed ts).*1) /\
  (fs0 = fs \/ fs0 = None) /\
  match fs, fs0 with
  | _, Some _ => True
  | None, None => length (armed ts) = length ts
  | Some i, None => exists pre t post, ts = pre ++ t :: post /\
                    i = (i0 + length pre)%nat /\ t_armed t = false
  end.
Proof.
  revert i0 fs0. induction ts as [|t ts IH]; intros i0 fs0; cbn [arm_scan].
  - intros [= <-]. split; [apply not_elem_of_nil|]. split; [by left|]. by destruct fs0.
  - destruct (t_armed t && (t_event t =? ev)) eqn:E; [done|].
    intros (Hni & Hfs & Hm)%IH. rewrite armed_cons.
    destruct (t_armed t) eqn:Ha; cbn in *.
    + apply Z.eqb_neq in E.
      split; [by rewrite not_elem_of_cons; split; [congruence|]|].
      destruct fs0; [split; [destruct Hfs; auto; done|by destruct fs]|].
      split; [by right|]. destruct fs as [j|]; [|by rewrite Hm].
      destruct Hm as (pre & t' & post & -> & -> & Ht).
      exists (t :: pre), t', post. cbn. split_and!; [done|lia|done].
    + split; [done|]. destruct fs0 as [k|].
      * split; [destruct Hfs; auto; done|by destruct fs].
      * destruct Hfs as [<-|]; [|done]. split; [by right|].
        exists [], t, ts. cbn. split_and!; [done|lia|done].
Qed.

Lemma armed_map_size f : timers_wf f -> size (armed_map f) = length (armed (f_timers f)).
Proof.
  unfold armed_map, timers_wf. induction (armed (f_timers f)) as [|[e m] l IH]; [done|].
  cbn. intros [Hni Hnd]%NoDup_cons. rewrite map_size_insert_None; [by rewrite IH|].
  by apply not_elem_of_list_to_map_1.
Qed.

Lemma list_to_map_app_delete (l1 l2 : list (Z * Z)) ev ms :
  NoDup ((l1 ++ (ev, ms) :: l2).*1) ->
  list_to_map (M := gmap Z Z) (l1 ++ l2) = delete ev (list_to_map (l1 ++ (ev, ms) :: l2)).
Proof.
  intros Hnd. rewrite fmap_app, fmap_cons in Hnd. cbn in Hnd.
  assert (ev ∉ (l1 ++ l2).*1) as Hni.
  { rewrite fmap_app. apply NoDup_app in Hnd as (_ & Hd & [Hn2 _]%NoDup_cons).
    rewrite elem_of_app. intros [H|H]; [apply (Hd _ H); left|done]. }
  rewrite (list_to_map_proper (l1 ++ (ev, ms) :: l2) ((ev, ms) :: l1 ++ l2)).
  - cbn. rewrite delete_insert_id; [done|]. by apply not_elem_of_list_to_map_1.
  - by rewrite fmap_app, fmap_cons.
  - by rewrite Permutation_middle.
Qed.

Lemma list_to_map_app_insert (l1 l2 : list (Z * Z)) ev ms :
  ev ∉ l1.*1 ->
  list_to_map (M := gmap Z Z) (l1 ++ (ev, ms) :: l2) = <[ev := ms]> (list_to_map (l1 ++ l2)).
Proof.
  intros Hni. induction l1 as [|[e m] l1 IH]; [done|]. cbn in *.
  apply not_elem_of_cons in Hni as [Hne Hni]. rewrite IH by done.
  by apply insert_insert_ne.
Qed.

Arguments armed : simpl never.

(** A slot of the array, before and after a write to it. *)
Lemma armed_split pre t post :
  armed (pre ++ t :: post) =
  armed pre ++ (if t_armed t then [(t_event t, t_ms t)] else []) ++ armed post.
Proof. rewrite armed_app, armed_cons. by destruct (t_armed t). Qed.

Lemma NoDup_fst_middle (l1 l2 : list (Z * Z)) ev a b :
  NoDup ((l1 ++ (ev, a) :: l2).*1) -> NoDup ((l1 ++ (ev, b) :: l2).*1).
Proof. by rewrite !fmap_app, !fmap_cons. Qed.

Lemma NoDup_fst_drop (l1 l2 : list (Z * Z)) x :
  NoDup ((l1 ++ x :: l2).*1) -> NoDup ((l1 ++ l2).*1).
Proof.
  rewrite !fmap_app, fmap_cons.
  rewrite <- Permutation_middle. by intros [_ H]%NoDup_cons.
Qed.

Lemma NoDup_fst_add (l1 l2 : list (Z * Z)) ev ms :
  ev ∉ (l1 ++ l2).*1 -> NoDup ((l1 ++ l2).*1) -> NoDup ((l1 ++ (ev, ms) :: l2).*1).
Proof.
  rewrite !fmap_app, fmap_cons. intros Hni Hnd.
  rewrite <- Permutation_middle. by apply NoDup_cons.
Qed.

Lemma armed_map_lookup_ne f ev : ev ∉ (armed (f_timers f)).*1 -> armed_map f !! ev = None.
Proof. apply not_elem_of_list_to_map_1. Qed.

(** Writing to an armed slot: re-arming is a map insert, disarming a delete. *)
Lemma rearm_slot pre t post ms :
  t_armed t = true -> NoDup ((armed (pre ++ t :: post)).*1) ->
  let ts' := pre ++ mk_timer (t_event t) ms true :: post in
  NoDup ((armed ts').*1) /\
  list_to_map (M := gmap Z Z) (armed ts')
  = <[t_event t := ms]> (list_to_map (armed (pre ++ t :: post))).
Proof.
  intros Ha. cbv zeta. rewrite !armed_split, Ha. cbn. intros Hnd.
  split; [by eapply NoDup_fst_middle|].
  assert (t_event t ∉ (armed pre).*1) as Hni.
  { rewrite fmap_app, fmap_cons in Hnd. apply NoDup_app in Hnd as (_ & Hd & _).
    intros H. apply (Hd _ H). left. }
  rewrite !list_to_map_app_insert by done. by rewrite insert_insert_eq.
Qed.

Lemma disarm_slot pre t post :
  t_armed t = true -> NoDup ((armed (pre ++ t :: post)).*1) ->
  let ts' := pre ++ disarm t :: post in
  NoDup ((armed ts').*1) /\
  list_to_map (M := gmap Z Z) (armed ts')
  = delete (t_event t) (list_to_map (armed (pre ++ t :: post))).
Proof.
  intros Ha. cbv zeta. rewrite !armed_split, Ha. cbn. intros Hnd.
  split; [by eapply NoDup_fst_drop|]. by erewrite list_to_map_app_delete.
Qed.

Lemma arm_free_slot pre t post ev ms :
  t_armed t = false -> ev ∉ (armed (pre ++ t :: post)).*1 ->
  NoDup ((armed (pre ++ t :: post)).*1) ->
  let ts' := pre ++ mk_timer ev ms true :: post in
  NoDup ((armed ts').*1) /\
  list_to_map (M := gmap Z Z) (armed ts')
  = <[ev := ms]> (list_to_map (armed (pre ++ t :: post))).
Proof.
  intros Ha. cbv zeta. rewrite !armed_split, Ha. cbn. intros Hni Hnd.
  split; [by apply NoDup_fst_add|]. apply list_to_map_app_insert.
  rewrite fmap_app, not_elem_of_app in Hni. tauto.
Qed.

(** The array implements the bounded map. *)
Lemma fsm_arm_timer_spec f ev ms :
  f_desc f = true -> timers_wf f ->
  let '(e, f') := fsm_arm_timer f ev ms in
  (e, armed_map f') = arm_spec (length (f_timers f)) (armed_map f) ev ms /\
  timers_wf f' /\ length (f_timers f') = length (f_timers f) /\
  f_desc f' = true /\ f_current f' = f_current f /\ f_terminal f' = f_terminal f /\
  (e <> BB_OK -> f' = f).
Proof.
  intros Hd Hwf. unfold fsm_arm_timer, arm_spec. rewrite Hd. cbn [negb].
  destruct (arm_scan 0 (f_timers f) ev None) as [[i|] fs] eqn:Hs.
  - destruct f as [fd fc ft ts]; cbn in *.
    apply arm_scan_found in Hs as (pre & t & post & -> & -> & Ha & <- & Hni).
    cbn in *. rewrite alter_app_r_alt, Nat.sub_diag by lia. cbn.
    destruct (disarm_slot pre t post Ha Hwf) as [Hn1 Hm1].
    destruct (rearm_slot pre t post ms Ha Hwf) as [Hn2 Hm2].
    assert (armed_map (mk_fsm fd fc ft (pre ++ t :: post)) !! t_event t = Some (t_ms t)) as Hl.
    { unfold armed_map. cbn. rewrite armed_split, Ha. cbn.
      rewrite list_to_map_app_insert by done. apply lookup_insert_eq. }
    unfold armed_map, timers_wf in *. cbn in *. rewrite Hl, Ha.
    destruct (ms =? 0); rewrite !length_app; cbn; split_and!; first [done | congruence | by rewrite Hm1 | by rewrite Hm2].
  - apply arm_scan_none in Hs as (Hni & _ & Hfs). pose proof (armed_map_lookup_ne f ev Hni) as Hl.
    destruct (ms =? 0) eqn:Hms.
    { split_and!; first [done | by rewrite delete_id]. }
    rewrite Hl, armed_map_size by done. destruct fs as [i|].
    + destruct f as [fd fc ft ts]; cbn in *. destruct Hfs as (pre & t & post & -> & -> & Ha).
      assert (length (armed (pre ++ t :: post)) < length (pre ++ t :: post))%nat as Hlt.
      { rewrite armed_split, Ha, !length_app. cbn.
        pose proof (length_armed pre). pose proof (length_armed post). lia. }
      destruct (arm_free_slot pre t post ev ms Ha Hni Hwf) as [Hn1 Hm1].
      rewrite (proj2 (Nat.ltb_lt _ _) Hlt). unfold armed_map, timers_wf in *. cbn in *.
      rewrite insert_app_r_alt, Nat.sub_diag by lia. cbn. rewrite !length_app. cbn.
      split_and!; first [done | congruence | by rewrite Hm1].
    + rewrite Hfs, Nat.ltb_irrefl. by split_and!.
Qed.

Lemma disarm_first_spec ts ev :
  NoDup ((armed ts).*1) ->
  NoDup ((armed (disarm_first ts ev)).*1) /\
  list_to_map (M := gmap Z Z) (armed (disarm_first ts ev)) = delete ev (list_to_map (armed ts)) /\
  length (disarm_first ts ev) = length ts.
Proof.
  induction ts as [|t ts IH]; intros Hnd; cbn [disarm_first].
  { split_and!; [done|symmetry; apply (delete_empty (M := gmap Z))|done]. }
  destruct (t_armed t && (t_event t =? ev)) eqn:E.
  - apply andb_prop in E as [Ha <-%Z.eqb_eq].
    by destruct (disarm_slot [] t ts Ha Hnd) as [H1 H2].
  - rewrite armed_cons in *. destruct (t_armed t) eqn:Ha; cbn in *.
    + apply NoDup_cons in Hnd as [Hni Hnd]. destruct (IH Hnd) as (H1 & H2 & H3).
      apply Z.eqb_neq in E. rewrite armed_cons, Ha. cbn. rewrite H2.
      split_and!; [|symmetry; by apply delete_insert_ne|by rewrite H3].
      apply NoDup_cons. split; [|done].
      rewrite not_elem_of_list_to_map, H2, lookup_delete_ne by done.
      by apply not_elem_of_list_to_map.
    + destruct (IH Hnd) as (H1 & H2 & H3). rewrite armed_cons, Ha, H3. done.
Qed.

(** * The row scan and the step *)

Section EngineFacts.
Context {W D : Type}.
Implicit Types (d : bb_fsm_desc W D) (row : bb_fsm_row W D) (w : W) (data : D).

(** A row the scan may take in state [current] for [event]. *)
Definition enabled (current event : Z) data w row : bool :=
  ((r_state row =? current) || (r_state row =? BB_FSM_STATE_ANY)) && (r_event row =? event)
  && match r_guard row with None => true | Some g => (g w event data).1 end.

Definition guard_pure row : Prop :=
  match r_guard row with None => True | Some g => forall w event data, (g w event data).2 = w end.

Lemma scan_rows_cons row rows current event data w :
  guard_pure row ->
  scan_rows (row :: rows) current event data w =
  if enabled current event data w row then (Some row, w)
  else scan_rows rows current event data w.
Proof.
  unfold enabled, guard_pure. cbn [scan_rows]. intros Hp.
  destruct ((r_state row =? current) || (r_state row =? BB_FSM_STATE_ANY)); cbn; [|done].
  destruct (r_event row =? event); cbn; [|done].
  destruct (r_guard row) as [g|]; [|done].
  specialize (Hp w event data). destruct (g w event data) as [b w']. cbn in *. subst. by destruct b.
Qed.

Lemma scan_rows_first rows current event data w :
  Forall guard_pure rows ->
  (scan_rows rows current event data w).2 = w /\
  match (scan_rows rows current event data w).1 with
  | None => Forall (fun r => enabled current event data w r = false) rows
  | Some row => exists pre post, rows = pre ++ row :: post /\
      Forall (fun r => enabled current event data w r = false) pre /\
      enabled current event data w row = true
  end.
Proof.
  induction 1 as [|row rows Hp Hps IH]; [split; [done|constructor]|].
  rewrite scan_rows_cons by done. destruct (enabled current event data w row) eqn:E.
  - split; [done|]. exists [], rows. done.
  - destruct IH as [Hw IH]. split; [done|]. cbn.
    destruct (scan_rows rows current event data w).1 as [r|].
    + destruct IH as (pre & post & -> & Hpre & Hr). exists (row :: pre), post.
      split_and!; [done|by constructor|done].
    + by constructor.
Qed.

(** A desc whose guards leave the world alone ([bb_fsm_guard_fn]'s contract). *)
Definition guards_pure d : Prop :=
  match d_rows d with None => True | Some rows => Forall guard_pure rows end.

(** C-level outcomes of [bb_fsm_step]. *)
Inductive step_outcome d f event data w : bb_err -> bb_fsm -> W -> Prop :=
  | so_rejected :
      f_desc f = false \/ f_terminal f = true ->
      step_outcome d f event data w BB_ERR_INVALID_STATE f w
  | so_no_row :
      f_desc f = true -> f_terminal f = false ->
      (forall rows, d_rows d = Some rows ->
         Forall (fun r => enabled (f_current f) event data w r = false)
                (take (d_row_count d) rows)) ->
      step_outcome d f event data w BB_ERR_NOT_FOUND f w
  | so_same row rows pre post f1 w1 :
      f_desc f = true -> f_terminal f = false -> d_rows d = Some rows ->
      take (d_row_count d) rows = pre ++ row :: post ->
      Forall (fun r => enabled (f_current f) event data w r = false) pre ->
      enabled (f_current f) event data w row = true ->
      r_next row = BB_FSM_STATE_SAME ->
      run_action row f w event data = (f1, w1) ->
      step_outcome d f event data w BB_OK f1 w1
  | so_terminal row rows pre post f1 w1 f' :
      f_desc f = true -> f_terminal f = false -> d_rows d = Some rows ->
      take (d_row_count d) rows = pre ++ row :: post ->
      Forall (fun r => enabled (f_current f) event data w r = false) pre ->
      enabled (f_current f) event data w row = true ->
      r_next row = BB_FSM_STATE_TERMINAL ->
      run_action row f w event data = (f1, w1) ->
      f_terminal f' = true -> armed (f_timers f') = [] -> f_current f' = f_current f1 ->
      step_outcome d f event data w BB_OK f' w1
  | so_move row rows pre post f1 w1 f2 w2 f3 f' w' :
      f_desc f = true -> f_terminal f = false -> d_rows d = Some rows ->
      take (d_row_count d) rows = pre ++ row :: post ->
      Forall (fun r => enabled (f_current f) event data w r = false) pre ->
      enabled (f_current f) event data w row = true ->
      r_next row <> BB_FSM_STATE_SAME -> r_next row <> BB_FSM_STATE_TERMINAL ->
      run_action row f w event data = (f1, w1) ->
      run_exit d f1 w1 (f_current f1) = (f2, w2) ->
      f_current f3 = r_next row -> armed (f_timers f3) = [] ->
      f_desc f3 = f_desc f2 -> f_terminal f3 = f_terminal f2 ->
      run_entry d f3 w2 (r_next row) = (f', w') ->
      step_outcome d f event data w BB_OK f' w'.

Lemma find_row_first d current event data w :
  guards_pure d ->
  (find_row d current event data w).2 = w /\
  match (find_row d current event data w).1 with
  | None => forall rows, d_rows d = Some rows ->
      Forall (fun r => enabled current event data w r = false) (take (d_row_count d) rows)
  | Some row => exists rows pre post, d_rows d = Some rows /\
      take (d_row_count d) rows = pre ++ row :: post /\
      Forall (fun r => enabled current event data w r = false) pre /\
      enabled current event data w row = true
  end.
Proof.
  unfold guards_pure, find_row. destruct (d_rows d) as [rows|]; [|done]. intros Hp.
  destruct (scan_rows_first (take (d_row_count d) rows) current event data w) as [H1 H2].
  { by apply Forall_take. }
  split; [done|]. destruct (scan_rows _ _ _ _ _).1.
  - destruct H2 as (pre & post & H). by exists rows, pre, post.
  - by intros ? [= <-].
Qed.

Lemma fsm_step_outcome d f event data w :
  guards_pure d ->
  let '(e, f', w') := fsm_step d f event data w in step_outcome d f event data w e f' w'.
Proof.
  intros Hp. unfold fsm_step.
  destruct (f_desc f) eqn:Hd; cbn [negb]; [|apply so_rejected; auto].
  destruct (f_terminal f) eqn:Ht; [apply so_rejected; auto|].
  destruct (find_row_first d (f_current f) event data w Hp) as [Hw Hr].
  destruct (find_row _ _ _ _ _) as [[row|] w0]; cbn in *; subst w0; [|by apply so_no_row].
  destruct Hr as (rows & pre & post & Hrows & Htake & Hpre & Hen).
  unfold take_row. destruct (run_action row f w event data) as [f1 w1] eqn:Ha.
  destruct (Z.eqb_spec (r_next row) BB_FSM_STATE_SAME); [by eapply so_same|].
  destruct (Z.eqb_spec (r_next row) BB_FSM_STATE_TERMINAL).
  { eapply so_terminal; try done. apply armed_clear. }
  destruct (run_exit d f1 w1 (f_current f1)) as [f2 w2] eqn:Hx.
  destruct (run_entry _ _ _ _) as [f' w'] eqn:He.
  eapply (so_move _ _ _ _ _ row rows pre post f1 w1 f2 w2
            (set_current (r_next row) (clear_timers f2))); try done. apply armed_clear.
Qed.
End EngineFacts.

(** Feeding a sequence of events, each with its data. *)
Fixpoint run_events {W D} (d : bb_fsm_desc W D) (h : option bb_fsm) (evs : list (Z * D)) (w : W)
  : list bb_err * option bb_fsm * W :=
  match evs with
  | [] => ([], h, w)
  | (ev, data) :: rest =>
      let '(e, h', w') := bb_fsm_step d h ev data w in
      let '(es, h'', w'') := run_events d h' rest w' in (e :: es, h'', w'')
  end.

Lemma terminal_rejects {W D} (d : bb_fsm_desc W D) f ev data w :
  f_terminal f = true -> fsm_step d f ev data w = (BB_ERR_INVALID_STATE, f, w).
Proof. unfold fsm_step. intros ->. by destruct (negb (f_desc f)). Qed.

(** * Properties *)

(** The timer array of an initialised machine refines a finite map from
    event to delay bounded by the array length.  Arming with a non-zero delay
    inserts or overwrites, arming with zero deletes, a new event in a full
    array is [BB_ERR_NO_SPACE] with nothing changed, [bb_fsm_disarm_timer]
    deletes, [bb_fsm_timer_count] is the map's size, and [bb_fsm_timer_at]
    lists exactly its entries; no event is ever armed twice. *)
Theorem timer_seam_refines_bounded_map (f : bb_fsm) (ev ms : Z) (i : nat) :
  f_desc f = true -> timers_wf f ->
  (exists e f', bb_fsm_arm_timer (Some f) ev ms = (e, Some f') /\
     (e, armed_map f') = arm_spec (length (f_timers f)) (armed_map f) ev ms /\
     timers_wf f' /\ (e <> BB_OK -> f' = f)) /\
  (exists f', bb_fsm_disarm_timer (Some f) ev = Some f' /\
     armed_map f' = delete ev (armed_map f) /\ timers_wf f') /\
  bb_fsm_timer_count (Some f) = size (armed_map f) /\
  (forall e m, armed_map f !! e = Some m <-> exists k, bb_fsm_timer_at (Some f) k = Some (e, m)) /\
  (bb_fsm_timer_at (Some f) i = None <-> (bb_fsm_timer_count (Some f) <= i)%nat).
Proof.
  intros Hd Hwf. split_and!.
  - pose proof (fsm_arm_timer_spec f ev ms Hd Hwf) as H.
    unfold bb_fsm_arm_timer. destruct (fsm_arm_timer f ev ms) as [e f'].
    destruct H as (H1 & H2 & _ & _ & _ & _ & H3). by exists e, f'.
  - destruct (disarm_first_spec (f_timers f) ev Hwf) as (H1 & H2 & _). by eexists.
  - cbn. by rewrite count_armed_length, armed_map_size.
  - intros e m. unfold armed_map. cbn. rewrite <- elem_of_list_to_map by done.
    rewrite list_elem_of_lookup. split; intros [k Hk]; exists k; revert Hk;
      rewrite timer_scan_lookup, Nat.sub_0_r by lia; done.
  - cbn. rewrite count_armed_length, timer_scan_lookup, Nat.sub_0_r by lia.
    by rewrite lookup_ge_None.
Qed.

Lemma timer_seam_refines_bounded_map_witness :
  let f := mk_fsm true 0 false [mk_timer 7 10 true; mk_timer 0 0 false] in
  f_desc f = true /\ timers_wf f /\
  bb_fsm_timer_count (Some f) = size (armed_map f).
Proof.
  split; [reflexivity|]. split; [vm_compute; constructor; [intros H; inversion H | constructor]|].
  refine (proj1 (proj2 (proj2 (timer_seam_refines_bounded_map
    (mk_fsm true 0 false [mk_timer 7 10 true; mk_timer 0 0 false]) 3 20 0 eq_refl _)))).
  vm_compute. constructor; [intros H; inversion H | constructor].
Defined.

(** every call of [bb_fsm_step] is one of the documented outcomes: rejected
    without effect on a terminal or never-initialised instance; NOT_FOUND
    without effect when no row is enabled; otherwise the FIRST enabled row of
    the table runs its action, and then SAME keeps the action's result as it
    is, TERMINAL latches with no timer armed, and a concrete destination runs
    exit hook, timer clear, state write and entry hook in this order, the entry
    hook seeing no armed timer.  A NULL handle is INVALID_ARG. *)
Theorem bb_fsm_step_outcomes {W D} (d : bb_fsm_desc W D) (h : option bb_fsm) ev (data : D) (w : W) :
  guards_pure d ->
  match bb_fsm_step d h ev data w, h with
  | (e, h', w'), None => e = BB_ERR_INVALID_ARG /\ h' = None /\ w' = w
  | (e, Some f', w'), Some f => step_outcome d f ev data w e f' w'
  | (e, None, w'), Some f => False
  end.
Proof.
  intros Hp. destruct h as [f|]; [|done]. cbn.
  pose proof (fsm_step_outcome d f ev data w Hp) as H. by destruct (fsm_step d f ev data w) as [[e f'] w'].
Qed.

Lemma bb_fsm_step_outcomes_witness :
  let d := mk_desc (W := nat) (D := unit)
             (Some [mk_row 0 5 (Some (fun w _ _ => (Nat.eqb w 1, w))) None 2]) 1 None 0 0 in
  guards_pure d /\
  step_outcome d (mk_fsm true 0 false []) 5 tt 1%nat BB_OK (mk_fsm true 2 false []) 1%nat.
Proof.
  assert (Hp : guards_pure (mk_desc (W := nat) (D := unit)
             (Some [mk_row 0 5 (Some (fun w _ _ => (Nat.eqb w 1, w))) None 2]) 1 None 0 0)).
  { constructor; [intros w e x; reflexivity | constructor]. }
  split; [exact Hp|].
  exact (bb_fsm_step_outcomes _ (Some (mk_fsm true 0 false [])) 5 tt 1%nat Hp).
Defined.

(** The terminal latch is permanent: whatever events follow, every step is
    refused and neither the machine nor the consumer's world changes. *)
Theorem terminal_latch_permanent {W D} (d : bb_fsm_desc W D) (f : bb_fsm) evs (w : W) :
  bb_fsm_is_terminal (Some f) = true ->
  run_events d (Some f) evs w = (replicate (length evs) BB_ERR_INVALID_STATE, Some f, w).
Proof.
  cbn. intros Ht. induction evs as [|[ev data] evs IH]; [done|].
  cbn [run_events bb_fsm_step]. rewrite terminal_rejects by done. cbn. by rewrite IH.
Qed.

Lemma terminal_latch_permanent_witness :
  let d := mk_desc (W := nat) (D := unit) (Some [mk_row 0 5 None None 2]) 1 None 0 0 in
  bb_fsm_is_terminal (Some (mk_fsm true 0 true [])) = true /\
  run_events d (Some (mk_fsm true 0 true [])) [(5, tt); (5, tt)] 0%nat
  = ([BB_ERR_INVALID_STATE; BB_ERR_INVALID_STATE], Some (mk_fsm true 0 true []), 0%nat).
Proof.
  split; [reflexivity|].
  exact (terminal_latch_permanent
           (mk_desc (W := nat) (D := unit) (Some [mk_row 0 5 None None 2]) 1 None 0 0)
           (mk_fsm true 0 true []) [(5, tt); (5, tt)] 0%nat eq_refl).
Defined.
