(* ===== verification/WifiReconn.v ===== *)
(** The Wi-Fi reconnect policy and its state machine,
    components/bb_wifi/wifi_reconn_policy.c, on top of [Fsm]. *)
From Stdlib Require Import Strings.String.
From S2P Require Import Prelude Fsm.
Local Open Scope Z_scope.

(** * Constants (wifi_reconn_policy.h, the Kconfig defaults) *)

Definition WIFI_RECONN_HANDSHAKE_BACKOFF_TIER2_MS : Z := 10000.
Definition WIFI_RECONN_HANDSHAKE_BACKOFF_TIER3_MS : Z := 30000.
Definition WIFI_RECONN_GENERIC_BACKOFF_PAUSE_MS : Z := 5000.
Definition WIFI_RECONN_GENERIC_FAST_RETRY_LIMIT : Z := 10.
Definition WIFI_RECONN_SLOW_TIER1_LIMIT : Z := 3.
Definition WIFI_RECONN_SLOW_BACKOFF_TIER1_MS : Z := 30000.
Definition WIFI_RECONN_SLOW_BACKOFF_TIER2_MS : Z := 120000.
Definition WIFI_RECONN_HANDSHAKE_FAST_RETRY_LIMIT : Z := 3.
Definition WIFI_RECONN_HANDSHAKE_TIER2_LIMIT : Z := 6.
Definition WIFI_RECONN_PERSISTENT_FAIL_WINDOW_S : Z := 300.
Definition WIFI_RECONN_PERSISTENT_FAIL_WINDOW_US : Z :=
  WIFI_RECONN_PERSISTENT_FAIL_WINDOW_S * 1000000.
Definition WIFI_RECONN_CONNECTING_TIMEOUT_MS : Z := 30000.

(** * Disconnect reasons (bb_wifi.h) *)

Inductive disc_reason : Set :=
  | DISC_UNKNOWN | DISC_AUTH_FAIL | DISC_ASSOC_FAIL | DISC_HANDSHAKE_TIMEOUT
  | DISC_CONNECTION_LOST | DISC_NO_AP_FOUND | DISC_INACTIVITY | DISC_DEAUTH
  | DISC_BEACON_TIMEOUT | DISC_BB_LOST_IP | DISC_BB_EGRESS_DEAD
  | DISC_BB_NO_IP_WATCHDOG | DISC_ASSOC_LEAVE.

#[export] Instance disc_reason_eq_dec : EqDecision disc_reason.
Proof. solve_decision. Defined.

(** The enum's ordinal, the index into [reason_histogram]. *)
Definition disc_index (r : disc_reason) : nat :=
  match r with
  | DISC_UNKNOWN => 0 | DISC_AUTH_FAIL => 1 | DISC_ASSOC_FAIL => 2
  | DISC_HANDSHAKE_TIMEOUT => 3 | DISC_CONNECTION_LOST => 4 | DISC_NO_AP_FOUND => 5
  | DISC_INACTIVITY => 6 | DISC_DEAUTH => 7 | DISC_BEACON_TIMEOUT => 8
  | DISC_BB_LOST_IP => 9 | DISC_BB_EGRESS_DEAD => 10
  | DISC_BB_NO_IP_WATCHDOG => 11 | DISC_ASSOC_LEAVE => 12
  end.
Definition BB_WIFI_DISC_COUNT : nat := 13.

Definition bb_wifi_map_esp_reason (esp_code : Z) : disc_reason :=
  if esp_code =? 2 then DISC_AUTH_FAIL else
  if esp_code =? 3 then DISC_DEAUTH else
  if esp_code =? 4 then DISC_INACTIVITY else
  if esp_code =? 8 then DISC_ASSOC_LEAVE else
  if esp_code =? 15 then DISC_HANDSHAKE_TIMEOUT else
  if esp_code =? 23 then DISC_AUTH_FAIL else
  if esp_code =? 200 then DISC_BEACON_TIMEOUT else
  if esp_code =? 201 then DISC_NO_AP_FOUND else
  if esp_code =? 202 then DISC_AUTH_FAIL else
  if esp_code =? 203 then DISC_ASSOC_FAIL else
  if esp_code =? 204 then DISC_HANDSHAKE_TIMEOUT else
  if esp_code =? 205 then DISC_CONNECTION_LOST else
  if esp_code =? 210 then DISC_NO_AP_FOUND else
  if esp_code =? 211 then DISC_NO_AP_FOUND else
  if esp_code =? 212 then DISC_NO_AP_FOUND else
  DISC_UNKNOWN.

Definition bb_wifi_map_wl_status (wl_status : Z) : disc_reason :=
  if wl_status =? 5 then DISC_CONNECTION_LOST else
  if wl_status =? 4 then DISC_ASSOC_FAIL else
  if wl_status =? 1 then DISC_NO_AP_FOUND else
  DISC_UNKNOWN.

(** * The policy state and the decisions *)

(** [wifi_reconn_state_t].  The [int] counters are unbounded here: signed
    overflow would need 2^31 disconnects without one IP acquisition. *)
Record reconn_state := mk_rs {
  handshake_fail_count : Z;
  generic_fail_count : Z;
  slow_fail_count : Z;
  first_fail_us : Z;
  retry_count : Z;
  last_reason : disc_reason;
  last_disconnect_us : Z;
  reason_histogram : list Z;
  lost_ip_count : Z;
  last_lost_ip_us : Z
}.

Inductive reconn_action : Set :=
  | ACTION_NONE | ACTION_RECONNECT_NOW | ACTION_SCHEDULE_BACKOFF | ACTION_REBOOT.

Definition wifi_reconn_state_reset (st : reconn_state) : reconn_state :=
  mk_rs 0 0 0 0 0 DISC_UNKNOWN 0 (replicate BB_WIFI_DISC_COUNT 0) 0 0.

Definition compute_backoff_ms (st : reconn_state) (reason : disc_reason) : Z :=
  match reason with
  | DISC_HANDSHAKE_TIMEOUT =>
      let n := handshake_fail_count st in
      if n <=? WIFI_RECONN_HANDSHAKE_FAST_RETRY_LIMIT then 0
      else if n <=? WIFI_RECONN_HANDSHAKE_TIER2_LIMIT
      then WIFI_RECONN_HANDSHAKE_BACKOFF_TIER2_MS
      else WIFI_RECONN_HANDSHAKE_BACKOFF_TIER3_MS
  | DISC_AUTH_FAIL | DISC_NO_AP_FOUND =>
      if slow_fail_count st <=? WIFI_RECONN_SLOW_TIER1_LIMIT
      then WIFI_RECONN_SLOW_BACKOFF_TIER1_MS
      else WIFI_RECONN_SLOW_BACKOFF_TIER2_MS
  | _ =>
      let n := generic_fail_count st in
      if n <=? WIFI_RECONN_GENERIC_FAST_RETRY_LIMIT then 0
      else WIFI_RECONN_GENERIC_BACKOFF_PAUSE_MS
  end.

(** The saturating [uint16_t] bump of one histogram bucket. *)
Definition hist_bump (i : nat) (h : list Z) : list Z :=
  alter (fun c => if c <? UINT16_MAX then c + 1 else c) i h.

(** The bucket [on_disconnect] and the guards' peek increment. *)
Definition bump_fail (reason : disc_reason) (st : reconn_state) : reconn_state :=
  match reason with
  | DISC_HANDSHAKE_TIMEOUT =>
      mk_rs (handshake_fail_count st + 1) (generic_fail_count st) (slow_fail_count st)
        (first_fail_us st) (retry_count st) (last_reason st) (last_disconnect_us st)
        (reason_histogram st) (lost_ip_count st) (last_lost_ip_us st)
  | DISC_AUTH_FAIL | DISC_NO_AP_FOUND =>
      mk_rs (handshake_fail_count st) (generic_fail_count st) (slow_fail_count st + 1)
        (first_fail_us st) (retry_count st) (last_reason st) (last_disconnect_us st)
        (reason_histogram st) (lost_ip_count st) (last_lost_ip_us st)
  | _ =>
      mk_rs (handshake_fail_count st) (generic_fail_count st + 1) (slow_fail_count st)
        (first_fail_us st) (retry_count st) (last_reason st) (last_disconnect_us st)
        (reason_histogram st) (lost_ip_count st) (last_lost_ip_us st)
  end.

(** The window test and backoff that end both decisions: the action and what
    is written to [*backoff_ms_out] ([None]: left as the caller had it). *)
Definition decide_action (st : reconn_state) (now : Z) (reason : disc_reason)
  : reconn_action * option Z :=
  if now - first_fail_us st >? WIFI_RECONN_PERSISTENT_FAIL_WINDOW_US
  then (ACTION_REBOOT, None)
  else let backoff_ms := compute_backoff_ms st reason in
       (if backoff_ms =? 0 then ACTION_RECONNECT_NOW else ACTION_SCHEDULE_BACKOFF,
        Some backoff_ms).

(** [wifi_reconn_policy_on_disconnect] with [now] the one reading of
    [a->now_us()] it makes; the pointers are non-NULL. *)
Definition policy_on_disconnect (st : reconn_state) (now : Z) (reason : disc_reason)
  : reconn_action * option Z * reconn_state :=
  let st1 := mk_rs (handshake_fail_count st) (generic_fail_count st) (slow_fail_count st)
               (if first_fail_us st =? 0 then now else first_fail_us st)
               (retry_count st + 1) reason now
               (hist_bump (disc_index reason) (reason_histogram st))
               (lost_ip_count st) (last_lost_ip_us st) in
  let st2 := bump_fail reason st1 in
  (decide_action st2 now reason, st2).

Definition policy_on_got_ip (st : reconn_state) : reconn_state :=
  mk_rs 0 0 0 0 0 (last_reason st) (last_disconnect_us st)
    (reason_histogram st) (lost_ip_count st) (last_lost_ip_us st).

Definition policy_on_lost_ip (st : reconn_state) (now : Z) : reconn_state :=
  mk_rs (handshake_fail_count st) (generic_fail_count st) (slow_fail_count st)
    (first_fail_us st) (retry_count st) (last_reason st) (last_disconnect_us st)
    (hist_bump (disc_index DISC_BB_LOST_IP) (reason_histogram st))
    (u32 (lost_ip_count st + 1)) now.

Definition policy_on_connect_timeout (st : reconn_state) (now : Z)
  : reconn_action * option Z * reconn_state :=
  let st1 := mk_rs (handshake_fail_count st) (generic_fail_count st + 1) (slow_fail_count st)
               (if first_fail_us st =? 0 then now else first_fail_us st)
               (retry_count st + 1) (last_reason st) now
               (reason_histogram st) (lost_ip_count st) (last_lost_ip_us st) in
  (decide_action st1 now DISC_UNKNOWN, st1).

(** The exported entry points with their NULL guards.  [a = Some now]: an
    adapter whose clock reads [now]; [out = Some x]: [backoff_ms_out] points at
    a word holding [x]. *)
Definition write_out (out : Z) (res : option Z) : option Z :=
  Some (match res with Some x => x | None => out end).

Definition wifi_reconn_policy_on_disconnect (st : option reconn_state) (a : option Z)
    (reason : disc_reason) (out : option Z) : reconn_action * option reconn_state * option Z :=
  match st, a, out with
  | Some s, Some now, Some x =>
      let '(act, res, s') := policy_on_disconnect s now reason in (act, Some s', write_out x res)
  | _, _, _ => (ACTION_NONE, st, out)
  end.

Definition wifi_reconn_policy_on_got_ip (st : option reconn_state) : option reconn_state :=
  match st with None => None | Some s => Some (policy_on_got_ip s) end.

Definition wifi_reconn_policy_on_lost_ip (st : option reconn_state) (a : option Z)
  : option reconn_state :=
  match st, a with Some s, Some now => Some (policy_on_lost_ip s now) | _, _ => st end.

Definition wifi_reconn_policy_on_connect_timeout (st : option reconn_state) (a : option Z)
    (out : option Z) : reconn_action * option reconn_state * option Z :=
  match st, a, out with
  | Some s, Some now, Some x =>
      let '(act, res, s') := policy_on_connect_timeout s now in (act, Some s', write_out x res)
  | _, _, _ => (ACTION_NONE, st, out)
  end.

(** * The state machine *)

Definition WR_NO_CREDS : Z := 0.
Definition WR_CONNECTING : Z := 1.
Definition WR_CONNECTED : Z := 2.
Definition WR_BACKOFF : Z := 3.
Definition WR_ESCALATE_REBOOT : Z := 4.
Definition WR_LEFT : Z := 5.

Definition EV_GOT_IP : Z := 0.
Definition EV_STA_DISCONNECTED : Z := 1.
Definition EV_CONNECTING_TIMEOUT : Z := 2.
Definition EV_BACKOFF_TIMEOUT : Z := 3.
Definition EV_CREDS_ARRIVED : Z := 4.
Definition EV_RECONNECT_REQUESTED : Z := 5.

Inductive net_event : Set := NET_EVT_REBOOT_DENIED | NET_EVT_RECONNECT_PARKED.

(** The calls made through [wifi_reconn_adapter_t], in order. *)
Inductive wr_effect : Set :=
  | EffConnect | EffDisconnect | EffConnectFresh | EffReboot (detail : string)
  | EffEmit (evt : net_event) (reason : disc_reason).

(** [wifi_reconn_ctx_t] less the embedded machine, with the adapter's world:
    the readings [now_us] will give and the answers [reboot_allowed_fn] will
    give, each call taking the next one, and the calls made so far. *)
Record wr_world := mk_ww {
  w_policy : reconn_state;
  w_pending : Z;
  w_self_disconnect : bool;
  w_clock : nat -> Z;
  w_reads : nat;
  w_allow : nat -> bool;
  w_asks : nat;
  w_log : list wr_effect
}.

Definition now_us (w : wr_world) : Z * wr_world :=
  (w_clock w (w_reads w),
   mk_ww (w_policy w) (w_pending w) (w_self_disconnect w) (w_clock w) (S (w_reads w))
     (w_allow w) (w_asks w) (w_log w)).
Definition reboot_allowed_fn (w : wr_world) : bool * wr_world :=
  (w_allow w (w_asks w),
   mk_ww (w_policy w) (w_pending w) (w_self_disconnect w) (w_clock w) (w_reads w)
     (w_allow w) (S (w_asks w)) (w_log w)).
Definition call (e : wr_effect) (w : wr_world) : wr_world :=
  mk_ww (w_policy w) (w_pending w) (w_self_disconnect w) (w_clock w) (w_reads w)
    (w_allow w) (w_asks w) (w_log w ++ [e]).
Definition set_policy (st : reconn_state) (w : wr_world) : wr_world :=
  mk_ww st (w_pending w) (w_self_disconnect w) (w_clock w) (w_reads w)
    (w_allow w) (w_asks w) (w_log w).
Definition set_pending (ms : Z) (w : wr_world) : wr_world :=
  mk_ww (w_policy w) ms (w_self_disconnect w) (w_clock w) (w_reads w)
    (w_allow w) (w_asks w) (w_log w).
Definition set_self_disconnect (b : bool) (w : wr_world) : wr_world :=
  mk_ww (w_policy w) (w_pending w) b (w_clock w) (w_reads w)
    (w_allow w) (w_asks w) (w_log w).

(** [evt_data]: a pointer to the esp reason byte, or NULL. *)
Definition wr_evt_reason (evt_data : option Z) : Z :=
  match evt_data with Some r => r | None => 0 end.
Definition wr_reason (evt_data : option Z) : disc_reason :=
  bb_wifi_map_esp_reason (wr_evt_reason evt_data).

Definition wr_would_escalate (w : wr_world) : bool * wr_world :=
  let '(now, w') := now_us w in
  let st := w_policy w in
  let first_fail := if first_fail_us st =? 0 then now else first_fail_us st in
  (now - first_fail >? WIFI_RECONN_PERSISTENT_FAIL_WINDOW_US, w').

Definition wr_disconnect_would_reconnect_now (st : reconn_state) (reason : disc_reason) : bool :=
  compute_backoff_ms (bump_fail reason st) reason =? 0.

(** ** Guards *)

Abbreviation wr_guard := (guard_fn (W := wr_world) (D := option Z)).
Abbreviation wr_action := (action_fn (W := wr_world) (D := option Z)).
Abbreviation wr_hook := (hook_fn (W := wr_world)).

Definition guard_disc_escalate_allowed : wr_guard := fun w _ _ =>
  let '(esc, w1) := wr_would_escalate w in
  if negb esc then (false, w1) else reboot_allowed_fn w1.
Definition guard_disc_escalate_denied : wr_guard := fun w _ _ => wr_would_escalate w.
Definition guard_disc_reconnect_now : wr_guard := fun w _ evt_data =>
  (wr_disconnect_would_reconnect_now (w_policy w) (wr_reason evt_data), w).
Definition guard_timeout_escalate_allowed : wr_guard := fun w _ _ =>
  let '(esc, w1) := wr_would_escalate w in
  if negb esc then (false, w1) else reboot_allowed_fn w1.
Definition guard_timeout_escalate_denied : wr_guard := fun w _ _ => wr_would_escalate w.
Definition guard_disc_is_assoc_leave : wr_guard := fun w _ evt_data =>
  (bool_decide (wr_reason evt_data = DISC_ASSOC_LEAVE), w).

(** ** Actions *)

(** The mutating policy calls as the actions make them: [backoff_ms] is a
    local initialised to 0. *)
Definition do_on_disconnect (w : wr_world) (reason : disc_reason) : Z * wr_world :=
  let '(now, w1) := now_us w in
  let '(_, res, st) := policy_on_disconnect (w_policy w1) now reason in
  (default 0 res, set_policy st w1).
Definition do_on_connect_timeout (w : wr_world) : Z * wr_world :=
  let '(now, w1) := now_us w in
  let '(_, res, st) := policy_on_connect_timeout (w_policy w1) now in
  (default 0 res, set_policy st w1).

Definition act_reset_state : wr_action := fun f w _ _ =>
  (f, call EffConnect (set_self_disconnect false
        (set_policy (wifi_reconn_state_reset (w_policy w)) w))).
Definition act_creds_arrived_connect : wr_action := fun f w _ _ =>
  (f, call EffConnectFresh (set_self_disconnect false
        (set_policy (wifi_reconn_state_reset (w_policy w)) w))).
Definition act_on_got_ip : wr_action := fun f w _ _ =>
  (f, set_pending 0 (set_policy (policy_on_got_ip (w_policy w)) w)).
Definition act_note_disconnect : wr_action := fun f w _ evt_data =>
  (f, (do_on_disconnect w (wr_reason evt_data)).2).
Definition act_disconnect_denied : wr_action := fun f w _ evt_data =>
  let reason := wr_reason evt_data in
  let '(_, w1) := do_on_disconnect w reason in
  (f, call (EffEmit NET_EVT_REBOOT_DENIED reason)
        (set_pending WIFI_RECONN_GENERIC_BACKOFF_PAUSE_MS w1)).
Definition act_disconnect_park_no_reconnect : wr_action := fun f w _ evt_data =>
  let reason := wr_reason evt_data in
  let '(_, w1) := do_on_disconnect w reason in
  (f, call (EffEmit NET_EVT_RECONNECT_PARKED reason) w1).
Definition act_disconnect_reconnect_now : wr_action := fun f w _ evt_data =>
  let '(_, w1) := do_on_disconnect w (wr_reason evt_data) in
  ((fsm_arm_timer f EV_CONNECTING_TIMEOUT WIFI_RECONN_CONNECTING_TIMEOUT_MS).2,
   call EffConnect w1).
Definition act_disconnect_backoff : wr_action := fun f w _ evt_data =>
  let '(backoff_ms, w1) := do_on_disconnect w (wr_reason evt_data) in
  (f, set_pending backoff_ms w1).
Definition act_note_timeout : wr_action := fun f w _ _ => (f, (do_on_connect_timeout w).2).
Definition act_timeout_denied : wr_action := fun f w _ _ =>
  let '(_, w1) := do_on_connect_timeout w in
  (f, call (EffEmit NET_EVT_REBOOT_DENIED DISC_UNKNOWN)
        (set_pending WIFI_RECONN_GENERIC_BACKOFF_PAUSE_MS w1)).
Definition act_timeout_reattempt : wr_action := fun f w _ _ =>
  let '(_, w1) := do_on_connect_timeout w in
  ((fsm_arm_timer f EV_CONNECTING_TIMEOUT WIFI_RECONN_CONNECTING_TIMEOUT_MS).2,
   call EffConnect (call EffDisconnect (set_self_disconnect true w1))).
Definition act_backoff_elapsed : wr_action := fun f w _ _ => (f, call EffConnect w).

(** ** Entry hooks, table, init *)

Definition wr_connecting_on_entry : wr_hook := fun f w _ =>
  ((fsm_arm_timer f EV_CONNECTING_TIMEOUT WIFI_RECONN_CONNECTING_TIMEOUT_MS).2, w).
Definition wr_backoff_on_entry : wr_hook := fun f w _ =>
  ((fsm_arm_timer f EV_BACKOFF_TIMEOUT (w_pending w)).2, w).
Definition wr_escalate_on_entry : wr_hook := fun f w _ => (f, call (EffReboot "persistent disconnect") w).

Definition wr_rows : list (bb_fsm_row wr_world (option Z)) := [
  mk_row WR_NO_CREDS EV_CREDS_ARRIVED None (Some act_creds_arrived_connect) WR_CONNECTING;
  mk_row WR_CONNECTING EV_GOT_IP None (Some act_on_got_ip) WR_CONNECTED;
  mk_row WR_CONNECTING EV_STA_DISCONNECTED (Some guard_disc_is_assoc_leave)
    (Some act_disconnect_park_no_reconnect) WR_LEFT;
  mk_row WR_CONNECTING EV_STA_DISCONNECTED (Some guard_disc_escalate_allowed)
    (Some act_note_disconnect) WR_ESCALATE_REBOOT;
  mk_row WR_CONNECTING EV_STA_DISCONNECTED (Some guard_disc_escalate_denied)
    (Some act_disconnect_denied) WR_BACKOFF;
  mk_row WR_CONNECTING EV_STA_DISCONNECTED (Some guard_disc_reconnect_now)
    (Some act_disconnect_reconnect_now) BB_FSM_STATE_SAME;
  mk_row WR_CONNECTING EV_STA_DISCONNECTED None (Some act_disconnect_backoff) WR_BACKOFF;
  mk_row WR_CONNECTING EV_CONNECTING_TIMEOUT (Some guard_timeout_escalate_allowed)
    (Some act_note_timeout) WR_ESCALATE_REBOOT;
  mk_row WR_CONNECTING EV_CONNECTING_TIMEOUT (Some guard_timeout_escalate_denied)
    (Some act_timeout_denied) WR_BACKOFF;
  mk_row WR_CONNECTING EV_CONNECTING_TIMEOUT None (Some act_timeout_reattempt) BB_FSM_STATE_SAME;
  mk_row WR_CONNECTED EV_STA_DISCONNECTED (Some guard_disc_is_assoc_leave)
    (Some act_disconnect_park_no_reconnect) WR_LEFT;
  mk_row WR_CONNECTED EV_STA_DISCONNECTED (Some guard_disc_reconnect_now)
    (Some act_disconnect_reconnect_now) WR_CONNECTING;
  mk_row WR_CONNECTED EV_STA_DISCONNECTED None (Some act_disconnect_backoff) WR_BACKOFF;
  mk_row WR_BACKOFF EV_BACKOFF_TIMEOUT None (Some act_backoff_elapsed) WR_CONNECTING;
  mk_row WR_BACKOFF EV_STA_DISCONNECTED None None BB_FSM_STATE_SAME;
  mk_row WR_LEFT EV_RECONNECT_REQUESTED None (Some act_reset_state) WR_CONNECTING ].

Definition wr_states : list (bb_fsm_state_desc wr_world) := [
  mk_state_desc WR_CONNECTING (Some wr_connecting_on_entry) None;
  mk_state_desc WR_BACKOFF (Some wr_backoff_on_entry) None;
  mk_state_desc WR_ESCALATE_REBOOT (Some wr_escalate_on_entry) None ].

Definition wr_desc (initial : Z) : bb_fsm_desc wr_world (option Z) :=
  mk_desc (Some wr_rows) (length wr_rows) (Some wr_states) (length wr_states) initial.

Definition wifi_reconn_fsm_init (fsm : bb_fsm) (w : wr_world) (initial : Z)
  : bb_err * option bb_fsm * wr_world :=
  bb_fsm_init (Some fsm) (Some (wr_desc initial)) w.

(** * Facts about the decisions *)

(** The persistent-fail window test at clock reading [t]. *)
Definition escalates (st : reconn_state) (t : Z) : bool :=
  t - (if first_fail_us st =? 0 then t else first_fail_us st)
    >? WIFI_RECONN_PERSISTENT_FAIL_WINDOW_US.

Lemma wr_would_escalate_eq w :
  wr_would_escalate w = (escalates (w_policy w) (w_clock w (w_reads w)), (now_us w).2).
Proof. done. Qed.

Lemma on_disconnect_result st t r :
  (policy_on_disconnect st t r).1 =
  if escalates st t then (ACTION_REBOOT, None)
  else let b := compute_backoff_ms (bump_fail r st) r in
       (if b =? 0 then ACTION_RECONNECT_NOW else ACTION_SCHEDULE_BACKOFF, Some b).
Proof. by destruct r. Qed.

Lemma on_connect_timeout_result st t :
  (policy_on_connect_timeout st t).1 =
  if escalates st t then (ACTION_REBOOT, None)
  else let b := compute_backoff_ms (bump_fail DISC_UNKNOWN st) DISC_UNKNOWN in
       (if b =? 0 then ACTION_RECONNECT_NOW else ACTION_SCHEDULE_BACKOFF, Some b).
Proof. done. Qed.

Lemma do_on_disconnect_eq w r :
  do_on_disconnect w r =
  (if escalates (w_policy w) (w_clock w (w_reads w)) then 0
   else compute_backoff_ms (bump_fail r (w_policy w)) r,
   set_policy (policy_on_disconnect (w_policy w) (w_clock w (w_reads w)) r).2 (now_us w).2).
Proof.
  unfold do_on_disconnect, now_us. cbn -[policy_on_disconnect].
  pose proof (on_disconnect_result (w_policy w) (w_clock w (w_reads w)) r) as H.
  destruct (policy_on_disconnect _ _ _) as [[a res] st]. cbn in *.
  destruct (escalates _ _); by simplify_eq.
Qed.

Lemma compute_backoff_nonneg st r : 0 <= compute_backoff_ms st r.
Proof. destruct r; cbn; repeat case_match; done. Qed.

(** * One step of the table, state by state *)

Definition ev_known (ev : Z) : bool := (0 <=? ev) && (ev <=? 5).

Lemma step_unknown i f ev data w :
  f_desc f = true -> f_terminal f = false -> ev_known ev = false ->
  fsm_step (wr_desc i) f ev data w = (BB_ERR_NOT_FOUND, f, w).
Proof.
  intros Hd Ht He. unfold fsm_step. rewrite Hd, Ht. cbn [negb].
  unfold find_row, wr_desc, wr_rows, ev_known in *. cbn -[Z.eqb].
  assert (forall k, 0 <= k <= 5 -> (k =? ev) = false) as Hk by (intros; zcases).
  unfold EV_GOT_IP, EV_STA_DISCONNECTED, EV_CONNECTING_TIMEOUT, EV_BACKOFF_TIMEOUT,
    EV_CREDS_ARRIVED, EV_RECONNECT_REQUESTED.
  rewrite !Hk by lia. rewrite !orb_true_r. done.
Qed.

Lemma ev_known_cases ev : ev_known ev = true ->
  ev = EV_GOT_IP \/ ev = EV_STA_DISCONNECTED \/ ev = EV_CONNECTING_TIMEOUT \/
  ev = EV_BACKOFF_TIMEOUT \/ ev = EV_CREDS_ARRIVED \/ ev = EV_RECONNECT_REQUESTED.
Proof.
  unfold ev_known, EV_GOT_IP, EV_STA_DISCONNECTED, EV_CONNECTING_TIMEOUT, EV_BACKOFF_TIMEOUT,
    EV_CREDS_ARRIVED, EV_RECONNECT_REQUESTED.
  rewrite andb_true_iff, !Z.leb_le. lia.
Qed.

Definition connecting_timer : fsm_timer :=
  mk_timer EV_CONNECTING_TIMEOUT WIFI_RECONN_CONNECTING_TIMEOUT_MS true.
Definition backoff_timer (stale : fsm_timer) (ms : Z) : fsm_timer :=
  if ms =? 0 then stale else mk_timer EV_BACKOFF_TIMEOUT ms true.

(** A machine of this table, with its one timer slot. *)
Definition wr_fsm (state : Z) (t : fsm_timer) : bb_fsm := mk_fsm true state false [t].

(** The disconnect rows after the parking and escalation rows declined. *)
Definition disc_tail (stale : fsm_timer) (r : disc_reason) (w : wr_world)
  : bb_err * bb_fsm * wr_world :=
  let b := (do_on_disconnect w r).1 in
  let w1 := (do_on_disconnect w r).2 in
  if wr_disconnect_would_reconnect_now (w_policy w) r
  then (BB_OK, wr_fsm WR_CONNECTING connecting_timer, call EffConnect w1)
  else (BB_OK, wr_fsm WR_BACKOFF (backoff_timer stale b), set_pending b w1).

Definition disc_park (stale : fsm_timer) (r : disc_reason) (w : wr_world)
  : bb_err * bb_fsm * wr_world :=
  (BB_OK, wr_fsm WR_LEFT stale, call (EffEmit NET_EVT_RECONNECT_PARKED r) (do_on_disconnect w r).2).

Definition denied (r : disc_reason) (w1 : wr_world) : bb_err * bb_fsm * wr_world :=
  (BB_OK, wr_fsm WR_BACKOFF (mk_timer EV_BACKOFF_TIMEOUT WIFI_RECONN_GENERIC_BACKOFF_PAUSE_MS true),
   call (EffEmit NET_EVT_REBOOT_DENIED r) (set_pending WIFI_RECONN_GENERIC_BACKOFF_PAUSE_MS w1)).

Definition escalated (stale : fsm_timer) (w1 : wr_world) : bb_err * bb_fsm * wr_world :=
  (BB_OK, wr_fsm WR_ESCALATE_REBOOT stale, call (EffReboot "persistent disconnect") w1).

Definition timeout_tail (w : wr_world) : bb_err * bb_fsm * wr_world :=
  (BB_OK, wr_fsm WR_CONNECTING connecting_timer,
   call EffConnect (call EffDisconnect (set_self_disconnect true (do_on_connect_timeout w).2))).

(** The two escalation rows, then [tail]: the window is tested by each guard
    with its own reading of the clock. *)
Definition escalation_rows (note deny tail : wr_world -> bb_err * bb_fsm * wr_world)
    (w : wr_world) : bb_err * bb_fsm * wr_world :=
  let '(esc, w1) := wr_would_escalate w in
  let '(allowed, w2) := if esc then reboot_allowed_fn w1 else (false, w1) in
  if allowed then note w2 else
  let '(esc', w3) := wr_would_escalate w2 in
  if esc' then deny w3 else tail w3.


Ltac wr_cbn := cbn -[wr_would_escalate wr_reason wr_disconnect_would_reconnect_now escalates take_row
                     do_on_disconnect do_on_connect_timeout].
Ltac wr_take :=
  unfold take_row, run_action, act_disconnect_park_no_reconnect, act_note_disconnect,
    act_disconnect_denied, act_disconnect_reconnect_now, act_disconnect_backoff,
    act_note_timeout, act_timeout_denied, act_timeout_reattempt; cbn -[wr_reason wr_disconnect_would_reconnect_now escalates
                         do_on_disconnect do_on_connect_timeout];
  repeat match goal with
    | |- context [do_on_disconnect ?w ?r] => destruct (do_on_disconnect w r)
    | |- context [do_on_connect_timeout ?w] => destruct (do_on_connect_timeout w)
    end; cbn; try done; by case_match.

Lemma step_connecting_disc i data w :
  let r := wr_reason data in
  let stale := disarm connecting_timer in
  fsm_step (wr_desc i) (wr_fsm WR_CONNECTING connecting_timer) EV_STA_DISCONNECTED data w =
  if bool_decide (r = DISC_ASSOC_LEAVE) then disc_park stale r w
  else escalation_rows (fun w1 => escalated stale (do_on_disconnect w1 r).2)
         (fun w1 => denied r (do_on_disconnect w1 r).2) (disc_tail stale r) w.
Proof.
  unfold fsm_step, find_row, escalation_rows, disc_tail, disc_park, denied, escalated, backoff_timer.
  wr_cbn. case_bool_decide; [wr_take|].
  unfold guard_disc_escalate_allowed, guard_disc_escalate_denied.
  wr_cbn. rewrite !wr_would_escalate_eq. wr_cbn.
  destruct (escalates _ _); wr_cbn; [destruct (w_allow _ _); wr_cbn; [wr_take|]|];
    rewrite !wr_would_escalate_eq; wr_cbn; 
    (destruct (escalates _ _); wr_cbn; [wr_take|]);
    (destruct (wr_disconnect_would_reconnect_now _ _); wr_cbn; wr_take).
Qed.

Lemma step_connecting_timeout i data w :
  let stale := disarm connecting_timer in
  fsm_step (wr_desc i) (wr_fsm WR_CONNECTING connecting_timer) EV_CONNECTING_TIMEOUT data w =
  escalation_rows (fun w1 => escalated stale (do_on_connect_timeout w1).2)
    (fun w1 => denied DISC_UNKNOWN (do_on_connect_timeout w1).2) timeout_tail w.
Proof.
  unfold fsm_step, find_row, escalation_rows, timeout_tail, denied, escalated.
  wr_cbn. unfold guard_timeout_escalate_allowed, guard_timeout_escalate_denied.
  wr_cbn. rewrite !wr_would_escalate_eq. wr_cbn.
  destruct (escalates _ _); wr_cbn; [destruct (w_allow _ _); wr_cbn; [wr_take|]|];
    rewrite !wr_would_escalate_eq; wr_cbn; destruct (escalates _ _); wr_cbn; wr_take.
Qed.

Lemma step_connected_disc i te tm data w :
  let r := wr_reason data in
  let stale := mk_timer te tm false in
  fsm_step (wr_desc i) (wr_fsm WR_CONNECTED stale) EV_STA_DISCONNECTED data w =
  if bool_decide (r = DISC_ASSOC_LEAVE) then disc_park stale r w else disc_tail stale r w.
Proof.
  unfold fsm_step, find_row, disc_tail, disc_park, backoff_timer.
  wr_cbn. case_bool_decide; [wr_take|]. wr_cbn.
  destruct (wr_disconnect_would_reconnect_now _ _); wr_cbn; wr_take.
Qed.

(** Every other pair of a state and an event. *)
Lemma ev_unknown_ne ev k : ev_known ev = false -> 0 <= k <= 5 -> (ev =? k) = false.
Proof. unfold ev_known. intros. zcases. Qed.

Ltac wr_events ev :=
  destruct (ev_known ev) eqn:Hev;
  [ apply ev_known_cases in Hev as [-> | [-> | [-> | [-> | [-> | ->]]]]]; try done
  | rewrite step_unknown, ?(ev_unknown_ne ev) by done; done ].

Lemma step_no_creds i te tm ev data w :
  let f := wr_fsm WR_NO_CREDS (mk_timer te tm false) in
  fsm_step (wr_desc i) f ev data w =
  if ev =? EV_CREDS_ARRIVED
  then (BB_OK, wr_fsm WR_CONNECTING connecting_timer,
        call EffConnectFresh (set_self_disconnect false
          (set_policy (wifi_reconn_state_reset (w_policy w)) w)))
  else (BB_ERR_NOT_FOUND, f, w).
Proof. cbv zeta. wr_events ev. Qed.

Lemma step_left i te tm ev data w :
  let f := wr_fsm WR_LEFT (mk_timer te tm false) in
  fsm_step (wr_desc i) f ev data w =
  if ev =? EV_RECONNECT_REQUESTED
  then (BB_OK, wr_fsm WR_CONNECTING connecting_timer,
        call EffConnect (set_self_disconnect false
          (set_policy (wifi_reconn_state_reset (w_policy w)) w)))
  else (BB_ERR_NOT_FOUND, f, w).
Proof. cbv zeta. wr_events ev. Qed.

Lemma step_escalate i t ev data w :
  fsm_step (wr_desc i) (wr_fsm WR_ESCALATE_REBOOT t) ev data w =
  (BB_ERR_NOT_FOUND, wr_fsm WR_ESCALATE_REBOOT t, w).
Proof. done. Qed.

Lemma step_backoff i t ev data w :
  fsm_step (wr_desc i) (wr_fsm WR_BACKOFF t) ev data w =
  if ev =? EV_BACKOFF_TIMEOUT
  then (BB_OK, wr_fsm WR_CONNECTING connecting_timer, call EffConnect w)
  else if ev =? EV_STA_DISCONNECTED then (BB_OK, wr_fsm WR_BACKOFF t, w)
  else (BB_ERR_NOT_FOUND, wr_fsm WR_BACKOFF t, w).
Proof. wr_events ev. Qed.

Lemma step_connecting i ev data w :
  ev <> EV_STA_DISCONNECTED -> ev <> EV_CONNECTING_TIMEOUT ->
  fsm_step (wr_desc i) (wr_fsm WR_CONNECTING connecting_timer) ev data w =
  if ev =? EV_GOT_IP
  then (BB_OK, wr_fsm WR_CONNECTED (disarm connecting_timer),
        set_pending 0 (set_policy (policy_on_got_ip (w_policy w)) w))
  else (BB_ERR_NOT_FOUND, wr_fsm WR_CONNECTING connecting_timer, w).
Proof. intros H1 H2. wr_events ev. Qed.

Lemma step_connected i te tm ev data w :
  let f := wr_fsm WR_CONNECTED (mk_timer te tm false) in
  ev <> EV_STA_DISCONNECTED -> fsm_step (wr_desc i) f ev data w = (BB_ERR_NOT_FOUND, f, w).
Proof. cbv zeta. intros H. wr_events ev. Qed.

(** * Reachable machines *)

(** The clock readings one step takes all agree: no tick of the clock falls
    between a guard's reading and its action's reading. *)
Definition calm (w w' : wr_world) : Prop :=
  forall k, (w_reads w <= k < w_reads w')%nat -> w_clock w k = w_clock w (w_reads w).

(** Machines reached from boot by calm steps.  Between two steps the clock, the
    safeguard's answers and the shell's absorb flag are anybody's. *)
Inductive wr_reach : bb_fsm -> wr_world -> Prop :=
  | reach_boot fsm w initial f w' :
      length (f_timers fsm) = 1%nat -> initial = WR_CONNECTING \/ initial = WR_NO_CREDS ->
      wifi_reconn_fsm_init fsm w initial = (BB_OK, Some f, w') -> wr_reach f w'
  | reach_step i f w ev data e f' w' :
      wr_reach f w -> bb_fsm_step (wr_desc i) (Some f) ev data w = (e, Some f', w') ->
      calm w w' -> wr_reach f' w'
  | reach_env f w w' :
      wr_reach f w -> w_policy w' = w_policy w -> w_pending w' = w_pending w -> wr_reach f w'.

(** The shapes a reachable machine can have. *)
Inductive wr_inv : bb_fsm -> wr_world -> Prop :=
  | inv_connecting w : wr_inv (wr_fsm WR_CONNECTING connecting_timer) w
  | inv_backoff w : 0 < w_pending w ->
      wr_inv (wr_fsm WR_BACKOFF (mk_timer EV_BACKOFF_TIMEOUT (w_pending w) true)) w
  | inv_connected te tm w : first_fail_us (w_policy w) = 0 ->
      wr_inv (wr_fsm WR_CONNECTED (mk_timer te tm false)) w
  | inv_parked s te tm w : s = WR_NO_CREDS \/ s = WR_LEFT \/ s = WR_ESCALATE_REBOOT ->
      wr_inv (wr_fsm s (mk_timer te tm false)) w.

#[local] Hint Constructors wr_inv : core.

Lemma disc_tail_inv te tm r w e f' w' :
  escalates (w_policy w) (w_clock w (w_reads w)) = false ->
  disc_tail (mk_timer te tm false) r w = (e, f', w') -> wr_inv f' w'.
Proof.
  intros Hesc. unfold disc_tail. rewrite do_on_disconnect_eq, Hesc. cbn -[policy_on_disconnect].
  unfold wr_disconnect_would_reconnect_now, backoff_timer.
  pose proof (compute_backoff_nonneg (bump_fail r (w_policy w)) r) as Hnn.
  destruct (Z.eqb_spec (compute_backoff_ms (bump_fail r (w_policy w)) r) 0).
  - intros [= <- <- <-]. constructor.
  - intros [= <- <- <-].
    change (compute_backoff_ms (bump_fail r (w_policy w)) r) with
      (w_pending (set_pending (compute_backoff_ms (bump_fail r (w_policy w)) r)
         (set_policy (policy_on_disconnect (w_policy w) (w_clock w (w_reads w)) r).2 (now_us w).2))) at 1.
    constructor. cbn. lia.
Qed.

Lemma denied_inv r w e f' w' : denied r w = (e, f', w') -> wr_inv f' w'.
Proof. unfold denied. intros [= <- <- <-]. by apply (inv_backoff (call _ (set_pending _ w))). Qed.

Lemma escalated_inv te tm w e f' w' : escalated (mk_timer te tm false) w = (e, f', w') -> wr_inv f' w'.
Proof. intros [= <- <- <-]. constructor. auto. Qed.

(** The two rows spelled out: the state the rest runs in has made two readings. *)
Lemma escalation_rows_eq note deny tail w :
  escalation_rows note deny tail w =
  let esc k := escalates (w_policy w) (w_clock w (k + w_reads w)%nat) in
  let asked w := (reboot_allowed_fn w).2 in
  let w2 := if esc 0%nat then asked (now_us w).2 else (now_us w).2 in
  if esc 0%nat && w_allow w (w_asks w) then note (asked (now_us w).2)
  else if esc 1%nat then deny (now_us w2).2 else tail (now_us w2).2.
Proof.
  unfold escalation_rows. rewrite wr_would_escalate_eq. cbv zeta.
  rewrite !Nat.add_0_l, Nat.add_1_l.
  destruct (escalates (w_policy w) (w_clock w (w_reads w))); cbn -[escalates]; [|done].
  by destruct (w_allow w (w_asks w)).
Qed.

Lemma disc_tail_reads stale r w e f' w' :
  disc_tail stale r w = (e, f', w') -> w_reads w' = S (w_reads w).
Proof.
  unfold disc_tail. rewrite do_on_disconnect_eq.
  destruct (wr_disconnect_would_reconnect_now _ _); by intros [= <- <- <-].
Qed.

(** The tail of a calm step: the action's reading is still inside the window. *)
Lemma calm_tail_inv te tm r w e f' w' :
  let asked := if escalates (w_policy w) (w_clock w (0 + w_reads w)%nat)
               then (reboot_allowed_fn (now_us w).2).2 else (now_us w).2 in
  escalates (w_policy w) (w_clock w (1 + w_reads w)%nat) = false ->
  disc_tail (mk_timer te tm false) r (now_us asked).2 = (e, f', w') ->
  calm w w' -> wr_inv f' w'.
Proof.
  intros asked E1 Htail Hcalm. pose proof (disc_tail_reads _ _ _ _ _ _ Htail) as Hr.
  assert (w_reads (now_us asked).2 = S (S (w_reads w)) /\ w_clock (now_us asked).2 = w_clock w
          /\ w_policy (now_us asked).2 = w_policy w) as (Hreads & Hclk & Hpol)
    by (unfold asked; by case_match).
  apply disc_tail_inv in Htail; [done|]. rewrite Hpol, Hclk, Hreads.
  rewrite Hreads in Hr. rewrite (Hcalm (S (S (w_reads w)))) by lia.
  rewrite (Hcalm (1 + w_reads w)%nat) in E1 by lia. done.
Qed.

Lemma connecting_disc_inv i w data e f' w' :
  fsm_step (wr_desc i) (wr_fsm WR_CONNECTING connecting_timer) EV_STA_DISCONNECTED data w
  = (e, f', w') -> calm w w' -> wr_inv f' w'.
Proof.
  intros Hstep Hcalm. rewrite step_connecting_disc in Hstep. case_bool_decide.
  { injection Hstep as <- <- <-. constructor. auto. }
  rewrite escalation_rows_eq in Hstep. cbv zeta in Hstep.
  destruct (_ && _); [by apply escalated_inv in Hstep|].
  destruct (escalates _ (w_clock w (1 + _)%nat)) eqn:E1; [by apply denied_inv in Hstep|].
  eapply calm_tail_inv; eauto.
Qed.

Lemma connecting_timeout_inv i w data e f' w' :
  fsm_step (wr_desc i) (wr_fsm WR_CONNECTING connecting_timer) EV_CONNECTING_TIMEOUT data w
  = (e, f', w') -> wr_inv f' w'.
Proof.
  rewrite step_connecting_timeout, escalation_rows_eq. cbv zeta.
  destruct (_ && _); [by apply escalated_inv|].
  destruct (escalates _ (w_clock w (1 + _)%nat)); [by apply denied_inv|].
  intros [= <- <- <-]. constructor.
Qed.

Lemma escalates_fresh st t : first_fail_us st = 0 -> escalates st t = false.
Proof. unfold escalates. intros ->. by rewrite Z.eqb_refl, Z.sub_diag. Qed.

Lemma wr_step_inv i f w ev data e f' w' :
  wr_inv f w -> fsm_step (wr_desc i) f ev data w = (e, f', w') -> calm w w' -> wr_inv f' w'.
Proof.
  intros [w0 | w0 Hp | te tm w0 Hff | s te tm w0 Hs] Hstep Hcalm.
  - destruct (Z.eqb_spec ev EV_STA_DISCONNECTED) as [->|H1]; [by eapply connecting_disc_inv|].
    destruct (Z.eqb_spec ev EV_CONNECTING_TIMEOUT) as [->|H2]; [by eapply connecting_timeout_inv|].
    rewrite step_connecting in Hstep by done.
    destruct (ev =? EV_GOT_IP); injection Hstep as <- <- <-; by constructor.
  - rewrite step_backoff in Hstep.
    destruct (ev =? EV_BACKOFF_TIMEOUT); [|destruct (ev =? EV_STA_DISCONNECTED)];
      injection Hstep as <- <- <-; by constructor.
  - destruct (Z.eqb_spec ev EV_STA_DISCONNECTED) as [->|H1].
    + rewrite step_connected_disc in Hstep. case_bool_decide.
      { injection Hstep as <- <- <-. constructor. auto. }
      eapply disc_tail_inv; [|exact Hstep]. by apply escalates_fresh.
    + rewrite step_connected in Hstep by done. injection Hstep as <- <- <-. by constructor.
  - destruct Hs as [-> | [-> | ->]];
      [rewrite step_no_creds in Hstep|rewrite step_left in Hstep|rewrite step_escalate in Hstep];
      repeat case_match; injection Hstep as <- <- <-; constructor; auto.
Qed.

Lemma wr_init_inv fsm w initial f w' :
  length (f_timers fsm) = 1%nat -> initial = WR_CONNECTING \/ initial = WR_NO_CREDS ->
  wifi_reconn_fsm_init fsm w initial = (BB_OK, Some f, w') -> wr_inv f w'.
Proof.
  destruct fsm as [fd fc ft [|[te tm ta] []]]; [done| |done]. intros _ [-> | ->] [= <- <-].
  - constructor.
  - constructor. auto.
Qed.

Lemma wr_inv_env f w w' :
  wr_inv f w -> w_policy w' = w_policy w -> w_pending w' = w_pending w -> wr_inv f w'.
Proof.
  intros [] Hp Hm; try (rewrite <- Hm); constructor; auto; congruence.
Qed.

Lemma wr_reach_inv f w : wr_reach f w -> wr_inv f w.
Proof.
  induction 1 as [fsm w initial f w' Hl Hi Hinit | i f w ev data e f' w' _ IH Hstep Hcalm
                 | f w w' _ IH Hp Hm].
  - by eapply wr_init_inv.
  - cbn in Hstep. destruct (fsm_step _ _ _ _ _) as [[e0 f0] w0] eqn:Hs.
    injection Hstep as <- <- <-. by eapply wr_step_inv.
  - by eapply wr_inv_env.
Qed.

(** * Histories of disconnects *)

(** The counter a reason feeds, and the delay the ladder gives its n-th failure. *)
Inductive bucket : Set := BHandshake | BSlow | BGeneric.
#[export] Instance bucket_eq_dec : EqDecision bucket.
Proof. solve_decision. Defined.
Definition bucket_of (r : disc_reason) : bucket :=
  match r with
  | DISC_HANDSHAKE_TIMEOUT => BHandshake
  | DISC_AUTH_FAIL | DISC_NO_AP_FOUND => BSlow
  | _ => BGeneric
  end.
Definition ladder (b : bucket) (n : Z) : Z :=
  match b with
  | BHandshake => if n <=? 3 then 0 else if n <=? 6 then 10000 else 30000
  | BSlow => if n <=? 3 then 30000 else 120000
  | BGeneric => if n <=? 10 then 0 else 5000
  end.

(** Disconnects (reason and clock reading), oldest first. *)
Fixpoint disconnects (h : list (disc_reason * Z)) (st : reconn_state) : reconn_state :=
  match h with
  | [] => st
  | (r, t) :: rest => disconnects rest (policy_on_disconnect st t r).2
  end.

Definition count_bucket (b : bucket) (h : list (disc_reason * Z)) : Z :=
  Z.of_nat (length (filter (fun rt => bucket_of rt.1 = b) h)).
Definition count_reason (r : disc_reason) (h : list (disc_reason * Z)) : Z :=
  Z.of_nat (length (filter (fun rt => rt.1 = r) h)).

Definition fail_count (b : bucket) (st : reconn_state) : Z :=
  match b with
  | BHandshake => handshake_fail_count st
  | BSlow => slow_fail_count st
  | BGeneric => generic_fail_count st
  end.

Lemma compute_backoff_ladder st r : compute_backoff_ms st r = ladder (bucket_of r) (fail_count (bucket_of r) st).
Proof. by destruct r. Qed.

Lemma on_disconnect_fail_count st t r b :
  fail_count b (policy_on_disconnect st t r).2
  = fail_count b st + (if decide (bucket_of r = b) then 1 else 0).
Proof. destruct r, b; cbn; case_decide; first [done | lia]. Qed.

Lemma bump_fail_count st r : fail_count (bucket_of r) (bump_fail r st) = fail_count (bucket_of r) st + 1.
Proof. by destruct r. Qed.

Lemma count_bucket_cons b r t h :
  count_bucket b ((r, t) :: h) = count_bucket b h + (if decide (bucket_of r = b) then 1 else 0).
Proof. unfold count_bucket. rewrite filter_cons. cbn. case_decide; cbn; lia. Qed.

Lemma count_reason_cons q r t h :
  count_reason q ((r, t) :: h) = count_reason q h + (if decide (r = q) then 1 else 0).
Proof. unfold count_reason. rewrite filter_cons. cbn. case_decide; cbn; lia. Qed.

Lemma disconnects_fail_count h st b :
  fail_count b (disconnects h st) = fail_count b st + count_bucket b h.
Proof.
  revert st. induction h as [|[r t] h IH]; intros st; cbn [disconnects].
  { change (count_bucket b []) with 0. lia. }
  rewrite IH, on_disconnect_fail_count, count_bucket_cons. lia.
Qed.

Lemma on_disconnect_first_fail st t r :
  first_fail_us (policy_on_disconnect st t r).2 = if first_fail_us st =? 0 then t else first_fail_us st.
Proof. by destruct r. Qed.

Lemma disc_index_inj r q : disc_index r = disc_index q -> r = q.
Proof. by destruct r, q. Qed.
Lemma disc_index_lt r : (disc_index r < BB_WIFI_DISC_COUNT)%nat.
Proof. destruct r; cbn; unfold BB_WIFI_DISC_COUNT; lia. Qed.

Lemma on_disconnect_hist st t r q c :
  reason_histogram st !! disc_index q = Some c ->
  reason_histogram (policy_on_disconnect st t r).2 !! disc_index q
  = Some (if decide (r = q) then (if c <? UINT16_MAX then c + 1 else c) else c).
Proof.
  intros Hc. replace (reason_histogram (policy_on_disconnect st t r).2)
    with (hist_bump (disc_index r) (reason_histogram st)) by (by destruct r).
  unfold hist_bump. rewrite list_lookup_alter. case_decide as H.
  - apply disc_index_inj in H as ->. by rewrite decide_True, Hc.
  - rewrite decide_False; [done|congruence].
Qed.

Lemma disconnects_hist h st q c :
  0 <= c <= UINT16_MAX -> reason_histogram st !! disc_index q = Some c ->
  reason_histogram (disconnects h st) !! disc_index q
  = Some (Z.min UINT16_MAX (c + count_reason q h)).
Proof.
  revert st c. induction h as [|[r t] h IH]; intros st c Hc Hl; cbn [disconnects].
  { change (count_reason q []) with 0. rewrite Hl. f_equal. lia. }
  assert (0 <= count_reason q h) by (unfold count_reason; lia).
  rewrite (IH _ (if decide (r = q) then (if c <? UINT16_MAX then c + 1 else c) else c)).
  - rewrite count_reason_cons. f_equal. case_decide; zcases.
  - case_decide; zcases.
  - by apply on_disconnect_hist.
Qed.

(** * Properties *)

(** C1: no state of the reconnect machine waits for a timer it has not armed.
    From either boot state, through any sequence of events (in calm steps):
    CONNECTING always has its watchdog armed, BACKOFF always has its back-off
    timer armed with a non-zero delay and that timer's expiry issues a connect
    and goes back to CONNECTING, and no other state has a timer. *)
Theorem reconn_never_stranded (f : bb_fsm) (w : wr_world) :
  wr_reach f w ->
  let st := bb_fsm_state (Some f) in
  (st = WR_CONNECTING ->
     bb_fsm_timer_at (Some f) 0 = Some (EV_CONNECTING_TIMEOUT, WIFI_RECONN_CONNECTING_TIMEOUT_MS)) /\
  (st = WR_BACKOFF ->
     (exists ms, 0 < ms /\ bb_fsm_timer_at (Some f) 0 = Some (EV_BACKOFF_TIMEOUT, ms)) /\
     forall i data, exists f',
       bb_fsm_step (wr_desc i) (Some f) EV_BACKOFF_TIMEOUT data w = (BB_OK, Some f', call EffConnect w) /\
       bb_fsm_state (Some f') = WR_CONNECTING) /\
  (st <> WR_CONNECTING -> st <> WR_BACKOFF -> bb_fsm_timer_count (Some f) = 0%nat) /\
  0 <= st <= 5 /\ bb_fsm_is_terminal (Some f) = false.
Proof.
  intros Hr%wr_reach_inv. assert (Hparked : forall s, s = WR_NO_CREDS \/ s = WR_LEFT \/ s = WR_ESCALATE_REBOOT ->
    s <> WR_CONNECTING /\ s <> WR_BACKOFF /\ 0 <= s <= 5) by (by intros s [-> | [-> | ->]]).
  destruct Hr as [w | w Hp | te tm w Hff | s te tm w Hs]; cbn -[wr_desc bb_fsm_step].
  - done.
  - split_and!; try done. intros _. split; [by exists (w_pending w)|]. intros i data.
    exists (wr_fsm WR_CONNECTING connecting_timer). split; [|done].
    assert (bb_fsm_step (wr_desc i)
              (Some (wr_fsm WR_BACKOFF (mk_timer EV_BACKOFF_TIMEOUT (w_pending w) true)))
              EV_BACKOFF_TIMEOUT data w
            = (BB_OK, Some (wr_fsm WR_CONNECTING connecting_timer), call EffConnect w)) as Hstep
      by (unfold bb_fsm_step; by rewrite step_backoff).
    exact Hstep.
  - split_and!; done.
  - destruct (Hparked s Hs) as (H1 & H2 & H3). split_and!; done || lia.
Qed.

(** A world whose clock always reads [t] and whose safeguard always answers [a]. *)
Definition still_world (st : reconn_state) (t : Z) (a : bool) : wr_world :=
  mk_ww st 0 false (fun _ => t) 0 (fun _ => a) 0 [].
Definition zero_state : reconn_state := wifi_reconn_state_reset
  (mk_rs 0 0 0 0 0 DISC_UNKNOWN 0 [] 0 0).
Definition blank_fsm : bb_fsm := mk_fsm false 0 false [mk_timer 0 0 false].

Lemma booted_reach w : wr_reach (wr_fsm WR_CONNECTING connecting_timer) w.
Proof. by apply (reach_boot blank_fsm w WR_CONNECTING); [|left|]. Qed.

Lemma reconn_never_stranded_witness :
  wr_reach (wr_fsm WR_CONNECTING connecting_timer) (still_world zero_state 5 true) /\
  bb_fsm_timer_at (Some (wr_fsm WR_CONNECTING connecting_timer)) 0
  = Some (EV_CONNECTING_TIMEOUT, WIFI_RECONN_CONNECTING_TIMEOUT_MS).
Proof.
  split; [apply booted_reach|].
  exact (proj1 (reconn_never_stranded _ _ (booted_reach (still_world zero_state 5 true))) eq_refl).
Defined.

(** The calmness of [reconn_never_stranded] is needed.  The guards and the
    action each read the clock: when the persistent-fail window closes between
    the last guard's reading and the action's, [on_disconnect] takes its REBOOT
    branch, no back-off is computed, [pending_backoff_ms] is 0 and BACKOFF's
    entry hook disarms instead of arming.  From a state reached by calm steps,
    with a monotone clock, the machine then sits in BACKOFF without a timer, and
    no event the shell can still deliver moves it or issues a call. *)
Theorem reconn_stranded_by_clock_race :
  exists f w data f' w',
    wr_reach f w /\ (forall k, w_clock w k <= w_clock w (S k)) /\
    bb_fsm_step (wr_desc WR_CONNECTING) (Some f) EV_STA_DISCONNECTED data w = (BB_OK, Some f', w') /\
    bb_fsm_state (Some f') = WR_BACKOFF /\ bb_fsm_timer_count (Some f') = 0%nat /\
    forall i ev data2 w2, ev <> EV_BACKOFF_TIMEOUT ->
      (bb_fsm_step (wr_desc i) (Some f') ev data2 w2).1.2 = Some f' /\
      (bb_fsm_step (wr_desc i) (Some f') ev data2 w2).2 = w2.
Proof.
  pose (st := mk_rs 0 0 1 5 1 DISC_AUTH_FAIL 5 (replicate BB_WIFI_DISC_COUNT 0) 0 0).
  exists (wr_fsm WR_CONNECTING connecting_timer),
    (mk_ww st 0 false (fun k => if (k <? 2)%nat then 300000005 else 300000006) 0 (fun _ => true) 0 []),
    (Some 202).
  do 2 eexists. split; [apply booted_reach|]. split.
  { intros k. cbn. destruct (Nat.ltb_spec k 2), (Nat.ltb_spec (S k) 2); lia. }
  split; [reflexivity|]. split; [reflexivity|]. split; [reflexivity|].
  intros i ev data2 w2 Hev%Z.eqb_neq.
  assert (forall t, (bb_fsm_step (wr_desc i) (Some (wr_fsm WR_BACKOFF t)) ev data2 w2).1.2
            = Some (wr_fsm WR_BACKOFF t) /\
          (bb_fsm_step (wr_desc i) (Some (wr_fsm WR_BACKOFF t)) ev data2 w2).2 = w2) as H.
  { intros t. unfold bb_fsm_step. rewrite step_backoff, Hev. by destruct (ev =? EV_STA_DISCONNECTED). }
  apply H.
Qed.

Lemma do_on_disconnect_log w r : w_log (do_on_disconnect w r).2 = w_log w.
Proof. by rewrite do_on_disconnect_eq. Qed.
Lemma do_on_connect_timeout_log w : w_log (do_on_connect_timeout w).2 = w_log w.
Proof. unfold do_on_connect_timeout. cbn. by case_match. Qed.

#[local] Arguments do_on_disconnect : simpl never.
#[local] Arguments do_on_connect_timeout : simpl never.

Lemma disc_tail_no_reboot stale r w e f' w' d :
  disc_tail stale r w = (e, f', w') -> EffReboot d ∈ w_log w' -> EffReboot d ∈ w_log w.
Proof.
  unfold disc_tail. destruct (wr_disconnect_would_reconnect_now _ _); intros [= <- <- <-];
    cbn; rewrite do_on_disconnect_log, ?elem_of_app, ?list_elem_of_singleton; [by intros [|]|done].
Qed.

(** What a step that logged a reboot must have been. *)
Lemma escalation_rows_reboot note deny tail w e f' w' d :
  (forall w1 e f' w', deny w1 = (e, f', w') -> EffReboot d ∈ w_log w' -> EffReboot d ∈ w_log w1) ->
  (forall w1 e f' w', tail w1 = (e, f', w') -> EffReboot d ∈ w_log w' -> EffReboot d ∈ w_log w1) ->
  escalation_rows note deny tail w = (e, f', w') -> EffReboot d ∈ w_log w' ->
  EffReboot d ∉ w_log w ->
  escalates (w_policy w) (w_clock w (w_reads w)) = true /\ w_allow w (w_asks w) = true /\
  note (reboot_allowed_fn (now_us w).2).2 = (e, f', w').
Proof.
  intros Hd Ht. rewrite escalation_rows_eq. cbv beta zeta. rewrite Nat.add_0_l.
  set (w2 := if escalates (w_policy w) (w_clock w (w_reads w)) then (reboot_allowed_fn _).2 else _).
  assert (w_log (now_us w2).2 = w_log w) as Hlog by (unfold w2; by case_match).
  destruct (escalates (w_policy w) (w_clock w (w_reads w)) && w_allow w (w_asks w)) eqn:E.
  { apply andb_prop in E as [E1 E2]. intros Hn _ _. by split_and!. }
  destruct (escalates _ (w_clock w (1 + _)%nat)); intros Hrun Hin Hni; exfalso; apply Hni;
    rewrite <- Hlog; eauto.
Qed.

Lemma connecting_reboot i w ev data e f' w' d :
  fsm_step (wr_desc i) (wr_fsm WR_CONNECTING connecting_timer) ev data w = (e, f', w') ->
  EffReboot d ∈ w_log w' -> EffReboot d ∉ w_log w ->
  (ev = EV_CONNECTING_TIMEOUT \/ ev = EV_STA_DISCONNECTED /\ wr_reason data <> DISC_ASSOC_LEAVE) /\
  escalates (w_policy w) (w_clock w (w_reads w)) = true /\ w_allow w (w_asks w) = true /\
  exists t, f' = wr_fsm WR_ESCALATE_REBOOT t.
Proof.
  intros Hs Hin Hni.
  destruct (Z.eqb_spec ev EV_STA_DISCONNECTED) as [->|H1];
    [|destruct (Z.eqb_spec ev EV_CONNECTING_TIMEOUT) as [->|H2]].
  - rewrite step_connecting_disc in Hs. case_bool_decide as Hr.
    { injection Hs as <- <- <-. exfalso. apply Hni. revert Hin. cbn.
      rewrite do_on_disconnect_log. (rewrite ?elem_of_app, ?list_elem_of_singleton; intros; destruct_or?; done). }
    apply (escalation_rows_reboot _ _ _ _ _ _ _ d) in Hs as (He & Ha & Hn); [|..|done|done].
    + injection Hn as <- <- <-. split_and!; eauto.
    + intros w1 e1 f1 w1' [= <- <- <-]. cbn. rewrite do_on_disconnect_log. (rewrite ?elem_of_app, ?list_elem_of_singleton; intros; destruct_or?; done).
    + intros *. apply disc_tail_no_reboot.
  - rewrite step_connecting_timeout in Hs.
    apply (escalation_rows_reboot _ _ _ _ _ _ _ d) in Hs as (He & Ha & Hn); [|..|done|done].
    + injection Hn as <- <- <-. split_and!; eauto.
    + intros w1 e1 f1 w1' [= <- <- <-]. cbn. rewrite do_on_connect_timeout_log. (rewrite ?elem_of_app, ?list_elem_of_singleton; intros; destruct_or?; done).
    + intros w1 e1 f1 w1' [= <- <- <-]. cbn. rewrite do_on_connect_timeout_log. (rewrite ?elem_of_app, ?list_elem_of_singleton; intros; destruct_or?; done).
  - rewrite step_connecting in Hs by done. by destruct (ev =? EV_GOT_IP); injection Hs as <- <- <-.
Qed.

Lemma parked_no_reboot i f w ev data e f' w' d :
  wr_inv f w -> f_current f <> WR_CONNECTING ->
  fsm_step (wr_desc i) f ev data w = (e, f', w') ->
  EffReboot d ∈ w_log w' -> EffReboot d ∈ w_log w.
Proof.
  intros [w0 | w0 Hp | te tm w0 Hff | s te tm w0 Hst] Hne Hs; [done|..].
  - rewrite step_backoff in Hs.
    destruct (ev =? EV_BACKOFF_TIMEOUT); [|destruct (ev =? EV_STA_DISCONNECTED)];
      injection Hs as <- <- <-; cbn; rewrite ?elem_of_app, ?list_elem_of_singleton; by intros; destruct_or?.
  - destruct (Z.eqb_spec ev EV_STA_DISCONNECTED) as [->|H1].
    + rewrite step_connected_disc in Hs. case_bool_decide; [|by eapply disc_tail_no_reboot].
      injection Hs as <- <- <-. cbn. rewrite do_on_disconnect_log, elem_of_app, list_elem_of_singleton.
      by intros [|].
    + rewrite step_connected in Hs by done. by injection Hs as <- <- <-.
  - destruct Hst as [-> | [-> | ->]];
      [rewrite step_no_creds in Hs|rewrite step_left in Hs|rewrite step_escalate in Hs];
      [destruct (ev =? EV_CREDS_ARRIVED)|destruct (ev =? EV_RECONNECT_REQUESTED)|];
      injection Hs as <- <- <-; cbn; rewrite ?elem_of_app, ?list_elem_of_singleton; by intros; destruct_or?.
Qed.

Lemma wr_inv_connecting f w :
  wr_inv f w -> f_current f = WR_CONNECTING -> f = wr_fsm WR_CONNECTING connecting_timer.
Proof. intros [| | |s te tm w0 [-> | [-> | ->]]]; done. Qed.

(** The safeguard reboot.  A step of a reachable machine that calls
    [reboot_fn] was taken from CONNECTING, on a watchdog expiry or on a
    disconnect other than ASSOC_LEAVE, after the persistent-fail window had
    been exceeded at the guard's reading and [reboot_allowed_fn] had said yes;
    it ends in ESCALATE_REBOOT, which no event leaves. *)
Theorem reboot_only_on_allowed_escalation i f w ev data e f' w' d :
  wr_reach f w -> w_log w = [] ->
  bb_fsm_step (wr_desc i) (Some f) ev data w = (e, Some f', w') ->
  EffReboot d ∈ w_log w' ->
  bb_fsm_state (Some f) = WR_CONNECTING /\
  (ev = EV_CONNECTING_TIMEOUT \/ ev = EV_STA_DISCONNECTED /\ wr_reason data <> DISC_ASSOC_LEAVE) /\
  (let t := w_clock w (w_reads w) in
   first_fail_us (w_policy w) <> 0 /\
   t - first_fail_us (w_policy w) > WIFI_RECONN_PERSISTENT_FAIL_WINDOW_US) /\
  w_allow w (w_asks w) = true /\
  bb_fsm_state (Some f') = WR_ESCALATE_REBOOT /\
  forall j ev2 data2 w2, bb_fsm_step (wr_desc j) (Some f') ev2 data2 w2 = (BB_ERR_NOT_FOUND, Some f', w2).
Proof.
  intros Hinv%wr_reach_inv Hlog Hstep Hin. cbn [bb_fsm_step bb_fsm_state] in *.
  destruct (fsm_step _ _ _ _ _) as [[e0 f0] w0] eqn:Hs. injection Hstep as <- <- <-.
  assert (EffReboot d ∉ w_log w) as Hni by (rewrite Hlog; apply not_elem_of_nil).
  destruct (Z.eqb_spec (f_current f) WR_CONNECTING) as [Hc|Hc];
    [|by destruct Hni; eapply parked_no_reboot].
  pose proof (wr_inv_connecting _ _ Hinv Hc) as ->.
  destruct (connecting_reboot i w ev data e0 f0 w0 d Hs Hin Hni) as (Hev & He & Ha & t & ->).
  unfold escalates in He. cbv zeta.
  destruct (Z.eqb_spec (first_fail_us (w_policy w)) 0); [by rewrite Z.sub_diag in He|].
  apply Z.gtb_lt in He. split_and!; try done; lia.
Qed.

(** The world one reboot is taken in: the window (300 s) exceeded, and allowed. *)
Lemma reboot_only_on_allowed_escalation_witness :
  let w := still_world (mk_rs 0 0 0 1 1 DISC_UNKNOWN 1 [] 0 0) 300000002 true in
  wr_reach (wr_fsm WR_CONNECTING connecting_timer) w /\ w_allow w (w_asks w) = true.
Proof.
  set (w := still_world (mk_rs 0 0 0 1 1 DISC_UNKNOWN 1 [] 0 0) 300000002 true).
  split; [apply booted_reach|].
  refine (proj1 (proj2 (proj2 (proj2 (reboot_only_on_allowed_escalation WR_CONNECTING _ w
    EV_CONNECTING_TIMEOUT None BB_OK (wr_fsm WR_ESCALATE_REBOOT (disarm connecting_timer))
    (call (EffReboot "persistent disconnect") (do_on_connect_timeout
       (reboot_allowed_fn (now_us w).2).2).2)
    "persistent disconnect" (booted_reach w) eq_refl eq_refl _))))).
  cbn. apply list_elem_of_singleton. reflexivity.
Defined.

(** A parked machine stays parked.  In NO_CREDS every sequence of events
    without CREDS_ARRIVED, and in LEFT every one without RECONNECT_REQUESTED,
    is refused event by event without a single adapter call or state change;
    the awaited event resets the policy and connects. *)
Theorem parked_until_resumed i evs te tm w data :
  let no_creds := wr_fsm WR_NO_CREDS (mk_timer te tm false) in
  let left := wr_fsm WR_LEFT (mk_timer te tm false) in
  let resumed := set_self_disconnect false (set_policy (wifi_reconn_state_reset (w_policy w)) w) in
  (Forall (fun ev => ev.1 <> EV_CREDS_ARRIVED) evs ->
     run_events (wr_desc i) (Some no_creds) evs w
     = (replicate (length evs) BB_ERR_NOT_FOUND, Some no_creds, w)) /\
  (Forall (fun ev => ev.1 <> EV_RECONNECT_REQUESTED) evs ->
     run_events (wr_desc i) (Some left) evs w
     = (replicate (length evs) BB_ERR_NOT_FOUND, Some left, w)) /\
  bb_fsm_step (wr_desc i) (Some no_creds) EV_CREDS_ARRIVED data w
  = (BB_OK, Some (wr_fsm WR_CONNECTING connecting_timer), call EffConnectFresh resumed) /\
  bb_fsm_step (wr_desc i) (Some left) EV_RECONNECT_REQUESTED data w
  = (BB_OK, Some (wr_fsm WR_CONNECTING connecting_timer), call EffConnect resumed).
Proof.
  cbv zeta. unfold bb_fsm_step. split_and!.
  - induction 1 as [|[ev x] evs Hne Hall IH]; [done|]. cbn [run_events]. unfold bb_fsm_step.
    apply Z.eqb_neq in Hne. cbn in Hne. rewrite step_no_creds, Hne. cbn. by rewrite IH.
  - induction 1 as [|[ev x] evs Hne Hall IH]; [done|]. cbn [run_events]. unfold bb_fsm_step.
    apply Z.eqb_neq in Hne. cbn in Hne. rewrite step_left, Hne. cbn. by rewrite IH.
  - by rewrite step_no_creds.
  - by rewrite step_left.
Qed.

Lemma parked_until_resumed_witness :
  let f := wr_fsm WR_NO_CREDS (mk_timer 0 0 false) in
  let w := still_world zero_state 5 true in
  Forall (fun ev : Z * option Z => ev.1 <> EV_CREDS_ARRIVED) [(EV_STA_DISCONNECTED, Some 8)] /\
  run_events (wr_desc 0) (Some f) [(EV_STA_DISCONNECTED, Some 8)] w = ([BB_ERR_NOT_FOUND], Some f, w).
Proof.
  assert (H : Forall (fun ev : Z * option Z => ev.1 <> EV_CREDS_ARRIVED) [(EV_STA_DISCONNECTED, Some 8)])
    by (constructor; [discriminate | constructor]).
  split; [exact H|].
  exact (proj1 (parked_until_resumed 0 [(EV_STA_DISCONNECTED, Some 8)] 0 0
                  (still_world zero_state 5 true) None) H).
Defined.

(** The time the current run of failures began. *)
Definition run_start (h : list (disc_reason * Z)) (t : Z) : Z :=
  match h with [] => t | (_, t0) :: _ => t0 end.

Lemma disconnects_first_fail h st :
  first_fail_us st <> 0 -> first_fail_us (disconnects h st) = first_fail_us st.
Proof.
  revert st. induction h as [|[r t] h IH]; intros st Hne; [done|]. cbn [disconnects].
  assert (first_fail_us (policy_on_disconnect st t r).2 = first_fail_us st) as E.
  { rewrite on_disconnect_first_fail. by apply Z.eqb_neq in Hne as ->. }
  by rewrite IH, E; [|rewrite E].
Qed.

Lemma escalates_run h t st :
  first_fail_us st = 0 -> Forall (fun rt => rt.2 <> 0) h ->
  escalates (disconnects h st) t = (t - run_start h t >? WIFI_RECONN_PERSISTENT_FAIL_WINDOW_US).
Proof.
  intros H0 Hall. destruct h as [|[r t0] h]; cbn [disconnects run_start].
  { unfold escalates. by rewrite H0. }
  inversion Hall as [|? ? Ht0 _]; subst. cbn in Ht0.
  assert (first_fail_us (policy_on_disconnect st t0 r).2 = t0) as E
    by (by rewrite on_disconnect_first_fail, H0).
  unfold escalates. rewrite disconnects_first_fail, E; [|by rewrite E].
  by apply Z.eqb_neq in Ht0 as ->.
Qed.

(** The decision after any history of failures since the last IP.  With
    [n] earlier failures of the same bucket (handshake / bad credentials or
    absent AP / everything else, whatever came in between), the answer is REBOOT
    once more than 300 s have passed since the first failure of the run, and
    otherwise the bucket's ladder at [n + 1]: reconnect now where it gives 0,
    a back-off of that many ms where it does not.  In particular a bad
    credential or absent AP never hot-retries. *)
Theorem on_disconnect_follows_ladder (st0 : reconn_state) h r t old :
  Forall (fun rt => rt.2 <> 0) h ->
  let st := disconnects h (policy_on_got_ip st0) in
  let ms := ladder (bucket_of r) (count_bucket (bucket_of r) h + 1) in
  let res := wifi_reconn_policy_on_disconnect (Some st) (Some t) r (Some old) in
  (res.1.1, res.2) =
    (if t - run_start h t >? WIFI_RECONN_PERSISTENT_FAIL_WINDOW_US then (ACTION_REBOOT, Some old)
     else if ms =? 0 then (ACTION_RECONNECT_NOW, Some 0)
     else (ACTION_SCHEDULE_BACKOFF, Some ms)) /\
  (bucket_of r = BSlow -> res.1.1 <> ACTION_RECONNECT_NOW).
Proof.
  intros Hall st ms res.
  assert ((res.1.1, res.2) =
    (if t - run_start h t >? WIFI_RECONN_PERSISTENT_FAIL_WINDOW_US then (ACTION_REBOOT, Some old)
     else if ms =? 0 then (ACTION_RECONNECT_NOW, Some 0)
     else (ACTION_SCHEDULE_BACKOFF, Some ms))) as Hres.
  { assert (fail_count (bucket_of r) st = count_bucket (bucket_of r) h) as Hf
      by (unfold st; rewrite disconnects_fail_count; by destruct r).
    assert (escalates st t = (t - run_start h t >? WIFI_RECONN_PERSISTENT_FAIL_WINDOW_US)) as He
      by (by apply escalates_run).
    pose proof (on_disconnect_result st t r) as H.
    rewrite He, compute_backoff_ladder, bump_fail_count, Hf in H. cbv zeta in H. fold ms in H.
    unfold res, wifi_reconn_policy_on_disconnect.
    destruct (policy_on_disconnect st t r) as [[act o] s']. cbn [fst snd] in *.
    destruct (_ >? _); [by injection H as -> ->|].
    destruct (Z.eqb_spec ms 0) as [E|E]; injection H as -> ->; cbn; by rewrite ?E. }
  split; [exact Hres|]. intros Hb Hact. rewrite Hact in Hres. revert Hres.
  destruct (_ >? _); [done|]. unfold ms. rewrite Hb. cbn. by destruct (_ <=? 3).
Qed.

Lemma on_disconnect_follows_ladder_witness :
  let h := [(DISC_HANDSHAKE_TIMEOUT, 10); (DISC_AUTH_FAIL, 20); (DISC_HANDSHAKE_TIMEOUT, 30)] in
  Forall (fun rt : disc_reason * Z => rt.2 <> 0) h /\
  (wifi_reconn_policy_on_disconnect (Some (disconnects h (policy_on_got_ip zero_state)))
     (Some 40) DISC_AUTH_FAIL (Some 0)).1.1 <> ACTION_RECONNECT_NOW.
Proof.
  assert (H : Forall (fun rt : disc_reason * Z => rt.2 <> 0)
    [(DISC_HANDSHAKE_TIMEOUT, 10); (DISC_AUTH_FAIL, 20); (DISC_HANDSHAKE_TIMEOUT, 30)])
    by (repeat constructor; discriminate).
  split; [exact H|].
  exact (proj2 (on_disconnect_follows_ladder zero_state _ DISC_AUTH_FAIL 40 0 H) eq_refl).
Defined.

(** After a reset, each histogram bucket holds the number of disconnects
    with its reason, saturated at 65535: the 16-bit counter never wraps, and
    got-IP and reconnect decisions never touch another bucket. *)
Theorem histogram_counts_saturating st0 h q :
  let st := disconnects h (wifi_reconn_state_reset st0) in
  reason_histogram st !! disc_index q = Some (Z.min UINT16_MAX (count_reason q h)) /\
  reason_histogram (policy_on_got_ip st) = reason_histogram st.
Proof.
  split; [|done]. cbv zeta. rewrite (disconnects_hist h _ q 0); [done|done|].
  cbn [reason_histogram wifi_reconn_state_reset]. apply lookup_replicate_2. apply disc_index_lt.
Qed.
