(* ===== verification/WifiProv.v ===== *)
(** The provisioning policy: components/bb_wifi_prov/wifi_prov_policy.c on top
    of [Fsm], and the event dispatch of its task,
    platform/espidf/bb_wifi_prov/wifi_prov_mgr.c. *)
From S2P Require Import Prelude Fsm.

(** * States, events, effects (wifi_prov_policy.h) *)

Definition WP_IDLE : Z := 0.
Definition WP_ACTIVE : Z := 1.
Definition WP_CLOSING : Z := 2.

Definition EV_ENTRY_FIRST_BOOT : Z := 0.
Definition EV_ENTRY_DEPROV_ANOMALY : Z := 1.
Definition EV_ENTRY_USER_REQUESTED : Z := 2.
Definition EV_AP_START_OK : Z := 3.
Definition EV_PROV_START_OK : Z := 4.
Definition EV_SAVE_SUCCESS : Z := 5.
Definition EV_SETTLE_TIMEOUT : Z := 6.

Inductive wp_log_evt : Set :=
  | LOG_ENTRY_FIRST_BOOT | LOG_ENTRY_DEPROV_ANOMALY | LOG_ENTRY_USER_REQUESTED
  | LOG_ENTRY_ALREADY_ACTIVE | LOG_AP_START_FAILED | LOG_PROV_START_FAILED
  | LOG_PORTAL_OPEN | LOG_PORTAL_CLOSED.

(** The calls made through [wifi_prov_adapter_t]; a start call carries the
    result it returned. *)
Inductive wp_effect : Set :=
  | ApStart (rc : bb_err) | ApStop | ProvStart (rc : bb_err) | ProvStop
  | CredsArrivedNotify | LogEvt (e : wp_log_evt) | ProvActiveSet (active : bool).

(** [wifi_prov_ctx_t] less the embedded machine, with the adapter's world: the
    results the two start calls will return, and the calls made so far. *)
Record wp_world := mk_wp {
  last_op_ok : bool;
  settle_ms : Z;
  ap_results : nat -> bb_err;
  ap_calls : nat;
  prov_results : nat -> bb_err;
  prov_calls : nat;
  wp_calls : list wp_effect
}.

Definition set_last_op_ok (b : bool) (w : wp_world) : wp_world :=
  mk_wp b (settle_ms w) (ap_results w) (ap_calls w) (prov_results w) (prov_calls w) (wp_calls w).
Definition set_settle_ms (ms : Z) (w : wp_world) : wp_world :=
  mk_wp (last_op_ok w) ms (ap_results w) (ap_calls w) (prov_results w) (prov_calls w) (wp_calls w).
Definition emit (e : wp_effect) (w : wp_world) : wp_world :=
  mk_wp (last_op_ok w) (settle_ms w) (ap_results w) (ap_calls w) (prov_results w) (prov_calls w)
    (wp_calls w ++ [e]).
Definition ap_start_fn (w : wp_world) : bb_err * wp_world :=
  let rc := ap_results w (ap_calls w) in
  (rc, mk_wp (last_op_ok w) (settle_ms w) (ap_results w) (S (ap_calls w)) (prov_results w)
         (prov_calls w) (wp_calls w ++ [ApStart rc])).
Definition prov_start_fn (w : wp_world) : bb_err * wp_world :=
  let rc := prov_results w (prov_calls w) in
  (rc, mk_wp (last_op_ok w) (settle_ms w) (ap_results w) (ap_calls w) (prov_results w)
         (S (prov_calls w)) (wp_calls w ++ [ProvStart rc])).

(** * The policy *)

Abbreviation wp_action := (action_fn (W := wp_world) (D := unit)).
Abbreviation wp_hook := (hook_fn (W := wp_world)).

Definition settle_ms_floor (ms : Z) : Z := if ms =? 0 then 1 else ms.

Definition entry_log_evt (event : Z) : wp_log_evt :=
  if event =? EV_ENTRY_FIRST_BOOT then LOG_ENTRY_FIRST_BOOT
  else if event =? EV_ENTRY_DEPROV_ANOMALY then LOG_ENTRY_DEPROV_ANOMALY
  else LOG_ENTRY_USER_REQUESTED.

Definition act_try_ap_start : wp_action := fun f w event _ =>
  let w1 := emit (LogEvt (entry_log_evt event)) w in
  let '(rc, w2) := ap_start_fn w1 in
  let w3 := set_last_op_ok (is_ok rc) w2 in
  (f, if last_op_ok w3 then w3 else emit (LogEvt LOG_AP_START_FAILED) w3).

Definition act_try_prov_start : wp_action := fun f w _ _ =>
  let '(rc, w1) := prov_start_fn w in
  let w2 := set_last_op_ok (is_ok rc) w1 in
  (f, if last_op_ok w2 then w2
      else emit (LogEvt LOG_PROV_START_FAILED) (emit ApStop w2)).

Definition act_reentry_noop : wp_action := fun f w _ _ =>
  (f, emit (LogEvt LOG_ENTRY_ALREADY_ACTIVE) w).

Definition act_close_portal : wp_action := fun f w _ _ =>
  (f, emit (LogEvt LOG_PORTAL_CLOSED) (emit CredsArrivedNotify (emit ApStop (emit ProvStop w)))).

Definition wp_active_on_entry : wp_hook := fun f w _ =>
  (f, emit (ProvActiveSet true) (emit (LogEvt LOG_PORTAL_OPEN) w)).
Definition wp_idle_on_entry : wp_hook := fun f w _ => (f, emit (ProvActiveSet false) w).
Definition wp_closing_on_entry : wp_hook := fun f w _ =>
  ((fsm_arm_timer f EV_SETTLE_TIMEOUT (settle_ms_floor (settle_ms w))).2, w).

Definition wp_rows : list (bb_fsm_row wp_world unit) := [
  mk_row WP_IDLE EV_ENTRY_FIRST_BOOT None (Some act_try_ap_start) BB_FSM_STATE_SAME;
  mk_row WP_IDLE EV_ENTRY_DEPROV_ANOMALY None (Some act_try_ap_start) BB_FSM_STATE_SAME;
  mk_row WP_IDLE EV_ENTRY_USER_REQUESTED None (Some act_try_ap_start) BB_FSM_STATE_SAME;
  mk_row WP_IDLE EV_AP_START_OK None (Some act_try_prov_start) BB_FSM_STATE_SAME;
  mk_row WP_IDLE EV_PROV_START_OK None None WP_ACTIVE;
  mk_row WP_ACTIVE EV_ENTRY_USER_REQUESTED None (Some act_reentry_noop) BB_FSM_STATE_SAME;
  mk_row WP_ACTIVE EV_SAVE_SUCCESS None None WP_CLOSING;
  mk_row WP_CLOSING EV_SETTLE_TIMEOUT None (Some act_close_portal) WP_IDLE ].

Definition wp_states : list (bb_fsm_state_desc wp_world) := [
  mk_state_desc WP_IDLE (Some wp_idle_on_entry) None;
  mk_state_desc WP_ACTIVE (Some wp_active_on_entry) None;
  mk_state_desc WP_CLOSING (Some wp_closing_on_entry) None ].

Definition wp_desc (initial : Z) : bb_fsm_desc wp_world unit :=
  mk_desc (Some wp_rows) (length wp_rows) (Some wp_states) (length wp_states) initial.

Definition wifi_prov_fsm_init (fsm : bb_fsm) (w : wp_world) (initial settle : Z)
  : bb_err * option bb_fsm * wp_world :=
  bb_fsm_init (Some fsm) (Some (wp_desc initial)) (set_settle_ms (settle_ms_floor settle) w).

(** The multi-hop entry driver; the context pointer is non-NULL. *)
Definition wifi_prov_fsm_drive_entry (f : bb_fsm) (w : wp_world) (entry_event : Z)
  : bb_fsm * wp_world :=
  let w0 := set_last_op_ok false w in
  let '(rc, f1, w1) := fsm_step (wp_desc WP_IDLE) f entry_event tt w0 in
  if negb (is_ok rc) then (f1, w1) else
  if negb (bb_fsm_state (Some f1) =? WP_IDLE) then (f1, w1) else
  if negb (last_op_ok w1) then (f1, w1) else
  let '(_, f2, w2) := fsm_step (wp_desc WP_IDLE) f1 EV_AP_START_OK tt w1 in
  if negb (last_op_ok w2) then (f2, w2) else
  let '(_, f3, w3) := fsm_step (wp_desc WP_IDLE) f2 EV_PROV_START_OK tt w2 in
  (f3, w3).

(** [Some event]: the [true] return with [*out_event] written. *)
Definition wifi_prov_entry_decision (has_creds provisioned : bool) : option Z :=
  if has_creds then None
  else Some (if provisioned then EV_ENTRY_DEPROV_ANOMALY else EV_ENTRY_FIRST_BOOT).

(** One turn of [prov_mgr_task]'s loop: [Some event] is an event received from
    the queue, [None] the expiry of the wait. *)
Definition prov_mgr_task_turn (f : bb_fsm) (w : wp_world) (received : option Z) : bb_fsm * wp_world :=
  match received with
  | Some ev =>
      if (ev =? EV_ENTRY_FIRST_BOOT) || (ev =? EV_ENTRY_DEPROV_ANOMALY)
         || (ev =? EV_ENTRY_USER_REQUESTED)
      then wifi_prov_fsm_drive_entry f w ev
      else let '(_, f', w') := fsm_step (wp_desc WP_IDLE) f ev tt w in (f', w')
  | None =>
      match bb_fsm_timer_at (Some f) 0 with
      | Some (tev, _) => let '(_, f', w') := fsm_step (wp_desc WP_IDLE) f tev tt w in (f', w')
      | None => (f, w)
      end
  end.

(** * What the calls leave running: the radio's view *)

(** Whether the SoftAP and the portal are up, and the published flag. *)
Record radio := mk_radio { ap_up : bool; portal_up : bool; active_flag : bool }.

Definition radio_step (r : radio) (e : wp_effect) : radio :=
  match e with
  | ApStart rc => mk_radio (ap_up r || is_ok rc) (portal_up r) (active_flag r)
  | ApStop => mk_radio false (portal_up r) (active_flag r)
  | ProvStart rc => mk_radio (ap_up r) (portal_up r || is_ok rc) (active_flag r)
  | ProvStop => mk_radio (ap_up r) false (active_flag r)
  | ProvActiveSet b => mk_radio (ap_up r) (portal_up r) b
  | CredsArrivedNotify | LogEvt _ => r
  end.
Definition radio_after (es : list wp_effect) : radio :=
  fold_left radio_step es (mk_radio false false false).

#[global] Arguments radio_after : simpl never.

Lemma radio_after_app es es' : radio_after (es ++ es') = fold_left radio_step es' (radio_after es).
Proof. apply fold_left_app. Qed.

(** * The steps *)

Definition wp_fsm (state : Z) (t : fsm_timer) : bb_fsm := mk_fsm true state false [t].
Definition settle_timer (ms : Z) : fsm_timer := mk_timer EV_SETTLE_TIMEOUT ms true.

Definition is_entry (ev : Z) : bool := (0 <=? ev) && (ev <=? 2).

Lemma is_entry_cases ev : is_entry ev = true ->
  ev = EV_ENTRY_FIRST_BOOT \/ ev = EV_ENTRY_DEPROV_ANOMALY \/ ev = EV_ENTRY_USER_REQUESTED.
Proof.
  unfold is_entry, EV_ENTRY_FIRST_BOOT, EV_ENTRY_DEPROV_ANOMALY, EV_ENTRY_USER_REQUESTED.
  rewrite andb_true_iff, !Z.leb_le. lia.
Qed.

(** The whole entry attempt from IDLE: three outcomes. *)
Lemma drive_entry_idle te tm w ev :
  is_entry ev = true ->
  let f := wp_fsm WP_IDLE (mk_timer te tm false) in
  let ap := ap_results w (ap_calls w) in
  let prov := prov_results w (prov_calls w) in
  let done_calls es ok pc := mk_wp ok (settle_ms w) (ap_results w) (S (ap_calls w)) (prov_results w)
                            pc (wp_calls w ++ LogEvt (entry_log_evt ev) :: ApStart ap :: es) in
  wifi_prov_fsm_drive_entry f w ev =
  if is_ok ap then
    if is_ok prov
    then (wp_fsm WP_ACTIVE (mk_timer te tm false),
          done_calls [ProvStart prov; LogEvt LOG_PORTAL_OPEN; ProvActiveSet true] true
            (S (prov_calls w)))
    else (f, done_calls [ProvStart prov; ApStop; LogEvt LOG_PROV_START_FAILED] false
               (S (prov_calls w)))
  else (f, done_calls [LogEvt LOG_AP_START_FAILED] false (prov_calls w)).
Proof.
  intros H%is_entry_cases. cbv zeta.
  unfold wifi_prov_fsm_drive_entry.
  destruct (is_ok (ap_results w (ap_calls w))) eqn:Ea, (is_ok (prov_results w (prov_calls w))) eqn:Ep;
  destruct H as [-> | [-> | ->]];
  unfold fsm_step, find_row; cbn -[is_ok]; unfold run_action, take_row; cbn -[is_ok];
  repeat (rewrite ?Ea, ?Ep; change (is_ok BB_OK) with true; cbn -[is_ok]);
  unfold emit, set_last_op_ok, wp_fsm; cbn; rewrite <- ?app_assoc; cbn; try done.
Qed.

Lemma step_idle te tm w ev :
  is_entry ev = false -> ev <> EV_AP_START_OK -> ev <> EV_PROV_START_OK ->
  let f := wp_fsm WP_IDLE (mk_timer te tm false) in
  fsm_step (wp_desc WP_IDLE) f ev tt w = (BB_ERR_NOT_FOUND, f, w).
Proof.
  unfold is_entry. intros He H3%Z.neq_sym%Z.eqb_neq H4%Z.neq_sym%Z.eqb_neq.
  assert (forall k, 0 <= k <= 2 -> (k =? ev) = false) as Hk by (intros; zcases).
  unfold fsm_step, find_row. cbn -[Z.eqb].
  rewrite H3, H4. unfold EV_ENTRY_FIRST_BOOT, EV_ENTRY_DEPROV_ANOMALY, EV_ENTRY_USER_REQUESTED.
  by rewrite !Hk by lia.
Qed.

Lemma settle_ms_floor_pos ms : 0 <= ms -> 0 < settle_ms_floor ms.
Proof. unfold settle_ms_floor. intros. zcases. Qed.

Lemma settle_ms_floor_ne ms : (settle_ms_floor ms =? 0) = false.
Proof. unfold settle_ms_floor. zcases. Qed.

Lemma step_active te tm w ev :
  let f := wp_fsm WP_ACTIVE (mk_timer te tm false) in
  fsm_step (wp_desc WP_IDLE) f ev tt w =
  if ev =? EV_ENTRY_USER_REQUESTED then (BB_OK, f, emit (LogEvt LOG_ENTRY_ALREADY_ACTIVE) w)
  else if ev =? EV_SAVE_SUCCESS
  then (BB_OK, wp_fsm WP_CLOSING (settle_timer (settle_ms_floor (settle_ms w))), w)
  else (BB_ERR_NOT_FOUND, f, w).
Proof.
  cbv zeta. destruct (Z.eqb_spec ev EV_ENTRY_USER_REQUESTED) as [->|H2]; [done|].
  destruct (Z.eqb_spec ev EV_SAVE_SUCCESS) as [->|H5].
  - unfold fsm_step, find_row. cbn -[settle_ms_floor]. by rewrite settle_ms_floor_ne.
  - apply Z.neq_sym, Z.eqb_neq in H2, H5.
    unfold fsm_step, find_row. cbn -[Z.eqb]. by rewrite H2, H5.
Qed.

Lemma step_closing te tm ta w ev :
  fsm_step (wp_desc WP_IDLE) (wp_fsm WP_CLOSING (mk_timer te tm ta)) ev tt w =
  if ev =? EV_SETTLE_TIMEOUT
  then (BB_OK, wp_fsm WP_IDLE (mk_timer te tm false),
        emit (ProvActiveSet false) (emit (LogEvt LOG_PORTAL_CLOSED)
          (emit CredsArrivedNotify (emit ApStop (emit ProvStop w)))))
  else (BB_ERR_NOT_FOUND, wp_fsm WP_CLOSING (mk_timer te tm ta), w).
Proof.
  destruct (Z.eqb_spec ev EV_SETTLE_TIMEOUT) as [->|H6]; [done|].
  apply Z.neq_sym, Z.eqb_neq in H6. unfold fsm_step, find_row. cbn -[Z.eqb]. by rewrite H6.
Qed.

(** * Reachable managers *)

(** What the rest of the program posts to the queue. *)
Definition posted (ev : Z) : Prop := is_entry ev = true \/ ev = EV_SAVE_SUCCESS.

Inductive wp_reach : bb_fsm -> wp_world -> Prop :=
  | wp_boot fsm w settle f w' :
      length (f_timers fsm) = 1%nat -> 0 <= settle -> wp_calls w = [] ->
      wifi_prov_fsm_init fsm w WP_IDLE settle = (BB_OK, Some f, w') -> wp_reach f w'
  | wp_turn f w received f' w' :
      wp_reach f w -> (forall ev, received = Some ev -> posted ev) ->
      prov_mgr_task_turn f w received = (f', w') -> wp_reach f' w'.

Definition radio_all (b : bool) : radio := mk_radio b b b.

Inductive wp_inv : bb_fsm -> wp_world -> Prop :=
  | wi_idle te tm w : 0 < settle_ms w -> radio_after (wp_calls w) = radio_all false ->
      wp_inv (wp_fsm WP_IDLE (mk_timer te tm false)) w
  | wi_active te tm w : 0 < settle_ms w -> radio_after (wp_calls w) = radio_all true ->
      wp_inv (wp_fsm WP_ACTIVE (mk_timer te tm false)) w
  | wi_closing ms w : 0 < ms -> 0 < settle_ms w -> radio_after (wp_calls w) = radio_all true ->
      wp_inv (wp_fsm WP_CLOSING (settle_timer ms)) w.

Lemma drive_idle_inv te tm w ev f' w' :
  is_entry ev = true -> 0 < settle_ms w -> radio_after (wp_calls w) = radio_all false ->
  wifi_prov_fsm_drive_entry (wp_fsm WP_IDLE (mk_timer te tm false)) w ev = (f', w') -> wp_inv f' w'.
Proof.
  intros He Hs Hr. rewrite drive_entry_idle by done. cbv zeta.
  destruct (is_ok (ap_results w (ap_calls w))) eqn:Ea;
    [destruct (is_ok (prov_results w (prov_calls w))) eqn:Ep|];
    intros [= <- <-]; [apply wi_active | apply wi_idle | apply wi_idle]; cbn; try done;
    rewrite radio_after_app, Hr; cbn -[is_ok]; by rewrite ?Ea, ?Ep.
Qed.

Lemma drive_active te tm w ev :
  is_entry ev = true ->
  wifi_prov_fsm_drive_entry (wp_fsm WP_ACTIVE (mk_timer te tm false)) w ev =
  (wp_fsm WP_ACTIVE (mk_timer te tm false),
   if ev =? EV_ENTRY_USER_REQUESTED
   then emit (LogEvt LOG_ENTRY_ALREADY_ACTIVE) (set_last_op_ok false w)
   else set_last_op_ok false w).
Proof.
  intros He%is_entry_cases. unfold wifi_prov_fsm_drive_entry. rewrite step_active.
  by destruct He as [-> | [-> | ->]].
Qed.

Lemma drive_closing te tm ta w ev :
  is_entry ev = true ->
  wifi_prov_fsm_drive_entry (wp_fsm WP_CLOSING (mk_timer te tm ta)) w ev =
  (wp_fsm WP_CLOSING (mk_timer te tm ta), set_last_op_ok false w).
Proof.
  intros He%is_entry_cases. unfold wifi_prov_fsm_drive_entry. rewrite step_closing.
  by destruct He as [-> | [-> | ->]].
Qed.

Lemma turn_posted f w ev :
  posted ev ->
  prov_mgr_task_turn f w (Some ev) =
  if is_entry ev then wifi_prov_fsm_drive_entry f w ev
  else let '(_, f', w') := fsm_step (wp_desc WP_IDLE) f EV_SAVE_SUCCESS tt w in (f', w').
Proof.
  intros [He| ->]; [|done]. rewrite He. apply is_entry_cases in He.
  by destruct He as [-> | [-> | ->]].
Qed.

Lemma radio_log r e : fold_left radio_step [LogEvt e] r = r.
Proof. done. Qed.

Lemma wp_turn_posted_inv f w ev f' w' :
  wp_inv f w -> posted ev -> prov_mgr_task_turn f w (Some ev) = (f', w') -> wp_inv f' w'.
Proof.
  intros Hinv Hp. rewrite turn_posted by done. destruct (is_entry ev) eqn:He;
    destruct Hinv as [te tm w Hs Hr | te tm w Hs Hr | ms w Hms Hs Hr].
  - by apply drive_idle_inv.
  - rewrite drive_active by done. intros [= <- <-].
    apply wi_active; destruct (ev =? EV_ENTRY_USER_REQUESTED); cbn; try done.
    by rewrite radio_after_app, radio_log.
  - unfold settle_timer. rewrite drive_closing by done. intros [= <- <-]. by apply wi_closing.
  - rewrite step_idle by done. intros [= <- <-]. by apply wi_idle.
  - rewrite step_active. intros [= <- <-]. apply wi_closing; [|done..]. apply settle_ms_floor_pos; lia.
  - unfold settle_timer. rewrite step_closing. intros [= <- <-]. by apply wi_closing.
Qed.

Lemma closing_expiry ms w :
  prov_mgr_task_turn (wp_fsm WP_CLOSING (settle_timer ms)) w None =
  (wp_fsm WP_IDLE (mk_timer EV_SETTLE_TIMEOUT ms false),
   emit (ProvActiveSet false) (emit (LogEvt LOG_PORTAL_CLOSED)
     (emit CredsArrivedNotify (emit ApStop (emit ProvStop w))))).
Proof. done. Qed.

Lemma wp_reach_inv f w : wp_reach f w -> wp_inv f w.
Proof.
  induction 1 as [fsm w settle f w' Hl Hset Hc Hinit | f w received f' w' _ IH Hp Hturn].
  - destruct fsm as [fd fc ft [|[te tm ta] []]]; [done| |done]. injection Hinit as <- <-.
    apply wi_idle; cbn; [by apply settle_ms_floor_pos|by rewrite Hc].
  - destruct received as [ev|]; [by eapply wp_turn_posted_inv; eauto|].
    destruct IH as [te tm w Hs Hr | te tm w Hs Hr | ms w Hms Hs Hr].
    + injection Hturn as <- <-. by apply wi_idle.
    + injection Hturn as <- <-. by apply wi_active.
    + rewrite closing_expiry in Hturn. injection Hturn as <- <-. apply wi_idle; [done|].
      cbn. by rewrite <- !app_assoc, radio_after_app, Hr.
Qed.

(** * Properties *)

(** C2: the manager never leaves half a portal.  After any sequence of posted
    events and timer expiries from boot, whatever the start calls returned, the
    SoftAP is up, the portal is up and the published flag is set exactly when
    the machine is not IDLE (in CLOSING too, until the settle time has passed);
    CLOSING always has its settle timer armed with a non-zero delay, the other
    states have none. *)
Theorem portal_radio_invariant f w :
  wp_reach f w ->
  let st := bb_fsm_state (Some f) in
  radio_after (wp_calls w) = radio_all (negb (st =? WP_IDLE)) /\
  (st = WP_IDLE \/ st = WP_ACTIVE \/ st = WP_CLOSING) /\
  (st = WP_CLOSING -> exists ms, 0 < ms /\ bb_fsm_timer_at (Some f) 0 = Some (EV_SETTLE_TIMEOUT, ms)) /\
  (st <> WP_CLOSING -> bb_fsm_timer_count (Some f) = 0%nat).
Proof.
  intros [te tm w0 Hs Hr | te tm w0 Hs Hr | ms w0 Hms Hs Hr]%wp_reach_inv; cbn;
    split_and!; auto; try done. intros _. by exists ms.
Qed.

(** A boot world; [ap] and [prov] are what every start call returns. *)
Definition boot_world (ap prov : bb_err) : wp_world :=
  mk_wp false 0 (fun _ => ap) 0 (fun _ => prov) 0 [].

Lemma portal_radio_invariant_witness :
  let w := emit (ProvActiveSet false) (set_settle_ms 1500 (boot_world BB_OK BB_OK)) in
  wp_reach (wp_fsm WP_IDLE (mk_timer 0 0 false)) w /\ radio_after (wp_calls w) = radio_all false.
Proof.
  assert (H : wp_reach (wp_fsm WP_IDLE (mk_timer 0 0 false))
                (emit (ProvActiveSet false) (set_settle_ms 1500 (boot_world BB_OK BB_OK)))).
  { apply (wp_boot (mk_fsm false 0 false [mk_timer 0 0 false]) (boot_world BB_OK BB_OK) 1500);
      [reflexivity | lia | reflexivity | reflexivity]. }
  split; [exact H|]. exact (proj1 (portal_radio_invariant _ _ H)).
Defined.

(** the entry driver, every branch.  From IDLE an entry event logs its
    kind and starts the AP; if that fails nothing else is called; if it
    succeeds the portal is started; if that fails the AP is stopped again; the
    machine moves to ACTIVE only when both succeeded, publishing the flag last.
    From ACTIVE or CLOSING an entry starts nothing. *)
Theorem drive_entry_outcomes te tm ta w ev :
  is_entry ev = true ->
  let run f := let '(f', w') := wifi_prov_fsm_drive_entry f w ev in
               (bb_fsm_state (Some f'), wp_calls w') in
  let ap := ap_results w (ap_calls w) in
  let prov := prov_results w (prov_calls w) in
  run (wp_fsm WP_IDLE (mk_timer te tm false)) =
    (if is_ok ap && is_ok prov then WP_ACTIVE else WP_IDLE,
     wp_calls w ++ LogEvt (entry_log_evt ev) :: ApStart ap ::
       (if is_ok ap then ProvStart prov ::
          (if is_ok prov then [LogEvt LOG_PORTAL_OPEN; ProvActiveSet true]
           else [ApStop; LogEvt LOG_PROV_START_FAILED])
        else [LogEvt LOG_AP_START_FAILED])) /\
  run (wp_fsm WP_ACTIVE (mk_timer te tm false)) =
    (WP_ACTIVE, wp_calls w ++ (if ev =? EV_ENTRY_USER_REQUESTED
                               then [LogEvt LOG_ENTRY_ALREADY_ACTIVE] else [])) /\
  run (wp_fsm WP_CLOSING (mk_timer te tm ta)) = (WP_CLOSING, wp_calls w).
Proof.
  intros He. cbv beta zeta. rewrite drive_entry_idle, drive_active, drive_closing by done. split_and!.
  - by destruct (is_ok (ap_results _ _)), (is_ok (prov_results _ _)).
  - destruct (ev =? EV_ENTRY_USER_REQUESTED); cbn; by rewrite ?app_nil_r.
  - done.
Qed.

Lemma drive_entry_outcomes_witness :
  is_entry EV_ENTRY_FIRST_BOOT = true /\
  wp_calls (wifi_prov_fsm_drive_entry (wp_fsm WP_CLOSING (settle_timer 5))
              (boot_world BB_OK BB_ERR_NO_MEM) EV_ENTRY_FIRST_BOOT).2 = [].
Proof.
  split; [reflexivity|].
  exact (f_equal snd (proj2 (proj2 (drive_entry_outcomes 0 0 true
           (boot_world BB_OK BB_ERR_NO_MEM) EV_ENTRY_FIRST_BOOT eq_refl)))).
Defined.

(** Turns on a list of queue receptions. *)
Fixpoint turns (f : bb_fsm) (w : wp_world) (rs : list Z) : bb_fsm * wp_world :=
  match rs with
  | [] => (f, w)
  | ev :: rest => let '(f', w') := prov_mgr_task_turn f w (Some ev) in turns f' w' rest
  end.

(** A saved credential closes the portal only after the settle window.
    EV_SAVE_SUCCESS in ACTIVE makes no adapter call and arms the settle timer;
    however many posted events follow before it expires, no call is made; the
    expiry makes exactly portal stop, AP stop, credentials notification, log
    and flag clear, in this order, and returns to IDLE. *)
Theorem settle_before_teardown te tm w evs :
  0 <= settle_ms w -> Forall posted evs ->
  exists ms w1, 0 < ms /\
    prov_mgr_task_turn (wp_fsm WP_ACTIVE (mk_timer te tm false)) w (Some EV_SAVE_SUCCESS)
      = (wp_fsm WP_CLOSING (settle_timer ms), w) /\
    turns (wp_fsm WP_CLOSING (settle_timer ms)) w evs = (wp_fsm WP_CLOSING (settle_timer ms), w1) /\
    wp_calls w1 = wp_calls w /\
    let '(f2, w2) := prov_mgr_task_turn (wp_fsm WP_CLOSING (settle_timer ms)) w1 None in
    bb_fsm_state (Some f2) = WP_IDLE /\
    wp_calls w2 = wp_calls w ++ [ProvStop; ApStop; CredsArrivedNotify; LogEvt LOG_PORTAL_CLOSED;
                                 ProvActiveSet false].
Proof.
  intros Hs Hall. set (ms := settle_ms_floor (settle_ms w)).
  assert (exists w1, turns (wp_fsm WP_CLOSING (settle_timer ms)) w evs
            = (wp_fsm WP_CLOSING (settle_timer ms), w1) /\ wp_calls w1 = wp_calls w) as (w1 & Ht & Hc).
  { clearbody ms. revert w Hs. induction Hall as [|ev evs Hp Hall IH]; intros w Hs; [by eexists|].
    cbn [turns]. rewrite turn_posted by done. unfold settle_timer.
    destruct (is_entry ev) eqn:He; [rewrite drive_closing by done|rewrite step_closing].
    - destruct (IH (set_last_op_ok false w) Hs) as (w1 & H1 & H2). by exists w1.
    - destruct (IH w Hs) as (w1 & H1 & H2). by exists w1. }
  exists ms, w1. split_and!; try done.
  - by apply settle_ms_floor_pos.
  - rewrite turn_posted by (by right). change (is_entry EV_SAVE_SUCCESS) with false. cbv iota.
    by rewrite step_active.
  - cbn. rewrite Hc. by rewrite <- !app_assoc.
Qed.

Lemma settle_before_teardown_witness :
  let w := set_settle_ms 1500 (boot_world BB_OK BB_OK) in
  0 <= settle_ms w /\ Forall posted [EV_SAVE_SUCCESS; EV_ENTRY_USER_REQUESTED] /\
  exists ms w1, 0 < ms /\ turns (wp_fsm WP_CLOSING (settle_timer ms)) w
      [EV_SAVE_SUCCESS; EV_ENTRY_USER_REQUESTED] = (wp_fsm WP_CLOSING (settle_timer ms), w1).
Proof.
  assert (H1 : 0 <= settle_ms (set_settle_ms 1500 (boot_world BB_OK BB_OK))) by (cbn; lia).
  assert (H2 : Forall posted [EV_SAVE_SUCCESS; EV_ENTRY_USER_REQUESTED])
    by (constructor; [right; reflexivity | constructor; [left; reflexivity | constructor]]).
  split; [exact H1|]. split; [exact H2|].
  destruct (settle_before_teardown 0 0 _ _ H1 H2) as (ms & w1 & Hms & _ & Ht & _).
  exists ms, w1. split; [exact Hms | exact Ht].
Defined.
