(* ===== verification/Filter.v ===== *)
(** Selection by priority and emission under pressure:
    components/bb_filter/src/bb_filter.c. *)
From stdpp Require Import sorting.
From S2P Require Import Prelude.

(** * Data (bb_attrs.h, bb_filter.h) *)

Definition BB_ATTRS_DELIVERY_MUST : Z := 0.
Definition BB_ATTRS_DELIVERY_DEFERRABLE : Z := 1.
Definition BB_FILTER_PRESSURE_MS_PER_UNIT : Z := 100.

Record attrs := mk_attrs { priority : Z; kind : Z; tag_mask : Z; delivery_class : Z }.
(** [None]: a NULL [attrs] pointer. *)
Record elem := mk_elem { fe_attrs : option attrs; fe_item : Z }.
Record selector := mk_selector {
  max_count : nat; priority_max : Z; kind_mask : Z; sel_tag_mask : Z; pressure : Z; min_delivery : Z }.
Inductive emit_t : Set := BB_FILTER_EMIT_NOW | BB_FILTER_EMIT_DEFER | BB_FILTER_EMIT_DROP.

(** * Operations *)

Definition bb_filter_gate_pass (a : attrs) (sel : selector) : bool :=
  if priority_max sel <? priority a then false else
  if (negb (kind_mask sel =? 0)) && ((16 <=? kind a) || (Z.land (Z.shiftl 1 (kind a)) (kind_mask sel) =? 0)) then false else
  if negb (sel_tag_mask sel =? 0) && (Z.land (tag_mask a) (sel_tag_mask sel) =? 0) then false else
  negb (delivery_class a <? min_delivery sel).

Section Select.
Context (inp : list elem) (sel : selector).

(** The attributes of an element that passes the gate. *)
Definition gated (e : elem) : option attrs :=
  match fe_attrs e with
  | Some a => if bb_filter_gate_pass a sel then Some a else None
  | None => None
  end.

(** [last]: [None] for [have_last = false]. *)
Definition after_last (last : option (Z * nat)) (p : Z) (i : nat) : bool :=
  match last with
  | None => true
  | Some (lp, li) => (lp <? p) || (p =? lp) && (li <? i)%nat
  end.

(** The scan from index [i], [rest] being [in[i..n)]; [best] is [n] while no
    candidate has been found. *)
Fixpoint find_next_from (last : option (Z * nat)) (rest : list elem) (i best : nat) : nat :=
  match rest with
  | [] => best
  | e :: rest' =>
      let best' :=
        match gated e with
        | None => best
        | Some a =>
            if negb (after_last last (priority a) i) then best else
            if (best =? length inp)%nat then i else
            match inp !! best with
            | Some (mk_elem (Some ba) _) => if priority a <? priority ba then i else best
            | _ => best
            end
        end in
      find_next_from last rest' (S i) best'
  end.
Definition bb_filter_find_next (last : option (Z * nat)) : nat := find_next_from last inp 0 (length inp).

Definition deferrable (a : attrs) : bool := delivery_class a =? BB_ATTRS_DELIVERY_DEFERRABLE.

(** Pass 1. *)
Definition deferrable_total : nat :=
  length (filter (fun e => match gated e with Some a => deferrable a | None => false end = true) inp).

(** Pass 2; [None]: out of fuel. *)
Fixpoint select_loop (fuel : nat) (shed target out_cap : nat) (last : option (Z * nat)) (seen : nat)
    (out : list elem) : option (list elem) :=
  if (length out <? target)%nat && (length out <? out_cap)%nat then
    match fuel with
    | O => None
    | S fuel' =>
        let idx := bb_filter_find_next last in
        if (idx =? length inp)%nat then Some out else
        match inp !! idx with
        | Some (mk_elem (Some a) item) =>
            let last' := Some (priority a, idx) in
            let seen' := if deferrable a then S seen else seen in
            if deferrable a && (deferrable_total - seen' <? shed)%nat
            then select_loop fuel' shed target out_cap last' seen' out
            else select_loop fuel' shed target out_cap last' seen' (out ++ [mk_elem (Some a) item])
        | _ => None
        end
    end
  else Some out.
End Select.

(** [sz] is the number of values of size_t.  [out_ok]: [out] is not NULL.  The
    elements written. *)
Definition bb_filter_select (sz : Z) (inp : option (list elem)) (sel : option selector) (out_ok : bool)
    (out_cap : nat) : option (list elem) :=
  match inp, sel with
  | Some inp, Some sel =>
      if negb out_ok || (out_cap =? 0)%nat || (length inp =? 0)%nat then Some [] else
      let total := deferrable_total inp sel in
      let shed_count :=
        if (0 <? pressure sel) && (0 <? total)%nat
        then Z.to_nat (((Z.of_nat total * pressure sel) mod sz) / 255) else O in
      let target_count := if (max_count sel =? 0)%nat then length inp else max_count sel in
      select_loop inp sel (S (length inp)) shed_count target_count out_cap None 0 []
  | _, _ => Some []
  end.

Definition bb_filter_emit_decide (a : option attrs) (sel : option selector) (since_last_ms : Z) : emit_t :=
  match a, sel with
  | Some a, Some sel =>
      if pressure sel =? 0 then BB_FILTER_EMIT_NOW else
      if delivery_class a =? BB_ATTRS_DELIVERY_MUST
      then if since_last_ms =? 0 then BB_FILTER_EMIT_DEFER else BB_FILTER_EMIT_NOW else
      let floor_ms := u32 (pressure sel * BB_FILTER_PRESSURE_MS_PER_UNIT) in
      if u32 (floor_ms * 2) <=? since_last_ms then BB_FILTER_EMIT_DROP
      else if floor_ms <=? since_last_ms then BB_FILTER_EMIT_NOW
      else BB_FILTER_EMIT_DEFER
  | _, _ => BB_FILTER_EMIT_NOW
  end.

(** * Specification *)

(** A candidate: its index, its attributes, its element. *)
Record cand := mk_cand { c_index : nat; c_attrs : attrs; c_item : Z }.
Definition elem_of_cand (c : cand) : elem := mk_elem (Some (c_attrs c)) (c_item c).

Fixpoint candidates (sel : selector) (i : nat) (l : list elem) : list cand :=
  match l with
  | [] => []
  | e :: rest =>
      match gated sel e with
      | Some a => mk_cand i a (fe_item e) :: candidates sel (S i) rest
      | None => candidates sel (S i) rest
      end
  end.

(** Stable insertion sort by ascending priority. *)
Fixpoint insert_cand (c : cand) (l : list cand) : list cand :=
  match l with
  | [] => [c]
  | d :: rest => if priority (c_attrs c) <=? priority (c_attrs d) then c :: l else d :: insert_cand c rest
  end.
Definition by_priority (l : list cand) : list cand := fold_right insert_cand [] l.

(** Drop the first [k] deferrable candidates. *)
Fixpoint shed_first (k : nat) (l : list cand) : list cand :=
  match k, l with
  | O, _ | _, [] => l
  | S k', c :: rest => if deferrable (c_attrs c) then shed_first k' rest else c :: shed_first k rest
  end.
Definition shed_last (k : nat) (l : list cand) : list cand := rev (shed_first k (rev l)).

Definition deferrables (l : list cand) : nat := length (filter (fun c => deferrable (c_attrs c) = true) l).

(** Gate, sort, shed, truncate. *)
Definition filter_spec (inp : list elem) (sel : selector) (out_cap : nat) : list elem :=
  let sorted := by_priority (candidates sel 0 inp) in
  let shed := Z.to_nat (Z.of_nat (deferrables sorted) * pressure sel / 255) in
  let limit := if (max_count sel =? 0)%nat then out_cap else Nat.min (max_count sel) out_cap in
  take limit (map elem_of_cand (shed_last shed sorted)).

(** ** The sort *)

Definition lex_lt (c d : cand) : Prop :=
  priority (c_attrs c) < priority (c_attrs d) \/
  priority (c_attrs c) = priority (c_attrs d) /\ (c_index c < c_index d)%nat.

Lemma insert_perm c l : insert_cand c l ≡ₚ c :: l.
Proof. induction l as [|d l IH]; cbn; [done|]. destruct (_ <=? _); [done|]. rewrite IH. apply Permutation_swap. Qed.
Lemma by_priority_perm l : by_priority l ≡ₚ l.
Proof. induction l as [|c l IH]; cbn; [done|]. by rewrite insert_perm, IH. Qed.

Lemma insert_sorted c l : StronglySorted lex_lt l -> Forall (fun d => (c_index c < c_index d)%nat) l ->
  StronglySorted lex_lt (insert_cand c l).
Proof.
  intros Hs Hi. induction Hs as [|d l Hs IH Hd]; cbn; [repeat constructor|].
  apply Forall_cons_1 in Hi as [Hcd Hi]. destruct (Z.leb_spec (priority (c_attrs c)) (priority (c_attrs d))).
  - constructor; [by constructor|]. assert (lex_lt c d) by (unfold lex_lt; lia). constructor; [done|].
    eapply Forall_impl; [exact Hd|]. unfold lex_lt in *. cbn. lia.
  - constructor; [by apply IH|]. rewrite insert_perm. constructor; [unfold lex_lt; lia|done].
Qed.

Lemma candidates_index sel l : forall i, Forall (fun c => (i <= c_index c)%nat) (candidates sel i l).
Proof.
  induction l as [|e l IH]; intros i; cbn; [constructor|]. specialize (IH (S i)).
  assert (Forall (fun c => (i <= c_index c)%nat) (candidates sel (S i) l)) by (eapply Forall_impl; [exact IH|]; cbn; lia).
  destruct (gated sel e); [|done]. by constructor.
Qed.

Lemma by_priority_sorted sel l i : StronglySorted lex_lt (by_priority (candidates sel i l)).
Proof.
  revert i; induction l as [|e l IH]; intros i; cbn; [constructor|]. destruct (gated sel e) as [a|]; [|apply IH].
  cbn. apply insert_sorted; [apply IH|]. rewrite by_priority_perm. apply (candidates_index sel l (S i)).
Qed.

Lemma candidates_elem sel l c : forall i, c ∈ candidates sel i l <->
  exists j e, l !! j = Some e /\ gated sel e = Some (c_attrs c) /\ c_item c = fe_item e /\ c_index c = (i + j)%nat.
Proof.
  induction l as [|e l IH]; intros i; cbn.
  - split; [by intros ?%elem_of_nil|]. by intros (j & e & ? & _).
  - assert (Hrest : c ∈ candidates sel (S i) l <-> exists j e', l !! j = Some e' /\ gated sel e' = Some (c_attrs c) /\
      c_item c = fe_item e' /\ c_index c = (i + S j)%nat).
    { rewrite IH. by setoid_rewrite Nat.add_succ_r. }
    assert (Hsplit : (exists j e', (e :: l) !! j = Some e' /\ gated sel e' = Some (c_attrs c) /\ c_item c = fe_item e' /\
      c_index c = (i + j)%nat) <-> (gated sel e = Some (c_attrs c) /\ c_item c = fe_item e /\ c_index c = i) \/ c ∈ candidates sel (S i) l).
    { rewrite Hrest. split.
      - intros ([|j] & e' & H1 & H2); cbn in H1; [left|right; by exists j, e']. injection H1 as <-. rewrite Nat.add_0_r in H2. tauto.
      - intros [H|(j & e' & H)]; [exists 0%nat, e; by rewrite Nat.add_0_r|by exists (S j), e']. }
    rewrite Hsplit. destruct (gated sel e) as [a|] eqn:Eg.
    + rewrite elem_of_cons. split; [intros [->|H]; cbn; auto|]. intros [(H1 & H2 & H3)|H]; [left|by right].
      injection H1 as H1. destruct c; cbn in *; congruence.
    + split; [by right|]. by intros [(? & _)|H].
Qed.

(** ** The selection step *)

Section Step.
Context (inp : list elem) (sel : selector).
Abbreviation n := (length inp).

Definition is_cand (i : nat) (a : attrs) : Prop := exists e, inp !! i = Some e /\ gated sel e = Some a.

Lemma is_cand_inj i a b : is_cand i a -> is_cand i b -> a = b.
Proof. intros (e & H1 & H2) (e' & H1' & H2'). congruence. Qed.

Lemma gated_attrs e a : gated sel e = Some a -> fe_attrs e = Some a.
Proof. unfold gated. destruct (fe_attrs e); [|done]. by destruct (bb_filter_gate_pass _ _). Qed.

(** The least candidate after [last] among those below [i]. *)
Definition least_below (last : option (Z * nat)) (i r : nat) : Prop :=
  (r = n /\ forall j b, (j < i)%nat -> is_cand j b -> after_last last (priority b) j = false) \/
  exists a, (r < i)%nat /\ is_cand r a /\ after_last last (priority a) r = true /\
    forall j b, (j < i)%nat -> is_cand j b -> after_last last (priority b) j = true ->
      priority a < priority b \/ priority a = priority b /\ (r <= j)%nat.

Lemma find_next_from_least last rest : forall i best,
  drop i inp = rest -> least_below last i best -> (i <= n)%nat ->
  least_below last n (find_next_from inp sel last rest i best).
Proof.
  induction rest as [|e rest IH]; intros i best Hd Hb Hi; cbn [find_next_from].
  { assert (i = n) as -> by (apply (f_equal length) in Hd; rewrite length_drop in Hd; cbn in Hd; lia). done. }
  assert (He : inp !! i = Some e) by (rewrite <- (Nat.add_0_r i), <- lookup_drop, Hd; done).
  assert (Hlt : (i < n)%nat) by (by apply lookup_lt_Some in He).
  apply IH; [|clear IH|lia].
  { replace (S i) with (i + 1)%nat by lia. rewrite <- drop_drop, Hd. done. }
  assert (Hlast : forall j b, (j < S i)%nat -> is_cand j b -> (j < i)%nat \/ j = i /\ gated sel e = Some b).
  { intros j b Hj (e' & H1 & H2). destruct (Nat.eq_dec j i) as [->|]; [right|left; lia]. split; [done|congruence]. }
  destruct (gated sel e) as [a|] eqn:Eg.
  2: { destruct Hb as [[-> Hb]|(b & Hr & Hc & Ha & Hb)]; [left|right; exists b].
       - split; [done|]. intros j c Hj Hc. destruct (Hlast j c Hj Hc) as [?|[_ ?]]; [by apply (Hb j)|done].
       - split_and!; [lia|done|done|]. intros j c Hj Hc'. destruct (Hlast j c Hj Hc') as [?|[_ ?]]; [by apply Hb|done]. }
  assert (Hic : is_cand i a) by (by exists e).
  destruct (after_last last (priority a) i) eqn:Eal; cbn [negb].
  2: { destruct Hb as [[-> Hb]|(b & Hr & Hc & Ha & Hb)]; [left|right; exists b].
       - split; [done|]. intros j c Hj Hc. destruct (Hlast j c Hj Hc) as [?|[-> [= <-]]]; [by apply (Hb j)|done].
       - split_and!; [lia|done|done|]. intros j c Hj Hc'. destruct (Hlast j c Hj Hc') as [?|[-> [= <-]]]; [by apply Hb|congruence]. }
  destruct Hb as [[-> Hb]|(b & Hr & Hc & Ha & Hb)].
  - rewrite Nat.eqb_refl. right. exists a. split_and!; [lia|done|done|]. intros j c Hj Hc Hcl.
    destruct (Hlast j c Hj Hc) as [?|[-> [= <-]]]; [by rewrite (Hb j) in Hcl|lia].
  - destruct (Nat.eqb_spec best n); [lia|]. destruct Hc as (eb & H1 & H2). rewrite H1.
    pose proof (gated_attrs _ _ H2) as H3. destruct eb as [ea it]; cbn in H3. subst ea.
    assert (Hbc : is_cand best b) by (by eexists).
    destruct (Z.ltb_spec (priority a) (priority b)); right; [exists a|exists b]; (split_and!; [lia|done|done|]);
      intros j c Hj Hc Hcl; destruct (Hlast j c Hj Hc) as [?|[-> [= <-]]]; try lia;
      specialize (Hb j c ltac:(lia) Hc Hcl); lia.
Qed.

Lemma find_next_least last : least_below last n (bb_filter_find_next inp sel last).
Proof. apply find_next_from_least; [done| |lia]. left. split; [done|]. intros; lia. Qed.

(** ** Along the sorted candidates *)

Abbreviation sorted := (by_priority (candidates sel 0 inp)).

Lemma sorted_cand c : c ∈ sorted <-> is_cand (c_index c) (c_attrs c) /\ inp !! c_index c = Some (elem_of_cand c).
Proof.
  rewrite (elem_of_Permutation_proper c _ _ (by_priority_perm _)), candidates_elem. split.
  - intros (j & e & H1 & H2 & H3 & H4). cbn in H4. rewrite H4. split; [by exists e|]. rewrite H1. f_equal.
    apply gated_attrs in H2. destruct e; unfold elem_of_cand; cbn in *; congruence.
  - intros [(e & H1 & H2) H]. exists (c_index c), e. split_and!; try done. rewrite H in H1. injection H1 as <-. done.
Qed.

Definition pair_of (c : cand) : Z * nat := (priority (c_attrs c), c_index c).

Lemma after_pair d c : after_last (Some (pair_of d)) (priority (c_attrs c)) (c_index c) = true <-> lex_lt d c.
Proof. unfold lex_lt. cbn. rewrite orb_true_iff, andb_true_iff, Z.ltb_lt, Z.eqb_eq, Nat.ltb_lt. intuition lia. Qed.

Definition last_of (pre : list cand) : option (Z * nat) := pair_of <$> last pre.

Lemma after_pre pre suf c : StronglySorted lex_lt (pre ++ suf) -> c ∈ pre ++ suf ->
  after_last (last_of pre) (priority (c_attrs c)) (c_index c) = true <-> c ∈ suf.
Proof.
  intros Hs Hc. unfold last_of. destruct pre as [|d pre] using rev_ind; [cbn in *; done|]. clear IHpre.
  rewrite last_snoc. cbn [fmap option_fmap option_map]. rewrite after_pair. rewrite <- app_assoc in Hs, Hc. cbn in Hs, Hc.
  apply StronglySorted_app in Hs as (Hx & _ & Hd).
  apply StronglySorted_inv in Hd as [_ Hd]. rewrite Forall_forall in Hd. split; [|by apply Hd].
  intros Hlt. rewrite elem_of_app, elem_of_cons in Hc. destruct Hc as [Hc|[->|Hc]]; [| |done].
  - exfalso. specialize (Hx c d Hc ltac:(left)). unfold lex_lt in *. lia.
  - exfalso. unfold lex_lt in Hlt. lia.
Qed.

Lemma find_next_sorted pre suf : sorted = pre ++ suf ->
  bb_filter_find_next inp sel (last_of pre) = match suf with [] => n | c :: _ => c_index c end.
Proof.
  intros Hs. pose proof (by_priority_sorted sel inp 0) as Hss. rewrite Hs in Hss.
  assert (Hin : forall i a, is_cand i a -> exists c, c ∈ pre ++ suf /\ c_index c = i /\ c_attrs c = a).
  { intros i a (e & H1 & H2). exists (mk_cand i a (fe_item e)). split; [|done]. rewrite <- Hs. apply sorted_cand.
    split; [by exists e|]. cbn. rewrite H1. f_equal. apply gated_attrs in H2. destruct e; cbn in *; by subst. }
  destruct (find_next_least (last_of pre)) as [[-> Hno]|(a & Hr & Hc & Ha & Hmin)].
  - destruct suf as [|c suf]; [done|]. exfalso.
    assert (Hc : c ∈ pre ++ c :: suf) by (apply elem_of_app; right; left).
    assert (Hcc : is_cand (c_index c) (c_attrs c)) by (apply sorted_cand; by rewrite Hs).
    destruct Hcc as (e & He & Hg). pose proof (lookup_lt_Some _ _ _ He) as Hl.
    pose proof (Hno (c_index c) (c_attrs c) Hl ltac:(by exists e)) as H.
    rewrite (proj2 (after_pre pre (c :: suf) c Hss Hc)) in H by left. done.
  - destruct (Hin _ _ Hc) as (d & Hd & Hdi & Hda). rewrite <- Hdi, <- Hda in Ha.
    pose proof (proj1 (after_pre pre suf d Hss Hd) Ha) as Hds.
    destruct suf as [|c suf]; [by apply elem_of_nil in Hds|].
    assert (Hcin : c ∈ pre ++ c :: suf) by (apply elem_of_app; right; left).
    assert (Hcc : is_cand (c_index c) (c_attrs c)) by (apply sorted_cand; by rewrite Hs).
    pose proof (proj2 (after_pre pre (c :: suf) c Hss Hcin) ltac:(left)) as Hca.
    destruct Hcc as (e & He & Hg). pose proof (lookup_lt_Some _ _ _ He) as Hl.
    specialize (Hmin (c_index c) (c_attrs c) Hl ltac:(by exists e) Hca).
    apply elem_of_cons in Hds as [->|Hds]; [done|].
    apply StronglySorted_app in Hss as (_ & _ & Hss). apply StronglySorted_inv in Hss as [_ Hss].
    rewrite Forall_forall in Hss. specialize (Hss d Hds). unfold lex_lt in Hss. subst a. lia.
Qed.
End Step.

(** ** The loop *)

Lemma deferrables_app l l' : deferrables (l ++ l') = (deferrables l + deferrables l')%nat.
Proof. unfold deferrables. by rewrite filter_app, length_app. Qed.
Lemma deferrables_cons c l : deferrables (c :: l) = ((if deferrable (c_attrs c) then 1 else 0) + deferrables l)%nat.
Proof. unfold deferrables. rewrite filter_cons. case_decide as H; [by rewrite H|]. by destruct (deferrable (c_attrs c)). Qed.
Lemma deferrables_perm l l' : l ≡ₚ l' -> deferrables l = deferrables l'.
Proof. intros H. unfold deferrables. by rewrite H. Qed.

Lemma shed_first_0 l : shed_first 0 l = l.
Proof. by destruct l. Qed.

Lemma shed_first_snoc l c : forall k, shed_first k (l ++ [c]) =
  shed_first k l ++ (if deferrable (c_attrs c) && (deferrables l <? k)%nat then [] else [c]).
Proof.
  induction l as [|d l IH]; intros k.
  - destruct k as [|k]; cbn [app shed_first]; [by rewrite andb_false_r|].
    destruct (deferrable (c_attrs c)); by destruct k.
  - cbn [app]. destruct k as [|k]; [by rewrite !shed_first_0, andb_false_r|]. cbn [shed_first].
    rewrite deferrables_cons. destruct (deferrable (c_attrs d)).
    + rewrite IH. done.
    + rewrite (IH (S k)). done.
Qed.

Lemma shed_last_cons k c l :
  shed_last k (c :: l) = (if deferrable (c_attrs c) && (deferrables l <? k)%nat then [] else [c]) ++ shed_last k l.
Proof.
  unfold shed_last. cbn [rev]. rewrite shed_first_snoc, rev_app_distr.
  rewrite (deferrables_perm (rev l) l) by (symmetry; apply Permutation_rev). by destruct (_ && _).
Qed.

Lemma shed_last_nil k : shed_last k [] = [].
Proof. by destruct k. Qed.

Lemma deferrable_total_spec inp sel : deferrable_total inp sel = deferrables (by_priority (candidates sel 0 inp)).
Proof.
  rewrite (deferrables_perm _ _ (by_priority_perm _)). unfold deferrable_total. generalize 0%nat as i.
  induction inp as [|e l IH]; intros i; [done|]. cbn [candidates]. rewrite filter_cons.
  destruct (gated sel e) as [a|]; [|case_decide; [done|apply IH]].
  rewrite deferrables_cons. cbn [c_attrs]. case_decide as H; [rewrite H|]; cbn [length]; rewrite (IH (S i)); [done|].
  by destruct (deferrable a).
Qed.

Section Loop.
Context (inp : list elem) (sel : selector).
Abbreviation sorted := (by_priority (candidates sel 0 inp)).

Lemma last_of_snoc pre c : last_of (pre ++ [c]) = Some (priority (c_attrs c), c_index c).
Proof. unfold last_of. by rewrite last_snoc. Qed.

Lemma select_loop_spec shed target out_cap suf : forall fuel pre out,
  sorted = pre ++ suf -> (length suf < fuel)%nat -> (length out <= Nat.min target out_cap)%nat ->
  select_loop inp sel fuel shed target out_cap (last_of pre) (deferrables pre) out =
  Some (take (Nat.min target out_cap) (out ++ map elem_of_cand (shed_last shed suf))).
Proof.
  induction suf as [|c suf IH]; intros fuel pre out Hs Hf Hl; (destruct fuel as [|fuel]; [lia|]); cbn [select_loop].
  - rewrite (find_next_sorted inp sel pre [] Hs), Nat.eqb_refl.
    rewrite shed_last_nil. cbn [map]. rewrite app_nil_r, take_ge by lia.
    by destruct (_ && _).
  - destruct (Nat.ltb_spec (length out) target), (Nat.ltb_spec (length out) out_cap); cbn [andb];
      try (rewrite take_app_le by lia; by rewrite take_ge by lia).
    rewrite (find_next_sorted inp sel pre (c :: suf) Hs).
    assert (Hc : c ∈ sorted) by (rewrite Hs; apply elem_of_app; right; left).
    apply sorted_cand in Hc as [(e & He & _) Hc]. pose proof (lookup_lt_Some _ _ _ He) as Hlt.
    destruct (Nat.eqb_spec (c_index c) (length inp)); [lia|]. rewrite Hc. unfold elem_of_cand at 1.
    rewrite shed_last_cons, deferrable_total_spec, Hs, deferrables_app, deferrables_cons.
    assert (Hs' : sorted = (pre ++ [c]) ++ suf) by (by rewrite <- app_assoc).
    assert (Hd : deferrables (pre ++ [c]) = if deferrable (c_attrs c) then S (deferrables pre) else deferrables pre).
    { rewrite deferrables_app, deferrables_cons. destruct (deferrable (c_attrs c)); cbn; lia. }
    rewrite <- last_of_snoc with (pre := pre). cbv zeta.
    destruct (deferrable (c_attrs c)); rewrite <- Hd.
    + replace (deferrables pre + (1 + deferrables suf) - deferrables (pre ++ [c]))%nat with (deferrables suf) by (rewrite Hd; lia).
      cbn [andb]. destruct (deferrables suf <? shed)%nat.
      * cbn [app]. apply IH; [done|cbn in Hf; lia|done].
      * rewrite IH; [|done|cbn in Hf; lia|rewrite length_app; cbn; lia]. by rewrite <- app_assoc.
    + cbn [andb]. rewrite IH; [|done|cbn in Hf; lia|rewrite length_app; cbn; lia]. by rewrite <- app_assoc.
Qed.

Lemma candidates_length l : forall i, (length (candidates sel i l) <= length l)%nat.
Proof. induction l as [|e l IH]; intros i; cbn; [lia|]. specialize (IH (S i)). destruct (gated sel e); cbn; lia. Qed.
End Loop.

Lemma deferrables_length l : (deferrables l <= length l)%nat.
Proof. apply length_filter. Qed.

Lemma shed_first_length k l : (length (shed_first k l) <= length l)%nat.
Proof.
  revert k; induction l as [|c l IH]; intros [|k]; cbn; try lia. destruct (deferrable (c_attrs c)); cbn.
  - specialize (IH k). lia.
  - specialize (IH (S k)). lia.
Qed.
Lemma shed_last_length k l : (length (shed_last k l) <= length l)%nat.
Proof. unfold shed_last. rewrite length_rev. pose proof (shed_first_length k (rev l)). rewrite length_rev in *. lia. Qed.

(** * Properties *)

(** Selection.  For every input array, selector and capacity (with the
    shed product within size_t and pressure a uint8_t) the call returns and
    writes what the specification says: the gated elements in ascending
    priority, equal priorities in input order, without the last
    floor(deferrable * pressure / 255) deferrable ones, cut to [max_count]
    and to the capacity.  The loop finds the order with no storage, one scan
    per element.  A NULL argument writes nothing. *)
Theorem bb_filter_select_spec sz inp sel out_ok out_cap :
  255 * Z.of_nat (length (default [] inp)) < sz -> match sel with Some s => 0 <= pressure s < 256 | None => True end ->
  bb_filter_select sz inp sel out_ok out_cap =
  Some (match inp, sel with
        | Some inp, Some sel => if out_ok then filter_spec inp sel out_cap else []
        | _, _ => []
        end).
Proof.
  destruct inp as [inp|]; [|done]. destruct sel as [sel|]; [|done]. intros Hsz Hp. change (default [] (Some inp)) with inp in Hsz.
  unfold bb_filter_select. destruct out_ok; [|done]. cbn [negb orb].
  set (sorted := by_priority (candidates sel 0 inp)).
  assert (Hlen : (length sorted <= length inp)%nat).
  { subst sorted. rewrite (Permutation_length (by_priority_perm _)). apply candidates_length. }
  destruct (Nat.eqb_spec out_cap 0) as [->|Hc]; cbn [orb].
  { unfold filter_spec. destruct (max_count sel =? 0)%nat; by rewrite ?Nat.min_0_r. }
  destruct (Nat.eqb_spec (length inp) 0) as [H0|H0].
  { destruct inp; [|done]. unfold filter_spec. rewrite shed_last_nil. by destruct (if (max_count sel =? 0)%nat then _ else _). }
  cbv zeta. rewrite (deferrable_total_spec inp sel). fold sorted.
  assert (Hshed : (if (0 <? pressure sel) && (0 <? deferrables sorted)%nat
    then Z.to_nat (((Z.of_nat (deferrables sorted) * pressure sel) mod sz) / 255) else O) =
    Z.to_nat (Z.of_nat (deferrables sorted) * pressure sel / 255)).
  { pose proof (deferrables_length sorted). rewrite Z.mod_small by nia.
    destruct (Z.ltb_spec 0 (pressure sel)); cbn [andb]; [|replace (pressure sel) with 0 by lia; by rewrite Z.mul_0_r].
    destruct (Nat.ltb_spec 0 (deferrables sorted)); [done|]. by replace (deferrables sorted) with 0%nat by lia. }
  rewrite Hshed.
  pose proof (select_loop_spec inp sel (Z.to_nat (Z.of_nat (deferrables sorted) * pressure sel / 255))
    (if (max_count sel =? 0)%nat then length inp else max_count sel) out_cap sorted (S (length inp)) [] []
    eq_refl ltac:(lia) ltac:(cbn; lia)) as H.
  cbn [last_of last fmap option_fmap option_map deferrables filter app] in H.
  change (deferrables []) with O in H. rewrite H. f_equal. unfold filter_spec. fold sorted.
  destruct (max_count sel =? 0)%nat; [|done].
  set (l := map _ _). assert (length l <= length inp)%nat.
  { subst l. rewrite length_map. pose proof (shed_last_length (Z.to_nat (Z.of_nat (deferrables sorted) * pressure sel / 255)) sorted). lia. }
  destruct (Nat.le_ge_cases (length inp) out_cap); [|by rewrite Nat.min_r by lia].
  rewrite Nat.min_l by lia. by rewrite !take_ge by lia.
Qed.

Definition wit_in : list elem :=
  [mk_elem (Some (mk_attrs 5 1 1 1)) 10; mk_elem (Some (mk_attrs 2 1 1 0)) 11; mk_elem None 12;
   mk_elem (Some (mk_attrs 5 1 1 0)) 13; mk_elem (Some (mk_attrs 1 1 1 1)) 14; mk_elem (Some (mk_attrs 9 1 1 0)) 15].
Definition wit_sel : selector := mk_selector 0 8 2 0 128 0.
Lemma bb_filter_select_spec_witness :
  map fe_item (filter_spec wit_in wit_sel 8) = [14; 11; 13] /\
  bb_filter_select (2 ^ 32) (Some wit_in) (Some wit_sel) true 8 = Some (filter_spec wit_in wit_sel 8).
Proof.
  split; [vm_compute; reflexivity|].
  apply (bb_filter_select_spec (2 ^ 32) (Some wit_in) (Some wit_sel) true 8); [vm_compute; reflexivity|cbn; lia].
Defined.

(** Emission.  In exact arithmetic, at every pressure: MUST elements are
    never dropped and wait only right after an emission; deferrable ones wait
    below the floor of 100 ms per unit of pressure, go out up to twice the
    floor, and are dropped from there; without pressure everything goes out. *)
Theorem bb_filter_emit_decide_spec a sel t :
  0 <= pressure sel < 256 ->
  bb_filter_emit_decide (Some a) (Some sel) t =
  if pressure sel =? 0 then BB_FILTER_EMIT_NOW
  else if delivery_class a =? BB_ATTRS_DELIVERY_MUST then (if t =? 0 then BB_FILTER_EMIT_DEFER else BB_FILTER_EMIT_NOW)
  else if t <? 100 * pressure sel then BB_FILTER_EMIT_DEFER
  else if t <? 200 * pressure sel then BB_FILTER_EMIT_NOW else BB_FILTER_EMIT_DROP.
Proof.
  intros Hp. unfold bb_filter_emit_decide, BB_FILTER_PRESSURE_MS_PER_UNIT.
  destruct (Z.eqb_spec (pressure sel) 0); [done|]. destruct (delivery_class a =? BB_ATTRS_DELIVERY_MUST); [done|].
  rewrite (u32_small (pressure sel * 100)) by lia. rewrite u32_small by lia. zcases; done.
Qed.
Lemma bb_filter_emit_decide_spec_witness :
  bb_filter_emit_decide (Some (mk_attrs 5 1 1 1)) (Some wit_sel) 25600 = BB_FILTER_EMIT_DROP.
Proof. rewrite (bb_filter_emit_decide_spec _ wit_sel 25600 ltac:(cbn; lia)). reflexivity. Defined.
