(* ===== verification/Storage.v ===== *)
(** The key/value storage facade and its in-RAM backend:
    platform/host/bb_storage/bb_storage.c and
    platform/host/bb_storage_ram/bb_storage_ram.c. *)
From Stdlib Require Import Strings.String.
From S2P Require Import Prelude Bytes.

(** * Addresses, transactions, backends (bb_storage.h) *)

Definition BB_STORAGE_MAX_BACKENDS : nat := 4.
Definition BB_STORAGE_TXN_VALUE_MAX_BYTES : nat := 64.
Definition BB_STORAGE_TXN_KEY_MAX_BYTES : nat := 32.

(** A C string without its NUL; [None]: NULL. *)
Abbreviation cstring := (list byte).
Record addr := mk_addr { a_backend : option cstring; a_ns_or_dir : option cstring; a_key : option cstring }.

Inductive storage_enc : Set :=
  | BB_STORAGE_ENC_BLOB | BB_STORAGE_ENC_STR | BB_STORAGE_ENC_U8 | BB_STORAGE_ENC_U16
  | BB_STORAGE_ENC_U32 | BB_STORAGE_ENC_I32.

(** A staged slot; [None] is [used = false]. *)
Record txn_slot := mk_slot { sl_key : cstring; sl_value : list byte; sl_enc : storage_enc }.
(** What a backend sees of a transaction: [_err], [_open], [_slots] ([_cap] is
    their number). *)
Record txn := mk_txn { tx_err : bb_err; tx_open : bool; tx_slots : list (option txn_slot) }.

(** What a read answers: the code, the bytes copied, [*out_len] if written. *)
Definition read_res : Type := bb_err * list byte * option nat.

(** [W] is the state behind the backends.  [None]: a NULL member. *)
Record vtable (W : Type) := mk_vtable {
  vt_get : option (addr -> nat -> W -> read_res);
  vt_set : option (addr -> list byte -> W -> bb_err * W);
  vt_erase : option (addr -> W -> bb_err * W);
  vt_exists : option (addr -> W -> bool);
  vt_erase_namespace : option (cstring -> W -> bb_err * W);
  vt_erase_all : option (W -> bb_err * W);
  vt_get_typed : option (addr -> storage_enc -> nat -> W -> read_res);
  vt_set_typed : option (addr -> storage_enc -> list byte -> W -> bb_err * W);
  vt_txn_begin : option (cstring -> txn -> bb_err * txn);
  vt_txn_set : option (txn -> cstring -> storage_enc -> list byte -> bb_err * txn);
  vt_txn_commit : option (txn -> W -> bb_err * txn * W);
  vt_txn_abort : option (txn -> bb_err * txn);
  vt_list_entries : bool;
  vt_get_stats : bool
}.
Arguments mk_vtable {W}. Arguments vt_get {W}. Arguments vt_set {W}. Arguments vt_erase {W}.
Arguments vt_exists {W}. Arguments vt_erase_namespace {W}. Arguments vt_erase_all {W}.
Arguments vt_get_typed {W}. Arguments vt_set_typed {W}. Arguments vt_txn_begin {W}.
Arguments vt_txn_set {W}. Arguments vt_txn_commit {W}. Arguments vt_txn_abort {W}.
Arguments vt_list_entries {W}. Arguments vt_get_stats {W}.

Definition is_some {A} (o : option A) : bool := match o with Some _ => true | None => false end.

(** The first position whose element satisfies [f]: the table scans. *)
Fixpoint find_pos {A} (f : A -> bool) (l : list A) : option nat :=
  match l with
  | [] => None
  | x :: rest => if f x then Some O else option_map S (find_pos f rest)
  end.
(** * The facade *)

Section Facade.
Context {W : Type}.

(** [s_backends[0..s_count)]. *)
Definition registry : Type := list (cstring * vtable W).

Definition bb_storage_register_backend (name : option cstring) (vt : option (vtable W)) (reg : registry)
  : bb_err * registry :=
  match name, vt with
  | Some name, Some vt =>
      if negb (is_some (vt_get vt) && is_some (vt_set vt) && is_some (vt_erase vt) && is_some (vt_exists vt))
      then (BB_ERR_INVALID_ARG, reg) else
      if negb (Bool.eqb (is_some (vt_get_typed vt)) (is_some (vt_set_typed vt))) then (BB_ERR_INVALID_ARG, reg) else
      let txn_set_count := (Nat.b2n (is_some (vt_txn_begin vt)) + Nat.b2n (is_some (vt_txn_set vt)) +
                            Nat.b2n (is_some (vt_txn_commit vt)) + Nat.b2n (is_some (vt_txn_abort vt)))%nat in
      if negb (txn_set_count =? 0)%nat && negb (txn_set_count =? 4)%nat then (BB_ERR_INVALID_ARG, reg) else
      if negb (Bool.eqb (vt_list_entries vt) (vt_get_stats vt)) then (BB_ERR_INVALID_ARG, reg) else
      if existsb (fun e => bool_decide (e.1 = name)) reg then (BB_ERR_INVALID_STATE, reg) else
      if (BB_STORAGE_MAX_BACKENDS <=? length reg)%nat then (BB_ERR_NO_SPACE, reg) else
      (BB_OK, reg ++ [(name, vt)])
  | _, _ => (BB_ERR_INVALID_ARG, reg)
  end.

Fixpoint find_backend (reg : registry) (name : cstring) : option (vtable W) :=
  match reg with
  | [] => None
  | (n, vt) :: rest => if bool_decide (n = name) then Some vt else find_backend rest name
  end.

(** The backend an address names, or the error of the argument check ([ok] is
    the check's remaining part). *)
Definition resolve (reg : registry) (a : option addr) (ok : bool) : bb_err + addr * vtable W :=
  match a with
  | None => inl BB_ERR_INVALID_ARG
  | Some a =>
      match a_backend a with
      | None => inl BB_ERR_INVALID_ARG
      | Some b =>
          if negb ok then inl BB_ERR_INVALID_ARG else
          match find_backend reg b with None => inl BB_ERR_NOT_FOUND | Some vt => inr (a, vt) end
      end
  end.

(** [buf_ok], [len_ok]: the pointer is not NULL.  A registered backend has its
    four required members. *)
Definition bb_storage_get (reg : registry) (a : option addr) (buf_ok : bool) (cap : nat) (len_ok : bool) (w : W) : read_res :=
  match resolve reg a (len_ok && ((cap =? 0)%nat || buf_ok)) with
  | inl e => (e, [], None)
  | inr (a, vt) => match vt_get vt with Some f => f a cap w | None => (BB_ERR_INVALID_STATE, [], None) end
  end.

Definition bb_storage_set (reg : registry) (a : option addr) (buf : option (list byte)) (len : nat) (w : W) : bb_err * W :=
  match resolve reg a ((len =? 0)%nat || is_some buf) with
  | inl e => (e, w)
  | inr (a, vt) => match vt_set vt with Some f => f a (take len (default [] buf)) w | None => (BB_ERR_INVALID_STATE, w) end
  end.

Definition bb_storage_erase (reg : registry) (a : option addr) (w : W) : bb_err * W :=
  match resolve reg a true with
  | inl e => (e, w)
  | inr (a, vt) => match vt_erase vt with Some f => f a w | None => (BB_ERR_INVALID_STATE, w) end
  end.

Definition bb_storage_erase_namespace (reg : registry) (backend ns : option cstring) (w : W) : bb_err * W :=
  match backend, ns with
  | Some b, Some ns =>
      match find_backend reg b with
      | None => (BB_ERR_NOT_FOUND, w)
      | Some vt => match vt_erase_namespace vt with None => (BB_ERR_UNSUPPORTED, w) | Some f => f ns w end
      end
  | _, _ => (BB_ERR_INVALID_ARG, w)
  end.

Definition bb_storage_erase_all (reg : registry) (backend : option cstring) (w : W) : bb_err * W :=
  match backend with
  | Some b =>
      match find_backend reg b with
      | None => (BB_ERR_NOT_FOUND, w)
      | Some vt => match vt_erase_all vt with None => (BB_ERR_UNSUPPORTED, w) | Some f => f w end
      end
  | None => (BB_ERR_INVALID_ARG, w)
  end.

Definition bb_storage_exists (reg : registry) (a : option addr) (w : W) : bool :=
  match resolve reg a true with
  | inl _ => false
  | inr (a, vt) => match vt_exists vt with Some f => f a w | None => false end
  end.

Definition bb_storage_get_typed (reg : registry) (a : option addr) (enc : storage_enc) (buf_ok : bool) (cap : nat)
    (len_ok : bool) (w : W) : read_res :=
  match resolve reg a (len_ok && ((cap =? 0)%nat || buf_ok)) with
  | inl e => (e, [], None)
  | inr (a', vt) =>
      match vt_get_typed vt with
      | Some f => f a' enc cap w
      | None => match vt_get vt with Some f => f a' cap w | None => (BB_ERR_INVALID_STATE, [], None) end
      end
  end.

Definition bb_storage_set_typed (reg : registry) (a : option addr) (enc : storage_enc) (buf : option (list byte))
    (len : nat) (w : W) : bb_err * W :=
  match resolve reg a ((len =? 0)%nat || is_some buf) with
  | inl e => (e, w)
  | inr (a', vt) =>
      match vt_set_typed vt with
      | Some f => f a' enc (take len (default [] buf)) w
      | None => match vt_set vt with Some f => f a' (take len (default [] buf)) w | None => (BB_ERR_INVALID_STATE, w) end
      end
  end.

(** ** Transactions *)

(** A transaction with the backend functions captured at begin. *)
Record txn_handle := mk_handle { th_txn : txn; th_vt : option (vtable W) }.
Definition txn0 : txn := mk_txn BB_OK false [].
Definition set_txn (t : txn) (h : txn_handle) : txn_handle := mk_handle t (th_vt h).

(** [slots]: the number of caller-owned slots, or NULL. *)
Definition bb_storage_txn_begin (reg : registry) (backend ns : option cstring) (h : option txn_handle)
    (slots_ok : bool) (cap : nat) : bb_err * option txn_handle :=
  match backend, ns, h with
  | Some b, Some ns, Some h0 =>
      if (0 <? cap)%nat && negb slots_ok then (BB_ERR_INVALID_ARG, h) else
      if tx_open (th_txn h0) then (BB_ERR_INVALID_STATE, h) else
      match find_backend reg b with
      | None => (BB_ERR_NOT_FOUND, h)
      | Some vt =>
          match vt_txn_begin vt with
          | None => (BB_ERR_UNSUPPORTED, h)
          | Some f =>
              let '(e, t) := f ns (mk_txn BB_OK false (repeat None cap)) in
              (e, Some (mk_handle t (Some vt)))
          end
      end
  | _, _, _ => (BB_ERR_INVALID_ARG, h)
  end.

Definition set_tx_err (e : bb_err) (t : txn) : txn := mk_txn e (tx_open t) (tx_slots t).

Definition bb_storage_txn_set (h : option txn_handle) (key : option cstring) (enc : storage_enc) (buf : list byte)
  : bb_err * option txn_handle :=
  match h, key with
  | Some h0, Some key =>
      let t := th_txn h0 in
      if negb (tx_open t) then (BB_ERR_INVALID_STATE, h) else
      if negb (is_ok (tx_err t)) then (tx_err t, h) else
      match th_vt h0 with
      | Some vt =>
          match vt_txn_set vt with
          | Some f =>
              let '(e, t1) := f t key enc buf in
              (e, Some (set_txn (if is_ok e then t1 else set_tx_err e t1) h0))
          | None => (BB_ERR_INVALID_STATE, h)
          end
      | None => (BB_ERR_INVALID_STATE, h)
      end
  | _, _ => (BB_ERR_INVALID_ARG, h)
  end.

Definition bb_storage_txn_commit (h : option txn_handle) (w : W) : bb_err * option txn_handle * W :=
  match h with
  | Some h0 =>
      let t := th_txn h0 in
      if negb (tx_open t) then (BB_ERR_INVALID_STATE, h, w) else
      match th_vt h0 with
      | Some vt =>
          match vt_txn_commit vt with
          | Some f =>
              let '(e, t1, w1) := f t w in
              (e, Some (set_txn (if negb (is_ok e) && is_ok (tx_err t1) then set_tx_err e t1 else t1) h0), w1)
          | None => (BB_ERR_INVALID_STATE, h, w)
          end
      | None => (BB_ERR_INVALID_STATE, h, w)
      end
  | None => (BB_ERR_INVALID_ARG, h, w)
  end.

Definition bb_storage_txn_abort (h : option txn_handle) : bb_err * option txn_handle :=
  match h with
  | Some h0 =>
      if negb (tx_open (th_txn h0)) then (BB_OK, h) else
      match th_vt h0 with
      | Some vt =>
          match vt_txn_abort vt with
          | Some f => let '(e, t1) := f (th_txn h0) in (e, Some (set_txn t1 h0))
          | None => (BB_ERR_INVALID_STATE, h)
          end
      | None => (BB_ERR_INVALID_STATE, h)
      end
  | None => (BB_ERR_INVALID_ARG, h)
  end.
End Facade.

(** ** The shared staging of slots *)

Definition holds_key (key : cstring) (s : option txn_slot) : bool :=
  match s with Some s => bool_decide (sl_key s = key) | None => false end.

Definition bb_storage_txn_slot_stage (t : txn) (key : cstring) (enc : storage_enc) (buf : list byte) : bb_err * txn :=
  if (BB_STORAGE_TXN_VALUE_MAX_BYTES <? length buf)%nat then (BB_ERR_NO_SPACE, t) else
  if (BB_STORAGE_TXN_KEY_MAX_BYTES <=? length key)%nat then (BB_ERR_INVALID_ARG, t) else
  let slot_idx := match find_pos (holds_key key) (tx_slots t) with
                  | Some i => Some i
                  | None => find_pos (fun s => negb (is_some s)) (tx_slots t)
                  end in
  match slot_idx with
  | None => (BB_ERR_NO_SPACE, t)
  | Some i => (BB_OK, mk_txn (tx_err t) (tx_open t) (<[i := Some (mk_slot key buf enc)]> (tx_slots t)))
  end.

(** * The RAM backend (bb_storage_ram.c) *)

Definition BB_STORAGE_RAM_MAX_ENTRIES : nat := 32.
Definition BB_STORAGE_RAM_MAX_VALUE_BYTES : nat := 256.
Definition BB_STORAGE_RAM_MAX_KEY_BYTES : nat := 64.

(** [s_entries]; [None] is [used = false]. *)
Abbreviation ram_entries := (list (option (cstring * list byte))).
(** The table after bb_storage_ram_test_reset. *)
Definition ram_empty : ram_entries := repeat None BB_STORAGE_RAM_MAX_ENTRIES.

Definition entry_is (key : cstring) (e : option (cstring * list byte)) : bool :=
  match e with Some e => bool_decide (e.1 = key) | None => false end.
Definition find_entry (es : ram_entries) (key : option cstring) : option nat :=
  match key with Some key => find_pos (entry_is key) es | None => None end.
Definition find_free_slot (es : ram_entries) : option nat := find_pos (fun e => negb (is_some e)) es.

Definition ram_get (a : addr) (cap : nat) (es : ram_entries) : read_res :=
  match find_entry es (a_key a) with
  | Some i =>
      match es !! i with
      | Some (Some (_, v)) => (BB_OK, take cap v, Some (length v))
      | _ => (BB_ERR_NOT_FOUND, [], None)
      end
  | None => (BB_ERR_NOT_FOUND, [], None)
  end.

Definition ram_set (a : addr) (buf : list byte) (es : ram_entries) : bb_err * ram_entries :=
  match a_key a with
  | None => (BB_ERR_INVALID_ARG, es)
  | Some key =>
      if (BB_STORAGE_RAM_MAX_KEY_BYTES <=? length key)%nat then (BB_ERR_INVALID_ARG, es) else
      if (BB_STORAGE_RAM_MAX_VALUE_BYTES <? length buf)%nat then (BB_ERR_NO_SPACE, es) else
      match find_entry es (Some key) with
      | Some i => (BB_OK, <[i := Some (key, buf)]> es)
      | None =>
          match find_free_slot es with
          | None => (BB_ERR_NO_SPACE, es)
          | Some i => (BB_OK, <[i := Some (key, buf)]> es)
          end
      end
  end.

Definition ram_erase (a : addr) (es : ram_entries) : bb_err * ram_entries :=
  match find_entry es (a_key a) with
  | Some i => (BB_OK, <[i := None]> es)
  | None => (BB_OK, es)
  end.

Definition ram_exists (a : addr) (es : ram_entries) : bool := is_some (find_entry es (a_key a)).

Definition ram_txn_begin (ns : cstring) (t : txn) : bb_err * txn :=
  (BB_OK, mk_txn BB_OK true (repeat None (length (tx_slots t)))).

Definition ram_txn_set (t : txn) (key : cstring) (enc : storage_enc) (buf : list byte) : bb_err * txn :=
  bb_storage_txn_slot_stage t key enc buf.

Definition staged (slots : list (option txn_slot)) : list txn_slot := omap id slots.

(** One staged write; the capacity has been checked. *)
Definition ram_apply (es : ram_entries) (s : txn_slot) : ram_entries :=
  match find_entry es (Some (sl_key s)) with
  | Some i => <[i := Some (sl_key s, sl_value s)]> es
  | None =>
      match find_free_slot es with
      | Some i => <[i := Some (sl_key s, sl_value s)]> es
      | None => es
      end
  end.

Definition close_txn (t : txn) : txn := mk_txn (tx_err t) false (tx_slots t).

Definition ram_txn_commit (t : txn) (es : ram_entries) : bb_err * txn * ram_entries :=
  if negb (is_ok (tx_err t)) then (tx_err t, close_txn t, es) else
  let new_keys_needed :=
    length (filter (fun s => is_some (find_entry es (Some (sl_key s))) = false) (staged (tx_slots t))) in
  let free_count := length (filter (fun e => is_some e = false) es) in
  if (free_count <? new_keys_needed)%nat then (BB_ERR_NO_SPACE, close_txn t, es) else
  (BB_OK, close_txn t, fold_left ram_apply (staged (tx_slots t)) es).

Definition ram_txn_abort (t : txn) : bb_err * txn := (BB_OK, close_txn t).

Definition s_ram_vtable : vtable ram_entries :=
  mk_vtable (Some ram_get) (Some ram_set) (Some ram_erase) (Some ram_exists) None None None None
    (Some ram_txn_begin) (Some ram_txn_set) (Some ram_txn_commit) (Some ram_txn_abort) false false.

Definition bb_storage_ram_register (reg : registry (W := ram_entries)) : bb_err * registry :=
  bb_storage_register_backend (Some (bs "ram")) (Some s_ram_vtable) reg.


(** * The table as a finite map *)

Lemma find_pos_Some {A} (f : A -> bool) l i : find_pos f l = Some i -> exists x, l !! i = Some x /\ f x = true.
Proof.
  revert i; induction l as [|x l IH]; intros i; cbn; [done|]. destruct (f x) eqn:E; [by intros [= <-]; exists x|].
  destruct (find_pos f l) as [j|]; [|done]. cbn. intros [= <-]. by apply IH.
Qed.
Lemma find_pos_None {A} (f : A -> bool) l : find_pos f l = None -> Forall (fun x => f x = false) l.
Proof.
  induction l as [|x l IH]; cbn; [constructor|]. destruct (f x) eqn:E; [done|].
  destruct (find_pos f l); [done|]. intros _. constructor; auto.
Qed.

Definition pairs (es : ram_entries) : list (cstring * list byte) := omap id es.
Definition store_of (es : ram_entries) : gmap cstring (list byte) := list_to_map (pairs es).

(** Keys are distinct; the table has its length. *)
Record ram_wf (es : ram_entries) : Prop := {
  rw_length : length es = BB_STORAGE_RAM_MAX_ENTRIES;
  rw_nodup : NoDup (pairs es).*1
}.

(** A slot of the table, and the table with the slot rewritten. *)
Lemma slot_split {A} (es : list (option A)) i x : es !! i = Some x ->
  exists rest, omap id es ≡ₚ option_list x ++ rest /\
    forall y, omap id (<[i:=y]> es) ≡ₚ option_list y ++ rest.
Proof.
  intros H. pose proof (lookup_lt_Some _ _ _ H) as Hl. exists (omap id (take i es ++ drop (S i) es)).
  assert (Hall : forall y, omap id (take i es ++ y :: drop (S i) es) ≡ₚ option_list y ++ omap id (take i es ++ drop (S i) es)).
  { intros y. rewrite !omap_app. cbn. destruct y as [y|]; cbn; [|done]. by rewrite Permutation_middle. }
  split.
  - rewrite <- (take_drop_middle es i x H) at 1. apply Hall.
  - intros y. rewrite insert_take_drop by done. apply Hall.
Qed.

Lemma store_perm es l : NoDup (pairs es).*1 -> pairs es ≡ₚ l -> store_of es = list_to_map l.
Proof. intros Hn Hp. by apply list_to_map_proper. Qed.

Lemma nodup_perm es l : pairs es ≡ₚ l -> NoDup (pairs es).*1 <-> NoDup l.*1.
Proof. by intros ->. Qed.

(** The scan finds a key exactly when the map has it. *)
Lemma find_entry_spec es k : ram_wf es ->
  match find_entry es (Some k) with
  | Some i => exists v, es !! i = Some (Some (k, v)) /\ store_of es !! k = Some v
  | None => store_of es !! k = None
  end.
Proof.
  intros [_ Hn]. cbn [find_entry]. destruct (find_pos (entry_is k) es) as [i|] eqn:E.
  - apply find_pos_Some in E as ([[k' v]|] & Hi & He); [|done]. cbn in He. apply bool_decide_eq_true in He as ->.
    exists v. split; [done|]. destruct (slot_split es i _ Hi) as (rest & Hp & _).
    rewrite (store_perm _ _ Hn Hp). cbn. apply lookup_insert_eq.
  - apply find_pos_None in E. apply not_elem_of_list_to_map_1. rewrite list_elem_of_fmap. intros ([k' v] & -> & Hin).
    unfold pairs in Hin. apply list_elem_of_omap in Hin as (e & He & Heq). destruct e as [p|]; [|done]. injection Heq as ->.
    rewrite Forall_forall in E. specialize (E _ He). cbn in E. by rewrite bool_decide_true in E.
Qed.

(** Rewriting a slot. *)
Lemma overwrite_store es i k v v' : ram_wf es -> es !! i = Some (Some (k, v)) ->
  ram_wf (<[i := Some (k, v')]> es) /\ store_of (<[i := Some (k, v')]> es) = <[k := v']> (store_of es).
Proof.
  intros [Hl Hn] Hi. destruct (slot_split es i _ Hi) as (rest & Hp & Hy). specialize (Hy (Some (k, v'))).
  pose proof (proj1 (nodup_perm es _ Hp) Hn) as Hn1.
  assert (Hn' : NoDup (pairs (<[i := Some (k, v')]> es)).*1) by (by apply (nodup_perm _ _ Hy)).
  split; [split; [by rewrite length_insert|done]|].
  rewrite (store_perm _ _ Hn' Hy), (store_perm _ _ Hn Hp). cbn. by rewrite insert_insert_eq.
Qed.

Lemma fill_store es i k v : ram_wf es -> es !! i = Some None -> store_of es !! k = None ->
  ram_wf (<[i := Some (k, v)]> es) /\ store_of (<[i := Some (k, v)]> es) = <[k := v]> (store_of es).
Proof.
  intros [Hl Hn] Hi Hk. destruct (slot_split es i _ Hi) as (rest & Hp & Hy). specialize (Hy (Some (k, v))). cbn in Hp.
  assert (Hn' : NoDup (pairs (<[i := Some (k, v)]> es)).*1).
  { apply (nodup_perm _ _ Hy). cbn. apply NoDup_cons. split; [|by apply (nodup_perm _ _ Hp)].
    intros Hin. rewrite (store_perm _ _ Hn Hp) in Hk. by apply not_elem_of_list_to_map_2 in Hk. }
  split; [split; [by rewrite length_insert|done]|].
  by rewrite (store_perm _ _ Hn' Hy), (store_perm _ _ Hn Hp).
Qed.

Lemma clear_store es i k v : ram_wf es -> es !! i = Some (Some (k, v)) ->
  ram_wf (<[i := None]> es) /\ store_of (<[i := None]> es) = delete k (store_of es).
Proof.
  intros [Hl Hn] Hi. destruct (slot_split es i _ Hi) as (rest & Hp & Hy). specialize (Hy None). cbn in Hp, Hy.
  pose proof (proj1 (nodup_perm es _ Hp) Hn) as Hn1. cbn in Hn1. apply NoDup_cons in Hn1 as [Hk Hn1].
  assert (Hn' : NoDup (pairs (<[i := None]> es)).*1) by (by apply (nodup_perm _ _ Hy)).
  split; [split; [by rewrite length_insert|done]|].
  rewrite (store_perm _ _ Hn' Hy), (store_perm _ _ Hn Hp). cbn. rewrite delete_insert_id; [done|].
  by apply not_elem_of_list_to_map_1.
Qed.

(** Free slots. *)
Definition free_slots (es : ram_entries) : nat := length (filter (fun e => is_some e = false) es).
Lemma slots_count {A} (es : list (option A)) :
  (length (omap id es) + length (filter (fun e => is_some e = false) es) = length es)%nat.
Proof.
  induction es as [|o es IH]; [done|]. rewrite filter_cons. destruct o as [x|]; case_decide; try done.
  - change (omap id (Some x :: es)) with (x :: omap id es). cbn [length]. lia.
  - change (omap id (None :: es)) with (omap id es). cbn [length]. lia.
Qed.
Lemma store_size es : ram_wf es -> (size (store_of es) + free_slots es = BB_STORAGE_RAM_MAX_ENTRIES)%nat.
Proof.
  intros [Hl Hn]. unfold store_of. rewrite map_size_list_to_map by done. rewrite <- Hl. apply slots_count.
Qed.
Lemma find_free_spec es : match find_free_slot es with Some i => es !! i = Some None | None => free_slots es = 0%nat end.
Proof.
  unfold find_free_slot, free_slots. destruct (find_pos _ es) as [i|] eqn:E.
  - apply find_pos_Some in E as ([x|] & Hi & He); [done|done].
  - apply find_pos_None in E. induction E as [|[x|] es Hx _ IH]; [done| |done]. by rewrite filter_cons.
Qed.
Lemma free_some es : (0 < free_slots es)%nat -> exists i, find_free_slot es = Some i /\ es !! i = Some None.
Proof. intros H. pose proof (find_free_spec es) as Hs. destruct (find_free_slot es); [eauto|lia]. Qed.

Lemma ram_empty_wf : ram_wf ram_empty /\ store_of ram_empty = ∅.
Proof. split; [split; [done|constructor]|done]. Qed.


(** * Specification of the store *)

(** A map of bounded size. *)
Abbreviation store := (gmap cstring (list byte)).
Definition fits_store (m : store) : Prop := (size m <= BB_STORAGE_RAM_MAX_ENTRIES)%nat.

Definition spec_get (m : store) (a : addr) (cap : nat) : read_res :=
  match a_key a with
  | Some k => match m !! k with Some v => (BB_OK, take cap v, Some (length v)) | None => (BB_ERR_NOT_FOUND, [], None) end
  | None => (BB_ERR_NOT_FOUND, [], None)
  end.
Definition spec_set (m : store) (a : addr) (v : list byte) : bb_err * store :=
  match a_key a with
  | Some k =>
      if (BB_STORAGE_RAM_MAX_KEY_BYTES <=? length k)%nat then (BB_ERR_INVALID_ARG, m) else
      if (BB_STORAGE_RAM_MAX_VALUE_BYTES <? length v)%nat then (BB_ERR_NO_SPACE, m) else
      if decide (fits_store (<[k := v]> m)) then (BB_OK, <[k := v]> m) else (BB_ERR_NO_SPACE, m)
  | None => (BB_ERR_INVALID_ARG, m)
  end.
Definition spec_erase (m : store) (a : addr) : store :=
  match a_key a with Some k => delete k m | None => m end.
Definition spec_exists (m : store) (a : addr) : bool :=
  match a_key a with Some k => bool_decide (is_Some (m !! k)) | None => false end.

(** ** The RAM backend implements it *)

Lemma ram_get_spec a cap es : ram_wf es -> ram_get a cap es = spec_get (store_of es) a cap.
Proof.
  intros Hw. unfold ram_get, spec_get. destruct (a_key a) as [k|]; [|done].
  pose proof (find_entry_spec es k Hw) as H. destruct (find_entry es (Some k)) as [i|].
  - destruct H as (v & -> & ->). done.
  - by rewrite H.
Qed.

Lemma ram_exists_spec a es : ram_wf es -> ram_exists a es = spec_exists (store_of es) a.
Proof.
  intros Hw. unfold ram_exists, spec_exists. destruct (a_key a) as [k|]; [|done].
  pose proof (find_entry_spec es k Hw) as H. destruct (find_entry es (Some k)) as [i|].
  - destruct H as (v & _ & ->). by rewrite bool_decide_true by eauto.
  - rewrite H, bool_decide_false; [done|by intros [? ?]].
Qed.

Lemma wf_fits es : ram_wf es -> fits_store (store_of es).
Proof. intros H%store_size. unfold fits_store. lia. Qed.

Lemma fits_insert_new m k v : m !! k = None -> fits_store (<[k := v]> m) <-> (size m < BB_STORAGE_RAM_MAX_ENTRIES)%nat.
Proof. intros H. unfold fits_store. rewrite map_size_insert_None by done. lia. Qed.
Lemma fits_insert_old m k v w : m !! k = Some w -> fits_store m -> fits_store (<[k := v]> m).
Proof. intros H. unfold fits_store. rewrite map_size_insert_Some by eauto. done. Qed.

(** Writing a key: in place, or in a free slot, or no room. *)
Lemma put_spec es k v : ram_wf es ->
  match find_entry es (Some k) with
  | Some i => ram_wf (<[i := Some (k, v)]> es) /\ store_of (<[i := Some (k, v)]> es) = <[k := v]> (store_of es) /\
              fits_store (<[k := v]> (store_of es))
  | None =>
      store_of es !! k = None /\
      match find_free_slot es with
      | Some i => ram_wf (<[i := Some (k, v)]> es) /\ store_of (<[i := Some (k, v)]> es) = <[k := v]> (store_of es) /\
                  fits_store (<[k := v]> (store_of es))
      | None => ~ fits_store (<[k := v]> (store_of es))
      end
  end.
Proof.
  intros Hw. pose proof (find_entry_spec es k Hw) as H. destruct (find_entry es (Some k)) as [i|].
  - destruct H as (w & Hi & Hk). destruct (overwrite_store es i k w v Hw Hi) as [H1 H2]. split_and!; try done.
    by eapply fits_insert_old, wf_fits.
  - split; [done|]. pose proof (find_free_spec es) as Hf. pose proof (store_size es Hw) as Hs.
    destruct (find_free_slot es) as [i|].
    + destruct (fill_store es i k v Hw Hf H) as [H1 H2]. split_and!; try done. rewrite <- H2. by apply wf_fits.
    + rewrite fits_insert_new by done. lia.
Qed.

Lemma ram_set_spec a v es : ram_wf es ->
  ram_wf (ram_set a v es).2 /\ ((ram_set a v es).1, store_of (ram_set a v es).2) = spec_set (store_of es) a v.
Proof.
  intros Hw. unfold ram_set, spec_set. destruct (a_key a) as [k|]; [|done].
  destruct (_ <=? _)%nat; [done|]. destruct (_ <? _)%nat; [done|].
  pose proof (put_spec es k v Hw) as H. destruct (find_entry es (Some k)) as [i|].
  - destruct H as (H1 & H2 & H3). cbn [fst snd]. by rewrite decide_True, H2.
  - destruct H as [_ H]. destruct (find_free_slot es) as [i|].
    + destruct H as (H1 & H2 & H3). cbn [fst snd]. by rewrite decide_True, H2.
    + cbn [fst snd]. by rewrite decide_False.
Qed.

Lemma ram_erase_spec a es : ram_wf es ->
  ram_wf (ram_erase a es).2 /\ (ram_erase a es).1 = BB_OK /\ store_of (ram_erase a es).2 = spec_erase (store_of es) a.
Proof.
  intros Hw. unfold ram_erase, spec_erase. destruct (a_key a) as [k|]; [|done].
  pose proof (find_entry_spec es k Hw) as H. destruct (find_entry es (Some k)) as [i|].
  - destruct H as (v & Hi & Hk). cbn [fst snd]. destruct (clear_store es i k v Hw Hi) as [H1 H2]. done.
  - cbn [fst snd]. split_and!; [done|done|]. by rewrite delete_id.
Qed.

(** * Transactions *)

Definition slot_pair (s : txn_slot) : cstring * list byte := (sl_key s, sl_value s).
(** What a transaction will write. *)
Definition writes (slots : list (option txn_slot)) : store := list_to_map (map slot_pair (staged slots)).
Definition slots_wf (slots : list (option txn_slot)) : Prop := NoDup (map sl_key (staged slots)).

Lemma slot_keys l : (map slot_pair l).*1 = map sl_key l.
Proof. induction l as [|s l IH]; [done|]. cbn in *. by rewrite IH. Qed.

Lemma writes_perm slots l : slots_wf slots -> staged slots ≡ₚ l -> writes slots = list_to_map (map slot_pair l).
Proof. intros Hn Hp. apply list_to_map_proper; [by rewrite slot_keys|by rewrite Hp]. Qed.

Lemma wf_perm slots l : staged slots ≡ₚ l -> slots_wf slots <-> NoDup (map sl_key l).
Proof. unfold slots_wf. by intros ->. Qed.

Lemma writes_size slots : slots_wf slots ->
  (size (writes slots) + length (filter (fun s => is_some s = false) slots) = length slots)%nat.
Proof.
  intros Hn. unfold writes. rewrite map_size_list_to_map by (by rewrite slot_keys). rewrite length_map. apply slots_count.
Qed.

(** Staging: last write wins, in at most as many slots as the caller gave. *)
Definition spec_stage (cap : nat) (m : store) (k : cstring) (v : list byte) : bb_err + store :=
  if (BB_STORAGE_TXN_VALUE_MAX_BYTES <? length v)%nat then inl BB_ERR_NO_SPACE else
  if (BB_STORAGE_TXN_KEY_MAX_BYTES <=? length k)%nat then inl BB_ERR_INVALID_ARG else
  if decide (size (<[k := v]> m) <= cap)%nat then inr (<[k := v]> m) else inl BB_ERR_NO_SPACE.

Lemma find_slot_spec slots k : slots_wf slots ->
  match find_pos (holds_key k) slots with
  | Some i => exists s, slots !! i = Some (Some s) /\ sl_key s = k /\ is_Some (writes slots !! k)
  | None => writes slots !! k = None
  end.
Proof.
  intros Hn. destruct (find_pos (holds_key k) slots) as [i|] eqn:E.
  - apply find_pos_Some in E as ([s|] & Hi & He); [|done]. cbn in He. apply bool_decide_eq_true in He as <-.
    exists s. split_and!; [done|done|]. destruct (slot_split slots i _ Hi) as (rest & Hp & _).
    rewrite (writes_perm _ _ Hn Hp). cbn. rewrite lookup_insert_eq. eauto.
  - apply find_pos_None in E. apply not_elem_of_list_to_map_1. rewrite slot_keys. intros Hin.
    apply list_elem_of_fmap in Hin as (s & -> & Hin). apply list_elem_of_omap in Hin as (e & He & Heq).
    destruct e as [p|]; [|done]. injection Heq as ->. rewrite Forall_forall in E. specialize (E _ He). cbn in E.
    by rewrite bool_decide_true in E.
Qed.

Lemma stage_spec t k enc v : slots_wf (tx_slots t) ->
  match spec_stage (length (tx_slots t)) (writes (tx_slots t)) k v with
  | inl e => bb_storage_txn_slot_stage t k enc v = (e, t) /\ e <> BB_OK
  | inr m => exists slots, bb_storage_txn_slot_stage t k enc v = (BB_OK, mk_txn (tx_err t) (tx_open t) slots) /\
      slots_wf slots /\ writes slots = m /\ length slots = length (tx_slots t)
  end.
Proof.
  intros Hn. unfold spec_stage, bb_storage_txn_slot_stage. set (slots := tx_slots t) in *.
  destruct (_ <? _)%nat; [done|]. destruct (_ <=? _)%nat; [done|].
  pose proof (find_slot_spec slots k Hn) as H. pose proof (writes_size slots Hn) as Hsz.
  destruct (find_pos (holds_key k) slots) as [i|].
  - destruct H as (s & Hi & <- & Hk). rewrite decide_True by (rewrite map_size_insert_Some by done; lia).
    destruct (slot_split slots i _ Hi) as (rest & Hp & Hy). specialize (Hy (Some (mk_slot (sl_key s) v enc))).
    eexists. split; [done|]. pose proof (proj1 (wf_perm _ _ Hp) Hn) as Hn1. cbn in Hn1.
    assert (Hn' : slots_wf (<[i := Some (mk_slot (sl_key s) v enc)]> slots)) by (by apply (wf_perm _ _ Hy)).
    split_and!; [done| |by rewrite length_insert].
    rewrite (writes_perm _ _ Hn' Hy), (writes_perm _ _ Hn Hp). cbn. by rewrite insert_insert_eq.
  - destruct (find_pos (fun s => negb (is_some s)) slots) as [i|] eqn:E.
    + apply find_pos_Some in E as ([s|] & Hi & He); [done|].
      destruct (slot_split slots i _ Hi) as (rest & Hp & Hy). specialize (Hy (Some (mk_slot k v enc))). cbn in Hp.
      assert (0 < length (filter (fun s => is_some s = false) slots))%nat.
      { assert (None ∈ filter (fun s : option txn_slot => is_some s = false) slots) as Hin
          by (apply list_elem_of_filter; split; [done|by eapply list_elem_of_lookup_2]).
        by destruct (filter _ slots); [apply elem_of_nil in Hin|cbn; lia]. }
      rewrite decide_True by (rewrite map_size_insert_None by done; lia). eexists. split; [done|].
      assert (Hn' : slots_wf (<[i := Some (mk_slot k v enc)]> slots)).
      { apply (wf_perm _ _ Hy). cbn. apply NoDup_cons. split; [|by apply (wf_perm _ _ Hp)].
        intros Hin. rewrite (writes_perm _ _ Hn Hp) in H. apply not_elem_of_list_to_map_2 in H. by rewrite slot_keys in H. }
      split_and!; [done| |by rewrite length_insert].
      by rewrite (writes_perm _ _ Hn' Hy), (writes_perm _ _ Hn Hp).
    + apply find_pos_None in E.
      assert (length (filter (fun s => is_some s = false) slots) = 0%nat).
      { clear -E. induction E as [|[x|] l Hx _ IH]; [done|by rewrite filter_cons|done]. }
      by rewrite decide_False by (rewrite map_size_insert_None by done; lia).
Qed.


(** ** Commit *)

Lemma apply_spec es s : ram_wf es -> fits_store (<[sl_key s := sl_value s]> (store_of es)) ->
  ram_wf (ram_apply es s) /\ store_of (ram_apply es s) = <[sl_key s := sl_value s]> (store_of es).
Proof.
  intros Hw Hf. unfold ram_apply. pose proof (put_spec es (sl_key s) (sl_value s) Hw) as H.
  destruct (find_entry es (Some (sl_key s))) as [i|]; [by destruct H as (? & ? & _)|].
  destruct H as [_ H]. destruct (find_free_slot es) as [i|]; [by destruct H as (? & ? & _)|done].
Qed.

Lemma fits_mono (m M : store) : fits_store (M ∪ m) -> fits_store m.
Proof.
  unfold fits_store. rewrite <- !size_dom. intros H. etransitivity; [|exact H].
  apply subseteq_size. rewrite dom_union. set_solver.
Qed.

Lemma union_step (k : cstring) (v : list byte) (M m : store) : M !! k = None -> <[k := v]> M ∪ m = M ∪ <[k := v]> m.
Proof. intros H. by rewrite <- insert_union_l, insert_union_r. Qed.

Lemma writes_cons s ss : (list_to_map (map slot_pair (s :: ss)) : store) = <[sl_key s := sl_value s]> (list_to_map (map slot_pair ss)).
Proof. done. Qed.

Lemma apply_all_spec ss : forall es, ram_wf es -> NoDup (map sl_key ss) ->
  fits_store (list_to_map (map slot_pair ss) ∪ store_of es) ->
  ram_wf (fold_left ram_apply ss es) /\
  store_of (fold_left ram_apply ss es) = list_to_map (map slot_pair ss) ∪ store_of es.
Proof.
  induction ss as [|s ss IH]; intros es Hw Hn Hf; cbn [fold_left].
  - split; [done|]. symmetry. apply (left_id_L ∅ (∪)).
  - cbn [map] in Hn. apply NoDup_cons in Hn as [Hk Hn].
    assert (HM : (list_to_map (map slot_pair ss) : store) !! sl_key s = None)
      by (apply not_elem_of_list_to_map_1; by rewrite slot_keys).
    rewrite writes_cons in Hf |- *. rewrite (union_step _ _ _ _ HM) in Hf |- *.
    destruct (apply_spec es s Hw) as [H1 H2]; [by eapply fits_mono|]. rewrite <- H2 in Hf |- *. by apply IH.
Qed.

Lemma union_size (m : store) ss : NoDup (map sl_key ss) ->
  size (list_to_map (map slot_pair ss) ∪ m) = (size m + length (filter (fun s => m !! sl_key s = None) ss))%nat.
Proof.
  induction ss as [|s ss IH]; intros Hn.
  - change (list_to_map (map slot_pair []) : store) with (∅ : store). rewrite (left_id_L ∅ (∪)). cbn. lia.
  - cbn [map] in Hn. apply NoDup_cons in Hn as [Hk Hn]. specialize (IH Hn).
    assert (HM : (list_to_map (map slot_pair ss) : store) !! sl_key s = None)
      by (apply not_elem_of_list_to_map_1; by rewrite slot_keys).
    rewrite writes_cons, <- insert_union_l, filter_cons. case_decide as Hm.
    + rewrite map_size_insert_None by (by apply lookup_union_None). cbn [length]. lia.
    + rewrite map_size_insert_Some; [done|]. rewrite lookup_union_r by done. by apply not_eq_None_Some.
Qed.

Lemma new_keys es (ss : list txn_slot) : ram_wf es ->
  filter (fun s => is_some (find_entry es (Some (sl_key s))) = false) ss = filter (fun s => store_of es !! sl_key s = None) ss.
Proof.
  intros Hw. induction ss as [|s ss IH]; [done|]. rewrite !filter_cons, IH.
  pose proof (find_entry_spec es (sl_key s) Hw) as H. destruct (find_entry es (Some (sl_key s))) as [i|]; cbn [is_some].
  - destruct H as (v & _ & ->). by rewrite !decide_False.
  - by rewrite H, !decide_True.
Qed.

Lemma commit_spec t es : ram_wf es -> slots_wf (tx_slots t) ->
  exists e es', ram_txn_commit t es = (e, close_txn t, es') /\ ram_wf es' /\
    if decide (tx_err t = BB_OK) then
      if decide (fits_store (writes (tx_slots t) ∪ store_of es))
      then e = BB_OK /\ store_of es' = writes (tx_slots t) ∪ store_of es
      else e = BB_ERR_NO_SPACE /\ es' = es
    else e = tx_err t /\ es' = es.
Proof.
  intros Hw Hn. unfold ram_txn_commit. case_decide as He.
  2: { destruct (is_ok (tx_err t)) eqn:E; [by apply is_ok_true in E|]. by eexists _, _. }
  rewrite He. cbn [is_ok negb]. rewrite (new_keys es _ Hw). fold (free_slots es).
  pose proof (union_size (store_of es) (staged (tx_slots t)) Hn) as Hu. fold (writes (tx_slots t)) in Hu.
  pose proof (store_size es Hw) as Hs.
  destruct (Nat.ltb_spec (free_slots es) (length (filter (fun s => store_of es !! sl_key s = None) (staged (tx_slots t))))).
  - exists BB_ERR_NO_SPACE, es. split; [done|]. split; [done|]. rewrite decide_False; [done|]. unfold fits_store. lia.
  - assert (Hf : fits_store (writes (tx_slots t) ∪ store_of es)) by (unfold fits_store; lia).
    destruct (apply_all_spec _ _ Hw Hn Hf) as [H1 H2]. eexists _, _. split; [done|]. split; [done|]. by rewrite decide_True.
Qed.

(** ** A whole transaction through the facade *)

Definition write_req : Type := cstring * storage_enc * list byte.
Definition txn_writes (h : option (txn_handle (W := ram_entries))) (reqs : list write_req) : option txn_handle :=
  fold_left (fun h r => (bb_storage_txn_set h (Some r.1.1) r.1.2 r.2).2) reqs h.

(** The staged map, or the first error: a transaction once poisoned stays so. *)
Definition spec_txn (cap : nat) (reqs : list write_req) : bb_err + store :=
  fold_left (fun r q => match r with inl e => inl e | inr m => spec_stage cap m q.1.1 q.2 end) reqs (inr ∅).

Definition txn_rel (cap : nat) (h : option (txn_handle (W := ram_entries))) (r : bb_err + store) : Prop :=
  exists t, h = Some (mk_handle t (Some s_ram_vtable)) /\ tx_open t = true /\ slots_wf (tx_slots t) /\
    length (tx_slots t) = cap /\
    match r with inl e => tx_err t = e /\ e <> BB_OK | inr m => tx_err t = BB_OK /\ writes (tx_slots t) = m end.

Lemma begin_rel reg b ns h0 cap : find_backend reg b = Some s_ram_vtable -> tx_open (th_txn h0) = false ->
  (bb_storage_txn_begin reg (Some b) (Some ns) (Some h0) true cap).1 = BB_OK /\
  txn_rel cap (bb_storage_txn_begin reg (Some b) (Some ns) (Some h0) true cap).2 (inr ∅).
Proof.
  intros Hf Ho. unfold bb_storage_txn_begin. rewrite andb_false_r, Ho, Hf. cbn [vt_txn_begin s_ram_vtable ram_txn_begin fst snd tx_slots].
  rewrite repeat_length. split; [done|].
  assert (Hst : staged (repeat None cap) = []) by (induction cap; [done|exact IHcap]).
  eexists. split; [reflexivity|]. cbn [tx_open tx_slots tx_err]. split; [done|]. split; [by unfold slots_wf; rewrite Hst; constructor|].
  split; [apply repeat_length|]. split; [done|]. unfold writes. by rewrite Hst.
Qed.

Lemma set_rel cap h r q : txn_rel cap h r ->
  let r' := match r with inl e => inl e | inr m => spec_stage cap m q.1.1 q.2 end in
  let a := bb_storage_txn_set h (Some q.1.1) q.1.2 q.2 in
  a.1 = match r' with inl e => e | inr _ => BB_OK end /\ txn_rel cap a.2 r'.
Proof.
  intros (t & -> & Ho & Hn & Hc & Hr). unfold bb_storage_txn_set. cbn [th_txn th_vt]. rewrite Ho. cbn [negb].
  destruct r as [e|m]; destruct Hr as [Hr1 Hr2].
  - rewrite Hr1. destruct (is_ok e) eqn:E; [by apply is_ok_true in E|]. cbn [negb fst snd].
    split; [done|]. exists t. split_and!; try done.
  - rewrite Hr1. cbn [is_ok negb vt_txn_set s_ram_vtable ram_txn_set]. pose proof (stage_spec t q.1.1 q.1.2 q.2 Hn) as H.
    rewrite Hc, Hr2 in H. unfold ram_txn_set. destruct (spec_stage cap m q.1.1 q.2) as [e|m'].
    + destruct H as [-> He]. destruct (is_ok e) eqn:E; [by apply is_ok_true in E|]. cbn [fst snd]. split; [done|]. eexists. by split_and!.
    + destruct H as (slots & -> & H1 & H2 & H3). cbn [is_ok fst snd]. split; [done|]. eexists. split; [reflexivity|]. cbn. by split_and!.
Qed.

Lemma writes_rel cap reqs : forall h r, txn_rel cap h r ->
  txn_rel cap (txn_writes h reqs)
    (fold_left (fun r q => match r with inl e => inl e | inr m => spec_stage cap m q.1.1 q.2 end) reqs r).
Proof.
  induction reqs as [|q reqs IH]; intros h r Hr; [done|]. cbn [fold_left txn_writes]. apply IH. by apply (set_rel cap h r q).
Qed.

Lemma commit_rel cap h r es : txn_rel cap h r -> ram_wf es ->
  exists e t es', bb_storage_txn_commit h es = (e, Some (mk_handle t (Some s_ram_vtable)), es') /\ tx_open t = false /\ ram_wf es' /\
    match r with
    | inl err => e = err /\ es' = es
    | inr m =>
        if decide (fits_store (m ∪ store_of es)) then e = BB_OK /\ store_of es' = m ∪ store_of es
        else e = BB_ERR_NO_SPACE /\ es' = es
    end.
Proof.
  intros (t & -> & Ho & Hn & Hc & Hr) Hw. unfold bb_storage_txn_commit. cbn [th_txn th_vt]. rewrite Ho. cbn [negb vt_txn_commit s_ram_vtable].
  destruct (commit_spec t es Hw Hn) as (e & es' & -> & Hw' & H). eexists e, _, es'. split; [reflexivity|].
  split; [by destruct (negb (is_ok e) && is_ok (tx_err (close_txn t)))|]. split; [done|].
  destruct r as [err|m]; destruct Hr as [H1 H2].
  - rewrite decide_False in H by congruence. destruct H as [-> ->]. by rewrite H1.
  - rewrite decide_True in H by done. by rewrite H2 in H.
Qed.


(** ** The composed host: the RAM backend behind the facade *)

Definition ram_registry : registry (W := ram_entries) := (bb_storage_ram_register []).2.
Definition at_ram (k : cstring) : addr := mk_addr (Some (bs "ram")) None (Some k).

Inductive store_op : Type :=
  | OpGet (a : addr) (cap : nat) | OpSet (a : addr) (v : list byte) | OpErase (a : addr) | OpExists (a : addr).
Inductive store_answer : Type := AnsRead (r : read_res) | AnsCode (e : bb_err) | AnsBool (b : bool).

Definition facade_step (op : store_op) (es : ram_entries) : store_answer * ram_entries :=
  match op with
  | OpGet a cap => (AnsRead (bb_storage_get ram_registry (Some a) true cap true es), es)
  | OpSet a v => let '(e, es') := bb_storage_set ram_registry (Some a) (Some v) (length v) es in (AnsCode e, es')
  | OpErase a => let '(e, es') := bb_storage_erase ram_registry (Some a) es in (AnsCode e, es')
  | OpExists a => (AnsBool (bb_storage_exists ram_registry (Some a) es), es)
  end.
(** The same on a bounded map; an address of another backend reaches nothing. *)
Definition spec_step (op : store_op) (m : store) : store_answer * store :=
  let check (a : addr) (no : bb_err -> store_answer) (yes : store_answer * store) :=
    match a_backend a with
    | None => (no BB_ERR_INVALID_ARG, m)
    | Some b => if decide (b = bs "ram") then yes else (no BB_ERR_NOT_FOUND, m)
    end in
  match op with
  | OpGet a cap => check a (fun e => AnsRead (e, [], None)) (AnsRead (spec_get m a cap), m)
  | OpSet a v => check a AnsCode (let '(e, m') := spec_set m a v in (AnsCode e, m'))
  | OpErase a => check a AnsCode (AnsCode BB_OK, spec_erase m a)
  | OpExists a => check a (fun _ => AnsBool false) (AnsBool (spec_exists m a), m)
  end.

Fixpoint run_ops {S} (step : store_op -> S -> store_answer * S) (ops : list store_op) (s : S) : list store_answer * S :=
  match ops with
  | [] => ([], s)
  | op :: rest => let '(x, s1) := step op s in let '(xs, s2) := run_ops step rest s1 in (x :: xs, s2)
  end.

Lemma find_ram b : find_backend ram_registry b = if decide (b = bs "ram") then Some s_ram_vtable else None.
Proof.
  change ram_registry with [(bs "ram", s_ram_vtable)]. cbn [find_backend]. case_decide as H.
  - by rewrite bool_decide_true.
  - by rewrite bool_decide_false.
Qed.

Lemma resolve_ram a ok : resolve ram_registry (Some a) ok =
  match a_backend a with
  | None => inl BB_ERR_INVALID_ARG
  | Some b => if negb ok then inl BB_ERR_INVALID_ARG
              else if decide (b = bs "ram") then inr (a, s_ram_vtable) else inl BB_ERR_NOT_FOUND
  end.
Proof.
  unfold resolve. destruct (a_backend a) as [b|]; [|done]. destruct (negb ok); [done|]. rewrite find_ram. by case_decide.
Qed.

Lemma step_refines op es : ram_wf es ->
  ram_wf (facade_step op es).2 /\
  ((facade_step op es).1, store_of (facade_step op es).2) = spec_step op (store_of es).
Proof.
  intros Hw. destruct op as [a cap|a v|a|a]; cbn [facade_step spec_step];
    unfold bb_storage_get, bb_storage_set, bb_storage_erase, bb_storage_exists; rewrite resolve_ram;
    (destruct (a_backend a) as [b|]; [|done]); rewrite ?orb_true_r; cbn [negb andb is_some]; case_decide; try done;
    cbn [vt_get vt_set vt_erase vt_exists s_ram_vtable].
  - by rewrite ram_get_spec.
  - cbn [default from_option]. unfold id. rewrite firstn_all.
    destruct (ram_set_spec a v es Hw) as [H1 H2]. destruct (ram_set a v es) as [e es']. cbn [fst snd] in *.
    split; [done|]. by rewrite <- H2.
  - destruct (ram_erase_spec a es Hw) as (H1 & H2 & H3). destruct (ram_erase a es) as [e es']. cbn [fst snd] in *.
    split; [done|]. by rewrite H2, H3.
  - by rewrite ram_exists_spec.
Qed.

Lemma run_refines ops : forall es, ram_wf es ->
  ram_wf (run_ops facade_step ops es).2 /\
  ((run_ops facade_step ops es).1, store_of (run_ops facade_step ops es).2) = run_ops spec_step ops (store_of es).
Proof.
  induction ops as [|op ops IH]; intros es Hw; [done|]. cbn [run_ops].
  destruct (step_refines op es Hw) as [H1 H2]. destruct (facade_step op es) as [x es1]. cbn [fst snd] in *.
  rewrite <- H2. destruct (IH es1 H1) as [H3 H4]. destruct (run_ops facade_step ops es1) as [xs es2]. cbn [fst snd] in *.
  split; [done|]. by rewrite <- H4.
Qed.

(** ** The registry *)

Definition vtable_ok {W} (vt : vtable W) : Prop :=
  is_some (vt_get vt) && is_some (vt_set vt) && is_some (vt_erase vt) && is_some (vt_exists vt) = true /\
  is_some (vt_get_typed vt) = is_some (vt_set_typed vt) /\
  is_some (vt_txn_set vt) = is_some (vt_txn_begin vt) /\ is_some (vt_txn_commit vt) = is_some (vt_txn_begin vt) /\
  is_some (vt_txn_abort vt) = is_some (vt_txn_begin vt) /\ vt_list_entries vt = vt_get_stats vt.
Record registry_wf {W} (reg : registry (W := W)) : Prop := {
  rg_room : (length reg <= BB_STORAGE_MAX_BACKENDS)%nat;
  rg_names : NoDup reg.*1;
  rg_vtables : Forall (fun e => vtable_ok e.2) reg
}.

Lemma find_backend_app {W} (reg : registry (W := W)) b n vt : find_backend (reg ++ [(b, vt)]) n =
  match find_backend reg n with Some v => Some v | None => if decide (b = n) then Some vt else None end.
Proof.
  induction reg as [|[b' v] reg IH]; cbn.
  - case_decide; [by rewrite bool_decide_true|by rewrite bool_decide_false].
  - by destruct (bool_decide (b' = n)).
Qed.

Lemma register_spec {W} name vt (reg : registry (W := W)) : registry_wf reg ->
  let r := bb_storage_register_backend name vt reg in
  registry_wf r.2 /\
  (r.1 = BB_OK -> exists n v, name = Some n /\ vt = Some v /\ find_backend reg n = None /\ find_backend r.2 n = Some v) /\
  (r.1 <> BB_OK -> r.2 = reg) /\
  (forall n v, find_backend reg n = Some v -> find_backend r.2 n = Some v).
Proof.
  intros Hw. unfold bb_storage_register_backend.
  destruct name as [name|]; [|by split_and!]. destruct vt as [vt|]; [|by split_and!].
  destruct (is_some (vt_get vt) && _ && _ && _) eqn:E1; cbn [negb]; [|by split_and!].
  destruct (Bool.eqb (is_some (vt_get_typed vt)) _) eqn:E2; cbn [negb]; [|by split_and!]. cbv zeta.
  destruct (negb (_ =? 0)%nat && _) eqn:E3; [by split_and!|].
  destruct (Bool.eqb (vt_list_entries vt) _) eqn:E4; cbn [negb]; [|by split_and!].
  destruct (existsb _ reg) eqn:E5; [by split_and!|]. destruct (Nat.leb_spec BB_STORAGE_MAX_BACKENDS (length reg)); [by split_and!|].
  assert (Hnew : Forall (fun e => e.1 <> name) reg).
  { apply Forall_forall. intros e He Hne. assert (existsb (fun e0 => bool_decide (e0.1 = name)) reg = true) as H'; [|by rewrite E5 in H'].
    apply existsb_exists. exists e. split; [by apply list_elem_of_In|by apply bool_decide_eq_true]. }
  assert (Hnone : find_backend reg name = None).
  { clear -Hnew. induction Hnew as [|[b v] reg Hb _ IH]; [done|]. cbn in *. by rewrite bool_decide_false. }
  destruct Hw as [H1 H2 H3]. cbn [fst snd]. split; [split|split_and!].
  - rewrite length_app. cbn. lia.
  - rewrite fmap_app. apply NoDup_app. split_and!; [done| |cbn; apply NoDup_singleton].
    intros x Hx Hx'. cbn in Hx'. apply list_elem_of_singleton in Hx' as ->.
    apply list_elem_of_fmap in Hx as (e & -> & He). rewrite Forall_forall in Hnew. by apply (Hnew e).
  - apply Forall_app. split; [done|]. apply Forall_singleton. cbn [snd].
    apply eqb_prop in E2, E4. unfold vtable_ok. rewrite E1, E2, E4.
    by destruct (is_some (vt_txn_begin vt)), (is_some (vt_txn_set vt)), (is_some (vt_txn_commit vt)), (is_some (vt_txn_abort vt)).
  - intros _. exists name, vt. split_and!; try done. rewrite find_backend_app, Hnone. by rewrite decide_True.
  - done.
  - intros n v Hn. by rewrite find_backend_app, Hn.
Qed.


(** * Properties *)


(** Transactions are all or nothing.  For a table that holds a map, any
    slot capacity and any sequence of writes between begin and commit: when
    every write was staged and the result fits the table, commit returns BB_OK
    and the table holds the map with the last value written to each key;
    otherwise commit returns the first error (or BB_ERR_NO_SPACE) and the table
    is untouched.  The transaction is closed either way. *)
Theorem ram_txn_atomic reg ns h0 cap reqs es :
  find_backend reg (bs "ram") = Some s_ram_vtable -> tx_open (th_txn h0) = false -> ram_wf es ->
  let b := bb_storage_txn_begin reg (Some (bs "ram")) (Some ns) (Some h0) true cap in
  exists e t es', b.1 = BB_OK /\
    bb_storage_txn_commit (txn_writes b.2 reqs) es = (e, Some (mk_handle t (Some s_ram_vtable)), es') /\
    tx_open t = false /\ ram_wf es' /\
    match spec_txn cap reqs with
    | inl err => e = err /\ es' = es
    | inr m =>
        if decide (fits_store (m ∪ store_of es)) then e = BB_OK /\ store_of es' = m ∪ store_of es
        else e = BB_ERR_NO_SPACE /\ es' = es
    end.
Proof.
  intros Hf Ho Hw b. destruct (begin_rel reg (bs "ram") ns h0 cap Hf Ho) as [Hb1 Hb2]. fold b in Hb1, Hb2.
  destruct (commit_rel cap _ _ es (writes_rel cap reqs _ _ Hb2) Hw) as (e & t & es' & H).
  exists e, t, es'. by split.
Qed.

Definition wit_reqs : list write_req :=
  [(bs "ssid", BB_STORAGE_ENC_STR, bs "a"); (bs "pass", BB_STORAGE_ENC_STR, bs "b"); (bs "ssid", BB_STORAGE_ENC_STR, bs "c")].
Definition wit_table : ram_entries := (ram_set (at_ram (bs "pass")) (bs "old") ram_empty).2.
Lemma wit_table_wf : ram_wf wit_table.
Proof. apply (ram_set_spec (at_ram (bs "pass")) (bs "old") ram_empty). apply ram_empty_wf. Qed.

(** The staged map, looked into without being printed. *)
Definition wit_staged : store := match spec_txn 2 wit_reqs with inr m => m | inl _ => ∅ end.
Lemma wit_staged_ok : spec_txn 2 wit_reqs = inr wit_staged.
Proof.
  assert (H : match spec_txn 2 wit_reqs with inr _ => true | inl _ => false end = true) by (vm_compute; reflexivity).
  unfold wit_staged. destruct (spec_txn 2 wit_reqs); [discriminate H|reflexivity].
Qed.

Lemma ram_txn_atomic_witness :
  exists e h es', bb_storage_txn_commit (txn_writes (bb_storage_txn_begin ram_registry (Some (bs "ram")) (Some []) (Some (mk_handle txn0 None)) true 2).2
      wit_reqs) wit_table = (e, h, es') /\ e = BB_OK /\
    store_of es' !! bs "ssid" = Some (bs "c") /\ store_of es' !! bs "pass" = Some (bs "b").
Proof.
  destruct (ram_txn_atomic ram_registry [] (mk_handle txn0 None) 2 wit_reqs wit_table eq_refl eq_refl wit_table_wf)
    as (e & t & es' & _ & Hc & _ & _ & H).
  exists e, (Some (mk_handle t (Some s_ram_vtable))), es'. split; [exact Hc|]. clear Hc.
  rewrite wit_staged_ok, decide_True in H by (apply Nat.leb_le; vm_compute; reflexivity).
  destruct H as [-> ->]. split; [reflexivity|]. split; vm_compute; reflexivity.
Defined.

(** The registry.  Registration keeps the registry within its array, its
    names distinct and every backend's vtable complete (the four required
    members, optional pairs and the transaction group all there or all
    absent); it succeeds only for a name not yet known, which then resolves to
    that vtable; a failed call changes nothing; no call changes what a known
    name resolves to. *)
Theorem registry_invariant {W} name vt (reg : registry (W := W)) :
  registry_wf reg ->
  let r := bb_storage_register_backend name vt reg in
  registry_wf r.2 /\
  (r.1 = BB_OK -> exists n v, name = Some n /\ vt = Some v /\ find_backend reg n = None /\ find_backend r.2 n = Some v) /\
  (r.1 <> BB_OK -> r.2 = reg) /\
  (forall n v, find_backend reg n = Some v -> find_backend r.2 n = Some v).
Proof. apply register_spec. Qed.

Lemma registry_invariant_witness :
  registry_wf (W := ram_entries) [] /\ registry_wf (bb_storage_ram_register []).2.
Proof.
  assert (H : registry_wf (W := ram_entries) []) by (split; [cbn; lia|constructor|constructor]).
  split; [exact H|]. exact (proj1 (registry_invariant (Some (bs "ram")) (Some s_ram_vtable) [] H)).
Defined.
