(* ===== verification/Rtc.v ===== *)
(** The credential mirror kept in memory that survives a warm reset:
    components/storage/bb_storage_rtc/bb_storage_rtc_region.c (the checksummed
    region) and platform/host/bb_storage_rtc/bb_storage_rtc.c (its storage
    backend), behind the facade of Storage. *)
From Stdlib Require Import Strings.String.
From S2P Require Import Prelude Bytes Storage.

(** * The checksum *)

Definition CRC_POLY : Z := 3988292384. (* 0xEDB88320 *)
Definition CRC_INIT : Z := 4294967295. (* 0xFFFFFFFF *)

(** One turn of the loop of crc32_byte. *)
Definition crc32_bit (crc : Z) : Z := Z.lxor (Z.shiftr crc 1) (Z.land CRC_POLY (u32 (- Z.land crc 1))).
Definition crc32_byte (crc : Z) (b : byte) : Z := Nat.iter 8 crc32_bit (Z.lxor crc (bz b)).
Definition crc32_run (crc : Z) (buf : list byte) : Z := fold_left crc32_byte buf crc.
Definition crc32_buf (buf : list byte) : Z := Z.lxor (crc32_run CRC_INIT buf) CRC_INIT.

(** The check value of the standard CRC-32. *)
Example crc32_check : crc32_buf (bs "123456789") = 3421780262. (* 0xCBF43926 *)
Proof. vm_compute. reflexivity. Qed.

(** * The region *)

Definition BB_STORAGE_RTC_REGION_MAGIC : Z := 1111641667. (* 0x42424E43 *)
Definition BB_STORAGE_RTC_REGION_VERSION : Z := 1.
Definition SSID_SIZE : nat := 32.
Definition PASS_SIZE : nat := 64.

Record region := mk_region {
  r_magic : Z;
  r_version : Z;
  r_provisioned : byte;
  r_pad : byte;
  r_ssid : list byte;
  r_pass : list byte;
  r_crc : Z
}.

Definition region_zero : region := mk_region 0 0 x00 x00 (repeat x00 SSID_SIZE) (repeat x00 PASS_SIZE) 0.

(** The bytes before the crc field, and all of them. *)
Definition region_body (r : region) : list byte :=
  le_bytes 4 (r_magic r) ++ le_bytes 2 (r_version r) ++ [r_provisioned r; r_pad r] ++ r_ssid r ++ r_pass r.
Definition region_image (r : region) : list byte := region_body r ++ le_bytes 4 (r_crc r).

Definition with_crc (crc : Z) (r : region) : region :=
  mk_region (r_magic r) (r_version r) (r_provisioned r) (r_pad r) (r_ssid r) (r_pass r) crc.
Definition with_ssid (s : list byte) (r : region) : region :=
  mk_region (r_magic r) (r_version r) (r_provisioned r) (r_pad r) s (r_pass r) (r_crc r).
Definition with_pass (s : list byte) (r : region) : region :=
  mk_region (r_magic r) (r_version r) (r_provisioned r) (r_pad r) (r_ssid r) s (r_crc r).
Definition with_provisioned (b : byte) (r : region) : region :=
  mk_region (r_magic r) (r_version r) b (r_pad r) (r_ssid r) (r_pass r) (r_crc r).
Definition with_header (r : region) : region :=
  mk_region BB_STORAGE_RTC_REGION_MAGIC BB_STORAGE_RTC_REGION_VERSION (r_provisioned r) (r_pad r) (r_ssid r) (r_pass r) (r_crc r).

Definition bb_storage_rtc_region_crc (r : region) : Z := crc32_buf (region_body r).

(** [n] bytes and a NUL written at the start of a field. *)
Definition put_field (v : list byte) (old : list byte) : list byte := v ++ x00 :: drop (S (length v)) old.

(** [src = None]: NULL. *)
Definition bounded_copy (dst : list byte) (src : option (list byte)) (dst_cap : nat) : list byte :=
  match src with
  | None => put_field [] dst
  | Some src => put_field (take (dst_cap - 1) (cstr src)) dst
  end.

Definition bb_storage_rtc_region_pack (ssid pass : option (list byte)) (provisioned : byte) : region :=
  let r := with_provisioned provisioned (with_header region_zero) in
  let r := with_ssid (bounded_copy (r_ssid r) ssid SSID_SIZE) r in
  let r := with_pass (bounded_copy (r_pass r) pass PASS_SIZE) r in
  with_crc (bb_storage_rtc_region_crc r) r.

(** [None]: NULL. *)
Definition bb_storage_rtc_region_valid (r : option region) : bool :=
  match r with
  | None => false
  | Some r =>
      if negb (r_magic r =? BB_STORAGE_RTC_REGION_MAGIC) then false else
      if negb (r_version r =? BB_STORAGE_RTC_REGION_VERSION) then false else
      bb_storage_rtc_region_crc r =? r_crc r
  end.

Example pack_is_valid :
  bb_storage_rtc_region_valid (Some (bb_storage_rtc_region_pack (Some (bs "home")) (Some (bs "secret")) x01)) = true.
Proof. vm_compute. reflexivity. Qed.

(** * The backend *)

(** The state is [s_region]. *)
Definition rtc_read (field : list byte) (cap : nat) : read_res :=
  let len := length (cstr field) in
  let n := if (len <? cap)%nat then len else (cap - 1)%nat in
  (BB_OK, if (0 <? cap)%nat then take n field ++ [x00] else [], Some len).

(** The bytes from each text field to the end of the region: what strlen
    looks at. *)
Definition ssid_tail (r : region) : list byte := r_ssid r ++ r_pass r ++ le_bytes 4 (r_crc r).
Definition pass_tail (r : region) : list byte := r_pass r ++ le_bytes 4 (r_crc r).

Definition rtc_get (a : addr) (cap : nat) (r : region) : read_res :=
  match a_key a with
  | None => (BB_ERR_INVALID_ARG, [], None)
  | Some key =>
      if negb (bb_storage_rtc_region_valid (Some r)) then (BB_ERR_NOT_FOUND, [], None) else
      if bool_decide (key = bs "ssid") then rtc_read (ssid_tail r) cap else
      if bool_decide (key = bs "pass") then rtc_read (pass_tail r) cap else
      if bool_decide (key = bs "provisioned") then (BB_OK, take cap [r_provisioned r], Some 1%nat) else
      (BB_ERR_NOT_FOUND, [], None)
  end.

(** What both write paths do to one field of a region that will be stamped. *)
Definition stamp (r : region) : region :=
  let r := with_header r in with_crc (bb_storage_rtc_region_crc r) r.

Definition rtc_set (a : addr) (buf : list byte) (r : region) : bb_err * region :=
  match a_key a with
  | None => (BB_ERR_INVALID_ARG, r)
  | Some key =>
      let r := if negb (bb_storage_rtc_region_valid (Some r)) then region_zero else r in
      if bool_decide (key = bs "ssid") then
        if (SSID_SIZE - 1 <? length buf)%nat then (BB_ERR_NO_SPACE, r)
        else (BB_OK, stamp (with_ssid (put_field buf (r_ssid r)) r))
      else if bool_decide (key = bs "pass") then
        if (PASS_SIZE - 1 <? length buf)%nat then (BB_ERR_NO_SPACE, r)
        else (BB_OK, stamp (with_pass (put_field buf (r_pass r)) r))
      else if bool_decide (key = bs "provisioned") then
        match buf with
        | [b] => (BB_OK, stamp (with_provisioned b r))
        | _ => (BB_ERR_INVALID_ARG, r)
        end
      else (BB_ERR_INVALID_ARG, r)
  end.

Definition known_key (key : cstring) : bool :=
  bool_decide (key = bs "ssid") || bool_decide (key = bs "pass") || bool_decide (key = bs "provisioned").

Definition rtc_erase (a : addr) (r : region) : bb_err * region :=
  match a_key a with
  | None => (BB_ERR_INVALID_ARG, r)
  | Some key => if negb (known_key key) then (BB_ERR_INVALID_ARG, r) else (BB_OK, region_zero)
  end.

(** The field's first byte is not NUL. *)
Definition starts (l : list byte) : bool := negb (Byte.eqb (hd x00 l) x00).

Definition rtc_exists (a : addr) (r : region) : bool :=
  match a_key a with
  | None => false
  | Some key =>
      if negb (bb_storage_rtc_region_valid (Some r)) then false else
      if bool_decide (key = bs "ssid") then starts (r_ssid r) else
      if bool_decide (key = bs "pass") then starts (r_pass r) else
      bool_decide (key = bs "provisioned")
  end.

Definition rtc_txn_classify (key : option cstring) (len : nat) : bb_err :=
  match key with
  | None => BB_ERR_INVALID_ARG
  | Some key =>
      if bool_decide (key = bs "ssid") then (if (SSID_SIZE - 1 <? len)%nat then BB_ERR_NO_SPACE else BB_OK) else
      if bool_decide (key = bs "pass") then (if (PASS_SIZE - 1 <? len)%nat then BB_ERR_NO_SPACE else BB_OK) else
      if bool_decide (key = bs "provisioned") then (if negb (len =? 1)%nat then BB_ERR_INVALID_ARG else BB_OK) else
      BB_ERR_INVALID_ARG
  end.

Definition rtc_txn_begin (ns : cstring) (t : txn) : bb_err * txn := (BB_OK, mk_txn BB_OK true (tx_slots t)).

Definition rtc_txn_set (t : txn) (key : cstring) (enc : storage_enc) (buf : list byte) : bb_err * txn :=
  if negb (tx_open t) then (BB_ERR_INVALID_STATE, t) else
  if negb (is_ok (tx_err t)) then (tx_err t, t) else
  let err := rtc_txn_classify (Some key) (length buf) in
  if negb (is_ok err) then (err, set_tx_err err t) else
  let '(err, t) := bb_storage_txn_slot_stage t key enc buf in
  if negb (is_ok err) then (err, set_tx_err err t) else (err, t).

(** One staged slot applied to the region being built. *)
Definition rtc_apply (r : region) (s : txn_slot) : region :=
  if bool_decide (sl_key s = bs "ssid") then with_ssid (put_field (sl_value s) (r_ssid r)) r else
  if bool_decide (sl_key s = bs "pass") then with_pass (put_field (sl_value s) (r_pass r)) r else
  if bool_decide (sl_key s = bs "provisioned") then with_provisioned (hd x00 (sl_value s)) r else r.

Definition rtc_txn_commit (t : txn) (r : region) : bb_err * txn * region :=
  if negb (tx_open t) then (BB_ERR_INVALID_STATE, t, r) else
  if negb (is_ok (tx_err t)) then (tx_err t, close_txn t, r) else
  let tmp := if bb_storage_rtc_region_valid (Some r) then r else region_zero in
  let tmp := fold_left rtc_apply (staged (tx_slots t)) tmp in
  (BB_OK, close_txn t, stamp tmp).

Definition rtc_txn_abort (t : txn) : bb_err * txn :=
  if negb (tx_open t) then (BB_OK, t) else
  (BB_OK, mk_txn (tx_err t) false (repeat None (length (tx_slots t)))).

Definition s_rtc_vtable : vtable region :=
  mk_vtable (Some rtc_get) (Some rtc_set) (Some rtc_erase) (Some rtc_exists) None None None None
    (Some rtc_txn_begin) (Some rtc_txn_set) (Some rtc_txn_commit) (Some rtc_txn_abort) false false.

Definition bb_storage_rtc_register (reg : registry (W := region)) : bb_err * registry :=
  bb_storage_register_backend (Some (bs "rtc")) (Some s_rtc_vtable) reg.

(** * The checksum is linear *)

Lemma crc32_bit_alt c : crc32_bit c = Z.lxor (Z.shiftr c 1) (if Z.odd c then CRC_POLY else 0).
Proof.
  unfold crc32_bit. f_equal. change 1 with (Z.ones 1) at 1. rewrite Z.land_ones by lia. change (2 ^ 1) with 2.
  rewrite Zmod_odd. by destruct (Z.odd c).
Qed.

Lemma crc32_bit_lxor a b : crc32_bit (Z.lxor a b) = Z.lxor (crc32_bit a) (crc32_bit b).
Proof.
  rewrite !crc32_bit_alt, Z.shiftr_lxor, <- !Z.bit0_odd, Z.lxor_spec.
  apply Z.bits_inj'. intros i Hi.
  destruct (Z.testbit a 0), (Z.testbit b 0); rewrite !Z.lxor_spec, ?Z.bits_0; cbn [xorb];
    repeat match goal with |- context [Z.testbit ?x ?j] => destruct (Z.testbit x j) end; reflexivity.
Qed.

Lemma crc32_bit_shift x : crc32_bit (Z.shiftl x 1) = x.
Proof.
  rewrite crc32_bit_alt. rewrite Z.shiftr_shiftl_l by lia. rewrite Z.shiftl_0_r.
  rewrite <- Z.bit0_odd, Z.shiftl_spec_low by lia. apply Z.lxor_0_r.
Qed.

Abbreviation crc_steps n := (Nat.iter n crc32_bit).

Lemma crc_steps_lxor n a b : crc_steps n (Z.lxor a b) = Z.lxor (crc_steps n a) (crc_steps n b).
Proof. induction n as [|n IH]; [done|]; rewrite ?Nat.iter_succ. by rewrite IH, crc32_bit_lxor. Qed.

Lemma crc_steps_add n m a : crc_steps (n + m) a = crc_steps n (crc_steps m a).
Proof. apply Nat.iter_add. Qed.

Lemma crc_steps_shift n x : crc_steps n (Z.shiftl x (Z.of_nat n)) = x.
Proof.
  revert x. induction n as [|n IH]; intros x; [apply Z.shiftl_0_r|].
  rewrite Nat.iter_succ_r, Nat2Z.inj_succ, <- Z.add_1_r, <- Z.shiftl_shiftl by lia.
  by rewrite crc32_bit_shift.
Qed.

Lemma crc_steps_shift_z k x : 0 <= k -> crc_steps (Z.to_nat k) (Z.shiftl x k) = x.
Proof. intros Hk. rewrite <- (Z2Nat.id k) at 2 by done. apply crc_steps_shift. Qed.

(** ** On 32 bits a step loses nothing *)

Lemma lxor_range k a b : 0 <= k -> 0 <= a < 2 ^ k -> 0 <= b < 2 ^ k -> 0 <= Z.lxor a b < 2 ^ k.
Proof.
  intros Hk Ha Hb. split; [apply Z.lxor_nonneg; lia|].
  destruct (Z.lt_ge_cases (Z.lxor a b) (2 ^ k)) as [|Hge]; [done|exfalso].
  assert (Hpos : 0 < Z.lxor a b) by (pose proof (Z.pow_pos_nonneg 2 k); lia).
  assert (Hlog : k <= Z.log2 (Z.lxor a b)) by (apply Z.log2_le_pow2; lia).
  pose proof (Z.bit_log2 _ Hpos) as Hbit. rewrite Z.lxor_spec in Hbit.
  rewrite (testbit_small a k), (testbit_small b k) in Hbit by lia. discriminate Hbit.
Qed.

Lemma crc32_bit_range c : 0 <= c < 2 ^ 32 -> 0 <= crc32_bit c < 2 ^ 32.
Proof.
  intros Hc. rewrite crc32_bit_alt. apply lxor_range; [lia| |unfold CRC_POLY; destruct (Z.odd c); lia].
  rewrite Z.shiftr_div_pow2 by lia. split; [apply Z.div_pos; lia|apply Z.div_lt_upper_bound; lia].
Qed.

Lemma crc32_bit_zero c : 0 <= c < 2 ^ 32 -> crc32_bit c = 0 -> c = 0.
Proof.
  intros Hc H. rewrite crc32_bit_alt in H. apply Z.lxor_eq in H.
  rewrite Z.shiftr_div_pow2 in H by lia. change (2 ^ 1) with 2 in H.
  pose proof (Z.div_mod c 2 ltac:(lia)) as Hd. rewrite Zmod_odd in Hd. unfold CRC_POLY in H.
  destruct (Z.odd c); lia.
Qed.

Lemma crc_steps_range n c : 0 <= c < 2 ^ 32 -> 0 <= crc_steps n c < 2 ^ 32.
Proof. intros Hc. induction n as [|n IH]; [done|]; rewrite ?Nat.iter_succ. by apply crc32_bit_range. Qed.

Lemma crc_steps_zero n c : 0 <= c < 2 ^ 32 -> crc_steps n c = 0 -> c = 0.
Proof.
  intros Hc. induction n as [|n IH]; [done|]; rewrite ?Nat.iter_succ. intros H%crc32_bit_zero; [auto|by apply crc_steps_range].
Qed.

(** ** A run over bytes is a number of steps on their value *)

Lemma le_value_lxor b l : le_value (b :: l) = Z.lxor (bz b) (Z.shiftl (le_value l) 8).
Proof.
  cbn [le_value]. rewrite Z.shiftl_mul_pow2 by lia. rewrite Z.lxor_comm, <- (Z.add_nocarry_lxor); [lia|].
  apply Z.bits_inj'. intros i Hi. rewrite Z.land_spec, Z.bits_0. destruct (Z.lt_ge_cases i 8).
  - by rewrite Z.mul_pow2_bits_low by lia.
  - rewrite (testbit_small (bz b) 8), andb_false_r; [done|apply bz_range|done].
Qed.

Lemma crc32_byte_value s b l : crc_steps 8 (Z.lxor s (le_value (b :: l))) = Z.lxor (crc32_byte s b) (le_value l).
Proof.
  rewrite le_value_lxor, <- Z.lxor_assoc, crc_steps_lxor. unfold crc32_byte. f_equal. exact (crc_steps_shift 8 _).
Qed.

(** Stated for any function, so that no checksum is evaluated. *)
Lemma fold_left_next {A B} (f : A -> B -> A) l b s : fold_left f (b :: l) s = fold_left f l (f s b).
Proof. done. Qed.

Lemma crc32_run_steps s l : crc32_run s l = crc_steps (8 * length l) (Z.lxor s (le_value l)).
Proof.
  unfold crc32_run. revert s. induction l as [|b l IH]; intros s; [cbn [fold_left le_value]; rewrite Z.lxor_0_r; reflexivity|].
  change (length (b :: l)) with (S (length l)). replace (8 * S (length l))%nat with (8 * length l + 8)%nat by lia.
  rewrite crc_steps_add, crc32_byte_value, fold_left_next. exact (IH (crc32_byte s b)).
Qed.

Lemma crc32_run_app s l l' : crc32_run s (l ++ l') = crc32_run (crc32_run s l) l'.
Proof. apply fold_left_app. Qed.

(** Runs over texts of one length that end alike: the difference of the texts
    is no burst of 32 bits or fewer. *)
Lemma crc_burst l l' e k s : length l = length l' ->
  Z.lxor (le_value l) (le_value l') = Z.shiftl e k -> 0 <= k -> 0 < e < 2 ^ 32 ->
  crc32_run s l <> crc32_run s l'.
Proof.
  intros Hlen He Hk Hr H. rewrite !crc32_run_steps, <- Hlen in H. apply Z.lxor_eq_0_iff in H.
  rewrite <- crc_steps_lxor in H.
  replace (Z.lxor (Z.lxor s (le_value l)) (Z.lxor s (le_value l'))) with (Z.shiftl e k) in H.
  2: { rewrite <- He. apply Z.bits_inj'. intros i Hi. rewrite !Z.lxor_spec.
       by destruct (Z.testbit s i), (Z.testbit (le_value l) i), (Z.testbit (le_value l') i). }
  assert (Hlt : k < 8 * Z.of_nat (length l)).
  { assert (Hb : Z.testbit (Z.shiftl e k) (k + Z.log2 e) = true).
    { pose proof (Z.log2_nonneg e). rewrite Z.shiftl_spec by lia. replace (k + Z.log2 e - k) with (Z.log2 e) by lia. apply Z.bit_log2. lia. }
    destruct (Z.lt_ge_cases k (8 * Z.of_nat (length l))) as [|Hge]; [done|exfalso].
    pose proof (le_value_range l) as H1. pose proof (le_value_range l') as H2. rewrite <- Hlen in H2.
    change 256 with (2 ^ 8) in H1, H2. rewrite <- Z.pow_mul_r in H1, H2 by lia.
    rewrite <- He, Z.lxor_spec in Hb. pose proof (Z.log2_nonneg e).
    by rewrite (testbit_small _ _ _ H1), (testbit_small _ _ _ H2) in Hb by lia. }
  replace (8 * length l)%nat with ((8 * length l - Z.to_nat k) + Z.to_nat k)%nat in H by lia.
  rewrite crc_steps_add in H. rewrite (crc_steps_shift_z k) in H by lia.
  apply crc_steps_zero in H; lia.
Qed.

(** * Well-formed regions *)

Record region_wf (r : region) : Prop := {
  rg_ssid : length (r_ssid r) = SSID_SIZE;
  rg_pass : length (r_pass r) = PASS_SIZE;
  rg_crc : 0 <= r_crc r < 2 ^ 32
}.

Lemma region_image_length r : region_wf r -> length (region_image r) = 108%nat.
Proof.
  intros [H1 H2 _]. unfold region_image, region_body. rewrite !length_app, !le_bytes_length, H1, H2. reflexivity.
Qed.

(** Valid regions run to one residue. *)
Lemma valid_residue r : region_wf r -> bb_storage_rtc_region_valid (Some r) = true ->
  crc32_run CRC_INIT (region_image r) = crc_steps 32 CRC_INIT.
Proof.
  intros Hw H. unfold bb_storage_rtc_region_valid in H. do 2 (destruct (_ =? _); [|discriminate H]). cbn [negb] in H.
  apply Z.eqb_eq in H. unfold region_image. rewrite crc32_run_app, crc32_run_steps, le_bytes_length.
  rewrite le_value_bytes by (apply rg_crc in Hw; lia). rewrite <- H. unfold bb_storage_rtc_region_crc, crc32_buf.
  by rewrite <- Z.lxor_assoc, Z.lxor_nilpotent, Z.lxor_0_l.
Qed.

(** The images differ by a burst of at most 32 bits, anywhere. *)
Definition burst (r r' : region) : Prop := exists e k, 0 < e < 2 ^ 32 /\ 0 <= k /\
  Z.lxor (le_value (region_image r)) (le_value (region_image r')) = Z.shiftl e k.

Lemma burst_invalid r r' : region_wf r -> region_wf r' -> burst r r' ->
  bb_storage_rtc_region_valid (Some r) = true -> bb_storage_rtc_region_valid (Some r') = false.
Proof.
  intros Hw Hw' (e & k & He & Hk & Hx) Hv. destruct (bb_storage_rtc_region_valid (Some r')) eqn:Hv'; [exfalso|done].
  apply (crc_burst (region_image r) (region_image r') e k CRC_INIT); try done.
  - by rewrite !region_image_length.
  - by rewrite !valid_residue.
Qed.

(** * What the backend promises *)

(** The credentials, or nothing. *)
Record creds := mk_creds { c_ssid : list byte; c_pass : list byte; c_provisioned : byte }.
Definition no_creds : creds := mk_creds [] [] x00.

Inductive field : Set := FSsid | FPass | FProvisioned.
Definition field_of (key : cstring) : option field :=
  if decide (key = bs "ssid") then Some FSsid else
  if decide (key = bs "pass") then Some FPass else
  if decide (key = bs "provisioned") then Some FProvisioned else None.

(** Text of at most 31 and 63 bytes, one byte of flag. *)
Definition field_fits (f : field) (len : nat) : bb_err :=
  match f with
  | FSsid => if decide (len < 32)%nat then BB_OK else BB_ERR_NO_SPACE
  | FPass => if decide (len < 64)%nat then BB_OK else BB_ERR_NO_SPACE
  | FProvisioned => if decide (len = 1)%nat then BB_OK else BB_ERR_INVALID_ARG
  end.
Definition field_put (f : field) (v : list byte) (c : creds) : creds :=
  match f with
  | FSsid => mk_creds (cstr v) (c_pass c) (c_provisioned c)
  | FPass => mk_creds (c_ssid c) (cstr v) (c_provisioned c)
  | FProvisioned => mk_creds (c_ssid c) (c_pass c) (hd x00 v)
  end.
Definition field_read (f : field) (c : creds) (cap : nat) : read_res :=
  let text v := (BB_OK, if (0 <? cap)%nat then take (cap - 1) v ++ [x00] else [], Some (length v)) in
  match f with
  | FSsid => text (c_ssid c)
  | FPass => text (c_pass c)
  | FProvisioned => (BB_OK, take cap [c_provisioned c], Some 1%nat)
  end.
Definition field_there (f : field) (c : creds) : bool :=
  match f with
  | FSsid => bool_decide (c_ssid c <> [])
  | FPass => bool_decide (c_pass c <> [])
  | FProvisioned => true
  end.

Definition keep_get (s : option creds) (key : option cstring) (cap : nat) : read_res :=
  match key with
  | None => (BB_ERR_INVALID_ARG, [], None)
  | Some key =>
      match s, field_of key with
      | Some c, Some f => field_read f c cap
      | _, _ => (BB_ERR_NOT_FOUND, [], None)
      end
  end.
Definition keep_check (key : option cstring) (len : nat) : bb_err + field :=
  match key with
  | None => inl BB_ERR_INVALID_ARG
  | Some key =>
      match field_of key with
      | None => inl BB_ERR_INVALID_ARG
      | Some f => if decide (field_fits f len = BB_OK) then inr f else inl (field_fits f len)
      end
  end.
Definition keep_set (s : option creds) (key : option cstring) (v : list byte) : bb_err * option creds :=
  match keep_check key (length v) with
  | inl e => (e, s)
  | inr f => (BB_OK, Some (field_put f v (default no_creds s)))
  end.
Definition keep_erase (s : option creds) (key : option cstring) : bb_err * option creds :=
  match key ≫= field_of with None => (BB_ERR_INVALID_ARG, s) | Some _ => (BB_OK, None) end.
Definition keep_exists (s : option creds) (key : option cstring) : bool :=
  match s, key ≫= field_of with Some c, Some f => field_there f c | _, _ => false end.

(** A batch: the last value staged for each key, in at most [cap] slots. *)
Definition keep_stage (cap : nat) (m : store) (key : cstring) (v : list byte) : bb_err + store :=
  match keep_check (Some key) (length v) with
  | inl e => inl e
  | inr _ => if decide (size (<[key := v]> m) <= cap)%nat then inr (<[key := v]> m) else inl BB_ERR_NO_SPACE
  end.
Definition staged_for (m : store) (key : cstring) : option (list byte) := m !! key.
Definition batch_put (m : store) (c : creds) : creds :=
  mk_creds (match staged_for m (bs "ssid") with Some v => cstr v | None => c_ssid c end)
           (match staged_for m (bs "pass") with Some v => cstr v | None => c_pass c end)
           (match staged_for m (bs "provisioned") with Some v => hd x00 v | None => c_provisioned c end).

(** What the region holds. *)
Definition held (r : region) : option creds :=
  if bb_storage_rtc_region_valid (Some r)
  then Some (mk_creds (cstr (r_ssid r)) (cstr (r_pass r)) (r_provisioned r)) else None.

(** A valid region's text fields are terminated. *)
Record region_ok (r : region) : Prop := {
  ro_wf : region_wf r;
  ro_text : bb_storage_rtc_region_valid (Some r) = true -> x00 ∈ r_ssid r /\ x00 ∈ r_pass r
}.

(** * The operations keep it *)

Lemma put_field_text v old : cstr (put_field v old) = cstr v /\ x00 ∈ put_field v old.
Proof.
  unfold put_field. split; [apply cstr_stop|set_solver].
Qed.
Lemma put_field_length v old : (length v < length old)%nat -> length (put_field v old) = length old.
Proof. intros H. unfold put_field. rewrite length_app. cbn. rewrite length_drop. lia. Qed.

Lemma rtc_read_text l l' cap : x00 ∈ l ->
  rtc_read (l ++ l') cap = (BB_OK, if (0 <? cap)%nat then take (cap - 1) (cstr l) ++ [x00] else [], Some (length (cstr l))).
Proof.
  intros H. unfold rtc_read. rewrite (cstr_cut l l' H). destruct (Nat.ltb_spec 0 cap) as [Hc|]; [|done].
  destruct (cstr_prefix l) as [l2 E]. assert (Hp : l ++ l' = cstr l ++ l2 ++ l') by (by rewrite E at 1; rewrite <- app_assoc).
  rewrite Hp. destruct (Nat.ltb_spec (length (cstr l)) cap).
  - rewrite take_app_length. by rewrite take_ge by lia.
  - by rewrite take_app_le by lia.
Qed.

Lemma crc32_run_range l : forall s, 0 <= s < 2 ^ 32 -> 0 <= crc32_run s l < 2 ^ 32.
Proof.
  unfold crc32_run. induction l as [|b l IH]; intros s Hs; [done|]. rewrite fold_left_next. apply IH.
  unfold crc32_byte. apply crc_steps_range, lxor_range; [lia|done|]. pose proof (bz_range b). lia.
Qed.
Lemma crc32_buf_range l : 0 <= crc32_buf l < 2 ^ 32.
Proof.
  unfold crc32_buf. apply lxor_range; [lia| |unfold CRC_INIT; lia]. apply crc32_run_range. unfold CRC_INIT. lia.
Qed.

(** A stamped region is valid whatever its fields. *)
Lemma stamp_valid r : bb_storage_rtc_region_valid (Some (stamp r)) = true.
Proof. apply Z.eqb_refl. Qed.

Lemma stamp_ok r : length (r_ssid r) = SSID_SIZE -> length (r_pass r) = PASS_SIZE ->
  x00 ∈ r_ssid r -> x00 ∈ r_pass r ->
  region_ok (stamp r) /\ held (stamp r) = Some (mk_creds (cstr (r_ssid r)) (cstr (r_pass r)) (r_provisioned r)).
Proof.
  intros H1 H2 H3 H4. split; [|unfold held; by rewrite stamp_valid].
  split; [split; [done|done|apply crc32_buf_range]|done].
Qed.

Lemma zero_ok : region_ok region_zero /\ held region_zero = None.
Proof. split; [split; [split; [done|done|cbn; lia]|done]|done]. Qed.

(** What a write starts from: the region if it is valid, zeros otherwise. *)
Definition base (r : region) : region := if bb_storage_rtc_region_valid (Some r) then r else region_zero.

Lemma base_spec r : region_ok r ->
  length (r_ssid (base r)) = SSID_SIZE /\ length (r_pass (base r)) = PASS_SIZE /\
  x00 ∈ r_ssid (base r) /\ x00 ∈ r_pass (base r) /\
  mk_creds (cstr (r_ssid (base r))) (cstr (r_pass (base r))) (r_provisioned (base r)) = default no_creds (held r).
Proof.
  intros [[H1 H2 _] H3]. unfold base, held. destruct (bb_storage_rtc_region_valid (Some r)).
  - destruct (H3 eq_refl) as [H4 H5]. by split_and!.
  - split_and!; try done; cbn; apply elem_of_list_here || (cbn; set_solver).
Qed.
Lemma base_ok r : region_ok r -> region_ok (base r) /\ held (base r) = held r.
Proof.
  intros H. unfold base. destruct (bb_storage_rtc_region_valid (Some r)) eqn:E; [done|].
  destruct zero_ok as [H1 H2]. split; [done|]. rewrite H2. unfold held. by rewrite E.
Qed.

(** The three keys, told apart once for the code and the specification. *)
Lemma field_of_spec key :
  match field_of key with
  | Some FSsid => key = bs "ssid"
  | Some FPass => key = bs "pass"
  | Some FProvisioned => key = bs "provisioned"
  | None => key <> bs "ssid" /\ key <> bs "pass" /\ key <> bs "provisioned"
  end.
Proof. unfold field_of. repeat case_decide; done. Qed.

Lemma known_key_spec key : known_key key = is_some (field_of key).
Proof. unfold known_key, field_of. repeat (case_bool_decide || case_decide); done. Qed.

Lemma three_keys {A} key (x y z w : A) :
  (if bool_decide (key = bs "ssid") then x else if bool_decide (key = bs "pass") then y
   else if bool_decide (key = bs "provisioned") then z else w) =
  match field_of key with Some FSsid => x | Some FPass => y | Some FProvisioned => z | None => w end.
Proof. unfold field_of. by repeat (case_bool_decide || case_decide). Qed.

Lemma classify_spec key len : rtc_txn_classify (Some key) len =
  match keep_check (Some key) len with inl e => e | inr _ => BB_OK end.
Proof.
  unfold rtc_txn_classify, keep_check. rewrite three_keys. destruct (field_of key) as [[]|]; [..|done]; unfold field_fits, SSID_SIZE, PASS_SIZE.
  - destruct (Nat.ltb_spec (32 - 1) len); [rewrite !(decide_False (P := (len < 32)%nat)) by lia; done|].
    by rewrite !(decide_True (P := (len < 32)%nat)) by lia.
  - destruct (Nat.ltb_spec (64 - 1) len); [rewrite !(decide_False (P := (len < 64)%nat)) by lia; done|].
    by rewrite !(decide_True (P := (len < 64)%nat)) by lia.
  - destruct (Nat.eqb_spec len 1) as [->|]; [done|]. by rewrite !(decide_False (P := len = 1%nat)) by done.
Qed.

Definition key_addr (ns key : option cstring) : addr := mk_addr (Some (bs "rtc")) ns key.

Lemma rtc_get_spec ns key cap r : region_ok r -> rtc_get (key_addr ns key) cap r = keep_get (held r) key cap.
Proof.
  intros [_ H]. unfold rtc_get, keep_get, held. cbn [a_key key_addr]. destruct key as [key|]; [|done].
  destruct (bb_storage_rtc_region_valid (Some r)); [|done]. destruct (H eq_refl) as [H1 H2]. cbn [negb].
  rewrite three_keys. unfold ssid_tail, pass_tail. rewrite !rtc_read_text by done. by destruct (field_of key) as [[]|].
Qed.

Lemma starts_text l : starts l = bool_decide (cstr l <> []).
Proof. unfold starts. destruct l as [|b l]; cbn; [done|]. by destruct (Byte.eqb b x00). Qed.

Lemma rtc_exists_spec ns key r : rtc_exists (key_addr ns key) r = keep_exists (held r) key.
Proof.
  unfold rtc_exists, keep_exists, held. cbn [a_key key_addr]. destruct key as [key|]; [|by destruct (bb_storage_rtc_region_valid _)].
  destruct (bb_storage_rtc_region_valid (Some r)); [|done]. cbn [negb option_bind].
  replace (bool_decide (key = bs "provisioned")) with (if bool_decide (key = bs "provisioned") then true else false) by (by destruct (bool_decide _)).
  rewrite three_keys, !starts_text. cbn. by destruct (field_of key) as [[]|].
Qed.

Lemma rtc_erase_spec ns key r : region_ok r ->
  region_ok (rtc_erase (key_addr ns key) r).2 /\
  ((rtc_erase (key_addr ns key) r).1, held (rtc_erase (key_addr ns key) r).2) = keep_erase (held r) key.
Proof.
  intros H. unfold rtc_erase, keep_erase. cbn [a_key key_addr]. destruct key as [key|]; [|done]. cbn.
  rewrite known_key_spec. destruct (field_of key); [|done]. exact (conj (proj1 zero_ok) eq_refl).
Qed.

(** One field of a well-formed region written. *)
Definition write_field (f : field) (v : list byte) (r : region) : region :=
  match f with
  | FSsid => with_ssid (put_field v (r_ssid r)) r
  | FPass => with_pass (put_field v (r_pass r)) r
  | FProvisioned => with_provisioned (hd x00 v) r
  end.
Definition texts_ok (r : region) : Prop :=
  length (r_ssid r) = SSID_SIZE /\ length (r_pass r) = PASS_SIZE /\ x00 ∈ r_ssid r /\ x00 ∈ r_pass r.
Definition texts (r : region) : creds := mk_creds (cstr (r_ssid r)) (cstr (r_pass r)) (r_provisioned r).

Lemma write_field_spec f v r : texts_ok r -> field_fits f (length v) = BB_OK ->
  texts_ok (write_field f v r) /\ texts (write_field f v r) = field_put f v (texts r).
Proof.
  intros (H1 & H2 & H3 & H4) Hf. destruct f; cbn in Hf; case_decide; try done; unfold texts_ok, texts; cbn;
    (split; [split_and!|]); try done; try (by apply put_field_text);
    try (rewrite put_field_length; [done|]; unfold SSID_SIZE, PASS_SIZE in *; lia).
  - by rewrite (proj1 (put_field_text v (r_ssid r))).
  - by rewrite (proj1 (put_field_text v (r_pass r))).
Qed.

Lemma base_texts r : region_ok r -> texts_ok (base r) /\ texts (base r) = default no_creds (held r).
Proof. intros H. destruct (base_spec r H) as (H1 & H2 & H3 & H4 & H5). done. Qed.

Lemma stamp_texts r : texts_ok r -> region_ok (stamp r) /\ held (stamp r) = Some (texts r).
Proof. intros (H1 & H2 & H3 & H4). by apply stamp_ok. Qed.

Lemma rtc_set_alt ns key v r : rtc_set (key_addr ns key) v r =
  match key with
  | None => (BB_ERR_INVALID_ARG, r)
  | Some _ =>
      match keep_check key (length v) with
      | inl e => (e, base r)
      | inr f => (BB_OK, stamp (write_field f v (base r)))
      end
  end.
Proof.
  unfold rtc_set. cbn [a_key key_addr]. destruct key as [key|]; [|done].
  replace (if negb (bb_storage_rtc_region_valid (Some r)) then region_zero else r) with (base r)
    by (unfold base; by destruct (bb_storage_rtc_region_valid (Some r))).
  cbv zeta. rewrite three_keys. unfold keep_check. destruct (field_of key) as [[]|]; [..|done]; unfold field_fits, SSID_SIZE, PASS_SIZE.
  - destruct (Nat.ltb_spec (32 - 1) (length v)); [by rewrite !(decide_False (P := (length v < 32)%nat)) by lia|].
    by rewrite !(decide_True (P := (length v < 32)%nat)) by lia.
  - destruct (Nat.ltb_spec (64 - 1) (length v)); [by rewrite !(decide_False (P := (length v < 64)%nat)) by lia|].
    by rewrite !(decide_True (P := (length v < 64)%nat)) by lia.
  - destruct v as [|b [|b' v]]; done.
Qed.

Lemma keep_check_fits key len f : keep_check key len = inr f -> field_fits f len = BB_OK.
Proof. unfold keep_check. destruct key as [key|]; [|done]. destruct (field_of key) as [g|]; [|done]. case_decide; congruence. Qed.

Lemma rtc_set_spec ns key v r : region_ok r ->
  region_ok (rtc_set (key_addr ns key) v r).2 /\
  ((rtc_set (key_addr ns key) v r).1, held (rtc_set (key_addr ns key) v r).2) = keep_set (held r) key v.
Proof.
  intros H. rewrite rtc_set_alt. unfold keep_set. destruct (base_ok r H) as [Hb1 Hb2], (base_texts r H) as [Ht1 Ht2].
  destruct key as [key|]; [|done]. destruct (keep_check (Some key) (length v)) as [e|f] eqn:E; cbn [fst snd]; [by rewrite Hb2|].
  apply keep_check_fits in E. destruct (write_field_spec f v _ Ht1 E) as [H1 H2]. destruct (stamp_texts _ H1) as [H3 H4].
  by rewrite H4, H2, Ht2.
Qed.

(** ** Transactions *)

(** What was staged fits its field. *)
Definition batch_ok (m : store) : Prop := map_Forall (fun k v => exists f, keep_check (Some k) (length v) = inr f) m.

Definition batch_rel (cap : nat) (h : option (txn_handle (W := region))) (r : bb_err + store) : Prop :=
  exists t, h = Some (mk_handle t (Some s_rtc_vtable)) /\ tx_open t = true /\ slots_wf (tx_slots t) /\
    length (tx_slots t) = cap /\
    match r with
    | inl e => tx_err t = e /\ e <> BB_OK
    | inr m => tx_err t = BB_OK /\ writes (tx_slots t) = m /\ batch_ok m
    end.

Lemma begin_batch reg ns h0 cap : find_backend reg (bs "rtc") = Some s_rtc_vtable -> tx_open (th_txn h0) = false ->
  (bb_storage_txn_begin reg (Some (bs "rtc")) (Some ns) (Some h0) true cap).1 = BB_OK /\
  batch_rel cap (bb_storage_txn_begin reg (Some (bs "rtc")) (Some ns) (Some h0) true cap).2 (inr ∅).
Proof.
  intros Hf Ho. unfold bb_storage_txn_begin. rewrite andb_false_r, Ho, Hf. cbn [vt_txn_begin s_rtc_vtable rtc_txn_begin fst snd tx_slots].
  split; [done|].
  assert (Hst : staged (repeat None cap) = []) by (induction cap; [done|exact IHcap]).
  eexists. split; [reflexivity|]. cbn [tx_open tx_slots tx_err]. split; [done|]. split; [by unfold slots_wf; rewrite Hst; constructor|].
  split; [apply repeat_length|]. split; [done|]. unfold writes. rewrite Hst. split; [done|]. apply map_Forall_empty.
Qed.

Lemma checked_small key len f : keep_check (Some key) len = inr f ->
  (len <= BB_STORAGE_TXN_VALUE_MAX_BYTES)%nat /\ (length key < BB_STORAGE_TXN_KEY_MAX_BYTES)%nat.
Proof.
  unfold keep_check. pose proof (field_of_spec key) as Hk. destruct (field_of key) as [g|]; [|done].
  case_decide as E; [|done]. intros _. unfold BB_STORAGE_TXN_VALUE_MAX_BYTES, BB_STORAGE_TXN_KEY_MAX_BYTES.
  destruct g; subst key; cbn in E; case_decide; try done; cbn; lia.
Qed.

Definition batch_step (cap : nat) (r : bb_err + store) (q : write_req) : bb_err + store :=
  match r with inl e => inl e | inr m => keep_stage cap m q.1.1 q.2 end.
Definition batch_code (r : bb_err + store) : bb_err := match r with inl e => e | inr _ => BB_OK end.

Lemma set_batch cap h r q : batch_rel cap h r ->
  (bb_storage_txn_set h (Some q.1.1) q.1.2 q.2).1 = batch_code (batch_step cap r q) /\
  batch_rel cap (bb_storage_txn_set h (Some q.1.1) q.1.2 q.2).2 (batch_step cap r q).
Proof.
  intros (t & -> & Ho & Hn & Hc & Hr). unfold bb_storage_txn_set. cbn [th_txn th_vt]. rewrite Ho. cbn [negb].
  destruct r as [e|m]; cbn [batch_step].
  - destruct Hr as [Hr1 Hr2]. rewrite Hr1. destruct (is_ok e) eqn:E; [by apply is_ok_true in E|]. cbn [negb fst snd].
    split; [done|]. exists t. by split_and!.
  - destruct Hr as (Hr1 & Hr2 & Hr3). rewrite Hr1. cbn [is_ok negb vt_txn_set s_rtc_vtable]. unfold rtc_txn_set. rewrite Ho, Hr1.
    cbn [is_ok negb]. rewrite classify_spec. unfold keep_stage. destruct (keep_check (Some q.1.1) (length q.2)) as [e|f] eqn:E.
    { assert (He : e <> BB_OK).
      { unfold keep_check in E. destruct (field_of q.1.1) as [g|]; [|by injection E as <-]. case_decide; [done|]. by injection E as <-. }
      destruct (is_ok e) eqn:E'; [by apply is_ok_true in E'|]. cbn [negb is_ok batch_code fst snd]. rewrite E'. split; [done|].
      eexists. by split_and!. }
    cbn [is_ok negb]. destruct (checked_small _ _ _ E) as [Hv Hk].
    pose proof (stage_spec t q.1.1 q.1.2 q.2 Hn) as H. unfold spec_stage in H.
    rewrite (proj2 (Nat.ltb_ge _ _) Hv), (proj2 (Nat.leb_gt _ _) Hk), Hc, Hr2 in H.
    case_decide as Hs.
    + destruct H as (slots & -> & H1 & H2 & H3). cbn [is_ok negb batch_code fst snd]. split; [done|].
      eexists. split; [reflexivity|]. cbn. split_and!; try done. apply map_Forall_insert_2; [by exists f|done].
    + destruct H as [-> He]. cbn [is_ok negb batch_code fst snd]. split; [done|]. eexists. by split_and!.
Qed.

(** Every staging call of a batch, with its answers. *)
Fixpoint txn_sets (h : option (txn_handle (W := region))) (reqs : list write_req) : list bb_err * option txn_handle :=
  match reqs with
  | [] => ([], h)
  | q :: reqs =>
      let '(e, h) := bb_storage_txn_set h (Some q.1.1) q.1.2 q.2 in
      let '(es, h) := txn_sets h reqs in (e :: es, h)
  end.
Fixpoint batch_sets (cap : nat) (r : bb_err + store) (reqs : list write_req) : list bb_err * (bb_err + store) :=
  match reqs with
  | [] => ([], r)
  | q :: reqs =>
      let r := batch_step cap r q in
      let '(es, r') := batch_sets cap r reqs in (batch_code r :: es, r')
  end.

Lemma sets_batch cap reqs : forall h r, batch_rel cap h r ->
  (txn_sets h reqs).1 = (batch_sets cap r reqs).1 /\ batch_rel cap (txn_sets h reqs).2 (batch_sets cap r reqs).2.
Proof.
  induction reqs as [|q reqs IH]; intros h r Hr; [done|]. cbn [txn_sets batch_sets].
  destruct (set_batch cap h r q Hr) as [H1 H2]. destruct (bb_storage_txn_set h (Some q.1.1) q.1.2 q.2) as [e h1]. cbn [fst snd] in *.
  destruct (IH _ _ H2) as [H3 H4]. destruct (txn_sets h1 reqs) as [es h2], (batch_sets cap (batch_step cap r q) reqs) as [es' r']. cbn [fst snd] in *.
  by subst.
Qed.

(** ** Commit: slots are for different keys, so their order does not matter *)

Lemma rtc_apply_alt r s : rtc_apply r s = match field_of (sl_key s) with Some f => write_field f (sl_value s) r | None => r end.
Proof. unfold rtc_apply. rewrite three_keys. by destruct (field_of (sl_key s)) as [[]|]. Qed.

Lemma batch_put_insert (m : store) k v f c : m !! k = None -> field_of k = Some f ->
  batch_put (<[k := v]> m) c = batch_put m (field_put f v c).
Proof.
  intros Hm Hf. pose proof (field_of_spec k) as Hk. rewrite Hf in Hk.
  assert (Heq : staged_for (<[k := v]> m) k = Some v) by apply lookup_insert_eq.
  assert (Hne : forall k', k <> k' -> staged_for (<[k := v]> m) k' = staged_for m k') by (intros k' ?; by apply lookup_insert_ne).
  fold (staged_for m k) in Hm. unfold batch_put.
  destruct f; subst k; cbn [field_put c_ssid c_pass c_provisioned]; rewrite Heq, !Hne by done; by rewrite Hm.
Qed.

Lemma apply_batch ss : forall r, texts_ok r -> NoDup (map sl_key ss) -> batch_ok (list_to_map (map slot_pair ss)) ->
  texts_ok (fold_left rtc_apply ss r) /\
  texts (fold_left rtc_apply ss r) = batch_put (list_to_map (map slot_pair ss)) (texts r).
Proof.
  induction ss as [|s ss IH]; intros r Hr Hn Hb.
  - by destruct r.
  - cbn [fold_left]. cbn [map] in Hn. apply NoDup_cons in Hn as [Hk Hn].
    assert (HM : (list_to_map (map slot_pair ss) : store) !! sl_key s = None)
      by (apply not_elem_of_list_to_map_1; by rewrite slot_keys).
    rewrite writes_cons in Hb |- *. apply map_Forall_insert in Hb as [[f Hf] Hb]; [|done].
    assert (Hfo : field_of (sl_key s) = Some f).
    { unfold keep_check in Hf. destruct (field_of (sl_key s)) as [g|]; [|done]. case_decide; congruence. }
    rewrite (batch_put_insert _ _ _ f) by done. rewrite rtc_apply_alt, Hfo.
    destruct (write_field_spec f (sl_value s) r Hr) as [H1 H2]; [by eapply keep_check_fits|].
    destruct (IH _ H1 Hn Hb) as [H3 H4]. split; [done|]. by rewrite H4, H2.
Qed.

Lemma commit_batch cap h r g : batch_rel cap h r -> region_ok g ->
  exists e t g', bb_storage_txn_commit h g = (e, Some (mk_handle t (Some s_rtc_vtable)), g') /\ tx_open t = false /\ region_ok g' /\
    match r with
    | inl err => e = err /\ g' = g
    | inr m => e = BB_OK /\ held g' = Some (batch_put m (default no_creds (held g)))
    end.
Proof.
  intros (t & -> & Ho & Hn & Hc & Hr) Hg. unfold bb_storage_txn_commit. cbn [th_txn th_vt]. rewrite Ho. cbn [negb vt_txn_commit s_rtc_vtable].
  unfold rtc_txn_commit. rewrite Ho. cbn [negb]. destruct r as [err|m].
  - destruct Hr as [-> He]. destruct (is_ok err) eqn:E; [by apply is_ok_true in E|]. cbn [negb].
    eexists _, _, _. split; [reflexivity|]. by destruct (negb (is_ok err) && is_ok (tx_err (close_txn t))).
  - destruct Hr as (-> & Hw & Hb). cbn [is_ok negb andb]. eexists _, _, _. split; [reflexivity|]. split; [done|].
    destruct (base_texts g Hg) as [H1 H2]. fold (base g). unfold writes in Hw. rewrite <- Hw in Hb.
    destruct (apply_batch _ _ H1 Hn Hb) as [H3 H4]. destruct (stamp_texts _ H3) as [H5 H6]. split; [done|]. split; [done|].
    by rewrite H6, H4, H2, Hw.
Qed.

Lemma abort_batch cap h r : batch_rel cap h r ->
  exists t, bb_storage_txn_abort h = (BB_OK, Some (mk_handle t (Some s_rtc_vtable))) /\ tx_open t = false.
Proof.
  intros (t & -> & Ho & _). unfold bb_storage_txn_abort. cbn [th_txn th_vt]. rewrite Ho. cbn [negb vt_txn_abort s_rtc_vtable].
  unfold rtc_txn_abort. rewrite Ho. cbn [negb]. by eexists.
Qed.

(** * The life of a region *)

Inductive txn_end : Set := EndCommit | EndAbort | EndReset.
(** Calls through the facade, and what happens to the memory between them: a
    warm reset keeps it; damage leaves [r'] there. *)
Inductive rtc_op : Type :=
  | RGet (ns key : option cstring) (cap : nat)
  | RSet (ns key : option cstring) (v : list byte)
  | RErase (ns key : option cstring)
  | RExists (ns key : option cstring)
  | RTxn (ns : cstring) (cap : nat) (reqs : list write_req) (fin : txn_end)
  | RWarmReset
  | RDamage (r' : region).
Inductive rtc_answer : Type :=
  | ARead (r : read_res) | ACode (e : bb_err) | ABool (b : bool)
  | ATxn (begin : bb_err) (sets : list bb_err) (fin : option bb_err) | ANone.

Definition code_txn (reg : registry) (ns : cstring) (cap : nat) (reqs : list write_req) (fin : txn_end) (r : region)
  : rtc_answer * region :=
  let '(e, h) := bb_storage_txn_begin reg (Some (bs "rtc")) (Some ns) (Some (mk_handle txn0 None)) true cap in
  let '(es, h) := txn_sets h reqs in
  match fin with
  | EndCommit => let '(e', _, r') := bb_storage_txn_commit h r in (ATxn e es (Some e'), r')
  | EndAbort => (ATxn e es (Some (bb_storage_txn_abort h).1), r)
  | EndReset => (ATxn e es None, r)
  end.

Definition code_step (reg : registry) (op : rtc_op) (r : region) : rtc_answer * region :=
  match op with
  | RGet ns key cap => (ARead (bb_storage_get reg (Some (key_addr ns key)) true cap true r), r)
  | RSet ns key v => let '(e, r') := bb_storage_set reg (Some (key_addr ns key)) (Some v) (length v) r in (ACode e, r')
  | RErase ns key => let '(e, r') := bb_storage_erase reg (Some (key_addr ns key)) r in (ACode e, r')
  | RExists ns key => (ABool (bb_storage_exists reg (Some (key_addr ns key)) r), r)
  | RTxn ns cap reqs fin => code_txn reg ns cap reqs fin r
  | RWarmReset => (ANone, r)
  | RDamage r' => (ANone, r')
  end.

(** The same on credentials that are there or not: damage forgets them. *)
Definition keep_step (op : rtc_op) (s : option creds) : rtc_answer * option creds :=
  match op with
  | RGet _ key cap => (ARead (keep_get s key cap), s)
  | RSet _ key v => let '(e, s') := keep_set s key v in (ACode e, s')
  | RErase _ key => let '(e, s') := keep_erase s key in (ACode e, s')
  | RExists _ key => (ABool (keep_exists s key), s)
  | RTxn _ cap reqs fin =>
      let '(es, b) := batch_sets cap (inr ∅) reqs in
      match fin with
      | EndCommit => (ATxn BB_OK es (Some (batch_code b)),
                      match b with inl _ => s | inr m => Some (batch_put m (default no_creds s)) end)
      | EndAbort => (ATxn BB_OK es (Some BB_OK), s)
      | EndReset => (ATxn BB_OK es None, s)
      end
  | RWarmReset => (ANone, s)
  | RDamage _ => (ANone, None)
  end.

(** The damage the checksum is there for: a burst in a valid region, or
    contents that are not valid, such as those of a cold boot. *)
Definition damage_ok (r r' : region) : Prop :=
  region_wf r' /\
  (bb_storage_rtc_region_valid (Some r) = true /\ burst r r' \/ bb_storage_rtc_region_valid (Some r') = false).

Fixpoint life {S} (step : rtc_op -> S -> rtc_answer * S) (ops : list rtc_op) (s : S) : list rtc_answer * S :=
  match ops with
  | [] => ([], s)
  | op :: ops => let '(x, s) := step op s in let '(xs, s) := life step ops s in (x :: xs, s)
  end.
Fixpoint life_ok (reg : registry) (ops : list rtc_op) (r : region) : Prop :=
  match ops with
  | [] => True
  | op :: ops => match op with RDamage r' => damage_ok r r' | _ => True end /\ life_ok reg ops (code_step reg op r).2
  end.

Section Life.
Context (reg : registry (W := region)) (Hreg : find_backend reg (bs "rtc") = Some s_rtc_vtable).

Lemma resolve_rtc ns key ok : resolve reg (Some (key_addr ns key)) ok =
  if negb ok then inl BB_ERR_INVALID_ARG else inr (key_addr ns key, s_rtc_vtable).
Proof. unfold resolve. cbn [a_backend key_addr]. destruct (negb ok); [done|]. by rewrite Hreg. Qed.

Lemma damage_forgets r r' : region_wf r -> damage_ok r r' -> region_ok r' /\ held r' = None.
Proof.
  intros Hw [Hw' H]. assert (Hv : bb_storage_rtc_region_valid (Some r') = false)
    by (destruct H as [[Hv Hb]|H]; [exact (burst_invalid r r' Hw Hw' Hb Hv)|done]).
  split; [split; [done|by rewrite Hv]|]. unfold held. by rewrite Hv.
Qed.

Lemma txn_keeps ns cap reqs fin r : region_ok r ->
  region_ok (code_txn reg ns cap reqs fin r).2 /\
  ((code_txn reg ns cap reqs fin r).1, held (code_txn reg ns cap reqs fin r).2) = keep_step (RTxn ns cap reqs fin) (held r).
Proof.
  intros Hr. unfold code_txn. cbn [keep_step].
  destruct (begin_batch reg ns (mk_handle txn0 None) cap Hreg eq_refl) as [H1 H2].
  destruct (bb_storage_txn_begin reg _ _ _ _ _) as [e h]. cbn [fst snd] in *. subst e.
  destruct (sets_batch cap reqs _ _ H2) as [H3 H4]. destruct (txn_sets h reqs) as [es h1], (batch_sets cap (inr ∅) reqs) as [es' b].
  cbn [fst snd] in *. subst es'. destruct fin; [|by destruct (abort_batch _ _ _ H4) as (t & -> & _)|done].
  destruct (commit_batch _ _ _ r H4 Hr) as (e & t & r' & -> & _ & H5 & H6). cbn [fst snd]. split; [done|].
  destruct b as [err|m]; destruct H6 as [-> H6]; [by subst|by rewrite H6].
Qed.

Lemma step_keeps op r : region_ok r -> match op with RDamage r' => damage_ok r r' | _ => True end ->
  region_ok (code_step reg op r).2 /\ ((code_step reg op r).1, held (code_step reg op r).2) = keep_step op (held r).
Proof.
  intros Hr Hop. destruct op as [ns key cap|ns key v|ns key|ns key|ns cap reqs fin| |r'];
    [..|by apply txn_keeps|done|]; cbn [code_step keep_step];
    unfold bb_storage_get, bb_storage_set, bb_storage_erase, bb_storage_exists; rewrite ?resolve_rtc, ?orb_true_r;
    cbn [negb andb is_some vt_get vt_set vt_erase vt_exists s_rtc_vtable].
  - by rewrite rtc_get_spec.
  - cbn [default from_option]. unfold id. rewrite firstn_all.
    destruct (rtc_set_spec ns key v r Hr) as [H1 H2]. destruct (rtc_set _ v r) as [e r']. cbn [fst snd] in *. by rewrite <- H2.
  - destruct (rtc_erase_spec ns key r Hr) as [H1 H2]. destruct (rtc_erase _ r) as [e r']. cbn [fst snd] in *. by rewrite <- H2.
  - by rewrite rtc_exists_spec.
  - destruct (damage_forgets r r') as [H1 H2]; [apply Hr|done|]. cbn [fst snd]. by rewrite H2.
Qed.

Lemma life_keeps ops : forall r, region_ok r -> life_ok reg ops r ->
  region_ok (life (code_step reg) ops r).2 /\
  ((life (code_step reg) ops r).1, held (life (code_step reg) ops r).2) = life keep_step ops (held r).
Proof.
  induction ops as [|op ops IH]; intros r Hr Hl; [done|]. destruct Hl as [Hop Hl]. cbn [life].
  destruct (step_keeps op r Hr Hop) as [H1 H2]. destruct (code_step reg op r) as [x r1]. cbn [fst snd] in *. rewrite <- H2.
  destruct (IH r1 H1 Hl) as [H3 H4]. destruct (life (code_step reg) ops r1) as [xs r2]. cbn [fst snd] in *.
  split; [done|]. by rewrite <- H4.
Qed.
End Life.

(** Packing: a valid region holding what fits of the two strings. *)
Lemma bounded_copy_spec dst src cap : (0 < cap <= length dst)%nat ->
  let text := take (cap - 1) (match src with Some s => cstr s | None => [] end) in
  length (bounded_copy dst src cap) = length dst /\ x00 ∈ bounded_copy dst src cap /\ cstr (bounded_copy dst src cap) = text.
Proof.
  intros Hc. cbv zeta. unfold bounded_copy. destruct src as [s|].
  - destruct (put_field_text (take (cap - 1) (cstr s)) dst) as [H1 H2].
    rewrite put_field_length by (rewrite length_take; lia). split_and!; [done|done|]. rewrite H1. apply cstr_id.
    apply Forall_take, cstr_no_nul.
  - rewrite put_field_length by (cbn; lia). destruct (put_field_text [] dst) as [H1 H2]. split_and!; [done|done|].
    rewrite H1. by rewrite take_nil.
Qed.

Lemma pack_held ssid pass prov :
  let text o n := take n (match o with Some s => cstr s | None => [] end) in
  let r := bb_storage_rtc_region_pack ssid pass prov in
  region_ok r /\ held r = Some (mk_creds (text ssid 31%nat) (text pass 63%nat) prov).
Proof.
  cbv zeta.
  destruct (bounded_copy_spec (repeat x00 SSID_SIZE) ssid SSID_SIZE) as (H1 & H2 & H3); [unfold SSID_SIZE; cbn; lia|].
  destruct (bounded_copy_spec (repeat x00 PASS_SIZE) pass PASS_SIZE) as (H4 & H5 & H6); [unfold PASS_SIZE; cbn; lia|].
  set (r0 := with_pass (bounded_copy (repeat x00 PASS_SIZE) pass PASS_SIZE)
      (with_ssid (bounded_copy (repeat x00 SSID_SIZE) ssid SSID_SIZE) (with_provisioned prov region_zero))).
  change (bb_storage_rtc_region_pack ssid pass prov) with (stamp r0).
  destruct (stamp_ok r0 H1 H4 H2 H5) as [H7 H8]. split; [exact H7|].
  etransitivity; [exact H8|]. subst r0. cbn [r_ssid r_pass r_provisioned with_pass with_ssid with_provisioned]. by rewrite H3, H6.
Qed.

(** A copy of the region that stops after its first 40 bytes can be accepted:
    these two network names have the same checksum, so the new name with the
    old password passes. *)
Definition torn_old : region := bb_storage_rtc_region_pack (Some (bs "home1")) (Some (bs "old")) x01.
Definition torn_new : region := bb_storage_rtc_region_pack (Some [x29; x69; x1c; xbe; x30]) (Some (bs "new")) x01.
Definition torn_copy : region :=
  mk_region (r_magic torn_new) (r_version torn_new) (r_provisioned torn_new) (r_pad torn_new) (r_ssid torn_new)
    (r_pass torn_old) (r_crc torn_old).
Example torn_copy_accepted :
  region_image torn_copy = take 40 (region_image torn_new) ++ drop 40 (region_image torn_old) /\
  held torn_copy = Some (mk_creds [x29; x69; x1c; xbe; x30] (bs "old") x01).
Proof. split; vm_compute; reflexivity. Qed.

(** * Properties *)

(** The region's checksum misses no burst.  Two regions whose 108 bytes
    differ in bits that lie within 32 consecutive bit positions, anywhere in
    the header, the text fields or the stored checksum itself, are never both
    valid: one flipped bit, or any damage to up to four adjacent bytes, of a
    valid region makes every key read as absent. *)
Theorem rtc_burst_detected r r' e k : region_wf r -> region_wf r' ->
  Z.lxor (le_value (region_image r)) (le_value (region_image r')) = Z.shiftl e k -> 0 <= k -> 0 < e < 2 ^ 32 ->
  bb_storage_rtc_region_valid (Some r) = true ->
  bb_storage_rtc_region_valid (Some r') = false /\
  forall ns key cap, (rtc_get (key_addr ns (Some key)) cap r').1.1 = BB_ERR_NOT_FOUND.
Proof.
  intros Hw Hw' Hx Hk He Hv. assert (H : bb_storage_rtc_region_valid (Some r') = false).
  { apply (burst_invalid r r'); try done. by exists e, k. }
  split; [done|]. intros ns key cap. unfold rtc_get. cbn [a_key key_addr]. by rewrite H.
Qed.

(** The first letter of the name changed in a valid region. *)
Definition wit_region : region := bb_storage_rtc_region_pack (Some (bs "home")) (Some (bs "secret")) x01.
Definition wit_damaged : region := with_ssid (put_field (bs "nome") (r_ssid wit_region)) wit_region.
Lemma wit_damaged_wf : region_wf wit_damaged.
Proof. split; vm_compute; [reflexivity|reflexivity|]. split; [discriminate|reflexivity]. Qed.
Lemma rtc_burst_detected_witness : bb_storage_rtc_region_valid (Some wit_damaged) = false.
Proof.
  refine (proj1 (rtc_burst_detected wit_region wit_damaged 6 64 _ _ _ _ _ _)).
  - exact (ro_wf _ (proj1 (pack_held (Some (bs "home")) (Some (bs "secret")) x01))).
  - exact wit_damaged_wf.
  - vm_compute. reflexivity.
  - lia.
  - lia.
  - vm_compute. reflexivity.
Defined.

(** C18: the mirror keeps the credentials or forgets them whole.  Through the
    facade, any sequence of reads, writes, erasures, queries and batches
    (committed, aborted or cut off by a reset before the commit), with any
    keys, lengths, capacities and encodings, across warm resets and across the
    damage the checksum detects, gets exactly the answers of a store that is
    either empty or holds one name, one password and one flag: a write to an
    empty store starts from blank fields, a batch is written as a whole or not
    at all and reports its first error, over-long text is refused and never
    cut, reads are NUL-terminated at every capacity, and erasing or damaging
    anything empties the store. *)
Theorem rtc_keeps_or_forgets reg ops r :
  find_backend reg (bs "rtc") = Some s_rtc_vtable -> region_ok r -> life_ok reg ops r ->
  ((life (code_step reg) ops r).1, held (life (code_step reg) ops r).2) = life keep_step ops (held r).
Proof. intros Hreg Hr Hl. by apply life_keeps. Qed.

Definition wit_rtc_ops : list rtc_op :=
  [RSet None (Some (bs "ssid")) (bs "lab"); RGet None (Some (bs "ssid")) 3;
   RTxn [] 2 [(bs "pass", BB_STORAGE_ENC_STR, bs "p"); (bs "ssid", BB_STORAGE_ENC_STR, bs "home")] EndCommit;
   RTxn [] 2 [(bs "pass", BB_STORAGE_ENC_STR, bs "q"); (bs "name", BB_STORAGE_ENC_STR, bs "x")] EndCommit;
   RWarmReset; RGet None (Some (bs "pass")) 16; RDamage wit_damaged; RGet None (Some (bs "pass")) 16;
   RExists None (Some (bs "ssid"))].
Lemma rtc_keeps_or_forgets_witness :
  (life (code_step (bb_storage_rtc_register []).2) wit_rtc_ops region_zero).1 =
  [ACode BB_OK; ARead (BB_OK, bs "la" ++ [x00], Some 3%nat);
   ATxn BB_OK [BB_OK; BB_OK] (Some BB_OK); ATxn BB_OK [BB_OK; BB_ERR_INVALID_ARG] (Some BB_ERR_INVALID_ARG);
   ANone; ARead (BB_OK, bs "p" ++ [x00], Some 1%nat); ANone; ARead (BB_ERR_NOT_FOUND, [], None); ABool false].
Proof.
  assert (H := rtc_keeps_or_forgets (bb_storage_rtc_register []).2 wit_rtc_ops region_zero eq_refl (proj1 zero_ok)).
  refine (eq_trans (f_equal fst (H _)) _).
  - cbn [life_ok wit_rtc_ops]. do 6 (split; [exact I|]). split; [|by split; [|split]].
    split; [exact wit_damaged_wf|]. right. vm_compute. reflexivity.
  - vm_compute. reflexivity.
Defined.
