(* ===== verification/LogLevel.v ===== *)
(** Log levels per tag: components/bb_log/src/bb_log_level.c (names and the
    tag registry) and bb_log_config.c (the configuration strings), over the
    list parser of Str. *)
From Stdlib Require Import Strings.String.
From S2P Require Import Prelude Bytes Storage Str.

(** * Levels and their names *)

Inductive log_level : Set :=
  | BB_LOG_LEVEL_NONE | BB_LOG_LEVEL_ERROR | BB_LOG_LEVEL_WARN
  | BB_LOG_LEVEL_INFO | BB_LOG_LEVEL_DEBUG | BB_LOG_LEVEL_VERBOSE.
#[export] Instance log_level_eq_dec : EqDecision log_level.
Proof. solve_decision. Defined.

Definition BB_LOG_LEVEL_LIST : list (log_level * list byte) :=
  [(BB_LOG_LEVEL_NONE, bs "none"); (BB_LOG_LEVEL_ERROR, bs "error"); (BB_LOG_LEVEL_WARN, bs "warn");
   (BB_LOG_LEVEL_INFO, bs "info"); (BB_LOG_LEVEL_DEBUG, bs "debug"); (BB_LOG_LEVEL_VERBOSE, bs "verbose")].

(** tolower of the C locale. *)
Definition tolower (b : byte) : byte := if (65 <=? bz b) && (bz b <=? 90) then zb (bz b + 32) else b.

(** [None]: the function returns false. *)
Definition bb_log_level_from_str (s : option (list byte)) : option log_level :=
  match s with
  | None => None
  | Some s =>
      let buf := map tolower (take 15 (cstr s)) in
      option_map fst (find (fun e => bool_decide (buf = e.2)) BB_LOG_LEVEL_LIST)
  end.
Definition bb_log_level_to_str (level : log_level) : list byte :=
  match find (fun e => bool_decide (e.1 = level)) BB_LOG_LEVEL_LIST with Some e => e.2 | None => bs "unknown" end.
Definition bb_log_level_console_letter (level : log_level) : byte :=
  match level with
  | BB_LOG_LEVEL_ERROR => x45 | BB_LOG_LEVEL_WARN => x57 | BB_LOG_LEVEL_INFO => x49
  | BB_LOG_LEVEL_DEBUG => x44 | BB_LOG_LEVEL_VERBOSE => x56 | BB_LOG_LEVEL_NONE => x3f
  end.

(** [name]: the slice, [None] is NULL. *)
Definition bb_log_level_from_name (name : option (list byte)) : option log_level :=
  match name with
  | None => None
  | Some name =>
      if (length name =? 0)%nat || (16 <=? length name)%nat then None else bb_log_level_from_str (Some (name ++ [x00]))
  end.

(** * The registry *)

Definition TAG_SIZE : nat := 32.

(** [None]: [used = false]. *)
Abbreviation tag_table := (list (option (cstring * log_level))).

Section Registry.
(** BB_LOG_REGISTRY_MAX, and what _bb_log_level_set_backend does to the
    platform's own table. *)
Context (BB_LOG_REGISTRY_MAX : nat) {B : Type} (set_backend : cstring -> log_level -> B -> B).

(** After _bb_log_registry_reset. *)
Definition registry_reset : tag_table := repeat None BB_LOG_REGISTRY_MAX.

Definition find_registry_entry (tag : cstring) (reg : tag_table) : option nat :=
  find_pos (fun e => match e with Some e => bool_decide (e.1 = tag) | None => false end) reg.

Definition registry_set (tag : cstring) (level : log_level) (reg : tag_table) : tag_table :=
  match find_registry_entry tag reg with
  | Some idx =>
      match reg !! idx with Some (Some e) => <[idx := Some (e.1, level)]> reg | _ => reg end
  | None =>
      match find_pos (fun e => negb (is_some e)) reg with
      | Some i => <[i := Some (cstr (bb_strlcpy (repeat x00 TAG_SIZE) (tag ++ [x00]) TAG_SIZE).2, level)]> reg
      | None => reg
      end
  end.

(** The registry and the platform's table. *)
Definition log_state : Type := tag_table * B.

Definition bb_log_level_set (tag : option cstring) (level : log_level) (s : log_state) : log_state :=
  match tag with
  | None => s
  | Some tag => (registry_set tag level s.1, set_backend tag level s.2)
  end.
Definition bb_log_tag_register (tag : option cstring) (level : log_level) (s : log_state) : log_state :=
  match tag with
  | None => s
  | Some tag =>
      if is_some (find_registry_entry tag s.1) then s else (registry_set tag level s.1, set_backend tag level s.2)
  end.
(** [out_ok]: the pointers are not NULL. *)
Definition bb_log_tag_level (tag : option cstring) (out_ok : bool) (reg : tag_table) : option log_level :=
  match tag with
  | None => None
  | Some tag =>
      if negb out_ok then None else
      match find_registry_entry tag reg with
      | None => None
      | Some idx => match reg !! idx with Some (Some e) => Some e.2 | _ => None end
      end
  end.
(** The scan that counts the used slots. *)
Fixpoint tag_at_loop (index count : nat) (reg : tag_table) : option (cstring * log_level) :=
  match reg with
  | [] => None
  | Some e :: reg => if (count =? index)%nat then Some e else tag_at_loop index (S count) reg
  | None :: reg => tag_at_loop index count reg
  end.
Definition bb_log_tag_at (index : nat) (out_ok : bool) (reg : tag_table) : option (cstring * log_level) :=
  if negb out_ok then None else tag_at_loop index 0 reg.

(** * The configuration strings (bb_log_config.c) *)

Definition bb_log_config_apply_kv (key val : list byte) (s : log_state) : log_state :=
  let copy_len := if (length key <? 31)%nat then length key else 31%nat in
  let tag_buf := take copy_len key in
  if (length val =? 0)%nat then s else
  match bb_log_level_from_name (Some val) with
  | None => s
  | Some level => bb_log_level_set (Some tag_buf) level s
  end.
Definition bb_log_config_apply_levels (text : option (list byte)) (s : log_state) : log_state :=
  bb_str_kv_parse bb_log_config_apply_kv text s.
Definition bb_log_config_apply (default_level_str levels_str : option (list byte)) (s : log_state) : bb_err * log_state :=
  let s := match bb_log_level_from_str default_level_str with
           | Some level => bb_log_level_set (Some (bs "*")) level s
           | None => s
           end in
  (BB_OK, bb_log_config_apply_levels levels_str s).

(** * What the registry is for: a bounded map from tags to levels *)

(** In the order of first use. *)
Abbreviation tag_levels := (list (cstring * log_level)).
Definition levels_get (tag : cstring) (m : tag_levels) : option log_level :=
  option_map snd (find (fun e => bool_decide (e.1 = tag)) m).
Definition levels_put (tag : cstring) (level : log_level) (m : tag_levels) : tag_levels :=
  if is_some (levels_get tag m) then map (fun e => if decide (e.1 = tag) then (tag, level) else e) m
  else if decide (length m < BB_LOG_REGISTRY_MAX)%nat then m ++ [(tag, level)] else m.

Inductive log_op : Type :=
  | LSet (tag : cstring) (level : log_level)
  | LRegister (tag : cstring) (level : log_level)
  | LLevel (tag : cstring)
  | LAt (index : nat)
  | LApply (default : option (list byte)) (kvs : list (list byte * list byte)).
Inductive log_answer : Type := LNone | LLevelIs (l : option log_level) | LEntry (e : option (cstring * log_level)) | LCode (e : bb_err).

Definition log_step (op : log_op) (s : log_state) : log_answer * log_state :=
  match op with
  | LSet tag level => (LNone, bb_log_level_set (Some tag) level s)
  | LRegister tag level => (LNone, bb_log_tag_register (Some tag) level s)
  | LLevel tag => (LLevelIs (bb_log_tag_level (Some tag) true s.1), s)
  | LAt index => (LEntry (bb_log_tag_at index true s.1), s)
  | LApply default kvs => let '(e, s) := bb_log_config_apply default (Some (kv_print kvs)) s in (LCode e, s)
  end.

(** The map, and the calls the platform gets. *)
Definition map_set (tag : cstring) (level : log_level) (m : tag_levels * B) : tag_levels * B :=
  (levels_put tag level m.1, set_backend tag level m.2).
Definition map_pair (kv : list byte * list byte) (m : tag_levels * B) : tag_levels * B :=
  match bb_log_level_from_name (Some kv.2) with Some level => map_set (take 31 kv.1) level m | None => m end.
Definition map_step (op : log_op) (m : tag_levels * B) : log_answer * (tag_levels * B) :=
  match op with
  | LSet tag level => (LNone, map_set tag level m)
  | LRegister tag level => (LNone, if is_some (levels_get tag m.1) then m else map_set tag level m)
  | LLevel tag => (LLevelIs (levels_get tag m.1), m)
  | LAt index => (LEntry (m.1 !! index), m)
  | LApply default kvs =>
      let m := match bb_log_level_from_str default with Some level => map_set (bs "*") level m | None => m end in
      (LCode BB_OK, fold_left (fun m kv => map_pair kv m) kvs m)
  end.

(** Tags that fit their slot; configuration text that is a list of pairs. *)
Definition tag_fits (tag : cstring) : Prop := (length tag < TAG_SIZE)%nat /\ Forall (fun b => b <> x00) tag.
Definition log_op_ok (op : log_op) : Prop :=
  match op with
  | LSet tag _ | LRegister tag _ | LLevel tag => tag_fits tag
  | LAt _ => True
  | LApply _ kvs => Forall kv_ok kvs
  end.

Fixpoint log_run {S} (step : log_op -> S -> log_answer * S) (ops : list log_op) (s : S) : list log_answer * S :=
  match ops with
  | [] => ([], s)
  | op :: ops => let '(x, s) := step op s in let '(xs, s) := log_run step ops s in (x :: xs, s)
  end.

(** ** The table is a list of entries before the free slots *)

Definition table_of (m : tag_levels) : tag_table := map Some m ++ repeat None (BB_LOG_REGISTRY_MAX - length m).
Record log_rel (s : log_state) (m : tag_levels * B) : Prop := {
  lr_table : s.1 = table_of m.1;
  lr_room : (length m.1 <= BB_LOG_REGISTRY_MAX)%nat;
  lr_backend : s.2 = m.2;
  lr_tags : NoDup m.1.*1
}.

Lemma find_pos_app {A} (f : A -> bool) l1 l2 : find_pos f (l1 ++ l2) =
  match find_pos f l1 with Some i => Some i | None => option_map (Nat.add (length l1)) (find_pos f l2) end.
Proof.
  induction l1 as [|x l1 IH]; cbn; [by destruct (find_pos f l2)|]. destruct (f x); [done|]. rewrite IH.
  destruct (find_pos f l1); [done|]. by destruct (find_pos f l2).
Qed.
Lemma find_pos_none {A} (f : A -> bool) l : Forall (fun x => f x = false) l -> find_pos f l = None.
Proof. induction 1 as [|x l Hx _ IH]; cbn; [done|]. by rewrite Hx, IH. Qed.

Lemma find_registry_spec tag m :
  match find_registry_entry tag (table_of m) with
  | Some i => exists l, m !! i = Some (tag, l) /\ levels_get tag m = Some l
  | None => levels_get tag m = None
  end.
Proof.
  unfold find_registry_entry, table_of. rewrite find_pos_app.
  rewrite (find_pos_none _ (repeat None _)) by (apply Forall_forall; by intros x ->%list_elem_of_In%repeat_spec).
  induction m as [|[t l] m IH]; [done|]. cbn [map find_pos]. unfold levels_get. cbn [find fst].
  case_bool_decide as E; [subst t; by exists l|]. fold (levels_get tag m).
  destruct (find_pos _ (map Some m)) as [i|]; cbn [option_map] in *; exact IH.
Qed.

Lemma table_slot m i e : m !! i = Some e -> table_of m !! i = Some (Some e).
Proof.
  intros H. unfold table_of. rewrite lookup_app_l by (rewrite length_map; by eapply lookup_lt_Some).
  rewrite list_lookup_fmap. by rewrite H.
Qed.

Lemma table_update m i e : (i < length m)%nat -> <[i := Some e]> (table_of m) = table_of (<[i := e]> m).
Proof.
  intros H. unfold table_of. rewrite insert_app_l by (by rewrite length_map).
  rewrite length_insert. by rewrite list_fmap_insert.
Qed.

Lemma table_free m : (length m <= BB_LOG_REGISTRY_MAX)%nat ->
  find_pos (fun e => negb (is_some e)) (table_of m) =
  if decide (length m < BB_LOG_REGISTRY_MAX)%nat then Some (length m) else None.
Proof.
  intros Hm. unfold table_of. rewrite find_pos_app.
  rewrite (find_pos_none _ (map Some m)) by (apply Forall_map, Forall_true; done). rewrite length_map. case_decide as H.
  - destruct (BB_LOG_REGISTRY_MAX - length m)%nat as [|k] eqn:E; [lia|]. cbn. f_equal. lia.
  - by replace (BB_LOG_REGISTRY_MAX - length m)%nat with 0%nat by lia.
Qed.
Lemma table_append m e : (length m < BB_LOG_REGISTRY_MAX)%nat -> <[length m := Some e]> (table_of m) = table_of (m ++ [e]).
Proof.
  intros H. unfold table_of. rewrite insert_app_r_alt by (by rewrite length_map). rewrite length_map, Nat.sub_diag.
  destruct (BB_LOG_REGISTRY_MAX - length m)%nat as [|k] eqn:E; [lia|]. cbn [repeat insert list_insert].
  rewrite map_app, length_app. cbn [map length]. rewrite <- app_assoc. cbn [app]. do 3 f_equal. lia.
Qed.

(** Changing the level of the one entry of a tag. *)
Lemma update_entry (m : tag_levels) i tag l level : NoDup m.*1 -> m !! i = Some (tag, l) ->
  <[i := (tag, level)]> m = map (fun e => if decide (e.1 = tag) then (tag, level) else e) m.
Proof.
  intros Hn Hi. apply list_eq. intros j. rewrite list_lookup_fmap. destruct (decide (j = i)) as [->|Hj].
  - rewrite list_lookup_insert_eq by (by eapply lookup_lt_Some). rewrite Hi. cbn. by rewrite decide_True.
  - rewrite list_lookup_insert_ne by done. destruct (m !! j) as [[t l']|] eqn:E; [|done]. cbn. case_decide as Ht; [|done].
    subst t. exfalso. apply Hj. eapply NoDup_lookup; [exact Hn| |]; rewrite list_lookup_fmap; [by rewrite E|by rewrite Hi].
Qed.
Lemma update_tags (m : tag_levels) tag level : (map (fun e => if decide (e.1 = tag) then (tag, level) else e) m).*1 = m.*1.
Proof. induction m as [|[t l] m IH]; [done|]. cbn. case_decide as H; cbn; rewrite IH; [by rewrite <- H|done]. Qed.
Lemma levels_get_in tag (m : tag_levels) : levels_get tag m = None -> tag ∉ m.*1.
Proof.
  unfold levels_get. induction m as [|[t l] m IH]; [by intros _ ?%elem_of_nil|]. cbn. case_bool_decide as E; [done|].
  intros H [->|Hin]%elem_of_cons; [done|]. by apply IH.
Qed.

Lemma slot_text tag : tag_fits tag -> cstr (bb_strlcpy (repeat x00 TAG_SIZE) (tag ++ [x00]) TAG_SIZE).2 = tag.
Proof.
  intros [Hl Hn]. destruct (strlcpy_spec (repeat x00 TAG_SIZE) (tag ++ [x00]) TAG_SIZE) as (_ & _ & ->); [unfold TAG_SIZE; cbn; lia|].
  rewrite cstr_nul by done. apply take_ge. unfold TAG_SIZE in *. lia.
Qed.

Lemma log_set_rel tag level s m : tag_fits tag -> log_rel s m -> log_rel (bb_log_level_set (Some tag) level s) (map_set tag level m).
Proof.
  intros Ht [H1 H2 H3 H4]. destruct s as [reg b], m as [m b']. cbn [fst snd] in *. subst reg b'.
  unfold bb_log_level_set, map_set, registry_set, levels_put. cbn [fst snd].
  pose proof (find_registry_spec tag m) as Hf. destruct (find_registry_entry tag (table_of m)) as [i|].
  - destruct Hf as (l & Hi & ->). rewrite (table_slot _ _ _ Hi). cbn [is_some fst].
    pose proof (lookup_lt_Some _ _ _ Hi) as Hlt.
    rewrite table_update by done. rewrite (update_entry m i tag l level) by done.
    split; cbn [fst snd]; [done|by rewrite length_map|done|by rewrite update_tags].
  - rewrite Hf. cbn [is_some]. rewrite table_free by done. case_decide as Hr.
    + rewrite slot_text by done. rewrite table_append by done. split; cbn [fst snd]; [done|rewrite length_app; cbn; lia|done|].
      rewrite fmap_app. apply NoDup_app. split_and!; [done| |by apply NoDup_singleton].
      intros x Hx ->%list_elem_of_singleton. by apply levels_get_in in Hf.
    + by split.
Qed.

Lemma tag_at_list k (m : tag_levels) : forall index count, (count <= index)%nat ->
  tag_at_loop index count (map Some m ++ repeat None k) = m !! (index - count)%nat.
Proof.
  induction m as [|e m IH]; intros index count Hc.
  - cbn [map app]. rewrite lookup_nil. by induction k.
  - cbn [map app tag_at_loop]. destruct (Nat.eqb_spec count index) as [->|Hne]; [by rewrite Nat.sub_diag|].
    replace (index - count)%nat with (S (index - S count)) by lia. apply IH. lia.
Qed.

Lemma short_tag key : Forall (fun b => b <> x00) key -> tag_fits (take 31 key).
Proof. intros H. split; [rewrite length_take; unfold TAG_SIZE; lia|by apply Forall_take]. Qed.

Lemma pair_rel kv s m : kv_ok kv -> log_rel s m -> log_rel (bb_log_config_apply_kv kv.1 kv.2 s) (map_pair kv m).
Proof.
  intros (_ & _ & _ & Hk & _) Hr. unfold bb_log_config_apply_kv, map_pair.
  replace (if (length kv.1 <? 31)%nat then length kv.1 else 31%nat) with (Nat.min 31 (length kv.1))
    by (destruct (Nat.ltb_spec (length kv.1) 31); lia).
  assert (E : take (Nat.min 31 (length kv.1)) kv.1 = take 31 kv.1)
    by (rewrite <- take_take; f_equal; by apply take_ge).
  rewrite E. destruct (Nat.eqb_spec (length kv.2) 0) as [E0|]; [by destruct kv.2|].
  destruct (bb_log_level_from_name (Some kv.2)) as [level|]; [|done]. apply log_set_rel; [|done]. apply short_tag.
  eapply Forall_impl; [exact Hk|]. by intros b [? _].
Qed.

Lemma pairs_rel kvs : Forall kv_ok kvs -> forall s m, log_rel s m ->
  log_rel (fold_left (fun s kv => bb_log_config_apply_kv kv.1 kv.2 s) kvs s) (fold_left (fun m kv => map_pair kv m) kvs m).
Proof. induction 1 as [|kv kvs Hkv _ IH]; intros s m Hr; [done|]. cbn [fold_left]. by apply IH, pair_rel. Qed.

Lemma log_step_rel op s m : log_op_ok op -> log_rel s m ->
  (log_step op s).1 = (map_step op m).1 /\ log_rel (log_step op s).2 (map_step op m).2.
Proof.
  intros Hop Hr. pose proof (lr_table _ _ Hr) as Ht. destruct op as [tag level|tag level|tag|index|default kvs]; cbn [log_step map_step fst snd].
  - split; [done|]. by apply log_set_rel.
  - split; [done|]. unfold bb_log_tag_register. rewrite Ht. pose proof (find_registry_spec tag m.1) as Hf.
    destruct (find_registry_entry tag (table_of m.1)) as [i|]; cbn [is_some].
    + destruct Hf as (l & _ & ->). done.
    + rewrite Hf. cbn [is_some]. rewrite <- Ht. by apply (log_set_rel tag level).
  - split; [|done]. unfold bb_log_tag_level. rewrite Ht. cbn [negb]. pose proof (find_registry_spec tag m.1) as Hf.
    destruct (find_registry_entry tag (table_of m.1)) as [i|]; [|by rewrite Hf].
    destruct Hf as (l & Hi & ->). by rewrite (table_slot _ _ _ Hi).
  - split; [|done]. unfold bb_log_tag_at. cbn [negb]. rewrite Ht. unfold table_of. rewrite tag_at_list by lia. by rewrite Nat.sub_0_r.
  - unfold bb_log_config_apply, bb_log_config_apply_levels. rewrite kv_roundtrip by done. split; [done|]. apply pairs_rel; [done|].
    destruct (bb_log_level_from_str default) as [level|]; [|done]. apply log_set_rel; [|done]. split; [apply Nat.ltb_lt; reflexivity|by repeat constructor].
Qed.

Lemma log_run_rel ops : forall s m, Forall log_op_ok ops -> log_rel s m ->
  (log_run log_step ops s).1 = (log_run map_step ops m).1 /\ log_rel (log_run log_step ops s).2 (log_run map_step ops m).2.
Proof.
  induction ops as [|op ops IH]; intros s m Ho Hr; [done|]. apply Forall_cons in Ho as [Hop Ho]. cbn [log_run].
  destruct (log_step_rel op s m Hop Hr) as [H1 H2]. destruct (log_step op s) as [x s1], (map_step op m) as [x' m1]. cbn [fst snd] in *. subst x'.
  destruct (IH s1 m1 Ho H2) as [H3 H4]. destruct (log_run log_step ops s1) as [xs s2], (log_run map_step ops m1) as [xs' m2]. cbn [fst snd] in *.
  by subst xs'.
Qed.

(** ** Level names *)

Lemma level_name_roundtrip level : bb_log_level_from_str (Some (bb_log_level_to_str level)) = Some level /\
  bb_log_level_from_name (Some (bb_log_level_to_str level)) = Some level /\ trimmed (bb_log_level_to_str level).
Proof. by destruct level. Qed.

(** A tag of 32 bytes or more is stored cut and never found again: setting its
    level over and over takes every slot there is. *)
Lemma long_tag_lost (tag : cstring) level (reg : tag_table) : (TAG_SIZE <= length tag)%nat -> Forall (fun b => b <> x00) tag ->
  Forall (fun e => match e with Some e => (length e.1 < TAG_SIZE)%nat | None => True end) reg ->
  find_registry_entry tag (registry_set tag level reg) = None /\
  Forall (fun e => match e with Some e => (length e.1 < TAG_SIZE)%nat | None => True end) (registry_set tag level reg).
Proof.
  intros Hl Hn Hr.
  assert (Hnone : forall r, Forall (fun e => match e with Some e => (length e.1 < TAG_SIZE)%nat | None => True end) r ->
    find_registry_entry tag r = None).
  { intros r H. apply find_pos_none. eapply Forall_impl; [exact H|]. intros [e|] He; [|done]. apply bool_decide_false. destruct e as [t l]. cbn [fst] in *. intros ->. lia. }
  unfold registry_set. rewrite (Hnone reg Hr). destruct (find_pos (fun e => negb (is_some e)) reg) as [i|]; [|by split; [apply Hnone|]].
  assert (Hnew : Forall (fun e => match e with Some e => (length e.1 < TAG_SIZE)%nat | None => True end)
    (<[i:=Some (cstr (bb_strlcpy (repeat x00 TAG_SIZE) (tag ++ [x00]) TAG_SIZE).2, level)]> reg)).
  { apply Forall_insert; [done|]. cbn [fst].
    destruct (strlcpy_spec (repeat x00 TAG_SIZE) (tag ++ [x00]) TAG_SIZE) as (_ & _ & ->); [unfold TAG_SIZE; cbn; lia|].
    rewrite length_take. unfold TAG_SIZE in *. lia. }
  by split; [apply Hnone|].
Qed.
End Registry.

(** Thirty-two settings of one long tag, and no other tag fits any more. *)
Definition long_tag : cstring := bs "component.subcomponent.instance.0".
Example long_tag_fills_registry :
  let s := fold_left (fun s _ => bb_log_level_set (fun _ _ b => b) (Some long_tag) BB_LOG_LEVEL_DEBUG s) (seq 0 32)
    (registry_reset 32, tt) in
  bb_log_tag_level (Some long_tag) true s.1 = None /\
  bb_log_tag_level (Some (bs "wifi")) true (bb_log_level_set (fun _ _ b => b) (Some (bs "wifi")) BB_LOG_LEVEL_INFO s).1 = None.
Proof. vm_compute. done. Qed.

(** * Properties *)

(** The log registry is a bounded map.  From a reset registry of any size,
    any sequence of settings, registrations, queries, listings and applied
    configuration strings answers as a map from tags to levels in the order of
    first use: a setting replaces the tag's level or adds the tag while there
    is room, registering a known tag changes nothing, and applying a default
    and a printed list of pairs sets "*" and then the pairs with a known level
    name in their order, the last one winning.  The platform's own table gets
    the same calls in the same order, those that found no room included.
    Tags passed directly have at most 31 bytes; those of a configuration
    string are cut to 31. *)
Theorem log_levels_refine_map {B} max (set_backend : cstring -> log_level -> B -> B) ops b :
  Forall log_op_ok ops ->
  let r := log_run (log_step set_backend) ops (registry_reset max, b) in
  let q := log_run (map_step max set_backend) ops ([], b) in
  r.1 = q.1 /\ r.2 = (table_of max q.2.1, q.2.2) /\ (length q.2.1 <= max)%nat /\ NoDup q.2.1.*1.
Proof.
  intros Ho. cbv zeta. destruct (log_run_rel max set_backend ops (registry_reset max, b) ([], b)) as [H1 [H2 H3 H4 H5]]; [done| |].
  - split; [|cbn; lia|done|constructor]. unfold table_of. cbn. by rewrite Nat.sub_0_r.
  - split; [done|]. split; [|done]. by rewrite <- H2, <- H4; destruct (log_run _ _ _) as [xs [reg b']].
Qed.

Definition wit_log_ops : list log_op :=
  [LRegister (bs "http") BB_LOG_LEVEL_WARN; LApply (Some (bs "Info")) [(bs "wifi", bs "debug"); (bs "http", bs "loud"); (bs "wifi", bs "ERROR")];
   LRegister (bs "wifi") BB_LOG_LEVEL_NONE; LLevel (bs "wifi"); LLevel (bs "http"); LAt 1; LAt 3; LLevel (bs "mqtt")].
Lemma log_levels_refine_map_witness :
  (log_run (log_step (fun t l (b : list (cstring * log_level)) => b ++ [(t, l)])) wit_log_ops (registry_reset 3, [])).1 =
  [LNone; LCode BB_OK; LNone; LLevelIs (Some BB_LOG_LEVEL_ERROR); LLevelIs (Some BB_LOG_LEVEL_WARN);
   LEntry (Some (bs "*", BB_LOG_LEVEL_INFO)); LEntry None; LLevelIs None].
Proof.
  refine (eq_trans (proj1 (log_levels_refine_map 3 (fun t l (b : list (cstring * log_level)) => b ++ [(t, l)]) wit_log_ops [] _)) _).
  - repeat constructor; try done; cbn; lia || done.
  - vm_compute. reflexivity.
Defined.
