(* ===== verification/Config.v ===== *)
(** Typed configuration over the storage facade:
    platform/host/bb_config/bb_config.c (accessors) and bb_config_staged.c
    (sessions of staged writes over a storage transaction). *)
From Stdlib Require Import Strings.String.
From S2P Require Import Prelude Bytes Str Storage.

(** * Fields (bb_config.h) *)

Inductive config_type : Set :=
  | BB_CONFIG_BOOL | BB_CONFIG_U8 | BB_CONFIG_U16 | BB_CONFIG_U32 | BB_CONFIG_I32 | BB_CONFIG_STR | BB_CONFIG_BLOB.
#[export] Instance config_type_eq_dec : EqDecision config_type.
Proof. solve_decision. Defined.

(** What each member of the union reads; [d_str = None] is NULL. *)
Record config_default := mk_default {
  d_b : bool; d_u8 : Z; d_u16 : Z; d_u32 : Z; d_i32 : Z; d_str : option cstring
}.
(** The part of the descriptor the accessors use: the form metadata and the
    identifier are carried for other readers. *)
Record config_field := mk_cfield {
  cf_type : config_type;
  cf_addr : addr;
  cf_max_len : nat;
  cf_def : config_default;
  cf_has_default : bool
}.

Definition bb_config_type_to_enc (t : config_type) : storage_enc :=
  match t with
  | BB_CONFIG_BOOL | BB_CONFIG_U8 => BB_STORAGE_ENC_U8
  | BB_CONFIG_U16 => BB_STORAGE_ENC_U16
  | BB_CONFIG_U32 => BB_STORAGE_ENC_U32
  | BB_CONFIG_I32 => BB_STORAGE_ENC_I32
  | BB_CONFIG_STR => BB_STORAGE_ENC_STR
  | BB_CONFIG_BLOB => BB_STORAGE_ENC_BLOB
  end.
Definition bb_config_scalar_width (t : config_type) : nat :=
  match t with
  | BB_CONFIG_BOOL | BB_CONFIG_U8 => 1
  | BB_CONFIG_U16 => 2
  | BB_CONFIG_U32 | BB_CONFIG_I32 => 4
  | BB_CONFIG_STR | BB_CONFIG_BLOB => 0
  end.

(** A buffer whose first bytes were overwritten. *)
Definition overlay (bytes buf : list byte) : list byte := bytes ++ drop (length bytes) buf.

(** * Accessors *)

Section Config.
Context {W : Type} (reg : registry (W := W)).

(** [f = None]: NULL.  The second component is what [buf] holds. *)
Definition scalar_get (f : option config_field) (want : config_type) (w : W) : bb_err * list byte :=
  match f with
  | None => (BB_ERR_INVALID_ARG, [])
  | Some f =>
      if negb (bool_decide (cf_type f = want)) then (BB_ERR_INVALID_ARG, []) else
      let width := bb_config_scalar_width want in
      let '(rc, bytes, out_len) :=
        bb_storage_get_typed reg (Some (cf_addr f)) (bb_config_type_to_enc (cf_type f)) true width true w in
      let buf := overlay bytes (repeat x00 width) in
      if negb (is_ok rc) then (rc, buf) else
      if negb (default 0%nat out_len =? width)%nat then (BB_ERR_INVALID_STATE, buf) else (BB_OK, buf)
  end.
Definition scalar_set (f : option config_field) (want : config_type) (buf : list byte) (w : W) : bb_err * W :=
  match f with
  | None => (BB_ERR_INVALID_ARG, w)
  | Some f =>
      if negb (bool_decide (cf_type f = want)) then (BB_ERR_INVALID_ARG, w) else
      bb_storage_set_typed reg (Some (cf_addr f)) (bb_config_type_to_enc (cf_type f)) (Some buf) (bb_config_scalar_width want) w
  end.

(** What the typed getters share: NULL [out], the default of an absent field,
    the decoded bytes.  The second component is [*out] if it was written. *)
Definition scalar_read {V} (f : option config_field) (want : config_type) (out_ok : bool) (def : config_default -> V)
    (decode : list byte -> V) (w : W) : bb_err * option V :=
  if negb out_ok then (BB_ERR_INVALID_ARG, None) else
  let '(rc, buf) := scalar_get f want w in
  if bool_decide (rc = BB_ERR_NOT_FOUND) && match f with Some f => cf_has_default f | None => false end
  then (BB_OK, match f with Some f => Some (def (cf_def f)) | None => None end) else
  if negb (is_ok rc) then (rc, None) else (BB_OK, Some (decode buf)).

Definition bb_config_get_bool f out_ok w := scalar_read f BB_CONFIG_BOOL out_ok d_b (fun buf => negb (at_byte buf 0 =? 0)) w.
Definition bb_config_set_bool f (v : bool) w := scalar_set f BB_CONFIG_BOOL [if v then x01 else x00] w.
Definition bb_config_get_u8 f out_ok w := scalar_read f BB_CONFIG_U8 out_ok d_u8 (fun buf => at_byte buf 0) w.
Definition bb_config_set_u8 f (v : Z) w := scalar_set f BB_CONFIG_U8 [zb v] w.
Definition bb_config_get_u16 f out_ok w := scalar_read f BB_CONFIG_U16 out_ok d_u16 bb_load_le16 w.
Definition bb_config_set_u16 f (v : Z) w := scalar_set f BB_CONFIG_U16 (bb_store_le16 v) w.
Definition bb_config_get_u32 f out_ok w := scalar_read f BB_CONFIG_U32 out_ok d_u32 bb_load_le32 w.
Definition bb_config_set_u32 f (v : Z) w := scalar_set f BB_CONFIG_U32 (bb_store_le32 v) w.
Definition bb_config_get_i32 f out_ok w :=
  scalar_read f BB_CONFIG_I32 out_ok d_i32 (fun buf => to_signed 32 (bb_load_le32 buf)) w.
Definition bb_config_set_i32 f (v : Z) w := scalar_set f BB_CONFIG_I32 (bb_store_le32 (u32 v)) w.

(** [buf] is the caller's buffer of [cap] bytes before the call (NULL when not
    [buf_ok]); the result is the code, the buffer after it, and [*out_len] if
    it was written. *)
Definition bb_config_get_str (f : option config_field) (buf_ok : bool) (buf : list byte) (cap : nat) (len_ok : bool) (w : W)
  : bb_err * list byte * option nat :=
  match f with
  | None => (BB_ERR_INVALID_ARG, buf, None)
  | Some f =>
      if negb (bool_decide (cf_type f = BB_CONFIG_STR)) || negb len_ok || ((0 <? cap)%nat && negb buf_ok)
      then (BB_ERR_INVALID_ARG, buf, None) else
      let '(rc, bytes, out_len) := bb_storage_get_typed reg (Some (cf_addr f)) BB_STORAGE_ENC_STR buf_ok cap true w in
      let buf := overlay bytes buf in
      let buf := if is_ok rc && (0 <? cap)%nat
                 then let n := default 0%nat out_len in <[(if (n <? cap)%nat then n else (cap - 1)%nat) := x00]> buf
                 else buf in
      if bool_decide (rc = BB_ERR_NOT_FOUND) && cf_has_default f then
        let def := default [] (d_str (cf_def f)) in
        if (cf_max_len f <=? length def)%nat then (BB_ERR_INVALID_ARG, buf, out_len) else
        (BB_OK, if (0 <? cap)%nat then (bb_strlcpy buf (def ++ [x00]) cap).2 else buf, Some (length def))
      else (rc, buf, out_len)
  end.
Definition bb_config_set_str (f : option config_field) (v : option cstring) (w : W) : bb_err * W :=
  match f, v with
  | Some f, Some v =>
      if negb (bool_decide (cf_type f = BB_CONFIG_STR)) then (BB_ERR_INVALID_ARG, w) else
      if (cf_max_len f <=? length v)%nat then (BB_ERR_INVALID_ARG, w) else
      bb_storage_set_typed reg (Some (cf_addr f)) BB_STORAGE_ENC_STR (Some v) (length v) w
  | _, _ => (BB_ERR_INVALID_ARG, w)
  end.

Definition bb_config_get_blob (f : option config_field) (buf_ok : bool) (buf : list byte) (cap : nat) (len_ok : bool) (w : W)
  : bb_err * list byte * option nat :=
  match f with
  | None => (BB_ERR_INVALID_ARG, buf, None)
  | Some f =>
      if negb (bool_decide (cf_type f = BB_CONFIG_BLOB)) || negb len_ok || ((0 <? cap)%nat && negb buf_ok)
      then (BB_ERR_INVALID_ARG, buf, None) else
      let '(rc, bytes, out_len) := bb_storage_get_typed reg (Some (cf_addr f)) BB_STORAGE_ENC_BLOB buf_ok cap true w in
      (rc, overlay bytes buf, out_len)
  end.
Definition bb_config_set_blob (f : option config_field) (v : option (list byte)) (len : nat) (w : W) : bb_err * W :=
  match f with
  | None => (BB_ERR_INVALID_ARG, w)
  | Some f =>
      if negb (bool_decide (cf_type f = BB_CONFIG_BLOB)) || ((0 <? len)%nat && negb (is_some v)) then (BB_ERR_INVALID_ARG, w) else
      if (cf_max_len f <? len)%nat then (BB_ERR_INVALID_ARG, w) else
      bb_storage_set_typed reg (Some (cf_addr f)) BB_STORAGE_ENC_BLOB v len w
  end.

Definition bb_config_erase (f : option config_field) (w : W) : bb_err * W :=
  match f with None => (BB_ERR_INVALID_ARG, w) | Some f => bb_storage_erase reg (Some (cf_addr f)) w end.
Definition bb_config_exists (f : option config_field) (w : W) : bool :=
  match f with None => false | Some f => bb_storage_exists reg (Some (cf_addr f)) w end.

(** * Staged sessions (bb_config_staged.c) *)

Record config_staged := mk_staged {
  cs_txn : txn_handle (W := W);
  cs_backend : option cstring;
  cs_ns_or_dir : option cstring;
  cs_local_err : bb_err;
  cs_closed : bool
}.
(** The zero-initialised handle. *)
Definition staged0 : config_staged := mk_staged (mk_handle txn0 None) None None BB_OK false.

Definition set_local_err (e : bb_err) (h : config_staged) : config_staged :=
  mk_staged (cs_txn h) (cs_backend h) (cs_ns_or_dir h) e (cs_closed h).
Definition set_closed (t : txn_handle) (h : config_staged) : config_staged :=
  mk_staged t (cs_backend h) (cs_ns_or_dir h) (cs_local_err h) true.
Definition set_staged_txn (t : txn_handle) (h : config_staged) : config_staged :=
  mk_staged t (cs_backend h) (cs_ns_or_dir h) (cs_local_err h) (cs_closed h).

Definition poison (h : config_staged) (err : bb_err) : bb_err * config_staged :=
  let h := if is_ok (cs_local_err h) then set_local_err err h else h in (cs_local_err h, h).

(** Both NULL, or equal text. *)
Definition str_eq (a b : option cstring) : bool := bool_decide (a = b).

Definition precheck (h : config_staged) (f : option config_field) (want : config_type) : bb_err * config_staged :=
  if cs_closed h then (BB_ERR_INVALID_STATE, h) else
  if negb (is_ok (cs_local_err h)) then (cs_local_err h, h) else
  match f with
  | None => poison h BB_ERR_INVALID_ARG
  | Some f =>
      if negb (bool_decide (cf_type f = want)) then poison h BB_ERR_INVALID_ARG else
      if negb (str_eq (a_backend (cf_addr f)) (cs_backend h)) || negb (str_eq (a_ns_or_dir (cf_addr f)) (cs_ns_or_dir h))
      then poison h BB_ERR_INVALID_ARG else (BB_OK, h)
  end.

(** The key forwarded to the transaction; [f] has passed the check. *)
Definition stage_forward (h : config_staged) (f : option config_field) (enc : storage_enc) (buf : list byte)
  : bb_err * config_staged :=
  let '(e, t) := bb_storage_txn_set (Some (cs_txn h)) (f ≫= fun f => a_key (cf_addr f)) enc buf in
  (e, set_staged_txn (default (cs_txn h) t) h).

Definition stage_scalar (h : config_staged) (f : option config_field) (want : config_type) (buf : list byte)
  : bb_err * config_staged :=
  let '(rc, h) := precheck h f want in
  if negb (is_ok rc) then (rc, h) else stage_forward h f (bb_config_type_to_enc want) buf.

(** [slots_ok], [cap]: the caller's slots. *)
Definition bb_config_staged_begin (h : option config_staged) (backend ns_or_dir : option cstring) (slots_ok : bool) (cap : nat)
  : bb_err * option config_staged :=
  match h with
  | None => (BB_ERR_INVALID_ARG, None)
  | Some h =>
      let '(e, t) := bb_storage_txn_begin reg backend ns_or_dir (Some (cs_txn h)) slots_ok cap in
      (e, Some (mk_staged (default (cs_txn h) t) backend ns_or_dir BB_OK false))
  end.

Definition bb_config_staged_commit (h : option config_staged) (w : W) : bb_err * option config_staged * W :=
  match h with
  | None => (BB_ERR_INVALID_ARG, None, w)
  | Some h =>
      if cs_closed h then (BB_ERR_INVALID_STATE, Some h, w) else
      if negb (is_ok (cs_local_err h)) then
        let '(_, t) := bb_storage_txn_abort (Some (cs_txn h)) in
        (cs_local_err h, Some (set_closed (default (cs_txn h) t) h), w)
      else
        let '(rc, t, w) := bb_storage_txn_commit (Some (cs_txn h)) w in
        (rc, Some (set_closed (default (cs_txn h) t) h), w)
  end.

Definition bb_config_staged_discard (h : option config_staged) : bb_err * option config_staged :=
  match h with
  | None => (BB_ERR_INVALID_ARG, None)
  | Some h =>
      if cs_closed h then (BB_OK, Some h) else
      let '(rc, t) := bb_storage_txn_abort (Some (cs_txn h)) in
      (rc, Some (set_closed (default (cs_txn h) t) h))
  end.

(** The NULL check of every setter. *)
Definition on_handle (h : option config_staged) (set : config_staged -> bb_err * config_staged) : bb_err * option config_staged :=
  match h with None => (BB_ERR_INVALID_ARG, None) | Some h => let '(e, h) := set h in (e, Some h) end.

Definition bb_config_staged_set_bool h f (v : bool) := on_handle h (fun h => stage_scalar h f BB_CONFIG_BOOL [if v then x01 else x00]).
Definition bb_config_staged_set_u8 h f (v : Z) := on_handle h (fun h => stage_scalar h f BB_CONFIG_U8 [zb v]).
Definition bb_config_staged_set_u16 h f (v : Z) := on_handle h (fun h => stage_scalar h f BB_CONFIG_U16 (bb_store_le16 v)).
Definition bb_config_staged_set_u32 h f (v : Z) := on_handle h (fun h => stage_scalar h f BB_CONFIG_U32 (bb_store_le32 v)).
Definition bb_config_staged_set_i32 h f (v : Z) := on_handle h (fun h => stage_scalar h f BB_CONFIG_I32 (bb_store_le32 (u32 v))).

Definition bb_config_staged_set_str h (f : option config_field) (v : option cstring) :=
  on_handle h (fun h =>
    let '(rc, h) := precheck h f BB_CONFIG_STR in
    if negb (is_ok rc) then (rc, h) else
    match v with
    | None => poison h BB_ERR_INVALID_ARG
    | Some v =>
        if (match f with Some f => cf_max_len f | None => 0%nat end <=? length v)%nat then poison h BB_ERR_INVALID_ARG else
        stage_forward h f BB_STORAGE_ENC_STR v
    end).
Definition bb_config_staged_set_blob h (f : option config_field) (v : option (list byte)) (len : nat) :=
  on_handle h (fun h =>
    let '(rc, h) := precheck h f BB_CONFIG_BLOB in
    if negb (is_ok rc) then (rc, h) else
    if (0 <? len)%nat && negb (is_some v) then poison h BB_ERR_INVALID_ARG else
    if (match f with Some f => cf_max_len f | None => 0%nat end <? len)%nat then poison h BB_ERR_INVALID_ARG else
    stage_forward h f BB_STORAGE_ENC_BLOB (take len (default [] v))).
End Config.

(** * What configuration needs of the storage behind it *)

(** A backend [b] that keeps values of up to [limit] bytes under [keys], and
    whose transactions stage into the shared slots and write all or nothing. *)
Class KeepsKeys {W} (reg : registry (W := W)) (b : cstring) (keys : gset cstring) (limit : nat)
    (ready : W -> Prop) (held : W -> store) (txn_is : nat -> option (txn_handle (W := W)) -> bb_err + store -> Prop) : Prop := {
  kk_get ns k enc cap w : ready w -> k ∈ keys ->
    bb_storage_get_typed reg (Some (mk_addr (Some b) ns (Some k))) enc true cap true w =
    match held w !! k with Some v => (BB_OK, take cap v, Some (length v)) | None => (BB_ERR_NOT_FOUND, [], None) end;
  kk_set ns k enc v w : ready w -> k ∈ keys ->
    let r := bb_storage_set_typed reg (Some (mk_addr (Some b) ns (Some k))) enc (Some v) (length v) w in
    if decide (length v <= limit)%nat then r.1 = BB_OK /\ ready r.2 /\ held r.2 = <[k := v]> (held w)
    else r.1 = BB_ERR_NO_SPACE /\ ready r.2 /\ held r.2 = held w;
  kk_erase ns k w : ready w -> k ∈ keys ->
    let r := bb_storage_erase reg (Some (mk_addr (Some b) ns (Some k))) w in
    r.1 = BB_OK /\ ready r.2 /\ held r.2 = delete k (held w);
  kk_exists ns k w : ready w -> k ∈ keys ->
    bb_storage_exists reg (Some (mk_addr (Some b) ns (Some k))) w = bool_decide (is_Some (held w !! k));
  kk_begin ns cap :
    let r := bb_storage_txn_begin reg (Some b) (Some ns) (Some (mk_handle txn0 None)) true cap in
    r.1 = BB_OK /\ txn_is cap r.2 (inr ∅) /\ is_Some r.2;
  kk_stage cap h r k enc v : txn_is cap h r ->
    let r' := match r with inl e => inl e | inr m => spec_stage cap m k v end in
    (bb_storage_txn_set h (Some k) enc v).1 = match r' with inl e => e | inr _ => BB_OK end /\
    txn_is cap (bb_storage_txn_set h (Some k) enc v).2 r' /\ is_Some (bb_storage_txn_set h (Some k) enc v).2;
  kk_commit cap h r w : txn_is cap h r -> ready w -> match r with inr m => dom m ⊆ keys | _ => True end ->
    exists e h' w', bb_storage_txn_commit h w = (e, h', w') /\ ready w' /\
      match r with inl err => e = err /\ held w' = held w | inr m => e = BB_OK /\ held w' = m ∪ held w end;
  kk_poisoned cap h e : txn_is cap h (inl e) -> e <> BB_OK;
  kk_abort cap h r : txn_is cap h r -> (bb_storage_txn_abort h).1 = BB_OK
}.

(** * Typed values *)

Inductive cval : Type :=
  | VBool (v : bool) | VU8 (v : Z) | VU16 (v : Z) | VU32 (v : Z) | VI32 (v : Z) | VStr (v : cstring) | VBlob (v : list byte).
Definition val_type (v : cval) : config_type :=
  match v with
  | VBool _ => BB_CONFIG_BOOL | VU8 _ => BB_CONFIG_U8 | VU16 _ => BB_CONFIG_U16 | VU32 _ => BB_CONFIG_U32
  | VI32 _ => BB_CONFIG_I32 | VStr _ => BB_CONFIG_STR | VBlob _ => BB_CONFIG_BLOB
  end.
Definition encode (v : cval) : list byte :=
  match v with
  | VBool v => [if v then x01 else x00]
  | VU8 v => [zb v]
  | VU16 v => bb_store_le16 v
  | VU32 v => bb_store_le32 v
  | VI32 v => bb_store_le32 (u32 v)
  | VStr v => v
  | VBlob v => v
  end.
(** A value of its C type. *)
Definition in_range (v : cval) : Prop :=
  match v with
  | VU8 v => 0 <= v < 2 ^ 8 | VU16 v => 0 <= v < 2 ^ 16 | VU32 v => 0 <= v < 2 ^ 32 | VI32 v => - 2 ^ 31 <= v < 2 ^ 31
  | VStr v => Forall (fun b => b <> x00) v
  | VBool _ | VBlob _ => True
  end.
Definition scalar_default (want : config_type) (d : config_default) : cval :=
  match want with
  | BB_CONFIG_BOOL => VBool (d_b d) | BB_CONFIG_U8 => VU8 (d_u8 d) | BB_CONFIG_U16 => VU16 (d_u16 d)
  | BB_CONFIG_U32 => VU32 (d_u32 d) | BB_CONFIG_I32 => VI32 (d_i32 d)
  | BB_CONFIG_STR | BB_CONFIG_BLOB => VStr (default [] (d_str d))
  end.
Definition key_of_field (f : config_field) : cstring := default [] (a_key (cf_addr f)).

(** ** The typed record a table of fields describes *)

Abbreviation typed := (gmap cstring cval).

Definition too_long (f : config_field) (v : cval) : bool :=
  match v with
  | VStr v => (cf_max_len f <=? length v)%nat
  | VBlob v => (cf_max_len f <? length v)%nat
  | _ => false
  end.
Definition spec_field_set (limit : nat) (f : config_field) (v : cval) (s : typed) : bb_err * typed :=
  if negb (bool_decide (cf_type f = val_type v)) then (BB_ERR_INVALID_ARG, s) else
  if too_long f v then (BB_ERR_INVALID_ARG, s) else
  if decide (length (encode v) <= limit)%nat then (BB_OK, <[key_of_field f := v]> s) else (BB_ERR_NO_SPACE, s).
Definition spec_scalar_get (f : config_field) (want : config_type) (s : typed) : bb_err * option cval :=
  if negb (bool_decide (cf_type f = want)) then (BB_ERR_INVALID_ARG, None) else
  match s !! key_of_field f with
  | Some v => (BB_OK, Some v)
  | None => if cf_has_default f then (BB_OK, Some (scalar_default want (cf_def f))) else (BB_ERR_NOT_FOUND, None)
  end.
(** Text in a buffer: what fits before a NUL. *)
Definition put_text (text buf : list byte) : list byte :=
  if (0 <? length buf)%nat then overlay (take (length buf - 1) text ++ [x00]) buf else buf.
Definition spec_str_get (f : config_field) (buf : list byte) (s : typed) : bb_err * list byte * option nat :=
  if negb (bool_decide (cf_type f = BB_CONFIG_STR)) then (BB_ERR_INVALID_ARG, buf, None) else
  match s !! key_of_field f with
  | Some v => (BB_OK, put_text (encode v) buf, Some (length (encode v)))
  | None =>
      if cf_has_default f then
        let def := default [] (d_str (cf_def f)) in
        if (cf_max_len f <=? length def)%nat then (BB_ERR_INVALID_ARG, buf, None)
        else (BB_OK, put_text def buf, Some (length def))
      else (BB_ERR_NOT_FOUND, buf, None)
  end.
Definition spec_blob_get (f : config_field) (buf : list byte) (s : typed) : bb_err * list byte * option nat :=
  if negb (bool_decide (cf_type f = BB_CONFIG_BLOB)) then (BB_ERR_INVALID_ARG, buf, None) else
  match s !! key_of_field f with
  | Some v => (BB_OK, overlay (take (length buf) (encode v)) buf, Some (length (encode v)))
  | None => (BB_ERR_NOT_FOUND, buf, None)
  end.

(** ** Staged: the first local error, and the transaction's error or batch *)

Record session := mk_session { se_local : bb_err; se_txn : bb_err + typed }.
Definition session0 : session := mk_session BB_OK (inr ∅).
Definition session_put (cap : nat) (k : cstring) (v : cval) (r : bb_err + typed) : bb_err + typed :=
  match r with
  | inl e => inl e
  | inr m =>
      if (BB_STORAGE_TXN_VALUE_MAX_BYTES <? length (encode v))%nat then inl BB_ERR_NO_SPACE else
      if (BB_STORAGE_TXN_KEY_MAX_BYTES <=? length k)%nat then inl BB_ERR_INVALID_ARG else
      if decide (size (<[k := v]> m) <= cap)%nat then inr (<[k := v]> m) else inl BB_ERR_NO_SPACE
  end.
Definition session_set (ns : cstring) (cap : nat) (f : config_field) (v : cval) (se : session) : bb_err * session :=
  if negb (is_ok (se_local se)) then (se_local se, se) else
  if negb (bool_decide (cf_type f = val_type v)) || negb (bool_decide (a_ns_or_dir (cf_addr f) = Some ns)) || too_long f v
  then (BB_ERR_INVALID_ARG, mk_session BB_ERR_INVALID_ARG (se_txn se)) else
  let t := session_put cap (key_of_field f) v (se_txn se) in
  (match t with inl e => e | inr _ => BB_OK end, mk_session (se_local se) t).
Fixpoint session_sets (ns : cstring) (cap : nat) (sets : list (config_field * cval)) (se : session) : list bb_err * session :=
  match sets with
  | [] => ([], se)
  | (f, v) :: sets =>
      let '(e, se) := session_set ns cap f v se in
      let '(es, se) := session_sets ns cap sets se in (e :: es, se)
  end.
Definition session_commit (se : session) (s : typed) : bb_err * typed :=
  if negb (is_ok (se_local se)) then (se_local se, s) else
  match se_txn se with inl e => (e, s) | inr m => (BB_OK, m ∪ s) end.

(** ** Calls and answers *)

Inductive config_op : Type :=
  | OGet (f : config_field) (want : config_type)
  | OGetStr (f : config_field) (buf : list byte)
  | OGetBlob (f : config_field) (buf : list byte)
  | OSet (f : config_field) (v : cval)
  | OErase (f : config_field)
  | OExists (f : config_field)
  | OStaged (ns : cstring) (cap : nat) (sets : list (config_field * cval)) (commit : bool).
Inductive config_answer : Type :=
  | CValue (e : bb_err) (v : option cval) | CBuffer (r : bb_err * list byte * option nat)
  | CCode (e : bb_err) | CBool (b : bool) | CSession (begin : bb_err) (sets : list bb_err) (fin : bb_err).

Section Calls.
Context {W : Type} (reg : registry (W := W)) (b : cstring).

Definition call_get (f : config_field) (want : config_type) (w : W) : config_answer :=
  let wrap {V} (c : V -> cval) (r : bb_err * option V) := CValue r.1 (option_map c r.2) in
  match want with
  | BB_CONFIG_BOOL => wrap VBool (bb_config_get_bool reg (Some f) true w)
  | BB_CONFIG_U8 => wrap VU8 (bb_config_get_u8 reg (Some f) true w)
  | BB_CONFIG_U16 => wrap VU16 (bb_config_get_u16 reg (Some f) true w)
  | BB_CONFIG_U32 => wrap VU32 (bb_config_get_u32 reg (Some f) true w)
  | BB_CONFIG_I32 => wrap VI32 (bb_config_get_i32 reg (Some f) true w)
  | BB_CONFIG_STR | BB_CONFIG_BLOB => CValue BB_ERR_INVALID_ARG None
  end.
Definition call_set (f : config_field) (v : cval) (w : W) : bb_err * W :=
  match v with
  | VBool v => bb_config_set_bool reg (Some f) v w
  | VU8 v => bb_config_set_u8 reg (Some f) v w
  | VU16 v => bb_config_set_u16 reg (Some f) v w
  | VU32 v => bb_config_set_u32 reg (Some f) v w
  | VI32 v => bb_config_set_i32 reg (Some f) v w
  | VStr v => bb_config_set_str reg (Some f) (Some v) w
  | VBlob v => bb_config_set_blob reg (Some f) (Some v) (length v) w
  end.
Definition call_stage (h : option (config_staged (W := W))) (f : config_field) (v : cval) : bb_err * option config_staged :=
  match v with
  | VBool v => bb_config_staged_set_bool h (Some f) v
  | VU8 v => bb_config_staged_set_u8 h (Some f) v
  | VU16 v => bb_config_staged_set_u16 h (Some f) v
  | VU32 v => bb_config_staged_set_u32 h (Some f) v
  | VI32 v => bb_config_staged_set_i32 h (Some f) v
  | VStr v => bb_config_staged_set_str h (Some f) (Some v)
  | VBlob v => bb_config_staged_set_blob h (Some f) (Some v) (length v)
  end.
Fixpoint call_stages (h : option (config_staged (W := W))) (sets : list (config_field * cval)) : list bb_err * option config_staged :=
  match sets with
  | [] => ([], h)
  | (f, v) :: sets =>
      let '(e, h) := call_stage h f v in
      let '(es, h) := call_stages h sets in (e :: es, h)
  end.
Definition config_step (op : config_op) (w : W) : config_answer * W :=
  match op with
  | OGet f want => (call_get f want w, w)
  | OGetStr f buf => (CBuffer (bb_config_get_str reg (Some f) true buf (length buf) true w), w)
  | OGetBlob f buf => (CBuffer (bb_config_get_blob reg (Some f) true buf (length buf) true w), w)
  | OSet f v => let '(e, w) := call_set f v w in (CCode e, w)
  | OErase f => let '(e, w) := bb_config_erase reg (Some f) w in (CCode e, w)
  | OExists f => (CBool (bb_config_exists reg (Some f) w), w)
  | OStaged ns cap sets commit =>
      let '(e, h) := bb_config_staged_begin reg (Some staged0) (Some b) (Some ns) true cap in
      let '(es, h) := call_stages h sets in
      if commit : bool then let '(e', _, w) := bb_config_staged_commit h w in (CSession e es e', w)
      else (CSession e es (bb_config_staged_discard h).1, w)
  end.
End Calls.

Definition typed_step (limit : nat) (op : config_op) (s : typed) : config_answer * typed :=
  match op with
  | OGet f want =>
      (match want with
       | BB_CONFIG_STR | BB_CONFIG_BLOB => CValue BB_ERR_INVALID_ARG None
       | _ => let r := spec_scalar_get f want s in CValue r.1 r.2
       end, s)
  | OGetStr f buf => (CBuffer (spec_str_get f buf s), s)
  | OGetBlob f buf => (CBuffer (spec_blob_get f buf s), s)
  | OSet f v => let '(e, s) := spec_field_set limit f v s in (CCode e, s)
  | OErase f => (CCode BB_OK, delete (key_of_field f) s)
  | OExists f => (CBool (bool_decide (is_Some (s !! key_of_field f))), s)
  | OStaged ns cap sets commit =>
      let '(es, se) := session_sets ns cap sets session0 in
      if commit : bool then let '(e, s) := session_commit se s in (CSession BB_OK es e, s)
      else (CSession BB_OK es BB_OK, s)
  end.

(** * Lemmas *)

Lemma zb_small v : 0 <= v < 2 ^ 8 -> bz (zb v) = v.
Proof. intros H. apply bz_zb_small. change (2 ^ 8) with 256 in H. lia. Qed.

Lemma signed_bits v : - 2 ^ 31 <= v < 2 ^ 31 -> to_signed 32 (u32 v) = v /\ 0 <= u32 v < 2 ^ 32.
Proof.
  intros H. unfold to_signed, u32. change (2 ^ 31) with 2147483648 in H. change (2 ^ (32 - 1)) with 2147483648.
  change (2 ^ 32) with 4294967296. pose proof (Z.mod_pos_bound v 4294967296 ltac:(lia)) as Hm.
  pose proof (Z.div_mod v 4294967296 ltac:(lia)) as Hd. zcases; nia.
Qed.

(** ** The bytes of a scalar give it back *)

Definition scalar_decode (want : config_type) (buf : list byte) : cval :=
  match want with
  | BB_CONFIG_BOOL => VBool (negb (at_byte buf 0 =? 0))
  | BB_CONFIG_U8 => VU8 (at_byte buf 0)
  | BB_CONFIG_U16 => VU16 (bb_load_le16 buf)
  | BB_CONFIG_U32 => VU32 (bb_load_le32 buf)
  | BB_CONFIG_I32 => VI32 (to_signed 32 (bb_load_le32 buf))
  | BB_CONFIG_STR | BB_CONFIG_BLOB => VBlob buf
  end.
Definition is_scalar (t : config_type) : bool :=
  match t with BB_CONFIG_STR | BB_CONFIG_BLOB => false | _ => true end.

Lemma scalar_bytes v : in_range v -> is_scalar (val_type v) = true ->
  length (encode v) = bb_config_scalar_width (val_type v) /\ scalar_decode (val_type v) (encode v) = v.
Proof.
  destruct v as [x|x|x|x|x|x|x]; cbn [in_range val_type is_scalar]; intros Hr Hs; try done; (split; [done|]); cbn [encode scalar_decode].
  - by destruct x.
  - unfold at_byte. cbn [nth]. by rewrite zb_small.
  - rewrite <- (app_nil_r (bb_store_le16 x)). by rewrite load_store_le16.
  - rewrite <- (app_nil_r (bb_store_le32 x)). by rewrite load_store_le32.
  - rewrite <- (app_nil_r (bb_store_le32 (u32 x))). destruct (signed_bits x Hr) as [H1 H2]. by rewrite load_store_le32, H1.
Qed.

Section Proofs.
Context {W : Type} (reg : registry (W := W)) (b : cstring) (T : list config_field) (limit : nat)
  (ready : W -> Prop) (held : W -> store) (txn_is : nat -> option (txn_handle (W := W)) -> bb_err + store -> Prop).

(** The keys of the table. *)
Definition table_keys : gset cstring := list_to_set (key_of_field <$> T).
(** Fields of one backend under keys of their own. *)
Record table_ok : Prop := {
  to_keys : NoDup (key_of_field <$> T);
  to_addrs : Forall (fun f => a_backend (cf_addr f) = Some b /\ is_Some (a_key (cf_addr f))) T
}.
Context (HT : table_ok) `{HK : !KeepsKeys reg b table_keys limit ready held txn_is}.

(** A stored value is one its field may hold. *)
Definition typed_ok (s : typed) : Prop :=
  map_Forall (fun k v => exists f, f ∈ T /\ key_of_field f = k /\ val_type v = cf_type f /\ in_range v) s.
Record config_rel (w : W) (s : typed) : Prop := {
  cr_ready : ready w;
  cr_held : held w = encode <$> s;
  cr_typed : typed_ok s
}.

Lemma field_key f : f ∈ T -> key_of_field f ∈ table_keys /\ cf_addr f = mk_addr (Some b) (a_ns_or_dir (cf_addr f)) (Some (key_of_field f)).
Proof.
  intros Hf. split; [apply elem_of_list_to_set, list_elem_of_fmap; by exists f|].
  pose proof (to_addrs HT) as H. rewrite Forall_forall in H. destruct (H f Hf) as [H1 [k H2]]. unfold key_of_field. rewrite H2.
  by destruct (cf_addr f); cbn in *; subst.
Qed.

Lemma same_field f g : f ∈ T -> g ∈ T -> key_of_field f = key_of_field g -> f = g.
Proof.
  intros Hf Hg He. apply list_elem_of_lookup_1 in Hf as [i Hi], Hg as [j Hj].
  assert (i = j) as ->; [|congruence]. eapply NoDup_lookup; [exact (to_keys HT)| |].
  - by rewrite (list_lookup_fmap key_of_field T i), Hi.
  - by rewrite (list_lookup_fmap key_of_field T j), Hj, He.
Qed.

Lemma stored_type f s v : f ∈ T -> typed_ok s -> s !! key_of_field f = Some v -> val_type v = cf_type f /\ in_range v.
Proof.
  intros Hf Ht Hv. destruct (Ht _ _ Hv) as (g & Hg & Hk & H1 & H2). by rewrite <- (same_field g f Hg Hf Hk).
Qed.

Lemma get_held f enc cap w s : f ∈ T -> config_rel w s ->
  bb_storage_get_typed reg (Some (cf_addr f)) enc true cap true w =
  match s !! key_of_field f with Some v => (BB_OK, take cap (encode v), Some (length (encode v))) | None => (BB_ERR_NOT_FOUND, [], None) end.
Proof.
  intros Hf [H1 H2 _]. destruct (field_key f Hf) as [Hk ->]. rewrite (kk_get (KeepsKeys := HK)) by done.
  rewrite H2, lookup_fmap. cbn [a_ns_or_dir]. by destruct (s !! key_of_field f).
Qed.

(** ** Getters *)

Lemma scalar_read_spec {V} f want (def : config_default -> V) decode (wrap : V -> cval) w s : f ∈ T -> config_rel w s ->
  is_scalar want = true -> (forall d, wrap (def d) = scalar_default want d) -> (forall buf, wrap (decode buf) = scalar_decode want buf) ->
  let r := scalar_read reg (Some f) want true def decode w in
  (r.1, option_map wrap r.2) = spec_scalar_get f want s.
Proof.
  intros Hf Hr Hw Hdef Hdec. unfold scalar_read, scalar_get, spec_scalar_get. cbn [negb].
  case_bool_decide as Ht; cbn [negb]; [|done]. rewrite (get_held f _ _ w s Hf Hr). subst want.
  destruct (s !! key_of_field f) as [v|] eqn:Ev.
  - destruct (stored_type f s v Hf (cr_typed _ _ Hr) Ev) as [Hv Hi]. rewrite <- Hv in Hw.
    destruct (scalar_bytes v Hi Hw) as [Hl Hd]. rewrite Hv in Hl, Hd. rewrite Hl, take_ge by lia.
    cbn [is_ok negb default from_option]. unfold id. rewrite Nat.eqb_refl. cbn [negb].
    rewrite bool_decide_false by done. cbn [andb is_ok negb fst snd option_map]. do 2 f_equal. rewrite Hdec.
    unfold overlay. rewrite drop_ge by (rewrite repeat_length; lia). by rewrite app_nil_r.
  - cbn [is_ok negb]. rewrite bool_decide_true by done. cbn [andb]. destruct (cf_has_default f); cbn [fst snd option_map]; [by rewrite Hdef|done].
Qed.

Lemma get_spec f want w s : f ∈ T -> config_rel w s -> call_get reg f want w = (typed_step limit (OGet f want) s).1.
Proof.
  intros Hf Hr. cbn [typed_step fst]. unfold call_get.
  destruct want; try done;
    match goal with |- CValue (?r).1 (option_map ?c (?r).2) = CValue (spec_scalar_get _ ?want _).1 _ =>
      pose proof (scalar_read_spec f want _ _ c w s Hf Hr eq_refl (fun _ => eq_refl) (fun _ => eq_refl) : (r.1, option_map c r.2) = _) as <- end; done.
Qed.

Lemma overlay_take v buf : overlay (take (length buf) v) buf = take (length buf) (v ++ drop (length v) buf).
Proof.
  unfold overlay. rewrite take_app, length_take. f_equal.
  destruct (Nat.le_ge_cases (length v) (length buf)).
  - rewrite Nat.min_r by lia. rewrite take_ge; [done|rewrite length_drop; lia].
  - rewrite Nat.min_l by lia. rewrite !drop_ge by lia. by rewrite take_nil.
Qed.

Lemma str_terminated v buf : (0 < length buf)%nat ->
  <[(if (length v <? length buf)%nat then length v else (length buf - 1)%nat) := x00]> (overlay (take (length buf) v) buf) = put_text v buf.
Proof.
  intros Hb. unfold put_text. rewrite (proj2 (Nat.ltb_lt _ _) Hb). unfold overlay. rewrite length_take.
  destruct (Nat.ltb_spec (length v) (length buf)).
  - rewrite Nat.min_r, !take_ge by lia. rewrite insert_app_r_alt, Nat.sub_diag, <- app_assoc by lia.
    rewrite length_app. cbn [length app]. f_equal. rewrite <- drop_drop.
    destruct (drop (length v) buf) as [|x t] eqn:E; [apply (f_equal length) in E; rewrite length_drop in E; cbn in E; lia|done].
  - rewrite Nat.min_l by lia. rewrite drop_ge, app_nil_r by lia.
    rewrite drop_ge, app_nil_r by (rewrite length_app, length_take; cbn; lia).
    rewrite <- (take_drop (length buf - 1) (take (length buf) v)) at 1. rewrite take_take, Nat.min_l by lia.
    rewrite insert_app_r_alt by (rewrite length_take; lia). rewrite length_take, Nat.min_l, Nat.sub_diag by lia. f_equal.
    assert (Hl : length (drop (length buf - 1) (take (length buf) v)) = 1%nat) by (rewrite length_drop, length_take; lia).
    by destruct (drop (length buf - 1) (take (length buf) v)) as [|x [|y t]].
Qed.

Lemma strlcpy_text def buf : Forall (fun c => c <> x00) def -> (0 < length buf)%nat ->
  (bb_strlcpy buf (def ++ [x00]) (length buf)).2 = put_text def buf.
Proof.
  intros Hn Hb. destruct (strlcpy_spec buf (def ++ [x00]) (length buf)) as (-> & _ & _); [lia|]. cbn [snd].
  rewrite cstr_nul by done. unfold put_text. rewrite (proj2 (Nat.ltb_lt _ _) Hb). unfold overlay.
  rewrite length_app, <- app_assoc. cbn [app length]. by rewrite Nat.add_1_r.
Qed.

(** Defaults are C strings. *)
Definition default_text (f : config_field) : Prop := Forall (fun c => c <> x00) (default [] (d_str (cf_def f))).

Lemma str_get_spec f buf w s : f ∈ T -> config_rel w s -> default_text f ->
  bb_config_get_str reg (Some f) true buf (length buf) true w = spec_str_get f buf s.
Proof.
  intros Hf Hr Hd. unfold bb_config_get_str, spec_str_get.
  case_bool_decide as Ht; cbn [negb orb andb]; [|done]. rewrite andb_false_r. cbn [orb].
  rewrite (get_held f _ _ w s Hf Hr). destruct (s !! key_of_field f) as [v|].
  - cbn [is_ok andb default from_option]. unfold id. rewrite bool_decide_false by done. cbn [andb].
    destruct (Nat.ltb_spec 0 (length buf)) as [Hb|Hb].
    + by rewrite str_terminated by done.
    + unfold put_text. destruct buf; [done|cbn in Hb; lia].
  - cbn [is_ok andb]. rewrite bool_decide_true by done. cbn [andb]. destruct (cf_has_default f); [|done].
    destruct (_ <=? _)%nat; [done|]. do 3 f_equal. destruct (Nat.ltb_spec 0 (length buf)) as [Hb|Hb].
    + change (overlay [] buf) with buf. by rewrite strlcpy_text.
    + unfold put_text. destruct buf; [done|cbn in Hb; lia].
Qed.

Lemma blob_get_spec f buf w s : f ∈ T -> config_rel w s ->
  bb_config_get_blob reg (Some f) true buf (length buf) true w = spec_blob_get f buf s.
Proof.
  intros Hf Hr. unfold bb_config_get_blob, spec_blob_get.
  case_bool_decide as Ht; cbn [negb orb andb]; [|done]. rewrite andb_false_r. cbn [orb].
  rewrite (get_held f _ _ w s Hf Hr). by destruct (s !! key_of_field f) as [v|].
Qed.

(** ** Setters *)

Lemma typed_insert f v s : f ∈ T -> val_type v = cf_type f -> in_range v -> typed_ok s -> typed_ok (<[key_of_field f := v]> s).
Proof. intros Hf Hv Hi Hs. apply map_Forall_insert_2; [|done]. by exists f. Qed.

Lemma stored_set f v enc w s : f ∈ T -> val_type v = cf_type f -> in_range v -> config_rel w s ->
  let r := bb_storage_set_typed reg (Some (cf_addr f)) enc (Some (encode v)) (length (encode v)) w in
  if decide (length (encode v) <= limit)%nat then r.1 = BB_OK /\ config_rel r.2 (<[key_of_field f := v]> s)
  else r.1 = BB_ERR_NO_SPACE /\ config_rel r.2 s.
Proof.
  intros Hf Hv Hi [H1 H2 H3]. destruct (field_key f Hf) as [Hk ->].
  pose proof (kk_set (KeepsKeys := HK) (a_ns_or_dir (cf_addr f)) (key_of_field f) enc (encode v) w H1 Hk) as H.
  cbv zeta in H |- *. case_decide; destruct H as (Ho & Hr & Hh); (split; [done|]).
  - split; [done|by rewrite Hh, H2, fmap_insert|by apply typed_insert].
  - split; [done|by rewrite Hh|done].
Qed.

Lemma set_spec f v w s : f ∈ T -> in_range v -> config_rel w s ->
  (call_set reg f v w).1 = (spec_field_set limit f v s).1 /\ config_rel (call_set reg f v w).2 (spec_field_set limit f v s).2.
Proof.
  intros Hf Hi Hr. unfold spec_field_set.
  assert (Hgo : val_type v = cf_type f -> forall enc, let r := bb_storage_set_typed reg (Some (cf_addr f)) enc (Some (encode v)) (length (encode v)) w in
    let q := if decide (length (encode v) <= limit)%nat then (BB_OK, <[key_of_field f := v]> s) else (BB_ERR_NO_SPACE, s) in
    r.1 = q.1 /\ config_rel r.2 q.2).
  { intros Hv enc. pose proof (stored_set f v enc w s Hf Hv Hi Hr) as H. cbv zeta in H |- *. by case_decide. }
  destruct v as [x|x|x|x|x|x|x]; cbn [call_set val_type too_long encode] in *;
    unfold bb_config_set_bool, bb_config_set_u8, bb_config_set_u16, bb_config_set_u32, bb_config_set_i32, bb_config_set_str, bb_config_set_blob, scalar_set;
    case_bool_decide as Ht; cbn [negb orb is_some]; try done; try (by apply Hgo).
  - destruct (_ <=? _)%nat; [done|]. by apply Hgo.
  - rewrite andb_false_r. cbn [orb]. destruct (_ <? _)%nat; [done|]. by apply Hgo.
Qed.

Lemma erase_spec f w s : f ∈ T -> config_rel w s ->
  (bb_config_erase reg (Some f) w).1 = BB_OK /\ config_rel (bb_config_erase reg (Some f) w).2 (delete (key_of_field f) s).
Proof.
  intros Hf [H1 H2 H3]. destruct (field_key f Hf) as [Hk Ha]. unfold bb_config_erase. rewrite Ha.
  destruct (kk_erase (KeepsKeys := HK) (a_ns_or_dir (cf_addr f)) (key_of_field f) w H1 Hk) as (Ho & Hr & Hh). split; [done|].
  split; [done|by rewrite Hh, H2, fmap_delete|by apply map_Forall_delete].
Qed.
Lemma exists_spec f w s : f ∈ T -> config_rel w s ->
  bb_config_exists reg (Some f) w = bool_decide (is_Some (s !! key_of_field f)).
Proof.
  intros Hf [H1 H2 H3]. destruct (field_key f Hf) as [Hk Ha]. unfold bb_config_exists. rewrite Ha.
  rewrite (kk_exists (KeepsKeys := HK)) by done. rewrite H2, lookup_fmap. apply bool_decide_ext. by rewrite fmap_is_Some.
Qed.

(** ** Sessions *)

Definition batch_bytes (r : bb_err + typed) : bb_err + store := match r with inl e => inl e | inr m => inr (encode <$> m) end.
Definition session_rel (ns : cstring) (cap : nat) (h : option (config_staged (W := W))) (se : session) : Prop :=
  exists t, h = Some (mk_staged t (Some b) (Some ns) (se_local se) false) /\ txn_is cap (Some t) (batch_bytes (se_txn se)) /\
    match se_txn se with inr m => typed_ok m | inl _ => True end.

Lemma begin_session ns cap :
  (bb_config_staged_begin reg (Some staged0) (Some b) (Some ns) true cap).1 = BB_OK /\
  session_rel ns cap (bb_config_staged_begin reg (Some staged0) (Some b) (Some ns) true cap).2 session0.
Proof.
  unfold bb_config_staged_begin. cbn [cs_txn staged0]. destruct (kk_begin (KeepsKeys := HK) ns cap) as (H1 & H2 & [t Ht]).
  destruct (bb_storage_txn_begin _ _ _ _ _ _) as [e h]. cbn [fst snd] in *. subst e h. split; [done|].
  exists t. split; [done|]. cbn [session0 se_txn batch_bytes]. rewrite fmap_empty. split; [done|]. apply map_Forall_empty.
Qed.

Lemma put_bytes cap k v r : batch_bytes (session_put cap k v r) =
  match batch_bytes r with inl e => inl e | inr m => spec_stage cap m k (encode v) end.
Proof.
  destruct r as [e|m]; [done|]. unfold session_put, spec_stage. cbn [batch_bytes].
  destruct (_ <? _)%nat; [done|]. destruct (_ <=? _)%nat; [done|].
  rewrite <- (fmap_insert encode), !map_size_fmap. by case_decide.
Qed.

Lemma forward_spec ns cap f v enc t se : f ∈ T -> val_type v = cf_type f -> in_range v -> se_local se = BB_OK ->
  txn_is cap (Some t) (batch_bytes (se_txn se)) -> match se_txn se with inr m => typed_ok m | inl _ => True end ->
  let r := stage_forward (mk_staged t (Some b) (Some ns) BB_OK false) (Some f) enc (encode v) in
  let q := session_put cap (key_of_field f) v (se_txn se) in
  r.1 = match q with inl e => e | inr _ => BB_OK end /\ session_rel ns cap (Some r.2) (mk_session BB_OK q).
Proof.
  intros Hf Hv Hi Hl Ht Hty. unfold stage_forward. cbn [cs_txn mbind option_bind]. destruct (field_key f Hf) as [Hk ->]. cbn [a_key].
  destruct (kk_stage (KeepsKeys := HK) cap (Some t) _ (key_of_field f) enc (encode v) Ht) as (H1 & H2 & [t' Ht']).
  destruct (bb_storage_txn_set _ _ _ _) as [e h]. cbn [fst snd] in *. subst h. rewrite <- put_bytes in H1, H2. cbn [default from_option]. unfold id.
  split; [rewrite H1; by destruct (session_put _ _ _ _)|]. eexists. split; [reflexivity|]. split; [done|]. cbn [se_txn].
  destruct (se_txn se) as [e'|m]; cbn [session_put]; [done|]. destruct (_ <? _)%nat; [done|]. destruct (_ <=? _)%nat; [done|].
  case_decide; [|done]. by apply typed_insert.
Qed.

Lemma stage_spec_call ns cap f v h se : f ∈ T -> in_range v -> session_rel ns cap h se ->
  (call_stage h f v).1 = (session_set ns cap f v se).1 /\ session_rel ns cap (call_stage h f v).2 (session_set ns cap f v se).2.
Proof.
  intros Hf Hi (t & -> & Ht & Hty). unfold session_set.
  destruct (is_ok (se_local se)) eqn:Eok; cbn [negb].
  2:{ assert (Hp : forall want, precheck (mk_staged t (Some b) (Some ns) (se_local se) false) (Some f) want =
        (se_local se, mk_staged t (Some b) (Some ns) (se_local se) false)) by (intros want; unfold precheck; cbn [cs_closed cs_local_err]; by rewrite Eok).
      destruct v; cbn [call_stage bb_config_staged_set_bool bb_config_staged_set_u8 bb_config_staged_set_u16 bb_config_staged_set_u32
        bb_config_staged_set_i32 bb_config_staged_set_str bb_config_staged_set_blob on_handle]; unfold stage_scalar; rewrite Hp, Eok; cbn [negb];
        (split; [done|]; by exists t). }
  apply is_ok_true in Eok. rewrite Eok.
  assert (Hback : a_backend (cf_addr f) = Some b) by (destruct (field_key f Hf) as [_ ->]; done).
  assert (Hpre : precheck (mk_staged t (Some b) (Some ns) BB_OK false) (Some f) (val_type v) =
    if negb (bool_decide (cf_type f = val_type v)) || negb (bool_decide (a_ns_or_dir (cf_addr f) = Some ns))
    then (BB_ERR_INVALID_ARG, mk_staged t (Some b) (Some ns) BB_ERR_INVALID_ARG false)
    else (BB_OK, mk_staged t (Some b) (Some ns) BB_OK false)).
  { unfold precheck, str_eq. cbn [cs_closed cs_local_err is_ok negb cs_backend cs_ns_or_dir]. rewrite Hback, (bool_decide_true (Some b = Some b)) by done.
    cbn [negb orb]. destruct (bool_decide (cf_type f = val_type v)); cbn [negb orb]; [|done]. by destruct (bool_decide (a_ns_or_dir _ = _)). }
  assert (Hbad : session_rel ns cap (Some (mk_staged t (Some b) (Some ns) BB_ERR_INVALID_ARG false)) (mk_session BB_ERR_INVALID_ARG (se_txn se))) by (by exists t).
  destruct (bool_decide (cf_type f = val_type v)) eqn:Et.
  - apply bool_decide_eq_true in Et. symmetry in Et.
    destruct (bool_decide (a_ns_or_dir (cf_addr f) = Some ns)); cbn [negb orb] in Hpre |- *.
    + pose proof (fun enc => forward_spec ns cap f v enc t se Hf Et Hi Eok Ht Hty) as Hfw.
      destruct v; cbn [call_stage bb_config_staged_set_bool bb_config_staged_set_u8 bb_config_staged_set_u16 bb_config_staged_set_u32
        bb_config_staged_set_i32 bb_config_staged_set_str bb_config_staged_set_blob on_handle]; unfold stage_scalar;
        cbn [val_type too_long encode] in *; rewrite Hpre; cbn [is_ok negb is_some];
        try (match goal with |- context [stage_forward _ _ ?enc _] => specialize (Hfw enc) end;
             cbv zeta in Hfw; destruct (stage_forward _ _ _ _) as [e h]; exact Hfw).
      * destruct (_ <=? _)%nat; [done|]. specialize (Hfw BB_STORAGE_ENC_STR). cbv zeta in Hfw. destruct (stage_forward _ _ _ _) as [e h]. exact Hfw.
      * rewrite andb_false_r. destruct (_ <? _)%nat; [done|]. specialize (Hfw BB_STORAGE_ENC_BLOB). cbv zeta in Hfw.
        cbn [default from_option]. unfold id. rewrite firstn_all. destruct (stage_forward _ _ _ _) as [e h]. exact Hfw.
    + destruct v; cbn [call_stage bb_config_staged_set_bool bb_config_staged_set_u8 bb_config_staged_set_u16 bb_config_staged_set_u32
        bb_config_staged_set_i32 bb_config_staged_set_str bb_config_staged_set_blob on_handle]; unfold stage_scalar;
        cbn [val_type] in Hpre; rewrite Hpre; done.
  - cbn [negb orb] in Hpre |- *.
    destruct v; cbn [call_stage bb_config_staged_set_bool bb_config_staged_set_u8 bb_config_staged_set_u16 bb_config_staged_set_u32
        bb_config_staged_set_i32 bb_config_staged_set_str bb_config_staged_set_blob on_handle]; unfold stage_scalar;
        cbn [val_type] in Hpre; rewrite Hpre; done.
Qed.

Definition sets_ok (sets : list (config_field * cval)) : Prop := Forall (fun s => s.1 ∈ T /\ in_range s.2) sets.
Lemma stages_spec ns cap sets : sets_ok sets -> forall h se, session_rel ns cap h se ->
  (call_stages h sets).1 = (session_sets ns cap sets se).1 /\ session_rel ns cap (call_stages h sets).2 (session_sets ns cap sets se).2.
Proof.
  induction 1 as [|[f v] sets [Hf Hi] _ IH]; intros h se Hr; [done|]. cbn [call_stages session_sets fst snd] in *.
  destruct (stage_spec_call ns cap f v h se Hf Hi Hr) as [H1 H2]. destruct (call_stage h f v) as [e h1], (session_set ns cap f v se) as [e' se1].
  cbn [fst snd] in *. subst e'. destruct (IH h1 se1 H2) as [H3 H4].
  destruct (call_stages h1 sets) as [es h2], (session_sets ns cap sets se1) as [es' se2]. cbn [fst snd] in *. by subst es'.
Qed.

Lemma typed_dom m : typed_ok m -> dom (encode <$> m) ⊆ table_keys.
Proof.
  intros Hm k Hk. rewrite dom_fmap in Hk. apply elem_of_dom in Hk as [v Hv]. destruct (Hm k v Hv) as (f & Hf & <- & _). by apply field_key.
Qed.

Lemma commit_spec_session ns cap h se w s : session_rel ns cap h se -> config_rel w s ->
  (bb_config_staged_commit h w).1.1 = (session_commit se s).1 /\ config_rel (bb_config_staged_commit h w).2 (session_commit se s).2.
Proof.
  intros (t & -> & Ht & Hty) Hr. unfold bb_config_staged_commit, session_commit. cbn [cs_closed cs_local_err].
  destruct (is_ok (se_local se)); cbn [negb]; [|by destruct (bb_storage_txn_abort _)].
  cbn [cs_txn]. destruct (kk_commit (KeepsKeys := HK) cap (Some t) _ w Ht (cr_ready _ _ Hr)) as (e & h' & w' & -> & Hr' & H).
  { destruct (se_txn se) as [e'|m]; cbn [batch_bytes]; [done|]. by apply typed_dom. }
  destruct (se_txn se) as [e'|m]; cbn [batch_bytes] in H; cbn [fst snd]; destruct H as [-> Hh]; (split; [done|]); [split; [done|by rewrite Hh, (cr_held _ _ Hr)|apply Hr]|].
  split; [done|rewrite Hh, (cr_held _ _ Hr); symmetry; apply map_fmap_union|]. apply map_Forall_union_2; [done|apply Hr].
Qed.
Lemma discard_spec ns cap h se : session_rel ns cap h se -> (bb_config_staged_discard h).1 = BB_OK.
Proof.
  intros (t & -> & Ht & _). unfold bb_config_staged_discard. cbn [cs_closed cs_txn].
  pose proof (kk_abort (KeepsKeys := HK) cap (Some t) _ Ht) as H. by destruct (bb_storage_txn_abort _).
Qed.

(** ** Any call *)

Definition config_op_ok (op : config_op) : Prop :=
  match op with
  | OGet f _ | OGetBlob f _ | OErase f | OExists f => f ∈ T
  | OGetStr f _ => f ∈ T /\ default_text f
  | OSet f v => f ∈ T /\ in_range v
  | OStaged _ _ sets _ => sets_ok sets
  end.

Lemma config_step_spec op w s : config_op_ok op -> config_rel w s ->
  (config_step reg b op w).1 = (typed_step limit op s).1 /\ config_rel (config_step reg b op w).2 (typed_step limit op s).2.
Proof.
  intros Hop Hr. destruct op as [f want|f buf|f buf|f v|f|f|ns cap sets commit]; cbn [config_op_ok] in Hop.
  - split; [by apply get_spec|done].
  - cbn [config_step typed_step fst snd]. by rewrite (str_get_spec f buf w s) by apply Hop || done.
  - cbn [config_step typed_step fst snd]. by rewrite (blob_get_spec f buf w s).
  - cbn [config_step typed_step]. destruct (set_spec f v w s (proj1 Hop) (proj2 Hop) Hr) as [H1 H2].
    destruct (call_set reg f v w), (spec_field_set limit f v s). cbn [fst snd] in *. by subst.
  - cbn [config_step typed_step]. destruct (erase_spec f w s Hop Hr) as [H1 H2]. destruct (bb_config_erase reg (Some f) w). cbn [fst snd] in *. by subst.
  - cbn [config_step typed_step fst snd]. by rewrite (exists_spec f w s).
  - cbn [config_step typed_step]. destruct (begin_session ns cap) as [H1 H2]. destruct (bb_config_staged_begin _ _ _ _ _ _) as [e h]. cbn [fst snd] in *. subst e.
    destruct (stages_spec ns cap sets Hop h session0 H2) as [H3 H4]. destruct (call_stages h sets) as [es h1], (session_sets ns cap sets session0) as [es' se].
    cbn [fst snd] in *. subst es'. destruct commit.
    + destruct (commit_spec_session ns cap h1 se w s H4 Hr) as [H5 H6]. destruct (bb_config_staged_commit h1 w) as [[e' h2] w'], (session_commit se s) as [e'' s'].
      cbn [fst snd] in *. by subst.
    + cbn [fst snd]. by rewrite (discard_spec ns cap h1 se).
Qed.

Fixpoint config_run {S} (step : config_op -> S -> config_answer * S) (ops : list config_op) (s : S) : list config_answer * S :=
  match ops with
  | [] => ([], s)
  | op :: ops => let '(x, s) := step op s in let '(xs, s) := config_run step ops s in (x :: xs, s)
  end.
Lemma config_run_spec ops : Forall config_op_ok ops -> forall w s, config_rel w s ->
  (config_run (config_step reg b) ops w).1 = (config_run (typed_step limit) ops s).1 /\
  config_rel (config_run (config_step reg b) ops w).2 (config_run (typed_step limit) ops s).2.
Proof.
  induction 1 as [|op ops Hop _ IH]; intros w s Hr; [done|]. cbn [config_run].
  destruct (config_step_spec op w s Hop Hr) as [H1 H2]. destruct (config_step reg b op w) as [x w1], (typed_step limit op s) as [x' s1].
  cbn [fst snd] in *. subst x'. destruct (IH w1 s1 H2) as [H3 H4].
  destruct (config_run (config_step reg b) ops w1), (config_run (typed_step limit) ops s1). cbn [fst snd] in *. by subst.
Qed.
End Proofs.

(** * The RAM backend is such a storage *)

Definition ram_holds (keys : gset cstring) (es : ram_entries) : Prop := ram_wf es /\ dom (store_of es) ⊆ keys.

Lemma keys_room (keys : gset cstring) (m : store) : (size keys <= BB_STORAGE_RAM_MAX_ENTRIES)%nat -> dom m ⊆ keys -> fits_store m.
Proof. intros Hs Hd. unfold fits_store. rewrite <- size_dom. etransitivity; [by apply subseteq_size|done]. Qed.

Lemma ram_keeps_keys (reg : registry (W := ram_entries)) (b : cstring) (keys : gset cstring) : find_backend reg b = Some s_ram_vtable -> (size keys <= BB_STORAGE_RAM_MAX_ENTRIES)%nat ->
  set_Forall (fun k => (length k < BB_STORAGE_RAM_MAX_KEY_BYTES)%nat) keys ->
  KeepsKeys reg b keys BB_STORAGE_RAM_MAX_VALUE_BYTES (ram_holds keys) store_of txn_rel.
Proof.
  intros Hreg Hroom Hkeys.
  assert (Hres : forall ns k ok, resolve reg (Some (mk_addr (Some b) ns (Some k))) ok = if ok then inr (mk_addr (Some b) ns (Some k), s_ram_vtable) else inl BB_ERR_INVALID_ARG)
    by (intros ns k ok; unfold resolve; cbn [a_backend]; rewrite Hreg; by destruct ok).
  split.
  - intros ns k enc cap w [Hw _] _. unfold bb_storage_get_typed. rewrite Hres, orb_true_r.
    cbn [andb vt_get_typed vt_get s_ram_vtable]. by rewrite ram_get_spec.
  - intros ns k enc v w [Hw Hd] Hk. unfold bb_storage_set_typed. rewrite Hres. cbn [is_some]. rewrite orb_true_r.
    cbn [vt_set_typed vt_set s_ram_vtable default from_option]. unfold id. rewrite firstn_all.
    destruct (ram_set_spec (mk_addr (Some b) ns (Some k)) v w Hw) as [H1 H2].
    unfold spec_set in H2. cbn [a_key] in H2. specialize (Hkeys k Hk). rewrite (proj2 (Nat.leb_gt _ _)) in H2 by done.
    assert (Hd' : dom (<[k:=v]> (store_of w)) ⊆ keys) by (rewrite dom_insert; set_solver).
    destruct (decide (length v <= BB_STORAGE_RAM_MAX_VALUE_BYTES)%nat) as [Hl|Hl].
    + rewrite (proj2 (Nat.ltb_ge _ _) Hl), (decide_True (P := fits_store _)) in H2 by (by eapply keys_room).
      injection H2 as H2 H3. cbv zeta. split_and!; [done| |exact H3]. split; [done|]. etransitivity; [|exact Hd']. by rewrite <- H3.
    + unfold ram_set. cbn [a_key]. rewrite (proj2 (Nat.leb_gt _ _)) by done. rewrite (proj2 (Nat.ltb_lt _ _)) by lia. by split_and!.
  - intros ns k w [Hw Hd] Hk. unfold bb_storage_erase. rewrite Hres.
    cbn [vt_erase s_ram_vtable]. destruct (ram_erase_spec (mk_addr (Some b) ns (Some k)) w Hw) as (H1 & H2 & H3).
    unfold spec_erase in H3. cbn [a_key] in H3. cbv zeta. split_and!; [done| |exact H3]. split; [done|].
    transitivity (dom (delete k (store_of w))); [by rewrite <- H3|]. rewrite dom_delete. set_solver.
  - intros ns k w [Hw Hd] Hk. unfold bb_storage_exists. rewrite Hres.
    cbn [vt_exists s_ram_vtable]. by rewrite ram_exists_spec.
  - intros ns cap. destruct (begin_rel reg b ns (mk_handle txn0 None) cap Hreg eq_refl) as [H1 H2].
    split_and!; [done|done|]. destruct H2 as (t & E & _). by eexists.
  - intros cap h r k enc v Ht. destruct (set_rel cap h r (k, enc, v) Ht) as [H1 H2]. cbn [fst snd] in H1, H2.
    split_and!; [done|done|]. destruct H2 as (t & E & _). by eexists.
  - intros cap h r w Ht [Hw Hd] Hm. destruct (commit_rel cap h r w Ht Hw) as (e & t & es' & E & _ & Hw' & H).
    eexists _, _, _. split; [exact E|]. destruct r as [err|m].
    + destruct H as [-> ->]. done.
    + assert (Hd' : dom (m ∪ store_of w) ⊆ keys) by (rewrite dom_union; set_solver).
      rewrite decide_True in H by (by eapply keys_room). destruct H as [-> H]. split; [|done]. split; [done|by rewrite H].
  - intros cap h e (t & _ & _ & _ & _ & _ & H). done.
  - intros cap h r (t & -> & Ho & _). unfold bb_storage_txn_abort. cbn [th_txn]. by rewrite Ho.
Qed.

(** * Properties *)

(** C19: configuration is a typed record.  Over any backend that keeps its keys
    (and the RAM backend is one), for any table of fields with distinct keys,
    any sequence of typed reads, writes, erasures, queries and staged sessions
    on its fields answers as a record of typed values does.  A value written
    is the value read, of every type and in full range, until it is
    overwritten or erased; an absent field reads as its default or
    BB_ERR_NOT_FOUND; text is cut to the caller's buffer with a NUL and its
    true length reported; an accessor of another type, or a value too long for
    its field, is BB_ERR_INVALID_ARG and changes nothing.  A committed session
    writes all its fields or none, and reports its first local error before
    any error of the transaction. *)
Theorem config_refines_typed_record {W} (reg : registry (W := W)) b T limit ready held txn_is ops w s :
  table_ok b T -> KeepsKeys reg b (table_keys T) limit ready held txn_is ->
  Forall (config_op_ok T) ops -> config_rel T ready held w s ->
  let r := config_run (config_step reg b) ops w in
  let q := config_run (typed_step limit) ops s in
  r.1 = q.1 /\ config_rel T ready held r.2 q.2.
Proof. intros HT HK Ho Hr. by apply (config_run_spec reg b T limit ready held txn_is). Qed.

Definition no_default : config_default := mk_default false 0 0 0 0 None.
Definition field_at (t : config_type) (ns key : string) (max : nat) (d : config_default) (has : bool) : config_field :=
  mk_cfield t (mk_addr (Some (bs "ram")) (Some (bs ns)) (Some (bs key))) max d has.
Definition wit_ssid : config_field := field_at BB_CONFIG_STR "wifi" "ssid" 8 no_default false.
Definition wit_port : config_field := field_at BB_CONFIG_U16 "net" "port" 0 (mk_default false 0 8080 0 0 None) true.
Definition wit_temp : config_field := field_at BB_CONFIG_I32 "wifi" "temp" 0 no_default false.
Definition wit_table : list config_field := [wit_ssid; wit_port; wit_temp].
Definition wit_config_ops : list config_op :=
  [OGet wit_port BB_CONFIG_U16; OSet wit_port (VU16 443); OGet wit_port BB_CONFIG_U16; OGet wit_port BB_CONFIG_U8;
   OStaged (bs "wifi") 4 [(wit_ssid, VStr (bs "lab")); (wit_temp, VI32 (-40))] true;
   OGetStr wit_ssid [x2a; x2a; x2a]; OGet wit_temp BB_CONFIG_I32;
   OStaged (bs "wifi") 4 [(wit_temp, VI32 7); (wit_port, VU16 1); (wit_ssid, VStr (bs "x"))] true;
   OGet wit_temp BB_CONFIG_I32; OErase wit_ssid; OExists wit_ssid].

Lemma wit_table_ok : table_ok (bs "ram") wit_table.
Proof.
  split; [apply (bool_decide_unpack _); vm_compute; exact I|]. repeat constructor; by eexists.
Qed.
Lemma wit_keeps : KeepsKeys ram_registry (bs "ram") (table_keys wit_table) BB_STORAGE_RAM_MAX_VALUE_BYTES
  (ram_holds (table_keys wit_table)) store_of txn_rel.
Proof.
  apply ram_keeps_keys; [reflexivity|apply Nat.leb_le; vm_compute; reflexivity|].
  apply (bool_decide_unpack _). vm_compute. exact I.
Qed.

Lemma config_refines_typed_record_witness :
  (config_run (config_step ram_registry (bs "ram")) wit_config_ops ram_empty).1 =
  [CValue BB_OK (Some (VU16 8080)); CCode BB_OK; CValue BB_OK (Some (VU16 443)); CValue BB_ERR_INVALID_ARG None;
   CSession BB_OK [BB_OK; BB_OK] BB_OK; CBuffer (BB_OK, bs "la" ++ [x00], Some 3%nat); CValue BB_OK (Some (VI32 (-40)));
   CSession BB_OK [BB_OK; BB_ERR_INVALID_ARG; BB_ERR_INVALID_ARG] BB_ERR_INVALID_ARG;
   CValue BB_OK (Some (VI32 (-40))); CCode BB_OK; CBool false].
Proof.
  refine (eq_trans (proj1 (config_refines_typed_record ram_registry (bs "ram") wit_table _ _ store_of txn_rel wit_config_ops ram_empty ∅
    wit_table_ok wit_keeps _ _)) _).
  - repeat constructor; try (cbn; lia); try set_solver; cbn; repeat constructor; done.
  - destruct ram_empty_wf as [H1 H2]. split; [split; [done|rewrite H2; set_solver]|by rewrite H2, fmap_empty|apply map_Forall_empty].
  - vm_compute. reflexivity.
Defined.

(** A poisoned session begun again is no longer poisoned: begin fails, since
    the transaction is still open, but it has cleared the local error, and the
    commit writes the part that was staged before the error. *)
Example begin_clears_poison :
  let h := (bb_config_staged_begin ram_registry (Some staged0) (Some (bs "ram")) (Some (bs "wifi")) true 4).2 in
  let h := (call_stage h wit_ssid (VStr (bs "lab"))).2 in
  let '(e1, h) := call_stage h wit_ssid (VStr (bs "a much too long name")) in
  let '(e2, h) := bb_config_staged_begin ram_registry h (Some (bs "ram")) (Some (bs "wifi")) true 4 in
  let '(e3, h, w) := bb_config_staged_commit h ram_empty in
  (e1, e2, e3, store_of w !! bs "ssid") = (BB_ERR_INVALID_ARG, BB_ERR_INVALID_STATE, BB_OK, Some (bs "lab")).
Proof. vm_compute. reflexivity. Qed.

(** A closed session can be begun again: its handle is not single-use. *)
Example begin_reopens_closed :
  let h := (bb_config_staged_begin ram_registry (Some staged0) (Some (bs "ram")) (Some (bs "wifi")) true 4).2 in
  let '(e1, h, w) := bb_config_staged_commit h ram_empty in
  let '(e2, h) := bb_config_staged_begin ram_registry h (Some (bs "ram")) (Some (bs "wifi")) true 4 in
  (e1, e2) = (BB_OK, BB_OK).
Proof. vm_compute. reflexivity. Qed.
