(* ===== verification/Backends.v ===== *)
(** Storage backends over a part of the state: one world behind several
    registered backends (platform/host/bb_storage/bb_storage.c). *)
From Stdlib Require Import Strings.String.
From S2P Require Import Prelude Bytes Storage Config.

Section Lift.
Context {W S : Type} (get : S -> W) (put : W -> S -> S).

(** A backend of [W] as a backend of a world that holds a [W]. *)
Definition lift_vtable (vt : vtable W) : vtable S :=
  mk_vtable
    (option_map (fun f a cap s => f a cap (get s)) (vt_get vt))
    (option_map (fun f a buf s => let '(e, w) := f a buf (get s) in (e, put w s)) (vt_set vt))
    (option_map (fun f a s => let '(e, w) := f a (get s) in (e, put w s)) (vt_erase vt))
    (option_map (fun f a s => f a (get s)) (vt_exists vt))
    (option_map (fun f ns s => let '(e, w) := f ns (get s) in (e, put w s)) (vt_erase_namespace vt))
    (option_map (fun f s => let '(e, w) := f (get s) in (e, put w s)) (vt_erase_all vt))
    (option_map (fun f a enc cap s => f a enc cap (get s)) (vt_get_typed vt))
    (option_map (fun f a enc buf s => let '(e, w) := f a enc buf (get s) in (e, put w s)) (vt_set_typed vt))
    (vt_txn_begin vt) (vt_txn_set vt)
    (option_map (fun f t s => let '(e, t, w) := f t (get s) in (e, t, put w s)) (vt_txn_commit vt))
    (vt_txn_abort vt) (vt_list_entries vt) (vt_get_stats vt).
Definition lift_handle (h : txn_handle (W := W)) : txn_handle (W := S) := mk_handle (th_txn h) (option_map lift_vtable (th_vt h)).

(** What a call at the backend leaves of the world: its part after the call. *)
Definition moved (w : W) (s s' : S) : Prop := get s' = w /\ (s' = s \/ s' = put w s).
Context (get_put : forall w s, get (put w s) = w).
Lemma moved_put w s : moved w s (put w s).
Proof. split; [apply get_put|by right]. Qed.
Lemma moved_stay s : moved (get s) s s.
Proof. split; [done|by left]. Qed.

(** The backend is registered as [b]; alone, it is the registry [alone]. *)
Context (reg : registry (W := S)) (b : cstring) (vt : vtable W).
Definition alone : registry (W := W) := [(b, vt)].
Context (Hreg : find_backend reg b = Some (lift_vtable vt)).

Lemma find_alone : find_backend alone b = Some vt.
Proof. cbn. by rewrite bool_decide_true. Qed.
Lemma resolve_lift a ok : a_backend a = Some b ->
  resolve reg (Some a) ok = match resolve alone (Some a) ok with inl e => inl e | inr (a, _) => inr (a, lift_vtable vt) end.
Proof. intros Hb. unfold resolve. rewrite Hb, Hreg, find_alone. by destruct ok. Qed.
Lemma resolve_alone a ok : a_backend a = Some b -> resolve alone (Some a) ok = if ok then inr (a, vt) else inl BB_ERR_INVALID_ARG.
Proof. intros Hb. unfold resolve. rewrite Hb, find_alone. by destruct ok. Qed.

Lemma lift_get_typed a enc buf_ok cap len_ok s : a_backend a = Some b ->
  bb_storage_get_typed reg (Some a) enc buf_ok cap len_ok s = bb_storage_get_typed alone (Some a) enc buf_ok cap len_ok (get s).
Proof.
  intros Hb. unfold bb_storage_get_typed. rewrite resolve_lift, resolve_alone by done. destruct (_ && _); [|done].
  cbn [lift_vtable vt_get_typed vt_get]. destruct (vt_get_typed vt); [done|]. cbn [option_map]. by destruct (vt_get vt).
Qed.
Lemma lift_exists a s : a_backend a = Some b -> bb_storage_exists reg (Some a) s = bb_storage_exists alone (Some a) (get s).
Proof. intros Hb. unfold bb_storage_exists. rewrite resolve_lift, resolve_alone by done. cbn [lift_vtable vt_exists]. by destruct (vt_exists vt). Qed.
Lemma lift_set_typed a enc buf len s : a_backend a = Some b ->
  let r := bb_storage_set_typed reg (Some a) enc buf len s in let q := bb_storage_set_typed alone (Some a) enc buf len (get s) in
  r.1 = q.1 /\ moved q.2 s r.2.
Proof.
  intros Hb. unfold bb_storage_set_typed. rewrite resolve_lift, resolve_alone by done. destruct (_ || _); [|by split; [|apply moved_stay]].
  cbn [lift_vtable vt_set_typed vt_set]. destruct (vt_set_typed vt) as [f|]; cbn [option_map].
  - destruct (f _ _ _ _) as [e w]. split; [done|apply moved_put].
  - destruct (vt_set vt) as [f|]; cbn [option_map]; [|by split; [|apply moved_stay]]. destruct (f _ _ _) as [e w]. split; [done|apply moved_put].
Qed.
Lemma lift_erase a s : a_backend a = Some b ->
  let r := bb_storage_erase reg (Some a) s in let q := bb_storage_erase alone (Some a) (get s) in r.1 = q.1 /\ moved q.2 s r.2.
Proof.
  intros Hb. unfold bb_storage_erase. rewrite resolve_lift, resolve_alone by done. cbn [lift_vtable vt_erase].
  destruct (vt_erase vt) as [f|]; cbn [option_map]; [|by split; [|apply moved_stay]]. destruct (f _ _) as [e w]. split; [done|apply moved_put].
Qed.

Definition lifted (h : option (txn_handle (W := W))) : option (txn_handle (W := S)) := option_map lift_handle h.
Lemma lift_begin ns h slots_ok cap :
  bb_storage_txn_begin reg (Some b) ns (lifted h) slots_ok cap =
  let '(e, h) := bb_storage_txn_begin alone (Some b) ns h slots_ok cap in (e, lifted h).
Proof.
  unfold bb_storage_txn_begin. destruct ns as [ns|]; [|done]. destruct h as [h|]; [|done]. cbn [lifted option_map]. destruct (_ && _); [done|].
  cbn [lift_handle th_txn]. destruct (tx_open _); [done|]. rewrite Hreg, find_alone. cbn [lift_vtable vt_txn_begin].
  destruct (vt_txn_begin vt) as [f|]; [|done]. by destruct (f ns _).
Qed.
Lemma lift_txn_set h key enc buf :
  bb_storage_txn_set (lifted h) key enc buf = let '(e, h) := bb_storage_txn_set h key enc buf in (e, lifted h).
Proof.
  unfold bb_storage_txn_set. destruct h as [h|]; [|by destruct key]. cbn [lifted option_map]. destruct key as [key|]; [|done]. cbn [lift_handle th_txn th_vt].
  destruct (negb (tx_open _)); [done|]. destruct (negb (is_ok _)); [done|]. destruct (th_vt h) as [v|] eqn:E; cbn [option_map]; [|done].
  cbn [lift_vtable vt_txn_set]. destruct (vt_txn_set v) as [f|]; [|done]. destruct (f _ _ _ _) as [e t]. unfold lifted, lift_handle, set_txn. cbn. by rewrite E.
Qed.
Lemma lift_commit h s :
  let '(e, h', s') := bb_storage_txn_commit (lifted h) s in let '(e0, h0, w0) := bb_storage_txn_commit h (get s) in
  e = e0 /\ h' = lifted h0 /\ moved w0 s s'.
Proof.
  unfold bb_storage_txn_commit. destruct h as [h|]; [|by split_and!; [| |apply moved_stay]]. cbn [lifted option_map lift_handle th_txn th_vt].
  destruct (negb (tx_open _)); [by split_and!; [| |apply moved_stay]|]. destruct (th_vt h) as [v|] eqn:E; cbn [option_map]; [|by split_and!; [|unfold lifted, lift_handle; cbn; by rewrite E|apply moved_stay]].
  cbn [lift_vtable vt_txn_commit]. destruct (vt_txn_commit v) as [f|]; cbn [option_map]; [|by split_and!; [|unfold lifted, lift_handle; cbn; by rewrite E|apply moved_stay]].
  destruct (f _ _) as [[e t] w]. split_and!; [done| |apply moved_put]. unfold lifted, lift_handle, set_txn. cbn. by rewrite E.
Qed.
Lemma lift_abort h : bb_storage_txn_abort (lifted h) = let '(e, h) := bb_storage_txn_abort h in (e, lifted h).
Proof.
  unfold bb_storage_txn_abort. destruct h as [h|]; [|done]. cbn [lifted option_map lift_handle th_txn th_vt]. destruct (negb _); [done|].
  destruct (th_vt h) as [v|] eqn:E; cbn [option_map]; [|unfold lifted, lift_handle; cbn; by rewrite E]. cbn [lift_vtable vt_txn_abort].
  destruct (vt_txn_abort v) as [f|]; [|unfold lifted, lift_handle; cbn; by rewrite E]. destruct (f _) as [e t]. unfold lifted, lift_handle, set_txn. cbn. by rewrite E.
Qed.

(** A backend that keeps its keys keeps them in the larger world. *)
Definition lift_txn (txn_is : nat -> option (txn_handle (W := W)) -> bb_err + store -> Prop) (cap : nat) (h : option (txn_handle (W := S))) (r : bb_err + store) : Prop :=
  exists h0, h = lifted h0 /\ txn_is cap h0 r.
Lemma lift_keeps keys limit ready held txn_is : KeepsKeys alone b keys limit ready held txn_is ->
  KeepsKeys reg b keys limit (fun s => ready (get s)) (fun s => held (get s)) (lift_txn txn_is).
Proof.
  intros [Hget Hset Herase Hexists Hbegin Hstage Hcommit Hpoison Habort]. split.
  - intros ns k enc cap s Hr Hk. rewrite lift_get_typed by done. by apply Hget.
  - intros ns k enc v s Hr Hk. specialize (Hset ns k enc v (get s) Hr Hk). cbv zeta in *.
    pose proof (lift_set_typed (mk_addr (Some b) ns (Some k)) enc (Some v) (length v) s eq_refl) as [H1 [H2 H3]].
    rewrite H1, H2. by case_decide.
  - intros ns k s Hr Hk. specialize (Herase ns k (get s) Hr Hk). cbv zeta in *.
    pose proof (lift_erase (mk_addr (Some b) ns (Some k)) s eq_refl) as [H1 [H2 H3]]. by rewrite H1, H2.
  - intros ns k s Hr Hk. rewrite lift_exists by done. by apply Hexists.
  - intros ns cap. specialize (Hbegin ns cap). cbv zeta in *. rewrite (lift_begin (Some ns) (Some (mk_handle txn0 None)) true cap : bb_storage_txn_begin reg (Some b) (Some ns) (Some (mk_handle txn0 None)) true cap = _).
    destruct (bb_storage_txn_begin alone _ _ _ _ _) as [e h]. cbn [fst snd] in *. destruct Hbegin as (H1 & H2 & [h0 ->]). split_and!; [done|by eexists|by eexists].
  - intros cap h r k enc v (h0 & -> & Ht). specialize (Hstage cap h0 r k enc v Ht). cbv zeta in *. rewrite lift_txn_set.
    destruct (bb_storage_txn_set h0 _ _ _) as [e h1]. cbn [fst snd] in *. destruct Hstage as (H1 & H2 & [h2 ->]). split_and!; [done|by eexists|by eexists].
  - intros cap h r s (h0 & -> & Ht) Hr Hd. destruct (Hcommit cap h0 r (get s) Ht Hr Hd) as (e & h' & w' & E & Hr' & H).
    pose proof (lift_commit h0 s) as Hl. rewrite E in Hl. destruct (bb_storage_txn_commit (lifted h0) s) as [[e1 h1] s1]. destruct Hl as (-> & -> & Hm & Hm').
    exists e, (lifted h'), s1. rewrite Hm. by split_and!.
  - intros cap h e (h0 & _ & Ht). by eapply Hpoison.
  - intros cap h r (h0 & -> & Ht). rewrite lift_abort. specialize (Habort cap h0 r Ht). by destruct (bb_storage_txn_abort h0).
Qed.
End Lift.
