(* ===== verification/Settings.v ===== *)
(** Device settings over configuration and storage:
    platform/host/bb_settings/bb_settings.c and
    components/bb_settings/src/bb_settings_creds_boot_decide.c. *)
From Stdlib Require Import Strings.String.
From S2P Require Import Prelude Bytes Str Storage Config.

(** * The fields *)

Definition BB_SETTINGS_WIFI_NS : cstring := bs "bb_cfg".
Definition no_def : config_default := mk_default false 0 0 0 0 None.
Definition empty_def : config_default := mk_default false 0 0 0 0 (Some []).
Definition true_def : config_default := mk_default true 0 0 0 0 None.
Definition nvs_at (key : string) : addr := mk_addr (Some (bs "nvs")) (Some BB_SETTINGS_WIFI_NS) (Some (bs key)).
Definition rtc_at (key : string) : addr := mk_addr (Some (bs "rtc")) (Some []) (Some (bs key)).
Definition s_wifi_ssid_field : config_field := mk_cfield BB_CONFIG_STR (nvs_at "wifi_ssid") 32 no_def false.
Definition s_wifi_pass_field : config_field := mk_cfield BB_CONFIG_STR (nvs_at "wifi_pass") 64 no_def false.
Definition s_wifi_provisioned_field : config_field := mk_cfield BB_CONFIG_BOOL (nvs_at "provisioned") 0 no_def false.
Definition s_wifi_ssid_p_field : config_field := mk_cfield BB_CONFIG_STR (nvs_at "wifi_ssid_p") 32 empty_def true.
Definition s_wifi_pass_p_field : config_field := mk_cfield BB_CONFIG_STR (nvs_at "wifi_pass_p") 64 empty_def true.
Definition s_wifi_try_field : config_field := mk_cfield BB_CONFIG_U8 (nvs_at "wifi_try") 0 no_def false.
Definition s_hostname_field : config_field := mk_cfield BB_CONFIG_STR (nvs_at "hostname") 33 empty_def true.
Definition s_timezone_field : config_field := mk_cfield BB_CONFIG_STR (nvs_at "timezone") 65 empty_def true.
Definition s_display_enabled_field : config_field := mk_cfield BB_CONFIG_BOOL (nvs_at "display_en") 0 true_def true.
Definition s_mdns_enabled_field : config_field := mk_cfield BB_CONFIG_BOOL (nvs_at "mdns_en") 0 true_def true.
Definition s_update_check_enabled_field : config_field := mk_cfield BB_CONFIG_BOOL (nvs_at "update_check_en") 0 true_def true.
Definition s_wifi_rtc_ssid_field : config_field := mk_cfield BB_CONFIG_STR (rtc_at "ssid") 32 no_def false.
Definition s_wifi_rtc_pass_field : config_field := mk_cfield BB_CONFIG_STR (rtc_at "pass") 64 no_def false.
Definition s_wifi_rtc_provisioned_field : config_field := mk_cfield BB_CONFIG_U8 (rtc_at "provisioned") 0 no_def false.

(** settings_valid_hostname; [None]: NULL. *)
Definition hostname_char (c : byte) : bool :=
  ((97 <=? bz c) && (bz c <=? 122)) || ((65 <=? bz c) && (bz c <=? 90)) || ((48 <=? bz c) && (bz c <=? 57)) || (bz c =? 45).
Definition settings_valid_hostname (s : option cstring) : bool :=
  match s with
  | None => false
  | Some s =>
      if (length s =? 0)%nat || (32 <? length s)%nat then false else
      if (bz (hd x00 s) =? 45) || (bz (List.last s x00) =? 45) then false else forallb hostname_char s
  end.

Inductive creds_boot_action : Set := BB_SETTINGS_CREDS_BOOT_NONE | BB_SETTINGS_CREDS_BOOT_HEAL | BB_SETTINGS_CREDS_BOOT_SEED.
Definition bb_settings_creds_boot_decide (live_creds_present mirror_valid_with_creds : bool) : creds_boot_action :=
  if negb live_creds_present && mirror_valid_with_creds then BB_SETTINGS_CREDS_BOOT_HEAL else
  if live_creds_present && negb mirror_valid_with_creds then BB_SETTINGS_CREDS_BOOT_SEED else BB_SETTINGS_CREDS_BOOT_NONE.

Definition bb_settings_ns_is_wifi_creds (ns : option cstring) : bool := bool_decide (ns = Some BB_SETTINGS_WIFI_NS).

(** One row of the schema overlay. *)
Record overlay_entry := mk_overlay {
  oe_ns : cstring; oe_key : cstring; oe_type : cstring; oe_label : cstring; oe_secret : bool; oe_provisioning_only : bool; oe_reboot_required : bool
}.
Definition bb_settings_config_type_to_str (t : config_type) : cstring := match t with BB_CONFIG_BOOL => bs "bool" | _ => bs "str" end.
Definition overlay_of (f : config_field) (label : string) (secret provisioning_only reboot_required : bool) : overlay_entry :=
  mk_overlay (default [] (a_ns_or_dir (cf_addr f))) (default [] (a_key (cf_addr f))) (bb_settings_config_type_to_str (cf_type f)) (bs label) secret provisioning_only reboot_required.
Definition s_overlay_fields : list overlay_entry :=
  [overlay_of s_wifi_ssid_field "WiFi SSID" false true true; overlay_of s_wifi_pass_field "WiFi Password" true true true;
   overlay_of s_wifi_provisioned_field "Provisioning completed flag" false false true].
Definition bb_settings_nv_overlay_entries (out_ok : bool) (cap : nat) : nat * list overlay_entry :=
  (length s_overlay_fields, if out_ok then take cap s_overlay_fields else []).

Section Settings.
(** [cb]: the callback installed for the provisioned transition, by its effect. *)
Context {W : Type} (reg : registry (W := W)) (cb : option (W -> W)).

(** A text read into a buffer of the caller; [out_len] may be NULL. *)
Definition text_get (f : config_field) (buf_ok : bool) (buf : list byte) (cap : nat) (w : W) : bb_err * list byte * option nat :=
  bb_config_get_str reg (Some f) buf_ok buf cap true w.
Definition bb_settings_wifi_ssid_get := text_get s_wifi_ssid_field.
Definition bb_settings_wifi_pass_get := text_get s_wifi_pass_field.
Definition bb_settings_hostname_get := text_get s_hostname_field.
Definition bb_settings_timezone_get := text_get s_timezone_field.
Definition bb_settings_wifi_pending_ssid_get := text_get s_wifi_ssid_p_field.
Definition bb_settings_wifi_pending_pass_get := text_get s_wifi_pass_p_field.
Definition bb_settings_wifi_rtc_mirror_ssid_get := text_get s_wifi_rtc_ssid_field.
Definition bb_settings_wifi_rtc_mirror_pass_get := text_get s_wifi_rtc_pass_field.

Definition bb_settings_wifi_has_creds (w : W) : bool :=
  let '(err, _, len) := bb_config_get_str reg (Some s_wifi_ssid_field) false [] 0 true w in is_ok err && (0 <? default 0%nat len)%nat.
Definition bb_settings_hostname_set (hostname : option cstring) (w : W) : bb_err * W :=
  if negb (settings_valid_hostname hostname) then (BB_ERR_INVALID_ARG, w) else bb_config_set_str reg (Some s_hostname_field) hostname w.
Definition bb_settings_timezone_set (tz : option cstring) (w : W) : bb_err * W :=
  let t := default [] tz in
  if (64 <? length t)%nat then (BB_ERR_INVALID_ARG, w) else bb_config_set_str reg (Some s_timezone_field) (Some t) w.

(** A flag whose reads fall back to true. *)
Definition flag_get (f : config_field) (w : W) : bool :=
  let '(err, en) := bb_config_get_bool reg (Some f) true w in if is_ok err then default true en else true.
Definition bb_settings_display_enabled_get := flag_get s_display_enabled_field.
Definition bb_settings_mdns_enabled_get := flag_get s_mdns_enabled_field.
Definition bb_settings_update_check_enabled_get := flag_get s_update_check_enabled_field.
Definition bb_settings_display_enabled_set (en : bool) (w : W) : bb_err * W := bb_config_set_bool reg (Some s_display_enabled_field) en w.
Definition bb_settings_mdns_enabled_set (en : bool) (w : W) : bb_err * W := bb_config_set_bool reg (Some s_mdns_enabled_field) en w.
Definition bb_settings_update_check_enabled_set (en : bool) (w : W) : bb_err * W := bb_config_set_bool reg (Some s_update_check_enabled_field) en w.

(** [ssid], [pass] may be NULL, here and below. *)
Definition bb_settings_wifi_rtc_mirror_write (ssid pass : option cstring) (w : W) : W :=
  let p := default [] pass in
  let '(err, h) := bb_config_staged_begin reg (Some staged0) (Some (bs "rtc")) (Some []) true 3 in
  if negb (is_ok err) then w else
  let h := (bb_config_staged_set_str h (Some s_wifi_rtc_ssid_field) ssid).2 in
  let h := (bb_config_staged_set_str h (Some s_wifi_rtc_pass_field) (Some p)).2 in
  let h := (bb_config_staged_set_u8 h (Some s_wifi_rtc_provisioned_field) 1).2 in
  (bb_config_staged_commit h w).2.

Definition bb_settings_provisioned_invoke (w : W) : W := match cb with Some cb => cb w | None => w end.
Definition bb_settings_wifi_provisioned_get (w : W) : bool :=
  let '(err, val) := bb_config_get_bool reg (Some s_wifi_provisioned_field) true w in is_ok err && default false val.
Definition bb_settings_provisioned_notify_transition (was_provisioned : bool) (w : W) : W :=
  if negb was_provisioned then bb_settings_provisioned_invoke w else w.
Definition bb_settings_wifi_provisioned_mark_connected (w : W) : W :=
  let was_provisioned := bb_settings_wifi_provisioned_get w in
  if was_provisioned then w else
  let '(err, w) := bb_config_set_bool reg (Some s_wifi_provisioned_field) true w in
  if is_ok err then bb_settings_provisioned_notify_transition was_provisioned w else w.

Definition bb_settings_wifi_set (ssid pass : option cstring) (w : W) : bb_err * W :=
  let p := default [] pass in
  let '(err, h) := bb_config_staged_begin reg (Some staged0) (Some (bs "nvs")) (Some BB_SETTINGS_WIFI_NS) true 2 in
  if negb (is_ok err) then (err, w) else
  let h := (bb_config_staged_set_str h (Some s_wifi_ssid_field) ssid).2 in
  let h := (bb_config_staged_set_str h (Some s_wifi_pass_field) (Some p)).2 in
  let '(err, _, w) := bb_config_staged_commit h w in
  if negb (is_ok err) then (err, w) else (BB_OK, bb_settings_wifi_rtc_mirror_write ssid (Some p) w).

Definition bb_settings_wifi_pending_set (ssid pass : option cstring) (w : W) : bb_err * W :=
  let p := default [] pass in
  let '(err, h) := bb_config_staged_begin reg (Some staged0) (Some (bs "nvs")) (Some BB_SETTINGS_WIFI_NS) true 3 in
  if negb (is_ok err) then (err, w) else
  let h := (bb_config_staged_set_str h (Some s_wifi_ssid_p_field) ssid).2 in
  let h := (bb_config_staged_set_str h (Some s_wifi_pass_p_field) (Some p)).2 in
  let h := (bb_config_staged_set_u8 h (Some s_wifi_try_field) 1).2 in
  let '(err, _, w) := bb_config_staged_commit h w in (err, w).

Definition bb_settings_wifi_pending_active (w : W) : bool :=
  let '(terr, try_flag) := bb_config_get_u8 reg (Some s_wifi_try_field) true w in
  let try_flag := if is_ok terr then default 0 try_flag else 0 in
  let '(serr, ssid, ssid_len) := bb_config_get_str reg (Some s_wifi_ssid_p_field) true (repeat x00 32) 32 true w in
  negb (try_flag =? 0) && is_ok serr && (0 <? default 0%nat ssid_len)%nat && negb (bz (hd x00 ssid) =? 0).

Definition bb_settings_wifi_pending_promote (w : W) : bb_err * W :=
  let '(serr, ssid, ssid_len) := bb_config_get_str reg (Some s_wifi_ssid_p_field) true (repeat x00 32) 32 true w in
  if negb (is_ok serr) || (default 0%nat ssid_len =? 0)%nat then (BB_ERR_INVALID_STATE, w) else
  let '(perr, pass, _) := bb_config_get_str reg (Some s_wifi_pass_p_field) true (repeat x00 64) 64 true w in
  if negb (is_ok perr) then (perr, w) else
  let was_provisioned := bb_settings_wifi_provisioned_get w in
  let '(err, h) := bb_config_staged_begin reg (Some staged0) (Some (bs "nvs")) (Some BB_SETTINGS_WIFI_NS) true 4 in
  if negb (is_ok err) then (err, w) else
  let h := (bb_config_staged_set_str h (Some s_wifi_ssid_field) (Some (cstr ssid))).2 in
  let h := (bb_config_staged_set_str h (Some s_wifi_pass_field) (Some (cstr pass))).2 in
  let h := (bb_config_staged_set_u8 h (Some s_wifi_try_field) 0).2 in
  let h := (bb_config_staged_set_bool h (Some s_wifi_provisioned_field) true).2 in
  let '(err, _, w) := bb_config_staged_commit h w in
  if negb (is_ok err) then (err, w) else
  let w := bb_settings_provisioned_notify_transition was_provisioned w in
  let w := bb_settings_wifi_rtc_mirror_write (Some (cstr ssid)) (Some (cstr pass)) w in
  let w := (bb_storage_erase reg (Some (cf_addr s_wifi_ssid_p_field)) w).2 in
  let w := (bb_storage_erase reg (Some (cf_addr s_wifi_pass_p_field)) w).2 in
  (BB_OK, w).

Definition bb_settings_wifi_pending_clear (w : W) : bb_err * W :=
  let '(err, w) := bb_config_set_u8 reg (Some s_wifi_try_field) 0 w in
  let w := (bb_storage_erase reg (Some (cf_addr s_wifi_ssid_p_field)) w).2 in
  let w := (bb_storage_erase reg (Some (cf_addr s_wifi_pass_p_field)) w).2 in
  (err, w).

Definition bb_settings_wifi_rtc_mirror_has_creds (w : W) : bool := bb_storage_exists reg (Some (cf_addr s_wifi_rtc_ssid_field)) w.
Definition bb_settings_wifi_rtc_mirror_provisioned_get (w : W) : bool :=
  let '(err, val) := bb_config_get_u8 reg (Some s_wifi_rtc_provisioned_field) true w in is_ok err && negb (default 0 val =? 0).
Definition bb_settings_wifi_rtc_mirror_clear (w : W) : bb_err * W := bb_storage_erase reg (Some (cf_addr s_wifi_rtc_ssid_field)) w.

(** On the device, with the mirror configured; [flash_err]: what
    bb_storage_nvs_flash_init answers. *)
Definition bb_settings_creds_boot_init (flash_err : bb_err) (w : W) : bb_err * W :=
  if negb (is_ok flash_err) then (flash_err, w) else
  let action := bb_settings_creds_boot_decide (bb_settings_wifi_has_creds w) (bb_settings_wifi_rtc_mirror_has_creds w) in
  match action with
  | BB_SETTINGS_CREDS_BOOT_HEAL =>
      let '(sret, ssid, _) := bb_settings_wifi_rtc_mirror_ssid_get true (repeat x00 32) 32 w in
      let '(pret, pass, _) := bb_settings_wifi_rtc_mirror_pass_get true (repeat x00 64) 64 w in
      if is_ok sret && is_ok pret && negb (bz (hd x00 ssid) =? 0) then
        let '(werr, w) := bb_settings_wifi_set (Some (cstr ssid)) (Some (cstr pass)) w in
        if is_ok werr && bb_settings_wifi_rtc_mirror_provisioned_get w then
          let '(perr, w) := bb_config_set_bool reg (Some s_wifi_provisioned_field) true w in
          (BB_OK, if is_ok perr then bb_settings_wifi_rtc_mirror_write (Some (cstr ssid)) (Some (cstr pass)) w else w)
        else (BB_OK, w)
      else (BB_OK, w)
  | BB_SETTINGS_CREDS_BOOT_SEED =>
      let '(sret, ssid, _) := bb_settings_wifi_ssid_get true (repeat x00 32) 32 w in
      let '(pret, pass, _) := bb_settings_wifi_pass_get true (repeat x00 64) 64 w in
      (BB_OK, if is_ok sret && is_ok pret then bb_settings_wifi_rtc_mirror_write (Some (cstr ssid)) (Some (cstr pass)) w else w)
  | BB_SETTINGS_CREDS_BOOT_NONE => (BB_OK, w)
  end.
End Settings.
