(* ===== verification/SettingsStore.v ===== *)
(** Device settings on a device: the flash backend and the credential mirror
    behind one storage facade.  What every settings call does to both, and
    what the storage goes through meanwhile. *)
From Stdlib Require Import Strings.String.
From S2P Require Import Prelude Bytes Str Storage Rtc Config Backends Settings.

(** The fields kept in flash. *)
Definition nvs_table : list config_field :=
  [s_wifi_ssid_field; s_wifi_pass_field; s_wifi_provisioned_field; s_wifi_ssid_p_field; s_wifi_pass_p_field; s_wifi_try_field;
   s_hostname_field; s_timezone_field; s_display_enabled_field; s_mdns_enabled_field; s_update_check_enabled_field].
Ltac in_table := unfold nvs_table; repeat first [apply list_elem_of_here | apply list_elem_of_further].
Lemma nvs_table_ok : table_ok (bs "nvs") nvs_table.
Proof. split; [apply (bool_decide_unpack _); vm_compute; exact I|]. repeat constructor; by eexists. Qed.

(** The device: flash, mirror, how often the provisioned callback was called,
    and what flash and mirror were after each storage write, last first. *)
Record device (N : Type) := mk_dev { dv_nvs : N; dv_rtc : region; dv_told : nat; dv_past : list (N * region) }.
Arguments mk_dev {N}. Arguments dv_nvs {N}. Arguments dv_rtc {N}. Arguments dv_told {N}. Arguments dv_past {N}.
Definition put_nvs {N} (n : N) (d : device N) : device N := mk_dev n (dv_rtc d) (dv_told d) ((n, dv_rtc d) :: dv_past d).
Definition put_rtc {N} (r : region) (d : device N) : device N := mk_dev (dv_nvs d) r (dv_told d) ((dv_nvs d, r) :: dv_past d).
Definition tell {N} (d : device N) : device N := mk_dev (dv_nvs d) (dv_rtc d) (S (dv_told d)) (dv_past d).

(** What a text field has, and what a buffer of [n] zeros gets of it. *)
Definition text (f : config_field) (s : typed) : cstring := match s !! key_of_field f with Some v => encode v | None => default [] (d_str (cf_def f)) end.
Lemma buffer_text t n : (0 < n)%nat -> Forall (fun c => c <> x00) t -> cstr (put_text t (repeat x00 n)) = take (n - 1) t.
Proof.
  intros Hn Ht. unfold put_text. rewrite repeat_length, (proj2 (Nat.ltb_lt _ _)) by done. unfold overlay. rewrite <- app_assoc. cbn [app].
  apply cstr_nul. by apply Forall_take.
Qed.
Lemma buffer_head t n : (1 < n)%nat -> Forall (fun c => c <> x00) t -> (bz (hd x00 (put_text t (repeat x00 n))) =? 0) = bool_decide (t = []).
Proof.
  intros Hn Ht. unfold put_text. rewrite repeat_length, (proj2 (Nat.ltb_lt _ _)) by lia. unfold overlay. destruct Ht as [|c t Hc _]; [by rewrite take_nil|].
  destruct n as [|[|n]]; [lia|lia|]. cbn [Nat.sub take app hd]. rewrite bool_decide_false by done. apply Z.eqb_neq. intros E. apply Hc. by apply bz_inj.
Qed.

(** ** Batches *)

Definition put_all (sets : list (config_field * cval)) (s : typed) : typed := fold_left (fun s x => <[key_of_field x.1 := x.2]> s) sets s.
Definition batch_fits (sets : list (config_field * cval)) : bool := forallb (fun x => negb (too_long x.1 x.2)) sets.
Definition spec_batch (sets : list (config_field * cval)) (s : typed) : bb_err * typed :=
  if batch_fits sets then (BB_OK, put_all sets s) else (BB_ERR_INVALID_ARG, s).
(** Settings' own values for settings' own fields. *)
Definition own (x : config_field * cval) : Prop := x.1 ∈ nvs_table /\ cf_type x.1 = val_type x.2 /\ in_range x.2 /\ match x.2 with VBlob _ => False | _ => True end.
Lemma nvs_fields : Forall (fun f => a_ns_or_dir (cf_addr f) = Some BB_SETTINGS_WIFI_NS /\ (length (key_of_field f) < BB_STORAGE_TXN_KEY_MAX_BYTES)%nat /\ (cf_max_len f <= 65)%nat) nvs_table.
Proof. repeat constructor; vm_compute; lia. Qed.
Lemma own_field x : own x -> a_ns_or_dir (cf_addr x.1) = Some BB_SETTINGS_WIFI_NS /\ (length (key_of_field x.1) < BB_STORAGE_TXN_KEY_MAX_BYTES)%nat /\
  (too_long x.1 x.2 = false -> (length (encode x.2) <= BB_STORAGE_TXN_VALUE_MAX_BYTES)%nat).
Proof.
  intros (Hf & Ht & _ & Hb). pose proof nvs_fields as H. rewrite Forall_forall in H. destruct (H _ Hf) as (H1 & H2 & H3). split_and!; [done|done|].
  unfold BB_STORAGE_TXN_VALUE_MAX_BYTES. destruct x as [f v]. destruct v; cbn [too_long encode fst snd length] in *; try done; try (intros _; cbn; lia).
  intros Hl%Nat.leb_gt. lia.
Qed.
Lemma session_poisoned cap sets e : forall t, e <> BB_OK -> se_local (session_sets BB_SETTINGS_WIFI_NS cap sets (mk_session e t)).2 = e.
Proof.
  induction sets as [|[f v] sets IH]; intros t He; [done|]. cbn [session_sets]. unfold session_set. cbn [se_local se_txn].
  assert (is_ok e = false) as -> by (by destruct e). cbn [negb]. specialize (IH t He). by destruct (session_sets _ _ _ _).
Qed.
Lemma session_batch cap sets s : Forall own sets -> forall m, (size m + length sets <= cap)%nat ->
  session_commit (session_sets BB_SETTINGS_WIFI_NS cap sets (mk_session BB_OK (inr m))).2 s =
  if batch_fits sets then (BB_OK, put_all sets m ∪ s) else (BB_ERR_INVALID_ARG, s).
Proof.
  induction 1 as [|[f v] sets Hown _ IH]; intros m Hm; [done|]. destruct (own_field _ Hown) as (Hns & Hkey & Hval). destruct Hown as (_ & Ht & _).
  cbn [session_sets fst snd length batch_fits forallb] in *. unfold session_set. cbn [se_local is_ok negb se_txn]. rewrite !bool_decide_true by done. cbn [negb orb].
  destruct (too_long f v) eqn:El; cbn [negb andb].
  - pose proof (session_poisoned cap sets BB_ERR_INVALID_ARG (inr m) ltac:(done)) as Hp. destruct (session_sets _ _ _ _) as [es se]. cbn [fst snd] in *.
    unfold session_commit. by rewrite Hp.
  - unfold session_put. specialize (Hval eq_refl). rewrite (proj2 (Nat.ltb_ge _ _)) by done. rewrite (proj2 (Nat.leb_gt _ _)) by done.
    assert (Hs : (size (<[key_of_field f := v]> m) <= S (size m))%nat).
    { destruct (m !! key_of_field f) as [u|] eqn:E; [rewrite map_size_insert_Some by (by eexists); lia|rewrite map_size_insert_None by done; lia]. }
    rewrite decide_True by lia. specialize (IH (<[key_of_field f := v]> m) ltac:(lia)).
    destruct (session_sets _ _ _ _) as [es se]. cbn [fst snd] in *. exact IH.
Qed.
Lemma put_all_union sets : forall m s, put_all sets m ∪ s = put_all sets (m ∪ s).
Proof. induction sets as [|x sets IH]; intros m s; [done|]. cbn [put_all fold_left]. rewrite IH. by rewrite <- insert_union_l. Qed.

Section Device.
(** The flash backend keeps its keys; values of 64 bytes at least. *)
Context {N : Type} (nvs_vt : vtable N) (limit : nat) (ready : N -> Prop) (held_in : N -> store)
  (txn_is : nat -> option (txn_handle (W := N)) -> bb_err + store -> Prop) (Hlimit : (64 <= limit)%nat)
  `{HN : !KeepsKeys (alone (bs "nvs") nvs_vt) (bs "nvs") (table_keys nvs_table) limit ready held_in txn_is}.
(** Whether the mirror backend was registered. *)
Context (with_rtc : bool).

Definition reg : registry (W := device N) :=
  (bs "nvs", lift_vtable dv_nvs put_nvs nvs_vt) :: (if with_rtc then [(bs "rtc", lift_vtable dv_rtc put_rtc s_rtc_vtable)] else []).
Lemma reg_nvs : find_backend reg (bs "nvs") = Some (lift_vtable dv_nvs put_nvs nvs_vt).
Proof. cbn [reg find_backend]. by rewrite bool_decide_true. Qed.
Lemma reg_rtc : find_backend reg (bs "rtc") = if with_rtc then Some (lift_vtable dv_rtc put_rtc s_rtc_vtable) else None.
Proof. unfold reg. cbn [find_backend]. rewrite bool_decide_false by done. destruct with_rtc; [|done]. cbn [find_backend]. by rewrite bool_decide_true. Qed.
#[local] Instance dev_keeps : KeepsKeys reg (bs "nvs") (table_keys nvs_table) limit (fun d => ready (dv_nvs d)) (fun d => held_in (dv_nvs d)) (lift_txn dv_nvs put_nvs txn_is).
Proof. by apply (lift_keeps dv_nvs put_nvs (fun w s => eq_refl) reg (bs "nvs") nvs_vt reg_nvs). Qed.

(** Flash holds the typed record [s], the mirror [m]. *)
Definition flash_rel (n : N) (s : typed) : Prop := config_rel nvs_table ready held_in n s.
Definition holds (n : N) (r : region) (s : typed) (m : option creds) : Prop := flash_rel n s /\ region_ok r /\ held r = m.
Definition dev_rel (d : device N) (s : typed) (m : option creds) : Prop := holds (dv_nvs d) (dv_rtc d) s m.
Lemma dev_config d s : config_rel nvs_table (fun d => ready (dv_nvs d)) (fun d => held_in (dv_nvs d)) d s <-> flash_rel (dv_nvs d) s.
Proof. by split; intros []; split. Qed.

(** From [d] to [d'] the storage held only contents that [Q] allows. *)
Definition through (Q : typed -> option creds -> Prop) (d d' : device N) : Prop :=
  exists more, dv_past d' = more ++ dv_past d /\ Forall (fun x => exists s m, holds x.1 x.2 s m /\ Q s m) more.
Lemma through_same Q d d' : dv_past d' = dv_past d -> through Q d d'.
Proof. intros E. exists []. by split. Qed.
Lemma through_then Q d d1 d2 : through Q d d1 -> through Q d1 d2 -> through Q d d2.
Proof. intros (a & E1 & H1) (b & E2 & H2). exists (b ++ a). rewrite E2, E1, app_assoc. split; [done|]. by apply Forall_app. Qed.
Lemma through_weaken (Q Q' : typed -> option creds -> Prop) d d' : (forall s m, Q s m -> Q' s m) -> through Q d d' -> through Q' d d'.
Proof. intros H (a & E & Ha). exists a. split; [done|]. eapply Forall_impl; [exact Ha|]. intros x (s & m & H1 & H2). exists s, m. auto. Qed.

(** A call that wrote flash, once at most. *)
Definition wrote (s : typed) (m : option creds) (d d' : device N) : Prop :=
  dev_rel d' s m /\ dv_told d' = dv_told d /\ forall Q : typed -> option creds -> Prop, Q s m -> through Q d d'.
Lemma nvs_wrote n s m s' d d' : dev_rel d s m -> moved dv_nvs put_nvs n d d' -> flash_rel n s' -> wrote s' m d d'.
Proof.
  intros (H1 & H2 & H3) [Hn Hd] Hs. destruct Hd as [-> | ->].
  - subst n. split; [by split_and!|]. split; [done|]. intros Q _. by apply through_same.
  - split; [by split_and!|]. split; [done|]. intros Q HQ. exists [(n, dv_rtc d)]. split; [done|]. constructor; [|done]. by exists s', m.
Qed.
Lemma rtc_wrote r s m m' d d' : dev_rel d s m -> moved dv_rtc put_rtc r d d' -> region_ok r -> held r = m' -> wrote s m' d d'.
Proof.
  intros (H1 & H2 & H3) [Hn Hd] Hr Hm. destruct Hd as [-> | ->].
  - subst r. split; [by split_and!|]. split; [done|]. intros Q _. by apply through_same.
  - split; [by split_and!|]. split; [done|]. intros Q HQ. exists [(dv_nvs d, r)]. split; [done|]. constructor; [|done]. by exists s, m'.
Qed.
Lemma wrote_nothing s m d : dev_rel d s m -> wrote s m d d.
Proof. intros H. split; [done|]. split; [done|]. intros Q _. by apply through_same. Qed.

(** ** Flash *)

Lemma set_wrote f v d s m : f ∈ nvs_table -> in_range v -> dev_rel d s m ->
  (call_set reg f v d).1 = (spec_field_set limit f v s).1 /\ wrote (spec_field_set limit f v s).2 m d (call_set reg f v d).2.
Proof.
  intros Hf Hi Hr. destruct (set_spec reg (bs "nvs") nvs_table limit _ _ _ nvs_table_ok f v d s Hf Hi (proj2 (dev_config _ _) (proj1 Hr))) as [H1 H2].
  split; [done|]. apply dev_config in H2.
  assert (Hm : moved dv_nvs put_nvs (dv_nvs (call_set reg f v d).2) d (call_set reg f v d).2).
  { destruct (field_key (bs "nvs") nvs_table nvs_table_ok f Hf) as [_ Ha]. assert (Hb : a_backend (cf_addr f) = Some (bs "nvs")) by by rewrite Ha.
    assert (Hgo : forall enc buf len, moved dv_nvs put_nvs (dv_nvs (bb_storage_set_typed reg (Some (cf_addr f)) enc buf len d).2) d (bb_storage_set_typed reg (Some (cf_addr f)) enc buf len d).2).
    { intros enc buf len. destruct (lift_set_typed dv_nvs put_nvs (fun w s => eq_refl) reg (bs "nvs") nvs_vt reg_nvs (cf_addr f) enc buf len d Hb) as [_ [H3 H4]]. split; [done|]. by rewrite H3. }
    destruct v; cbn [call_set]; unfold bb_config_set_bool, bb_config_set_u8, bb_config_set_u16, bb_config_set_u32, bb_config_set_i32, bb_config_set_str, bb_config_set_blob, scalar_set;
      repeat match goal with |- context [if ?b then _ else _] => destruct b end; try apply Hgo; by apply moved_stay. }
  exact (nvs_wrote _ _ _ _ _ _ Hr Hm H2).
Qed.
Lemma erase_wrote f d s m : f ∈ nvs_table -> dev_rel d s m -> wrote (delete (key_of_field f) s) m d (bb_storage_erase reg (Some (cf_addr f)) d).2.
Proof.
  intros Hf Hr. destruct (erase_spec reg (bs "nvs") nvs_table limit _ _ _ nvs_table_ok f d s Hf (proj2 (dev_config _ _) (proj1 Hr))) as [_ H2]. apply dev_config in H2.
  destruct (field_key (bs "nvs") nvs_table nvs_table_ok f Hf) as [_ Ha].
  destruct (lift_erase dv_nvs put_nvs (fun w s => eq_refl) reg (bs "nvs") nvs_vt reg_nvs (cf_addr f) d ltac:(by rewrite Ha)) as [_ Hm].
  unfold bb_config_erase in H2. eapply nvs_wrote; [exact Hr|exact Hm|]. by rewrite <- (proj1 Hm).
Qed.

Lemma stages_next {W} (h : option (config_staged (W := W))) f v sets : (call_stages h ((f, v) :: sets)).2 = (call_stages (call_stage h f v).2 sets).2.
Proof. cbn [call_stages]. destruct (call_stage h f v) as [e h1]. cbn [snd]. by destruct (call_stages h1 sets). Qed.
Lemma commit_wrote h se cap d s m : session_rel (bs "nvs") nvs_table (lift_txn dv_nvs put_nvs txn_is) BB_SETTINGS_WIFI_NS cap h se -> dev_rel d s m ->
  let q := bb_config_staged_commit h d in q.1.1 = (session_commit se s).1 /\ wrote (session_commit se s).2 m d q.2.
Proof.
  intros Hst Hr. cbv zeta. destruct (commit_spec_session reg (bs "nvs") nvs_table limit _ _ _ nvs_table_ok BB_SETTINGS_WIFI_NS cap h se d s Hst (proj2 (dev_config _ _) (proj1 Hr))) as [Hc Hrel].
  split; [done|]. apply dev_config in Hrel. destruct Hst as (t & -> & ([t0|] & Et0 & _) & _); [|done]. injection Et0 as ->.
  eapply (nvs_wrote _ _ _ _ _ _ Hr); [|exact Hrel].
  unfold bb_config_staged_commit. cbn [cs_closed cs_local_err cs_txn]. destruct (negb (is_ok _)); [by destruct (bb_storage_txn_abort _); apply moved_stay|].
  pose proof (lift_commit dv_nvs put_nvs (fun w s => eq_refl) (Some t0) d) as Hl. cbn [lifted option_map] in Hl.
  destruct (bb_storage_txn_commit _ d) as [[e h'] d']. destruct (bb_storage_txn_commit (Some t0) _) as [[e0 h0] w0]. destruct Hl as (_ & _ & <- & Hm). done.
Qed.
Lemma batch_wrote sets cap d s m : Forall own sets -> (length sets <= cap)%nat -> dev_rel d s m ->
  let r := bb_config_staged_begin reg (Some staged0) (Some (bs "nvs")) (Some BB_SETTINGS_WIFI_NS) true cap in
  let q := bb_config_staged_commit (call_stages r.2 sets).2 d in
  r.1 = BB_OK /\ q.1.1 = (spec_batch sets s).1 /\ wrote (spec_batch sets s).2 m d q.2.
Proof.
  intros Hsets Hcap Hr. cbv zeta. destruct (begin_session reg (bs "nvs") nvs_table limit _ _ _ BB_SETTINGS_WIFI_NS cap) as [Hb Hses]. split; [done|].
  assert (Hok : sets_ok nvs_table sets) by (eapply Forall_impl; [exact Hsets|]; intros x (H1 & _ & H2 & _); done).
  destruct (stages_spec reg (bs "nvs") nvs_table limit _ _ _ nvs_table_ok BB_SETTINGS_WIFI_NS cap sets Hok _ _ Hses) as [_ Hst].
  destruct (commit_wrote _ _ cap d s m Hst Hr) as [H1 H2].
  pose proof (session_batch cap sets s Hsets ∅ ltac:(rewrite map_size_empty; lia)) as Hsb. change (mk_session BB_OK (inr ∅)) with session0 in Hsb.
  rewrite Hsb, put_all_union, map_empty_union in H1, H2. by split.
Qed.

(** A session whose first text is NULL writes nothing. *)
Definition poisoned {W} (e : bb_err) (h : option (config_staged (W := W))) : Prop := exists t b ns, h = Some (mk_staged t b ns e false).
Lemma poisoned_stage {W} e (h : option (config_staged (W := W))) f v : e <> BB_OK -> poisoned e h -> (call_stage h f v).2 = h.
Proof.
  intros He (t & b & ns & ->). assert (Hp : forall want, precheck (mk_staged t b ns e false) (Some f) want = (e, mk_staged t b ns e false)).
  { intros want. unfold precheck. cbn [cs_closed cs_local_err]. by destruct e. }
  assert (Hno : is_ok e = false) by (by destruct e).
  destruct v; cbn [call_stage]; unfold bb_config_staged_set_bool, bb_config_staged_set_u8, bb_config_staged_set_u16, bb_config_staged_set_u32,
    bb_config_staged_set_i32, bb_config_staged_set_str, bb_config_staged_set_blob, on_handle, stage_scalar; rewrite Hp; cbn [negb]; by rewrite Hno.
Qed.
Lemma poisoned_commit {W} e (h : option (config_staged (W := W))) w : e <> BB_OK -> poisoned e h -> (bb_config_staged_commit h w).1.1 = e /\ (bb_config_staged_commit h w).2 = w.
Proof.
  intros He (t & b & ns & ->). unfold bb_config_staged_commit. cbn [cs_closed cs_local_err cs_txn]. assert (is_ok e = false) as -> by (by destruct e). cbn [negb].
  by destruct (bb_storage_txn_abort _).
Qed.
Lemma null_text {W} (t : txn_handle (W := W)) b ns f : cf_type f = BB_CONFIG_STR -> a_backend (cf_addr f) = b -> a_ns_or_dir (cf_addr f) = ns ->
  poisoned BB_ERR_INVALID_ARG (bb_config_staged_set_str (Some (mk_staged t b ns BB_OK false)) (Some f) None).2.
Proof.
  intros Ht <- <-. unfold bb_config_staged_set_str, on_handle, precheck. cbn [cs_closed cs_local_err is_ok negb cs_backend cs_ns_or_dir]. unfold str_eq.
  rewrite !bool_decide_true by done. cbn. by eexists _, _, _.
Qed.
Lemma begin_open cap : exists t, (bb_config_staged_begin reg (Some staged0) (Some (bs "nvs")) (Some BB_SETTINGS_WIFI_NS) true cap).2 = Some (mk_staged t (Some (bs "nvs")) (Some BB_SETTINGS_WIFI_NS) BB_OK false).
Proof. destruct (begin_session reg (bs "nvs") nvs_table limit _ _ _ BB_SETTINGS_WIFI_NS cap) as [_ (t & E & _)]. by exists t. Qed.

(** ** The mirror *)

Definition rtc_session (b : store) (h : option (config_staged (W := device N))) : Prop :=
  exists t, h = Some (mk_staged (lift_handle dv_rtc put_rtc t) (Some (bs "rtc")) (Some []) BB_OK false) /\ batch_rel 3 (Some t) (inr b).
Lemma rtc_forward t b f enc key v fld : cf_addr f = mk_addr (Some (bs "rtc")) (Some []) (Some key) -> keep_check (Some key) (length v) = inr fld ->
  (size (<[key := v]> b : store) <= 3)%nat -> batch_rel 3 (Some t) (inr b) ->
  rtc_session (<[key := v]> b) (Some (stage_forward (mk_staged (lift_handle dv_rtc put_rtc t) (Some (bs "rtc")) (Some []) BB_OK false) (Some f) enc v).2).
Proof.
  intros Ha Hk Hs Hb. unfold stage_forward. cbn [cs_txn mbind option_bind]. rewrite Ha. cbn [a_key].
  pose proof (lift_txn_set (dv_rtc (N := N)) put_rtc (Some t) (Some key) enc v) as Hl. cbn [lifted option_map] in Hl. rewrite Hl.
  destruct (set_batch 3 (Some t) (inr b) (key, enc, v) Hb) as [H1 H2]. cbn [fst snd batch_step] in H1, H2. unfold keep_stage in H1, H2. rewrite Hk in H1, H2.
  rewrite decide_True in H1, H2 by done. destruct (bb_storage_txn_set (Some t) _ _ _) as [e h]. cbn [fst snd] in *. destruct H2 as (t' & -> & H2).
  eexists. split; [reflexivity|]. by exists t'.
Qed.

Lemma rtc_text b h f key v fld : cf_addr f = mk_addr (Some (bs "rtc")) (Some []) (Some key) -> cf_type f = BB_CONFIG_STR -> (length v < cf_max_len f)%nat ->
  keep_check (Some key) (length v) = inr fld -> (size (<[key := v]> b : store) <= 3)%nat -> rtc_session b h ->
  rtc_session (<[key := v]> b) (bb_config_staged_set_str h (Some f) (Some v)).2.
Proof.
  intros Ha Ht Hl Hk Hs (t & -> & Hb). unfold bb_config_staged_set_str, on_handle, precheck. cbn [cs_closed cs_local_err is_ok negb cs_backend cs_ns_or_dir].
  rewrite Ha. cbn [a_backend a_ns_or_dir]. unfold str_eq. rewrite !bool_decide_true by done. cbn [negb orb is_ok]. rewrite (proj2 (Nat.leb_gt _ _)) by done.
  pose proof (rtc_forward t b f BB_STORAGE_ENC_STR key v fld Ha Hk Hs Hb) as H. by destruct (stage_forward _ _ _ _).
Qed.
Lemma rtc_flag b h f key v fld : cf_addr f = mk_addr (Some (bs "rtc")) (Some []) (Some key) -> cf_type f = BB_CONFIG_U8 ->
  keep_check (Some key) 1 = inr fld -> (size (<[key := [zb v]]> b : store) <= 3)%nat -> rtc_session b h ->
  rtc_session (<[key := [zb v]]> b) (bb_config_staged_set_u8 h (Some f) v).2.
Proof.
  intros Ha Ht Hk Hs (t & -> & Hb). unfold bb_config_staged_set_u8, on_handle, stage_scalar, precheck. cbn [cs_closed cs_local_err is_ok negb cs_backend cs_ns_or_dir].
  rewrite Ha. cbn [a_backend a_ns_or_dir]. unfold str_eq. rewrite !bool_decide_true by done. cbn [negb orb is_ok].
  pose proof (rtc_forward t b f (bb_config_type_to_enc BB_CONFIG_U8) key [zb v] fld Ha Hk Hs Hb) as H. by destruct (stage_forward _ _ _ _).
Qed.
Lemma rtc_commit b h d s m c : rtc_session b h -> dev_rel d s m -> batch_put b (default no_creds m) = c -> wrote s (Some c) d (bb_config_staged_commit h d).2.
Proof.
  intros (t & -> & Hb) Hr <-. destruct (Hr) as (H1 & H2 & H3). unfold bb_config_staged_commit. cbn [cs_closed cs_local_err is_ok negb cs_txn].
  pose proof (lift_commit (dv_rtc (N := N)) put_rtc (fun w s => eq_refl) (Some t) d) as Hl. cbn [lifted option_map] in Hl.
  destruct (commit_batch 3 (Some t) (inr b) (dv_rtc d) Hb H2) as (e & t' & g' & E & _ & Hg & _ & Hh). rewrite E in Hl.
  destruct (bb_storage_txn_commit _ d) as [[e1 h1] d1]. destruct Hl as (_ & _ & Hm). cbn [snd]. rewrite H3 in Hh. by eapply rtc_wrote.
Qed.
(** What the mirror has after a write of texts it can hold. *)
Definition mirrored (ssid pass : cstring) (m : option creds) : option creds := if with_rtc then Some (mk_creds (cstr ssid) (cstr pass) x01) else m.
Lemma mirror_wrote ssid pass d s m : (length ssid < 32)%nat -> (length (default [] pass) < 64)%nat -> dev_rel d s m ->
  wrote s (mirrored ssid (default [] pass) m) d (bb_settings_wifi_rtc_mirror_write reg (Some ssid) pass d).
Proof.
  intros Hs Hp Hr. unfold bb_settings_wifi_rtc_mirror_write, bb_config_staged_begin, mirrored. cbn [cs_txn staged0].
  destruct with_rtc eqn:Hrtc.
  - assert (Hreg : find_backend reg (bs "rtc") = Some (lift_vtable (dv_rtc (N := N)) put_rtc s_rtc_vtable)) by (rewrite reg_rtc; by rewrite Hrtc).
    pose proof (lift_begin (dv_rtc (N := N)) put_rtc reg (bs "rtc") s_rtc_vtable Hreg (Some []) (Some (mk_handle txn0 None)) true 3) as Hl.
    destruct (begin_batch (alone (bs "rtc") s_rtc_vtable) [] (mk_handle txn0 None) 3 eq_refl eq_refl) as [H1 (t & H2 & H3)].
    destruct (bb_storage_txn_begin (alone _ _) _ _ _ _ _) as [e h]. cbn [fst snd] in *. subst e h. cbn [lifted option_map] in Hl.
    match type of Hl with _ = ?q => match goal with |- context [bb_storage_txn_begin ?a ?b ?c ?x ?y ?z] => replace (bb_storage_txn_begin a b c x y z) with q by (symmetry; exact Hl) end end.
    cbn [is_ok negb default from_option].
    assert (Hs0 : rtc_session ∅ (Some (mk_staged (lift_handle (dv_rtc (N := N)) put_rtc (mk_handle t (Some s_rtc_vtable))) (Some (bs "rtc")) (Some []) BB_OK false))) by (eexists; split; [reflexivity|]; by exists t).
    assert (Hk1 : keep_check (Some (bs "ssid")) (length ssid) = inr FSsid) by (unfold keep_check; change (field_of _) with (Some FSsid); unfold field_fits; by rewrite !(decide_True (P := (length ssid < 32)%nat)) by done).
    assert (Hk2 : keep_check (Some (bs "pass")) (length (default [] pass)) = inr FPass) by (unfold keep_check; change (field_of _) with (Some FPass); unfold field_fits; by rewrite !(decide_True (P := (length (default [] pass) < 64)%nat)) by done).
    assert (Hsz : forall k v (b : store), (size (<[k := v]> b : store) <= S (size b))%nat).
    { intros k v b. destruct (b !! k) eqn:E; [rewrite map_size_insert_Some by (by eexists); lia|rewrite map_size_insert_None by done; lia]. }
    assert (Hz1 : (size (<[bs "ssid" := ssid]> ∅ : store) <= 1)%nat) by (etransitivity; [apply Hsz|by rewrite map_size_empty]).
    assert (Hz2 : (size (<[bs "pass" := default [] pass]> (<[bs "ssid" := ssid]> ∅) : store) <= 2)%nat) by (etransitivity; [apply Hsz|by apply le_n_S]).
    assert (Hz3 : (size (<[bs "provisioned" := [zb 1]]> (<[bs "pass" := default [] pass]> (<[bs "ssid" := ssid]> ∅)) : store) <= 3)%nat) by (etransitivity; [apply Hsz|by apply le_n_S]).
    pose proof (rtc_text _ _ s_wifi_rtc_ssid_field (bs "ssid") ssid FSsid eq_refl eq_refl Hs Hk1 (Nat.le_trans _ _ 3 Hz1 ltac:(lia)) Hs0) as Hs1.
    pose proof (rtc_text _ _ s_wifi_rtc_pass_field (bs "pass") (default [] pass) FPass eq_refl eq_refl Hp Hk2 (Nat.le_trans _ _ 3 Hz2 ltac:(lia)) Hs1) as Hs2.
    pose proof (rtc_flag _ _ s_wifi_rtc_provisioned_field (bs "provisioned") 1 FProvisioned eq_refl eq_refl eq_refl Hz3 Hs2) as Hs3.
    apply (rtc_commit _ _ d s m _ Hs3 Hr).
    unfold batch_put, staged_for. f_equal.
  - unfold bb_storage_txn_begin. cbn [andb negb tx_open th_txn txn0]. rewrite reg_rtc, Hrtc. cbn [is_ok negb]. by apply wrote_nothing.
Qed.

(** ** Reads *)

Lemma text_clean f s : f ∈ nvs_table -> default_text f -> typed_ok nvs_table s -> cf_type f = BB_CONFIG_STR -> Forall (fun c => c <> x00) (text f s).
Proof.
  intros Hf Hd Ht Hty. unfold text. destruct (s !! key_of_field f) as [v|] eqn:E; [|done].
  destruct (stored_type (bs "nvs") nvs_table nvs_table_ok f s v Hf Ht E) as [H1 H2]. rewrite Hty in H1. by destruct v.
Qed.
Lemma text_read f n d s m : f ∈ nvs_table -> default_text f -> cf_type f = BB_CONFIG_STR -> dev_rel d s m -> is_Some (s !! key_of_field f) \/ (cf_has_default f = true /\ d_str (cf_def f) = Some [] /\ (0 < cf_max_len f)%nat) ->
  bb_config_get_str reg (Some f) true (repeat x00 n) n true d = (BB_OK, put_text (text f s) (repeat x00 n), Some (length (text f s))).
Proof.
  intros Hf Hd Hty Hr Hs. pose proof (str_get_spec reg (bs "nvs") nvs_table limit _ _ _ nvs_table_ok f (repeat x00 n) d s Hf (proj2 (dev_config _ _) (proj1 Hr)) Hd) as H.
  rewrite repeat_length in H. rewrite H. unfold spec_str_get, text. rewrite bool_decide_true by done. cbn [negb]. destruct (s !! key_of_field f) as [v|] eqn:E; [done|].
  destruct Hs as [[v Hs]|(-> & -> & Hm)]; [done|]. cbn. destruct (cf_max_len f); [lia|]. done.
Qed.
Lemma text_absent f n d s m : f ∈ nvs_table -> default_text f -> cf_type f = BB_CONFIG_STR -> dev_rel d s m -> s !! key_of_field f = None -> cf_has_default f = false ->
  bb_config_get_str reg (Some f) true (repeat x00 n) n true d = (BB_ERR_NOT_FOUND, repeat x00 n, None).
Proof.
  intros Hf Hd Hty Hr Hs Hdef. pose proof (str_get_spec reg (bs "nvs") nvs_table limit _ _ _ nvs_table_ok f (repeat x00 n) d s Hf (proj2 (dev_config _ _) (proj1 Hr)) Hd) as H.
  rewrite repeat_length in H. rewrite H. unfold spec_str_get. rewrite bool_decide_true by done. cbn [negb]. by rewrite Hs, Hdef.
Qed.
Lemma no_buffer f d : bb_config_get_str reg (Some f) false [] 0 true d = bb_config_get_str reg (Some f) true [] 0 true d.
Proof. done. Qed.
Lemma scalar_of f want d s m : f ∈ nvs_table -> dev_rel d s m -> call_get reg f want d = (typed_step limit (OGet f want) s).1.
Proof. intros Hf Hr. exact (get_spec reg (bs "nvs") nvs_table limit _ _ _ nvs_table_ok f want d s Hf (proj2 (dev_config _ _) (proj1 Hr))). Qed.
Lemma bool_read f d s m : f ∈ nvs_table -> cf_type f = BB_CONFIG_BOOL -> dev_rel d s m ->
  bb_config_get_bool reg (Some f) true d =
  match s !! key_of_field f with
  | Some (VBool b) => (BB_OK, Some b)
  | _ => if cf_has_default f then (BB_OK, Some (d_b (cf_def f))) else (BB_ERR_NOT_FOUND, None)
  end.
Proof.
  intros Hf Ht Hr. pose proof (scalar_of f BB_CONFIG_BOOL d s m Hf Hr) as H. cbn [call_get typed_step fst] in H. unfold spec_scalar_get in H. rewrite bool_decide_true in H by done. cbn [negb] in H.
  destruct (bb_config_get_bool reg (Some f) true d) as [e v]. cbn [fst snd] in H. destruct (s !! key_of_field f) as [x|] eqn:E.
  - destruct (stored_type (bs "nvs") nvs_table nvs_table_ok f s x Hf (cr_typed _ _ _ _ _ (proj1 Hr)) E) as [H1 _]. rewrite Ht in H1. destruct x; try done.
    destruct v; cbn in H; by simplify_eq.
  - destruct (cf_has_default f); destruct v; cbn in H; by simplify_eq.
Qed.
Lemma byte_read f d s m : f ∈ nvs_table -> cf_type f = BB_CONFIG_U8 -> cf_has_default f = false -> dev_rel d s m ->
  bb_config_get_u8 reg (Some f) true d = match s !! key_of_field f with Some (VU8 b) => (BB_OK, Some b) | _ => (BB_ERR_NOT_FOUND, None) end.
Proof.
  intros Hf Ht Hdef Hr. pose proof (scalar_of f BB_CONFIG_U8 d s m Hf Hr) as H. cbn [call_get typed_step fst] in H. unfold spec_scalar_get in H. rewrite bool_decide_true in H by done. cbn [negb] in H.
  destruct (bb_config_get_u8 reg (Some f) true d) as [e v]. cbn [fst snd] in H. destruct (s !! key_of_field f) as [x|] eqn:E.
  - destruct (stored_type (bs "nvs") nvs_table nvs_table_ok f s x Hf (cr_typed _ _ _ _ _ (proj1 Hr)) E) as [H1 _]. rewrite Ht in H1. destruct x; try done.
    destruct v; cbn in H; by simplify_eq.
  - rewrite Hdef in H. destruct v; cbn in H; by simplify_eq.
Qed.

(** ** Writes of several steps *)

(** A call: what the device holds after it, the callbacks it made, what the
    storage went through. *)
Definition did (s : typed) (m : option creds) (t : nat) (Q : typed -> option creds -> Prop) (d d' : device N) : Prop :=
  dev_rel d' s m /\ dv_told d' = (dv_told d + t)%nat /\ through Q d d'.
Lemma wrote_did s m Q d d' : wrote s m d d' -> Q s m -> did s m 0 Q d d'.
Proof. intros (H1 & H2 & H3) HQ. split; [done|]. split; [rewrite H2; lia|]. by apply H3. Qed.
Lemma did_then s1 m1 t1 s2 m2 t2 Q d d1 d2 : did s1 m1 t1 Q d d1 -> did s2 m2 t2 Q d1 d2 -> did s2 m2 (t1 + t2) Q d d2.
Proof. intros (H1 & H2 & H3) (H4 & H5 & H6). split; [done|]. split; [rewrite H5, H2; lia|]. by eapply through_then. Qed.
Lemma did_nothing s m Q d : dev_rel d s m -> did s m 0 Q d d.
Proof. intros H. split; [done|]. split; [lia|]. by apply through_same. Qed.

Lemma call_stages_two {W} (h : option (config_staged (W := W))) f1 v1 f2 v2 : (call_stages h [(f1, v1); (f2, v2)]).2 = (call_stage (call_stage h f1 v1).2 f2 v2).2.
Proof. by rewrite !stages_next. Qed.
Lemma call_stages_three {W} (h : option (config_staged (W := W))) f1 v1 f2 v2 f3 v3 : (call_stages h [(f1, v1); (f2, v2); (f3, v3)]).2 = (call_stage (call_stage (call_stage h f1 v1).2 f2 v2).2 f3 v3).2.
Proof. by rewrite !stages_next. Qed.
Lemma call_stages_four {W} (h : option (config_staged (W := W))) f1 v1 f2 v2 f3 v3 f4 v4 :
  (call_stages h [(f1, v1); (f2, v2); (f3, v3); (f4, v4)]).2 = (call_stage (call_stage (call_stage (call_stage h f1 v1).2 f2 v2).2 f3 v3).2 f4 v4).2.
Proof. by rewrite !stages_next. Qed.

Definition clean (t : cstring) : Prop := Forall (fun c => c <> x00) t.
Definition live_sets (ssid pass : cstring) : list (config_field * cval) := [(s_wifi_ssid_field, VStr ssid); (s_wifi_pass_field, VStr pass)].
Definition pending_sets (ssid pass : cstring) : list (config_field * cval) := [(s_wifi_ssid_p_field, VStr ssid); (s_wifi_pass_p_field, VStr pass); (s_wifi_try_field, VU8 1)].
Definition promote_sets (ssid pass : cstring) : list (config_field * cval) :=
  live_sets ssid pass ++ [(s_wifi_try_field, VU8 0); (s_wifi_provisioned_field, VBool true)].
Ltac own_sets := repeat constructor; try done; try in_table; cbn; try lia; try done.
Lemma live_own ssid pass : clean ssid -> clean pass -> Forall own (live_sets ssid pass).
Proof. intros. own_sets. Qed.
Lemma pending_own ssid pass : clean ssid -> clean pass -> Forall own (pending_sets ssid pass).
Proof. intros. own_sets. Qed.
Lemma promote_own ssid pass : clean ssid -> clean pass -> Forall own (promote_sets ssid pass).
Proof. intros. own_sets. Qed.

(** ** The calls *)

Definition spec_wifi_set (ssid pass : cstring) (s : typed) (m : option creds) : bb_err * typed * option creds :=
  let '(e, s') := spec_batch (live_sets ssid pass) s in (e, s', if is_ok e then mirrored ssid pass m else m).
Lemma live_fits ssid pass : batch_fits (live_sets ssid pass) = (length ssid <? 32)%nat && (length pass <? 64)%nat.
Proof.
  unfold batch_fits, live_sets. cbn [forallb too_long fst snd s_wifi_ssid_field s_wifi_pass_field cf_max_len]. by rewrite andb_true_r, <- !Nat.ltb_antisym.
Qed.
Lemma wifi_set_does ssid pass d s m Q : clean ssid -> clean (default [] pass) -> dev_rel d s m ->
  let '(e, s', m') := spec_wifi_set ssid (default [] pass) s m in
  Q s' m -> Q s' m' -> (bb_settings_wifi_set reg (Some ssid) pass d).1 = e /\ did s' m' 0 Q d (bb_settings_wifi_set reg (Some ssid) pass d).2.
Proof.
  intros Hs Hp Hr. unfold spec_wifi_set. destruct (spec_batch (live_sets ssid (default [] pass)) s) as [e s'] eqn:Eb. intros HQ HQ'.
  destruct (batch_wrote (live_sets ssid (default [] pass)) 2 d s m (live_own _ _ Hs Hp) (le_n 2) Hr) as (H1 & H2 & H3). unfold bb_settings_wifi_set.
  destruct (bb_config_staged_begin reg _ _ _ _ _) as [e0 h]. cbn [fst snd] in *. subst e0. cbn [is_ok negb]. unfold live_sets in H2, H3. rewrite call_stages_two in H2, H3. cbn [call_stage] in H2, H3.
  fold (live_sets ssid (default [] pass)) in H2, H3. rewrite Eb in H2, H3. cbn [fst snd] in H2, H3.
  destruct (bb_config_staged_commit _ d) as [[e1 h1] d1]. cbn [fst snd] in *. subst e1.
  unfold spec_batch in Eb. destruct (batch_fits _) eqn:Ef; injection Eb as <- <-; cbn [is_ok negb fst snd].
  - split; [done|]. rewrite live_fits in Ef. apply andb_true_iff in Ef as [F1%Nat.ltb_lt F2%Nat.ltb_lt].
    eapply (did_then _ m 0 _ _ 0 Q d d1); [by apply wrote_did|]. apply wrote_did; [|done]. apply (mirror_wrote ssid (Some (default [] pass))); [done|done|apply H3].
  - split; [done|]. by apply wrote_did.
Qed.

Lemma pending_set_does ssid pass d s m Q : clean ssid -> clean (default [] pass) -> dev_rel d s m ->
  let '(e, s') := spec_batch (pending_sets ssid (default [] pass)) s in
  Q s' m -> (bb_settings_wifi_pending_set reg (Some ssid) pass d).1 = e /\ did s' m 0 Q d (bb_settings_wifi_pending_set reg (Some ssid) pass d).2.
Proof.
  intros Hs Hp Hr. destruct (spec_batch (pending_sets ssid (default [] pass)) s) as [e s'] eqn:Eb. intros HQ.
  destruct (batch_wrote (pending_sets ssid (default [] pass)) 3 d s m (pending_own _ _ Hs Hp) (le_n 3) Hr) as (H1 & H2 & H3). unfold bb_settings_wifi_pending_set.
  destruct (bb_config_staged_begin reg _ _ _ _ _) as [e0 h]. cbn [fst snd] in *. subst e0. cbn [is_ok negb]. unfold pending_sets in H2, H3. rewrite call_stages_three in H2, H3. cbn [call_stage] in H2, H3.
  fold (pending_sets ssid (default [] pass)) in H2, H3. rewrite Eb in H2, H3. cbn [fst snd] in H2, H3.
  destruct (bb_config_staged_commit _ d) as [[e1 h1] d1]. cbn [fst snd] in *. subst e1. split; [done|]. by apply wrote_did.
Qed.
(** A NULL network name is refused. *)
Lemma null_ssid pass d : bb_settings_wifi_set reg None pass d = (BB_ERR_INVALID_ARG, d) /\ bb_settings_wifi_pending_set reg None pass d = (BB_ERR_INVALID_ARG, d).
Proof.
  unfold bb_settings_wifi_set, bb_settings_wifi_pending_set. split.
  - destruct (begin_open 2) as [t E]. destruct (begin_session reg (bs "nvs") nvs_table limit _ _ _ BB_SETTINGS_WIFI_NS 2) as [Hb _].
    destruct (bb_config_staged_begin reg _ _ _ _ _) as [e0 h]. cbn [fst snd] in *. subst e0 h. cbn [is_ok negb].
    pose proof (null_text t (Some (bs "nvs")) (Some BB_SETTINGS_WIFI_NS) s_wifi_ssid_field eq_refl eq_refl eq_refl) as Hp.
    pose proof (poisoned_stage BB_ERR_INVALID_ARG _ s_wifi_pass_field (VStr (default [] pass)) ltac:(done) Hp) as Hn. cbn [call_stage] in Hn. rewrite Hn. clear Hn.
    destruct (poisoned_commit BB_ERR_INVALID_ARG _ d ltac:(done) Hp) as [H1 H2]. destruct (bb_config_staged_commit _ d) as [[e1 h1] d1]. cbn [fst snd] in *. by subst.
  - destruct (begin_open 3) as [t E]. destruct (begin_session reg (bs "nvs") nvs_table limit _ _ _ BB_SETTINGS_WIFI_NS 3) as [Hb _].
    destruct (bb_config_staged_begin reg _ _ _ _ _) as [e0 h]. cbn [fst snd] in *. subst e0 h. cbn [is_ok negb].
    pose proof (null_text t (Some (bs "nvs")) (Some BB_SETTINGS_WIFI_NS) s_wifi_ssid_p_field eq_refl eq_refl eq_refl) as Hp.
    pose proof (poisoned_stage BB_ERR_INVALID_ARG _ s_wifi_pass_p_field (VStr (default [] pass)) ltac:(done) Hp) as Hn. cbn [call_stage] in Hn. rewrite Hn. clear Hn.
    pose proof (poisoned_stage BB_ERR_INVALID_ARG _ s_wifi_try_field (VU8 1) ltac:(done) Hp) as Hn. cbn [call_stage] in Hn. rewrite Hn. clear Hn.
    destruct (poisoned_commit BB_ERR_INVALID_ARG _ d ltac:(done) Hp) as [H1 H2]. destruct (bb_config_staged_commit _ d) as [[e1 h1] d1]. cbn [fst snd] in *. by subst.
Qed.

Definition provisioned (s : typed) : bool := match s !! key_of_field s_wifi_provisioned_field with Some (VBool b) => b | _ => false end.
Definition tries (s : typed) : Z := match s !! key_of_field s_wifi_try_field with Some (VU8 b) => b | _ => 0 end.
(** A pending attempt is waiting. *)
Definition waiting (s : typed) : bool := negb (tries s =? 0) && negb (bool_decide (text s_wifi_ssid_p_field s = [])).
Lemma provisioned_read d s m : dev_rel d s m -> bb_settings_wifi_provisioned_get reg d = provisioned s.
Proof.
  intros Hr. unfold bb_settings_wifi_provisioned_get, provisioned. rewrite (bool_read s_wifi_provisioned_field d s m ltac:(in_table) eq_refl Hr). by destruct (s !! _) as [[]|].
Qed.
Lemma pending_text f n d s m : f = s_wifi_ssid_p_field \/ f = s_wifi_pass_p_field -> dev_rel d s m ->
  bb_config_get_str reg (Some f) true (repeat x00 n) n true d = (BB_OK, put_text (text f s) (repeat x00 n), Some (length (text f s))) /\ clean (text f s).
Proof.
  intros Hf Hr. split.
  - eapply text_read; [| | |exact Hr|right]; destruct Hf as [-> | ->]; try done; try in_table; try (by split_and!; [| |cbn; lia]); by constructor.
  - eapply text_clean; [| |exact (cr_typed _ _ _ _ _ (proj1 Hr))|]; destruct Hf as [-> | ->]; try done; try in_table; by constructor.
Qed.
Lemma pending_active_reads d s m : dev_rel d s m -> bb_settings_wifi_pending_active reg d = waiting s.
Proof.
  intros Hr. unfold bb_settings_wifi_pending_active, waiting, tries. rewrite (byte_read s_wifi_try_field d s m ltac:(in_table) eq_refl eq_refl Hr).
  destruct (pending_text s_wifi_ssid_p_field 32 d s m (or_introl eq_refl) Hr) as [-> Hc].
  assert (Hflag : forall r : bb_err * option Z, r = match s !! key_of_field s_wifi_try_field with Some (VU8 b) => (BB_OK, Some b) | _ => (BB_ERR_NOT_FOUND, None) end ->
    (if is_ok r.1 then default 0 r.2 else 0) = match s !! key_of_field s_wifi_try_field with Some (VU8 b) => b | _ => 0 end) by (intros r ->; by destruct (s !! _) as [[]|]).
  specialize (Hflag _ eq_refl). destruct (match s !! key_of_field s_wifi_try_field with Some (VU8 b) => (BB_OK, Some b) | _ => (BB_ERR_NOT_FOUND, None) end) as [terr flag]. cbn [fst snd] in Hflag. rewrite Hflag.
  rewrite buffer_head by (done || lia). cbn [is_ok default from_option]. unfold id. rewrite <- andb_assoc, andb_true_r. f_equal. by destruct (text s_wifi_ssid_p_field s).
Qed.

Definition pending_dropped (s : typed) : typed := delete (key_of_field s_wifi_pass_p_field) (delete (key_of_field s_wifi_ssid_p_field) s).
Lemma drop_does d s m Q : dev_rel d s m -> Q (delete (key_of_field s_wifi_ssid_p_field) s) m -> Q (pending_dropped s) m ->
  did (pending_dropped s) m 0 Q d (bb_storage_erase reg (Some (cf_addr s_wifi_pass_p_field)) (bb_storage_erase reg (Some (cf_addr s_wifi_ssid_p_field)) d).2).2.
Proof.
  intros Hr H1 H2. pose proof (erase_wrote s_wifi_ssid_p_field d s m ltac:(in_table) Hr) as Hw. eapply (did_then _ m 0 _ _ 0); [by apply wrote_did|].
  apply wrote_did; [|done]. apply (erase_wrote s_wifi_pass_p_field); [in_table|apply Hw].
Qed.
Lemma notify_does was d s m Q : dev_rel d s m -> did s m (if was : bool then 0 else 1) Q d (bb_settings_provisioned_notify_transition (Some tell) was d).
Proof. intros Hr. destruct was; [by apply did_nothing|]. split; [done|]. split; [cbn; lia|]. by apply through_same. Qed.

(** Promotion, and the contents it goes through. *)
Definition spec_promote (s : typed) (m : option creds) : option (typed * option creds * nat * list (typed * option creds)) :=
  let ssid := take 31 (text s_wifi_ssid_p_field s) in let pass := take 63 (text s_wifi_pass_p_field s) in
  if bool_decide (text s_wifi_ssid_p_field s = []) then None else
  let s1 := put_all (promote_sets ssid pass) s in let m1 := mirrored ssid pass m in
  Some (pending_dropped s1, m1, if provisioned s then 0%nat else 1%nat, [(s1, m); (s1, m1); (delete (key_of_field s_wifi_ssid_p_field) s1, m1); (pending_dropped s1, m1)]).
Lemma clean_take n t : clean t -> clean (take n t).
Proof. apply Forall_take. Qed.
Lemma promote_fits ssid pass : (length ssid < 32)%nat -> (length pass < 64)%nat -> batch_fits (promote_sets ssid pass) = true.
Proof.
  intros H1 H2. unfold batch_fits, promote_sets, live_sets. cbn [forallb too_long fst snd app s_wifi_ssid_field s_wifi_pass_field cf_max_len].
  by rewrite (proj2 (Nat.leb_gt _ _) H1), (proj2 (Nat.leb_gt _ _) H2).
Qed.
Lemma promote_does (d : device N) (s : typed) (m : option creds) (Q : typed -> option creds -> Prop) : dev_rel d s m ->
  match spec_promote s m with
  | None => bb_settings_wifi_pending_promote reg (Some tell) d = (BB_ERR_INVALID_STATE, d)
  | Some (s', m', t, seen) => Forall (fun x => Q x.1 x.2) seen ->
      (bb_settings_wifi_pending_promote reg (Some tell) d).1 = BB_OK /\ did s' m' t Q d (bb_settings_wifi_pending_promote reg (Some tell) d).2
  end.
Proof.
  intros Hr. unfold spec_promote, bb_settings_wifi_pending_promote. cbv zeta. destruct (pending_text s_wifi_ssid_p_field 32 d s m (or_introl eq_refl) Hr) as [-> Hc1].
  destruct (pending_text s_wifi_pass_p_field 64 d s m (or_intror eq_refl) Hr) as [-> Hc2]. case_bool_decide as Ht; [by rewrite Ht|]. intros HQ. cbn [is_ok negb orb default from_option]. unfold id.
  rewrite (proj2 (Nat.eqb_neq _ _)) by (by destruct (text s_wifi_ssid_p_field s)). rewrite (provisioned_read d s m Hr), !buffer_text by (done || lia). change (32 - 1)%nat with 31%nat. change (64 - 1)%nat with 63%nat.
  set (ssid := take 31 (text s_wifi_ssid_p_field s)) in *. set (pass := take 63 (text s_wifi_pass_p_field s)) in *.
  assert (L1 : (length ssid < 32)%nat) by (unfold ssid; rewrite length_take; lia). assert (L2 : (length pass < 64)%nat) by (unfold pass; rewrite length_take; lia).
  destruct (batch_wrote (promote_sets ssid pass) 4 d s m (promote_own _ _ (clean_take 31 _ Hc1) (clean_take 63 _ Hc2)) (le_n 4) Hr) as (H1 & H2 & H3).
  unfold spec_batch in H2, H3. rewrite promote_fits in H2, H3 by done. cbn [fst snd] in H2, H3.
  change (call_stages ?h (promote_sets ssid pass)) with (call_stages h [(s_wifi_ssid_field, VStr ssid); (s_wifi_pass_field, VStr pass); (s_wifi_try_field, VU8 0); (s_wifi_provisioned_field, VBool true)]) in H2, H3.
  rewrite call_stages_four in H2, H3. cbn [call_stage] in H2, H3.
  destruct (bb_config_staged_begin reg _ _ _ _ _) as [e0 h]. cbn [fst snd] in *. subst e0. cbn [is_ok negb].
  destruct (bb_config_staged_commit _ d) as [[e1 h1] d1]. cbn [fst snd] in *. subst e1. cbn [is_ok negb fst snd]. split; [done|].
  apply Forall_cons in HQ as [Q1 HQ]. apply Forall_cons in HQ as [Q2 HQ]. apply Forall_cons in HQ as [Q3 HQ]. apply Forall_cons in HQ as [Q4 _]. cbn [fst snd] in *.
  eapply (did_then _ _ 0 _ _ (if provisioned s then 0%nat else 1%nat)); [by apply wrote_did|].
  pose proof (notify_does (provisioned s) d1 _ m Q (proj1 H3)) as Hn. rewrite <- (Nat.add_0_r (if provisioned s then _ else _)). eapply did_then; [exact Hn|].
  pose proof (mirror_wrote ssid (Some pass) _ _ m L1 L2 (proj1 Hn)) as Hm. eapply (did_then _ _ 0 _ _ 0); [by apply wrote_did|]. by apply drop_does; [apply Hm|..].
Qed.

Lemma clear_does (d : device N) (s : typed) (m : option creds) (Q : typed -> option creds -> Prop) : dev_rel d s m ->
  let s1 := <[key_of_field s_wifi_try_field := VU8 0]> s in Q s1 m -> Q (delete (key_of_field s_wifi_ssid_p_field) s1) m -> Q (pending_dropped s1) m ->
  (bb_settings_wifi_pending_clear reg d).1 = BB_OK /\ did (pending_dropped s1) m 0 Q d (bb_settings_wifi_pending_clear reg d).2.
Proof.
  intros Hr. cbv zeta. intros Q1 Q2 Q3. unfold bb_settings_wifi_pending_clear.
  destruct (set_wrote s_wifi_try_field (VU8 0) d s m ltac:(in_table) ltac:(cbn; lia) Hr) as [H1 H2]. cbn [call_set] in H1, H2.
  assert (E : spec_field_set limit s_wifi_try_field (VU8 0) s = (BB_OK, <[key_of_field s_wifi_try_field := VU8 0]> s)).
  { unfold spec_field_set. rewrite bool_decide_true by done. cbn [negb too_long]. rewrite decide_True; [done|]. cbn. lia. }
  rewrite E in H1, H2. cbn [fst snd] in H1, H2. destruct (bb_config_set_u8 reg _ 0 d) as [e d1]. cbn [fst snd] in *. subst e. split; [done|].
  eapply (did_then _ _ 0 _ _ 0); [by apply wrote_did|]. by apply drop_does; [apply H2|..].
Qed.
Lemma set_flag f (b : bool) s : f ∈ nvs_table -> cf_type f = BB_CONFIG_BOOL -> spec_field_set limit f (VBool b) s = (BB_OK, <[key_of_field f := VBool b]> s).
Proof. intros Hf Ht. unfold spec_field_set. rewrite bool_decide_true by done. cbn [negb too_long]. rewrite decide_True; [done|]. cbn. lia. Qed.
Lemma connected_does (d : device N) (s : typed) (m : option creds) (Q : typed -> option creds -> Prop) : dev_rel d s m ->
  if provisioned s then bb_settings_wifi_provisioned_mark_connected reg (Some tell) d = d
  else let s1 := <[key_of_field s_wifi_provisioned_field := VBool true]> s in Q s1 m -> did s1 m 1 Q d (bb_settings_wifi_provisioned_mark_connected reg (Some tell) d).
Proof.
  intros Hr. unfold bb_settings_wifi_provisioned_mark_connected. rewrite (provisioned_read d s m Hr). destruct (provisioned s); [done|]. cbv zeta. intros HQ.
  destruct (set_wrote s_wifi_provisioned_field (VBool true) d s m ltac:(in_table) I Hr) as [H1 H2]. cbn [call_set] in H1, H2.
  rewrite set_flag in H1, H2 by (done || in_table). cbn [fst snd] in H1, H2. destruct (bb_config_set_bool reg _ true d) as [e d1]. cbn [fst snd] in *. subst e. cbn [is_ok].
  eapply (did_then _ _ 0 _ _ 1); [by apply wrote_did|]. apply (notify_does false). apply H2.
Qed.

(** ** Boot *)

(** What the mirror answers with. *)
Definition seen (m : option creds) : option creds := if with_rtc then m else None.
Definition creds_fit (c : creds) : Prop := clean (c_ssid c) /\ clean (c_pass c) /\ (length (c_ssid c) < 32)%nat /\ (length (c_pass c) < 64)%nat.
Lemma held_fit r c : region_ok r -> held r = Some c -> creds_fit c.
Proof.
  intros [[H1 H2 _] H3] Hh. unfold held in Hh. destruct (bb_storage_rtc_region_valid (Some r)); [|done]. injection Hh as <-. destruct (H3 eq_refl) as [H4 H5].
  assert (Hlen : forall l, x00 ∈ l -> (length (cstr l) < length l)%nat).
  { intros l Hl. destruct (cstr_prefix l) as [l2 E]. rewrite E at 2. rewrite length_app. destruct l2 as [|b l2]; [|cbn; lia].
    rewrite app_nil_r in E. pose proof (cstr_no_nul l) as Hn. rewrite <- E in Hn. rewrite Forall_forall in Hn. by destruct (Hn _ Hl). }
  split_and!; cbn; try apply cstr_no_nul; [pose proof (Hlen _ H4)|pose proof (Hlen _ H5)]; unfold SSID_SIZE, PASS_SIZE in *; lia.
Qed.
Lemma put_text_nul v n : (0 < n)%nat -> <[(if (length v <? n)%nat then length v else (n - 1)%nat) := x00]> (overlay (take (n - 1) v ++ [x00]) (repeat x00 n)) = put_text v (repeat x00 n).
Proof.
  intros Hn. unfold put_text. rewrite repeat_length, (proj2 (Nat.ltb_lt _ _) Hn). apply list_insert_id. unfold overlay. rewrite <- app_assoc. cbn [app].
  assert (E : (if (length v <? n)%nat then length v else (n - 1)%nat) = length (take (n - 1) v)) by (rewrite length_take; destruct (Nat.ltb_spec (length v) n); lia).
  rewrite E. by rewrite list_lookup_middle.
Qed.
Definition field_text (fld : field) (c : creds) : cstring := match fld with FSsid => c_ssid c | FPass => c_pass c | FProvisioned => [] end.
Lemma rtc_backend : find_backend reg (bs "rtc") = if with_rtc then Some (lift_vtable (dv_rtc (N := N)) put_rtc s_rtc_vtable) else None.
Proof. apply reg_rtc. Qed.
Lemma rtc_text_read f key fld n d s m : cf_addr f = mk_addr (Some (bs "rtc")) (Some []) (Some key) -> cf_type f = BB_CONFIG_STR -> cf_has_default f = false ->
  field_of key = Some fld -> fld <> FProvisioned -> (0 < n)%nat -> dev_rel d s m ->
  bb_config_get_str reg (Some f) true (repeat x00 n) n true d =
  match seen m with Some c => (BB_OK, put_text (field_text fld c) (repeat x00 n), Some (length (field_text fld c))) | None => (BB_ERR_NOT_FOUND, repeat x00 n, None) end.
Proof.
  intros Ha Ht Hdef Hf Hp Hn (H1 & H2 & H3). unfold bb_config_get_str. rewrite bool_decide_true by done. cbn [negb orb]. rewrite andb_false_r, Ha, Hdef.
  unfold seen. pose proof rtc_backend as Hb. destruct with_rtc.
  - rewrite (lift_get_typed (dv_rtc (N := N)) put_rtc reg (bs "rtc") s_rtc_vtable Hb) by done. unfold bb_storage_get_typed. rewrite resolve_alone by done. rewrite orb_true_r. cbn [andb s_rtc_vtable vt_get_typed vt_get].
    pose proof (rtc_get_spec (Some []) (Some key) n (dv_rtc d) H2) as Hg. unfold key_addr in Hg. rewrite Hg, H3. unfold keep_get. destruct m as [c|]; [|done]. rewrite Hf.
    destruct fld; [| |done]; cbn [field_read field_text is_ok default from_option]; unfold id; rewrite (proj2 (Nat.ltb_lt _ _) Hn); cbn [andb]; rewrite bool_decide_false by done; cbn [andb]; by rewrite put_text_nul.
  - unfold bb_storage_get_typed, resolve. cbn [a_backend]. rewrite orb_true_r. cbn [negb andb]. rewrite Hb. cbn [is_ok andb]. by rewrite andb_false_r.
Qed.
Lemma mirror_there d s m : dev_rel d s m -> bb_settings_wifi_rtc_mirror_has_creds reg d = match seen m with Some c => bool_decide (c_ssid c <> []) | None => false end.
Proof.
  intros (H1 & H2 & H3). unfold bb_settings_wifi_rtc_mirror_has_creds, seen. pose proof rtc_backend as Hb. destruct with_rtc.
  - rewrite (lift_exists (dv_rtc (N := N)) put_rtc reg (bs "rtc") s_rtc_vtable Hb) by done. unfold bb_storage_exists. rewrite resolve_alone by done. cbn [s_rtc_vtable vt_exists].
    pose proof (rtc_exists_spec (Some []) (Some (bs "ssid")) (dv_rtc d)) as He. unfold key_addr in He. cbn [s_wifi_rtc_ssid_field cf_addr]. unfold rtc_at. rewrite He, H3. by destruct m.
  - unfold bb_storage_exists, resolve. cbn [s_wifi_rtc_ssid_field cf_addr rtc_at a_backend negb]. by rewrite Hb.
Qed.
Lemma mirror_flag d s m : dev_rel d s m -> bb_settings_wifi_rtc_mirror_provisioned_get reg d = match seen m with Some c => negb (bz (c_provisioned c) =? 0) | None => false end.
Proof.
  intros (H1 & H2 & H3). unfold bb_settings_wifi_rtc_mirror_provisioned_get, bb_config_get_u8, scalar_read, scalar_get. cbn [negb]. rewrite bool_decide_true by done. cbn [negb].
  unfold seen. pose proof rtc_backend as Hb. destruct with_rtc.
  - rewrite (lift_get_typed (dv_rtc (N := N)) put_rtc reg (bs "rtc") s_rtc_vtable Hb) by done. unfold bb_storage_get_typed. rewrite resolve_alone by done. rewrite orb_true_r. cbn [andb s_rtc_vtable vt_get_typed vt_get].
    pose proof (rtc_get_spec (Some []) (Some (bs "provisioned")) (bb_config_scalar_width BB_CONFIG_U8) (dv_rtc d) H2) as Hg. unfold key_addr in Hg. cbn [s_wifi_rtc_provisioned_field cf_addr]. unfold rtc_at. rewrite Hg, H3. by destruct m.
  - unfold bb_storage_get_typed, resolve. cbn [s_wifi_rtc_provisioned_field cf_addr rtc_at a_backend negb andb orb]. by rewrite Hb.
Qed.
Lemma has_creds_reads d s m : dev_rel d s m -> bb_settings_wifi_has_creds reg d = negb (bool_decide (text s_wifi_ssid_field s = [])).
Proof.
  intros Hr. unfold bb_settings_wifi_has_creds. rewrite no_buffer. destruct (s !! key_of_field s_wifi_ssid_field) as [v|] eqn:E.
  - pose proof (text_read s_wifi_ssid_field 0 d s m ltac:(in_table) ltac:(by constructor) eq_refl Hr (or_introl (ex_intro _ v E))) as H. cbn [repeat] in H. rewrite H.
    cbn [is_ok andb default from_option]. unfold id. by destruct (text s_wifi_ssid_field s).
  - pose proof (text_absent s_wifi_ssid_field 0 d s m ltac:(in_table) ltac:(by constructor) eq_refl Hr E eq_refl) as H. cbn [repeat] in H. rewrite H. unfold text. by rewrite E.
Qed.

Definition mirror_creds (m : option creds) : option creds := match seen m with Some c => if bool_decide (c_ssid c = []) then None else Some c | None => None end.
(** Boot, and the contents it goes through: restored from the mirror, or the
    mirror armed from flash. *)
Definition spec_boot (s : typed) (m : option creds) : typed * option creds * list (typed * option creds) :=
  match mirror_creds m with
  | Some c =>
      if bool_decide (text s_wifi_ssid_field s = []) then
        let s1 := put_all (live_sets (c_ssid c) (c_pass c)) s in let m1 := mirrored (c_ssid c) (c_pass c) m in
        let s2 := <[key_of_field s_wifi_provisioned_field := VBool true]> s1 in let m2 := mirrored (c_ssid c) (c_pass c) m1 in
        (s2, m2, [(s1, m); (s1, m1); (s2, m1); (s2, m2)])
      else (s, m, [])
  | None =>
      if bool_decide (text s_wifi_ssid_field s = []) then (s, m, []) else
      match s !! key_of_field s_wifi_pass_field with
      | Some _ => let m1 := mirrored (take 31 (text s_wifi_ssid_field s)) (take 63 (text s_wifi_pass_field s)) m in (s, m1, [(s, m1)])
      | None => (s, m, [])
      end
  end.
Lemma seen_rtc m c : seen m = Some c -> m = Some c /\ (forall ssid pass m', seen (mirrored ssid pass m') = Some (mk_creds (cstr ssid) (cstr pass) x01)).
Proof. unfold seen, mirrored. by destruct with_rtc. Qed.
Definition heal (d : device N) : bb_err * device N :=
  let '(sret, ssid, _) := bb_settings_wifi_rtc_mirror_ssid_get reg true (repeat x00 32) 32 d in
  let '(pret, pass, _) := bb_settings_wifi_rtc_mirror_pass_get reg true (repeat x00 64) 64 d in
  if is_ok sret && is_ok pret && negb (bz (hd x00 ssid) =? 0) then
    let '(werr, d) := bb_settings_wifi_set reg (Some (cstr ssid)) (Some (cstr pass)) d in
    if is_ok werr && bb_settings_wifi_rtc_mirror_provisioned_get reg d then
      let '(perr, d) := bb_config_set_bool reg (Some s_wifi_provisioned_field) true d in
      (BB_OK, if is_ok perr then bb_settings_wifi_rtc_mirror_write reg (Some (cstr ssid)) (Some (cstr pass)) d else d)
    else (BB_OK, d)
  else (BB_OK, d).
Lemma heal_does (d : device N) (s : typed) (m : option creds) (c : creds) (Q : typed -> option creds -> Prop) : dev_rel d s m -> seen m = Some c -> c_ssid c <> [] ->
  let s1 := put_all (live_sets (c_ssid c) (c_pass c)) s in let m1 := mirrored (c_ssid c) (c_pass c) m in
  let s2 := <[key_of_field s_wifi_provisioned_field := VBool true]> s1 in let m2 := mirrored (c_ssid c) (c_pass c) m1 in
  Q s1 m -> Q s1 m1 -> Q s2 m1 -> Q s2 m2 -> (heal d).1 = BB_OK /\ did s2 m2 0 Q d (heal d).2.
Proof.
  intros Hr Hm Hc. cbv zeta. intros Q1 Q2 Q3 Q4. destruct (seen_rtc m c Hm) as [-> Hseen]. destruct (held_fit _ c (proj1 (proj2 Hr)) (proj2 (proj2 Hr))) as (C1 & C2 & L1 & L2).
  unfold heal, bb_settings_wifi_rtc_mirror_ssid_get, bb_settings_wifi_rtc_mirror_pass_get, text_get.
  rewrite (rtc_text_read s_wifi_rtc_ssid_field (bs "ssid") FSsid 32 d s _ eq_refl eq_refl eq_refl eq_refl ltac:(done) ltac:(lia) Hr), Hm.
  rewrite (rtc_text_read s_wifi_rtc_pass_field (bs "pass") FPass 64 d s _ eq_refl eq_refl eq_refl eq_refl ltac:(done) ltac:(lia) Hr), Hm. cbn [field_text].
  rewrite buffer_head, bool_decide_false by (done || lia). rewrite !buffer_text by (done || lia). rewrite !take_ge by lia. cbn [is_ok andb negb].
  pose proof (wifi_set_does (c_ssid c) (Some (c_pass c)) d s (Some c) Q C1 C2 Hr) as Hset. unfold spec_wifi_set, spec_batch in Hset. cbn [default from_option] in Hset. unfold id in Hset.
  rewrite live_fits, (proj2 (Nat.ltb_lt _ _) L1), (proj2 (Nat.ltb_lt _ _) L2) in Hset. cbn [andb is_ok] in Hset. destruct (Hset Q1 Q2) as [E D1].
  destruct (bb_settings_wifi_set reg _ _ d) as [werr d1]. cbn [fst snd] in *. subst werr. cbn [is_ok andb].
  rewrite (mirror_flag d1 _ _ (proj1 D1)), Hseen. cbn [c_provisioned]. change (negb (bz x01 =? 0)) with true. cbn iota.
  destruct (set_wrote s_wifi_provisioned_field (VBool true) d1 _ _ ltac:(in_table) I (proj1 D1)) as [H1 H2]. cbn [call_set] in H1, H2.
  rewrite set_flag in H1, H2 by (done || in_table). cbn [fst snd] in H1, H2. destruct (bb_config_set_bool reg _ true d1) as [e d2]. cbn [fst snd] in *. subst e. cbn [is_ok]. split; [done|].
  eapply (did_then _ _ 0 _ _ 0); [exact D1|]. eapply (did_then _ _ 0 _ _ 0); [by apply wrote_did|]. apply wrote_did; [|done].
  apply (mirror_wrote (c_ssid c) (Some (c_pass c))); [done|done|apply H2].
Qed.
Definition seed (d : device N) : bb_err * device N :=
  let '(sret, ssid, _) := bb_settings_wifi_ssid_get reg true (repeat x00 32) 32 d in
  let '(pret, pass, _) := bb_settings_wifi_pass_get reg true (repeat x00 64) 64 d in
  (BB_OK, if is_ok sret && is_ok pret then bb_settings_wifi_rtc_mirror_write reg (Some (cstr ssid)) (Some (cstr pass)) d else d).
Lemma live_text f n d s m v : f = s_wifi_ssid_field \/ f = s_wifi_pass_field -> dev_rel d s m -> s !! key_of_field f = Some v ->
  bb_config_get_str reg (Some f) true (repeat x00 n) n true d = (BB_OK, put_text (text f s) (repeat x00 n), Some (length (text f s))) /\ clean (text f s).
Proof.
  intros Hf Hr Hv. split.
  - eapply text_read; [| | |exact Hr|left; by eexists]; destruct Hf as [-> | ->]; try done; try in_table; by constructor.
  - eapply text_clean; [| |exact (cr_typed _ _ _ _ _ (proj1 Hr))|]; destruct Hf as [-> | ->]; try done; try in_table; by constructor.
Qed.
Lemma seed_does (d : device N) (s : typed) (m : option creds) (Q : typed -> option creds -> Prop) : dev_rel d s m -> text s_wifi_ssid_field s <> [] ->
  match s !! key_of_field s_wifi_pass_field with
  | Some _ => let m1 := mirrored (take 31 (text s_wifi_ssid_field s)) (take 63 (text s_wifi_pass_field s)) m in Q s m1 -> (seed d).1 = BB_OK /\ did s m1 0 Q d (seed d).2
  | None => seed d = (BB_OK, d)
  end.
Proof.
  intros Hr Ht. assert (Hs : is_Some (s !! key_of_field s_wifi_ssid_field)) by (unfold text in Ht; destruct (s !! _); [by eexists|done]). destruct Hs as [v Hv].
  unfold seed, bb_settings_wifi_ssid_get, bb_settings_wifi_pass_get, text_get. destruct (live_text s_wifi_ssid_field 32 d s m v (or_introl eq_refl) Hr Hv) as [-> C1].
  destruct (s !! key_of_field s_wifi_pass_field) as [u|] eqn:Hu.
  - destruct (live_text s_wifi_pass_field 64 d s m u (or_intror eq_refl) Hr Hu) as [-> C2]. cbv zeta. intros HQ. cbn [is_ok andb fst snd]. split; [done|].
    rewrite !buffer_text by (done || lia). apply wrote_did; [|done]. apply (mirror_wrote (take 31 (text s_wifi_ssid_field s)) (Some (take 63 (text s_wifi_pass_field s)))); [rewrite length_take; lia|cbn; rewrite length_take; lia|done].
  - pose proof (text_absent s_wifi_pass_field 64 d s m ltac:(in_table) ltac:(by constructor) eq_refl Hr Hu eq_refl) as H. rewrite H. done.
Qed.
Lemma boot_does (d : device N) (s : typed) (m : option creds) (Q : typed -> option creds -> Prop) : dev_rel d s m ->
  let '(s', m', past) := spec_boot s m in Forall (fun x => Q x.1 x.2) past ->
  (bb_settings_creds_boot_init reg BB_OK d).1 = BB_OK /\ did s' m' 0 Q d (bb_settings_creds_boot_init reg BB_OK d).2.
Proof.
  intros Hr. assert (E : bb_settings_creds_boot_init reg BB_OK d = match bb_settings_creds_boot_decide (bb_settings_wifi_has_creds reg d) (bb_settings_wifi_rtc_mirror_has_creds reg d) with
    | BB_SETTINGS_CREDS_BOOT_HEAL => heal d | BB_SETTINGS_CREDS_BOOT_SEED => seed d | BB_SETTINGS_CREDS_BOOT_NONE => (BB_OK, d) end) by done.
  rewrite E, (has_creds_reads d s m Hr), (mirror_there d s m Hr). unfold spec_boot, mirror_creds. pose proof (seed_does d s m Q Hr) as Hseed.
  pose proof (did_nothing s m Q d Hr) as Hno.
  assert (Hnone : let '(s', m', past) := (if bool_decide (text s_wifi_ssid_field s = []) then (s, m, []) else
      match s !! key_of_field s_wifi_pass_field with
      | Some _ => let m1 := mirrored (take 31 (text s_wifi_ssid_field s)) (take 63 (text s_wifi_pass_field s)) m in (s, m1, [(s, m1)])
      | None => (s, m, []) end) in
    let r := match bb_settings_creds_boot_decide (negb (bool_decide (text s_wifi_ssid_field s = []))) false with
      | BB_SETTINGS_CREDS_BOOT_HEAL => heal d | BB_SETTINGS_CREDS_BOOT_SEED => seed d | BB_SETTINGS_CREDS_BOOT_NONE => (BB_OK, d) end in
    Forall (fun x => Q x.1 x.2) past -> r.1 = BB_OK /\ did s' m' 0 Q d r.2).
  { case_bool_decide as Ht; cbn [negb andb bb_settings_creds_boot_decide]; [done|]. specialize (Hseed Ht). destruct (s !! key_of_field s_wifi_pass_field).
    - cbv zeta. intros HQ. apply Forall_cons in HQ as [HQ _]. by apply Hseed.
    - intros _. by rewrite Hseed. }
  cbv zeta in Hnone. destruct (seen m) as [c|] eqn:Em; [|exact Hnone].
  destruct (decide (c_ssid c = [])) as [Hc|Hc].
  { rewrite (bool_decide_true (c_ssid c = [])), (bool_decide_false (c_ssid c <> [])) by (done || by intros H). exact Hnone. }
  rewrite (bool_decide_false (c_ssid c = [])), (bool_decide_true (c_ssid c <> [])) by done.
  destruct (bool_decide (text s_wifi_ssid_field s = [])); cbn [negb andb bb_settings_creds_boot_decide]; [|done].
  intros HQ. apply Forall_cons in HQ as [Q1 HQ]. apply Forall_cons in HQ as [Q2 HQ]. apply Forall_cons in HQ as [Q3 HQ]. apply Forall_cons in HQ as [Q4 _]. by apply heal_does.
Qed.

(** ** Any call *)

Inductive settings_op : Type :=
  | SWifiSet (ssid pass : option cstring) | SPendingSet (ssid pass : option cstring) | SPromote | SClear | SConnected | SBoot
  | SMirrorClear | SSetFlag (f : config_field) (en : bool) | SHostname (h : option cstring) | STimezone (tz : option cstring)
  | QHasCreds | QWaiting | QProvisioned | QMirror | QFlag (f : config_field) | QText (f : config_field) (n : nat).
Inductive settings_answer : Type := ACode (e : bb_err) | ABool (b : bool) | AText (r : bb_err * list byte * option nat) | ANone.
Definition flag_fields : list config_field := [s_display_enabled_field; s_mdns_enabled_field; s_update_check_enabled_field].
Definition text_fields : list config_field := [s_hostname_field; s_timezone_field; s_wifi_ssid_p_field; s_wifi_pass_p_field; s_wifi_ssid_field; s_wifi_pass_field].
Definition coded {T} (r : bb_err * T) : settings_answer * T := (ACode r.1, r.2).
Definition settings_step (op : settings_op) (d : device N) : settings_answer * device N :=
  match op with
  | SWifiSet ssid pass => coded (bb_settings_wifi_set reg ssid pass d)
  | SPendingSet ssid pass => coded (bb_settings_wifi_pending_set reg ssid pass d)
  | SPromote => coded (bb_settings_wifi_pending_promote reg (Some tell) d)
  | SClear => coded (bb_settings_wifi_pending_clear reg d)
  | SConnected => (ANone, bb_settings_wifi_provisioned_mark_connected reg (Some tell) d)
  | SBoot => coded (bb_settings_creds_boot_init reg BB_OK d)
  | SMirrorClear => coded (bb_settings_wifi_rtc_mirror_clear reg d)
  | SSetFlag f en => coded (bb_config_set_bool reg (Some f) en d)
  | SHostname h => coded (bb_settings_hostname_set reg h d)
  | STimezone tz => coded (bb_settings_timezone_set reg tz d)
  | QHasCreds => (ABool (bb_settings_wifi_has_creds reg d), d)
  | QWaiting => (ABool (bb_settings_wifi_pending_active reg d), d)
  | QProvisioned => (ABool (bb_settings_wifi_provisioned_get reg d), d)
  | QMirror => (ABool (bb_settings_wifi_rtc_mirror_has_creds reg d), d)
  | QFlag f => (ABool (flag_get reg f d), d)
  | QText f n => (AText (text_get reg f true (repeat x00 n) n d), d)
  end.
(** The record of typed values and the mirror, and how often the callback has
    been called. *)
Definition spec_state : Type := typed * option creds * nat.
Definition spec_set (f : config_field) (v : cval) (x : spec_state) : settings_answer * spec_state :=
  let '(s, m, t) := x in (ACode BB_OK, (<[key_of_field f := v]> s, m, t)).
Definition spec_step (op : settings_op) (x : spec_state) : settings_answer * spec_state :=
  let '(s, m, t) := x in
  match op with
  | SWifiSet (Some ssid) pass => let '(e, s', m') := spec_wifi_set ssid (default [] pass) s m in (ACode e, (s', m', t))
  | SPendingSet (Some ssid) pass => let '(e, s') := spec_batch (pending_sets ssid (default [] pass)) s in (ACode e, (s', m, t))
  | SWifiSet None _ | SPendingSet None _ => (ACode BB_ERR_INVALID_ARG, x)
  | SPromote =>
      match spec_promote s m with
      | None => (ACode BB_ERR_INVALID_STATE, x)
      | Some (s', m', k, _) => (ACode BB_OK, (s', m', (t + k)%nat))
      end
  | SClear => (ACode BB_OK, (pending_dropped (<[key_of_field s_wifi_try_field := VU8 0]> s), m, t))
  | SConnected => if provisioned s then (ANone, x) else (ANone, (<[key_of_field s_wifi_provisioned_field := VBool true]> s, m, S t))
  | SBoot => let '(s', m', _) := spec_boot s m in (ACode BB_OK, (s', m', t))
  | SMirrorClear => if with_rtc then (ACode BB_OK, (s, None, t)) else (ACode BB_ERR_NOT_FOUND, x)
  | SSetFlag f en => spec_set f (VBool en) x
  | SHostname h => if settings_valid_hostname h then spec_set s_hostname_field (VStr (default [] h)) x else (ACode BB_ERR_INVALID_ARG, x)
  | STimezone tz => if (64 <? length (default [] tz))%nat then (ACode BB_ERR_INVALID_ARG, x) else spec_set s_timezone_field (VStr (default [] tz)) x
  | QHasCreds => (ABool (negb (bool_decide (text s_wifi_ssid_field s = []))), x)
  | QWaiting => (ABool (waiting s), x)
  | QProvisioned => (ABool (provisioned s), x)
  | QMirror => (ABool (match seen m with Some c => bool_decide (c_ssid c <> []) | None => false end), x)
  | QFlag f => (ABool (match s !! key_of_field f with Some (VBool b) => b | _ => true end), x)
  | QText f n =>
      (AText (match s !! key_of_field f with
              | None => if cf_has_default f then (BB_OK, put_text [] (repeat x00 n), Some 0%nat) else (BB_ERR_NOT_FOUND, repeat x00 n, None)
              | Some _ => (BB_OK, put_text (text f s) (repeat x00 n), Some (length (text f s)))
              end), x)
  end.
Definition op_ok (op : settings_op) : Prop :=
  match op with
  | SWifiSet (Some ssid) pass | SPendingSet (Some ssid) pass => clean ssid /\ clean (default [] pass)
  | SHostname h => clean (default [] h)
  | STimezone tz => clean (default [] tz)
  | SSetFlag f _ | QFlag f => f ∈ flag_fields
  | QText f _ => f ∈ text_fields
  | _ => True
  end.
Definition spec_rel (d : device N) (x : spec_state) : Prop := dev_rel d x.1.1 x.1.2 /\ dv_told d = x.2.

Lemma flag_field f : f ∈ flag_fields -> f ∈ nvs_table /\ cf_type f = BB_CONFIG_BOOL /\ cf_has_default f = true /\ d_b (cf_def f) = true.
Proof. unfold flag_fields. intros H. repeat (apply elem_of_cons in H as [-> |H]; [by split_and!; [in_table|..]|]). inversion H. Qed.
Lemma text_field f : f ∈ text_fields -> f ∈ nvs_table /\ cf_type f = BB_CONFIG_STR /\ default_text f /\ (cf_has_default f = true -> d_str (cf_def f) = Some [] /\ (0 < cf_max_len f)%nat).
Proof.
  unfold text_fields. intros H. repeat (apply elem_of_cons in H as [-> |H]; [split_and!; [in_table|done|by constructor|intros Hd; cbn in Hd; first [done|split; [done|cbn; lia]]]|]). inversion H.
Qed.
Lemma store_text f v d s m : f ∈ nvs_table -> cf_type f = BB_CONFIG_STR -> clean v -> (length v < cf_max_len f)%nat -> (length v <= 64)%nat -> dev_rel d s m ->
  let r := bb_config_set_str reg (Some f) (Some v) d in r.1 = BB_OK /\ wrote (<[key_of_field f := VStr v]> s) m d r.2.
Proof.
  intros Hf Ht Hv Hl Hl2 Hr. destruct (set_wrote f (VStr v) d s m Hf Hv Hr) as [H1 H2]. cbn [call_set] in H1, H2.
  assert (E : spec_field_set limit f (VStr v) s = (BB_OK, <[key_of_field f := VStr v]> s)).
  { unfold spec_field_set. rewrite bool_decide_true by done. cbn [negb too_long]. rewrite (proj2 (Nat.leb_gt _ _)) by done. rewrite decide_True; [done|]. cbn [encode]. lia. }
  rewrite E in H1, H2. by split.
Qed.
Lemma hostname_length h : settings_valid_hostname h = true -> exists v, h = Some v /\ (length v <= 32)%nat.
Proof.
  destruct h as [v|]; [|done]. cbn. intros H. exists v. split; [done|]. destruct (_ || _) eqn:E; [done|]. apply orb_false_iff in E as [_ E]. by apply Nat.ltb_ge in E.
Qed.

Definition anything : typed -> option creds -> Prop := fun _ _ => True.
Lemma did_spec s m k Q d d' t : did s m k Q d d' -> dv_told d = t -> spec_rel d' (s, m, (t + k)%nat).
Proof. intros (H1 & H2 & _) <-. by split. Qed.
Lemma wrote_spec s m d d' t : wrote s m d d' -> dv_told d = t -> spec_rel d' (s, m, t).
Proof. intros (H1 & H2 & _) <-. by split. Qed.
(** An answer and a state that fit the specification's. *)
Definition fits_spec (r : settings_answer * device N) (q : settings_answer * spec_state) : Prop := r.1 = q.1 /\ spec_rel r.2 q.2.
Lemma coded_fits (r : bb_err * device N) e x : r.1 = e -> spec_rel r.2 x -> fits_spec (coded r) (ACode e, x).
Proof. intros <- H. by split. Qed.
Lemma writes_fit op d x : op_ok op -> spec_rel d x -> match op with SWifiSet _ _ | SPendingSet _ _ | SPromote | SClear | SConnected | SBoot => fits_spec (settings_step op d) (spec_step op x) | _ => True end.
Proof.
  destruct x as [[s m] t]. intros Hop [Hr Ht]. cbn [fst snd] in Hr, Ht. destruct op as [ssid pass|ssid pass| | | | | | | | | | | | | |]; try done; cbn [settings_step spec_step op_ok] in *.
  - destruct ssid as [ssid|]; [|by rewrite (proj1 (null_ssid pass d))]. destruct Hop as [H1 H2]. pose proof (wifi_set_does ssid pass d s m anything H1 H2 Hr) as H.
    destruct (spec_wifi_set ssid (default [] pass) s m) as [[e s'] m']. destruct (H I I) as [E D]. apply coded_fits; [done|]. pose proof (did_spec _ _ _ _ _ _ t D Ht) as Hd. by rewrite Nat.add_0_r in Hd.
  - destruct ssid as [ssid|]; [|by rewrite (proj2 (null_ssid pass d))]. destruct Hop as [H1 H2]. pose proof (pending_set_does ssid pass d s m anything H1 H2 Hr) as H.
    destruct (spec_batch (pending_sets ssid (default [] pass)) s) as [e s']. destruct (H I) as [E D]. apply coded_fits; [done|]. pose proof (did_spec _ _ _ _ _ _ t D Ht) as Hd. by rewrite Nat.add_0_r in Hd.
  - pose proof (promote_does d s m anything Hr) as H. destruct (spec_promote s m) as [[[[s' m'] k] past]|]; [|by rewrite H].
    destruct (H (Forall_true _ past (fun _ => I))) as [E D]. apply coded_fits; [done|]. exact (did_spec _ _ _ _ _ _ t D Ht).
  - destruct (clear_does d s m anything Hr I I I) as [E D]. apply coded_fits; [done|]. pose proof (did_spec _ _ _ _ _ _ t D Ht) as Hd. by rewrite Nat.add_0_r in Hd.
  - pose proof (connected_does d s m anything Hr) as H. destruct (provisioned s); [by rewrite H|]. pose proof (did_spec _ _ _ _ _ _ t (H I) Ht) as Hd. rewrite Nat.add_1_r in Hd. by split.
  - pose proof (boot_does d s m anything Hr) as H. destruct (spec_boot s m) as [[s' m'] past]. destruct (H (Forall_true _ past (fun _ => I))) as [E D].
    apply coded_fits; [done|]. pose proof (did_spec _ _ _ _ _ _ t D Ht) as Hd. by rewrite Nat.add_0_r in Hd.
Qed.
Lemma mirror_clear_does d s m : dev_rel d s m ->
  let r := bb_settings_wifi_rtc_mirror_clear reg d in if with_rtc then r.1 = BB_OK /\ wrote s None d r.2 else r = (BB_ERR_NOT_FOUND, d).
Proof.
  intros Hr. cbv zeta. unfold bb_settings_wifi_rtc_mirror_clear. cbn [s_wifi_rtc_ssid_field cf_addr]. pose proof rtc_backend as Hb. destruct with_rtc.
  - destruct (lift_erase (dv_rtc (N := N)) put_rtc (fun w s => eq_refl) reg (bs "rtc") s_rtc_vtable Hb (rtc_at "ssid") d eq_refl) as [H1 H2].
    assert (E : bb_storage_erase (alone (bs "rtc") s_rtc_vtable) (Some (rtc_at "ssid")) (dv_rtc d) = rtc_erase (key_addr (Some []) (Some (bs "ssid"))) (dv_rtc d)) by done.
    rewrite E in H1, H2. pose proof (rtc_erase_spec (Some []) (Some (bs "ssid")) (dv_rtc d) (proj1 (proj2 Hr))) as [H3 H4]. clear H4.
    split; [by rewrite H1|]. by eapply rtc_wrote.
  - unfold bb_storage_erase, resolve. cbn [rtc_at a_backend negb]. by rewrite Hb.
Qed.
Lemma step_fits op d x : op_ok op -> spec_rel d x -> fits_spec (settings_step op d) (spec_step op x).
Proof.
  intros Hop Hx. pose proof (writes_fit op d x Hop Hx) as Hw. destruct x as [[s m] t]. destruct Hx as [Hr Ht]. cbn [fst snd] in Hr, Ht.
  destruct op as [| | | | | | |f en|h|tz| | | | |f|f n]; try exact Hw; clear Hw; cbn [settings_step spec_step op_ok] in *.
  - pose proof (mirror_clear_does d s m Hr) as H. cbv zeta in H. destruct with_rtc; [|by rewrite H]. destruct H as [H1 H2]. apply coded_fits; [done|]. by apply (wrote_spec _ _ d).
  - destruct (flag_field f Hop) as (Hf & Hty & _). destruct (set_wrote f (VBool en) d s m Hf I Hr) as [H1 H2]. cbn [call_set] in H1, H2. rewrite set_flag in H1, H2 by done.
    apply coded_fits; [done|]. by apply (wrote_spec _ _ d).
  - unfold bb_settings_hostname_set. destruct (settings_valid_hostname h) eqn:Eh; cbn [negb]; [|by split]. destruct (hostname_length h Eh) as (v & -> & Hl). cbn [default from_option] in Hop. unfold id in Hop.
    destruct (store_text s_hostname_field v d s m ltac:(in_table) eq_refl Hop ltac:(cbn; lia) ltac:(lia) Hr) as [H1 H2]. apply coded_fits; [done|]. by apply (wrote_spec _ _ d).
  - unfold bb_settings_timezone_set. destruct (Nat.ltb_spec 64 (length (default [] tz))); [by split|].
    destruct (store_text s_timezone_field (default [] tz) d s m ltac:(in_table) eq_refl Hop ltac:(unfold s_timezone_field; cbn [cf_max_len]; lia) ltac:(lia) Hr) as [H1 H2]. apply coded_fits; [done|]. by apply (wrote_spec _ _ d).
  - split; [|done]. cbn [fst]. by rewrite (has_creds_reads d s m Hr).
  - split; [|done]. cbn [fst]. by rewrite (pending_active_reads d s m Hr).
  - split; [|done]. cbn [fst]. by rewrite (provisioned_read d s m Hr).
  - split; [|done]. cbn [fst]. by rewrite (mirror_there d s m Hr).
  - split; [|done]. cbn [fst]. destruct (flag_field f Hop) as (Hf & Hty & Hdef & Hb). unfold flag_get. rewrite (bool_read f d s m Hf Hty Hr), Hdef, Hb. by destruct (s !! key_of_field f) as [[]|].
  - split; [|done]. cbn [fst]. destruct (text_field f Hop) as (Hf & Hty & Hdt & Hdef). unfold text_get. destruct (s !! key_of_field f) as [v|] eqn:E.
    + by rewrite (text_read f n d s m Hf Hdt Hty Hr (or_introl (ex_intro _ v E))).
    + destruct (cf_has_default f) eqn:Ed.
      * destruct (Hdef eq_refl) as [H1 H2]. rewrite (text_read f n d s m Hf Hdt Hty Hr (or_intror (conj Ed (conj H1 H2)))). unfold text. by rewrite E, H1.
      * by rewrite (text_absent f n d s m Hf Hdt Hty Hr E Ed).
Qed.
Fixpoint settings_run {T} (step : settings_op -> T -> settings_answer * T) (ops : list settings_op) (x : T) : list settings_answer * T :=
  match ops with
  | [] => ([], x)
  | op :: ops => let '(a, x) := step op x in let '(rest, x) := settings_run step ops x in (a :: rest, x)
  end.
Lemma run_fits ops : Forall op_ok ops -> forall d x, spec_rel d x ->
  (settings_run settings_step ops d).1 = (settings_run spec_step ops x).1 /\ spec_rel (settings_run settings_step ops d).2 (settings_run spec_step ops x).2.
Proof.
  induction 1 as [|op ops Hop _ IH]; intros d x Hx; [done|]. cbn [settings_run]. destruct (step_fits op d x Hop Hx) as [H1 H2].
  destruct (settings_step op d) as [a d1], (spec_step op x) as [a' x1]. cbn [fst snd] in *. subst a'. destruct (IH d1 x1 H2) as [H3 H4].
  destruct (settings_run settings_step ops d1), (settings_run spec_step ops x1). cbn [fst snd] in *. by subst.
Qed.

(** ** What was written is what is read *)

Lemma live_texts_back ssid pass s : text s_wifi_ssid_field (put_all (live_sets ssid pass) s) = ssid /\ text s_wifi_pass_field (put_all (live_sets ssid pass) s) = pass.
Proof. unfold text, put_all, live_sets. cbn [fold_left fst snd]. split; [rewrite lookup_insert_ne by done|]; by rewrite lookup_insert_eq. Qed.
Lemma text_elsewhere f g v s : key_of_field f <> key_of_field g -> text f (<[key_of_field g := v]> s) = text f s.
Proof. intros H. unfold text. by rewrite lookup_insert_ne. Qed.
(** Promoted: the pending texts live, nothing waiting any more. *)
Definition promoted (ssid pass : cstring) (s : typed) : Prop :=
  text s_wifi_ssid_field s = ssid /\ text s_wifi_pass_field s = pass /\ provisioned s = true /\ waiting s = false.
Lemma promoted_texts ssid pass s : promoted ssid pass (put_all (promote_sets ssid pass) s).
Proof.
  unfold promoted, promote_sets, live_sets, put_all, provisioned, waiting, tries. cbn [fold_left fst snd app]. split_and!.
  - rewrite !text_elsewhere by done. unfold text. by rewrite lookup_insert_eq.
  - rewrite !text_elsewhere by done. unfold text. by rewrite lookup_insert_eq.
  - by rewrite lookup_insert_eq.
  - rewrite lookup_insert_ne by done. by rewrite lookup_insert_eq.
Qed.
Lemma promoted_drop f ssid pass s : f = s_wifi_ssid_p_field \/ f = s_wifi_pass_p_field -> promoted ssid pass s -> promoted ssid pass (delete (key_of_field f) s).
Proof.
  intros Hf (H1 & H2 & H3 & H4). unfold promoted, waiting, text, provisioned, tries in *. destruct Hf as [-> | ->].
  - rewrite !(lookup_delete_ne _ (key_of_field s_wifi_ssid_p_field)) by done. split_and!; [done|done|done|]. rewrite lookup_delete_eq. cbn. by rewrite andb_false_r.
  - by rewrite !(lookup_delete_ne _ (key_of_field s_wifi_pass_p_field)) by done.
Qed.



(** Credentials survive the loss of the flash: once they were stored, a boot
    on a flash without credentials restores both from the mirror, and marks
    the device provisioned, whether or not it ever connected. *)
Theorem creds_survive_flash_loss d s m ssid pass n0 s0 : with_rtc = true -> clean ssid -> clean pass -> ssid <> [] -> dev_rel d s m ->
  (bb_settings_wifi_set reg (Some ssid) (Some pass) d).1 = BB_OK -> flash_rel n0 s0 -> text s_wifi_ssid_field s0 = [] ->
  let d1 := (bb_settings_wifi_set reg (Some ssid) (Some pass) d).2 in
  let d2 := (bb_settings_creds_boot_init reg BB_OK (mk_dev n0 (dv_rtc d1) (dv_told d1) (dv_past d1))).2 in
  dv_told d2 = dv_told d /\ exists s2, dev_rel d2 s2 (Some (mk_creds ssid pass x01)) /\
    text s_wifi_ssid_field s2 = ssid /\ text s_wifi_pass_field s2 = pass /\ provisioned s2 = true.
Proof.
  intros Hrtc Hs Hp Hne Hr Hok Hflash Hempty d1 d2. pose proof (wifi_set_does ssid (Some pass) d s m anything Hs Hp Hr) as H. unfold spec_wifi_set, spec_batch in H. cbn [default from_option] in H. unfold id in H.
  destruct (batch_fits (live_sets ssid pass)); destruct (H I I) as [E (D1 & D2 & _)]; [|by rewrite Hok in E]. cbn [is_ok] in D1. fold d1 in D1, D2.
  assert (Hm : forall m', mirrored ssid pass m' = Some (mk_creds ssid pass x01)) by (intros m'; unfold mirrored; rewrite Hrtc; by rewrite !cstr_id by done).
  assert (Hr1 : dev_rel (mk_dev n0 (dv_rtc d1) (dv_told d1) (dv_past d1)) s0 (Some (mk_creds ssid pass x01))) by (split; [done|]; rewrite <- (Hm m); apply D1).
  pose proof (boot_does _ s0 _ anything Hr1) as B. unfold spec_boot, mirror_creds, seen in B. rewrite Hrtc in B. cbn [c_ssid c_pass] in B. rewrite (bool_decide_false (ssid = [])), (bool_decide_true (text s_wifi_ssid_field s0 = [])) in B by done.
  cbv zeta in B. rewrite !Hm in B. destruct B as [_ (B1 & B2 & _)]; [repeat constructor|]. fold d2 in B1, B2. cbn [dv_told] in B2. split; [lia|].
  eexists. split; [exact B1|]. destruct (live_texts_back ssid pass s0) as [L1 L2].
  split_and!; [by rewrite (text_elsewhere s_wifi_ssid_field s_wifi_provisioned_field)|by rewrite (text_elsewhere s_wifi_pass_field s_wifi_provisioned_field)|]. unfold provisioned. by rewrite lookup_insert_eq.
Qed.
End Device.

(** * At a device *)

(** The host's RAM backend in the place of flash. *)
Lemma wit_nvs : KeepsKeys (alone (bs "nvs") s_ram_vtable) (bs "nvs") (table_keys nvs_table) BB_STORAGE_RAM_MAX_VALUE_BYTES (ram_holds (table_keys nvs_table)) store_of txn_rel.
Proof. apply ram_keeps_keys; [reflexivity|apply Nat.leb_le; vm_compute; reflexivity|]. apply (bool_decide_unpack _). vm_compute. exact I. Qed.
Definition wit_dev : device ram_entries := mk_dev ram_empty region_zero 0 [].
Lemma wit_flash : flash_rel (ram_holds (table_keys nvs_table)) store_of ram_empty ∅.
Proof. destruct ram_empty_wf as [H1 H2]. split; [split; [done|rewrite H2; set_solver]|by rewrite H2, fmap_empty|apply map_Forall_empty]. Qed.
Lemma wit_dev_rel : dev_rel (ram_holds (table_keys nvs_table)) store_of wit_dev ∅ None.
Proof. split; [exact wit_flash|apply zero_ok]. Qed.
Definition wit_ops : list settings_op :=
  [SBoot; QHasCreds; SWifiSet (Some (bs "home")) (Some (bs "secret")); QProvisioned; SConnected; QProvisioned; SPendingSet (Some (bs "lab")) None; QWaiting; SPromote; QWaiting;
   QText s_wifi_ssid_field 3; QText s_wifi_pass_field 3; SPromote; SWifiSet None (Some (bs "x")); SHostname (Some (bs "-bad")); SHostname (Some (bs "unit-7")); QText s_hostname_field 32;
   SSetFlag s_mdns_enabled_field false; QFlag s_mdns_enabled_field; QFlag s_display_enabled_field; SMirrorClear; QMirror; SBoot; QMirror].


Lemma creds_survive_flash_loss_witness :
  let d1 := (bb_settings_wifi_set (reg s_ram_vtable true) (Some (bs "home")) (Some (bs "secret")) wit_dev).2 in
  let d2 := (bb_settings_creds_boot_init (reg s_ram_vtable true) BB_OK (mk_dev ram_empty (dv_rtc d1) (dv_told d1) (dv_past d1))).2 in
  dv_told d2 = 0%nat /\ exists s2, dev_rel (ram_holds (table_keys nvs_table)) store_of d2 s2 (Some (mk_creds (bs "home") (bs "secret") x01)) /\
    text s_wifi_ssid_field s2 = bs "home" /\ text s_wifi_pass_field s2 = bs "secret" /\ provisioned s2 = true.
Proof.
  apply (creds_survive_flash_loss s_ram_vtable BB_STORAGE_RAM_MAX_VALUE_BYTES _ _ _ ltac:(apply Nat.leb_le; reflexivity) (HN := wit_nvs) true wit_dev ∅ None (bs "home") (bs "secret") ram_empty ∅).
  - reflexivity.
  - repeat constructor; done.
  - repeat constructor; done.
  - done.
  - exact wit_dev_rel.
  - vm_compute. reflexivity.
  - exact wit_flash.
  - reflexivity.
Defined.
