(* ===== verification/RebootBudget.v ===== *)
(** The reboot budget: components/bb_system/src/bb_system_reboot_budget.c. *)
From Stdlib Require Import Strings.String.
From stdpp Require Import sorting.
From S2P Require Import Prelude Bytes Num.

(** * Data (bb_system.h) *)

Inductive bb_reboot_cause_t : Set := BB_REBOOT_CAUSE_WIFI_SAFEGUARD | BB_REBOOT_CAUSE_EGRESS_TIER3 | BB_REBOOT_CAUSE_COUNT.
#[export] Instance cause_eq_dec : EqDecision bb_reboot_cause_t.
Proof. solve_decision. Defined.

Definition BB_SYSTEM_REBOOT_BUDGET_MIN_INTERVAL_S : Z := 1800.
Definition BB_SYSTEM_REBOOT_BUDGET_DAILY_CAP : nat := 4.
Definition BB_SYSTEM_REBOOT_BUDGET_CAP_MAX : nat := 10.
Definition BB_SYSTEM_REBOOT_BUDGET_STATE_STR_MAX : nat := 192.

Record budget_state := mk_budget {
  last_reboot_s : Z; reboot_s_ring : list Z; ring_head : nat; ring_count : nat }.
(** What memset leaves. *)
Definition zero_state : budget_state := mk_budget 0 (repeat 0 BB_SYSTEM_REBOOT_BUDGET_CAP_MAX) 0 0.

(** * The decision and its record *)

Definition cause_key (cause : bb_reboot_cause_t) : option String.string :=
  match cause with
  | BB_REBOOT_CAUSE_WIFI_SAFEGUARD => Some "budget_wifi"%string
  | BB_REBOOT_CAUSE_EGRESS_TIER3 => Some "budget_egress"%string
  | BB_REBOOT_CAUSE_COUNT => None
  end.

Definition bb_system_elapsed_epoch_s (now_s since_s : Z) : Z :=
  if since_s <=? now_s then now_s - since_s else 0.

(** In the trailing 24 hours of [now_s]; a time after [now_s] is excluded. *)
Definition in_24h (now_s ts : Z) : bool := (ts <=? now_s) && (now_s - ts <? 86400).

Definition bb_system_reboot_budget_should_allow (now_s min_interval_s : Z) (daily_cap : nat)
    (st : option budget_state) : bool :=
  match st with
  | None => false
  | Some st =>
      if negb (last_reboot_s st =? 0) && (bb_system_elapsed_epoch_s now_s (last_reboot_s st) <? min_interval_s)
      then false else
      let n := Nat.min (ring_count st) BB_SYSTEM_REBOOT_BUDGET_CAP_MAX in
      let count24h := length (filter (fun ts => in_24h now_s ts = true) (take n (reboot_s_ring st))) in
      negb (daily_cap <=? count24h)%nat
  end.

Definition bb_system_reboot_budget_state_record (st : budget_state) (now_s : Z) : budget_state :=
  mk_budget now_s (<[ring_head st := now_s]> (reboot_s_ring st))
    ((ring_head st + 1) mod BB_SYSTEM_REBOOT_BUDGET_CAP_MAX)
    (if (ring_count st <? BB_SYSTEM_REBOOT_BUDGET_CAP_MAX)%nat then S (ring_count st) else ring_count st).

(** * Encoding *)

(** [snprintf(buf + off, len - off, ...)] with [buf[0..off)] = [buf]: whether
    [piece] fits with its NUL, and the text left in the buffer. *)
Definition append_piece (buf_len : nat) (buf piece : list byte) : bool * list byte :=
  if (buf_len - length buf <=? length piece)%nat
  then (false, buf ++ take (buf_len - length buf - 1) piece)
  else (true, buf ++ piece).

Fixpoint encode_ring (buf_len : nat) (first : bool) (ring : list Z) (buf : list byte) : bool * list byte :=
  match ring with
  | [] => (true, buf)
  | ts :: rest =>
      let '(ok, buf1) := append_piece buf_len buf ((if first then [x7c] else [x2c]) ++ dec_u64 ts) in
      if ok then encode_ring buf_len false rest buf1 else (false, buf1)
  end.

Definition bb_system_reboot_budget_state_encode (st : option budget_state) (buf_ok : bool) (buf_len : nat)
  : bool * list byte :=
  match st with
  | Some st =>
      if negb buf_ok || (buf_len =? 0)%nat then (false, []) else
      let '(ok, buf) := append_piece buf_len []
        (dec_u64 (last_reboot_s st) ++ [x7c] ++ dec_u64 (Z.of_nat (ring_head st)) ++ [x7c] ++
         dec_u64 (Z.of_nat (ring_count st))) in
      if ok then encode_ring buf_len true (reboot_s_ring st) buf else (false, buf)
  | None => (false, [])
  end.

(** * Decoding *)

Definition is_space (c : byte) : bool :=
  match c with x20 | x09 | x0a | x0b | x0c | x0d => true | _ => false end.
Fixpoint skip_space (l : list byte) : list byte :=
  match l with c :: rest => if is_space c then skip_space rest else l | [] => [] end.
Fixpoint span_digits (l : list byte) : list byte * list byte :=
  match l with
  | c :: rest => if is_digit c then let '(d, r) := span_digits rest in (c :: d, r) else ([], l)
  | [] => ([], [])
  end.

Section Decode.
(** What %u stores for a number that does not fit an unsigned int; C leaves it
    undefined. *)
Context (unrepresentable : Z -> Z).

(** One [%u]: the value and the rest of the input. *)
Definition scan_u (l : list byte) : option (Z * list byte) :=
  let l1 := skip_space l in
  let '(neg, l2) := match l1 with
                    | x2d :: r => (true, r)
                    | x2b :: r => (false, r)
                    | _ => (false, l1)
                    end in
  let '(ds, rest) := span_digits l2 in
  match ds with
  | [] => None
  | _ =>
      let v := dec_value ds in
      let v' := if UINT32_MAX <? v then unrepresentable v else if neg : bool then u32 (- v) else v in
      Some (v', rest)
  end.

(** [sscanf(str, "%u|%u|%u|%n", ...)]: the fields matched, and the bytes
    consumed as far as [%n] was reached (0 otherwise). *)
Definition scan_bar (l : list byte) : option (list byte) :=
  match l with c :: rest => if Byte.eqb c x7c then Some rest else None | [] => None end.
Definition scan_header (str : list byte) : list Z * nat :=
  match scan_u str with
  | None => ([], 0%nat)
  | Some (a, r1) =>
      match scan_bar r1 with
      | None => ([a], 0%nat)
      | Some r1' =>
          match scan_u r1' with
          | None => ([a], 0%nat)
          | Some (b, r2) =>
              match scan_bar r2 with
              | None => ([a; b], 0%nat)
              | Some r2' =>
                  match scan_u r2' with
                  | None => ([a; b], 0%nat)
                  | Some (c, r3) =>
                      match scan_bar r3 with
                      | None => ([a; b; c], 0%nat)
                      | Some r3' => ([a; b; c], (length str - length r3')%nat)
                      end
                  end
              end
          end
      end
  end.

(** The ring's times, [left] of them; what follows the last is not read. *)
Fixpoint decode_ring (left : nat) (p : list byte) : option (list Z) :=
  match left with
  | O => Some []
  | S left' =>
      match scan_u p with
      | None => None
      | Some (ts, rest) =>
          match left' with
          | O => Some [ts]
          | S _ =>
              match rest with
              | c :: rest' => if Byte.eqb c x2c then option_map (cons ts) (decode_ring left' rest') else None
              | [] => None
              end
          end
      end
  end.

Definition bb_system_reboot_budget_state_decode (str : option (list byte)) : option budget_state :=
  match str with
  | None => None
  | Some str =>
      match scan_header str with
      | ([last_reboot_field; ring_head_field; ring_count_field], consumed) =>
          if (consumed =? 0)%nat then None else
          if (Z.of_nat BB_SYSTEM_REBOOT_BUDGET_CAP_MAX <=? ring_head_field) ||
             (Z.of_nat BB_SYSTEM_REBOOT_BUDGET_CAP_MAX <? ring_count_field) then None else
          match decode_ring BB_SYSTEM_REBOOT_BUDGET_CAP_MAX (drop consumed str) with
          | None => None
          | Some ring => Some (mk_budget last_reboot_field ring (Z.to_nat ring_head_field) (Z.to_nat ring_count_field))
          end
      | _ => None
      end
  end.
End Decode.


(** * The rate limit *)

(** The ring holds the last [BB_SYSTEM_REBOOT_BUDGET_CAP_MAX] recorded times,
    read from the next write position. *)
Definition recent (granted : list Z) : list Z := drop (length granted - BB_SYSTEM_REBOOT_BUDGET_CAP_MAX) granted.

Record ring_inv (st : budget_state) (granted : list Z) : Prop := {
  ri_length : length (reboot_s_ring st) = BB_SYSTEM_REBOOT_BUDGET_CAP_MAX;
  ri_head : ring_head st = (length granted mod BB_SYSTEM_REBOOT_BUDGET_CAP_MAX)%nat;
  ri_count : ring_count st = Nat.min (length granted) BB_SYSTEM_REBOOT_BUDGET_CAP_MAX;
  ri_last : last_reboot_s st = default 0 (last granted);
  ri_ring : if (length granted <? BB_SYSTEM_REBOOT_BUDGET_CAP_MAX)%nat
            then take (length granted) (reboot_s_ring st) = granted
            else drop (ring_head st) (reboot_s_ring st) ++ take (ring_head st) (reboot_s_ring st) = recent granted
}.

Lemma zero_inv : ring_inv zero_state [].
Proof. by split. Qed.

(** A write at position [h] of a list read from [h]. *)
Lemma drop_insert_here {A} (l : list A) h x : (h < length l)%nat ->
  drop (S h) (<[h:=x]> l) = tail (drop h l).
Proof.
  intros Hh. rewrite drop_insert_lt by lia. destruct (drop h l) eqn:E.
  - apply (f_equal length) in E. rewrite length_drop in E. cbn in E. lia.
  - replace (S h) with (h + 1)%nat by lia. by rewrite <- drop_drop, E.
Qed.
Lemma take_insert_here {A} (l : list A) h x : (h < length l)%nat ->
  take (S h) (<[h:=x]> l) = take h l ++ [x].
Proof.
  intros Hh. erewrite take_S_r by (by apply list_lookup_insert_eq). by rewrite take_insert_ge by lia.
Qed.

Lemma drop_S_tail {A} (l : list A) n : drop (S n) l = tail (drop n l).
Proof. replace (S n) with (n + 1)%nat by lia. rewrite <- drop_drop. by destruct (drop n l). Qed.
Lemma tail_app {A} (l l' : list A) : (0 < length l)%nat -> tail (l ++ l') = tail l ++ l'.
Proof. destruct l; cbn; [lia|done]. Qed.

Lemma record_inv st granted now : ring_inv st granted ->
  ring_inv (bb_system_reboot_budget_state_record st now) (granted ++ [now]).
Proof.
  intros [Hl Hh Hc Hla Hr]. unfold recent, BB_SYSTEM_REBOOT_BUDGET_CAP_MAX in *.
  pose proof (Nat.mod_upper_bound (length granted) 10 ltac:(lia)) as Hhb. rewrite <- Hh in Hhb.
  assert (Hlen : length (granted ++ [now]) = (length granted + 1)%nat) by (by rewrite length_app).
  split; unfold bb_system_reboot_budget_state_record, recent, BB_SYSTEM_REBOOT_BUDGET_CAP_MAX;
    cbn [reboot_s_ring ring_head ring_count last_reboot_s]; rewrite ?Hlen, ?length_insert.
  - done.
  - rewrite Hh. apply Nat.Div0.add_mod_idemp_l.
  - rewrite Hc. destruct (Nat.ltb_spec (Nat.min (length granted) 10) 10); lia.
  - by rewrite last_snoc.
  - set (h := ring_head st) in *.
    destruct (Nat.ltb_spec (length granted) 10) as [Hlt|Hge]; destruct (Nat.ltb_spec (length granted + 1) 10); try lia.
    + rewrite Nat.mod_small in Hh by lia. rewrite Hh. replace (length granted + 1)%nat with (S (length granted)) by lia.
      rewrite take_insert_here by lia. by rewrite Hr.
    + assert (Hg : length granted = 9%nat) by lia. rewrite Hg in *. rewrite Hh. change (9 mod 10)%nat with 9%nat.
      change ((9 + 1) mod 10)%nat with 0%nat. change (9 + 1 - 10)%nat with 0%nat. cbn [take]. rewrite app_nil_r, !drop_0.
      rewrite <- (take_ge (<[9%nat:=now]> (reboot_s_ring st)) 10) by (rewrite length_insert; lia).
      rewrite take_insert_here by lia. by rewrite Hr.
    + replace (length granted + 1 - 10)%nat with (S (length granted - 10)) by lia.
      rewrite drop_app_le by lia. rewrite drop_S_tail, <- Hr.
      rewrite tail_app by (rewrite length_drop; lia).
      rewrite <- app_assoc, <- (take_insert_here _ _ now), <- (drop_insert_here _ _ now) by lia.
      destruct (Nat.eq_dec h 9%nat) as [->|Hne].
      * change ((9 + 1) mod 10)%nat with 0%nat. rewrite drop_0, (drop_ge _ 10) by (rewrite length_insert; lia).
        rewrite (take_ge _ 10) by (rewrite length_insert; lia). cbn. by rewrite app_nil_r.
      * rewrite Nat.mod_small by lia. by replace (h + 1)%nat with (S h) by lia.
Qed.

(** What [count24h] counts. *)
Definition in_window (now : Z) (l : list Z) : nat := length (filter (fun ts => in_24h now ts = true) l).

Lemma in_window_perm now l l' : l ≡ₚ l' -> in_window now l = in_window now l'.
Proof. intros H. unfold in_window. by rewrite H. Qed.
Lemma in_window_app now l l' : in_window now (l ++ l') = (in_window now l + in_window now l')%nat.
Proof. unfold in_window. by rewrite filter_app, length_app. Qed.

Lemma count_recent st granted now : ring_inv st granted ->
  in_window now (take (Nat.min (ring_count st) BB_SYSTEM_REBOOT_BUDGET_CAP_MAX) (reboot_s_ring st)) =
  in_window now (recent granted).
Proof.
  intros [Hl Hh Hc Hla Hr]. unfold recent. rewrite Hc.
  destruct (Nat.ltb_spec (length granted) BB_SYSTEM_REBOOT_BUDGET_CAP_MAX) as [Hlt|Hge].
  - rewrite !Nat.min_l by lia. replace (length granted - BB_SYSTEM_REBOOT_BUDGET_CAP_MAX)%nat with 0%nat by lia. by rewrite Hr.
  - rewrite Nat.min_l by lia. rewrite Nat.min_r by lia. rewrite take_ge by lia. unfold recent in Hr. rewrite <- Hr.
    apply in_window_perm. rewrite <- (take_drop (ring_head st) (reboot_s_ring st)) at 1. apply Permutation_app_comm.
Qed.


(** A consumer that asks before every reboot: the times at which it rebooted. *)
Definition attempt (min_interval : Z) (daily_cap : nat) (r : budget_state * list Z) (now : Z) : budget_state * list Z :=
  if bb_system_reboot_budget_should_allow now min_interval daily_cap (Some r.1)
  then (bb_system_reboot_budget_state_record r.1 now, r.2 ++ [now]) else r.
Definition attempts (min_interval : Z) (daily_cap : nat) (times : list Z) : budget_state * list Z :=
  fold_left (attempt min_interval daily_cap) times (zero_state, []).

Lemma in_24h_true now ts : in_24h now ts = true <-> ts <= now /\ now - 86400 < ts.
Proof. unfold in_24h. rewrite andb_true_iff, Z.leb_le, Z.ltb_lt. lia. Qed.

Lemma in_window_all now l : Forall (fun ts => ts <= now /\ now - 86400 < ts) l -> in_window now l = length l.
Proof.
  unfold in_window. induction 1 as [|x l Hx _ IH]; [done|]. rewrite filter_cons_True by (by apply in_24h_true).
  cbn. by rewrite IH.
Qed.
Lemma in_window_le now l : (in_window now l <= length l)%nat.
Proof. apply length_filter. Qed.

(** In ascending order, the last [CAP_MAX] times know whether the window is
    full. *)
Lemma window_recent now cap granted :
  StronglySorted Z.le granted -> Forall (fun g => g <= now) granted -> (cap <= BB_SYSTEM_REBOOT_BUDGET_CAP_MAX)%nat ->
  (in_window now (recent granted) < cap)%nat -> (in_window now granted < cap)%nat.
Proof.
  intros Hs Hf Hcap Hr. unfold recent in Hr. set (k := (length granted - BB_SYSTEM_REBOOT_BUDGET_CAP_MAX)%nat) in *.
  rewrite <- (take_drop k granted) in Hs, Hf |- *. rewrite in_window_app.
  apply Forall_app in Hf as [_ Hf]. apply StronglySorted_app in Hs as (Hx & _ & _).
  destruct (in_window now (take k granted)) as [|m] eqn:E; [lia|].
  assert (exists o, o ∈ take k granted /\ in_24h now o = true) as (o & Ho & Hw).
  { unfold in_window in E. destruct (filter _ _) as [|o l] eqn:El; [done|].
    assert (o ∈ filter (fun ts => in_24h now ts = true) (take k granted)) as H by (rewrite El; left).
    apply list_elem_of_filter in H. exists o. tauto. }
  apply in_24h_true in Hw. exfalso. rewrite in_window_all in Hr.
  - rewrite length_drop in Hr. assert (0 < k)%nat; [|lia]. destruct k; [|lia]. by apply elem_of_nil in Ho.
  - apply Forall_forall. intros x Hxd. rewrite Forall_forall in Hf. specialize (Hf x Hxd). specialize (Hx o x Ho Hxd). lia.
Qed.

(** Consecutive grants keep their distance; no window of a day holds more than
    the cap. *)
Record limited (min_interval : Z) (daily_cap : nat) (granted : list Z) : Prop := {
  lim_sorted : StronglySorted Z.le granted;
  lim_gap i a b : granted !! i = Some a -> granted !! (S i) = Some b -> a <> 0 -> min_interval <= b - a;
  lim_window t : (in_window t granted <= daily_cap)%nat
}.

Lemma sorted_snoc granted now : StronglySorted Z.le granted -> Forall (fun g => g <= now) granted ->
  StronglySorted Z.le (granted ++ [now]).
Proof.
  intros Hs Hf. apply StronglySorted_app. split_and!; [|done|repeat constructor].
  intros a b Ha Hb. apply list_elem_of_singleton in Hb as ->. rewrite Forall_forall in Hf. by apply Hf.
Qed.

Lemma allow_limits min_interval daily_cap st granted now :
  ring_inv st granted -> limited min_interval daily_cap granted -> Forall (fun g => g <= now) granted ->
  (daily_cap <= BB_SYSTEM_REBOOT_BUDGET_CAP_MAX)%nat ->
  bb_system_reboot_budget_should_allow now min_interval daily_cap (Some st) = true ->
  limited min_interval daily_cap (granted ++ [now]).
Proof.
  intros Hi [Hs Hg Hw] Hf Hcap Ha. unfold bb_system_reboot_budget_should_allow in Ha.
  destruct (negb (last_reboot_s st =? 0) && _) eqn:Ec; [done|]. apply negb_true_iff, Nat.leb_gt in Ha.
  fold (in_window now (take (Nat.min (ring_count st) BB_SYSTEM_REBOOT_BUDGET_CAP_MAX) (reboot_s_ring st))) in Ha.
  rewrite (count_recent _ _ _ Hi) in Ha. apply window_recent in Ha; [|done..].
  split.
  - by apply sorted_snoc.
  - intros i a b H1 H2 Hne. destruct (Nat.lt_ge_cases (S i) (length granted)).
    + rewrite lookup_app_l in H1, H2 by lia. by apply (Hg i).
    + pose proof (lookup_lt_Some _ _ _ H2) as Hlt. rewrite length_app in Hlt. cbn in Hlt.
      rewrite lookup_app_l in H1 by lia. rewrite lookup_app_r in H2 by lia.
      replace (S i - length granted)%nat with 0%nat in H2 by lia. injection H2 as <-.
      assert (last granted = Some a) as Hla by (rewrite last_lookup; rewrite <- H1; f_equal; lia).
      rewrite (ri_last _ _ Hi), Hla in Ec. cbn [default from_option id] in Ec. unfold id in Ec.
      apply andb_false_iff in Ec as [Ec|Ec].
      * apply negb_false_iff, Z.eqb_eq in Ec. done.
      * apply Z.ltb_ge in Ec. unfold bb_system_elapsed_epoch_s in Ec.
        rewrite Forall_forall in Hf. assert (Hn : a <= now) by (apply Hf, list_elem_of_lookup; eauto).
        destruct (Z.leb_spec a now); lia.
  - intros t. rewrite in_window_app. specialize (Hw t). destruct (in_24h t now) eqn:E.
    + assert (in_window t [now] = 1%nat) as -> by (unfold in_window; rewrite filter_cons_True by done; done).
      apply in_24h_true in E. assert (in_window t granted <= in_window now granted)%nat; [|lia].
      unfold in_window. clear -Hf E. induction Hf as [|g l Hg _ IH]; [done|].
      rewrite !filter_cons. destruct (decide (in_24h t g = true)) as [H1|H1], (decide (in_24h now g = true)) as [H2|H2]; cbn; try lia.
      exfalso. apply H2. apply in_24h_true in H1. apply in_24h_true. lia.
    + assert (in_window t [now] = 0%nat) as -> by (unfold in_window; rewrite filter_cons_False by (by rewrite E); done). lia.
Qed.

Lemma attempts_limited min_interval daily_cap times :
  StronglySorted Z.le times -> (daily_cap <= BB_SYSTEM_REBOOT_BUDGET_CAP_MAX)%nat ->
  let r := attempts min_interval daily_cap times in
  ring_inv r.1 r.2 /\ limited min_interval daily_cap r.2 /\ forall t, Forall (fun g => g <= t) times -> Forall (fun g => g <= t) r.2.
Proof.
  intros Hs Hcap. induction times as [|now times IH] using rev_ind.
  - split; [apply zero_inv|]. split; [|done]. split; [constructor|done|cbn; lia].
  - apply StronglySorted_app in Hs as (Hx & Hs & _). specialize (IH Hs). cbn zeta in IH. destruct IH as (H1 & H2 & H3).
    unfold attempts. rewrite fold_left_app. fold (attempts min_interval daily_cap times).
    set (r := attempts min_interval daily_cap times) in *. cbn [fold_left]. unfold attempt.
    assert (Hnow : Forall (fun g => g <= now) r.2).
    { apply H3. apply Forall_forall. intros g Hg. apply Hx; [done|by apply list_elem_of_singleton]. }
    destruct (bb_system_reboot_budget_should_allow now min_interval daily_cap (Some r.1)) eqn:Ea; cbn [fst snd].
    + split; [by apply record_inv|]. split; [by apply (allow_limits _ _ r.1)|].
      intros t [Ht1 Ht2]%Forall_app. apply Forall_app. split; [by apply H3|done].
    + split; [done|]. split; [done|]. intros t [Ht1 Ht2]%Forall_app. by apply H3.
Qed.
(** * The stored text *)

(** Every field in the range of its C type, indices inside the ring. *)
Definition is_u32 (v : Z) : Prop := 0 <= v <= UINT32_MAX.
Record state_wf (st : budget_state) : Prop := {
  sw_last : is_u32 (last_reboot_s st);
  sw_length : length (reboot_s_ring st) = BB_SYSTEM_REBOOT_BUDGET_CAP_MAX;
  sw_ring : Forall is_u32 (reboot_s_ring st);
  sw_head : (ring_head st < BB_SYSTEM_REBOOT_BUDGET_CAP_MAX)%nat;
  sw_count : (ring_count st <= BB_SYSTEM_REBOOT_BUDGET_CAP_MAX)%nat
}.

Lemma zero_state_wf : state_wf zero_state.
Proof. split; [done|done|repeat (constructor; [done|]); constructor|by apply Nat.ltb_lt|by apply Nat.leb_le]. Qed.

Lemma record_wf st now : state_wf st -> is_u32 now -> state_wf (bb_system_reboot_budget_state_record st now).
Proof.
  intros [H1 H2 H3 H4 H5] Hn. unfold bb_system_reboot_budget_state_record. split; cbn [last_reboot_s reboot_s_ring ring_head ring_count].
  - done.
  - by rewrite length_insert.
  - by apply Forall_insert.
  - apply Nat.mod_upper_bound. done.
  - destruct (Nat.ltb_spec (ring_count st) BB_SYSTEM_REBOOT_BUDGET_CAP_MAX); lia.
Qed.

Definition ring_text (first : bool) (ring : list Z) : list byte :=
  match ring with
  | [] => []
  | ts :: rest => (if first then [x7c] else [x2c]) ++ dec_u64 ts ++ concat ((fun t => x2c :: dec_u64 t) <$> rest)
  end.
Definition header_text (st : budget_state) : list byte :=
  dec_u64 (last_reboot_s st) ++ [x7c] ++ dec_u64 (Z.of_nat (ring_head st)) ++ [x7c] ++ dec_u64 (Z.of_nat (ring_count st)).
Definition state_text (st : budget_state) : list byte := header_text st ++ ring_text true (reboot_s_ring st).

Lemma ring_text_cons first ts rest :
  ring_text first (ts :: rest) = ((if first then [x7c] else [x2c]) ++ dec_u64 ts) ++ ring_text false rest.
Proof. destruct first, rest; cbn; by rewrite ?app_nil_r. Qed.

Lemma append_piece_fits buf_len buf piece : (length (buf ++ piece) < buf_len)%nat ->
  append_piece buf_len buf piece = (true, buf ++ piece).
Proof. rewrite length_app. intros H. unfold append_piece. by rewrite (proj2 (Nat.leb_gt _ _)) by lia. Qed.

Lemma encode_ring_fits buf_len ring : forall first buf, (length (buf ++ ring_text first ring) < buf_len)%nat ->
  encode_ring buf_len first ring buf = (true, buf ++ ring_text first ring).
Proof.
  induction ring as [|ts ring IH]; intros first buf H; [by rewrite app_nil_r|].
  rewrite ring_text_cons in *. cbn [encode_ring].
  rewrite app_assoc in H |- *. rewrite append_piece_fits by (rewrite !length_app in *; lia).
  by apply IH.
Qed.

Lemma state_encode_fits st buf_len : (length (state_text st) < buf_len)%nat ->
  bb_system_reboot_budget_state_encode (Some st) true buf_len = (true, state_text st).
Proof.
  intros H. unfold bb_system_reboot_budget_state_encode. cbn [negb orb].
  destruct (Nat.eqb_spec buf_len 0); [lia|]. unfold state_text in H. fold (header_text st).
  rewrite append_piece_fits by (rewrite length_app in H; cbn [app]; lia). cbn [app].
  by apply encode_ring_fits.
Qed.

Lemma dec_u32_length v : is_u32 v -> (length (dec_u64 v) <= 10)%nat.
Proof. intros [H1 H2]. apply dec_u64_length_pow; [lia|]. unfold UINT32_MAX in H2. lia. Qed.

Lemma ring_text_length ring : forall first, Forall is_u32 ring -> (length (ring_text first ring) <= 11 * length ring)%nat.
Proof.
  induction ring as [|ts ring IH]; intros first H; [cbn; lia|]. inversion_clear H.
  rewrite ring_text_cons, !length_app. specialize (IH false H1). apply dec_u32_length in H0. destruct first; cbn [length]; lia.
Qed.

Lemma state_text_length st : state_wf st -> (length (state_text st) <= 125)%nat.
Proof.
  intros [H1 H2 H3 H4 H5]. unfold state_text, header_text. rewrite !length_app.
  pose proof (ring_text_length _ true H3) as Hr. rewrite H2 in Hr.
  pose proof (dec_u32_length _ H1). unfold BB_SYSTEM_REBOOT_BUDGET_CAP_MAX in *.
  pose proof (dec_u64_length_pow 1 (Z.of_nat (ring_head st)) ltac:(lia) ltac:(lia)).
  pose proof (dec_u64_length_pow 2 (Z.of_nat (ring_count st)) ltac:(lia) ltac:(lia)). cbn [length]. lia.
Qed.

Definition not_digit_first (l : list byte) : Prop := match l with c :: _ => is_digit c = false | [] => True end.

Lemma span_digits_app ds rest : Forall (fun b => is_digit b = true) ds -> not_digit_first rest ->
  span_digits (ds ++ rest) = (ds, rest).
Proof.
  intros H Hr. induction H as [|d ds Hd _ IH]; cbn [app span_digits]; [|by rewrite Hd, IH].
  destruct rest as [|c rest]; [done|]. cbn in Hr |- *. by rewrite Hr.
Qed.

(** A digit is neither white space nor a sign. *)
Lemma digit_start d l : is_digit d = true ->
  skip_space (d :: l) = d :: l /\ forall A (x y : list byte -> A) z, match d :: l with x2d :: r => x r | x2b :: r => y r | _ => z end = z.
Proof. intros H. destruct d; try discriminate H; split; reflexivity. Qed.

Lemma dec_u64_no_nul v : Forall (fun b => b <> x00) (dec_u64 v).
Proof. eapply Forall_impl; [apply dec_u64_digits|]. intros b H ->. discriminate H. Qed.

Section Roundtrip.
Context (unrepresentable : Z -> Z).

Lemma scan_u_dec v rest : is_u32 v -> not_digit_first rest -> scan_u unrepresentable (dec_u64 v ++ rest) = Some (v, rest).
Proof.
  intros Hv Hr. pose proof (dec_u64_digits v) as Hd. pose proof (span_digits_app _ rest Hd Hr) as Hs.
  pose proof (dec_u64_value v ltac:(unfold is_u32, UINT32_MAX in Hv; lia)) as Hval. pose proof (dec_u64_length v) as Hl.
  destruct (dec_u64 v) as [|d ds] eqn:E; [cbn in Hl; lia|]. inversion_clear Hd.
  unfold scan_u. rewrite <- app_comm_cons in Hs |- *. destruct (digit_start d (ds ++ rest) H) as [H1 H2]. rewrite H1, H2, Hs.
  rewrite Hval. destruct (Z.ltb_spec UINT32_MAX v); [unfold is_u32 in Hv; lia|done].
Qed.

Lemma decode_ring_text ring : Forall is_u32 ring -> forall ts, is_u32 ts ->
  decode_ring unrepresentable (S (length ring)) (dec_u64 ts ++ ring_text false ring) = Some (ts :: ring).
Proof.
  induction 1 as [|t ring Ht Hf IH]; intros ts Hts; cbn [length decode_ring].
  - by rewrite scan_u_dec.
  - rewrite ring_text_cons, <- app_assoc. rewrite scan_u_dec by done. cbn [app]. rewrite byte_eqb_refl.
    pose proof (IH t Ht) as E. cbn [length decode_ring] in E. by rewrite E.
Qed.

Lemma decode_state_text st : state_wf st ->
  bb_system_reboot_budget_state_decode unrepresentable (Some (state_text st)) = Some st.
Proof.
  intros [H1 H2 H3 H4 H5]. destruct st as [last ring head count].
  cbn [last_reboot_s reboot_s_ring ring_head ring_count] in H1, H2, H3, H4, H5. unfold BB_SYSTEM_REBOOT_BUDGET_CAP_MAX in *.
  destruct ring as [|ts ring]; [done|]. cbn in H2. inversion_clear H3.
  unfold state_text, header_text. cbn [last_reboot_s reboot_s_ring ring_head ring_count]. rewrite ring_text_cons, <- !app_assoc.
  set (tail := dec_u64 ts ++ ring_text false ring).
  unfold bb_system_reboot_budget_state_decode, scan_header. cbn [app].
  rewrite scan_u_dec by done. cbn [scan_bar]. rewrite byte_eqb_refl.
  rewrite scan_u_dec; [|unfold is_u32, UINT32_MAX; lia|done]. cbn [scan_bar]. rewrite byte_eqb_refl.
  rewrite scan_u_dec; [|unfold is_u32, UINT32_MAX; lia|done]. cbn [scan_bar]. rewrite byte_eqb_refl.
  match goal with |- context [(length ?s - length tail)%nat] => set (str := s) end.
  assert (exists pre, str = pre ++ tail /\ (0 < length pre)%nat) as (pre & -> & Hp).
  { exists (header_text (mk_budget last (ts :: ring) head count) ++ [x7c]). split; [|rewrite length_app; cbn; lia].
    unfold str, header_text. cbn [last_reboot_s ring_head ring_count]. by rewrite <- !app_assoc. }
  rewrite length_app, Nat.add_sub. destruct (Nat.eqb_spec (length pre) 0); [lia|].
  unfold BB_SYSTEM_REBOOT_BUDGET_CAP_MAX. destruct (Z.leb_spec (Z.of_nat 10) (Z.of_nat head)); [lia|].
  destruct (Z.ltb_spec (Z.of_nat 10) (Z.of_nat count)); [lia|]. cbn [orb].
  rewrite drop_app_length. unfold tail. replace 10%nat with (S (length ring)) by lia.
  rewrite decode_ring_text by done. by rewrite !Nat2Z.id.
Qed.

Hypothesis unrep_u32 : forall v, is_u32 (unrepresentable v).

Lemma digits_value_nonneg ds : Forall (fun b => is_digit b = true) ds -> 0 <= dec_value ds.
Proof.
  induction ds as [|d ds IH] using rev_ind; intros H; [done|]. apply Forall_app in H as [H Hd]. rewrite Forall_singleton in Hd.
  rewrite dec_value_snoc. apply is_digit_range in Hd. specialize (IH H). lia.
Qed.
Lemma span_digits_digits l : Forall (fun b => is_digit b = true) (span_digits l).1.
Proof.
  induction l as [|c l IH]; cbn; [constructor|]. destruct (is_digit c) eqn:E; [|constructor].
  destruct (span_digits l). by constructor.
Qed.

Lemma scan_u_range l v rest : scan_u unrepresentable l = Some (v, rest) -> is_u32 v.
Proof.
  unfold scan_u. destruct (match skip_space l with x2d :: _ => _ | _ => _ end) as [neg l2].
  pose proof (span_digits_digits l2) as Hd. destruct (span_digits l2) as [ds r]. cbn in Hd.
  destruct ds as [|d ds]; [done|]. apply digits_value_nonneg in Hd. set (x := dec_value (d :: ds)) in *. intros [= <- _].
  destruct (Z.ltb_spec UINT32_MAX x); [done|]. destruct neg; [|by unfold is_u32].
  pose proof (u32_range (- x)). unfold is_u32, UINT32_MAX. lia.
Qed.

Lemma decode_ring_wf left : forall p ring, decode_ring unrepresentable left p = Some ring ->
  length ring = left /\ Forall is_u32 ring.
Proof.
  induction left as [|left IH]; intros p ring; cbn [decode_ring]; [intros [= <-]; by split|].
  destruct (scan_u unrepresentable p) as [[ts rest]|] eqn:E; [|done]. apply scan_u_range in E.
  destruct left as [|left]; [intros [= <-]; split; [done|by constructor]|].
  destruct rest as [|c rest]; [done|]. destruct (Byte.eqb c x2c); [|done].
  destruct (decode_ring _ (S left) rest) as [r|] eqn:Er; [|done]. intros [= <-].
  destruct (IH _ _ Er) as [H1 H2]. split; [by cbn; rewrite H1|by constructor].
Qed.

Lemma scan_header_range str a b c n : scan_header unrepresentable str = ([a; b; c], n) -> is_u32 a /\ is_u32 b /\ is_u32 c.
Proof.
  unfold scan_header. intros H.
  repeat match type of H with
  | context [match ?e with _ => _ end] => let E := fresh "E" in destruct e as [[? ?]|] eqn:E; try discriminate H
  | context [match ?e with _ => _ end] => let E := fresh "E" in destruct e eqn:E; try discriminate H
  end; injection H as <- <- <- <-; split_and!; by eapply scan_u_range.
Qed.

Lemma decode_wf str st : bb_system_reboot_budget_state_decode unrepresentable str = Some st -> state_wf st.
Proof.
  unfold bb_system_reboot_budget_state_decode. destruct str as [str|]; [|done].
  destruct (scan_header unrepresentable str) as [l n] eqn:E.
  destruct l as [|a [|b [|c [|? ?]]]]; try done. apply scan_header_range in E as (Ha & Hb & Hc).
  destruct (n =? 0)%nat; [done|].
  destruct (Z.leb_spec (Z.of_nat BB_SYSTEM_REBOOT_BUDGET_CAP_MAX) b); [done|].
  destruct (Z.ltb_spec (Z.of_nat BB_SYSTEM_REBOOT_BUDGET_CAP_MAX) c); [done|]. cbn [orb].
  destruct (decode_ring _ _ _) as [ring|] eqn:Er; [|done]. intros [= <-]. apply decode_ring_wf in Er as [H1 H2].
  split; cbn; [done|done|done| |]; unfold is_u32 in *; lia.
Qed.
End Roundtrip.

(** * Properties *)

(** The stored form of a budget.  A state whose fields are in range is
    encoded into the 192-byte buffer as a text of at most 125 bytes without a
    NUL, and decoding gives that state back; whatever text is decoded, a state
    that is accepted has every field in range, so that recording never writes
    outside the ring. *)
Theorem budget_codec_roundtrip unrepresentable st text :
  (forall v, is_u32 (unrepresentable v)) ->
  (state_wf st -> exists t, bb_system_reboot_budget_state_encode (Some st) true BB_SYSTEM_REBOOT_BUDGET_STATE_STR_MAX = (true, t) /\
     (length t <= 125)%nat /\ bb_system_reboot_budget_state_decode unrepresentable (Some t) = Some st) /\
  (forall st', bb_system_reboot_budget_state_decode unrepresentable text = Some st' -> state_wf st').
Proof.
  intros Hu. split.
  - intros Hw. pose proof (state_text_length st Hw). exists (state_text st). split_and!; [|done|by apply decode_state_text].
    apply state_encode_fits. unfold BB_SYSTEM_REBOOT_BUDGET_STATE_STR_MAX. lia.
  - intros st'. by apply decode_wf.
Qed.

Definition wit_state : budget_state :=
  bb_system_reboot_budget_state_record (bb_system_reboot_budget_state_record zero_state 1000) 4294967295.
Lemma budget_codec_roundtrip_witness :
  bb_system_reboot_budget_state_encode (Some wit_state) true BB_SYSTEM_REBOOT_BUDGET_STATE_STR_MAX =
    (true, bs "4294967295|2|2|1000,4294967295,0,0,0,0,0,0,0,0") /\
  bb_system_reboot_budget_state_decode (fun _ => 7) (Some (bs "4294967295|2|2|1000,4294967295,0,0,0,0,0,0,0,0")) = Some wit_state.
Proof.
  assert (E : bb_system_reboot_budget_state_encode (Some wit_state) true BB_SYSTEM_REBOOT_BUDGET_STATE_STR_MAX =
    (true, bs "4294967295|2|2|1000,4294967295,0,0,0,0,0,0,0,0")) by (vm_compute; reflexivity).
  split; [exact E|].
  destruct (budget_codec_roundtrip (fun _ => 7) wit_state None) as [H _]; [intros _; split; cbv; discriminate|].
  destruct H as (t & Ht & _ & Hd).
  - apply record_wf; [apply record_wf; [apply zero_state_wf|]|]; split; cbv; discriminate.
  - rewrite E in Ht. injection Ht as <-. exact Hd.
Defined.
