(* ===== verification/RebootStore.v ===== *)
(** The reboot budget kept in storage, with its per-cause cache
    (components/bb_system/src/bb_system_reboot_budget.c, second half), over
    any backend that keeps what it is given; the RAM backend is one. *)
From Stdlib Require Import Strings.String.
From stdpp Require Import sorting.
From S2P Require Import Prelude Bytes Storage RebootBudget.

Definition BB_SYSTEM_REBOOT_BUDGET_NVS_NS : cstring := bs "bb_reboot".

(** [s_cache] with [s_loaded]: [None] is not loaded yet. *)
Definition budget_cache : Type := bb_reboot_cause_t -> option budget_state.
Definition cache_set (cause : bb_reboot_cause_t) (st : budget_state) (c : budget_cache) : budget_cache :=
  fun x => if decide (x = cause) then Some st else c x.

Definition key_of (cause : bb_reboot_cause_t) : option cstring := option_map bs (cause_key cause).

Section Store.
(** [backend]: BB_SYSTEM_REBOOT_BUDGET_BACKEND; [reg]: what is registered. *)
Context {W : Type} (backend : cstring) (reg : registry (W := W)) (unrepresentable : Z -> Z).

Definition budget_addr (key : cstring) : addr := mk_addr (Some backend) (Some BB_SYSTEM_REBOOT_BUDGET_NVS_NS) (Some key).

(** [junk]: the bytes the stack buffer holds beyond what was read into it. *)
Definition reboot_budget_load (cause : bb_reboot_cause_t) (junk : list byte) (w : W) : budget_state :=
  match key_of cause with
  | None => zero_state
  | Some key =>
      let '(err, bytes, out_len) :=
        bb_storage_get reg (Some (budget_addr key)) true BB_SYSTEM_REBOOT_BUDGET_STATE_STR_MAX true w in
      let n := default 0%nat out_len in
      if negb (is_ok err) || (n =? 0)%nat || (BB_SYSTEM_REBOOT_BUDGET_STATE_STR_MAX <? n)%nat then zero_state else
      let buf := take (BB_SYSTEM_REBOOT_BUDGET_STATE_STR_MAX - 1) (bytes ++ junk) ++ [x00] in
      default zero_state (bb_system_reboot_budget_state_decode unrepresentable (Some (cstr buf)))
  end.

Definition reboot_budget_save (cause : bb_reboot_cause_t) (st : budget_state) (w : W) : W :=
  match key_of cause with
  | None => w
  | Some key =>
      let '(ok, buf) := bb_system_reboot_budget_state_encode (Some st) true BB_SYSTEM_REBOOT_BUDGET_STATE_STR_MAX in
      if ok : bool
      then (bb_storage_set reg (Some (budget_addr key)) (Some (buf ++ [x00])) (length buf + 1) w).2
      else w
  end.

Definition cause_valid (cause : bb_reboot_cause_t) : bool := is_some (cause_key cause).

(** The module's statics and what is behind the storage. *)
Record sys := mk_sys { s_cache : budget_cache; s_store : W }.

Definition cache_get (cause : bb_reboot_cause_t) (junk : list byte) (s : sys) : option budget_state * sys :=
  if negb (cause_valid cause) then (None, s) else
  match s_cache s cause with
  | Some st => (Some st, s)
  | None =>
      let st := reboot_budget_load cause junk (s_store s) in
      (Some st, mk_sys (cache_set cause st (s_cache s)) (s_store s))
  end.

Definition bb_system_reboot_budget_allows_at (cause : bb_reboot_cause_t) (synced : bool) (now_s : Z) (junk : list byte)
    (s : sys) : bool * sys :=
  if negb synced then (true, s) else
  let '(st, s1) := cache_get cause junk s in
  (bb_system_reboot_budget_should_allow now_s BB_SYSTEM_REBOOT_BUDGET_MIN_INTERVAL_S BB_SYSTEM_REBOOT_BUDGET_DAILY_CAP
     (Some (default zero_state st)), s1).

Definition bb_system_reboot_budget_record_at (cause : bb_reboot_cause_t) (synced : bool) (now_s : Z) (junk : list byte)
    (s : sys) : sys :=
  if negb synced then s else
  let '(st, s1) := cache_get cause junk s in
  match st with
  | None => s1
  | Some st =>
      let st1 := bb_system_reboot_budget_state_record st now_s in
      mk_sys (cache_set cause st1 (s_cache s1)) (reboot_budget_save cause st1 (s_store s1))
  end.

(** The statics of a fresh boot; the storage is what the last boot left. *)
Definition power_cycle (s : sys) : sys := mk_sys (fun _ => None) (s_store s).

(** A recovery consumer that asks and, when allowed, records before it
    reboots; and power cycles at any moment. *)
Inductive recovery_event : Type :=
  | WantReboot (cause : bb_reboot_cause_t) (synced : bool) (now_s : Z) (junk : list byte)
  | PowerCycle.

(** The state, and the synced reboots granted so far, oldest first. *)
Definition recovery_step (r : sys * list (bb_reboot_cause_t * Z)) (e : recovery_event) : sys * list (bb_reboot_cause_t * Z) :=
  match e with
  | WantReboot cause synced now_s junk =>
      let '(ok, s1) := bb_system_reboot_budget_allows_at cause synced now_s junk r.1 in
      if ok : bool
      then (bb_system_reboot_budget_record_at cause synced now_s junk s1, if synced then r.2 ++ [(cause, now_s)] else r.2)
      else (s1, r.2)
  | PowerCycle => (power_cycle r.1, r.2)
  end.
Definition recovery_run (evs : list recovery_event) (s : sys) : sys * list (bb_reboot_cause_t * Z) :=
  fold_left recovery_step evs (s, []).

Definition granted_to (cause : bb_reboot_cause_t) (l : list (bb_reboot_cause_t * Z)) : list Z :=
  omap (fun g => if decide (g.1 = cause) then Some g.2 else None) l.
Definition asked_at (e : recovery_event) : option Z :=
  match e with WantReboot _ true now_s _ => Some now_s | _ => None end.

(** ** What the budget needs of the storage *)

(** A value of at most 192 bytes written under a budget key is accepted and
    read back; the other key's value stays. *)
Class BudgetStore (ready : W -> Prop) : Prop := {
  store_set cause key v w : key_of cause = Some key -> ready w ->
    (length v <= BB_SYSTEM_REBOOT_BUDGET_STATE_STR_MAX)%nat ->
    let r := bb_storage_set reg (Some (budget_addr key)) (Some v) (length v) w in
    ready r.2 /\
    bb_storage_get reg (Some (budget_addr key)) true BB_SYSTEM_REBOOT_BUDGET_STATE_STR_MAX true r.2 = (BB_OK, v, Some (length v)) /\
    forall cause' key', key_of cause' = Some key' -> cause' <> cause ->
      bb_storage_get reg (Some (budget_addr key')) true BB_SYSTEM_REBOOT_BUDGET_STATE_STR_MAX true r.2 =
      bb_storage_get reg (Some (budget_addr key')) true BB_SYSTEM_REBOOT_BUDGET_STATE_STR_MAX true w
}.

Context (ready : W -> Prop) `{!BudgetStore ready}.

Lemma state_text_no_nul st : Forall (fun b => b <> x00) (state_text st).
Proof.
  unfold state_text, header_text. rewrite !Forall_app. split_and!; try apply dec_u64_no_nul; try (by repeat constructor).
  generalize true. induction (reboot_s_ring st) as [|ts ring IH]; intros f; [constructor|].
  rewrite ring_text_cons, !Forall_app. split_and!; [destruct f; by repeat constructor|apply dec_u64_no_nul|apply IH].
Qed.

Lemma load_saved cause key st junk w : key_of cause = Some key -> state_wf st -> ready w ->
  ready (reboot_budget_save cause st w) /\
  reboot_budget_load cause junk (reboot_budget_save cause st w) = st /\
  forall cause' junk', cause' <> cause ->
    reboot_budget_load cause' junk' (reboot_budget_save cause st w) = reboot_budget_load cause' junk' w.
Proof.
  intros Hk Hw Hr. pose proof (state_text_length st Hw) as Hl. unfold reboot_budget_save. rewrite Hk.
  rewrite state_encode_fits by (unfold BB_SYSTEM_REBOOT_BUDGET_STATE_STR_MAX; lia).
  assert (Hlen : length (state_text st ++ [x00]) = (length (state_text st) + 1)%nat) by (by rewrite length_app).
  destruct (store_set cause key (state_text st ++ [x00]) w Hk Hr) as (H1 & H2 & H3);
    [unfold BB_SYSTEM_REBOOT_BUDGET_STATE_STR_MAX; lia|].
  rewrite Hlen in H1, H2, H3. split_and!; [done| |].
  - unfold reboot_budget_load. rewrite Hk, H2. cbn [is_ok negb orb default from_option]. unfold id.
    destruct (Nat.eqb_spec (length (state_text st) + 1) 0); [lia|].
    destruct (Nat.ltb_spec BB_SYSTEM_REBOOT_BUDGET_STATE_STR_MAX (length (state_text st) + 1)).
    { unfold BB_SYSTEM_REBOOT_BUDGET_STATE_STR_MAX in *; lia. }
    cbn [orb]. rewrite <- app_assoc. cbn [app]. rewrite take_app_ge by (unfold BB_SYSTEM_REBOOT_BUDGET_STATE_STR_MAX; lia).
    destruct (BB_SYSTEM_REBOOT_BUDGET_STATE_STR_MAX - 1 - length (state_text st))%nat as [|m] eqn:Em.
    { unfold BB_SYSTEM_REBOOT_BUDGET_STATE_STR_MAX in *; lia. }
    cbn [take]. rewrite <- app_assoc. cbn [app]. rewrite cstr_nul by apply state_text_no_nul.
    by rewrite decode_state_text.
  - intros cause' junk' Hne. unfold reboot_budget_load. destruct (key_of cause') as [key'|] eqn:Ek; [|done].
    by rewrite (H3 cause' key' Ek Hne).
Qed.

(** The state stored for a cause, whatever the cache holds of it. *)
Record cause_inv (s : sys) (cause : bb_reboot_cause_t) (st : budget_state) (granted : list Z) : Prop := {
  ci_load junk : reboot_budget_load cause junk (s_store s) = st;
  ci_cache : s_cache s cause = None \/ s_cache s cause = Some st;
  ci_wf : state_wf st;
  ci_ring : ring_inv st granted;
  ci_limited : limited BB_SYSTEM_REBOOT_BUDGET_MIN_INTERVAL_S BB_SYSTEM_REBOOT_BUDGET_DAILY_CAP granted
}.
Definition sys_inv (s : sys) (grants : list (bb_reboot_cause_t * Z)) : Prop :=
  ready (s_store s) /\
  forall cause, cause_valid cause = true -> exists st, cause_inv s cause st (granted_to cause grants).

Lemma valid_key cause : cause_valid cause = true -> exists key, key_of cause = Some key.
Proof. unfold cause_valid, key_of. destruct (cause_key cause); [cbn; eauto|done]. Qed.

Lemma cache_set_eq cause st c : cache_set cause st c cause = Some st.
Proof. unfold cache_set. by rewrite decide_True. Qed.
Lemma cache_set_ne cause cause' st c : cause' <> cause -> cache_set cause st c cause' = c cause'.
Proof. intros H. unfold cache_set. by rewrite decide_False. Qed.

Lemma cache_get_inv s cause st granted junk : cause_valid cause = true -> cause_inv s cause st granted ->
  exists s1, cache_get cause junk s = (Some st, s1) /\ s_store s1 = s_store s /\ s_cache s1 cause = Some st /\
    forall cause', cause' <> cause -> s_cache s1 cause' = s_cache s cause'.
Proof.
  intros Hv [Hl Hc _ _ _]. unfold cache_get. rewrite Hv. cbn [negb]. destruct Hc as [Hc|Hc]; rewrite Hc.
  - rewrite Hl. eexists. split; [reflexivity|]. cbn [s_store s_cache]. split_and!; [done|apply cache_set_eq|]. intros c Hne. by apply cache_set_ne.
  - by exists s.
Qed.

(** Reads fill the cache and change nothing else. *)
Lemma cached_inv s s1 grants : sys_inv s grants -> s_store s1 = s_store s ->
  (forall cause st granted, cause_inv s cause st granted -> s_cache s1 cause = None \/ s_cache s1 cause = Some st) ->
  sys_inv s1 grants.
Proof.
  intros [Hr Hi] Hs Hc. split; [by rewrite Hs|]. intros cause Hv. destruct (Hi cause Hv) as [st H]. exists st.
  pose proof (Hc cause st _ H). destruct H. split; try done. intros junk. by rewrite Hs.
Qed.

Lemma granted_to_app cause l l' : granted_to cause (l ++ l') = granted_to cause l ++ granted_to cause l'.
Proof. apply omap_app. Qed.

Definition upto (t : Z) (grants : list (bb_reboot_cause_t * Z)) : Prop := Forall (fun g => g.2 <= t) grants.
Lemma upto_granted t cause grants : upto t grants -> Forall (fun g => g <= t) (granted_to cause grants).
Proof.
  unfold upto, granted_to. rewrite !Forall_forall. intros H x (g & Hg & Hx)%list_elem_of_omap.
  case_decide; [|done]. injection Hx as <-. by apply H.
Qed.

(** An invalid cause touches nothing. *)
Lemma invalid_grant cause now grants : cause_valid cause = false -> forall c, cause_valid c = true ->
  granted_to c (grants ++ [(cause, now)]) = granted_to c grants.
Proof.
  intros Hv c Hc. rewrite granted_to_app. unfold granted_to at 2. cbn. rewrite decide_False; [by rewrite app_nil_r|].
  intros ->. by rewrite Hv in Hc.
Qed.

Lemma granting_inv s s1 grants cause st now junk :
  cause_valid cause = true -> is_u32 now -> upto now grants -> sys_inv s1 grants ->
  cause_inv s1 cause st (granted_to cause grants) -> s_cache s1 cause = Some st ->
  bb_system_reboot_budget_should_allow now BB_SYSTEM_REBOOT_BUDGET_MIN_INTERVAL_S BB_SYSTEM_REBOOT_BUDGET_DAILY_CAP (Some st) = true ->
  s = bb_system_reboot_budget_record_at cause true now junk s1 ->
  sys_inv s (grants ++ [(cause, now)]).
Proof.
  intros Hv Hn Hu [Hr Hi] Hc Hcache Hallow ->. destruct (cache_get_inv s1 cause st _ junk Hv Hc) as (s2 & E & Hs & H2 & H3).
  destruct (valid_key cause Hv) as [key Hk].
  unfold bb_system_reboot_budget_record_at. cbn [negb]. rewrite E. set (st1 := bb_system_reboot_budget_state_record st now).
  assert (Hw : state_wf st1) by (apply record_wf; [apply Hc|done]). rewrite Hs.
  destruct (load_saved cause key st1 junk (s_store s1) Hk Hw Hr) as (L1 & _ & L3).
  split; [done|]. intros c Hvc. rewrite granted_to_app. unfold granted_to at 2. cbn [omap list_omap fst snd].
  destruct (decide (c = cause)) as [->|Hne].
  - rewrite decide_True by done. exists st1. split; cbn [s_store s_cache].
    + intros j. by apply (load_saved cause key st1 j (s_store s1) Hk Hw Hr).
    + right. apply cache_set_eq.
    + done.
    + apply record_inv, Hc.
    + eapply allow_limits; [apply Hc|apply Hc|by apply upto_granted| |done]. cbv; lia.
  - rewrite decide_False by done. rewrite app_nil_r. destruct (Hi c Hvc) as [st' [I1 I2 I3 I4 I5]]. exists st'.
    split; cbn [s_store s_cache]; try done.
    + intros j. rewrite L3 by done. apply I1.
    + rewrite cache_set_ne by done. by rewrite H3.
Qed.

Lemma step_inv s grants e :
  sys_inv s grants -> (forall t, asked_at e = Some t -> is_u32 t /\ upto t grants) ->
  sys_inv (recovery_step (s, grants) e).1 (recovery_step (s, grants) e).2.
Proof.
  intros Hi Ha. destruct e as [cause synced now junk|]; cbn [recovery_step fst snd].
  2:{ destruct Hi as [Hr Hi]. split; [done|]. intros cause Hv. destruct (Hi cause Hv) as [st [I1 I2 I3 I4 I5]].
      exists st. split; try done. by left. }
  unfold bb_system_reboot_budget_allows_at. destruct synced; cbn [negb]; [|done].
  destruct (Ha now eq_refl) as [Hn Hu]. destruct (cause_valid cause) eqn:Hv.
  - destruct (proj2 Hi cause Hv) as [st Hc]. destruct (cache_get_inv s cause st _ junk Hv Hc) as (s1 & E & Hs & H2 & H3).
    rewrite E. cbn [default from_option]. unfold id.
    assert (Hi1 : sys_inv s1 grants).
    { apply (cached_inv s); [done|done|]. intros c st' g [C1 C2 _ _ _]. destruct (decide (c = cause)) as [->|Hne].
      - right. rewrite H2. f_equal. destruct Hc as [D1 _ _ _ _]. by rewrite <- (D1 []), <- (C1 []).
      - by rewrite H3. }
    destruct (bb_system_reboot_budget_should_allow _ _ _ _) eqn:Eal; cbn [fst snd]; [|done].
    eapply (granting_inv _ s1 grants cause st now junk); try done.
    destruct (proj2 Hi1 cause Hv) as [st' Hc']. destruct Hc as [D1 D2 D3 D4 D5].
    split; try done; [|by right]. intros j. by rewrite Hs.
  - unfold cache_get. rewrite Hv. cbn [negb default from_option]. unfold id.
    destruct (bb_system_reboot_budget_should_allow _ _ _ _); cbn [fst snd]; [|done].
    unfold bb_system_reboot_budget_record_at, cache_get. rewrite Hv. cbn [negb]. destruct Hi as [Hr Hi]. split; [done|].
    intros c Hvc. rewrite invalid_grant by done. by apply Hi.
Qed.

Lemma step_upto s grants e t : upto t grants -> (forall x, asked_at e = Some x -> x <= t) -> upto t (recovery_step (s, grants) e).2.
Proof.
  intros Hu Hx. destruct e as [cause synced now junk|]; cbn [recovery_step fst snd]; [|done].
  destruct (bb_system_reboot_budget_allows_at _ _ _ _ _) as [[] s1]; cbn [fst snd]; [|done].
  destruct synced; [|done]. apply Forall_app. split; [done|]. apply Forall_singleton. by apply Hx.
Qed.

Lemma run_inv evs s : sys_inv s [] -> StronglySorted Z.le (omap asked_at evs) -> Forall is_u32 (omap asked_at evs) ->
  sys_inv (recovery_run evs s).1 (recovery_run evs s).2 /\
  forall t, Forall (fun x => x <= t) (omap asked_at evs) -> upto t (recovery_run evs s).2.
Proof.
  intros Hi. induction evs as [|e evs IH] using rev_ind; intros Hs Hf; [split; [done|constructor]|].
  rewrite omap_app in Hs, Hf. apply StronglySorted_app in Hs as (Hx & Hs & _). apply Forall_app in Hf as [Hf Hfe].
  destruct (IH Hs Hf) as [H1 H2]. unfold recovery_run. rewrite fold_left_app. fold (recovery_run evs s).
  destruct (recovery_run evs s) as [s1 grants]. cbn [fst snd fold_left] in *.
  assert (Hin : forall x, asked_at e = Some x -> x ∈ omap asked_at [e]).
  { intros x E. apply list_elem_of_omap. exists e. split; [by apply list_elem_of_singleton|done]. }
  split.
  - apply step_inv; [done|]. intros t Et. split.
    + rewrite Forall_forall in Hfe. by apply Hfe, Hin.
    + apply H2. apply Forall_forall. intros x Hxe. apply Hx; [done|by apply Hin].
  - intros t Ht. rewrite omap_app in Ht. apply Forall_app in Ht as [Ht Hte]. apply step_upto; [by apply H2|].
    intros x E. rewrite Forall_forall in Hte. by apply Hte, Hin.
Qed.

Lemma fresh_inv s : ready (s_store s) -> (forall c, s_cache s c = None) ->
  (forall cause junk, cause_valid cause = true -> reboot_budget_load cause junk (s_store s) = zero_state) -> sys_inv s [].
Proof.
  intros Hr Hc Hl. split; [done|]. intros cause Hv. exists zero_state. split.
  - intros junk. by apply Hl.
  - by left.
  - apply zero_state_wf.
  - apply zero_inv.
  - split; [constructor|done|cbn; lia].
Qed.
End Store.

(** * The RAM backend is such a storage *)

Definition budget_keys : gset cstring := {[bs "budget_wifi"; bs "budget_egress"]}.
(** Room for both keys. *)
Definition ram_ready (es : ram_entries) : Prop :=
  ram_wf es /\ (size (dom (store_of es) ∪ budget_keys) <= BB_STORAGE_RAM_MAX_ENTRIES)%nat.

Lemma key_of_budget cause key : key_of cause = Some key -> key ∈ budget_keys /\ (length key < 32)%nat.
Proof. unfold budget_keys. destruct cause; cbn; intros [= <-]; (split; [set_solver|cbn; lia]). Qed.

Lemma key_of_inj cause cause' key : key_of cause = Some key -> key_of cause' = Some key -> cause = cause'.
Proof. destruct cause, cause'; cbn; try done; intros <-; done. Qed.

#[export] Instance ram_budget_store : BudgetStore (bs "ram") ram_registry ram_ready.
Proof.
  split. intros cause key v w Hk [Hw Hroom] Hlen. pose proof (key_of_budget _ _ Hk) as [Hin Hkl].
  unfold bb_storage_set, bb_storage_get. rewrite !resolve_ram. cbn [a_backend budget_addr is_some]. rewrite !orb_true_r.
  cbn [negb andb]. rewrite !decide_True by done. cbn [vt_set vt_get s_ram_vtable default from_option]. unfold id. rewrite firstn_all.
  destruct (ram_set_spec (budget_addr (bs "ram") key) v w Hw) as [Hw1 Hs].
  destruct (ram_set (budget_addr (bs "ram") key) v w) as [e w1]. cbn [fst snd] in *.
  unfold spec_set in Hs. cbn [a_key budget_addr] in Hs.
  destruct (Nat.leb_spec BB_STORAGE_RAM_MAX_KEY_BYTES (length key)); [unfold BB_STORAGE_RAM_MAX_KEY_BYTES in *; lia|].
  destruct (Nat.ltb_spec BB_STORAGE_RAM_MAX_VALUE_BYTES (length v)).
  { unfold BB_STORAGE_RAM_MAX_VALUE_BYTES, BB_SYSTEM_REBOOT_BUDGET_STATE_STR_MAX in *. lia. }
  assert (Hdom : dom (<[key:=v]> (store_of w)) ∪ budget_keys = dom (store_of w) ∪ budget_keys).
  { rewrite dom_insert_L. apply set_eq. intros x. rewrite !elem_of_union, elem_of_singleton.
    split; [intros [[->|?]|?]; auto|intros [?|?]; auto]. }
  rewrite decide_True in Hs.
  2:{ unfold fits_store. rewrite <- size_dom. etransitivity; [|exact Hroom]. rewrite <- Hdom. apply subseteq_size, union_subseteq_l. }
  injection Hs as -> Hs. split_and!.
  - split; [done|]. by rewrite Hs, Hdom.
  - rewrite ram_get_spec by done. unfold spec_get. cbn [a_key budget_addr]. rewrite Hs, lookup_insert_eq.
    by rewrite take_ge by done.
  - intros cause' key' Hk' Hne. rewrite !resolve_ram. cbn [a_backend budget_addr]. cbn [negb]. rewrite !decide_True by done.
    cbn [vt_get s_ram_vtable]. rewrite !ram_get_spec by done. unfold spec_get. cbn [a_key budget_addr]. rewrite Hs.
    rewrite lookup_insert_ne; [done|]. intros <-. by apply Hne, (key_of_inj _ _ key).
Qed.

(** * Properties *)


Definition wit_evs : list recovery_event :=
  [WantReboot BB_REBOOT_CAUSE_WIFI_SAFEGUARD true 5000 []; PowerCycle;
   WantReboot BB_REBOOT_CAUSE_WIFI_SAFEGUARD true 6000 []; WantReboot BB_REBOOT_CAUSE_EGRESS_TIER3 true 6000 []; PowerCycle;
   WantReboot BB_REBOOT_CAUSE_WIFI_SAFEGUARD true 7000 []; WantReboot BB_REBOOT_CAUSE_WIFI_SAFEGUARD false 0 []].

