(* ===== verification/RebootReason.v ===== *)
(** Why the device restarted: the record a restart leaves behind, the ring of
    the last boots (components/bb_core/src/bb_reboot_reason.c), how a restart
    saves the one (components/bb_system/src/bb_system_reboot_record.c,
    platform/espidf/bb_system/bb_system.c) and how the next boot reads it and
    extends the other (platform/espidf/bb_diag_http/bb_diag_http_routes.c). *)
From Stdlib Require Import Strings.String.
From S2P Require Import Prelude Bytes Num Str Storage Config RebootBudget.
Local Open Scope Z_scope.

(** * Reasons *)

Inductive bb_reset_source_t : Set :=
  | BB_RESET_SRC_UNKNOWN | BB_RESET_SRC_API_REBOOT | BB_RESET_SRC_FACTORY_RESET | BB_RESET_SRC_WIFI_SAFEGUARD
  | BB_RESET_SRC_WIFI_COLD_TIMEOUT | BB_RESET_SRC_WIFI_PENDING_REVERT | BB_RESET_SRC_WIFI_RECONFIGURE
  | BB_RESET_SRC_EGRESS_TIER3 | BB_RESET_SRC_OTA_PULL_APPLIED | BB_RESET_SRC_OTA_PUSH_APPLIED
  | BB_RESET_SRC_OTA_BOOT_APPLY | BB_RESET_SRC_OTA_BOOT_DONE | BB_RESET_SRC_OTA_BOOT_ABORT
  | BB_RESET_SRC_WIFI_PROVISIONED.
(** The value an enumerator has, which is what is stored. *)
Definition src_value (src : bb_reset_source_t) : Z :=
  match src with
  | BB_RESET_SRC_UNKNOWN => 0 | BB_RESET_SRC_API_REBOOT => 1 | BB_RESET_SRC_FACTORY_RESET => 2
  | BB_RESET_SRC_WIFI_SAFEGUARD => 3 | BB_RESET_SRC_WIFI_COLD_TIMEOUT => 4 | BB_RESET_SRC_WIFI_PENDING_REVERT => 5
  | BB_RESET_SRC_WIFI_RECONFIGURE => 6 | BB_RESET_SRC_EGRESS_TIER3 => 7 | BB_RESET_SRC_OTA_PULL_APPLIED => 8
  | BB_RESET_SRC_OTA_PUSH_APPLIED => 9 | BB_RESET_SRC_OTA_BOOT_APPLY => 10 | BB_RESET_SRC_OTA_BOOT_DONE => 11
  | BB_RESET_SRC_OTA_BOOT_ABORT => 12 | BB_RESET_SRC_WIFI_PROVISIONED => 13
  end.
Definition BB_RESET_SRC__COUNT : Z := 14.

Definition bb_reset_source_str (src : Z) : String.string :=
  match src with
  | 1 => "api_reboot" | 2 => "factory_reset" | 3 => "wifi_safeguard" | 4 => "wifi_cold_timeout"
  | 5 => "wifi_pending_revert" | 6 => "wifi_reconfigure" | 7 => "egress_tier3" | 8 => "ota_pull_applied"
  | 9 => "ota_push_applied" | 10 => "ota_boot_apply" | 11 => "ota_boot_done" | 12 => "ota_boot_abort"
  | 13 => "wifi_provisioned" | _ => "unknown"
  end%string.

(** * The record of one restart *)

(** [rr_detail] is the array of [DETAIL] bytes, NUL and what follows included. *)
Definition DETAIL : nat := 49.
Record bb_reboot_record := mk_record { rr_src : Z; rr_detail : list byte; rr_epoch_s : Z; rr_uptime_s : Z }.
Definition BB_REBOOT_RECORD_STR_MAX : nat := 96.

(** [memchr] for the bar: what is before it. *)
Fixpoint before_bar (l : list byte) : list byte :=
  match l with [] => [] | c :: l => if Byte.eqb c x7c then [] else c :: before_bar l end.

(** The result, and the text in the buffer. *)
Definition bb_reboot_record_encode (r : option bb_reboot_record) (buf_ok : bool) (buf_len : nat) : bool * list byte :=
  match r with
  | Some r =>
      if negb buf_ok || (buf_len =? 0)%nat then (false, []) else
      let detail := before_bar (strn DETAIL (rr_detail r)) in
      let dlen := if (DETAIL <=? length detail)%nat then (DETAIL - 1)%nat else length detail in
      append_piece buf_len [] (dec_u64 (rr_src r) ++ [x7c] ++ dec_u64 (rr_epoch_s r) ++ [x7c] ++
        dec_u64 (rr_uptime_s r) ++ [x7c] ++ take dlen detail)
  | None => (false, [])
  end.

Definition bb_reboot_pick_epoch (ntp_synced : bool) (device_epoch_s caller_epoch_s floor_s : Z) : Z :=
  if ntp_synced && (floor_s <=? device_epoch_s) then device_epoch_s else
  if floor_s <=? caller_epoch_s then caller_epoch_s else 0.
Definition BB_REBOOT_EPOCH_FLOOR_S : Z := 1704067200.

(** A C string into an array that was zeroed. *)
Definition into_array (n : nat) (text : list byte) : list byte := text ++ repeat x00 (n - length text).
Definition starts_with_digit (str : list byte) : bool := match str with c :: _ => is_digit c | [] => false end.

Section Decode.
(** What %u stores for a number too big for it. *)
Context (unrepresentable : Z -> Z).

Definition bb_reboot_record_decode (str : option (list byte)) : option bb_reboot_record :=
  match str with
  | None => None
  | Some str =>
      if negb (starts_with_digit str) then None else
      match scan_header unrepresentable str with
      | ([src_field; epoch_field; uptime_field], consumed) =>
          if (consumed =? 0)%nat then None else
          if BB_RESET_SRC__COUNT <=? src_field then None else
          let detail_start := drop consumed str in
          let detail_len := if (DETAIL <=? length detail_start)%nat then (DETAIL - 1)%nat else length detail_start in
          Some (mk_record src_field (into_array DETAIL (take detail_len detail_start)) epoch_field uptime_field)
      | _ => None
      end
  end.

(** * The ring of the last boots *)

Definition BB_REBOOT_HISTORY_CAP : nat := 8.
Definition BB_REBOOT_HISTORY_STR_MAX : nat := 256.
Record bb_reboot_hist_entry := mk_entry { he_src : Z; he_epoch_s : Z; he_uptime_s : Z }.
Record bb_reboot_history := mk_history { h_entries : list bb_reboot_hist_entry; h_head : nat; h_count : nat }.
Definition entry0 : bb_reboot_hist_entry := mk_entry 0 0 0.
Definition history0 : bb_reboot_history := mk_history (repeat entry0 BB_REBOOT_HISTORY_CAP) 0 0.

Definition bb_reboot_history_push (h : option bb_reboot_history) (e : option bb_reboot_hist_entry) : option bb_reboot_history :=
  match h, e with
  | Some h, Some e =>
      if (h_count h <? BB_REBOOT_HISTORY_CAP)%nat then
        let idx := ((h_head h + h_count h) mod BB_REBOOT_HISTORY_CAP)%nat in
        Some (mk_history (<[idx := e]> (h_entries h)) (h_head h) (S (h_count h)))
      else
        Some (mk_history (<[h_head h := e]> (h_entries h)) ((h_head h + 1) mod BB_REBOOT_HISTORY_CAP) (h_count h))
  | _, _ => h
  end.

Definition entry_text (e : bb_reboot_hist_entry) : list byte :=
  dec_u64 (he_src e) ++ [x2c] ++ dec_u64 (he_epoch_s e) ++ [x2c] ++ dec_u64 (he_uptime_s e).
Fixpoint encode_entries (buf_len : nat) (first : bool) (es : list bb_reboot_hist_entry) (buf : list byte) : bool * list byte :=
  match es with
  | [] => (true, buf)
  | e :: es =>
      let '(ok, buf) := append_piece buf_len buf ((if first then [] else [x3b]) ++ entry_text e) in
      if ok then encode_entries buf_len false es buf else (false, buf)
  end.
Definition bb_reboot_history_encode (h : option bb_reboot_history) (buf_ok : bool) (buf_len : nat) : bool * list byte :=
  match h with
  | Some h =>
      if negb buf_ok || (buf_len =? 0)%nat then (false, []) else
      let '(ok, buf) := append_piece buf_len []
        (dec_u64 (Z.of_nat (h_head h)) ++ [x7c] ++ dec_u64 (Z.of_nat (h_count h)) ++ [x7c]) in
      if ok then encode_entries buf_len true (h_entries h) buf else (false, buf)
  | None => (false, [])
  end.

(** [sscanf(str, "%u|%u|%n", ...)] *)
Definition scan_pair (str : list byte) : list Z * nat :=
  match scan_u unrepresentable str with
  | None => ([], 0%nat)
  | Some (a, r1) =>
      match scan_bar r1 with
      | None => ([a], 0%nat)
      | Some r1 =>
          match scan_u unrepresentable r1 with
          | None => ([a], 0%nat)
          | Some (b, r2) =>
              match scan_bar r2 with
              | None => ([a; b], 0%nat)
              | Some r2 => ([a; b], (length str - length r2)%nat)
              end
          end
      end
  end.
Definition scan_comma (l : list byte) : option (list byte) :=
  match l with c :: rest => if Byte.eqb c x2c then Some rest else None | [] => None end.
(** [sscanf(p, "%u,%u,%u%n", ...) == 3]: the fields and what follows. *)
Definition scan_entry (p : list byte) : option (bb_reboot_hist_entry * list byte) :=
  match scan_u unrepresentable p with
  | None => None
  | Some (a, r1) =>
      match scan_comma r1 with
      | None => None
      | Some r1 =>
          match scan_u unrepresentable r1 with
          | None => None
          | Some (b, r2) =>
              match scan_comma r2 with
              | None => None
              | Some r2 =>
                  match scan_u unrepresentable r2 with
                  | None => None
                  | Some (c, rest) => Some (mk_entry a b c, rest)
                  end
              end
          end
      end
  end.
(** The loop over the slots, [n] of them to go. *)
Fixpoint decode_entries (n : nat) (p : list byte) : option (list bb_reboot_hist_entry) :=
  match n with
  | O => Some []
  | S n =>
      match scan_entry p with
      | None => None
      | Some (e, p) =>
          if BB_RESET_SRC__COUNT <=? he_src e then None else
          match n with
          | O => Some [e]
          | S _ =>
              match p with
              | c :: p => if Byte.eqb c x3b then option_map (cons e) (decode_entries n p) else None
              | [] => None
              end
          end
      end
  end.
Definition bb_reboot_history_decode (str : option (list byte)) : option bb_reboot_history :=
  match str with
  | None => None
  | Some str =>
      if negb (starts_with_digit str) then None else
      match scan_pair str with
      | ([head_field; count_field], consumed) =>
          if (consumed =? 0)%nat then None else
          if (Z.of_nat BB_REBOOT_HISTORY_CAP <=? head_field) || (Z.of_nat BB_REBOOT_HISTORY_CAP <? count_field) then None else
          match decode_entries BB_REBOOT_HISTORY_CAP (drop consumed str) with
          | None => None
          | Some es => Some (mk_history es (Z.to_nat head_field) (Z.to_nat count_field))
          end
      | _ => None
      end
  end.
End Decode.

(** * Saving it and reading it back *)

Inductive bb_reset_reason_t : Set :=
  | BB_RESET_REASON_UNKNOWN | BB_RESET_REASON_POWERON | BB_RESET_REASON_EXT | BB_RESET_REASON_SW | BB_RESET_REASON_PANIC
  | BB_RESET_REASON_INT_WDT | BB_RESET_REASON_TASK_WDT | BB_RESET_REASON_WDT | BB_RESET_REASON_DEEPSLEEP
  | BB_RESET_REASON_BROWNOUT | BB_RESET_REASON_SDIO.
#[export] Instance reset_reason_eq_dec : EqDecision bb_reset_reason_t.
Proof. solve_decision. Defined.

Definition reboot_field (key : String.string) (max_len : nat) : config_field :=
  mk_cfield BB_CONFIG_STR (mk_addr (Some (bs "nvs")) (Some (bs "bb_reboot")) (Some (bs key))) max_len
    (mk_default false 0 0 0 0 (Some [])) true.
Definition s_reboot_last_field : config_field := reboot_field "last" BB_REBOOT_RECORD_STR_MAX.
Definition s_reboot_history_field : config_field := reboot_field "history" BB_REBOOT_HISTORY_STR_MAX.

(** What the boot latched: the reason to report and the ring. *)
Record boot_report := mk_report {
  s_reboot_src : Z; s_reboot_detail : list byte; s_reboot_epoch_s : Z; s_reboot_uptime_s : Z; s_reboot_history : bb_reboot_history
}.

Section Store.
Context {W : Type} (reg : registry (W := W)) (unrepresentable : Z -> Z).

(** [detail] is the C string, NULL when [None]. *)
Definition bb_system_reboot_record_save (src : bb_reset_source_t) (detail : option cstring) (epoch_s uptime_s : Z) (w : W) : bb_err * W :=
  let zeroed := repeat x00 DETAIL in
  let d := match detail with Some t => (bb_strlcpy zeroed (t ++ [x00]) DETAIL).2 | None => zeroed end in
  let '(ok, buf) := bb_reboot_record_encode (Some (mk_record (u8 (src_value src)) d epoch_s uptime_s)) true BB_REBOOT_RECORD_STR_MAX in
  if negb ok then (BB_ERR_INVALID_ARG, w) else bb_config_set_str reg (Some s_reboot_last_field) (Some buf) w.

Definition bb_system_reboot_record_save_retry (src : bb_reset_source_t) (detail : option cstring) (epoch_s uptime_s : Z) (w : W) : bb_err * W :=
  let '(err, w) := bb_system_reboot_record_save src detail epoch_s uptime_s w in
  if is_ok err then (err, w) else
  if bool_decide (err = BB_ERR_INVALID_ARG) then (err, w) else
  bb_system_reboot_record_save src detail epoch_s uptime_s w.

(** Up to the restart itself.  [now_ms64]: the uptime clock; [time]: the wall clock. *)
Definition bb_system_restart_reason_at (src : bb_reset_source_t) (detail : option cstring) (caller_epoch_s now_ms64 : Z)
    (synced : bool) (time : Z) (w : W) : W :=
  let uptime_s := u32 (now_ms64 / 1000) in
  let device_epoch_s := if synced then u32 time else 0 in
  let epoch_s := bb_reboot_pick_epoch synced device_epoch_s caller_epoch_s BB_REBOOT_EPOCH_FLOOR_S in
  (bb_system_reboot_record_save_retry src detail epoch_s uptime_s w).2.
Definition bb_system_restart_reason (src : bb_reset_source_t) (detail : option cstring) := bb_system_restart_reason_at src detail 0.

(** One text field into a zeroed buffer of [cap] bytes, terminated by the
    length reported. *)
Definition read_text (f : config_field) (cap : nat) (w : W) : bb_err * list byte :=
  let '(rc, buf, out_len) := bb_config_get_str reg (Some f) true (repeat x00 cap) cap true w in
  let n := default 0%nat out_len in
  (rc, if is_ok rc then <[(if (n <? cap)%nat then n else (cap - 1)%nat) := x00]> buf else buf).

Definition load_reboot_record (reset_reason : bb_reset_reason_t) (w : W) : boot_report * W :=
  let '(rc, buf) := read_text s_reboot_last_field BB_REBOOT_RECORD_STR_MAX w in
  let rec := if is_ok rc then bb_reboot_record_decode unrepresentable (Some (cstr buf)) else None in
  let w := (bb_config_erase reg (Some s_reboot_last_field) w).2 in
  let sw_reset := bool_decide (reset_reason = BB_RESET_REASON_SW) in
  let '(src, detail, epoch_s, uptime_s) :=
    match rec, sw_reset with
    | Some r, true => (rr_src r, cstr (bb_strlcpy (repeat x00 DETAIL) (rr_detail r) DETAIL).2, rr_epoch_s r, rr_uptime_s r)
    | _, _ => (src_value BB_RESET_SRC_UNKNOWN, [], 0, 0)
    end in
  let '(hrc, hist_buf) := read_text s_reboot_history_field BB_REBOOT_HISTORY_STR_MAX w in
  let hist := if is_ok hrc then default history0 (bb_reboot_history_decode unrepresentable (Some (cstr hist_buf))) else history0 in
  let hist := default hist (bb_reboot_history_push (Some hist) (Some (mk_entry (u8 src) epoch_s uptime_s))) in
  let '(ok, buf) := bb_reboot_history_encode (Some hist) true BB_REBOOT_HISTORY_STR_MAX in
  let w := if ok : bool then (bb_config_set_str reg (Some s_reboot_history_field) (Some buf) w).2 else w in
  (mk_report src detail epoch_s uptime_s hist, w).

(** ** What happens to a device: restarts asked for, and boots for a reason *)

Inductive boot_event : Type :=
  | EvRestart (src : bb_reset_source_t) (detail : option cstring) (caller_epoch_s now_ms64 : Z) (synced : bool) (time : Z)
  | EvBoot (reason : bb_reset_reason_t).
(** What a boot has to show: the reason, its text, its times, and the ring read
    from its oldest entry. *)
Record boot_shown := mk_shown {
  sh_src : Z; sh_detail : list byte; sh_epoch_s : Z; sh_uptime_s : Z; sh_history : list bb_reboot_hist_entry
}.
Definition history_list (h : bb_reboot_history) : list bb_reboot_hist_entry :=
  (fun i => nth ((h_head h + i) mod BB_REBOOT_HISTORY_CAP) (h_entries h) entry0) <$> seq 0 (h_count h).
Definition shown (r : boot_report) : boot_shown :=
  mk_shown (s_reboot_src r) (s_reboot_detail r) (s_reboot_epoch_s r) (s_reboot_uptime_s r) (history_list (s_reboot_history r)).
Definition boot_step (ev : boot_event) (w : W) : option boot_shown * W :=
  match ev with
  | EvRestart src detail caller now synced time => (None, bb_system_restart_reason_at src detail caller now synced time w)
  | EvBoot reason => let '(r, w) := load_reboot_record reason w in (Some (shown r), w)
  end.
End Store.

Fixpoint boot_run {W} (step : boot_event -> W -> option boot_shown * W) (evs : list boot_event) (w : W) : list boot_shown * W :=
  match evs with
  | [] => ([], w)
  | ev :: evs => let '(o, w) := step ev w in let '(os, w) := boot_run step evs w in (option_list o ++ os, w)
  end.

(** ** What they amount to: one request that waits, and the boots so far *)

Record reason := mk_reason { rs_src : Z; rs_detail : list byte; rs_epoch_s : Z; rs_uptime_s : Z }.
Definition no_reason : reason := mk_reason 0 [] 0 0.
Definition newest (l : list bb_reboot_hist_entry) : list bb_reboot_hist_entry := drop (length l - BB_REBOOT_HISTORY_CAP) l.
Definition spec_state : Type := option reason * list bb_reboot_hist_entry.
Definition spec_boot_step (ev : boot_event) (s : spec_state) : option boot_shown * spec_state :=
  match ev with
  | EvRestart src detail caller now synced time =>
      (None, (Some (mk_reason (src_value src) (before_bar (take (DETAIL - 1) (default [] detail)))
                 (bb_reboot_pick_epoch synced (if synced then u32 time else 0) caller BB_REBOOT_EPOCH_FLOOR_S) (u32 (now / 1000))), s.2))
  | EvBoot why =>
      let r := if decide (why = BB_RESET_REASON_SW) then default no_reason s.1 else no_reason in
      let past := newest (s.2 ++ [mk_entry (rs_src r) (rs_epoch_s r) (rs_uptime_s r)]) in
      (Some (mk_shown (rs_src r) (rs_detail r) (rs_epoch_s r) (rs_uptime_s r) past), (None, past))
  end.

(** * Encoding and decoding *)

Record hist_wf (h : bb_reboot_history) : Prop := {
  hw_length : length (h_entries h) = BB_REBOOT_HISTORY_CAP;
  hw_entries : Forall (fun e => 0 <= he_src e < BB_RESET_SRC__COUNT /\ is_u32 (he_epoch_s e) /\ is_u32 (he_uptime_s e)) (h_entries h);
  hw_head : (h_head h < BB_REBOOT_HISTORY_CAP)%nat;
  hw_count : (h_count h <= BB_REBOOT_HISTORY_CAP)%nat
}.
Definition record_text (src : Z) (detail : list byte) (epoch uptime : Z) : list byte :=
  dec_u64 src ++ [x7c] ++ dec_u64 epoch ++ [x7c] ++ dec_u64 uptime ++ [x7c] ++ detail.
Fixpoint entries_text (first : bool) (es : list bb_reboot_hist_entry) : list byte :=
  match es with [] => [] | e :: es => (if first then [] else [x3b]) ++ entry_text e ++ entries_text false es end.
Definition history_text (h : bb_reboot_history) : list byte :=
  dec_u64 (Z.of_nat (h_head h)) ++ [x7c] ++ dec_u64 (Z.of_nat (h_count h)) ++ [x7c] ++ entries_text true (h_entries h).

Lemma history0_wf : hist_wf history0.
Proof.
  split; [done| |apply Nat.lt_0_succ|apply Nat.le_0_l]. by repeat constructor.
Qed.

Lemma small_u32 v k : 0 <= v < k -> k <= UINT32_MAX -> is_u32 v.
Proof. unfold is_u32, UINT32_MAX. lia. Qed.

(** A number and one byte that is no digit. *)
Lemma dec_starts v l : starts_with_digit (dec_u64 v ++ l) = true.
Proof.
  pose proof (dec_u64_digits v) as Hd. pose proof (dec_u64_length v).
  destruct (dec_u64 v) as [|d ds]; [cbn in *; lia|]. by inversion_clear Hd.
Qed.
Lemma drop_consumed (str pre tail : list byte) : str = pre ++ tail -> pre <> [] ->
  ((length str - length tail =? 0)%nat = false) /\ drop (length str - length tail) str = tail.
Proof.
  intros -> Hp. rewrite length_app, Nat.add_sub. split; [|by rewrite drop_app_length].
  destruct pre; [done|]. by apply Nat.eqb_neq.
Qed.

Section Roundtrip.
Context (unrepresentable : Z -> Z).
Abbreviation record_decode := (bb_reboot_record_decode unrepresentable).
Abbreviation history_decode := (bb_reboot_history_decode unrepresentable).

Lemma scan_header_text a b c rest : is_u32 a -> is_u32 b -> is_u32 c ->
  let str := dec_u64 a ++ [x7c] ++ dec_u64 b ++ [x7c] ++ dec_u64 c ++ [x7c] ++ rest in
  scan_header unrepresentable str = ([a; b; c], (length str - length rest)%nat).
Proof.
  intros Ha Hb Hc str. unfold scan_header, str. cbn [app].
  do 3 (rewrite scan_u_dec by done; cbn [scan_bar]; rewrite byte_eqb_refl). done.
Qed.

Lemma record_roundtrip src detail epoch uptime : 0 <= src < BB_RESET_SRC__COUNT -> is_u32 epoch -> is_u32 uptime ->
  (length detail < DETAIL)%nat ->
  record_decode (Some (record_text src detail epoch uptime)) = Some (mk_record src (into_array DETAIL detail) epoch uptime).
Proof.
  intros Hs He Hu Hd. unfold bb_reboot_record_decode, BB_RESET_SRC__COUNT in *.
  assert (Hs' : is_u32 src) by (eapply small_u32; [exact Hs|unfold UINT32_MAX; lia]).
  pose proof (scan_header_text src epoch uptime detail Hs' He Hu) as H. cbv zeta in H. unfold record_text. rewrite dec_starts.
  cbn [negb]. rewrite H. match goal with |- context [drop (length ?s - _) _] => set (str := s) end.
  destruct (drop_consumed str (dec_u64 src ++ [x7c] ++ dec_u64 epoch ++ [x7c] ++ dec_u64 uptime ++ [x7c]) detail) as [H1 H2].
  { unfold str. by rewrite <- !app_assoc. }
  { by destruct (dec_u64 src). }
  rewrite H1, H2. destruct (Z.leb_spec 14 src); [lia|]. destruct (Nat.leb_spec DETAIL (length detail)); [lia|].
  by rewrite firstn_all.
Qed.

Lemma scan_entry_text e rest : 0 <= he_src e < BB_RESET_SRC__COUNT /\ is_u32 (he_epoch_s e) /\ is_u32 (he_uptime_s e) ->
  not_digit_first rest -> scan_entry unrepresentable (entry_text e ++ rest) = Some (e, rest).
Proof.
  intros (Hs & He & Hu) Hr. unfold BB_RESET_SRC__COUNT in Hs. unfold scan_entry, entry_text. rewrite <- !app_assoc. cbn [app].
  rewrite scan_u_dec; [|eapply small_u32; [exact Hs|unfold UINT32_MAX; lia]|done]. cbn [scan_comma]. rewrite byte_eqb_refl.
  rewrite scan_u_dec by done. cbn [scan_comma]. rewrite byte_eqb_refl. rewrite scan_u_dec by done. by destruct e.
Qed.
Lemma entries_not_digit es : not_digit_first (entries_text false es).
Proof. by destruct es. Qed.

Lemma decode_entries_text es : forall e,
  Forall (fun e => 0 <= he_src e < BB_RESET_SRC__COUNT /\ is_u32 (he_epoch_s e) /\ is_u32 (he_uptime_s e)) (e :: es) ->
  decode_entries unrepresentable (S (length es)) (entry_text e ++ entries_text false es) = Some (e :: es).
Proof.
  induction es as [|e' es IH]; intros e H; inversion_clear H as [|?? He Hes]; cbn [length decode_entries];
    rewrite (scan_entry_text e) by (done || apply entries_not_digit); destruct (Z.leb_spec BB_RESET_SRC__COUNT (he_src e)); try lia; [done|].
  cbn [entries_text app]. rewrite byte_eqb_refl. pose proof (IH e' Hes) as E. cbn [length decode_entries] in E. by rewrite E.
Qed.

Lemma history_roundtrip h : hist_wf h -> history_decode (Some (history_text h)) = Some h.
Proof.
  intros [Hl He Hh Hc]. destruct h as [es head count]. cbn [h_entries h_head h_count] in *. unfold BB_REBOOT_HISTORY_CAP in *.
  unfold bb_reboot_history_decode. unfold history_text. cbn [h_entries h_head h_count].
  assert (is_u32 (Z.of_nat head) /\ is_u32 (Z.of_nat count)) as [H1 H2] by (unfold is_u32, UINT32_MAX; lia).
  rewrite dec_starts. cbn [negb]. unfold scan_pair. cbn [app].
  do 2 (rewrite scan_u_dec by done; cbn [scan_bar]; rewrite byte_eqb_refl).
  match goal with |- context [drop (length ?s - _) _] => set (str := s) end.
  destruct (drop_consumed str (dec_u64 (Z.of_nat head) ++ [x7c] ++ dec_u64 (Z.of_nat count) ++ [x7c]) (entries_text true es)) as [H3 H4].
  { unfold str. by rewrite <- !app_assoc. }
  { by destruct (dec_u64 (Z.of_nat head)). }
  rewrite H3, H4. unfold BB_REBOOT_HISTORY_CAP. destruct (Z.leb_spec (Z.of_nat 8) (Z.of_nat head)); [lia|].
  destruct (Z.ltb_spec (Z.of_nat 8) (Z.of_nat count)); [lia|]. cbn [orb].
  destruct es as [|e es]; [done|]. cbn in Hl. cbn [entries_text app]. replace 8%nat with (S (length es)) by lia.
  rewrite decode_entries_text by done. by rewrite !Nat2Z.id.
Qed.

Hypothesis unrep_u32 : forall v, is_u32 (unrepresentable v).

Lemma scan_entry_range p e rest : scan_entry unrepresentable p = Some (e, rest) ->
  is_u32 (he_src e) /\ is_u32 (he_epoch_s e) /\ is_u32 (he_uptime_s e).
Proof.
  unfold scan_entry. intros H.
  repeat match type of H with context [match ?x with _ => _ end] => destruct x eqn:?; simplify_eq end.
  cbn. split_and!; by eapply scan_u_range.
Qed.
Lemma decode_entries_wf n : forall p es, decode_entries unrepresentable n p = Some es -> length es = n /\
  Forall (fun e => 0 <= he_src e < BB_RESET_SRC__COUNT /\ is_u32 (he_epoch_s e) /\ is_u32 (he_uptime_s e)) es.
Proof.
  induction n as [|n IH]; intros p es; cbn [decode_entries]; [intros [= <-]; by split|].
  destruct (scan_entry unrepresentable p) as [[e rest]|] eqn:E; [|done]. apply scan_entry_range in E as (E1 & E2 & E3).
  destruct (Z.leb_spec BB_RESET_SRC__COUNT (he_src e)); [done|].
  assert (He : 0 <= he_src e < BB_RESET_SRC__COUNT) by (unfold is_u32 in E1; lia).
  destruct n as [|n]; [intros [= <-]; split; [done|by apply Forall_singleton]|].
  destruct rest as [|c rest]; [done|]. destruct (Byte.eqb c x3b); [|done].
  destruct (decode_entries _ (S n) rest) as [r|] eqn:Er; [|done]. intros [= <-].
  destruct (IH _ _ Er) as [H1 H2]. split; [by cbn; rewrite H1|by constructor].
Qed.
Lemma scan_pair_range str a b c : scan_pair unrepresentable str = ([a; b], c) -> is_u32 a /\ is_u32 b.
Proof.
  unfold scan_pair. intros H.
  repeat match type of H with context [match ?x with _ => _ end] => destruct x eqn:?; simplify_eq end;
  split; by eapply scan_u_range.
Qed.
(** Whatever text flash held, the ring read from it is one. *)
Lemma history_decode_wf str h : history_decode str = Some h -> hist_wf h.
Proof.
  destruct str as [str|]; [|done]. unfold bb_reboot_history_decode. destruct (negb _); [done|].
  destruct (scan_pair unrepresentable str) as [[|a [|b [|]]] c] eqn:E; try done. apply scan_pair_range in E as [Ha Hb].
  destruct (c =? 0)%nat; [done|]. unfold BB_REBOOT_HISTORY_CAP.
  destruct (Z.leb_spec (Z.of_nat 8) a); [done|]. destruct (Z.ltb_spec (Z.of_nat 8) b); [done|]. cbn [orb].
  destruct (decode_entries _ _ _) as [es|] eqn:Ed; [|done]. intros [= <-]. apply decode_entries_wf in Ed as [H1 H2].
  unfold is_u32 in *. split; cbn [h_entries h_head h_count]; unfold BB_REBOOT_HISTORY_CAP; [done|done|lia|lia].
Qed.
Lemma record_decode_wf str r : record_decode str = Some r ->
  0 <= rr_src r < BB_RESET_SRC__COUNT /\ is_u32 (rr_epoch_s r) /\ is_u32 (rr_uptime_s r) /\ length (rr_detail r) = DETAIL /\ x00 ∈ rr_detail r.
Proof.
  destruct str as [str|]; [|done]. unfold bb_reboot_record_decode. destruct (negb _); [done|].
  destruct (scan_header unrepresentable str) as [[|a [|b [|c [|]]]] n] eqn:E; try done.
  apply scan_header_range in E as (Ha & Hb & Hc); [|done].
  destruct (n =? 0)%nat; [done|]. destruct (Z.leb_spec BB_RESET_SRC__COUNT a); [done|].
  set (d := take _ _). assert (Hd : (length d < DETAIL)%nat).
  { subst d. rewrite length_take. unfold DETAIL. destruct (49 <=? _)%nat eqn:En; [|apply Nat.leb_gt in En]; lia. }
  clearbody d. intros [= <-]. cbn [rr_src rr_epoch_s rr_uptime_s rr_detail]. unfold is_u32 in Ha.
  split_and!; try done; try lia.
  - unfold into_array. rewrite length_app, repeat_length. lia.
  - unfold into_array. apply elem_of_app. right. destruct (DETAIL - length d)%nat eqn:En; [unfold DETAIL in *; lia|]. apply elem_of_cons. by left.
Qed.
End Roundtrip.

Definition entry_ok (e : bb_reboot_hist_entry) : Prop :=
  0 <= he_src e < BB_RESET_SRC__COUNT /\ is_u32 (he_epoch_s e) /\ is_u32 (he_uptime_s e).

(** The ring keeps the newest entries in order. *)
Lemma history_push_list h e : hist_wf h -> entry_ok e -> exists h',
  bb_reboot_history_push (Some h) (Some e) = Some h' /\ hist_wf h' /\ history_list h' = newest (history_list h ++ [e]).
Proof.
  intros [Hl He Hh Hc] Hok.
  destruct (bb_reboot_history_push (Some h) (Some e)) as [h'|] eqn:E; cbn [bb_reboot_history_push] in E; [|by case_match].
  exists h'. split; [done|]. split.
  - destruct (Nat.ltb_spec (h_count h) BB_REBOOT_HISTORY_CAP); apply (inj Some) in E as <-;
      (split; cbn [h_entries h_head h_count]; [by rewrite length_insert|by apply Forall_insert| |lia]); [done|].
    by apply Nat.mod_upper_bound.
  - destruct h as [es head count]. cbn [h_entries h_head h_count] in *. unfold BB_REBOOT_HISTORY_CAP in *.
    do 9 (destruct es as [|? es]; [try done|]); try done.
    do 8 (destruct head as [|head]; [do 9 (destruct count as [|count]; [by injection E as <-|]); lia|]). lia.
Qed.

(** * Texts and their lengths *)

Lemma before_bar_length l : (length (before_bar l) <= length l)%nat.
Proof. induction l as [|c l IH]; cbn; [done|]. destruct (Byte.eqb c x7c); cbn; lia. Qed.
Lemma before_bar_forall (P : byte -> Prop) l : Forall P l -> Forall P (before_bar l).
Proof. induction 1 as [|c l Hc _ IH]; cbn; [done|]. destruct (Byte.eqb c x7c); by constructor. Qed.

Lemma src_range src : 0 <= src_value src < BB_RESET_SRC__COUNT.
Proof. by destruct src. Qed.
Lemma dec_src_length v : 0 <= v < BB_RESET_SRC__COUNT -> (length (dec_u64 v) <= 2)%nat.
Proof. intros H. apply dec_u64_length_pow; [lia|]. unfold BB_RESET_SRC__COUNT in H. lia. Qed.

Lemma record_text_length src detail epoch uptime : 0 <= src < BB_RESET_SRC__COUNT -> is_u32 epoch -> is_u32 uptime ->
  (length detail < DETAIL)%nat -> (length (record_text src detail epoch uptime) <= 73)%nat.
Proof.
  intros Hs He Hu Hd. unfold record_text, DETAIL in *. rewrite !length_app. cbn [length].
  pose proof (dec_src_length _ Hs). pose proof (dec_u32_length _ He). pose proof (dec_u32_length _ Hu). lia.
Qed.
Lemma entry_text_length e : entry_ok e -> (length (entry_text e) <= 24)%nat.
Proof.
  intros (Hs & He & Hu). unfold entry_text. rewrite !length_app. cbn [length].
  pose proof (dec_src_length _ Hs). pose proof (dec_u32_length _ He). pose proof (dec_u32_length _ Hu). lia.
Qed.
Lemma entries_text_length es : forall first, Forall entry_ok es -> (length (entries_text first es) <= 25 * length es)%nat.
Proof.
  induction es as [|e es IH]; intros first H; [cbn; lia|]. inversion_clear H as [|?? He Hes].
  cbn [entries_text length]. rewrite !length_app. apply entry_text_length in He. specialize (IH false Hes).
  destruct first; cbn [length]; lia.
Qed.
Lemma history_text_length h : hist_wf h -> (length (history_text h) <= 204)%nat.
Proof.
  intros [Hl He Hh Hc]. unfold history_text, BB_REBOOT_HISTORY_CAP in *. rewrite !length_app. cbn [length].
  pose proof (entries_text_length _ true He) as H. rewrite Hl in H.
  pose proof (dec_u64_length_pow 1 (Z.of_nat (h_head h)) ltac:(lia) ltac:(lia)).
  pose proof (dec_u64_length_pow 1 (Z.of_nat (h_count h)) ltac:(lia) ltac:(lia)). lia.
Qed.

Lemma encode_entries_fits buf_len es : forall first buf, (length (buf ++ entries_text first es) < buf_len)%nat ->
  encode_entries buf_len first es buf = (true, buf ++ entries_text first es).
Proof.
  induction es as [|e es IH]; intros first buf H; [by rewrite app_nil_r|]. cbn [entries_text encode_entries] in *.
  rewrite (app_assoc _ (entry_text e)), app_assoc in H |- *. rewrite append_piece_fits by (rewrite length_app in H; lia). by apply IH.
Qed.
Lemma history_encode_fits h : hist_wf h ->
  bb_reboot_history_encode (Some h) true BB_REBOOT_HISTORY_STR_MAX = (true, history_text h).
Proof.
  intros Hw. pose proof (history_text_length h Hw) as Hl. unfold bb_reboot_history_encode, history_text in *. cbn [negb orb].
  unfold BB_REBOOT_HISTORY_STR_MAX. cbn [Nat.eqb].
  assert (E : forall a b c d e : list byte, a ++ b ++ c ++ d ++ e = (a ++ b ++ c ++ d) ++ e) by (intros; by rewrite <- !app_assoc).
  rewrite E in Hl |- *. rewrite append_piece_fits by (rewrite length_app in Hl; rewrite app_nil_l; lia). rewrite app_nil_l.
  apply encode_entries_fits. lia.
Qed.
Lemma record_encode_fits src arr epoch uptime : 0 <= src < BB_RESET_SRC__COUNT -> is_u32 epoch -> is_u32 uptime ->
  bb_reboot_record_encode (Some (mk_record src arr epoch uptime)) true BB_REBOOT_RECORD_STR_MAX =
  (true, record_text src (take (DETAIL - 1) (before_bar (strn DETAIL arr))) epoch uptime).
Proof.
  intros Hs He Hu. unfold bb_reboot_record_encode. cbn [negb orb rr_src rr_detail rr_epoch_s rr_uptime_s].
  set (d := before_bar _).
  assert (Ht : take (if (DETAIL <=? length d)%nat then (DETAIL - 1)%nat else length d) d = take (DETAIL - 1) d).
  { destruct (Nat.leb_spec DETAIL (length d)); [done|]. rewrite !take_ge by lia. done. }
  rewrite Ht. change (BB_REBOOT_RECORD_STR_MAX =? 0)%nat with false. cbn iota.
  assert (Hd : (length (take (DETAIL - 1) d) < DETAIL)%nat) by (rewrite length_take; unfold DETAIL; lia).
  pose proof (record_text_length src (take (DETAIL - 1) d) epoch uptime Hs He Hu Hd).
  rewrite append_piece_fits; rewrite app_nil_l; [done|]. unfold record_text, BB_REBOOT_RECORD_STR_MAX in *. lia.
Qed.

Lemma array_text t : (length t < DETAIL)%nat -> Forall (fun b => b <> x00) t ->
  cstr (bb_strlcpy (repeat x00 DETAIL) (into_array DETAIL t) DETAIL).2 = t.
Proof.
  intros Hl Hn. destruct (strlcpy_spec (repeat x00 DETAIL) (into_array DETAIL t) DETAIL) as (_ & _ & ->);
    [rewrite repeat_length; unfold DETAIL; lia|].
  unfold into_array. destruct (DETAIL - length t)%nat eqn:E; [lia|]. cbn [repeat]. rewrite cstr_nul by done. apply take_ge. lia.
Qed.
Lemma saved_detail (t : cstring) : Forall (fun b => b <> x00) t ->
  strn DETAIL (bb_strlcpy (repeat x00 DETAIL) (t ++ [x00]) DETAIL).2 = take (DETAIL - 1) t.
Proof.
  intros Hn. destruct (strlcpy_spec (repeat x00 DETAIL) (t ++ [x00]) DETAIL) as (_ & Hl & Hc);
    [rewrite repeat_length; unfold DETAIL; lia|].
  unfold strn. rewrite repeat_length in Hl. rewrite (take_ge _ DETAIL) by lia. by rewrite Hc, cstr_nul.
Qed.

Lemma pick_epoch_u32 synced dev caller : is_u32 dev -> is_u32 caller ->
  is_u32 (bb_reboot_pick_epoch synced dev caller BB_REBOOT_EPOCH_FLOOR_S).
Proof. intros. unfold bb_reboot_pick_epoch. destruct (_ && _); [done|]. destruct (_ <=? _); [done|]. by unfold is_u32. Qed.
Lemma u32_is v : is_u32 (u32 v).
Proof. pose proof (u32_range v). unfold is_u32, UINT32_MAX. lia. Qed.
Lemma number_no_nul v c l : c <> x00 -> Forall (fun b => b <> x00) l -> Forall (fun b => b <> x00) (dec_u64 v ++ [c] ++ l).
Proof. intros Hc Hl. apply Forall_app. split; [apply dec_u64_no_nul|by constructor]. Qed.
Lemma record_text_no_nul src d e u : Forall (fun b => b <> x00) d -> Forall (fun b => b <> x00) (record_text src d e u).
Proof. intros Hd. by repeat apply number_no_nul. Qed.
Lemma entries_text_no_nul es : forall first, Forall (fun b => b <> x00) (entries_text first es).
Proof.
  induction es as [|e es IH]; intros first; [constructor|]. cbn [entries_text]. unfold entry_text.
  apply Forall_app. split; [destruct first; by repeat constructor|]. rewrite <- !app_assoc.
  do 2 (apply number_no_nul; [done|]). apply Forall_app. split; [apply dec_u64_no_nul|done].
Qed.
Lemma history_text_no_nul h : Forall (fun b => b <> x00) (history_text h).
Proof. do 2 (apply number_no_nul; [done|]). apply entries_text_no_nul. Qed.

(** * Boots and restarts over storage *)

Definition reboot_table : list config_field := [s_reboot_last_field; s_reboot_history_field].
Lemma reboot_table_ok : table_ok (bs "nvs") reboot_table.
Proof. split; [apply (bool_decide_unpack _); vm_compute; exact I|]. repeat constructor; by eexists. Qed.

Section Boots.
Context {W : Type} (reg : registry (W := W)) (limit : nat)
  (ready : W -> Prop) (held : W -> store) (txn_is : nat -> option (txn_handle (W := W)) -> bb_err + store -> Prop).
Context `{HK : !KeepsKeys reg (bs "nvs") (table_keys reboot_table) limit ready held txn_is}.
Context (Hlimit : (204 <= limit)%nat) (unrepresentable : Z -> Z) (unrep_u32 : forall v, is_u32 (unrepresentable v)).
Abbreviation related := (config_rel reboot_table ready held).

Lemma last_in : s_reboot_last_field ∈ reboot_table. Proof. by left. Qed.
Lemma history_in : s_reboot_history_field ∈ reboot_table. Proof. by right; left. Qed.

(** The text a field holds, as a buffer of [cap] bytes shows it. *)
Definition text_of (f : config_field) (cap : nat) (s : typed) : list byte :=
  match s !! key_of_field f with Some v => cstr (take (cap - 1) (encode v)) | None => [] end.

Lemma put_text_insert text (buf : list byte) n : (0 < length buf)%nat -> n = Nat.min (length text) (length buf - 1) ->
  cstr (<[n := x00]> (put_text text buf)) = cstr (take (length buf - 1) text).
Proof.
  intros Hb ->. unfold put_text. rewrite (proj2 (Nat.ltb_lt _ _) Hb). unfold overlay.
  rewrite insert_app_l by (rewrite length_app, length_take; cbn; lia).
  rewrite insert_app_r_alt by (rewrite length_take; lia). rewrite length_take.
  rewrite (Nat.min_comm (length text)), Nat.sub_diag. cbn [insert list_insert]. rewrite <- app_assoc. cbn [app]. apply cstr_stop.
Qed.
Lemma read_text_spec f cap w s : f ∈ reboot_table -> related w s -> (0 < cap)%nat -> cf_type f = BB_CONFIG_STR ->
  cf_has_default f = true -> d_str (cf_def f) = Some [] -> (0 < cf_max_len f)%nat ->
  exists buf, read_text reg f cap w = (BB_OK, buf) /\ cstr buf = text_of f cap s.
Proof.
  intros Hf Hr Hcap Ht Hd Hs Hm. unfold read_text.
  pose proof (str_get_spec reg (bs "nvs") reboot_table limit ready held txn_is reboot_table_ok f (repeat x00 cap) w s Hf Hr) as E.
  rewrite repeat_length in E. rewrite E by (unfold default_text; by rewrite Hs). unfold spec_str_get, text_of.
  rewrite bool_decide_true by done. cbn [negb]. rewrite Hd, Hs. cbn [default from_option].
  destruct (s !! key_of_field f) as [v|].
  - eexists. split; [cbn; reflexivity|]. unfold id. rewrite put_text_insert; rewrite repeat_length; [done|done|].
    destruct (Nat.ltb_spec (length (encode v)) cap); lia.
  - rewrite (proj2 (Nat.leb_gt _ _)) by (cbn; lia). eexists. split; [cbn; reflexivity|].
    unfold id. rewrite put_text_insert; rewrite repeat_length; [by rewrite take_nil|done|].
    cbn [length default from_option id]. destruct (Nat.ltb_spec 0 cap); [done|lia].
Qed.

(** What flash holds, as the next boot will read it. *)
Definition pending_of (s : typed) : option reason :=
  r ← bb_reboot_record_decode unrepresentable (Some (text_of s_reboot_last_field BB_REBOOT_RECORD_STR_MAX s));
  Some (mk_reason (rr_src r) (cstr (bb_strlcpy (repeat x00 DETAIL) (rr_detail r) DETAIL).2) (rr_epoch_s r) (rr_uptime_s r)).
Definition ring_of (s : typed) : bb_reboot_history :=
  default history0 (bb_reboot_history_decode unrepresentable (Some (text_of s_reboot_history_field BB_REBOOT_HISTORY_STR_MAX s))).

Lemma ring_of_wf s : hist_wf (ring_of s).
Proof.
  unfold ring_of. destruct (bb_reboot_history_decode _ _) eqn:E; [by eapply history_decode_wf|apply history0_wf].
Qed.

(** A text that fits and is written is there. *)
Lemma set_text f v w s : f ∈ reboot_table -> related w s -> cf_type f = BB_CONFIG_STR -> Forall (fun b => b <> x00) v ->
  (length v <= 204)%nat -> (length v < cf_max_len f)%nat ->
  (bb_config_set_str reg (Some f) (Some v) w).1 = BB_OK /\ related (bb_config_set_str reg (Some f) (Some v) w).2 (<[key_of_field f := VStr v]> s).
Proof.
  intros Hf Hr Ht Hn Hl Hm.
  pose proof (set_spec reg (bs "nvs") reboot_table limit ready held txn_is reboot_table_ok f (VStr v) w s Hf Hn Hr) as [H1 H2].
  unfold spec_field_set in H1, H2. cbn [val_type too_long encode call_set] in H1, H2. rewrite bool_decide_true in H1, H2 by done.
  rewrite (proj2 (Nat.leb_gt _ _)) in H1, H2 by lia. cbn [negb] in H1, H2.
  by rewrite decide_True in H1, H2 by lia.
Qed.
Lemma text_of_set f v cap s : Forall (fun b => b <> x00) v -> (length v < cap)%nat ->
  text_of f cap (<[key_of_field f := VStr v]> s) = v.
Proof. intros Hn Hl. unfold text_of. rewrite lookup_insert_eq. cbn [encode]. rewrite take_ge by lia. by apply cstr_id. Qed.

Lemma save_spec src detail epoch uptime w s : related w s -> is_u32 epoch -> is_u32 uptime ->
  Forall (fun b => b <> x00) (default [] detail) ->
  let d := before_bar (take (DETAIL - 1) (default [] detail)) in
  let r := bb_system_reboot_record_save reg src detail epoch uptime w in
  r.1 = BB_OK /\ related r.2 (<[key_of_field s_reboot_last_field := VStr (record_text (src_value src) d epoch uptime)]> s).
Proof.
  intros Hr He Hu Hn d r. assert (Hd : (length d < DETAIL)%nat).
  { pose proof (before_bar_length (take (DETAIL - 1) (default [] detail))). rewrite length_take in H. unfold d, DETAIL in *. lia. }
  assert (Hnd : Forall (fun b => b <> x00) d) by (apply before_bar_forall, Forall_take, Hn).
  assert (Es : strn DETAIL (match detail with Some t => (bb_strlcpy (repeat x00 DETAIL) (t ++ [x00]) DETAIL).2 | None => repeat x00 DETAIL end)
    = take (DETAIL - 1) (default [] detail)) by (destruct detail as [t|]; [apply saved_detail, Hn|reflexivity]).
  pose proof (src_range src) as Hs. unfold r, bb_system_reboot_record_save.
  rewrite u8_small by (unfold BB_RESET_SRC__COUNT in Hs; lia). rewrite record_encode_fits by done. rewrite Es. cbn [negb]. fold d.
  rewrite (take_ge d) by lia.
  pose proof (record_text_length _ d epoch uptime Hs He Hu Hd).
  apply set_text; [apply last_in|done|done|by apply record_text_no_nul|lia|]. cbn [cf_max_len s_reboot_last_field reboot_field].
  unfold BB_REBOOT_RECORD_STR_MAX. lia.
Qed.

Definition event_ok (ev : boot_event) : Prop :=
  match ev with
  | EvRestart _ detail caller _ _ _ => Forall (fun b => b <> x00) (default [] detail) /\ is_u32 caller
  | EvBoot _ => True
  end.
Definition boot_rel (w : W) (p : spec_state) : Prop :=
  exists s, related w s /\ p = (pending_of s, history_list (ring_of s)).

Lemma restart_step_spec src detail caller now synced time w s : related w s ->
  event_ok (EvRestart src detail caller now synced time) ->
  boot_rel (bb_system_restart_reason_at reg src detail caller now synced time w)
    (spec_boot_step (EvRestart src detail caller now synced time) (pending_of s, history_list (ring_of s))).2.
Proof.
  intros Hr [Hn Hc]. unfold bb_system_restart_reason_at, bb_system_reboot_record_save_retry.
  set (epoch := bb_reboot_pick_epoch _ _ _ _). set (uptime := u32 _).
  assert (He : is_u32 epoch).
  { apply pick_epoch_u32; [|done]. destruct synced; [apply u32_is|by unfold is_u32]. }
  pose proof (u32_is (now / 1000)) as Hu. fold uptime in Hu.
  pose proof (save_spec src detail epoch uptime w s Hr He Hu Hn) as H. cbv zeta in H.
  destruct (bb_system_reboot_record_save _ _ _ _ _ _) as [err w']. cbn [fst snd] in H. destruct H as [-> Hr']. cbn [is_ok snd].
  eexists. split; [exact Hr'|]. cbn [spec_boot_step snd]. fold epoch uptime. set (d := before_bar _) in *.
  assert (Hd : (length d < DETAIL)%nat).
  { pose proof (before_bar_length (take (DETAIL - 1) (default [] detail))) as Hb. rewrite length_take in Hb. unfold d, DETAIL in *. lia. }
  assert (Hnd : Forall (fun b => b <> x00) d) by (apply before_bar_forall, Forall_take, Hn).
  pose proof (record_text_length _ d epoch uptime (src_range src) He Hu Hd).
  f_equal.
  - unfold pending_of. rewrite text_of_set; [|by apply record_text_no_nul|unfold BB_REBOOT_RECORD_STR_MAX; lia].
    rewrite record_roundtrip by (done || apply src_range). cbn [mbind option_bind rr_src rr_detail rr_epoch_s rr_uptime_s].
    by rewrite array_text.
  - unfold ring_of, text_of. by rewrite lookup_insert_ne.
Qed.

Lemma boot_step_spec why w s : related w s ->
  let r := load_reboot_record reg unrepresentable why w in
  let q := spec_boot_step (EvBoot why) (pending_of s, history_list (ring_of s)) in
  Some (shown r.1) = q.1 /\ boot_rel r.2 q.2.
Proof.
  intros Hr r q. unfold r, load_reboot_record.
  destruct (read_text_spec s_reboot_last_field BB_REBOOT_RECORD_STR_MAX w s last_in Hr) as (buf & -> & Eb);
    [apply Nat.lt_0_succ|done|done|done|apply Nat.lt_0_succ|]. cbn [is_ok]. rewrite Eb.
  destruct (erase_spec reg (bs "nvs") reboot_table limit ready held txn_is reboot_table_ok s_reboot_last_field w s last_in Hr) as [_ Hr1].
  set (w1 := (bb_config_erase _ _ _).2) in *. set (s1 := delete _ s) in *.
  destruct (read_text_spec s_reboot_history_field BB_REBOOT_HISTORY_STR_MAX w1 s1 history_in Hr1) as (hbuf & -> & Ehb);
    [apply Nat.lt_0_succ|done|done|done|apply Nat.lt_0_succ|]. cbn [is_ok]. rewrite Ehb.
  assert (Ht : text_of s_reboot_history_field BB_REBOOT_HISTORY_STR_MAX s1 = text_of s_reboot_history_field BB_REBOOT_HISTORY_STR_MAX s)
    by (unfold text_of, s1; by rewrite lookup_delete_ne).
  rewrite Ht. fold (ring_of s). pose proof (ring_of_wf s) as Hw. set (h := ring_of s) in *.
  pose proof (record_decode_wf unrepresentable unrep_u32 (Some (text_of s_reboot_last_field BB_REBOOT_RECORD_STR_MAX s))) as Hrec.
  set (x := match bb_reboot_record_decode _ _, bool_decide _ with Some _, true => _ | _, _ => _ end).
  set (y := if decide (why = BB_RESET_REASON_SW) then default no_reason (pending_of s) else no_reason).
  assert (Hx : x = (rs_src y, rs_detail y, rs_epoch_s y, rs_uptime_s y) /\ entry_ok (mk_entry (rs_src y) (rs_epoch_s y) (rs_uptime_s y))).
  { unfold x, y, pending_of. destruct (bb_reboot_record_decode _ _) as [rc|]; cbn [mbind option_bind];
      destruct (decide (why = BB_RESET_REASON_SW)) as [->|Hne]; rewrite ?bool_decide_true, ?bool_decide_false by done; cbn; try done.
    split; [done|]. destruct (Hrec rc eq_refl) as (H1 & H2 & H3 & _). done. }
  destruct Hx as [-> Hok]. clear Hrec. unfold q. cbn [spec_boot_step fst snd]. fold y.
  pose proof (proj1 Hok) as Hs. cbn [he_src] in Hs. rewrite u8_small by (unfold BB_RESET_SRC__COUNT in Hs; lia).
  destruct (history_push_list h _ Hw Hok) as (h' & Eh & Hw' & El). rewrite Eh. cbn [default from_option id].
  rewrite history_encode_fits by done. pose proof (history_text_length h' Hw').
  destruct (set_text s_reboot_history_field (history_text h') w1 s1 history_in Hr1 eq_refl (history_text_no_nul h')) as [_ Hr2];
    [lia|cbn [cf_max_len s_reboot_history_field reboot_field]; unfold BB_REBOOT_HISTORY_STR_MAX; lia|].
  cbn [fst snd]. split; [unfold shown; cbn; by rewrite El|]. eexists. split; [exact Hr2|]. f_equal.
  - unfold pending_of, text_of, s1. rewrite lookup_insert_ne by done. by rewrite lookup_delete_eq.
  - unfold ring_of. rewrite text_of_set; [|apply history_text_no_nul|unfold BB_REBOOT_HISTORY_STR_MAX; lia].
    rewrite history_roundtrip by done. by rewrite <- El.
Qed.

Lemma boot_run_spec evs : Forall event_ok evs -> forall w p, boot_rel w p ->
  (boot_run (boot_step reg unrepresentable) evs w).1 = (boot_run spec_boot_step evs p).1.
Proof.
  induction 1 as [|ev evs Hev _ IH]; intros w p (s & Hr & ->); [done|]. cbn [boot_run].
  destruct ev as [src detail caller now synced time|why].
  - pose proof (restart_step_spec src detail caller now synced time w s Hr Hev) as H. cbn [boot_step].
    destruct (spec_boot_step _ _) as [o p'] eqn:E. cbn [snd] in H. assert (o = None) as -> by (cbn in E; by injection E).
    specialize (IH _ _ H). destruct (boot_run _ evs _), (boot_run spec_boot_step evs p'). cbn in IH |- *. by rewrite IH.
  - pose proof (boot_step_spec why w s Hr) as [H1 H2]. cbn [boot_step].
    destruct (load_reboot_record _ _ _ _) as [r w'], (spec_boot_step _ _) as [o p']. cbn [fst snd] in H1, H2. subst o.
    specialize (IH _ _ H2). destruct (boot_run _ evs w'), (boot_run spec_boot_step evs p'). cbn in IH |- *. by rewrite IH.
Qed.
End Boots.

(** * Properties *)


Definition wit_boot_registry : registry (W := ram_entries) := [(bs "nvs", s_ram_vtable)].
Definition wit_boot_evs : list boot_event :=
  [EvBoot BB_RESET_REASON_POWERON;
   EvRestart BB_RESET_SRC_WIFI_PENDING_REVERT (Some (bs "gw-unreachable|3")) 0 61500 true 1760000000;
   EvBoot BB_RESET_REASON_SW; EvBoot BB_RESET_REASON_SW;
   EvRestart BB_RESET_SRC_FACTORY_RESET None 1750000000 5000 false 0; EvBoot BB_RESET_REASON_BROWNOUT; EvBoot BB_RESET_REASON_SW].
Lemma wit_boot_keeps : KeepsKeys wit_boot_registry (bs "nvs") (table_keys reboot_table) BB_STORAGE_RAM_MAX_VALUE_BYTES
  (ram_holds (table_keys reboot_table)) store_of txn_rel.
Proof.
  apply ram_keeps_keys; [reflexivity|apply Nat.leb_le; vm_compute; reflexivity|].
  apply (bool_decide_unpack _). vm_compute. exact I.
Qed.

