(* ===== verification/OtaCheck.v ===== *)
(** bb_ota_check: asking the release server whether there is a newer firmware
    (components/bb_ota_check/src/bb_ota_check_common.c), over the release
    parsers of Manifest, the streaming GET of
    platform/espidf/bb_http_client/bb_http_client_espidf.c and the device's
    settings. *)
From Stdlib Require Import Strings.String.
From S2P Require Import Prelude Bytes Num Str Walk JsonScan ScanBytes ScanSafe ScanDoc ScanSim ScanStop Tok TokTree ScanTree Manifest Storage Config Settings RebootBudget.

(** * Versions *)

Definition INT_MIN : Z := -2147483648.
Definition INT_MAX : Z := 2147483647.

Section Semver.
(** What %d stores for a number that does not fit an int; C leaves it undefined. *)
Context (to_int : Z -> Z).

(** One [%d]: the value and the rest of the input. *)
Definition scan_d (l : list byte) : option (Z * list byte) :=
  let l1 := skip_space l in
  let '(neg, l2) := match l1 with
                    | x2d :: r => (true, r)
                    | x2b :: r => (false, r)
                    | _ => (false, l1)
                    end in
  let '(ds, rest) := span_digits l2 in
  match ds with
  | [] => None
  | _ =>
      let v := if neg : bool then - dec_value ds else dec_value ds in
      Some (if (v <? INT_MIN) || (INT_MAX <? v) then to_int v else v, rest)
  end.
Definition scan_dot (l : list byte) : option (list byte) := match l with x2e :: rest => Some rest | _ => None end.
(** [sscanf(s, "%d.%d.%d", ...)] with all three matched. *)
Definition scan_version (s : list byte) : option (Z * Z * Z) :=
  '(a, r) ← scan_d s; r ← scan_dot r;
  '(b, r) ← scan_d r; r ← scan_dot r;
  '(c, _) ← scan_d r; Some (a, b, c).
Definition parse_semver (s : list byte) : option (Z * Z * Z) :=
  match s with
  | [] => None
  | c :: r =>
      let s := if Byte.eqb c x76 || Byte.eqb c x56 then r else s in
      '(a, b, c) ← scan_version s;
      if (a <? 0) || (b <? 0) || (c <? 0) then None else Some (a, b, c)
  end.
Definition is_dev (s : list byte) : bool := bool_decide (take 3 s = bs "dev").
(** [INT_MIN]: not comparable. *)
Definition semver_compare (a b : list byte) : Z :=
  if is_dev a && is_dev b then 0 else
  if is_dev a then -1 else
  if is_dev b then 1 else
  match parse_semver a with
  | None => INT_MIN
  | Some (amaj, amin, apatch) =>
      match parse_semver b with
      | None => INT_MIN
      | Some (bmaj, bmin, bpatch) =>
          if negb (amaj =? bmaj) then amaj - bmaj else
          if negb (amin =? bmin) then amin - bmin else apatch - bpatch
      end
  end.
Definition is_newer (tag current : list byte) : bool :=
  let cmp := semver_compare tag current in negb (cmp =? INT_MIN) && (0 <? cmp).
End Semver.

(** * The streaming GET (bb_http_client_espidf.c) *)

Definition CONFIG_BB_HTTP_CLIENT_DEFAULT_MAX_ATTEMPTS : nat := 3.
(** One attempt: no client, a client that does not open, or a response's
    status. *)
Inductive open_answer : Set := InitFails | OpenFails | Opens (status : Z).
Definition status_accepted (status : Z) : bool := (200 <=? status) && (status <? 600).
(** The status of the first attempt with one between 200 and 599. *)
Fixpoint connect (attempt tries : nat) (opens : nat -> open_answer) : option Z :=
  match tries with
  | O => None
  | S tries =>
      match opens attempt with
      | Opens status => if status_accepted status then Some status else connect (S attempt) tries opens
      | _ => connect (S attempt) tries opens
      end
  end.

Record http_result := mk_hres { hr_status_code : Z; hr_body_len : nat; hr_truncated : bool }.
Section Get.
(** The chunk callback; [None]: it does not return. *)
Context {C : Type} (cb : list byte -> C -> option (bb_err * C)).
(** [reads]: what the reads of the body give until the one that gives nothing. *)
Fixpoint read_loop (reads : list (list byte)) (total : nat) (ctx : C) : option (bb_err * nat * C) :=
  match reads with
  | [] => Some (BB_OK, total, ctx)
  | data :: reads =>
      '(cb_err, ctx) ← cb data ctx;
      if negb (is_ok cb_err) then Some (cb_err, (total + length data)%nat, ctx) else read_loop reads (total + length data) ctx
  end.
Definition bb_http_client_get_stream (attempts : nat) (opens : nat -> open_answer) (reads : list (list byte)) (ctx : C) : option (bb_err * http_result * C) :=
  match connect 0 attempts opens with
  | None => Some (BB_ERR_INVALID_STATE, mk_hres 0 0 false, ctx)
  | Some status =>
      '(cb_err, total, ctx) ← read_loop reads 0 ctx;
      Some (cb_err, mk_hres status total (bool_decide (cb_err = BB_ERR_NO_SPACE)), ctx)
  end.
End Get.

(** * State *)

Definition URL_MAX : nat := 256.
Definition BOARD_MAX : nat := 64.
Definition BB_OTA_CHECK_VERSION_BUF : nat := 48.
Definition CUSTOM_PARSER_BUF_SIZE : nat := Z.to_nat 8192.
Definition CONFIG_BB_OTA_CHECK_INTERVAL_S : Z := 21600.
Definition BOARD_NAME_FALLBACK : list byte := bs "unknown".

Inductive ota_outcome : Set :=
  | BB_OTA_CHECK_OUTCOME_UNKNOWN | BB_OTA_CHECK_OUTCOME_UP_TO_DATE | BB_OTA_CHECK_OUTCOME_AVAILABLE
  | BB_OTA_CHECK_OUTCOME_NO_ASSET | BB_OTA_CHECK_OUTCOME_FAILED | BB_OTA_CHECK_OUTCOME_CHECK_ON_APPLY.
#[export] Instance ota_outcome_eq_dec : EqDecision ota_outcome.
Proof. solve_decision. Defined.
Definition outcome_str (o : ota_outcome) : list byte :=
  match o with
  | BB_OTA_CHECK_OUTCOME_UP_TO_DATE => bs "up_to_date"
  | BB_OTA_CHECK_OUTCOME_AVAILABLE => bs "available"
  | BB_OTA_CHECK_OUTCOME_NO_ASSET => bs "no_asset"
  | BB_OTA_CHECK_OUTCOME_FAILED => bs "check_failed"
  | BB_OTA_CHECK_OUTCOME_CHECK_ON_APPLY => bs "check_on_apply"
  | BB_OTA_CHECK_OUTCOME_UNKNOWN => bs "unknown"
  end.
(** What bb_strlcpy leaves of a C string in a buffer of [n] bytes. *)
Definition cut_to (n : nat) (s : list byte) : list byte := take (n - 1) s.

(** Texts are the bytes before the NUL. *)
Record ota_status := mk_status {
  st_current : list byte; st_latest : list byte; st_download_url : list byte; st_board : list byte; st_last_check_us : Z;
  st_last_check_ok : bool; st_available : bool; st_enabled : bool; st_outcome : ota_outcome
}.
(** bb_ota_check_wire.h: the first two texts have 24 bytes here. *)
Record ota_snap := mk_snap {
  sn_current : list byte; sn_latest : list byte; sn_download_url : list byte; sn_available : bool; sn_ts : Z; sn_last_check_ok : bool;
  sn_enabled : bool; sn_outcome : list byte; sn_last_check_ts : Z
}.
Definition SNAP_TEXT : nat := 24.

(** A parser: body, board, sizes of the two buffers; the code and what is in the
    buffers. *)
Definition parse_fn : Type := list byte -> list byte -> nat -> nat -> bb_err * list byte * list byte.

Section Engine.
(** [W]: everything outside that hooks may touch, the settings' storage too. *)
Context {W : Type} (reg : registry (W := W)) (to_int : Z -> Z).

(** [oc_parser = None]: bb_release_manifest_parse_github. *)
Record ota := mk_ota {
  oc_initialized : bool; oc_interval_s : Z; oc_post_initial : bool; oc_url : list byte; oc_firmware_board : list byte; oc_parser : option parse_fn;
  oc_status : ota_status; oc_first_check_done : bool; oc_pause : option (W -> bool * W); oc_resume : option (W -> W);
  oc_last_publish_ts : Z; oc_in_flight : bool
}.
Definition status0 : ota_status := mk_status [] [] [] [] 0 false false false BB_OTA_CHECK_OUTCOME_UNKNOWN.
Definition ota0 : ota := mk_ota false 0 false [] [] None status0 false None None 0 false.

(** The calls a step makes on other components, in order. *)
Inductive ota_call : Type :=
  | CMdnsTxt (value : list byte) | CCacheRegister | CBind | CDescribe | CCacheUpdate (snap : ota_snap) | CTouch | CFetch (url : list byte).
Record sys := mk_sys { sy_ota : ota; sy_w : W; sy_calls : list ota_call }.
Definition with_ota (o : ota) (s : sys) : sys := mk_sys o (sy_w s) (sy_calls s).
Definition with_w (w : W) (s : sys) : sys := mk_sys (sy_ota s) w (sy_calls s).
Definition calling (cs : list ota_call) (s : sys) : sys := mk_sys (sy_ota s) (sy_w s) (sy_calls s ++ cs).
Definition set_status (st : ota_status) (done : bool) (o : ota) : ota :=
  mk_ota (oc_initialized o) (oc_interval_s o) (oc_post_initial o) (oc_url o) (oc_firmware_board o) (oc_parser o) st done
    (oc_pause o) (oc_resume o) (oc_last_publish_ts o) (oc_in_flight o).
Definition set_publish_ts (ts : Z) (o : ota) : ota :=
  mk_ota (oc_initialized o) (oc_interval_s o) (oc_post_initial o) (oc_url o) (oc_firmware_board o) (oc_parser o) (oc_status o) (oc_first_check_done o)
    (oc_pause o) (oc_resume o) ts (oc_in_flight o).
Definition set_in_flight (b : bool) (o : ota) : ota :=
  mk_ota (oc_initialized o) (oc_interval_s o) (oc_post_initial o) (oc_url o) (oc_firmware_board o) (oc_parser o) (oc_status o) (oc_first_check_done o)
    (oc_pause o) (oc_resume o) (oc_last_publish_ts o) b.

Definition check_enabled (w : W) : bool := bb_settings_update_check_enabled_get reg w.

(** The snapshot of a status with a publication time. *)
Definition snap_of (st : ota_status) (ts : Z) (enabled : bool) : ota_snap :=
  mk_snap (cut_to SNAP_TEXT (st_current st)) (cut_to SNAP_TEXT (st_latest st)) (cut_to URL_MAX (st_download_url st)) (st_available st) ts (st_last_check_ok st)
    enabled (cut_to SNAP_TEXT (outcome_str (st_outcome st))) (if negb (st_last_check_us st =? 0) then Z.quot (st_last_check_us st) 1000000 else 0).
(** [now_s]: gettimeofday's seconds. *)
Definition publish_state (st : ota_status) (txt_value : list byte) (now_s : Z) (s : sys) : sys :=
  let s := calling [CMdnsTxt txt_value] s in
  let s := with_ota (set_publish_ts now_s (sy_ota s)) s in
  calling [CCacheUpdate (snap_of st now_s (check_enabled (sy_w s))); CTouch] s.

(** [cfg]: the interval and post_initial; [running]: the firmware's version;
    [cache_err]: what bb_cache_register answers. *)
Definition bb_ota_check_init (cfg : option (Z * bool)) (running : option (list byte)) (cache_err : bb_err) (s : sys) : bb_err * sys :=
  let o := sy_ota s in
  if oc_initialized o then (BB_OK, s) else
  let interval := match cfg with Some (i, _) => if negb (i =? 0) then i else CONFIG_BB_OTA_CHECK_INTERVAL_S | None => CONFIG_BB_OTA_CHECK_INTERVAL_S end in
  let initial := match cfg with Some (_, b) => b | None => false end in
  let st := mk_status (cut_to BB_OTA_CHECK_VERSION_BUF (default [] running)) [] [] [] 0 false false false BB_OTA_CHECK_OUTCOME_UNKNOWN in
  let o := mk_ota false interval initial [] [] None st false (oc_pause o) (oc_resume o) (oc_last_publish_ts o) (oc_in_flight o) in
  let s := calling [CCacheRegister] (with_ota o s) in
  if negb (is_ok cache_err) then (cache_err, s) else
  let s := calling [CBind; CMdnsTxt (bs "unknown"); CDescribe] s in
  let o := mk_ota true (oc_interval_s o) (oc_post_initial o) [] [] None st false (oc_pause o) (oc_resume o) (oc_last_publish_ts o) (oc_in_flight o) in
  (BB_OK, with_ota o s).
Definition bb_ota_check_publish_initial (now_s : Z) (s : sys) : bb_err * sys :=
  if negb (oc_initialized (sy_ota s)) then (BB_ERR_INVALID_STATE, s) else
  (BB_OK, publish_state (oc_status (sy_ota s)) (bs "unknown") now_s s).
Definition bb_ota_check_set_releases_url (url : option (list byte)) (s : sys) : bb_err * sys :=
  match url with
  | None => (BB_ERR_INVALID_ARG, s)
  | Some url =>
      let o := sy_ota s in
      if negb (oc_initialized o) then (BB_ERR_INVALID_STATE, s) else
      if (length url =? 0)%nat || (URL_MAX <=? length url)%nat then (BB_ERR_INVALID_ARG, s) else
      (BB_OK, with_ota (mk_ota true (oc_interval_s o) (oc_post_initial o) (cut_to URL_MAX url) (oc_firmware_board o) (oc_parser o) (oc_status o)
         (oc_first_check_done o) (oc_pause o) (oc_resume o) (oc_last_publish_ts o) (oc_in_flight o)) s)
  end.
Definition bb_ota_check_set_parser (fn : option parse_fn) (s : sys) : bb_err * sys :=
  let o := sy_ota s in
  if negb (oc_initialized o) then (BB_ERR_INVALID_STATE, s) else
  (BB_OK, with_ota (mk_ota true (oc_interval_s o) (oc_post_initial o) (oc_url o) (oc_firmware_board o) fn (oc_status o)
     (oc_first_check_done o) (oc_pause o) (oc_resume o) (oc_last_publish_ts o) (oc_in_flight o)) s).
Definition bb_ota_check_set_firmware_board (board : option (list byte)) (s : sys) : bb_err * sys :=
  let o := sy_ota s in
  if negb (oc_initialized o) then (BB_ERR_INVALID_STATE, s) else
  let b := default [] board in
  if negb (length b =? 0)%nat && (BOARD_MAX <=? length b)%nat then (BB_ERR_INVALID_ARG, s) else
  (BB_OK, with_ota (mk_ota true (oc_interval_s o) (oc_post_initial o) (oc_url o) (cut_to BOARD_MAX b) (oc_parser o) (oc_status o)
     (oc_first_check_done o) (oc_pause o) (oc_resume o) (oc_last_publish_ts o) (oc_in_flight o)) s).
(** Before the initialisation, too. *)
Definition bb_ota_check_set_hooks (pause : option (W -> bool * W)) (resume : option (W -> W)) (s : sys) : bb_err * sys :=
  let o := sy_ota s in
  (BB_OK, with_ota (mk_ota (oc_initialized o) (oc_interval_s o) (oc_post_initial o) (oc_url o) (oc_firmware_board o) (oc_parser o) (oc_status o)
     (oc_first_check_done o) pause resume (oc_last_publish_ts o) (oc_in_flight o)) s).
Definition board_name (o : ota) : list byte := match oc_firmware_board o with [] => BOARD_NAME_FALLBACK | b => b end.
Definition bb_ota_check_get_status (out_ok : bool) (s : sys) : bb_err * option ota_status :=
  if negb out_ok then (BB_ERR_INVALID_ARG, None) else
  if negb (oc_initialized (sy_ota s)) then (BB_ERR_INVALID_STATE, None) else
  let st := oc_status (sy_ota s) in
  (BB_OK, Some (mk_status (st_current st) (st_latest st) (st_download_url st) (cut_to BOARD_MAX (board_name (sy_ota s))) (st_last_check_us st)
     (st_last_check_ok st) (st_available st) (check_enabled (sy_w s)) (st_outcome st))).
Definition bb_ota_check_mark_check_on_apply (s : sys) : bb_err * sys :=
  let o := sy_ota s in
  if negb (oc_initialized o) then (BB_ERR_INVALID_STATE, s) else
  let st := oc_status o in
  (BB_OK, with_ota (set_status (mk_status (st_current st) (st_latest st) (st_download_url st) (st_board st) (st_last_check_us st) false false (st_enabled st)
     BB_OTA_CHECK_OUTCOME_CHECK_ON_APPLY) (oc_first_check_done o) o) s).

(** ** One check *)

Record feed_ctx := mk_feed { fc_stream : stream_state; fc_parse_err : bb_err }.
Definition chunk_cb (data : list byte) (fc : feed_ctx) : option (bb_err * feed_ctx) :=
  '(err, st) ← bb_release_manifest_parse_github_stream_feed (fc_stream fc) (Some data);
  Some (if negb (is_ok err) then (err, mk_feed st err) else (BB_OK, mk_feed st (fc_parse_err fc))).
Record buf_ctx := mk_bufctx { bc_buf : list byte; bc_cap : nat; bc_overflow : bool }.
Definition buf_chunk_cb (data : list byte) (bc : buf_ctx) : option (bb_err * buf_ctx) :=
  if bc_overflow bc then Some (BB_OK, bc) else
  let avail := (bc_cap bc - length (bc_buf bc))%nat in
  let n := if (length data <? avail)%nat then length data else avail in
  Some (BB_OK, mk_bufctx (bc_buf bc ++ take n data) (bc_cap bc) (avail <? length data)%nat).

(** What the outside answers during one check: the client's attempts and reads,
    the clock after the fetch and at the publication, the allocator. *)
Record check_env := mk_env { ev_opens : nat -> open_answer; ev_reads : list (list byte); ev_now_us : Z; ev_now_s : Z; ev_alloc : bool }.

Definition check_failed (now_us : Z) (s : sys) : sys :=
  let st := oc_status (sy_ota s) in
  with_ota (set_status (mk_status (st_current st) (st_latest st) (st_download_url st) (st_board st) now_us false (st_available st) (st_enabled st)
    BB_OTA_CHECK_OUTCOME_FAILED) (oc_first_check_done (sy_ota s)) (sy_ota s)) s.
Definition fetch_bad (err : bb_err) (res : http_result) : bool := negb (is_ok err) || (hr_status_code res <? 200) || (300 <=? hr_status_code res).
Definition check_no_asset (e : check_env) (s : sys) : bb_err * sys :=
  let st := oc_status (sy_ota s) in
  let st := mk_status (st_current st) [] [] (st_board st) (ev_now_us e) true false (st_enabled st) BB_OTA_CHECK_OUTCOME_NO_ASSET in
  let s := with_ota (set_status st true (sy_ota s)) s in
  (BB_OK, publish_state st (bs "none") (ev_now_s e) s).
Definition check_compare (tag dl_url : list byte) (e : check_env) (s : sys) : bb_err * sys :=
  let st := oc_status (sy_ota s) in
  let new_available := is_newer to_int tag (st_current st) in
  let st := mk_status (st_current st) (cut_to BB_OTA_CHECK_VERSION_BUF tag) (cut_to URL_MAX dl_url) (st_board st) (ev_now_us e) true new_available (st_enabled st)
    (if new_available then BB_OTA_CHECK_OUTCOME_AVAILABLE else BB_OTA_CHECK_OUTCOME_UP_TO_DATE) in
  let s := with_ota (set_status st true (sy_ota s)) s in
  (BB_OK, publish_state st (if new_available then st_latest st else bs "none") (ev_now_s e) s).
(** What follows the parse, on both paths. *)
Definition check_parsed (perr : bb_err) (tag dl_url : list byte) (e : check_env) (s : sys) : bb_err * sys :=
  if negb (is_ok perr) then (perr, check_failed (ev_now_us e) s) else
  match dl_url with [] => check_no_asset e s | _ => check_compare tag dl_url e s end.
Definition TAG_BUF : nat := 24.
Definition DL_URL_BUF : nat := 256.
Definition pausing (s : sys) : bool * sys :=
  match oc_pause (sy_ota s) with None => (true, s) | Some pause => let '(ok, w) := pause (sy_w s) in (ok, with_w w s) end.
Definition resuming (s : sys) : sys := match oc_resume (sy_ota s) with None => s | Some resume => with_w (resume (sy_w s)) s end.

(** [None]: a callback did not return. *)
Definition bb_ota_check_run_one (e : check_env) (s : sys) : option (bb_err * sys) :=
  let o := sy_ota s in
  if negb (oc_initialized o) then Some (BB_ERR_INVALID_ARG, s) else
  if negb (check_enabled (sy_w s)) then Some (BB_OK, s) else
  let board := board_name o in
  match oc_url o with
  | [] => Some (BB_ERR_INVALID_STATE, s)
  | url =>
      match oc_parser o with
      | None =>
          match bb_release_manifest_parse_github_stream_begin true (Some board) true TAG_BUF true DL_URL_BUF with
          | (BB_OK, Some st) =>
              let '(go, s) := pausing s in
              if negb go then Some (BB_ERR_INVALID_STATE, s) else
              '(err, res, fc) ← bb_http_client_get_stream chunk_cb CONFIG_BB_HTTP_CLIENT_DEFAULT_MAX_ATTEMPTS (ev_opens e) (ev_reads e) (mk_feed st BB_OK);
              let s := resuming (calling [CFetch url] s) in
              if fetch_bad err res then Some (if is_ok err then BB_ERR_INVALID_STATE else err, check_failed (ev_now_us e) s) else
              let '(perr, st) := bb_release_manifest_parse_github_stream_end (fc_stream fc) in
              Some (check_parsed perr (cstr (ms_tag_out st.2)) (cstr (ms_url_out st.2)) e s)
          | (perr, _) => Some (perr, s)
          end
      | Some parser =>
          if negb (ev_alloc e) then Some (BB_ERR_NO_SPACE, s) else
          let '(go, s) := pausing s in
          if negb go then Some (BB_ERR_INVALID_STATE, s) else
          '(err, res, bc) ← bb_http_client_get_stream buf_chunk_cb CONFIG_BB_HTTP_CLIENT_DEFAULT_MAX_ATTEMPTS (ev_opens e) (ev_reads e)
                              (mk_bufctx [] CUSTOM_PARSER_BUF_SIZE false);
          let s := resuming (calling [CFetch url] s) in
          if fetch_bad err res then Some (if is_ok err then BB_ERR_INVALID_STATE else err, check_failed (ev_now_us e) s) else
          let '(perr, tag, dl_url) := parser (bc_buf bc) board TAG_BUF DL_URL_BUF in
          Some (check_parsed perr (cstr tag) (cstr dl_url) e s)
      end
  end.
Definition bb_ota_check_is_initialized (s : sys) : bool := oc_initialized (sy_ota s).
Definition bb_ota_check_now (e : check_env) (s : sys) : option (bb_err * sys) :=
  if negb (oc_initialized (sy_ota s)) then Some (BB_ERR_INVALID_ARG, s) else
  match oc_url (sy_ota s) with [] => Some (BB_ERR_INVALID_STATE, s) | _ => bb_ota_check_run_one e s end.
(** The host's calls; the device's are in OtaPull. *)
Definition bb_ota_check_kick_host (e : check_env) (s : sys) : option (bb_err * sys) :=
  if oc_in_flight (sy_ota s) then Some (BB_OK, s) else
  '(err, s) ← bb_ota_check_now e (with_ota (set_in_flight true (sy_ota s)) s);
  Some (err, with_ota (set_in_flight false (sy_ota s)) s).
Definition bb_ota_check_run_blocking_host (e : check_env) (s : sys) : option (bb_err * sys) :=
  if negb (oc_initialized (sy_ota s)) then Some (BB_ERR_INVALID_STATE, s) else bb_ota_check_now e s.
End Engine.
Arguments ota : clear implicits.
Arguments sys : clear implicits.

(** * Versions compare as triples *)

(** A version text as releases have it: three numbers with dots, after an
    optional v, and whatever follows that is not a digit. *)
Record version_text := mk_vt { vt_v : bool; vt_maj : Z; vt_min : Z; vt_patch : Z; vt_rest : list byte }.
Definition vt_print (v : version_text) : list byte :=
  (if vt_v v then [x76] else []) ++ dec_u64 (vt_maj v) ++ x2e :: dec_u64 (vt_min v) ++ x2e :: dec_u64 (vt_patch v) ++ vt_rest v.
Definition is_int31 (x : Z) : Prop := 0 <= x <= INT_MAX.
Record vt_ok (v : version_text) : Prop := {
  vo_maj : is_int31 (vt_maj v); vo_min : is_int31 (vt_min v); vo_patch : is_int31 (vt_patch v); vo_rest : not_digit_first (vt_rest v)
}.
Definition vt_triple (v : version_text) : Z * Z * Z := (vt_maj v, vt_min v, vt_patch v).
(** The order of versions. *)
Definition triple_cmp (a b : Z * Z * Z) : comparison :=
  match a.1.1 ?= b.1.1 with Eq => match a.1.2 ?= b.1.2 with Eq => a.2 ?= b.2 | c => c end | c => c end.

Lemma scan_d_dec to_int v rest : is_int31 v -> not_digit_first rest -> scan_d to_int (dec_u64 v ++ rest) = Some (v, rest).
Proof.
  intros [H0 Hv] Hr. unfold INT_MAX in Hv. pose proof (dec_u64_digits v) as Hd. pose proof (span_digits_app _ rest Hd Hr) as Hs.
  pose proof (dec_u64_value v ltac:(lia)) as Hval. pose proof (dec_u64_length v) as Hl.
  destruct (dec_u64 v) as [|d ds] eqn:E; [cbn in Hl; lia|]. inversion_clear Hd.
  unfold scan_d. rewrite <- app_comm_cons in Hs |- *. destruct (digit_start d (ds ++ rest) H) as [E1 E2]. rewrite E1, E2, Hs.
  rewrite Hval. unfold INT_MIN, INT_MAX. destruct (Z.ltb_spec v (-2147483648)); [lia|]. destruct (Z.ltb_spec 2147483647 v); [lia|]. done.
Qed.
Lemma dec_head v : is_int31 v -> exists d l, dec_u64 v = d :: l /\ is_digit d = true.
Proof.
  intros _. pose proof (dec_u64_digits v) as Hd. pose proof (dec_u64_length v) as Hl. destruct (dec_u64 v) as [|d ds]; [cbn in Hl; lia|].
  inversion_clear Hd. by exists d, ds.
Qed.
Lemma scan_version_print to_int a b c rest : is_int31 a -> is_int31 b -> is_int31 c -> not_digit_first rest ->
  scan_version to_int (dec_u64 a ++ x2e :: dec_u64 b ++ x2e :: dec_u64 c ++ rest) = Some (a, b, c).
Proof.
  intros Ha Hb Hc Hr. unfold scan_version. rewrite scan_d_dec by done. cbn [mbind option_bind scan_dot].
  rewrite scan_d_dec by done. cbn [mbind option_bind scan_dot]. by rewrite scan_d_dec.
Qed.
Lemma parse_semver_print to_int v : vt_ok v -> parse_semver to_int (vt_print v) = Some (vt_triple v).
Proof.
  intros [Ha Hb Hc Hr]. pose proof (scan_version_print to_int _ _ _ _ Ha Hb Hc Hr) as Hs. unfold vt_print, vt_triple.
  destruct (dec_head _ Ha) as (d & l & Hd & Hdig). unfold is_int31 in *.
  destruct (vt_v v); cbn [app]; unfold parse_semver.
  - change (Byte.eqb x76 x76 || Byte.eqb x76 x56) with true. cbv iota zeta. rewrite Hs. cbn [mbind option_bind]. destruct (Z.ltb_spec (vt_maj v) 0), (Z.ltb_spec (vt_min v) 0), (Z.ltb_spec (vt_patch v) 0); (lia || done).
  - rewrite Hd in Hs |- *. rewrite <- !app_comm_cons in Hs |- *. replace (Byte.eqb d x76 || Byte.eqb d x56) with false by (by destruct d). rewrite Hs.
    cbn [mbind option_bind]. destruct (Z.ltb_spec (vt_maj v) 0), (Z.ltb_spec (vt_min v) 0), (Z.ltb_spec (vt_patch v) 0); (lia || done).
Qed.
Lemma vt_not_dev v : vt_ok v -> is_dev (vt_print v) = false.
Proof.
  intros [Ha _ _ _]. apply bool_decide_eq_false. unfold vt_print. destruct (dec_head _ Ha) as (d & l & -> & Hdig).
  destruct (vt_v v); cbn [app take]; [discriminate|]. intros E. injection E as E _. subst d. discriminate Hdig.
Qed.
(** The difference of two versions never overflows, is never INT_MIN, and has
    the sign of the versions' order. *)
Lemma semver_orders to_int a b : vt_ok a -> vt_ok b ->
  let cmp := semver_compare to_int (vt_print a) (vt_print b) in
  INT_MIN < cmp <= INT_MAX /\ (cmp ?= 0) = triple_cmp (vt_triple a) (vt_triple b).
Proof.
  intros Ha Hb. cbv zeta. unfold semver_compare. rewrite !vt_not_dev, !parse_semver_print by done. cbn [andb vt_triple].
  destruct Ha as [[? ?] [? ?] [? ?] _], Hb as [[? ?] [? ?] [? ?] _]. unfold triple_cmp, vt_triple. cbn [fst snd]. unfold INT_MIN, INT_MAX in *.
  destruct (Z.eqb_spec (vt_maj a) (vt_maj b)) as [->|]; cbn [negb].
  - rewrite Z.compare_refl. destruct (Z.eqb_spec (vt_min a) (vt_min b)) as [->|]; cbn [negb].
    + rewrite Z.compare_refl. split; [lia|]. destruct (Z.compare_spec (vt_patch a) (vt_patch b)), (Z.compare_spec (vt_patch a - vt_patch b) 0); (done || lia).
    + split; [lia|]. destruct (Z.compare_spec (vt_min a) (vt_min b)), (Z.compare_spec (vt_min a - vt_min b) 0); (done || lia).
  - split; [lia|]. destruct (Z.compare_spec (vt_maj a) (vt_maj b)), (Z.compare_spec (vt_maj a - vt_maj b) 0); (done || lia).
Qed.
Lemma newer_iff to_int a b : vt_ok a -> vt_ok b -> is_newer to_int (vt_print a) (vt_print b) = true <-> triple_cmp (vt_triple a) (vt_triple b) = Gt.
Proof.
  intros Ha Hb. destruct (semver_orders to_int a b Ha Hb) as [Hr Hs]. unfold is_newer. destruct (Z.eqb_spec (semver_compare to_int (vt_print a) (vt_print b)) INT_MIN); [lia|].
  cbn [negb andb]. rewrite <- Hs, Z.ltb_lt, Z.compare_gt_iff. done.
Qed.

(** * What the transport delivers *)

Lemma feed_err_kept {K} (sink : ingest K) s ch k rc s1 k1 : bb_serialize_json_scan_feed sink s ch k = Some (rc, s1, k1) -> rc <> BB_OK -> ss_err s1 = rc.
Proof.
  unfold bb_serialize_json_scan_feed. destruct (is_ok (ss_err s)) eqn:E; cbn [negb]; [|by intros [= <- <- <-]].
  destruct (drive sink _ s ch k) as [[e k2|s2 k2]|]; [| |done]; intros [= <- <- <-] H; [by destruct s|done].
Qed.
(** Feeding until a feed refuses: either all of it was fed, or BB_ERR_NO_SPACE
    is what the end of the whole stream answers, too. *)
Lemma reads_fed reads : forall st perr total st', stream_feeds st reads = Some st' ->
  exists err n fc, read_loop chunk_cb reads total (mk_feed st perr) = Some (err, n, fc) /\
    (err = BB_OK /\ fc_stream fc = st' \/ err = BB_ERR_NO_SPACE /\ (bb_release_manifest_parse_github_stream_end st').1 = BB_ERR_NO_SPACE).
Proof.
  induction reads as [|ch reads IH]; intros st perr total st' H; cbn [read_loop stream_feeds] in *.
  - injection H as <-. do 3 eexists. split; [done|]. by left.
  - destruct (bb_release_manifest_parse_github_stream_feed st (Some ch)) as [[err st1]|] eqn:E; [|done].
    assert (Hcb : chunk_cb ch (mk_feed st perr) = Some (if negb (is_ok err) then (err, mk_feed st1 err) else (BB_OK, mk_feed st1 perr))) by (unfold chunk_cb; cbn [fc_stream]; by rewrite E).
    rewrite Hcb. cbn [mbind option_bind]. destruct (is_ok err) eqn:Ee; cbn [negb]; [exact (IH _ _ _ _ H)|]. rewrite Ee. cbn [negb].
    do 3 eexists. split; [done|]. right. unfold bb_release_manifest_parse_github_stream_feed in E.
    destruct (bb_serialize_json_scan_feed _ st.1 ch st.2) as [[[rc s1] k1]|] eqn:Ef; [|done]. injection E as <- <-.
    case_bool_decide as Hn; [|done]. subst rc. apply feed_err_kept in Ef; [|done]. split; [done|].
    rewrite stream_feeds_all in H. cbn [fst snd] in H. rewrite feed_all_sticky in H by congruence. injection H as <-.
    unfold bb_release_manifest_parse_github_stream_end, bb_serialize_json_scan_end. cbn [fst snd]. by rewrite Ef.
Qed.
Lemma buffered reads : forall bc total, bc_overflow bc = false -> (length (bc_buf bc) + length (concat reads) <= bc_cap bc)%nat ->
  exists n, read_loop buf_chunk_cb reads total bc = Some (BB_OK, n, mk_bufctx (bc_buf bc ++ concat reads) (bc_cap bc) false).
Proof.
  induction reads as [|ch reads IH]; intros [buf cap ov] total Ho Hl; cbn [bc_overflow bc_buf bc_cap] in *; subst ov; cbn [read_loop concat] in *.
  - eexists. by rewrite app_nil_r.
  - rewrite length_app in Hl. assert (Hcb : buf_chunk_cb ch (mk_bufctx buf cap false) = Some (BB_OK, mk_bufctx (buf ++ ch) cap false)).
    { unfold buf_chunk_cb. cbn [bc_overflow bc_cap bc_buf]. replace (cap - length buf <? length ch)%nat with false by (symmetry; apply Nat.ltb_ge; lia).
      by rewrite (take_ge ch) by (destruct (Nat.ltb_spec (length ch) (cap - length buf)); lia). }
    rewrite Hcb. cbn [mbind option_bind is_ok negb].
    edestruct (IH (mk_bufctx (buf ++ ch) cap false) (total + length ch)%nat) as [n ->]; [done|cbn; rewrite length_app; lia|]. cbn. eexists. by rewrite <- app_assoc.
Qed.

(** * Texts that were read fit their buffers *)

Section Fit.
Context (file : list byte) (tc uc : nat).
Definition release_fits (r : release) : Prop :=
  (length (default [] (rl_tag r)) + 1 <= tc \/ rl_tag r = None)%nat /\ (length (default [] (rl_url r)) + 1 <= uc \/ rl_url r = None)%nat.
Definition reading_fits (x : reading) : Prop := match x with Reads r | Ends _ r => release_fits r end.
Lemma then_fits x f : reading_fits x -> (forall r, release_fits r -> reading_fits (f r)) -> reading_fits (and_then x f).
Proof. destruct x; cbn; auto. Qed.
Lemma read_tag_fits s r : release_fits r -> reading_fits (read_tag tc s r).
Proof.
  intros Hr. pose proof Hr as [H1 H2]. unfold read_tag, fits. destruct (rl_tag r) eqn:Et; [exact Hr|].
  destruct (Nat.leb_spec (length s + 1) tc); cbn [negb]; [|exact Hr].
  assert (release_fits (mk_release (Some s) (rl_url r) (rl_bad r))) by (split; [by left|done]). by destruct (rl_url r).
Qed.
Lemma read_url_fits s r : release_fits r -> reading_fits (read_url uc s r).
Proof.
  intros Hr. pose proof Hr as [H1 H2]. unfold read_url, fits. destruct (rl_url r) eqn:Et; [exact Hr|].
  destruct (Nat.leb_spec (length s + 1) uc); cbn [negb]; [|exact Hr].
  assert (release_fits (mk_release (rl_tag r) (Some s) (rl_bad r))) by (split; [done|by left]). by destruct (rl_tag r).
Qed.
Lemma read_asset_fits ms : forall name m r, release_fits r -> reading_fits (read_asset file uc name m ms r).
Proof.
  induction ms as [|[k d] ms IH]; intros name m r Hr; [done|]. cbn [read_asset]. destruct d as [[]|]; try by apply IH.
  destruct (negb m && _); [by apply IH|]. destruct (m && _); [|by apply IH]. apply then_fits; [by apply read_url_fits|]. intros; by apply IH.
Qed.
Lemma read_assets_fits es : forall r, release_fits r -> reading_fits (read_assets file uc es r).
Proof.
  induction es as [|[k d] es IH]; intros r Hr; [done|]. cbn [read_assets]. destruct d as [|[] ms]; try by apply IH.
  apply then_fits; [by apply read_asset_fits|done].
Qed.
Lemma read_members_fits ms : forall r, release_fits r -> reading_fits (read_members file tc uc ms r).
Proof.
  induction ms as [|[k d] ms IH]; intros r Hr; [done|]. cbn [read_members]. apply then_fits; [unfold read_member|intros r1 Hr1; by apply IH].
  destruct (bool_decide (k = bs "assets")).
  - destruct d as [|[] es]; [exact Hr|by apply read_assets_fits|exact Hr].
  - destruct (bool_decide (k = bs "tag_name")); [|exact Hr]. destruct d as [[]|]; try exact Hr. by apply read_tag_fits.
Qed.
Lemma answer_fits d err tag url : (1 <= tc)%nat -> (1 <= uc)%nat -> release_answer (read_release file tc uc d) = (err, Some (tag, url)) ->
  (length tag < tc)%nat /\ (length url < uc)%nat.
Proof.
  intros Ht Hu H. assert (Hf : reading_fits (read_release file tc uc d)).
  { assert (release_fits (mk_release None None false)) by (split; by right). destruct d; [done|]. by apply read_members_fits. }
  destruct (read_release file tc uc d) as [r|e r]; cbn [reading_fits release_answer] in *; destruct Hf as [[H1|H1] [H2|H2]].
  all: try (case_bool_decide; [discriminate H|]). all: unfold texts_found in H; injection H as _ <- <-; try rewrite H1 in *; try rewrite H2 in *; cbn [default length] in *; lia.
Qed.
End Fit.
Lemma cstr_le n s : (length s < n)%nat -> take (n - 1) (cstr s) = cstr s.
Proof. intros. apply take_ge. pose proof (cstr_length s). lia. Qed.

(** * What a check comes to *)

Section Verdict.
Context {W : Type} (reg : registry (W := W)) (to_int : Z -> Z).
Abbreviation sysw := (sys W).

(** The code, the new status and the text published, for what the document
    answered: a failed check leaves the last release in the status, a release
    without the board's asset takes it away. *)
Definition verdict (answer : bb_err * option (list byte * list byte)) (now_us : Z) (st : ota_status) : bb_err * ota_status * option (list byte) :=
  let over latest url ok avail out := mk_status (st_current st) latest url (st_board st) now_us ok avail (st_enabled st) out in
  match answer with
  | (BB_OK, Some (tag, url)) =>
      match cstr url with
      | [] => (BB_OK, over [] [] true false BB_OTA_CHECK_OUTCOME_NO_ASSET, Some (bs "none"))
      | url =>
          if is_newer to_int (cstr tag) (st_current st)
          then (BB_OK, over (cstr tag) url true true BB_OTA_CHECK_OUTCOME_AVAILABLE, Some (cstr tag))
          else (BB_OK, over (cstr tag) url true false BB_OTA_CHECK_OUTCOME_UP_TO_DATE, Some (bs "none"))
      end
  | (err, _) => (err, over (st_latest st) (st_download_url st) false (st_available st) BB_OTA_CHECK_OUTCOME_FAILED, None)
  end.
(** The state after a check with that verdict, [s1] being the state after the
    hooks and the fetch. *)
Definition checked (v : bb_err * ota_status * option (list byte)) (e : check_env) (s1 s2 : sysw) : Prop :=
  let o := sy_ota s1 in
  sy_w s2 = sy_w s1 /\ oc_status (sy_ota s2) = v.1.2 /\
  sy_calls s2 = sy_calls s1 ++ match v.2 with
    | None => []
    | Some txt => [CMdnsTxt txt; CCacheUpdate (snap_of v.1.2 (ev_now_s e) (check_enabled reg (sy_w s1))); CTouch]
    end /\
  set_status status0 false (set_publish_ts 0 (sy_ota s2)) = set_status status0 false (set_publish_ts 0 o).
(** A custom parser that reads what bb_release_manifest_parse_github reads. *)
Definition reads_releases (fn : parse_fn) : Prop := forall body board tc uc err tag url,
  bb_release_manifest_parse_github (Some body) (Some board) true tc true uc = Some (err, Some (tag, url)) -> fn body board tc uc = (err, tag, url).
Definition parser_ready (o : ota W) (e : check_env) : Prop :=
  match oc_parser o with
  | None => True
  | Some fn => reads_releases fn /\ ev_alloc e = true /\ (length (concat (ev_reads e)) <= CUSTOM_PARSER_BUF_SIZE)%nat
  end.

Lemma parsed_verdict answer perr tag url e (s : sysw) : 
  told (perr, Some (tag, url)) = answer -> (forall t u, answer = (BB_OK, Some (t, u)) -> (length t < TAG_BUF)%nat /\ (length u < DL_URL_BUF)%nat) ->
  let v := verdict answer (ev_now_us e) (oc_status (sy_ota s)) in
  let r := check_parsed reg to_int perr (cstr tag) (cstr url) e s in r.1 = v.1.1 /\ checked v e s r.2.
Proof.
  intros Ha Hf. cbv zeta. unfold check_parsed. destruct (is_ok perr) eqn:Ep.
  - assert (perr = BB_OK) as -> by (by destruct perr). cbn [negb]. unfold told in Ha. rewrite bool_decide_eq_false_2 in Ha by done. subst answer.
    destruct (Hf tag url eq_refl) as [Ht Hu]. unfold verdict. destruct (cstr url) as [|b u] eqn:Eu.
    + split; [done|]. unfold checked, check_no_asset, publish_state. cbn. by rewrite <- !app_assoc.
    + unfold check_compare. rewrite <- Eu. unfold cut_to, BB_OTA_CHECK_VERSION_BUF, URL_MAX in *.
      assert (take (48 - 1) (cstr tag) = cstr tag) as -> by (apply take_ge; pose proof (cstr_length tag); unfold TAG_BUF in *; lia).
      rewrite (cstr_le 256) by exact Hu. destruct (is_newer _ _ _); (split; [done|]); unfold checked, publish_state; cbn; by rewrite <- !app_assoc.
  - cbn [negb]. assert (answer.1 = perr /\ perr <> BB_OK) as [Hp Hn].
    { split; [|by intros ->]. subst answer. unfold told. by case_bool_decide. }
    unfold verdict. destruct answer as [err o]. cbn [fst] in Hp. subst err. 
    destruct perr; try done; destruct o as [[]|]; (split; [done|]); unfold checked, check_failed; cbn; by rewrite app_nil_r.
Qed.

Lemma stream_feeds_total reads : forall st, exists st', stream_feeds st reads = Some st'.
Proof.
  induction reads as [|ch reads IH]; intros st; cbn [stream_feeds]; [by eexists|]. unfold bb_release_manifest_parse_github_stream_feed, bb_serialize_json_scan_feed.
  destruct (negb _); [apply IH|].
  destruct (drive_total bb_release_manifest_sink_ingest (drive_fuel ch) st.1 ch st.2) as [r ->]; [unfold measure, drive_fuel; destruct (ss_phase st.1); cbn; lia|].
  destruct r; apply IH.
Qed.
Lemma buf_reads_total reads : forall bc total, exists n bc', read_loop buf_chunk_cb reads total bc = Some (BB_OK, n, bc').
Proof.
  induction reads as [|ch reads IH]; intros bc total; cbn [read_loop]; [by do 2 eexists|].
  assert (exists bc1, buf_chunk_cb ch bc = Some (BB_OK, bc1)) as [bc1 ->] by (unfold buf_chunk_cb; destruct (bc_overflow bc); by eexists).
  cbn [mbind option_bind is_ok negb]. apply IH.
Qed.

(** A check that gets as far as asking the server. *)
Record asking (e : check_env) (s s1 : sysw) : Prop := {
  ak_init : oc_initialized (sy_ota s) = true;
  ak_enabled : check_enabled reg (sy_w s) = true;
  ak_url : oc_url (sy_ota s) <> [];
  ak_parser : oc_parser (sy_ota s) <> None -> ev_alloc e = true;
  ak_pause : pausing s = (true, s1)
}.
Definition after_fetch (s s1 : sysw) : sysw := resuming (calling [CFetch (oc_url (sy_ota s))] s1).
Lemma pausing_ota (s s1 : sysw) b : pausing s = (b, s1) -> sy_ota s1 = sy_ota s.
Proof. unfold pausing. destruct (oc_pause _) as [p|]; [destruct (p _)|]; by intros [= _ <-]. Qed.
Lemma after_fetch_status (s s1 : sysw) : sy_ota (after_fetch s s1) = sy_ota s1.
Proof. unfold after_fetch, resuming. by destruct (oc_resume _). Qed.

(** The two paths, as far as the parse. *)
Lemma run_one_github e s s1 : asking e s s1 -> oc_parser (sy_ota s) = None ->
  exists st err res fc, bb_release_manifest_parse_github_stream_begin true (Some (board_name (sy_ota s))) true TAG_BUF true DL_URL_BUF = (BB_OK, Some st) /\
    bb_http_client_get_stream chunk_cb CONFIG_BB_HTTP_CLIENT_DEFAULT_MAX_ATTEMPTS (ev_opens e) (ev_reads e) (mk_feed st BB_OK) = Some (err, res, fc) /\
    bb_ota_check_run_one reg to_int e s = Some (let s2 := after_fetch s s1 in
      if fetch_bad err res then (if is_ok err then BB_ERR_INVALID_STATE else err, check_failed (ev_now_us e) s2) else
      let '(perr, st) := bb_release_manifest_parse_github_stream_end (fc_stream fc) in
      check_parsed reg to_int perr (cstr (ms_tag_out st.2)) (cstr (ms_url_out st.2)) e s2).
Proof.
  intros [Hi He Hu Ha Hp] Hn. set (st0 := (bb_serialize_json_scan_begin, bb_release_manifest_sink_init (board_name (sy_ota s)) TAG_BUF DL_URL_BUF)).
  assert (Hb : bb_release_manifest_parse_github_stream_begin true (Some (board_name (sy_ota s))) true TAG_BUF true DL_URL_BUF = (BB_OK, Some st0)) by done.
  destruct (stream_feeds_total (ev_reads e) st0) as [st' Hst]. destruct (reads_fed _ _ BB_OK 0 _ Hst) as (err & n & fc & Hr & _).
  assert (Hg : exists err res fc, bb_http_client_get_stream chunk_cb CONFIG_BB_HTTP_CLIENT_DEFAULT_MAX_ATTEMPTS (ev_opens e) (ev_reads e) (mk_feed st0 BB_OK) = Some (err, res, fc)).
  { unfold bb_http_client_get_stream. destruct (connect _ _ _); [rewrite Hr|]; by do 3 eexists. }
  destruct Hg as (err1 & res1 & fc1 & Hg). exists st0, err1, res1, fc1. split; [exact Hb|]. split; [exact Hg|].
  unfold bb_ota_check_run_one, after_fetch. rewrite Hi, He, Hn. cbn [negb]. destruct (oc_url (sy_ota s)) as [|u us]; [done|].
  rewrite Hb, Hp. cbn [negb]. rewrite Hg. cbn [mbind option_bind]. destruct (fetch_bad _ _); [done|]. by destruct (bb_release_manifest_parse_github_stream_end _) as [perr st2].
Qed.
Lemma run_one_custom e s s1 fn : asking e s s1 -> oc_parser (sy_ota s) = Some fn ->
  exists err res bc, bb_http_client_get_stream buf_chunk_cb CONFIG_BB_HTTP_CLIENT_DEFAULT_MAX_ATTEMPTS (ev_opens e) (ev_reads e) (mk_bufctx [] CUSTOM_PARSER_BUF_SIZE false) = Some (err, res, bc) /\
    bb_ota_check_run_one reg to_int e s = Some (let s2 := after_fetch s s1 in
      if fetch_bad err res then (if is_ok err then BB_ERR_INVALID_STATE else err, check_failed (ev_now_us e) s2) else
      let '(perr, tag, dl_url) := fn (bc_buf bc) (board_name (sy_ota s)) TAG_BUF DL_URL_BUF in
      check_parsed reg to_int perr (cstr tag) (cstr dl_url) e s2).
Proof.
  intros [Hi He Hu Ha Hp] Hn.
  assert (Hg : exists err res bc, bb_http_client_get_stream buf_chunk_cb CONFIG_BB_HTTP_CLIENT_DEFAULT_MAX_ATTEMPTS (ev_opens e) (ev_reads e) (mk_bufctx [] CUSTOM_PARSER_BUF_SIZE false) = Some (err, res, bc)).
  { unfold bb_http_client_get_stream. destruct (connect _ _ _); [|by do 3 eexists].
    destruct (buf_reads_total (ev_reads e) (mk_bufctx [] CUSTOM_PARSER_BUF_SIZE false) 0) as (n & bc & ->). by do 3 eexists. }
  destruct Hg as (err & res & bc & Hg). exists err, res, bc. split; [exact Hg|].
  unfold bb_ota_check_run_one, after_fetch. rewrite Hi, He, Hn, Ha by (rewrite Hn; done). cbn [negb]. destruct (oc_url (sy_ota s)) as [|u us]; [done|].
  rewrite Hp. cbn [negb]. rewrite Hg. cbn [mbind option_bind]. destruct (fetch_bad _ _); [done|]. by destruct (fn _ _ _ _) as [[perr tag] url].
Qed.

Lemma fetched_ok status : 200 <= status < 300 -> forall n t, fetch_bad BB_OK (mk_hres status n t) = false.
Proof. intros H n t. unfold fetch_bad. cbn. destruct (Z.ltb_spec status 200), (Z.leb_spec 300 status); (done || lia). Qed.
Lemma failed_verdict err e (s : sysw) : err <> BB_OK -> let v := verdict (err, None) (ev_now_us e) (oc_status (sy_ota s)) in
  v.1.1 = err /\ checked v e s (check_failed (ev_now_us e) s).
Proof. intros H. unfold verdict. destruct err; try done; (split; [done|]); unfold checked, check_failed; cbn; by rewrite app_nil_r. Qed.

(** The answer of the document, on either path. *)
Lemma answered e s s1 status d : asking e s s1 -> parser_ready (sy_ota s) e -> connect 0 CONFIG_BB_HTTP_CLIENT_DEFAULT_MAX_ATTEMPTS (ev_opens e) = Some status -> 200 <= status < 300 ->
  let answer := release_answer (read_release (asset_file (board_name (sy_ota s))) TAG_BUF DL_URL_BUF d) in
  (told <$> bb_release_manifest_parse_github (Some (concat (ev_reads e))) (Some (board_name (sy_ota s))) true TAG_BUF true DL_URL_BUF) = Some answer ->
  (told <$> stream_parse (board_name (sy_ota s)) TAG_BUF DL_URL_BUF (ev_reads e)) = Some answer ->
  let v := verdict answer (ev_now_us e) (oc_status (sy_ota s)) in
  exists s2, bb_ota_check_run_one reg to_int e s = Some (v.1.1, s2) /\ checked v e (after_fetch s s1) s2.
Proof.
  intros Ha Hp Hc Hs answer Hb Hst v. unfold parser_ready in Hp.
  assert (Hfit : forall t u, answer = (BB_OK, Some (t, u)) -> (length t < TAG_BUF)%nat /\ (length u < DL_URL_BUF)%nat) by (intros t u; apply answer_fits; unfold TAG_BUF, DL_URL_BUF; lia).
  pose proof (pausing_ota _ _ _ (ak_pause _ _ _ Ha)) as Eo. pose proof (after_fetch_status s s1) as Es. rewrite Eo in Es.
  assert (Hv : v = verdict answer (ev_now_us e) (oc_status (sy_ota (after_fetch s s1)))) by (subst v; by rewrite Es).
  destruct (oc_parser (sy_ota s)) as [fn|] eqn:Ep.
  - destruct Hp as (Hfn & Hal & Hlen). destruct (run_one_custom e s s1 fn Ha Ep) as (err & res & bc & Hg & ->). unfold bb_http_client_get_stream in Hg. rewrite Hc in Hg.
    destruct (buffered (ev_reads e) (mk_bufctx [] CUSTOM_PARSER_BUF_SIZE false) 0 eq_refl Hlen) as [n Hr]. rewrite Hr in Hg. injection Hg as <- <- <-.
    cbn [bc_buf app]. cbv zeta. rewrite (fetched_ok _ Hs). destruct (bb_release_manifest_parse_github _ _ _ _ _ _) as [[perr o]|] eqn:Eg; [|done].
    injection Hb as Hb. assert (exists tag url, o = Some (tag, url)) as (tag & url & ->).
    { unfold bb_release_manifest_parse_github in Eg. cbn [negb orb TAG_BUF DL_URL_BUF Nat.eqb] in Eg. destruct (bb_serialize_json_scan_bounded _ _ _) as [[rc st]|]; [|done].
      destruct (bb_release_manifest_sink_finalize st rc). injection Eg as _ <-. by do 2 eexists. }
    rewrite (Hfn _ _ _ _ _ _ _ Eg). destruct (parsed_verdict answer perr tag url e (after_fetch s s1) Hb Hfit) as [H1 H2].
    rewrite Hv, <- H1. eexists. split; [by rewrite <- surjective_pairing|]. exact H2.
  - destruct (run_one_github e s s1 Ha Ep) as (st & err & res & fc & Hbeg & Hg & ->). unfold bb_http_client_get_stream in Hg. rewrite Hc in Hg.
    unfold stream_parse in Hst. rewrite Hbeg in Hst. destruct (stream_feeds st (ev_reads e)) as [st'|] eqn:Ef; [|done].
    destruct (reads_fed _ _ BB_OK 0 _ Ef) as (err' & n & fc' & Hr & Hcase). rewrite Hr in Hg. injection Hg as <- <- <-. cbv zeta.
    destruct (bb_release_manifest_parse_github_stream_end st') as [perr st2] eqn:Eend. injection Hst as Hst. destruct Hcase as [[-> Hfc]|[-> Hend]].
    + rewrite (fetched_ok _ Hs), Hfc, Eend. destruct (parsed_verdict answer perr _ _ e (after_fetch s s1) Hst Hfit) as [H1 H2].
      rewrite Hv, <- H1. eexists. split; [by rewrite <- surjective_pairing|]. exact H2.
    + cbn [fst] in Hend. subst perr. unfold told in Hst. rewrite bool_decide_eq_true_2 in Hst by done. cbn [fst] in Hst. rewrite <- Hst in *.
      destruct (failed_verdict BB_ERR_NO_SPACE e (after_fetch s s1) ltac:(done)) as [H1 H2]. rewrite Hv, H1. eexists. split; [reflexivity|]. exact H2.
Qed.

(** A response that is none, or not a 2xx one, is refused. *)
Lemma fetch_refused {C} (cb : list byte -> C -> option (bb_err * C)) attempts opens reads ctx err res c :
  bb_http_client_get_stream cb attempts opens reads ctx = Some (err, res, c) ->
  match connect 0 attempts opens with Some status => ~ 200 <= status < 300 | None => True end -> fetch_bad err res = true.
Proof.
  unfold bb_http_client_get_stream. destruct (connect 0 attempts opens) as [status|]; [|by intros [= <- <- <-]].
  destruct (read_loop _ _ _ _) as [[[err1 n] c1]|]; [|done]. intros [= <- <- <-] H. unfold fetch_bad. cbn [hr_status_code].
  destruct (Z.ltb_spec status 200), (Z.leb_spec 300 status); rewrite ?orb_true_r; (done || lia).
Qed.
Lemma refused_check err e (s : sysw) : exists err2, err2 <> BB_OK /\ (if is_ok err then BB_ERR_INVALID_STATE else err) = err2 /\
  checked (verdict (err2, None) (ev_now_us e) (oc_status (sy_ota s))) e s (check_failed (ev_now_us e) s).
Proof.
  exists (if is_ok err then BB_ERR_INVALID_STATE else err). assert (Hn : (if is_ok err then BB_ERR_INVALID_STATE else err) <> BB_OK) by (by destruct err).
  split; [exact Hn|]. split; [done|]. by apply failed_verdict.
Qed.

(** C25: a check reports what the release document says.  When the client gets a
    2xx response whose body is any JSON text, cut into any reads, the check -
    with the default streaming parser, or with a custom parser that reads
    releases and a body within its buffer - answers and leaves the status that
    the reading of that document determines: with the tag and the URL of the
    board's asset, AVAILABLE exactly when the tag is newer than the running
    version and UP_TO_DATE otherwise, published with the new status; without an
    asset NO_ASSET, and the last release is taken out of the status; an error
    leaves the last release where it was, marks the check FAILED and publishes
    nothing.  And when no attempt connects, or the status is not 2xx, the answer
    is an error and the check is FAILED likewise. *)
Theorem check_reports_release e s s1 : asking e s s1 -> parser_ready (sy_ota s) e ->
  let opened := connect 0 CONFIG_BB_HTTP_CLIENT_DEFAULT_MAX_ATTEMPTS (ev_opens e) in
  let st := oc_status (sy_ota s) in
  (forall status evs, opened = Some status -> 200 <= status < 300 -> bb_serialize_json_scan_bounded rec_sink (concat (ev_reads e)) ([], []) = Some (BB_OK, evs) ->
     exists d s2, evs = (doc_events None d, []) /\
       let v := verdict (release_answer (read_release (asset_file (board_name (sy_ota s))) TAG_BUF DL_URL_BUF d)) (ev_now_us e) st in
       bb_ota_check_run_one reg to_int e s = Some (v.1.1, s2) /\ checked v e (after_fetch s s1) s2) /\
  (match opened with Some status => ~ 200 <= status < 300 | None => True end ->
     exists err s2, err <> BB_OK /\ bb_ota_check_run_one reg to_int e s = Some (err, s2) /\ checked (verdict (err, None) (ev_now_us e) st) e (after_fetch s s1) s2).
Proof.
  intros Ha Hp opened st. split.
  - intros status evs Hc Hs Hscan.
    destruct (readings_agree _ (board_name (sy_ota s)) TAG_BUF DL_URL_BUF evs (ev_reads e) Hscan ltac:(unfold TAG_BUF; lia) ltac:(unfold DL_URL_BUF; lia) eq_refl) as (d & -> & Hb & Hst).
    destruct (answered e s s1 status d Ha Hp Hc Hs Hb Hst) as (s2 & H1 & H2). exists d, s2. split; [done|]. cbv zeta. by split.
  - intros Hbad. pose proof (pausing_ota _ _ _ (ak_pause _ _ _ Ha)) as Eo. pose proof (after_fetch_status s s1) as Es. rewrite Eo in Es.
    destruct (oc_parser (sy_ota s)) as [fn|] eqn:Ep.
    + destruct (run_one_custom e s s1 fn Ha Ep) as (err & res & bc & Hg & ->). rewrite (fetch_refused _ _ _ _ _ _ _ _ Hg Hbad). cbv zeta.
      destruct (refused_check err e (after_fetch s s1)) as (err2 & Hn & He & Hch). rewrite Es in Hch.
      exists err2, (check_failed (ev_now_us e) (after_fetch s s1)). split; [exact Hn|]. split; [by rewrite He|exact Hch].
    + destruct (run_one_github e s s1 Ha Ep) as (st0 & err & res & fc & _ & Hg & ->). rewrite (fetch_refused _ _ _ _ _ _ _ _ Hg Hbad). cbv zeta.
      destruct (refused_check err e (after_fetch s s1)) as (err2 & Hn & He & Hch). rewrite Es in Hch.
      exists err2, (check_failed (ev_now_us e) (after_fetch s s1)). split; [exact Hn|]. split; [by rewrite He|exact Hch].
Qed.
End Verdict.

(** A release 1.3.0 for a board that runs 1.2.9, in four reads. *)
Definition case_doc : list byte :=
  bs "{" ++ q "tag_name" ++ bs ":" ++ q "v1.3.0" ++ bs "," ++ q "assets" ++ bs ":[{" ++ q "name" ++ bs ":" ++ q "s3.bin" ++ bs "," ++
  q "browser_download_url" ++ bs ":" ++ q "http://h/s3.bin" ++ bs "}]}".
Definition case_env : check_env :=
  mk_env (fun i => match i with O => OpenFails | _ => Opens 200 end) [take 9 case_doc; take 30 (drop 9 case_doc); take 1 (drop 39 case_doc); drop 40 case_doc] 1700000000000000 1700000001 true.
Definition case_sys : sys unit :=
  let s := (bb_ota_check_init None (Some (bs "1.2.9")) BB_OK (mk_sys ota0 tt [])).2 in
  let s := (bb_ota_check_set_releases_url (Some (bs "http://h/latest")) s).2 in
  (bb_ota_check_set_firmware_board (Some (bs "s3")) s).2.
Lemma check_reports_release_witness :
  asking [] case_env case_sys case_sys /\ parser_ready (sy_ota case_sys) case_env /\
  exists s2, bb_ota_check_run_one [] (fun x => x) case_env case_sys = Some (BB_OK, s2) /\
    oc_status (sy_ota s2) = mk_status (bs "1.2.9") (bs "v1.3.0") (bs "http://h/s3.bin") [] 1700000000000000 true true false BB_OTA_CHECK_OUTCOME_AVAILABLE.
Proof.
  assert (Ha : asking [] case_env case_sys case_sys) by (by split). split; [exact Ha|]. split; [exact I|].
  destruct (check_reports_release [] (fun x => x) case_env case_sys case_sys Ha I) as [H _].
  assert (Hs : exists evs, bb_serialize_json_scan_bounded rec_sink (concat (ev_reads case_env)) ([], []) = Some (BB_OK, evs)) by (eexists; vm_compute; reflexivity).
  destruct Hs as [evs Hs]. destruct (H 200 evs eq_refl ltac:(lia) Hs) as (d & s2 & _ & Hr & Hc).
  assert (E : exists s3, bb_ota_check_run_one [] (fun x => x) case_env case_sys = Some (BB_OK, s3) /\
    oc_status (sy_ota s3) = mk_status (bs "1.2.9") (bs "v1.3.0") (bs "http://h/s3.bin") [] 1700000000000000 true true false BB_OTA_CHECK_OUTCOME_AVAILABLE)
    by (eexists; split; vm_compute; reflexivity).
  destruct E as (s3 & E1 & E2). exists s3. by split.
Defined.
