(* ===== verification/OtaHttp.v ===== *)
(** The HTTP side of bb_ota_check: the endpoints of the opt-out flag and of the
    status (components/bb_ota_check/src/bb_ota_check_common.c), over the data
    plane (Data), streamed objects (JsonObj) and the settings. *)
From Stdlib Require Import Strings.String.
From S2P Require Import Prelude Bytes Num Walk JsonWrite JsonScan ScanBytes ScanSafe ScanDoc ScanSim Registry Tok TokTree Populate Scatter PopulateBack Parse Data JsonObj Manifest Storage Config Settings OtaCheck.

(** * Responses *)

(** The status line set last and the frames sent. *)
Record response_out := mk_rout { ro_status : Z; ro_frames : frames }.
Definition fresh_response : response_out := mk_rout 200 [].

Section Responses.
Context (send : frames -> bb_err).
(** begin, the members, end, whatever each answers. *)
Definition object_anyway (ms : list (list byte * onode)) (r : response_out) : bb_err * response_out :=
  match bb_http_resp_json_obj_begin send true BB_OK (ro_frames r) with
  | (_, Some s, out) => let '(err, st) := bb_http_resp_json_obj_end send (set_members send ms (s, out)) in (err, mk_rout (ro_status r) st.2)
  | (err, None, out) => (err, mk_rout (ro_status r) out)
  end.
(** The same, but leaving when begin fails. *)
Definition object_or_leave (ms : list (list byte * onode)) (r : response_out) : bb_err * response_out :=
  let '(err, out) := respond_object send BB_OK ms (ro_frames r) in (err, mk_rout (ro_status r) out).
Definition error_object (status : Z) (msg : string) (r : response_out) : response_out :=
  (object_anyway [(bs "error", NStr (Some (bs msg)))] (mk_rout status (ro_frames r))).2.
Lemma error_status status msg r : ro_status (error_object status msg r) = status.
Proof. unfold error_object, object_anyway. destruct (bb_http_resp_json_obj_begin _ _ _ _) as [[err [s|]] out]; [|done]. by destruct (bb_http_resp_json_obj_end _ _). Qed.
End Responses.

(** * The flag (GET and POST /api/update/config) *)

Definition BB_OTA_CHECK_CONFIG_BODY_MAX : Z := 64.
Definition BB_OTA_CHECK_CONFIG_ENABLED_UNSET : byte := x02.
Definition CONFIG_KEY : list byte := bs "ota_check_config".

Section Config.
Context {W Query : Type} (reg : registry (W := W)) (max key_max : nat).
(** Where the table of the one field is. *)
Context (config_tbl : nat).
Definition s_config_fields : list field :=
  [mk_field (Some (bs "enabled")) BB_TYPE_BOOL 0 None 0 0 0 BB_TYPE_BOOL 0 BB_ARR_FIXED []].
Definition s_config_desc : serialize_desc := mk_sdesc (bs "bb_ota_check_config_apply_t") config_tbl 1.
Abbreviation wld := (world (App := W)).
Definition config_gather (dst : Z) (query : option Query) (w : wld) : bb_err * wld :=
  (BB_OK, mk_world (w_app w) (mwrite (w_mem w) dst [BB_OTA_CHECK_CONFIG_ENABLED_UNSET])).
Definition config_apply (dst : Z) (w : wld) : bb_err * wld :=
  let enabled := w_mem w dst in
  if Byte.eqb enabled BB_OTA_CHECK_CONFIG_ENABLED_UNSET then (BB_ERR_VALIDATION, w) else
  let '(err, app) := bb_settings_update_check_enabled_set reg (negb (bz enabled =? 0)) (w_app w) in (err, mk_world app (w_mem w)).
Definition config_binding : binding (App := W) (Query := Query) :=
  mk_binding (Some CONFIG_KEY) (Some s_config_desc) (Some (gather_other config_gather)) (Some config_apply) None BB_DATA_STATE None.
Definition bb_ota_check_config_bind (d : data (App := W) (Query := Query)) : bb_err * data (App := W) (Query := Query) := bb_data_bind key_max (Some config_binding) d.

Context (send : frames -> bb_err).
Definition bb_ota_check_config_get_handler (w : W) (r : response_out) : bb_err * response_out :=
  object_or_leave send [(bs "enabled", NBool (bb_settings_update_check_enabled_get reg w))] r.

(** From the code of the apply on, the scratch being released. *)
Definition post_answer (rc : bb_err) (w : wld) (r : response_out) : option (bb_err * response_out * bool * wld) :=
  let in_use := bb_data_scratch_release true in
  match rc with
  | BB_ERR_VALIDATION => Some (BB_OK, error_object send 400 "missing or invalid 'enabled'" r, in_use, w)
  | BB_ERR_PARSE_GRAMMAR | BB_ERR_PARSE_INCOMPLETE => Some (BB_OK, error_object send 400 "invalid JSON" r, in_use, w)
  | BB_OK =>
      let '(err, r) := object_or_leave send [(bs "enabled", NBool (bb_settings_update_check_enabled_get reg (w_app w)))] r in Some (err, r, in_use, w)
  | _ => Some (BB_OK, error_object send 500 "update failed" r, in_use, w)
  end.
Context (entry_of : Z -> format_entry) (formats : bb_registry).
Context (parse_code : Z -> option (list byte) -> Z -> Z -> option (bb_err * option source)).
Context (ptr_size : nat) (tables : nat -> list field).
(** [recv]: what was read into the body, [None] for a failed read; the scratch
    pair's parse part and [dst_scratch] are at the two addresses.  [None]: the
    call does not come back. *)
Definition bb_ota_check_config_post_handler (body_len : Z) (scratch_in_use : bool) (recv : option (list byte)) (pscr pcap dst : Z) (d : data (App := W) (Query := Query)) (w : wld) (r : response_out)
  : option (bb_err * response_out * bool * wld) :=
  if (body_len <=? 0) || (BB_OTA_CHECK_CONFIG_BODY_MAX <? body_len) then Some (BB_OK, error_object send 400 "invalid request" r, scratch_in_use, w) else
  let '(scratch_rc, in_use) := bb_data_scratch_acquire true scratch_in_use in
  if negb (is_ok scratch_rc) then Some (BB_OK, error_object send 500 "internal error" r, in_use, w) else
  match recv with
  | None => Some (BB_OK, error_object send 400 "read failed" r, bb_data_scratch_release in_use, w)
  | Some body =>
      match bb_data_apply entry_of formats parse_code ptr_size tables BB_FORMAT_JSON (Some CONFIG_KEY) BB_DATA_APPLY_PATCH (Some body) (length body) pscr pcap dst 1 d w with
      | Some (Returned rc w) => post_answer rc w r
      | _ => None
      end
  end.
End Config.

(** * The status (GET /api/update/status) *)

Section Status.
Context {W : Type} (reg : registry (W := W)) (send : frames -> bb_err).
(** [render]: what rendering "update.available" into 1024 bytes answers, given
    the cached snapshot; [now_ms]: the clock. *)
Definition bb_ota_check_emit_status_json (render : ota_snap -> bb_err * list byte) (now_ms : Z) (s : sys W) (r : response_out) : bb_err * response_out * sys W :=
  if negb (oc_initialized (sy_ota s)) then (BB_OK, error_object send 503 "not initialized" r, s) else
  let st := default status0 (bb_ota_check_get_status reg true s).2 in
  let snap := snap_of st (oc_last_publish_ts (sy_ota s)) (st_enabled st) in
  let s := calling [CCacheUpdate snap] s in
  let '(err, data) := render snap in
  if negb (is_ok err) then (err, error_object send 500 "render failed" r, s) else
  let '(err, r) := object_or_leave send [(bs "ts_ms", NInt now_ms); (bs "data", NRaw data)] r in (err, r, s).
End Status.

(** * What a body says about the flag *)

(** The first "enabled" member of an object, when it is a boolean. *)
Definition doc_bool (d : doc) : option bool := match d with DLeaf (DBool b) => Some b | _ => None end.
Fixpoint first_member (key : list byte) (ms : list (list byte * doc)) : option doc :=
  match ms with [] => None | (k, d) :: ms => if bool_decide (k = key) then Some d else first_member key ms end.
Definition enabled_of (d : doc) : option bool :=
  match d with DNode false ms => first_member (bs "enabled") ms ≫= doc_bool | _ => None end.

Lemma other_type r ty i : has_type r ty (Some i) = true -> ty <> BB_SERIALIZE_JSON_TOK_BOOL -> bb_serialize_json_tok_get_bool r (Some i) = None.
Proof.
  unfold bb_serialize_json_tok_get_bool, bb_serialize_json_tok_is_bool, has_type. destruct (tok_at r (Some i)) as [t|]; [|done].
  intros H Hn. apply bool_decide_eq_true in H. rewrite H. by rewrite bool_decide_eq_false_2.
Qed.
Lemma holds_bool r d i : holds r d i -> bb_serialize_json_tok_get_bool r (Some i) = doc_bool d.
Proof.
  destruct d as [l|arr cs]; cbn [holds doc_bool].
  - destruct l; cbn [shows_leaf].
    + intros [H _]. apply (other_type r BB_SERIALIZE_JSON_TOK_NUM); [|done]. unfold bb_serialize_json_tok_get_f64, bb_serialize_json_tok_is_num in H. by destruct (has_type r _ _).
    + done.
    + intros H. by apply (other_type r BB_SERIALIZE_JSON_TOK_NULL).
    + intros H. apply (other_type r BB_SERIALIZE_JSON_TOK_STR); [|done]. unfold bb_serialize_json_tok_get_str, bb_serialize_json_tok_is_str in H. by destruct (has_type r _ _).
  - intros (kids & _ & _ & H). destruct arr; destruct H as [H _].
    + apply (other_type r BB_SERIALIZE_JSON_TOK_ARR); [|done]. unfold bb_serialize_json_tok_arr_size, bb_serialize_json_tok_is_arr in H. destruct (has_type r _ _); [done|]. cbn in H. lia.
    + by apply (other_type r BB_SERIALIZE_JSON_TOK_OBJ).
Qed.
Lemma lookup_holds r key cs : forall kids, length kids = length cs -> holds_all r cs kids ->
  match key_lookup key kids cs with
  | Some i => exists d, first_member key cs = Some d /\ holds r d i
  | None => first_member key cs = None
  end.
Proof.
  induction cs as [|[k d] cs IH]; intros [|i kids]; try done. cbn [length holds_all key_lookup first_member fst snd]. intros [= Hl] [Hd Hrest].
  case_bool_decide; [by exists d|]. by apply IH.
Qed.
Lemma written_byte m p b : mwrite m p [b] p = b.
Proof. pose proof (mwrite_in m p [b] 0 ltac:(cbn; lia)) as H. by rewrite Z.add_0_r in H. Qed.
Lemma enabled_read r d : holds r d 0 -> bb_serialize_json_tok_get_bool r (bb_serialize_json_tok_obj_get r (Some 0%nat) (bs "enabled")) = enabled_of d.
Proof.
  assert (Hno : forall i key, bb_serialize_json_tok_is_obj r (Some i) = false -> bb_serialize_json_tok_get_bool r (bb_serialize_json_tok_obj_get r (Some i) key) = None).
  { intros i key H. unfold bb_serialize_json_tok_obj_get. by rewrite H. }
  assert (Hty : forall i ty, has_type r ty (Some i) = true -> ty <> BB_SERIALIZE_JSON_TOK_OBJ -> bb_serialize_json_tok_is_obj r (Some i) = false).
  { intros i ty. unfold bb_serialize_json_tok_is_obj, has_type. destruct (tok_at r (Some i)) as [t|]; [|done]. intros H Hn. apply bool_decide_eq_true in H. rewrite H. by apply bool_decide_eq_false_2. }
  destruct d as [l|arr cs]; cbn [holds enabled_of].
  - intros H. apply Hno. destruct l; cbn [shows_leaf] in H.
    + apply (Hty _ BB_SERIALIZE_JSON_TOK_NUM); [|done]. destruct H as [H _]. unfold bb_serialize_json_tok_get_f64, bb_serialize_json_tok_is_num in H. by destruct (has_type r _ _).
    + apply (Hty _ BB_SERIALIZE_JSON_TOK_BOOL); [|done]. unfold bb_serialize_json_tok_get_bool, bb_serialize_json_tok_is_bool in H. by destruct (has_type r _ _).
    + by apply (Hty _ BB_SERIALIZE_JSON_TOK_NULL).
    + apply (Hty _ BB_SERIALIZE_JSON_TOK_STR); [|done]. unfold bb_serialize_json_tok_get_str, bb_serialize_json_tok_is_str in H. by destruct (has_type r _ _).
  - intros (kids & Hl & Hk & H). destruct arr.
    + apply Hno, (Hty _ BB_SERIALIZE_JSON_TOK_ARR); [|done]. destruct H as [H _]. unfold bb_serialize_json_tok_arr_size, bb_serialize_json_tok_is_arr in H. destruct (has_type r _ _); [done|]. cbn in H. lia.
    + destruct H as [_ ->]. pose proof (lookup_holds r (bs "enabled") cs kids Hl Hk) as Hm. destruct (key_lookup _ _ _) as [i|].
      * destruct Hm as (d & -> & Hd). cbn. by apply holds_bool.
      * by rewrite Hm.
Qed.

(** * The flag in the settings *)

Section Flag.
Context {W : Type} (reg : registry (W := W)) (limit : nat) (ready : W -> Prop) (held : W -> store) (txn_is : nat -> option (txn_handle (W := W)) -> bb_err + store -> Prop).
Context (Hlimit : (1 <= limit)%nat) `{HK : !KeepsKeys reg (bs "nvs") (table_keys [s_update_check_enabled_field]) limit ready held txn_is}.
Abbreviation keeps := (config_rel [s_update_check_enabled_field] ready held).
Lemma flag_table : table_ok (bs "nvs") [s_update_check_enabled_field].
Proof. split; [by apply NoDup_singleton|]. constructor; [by split|constructor]. Qed.
Definition flag_stored (b : bool) (s : typed) : typed := <[key_of_field s_update_check_enabled_field := VBool b]> s.
Lemma flag_here : s_update_check_enabled_field ∈ [s_update_check_enabled_field].
Proof. apply list_elem_of_here. Qed.
Lemma flag_set b w s : keeps w s -> let r := bb_settings_update_check_enabled_set reg b w in r.1 = BB_OK /\ keeps r.2 (flag_stored b s).
Proof.
  intros Hr. destruct (set_spec reg (bs "nvs") _ limit ready held txn_is flag_table s_update_check_enabled_field (VBool b) w s flag_here I Hr) as [H1 H2].
  unfold bb_settings_update_check_enabled_set. cbv zeta. cbn [call_set] in H1, H2. rewrite H1. revert H2. unfold spec_field_set. rewrite bool_decide_true by done. cbn [negb too_long].
  rewrite decide_True by exact Hlimit. done.
Qed.
Lemma flag_read b w s : keeps w (flag_stored b s) -> bb_settings_update_check_enabled_get reg w = b.
Proof.
  intros Hr. pose proof (get_spec reg (bs "nvs") _ limit ready held txn_is flag_table s_update_check_enabled_field BB_CONFIG_BOOL w _ flag_here Hr) as H.
  cbn [call_get typed_step fst] in H. unfold spec_scalar_get in H. rewrite bool_decide_true in H by done. cbn [negb] in H. unfold flag_stored in H. rewrite !lookup_insert_eq in H.
  unfold bb_settings_update_check_enabled_get, flag_get. destruct (bb_config_get_bool reg _ true w) as [e [v|]]; cbn in H; by simplify_eq.
Qed.
Lemma flag_default w : keeps w ∅ -> bb_settings_update_check_enabled_get reg w = true.
Proof.
  intros Hr. pose proof (get_spec reg (bs "nvs") _ limit ready held txn_is flag_table s_update_check_enabled_field BB_CONFIG_BOOL w _ flag_here Hr) as H.
  cbn [call_get typed_step fst] in H. unfold spec_scalar_get in H. rewrite bool_decide_true in H by done. cbn [negb] in H. rewrite !lookup_empty in H.
  unfold bb_settings_update_check_enabled_get, flag_get. destruct (bb_config_get_bool reg _ true w) as [e [v|]]; cbn in H; by simplify_eq.
Qed.

(** * The endpoint *)

Section Post.
Context {Query : Type} (max key_max : nat) (config_tbl : nat) (send : frames -> bb_err).
Context (align_log sizeof_arena sizeof_rec sizeof_ctx sizeof_tok : Z).
Context (Hal : 0 <= align_log <= 12) (Ha : 0 <= sizeof_arena < 2 ^ 32) (Hr : 0 < sizeof_rec < 2 ^ 32) (Hc : 0 < sizeof_ctx < 2 ^ 32) (Ht : 0 < sizeof_tok < 2 ^ 16).
Context (ptr_size : nat) (tables : nat -> list field) (iter_rows : Z -> Z -> mem -> list Walk.snap) (junk : nat -> json_level).
Context (entry_of : Z -> format_entry) (formats : bb_registry).
Context (render_code : Z -> serialize_desc -> mem -> Z -> nat -> bb_err * list byte).
Context (parse_code : Z -> option (list byte) -> Z -> Z -> option (bb_err * option source)).
Context (Hj : json_registered align_log sizeof_arena sizeof_rec sizeof_ctx sizeof_tok ptr_size tables iter_rows junk entry_of formats render_code parse_code).
Context (Htbl : tables config_tbl = s_config_fields).
Abbreviation parsed := (json_parse align_log sizeof_arena sizeof_rec sizeof_ctx sizeof_tok).
Abbreviation post := (bb_ota_check_config_post_handler (Query := Query) reg send entry_of formats parse_code ptr_size tables).
Abbreviation binding' := (config_binding (Query := Query) reg config_tbl).

(** Pouring a parsed body into the one byte. *)
Lemma config_populate r dst m : dst <> 0 -> bb_serialize_json_tok_root r = Some 0%nat -> forall d, TokTree.holds r d 0 ->
  let src := bb_serialize_json_populate_from_tok r in
  exists st, bb_serialize_populate ptr_size tables src.2 (Some (s_config_desc config_tbl)) dst true m src.1 =
    (BB_OK, match enabled_of d with Some b => mwrite m dst [zb (Z.b2z b)] | None => m end, st).
Proof.
  intros Hd Hroot d Hh. cbv zeta. unfold bb_serialize_populate, bb_serialize_json_populate_from_tok. rewrite (proj2 (Z.eqb_neq _ _) Hd). cbn [orb negb snd fst sd_fields s_config_desc].
  assert (Hck : populate_check_fields tables BB_SERIALIZE_MAX_DEPTH config_tbl = BB_OK) by (unfold BB_SERIALIZE_MAX_DEPTH; cbn [populate_check_fields]; by rewrite Htbl).
  rewrite Hck. cbn [is_ok]. unfold BB_SERIALIZE_MAX_DEPTH. cbn [populate_fields]. rewrite Htbl. cbn [scatter_all s_config_fields].
  unfold populate_field. cbn [f_type f_offset f_key src_get_bool json_source is_ok]. unfold populate_get_bool, member. cbn [ps_top fst default]. rewrite Hroot.
  match goal with |- context [bb_serialize_json_tok_get_bool r ?x] => change (bb_serialize_json_tok_get_bool r x) with (bb_serialize_json_tok_get_bool r (bb_serialize_json_tok_obj_get r (Some 0%nat) (bs "enabled"))) end.
  rewrite (enabled_read r d Hh), Z.add_0_r. eexists. destruct (enabled_of d) as [b|]; [|done]. unfold Populate.store. cbn [option_map]. by destruct b.
Qed.

(** The apply call with the endpoint's arguments. *)
Lemma config_apply_call d l e body pscr pcap dst (w : Data.world (App := W)) s : table_rel max key_max d l -> found CONFIG_KEY l = Some e -> e.1.2 = binding' ->
  0 < pscr -> pscr + pcap <= 2 ^ 64 -> dst <> 0 -> keeps (w_app w) s ->
  let call := bb_data_apply entry_of formats parse_code ptr_size tables BB_FORMAT_JSON (Some CONFIG_KEY) BB_DATA_APPLY_PATCH (Some body) (length body) pscr pcap dst 1 d w in
  exists rc src, parsed (Some body) pscr pcap = Some (rc, src) /\
    (rc <> BB_OK -> call = Some (Returned rc w)) /\
    (rc = BB_OK -> exists doc, bb_serialize_json_scan_bounded rec_sink body ([], []) = Some (BB_OK, (doc_events None doc, [])) /\
       match enabled_of doc with
       | None => exists w1, call = Some (Returned BB_ERR_VALIDATION w1) /\ w_app w1 = w_app w
       | Some b => exists w1, call = Some (Returned BB_OK w1) /\ keeps (w_app w1) (flag_stored b s)
       end).
Proof.
  intros Hrel He Hb Hps Hpc Hdst Hk call.
  assert (Hcall : call = match parsed (Some body) pscr pcap with
    | None => None
    | Some (rc, src) => if negb (is_ok rc) then Some (Returned rc w) else
        match src with Some src => match index_of CONFIG_KEY l with Some i => Some (bb_data_commit ptr_size tables (Some (i, src)) BB_DATA_APPLY_PATCH dst 1 d w) | None => None end | None => call end
    end).
  { subst call. unfold bb_data_apply. rewrite (proj2 (Z.eqb_neq _ _) Hdst). unfold bb_data_parse. cbn [orb negb]. rewrite orb_false_r. destruct (Z.eqb_spec pscr 0); [lia|].
    rewrite andb_false_r. rewrite (with_slot_spec max key_max CONFIG_KEY d l _ _ Hrel). unfold found, mbind, option_bind in He. destruct (index_of CONFIG_KEY l) as [i|]; [|done]. rewrite He.
    rewrite (proj2 (Z.eqb_neq _ _) (jr_parse _ _ _ _ _ _ _ _ _ _ _ _ _ Hj)), (jr_parse_code _ _ _ _ _ _ _ _ _ _ _ _ _ Hj). cbn [ds_binding]. rewrite Hb. cbn [db_apply config_binding].
    cbn [fmap option_fmap option_map]. rewrite firstn_all. destruct (parsed (Some body) pscr pcap) as [[rc [src|]]|] eqn:Ep; [| |done]; destruct (is_ok rc) eqn:Eok; cbn [negb is_ok]; try done; rewrite ?Eok; done. }
  unfold json_parse in *. rewrite (parse_outcome align_log sizeof_arena sizeof_rec sizeof_ctx sizeof_tok Hal Ha Hr Hc Ht body pscr pcap Hps Hpc) in *.
  destruct (pcap <? _); [do 2 eexists; split; [reflexivity|]; split; [by intros|done]|].
  destruct (scan_bounded_total bb_serialize_json_tok_recorder_ingest body (parse_recorder align_log sizeof_arena sizeof_rec sizeof_ctx sizeof_tok pcap)) as (rc & r & Es).
  rewrite Es in *. destruct (decide (rc = BB_OK)) as [->|Hn].
  2: { exists rc, None. split; [by destruct rc|]. split; [|done]. intros _. rewrite Hcall. by destruct rc. }
  do 2 eexists. split; [reflexivity|]. split; [done|]. intros _.
  destruct (recorded body true true BB_SERIALIZE_JSON_TOK_POOL_DEFAULT_CAP (string_room align_log sizeof_arena sizeof_rec sizeof_ctx sizeof_tok pcap) _ r eq_refl Es) as (doc & Hscan & Hroot & Hh). exists doc. split; [exact Hscan|].
  rewrite Hcall. cbn [is_ok negb]. unfold found, mbind, option_bind in He. destruct (index_of CONFIG_KEY l) as [i|]; [|done].
  unfold bb_data_commit. rewrite (proj2 (Z.eqb_neq _ _) Hdst). rewrite (tr_bound _ _ _ _ Hrel i e He). cbn [ds_binding]. rewrite Hb.
  cbn [db_desc db_gather db_apply config_binding sd_snap_size s_config_desc]. change (1 <? 1) with false. cbv iota.
  destruct (config_populate r dst (mwrite (w_mem w) dst [BB_OTA_CHECK_CONFIG_ENABLED_UNSET]) Hdst Hroot doc Hh) as [st Hp]. destruct (bb_serialize_json_populate_from_tok r) as [st0 src0].
  cbn [seed_dst call_gather config_gather is_ok negb w_mem w_app fst snd] in *. rewrite Hp.
  cbn [is_ok negb]. unfold config_apply. cbn [w_mem w_app]. destruct (enabled_of doc) as [b|].
  - rewrite (written_byte _ dst (zb (Z.b2z b))). assert (Byte.eqb (zb (Z.b2z b)) BB_OTA_CHECK_CONFIG_ENABLED_UNSET = false) as -> by (by destruct b).
    assert (negb (bz (zb (Z.b2z b)) =? 0) = b) as -> by (by destruct b).
    destruct (flag_set b (w_app w) s Hk) as [H1 H2]. destruct (bb_settings_update_check_enabled_set reg b (w_app w)) as [err app]. cbn [fst snd] in *. subst err.
    eexists. split; [reflexivity|]. exact H2.
  - rewrite (written_byte _ dst). change (Byte.eqb BB_OTA_CHECK_CONFIG_ENABLED_UNSET BB_OTA_CHECK_CONFIG_ENABLED_UNSET) with true. cbv iota. eexists. by split.
Qed.

(** The endpoint of the opt-out flag does what the body says.  On a data
    plane that has the endpoint's key bound and over a backend that keeps the
    flag, a body of 1 to 64 bytes is answered: 200 with the flag when it is JSON
    whose root is an object with a first "enabled" member that is a boolean, and
    then, and only then, the flag has that value afterwards; 400 when it is other
    JSON or no JSON, 500 when the parser runs out of room, and then nothing
    outside the endpoint's own byte has changed.  The scratch is free again. *)
Theorem config_post_follows_body d l e body body_len pscr pcap dst w s r :
  table_rel max key_max d l -> found CONFIG_KEY l = Some e -> e.1.2 = binding' -> 0 < body_len <= BB_OTA_CHECK_CONFIG_BODY_MAX ->
  0 < pscr -> pscr + pcap <= 2 ^ 64 -> dst <> 0 -> keeps (w_app w) s ->
  exists rc src w1, parsed (Some body) pscr pcap = Some (rc, src) /\ 
    let answered x := post body_len false (Some body) pscr pcap dst d w r = Some (x.1, x.2, false, w1) in
    match rc with
    | BB_OK => exists doc, bb_serialize_json_scan_bounded rec_sink body ([], []) = Some (BB_OK, (doc_events None doc, [])) /\
        match enabled_of doc with
        | Some b => answered (object_or_leave send [(bs "enabled", NBool b)] r) /\ keeps (w_app w1) (flag_stored b s)
        | None => answered (BB_OK, error_object send 400 "missing or invalid 'enabled'" r) /\ w_app w1 = w_app w
        end
    | BB_ERR_PARSE_GRAMMAR | BB_ERR_PARSE_INCOMPLETE => answered (BB_OK, error_object send 400 "invalid JSON" r) /\ w1 = w
    | BB_ERR_VALIDATION => answered (BB_OK, error_object send 400 "missing or invalid 'enabled'" r) /\ w1 = w
    | _ => answered (BB_OK, error_object send 500 "update failed" r) /\ w1 = w
    end.
Proof.
  intros Hrel He Hb Hlen Hps Hpc Hdst Hk. destruct (config_apply_call d l e body pscr pcap dst w s Hrel He Hb Hps Hpc Hdst Hk) as (rc & src & Hp & Hbad & Hok).
  assert (Hpost : post body_len false (Some body) pscr pcap dst d w r =
    match bb_data_apply entry_of formats parse_code ptr_size tables BB_FORMAT_JSON (Some CONFIG_KEY) BB_DATA_APPLY_PATCH (Some body) (length body) pscr pcap dst 1 d w with
    | Some (Returned rc w) => post_answer reg send rc w r
    | _ => None
    end).
  { unfold bb_ota_check_config_post_handler. destruct (Z.leb_spec body_len 0); [lia|]. destruct (Z.ltb_spec BB_OTA_CHECK_CONFIG_BODY_MAX body_len); [lia|]. done. }
  cbv zeta. rewrite Hpost. exists rc, src. destruct (decide (rc = BB_OK)) as [->|Hn].
  - destruct (Hok eq_refl) as (doc & Hscan & Hd). destruct (enabled_of doc) as [b|] eqn:Eb; destruct Hd as (w1 & -> & Hw); exists w1; (split; [exact Hp|]); exists doc; (split; [exact Hscan|]); rewrite Eb.
    + split; [|exact Hw]. unfold post_answer. rewrite (flag_read b _ s Hw). by destruct (object_or_leave send _ r).
    + by split.
  - rewrite (Hbad Hn). exists w. split; [exact Hp|]. by destruct rc.
Qed.
End Post.
End Flag.

(** ** A device that opts out *)

Definition wit_flag_reg : registry (W := ram_entries) := [(bs "nvs", s_ram_vtable)].
Lemma wit_flag_keeps : KeepsKeys wit_flag_reg (bs "nvs") (table_keys [s_update_check_enabled_field]) BB_STORAGE_RAM_MAX_VALUE_BYTES
  (ram_holds (table_keys [s_update_check_enabled_field])) store_of txn_rel.
Proof. apply ram_keeps_keys; [reflexivity|apply Nat.leb_le; vm_compute; reflexivity|]. apply (bool_decide_unpack _). vm_compute. exact I. Qed.
Definition wit_flag_tables (_ : nat) : list field := s_config_fields.
Definition wit_flag_render (_ : Z) : serialize_desc -> mem -> Z -> nat -> bb_err * list byte := bb_json_format_render 4 wit_flag_tables (fun _ _ _ => []) (fun _ => mk_level false false).
Lemma wit_flag_json : json_registered 4 64 200 320 48 4 wit_flag_tables (fun _ _ _ => []) (fun _ => mk_level false false) wit_entry wit_formats wit_flag_render wit_parse.
Proof. split; [vm_compute; discriminate|reflexivity|vm_compute; discriminate|reflexivity]. Qed.
Abbreviation wit_flag_binding := (config_binding (Query := unit) wit_flag_reg 0).
Definition wit_flag_data : data (App := ram_entries) (Query := unit) := (data_run (data_step 48) [Bind (Some wit_flag_binding)] (data0 12)).2.
Lemma wit_flag_rel : table_rel 12 48 wit_flag_data [(CONFIG_KEY, wit_flag_binding, 0)].
Proof. destruct (data_step_rel 12 48 (Bind (Some wit_flag_binding)) _ _ (data0_rel (App := ram_entries) (Query := unit) 12 48)) as [_ H]. exact H. Qed.
Definition wit_flag_world : Data.world (App := ram_entries) := mk_world ram_empty (fun _ => x00).
Definition wit_flag_body : list byte := bs "{" ++ q "enabled" ++ bs ":false}".

Lemma config_post_follows_body_witness : exists frames w1,
  bb_ota_check_config_post_handler (Query := unit) wit_flag_reg (fun _ => BB_OK) wit_entry wit_formats wit_parse 4 wit_flag_tables 17 false (Some wit_flag_body) 4096 3072 8192
    wit_flag_data wit_flag_world fresh_response = Some (BB_OK, mk_rout 200 frames, false, w1) /\
  sent_text frames = bs "{" ++ q "enabled" ++ bs ":false}" /\
  config_rel [s_update_check_enabled_field] (ram_holds (table_keys [s_update_check_enabled_field])) store_of (w_app w1) (flag_stored false ∅).
Proof.
  assert (H0 : config_rel [s_update_check_enabled_field] (ram_holds (table_keys [s_update_check_enabled_field])) store_of ram_empty ∅)
    by (destruct ram_empty_wf as [H1 H2]; split; [split; [done|rewrite H2; set_solver]|by rewrite H2, fmap_empty|apply map_Forall_empty]).
  assert (Hl : (1 <= BB_STORAGE_RAM_MAX_VALUE_BYTES)%nat) by (apply Nat.leb_le; reflexivity).
  destruct (config_post_follows_body wit_flag_reg BB_STORAGE_RAM_MAX_VALUE_BYTES (ram_holds (table_keys [s_update_check_enabled_field])) store_of txn_rel Hl (HK := wit_flag_keeps)
    12 48 0 (fun _ => BB_OK) 4 64 200 320 48 ltac:(lia) ltac:(lia) ltac:(lia) ltac:(lia) ltac:(lia) 4 wit_flag_tables _ _ wit_entry wit_formats wit_flag_render wit_parse wit_flag_json eq_refl
    wit_flag_data _ (CONFIG_KEY, wit_flag_binding, 0) wit_flag_body 17 4096 3072 8192 wit_flag_world ∅ fresh_response wit_flag_rel ltac:(reflexivity) eq_refl
    ltac:(unfold BB_OTA_CHECK_CONFIG_BODY_MAX; lia) ltac:(lia) ltac:(lia) ltac:(lia) H0) as (rc & src & w1 & Hp & H).
  assert (rc = BB_OK) as ->.
  { assert (E : fst <$> json_parse 4 64 200 320 48 (Some wit_flag_body) 4096 3072 = Some BB_OK) by (vm_compute; reflexivity). rewrite Hp in E. by injection E. }
  destruct H as (doc & _ & H).
  assert (E : (fun x => (ro_status x.1.1.2, sent_text (ro_frames x.1.1.2))) <$> bb_ota_check_config_post_handler (Query := unit) wit_flag_reg (fun _ => BB_OK) wit_entry wit_formats wit_parse 4
    wit_flag_tables 17 false (Some wit_flag_body) 4096 3072 8192 wit_flag_data wit_flag_world fresh_response = Some (200, bs "{" ++ q "enabled" ++ bs ":false}")) by (vm_compute; reflexivity).
  assert (Ht : ro_frames (object_or_leave (fun _ => BB_OK) [(bs "enabled", NBool true)] fresh_response).2 = [Some (bs "{"); Some (q "enabled" ++ bs ":true}"); None]) by (vm_compute; reflexivity).
  assert (Hf : object_or_leave (fun _ => BB_OK) [(bs "enabled", NBool false)] fresh_response = (BB_OK, mk_rout 200 [Some (bs "{"); Some (q "enabled" ++ bs ":false}"); None])) by (vm_compute; reflexivity).
  destruct (enabled_of doc) as [[]|]; destruct H as [H Hk].
  - rewrite H in E. cbn [fmap option_fmap option_map fst snd] in E. rewrite Ht in E. cbn in E. discriminate E.
  - rewrite Hf in H. do 2 eexists. split; [exact H|]. split; [reflexivity|exact Hk].
  - rewrite H in E. cbn [fmap option_fmap option_map fst snd] in E. rewrite error_status in E. discriminate E.
Defined.
