(* ===== verification/OtaPull.v ===== *)
(** bb_ota_pull and the tasks of bb_ota_check: downloading and flashing a
    release, and the slot that keeps checks and downloads apart
    (platform/espidf/bb_ota_pull/bb_ota_pull.c,
    platform/espidf/bb_ota_check/bb_ota_check_espidf.c,
    platform/host/bb_core/bb_claim.c, platform/host/bb_tls/bb_tls.c). *)
From Stdlib Require Import Strings.String.
From S2P Require Import Prelude Bytes Num JsonObj Storage Config Settings OtaCheck OtaHttp.

(** * Small decisions *)

Definition bb_ota_pull_download_should_retry (perform_err : Z) (data_complete : bool) : bool := negb (perform_err =? 0) || negb data_complete.
Definition bb_ota_pull_apply_cache_is_fresh (last_check_ok : bool) (last_check_us now_us window_s : Z) : bool :=
  if window_s <=? 0 then false else
  if negb last_check_ok then false else
  if last_check_us <=? 0 then false else now_us - last_check_us <=? window_s * 1000000.
(** The URL to use and whether the probe was redirected; [None]: NULL. *)
Definition bb_ota_pull_resolve_redirect_url (original_url : list byte) (resolved_url : option (list byte)) (perform_err : Z) : list byte * bool :=
  match resolved_url with
  | Some r => if (perform_err =? 0) && negb (bool_decide (r = [])) && negb (bool_decide (r = original_url)) then (r, true) else (original_url, false)
  | None => (original_url, false)
  end.
Inductive heap_dim : Set := DimContiguous | DimTotalFree.
(** [inr]: the guard passes; [inl]: what is short. *)
Definition bb_tls_heap_guard_passes (largest_block contiguous_floor total_free total_floor : Z) : heap_dim + unit :=
  if (0 <? contiguous_floor) && (largest_block <? contiguous_floor) then inl DimContiguous else
  if (0 <? total_floor) && (total_free <? total_floor) then inl DimTotalFree else inr tt.
(** The loop of ota_dl_backoff_ms, [attempt] turns at most. *)
Fixpoint backoff_loop (attempt : nat) (b cap : Z) : Z :=
  match attempt with O => b | S attempt => if b <? cap then backoff_loop attempt (u32 (b * 2)) cap else b end.
Definition ota_dl_backoff_ms (base cap : Z) (attempt : nat) : Z := let b := backoff_loop attempt base cap in if cap <? b then cap else b.
Fixpoint after_scheme (url : list byte) : option (list byte) :=
  match url with
  | x3a :: x2f :: x2f :: rest => Some rest
  | _ :: rest => after_scheme rest
  | [] => None
  end.
Definition host_end (c : byte) : bool := match c with x2f | x3a | x3f | x23 => true | _ => false end.
Fixpoint host_part (p : list byte) : list byte := match p with c :: p => if host_end c then [] else c :: host_part p | [] => [] end.
Definition ota_url_host (url : option (list byte)) (buf_len : nat) : list byte :=
  match url with
  | None => bs "?"
  | Some url =>
      if (buf_len =? 0)%nat then bs "?" else
      let h := take (buf_len - 1) (host_part (default url (after_scheme url))) in
      match h with [] => bs "?" | _ => h end
  end.

(** * Download and flash *)

Inductive ota_state : Set := OTA_STATE_IDLE | OTA_STATE_CHECKING | OTA_STATE_DOWNLOADING | OTA_STATE_VERIFYING | OTA_STATE_COMPLETE | OTA_STATE_ERROR.
(** The message in [last_error]. *)
Inductive pull_error : Type :=
  | ErrHeap (handshake : bool) (dim : heap_dim) | ErrWifi | ErrPartition | ErrHandshake (host : list byte) | ErrBoard (got expected : list byte)
  | ErrAttempts (n : nat) | ErrFinish | ErrPause.
Record pull_status := mk_pull { pl_state : ota_state; pl_last_error : option pull_error; pl_progress_pct : Z }.
Definition s_ota_status0 : pull_status := mk_pull OTA_STATE_IDLE None 0.
Definition ota_set_error (e : pull_error) (st : pull_status) : pull_status := mk_pull OTA_STATE_ERROR (Some e) (pl_progress_pct st).

(** What the download does to the outside, in order. *)
Inductive ota_phase : Set := BB_OTA_PHASE_START | BB_OTA_PHASE_PROGRESS | BB_OTA_PHASE_SUCCESS | BB_OTA_PHASE_FAIL.
Inductive dl_event : Type :=
  | EWdtExtend | EWdtRestore | EPmAcquire | EPmRelease | EBegin (opened : bool) | EAbort | EFinish (ok : bool) | EWait (ms : Z) | EPhase (p : ota_phase) (pct : Z).
Definition dl_state : Type := pull_status * list dl_event.
Definition emit (es : list dl_event) (x : dl_state) : dl_state := (x.1, x.2 ++ es).
Definition on_status (f : pull_status -> pull_status) (x : dl_state) : dl_state := (f x.1, x.2).

Section Download.
(** CONFIG_BB_OTA_PULL_DL_MAX_ATTEMPTS, the backoff and the settling time. *)
Context (max_attempts : nat) (base_ms max_ms : Z) (settle_ms : Z).
(** What the ESP-IDF answers: the heap guard before and at the handshake, the
    network, the partition, and for each download attempt the handshakes with
    the image's project name, the bytes read so far after each piece, how the
    last piece ended and whether everything came. *)
Record dl_env := mk_denv {
  de_heap_pre : heap_dim + unit; de_has_ip : nat -> bool; de_partition : bool; de_heap_hs : heap_dim + unit;
  de_begin : nat -> nat -> bool; de_desc : nat -> nat -> option (list byte); de_running : list byte; de_skip_check : bool;
  de_image_size : nat -> Z; de_reads : nat -> list Z; de_performed : nat -> bool; de_complete : nat -> bool; de_finish : bool
}.
Context (e : dl_env) (download_url : list byte).

(** [for (attempt = 0; attempt < max; attempt++)]: begin and the descriptor. *)
Fixpoint begin_loop (dl attempt tries : nat) (x : dl_state) : option (list byte) * dl_state :=
  match tries with
  | O => (None, x)
  | S tries =>
      let '(desc, x) :=
        if de_begin e dl attempt then
          let x := emit [EBegin true] x in
          match de_desc e dl attempt with Some name => (Some name, x) | None => (None, emit [EAbort] x) end
        else (None, emit [EBegin false] x) in
      match desc with
      | Some name => (Some name, x)
      | None =>
          let x := if (S attempt <? max_attempts)%nat then emit [EWait (ota_dl_backoff_ms base_ms max_ms attempt)] x else x in
          begin_loop dl (S attempt) tries x
      end
  end.
(** The pieces of one attempt; [last]: the percentage told last. *)
Fixpoint perform_loop (image_size : Z) (reads : list Z) (last : Z) (x : dl_state) : dl_state :=
  match reads with
  | [] => x
  | read_so_far :: reads =>
      let '(last, x) :=
        if 0 <? image_size then
          let pct := Z.quot (read_so_far * 100) image_size in
          let x := on_status (fun st => mk_pull (pl_state st) (pl_last_error st) pct) x in
          if negb (Z.quot pct 10 =? Z.quot last 10) then (pct, emit [EPhase BB_OTA_PHASE_PROGRESS pct] x) else (last, x)
        else (last, x) in
      perform_loop image_size reads last (emit [EWait 1] x)
  end.
Definition PROJECT_NAME_SIZE : nat := 32.
Definition same_project (a b : list byte) : bool := bool_decide (take PROJECT_NAME_SIZE a = take PROJECT_NAME_SIZE b).
Inductive dl_result : Set := DlOk | DlFailed | DlMismatch.
Fixpoint download_loop (dl tries : nat) (x : dl_state) : dl_result * dl_state :=
  match tries with
  | O => (DlFailed, x)
  | S tries =>
      let x := if (0 <? dl)%nat then emit [EWait (ota_dl_backoff_ms base_ms max_ms (dl - 1))] x else x in
      let '(desc, x) := begin_loop dl 0 max_attempts x in
      match desc with
      | None => download_loop (S dl) tries (on_status (ota_set_error (ErrHandshake (ota_url_host (Some download_url) 64))) x)
      | Some name =>
          if negb (same_project name (de_running e)) && negb (de_skip_check e)
          then (DlMismatch, emit [EAbort] (on_status (ota_set_error (ErrBoard name (de_running e))) x))
          else
            let x := perform_loop (de_image_size e dl) (de_reads e dl) (-1) x in
            if negb (de_performed e dl) || negb (de_complete e dl) then download_loop (S dl) tries (emit [EAbort] x) else (DlOk, x)
      end
  end.
(** The wait for an address, 500 ms at a time; [true]: there is one. *)
Fixpoint wifi_loop (fuel i : nat) (waited_ms : Z) (x : dl_state) : option (bool * dl_state) :=
  match fuel with
  | O => None
  | S fuel =>
      if de_has_ip e i then Some (true, x) else
      if settle_ms <=? waited_ms then Some (false, on_status (ota_set_error ErrWifi) x) else
      wifi_loop fuel (S i) (u32 (waited_ms + 500)) (emit [EWait 500] x)
  end.
Definition wifi_fuel : nat := Z.to_nat (settle_ms / 500) + 2.

(** From the lock on to its release. *)
Definition flash_locked (x : dl_state) : bool * dl_state :=
  let x := emit [EPmAcquire] x in
  let x := emit [EPhase BB_OTA_PHASE_START 0] (on_status (fun _ => mk_pull OTA_STATE_DOWNLOADING None 0) x) in
  let '(ok, x) :=
    if negb (de_partition e) then (false, on_status (ota_set_error ErrPartition) x) else
    match de_heap_hs e with
    | inl dim => (false, on_status (ota_set_error (ErrHeap true dim)) x)
    | inr _ =>
        match download_loop 0 max_attempts x with
        | (DlMismatch, x) => (false, x)
        | (DlFailed, x) => (false, on_status (ota_set_error (ErrAttempts max_attempts)) x)
        | (DlOk, x) =>
            let x := on_status (fun st => mk_pull OTA_STATE_VERIFYING (pl_last_error st) 100) x in
            let x := emit [EFinish (de_finish e)] x in
            if de_finish e then (true, on_status (fun st => mk_pull OTA_STATE_COMPLETE (pl_last_error st) (pl_progress_pct st)) x)
            else (false, on_status (ota_set_error ErrFinish) x)
        end
    end in
  (ok, emit [EPmRelease] x).
(** [true]: the image is written.  [None]: the wait for an address did not end. *)
Definition ota_download_and_flash (x : dl_state) : option (bool * dl_state) :=
  let x := emit [EWdtExtend] x in
  let body :=
    match de_heap_pre e with
    | inl dim => Some (false, on_status (ota_set_error (ErrHeap false dim)) x)
    | inr _ =>
        match wifi_loop wifi_fuel 0 0 x with
        | None => None
        | Some (false, x) => Some (false, x)
        | Some (true, x) => Some (flash_locked x)
        end
    end in
  '(ok, x) ← body;
  let x := emit [EWdtRestore; EPhase (if ok : bool then BB_OTA_PHASE_SUCCESS else BB_OTA_PHASE_FAIL) (if ok then 100 else 0)] x in
  Some (ok, x).
End Download.

(** * The slot (bb_claim.c) *)

(** The holder's id; ids are compared by their text. *)
Definition claim : Type := option (list byte).
Definition bb_claim_acquire (id : option (list byte)) (c : claim) : bb_err * claim :=
  match id with
  | None => (BB_ERR_INVALID_ARG, c)
  | Some id => match c with None => (BB_OK, Some id) | Some h => if bool_decide (h = id) then (BB_OK, c) else (BB_ERR_CONFLICT, c) end
  end.
Definition bb_claim_release (id : option (list byte)) (c : claim) : claim :=
  match id, c with Some id, Some h => if bool_decide (h = id) then None else c | _, _ => c end.
Definition bb_claim_holder (c : claim) : claim := c.
Definition UPD : list byte := bs "upd_check".
Definition PULL : list byte := bs "ota_pull".

(** * The tasks that share the slot *)

(** Where a task is: between what it did last and what it does next.  [Sp]: a
    try_spawn; [Wk]: the check's task (ondemand_task); [Ap]: a request to apply
    (ota_update_handler); [Pw]: the download's task (ota_worker_task). *)
Inductive proc : Set :=
  | SpStart | SpClaim | SpCreate | SpFree
  | WkRun | WkRelease | WkClear
  | ApStart | ApCheck | ApClaim | ApCreate | ApRelease | ApReset
  | PwRun | PwClear | PwRelease.
#[export] Instance proc_eq_dec : EqDecision proc.
Proof. solve_decision. Defined.
(** s_check_in_flight, s_ota_claim, s_ota_in_progress, and the tasks. *)
Record slots := mk_slots { sl_in_flight : bool; sl_holder : claim; sl_in_progress : bool; sl_procs : list proc }.
Definition slots0 : slots := mk_slots false None false [].

(** One step of a task and what comes of it.  [ans]: whether the task was
    created ([SpCreate], [ApCreate]), whether there is a release to apply
    ([ApCheck]).  A download that succeeds restarts the device; [PwRun] is left
    when it fails. *)
Definition proc_step (p : proc) (ans in_flight : bool) (holder : claim) (in_progress : bool) : bool * claim * bool * list proc :=
  match p with
  | SpStart => if in_flight then (in_flight, holder, in_progress, []) else (true, holder, in_progress, [SpClaim])
  | SpClaim => let '(err, holder) := bb_claim_acquire (Some UPD) holder in (in_flight, holder, in_progress, [if is_ok err then SpCreate else SpFree])
  | SpCreate => (in_flight, holder, in_progress, [if ans then WkRun else SpFree])
  | SpFree => (false, holder, in_progress, [])
  | WkRun => (in_flight, holder, in_progress, [WkRelease])
  | WkRelease => (in_flight, bb_claim_release (Some UPD) holder, in_progress, [WkClear])
  | WkClear => (false, holder, in_progress, [])
  | ApStart => if in_progress then (in_flight, holder, in_progress, []) else (in_flight, holder, true, [ApCheck])
  | ApCheck => (in_flight, holder, in_progress, [if ans then ApClaim else ApReset])
  | ApClaim => let '(err, holder) := bb_claim_acquire (Some PULL) holder in (in_flight, holder, in_progress, [if is_ok err then ApCreate else ApReset])
  | ApCreate => (in_flight, holder, in_progress, [if ans then PwRun else ApRelease])
  | ApRelease => (in_flight, bb_claim_release (Some PULL) holder, in_progress, [ApReset])
  | ApReset => (in_flight, holder, false, [])
  | PwRun => (in_flight, holder, in_progress, [PwClear])
  | PwClear => (in_flight, holder, false, [PwRelease])
  | PwRelease => (in_flight, bb_claim_release (Some PULL) holder, in_progress, [])
  end.
(** A timer, a kick or a request starts a task; the [i]th task moves on. *)
Inductive slot_action : Set := ASpawn | AApply | AGo (i : nat) (ans : bool).
Definition slot_step (a : slot_action) (s : slots) : slots :=
  match a with
  | ASpawn => mk_slots (sl_in_flight s) (sl_holder s) (sl_in_progress s) (sl_procs s ++ [SpStart])
  | AApply => mk_slots (sl_in_flight s) (sl_holder s) (sl_in_progress s) (sl_procs s ++ [ApStart])
  | AGo i ans =>
      match sl_procs s !! i with
      | None => s
      | Some p =>
          let '(f, h, g, ps) := proc_step p ans (sl_in_flight s) (sl_holder s) (sl_in_progress s) in
          mk_slots f h g (take i (sl_procs s) ++ ps ++ drop (S i) (sl_procs s))
      end
  end.
Definition slot_run (acts : list slot_action) (s : slots) : slots := fold_left (fun s a => slot_step a s) acts s.

(** ** Counting tasks *)

Fixpoint cnt (P : proc -> bool) (l : list proc) : nat := match l with [] => 0 | p :: l => (if P p then 1 else 0) + cnt P l end.
Lemma cnt_app P l1 l2 : cnt P (l1 ++ l2) = (cnt P l1 + cnt P l2)%nat.
Proof. induction l1 as [|p l1 IH]; cbn; [done|lia]. Qed.
Lemma cnt_elem P p l : p ∈ l -> P p = true -> (1 <= cnt P l)%nat.
Proof. induction 1 as [p l|p q l _ IH]; cbn; intros H; [rewrite H; lia|]. specialize (IH H). destruct (P q); lia. Qed.
Lemma cnt_at P l i p : l !! i = Some p -> cnt P l = (cnt P (take i l) + (if P p then 1 else 0) + cnt P (drop (S i) l))%nat.
Proof. intros H. rewrite <- (take_drop_middle l i p H) at 1. rewrite cnt_app. cbn [cnt]. lia. Qed.

Definition checking (p : proc) : bool := match p with SpClaim | SpCreate | SpFree | WkRun | WkRelease | WkClear => true | _ => false end.
Definition holds_upd (p : proc) : bool := match p with SpCreate | WkRun | WkRelease => true | _ => false end.
Definition applying (p : proc) : bool := match p with ApCheck | ApClaim | ApCreate | ApRelease | ApReset | PwRun | PwClear => true | _ => false end.
Definition holds_pull (p : proc) : bool := match p with ApCreate | ApRelease | PwRun | PwClear | PwRelease => true | _ => false end.
Definition leaving (p : proc) : bool := match p with PwRelease => true | _ => false end.

(** A request that takes the slot while a download's task is between giving up
    s_ota_in_progress and giving up the slot. *)
Definition overtakes (a : slot_action) (s : slots) : bool :=
  match a with AGo i _ => bool_decide (sl_procs s !! i = Some ApClaim) && (0 <? cnt leaving (sl_procs s))%nat | _ => false end.
(** A check whose task could not be created. *)
Definition spawn_fails (a : slot_action) (s : slots) : bool := match a with AGo i false => bool_decide (sl_procs s !! i = Some SpCreate) | _ => false end.
Fixpoint never (bad : slot_action -> slots -> bool) (acts : list slot_action) (s : slots) : Prop :=
  match acts with [] => True | a :: acts => bad a s = false /\ never bad acts (slot_step a s) end.

Record slots_inv (s : slots) : Prop := {
  si_checking : cnt checking (sl_procs s) = if sl_in_flight s then 1%nat else 0%nat;
  si_applying : cnt applying (sl_procs s) = if sl_in_progress s then 1%nat else 0%nat;
  si_upd : (0 < cnt holds_upd (sl_procs s))%nat -> sl_holder s = Some UPD;
  si_pull : sl_holder s = Some PULL -> (0 < cnt holds_pull (sl_procs s))%nat;
  si_ids : sl_holder s = None \/ sl_holder s = Some UPD \/ sl_holder s = Some PULL
}.
(** With no overtaking. *)
Definition apart (s : slots) : Prop := (cnt holds_pull (sl_procs s) <= 1)%nat /\ ((0 < cnt holds_pull (sl_procs s))%nat -> sl_holder s = Some PULL).
(** With no failed creation. *)
Definition no_leak (s : slots) : Prop := sl_holder s = Some UPD -> (0 < cnt holds_upd (sl_procs s))%nat.

(** The slot's answers, for its two users. *)
Lemma acquire_free id : bb_claim_acquire (Some id) None = (BB_OK, Some id).
Proof. done. Qed.
Lemma acquire_own id : bb_claim_acquire (Some id) (Some id) = (BB_OK, Some id).
Proof. cbn. by rewrite bool_decide_eq_true_2. Qed.
Lemma acquire_upd_pull : bb_claim_acquire (Some UPD) (Some PULL) = (BB_ERR_CONFLICT, Some PULL).
Proof. done. Qed.
Lemma acquire_pull_upd : bb_claim_acquire (Some PULL) (Some UPD) = (BB_ERR_CONFLICT, Some UPD).
Proof. done. Qed.
Lemma release_free id : bb_claim_release (Some id) None = None.
Proof. done. Qed.
Lemma release_own id : bb_claim_release (Some id) (Some id) = None.
Proof. cbn. by rewrite bool_decide_eq_true_2. Qed.
Lemma release_upd_pull : bb_claim_release (Some UPD) (Some PULL) = Some PULL.
Proof. done. Qed.
Lemma release_pull_upd : bb_claim_release (Some PULL) (Some UPD) = Some UPD.
Proof. done. Qed.
Lemma upd_not_pull : Some UPD = Some PULL -> False.
Proof. discriminate. Qed.
Create Rewrite HintDb slot.
#[export] Hint Rewrite acquire_free acquire_own acquire_upd_pull acquire_pull_upd release_free release_own release_upd_pull release_pull_upd : slot.

Lemma upd_checking l : (cnt holds_upd l <= cnt checking l)%nat.
Proof. induction l as [|[] l IH]; cbn; lia. Qed.
Lemma leaving_pull l : (cnt leaving l <= cnt holds_pull l)%nat.
Proof. induction l as [|[] l IH]; cbn; lia. Qed.
(** A task that holds the slot for a download asked for it, or is leaving. *)
Lemma pull_applying l : (cnt holds_pull l <= cnt applying l + cnt leaving l)%nat.
Proof. induction l as [|[] l IH]; cbn; lia. Qed.

(** Counts after one task's step; [slot_case] splits on the task and on the
    state it reads, [slot_solve] closes what is left. *)
Ltac slot_count procs i p Ep :=
  pose proof (cnt_at checking procs i p Ep); pose proof (cnt_at applying procs i p Ep);
  pose proof (cnt_at holds_upd procs i p Ep); pose proof (cnt_at holds_pull procs i p Ep); pose proof (cnt_at leaving procs i p Ep);
  pose proof (upd_checking (take i procs)); pose proof (upd_checking (drop (S i) procs));
  pose proof (leaving_pull (take i procs)); pose proof (leaving_pull (drop (S i) procs));
  pose proof (pull_applying (take i procs)); pose proof (pull_applying (drop (S i) procs)).
Ltac slot_simpl := cbn [slot_step sl_in_flight sl_holder sl_in_progress sl_procs cnt checking applying holds_upd holds_pull leaving app] in *.
Ltac slot_solve :=
  repeat match goal with
  | H : Some UPD = Some PULL |- _ => destruct (upd_not_pull H)
  | H : Some PULL = Some UPD |- _ => destruct (upd_not_pull (eq_sym H))
  | H : ?x = ?x -> _ |- _ => specialize (H eq_refl)
  | H : (0 < ?n)%nat -> _ |- _ => first [assert (n = 0)%nat by lia; clear H | specialize (H ltac:(lia))]
  | H : None = Some _ |- _ => discriminate H
  | |- _ -> _ => intro
  end; try discriminate; try done; try lia; auto.
Lemma inv_step a s : slots_inv s -> slots_inv (slot_step a s).
Proof.
  destruct s as [f h g procs]. intros [H1 H2 H3 H4 H5]. destruct a as [| |i ans]; slot_simpl.
  1,2: split; slot_simpl; rewrite ?cnt_app; slot_simpl; rewrite ?Nat.add_0_r; done.
  destruct (procs !! i) as [p|] eqn:Ep; [|by split]. slot_count procs i p Ep.
  destruct H5 as [-> | [-> | ->]], p; cbn [proc_step]; try destruct f; try destruct g; try destruct ans; autorewrite with slot; cbn [is_ok].
  all: split; slot_simpl; rewrite ?cnt_app; slot_simpl; slot_solve.
Qed.
Lemma apart_step a s : slots_inv s -> overtakes a s = false -> apart s -> apart (slot_step a s).
Proof.
  destruct s as [f h g procs]. intros [H1 H2 H3 H4 H5] Hn [A1 A2]. destruct a as [| |i ans]; slot_simpl.
  1,2: split; slot_simpl; rewrite ?cnt_app; slot_simpl; rewrite ?Nat.add_0_r; done.
  destruct (procs !! i) as [p|] eqn:Ep; [|by split]. slot_count procs i p Ep.
  assert (Hl : p = ApClaim -> cnt leaving procs = 0%nat).
  { intros ->. unfold overtakes in Hn. cbn in Hn. rewrite Ep, bool_decide_eq_true_2 in Hn by done. apply Nat.ltb_ge in Hn. lia. }
  clear Hn. destruct H5 as [-> | [-> | ->]], p; cbn [proc_step]; try destruct f; try destruct g; try destruct ans; autorewrite with slot; cbn [is_ok].
  all: split; slot_simpl; rewrite ?cnt_app; slot_simpl; slot_solve.
Qed.
Lemma no_leak_step a s : slots_inv s -> spawn_fails a s = false -> no_leak s -> no_leak (slot_step a s).
Proof.
  destruct s as [f h g procs]. unfold no_leak. intros [H1 H2 H3 H4 H5] Hn A. destruct a as [| |i ans]; slot_simpl.
  1,2: rewrite ?cnt_app; slot_simpl; rewrite ?Nat.add_0_r; done.
  destruct (procs !! i) as [p|] eqn:Ep; [|done]. slot_count procs i p Ep.
  assert (Hl : p = SpCreate -> ans = true).
  { intros ->. destruct ans; [done|]. unfold spawn_fails in Hn. cbn in Hn. by rewrite Ep, bool_decide_eq_true_2 in Hn. }
  clear Hn. destruct H5 as [-> | [-> | ->]], p; cbn [proc_step]; try destruct f; try destruct g; try (destruct ans; [|try discriminate (Hl eq_refl)]); autorewrite with slot; cbn [is_ok].
  all: slot_simpl; rewrite ?cnt_app; slot_simpl; slot_solve.
Qed.
Lemma slots0_inv : slots_inv slots0 /\ apart slots0 /\ no_leak slots0.
Proof. split; [split; cbn; try done; try lia; by left|]. split; [split; cbn; lia|done]. Qed.
Lemma slot_run_cons a acts s : slot_run (a :: acts) s = slot_run acts (slot_step a s).
Proof. done. Qed.
Lemma run_slots acts s : slots_inv s -> slots_inv (slot_run acts s) /\ (never overtakes acts s -> apart s -> apart (slot_run acts s)) /\ (never spawn_fails acts s -> no_leak s -> no_leak (slot_run acts s)).
Proof.
  revert s. induction acts as [|a acts IH]; intros s Hs; [done|]. rewrite slot_run_cons. destruct (IH _ (inv_step a s Hs)) as (I1 & I2 & I3).
  split_and!; [done | |]; cbn; intros [N1 N2] A; [by apply I2; [|apply apart_step] | by apply I3; [|apply no_leak_step]].
Qed.

(** ** Every task ends *)

(** The steps a task still makes at most. *)
Definition rank (p : proc) : nat :=
  match p with
  | SpStart => 7 | SpClaim => 6 | SpCreate => 5 | SpFree => 1
  | WkRun => 3 | WkRelease => 2 | WkClear => 1
  | ApStart => 8 | ApCheck => 7 | ApClaim => 6 | ApCreate => 5 | ApRelease => 2 | ApReset => 1
  | PwRun => 3 | PwClear => 2 | PwRelease => 1
  end.
Fixpoint ranks (l : list proc) : nat := match l with [] => 0 | p :: l => rank p + ranks l end.
Lemma ranks_app l1 l2 : ranks (l1 ++ l2) = (ranks l1 + ranks l2)%nat.
Proof. induction l1 as [|p l1 IH]; cbn; [done|lia]. Qed.
Lemma proc_step_rank p ans f h g : (ranks (proc_step p ans f h g).2 < rank p)%nat.
Proof. destruct p; cbn; repeat case_match; cbn; lia. Qed.
Lemma go_rank i ans s : (i < length (sl_procs s))%nat -> (ranks (sl_procs (slot_step (AGo i ans) s)) < ranks (sl_procs s))%nat.
Proof.
  intros Hi. destruct (lookup_lt_is_Some_2 _ _ Hi) as [p Ep]. cbn [slot_step]. rewrite Ep.
  pose proof (proc_step_rank p ans (sl_in_flight s) (sl_holder s) (sl_in_progress s)) as Hr.
  destruct (proc_step _ _ _ _ _) as [[[f h] g] ps]. cbn [sl_procs]. rewrite <- (take_drop_middle _ _ _ Ep) at 3. rewrite !ranks_app. cbn [snd ranks] in *. lia.
Qed.
Definition drain (n : nat) (s : slots) : slots := slot_run (repeat (AGo 0 true) n) s.
Lemma drained n s : (ranks (sl_procs s) <= n)%nat -> sl_procs (drain n s) = [].
Proof.
  revert s. induction n as [|n IH]; intros s Hr.
  { unfold drain. cbn. destruct (sl_procs s) as [|[] l]; [done|cbn in Hr; lia ..]. }
  change (drain (S n) s) with (drain n (slot_step (AGo 0 true) s)). apply IH.
  destruct (sl_procs s) as [|p l] eqn:Ep; [cbn; rewrite Ep; cbn; rewrite Ep; cbn; lia|].
  pose proof (go_rank 0 true s) as Hg. rewrite Ep in Hg. cbn [length] in Hg. specialize (Hg ltac:(lia)). lia.
Qed.
Lemma never_drain n s : never spawn_fails (repeat (AGo 0 true) n) s.
Proof. revert s. induction n as [|n IH]; intros s; cbn; [done|split; [done|apply IH]]. Qed.
Lemma idle_slots s : slots_inv s -> no_leak s -> sl_procs s = [] -> s = slots0.
Proof.
  destruct s as [f h g procs]. unfold no_leak. intros [H1 H2 H3 H4 H5] Hl Hp. slot_simpl. subst procs. cbn in *.
  destruct f, g; try discriminate. destruct H5 as [-> | [-> | ->]]; [done|specialize (Hl eq_refl); lia|specialize (H4 eq_refl); lia].
Qed.

Definition is_check (p : proc) : bool := match p with WkRun => true | _ => false end.
Definition is_operation (p : proc) : bool := match p with WkRun | PwRun => true | _ => false end.
Lemma check_holds l : (cnt is_check l <= cnt holds_upd l)%nat.
Proof. induction l as [|[] l IH]; cbn; lia. Qed.
Lemma operation_holds l : (cnt is_operation l <= cnt holds_upd l + cnt holds_pull l)%nat.
Proof. induction l as [|[] l IH]; cbn; lia. Qed.

(** C9: The slot that checks and downloads share (s_ota_claim, with
    s_check_in_flight and s_ota_in_progress), for every interleaving of the
    timer, kicks, requests to apply and the tasks they create, from boot on:
    at most one check runs, and while it runs the slot is its own; as long as
    no request takes the slot from a download's task that has cleared
    s_ota_in_progress and not yet released the slot, at most one check or
    download runs at any time; and as long as no creation of a check's task
    fails, letting the tasks finish frees the slot and both flags. *)
Theorem slot_keeps_operations_apart acts : let s := slot_run acts slots0 in
  (cnt is_check (sl_procs s) <= 1)%nat /\ ((0 < cnt is_check (sl_procs s))%nat -> bb_claim_holder (sl_holder s) = Some UPD) /\
  (never overtakes acts slots0 -> (cnt is_operation (sl_procs s) <= 1)%nat) /\
  (never spawn_fails acts slots0 -> drain (ranks (sl_procs s)) s = slots0).
Proof.
  cbn zeta. destruct slots0_inv as (I0 & A0 & L0). destruct (run_slots acts slots0 I0) as (I & A & L). revert I A L. generalize (slot_run acts slots0). intros s I A L.
  pose proof I as [H1 H2 H3 H4 H5]. pose proof (check_holds (sl_procs s)). pose proof (upd_checking (sl_procs s)). pose proof (operation_holds (sl_procs s)).
  assert (Hc : (cnt checking (sl_procs s) <= 1)%nat) by (destruct (sl_in_flight s); lia). split_and!; [lia | |..].
  - intros Hk. apply H3. lia.
  - intros N. destruct (A N A0) as [B1 B2]. destruct (decide (cnt holds_upd (sl_procs s) = 0%nat)); [lia|].
    assert (cnt holds_pull (sl_procs s) = 0%nat); [|lia]. destruct (decide (cnt holds_pull (sl_procs s) = 0%nat)); [done|].
    exfalso. apply upd_not_pull. rewrite <- (H3 ltac:(lia)). apply B2. lia.
  - intros N. destruct (run_slots (repeat (AGo 0 true) (ranks (sl_procs s))) s I) as (I' & _ & L').
    apply idle_slots; [done| |by apply drained]. apply L'; [apply never_drain|by apply L].
Qed.
(** A check and, after it, an apply. *)
Definition wit_orderly : list slot_action := [ASpawn; AApply; AGo 0 true; AGo 0 true; AGo 0 true; AGo 1 true; AGo 0 true; AGo 0 true; AGo 1 true; AGo 1 true; AGo 1 true; AGo 0 true].
Lemma slot_keeps_operations_apart_witness :
  never overtakes wit_orderly slots0 /\ never spawn_fails wit_orderly slots0 /\ sl_procs (slot_run wit_orderly slots0) = [PwRun] /\
  (cnt is_operation (sl_procs (slot_run wit_orderly slots0)) <= 1)%nat /\ drain 3 (slot_run wit_orderly slots0) = slots0.
Proof.
  assert (N1 : never overtakes wit_orderly slots0) by (vm_compute; tauto). assert (N2 : never spawn_fails wit_orderly slots0) by (vm_compute; tauto).
  destruct (slot_keeps_operations_apart wit_orderly) as (_ & _ & H3 & H4). split_and!; [exact N1 | exact N2 | reflexivity | exact (H3 N1) | exact (H4 N2)].
Defined.

(** What the two provisos exclude.  A second request overtakes the first
    download's task: when that task leaves, the slot is free, and a check runs
    beside the second download. *)
Definition overtaken : list slot_action :=
  [AApply; AGo 0 true; AGo 0 true; AGo 0 true; AGo 0 true; AGo 0 true; AGo 0 true;
   AApply; AGo 1 true; AGo 1 true; AGo 1 true; AGo 1 true; AGo 0 true;
   ASpawn; AGo 1 true; AGo 1 true; AGo 1 true].
Example overtaken_apply_breaks_slot : sl_procs (slot_run overtaken slots0) = [PwRun; WkRun].
Proof. reflexivity. Qed.
(** A check's task cannot be created: the slot stays taken, with no task. *)
Definition failed_spawn : list slot_action := [ASpawn; AGo 0 true; AGo 0 true; AGo 0 false; AGo 0 true].
Example failed_spawn_keeps_slot : slot_run failed_spawn slots0 = mk_slots false (Some UPD) false [].
Proof. reflexivity. Qed.

(** * What a download leaves behind *)

(** What is in force outside: the longer watchdog, the power lock, an OTA
    session. *)
Record held := mk_held { hl_wdt : bool; hl_pm : bool; hl_session : bool }.
Definition held0 : held := mk_held false false false.
(** [None]: used out of order. *)
Definition track1 (ev : dl_event) (h : held) : option held :=
  let '(mk_held wdt pm session) := h in
  match ev with
  | EWdtExtend => if wdt then None else Some (mk_held true pm session)
  | EWdtRestore => if wdt && negb pm && negb session then Some (mk_held false pm session) else None
  | EPmAcquire => if pm then None else Some (mk_held wdt true session)
  | EPmRelease => if pm && negb session then Some (mk_held wdt false session) else None
  | EBegin opened => if pm && negb session then Some (mk_held wdt pm opened) else None
  | EAbort | EFinish _ => if session then Some (mk_held wdt pm false) else None
  | EWait _ | EPhase _ _ => Some h
  end.
Fixpoint track (evs : list dl_event) (h : held) : option held := match evs with [] => Some h | ev :: evs => h ← track1 ev h; track evs h end.
Fixpoint begins (evs : list dl_event) : nat := match evs with [] => 0 | EBegin _ :: evs => S (begins evs) | _ :: evs => begins evs end.
Fixpoint written (evs : list dl_event) : bool := match evs with [] => false | EFinish true :: _ => true | _ :: evs => written evs end.
Lemma track_app l1 l2 h h1 : track l1 h = Some h1 -> track (l1 ++ l2) h = track l2 h1.
Proof. revert h. induction l1 as [|ev l1 IH]; cbn; intros h H; [by injection H as ->|]. destruct (track1 ev h) as [h'|]; [|done]. by apply IH. Qed.
Lemma begins_app l1 l2 : begins (l1 ++ l2) = (begins l1 + begins l2)%nat.
Proof. induction l1 as [|[] l1 IH]; cbn; auto. Qed.
Lemma written_app l1 l2 : written (l1 ++ l2) = written l1 || written l2.
Proof. induction l1 as [|[| | | | | |[]| |] l1 IH]; cbn; auto. Qed.
(** From [x] to [x'] with [h] held before and [h'] after, in at most [n]
    handshakes; [w]: the image was written. *)
Definition leads (h : held) (x : dl_state) (n : nat) (w : bool) (h' : held) (x' : dl_state) : Prop :=
  exists evs, x'.2 = x.2 ++ evs /\ track evs h = Some h' /\ (begins evs <= n)%nat /\ written evs = w.
Lemma leads_refl h x : leads h x 0 false h x.
Proof. exists []. by rewrite app_nil_r. Qed.
Lemma leads_trans h x n1 w1 h1 x1 n2 w2 h2 x2 : leads h x n1 w1 h1 x1 -> leads h1 x1 n2 w2 h2 x2 -> leads h x (n1 + n2) (w1 || w2) h2 x2.
Proof.
  intros (l1 & E1 & T1 & B1 & W1) (l2 & E2 & T2 & B2 & W2). exists (l1 ++ l2). rewrite E2, E1, app_assoc, (track_app _ _ _ _ T1), begins_app, written_app, W1, W2.
  split_and!; [done|done|lia|done].
Qed.
Lemma leads_weak h x n n' w h' x' : leads h x n w h' x' -> (n <= n')%nat -> leads h x n' w h' x'.
Proof. intros (l & E & T & B & W) Hn. exists l. split_and!; [done|done|lia|done]. Qed.
Lemma leads_emit h x n w h1 x1 evs h2 : leads h x n w h1 x1 -> track evs h1 = Some h2 -> leads h x (n + begins evs) (w || written evs) h2 (emit evs x1).
Proof. intros H T. apply (leads_trans _ _ _ _ _ _ _ _ _ _ H). exists evs. split_and!; [done|done|lia|done]. Qed.
Lemma leads_status h x n w h1 x1 f : leads h x n w h1 x1 -> leads h x n w h1 (on_status f x1).
Proof. done. Qed.
Lemma leads_wait h x n w h1 y ms : leads h x n w h1 y -> leads h x n w h1 (emit [EWait ms] y).
Proof. intros H. apply (leads_weak _ _ (n + 0)); [|lia]. rewrite <- (orb_false_r w). apply (leads_emit _ _ _ _ _ _ [EWait ms] h1 H). by destruct h1. Qed.
Lemma leads_phase h x n w h1 y p pct : leads h x n w h1 y -> leads h x n w h1 (emit [EPhase p pct] y).
Proof. intros H. apply (leads_weak _ _ (n + 0)); [|lia]. rewrite <- (orb_false_r w). apply (leads_emit _ _ _ _ _ _ [EPhase p pct] h1 H). by destruct h1. Qed.

Section Leaves.
Context (max_attempts : nat) (base_ms max_ms : Z) (settle_ms : Z) (e : dl_env) (download_url : list byte).
Definition locked : held := mk_held true true false.
Definition in_session : held := mk_held true true true.

Lemma begin_leads dl attempt tries x :
  let '(desc, x') := begin_loop max_attempts base_ms max_ms e dl attempt tries x in
  leads locked x tries false (if desc is Some _ then in_session else locked) x'.
Proof.
  revert attempt x. induction tries as [|tries IH]; intros attempt x; cbn [begin_loop]; [apply leads_refl|].
  assert (Hw : forall y, leads locked x 1 false locked y ->
    leads locked x 1 false locked (if (S attempt <? max_attempts)%nat then emit [EWait (ota_dl_backoff_ms base_ms max_ms attempt)] y else y)).
  { intros y Hy. case_match; [|done]. by apply leads_wait. }
  assert (Hon : forall y, leads locked x 1 false locked y -> let '(desc, x') := begin_loop max_attempts base_ms max_ms e dl (S attempt) tries y in
    leads locked x (S tries) false (if desc is Some _ then in_session else locked) x').
  { intros y Hy. specialize (IH (S attempt) y). destruct (begin_loop _ _ _ _ _ _ _ y) as [desc x']. exact (leads_trans _ _ _ _ _ _ _ _ _ _ Hy IH). }
  pose proof (leads_refl locked x) as H0. destruct (de_begin e dl attempt).
  - pose proof (leads_emit _ _ _ _ _ _ [EBegin true] in_session H0 eq_refl) as H1. destruct (de_desc e dl attempt) as [name|].
    + apply (leads_weak _ _ _ _ _ _ _ H1). cbn. lia.
    + apply Hon, Hw. exact (leads_emit _ _ _ _ _ _ [EAbort] locked H1 eq_refl).
  - apply Hon, Hw. exact (leads_emit _ _ _ _ _ _ [EBegin false] locked H0 eq_refl).
Qed.
Lemma perform_leads image_size reads last x h : leads h x 0 false h (perform_loop image_size reads last x).
Proof.
  revert last x. induction reads as [|n reads IH]; intros last x; cbn [perform_loop]; [apply leads_refl|].
  assert (Hon : forall last y, leads h x 0 false h y -> leads h x 0 false h (perform_loop image_size reads last (emit [EWait 1] y))).
  { intros l y Hy. apply (leads_trans _ _ _ _ _ _ _ _ _ _ (leads_wait _ _ _ _ _ _ 1 Hy) (IH _ _)). }
  pose proof (leads_refl h x) as H0. repeat case_match; simplify_eq; apply Hon; try exact H0.
  by apply leads_phase, leads_status.
Qed.
Lemma download_leads dl tries x :
  let '(r, x') := download_loop max_attempts base_ms max_ms e download_url dl tries x in
  leads locked x (tries * max_attempts) false (if r is DlOk then in_session else locked) x'.
Proof.
  revert dl x. induction tries as [|tries IH]; intros dl x; cbn [download_loop]; [apply leads_refl|].
  set (x0 := if (0 <? dl)%nat then _ else x). assert (H0 : leads locked x 0 false locked x0).
  { subst x0. case_match; [|apply leads_refl]. apply leads_wait, leads_refl. }
  assert (Hon : forall y, leads locked x max_attempts false locked y -> let '(r, x') := download_loop max_attempts base_ms max_ms e download_url (S dl) tries y in
    leads locked x (S tries * max_attempts) false (if r is DlOk then in_session else locked) x').
  { intros y Hy. specialize (IH (S dl) y). destruct (download_loop _ _ _ _ _ _ _ y) as [r x']. exact (leads_trans _ _ _ _ _ _ _ _ _ _ Hy IH). }
  pose proof (begin_leads dl 0 max_attempts x0) as Hb. destruct (begin_loop _ _ _ _ _ _ _ x0) as [desc x1]. pose proof (leads_trans _ _ _ _ _ _ _ _ _ _ H0 Hb) as H1.
  destruct desc as [name|]; [|apply Hon; exact (leads_status _ _ _ _ _ _ _ H1)]. destruct (negb (same_project name (de_running e)) && negb (de_skip_check e)).
  { pose proof (leads_emit _ _ _ _ _ _ [EAbort] locked (leads_status _ _ _ _ _ _ (ota_set_error (ErrBoard name (de_running e))) H1) eq_refl) as H2.
    apply (leads_weak _ _ _ _ _ _ _ H2). cbn. lia. }
  pose proof (leads_trans _ _ _ _ _ _ _ _ _ _ H1 (perform_leads (de_image_size e dl) (de_reads e dl) (-1) x1 in_session)) as H2.
  destruct (negb (de_performed e dl) || negb (de_complete e dl)).
  - apply Hon. apply (leads_weak _ _ (0 + max_attempts + 0 + begins [EAbort])); [|cbn; lia]. exact (leads_emit _ _ _ _ _ _ [EAbort] locked H2 eq_refl).
  - apply (leads_weak _ _ _ _ _ _ _ H2). lia.
Qed.
(** The wait for an address ends, [S k] turns being enough once it is due. *)
Lemma wifi_leads fuel i waited x : 0 <= waited -> settle_ms < 2 ^ 32 - 1000 -> settle_ms + 500 <= waited + 500 * Z.of_nat fuel -> waited < 2 ^ 32 - 500 -> (1 <= fuel)%nat ->
  exists ok x', wifi_loop settle_ms e fuel i waited x = Some (ok, x') /\ leads (mk_held true false false) x 0 false (mk_held true false false) x' /\ (ok = false -> pl_state x'.1 = OTA_STATE_ERROR).
Proof.
  revert i waited x. induction fuel as [|fuel IH]; intros i waited x H0 Hs Hw Hm Hf; [lia|]. cbn [wifi_loop].
  destruct (de_has_ip e i); [exists true, x; split; [done|split; [apply leads_refl|done]]|].
  destruct (Z.leb_spec settle_ms waited); [eexists _, _; split; [done|split; [exact (leads_status _ _ _ _ _ _ _ (leads_refl _ _))|done]]|].
  unfold u32. rewrite Z.mod_small by lia.
  destruct (IH (S i) (waited + 500) (emit [EWait 500] x)) as (ok & x' & E & L & Ho); [lia..|]. exists ok, x'. rewrite E. split; [done|split; [|done]].
  exact (leads_trans _ _ _ _ _ _ _ _ _ _ (leads_wait _ _ _ _ _ _ 500 (leads_refl _ _)) L).
Qed.

Lemma mismatch_error dl tries x : (download_loop max_attempts base_ms max_ms e download_url dl tries x).1 = DlMismatch ->
  pl_state (download_loop max_attempts base_ms max_ms e download_url dl tries x).2.1 = OTA_STATE_ERROR.
Proof.
  revert dl x. induction tries as [|tries IH]; intros dl x; cbn [download_loop]; [done|].
  destruct (begin_loop _ _ _ _ _ _ _ _) as [[name|] x1]; [|apply IH]. destruct (negb _ && negb _); [done|]. destruct (negb _ || negb _); [apply IH|done].
Qed.
Lemma flash_leads x : let '(ok, x') := flash_locked max_attempts base_ms max_ms e download_url x in
  leads (mk_held true false false) x (max_attempts * max_attempts) ok (mk_held true false false) x' /\
  (if ok then pl_state x'.1 = OTA_STATE_COMPLETE /\ pl_progress_pct x'.1 = 100 else pl_state x'.1 = OTA_STATE_ERROR).
Proof.
  unfold flash_locked. set (x1 := emit [EPhase _ _] _).
  assert (H1 : leads (mk_held true false false) x 0 false locked x1).
  { apply leads_phase, leads_status. exact (leads_emit _ _ _ _ (mk_held true false false) _ [EPmAcquire] locked (leads_refl _ _) eq_refl). }
  assert (Hrel : forall n w y, leads (mk_held true false false) x n w locked y -> (n <= max_attempts * max_attempts)%nat -> leads (mk_held true false false) x (max_attempts * max_attempts) w (mk_held true false false) (emit [EPmRelease] y)).
  { intros n w y Hy Hn. apply (leads_weak _ _ (n + 0)); [|lia]. rewrite <- (orb_false_r w). exact (leads_emit _ _ _ _ _ _ [EPmRelease] _ Hy eq_refl). }
  destruct (de_partition e); cbn [negb]; [|split; [|done]; apply (Hrel 0%nat false); [exact (leads_status _ _ _ _ _ _ _ H1)|lia]].
  destruct (de_heap_hs e) as [dim|]; [split; [|done]; apply (Hrel 0%nat false); [exact (leads_status _ _ _ _ _ _ _ H1)|lia]|].
  pose proof (download_leads 0 max_attempts x1) as Hd. destruct (download_loop _ _ _ _ _ _ _ x1) as [r x2] eqn:Ed.
  pose proof (leads_trans _ _ _ _ _ _ _ _ _ _ H1 Hd) as H2. destruct r; [|split; [|done]; by apply (Hrel _ _ _ H2); lia|].
  - set (x3 := emit [EFinish _] _). assert (H3 : leads (mk_held true false false) x (max_attempts * max_attempts) (de_finish e) locked x3).
    { apply (leads_weak _ _ (0 + max_attempts * max_attempts + 0)); [|lia]. replace (de_finish e) with ((false || false) || written [EFinish (de_finish e)]) by (cbn; by destruct (de_finish e)).
      exact (leads_emit _ _ _ _ _ _ [EFinish (de_finish e)] locked H2 eq_refl). }
    destruct (de_finish e); split; try done; apply (Hrel _ _ _ H3); lia.
  - split; [apply (Hrel _ _ _ H2); lia|]. change (pl_state x2.1 = OTA_STATE_ERROR). pose proof (mismatch_error 0 max_attempts x1) as Hm. rewrite Ed in Hm. by apply Hm.
Qed.

Lemma download_leaves st : 0 <= settle_ms < 2 ^ 32 - 1000 ->
  exists ok st' evs, ota_download_and_flash max_attempts base_ms max_ms settle_ms e download_url (st, []) = Some (ok, (st', evs)) /\
  track evs held0 = Some held0 /\ (begins evs <= max_attempts * max_attempts)%nat /\ written evs = ok /\
  (if ok then pl_state st' = OTA_STATE_COMPLETE /\ pl_progress_pct st' = 100 else pl_state st' = OTA_STATE_ERROR).
Proof.
  intros Hs. unfold ota_download_and_flash. set (x0 := emit [EWdtExtend] (st, [])). set (w := mk_held true false false).
  assert (H0 : leads held0 (st, []) 0 false w x0) by exact (leads_emit _ _ _ _ held0 _ [EWdtExtend] w (leads_refl _ _) eq_refl).
  assert (Hdone : forall ok n y, leads held0 (st, []) n ok w y -> (n <= max_attempts * max_attempts)%nat ->
    (if ok : bool then pl_state y.1 = OTA_STATE_COMPLETE /\ pl_progress_pct y.1 = 100 else pl_state y.1 = OTA_STATE_ERROR) ->
    exists ok' st' evs, Some (ok, emit [EWdtRestore; EPhase (if ok then BB_OTA_PHASE_SUCCESS else BB_OTA_PHASE_FAIL) (if ok then 100 else 0)] y) = Some (ok', (st', evs)) /\
      track evs held0 = Some held0 /\ (begins evs <= max_attempts * max_attempts)%nat /\ written evs = ok' /\
      (if ok' then pl_state st' = OTA_STATE_COMPLETE /\ pl_progress_pct st' = 100 else pl_state st' = OTA_STATE_ERROR)).
  { intros ok n y Hy Hn Hst. destruct (leads_emit _ _ _ _ _ _ [EWdtRestore; EPhase (if ok then BB_OTA_PHASE_SUCCESS else BB_OTA_PHASE_FAIL) (if ok then 100 else 0)] held0 Hy eq_refl) as (evs & E & T & B & W).
    exists ok, y.1, evs. cbn in E. split_and!; [by rewrite <- E|done|cbn in B; lia|by rewrite W; cbn; rewrite orb_false_r|done]. }
  destruct (de_heap_pre e) as [dim|]; [apply (Hdone false 0%nat); [exact (leads_status _ _ _ _ _ _ _ H0)|lia|done]|].
  destruct (wifi_leads (wifi_fuel settle_ms) 0 0 x0) as (okw & x1 & Ew & L1 & Ho); [lia| |unfold wifi_fuel|lia|unfold wifi_fuel; lia|]; [lia| |].
  { pose proof (Z.div_mod settle_ms 500 ltac:(lia)). pose proof (Z.mod_pos_bound settle_ms 500 ltac:(lia)). pose proof (Z.div_pos settle_ms 500 ltac:(lia) ltac:(lia)). lia. }
  rewrite Ew. pose proof (leads_trans _ _ _ _ _ _ _ _ _ _ H0 L1) as H1. destruct okw; [|apply (Hdone false 0%nat); [exact H1|lia|by apply Ho]].
  pose proof (flash_leads x1) as Hf. destruct (flash_locked _ _ _ _ _ x1) as [ok x2]. destruct Hf as [L2 Hst].
  cbn [mbind option_bind]. apply (Hdone ok (0 + max_attempts * max_attempts)%nat); [exact (leads_trans _ _ _ _ _ _ _ _ _ _ H1 L2)|lia|done].
Qed.
End Leaves.

(** Two rounds: in the first no handshake succeeds; in the second one handshake
    is refused, one has no descriptor and the third brings the image. *)
Definition wit_env : dl_env := {|
  de_heap_pre := inr tt; de_has_ip := fun i => (2 <=? i)%nat; de_partition := true; de_heap_hs := inr tt;
  de_begin := fun dl attempt => (1 <=? dl)%nat && (1 <=? attempt)%nat;
  de_desc := fun _ attempt => if (2 <=? attempt)%nat then Some (bs "board") else None;
  de_running := bs "board"; de_skip_check := false;
  de_image_size := fun _ => 1000; de_reads := fun _ => [400; 1000]; de_performed := fun _ => true; de_complete := fun _ => true; de_finish := true |}.
Definition wit_flash : option (bool * dl_state) := ota_download_and_flash 3 500 8000 10000 wit_env (bs "https://host.example/fw.bin") (s_ota_status0, []).
Example wit_flash_events : (fun x => (x.1, x.2.2)) <$> wit_flash = Some (true,
  [EWdtExtend; EWait 500; EWait 500; EPmAcquire; EPhase BB_OTA_PHASE_START 0;
   EBegin false; EWait 500; EBegin false; EWait 1000; EBegin false;
   EWait 500; EBegin false; EWait 500; EBegin true; EAbort; EWait 1000; EBegin true;
   EPhase BB_OTA_PHASE_PROGRESS 40; EWait 1; EPhase BB_OTA_PHASE_PROGRESS 100; EWait 1;
   EFinish true; EPmRelease; EWdtRestore; EPhase BB_OTA_PHASE_SUCCESS 100]).
Proof. vm_compute. reflexivity. Qed.
(** The error of the first round stays in the status of the complete update. *)
Example wit_flash_status : (fun x => x.2.1) <$> wit_flash = Some (mk_pull OTA_STATE_COMPLETE (Some (ErrHandshake (bs "host.example"))) 100).
Proof. vm_compute. reflexivity. Qed.
