(* ===== verification/OtaApply.v ===== *)
(** Applying an update: the consumers' hooks (bb_ota_hooks.c), the on-demand
    check of the device with its waiting caller (bb_ota_check_espidf.c), and
    the request that starts the download with the task that runs it
    (bb_ota_pull.c). *)
From Stdlib Require Import Strings.String.
From S2P Require Import Prelude Bytes Num JsonObj Manifest Storage Config Settings OtaCheck OtaHttp OtaPull.

(** * Hooks (bb_ota_hooks.c) *)

Definition BB_OTA_HOOKS_MAX : nat := 4.
Section Hooks.
Context {W : Type}.
(** An absent callback is NULL. *)
Record ota_hooks := mk_hooks {
  hk_pairs : list (option (W -> bool * W) * option (W -> W)); hk_progress : list (option (ota_phase -> Z -> W -> W)); hk_skip : list (option (W -> bool * W));
  hk_last_phase : ota_phase; hk_last_pct : Z; hk_last_via : list byte
}.
Definition hooks0 : ota_hooks := mk_hooks [] [] [] BB_OTA_PHASE_FAIL 0 [].
(** Beyond the capacity a registrant is dropped. *)
Definition with_hook {A} (x : A) (l : list A) : list A := if (BB_OTA_HOOKS_MAX <=? length l)%nat then l else l ++ [x].
Definition bb_ota_set_hooks (pause : option (W -> bool * W)) (resume : option (W -> W)) (h : ota_hooks) : ota_hooks :=
  mk_hooks (with_hook (pause, resume) (hk_pairs h)) (hk_progress h) (hk_skip h) (hk_last_phase h) (hk_last_pct h) (hk_last_via h).
Definition bb_ota_set_progress_cb (cb : option (ota_phase -> Z -> W -> W)) (h : ota_hooks) : ota_hooks :=
  mk_hooks (hk_pairs h) (with_hook cb (hk_progress h)) (hk_skip h) (hk_last_phase h) (hk_last_pct h) (hk_last_via h).
Definition bb_ota_set_skip_check_cb (cb : option (W -> bool * W)) (h : ota_hooks) : ota_hooks :=
  mk_hooks (hk_pairs h) (hk_progress h) (with_hook cb (hk_skip h)) (hk_last_phase h) (hk_last_pct h) (hk_last_via h).

(** Every hook is called, whatever the earlier ones answered. *)
Fixpoint ask_all (cbs : list (option (W -> bool * W))) (acc : bool) (w : W) : bool * W :=
  match cbs with
  | [] => (acc, w)
  | None :: cbs => ask_all cbs acc w
  | Some cb :: cbs => let '(yes, w) := cb w in ask_all cbs (yes || acc) w
  end.
Definition bb_ota_pause (h : ota_hooks) (w : W) : bool * W := ask_all (map fst (hk_pairs h)) false w.
Definition bb_ota_has_pause_hook (h : ota_hooks) : bool := existsb (fun p => if p.1 is Some _ then true else false) (hk_pairs h).
Definition bb_ota_resume (h : ota_hooks) (w : W) : W := fold_left (fun w p => match p.2 with Some cb => cb w | None => w end) (hk_pairs h) w.
Definition bb_ota_skip_check (h : ota_hooks) (w : W) : bool * W := ask_all (hk_skip h) false w.
Definition bb_ota_last_progress (h : ota_hooks) : ota_phase * Z := (hk_last_phase h, hk_last_pct h).
Definition ota_phase_name (p : ota_phase) : list byte :=
  match p with BB_OTA_PHASE_START => bs "start" | BB_OTA_PHASE_PROGRESS => bs "progress" | BB_OTA_PHASE_SUCCESS => bs "success" | BB_OTA_PHASE_FAIL => bs "fail" end.
Definition VIA_SIZE : nat := 16.
Definition bb_ota_emit_progress (via : option (list byte)) (p : ota_phase) (pct : Z) (hw : ota_hooks * W) : ota_hooks * W :=
  let '(h, w) := hw in
  let w := fold_left (fun w cb => match cb with Some cb => cb p pct w | None => w end) (hk_progress h) w in
  (mk_hooks (hk_pairs h) (hk_progress h) (hk_skip h) p pct (cut_to VIA_SIZE (default [] via)), w).
(** The wire record: via, state, pct. *)
Definition bb_ota_hooks_gather (h : ota_hooks) : list byte * list byte * Z := (hk_last_via h, cut_to VIA_SIZE (ota_phase_name (hk_last_phase h)), hk_last_pct h).
End Hooks.
Arguments ota_hooks : clear implicits.

(** * The device *)

(** A download's task takes the tag and the URL with it. *)
Record worker_arg := mk_warg { wa_latest_tag : list byte; wa_asset_url : list byte }.
Definition TAG_SIZE : nat := 32.
Definition ASSET_URL_SIZE : nat := 256.
Section Device.
Context {W : Type} (reg : registry (W := W)) (to_int : Z -> Z) (send : frames -> bb_err).

(** bb_ota_check, s_check_in_flight, s_ota_claim, s_ota_in_progress,
    s_ota_status; the tasks created and not yet run. *)
Record dev := mk_dev {
  dv_sys : sys W; dv_in_flight : bool; dv_claim : claim; dv_in_progress : bool; dv_pull : pull_status; dv_checks : nat; dv_workers : list worker_arg
}.
Definition dev0 (w : W) : dev := mk_dev (mk_sys ota0 w []) false None false s_ota_status0 0 [].
Definition with_sys (s : sys W) (d : dev) : dev := mk_dev s (dv_in_flight d) (dv_claim d) (dv_in_progress d) (dv_pull d) (dv_checks d) (dv_workers d).
Definition with_slot (in_flight : bool) (c : claim) (d : dev) : dev := mk_dev (dv_sys d) in_flight c (dv_in_progress d) (dv_pull d) (dv_checks d) (dv_workers d).
Definition with_progress (b : bool) (d : dev) : dev := mk_dev (dv_sys d) (dv_in_flight d) (dv_claim d) b (dv_pull d) (dv_checks d) (dv_workers d).
Definition with_pull (st : pull_status) (d : dev) : dev := mk_dev (dv_sys d) (dv_in_flight d) (dv_claim d) (dv_in_progress d) st (dv_checks d) (dv_workers d).
Definition with_tasks (checks : nat) (workers : list worker_arg) (d : dev) : dev :=
  mk_dev (dv_sys d) (dv_in_flight d) (dv_claim d) (dv_in_progress d) (dv_pull d) checks workers.

(** ** On-demand checks (bb_ota_check_espidf.c) *)

(** The three settings of the build; [r]: esp_random. *)
Definition next_interval_us (interval_s jitter_s floor_s r : Z) : Z :=
  let offset_s := r mod (2 * jitter_s + 1) - jitter_s in
  let interval := interval_s + offset_s in
  (if interval <? floor_s then floor_s else interval) * 1000000.
Definition try_spawn (created : bool) (d : dev) : bool * dev :=
  if dv_in_flight d then (true, d) else
  match bb_claim_acquire (Some UPD) (dv_claim d) with
  | (BB_OK, c) =>
      if created then (true, with_tasks (S (dv_checks d)) (dv_workers d) (with_slot true c d))
      else (false, with_slot false c d)
  | (_, c) => (false, with_slot false c d)
  end.
Definition ondemand_task (e : check_env) (d : dev) : option dev :=
  '(_, s) ← bb_ota_check_run_one reg to_int e (dv_sys d);
  Some (with_slot false (bb_claim_release (Some UPD) (dv_claim d)) (with_sys s d)).
Definition bb_ota_check_kick (created : bool) (d : dev) : bb_err * dev :=
  if negb (bb_ota_check_is_initialized (dv_sys d)) then (BB_ERR_INVALID_STATE, d) else (BB_OK, (try_spawn created d).2).

(** What other tasks do to the check meanwhile. *)
Inductive ota_op : Type :=
  | OpInit (cfg : option (Z * bool)) (running : option (list byte)) (cache_err : bb_err) | OpPublish (now_s : Z) | OpUrl (url : option (list byte)) | OpParser (fn : option parse_fn)
  | OpBoard (board : option (list byte)) | OpHooks (pause : option (W -> bool * W)) (resume : option (W -> W)) | OpMark | OpCheck (e : check_env).
Definition ota_do (op : ota_op) (s : sys W) : option (sys W) :=
  match op with
  | OpInit cfg running cache_err => Some (bb_ota_check_init cfg running cache_err s).2
  | OpPublish now_s => Some (bb_ota_check_publish_initial reg now_s s).2
  | OpUrl url => Some (bb_ota_check_set_releases_url url s).2
  | OpParser fn => Some (bb_ota_check_set_parser fn s).2
  | OpBoard board => Some (bb_ota_check_set_firmware_board board s).2
  | OpHooks pause resume => Some (bb_ota_check_set_hooks pause resume s).2
  | OpMark => Some (bb_ota_check_mark_check_on_apply s).2
  | OpCheck e => snd <$> bb_ota_check_now reg to_int e s
  end.
Inductive dev_action : Type := DOp (op : ota_op) | DKick (created : bool) | DCheckTask (e : check_env).
(** A check's task runs when one was created. *)
Definition dev_step (a : dev_action) (d : dev) : option dev :=
  match a with
  | DOp op => s ← ota_do op (dv_sys d); Some (with_sys s d)
  | DKick created => Some (try_spawn created d).2
  | DCheckTask e => match dv_checks d with O => Some d | S n => ondemand_task e (with_tasks n (dv_workers d) d) end
  end.
Fixpoint dev_steps (acts : list dev_action) (d : dev) : option dev := match acts with [] => Some d | a :: acts => d ← dev_step a d; dev_steps acts d end.

Definition BB_OTA_CHECK_BLOCKING_POLL_MS : Z := 100.
(** [during i]: what happens while the caller sleeps for the [i]th time. *)
Fixpoint poll_loop (fuel i : nat) (elapsed_ms timeout_ms pre_check_us : Z) (during : nat -> list dev_action) (d : dev) : option (bb_err * dev) :=
  match fuel with
  | O => None
  | S fuel =>
      if negb (elapsed_ms <? timeout_ms) then Some (BB_ERR_TIMEOUT, d) else
      d ← dev_steps (during i) d;
      let elapsed_ms := u32 (elapsed_ms + BB_OTA_CHECK_BLOCKING_POLL_MS) in
      match bb_ota_check_get_status reg true (dv_sys d) with
      | (BB_OK, Some after) =>
          if negb (st_last_check_us after =? pre_check_us) then Some (BB_OK, d) else poll_loop fuel (S i) elapsed_ms timeout_ms pre_check_us during d
      | _ => Some (BB_ERR_TIMEOUT, d)
      end
  end.
Definition poll_fuel (timeout_ms : Z) : nat := Z.to_nat (timeout_ms / BB_OTA_CHECK_BLOCKING_POLL_MS) + 2.
Definition bb_ota_check_run_blocking (created : bool) (during : nat -> list dev_action) (timeout_ms : Z) (d : dev) : option (bb_err * dev) :=
  if negb (bb_ota_check_is_initialized (dv_sys d)) then Some (BB_ERR_INVALID_STATE, d) else
  match bb_ota_check_get_status reg true (dv_sys d) with
  | (BB_OK, Some before) => poll_loop (poll_fuel timeout_ms) 0 0 timeout_ms (st_last_check_us before) during (try_spawn created d).2
  | _ => Some (BB_ERR_INVALID_STATE, d)
  end.

(** ** The request to apply (bb_ota_pull.c) *)

Definition BB_OTA_APPLY_REFRESH_TIMEOUT_MS : Z := 30000.
(** What the request meets: the clock, whether a check's task can be created and
    what happens while it waits for it, memory and a task for the download. *)
Record apply_env := mk_aenv { ap_now_us : Z; ap_check_created : bool; ap_during : nat -> list dev_action; ap_alloc : bool; ap_created : bool }.
Definition status_object (msg : string) (r : response_out) : bb_err * response_out := object_anyway send [(bs "status", NStr (Some (bs msg)))] r.
Definition refuse (status : Z) (msg : string) (r : response_out) (d : dev) : option (bb_err * response_out * dev) :=
  Some (BB_OK, error_object send status msg r, with_progress false d).
(** From the look at [available] on. *)
Definition apply_release (a : apply_env) (st : ota_status) (r : response_out) (d : dev) : option (bb_err * response_out * dev) :=
  if negb (st_available st) then Some (BB_OK, (status_object "already_up_to_date" r).2, with_progress false d) else
  if negb (ap_alloc a) then refuse 500 "allocation_failed" r d else
  match bb_claim_acquire (Some PULL) (dv_claim d) with
  | (BB_OK, c) =>
      let arg := mk_warg (cut_to TAG_SIZE (st_latest st)) (cut_to ASSET_URL_SIZE (st_download_url st)) in
      let d := with_pull (mk_pull OTA_STATE_CHECKING None 0) (with_slot (dv_in_flight d) c d) in
      if negb (ap_created a) then refuse 500 "task_create_failed" r (with_slot (dv_in_flight d) (bb_claim_release (Some PULL) (dv_claim d)) d) else
      let '(err, r) := status_object "update_started" (mk_rout 202 (ro_frames r)) in
      Some (err, r, with_tasks (dv_checks d) (dv_workers d ++ [arg]) d)
  | (_, _) => refuse 409 "ota_op_in_progress" r d
  end.
Definition ota_update_handler (fresh_s : Z) (a : apply_env) (r : response_out) (d : dev) : option (bb_err * response_out * dev) :=
  if dv_in_progress d then Some (BB_OK, error_object send 409 "update_in_progress" r, d) else
  let d := with_progress true d in
  match bb_ota_check_get_status reg true (dv_sys d) with
  | (BB_OK, Some st) =>
      if bb_ota_pull_apply_cache_is_fresh (st_last_check_ok st) (st_last_check_us st) (ap_now_us a) fresh_s then apply_release a st r d else
      '(block_err, d) ← bb_ota_check_run_blocking (ap_check_created a) (ap_during a) BB_OTA_APPLY_REFRESH_TIMEOUT_MS d;
      if negb (is_ok block_err) then refuse 503 "check_failed" r d else
      match bb_ota_check_get_status reg true (dv_sys d) with
      | (BB_OK, Some st) => if negb (st_last_check_ok st) then refuse 503 "check_failed" r d else apply_release a st r d
      | _ => refuse 503 "check_failed" r d
      end
  | _ => refuse 503 "update_check_unavailable" r d
  end.
Definition ota_check_handler (created : bool) (r : response_out) (d : dev) : bb_err * response_out * dev :=
  let d := (bb_ota_check_kick created d).2 in
  let '(err, r) := object_or_leave send [(bs "status", NStr (Some (bs "checking")))] r in
  (err, r, d).

(** ** The download's task *)

(** [None]: no client; the answer to HEAD and its status, the answer to the
    ranged GET that follows 403 and 405, and the URL the client ended at. *)
Record probe := mk_probe { pr_head : Z; pr_status : Z; pr_get : Z; pr_url : option (list byte) }.
Definition ota_resolve_redirect (original_url : list byte) (p : option probe) : list byte :=
  match p with
  | None => original_url
  | Some p =>
      let err := if (pr_head p =? 0) && ((pr_status p =? 403) || (pr_status p =? 405)) then pr_get p else pr_head p in
      (bb_ota_pull_resolve_redirect_url original_url (if err =? 0 then pr_url p else None) err).1
  end.
Context (max_attempts : nat) (base_ms max_ms settle_ms : Z).
Inductive worker_end : Type := WorkerRestarts (tag : list byte) | WorkerExits.
Definition VIA_PULL : list byte := bs "pull".
(** The progress callbacks of a download. *)
Definition tell_phases (evs : list dl_event) (hw : ota_hooks W * W) : ota_hooks W * W :=
  fold_left (fun hw ev => match ev with EPhase p pct => bb_ota_emit_progress (Some VIA_PULL) p pct hw | _ => hw end) evs hw.
Definition ota_task_exit (d : dev) : dev := with_slot (dv_in_flight d) (bb_claim_release (Some PULL) (dv_claim d)) d.
Definition set_world (w : W) (d : dev) : dev := with_sys (with_w w (dv_sys d)) d.
Definition ota_worker_task (e : dl_env) (p : option probe) (arg : worker_arg) (h : ota_hooks W) (d : dev) : option (worker_end * ota_hooks W * dev) :=
  let '(pause_ok, paused, w) := if bb_ota_has_pause_hook h then let '(b, w) := bb_ota_pause h (sy_w (dv_sys d)) in (b, b, w) else (true, false, sy_w (dv_sys d)) in
  let d := set_world w d in
  if negb pause_ok then Some (WorkerExits, h, ota_task_exit (with_progress false (with_pull (ota_set_error ErrPause (dv_pull d)) d))) else
  '(ok, (st, evs)) ← ota_download_and_flash max_attempts base_ms max_ms settle_ms e (ota_resolve_redirect (wa_asset_url arg) p) (dv_pull d, []);
  let '(h, w) := tell_phases evs (h, w) in
  let d := with_pull st (set_world w d) in
  if ok : bool then Some (WorkerRestarts (wa_latest_tag arg), h, d) else
  let d := with_progress false d in
  let d := if paused then set_world (bb_ota_resume h w) d else d in
  Some (WorkerExits, h, ota_task_exit d).
(** On the caller's task. *)
Definition bb_ota_pull_run_sync (e : dl_env) (p : option probe) (asset_url : option (list byte)) (st : pull_status) : option (bb_err + bool * dl_state) :=
  match asset_url with
  | None | Some [] => Some (inl BB_ERR_INVALID_ARG)
  | Some url => inr <$> ota_download_and_flash max_attempts base_ms max_ms settle_ms e (ota_resolve_redirect url p) (st, [])
  end.

(** Anything that happens to the device: a step of another task, a request, the
    end of the download that was created first; one that succeeds restarts the
    device. *)
Inductive dev_event : Type := VAct (a : dev_action) | VApply (a : apply_env) (r : response_out) | VWorker (e : dl_env) (p : option probe) (h : ota_hooks W).
Definition event_step (fresh_s : Z) (ev : dev_event) (d : dev) : option dev :=
  match ev with
  | VAct a => dev_step a d
  | VApply a r => snd <$> ota_update_handler fresh_s a r d
  | VWorker e p h =>
      match dv_workers d with
      | [] => Some d
      | arg :: rest =>
          '(ended, _, d) ← ota_worker_task e p arg h (with_tasks (dv_checks d) rest d);
          Some (match ended with WorkerRestarts _ => dev0 (sy_w (dv_sys d)) | WorkerExits => d end)
      end
  end.
Fixpoint event_steps (fresh_s : Z) (evs : list dev_event) (d : dev) : option dev :=
  match evs with [] => Some d | ev :: evs => d ← event_step fresh_s ev d; event_steps fresh_s evs d end.
End Device.
Arguments dev : clear implicits.
Arguments dev_event : clear implicits.
Arguments dev_action : clear implicits.
Arguments ota_op : clear implicits.
Arguments apply_env : clear implicits.

(** * Only newer releases are offered *)

Section Offers.
Context {W : Type} (reg : registry (W := W)) (to_int : Z -> Z) (send : frames -> bb_err).

(** What is marked available has a URL and a tag newer than what runs. *)
Definition offers (st : ota_status) : Prop :=
  st_available st = true -> st_download_url st <> [] /\ exists tag, st_latest st = cut_to BB_OTA_CHECK_VERSION_BUF tag /\ is_newer to_int tag (st_current st) = true.
Definition offering (s : sys W) : Prop := offers (oc_status (sy_ota s)).
Lemma cut_nonempty n (x : byte) l : (2 <= n)%nat -> cut_to n (x :: l) <> [].
Proof. intros H. unfold cut_to. destruct n as [|[|n]]; [lia..|]. done. Qed.
Lemma failed_offering us s : offering s -> offering (check_failed us s).
Proof. done. Qed.
Lemma parsed_offering perr tag url e s : offering s -> offering (check_parsed reg to_int perr tag url e s).2.
Proof.
  intros H. unfold check_parsed. destruct (is_ok perr); cbn [negb]; [|by apply failed_offering]. destruct url as [|x url]; [by intros [=]|].
  unfold offering, offers. cbn. intros Hn. split; [by apply (cut_nonempty 256); lia|]. by exists tag.
Qed.
Lemma pausing_offering s b s1 : pausing s = (b, s1) -> offering s -> offering s1.
Proof. intros H. unfold offering. by rewrite (pausing_ota _ _ _ H). Qed.
Lemma fetched_offering s s1 : offering s1 -> offering (after_fetch s s1).
Proof. unfold offering. by rewrite after_fetch_status. Qed.
(** Every check returns. *)
Lemma run_one_offering e s : exists err s', bb_ota_check_run_one reg to_int e s = Some (err, s') /\ (offering s -> offering s').
Proof.
  destruct (pausing s) as [go s1] eqn:Ep. destruct (decide (oc_initialized (sy_ota s) = true /\ check_enabled reg (sy_w s) = true /\ oc_url (sy_ota s) <> [] /\ (oc_parser (sy_ota s) <> None -> ev_alloc e = true) /\ go = true)) as [(H1 & H2 & H3 & H4 & ->)|Hn].
  - assert (Ha : asking reg e s s1) by by split. destruct (oc_parser (sy_ota s)) as [fn|] eqn:Efn.
    + destruct (run_one_custom reg to_int e s s1 fn Ha Efn) as (err & res & bc & _ & ->). cbn zeta. destruct (fetch_bad err res); [|destruct (fn _ _ _ _) as [[perr tag] url]].
      * do 2 eexists. split; [done|]. intros H. by apply failed_offering, fetched_offering, (pausing_offering _ _ _ Ep).
      * destruct (check_parsed _ _ _ _ _ _ _) as [err2 s2] eqn:Ec. do 2 eexists. split; [done|]. intros H. change s2 with (err2, s2).2. rewrite <- Ec. by apply parsed_offering, fetched_offering, (pausing_offering _ _ _ Ep).
    + destruct (run_one_github reg to_int e s s1 Ha Efn) as (st & err & res & fc & _ & _ & ->). cbn zeta. destruct (fetch_bad err res); [|destruct (bb_release_manifest_parse_github_stream_end _) as [perr st2]].
      * do 2 eexists. split; [done|]. intros H. by apply failed_offering, fetched_offering, (pausing_offering _ _ _ Ep).
      * destruct (check_parsed _ _ _ _ _ _ _) as [err2 s2] eqn:Ec. do 2 eexists. split; [done|]. intros H. change s2 with (err2, s2).2. rewrite <- Ec. by apply parsed_offering, fetched_offering, (pausing_offering _ _ _ Ep).
  - unfold bb_ota_check_run_one. rewrite Ep. destruct (oc_initialized _); cbn [negb]; [|by do 2 eexists]. destruct (check_enabled _ _); cbn [negb]; [|by do 2 eexists].
    destruct (oc_url _); [by do 2 eexists|]. assert (Hs1 : offering s -> offering s1) by by apply (pausing_offering _ _ _ Ep).
    destruct (oc_parser _) as [fn|].
    + destruct (ev_alloc e); cbn [negb]; [|by do 2 eexists]. destruct go; [|by do 2 eexists]. exfalso. by apply Hn.
    + destruct (bb_release_manifest_parse_github_stream_begin _ _ _ _ _ _) as [[] [|]]; try by do 2 eexists. destruct go; [|by do 2 eexists]. exfalso. by apply Hn.
Qed.
Lemma op_offering op s : exists s', ota_do reg to_int op s = Some s' /\ (offering s -> offering s').
Proof.
  destruct op as [cfg running ce| | | | | | |e]; cbn [ota_do].
  - eexists; split; [done|]. unfold bb_ota_check_init. destruct (oc_initialized _); [done|]. destruct (negb _); by intros _ [=].
  - eexists; split; [done|]. unfold bb_ota_check_publish_initial. by destruct (negb _).
  - eexists; split; [done|]. unfold bb_ota_check_set_releases_url. destruct url; [|done]. destruct (negb _); [done|]. by destruct (_ || _).
  - eexists; split; [done|]. unfold bb_ota_check_set_parser. by destruct (negb _).
  - eexists; split; [done|]. unfold bb_ota_check_set_firmware_board. destruct (negb _); [done|]. by destruct (negb _ && _).
  - by eexists.
  - eexists; split; [done|]. unfold bb_ota_check_mark_check_on_apply. destruct (negb _); [done|]. by intros _ [=].
  - unfold bb_ota_check_now. destruct (negb _); [by eexists|]. destruct (oc_url _); [by eexists|].
    destruct (run_one_offering e s) as (err & s' & -> & H). by exists s'.
Qed.

(** What the other tasks leave alone during a request. *)
Record untouched (d d' : dev W) : Prop := {
  un_progress : dv_in_progress d' = dv_in_progress d;
  un_workers : dv_workers d' = dv_workers d;
  un_offering : offering (dv_sys d) -> offering (dv_sys d');
  un_claim : dv_claim d <> Some PULL -> dv_claim d' <> Some PULL
}.
Lemma untouched_refl d : untouched d d.
Proof. by split. Qed.
Lemma untouched_trans d1 d2 d3 : untouched d1 d2 -> untouched d2 d3 -> untouched d1 d3.
Proof. intros [A1 A2 A3 A4] [B1 B2 B3 B4]. split; [congruence|congruence|auto|auto]. Qed.
Lemma release_not_pull id c : c <> Some PULL -> bb_claim_release (Some id) c <> Some PULL.
Proof. destruct c as [h|]; cbn; [|done]. by case_bool_decide. Qed.
Lemma acquire_upd_not_pull c : c <> Some PULL -> (bb_claim_acquire (Some UPD) c).2 <> Some PULL.
Proof. destruct c as [h|]; cbn; [|done]. by case_bool_decide. Qed.
Lemma spawn_untouched created d : untouched d (try_spawn created d).2.
Proof.
  unfold try_spawn. destruct (dv_in_flight d); [apply untouched_refl|]. pose proof (acquire_upd_not_pull (dv_claim d)) as Hc.
  destruct (bb_claim_acquire _ _) as [[] c]; try by split. destruct created; by split.
Qed.
Lemma step_untouched a d : exists d', dev_step reg to_int a d = Some d' /\ untouched d d'.
Proof.
  destruct a as [op|created|e]; cbn [dev_step].
  - destruct (op_offering op (dv_sys d)) as (s' & -> & H). by eexists.
  - eexists. split; [done|apply spawn_untouched].
  - destruct (dv_checks d) as [|n]; [eexists; split; [done|apply untouched_refl]|]. unfold ondemand_task. cbn [dv_sys with_tasks].
    destruct (run_one_offering e (dv_sys d)) as (err & s' & -> & H). eexists. split; [done|]. split; [done|done|done|apply release_not_pull].
Qed.
Lemma steps_untouched acts d : exists d', dev_steps reg to_int acts d = Some d' /\ untouched d d'.
Proof.
  revert d. induction acts as [|a acts IH]; intros d; cbn [dev_steps]; [eexists; split; [done|apply untouched_refl]|].
  destruct (step_untouched a d) as (d1 & -> & U1). cbn [mbind option_bind]. destruct (IH d1) as (d2 & -> & U2). eexists. split; [done|by apply (untouched_trans _ d1)].
Qed.
Lemma poll_untouched fuel i elapsed timeout pre during d : 0 <= elapsed -> timeout < 2 ^ 32 - 100 -> timeout + 100 <= elapsed + 100 * Z.of_nat fuel -> (1 <= fuel)%nat ->
  exists err d', poll_loop reg to_int fuel i elapsed timeout pre during d = Some (err, d') /\ untouched d d'.
Proof.
  revert i elapsed d. induction fuel as [|fuel IH]; intros i elapsed d H0 Ht Hf H1; [lia|]. cbn [poll_loop].
  destruct (Z.ltb_spec elapsed timeout); cbn [negb]; [|do 2 eexists; split; [done|apply untouched_refl]].
  destruct (steps_untouched (during i) d) as (d1 & -> & U1). cbn [mbind option_bind]. unfold BB_OTA_CHECK_BLOCKING_POLL_MS, u32. rewrite Z.mod_small by lia.
  destruct (IH (S i) (elapsed + 100) d1) as (err & d2 & -> & U2); [lia..|].
  destruct (bb_ota_check_get_status reg true (dv_sys d1)) as [[] [after|]]; try by do 2 eexists. destruct (negb _); [by do 2 eexists|].
  do 2 eexists. split; [done|by apply (untouched_trans _ d1)].
Qed.
(** A caller that waits gets its answer, below the width of the counter. *)
Lemma blocking_untouched created during timeout d : 0 <= timeout < 2 ^ 32 - 100 ->
  exists err d', bb_ota_check_run_blocking reg to_int created during timeout d = Some (err, d') /\ untouched d d'.
Proof.
  intros Ht. unfold bb_ota_check_run_blocking. destruct (negb _); [do 2 eexists; split; [done|apply untouched_refl]|].
  destruct (bb_ota_check_get_status reg true (dv_sys d)) as [[] [before|]]; try by (do 2 eexists; split; [done|apply untouched_refl]).
  destruct (poll_untouched (poll_fuel timeout) 0 0 timeout (st_last_check_us before) during (try_spawn created d).2) as (err & d' & -> & U); [lia..| |unfold poll_fuel; lia|].
  { unfold poll_fuel, BB_OTA_CHECK_BLOCKING_POLL_MS. pose proof (Z.div_mod timeout 100 ltac:(lia)). pose proof (Z.mod_pos_bound timeout 100 ltac:(lia)). pose proof (Z.div_pos timeout 100 ltac:(lia) ltac:(lia)). lia. }
  do 2 eexists. split; [done|]. by apply (untouched_trans _ (try_spawn created d).2); [apply spawn_untouched|].
Qed.

(** ** What a request to apply comes to *)

(** A download was started: with the release a status offered, and the slot
    taken for it. *)
Definition started (d d' : dev W) (st : ota_status) : Prop :=
  st_available st = true /\ offers st /\
  dv_workers d' = dv_workers d ++ [mk_warg (cut_to TAG_SIZE (st_latest st)) (cut_to ASSET_URL_SIZE (st_download_url st))] /\
  dv_in_progress d' = true /\ dv_claim d' = Some PULL /\ dv_pull d' = mk_pull OTA_STATE_CHECKING None 0.
(** None was: the way is free for the next request, and the slot is not left
    taken. *)
Definition not_started (d d' : dev W) : Prop :=
  dv_workers d' = dv_workers d /\ dv_in_progress d' = false /\ (dv_claim d <> Some PULL -> dv_claim d' <> Some PULL).
Definition apply_outcome (a : apply_env W) (d d' : dev W) (status : Z) : Prop :=
  (status = 202 /\ ap_alloc a = true /\ ap_created a = true /\ exists st, started d d' st) \/
  (status = 200 \/ status = 409 \/ status = 500 /\ (ap_alloc a = false \/ ap_created a = false) \/ status = 503) /\ not_started d d'.

Lemma refuse_spec status msg r (d : dev W) : exists r', refuse send status msg r d = Some (BB_OK, r', with_progress false d) /\ ro_status r' = status.
Proof. eexists. split; [done|apply error_status]. Qed.
Lemma anyway_status ms r : ro_status (object_anyway send ms r).2 = ro_status r.
Proof. unfold object_anyway. destruct (bb_http_resp_json_obj_begin _ _ _ _) as [[err [s|]] out]; [|done]. by destruct (bb_http_resp_json_obj_end _ _). Qed.
Lemma refused_not_started status msg r d d1 : untouched d d1 -> exists err r' d', refuse send status msg r d1 = Some (err, r', d') /\ ro_status r' = status /\ not_started d d' /\ (offering (dv_sys d) -> offering (dv_sys d')).
Proof. intros [U1 U2 U3 U4]. destruct (refuse_spec status msg r d1) as (r' & -> & Hs). do 3 eexists. split; [done|]. split; [done|]. split; [by split|exact U3]. Qed.
Lemma acquire_pull c : bb_claim_acquire (Some PULL) c = (BB_OK, Some PULL) \/ bb_claim_acquire (Some PULL) c = (BB_ERR_CONFLICT, c) /\ c <> Some PULL.
Proof. destruct c as [h|]; [|by left]. cbn. case_bool_decide as E; [left; by rewrite E|right; split; [done|congruence]]. Qed.
Definition answers (a : apply_env W) (d : dev W) (x : option (bb_err * response_out * dev W)) : Prop :=
  exists err r' d', x = Some (err, r', d') /\ apply_outcome a d d' (ro_status r') /\ (offering (dv_sys d) -> offering (dv_sys d')).
Lemma refused_answers a status msg r d d1 : untouched d d1 -> (status = 409 \/ status = 500 /\ (ap_alloc a = false \/ ap_created a = false) \/ status = 503) -> answers a d (refuse send status msg r d1).
Proof.
  intros U Hs. destruct (refused_not_started status msg r d d1 U) as (err & r' & d' & -> & E & N & O). do 3 eexists. split; [done|]. rewrite E.
  split; [right; split; [by right|exact N]|exact O].
Qed.
Lemma release_answers a st r d d1 : ro_status r = 200 -> dv_in_progress d = true -> untouched d d1 -> offers st -> answers a d (apply_release send a st r d1).
Proof.
  intros Hr Hp U Ho. unfold apply_release. destruct (st_available st) eqn:Ea; cbn [negb].
  2:{ do 3 eexists. split; [done|]. unfold status_object. rewrite anyway_status, Hr. destruct U as [U1 U2 U3 U4]. split; [right; split; [by left|by split]|exact U3]. }
  destruct (ap_alloc a) eqn:El; cbn [negb]; [|apply refused_answers; tauto].
  destruct (acquire_pull (dv_claim d1)) as [-> | [-> Hc]]; [|apply refused_answers; tauto].
  destruct (ap_created a) eqn:Ec; cbn [negb].
  2:{ apply refused_answers; [|tauto]. destruct U as [U1 U2 U3 U4]. split; [exact U1|exact U2|exact U3|]. intros _. cbn [dv_claim with_slot with_pull]. by rewrite release_own. }
  pose proof (anyway_status [(bs "status", NStr (Some (bs "update_started")))] (mk_rout 202 (ro_frames r))) as Hs. unfold status_object. destruct (object_anyway _ _ _) as [err r']. cbn [snd ro_status] in Hs.
  destruct U as [U1 U2 U3 U4]. do 3 eexists. split; [done|]. rewrite Hs. split; [|exact U3]. left. split; [done|]. split; [done|]. split; [done|]. exists st.
  split_and!; [done|done|cbn; by rewrite U2|cbn; congruence|done|done].
Qed.
Lemma get_status_offers d err st : bb_ota_check_get_status reg true (dv_sys d) = (err, Some st) -> offering (dv_sys d) -> offers st.
Proof. unfold bb_ota_check_get_status. cbn [negb]. destruct (negb _); [done|]. intros [= _ <-]. done. Qed.
Lemma update_answers fresh_s a r d : ro_status r = 200 -> dv_in_progress d = false -> offering (dv_sys d) -> answers a d (ota_update_handler reg to_int send fresh_s a r d).
Proof.
  intros Hr Hp Ho. unfold ota_update_handler. rewrite Hp. set (d0 := with_progress true d). change (answers a d) with (answers a d0).
  assert (Hrel : forall err st d1, untouched d0 d1 -> bb_ota_check_get_status reg true (dv_sys d1) = (err, Some st) -> answers a d0 (apply_release send a st r d1)).
  { intros err st d1 U Hst. apply release_answers; [done|done|done|]. exact (get_status_offers d1 _ _ Hst (un_offering _ _ U Ho)). }
  destruct (bb_ota_check_get_status reg true (dv_sys d0)) as [[] [st|]] eqn:Est; try by apply refused_answers; [apply untouched_refl|tauto].
  destruct (bb_ota_pull_apply_cache_is_fresh _ _ _ _); [exact (Hrel _ _ _ (untouched_refl d0) Est)|].
  destruct (blocking_untouched (ap_check_created a) (ap_during a) BB_OTA_APPLY_REFRESH_TIMEOUT_MS d0 ltac:(done)) as (err & d1 & -> & U). cbn [mbind option_bind].
  destruct (is_ok err); cbn [negb]; [|by apply refused_answers; [|tauto]].
  destruct (bb_ota_check_get_status reg true (dv_sys d1)) as [[] [st1|]] eqn:Est1; try by apply refused_answers; [|tauto].
  destruct (st_last_check_ok st1); cbn [negb]; [exact (Hrel _ _ _ U Est1)|by apply refused_answers; [|tauto]].
Qed.

(** ** What a download's task leaves *)

Context (max_attempts : nat) (base_ms max_ms settle_ms : Z) (Hsettle : 0 <= settle_ms < 2 ^ 32 - 1000).
(** Without a restart the mark is cleared and the slot free of the download;
    work that was paused goes on. *)
Lemma worker_ends e p arg (h : ota_hooks W) (d : dev W) : exists ended h' d', ota_worker_task max_attempts base_ms max_ms settle_ms e p arg h d = Some (ended, h', d') /\
  sy_ota (dv_sys d') = sy_ota (dv_sys d) /\
  match ended with
  | WorkerRestarts tag => tag = wa_latest_tag arg /\ pl_state (dv_pull d') = OTA_STATE_COMPLETE
  | WorkerExits => dv_in_progress d' = false /\ dv_claim d' <> Some PULL /\ pl_state (dv_pull d') = OTA_STATE_ERROR
  end.
Proof.
  assert (Hrel : bb_claim_release (Some PULL) (dv_claim d) <> Some PULL).
  { destruct (dv_claim d) as [x|]; cbn; [|done]. case_bool_decide; congruence. }
  unfold ota_worker_task. destruct (if bb_ota_has_pause_hook h then _ else _) as [[pause_ok paused] w]. destruct pause_ok; cbn [negb]; [|by do 3 eexists].
  destruct (download_leaves max_attempts base_ms max_ms settle_ms e (ota_resolve_redirect (wa_asset_url arg) p) (dv_pull d) Hsettle) as (ok & st & evs & E & _ & _ & _ & Hst).
  cbn [dv_pull set_world with_sys]. rewrite E. cbn [mbind option_bind]. destruct (tell_phases evs (h, w)) as [h' w'].
  destruct ok; [do 3 eexists; split; [done|split; [done|split; [done|by destruct Hst]]]|]. destruct paused; by do 3 eexists.
Qed.
Abbreviation events := (event_steps reg to_int send max_attempts base_ms max_ms settle_ms).
Lemma event_offering fresh_s ev (d : dev W) : (forall a r, ev = VApply a r -> ro_status r = 200) -> offering (dv_sys d) ->
  exists d', event_step reg to_int send max_attempts base_ms max_ms settle_ms fresh_s ev d = Some d' /\ offering (dv_sys d').
Proof.
  intros Hr Ho. destruct ev as [a|a r|e p h]; cbn [event_step].
  - destruct (step_untouched a d) as (d' & -> & U). exists d'. split; [done|by apply (un_offering _ _ U)].
  - destruct (dv_in_progress d) eqn:Ep; [|destruct (update_answers fresh_s a r d (Hr _ _ eq_refl) Ep Ho) as (err & r' & d' & -> & _ & O); eexists; split; [done|by apply O]].
    unfold ota_update_handler. rewrite Ep. by eexists.
  - destruct (dv_workers d) as [|arg rest]; [by eexists|]. destruct (worker_ends e p arg h (with_tasks (dv_checks d) rest d)) as (ended & h' & d' & -> & Es & _).
    cbn [mbind option_bind]. eexists. split; [done|]. destruct ended; [by intros [=]|]. unfold offering. by rewrite Es.
Qed.
Definition fresh_requests (evs : list (dev_event W)) : Prop := forall a r, VApply a r ∈ evs -> ro_status r = 200.
Lemma events_offering fresh_s evs (d : dev W) : fresh_requests evs -> offering (dv_sys d) -> exists d', events fresh_s evs d = Some d' /\ offering (dv_sys d').
Proof.
  revert d. induction evs as [|ev evs IH]; intros d Hf Ho; cbn [event_steps]; [by eexists|].
  destruct (event_offering fresh_s ev d) as (d1 & -> & Ho1); [intros a r ->; apply (Hf a r); by left|done|]. cbn [mbind option_bind].
  apply IH; [intros a r Hin; apply (Hf a r); by right|done].
Qed.

(** C8: Whatever happened to the device since boot (initialising and configuring
    the check, timer, kicks and checks, earlier requests, downloads that failed
    or restarted it), with further kicks and checks going on while the request
    waits for a refresh: the handler of a request to apply an update returns.
    While an update is in progress it answers 409 and changes nothing.
    Otherwise it either answers 202 and has created one download task, with the
    URL, not empty, and the tag of a status that is marked available because
    that tag is newer than the running version, holding the slot and the mark of
    an update in progress; or it answers 200, 409, 500 (only without memory or
    task) or 503, no task was created, the mark is cleared again, and the slot
    is not left taken. *)
Theorem apply_starts_only_newer evs w fresh_s a r : fresh_requests evs -> ro_status r = 200 ->
  exists d err r' d', events fresh_s evs (dev0 w) = Some d /\ ota_update_handler reg to_int send fresh_s a r d = Some (err, r', d') /\
  if dv_in_progress d then ro_status r' = 409 /\ d' = d else apply_outcome a d d' (ro_status r').
Proof.
  intros Hf Hr. destruct (events_offering fresh_s evs (dev0 w) Hf ltac:(by intros [=])) as (d & Hd & Ho). exists d. destruct (dv_in_progress d) eqn:Ep.
  - unfold ota_update_handler. rewrite Ep. do 3 eexists. split; [done|]. split; [done|]. split; [apply error_status|done].
  - destruct (update_answers fresh_s a r d Hr Ep Ho) as (err & r' & d' & E & O & _). do 3 eexists. split; [done|]. by split.
Qed.
End Offers.

(** The next check is within the jitter of the interval, and not before the
    floor. *)
Lemma next_interval_bounds interval_s jitter_s floor_s r : 0 <= jitter_s -> 0 <= r ->
  Z.max floor_s (interval_s - jitter_s) * 1000000 <= next_interval_us interval_s jitter_s floor_s r <= Z.max floor_s (interval_s + jitter_s) * 1000000.
Proof. intros Hj Hr. unfold next_interval_us. pose proof (Z.mod_pos_bound r (2 * jitter_s + 1) ltac:(lia)). destruct (Z.ltb_spec (interval_s + (r mod (2 * jitter_s + 1) - jitter_s)) floor_s); lia. Qed.

(** A board on 1.2.9 that finds 1.3.0 and is asked to apply it. *)
Definition wit_boot : list (dev_event unit) :=
  [VAct (DOp (OpInit None (Some (bs "1.2.9")) BB_OK)); VAct (DOp (OpUrl (Some (bs "http://h/latest")))); VAct (DOp (OpBoard (Some (bs "s3"))));
   VAct (DKick true); VAct (DCheckTask case_env)].
Definition wit_apply : apply_env unit := mk_aenv (Z.of_nat 1000 * 1000000) true (fun _ => []) true true.
Lemma apply_starts_only_newer_witness : (0 <= 10000 < 2 ^ 32 - 1000) /\ fresh_requests wit_boot /\
  exists d err r' d', event_steps [] (fun x => x) (fun _ => BB_OK) 3 500 8000 10000 300 wit_boot (dev0 tt) = Some d /\
  ota_update_handler [] (fun x => x) (fun _ => BB_OK) 300 wit_apply fresh_response d = Some (err, r', d') /\
  ro_status r' = 202 /\ dv_workers d' = [mk_warg (bs "v1.3.0") (bs "http://h/s3.bin")] /\ apply_outcome (fun x => x) wit_apply d d' 202.
Proof.
  assert (Hf : fresh_requests wit_boot) by (intros a r Hin; repeat (apply elem_of_cons in Hin as [Hin|Hin]; [discriminate Hin|]); by apply elem_of_nil in Hin).
  split; [lia|]. split; [exact Hf|].
  destruct (apply_starts_only_newer [] (fun x => x) (fun _ => BB_OK) 3 500 8000 10000 ltac:(lia) wit_boot tt 300 wit_apply fresh_response Hf eq_refl) as (d & err & r' & d' & Hd & Hh & Ho).
  exists d, err, r', d'. split; [exact Hd|]. split; [exact Hh|].
  assert (Hp : (fun d => dv_in_progress d) <$> event_steps [] (fun x => x) (fun _ => BB_OK) 3 500 8000 10000 300 wit_boot (dev0 tt) = Some false) by (vm_compute; reflexivity).
  rewrite Hd in Hp. cbn in Hp. injection Hp as Hp. rewrite Hp in Ho.
  assert (Hs : (d ← event_steps [] (fun x => x) (fun _ => BB_OK) 3 500 8000 10000 300 wit_boot (dev0 tt);
     (fun x => (ro_status x.1.2, dv_workers x.2)) <$> ota_update_handler [] (fun x => x) (fun _ => BB_OK) 300 wit_apply fresh_response d) =
     Some (202, [mk_warg (bs "v1.3.0") (bs "http://h/s3.bin")])) by (vm_compute; reflexivity).
  rewrite Hd in Hs. cbn [mbind option_bind] in Hs. rewrite Hh in Hs. cbn [fmap option_fmap option_map fst snd] in Hs. injection Hs as Hs1 Hs2. rewrite Hs1 in Ho. by split_and!.
Defined.
(** The request compares the uptime with the time of day the check left: from
    the second on, a check of any age counts as fresh. *)
Example uptime_never_outdates : bb_ota_pull_apply_cache_is_fresh true 1700000000000000 (365 * 24 * 3600 * 1000000) 300 = true.
Proof. reflexivity. Qed.
