(* ===== verification/Tasks.v ===== *)
(** bb_task and the core claims of bb_wdt: the table of tasks by handle, its
    reconciliation with the tasks the kernel reports, and the cores that tasks
    own (components/bb_task/src/bb_task_common.c,
    platform/espidf/bb_task/bb_task_espidf.c,
    components/bb_task_registry/bb_task_registry_base_scan_common.c,
    components/bb_wdt/bb_wdt_core_claim.c). *)
From Stdlib Require Import Strings.String.
From S2P Require Import Prelude Bytes Num Str Registry.

(** * Core claims (bb_wdt_core_claim.c) *)

(** The mask of the claimed cores; the lock is taken to work. *)
Definition core_ok (core : Z) : bool := (core =? 0) || (core =? 1).
Definition core_bit (core : Z) : Z := u32 (Z.shiftl 1 core).
Definition bb_wdt_claim_core (core mask : Z) : bb_err * Z :=
  if negb (core_ok core) then (BB_ERR_INVALID_ARG, mask) else (BB_OK, Z.lor mask (core_bit core)).
Definition bb_wdt_claim_core_exclusive (core mask : Z) : bb_err * Z :=
  if negb (core_ok core) then (BB_ERR_INVALID_ARG, mask) else
  if negb (Z.land mask (core_bit core) =? 0) then (BB_ERR_INVALID_STATE, mask) else (BB_OK, Z.lor mask (core_bit core)).
Definition bb_wdt_release_core (core mask : Z) : bb_err * Z :=
  if negb (core_ok core) then (BB_ERR_INVALID_ARG, mask) else (BB_OK, Z.land mask (u32 (Z.lnot (core_bit core)))).
Definition bb_wdt_derive_excused_mask (excused_seed claimed_mask : Z) : Z := Z.lor excused_seed claimed_mask.
Definition bb_wdt_clamp_core_mask (mask num_cores : Z) : Z :=
  if num_cores <=? 0 then 0 else if 32 <=? num_cores then mask else Z.land mask (u32 (u32 (Z.shiftl 1 num_cores) - 1)).
Definition bb_wdt_invert_core_mask (mask num_cores : Z) : Z :=
  Z.land (bb_wdt_clamp_core_mask (u32 (Z.lnot 0)) num_cores) (u32 (Z.lnot mask)).
Definition BB_TASK_CORE_ANY : Z := -1.
Definition bb_wdt_steer_core (requested claimed_mask num_cores : Z) : Z :=
  if (requested =? 0) || (requested =? 1) then requested else
  if negb (requested =? BB_TASK_CORE_ANY) then requested else
  if num_cores <? 2 then requested else
  let core0_claimed := negb (Z.land claimed_mask (core_bit 0) =? 0) in
  let core1_claimed := negb (Z.land claimed_mask (core_bit 1) =? 0) in
  if core0_claimed && negb core1_claimed then 1 else
  if core1_claimed && negb core0_claimed then 0 else requested.
(** The idle tasks do_reconfigure has the watchdog look at; [idle]: the mask of
    the build's settings. *)
Definition monitored_mask (idle claimed num_cores : Z) : Z :=
  let excused_seed := bb_wdt_invert_core_mask idle num_cores in
  let excused := bb_wdt_clamp_core_mask (bb_wdt_derive_excused_mask excused_seed claimed) num_cores in
  bb_wdt_invert_core_mask excused num_cores.

(** * The table (bb_task_common.c) *)

Inductive task_backing : Set := BB_TASK_BACKING_DYNAMIC | BB_TASK_BACKING_STATIC.
(** Pointers are addresses, 0 being NULL. *)
Record task_config := mk_tcfg {
  tc_entry : Z; tc_name : option (list byte); tc_stack_bytes : Z; tc_core : Z; tc_core_owning : bool; tc_backing : task_backing; tc_stack_buf : Z; tc_tcb_buf : Z; tc_wdt_arm : bool
}.
Record task_resolved := mk_tres { tr_core : Z; tr_stack_bytes : Z; tr_backing : task_backing }.
Definition bb_task_resolve (cfg : option task_config) (num_cores claimed_core_mask : Z) : bb_err + task_resolved :=
  match cfg with
  | None => inl BB_ERR_INVALID_ARG
  | Some cfg =>
      if tc_entry cfg =? 0 then inl BB_ERR_INVALID_ARG else
      if tc_stack_bytes cfg =? 0 then inl BB_ERR_INVALID_ARG else
      if match tc_backing cfg with BB_TASK_BACKING_STATIC => (tc_stack_buf cfg =? 0) || (tc_tcb_buf cfg =? 0) | _ => false end then inl BB_ERR_INVALID_ARG else
      if tc_core_owning cfg && (tc_core cfg =? BB_TASK_CORE_ANY) then inl BB_ERR_INVALID_ARG else
      if tc_core_owning cfg && negb (Z.land claimed_core_mask (core_bit (tc_core cfg)) =? 0) then inl BB_ERR_INVALID_ARG else
      let core := tc_core cfg in
      let core := if core =? BB_TASK_CORE_ANY then bb_wdt_steer_core core claimed_core_mask num_cores else core in
      let core := if negb (core =? BB_TASK_CORE_ANY) && (num_cores <=? core) then BB_TASK_CORE_ANY else core in
      inr (mk_tres core (tc_stack_bytes cfg) (tc_backing cfg))
  end.

Definition BB_TASK_NAME_MAX : nat := 20.
Record base_entry := mk_bentry {
  be_in_use : bool; be_handle : Z; be_name : list byte; be_stack_bytes : Z; be_wdt_arm : bool; be_core : Z; be_core_owning : bool;
  be_seen_tick : Z; be_free_bytes : Z; be_sampled : bool
}.
Definition bentry0 : base_entry := mk_bentry false 0 [] 0 false 0 false 0 0 false.
(** The pool, the registry of its addresses by handle (entry [i] is at [i + 1]),
    and the count of what did not fit. *)
Record base := mk_base { tb_pool : list base_entry; tb_registry : bb_registry; tb_dropped : Z }.
Definition base0 (cap : nat) : base := mk_base (repeat bentry0 cap) (BB_REGISTRY_DEFINE cap) 0.
Definition entry_addr (i : nat) : Z := Z.of_nat i + 1.
Definition entry_index (a : Z) : nat := Z.to_nat (a - 1).
(** Keys are pointers; no names are read. *)
Definition no_names (p : Z) : list byte := [].
Definition base_lookup (handle : Z) (b : base) : Z := bb_registry_lookup_ptr no_names BB_OK handle (tb_registry b).
Fixpoint free_entry_from (pool : list base_entry) (i : nat) : option nat :=
  match pool with [] => None | e :: pool => if negb (be_in_use e) then Some i else free_entry_from pool (S i) end.
Definition copy_name (name : list byte) : list byte := take (BB_TASK_NAME_MAX - 1) name.
Definition set_entry (i : nat) (e : base_entry) (b : base) : base := mk_base (<[i := e]> (tb_pool b)) (tb_registry b) (tb_dropped b).
(** What the calls on a tracked handle do to its entry. *)
Definition on_tracked (handle : Z) (f : base_entry -> base_entry) (b : base) : bb_err * base :=
  if handle =? 0 then (BB_ERR_INVALID_ARG, b) else
  let a := base_lookup handle b in
  if a =? 0 then (BB_ERR_NOT_FOUND, b) else
  match tb_pool b !! entry_index a with Some e => (BB_OK, set_entry (entry_index a) (f e) b) | None => (BB_OK, b) end.
(** A new entry in the first free slot; [fill] writes its fields. *)
Definition base_insert (handle : Z) (fill : base_entry -> base_entry) (b : base) : bb_err * base :=
  match free_entry_from (tb_pool b) 0 with
  | None => (BB_ERR_NO_SPACE, mk_base (tb_pool b) (tb_registry b) (u32 (tb_dropped b + 1)))
  | Some i =>
      match tb_pool b !! i with
      | None => (BB_ERR_NO_SPACE, b)
      | Some e =>
          let '(reg_rc, r) := bb_registry_register_ptr no_names BB_OK handle (entry_addr i) (tb_registry b) in
          if is_ok reg_rc then (BB_OK, mk_base (<[i := fill e]> (tb_pool b)) r (tb_dropped b))
          else (reg_rc, mk_base (<[i := bentry0]> (tb_pool b)) r (tb_dropped b))
      end
  end.
Definition fill_budget (name : list byte) (stack_bytes : Z) (wdt_arm : bool) (e : base_entry) : base_entry :=
  mk_bentry (be_in_use e) (be_handle e) (copy_name name) stack_bytes wdt_arm (be_core e) (be_core_owning e) (be_seen_tick e) (be_free_bytes e) (be_sampled e).
Definition fill_new (handle : Z) (name : list byte) (stack_bytes : Z) (wdt_arm : bool) (seen_tick : Z) (e : base_entry) : base_entry :=
  mk_bentry true handle (copy_name name) stack_bytes wdt_arm (be_core e) (be_core_owning e) seen_tick (be_free_bytes e) (be_sampled e).
Definition fill_seen (now_tick : Z) (e : base_entry) : base_entry :=
  mk_bentry (be_in_use e) (be_handle e) (be_name e) (be_stack_bytes e) (be_wdt_arm e) (be_core e) (be_core_owning e) now_tick (be_free_bytes e) (be_sampled e).
Definition fill_free (free_bytes : Z) (e : base_entry) : base_entry :=
  mk_bentry (be_in_use e) (be_handle e) (be_name e) (be_stack_bytes e) (be_wdt_arm e) (be_core e) (be_core_owning e) (be_seen_tick e) free_bytes true.
Definition fill_core (core : Z) (core_owning : bool) (e : base_entry) : base_entry :=
  mk_bentry (be_in_use e) (be_handle e) (be_name e) (be_stack_bytes e) (be_wdt_arm e) core core_owning (be_seen_tick e) (be_free_bytes e) (be_sampled e).

Definition bb_task_base_upsert (handle : Z) (name : option (list byte)) (stack_bytes : Z) (wdt_arm : bool) (b : base) : bb_err * base :=
  match name with
  | None => (BB_ERR_INVALID_ARG, b)
  | Some name =>
      if handle =? 0 then (BB_ERR_INVALID_ARG, b) else
      if negb (base_lookup handle b =? 0) then on_tracked handle (fill_budget name stack_bytes wdt_arm) b
      else base_insert handle (fill_new handle name stack_bytes wdt_arm 0) b
  end.
(** The registry's entry and the pool's entry go together. *)
Definition base_drop (handle : Z) (b : base) : bb_err * base :=
  if handle =? 0 then (BB_ERR_INVALID_ARG, b) else
  let a := base_lookup handle b in
  if a =? 0 then (BB_ERR_NOT_FOUND, b) else
  let '(_, r) := bb_registry_deregister_ptr no_names BB_OK handle (tb_registry b) in
  (BB_OK, mk_base (<[entry_index a := bentry0]> (tb_pool b)) r (tb_dropped b)).
Definition bb_task_base_remove (handle : Z) (b : base) : bb_err * base := base_drop handle b.
Definition bb_task_base_touch (handle now_tick : Z) (b : base) : bb_err * base := on_tracked handle (fill_seen now_tick) b.
Definition bb_task_base_set_free_bytes (handle free_bytes : Z) (b : base) : bb_err * base := on_tracked handle (fill_free free_bytes) b.
Definition bb_task_base_set_core_owning (handle core : Z) (core_owning : bool) (b : base) : bb_err * base := on_tracked handle (fill_core core core_owning) b.
Definition bb_task_base_touch_or_insert (handle : Z) (name : option (list byte)) (now_tick : Z) (b : base) : bb_err * base :=
  match name with
  | None => (BB_ERR_INVALID_ARG, b)
  | Some name =>
      if handle =? 0 then (BB_ERR_INVALID_ARG, b) else
      if negb (base_lookup handle b =? 0) then on_tracked handle (fill_seen now_tick) b
      else base_insert handle (fill_new handle name 0 false now_tick) b
  end.
(** The pairs a callback of bb_task_base_foreach is given, in order. *)
Definition bb_task_base_foreach (b : base) : list (Z * base_entry) :=
  omap (fun e => (fun be => (e.1, be)) <$> tb_pool b !! entry_index e.2) (registry_snapshot BB_OK (tb_registry b)).
Definition bb_task_base_count (b : base) : nat := length (filter (fun e => be_in_use e = true) (tb_pool b)).
Definition bb_task_base_capacity (b : base) : nat := length (tb_pool b).
Definition bb_task_base_dropped (b : base) : Z := tb_dropped b.

Definition BB_TASK_SWEEP_GRACE : Z := 1.
Definition swept (now_tick : Z) (e : base_entry) : bool :=
  be_in_use e && negb (be_seen_tick e =? now_tick) && (BB_TASK_SWEEP_GRACE <? u32 (now_tick - be_seen_tick e)).
Definition bb_task_base_sweep_apply (entries : option (list base_entry)) (n now_tick : Z) : Z * list base_entry :=
  match entries with
  | None => (0, [])
  | Some es =>
      if n <=? 0 then (0, es) else
      let k := Z.to_nat n in
      (Z.of_nat (length (filter (fun e => swept now_tick e = true) (take k es))), map (fun e => if swept now_tick e then bentry0 else e) (take k es) ++ drop k es)
  end.
(** The entry that was dropped tells which core to release. *)
Definition bb_task_deregister_entry (handle : Z) (b : base) : bb_err * base * option Z :=
  let owned := if handle =? 0 then None else
    e ← tb_pool b !! entry_index (base_lookup handle b); if negb (base_lookup handle b =? 0) && be_core_owning e then Some (be_core e) else None in
  let '(err, b) := base_drop handle b in
  (err, b, owned).
Definition bb_task_deregister (handle : Z) (b : base) (mask : Z) : bb_err * base * Z :=
  let '(err, b, owned) := bb_task_deregister_entry handle b in
  (err, b, match owned with Some core => (bb_wdt_release_core core mask).2 | None => mask end).
Definition bb_task_delay_ticks_for_ms (ms tick_rate_hz : Z) : Z :=
  if (ms =? 0) || (tick_rate_hz =? 0) then 0 else
  let ticks := ms * tick_rate_hz / 1000 in
  if ticks =? 0 then 1 else if 4294967295 <? ticks then 4294967295 else ticks.

(** * The base scan (bb_task_registry_base_scan_common.c) *)

(** A task the kernel reports. *)
Record scan_row := mk_row { rw_handle : Z; rw_name : list byte; rw_free_bytes : Z }.
Record low_entry := mk_low { lo_handle : Z; lo_in_use : bool; lo_low : bool; lo_seen_tick : Z }.
Definition low0 : low_entry := mk_low 0 false false 0.
(** The table, the debounce table, the handler's threshold once one is set, and
    the calls it was given. *)
Record scan := mk_scan { sc_base : base; sc_low : list low_entry; sc_handler : option Z; sc_calls : list (list byte * Z * Z) }.
Definition scan0 (cap : nat) : scan := mk_scan (base0 cap) (repeat low0 cap) None [].
Definition with_base (b : base) (s : scan) : scan := mk_scan b (sc_low s) (sc_handler s) (sc_calls s).
Definition bb_task_registry_set_low_stack_handler (handler : option Z) (s : scan) : scan := mk_scan (sc_base s) (sc_low s) handler (sc_calls s).

Fixpoint low_find (p : low_entry -> bool) (l : list low_entry) (i : nat) : option nat :=
  match l with [] => None | e :: l => if p e then Some i else low_find p l (S i) end.
Definition low_is (handle : Z) (e : low_entry) : bool := lo_in_use e && (lo_handle e =? handle).
Definition low_state_mark (handle scan_tick : Z) (l : list low_entry) : option nat * list low_entry :=
  match low_find (low_is handle) l 0 with
  | Some i => (Some i, match l !! i with Some e => <[i := mk_low (lo_handle e) (lo_in_use e) (lo_low e) scan_tick]> l | None => l end)
  | None =>
      match low_find (fun e => negb (lo_in_use e)) l 0 with
      | Some i => (Some i, <[i := mk_low handle true false scan_tick]> l)
      | None => (None, l)
      end
  end.
Definition low_old (scan_tick : Z) (e : low_entry) : bool := lo_in_use e && negb (lo_seen_tick e =? scan_tick) && (1 <? u32 (scan_tick - lo_seen_tick e)).
Definition low_state_sweep (scan_tick : Z) (l : list low_entry) : list low_entry := map (fun e => if low_old scan_tick e then low0 else e) l.
(** The debounce of one row: the new table and whether the handler is called. *)
Definition low_check (threshold now_tick : Z) (row : scan_row) (l : list low_entry) : bool * list low_entry :=
  let is_low := rw_free_bytes row <? threshold in
  match low_state_mark (rw_handle row) now_tick l with
  | (Some i, l) => match l !! i with
                   | Some st => (is_low && negb (lo_low st), <[i := mk_low (lo_handle st) (lo_in_use st) is_low (lo_seen_tick st)]> l)
                   | None => (false, l)
                   end
  | (None, l) => (false, l)
  end.
Definition scan_one (now_tick : Z) (s : scan) (row : scan_row) : scan :=
  if rw_handle row =? 0 then s else
  let b := (bb_task_base_touch_or_insert (rw_handle row) (Some (rw_name row)) now_tick (sc_base s)).2 in
  let b := (bb_task_base_set_free_bytes (rw_handle row) (rw_free_bytes row) b).2 in
  match sc_handler s with
  | None => with_base b s
  | Some threshold =>
      let '(call, l) := low_check threshold now_tick row (sc_low s) in
      mk_scan b l (sc_handler s) (sc_calls s ++ if call then [(rw_name row, rw_handle row, rw_free_bytes row)] else [])
  end.
Definition reconcile (now_tick : Z) (b : base) : Z * base :=
  let rc := bb_task_base_foreach b in
  let '(freed, entries) := bb_task_base_sweep_apply (Some (map snd rc)) (Z.of_nat (length rc)) now_tick in
  if 0 <? freed then (freed, fold_left (fun b p => if negb (be_in_use p.2) then (bb_task_base_remove p.1 b).2 else b) (zip (map fst rc) entries) b) else (freed, b).
(** [rows]: None is NULL. *)
Definition bb_task_registry_base_scan_apply (rows : option (list scan_row)) (now_tick : Z) (s : scan) : Z * scan :=
  let s := fold_left (scan_one now_tick) (default [] rows) s in
  let s := match sc_handler s with Some _ => mk_scan (sc_base s) (low_state_sweep now_tick (sc_low s)) (sc_handler s) (sc_calls s) | None => s end in
  let '(freed, b) := reconcile now_tick (sc_base s) in
  (freed, with_base b s).

(** * Arrays of slots with a key *)

Section Slots.
Context {A V : Type} (used : A -> bool) (key : A -> Z) (val : A -> V).
Definition slot_keys (l : list A) : list Z := map key (filter (fun e => used e = true) l).
Definition slot_map (l : list A) : gmap Z V := list_to_map (map (fun e => (key e, val e)) (filter (fun e => used e = true) l)).

Lemma slot_pairs l : (map (fun e => (key e, val e)) (filter (fun e => used e = true) l)).*1 = slot_keys l.
Proof. unfold slot_keys. change (map fst (map (fun e => (key e, val e)) (filter (fun e => used e = true) l)) = map key (filter (fun e => used e = true) l)). by rewrite map_map. Qed.
Lemma slot_lookup l h v : NoDup (slot_keys l) -> slot_map l !! h = Some v <-> exists i e, l !! i = Some e /\ used e = true /\ key e = h /\ val e = v.
Proof.
  intros Hn. unfold slot_map. rewrite <- elem_of_list_to_map by (by rewrite slot_pairs). split.
  - intros (e & [= <- <-] & He)%list_elem_of_In%in_map_iff. apply list_elem_of_In, list_elem_of_filter in He as [Hu [i Hi]%list_elem_of_lookup]. by exists i, e.
  - intros (i & e & Hi & Hu & <- & <-). apply list_elem_of_In, in_map_iff. exists e. split; [done|]. apply list_elem_of_In, list_elem_of_filter. split; [done|]. by eapply list_elem_of_lookup_2.
Qed.
Lemma slot_at l i e : l !! i = Some e -> used e = true -> NoDup (slot_keys l) -> slot_map l !! key e = Some (val e).
Proof. intros Hi Hu Hn. apply slot_lookup; [done|]. by exists i, e. Qed.
Lemma slot_size l : NoDup (slot_keys l) -> size (slot_map l) = length (slot_keys l).
Proof. intros Hn. unfold slot_map. rewrite map_size_list_to_map by (by rewrite slot_pairs). unfold slot_keys. by rewrite !length_map. Qed.
Lemma slot_keys_set l i e e' : l !! i = Some e ->
  slot_keys (<[i := e']> l) = slot_keys (take i l) ++ (if used e' then [key e'] else []) ++ slot_keys (drop (S i) l).
Proof.
  intros Hi. pose proof (lookup_lt_Some _ _ _ Hi). rewrite insert_take_drop by done. unfold slot_keys. rewrite filter_app, filter_cons, map_app.
  destruct (used e') eqn:E; [by rewrite decide_True by done|by rewrite decide_False by done].
Qed.
Lemma slot_keys_at l i e : l !! i = Some e -> slot_keys l = slot_keys (take i l) ++ (if used e then [key e] else []) ++ slot_keys (drop (S i) l).
Proof. intros Hi. rewrite <- (slot_keys_set l i e e Hi). by rewrite list_insert_id. Qed.
(** Writing a slot is writing its key. *)
Lemma slot_set l i e e' : NoDup (slot_keys l) -> NoDup (slot_keys (<[i := e']> l)) -> l !! i = Some e -> used e' = true -> (used e = true -> key e = key e') ->
  slot_map (<[i := e']> l) = <[key e' := val e']> (slot_map l).
Proof.
  intros Hn Hn' Hi Hu' Hk. pose proof (lookup_lt_Some _ _ _ Hi) as Hlt. assert (Hi' : <[i := e']> l !! i = Some e') by (by rewrite list_lookup_insert_eq).
  apply map_eq. intros h. apply option_eq. intros v. destruct (decide (h = key e')) as [->|Hne].
  - by rewrite lookup_insert_eq, (slot_at _ i e').
  - rewrite lookup_insert_ne, !slot_lookup by done. split; intros (j & x & Hj & Hxu & Hxk & Hxv); exists j, x; (split; [|done]).
    + destruct (decide (i = j)) as [->|Hij]; [congruence|]. by rewrite list_lookup_insert_ne in Hj.
    + rewrite list_lookup_insert_ne; [done|]. intros <-. rewrite Hi in Hj. injection Hj as ->. specialize (Hk Hxu). congruence.
Qed.
Lemma slot_clear l i e e' : NoDup (slot_keys l) -> l !! i = Some e -> used e = true -> used e' = false ->
  NoDup (slot_keys (<[i := e']> l)) /\ slot_map (<[i := e']> l) = delete (key e) (slot_map l).
Proof.
  intros Hn Hi Hu Hu'. pose proof (lookup_lt_Some _ _ _ Hi) as Hlt. pose proof (slot_keys_set l i e e' Hi) as Hs. rewrite Hu' in Hs. cbn [app] in Hs.
  rewrite (slot_keys_at l i e Hi), Hu in Hn. cbn [app] in Hn. rewrite <- Permutation_middle in Hn. apply NoDup_cons in Hn as [Hnot Hn].
  assert (Hn' : NoDup (slot_keys (<[i := e']> l))) by (by rewrite Hs). split; [done|].
  assert (Hnl : NoDup (slot_keys l)) by (rewrite (slot_keys_at l i e Hi), Hu; cbn [app]; rewrite <- Permutation_middle; by constructor).
  apply map_eq. intros h. apply option_eq. intros v. rewrite slot_lookup by done. destruct (decide (h = key e)) as [->|Hne].
  - rewrite lookup_delete_eq. split; [|done]. intros (j & x & Hj & Hxu & Hxk & _). exfalso. apply Hnot. rewrite <- Hs.
    rewrite <- Hxk. unfold slot_keys. apply list_elem_of_In, in_map, list_elem_of_In, list_elem_of_filter. split; [done|]. by eapply list_elem_of_lookup_2.
  - rewrite lookup_delete_ne, slot_lookup by done. split; intros (j & x & Hj & Hxu & Hxk & Hxv); exists j, x; (split; [|done]).
    + destruct (decide (i = j)) as [->|Hij]; [rewrite list_lookup_insert_eq in Hj by done; congruence|]. by rewrite list_lookup_insert_ne in Hj.
    + rewrite list_lookup_insert_ne; [done|]. intros <-. congruence.
Qed.
End Slots.

(** * What the table holds *)

(** The registry's entries, as the pool has them. *)
Fixpoint used_from (pool : list base_entry) (i : nat) : list (Z * Z) :=
  match pool with [] => [] | e :: pool => (if be_in_use e then [(be_handle e, entry_addr i)] else []) ++ used_from pool (S i) end.
Record base_wf (cap : nat) (b : base) : Prop := {
  bw_reg : registry_wf no_names true (tb_registry b);
  bw_frozen : rg_frozen (tb_registry b) = false;
  bw_capacity : rg_capacity (tb_registry b) = cap;
  bw_length : length (tb_pool b) = cap;
  bw_live : live (tb_registry b) ≡ₚ used_from (tb_pool b) 0;
  bw_handles : Forall (fun p => p.1 <> 0) (live (tb_registry b));
  bw_free : forall i e, tb_pool b !! i = Some e -> be_in_use e = false -> e = bentry0
}.
(** The tasks by handle. *)
Definition tasks (b : base) : gmap Z base_entry := slot_map be_in_use be_handle (fun e => e) (tb_pool b).

Lemma used_app p1 : forall p2 i, used_from (p1 ++ p2) i = used_from p1 i ++ used_from p2 (i + length p1).
Proof. induction p1 as [|e p1 IH]; intros p2 i; cbn; [by rewrite Nat.add_0_r|]. rewrite IH, <- app_assoc. do 3 f_equal. lia. Qed.
Lemma used_elem pool : forall k h a, (h, a) ∈ used_from pool k <-> exists i e, pool !! i = Some e /\ be_in_use e = true /\ be_handle e = h /\ a = entry_addr (k + i).
Proof.
  induction pool as [|e pool IH]; intros k h a; cbn [used_from]; [split; [by intros ?%elem_of_nil|by intros (i & e & ? & _)]|].
  rewrite elem_of_app, IH. split.
  - intros [H|(i & e' & H1 & H2 & H3 & ->)].
    + destruct (be_in_use e) eqn:E; [|by apply elem_of_nil in H]. apply list_elem_of_singleton in H as [= -> ->]. exists 0%nat, e. by rewrite Nat.add_0_r.
    + exists (S i), e'. split_and!; try done. f_equal. lia.
  - intros (i & e' & H1 & H2 & H3 & ->). destruct i as [|i]; [injection H1 as ->; left; rewrite H2, <- H3, Nat.add_0_r; by apply list_elem_of_singleton|].
    right. exists i, e'. split_and!; try done. f_equal. lia.
Qed.
(** The pool with one entry set apart. *)
Lemma used_at pool i e : pool !! i = Some e ->
  used_from pool 0 = used_from (take i pool) 0 ++ (if be_in_use e then [(be_handle e, entry_addr i)] else []) ++ used_from (drop (S i) pool) (S i).
Proof.
  intros H. pose proof (lookup_lt_Some _ _ _ H). rewrite <- (take_drop_middle pool i e H) at 1. rewrite used_app. cbn [used_from].
  rewrite length_take, Nat.min_l by lia. do 2 f_equal.
Qed.
Lemma used_set pool i e e' : pool !! i = Some e ->
  used_from (<[i := e']> pool) 0 = used_from (take i pool) 0 ++ (if be_in_use e' then [(be_handle e', entry_addr i)] else []) ++ used_from (drop (S i) pool) (S i).
Proof.
  intros H. pose proof (lookup_lt_Some _ _ _ H). rewrite (used_at (<[i := e']> pool) i e') by (rewrite list_lookup_insert_eq by lia; done).
  by rewrite take_insert_ge, drop_insert_lt by lia.
Qed.
Lemma live_keys cap b : base_wf cap b -> NoDup (live (tb_registry b)).*1.
Proof.
  intros [[_ _ Hk] _ _ _ _ _ _]. induction Hk as [|x l Hx _ IH]; [constructor|]. cbn. constructor; [|done].
  intros (y & Ey & Hy)%list_elem_of_fmap. rewrite Forall_forall in Hx. specialize (Hx y Hy). unfold same_key in Hx. by rewrite Ey, Z.eqb_refl in Hx.
Qed.
Lemma used_handles pool : forall i, (used_from pool i).*1 = slot_keys be_in_use be_handle pool.
Proof. unfold slot_keys. induction pool as [|e pool IH]; intros i; cbn [used_from]; [done|]. rewrite fmap_app, IH, filter_cons. by destruct (be_in_use e). Qed.
Lemma pool_keys cap b : base_wf cap b -> NoDup (slot_keys be_in_use be_handle (tb_pool b)).
Proof. intros Hw. rewrite <- (used_handles _ 0), <- (bw_live _ _ Hw). exact (live_keys _ _ Hw). Qed.
Lemma tasks_lookup cap b h e : base_wf cap b -> tasks b !! h = Some e <-> exists i, tb_pool b !! i = Some e /\ be_in_use e = true /\ be_handle e = h.
Proof.
  intros Hw. unfold tasks. rewrite slot_lookup by exact (pool_keys _ _ Hw). split.
  - intros (i & x & Hi & Hu & Hk & ->). by exists i.
  - intros (i & Hi & Hu & Hk). by exists i, e.
Qed.
Lemma tasks_size cap b : base_wf cap b -> size (tasks b) = length (live (tb_registry b)).
Proof.
  intros Hw. unfold tasks. rewrite slot_size by exact (pool_keys _ _ Hw). rewrite <- (used_handles _ 0), length_fmap. by rewrite (Permutation_length (bw_live _ _ Hw)).
Qed.

(** Looking up finds the task's entry. *)
Lemma base_lookup_spec cap b h : base_wf cap b -> h <> 0 ->
  match tasks b !! h with
  | Some e => exists i, base_lookup h b = entry_addr i /\ tb_pool b !! i = Some e /\ be_in_use e = true /\ be_handle e = h
  | None => base_lookup h b = 0
  end.
Proof.
  intros Hw Hh. unfold base_lookup, bb_registry_lookup_ptr. rewrite (proj2 (Z.eqb_neq h 0) Hh), (rg_lookup_spec no_names h true _ (bw_reg _ _ Hw)).
  destruct (find (has_key no_names true h) (live (tb_registry b))) as [[k a]|] eqn:Ef.
  - apply find_some in Ef as [Hin%list_elem_of_In Hk]. unfold has_key, same_key in Hk. apply Z.eqb_eq in Hk. cbn in Hk. subst k.
    rewrite (bw_live _ _ Hw) in Hin. apply used_elem in Hin as (i & e & Hi & Hu & He & ->). rewrite (proj2 (tasks_lookup _ _ h e Hw) (ex_intro _ i (conj Hi (conj Hu He)))).
    exists i. by split_and!.
  - destruct (tasks b !! h) as [e|] eqn:Et; [|done]. apply (tasks_lookup _ _ _ _ Hw) in Et as (i & Hi & Hu & He). exfalso.
    assert (Hin : (h, entry_addr (0 + i)) ∈ live (tb_registry b)) by (rewrite (bw_live _ _ Hw); apply used_elem; by exists i, e).
    apply list_elem_of_In in Hin. pose proof (find_none _ _ Ef _ Hin) as Hn. unfold has_key, same_key in Hn. cbn in Hn. by rewrite Z.eqb_refl in Hn.
Qed.
Lemma entry_addr_nz i : entry_addr i <> 0.
Proof. unfold entry_addr. lia. Qed.
Lemma entry_index_addr i : entry_index (entry_addr i) = i.
Proof. unfold entry_index, entry_addr. lia. Qed.

(** ** What the calls do to it *)

Lemma set_wf cap b i e e' : base_wf cap b -> tb_pool b !! i = Some e -> be_in_use e = true -> be_in_use e' = true -> be_handle e' = be_handle e ->
  base_wf cap (set_entry i e' b) /\ tasks (set_entry i e' b) = <[be_handle e := e']> (tasks b).
Proof.
  intros Hw Hi Hu Hu' Hh. pose proof (lookup_lt_Some _ _ _ Hi) as Hlt. assert (Hw' : base_wf cap (set_entry i e' b)).
  { destruct Hw as [W1 W2 W3 W4 W5 W6 W7]. split; cbn; [done|done|done|by rewrite length_insert| |done|].
    - by rewrite W5, (used_set _ _ e e' Hi), (used_at _ _ e Hi), Hu, Hu', Hh.
    - intros j x Hj Hn. destruct (decide (i = j)) as [->|Hij]; [rewrite list_lookup_insert_eq in Hj by done; congruence|].
      rewrite list_lookup_insert_ne in Hj by done. by eapply W7. }
  split; [done|]. rewrite <- Hh. apply (slot_set be_in_use be_handle (fun e => e) _ i e e'); try done; [exact (pool_keys _ _ Hw)|exact (pool_keys _ _ Hw')].
Qed.
Definition keeps_key (f : base_entry -> base_entry) : Prop := forall e, be_in_use (f e) = be_in_use e /\ be_handle (f e) = be_handle e.
Lemma on_tracked_spec cap b h f : base_wf cap b -> keeps_key f -> h <> 0 ->
  match tasks b !! h with
  | Some e => exists b', on_tracked h f b = (BB_OK, b') /\ base_wf cap b' /\ tasks b' = <[h := f e]> (tasks b) /\ tb_dropped b' = tb_dropped b
  | None => on_tracked h f b = (BB_ERR_NOT_FOUND, b)
  end.
Proof.
  intros Hw Hf Hh. unfold on_tracked. rewrite (proj2 (Z.eqb_neq h 0) Hh). pose proof (base_lookup_spec cap b h Hw Hh) as Hl. destruct (tasks b !! h) as [e|].
  - destruct Hl as (i & -> & Hi & Hu & He). rewrite (proj2 (Z.eqb_neq _ 0) (entry_addr_nz i)), entry_index_addr, Hi. eexists. split; [done|].
    destruct (Hf e) as [Hf1 Hf2]. destruct (set_wf cap b i e (f e) Hw Hi Hu) as [H1 H2]; [congruence|done|]. rewrite He in H2. by split_and!.
  - by rewrite Hl.
Qed.
Lemma free_entry_spec pool : forall k, match free_entry_from pool k with
  | Some j => exists i e, j = (k + i)%nat /\ pool !! i = Some e /\ be_in_use e = false
  | None => Forall (fun e => be_in_use e = true) pool
  end.
Proof.
  induction pool as [|e pool IH]; intros k; cbn [free_entry_from]; [constructor|]. destruct (be_in_use e) eqn:E; cbn [negb].
  - specialize (IH (S k)). destruct (free_entry_from pool (S k)) as [j|]; [|by constructor]. destruct IH as (i & e' & -> & H1 & H2). exists (S i), e'. split_and!; [lia|done|done].
  - exists 0%nat, e. split_and!; [lia|done|done].
Qed.
Lemma used_length pool : forall k, (length (used_from pool k) <= length pool)%nat /\ (Forall (fun e => be_in_use e = true) pool -> length (used_from pool k) = length pool).
Proof.
  induction pool as [|e pool IH]; intros k; cbn [used_from length]; [done|]. rewrite length_app. destruct (IH (S k)) as [H1 H2]. split.
  - destruct (be_in_use e); cbn; lia.
  - intros [-> H]%Forall_cons. cbn. by rewrite H2.
Qed.
Lemma used_free pool i e : pool !! i = Some e -> be_in_use e = false -> (length (used_from pool 0) < length pool)%nat.
Proof.
  intros Hi Hu. pose proof (lookup_lt_Some _ _ _ Hi). rewrite (used_at _ _ _ Hi), Hu, !length_app. cbn [length].
  destruct (used_length (take i pool) 0) as [H1 _]. destruct (used_length (drop (S i) pool) (S i)) as [H2 _]. rewrite length_take in H1. rewrite length_drop in H2. lia.
Qed.
(** A task that is not tracked is entered while there is room. *)
Lemma base_insert_spec cap b h fill : base_wf cap b -> h <> 0 -> tasks b !! h = None -> be_in_use (fill bentry0) = true -> be_handle (fill bentry0) = h ->
  if (size (tasks b) <? cap)%nat
  then exists b', base_insert h fill b = (BB_OK, b') /\ base_wf cap b' /\ tasks b' = <[h := fill bentry0]> (tasks b) /\ tb_dropped b' = tb_dropped b
  else base_insert h fill b = (BB_ERR_NO_SPACE, mk_base (tb_pool b) (tb_registry b) (u32 (tb_dropped b + 1))).
Proof.
  intros Hw Hh Hn Hu Hhd. rewrite (tasks_size _ _ Hw). unfold base_insert. pose proof (free_entry_spec (tb_pool b) 0) as Hf.
  destruct (free_entry_from (tb_pool b) 0) as [j|].
  2:{ replace (length (live (tb_registry b)) <? cap)%nat with false; [done|]. symmetry. apply Nat.ltb_ge.
      rewrite (Permutation_length (bw_live _ _ Hw)), <- (bw_length _ _ Hw). destruct (used_length (tb_pool b) 0) as [_ H2]. by rewrite H2. }
  destruct Hf as (i & e & -> & Hi & Hfree). cbn [Nat.add]. rewrite Hi. pose proof (bw_free _ _ Hw _ _ Hi Hfree) as ->. pose proof (used_free _ _ _ Hi Hfree) as Hroom.
  assert (Hlt : (length (live (tb_registry b)) < cap)%nat) by (rewrite (Permutation_length (bw_live _ _ Hw)), <- (bw_length _ _ Hw); done).
  rewrite (proj2 (Nat.ltb_lt _ _) Hlt). unfold bb_registry_register_ptr. rewrite (proj2 (Z.eqb_neq h 0) Hh), (proj2 (Z.eqb_neq _ 0) (entry_addr_nz i)). cbn [orb].
  destruct (rg_register_spec no_names BB_OK h (entry_addr i) true _ (bw_reg _ _ Hw)) as (R1 & R2 & R3 & R4). cbn [is_ok negb andb] in R4.
  rewrite (bw_frozen _ _ Hw), (bw_capacity _ _ Hw), (proj2 (Nat.ltb_lt _ _) Hlt) in R4. cbn [negb andb] in R4.
  assert (Habs : h ∉ (live (tb_registry b)).*1).
  { intros ([k a] & Ek & Hin)%list_elem_of_fmap. cbn in Ek. subst k. rewrite (bw_live _ _ Hw) in Hin. apply used_elem in Hin as (j & x & Hj & Hxu & Hxh & _).
    assert (tasks b !! h = Some x) by (apply (tasks_lookup _ _ _ _ Hw); by exists j). congruence. }
  replace (forallb _ (live (tb_registry b))) with true in R4.
  2:{ symmetry. apply forallb_forall. intros [k a] Hin%list_elem_of_In. unfold has_key, same_key. cbn. apply negb_true_iff, Z.eqb_neq. intros ->.
      apply Habs, list_elem_of_fmap. by exists (h, a). }
  cbn [andb] in R4. destruct (registry_register_common _ _ _ _ _ _) as [rc r]. destruct R4 as [Erc Hlive]. cbn [fst snd] in *. subst rc. cbn [is_ok].
  eexists. split; [done|]. set (b' := mk_base _ _ _). pose proof (lookup_lt_Some _ _ _ Hi) as Hil.
  assert (Hw' : base_wf cap b').
  { destruct Hw as [W1 W2 W3 W4 W5 W6 W7]. split; cbn; [done|congruence|congruence|by rewrite length_insert| | |].
    - rewrite Hlive, W5, (used_set _ _ bentry0 (fill bentry0) Hi), (used_at _ _ _ Hi), Hfree, Hu, Hhd. cbn [app]. rewrite <- app_assoc. apply Permutation_app_head. by rewrite Permutation_app_comm.
    - rewrite Hlive. apply Forall_app. split; [done|by repeat constructor].
    - intros j x Hj Hxn. destruct (decide (i = j)) as [->|Hij]; [rewrite list_lookup_insert_eq in Hj by done; congruence|].
      rewrite list_lookup_insert_ne in Hj by done. by eapply W7. }
  split; [done|]. split; [|done]. rewrite <- Hhd. apply (slot_set be_in_use be_handle (fun e => e) _ i bentry0 (fill bentry0)); try done; [exact (pool_keys _ _ Hw)|exact (pool_keys _ _ Hw')].
Qed.
(** Dropping a task. *)
Lemma remove_perm h a rest l : l ≡ₚ (h, a) :: rest -> h ∉ rest.*1 -> remove_key no_names true h l ≡ₚ rest.
Proof.
  intros Hp Hn. unfold remove_key. rewrite Hp. rewrite filter_cons, decide_False by (unfold has_key, same_key; cbn; by rewrite Z.eqb_refl).
  rewrite (filter_all (has_key no_names true h)); [done|]. apply Forall_forall. intros x Hx. unfold has_key, same_key. apply Z.eqb_neq. intros E.
  apply Hn, list_elem_of_fmap. by exists x.
Qed.
Lemma base_drop_spec cap b h : base_wf cap b -> h <> 0 ->
  match tasks b !! h with
  | Some e => exists b', base_drop h b = (BB_OK, b') /\ base_wf cap b' /\ tasks b' = delete h (tasks b) /\ tb_dropped b' = tb_dropped b
  | None => base_drop h b = (BB_ERR_NOT_FOUND, b)
  end.
Proof.
  intros Hw Hh. unfold base_drop. rewrite (proj2 (Z.eqb_neq h 0) Hh). pose proof (base_lookup_spec cap b h Hw Hh) as Hl. destruct (tasks b !! h) as [e|] eqn:Et; [|by rewrite Hl].
  destruct Hl as (i & -> & Hi & Hu & He). rewrite (proj2 (Z.eqb_neq _ 0) (entry_addr_nz i)), entry_index_addr.
  unfold bb_registry_deregister_ptr. rewrite (proj2 (Z.eqb_neq h 0) Hh).
  destruct (rg_deregister_spec no_names BB_OK h true _ (bw_reg _ _ Hw)) as (R1 & R2 & R3 & R4). rewrite (bw_frozen _ _ Hw) in R4. cbn [is_ok negb andb] in R4.
  destruct (registry_deregister_common _ _ _ _ _) as [rc r]. destruct R4 as [_ Hlive]. cbn [fst snd] in *.
  pose proof (live_keys _ _ Hw) as Hk. rewrite (bw_live _ _ Hw), (used_at _ _ _ Hi), Hu, He in Hk. pose proof (lookup_lt_Some _ _ _ Hi) as Hlt.
  assert (Hperm : live (tb_registry b) ≡ₚ (h, entry_addr i) :: used_from (take i (tb_pool b)) 0 ++ used_from (drop (S i) (tb_pool b)) (S i)).
  { rewrite (bw_live _ _ Hw), (used_at _ _ _ Hi), Hu, He. cbn [app]. by rewrite Permutation_middle. }
  eexists. split; [done|]. set (b' := mk_base _ _ _). assert (Hw' : base_wf cap b').
  { destruct Hw as [W1 W2 W3 W4 W5 W6 W7]. split; cbn; [done|congruence|congruence|by rewrite length_insert| | |].
    - rewrite Hlive, (used_set _ _ e bentry0 Hi). cbn [be_in_use bentry0 app]. apply (remove_perm h (entry_addr i)); [done|].
      rewrite fmap_app in Hk |- *. cbn [app fmap list_fmap fst] in Hk. rewrite <- Permutation_middle in Hk. by apply NoDup_cons in Hk as [Hk _].
    - rewrite Hlive. apply Forall_forall. intros x [_ Hx]%list_elem_of_filter. rewrite Forall_forall in W6. by apply W6.
    - intros j x Hj Hxn. destruct (decide (i = j)) as [->|Hij]; [rewrite list_lookup_insert_eq in Hj by done; by injection Hj as <-|].
      rewrite list_lookup_insert_ne in Hj by done. by eapply W7. }
  split; [done|]. split; [|done]. rewrite <- He. exact (proj2 (slot_clear be_in_use be_handle (fun e => e) _ i e bentry0 (pool_keys _ _ Hw) Hi Hu eq_refl)).
Qed.

(** * The table as a map *)

(** Tasks by handle and the count of what did not fit. *)
Definition table : Type := gmap Z base_entry * Z.
Definition map_update (h : Z) (f : base_entry -> base_entry) (t : table) : bb_err * table :=
  if h =? 0 then (BB_ERR_INVALID_ARG, t) else match t.1 !! h with Some e => (BB_OK, (<[h := f e]> t.1, t.2)) | None => (BB_ERR_NOT_FOUND, t) end.
(** [old]: what becomes of a task that is there; [new]: the one entered else. *)
Definition map_enter (cap : nat) (h : Z) (name : option (list byte)) (old : list byte -> base_entry -> base_entry) (new : list byte -> base_entry) (t : table) : bb_err * table :=
  match name with
  | None => (BB_ERR_INVALID_ARG, t)
  | Some name =>
      if h =? 0 then (BB_ERR_INVALID_ARG, t) else
      match t.1 !! h with
      | Some e => (BB_OK, (<[h := old name e]> t.1, t.2))
      | None => if (size t.1 <? cap)%nat then (BB_OK, (<[h := new name]> t.1, t.2)) else (BB_ERR_NO_SPACE, (t.1, u32 (t.2 + 1)))
      end
  end.
Definition map_drop (h : Z) (t : table) : bb_err * table :=
  if h =? 0 then (BB_ERR_INVALID_ARG, t) else match t.1 !! h with Some _ => (BB_OK, (delete h t.1, t.2)) | None => (BB_ERR_NOT_FOUND, t) end.
(** A task that was reported: seen, measured, and entered if there is room. *)
Definition map_row (cap : nat) (now_tick : Z) (t : table) (row : scan_row) : table :=
  if rw_handle row =? 0 then t else
  let t := (map_enter cap (rw_handle row) (Some (rw_name row)) (fun _ => fill_seen now_tick) (fun name => fill_new (rw_handle row) name 0 false now_tick bentry0) t).2 in
  (map_update (rw_handle row) (fill_free (rw_free_bytes row)) t).2.
(** What was not seen for more than one scan goes. *)
Definition forgotten (now_tick : Z) (e : base_entry) : bool := 1 <? u32 (now_tick - be_seen_tick e).
Definition map_sweep (now_tick : Z) (t : table) : table := (filter (fun p => forgotten now_tick p.2 = false) t.1, t.2).
(** The debounce table: whether a task was low, and when it was seen. *)
Definition lows : Type := gmap Z (bool * Z).
Definition map_low (cap : nat) (threshold now_tick : Z) (row : scan_row) (m : lows) : bool * lows :=
  let is_low := rw_free_bytes row <? threshold in
  match m !! rw_handle row with
  | Some (was, _) => (is_low && negb was, <[rw_handle row := (is_low, now_tick)]> m)
  | None => if (size m <? cap)%nat then (is_low, <[rw_handle row := (is_low, now_tick)]> m) else (false, m)
  end.
Definition map_low_sweep (now_tick : Z) (m : lows) : lows := filter (fun p => negb (p.2.2 =? now_tick) && (1 <? u32 (now_tick - p.2.2)) = false) m.

Definition holds (cap : nat) (b : base) (t : table) : Prop := base_wf cap b /\ tasks b = t.1 /\ tb_dropped b = t.2.
Lemma base0_holds cap : holds cap (base0 cap) (∅, 0).
Proof.
  destruct (define_wf no_names true cap) as [H1 H2]. split; [split|split]; try done.
  - cbn. by rewrite repeat_length.
  - cbn [tb_pool tb_registry base0]. rewrite H2. assert (H : forall k, used_from (repeat bentry0 cap) k = []) by (clear; induction cap as [|n IH]; intros k; [done|]; apply (IH (S k))). by rewrite H.
  - intros i e He _. cbn in He. by apply list_elem_of_lookup_2, list_elem_of_In, repeat_spec in He.
  - unfold tasks, slot_map. assert (H : filter (fun e => be_in_use e = true) (repeat bentry0 cap) = []) by (clear; induction cap as [|n IH]; [done|]; cbn [repeat]; by rewrite filter_cons, decide_False by done).
    cbn [tb_pool base0]. by rewrite H.
Qed.
Lemma update_holds cap h f b t : keeps_key f -> holds cap b t -> let '(err, b') := on_tracked h f b in let '(err', t') := map_update h f t in err = err' /\ holds cap b' t'.
Proof.
  intros Hf (Hw & Ht & Hd). unfold map_update. rewrite <- Ht. destruct (Z.eqb_spec h 0) as [->|Hh]; [done|].
  pose proof (on_tracked_spec cap b h f Hw Hf Hh) as H. destruct (tasks b !! h) as [e|]; [|by rewrite H; split_and!].
  destruct H as (b' & -> & Hw' & Ht' & Hd'). split; [done|]. split_and!; [done|done|]. cbn [snd]. congruence.
Qed.
Lemma enter_holds cap h name old new b t : (forall n, keeps_key (old n)) -> (forall n, be_in_use (new n bentry0) = true /\ be_handle (new n bentry0) = h) -> holds cap b t ->
  let '(err, b') := match name with
    | None => (BB_ERR_INVALID_ARG, b)
    | Some name => if h =? 0 then (BB_ERR_INVALID_ARG, b) else if negb (base_lookup h b =? 0) then on_tracked h (old name) b else base_insert h (new name) b
    end in
  let '(err', t') := map_enter cap h name old (fun n => new n bentry0) t in err = err' /\ holds cap b' t'.
Proof.
  intros Hf Hn (Hw & Ht & Hd). unfold map_enter. rewrite <- Ht. destruct name as [name|]; [|by split_and!]. destruct (Z.eqb_spec h 0) as [->|Hh]; [by split_and!|].
  pose proof (base_lookup_spec cap b h Hw Hh) as Hl. pose proof (on_tracked_spec cap b h (old name) Hw (Hf name) Hh) as Hu. destruct (tasks b !! h) as [e|] eqn:Et.
  - destruct Hl as (i & -> & _). rewrite (proj2 (Z.eqb_neq _ 0) (entry_addr_nz i)). cbn [negb]. destruct Hu as (b' & -> & Hw' & Ht' & Hd'). split; [done|]. split_and!; [done|done|]. cbn [snd]. congruence.
  - rewrite Hl. cbn [Z.eqb negb]. destruct (Hn name) as [Hn1 Hn2]. pose proof (base_insert_spec cap b h (new name) Hw Hh Et Hn1 Hn2) as Hi. destruct (size (tasks b) <? cap)%nat.
    + destruct Hi as (b' & -> & Hw' & Ht' & Hd'). split; [done|]. split_and!; [done|done|]. cbn [snd]. congruence.
    + rewrite Hi. split; [done|]. split_and!; [|done|cbn; congruence]. by destruct Hw.
Qed.
Lemma drop_holds cap h b t : holds cap b t -> let '(err, b') := base_drop h b in let '(err', t') := map_drop h t in err = err' /\ holds cap b' t'.
Proof.
  intros (Hw & Ht & Hd). unfold map_drop. rewrite <- Ht. destruct (Z.eqb_spec h 0) as [->|Hh]; [by split_and!|].
  pose proof (base_drop_spec cap b h Hw Hh) as H. destruct (tasks b !! h) as [e|]; [|by rewrite H; split_and!].
  destruct H as (b' & -> & Hw' & Ht' & Hd'). split; [done|]. split_and!; [done|done|]. cbn [snd]. congruence.
Qed.

(** ** One scan *)

Lemma keeps_seen t : keeps_key (fill_seen t).
Proof. by intros []. Qed.
Lemma keeps_free n : keeps_key (fill_free n).
Proof. by intros []. Qed.
Lemma keeps_core c o : keeps_key (fill_core c o).
Proof. by intros []. Qed.
Lemma keeps_budget n s w : keeps_key (fill_budget n s w).
Proof. by intros []. Qed.
Lemma touch_insert_holds cap h name tick b t : holds cap b t ->
  let '(err, b') := bb_task_base_touch_or_insert h name tick b in
  let '(err', t') := map_enter cap h name (fun _ => fill_seen tick) (fun name => fill_new h name 0 false tick bentry0) t in err = err' /\ holds cap b' t'.
Proof. intros H. exact (enter_holds cap h name (fun _ => fill_seen tick) (fun name => fill_new h name 0 false tick) b t (fun _ => keeps_seen tick) (fun _ => conj eq_refl eq_refl) H). Qed.
Lemma row_holds cap tick row b t : holds cap b t -> rw_handle row <> 0 ->
  holds cap (bb_task_base_set_free_bytes (rw_handle row) (rw_free_bytes row) (bb_task_base_touch_or_insert (rw_handle row) (Some (rw_name row)) tick b).2).2 (map_row cap tick t row).
Proof.
  intros H Hh. unfold map_row. rewrite (proj2 (Z.eqb_neq _ 0) Hh). pose proof (touch_insert_holds cap (rw_handle row) (Some (rw_name row)) tick b t H) as H1.
  destruct (bb_task_base_touch_or_insert _ _ _ _) as [err1 b1]. destruct (map_enter _ _ _ _ _ _) as [err1' t1]. destruct H1 as [_ H1]. cbn [snd].
  pose proof (update_holds cap (rw_handle row) (fill_free (rw_free_bytes row)) b1 t1 (keeps_free _) H1) as H2. unfold bb_task_base_set_free_bytes.
  destruct (on_tracked _ _ _) as [err2 b2]. destruct (map_update _ _ _) as [err2' t2]. by destruct H2.
Qed.

Lemma NoDup_fst_inj (l : list (Z * base_entry)) h x y : NoDup l.*1 -> (h, x) ∈ l -> (h, y) ∈ l -> x = y.
Proof.
  intros Hn H1 H2. assert (E1 : (list_to_map l : gmap Z base_entry) !! h = Some x) by (by apply elem_of_list_to_map). assert (E2 : (list_to_map l : gmap Z base_entry) !! h = Some y) by (by apply elem_of_list_to_map). congruence.
Qed.
(** The callback sees each task once. *)
Lemma foreach_spec cap b : base_wf cap b -> NoDup (bb_task_base_foreach b).*1 /\ list_to_map (bb_task_base_foreach b) = tasks b /\ Forall (fun p => p.1 <> 0 /\ be_in_use p.2 = true) (bb_task_base_foreach b).
Proof.
  intros Hw. assert (Hl : forall l, (forall x, x ∈ l -> x ∈ live (tb_registry b)) -> let f := omap (fun e : Z * Z => (fun be => (e.1, be)) <$> tb_pool b !! entry_index e.2) l in
    f.*1 = l.*1 /\ Forall (fun p => tasks b !! p.1 = Some p.2 /\ p.1 <> 0 /\ be_in_use p.2 = true) f).
  { induction l as [|[h a] l IH]; intros Hin; [by split|]. assert (Hx : (h, a) ∈ live (tb_registry b)) by (apply Hin; by left).
    pose proof (bw_handles _ _ Hw) as Hz. rewrite Forall_forall in Hz. pose proof (Hz _ Hx) as Hh. cbn in Hh. rewrite (bw_live _ _ Hw) in Hx.
    apply used_elem in Hx as (i & e & Hi & Hu & He & ->). cbn [omap list_omap fst snd]. rewrite entry_index_addr. cbn [Nat.add]. rewrite Hi. cbn [fmap option_fmap option_map].
    destruct (IH ltac:(intros x Hx; apply Hin; by right)) as [H1 H2]. split; [cbn; by f_equal|]. constructor; [|done]. cbn. split_and!; [|done|done]. apply (tasks_lookup _ _ _ _ Hw). by exists i. }
  destruct (Hl (live (tb_registry b)) ltac:(done)) as [H1 H2]. change (omap _ (live (tb_registry b))) with (bb_task_base_foreach b) in H1, H2. clear Hl.
  assert (Hn : NoDup (bb_task_base_foreach b).*1) by (rewrite H1; exact (live_keys _ _ Hw)). split; [done|]. split; [|by eapply Forall_impl; [exact H2|]; intros p (_ & H3 & H4)].
  apply map_eq. intros h. apply option_eq. intros e. rewrite <- elem_of_list_to_map by done. split.
  - intros Hin. rewrite Forall_forall in H2. by destruct (H2 _ Hin) as [H3 _].
  - intros Ht. assert (Hin : h ∈ (bb_task_base_foreach b).*1).
    { rewrite H1. apply (tasks_lookup _ _ _ _ Hw) in Ht as (i & Hi & Hu & He). apply list_elem_of_fmap. exists (h, entry_addr (0 + i)). split; [done|].
      rewrite (bw_live _ _ Hw). apply used_elem. by exists i, e. }
    apply list_elem_of_fmap in Hin as ([k x] & Ek & Hin). cbn in Ek. subst k. rewrite Forall_forall in H2. destruct (H2 _ Hin) as [H3 _]. cbn in H3. congruence.
Qed.
Lemma filter_keys (P : Z * base_entry -> Prop) `{!forall p, Decision (P p)} (l : list (Z * base_entry)) : NoDup l.*1 -> NoDup (filter P l).*1.
Proof.
  induction l as [|p l IH]; intros Hn; [constructor|]. apply NoDup_cons in Hn as [Hp Hl]. rewrite filter_cons. case_decide; [|by apply IH]. cbn. constructor; [|by apply IH].
  intros (q & Eq & [_ Hq]%list_elem_of_filter)%list_elem_of_fmap. apply Hp. rewrite Eq. apply list_elem_of_fmap. by exists q.
Qed.
Lemma filter_to_map (P : Z * base_entry -> Prop) `{!forall p, Decision (P p)} (l : list (Z * base_entry)) : NoDup l.*1 -> filter P (list_to_map l : gmap Z base_entry) = list_to_map (filter P l).
Proof.
  intros Hn. assert (Hn' : NoDup (filter P l).*1) by (by apply filter_keys).
  apply map_eq. intros h. apply option_eq. intros e. rewrite map_lookup_filter_Some, <- !elem_of_list_to_map by done. rewrite list_elem_of_filter. tauto.
Qed.
Lemma drops_holds cap ps : forall b t, holds cap b t -> Forall (fun p => p.1 <> 0) ps ->
  exists t', holds cap (fold_left (fun b p => if negb (be_in_use p.2) then (bb_task_base_remove p.1 b).2 else b) ps b) t' /\ t'.2 = t.2 /\
    forall h e, t'.1 !! h = Some e <-> t.1 !! h = Some e /\ ~ exists x, (h, x) ∈ ps /\ be_in_use x = false.
Proof.
  induction ps as [|[k x] ps IH]; intros b t H Hz; cbn [fold_left fst snd].
  - exists t. split_and!; [done|done|]. intros h e. split; [|tauto]. intros He. split; [done|]. by intros (y & Hy%elem_of_nil & _).
  - apply Forall_cons in Hz as [Hk Hz]. cbn in Hk. destruct (be_in_use x) eqn:Ex; cbn [negb].
    + destruct (IH b t H Hz) as (t' & H1 & H2 & H3). exists t'. split_and!; [done|done|]. intros h e. rewrite H3. split; intros [H4 H5]; (split; [done|]); intros (y & Hy & Hyu); apply H5; exists y.
      * apply elem_of_cons in Hy as [[= -> ->]|Hy]; [congruence|done].
      * split; [by right|done].
    + pose proof (drop_holds cap k b t H) as Hd. unfold bb_task_base_remove. destruct (base_drop k b) as [err b1]. unfold map_drop in Hd. rewrite (proj2 (Z.eqb_neq k 0) Hk) in Hd. cbn [snd].
      set (t1 := (delete k t.1, t.2) : table). assert (H1 : holds cap b1 t1).
      { destruct (t.1 !! k) as [e|] eqn:Et; destruct Hd as [_ Hd]; [done|]. unfold t1. rewrite delete_id by done. by destruct t. }
      destruct (IH b1 t1 H1 Hz) as (t' & H2 & H3 & H4). exists t'. split_and!; [done|done|]. intros h e. rewrite H4. cbn [t1 fst]. rewrite lookup_delete_Some. split.
      * intros [[H5 H6] H7]. split; [done|]. intros (y & Hy & Hyu). apply H7. exists y. split; [|done]. apply elem_of_cons in Hy as [[= -> ->]|Hy]; [congruence|done].
      * intros [H5 H6]. split; [split; [|done]|].
        -- intros <-. apply H6. exists x. split; [by left|done].
        -- intros (y & Hy & Hyu). apply H6. exists y. split; [by right|done].
Qed.
(** The same by the entries' own test. *)
Definition map_swept (now_tick : Z) (t : table) : table := (filter (fun p => swept now_tick p.2 = false) t.1, t.2).
Lemma swept_forgotten tick e : be_in_use e = true -> swept tick e = forgotten tick e.
Proof.
  intros Hu. unfold swept, forgotten. rewrite Hu. cbn [andb]. destruct (Z.eqb_spec (be_seen_tick e) tick) as [->|_]; [|done]. by rewrite Z.sub_diag.
Qed.
Lemma reconcile_swept cap tick b t : holds cap b t ->
  let '(freed, b') := reconcile tick b in freed = Z.of_nat (size (filter (fun p => swept tick p.2 = true) t.1)) /\ holds cap b' (map_swept tick t).
Proof.
  intros H. pose proof H as (Hw & Ht & Hd). destruct (foreach_spec cap b Hw) as (Hn & Hm & Hu). unfold reconcile. set (rc := bb_task_base_foreach b) in *.
  set (rc' := map (fun p => (p.1, if swept tick p.2 then bentry0 else p.2)) rc).
  assert (Es : bb_task_base_sweep_apply (Some (map snd rc)) (Z.of_nat (length rc)) tick =
    (Z.of_nat (length (filter (fun e => swept tick e = true) (map snd rc))), map (fun e => if swept tick e then bentry0 else e) (map snd rc))).
  { unfold bb_task_base_sweep_apply. destruct (Z.leb_spec (Z.of_nat (length rc)) 0); [by destruct rc; [|cbn in *; lia]|].
    rewrite Nat2Z.id, take_ge, drop_ge by (rewrite length_map; lia). by rewrite app_nil_r. }
  rewrite Es. clear Es. assert (Ez : zip (map fst rc) (map (fun e => if swept tick e then bentry0 else e) (map snd rc)) = rc').
  { subst rc'. generalize rc. intros l. induction l as [|p l IH]; [done|]. cbn. by rewrite IH. }
  rewrite Ez. assert (Ef : length (filter (fun e => swept tick e = true) (map snd rc)) = size (filter (fun p => swept tick p.2 = true) t.1)).
  { rewrite <- Ht, <- Hm, filter_to_map by done. rewrite map_size_list_to_map by (by apply filter_keys).
    generalize rc. intros l. induction l as [|p l IH]; [done|]. cbn [map]. rewrite !filter_cons. destruct (swept tick p.2); [rewrite !decide_True by done; cbn; by rewrite IH|by rewrite !decide_False by done]. }
  rewrite Ef. assert (Hz : Forall (fun p => p.1 <> 0) rc').
  { subst rc'. apply Forall_map. eapply Forall_impl; [exact Hu|]. by intros p [Hp _]. }
  assert (Hswept : forall h e, t.1 !! h = Some e -> swept tick e = true <-> exists x, (h, x) ∈ rc' /\ be_in_use x = false).
  { intros h e He. rewrite <- Ht, <- Hm in He. apply elem_of_list_to_map in He; [|done]. rewrite Forall_forall in Hu. split.
    - intros Hs. exists bentry0. split; [|done]. apply list_elem_of_In, in_map_iff. exists (h, e). cbn. rewrite Hs. split; [done|]. by apply list_elem_of_In.
    - intros (x & Hx%list_elem_of_In%in_map_iff & Hxu). destruct Hx as ([k y] & [= -> Ey] & Hy%list_elem_of_In). cbn in Ey.
      assert (y = e) as -> by (eapply NoDup_fst_inj; [exact Hn|exact Hy|exact He]). destruct (swept tick e) eqn:Esw; [done|]. subst x. destruct (Hu _ He) as [_ Hue]. cbn in Hue. congruence. }
  destruct (Z.ltb_spec 0 (Z.of_nat (size (filter (fun p => swept tick p.2 = true) t.1)))) as [Hpos|Hzero].
  - split; [done|]. destruct (drops_holds cap rc' b t H Hz) as (t' & Hh' & Hd' & Hl). replace (map_swept tick t) with t'; [done|]. destruct t' as [m' d']. unfold map_swept. cbn in *. f_equal; [|done].
    apply map_eq. intros h. apply option_eq. intros e. rewrite Hl, map_lookup_filter_Some. split; intros [H1 H2]; (split; [done|]); cbn in *.
    + destruct (swept tick e) eqn:E; [|done]. exfalso. by apply H2, (Hswept h e H1).
    + rewrite <- (Hswept h e H1), H2. done.
  - split; [done|]. replace (map_swept tick t) with t; [done|]. destruct t as [m d]. unfold map_swept. cbn in *. f_equal. apply map_eq. intros h. apply option_eq. intros e. rewrite map_lookup_filter_Some.
    split; [|by intros [? _]]. intros He. split; [done|]. cbn. destruct (swept tick e) eqn:E; [|done]. exfalso.
    assert (Hin : filter (fun p => swept tick p.2 = true) m !! h = Some e) by (by apply map_lookup_filter_Some). assert (Hsz : size (filter (fun p => swept tick p.2 = true) m) = 0%nat) by lia.
    apply map_size_empty_inv in Hsz. by rewrite Hsz in Hin.
Qed.
Lemma reconcile_holds cap tick b t : holds cap b t ->
  let '(freed, b') := reconcile tick b in freed = Z.of_nat (size (filter (fun p => forgotten tick p.2 = true) t.1)) /\ holds cap b' (map_sweep tick t).
Proof.
  intros H. pose proof (reconcile_swept cap tick b t H) as Hr. destruct (reconcile tick b) as [freed b']. destruct Hr as [-> Hr]. destruct H as (Hw & Ht & _).
  assert (Hs : forall h e, t.1 !! h = Some e -> swept tick e = forgotten tick e).
  { intros h e He. apply swept_forgotten. rewrite <- Ht in He. by apply (tasks_lookup _ _ _ _ Hw) in He as (i & _ & Hu & _). }
  split; [do 2 f_equal|replace (map_sweep tick t) with (map_swept tick t); [done|]; unfold map_sweep, map_swept; f_equal]; apply map_filter_ext; intros h e He; cbn [snd]; by rewrite (Hs h e He).
Qed.

(** ** The low-stack debounce *)

Definition low_map (l : list low_entry) : lows := slot_map lo_in_use lo_handle (fun e => (lo_low e, lo_seen_tick e)) l.
Record low_holds (cap : nat) (l : list low_entry) (m : lows) : Prop := {
  lh_length : length l = cap; lh_keys : NoDup (slot_keys lo_in_use lo_handle l); lh_map : low_map l = m
}.
Lemma low_find_spec p l : forall k, match low_find p l k with
  | Some j => exists i e, j = (k + i)%nat /\ l !! i = Some e /\ p e = true
  | None => Forall (fun e => p e = false) l
  end.
Proof.
  induction l as [|e l IH]; intros k; cbn [low_find]; [constructor|]. destruct (p e) eqn:E.
  - exists 0%nat, e. split_and!; [lia|done|done].
  - specialize (IH (S k)). destruct (low_find p l (S k)) as [j|]; [|by constructor]. destruct IH as (i & e' & -> & H1 & H2). exists (S i), e'. split_and!; [lia|done|done].
Qed.
Lemma low0_holds cap : low_holds cap (repeat low0 cap) ∅.
Proof.
  assert (H : filter (fun e => lo_in_use e = true) (repeat low0 cap) = []) by (induction cap as [|n IH]; [done|]; cbn [repeat]; by rewrite filter_cons, decide_False by done).
  split; [apply repeat_length| |]; unfold low_map, slot_map, slot_keys; rewrite H; [constructor|done].
Qed.
Lemma low_key_absent l h : Forall (fun e => low_is h e = false) l -> h ∉ slot_keys lo_in_use lo_handle l.
Proof.
  intros Hf (e & <- & [Hu He]%list_elem_of_In%list_elem_of_filter)%list_elem_of_In%in_map_iff. rewrite Forall_forall in Hf. specialize (Hf e He). unfold low_is in Hf.
  by rewrite Hu, Z.eqb_refl in Hf.
Qed.
(** One entry of the table written. *)
Lemma low_write cap l m i e e' : low_holds cap l m -> l !! i = Some e -> lo_in_use e' = true ->
  (lo_in_use e = true /\ lo_handle e = lo_handle e' \/ lo_in_use e = false /\ lo_handle e' ∉ slot_keys lo_in_use lo_handle l) ->
  low_holds cap (<[i := e']> l) (<[lo_handle e' := (lo_low e', lo_seen_tick e')]> m).
Proof.
  intros [H1 H2 H3] Hi Hu Hc. assert (Hn : NoDup (slot_keys lo_in_use lo_handle (<[i := e']> l))).
  { rewrite (slot_keys_set _ _ l i e e' Hi), Hu. pose proof H2 as H2'. rewrite (slot_keys_at _ _ l i e Hi) in H2'. destruct Hc as [[Hue Hk]|[Hue Hk]]; rewrite Hue in H2'.
    - by rewrite <- Hk.
    - rewrite (slot_keys_at _ _ l i e Hi), Hue in Hk. cbn [app] in *. rewrite <- Permutation_middle. by constructor. }
  split; [by rewrite length_insert|done|]. rewrite <- H3. unfold low_map. rewrite (slot_set _ _ _ l i e e' H2 Hn Hi Hu); [done|].
  intros Hue. by destruct Hc as [[_ Hk]|[Hue' _]]; [|congruence].
Qed.
Lemma low_check_holds cap thr tick row l m : low_holds cap l m ->
  let '(call, l') := low_check thr tick row l in let '(call', m') := map_low cap thr tick row m in call = call' /\ low_holds cap l' m'.
Proof.
  intros H. pose proof H as [H1 H2 H3]. unfold low_check, low_state_mark, map_low. set (h := rw_handle row). pose proof (low_find_spec (low_is h) l 0) as Hf.
  destruct (low_find (low_is h) l 0) as [j|].
  - destruct Hf as (i & e & -> & Hi & [Hu Hh%Z.eqb_eq]%andb_prop). cbn [Nat.add]. rewrite Hi. pose proof (lookup_lt_Some _ _ _ Hi). rewrite list_lookup_insert_eq, list_insert_insert_eq by done. cbn [lo_low lo_handle lo_in_use lo_seen_tick].
    assert (Em : m !! h = Some (lo_low e, lo_seen_tick e)) by (rewrite <- H3, <- Hh; exact (slot_at _ _ (fun e => (lo_low e, lo_seen_tick e)) l i e Hi Hu H2)). rewrite Em. split; [done|].
    rewrite <- Hh. apply (low_write cap l m i e (mk_low (lo_handle e) (lo_in_use e) _ tick) H Hi Hu). by left.
  - assert (Em : m !! h = None).
    { destruct (m !! h) as [p|] eqn:Em; [|done]. rewrite <- H3 in Em. apply slot_lookup in Em as (i & e & Hi & Hu & Hk & _); [|done]. rewrite Forall_forall in Hf.
      specialize (Hf e ltac:(by eapply list_elem_of_lookup_2)). unfold low_is in Hf. by rewrite Hu, Hk, Z.eqb_refl in Hf. }
    rewrite Em. pose proof (low_find_spec (fun e => negb (lo_in_use e)) l 0) as Hg.
    assert (Hsz : size m = length (filter (fun e => lo_in_use e = true) l)) by (rewrite <- H3; etransitivity; [exact (slot_size lo_in_use lo_handle (fun e => (lo_low e, lo_seen_tick e)) l H2)|]; unfold slot_keys; by rewrite length_map).
    destruct (low_find (fun e => negb (lo_in_use e)) l 0) as [j|].
    + destruct Hg as (i & e & -> & Hi & Hu%negb_true_iff). cbn [Nat.add]. pose proof (lookup_lt_Some _ _ _ Hi). rewrite list_lookup_insert_eq, list_insert_insert_eq by done. cbn [lo_low lo_handle lo_in_use lo_seen_tick negb]. rewrite andb_true_r.
      replace (size m <? cap)%nat with true.
      2:{ symmetry. apply Nat.ltb_lt. rewrite Hsz, <- H1, <- (take_drop_middle l i e Hi), filter_app, filter_cons, decide_False by (rewrite Hu; done).
          rewrite !length_app. cbn [length]. pose proof (length_filter (fun e => lo_in_use e = true) (take i l)). pose proof (length_filter (fun e => lo_in_use e = true) (drop (S i) l)). lia. }
      split; [done|]. apply (low_write cap l m i e (mk_low h true _ tick) H Hi eq_refl). right. split; [done|]. by apply low_key_absent.
    + replace (size m <? cap)%nat with false; [done|]. symmetry. apply Nat.ltb_ge. rewrite Hsz, <- H1.
      clear - Hg. induction Hg as [|e l He _ IH]; [done|]. apply negb_false_iff in He. rewrite filter_cons, decide_True by done. cbn. lia.
Qed.
Lemma low_sweep_holds cap tick l m : low_holds cap l m -> low_holds cap (low_state_sweep tick l) (map_low_sweep tick m).
Proof.
  intros [H1 H2 H3]. assert (Hk : forall l, slot_keys lo_in_use lo_handle (low_state_sweep tick l) = map lo_handle (filter (fun e => low_old tick e = false) (filter (fun e => lo_in_use e = true) l))).
  { clear. unfold slot_keys, low_state_sweep. induction l as [|e l IH]; [done|]. cbn [map]. rewrite !filter_cons. destruct (low_old tick e) eqn:E.
    - assert (Eu : lo_in_use e = true) by (unfold low_old in E; by destruct (lo_in_use e)). rewrite (decide_False (P := lo_in_use low0 = true)) by discriminate. rewrite (decide_True (P := lo_in_use e = true)) by exact Eu.
      rewrite filter_cons, (decide_False (P := low_old tick e = false)) by congruence. exact IH.
    - destruct (decide (lo_in_use e = true)); [|exact IH]. rewrite filter_cons, decide_True by done. cbn [map]. by rewrite IH. }
  assert (Hn : NoDup (slot_keys lo_in_use lo_handle (low_state_sweep tick l))).
  { rewrite Hk. clear - H2. unfold slot_keys in H2. revert H2. generalize (filter (fun e => lo_in_use e = true) l). intros q. induction q as [|e q IH]; [done|]. cbn [map]. intros [Hx Hq]%NoDup_cons.
    rewrite filter_cons. case_decide; [|by apply IH]. cbn [map]. constructor; [|by apply IH]. intros (y & Ey & [_ Hy]%list_elem_of_In%list_elem_of_filter)%list_elem_of_In%in_map_iff.
    apply Hx. rewrite <- Ey. by apply list_elem_of_In, in_map, list_elem_of_In. }
  split; [unfold low_state_sweep; by rewrite length_map|done|]. rewrite <- H3. apply map_eq. intros h. apply option_eq. intros [lw sn]. unfold low_map, map_low_sweep. rewrite slot_lookup by done.
  rewrite map_lookup_filter_Some, slot_lookup by done. unfold low_state_sweep. split.
  - intros (i & e & Hi & Hu & Hh & Hv). apply list_lookup_fmap_Some in Hi as (x & Ee & Hi). destruct (low_old tick x) eqn:E; [by subst e|]. subst x.
    split; [by exists i, e|]. injection Hv as <- <-. unfold low_old in E. rewrite Hu in E. exact E.
  - intros [(i & e & Hi & Hu & Hh & Hv) Hs]. exists i, e. split; [|done]. apply list_lookup_fmap_Some. exists e. split; [|done]. injection Hv as <- <-. unfold low_old. cbn [snd] in Hs. rewrite Hu. cbn [andb]. by rewrite Hs.
Qed.

(** ** Any sequence of calls *)

Inductive task_op : Type :=
  | TUpsert (h : Z) (name : option (list byte)) (stack_bytes : Z) (wdt_arm : bool) | TRemove (h : Z) | TTouch (h now_tick : Z) | TSetFree (h free_bytes : Z)
  | TSetCore (h core : Z) (owning : bool) | TTouchInsert (h : Z) (name : option (list byte)) (now_tick : Z) | TSetHandler (handler : option Z)
  | TScan (rows : option (list scan_row)) (now_tick : Z) | TDeregister (h : Z).
(** A code, how many entries a scan freed, or a code with the core to release. *)
Inductive task_out : Type := TErr (err : bb_err) | TFreed (n : Z) | TOwned (err : bb_err) (core : option Z).
Definition on_base (f : base -> bb_err * base) (s : scan) : task_out * scan := let '(err, b) := f (sc_base s) in (TErr err, with_base b s).
Definition task_step (op : task_op) (s : scan) : task_out * scan :=
  match op with
  | TUpsert h name stack_bytes wdt_arm => on_base (bb_task_base_upsert h name stack_bytes wdt_arm) s
  | TRemove h => on_base (bb_task_base_remove h) s
  | TTouch h now_tick => on_base (bb_task_base_touch h now_tick) s
  | TSetFree h free_bytes => on_base (bb_task_base_set_free_bytes h free_bytes) s
  | TSetCore h core owning => on_base (bb_task_base_set_core_owning h core owning) s
  | TTouchInsert h name now_tick => on_base (bb_task_base_touch_or_insert h name now_tick) s
  | TSetHandler handler => (TErr BB_OK, bb_task_registry_set_low_stack_handler handler s)
  | TScan rows now_tick => let '(n, s) := bb_task_registry_base_scan_apply rows now_tick s in (TFreed n, s)
  | TDeregister h => let '(err, b, core) := bb_task_deregister_entry h (sc_base s) in (TOwned err core, with_base b s)
  end.
Fixpoint task_run (ops : list task_op) (s : scan) : list task_out * scan :=
  match ops with [] => ([], s) | op :: ops => let '(o, s) := task_step op s in let '(os, s) := task_run ops s in (o :: os, s) end.

(** The same on maps. *)
Record known := mk_known { kn_table : table; kn_lows : lows; kn_handler : option Z; kn_calls : list (list byte * Z * Z) }.
Definition known0 : known := mk_known (∅, 0) ∅ None [].
Definition on_table (f : table -> bb_err * table) (k : known) : task_out * known := let '(err, t) := f (kn_table k) in (TErr err, mk_known t (kn_lows k) (kn_handler k) (kn_calls k)).
Definition known_row (cap : nat) (now_tick : Z) (k : known) (row : scan_row) : known :=
  if rw_handle row =? 0 then k else
  let t := map_row cap now_tick (kn_table k) row in
  match kn_handler k with
  | None => mk_known t (kn_lows k) None (kn_calls k)
  | Some thr => let '(call, m) := map_low cap thr now_tick row (kn_lows k) in mk_known t m (Some thr) (kn_calls k ++ if call then [(rw_name row, rw_handle row, rw_free_bytes row)] else [])
  end.
Definition known_scan (cap : nat) (rows : list scan_row) (now_tick : Z) (k : known) : Z * known :=
  let k := fold_left (known_row cap now_tick) rows k in
  (Z.of_nat (size (filter (fun p => forgotten now_tick p.2 = true) (kn_table k).1)),
   mk_known (map_sweep now_tick (kn_table k)) (match kn_handler k with Some _ => map_low_sweep now_tick (kn_lows k) | None => kn_lows k end) (kn_handler k) (kn_calls k)).
Definition known_step (cap : nat) (op : task_op) (k : known) : task_out * known :=
  match op with
  | TUpsert h name stack_bytes wdt_arm => on_table (map_enter cap h name (fun name => fill_budget name stack_bytes wdt_arm) (fun name => fill_new h name stack_bytes wdt_arm 0 bentry0)) k
  | TRemove h => on_table (map_drop h) k
  | TTouch h now_tick => on_table (map_update h (fill_seen now_tick)) k
  | TSetFree h free_bytes => on_table (map_update h (fill_free free_bytes)) k
  | TSetCore h core owning => on_table (map_update h (fill_core core owning)) k
  | TTouchInsert h name now_tick => on_table (map_enter cap h name (fun _ => fill_seen now_tick) (fun name => fill_new h name 0 false now_tick bentry0)) k
  | TSetHandler handler => (TErr BB_OK, mk_known (kn_table k) (kn_lows k) handler (kn_calls k))
  | TScan rows now_tick => let '(n, k) := known_scan cap (default [] rows) now_tick k in (TFreed n, k)
  | TDeregister h =>
      let core := e ← (if h =? 0 then None else (kn_table k).1 !! h); if be_core_owning e then Some (be_core e) else None in
      let '(err, t) := map_drop h (kn_table k) in (TOwned err core, mk_known t (kn_lows k) (kn_handler k) (kn_calls k))
  end.
Fixpoint known_run (cap : nat) (ops : list task_op) (k : known) : list task_out * known :=
  match ops with [] => ([], k) | op :: ops => let '(o, k) := known_step cap op k in let '(os, k) := known_run cap ops k in (o :: os, k) end.

Record knows (cap : nat) (s : scan) (k : known) : Prop := {
  ks_table : holds cap (sc_base s) (kn_table k); ks_lows : low_holds cap (sc_low s) (kn_lows k);
  ks_handler : sc_handler s = kn_handler k; ks_calls : sc_calls s = kn_calls k
}.
Lemma scan0_knows cap : knows cap (scan0 cap) known0.
Proof. split; [apply base0_holds|apply low0_holds|done|done]. Qed.
Lemma on_base_knows cap f g s k : knows cap s k -> (holds cap (sc_base s) (kn_table k) -> let '(err, b) := f (sc_base s) in let '(err', t) := g (kn_table k) in err = err' /\ holds cap b t) ->
  let '(o, s') := on_base f s in let '(o', k') := on_table g k in o = o' /\ knows cap s' k'.
Proof.
  intros [H1 H2 H3 H4] H. specialize (H H1). unfold on_base, on_table. destruct (f (sc_base s)) as [err b]. destruct (g (kn_table k)) as [err' t]. destruct H as [-> H]. split; [done|by split].
Qed.
Lemma row_knows cap tick row s k : knows cap s k -> knows cap (scan_one tick s row) (known_row cap tick k row).
Proof.
  intros [H1 H2 H3 H4]. unfold scan_one, known_row. destruct (Z.eqb_spec (rw_handle row) 0) as [|Hh]; [by split|]. pose proof (row_holds cap tick row _ _ H1 Hh) as Hr. rewrite H3.
  destruct (kn_handler k) as [thr|]; [|by split]. pose proof (low_check_holds cap thr tick row _ _ H2) as Hl. destruct (low_check _ _ _ _) as [call l]. destruct (map_low _ _ _ _ _) as [call' m].
  destruct Hl as [-> Hl]. split; [done|done|done|]. cbn. by rewrite H4.
Qed.
Lemma scan_knows cap rows tick s k : knows cap s k ->
  let '(n, s') := bb_task_registry_base_scan_apply rows tick s in let '(n', k') := known_scan cap (default [] rows) tick k in n = n' /\ knows cap s' k'.
Proof.
  intros H. unfold bb_task_registry_base_scan_apply, known_scan.
  assert (Hf : knows cap (fold_left (scan_one tick) (default [] rows) s) (fold_left (known_row cap tick) (default [] rows) k)).
  { revert s k H. induction (default [] rows) as [|row l IH]; intros s k H; [done|]. cbn [fold_left]. by apply IH, row_knows. }
  revert Hf. generalize (fold_left (scan_one tick) (default [] rows) s) (fold_left (known_row cap tick) (default [] rows) k). clear s k H. intros s k [H1 H2 H3 H4].
  rewrite H3. assert (Hb : sc_base (match kn_handler k with Some _ => mk_scan (sc_base s) (low_state_sweep tick (sc_low s)) (kn_handler k) (sc_calls s) | None => s end) = sc_base s) by (by destruct (kn_handler k)).
  rewrite Hb. pose proof (reconcile_holds cap tick _ _ H1) as Hr. destruct (reconcile tick (sc_base s)) as [freed b]. destruct Hr as [-> Hr]. split; [done|].
  destruct (kn_handler k) as [thr|] eqn:E; split; try done. by apply low_sweep_holds.
Qed.
Lemma deregister_knows cap h s k : knows cap s k ->
  let '(o, s') := task_step (TDeregister h) s in let '(o', k') := known_step cap (TDeregister h) k in o = o' /\ knows cap s' k'.
Proof.
  intros [H1 H2 H3 H4]. cbn [task_step known_step]. unfold bb_task_deregister_entry. pose proof (drop_holds cap h _ _ H1) as Hd. destruct (base_drop _ _) as [err b]. destruct (map_drop _ _) as [err' t].
  destruct Hd as [-> Hd]. split; [|by split]. f_equal. destruct (Z.eqb_spec h 0) as [|Hh]; [done|]. destruct H1 as (Hw & Ht & _). rewrite <- Ht. pose proof (base_lookup_spec cap _ h Hw Hh) as Hl.
  destruct (tasks (sc_base s) !! h) as [e|].
  - destruct Hl as (i & -> & Hi & _). rewrite entry_index_addr, Hi, (proj2 (Z.eqb_neq _ 0) (entry_addr_nz i)). done.
  - rewrite Hl. cbn [Z.eqb negb andb]. by destruct (tb_pool (sc_base s) !! entry_index 0).
Qed.
Lemma step_knows cap op s k : knows cap s k -> let '(o, s') := task_step op s in let '(o', k') := known_step cap op k in o = o' /\ knows cap s' k'.
Proof.
  intros H. destruct op as [h name st wdt|h|h tick|h free|h core own|h name tick|handler|rows tick|h]; [..|by apply deregister_knows].
  - apply (on_base_knows cap _ _ s k H). intros Hb. unfold bb_task_base_upsert.
    exact (enter_holds cap h name (fun name => fill_budget name st wdt) (fun name => fill_new h name st wdt 0) _ _ (fun n => keeps_budget n st wdt) (fun _ => conj eq_refl eq_refl) Hb).
  - apply (on_base_knows cap _ _ s k H). apply drop_holds.
  - apply (on_base_knows cap _ _ s k H). apply update_holds, keeps_seen.
  - apply (on_base_knows cap _ _ s k H). apply update_holds, keeps_free.
  - apply (on_base_knows cap _ _ s k H). apply update_holds, keeps_core.
  - apply (on_base_knows cap _ _ s k H). apply touch_insert_holds.
  - split; [done|]. by destruct H.
  - cbn [task_step known_step]. pose proof (scan_knows cap rows tick s k H) as Hs. destruct (bb_task_registry_base_scan_apply _ _ _) as [n s']. destruct (known_scan _ _ _ _) as [n' k'].
    destruct Hs as [-> Hs]. by split.
Qed.
Lemma run_knows cap ops : forall s k, knows cap s k -> let '(os, s') := task_run ops s in let '(os', k') := known_run cap ops k in os = os' /\ knows cap s' k'.
Proof.
  induction ops as [|op ops IH]; intros s k H; cbn [task_run known_run]; [by split|]. pose proof (step_knows cap op s k H) as Hs.
  destruct (task_step op s) as [o s1]. destruct (known_step cap op k) as [o' k1]. destruct Hs as [-> Hs]. specialize (IH s1 k1 Hs).
  destruct (task_run ops s1) as [os s2]. destruct (known_run cap ops k1) as [os' k2]. destruct IH as [-> IH]. by split.
Qed.

