(* ===== verification/TaskCores.v ===== *)
(** bb_task_create and bb_task_deregister run by several threads at once: the
    core a task owns, from its claim to its release, and the mask of idle tasks
    the watchdog is set to look at (platform/espidf/bb_task/bb_task_espidf.c,
    platform/host/bb_task/bb_task_host.c, bb_task_deregister of
    components/bb_task/src/bb_task_common.c,
    components/bb_wdt/bb_wdt_core_claim.c, do_reconfigure of
    platform/espidf/bb_wdt/bb_wdt.c). *)
From Stdlib Require Import Strings.String.
From S2P Require Import Prelude Bytes Num Str Registry Tasks.

(** * Creating and deregistering, step by step *)

(** Where a thread is: what it has done so far, one constructor per stretch
    between two locks. A claim or a release is followed by a reconfiguration of
    the watchdog, which reads the mask and then writes what it made of it. *)
Inductive thread : Type :=
  | Resolved (cfg : task_config) (res : task_resolved)
  | Claimed (cfg : task_config) (res : task_resolved) (owning_claim : bool)
  | Failed (res : task_resolved)
  | Made (cfg : task_config) (res : task_resolved) (owning_claim : bool) (handle : Z)
  | Entered (cfg : task_config) (res : task_resolved) (owning_claim : bool) (handle : Z) (base_rc : bb_err)
  | Recorded (res : task_resolved) (owning_claim : bool) (handle : Z) (base_rc : bb_err)
  | Dropped (release_core : Z)
  | Reread (next : thread)
  | Apply (monitored : Z) (next : thread)
  | Done (err : bb_err) (out_handle : Z).
(** The tables, the claimed cores, the watchdog's idle mask, the threads. *)
Record cores := mk_cores { co_scan : scan; co_mask : Z; co_idle_core_mask : Z; co_threads : gmap nat thread }.
Definition cores0 (cap : nat) (idle : Z) : cores := mk_cores (scan0 cap) 0 idle ∅.

Section Cores.
(** configNUMBER_OF_CORES and the mask the build's settings give. *)
Context (num_cores idle : Z).

Definition put (tid : nat) (t : thread) (st : cores) : cores := mk_cores (co_scan st) (co_mask st) (co_idle_core_mask st) (<[tid := t]> (co_threads st)).
Definition put_mask (tid : nat) (mask : Z) (t : thread) (st : cores) : cores := mk_cores (co_scan st) mask (co_idle_core_mask st) (<[tid := t]> (co_threads st)).
Definition put_base (tid : nat) (b : base) (t : thread) (st : cores) : cores := mk_cores (with_base b (co_scan st)) (co_mask st) (co_idle_core_mask st) (<[tid := t]> (co_threads st)).
(** bb_wdt_release_core up to its reconfiguration; then [next]. *)
Definition release (tid : nat) (core : Z) (next : thread) (st : cores) : cores :=
  let '(err, mask) := bb_wdt_release_core core (co_mask st) in
  if is_ok err then put_mask tid mask (Reread next) st else put tid next st.
(** A thread that runs no call yet, or has finished one, may make one. *)
Definition idle_thread (t : option thread) : bool := match t with None => true | Some (Done _ _) => true | _ => false end.
(** Up to the resolution against the mask as it is now. *)
Definition create_begin (cfg : option task_config) (st : cores) : thread :=
  match cfg with
  | None => Done BB_ERR_INVALID_ARG 0
  | Some cfg => match bb_task_resolve (Some cfg) num_cores (co_mask st) with inl err => Done err 0 | inr res => Resolved cfg res end
  end.
(** The thread's next stretch. [answer]: the handle the kernel gives, 0 when it
    creates no task. *)
Definition thread_step (tid : nat) (answer : Z) (t : thread) (st : cores) : cores :=
  match t with
  | Resolved cfg res =>
      let owning_claim := tc_core_owning cfg && negb (tr_core res =? BB_TASK_CORE_ANY) in
      if owning_claim then
        let '(claim_rc, mask) := bb_wdt_claim_core_exclusive (tr_core res) (co_mask st) in
        if is_ok claim_rc then put_mask tid mask (Reread (Claimed cfg res true)) st else put tid (Done claim_rc 0) st
      else put tid (Claimed cfg res false) st
  | Claimed cfg res owning_claim =>
      if answer =? 0 then put tid (if owning_claim then Failed res else Done BB_ERR_NO_MEM 0) st
      else put tid (Made cfg res owning_claim answer) st
  | Failed res => release tid (tr_core res) (Done BB_ERR_NO_MEM 0) st
  | Made cfg res owning_claim h =>
      let '(base_rc, b) := bb_task_base_upsert h (tc_name cfg) (tr_stack_bytes res) (tc_wdt_arm cfg) (sc_base (co_scan st)) in
      put_base tid b (Entered cfg res owning_claim h base_rc) st
  | Entered cfg res owning_claim h base_rc =>
      if is_ok base_rc then
        let '(base_rc, b) := bb_task_base_set_core_owning h (tr_core res) owning_claim (sc_base (co_scan st)) in
        put_base tid b (Recorded res owning_claim h base_rc) st
      else put tid (Recorded res owning_claim h base_rc) st
  | Recorded res owning_claim h base_rc =>
      if owning_claim && negb (is_ok base_rc) then release tid (tr_core res) (Done BB_OK h) st else put tid (Done BB_OK h) st
  | Dropped core => release tid core (Done BB_OK 0) st
  | Reread next => put tid (Apply (monitored_mask idle (co_mask st) num_cores) next) st
  | Apply monitored next => mk_cores (co_scan st) (co_mask st) monitored (<[tid := next]> (co_threads st))
  | Done _ _ => st
  end.

(** What happens next: a thread begins a call, or goes on with one; or some
    other call on the tables is made. *)
Inductive cores_call : Type :=
  | Create (tid : nat) (cfg : option task_config)
  | Deregister (tid : nat) (handle : Z)
  | Next (tid : nat) (answer : Z)
  | Table (op : task_op).
Definition cores_step (call : cores_call) (st : cores) : cores :=
  match call with
  | Create tid cfg => if idle_thread (co_threads st !! tid) then put tid (create_begin cfg st) st else st
  | Deregister tid h =>
      if idle_thread (co_threads st !! tid) then
        let '(err, b, owned) := bb_task_deregister_entry h (sc_base (co_scan st)) in
        put_base tid b (match owned with Some core => Dropped core | None => Done err 0 end) st
      else st
  | Next tid answer => match co_threads st !! tid with Some t => thread_step tid answer t st | None => st end
  | Table op => mk_cores (task_step op (co_scan st)).2 (co_mask st) (co_idle_core_mask st) (co_threads st)
  end.
Definition cores_run (calls : list cores_call) (st : cores) : cores := fold_left (fun st call => cores_step call st) calls st.

(** The owning flag is bb_task_create's to write, and deregistering is a call of
    its own here. *)
Definition client (call : cores_call) : bool := match call with Table (TSetCore _ _ _) => false | Table (TDeregister _) => false | _ => true end.

(** * Owners *)

Definition entry_owns (c : Z) (e : base_entry) : bool := be_core_owning e && (be_core e =? c).
Fixpoint thread_owns (c : Z) (t : thread) : bool :=
  match t with
  | Claimed _ res own => own && (tr_core res =? c)
  | Made _ res own _ => own && (tr_core res =? c)
  | Entered _ res own _ _ => own && (tr_core res =? c)
  | Failed res => tr_core res =? c
  | Recorded res own _ base_rc => own && negb (is_ok base_rc) && (tr_core res =? c)
  | Dropped core => core =? c
  | Reread next => thread_owns c next
  | Apply _ next => thread_owns c next
  | Resolved _ _ | Done _ _ => false
  end.
Definition count_of {K} `{Countable K} {A} (P : A -> bool) (m : gmap K A) : nat := size (filter (fun p => P p.2 = true) m).
(** The tasks entered as owners of a core, and the threads between claiming it
    and entering the task, or between dropping the task and releasing it. *)
Definition owners (c : Z) (st : cores) : nat := (count_of (entry_owns c) (tasks (sc_base (co_scan st))) + count_of (thread_owns c) (co_threads st))%nat.
(** An owning task goes from the table, or stops being the core's owner there,
    by anything but bb_task_deregister. *)
Definition entry_lost (m' : gmap Z base_entry) (p : Z * base_entry) : bool :=
  be_core_owning p.2 && negb (match m' !! p.1 with Some e' => entry_owns (be_core p.2) e' | None => false end).
Definition loses (call : cores_call) (st : cores) : bool :=
  match call with Deregister _ _ => false | _ => existsb (entry_lost (tasks (sc_base (co_scan (cores_step call st))))) (map_to_list (tasks (sc_base (co_scan st)))) end.
Fixpoint none_lost (calls : list cores_call) (st : cores) : bool :=
  match calls with [] => true | call :: calls => negb (loses call st) && none_lost calls (cores_step call st) end.
End Cores.

(** * Counting *)

Section Count.
Context {K : Type} `{Countable K} {A : Type} (P : A -> bool).
Lemma count_insert (m : gmap K A) k x : count_of P (<[k := x]> m) = (Nat.b2n (P x) + count_of P (delete k m))%nat.
Proof.
  unfold count_of. rewrite <- (insert_delete_eq m k x), map_filter_insert. cbn [snd]. case_decide as Hx.
  - rewrite Hx, map_size_insert_None; [done|]. by rewrite map_filter_delete, lookup_delete_eq.
  - destruct (P x); [done|]. by rewrite delete_delete_eq.
Qed.
Lemma count_at (m : gmap K A) k x : m !! k = Some x -> count_of P m = (Nat.b2n (P x) + count_of P (delete k m))%nat.
Proof. intros Hk. rewrite <- count_insert. by rewrite insert_id. Qed.
Lemma count_absent (m : gmap K A) k : m !! k = None -> count_of P (delete k m) = count_of P m.
Proof. intros Hk. by rewrite delete_id. Qed.
Lemma count_mono (m m' : gmap K A) : (forall k x, m !! k = Some x -> P x = true -> exists y, m' !! k = Some y /\ P y = true) -> (count_of P m <= count_of P m')%nat.
Proof.
  intros Hm. unfold count_of. rewrite <- !size_dom. apply subseteq_size. intros k (x & [Hk Hx]%map_lookup_filter_Some)%elem_of_dom.
  destruct (Hm k x Hk Hx) as (y & Hy & Hp). apply elem_of_dom. exists y. by apply map_lookup_filter_Some.
Qed.
End Count.

(** ** The mask *)

Definition is_core (c : Z) : Prop := c = 0 \/ c = 1.
Lemma core_bit_testbit c d : is_core c -> is_core d -> Z.testbit (core_bit c) d = (d =? c).
Proof. by intros [-> | ->] [-> | ->]. Qed.
Lemma core_ok_spec c : core_ok c = true <-> is_core c.
Proof. unfold core_ok, is_core. rewrite orb_true_iff, !Z.eqb_eq. done. Qed.
Lemma bit_test mask c : is_core c -> negb (Z.land mask (core_bit c) =? 0) = Z.testbit mask c.
Proof.
  intros Hc. assert (E : core_bit c = 2 ^ c) by (by destruct Hc as [-> | ->]). rewrite E. destruct (Z.testbit mask c) eqn:B.
  - apply negb_true_iff, Z.eqb_neq. intros Hz. apply (f_equal (fun z => Z.testbit z c)) in Hz. rewrite Z.land_spec, B, Z.pow2_bits_true, Z.bits_0 in Hz by (destruct Hc; lia). done.
  - apply negb_false_iff, Z.eqb_eq. apply Z.bits_inj_0. intros n. rewrite Z.land_spec. destruct (Z.eqb_spec n c) as [->|Hn]; [by rewrite B|].
    rewrite Z.pow2_bits_false by congruence. by rewrite andb_false_r.
Qed.
Lemma claim_spec c mask : let '(err, mask') := bb_wdt_claim_core_exclusive c mask in
  if is_ok err then is_core c /\ Z.testbit mask c = false /\ forall d, is_core d -> Z.testbit mask' d = Z.testbit mask d || (d =? c) else mask' = mask.
Proof.
  unfold bb_wdt_claim_core_exclusive. destruct (core_ok c) eqn:Hc; cbn [negb is_ok]; [|done]. apply core_ok_spec in Hc. rewrite bit_test by done.
  destruct (Z.testbit mask c) eqn:B; cbn [is_ok]; [done|]. split_and!; try done. intros d Hd. by rewrite Z.lor_spec, core_bit_testbit.
Qed.
Lemma release_spec c mask : let '(err, mask') := bb_wdt_release_core c mask in
  if is_ok err then is_core c /\ forall d, is_core d -> Z.testbit mask' d = Z.testbit mask d && negb (d =? c) else mask' = mask /\ ~ is_core c.
Proof.
  unfold bb_wdt_release_core. destruct (core_ok c) eqn:Hc; cbn [negb is_ok].
  - apply core_ok_spec in Hc. split; [done|]. intros d Hd. rewrite Z.land_spec. f_equal. by destruct Hc as [-> | ->], Hd as [-> | ->].
  - split; [done|]. by rewrite <- core_ok_spec, Hc.
Qed.
Lemma clamp_testbit mask n c : is_core c -> Z.testbit (bb_wdt_clamp_core_mask mask n) c = Z.testbit mask c && (c <? n).
Proof.
  intros Hc. unfold bb_wdt_clamp_core_mask. destruct (Z.leb_spec n 0) as [Hn|Hn].
  - rewrite Z.bits_0. replace (c <? n) with false; [by rewrite andb_false_r|]. symmetry. apply Z.ltb_ge. destruct Hc; lia.
  - destruct (Z.leb_spec 32 n) as [Hn2|Hn2].
    + replace (c <? n) with true; [by rewrite andb_true_r|]. symmetry. apply Z.ltb_lt. destruct Hc; lia.
    + rewrite Z.land_spec. f_equal. assert (Hp : 1 <= 2 ^ n < 2 ^ 32) by (split; [apply Z.lt_pred_le, Z.pow_pos_nonneg; lia|apply Z.pow_lt_mono_r; lia]).
      assert (E : u32 (u32 (Z.shiftl 1 n) - 1) = Z.ones n).
      { unfold u32. rewrite Z.shiftl_1_l, (Z.mod_small (2 ^ n)) by lia. rewrite Z.mod_small by lia. rewrite Z.ones_equiv. lia. }
      rewrite E, Z.testbit_ones_nonneg by (destruct Hc; lia). done.
Qed.
(** The watchdog is not to look at the idle task of a claimed core. *)
Lemma claimed_not_monitored idle mask n c : is_core c -> Z.testbit mask c = true -> Z.testbit (monitored_mask idle mask n) c = false.
Proof.
  intros Hc Hm. unfold monitored_mask. set (ex := bb_wdt_clamp_core_mask (bb_wdt_derive_excused_mask _ _) n).
  unfold bb_wdt_invert_core_mask. rewrite Z.land_spec, clamp_testbit by done. destruct (c <? n) eqn:E; [|by rewrite andb_false_r].
  assert (Hex : Z.testbit ex c = true). { subst ex. rewrite clamp_testbit, E by done. unfold bb_wdt_derive_excused_mask. by rewrite Z.lor_spec, Hm, orb_true_r. }
  assert (Hl : Z.testbit (u32 (Z.lnot ex)) c = negb (Z.testbit ex c)) by (unfold u32; change 4294967296 with (2 ^ 32); rewrite Z.mod_pow2_bits_low, Z.lnot_spec by (destruct Hc; lia); done).
  by rewrite Hl, Hex, andb_false_r.
Qed.

(** ** What the calls on the tables do to the owning entries *)

(** Every owning entry of [t'] is one of [t]. *)
Definition no_gain (t t' : gmap Z base_entry) : Prop :=
  forall h e', t' !! h = Some e' -> be_core_owning e' = true -> exists e, t !! h = Some e /\ be_core_owning e = true /\ be_core e = be_core e'.
Lemma no_gain_refl t : no_gain t t.
Proof. intros h e He Ho. by exists e. Qed.
Lemma no_gain_trans t1 t2 t3 : no_gain t1 t2 -> no_gain t2 t3 -> no_gain t1 t3.
Proof. intros H1 H2 h e He Ho. destruct (H2 h e He Ho) as (e2 & H3 & H4 & <-). exact (H1 h e2 H3 H4). Qed.
Lemma no_gain_count c t t' : no_gain t t' -> (count_of (entry_owns c) t' <= count_of (entry_owns c) t)%nat.
Proof.
  intros H. apply count_mono. intros h e' He [Ho Hc]%andb_true_iff. destruct (H h e' He Ho) as (e & H1 & H2 & H3). exists e. split; [done|]. unfold entry_owns. by rewrite H2, H3.
Qed.
(** Writing an entry gains no owner if the entry owned what it owns now. *)
Lemma no_gain_insert t h e' : (be_core_owning e' = true -> exists e, t !! h = Some e /\ be_core_owning e = true /\ be_core e = be_core e') -> no_gain t (<[h := e']> t).
Proof.
  intros H g x Hx Ho. destruct (decide (g = h)) as [->|Hg]; [rewrite lookup_insert_eq in Hx; injection Hx as <-; by apply H|].
  rewrite lookup_insert_ne in Hx by done. by exists x.
Qed.
Definition keeps_owner (f : base_entry -> base_entry) : Prop := forall e, be_core_owning (f e) = be_core_owning e /\ be_core (f e) = be_core e.
Lemma no_gain_update h f t : keeps_owner f -> no_gain t.1 (map_update h f t).2.1.
Proof.
  intros Hf. unfold map_update. destruct (h =? 0); [apply no_gain_refl|]. destruct (t.1 !! h) as [e|] eqn:E; [|apply no_gain_refl].
  apply no_gain_insert. destruct (Hf e) as [-> ->]. intros Ho. by exists e.
Qed.
Lemma no_gain_enter cap h name old new t : (forall n, keeps_owner (old n)) -> (forall n, be_core_owning (new n) = false) -> no_gain t.1 (map_enter cap h name old new t).2.1.
Proof.
  intros Hf Hn. unfold map_enter. destruct name as [name|]; [|apply no_gain_refl]. destruct (h =? 0); [apply no_gain_refl|].
  destruct (t.1 !! h) as [e|] eqn:E.
  - apply no_gain_insert. destruct (Hf name e) as [-> ->]. intros Ho. by exists e.
  - destruct (size t.1 <? cap)%nat; [|apply no_gain_refl]. apply no_gain_insert. by rewrite Hn.
Qed.
Lemma no_gain_drop h t : no_gain t.1 (map_drop h t).2.1.
Proof.
  unfold map_drop. destruct (h =? 0); [apply no_gain_refl|]. destruct (t.1 !! h) as [e|]; [|apply no_gain_refl].
  cbn [fst snd]. intros g x [_ Hx]%lookup_delete_Some Ho. by exists x.
Qed.
Lemma no_gain_row cap tick t row : no_gain t.1 (map_row cap tick t row).1.
Proof.
  unfold map_row. destruct (rw_handle row =? 0); [apply no_gain_refl|]. eapply no_gain_trans; [|by apply no_gain_update]. by apply no_gain_enter.
Qed.
Lemma no_gain_rows cap tick rows : forall k, no_gain (kn_table k).1 (kn_table (fold_left (known_row cap tick) rows k)).1.
Proof.
  induction rows as [|row rows IH]; intros k; [apply no_gain_refl|]. cbn [fold_left]. eapply no_gain_trans; [|apply IH]. unfold known_row.
  destruct (rw_handle row =? 0); [apply no_gain_refl|]. destruct (kn_handler k) as [thr|]; [destruct (map_low _ _ _ _ _)|]; apply no_gain_row.
Qed.
Lemma no_gain_scan cap rows tick k : no_gain (kn_table k).1 (kn_table (known_scan cap rows tick k).2).1.
Proof.
  unfold known_scan. cbn [snd kn_table]. eapply no_gain_trans; [apply (no_gain_rows cap tick rows k)|].
  intros h e [He _]%map_lookup_filter_Some Ho. by exists e.
Qed.
Lemma no_gain_step cap op k : client (Table op) = true -> no_gain (kn_table k).1 (kn_table (known_step cap op k).2).1.
Proof.
  intros Hc. destruct op as [h name st wdt|h|h tick|h free|h core own|h name tick|handler|rows tick|h]; try done; cbn [known_step].
  - unfold on_table. pose proof (no_gain_enter cap h name (fun name => fill_budget name st wdt) (fun name => fill_new h name st wdt 0 bentry0) (kn_table k)) as H.
    destruct (map_enter _ _ _ _ _ _) as [err t]. by apply H.
  - unfold on_table. pose proof (no_gain_drop h (kn_table k)) as H. by destruct (map_drop _ _) as [err t].
  - unfold on_table. pose proof (no_gain_update h (fill_seen tick) (kn_table k)) as H. destruct (map_update _ _ _) as [err t]. by apply H.
  - unfold on_table. pose proof (no_gain_update h (fill_free free) (kn_table k)) as H. destruct (map_update _ _ _) as [err t]. by apply H.
  - unfold on_table. pose proof (no_gain_enter cap h name (fun _ => fill_seen tick) (fun name => fill_new h name 0 false tick bentry0) (kn_table k)) as H.
    destruct (map_enter _ _ _ _ _ _) as [err t]. by apply H.
  - apply no_gain_refl.
  - pose proof (no_gain_scan cap (default [] rows) tick k) as H. by destruct (known_scan _ _ _ _) as [n k'].
Qed.
(** Nothing lost, the same owners. *)
Lemma kept_count c t t' : existsb (entry_lost t') (map_to_list t) = false -> (count_of (entry_owns c) t <= count_of (entry_owns c) t')%nat.
Proof.
  intros H. apply count_mono. intros h e He [Ho Hc]%andb_true_iff. apply elem_of_map_to_list, list_elem_of_In in He.
  destruct (entry_lost t' (h, e)) eqn:E.
  - exfalso. assert (existsb (entry_lost t') (map_to_list t) = true) by (apply existsb_exists; by exists (h, e)). congruence.
  - unfold entry_lost in E. cbn [fst snd] in E. rewrite Ho in E. cbn [andb] in E. apply negb_false_iff in E. destruct (t' !! h) as [e'|]; [|done].
    exists e'. split; [done|]. apply Z.eqb_eq in Hc. by rewrite <- Hc.
Qed.

(** ** The balance of a core *)

Section Balance.
Context (num_cores idle : Z) (cap : nat) (c : Z).
Hypothesis (core : is_core c).

Definition bit (mask : Z) : Z := Z.b2z (Z.testbit mask c).
Definition entry_count (s : scan) : Z := Z.of_nat (count_of (entry_owns c) (tasks (sc_base s))).
Definition thread_count (ths : gmap nat thread) : Z := Z.of_nat (count_of (thread_owns c) ths).
Definition owns_z (t : thread) : Z := Z.b2z (thread_owns c t).
(** The core's claim less its owners. *)
Definition slack (st : cores) : Z := bit (co_mask st) - entry_count (co_scan st) - thread_count (co_threads st).
Definition rest (tid : nat) (st : cores) : Z := thread_count (delete tid (co_threads st)).

Lemma slack_owners st : slack st = bit (co_mask st) - Z.of_nat (owners c st).
Proof. unfold slack, owners, entry_count, thread_count. lia. Qed.
Lemma slack_write s mask w tid t st : slack (mk_cores s mask w (<[tid := t]> (co_threads st))) = bit mask - entry_count s - owns_z t - rest tid st.
Proof. unfold slack, thread_count, rest, owns_z, thread_count. cbn [co_mask co_scan co_threads]. rewrite count_insert. destruct (thread_owns c t); cbn [Nat.b2n Z.b2z]; lia. Qed.
Lemma slack_at tid t st : co_threads st !! tid = Some t -> slack st = bit (co_mask st) - entry_count (co_scan st) - owns_z t - rest tid st.
Proof. intros Ht. unfold slack, thread_count, rest, owns_z, thread_count. rewrite (count_at (thread_owns c) (co_threads st) tid t Ht). destruct (thread_owns c t); cbn [Nat.b2n Z.b2z]; lia. Qed.
Lemma slack_idle tid st : idle_thread (co_threads st !! tid) = true -> slack st = bit (co_mask st) - entry_count (co_scan st) - rest tid st.
Proof.
  intros Hi. destruct (co_threads st !! tid) as [t|] eqn:E.
  - rewrite (slack_at tid t st E). destruct t; try done. unfold owns_z. cbn. lia.
  - unfold slack, rest, thread_count. by rewrite count_absent.
Qed.
Lemma slack_put tid t st : slack (put tid t st) = bit (co_mask st) - entry_count (co_scan st) - owns_z t - rest tid st.
Proof. apply slack_write. Qed.
Lemma slack_release tid d next st t : co_threads st !! tid = Some t -> thread_owns c t = (d =? c) -> thread_owns c next = false ->
  0 <= slack st -> slack (release tid d next st) = slack st.
Proof.
  intros Ht Ho Hn Hs. pose proof (slack_at tid t st Ht) as Ha. unfold release. pose proof (release_spec d (co_mask st)) as Hr. destruct (bb_wdt_release_core d (co_mask st)) as [err mask].
  assert (Hrest : 0 <= rest tid st /\ 0 <= entry_count (co_scan st)) by (unfold rest, thread_count, entry_count; lia).
  unfold owns_z in Ha. rewrite Ho in Ha. destruct (is_ok err).
  - destruct Hr as [_ Hm]. unfold put_mask. rewrite slack_write, Ha. unfold owns_z. cbn [thread_owns]. rewrite Hn. unfold bit in *. rewrite (Hm c core), (Z.eqb_sym c d).
    destruct (d =? c), (Z.testbit (co_mask st) c); cbn [andb negb Z.b2z] in *; lia.
  - destruct Hr as [-> Hd]. rewrite slack_put, Ha. unfold owns_z. rewrite Hn. destruct (Z.eqb_spec d c) as [->|_]; [by destruct Hd|]. cbn [Z.b2z]. lia.
Qed.
Lemma slack_claim tid answer cfg res st : co_threads st !! tid = Some (Resolved cfg res) -> slack (thread_step num_cores idle tid answer (Resolved cfg res) st) = slack st.
Proof.
  intros Ht. rewrite (slack_at _ _ _ Ht). cbn [thread_step]. destruct (tc_core_owning cfg && negb (tr_core res =? BB_TASK_CORE_ANY)).
  2:{ rewrite slack_put. unfold owns_z. cbn [thread_owns andb Z.b2z]. lia. }
  pose proof (claim_spec (tr_core res) (co_mask st)) as Hc. destruct (bb_wdt_claim_core_exclusive _ _) as [err mask]. destruct (is_ok err).
  - destruct Hc as (_ & Hf & Hm). unfold put_mask. rewrite slack_write. unfold owns_z, bit. cbn [thread_owns andb]. rewrite (Hm c core), (Z.eqb_sym c).
    destruct (Z.eqb_spec (tr_core res) c) as [<-|_]; [rewrite Hf|rewrite orb_false_r]; cbn [orb Z.b2z]; lia.
  - rewrite slack_put. unfold owns_z. cbn [thread_owns Z.b2z]. lia.
Qed.

(** A call on the tables alone. *)
Lemma table_slack op s k : client (Table op) = true -> knows cap s k ->
  (exists k', knows cap (task_step op s).2 k') /\ entry_count (task_step op s).2 <= entry_count s /\
  (existsb (entry_lost (tasks (sc_base (task_step op s).2))) (map_to_list (tasks (sc_base s))) = false -> entry_count s <= entry_count (task_step op s).2).
Proof.
  intros Hc Hk. pose proof (step_knows cap op s k Hk) as Hs. pose proof (no_gain_step cap op k Hc) as Hg.
  destruct (task_step op s) as [o s']. destruct (known_step cap op k) as [o' k']. destruct Hs as [_ Hs]. cbn [snd] in *. split; [by exists k'|].
  destruct Hk as [(_ & Hk & _) _ _ _]. destruct Hs as [(_ & Hs & _) _ _ _]. unfold entry_count. rewrite Hs, Hk. split.
  - pose proof (no_gain_count c _ _ Hg). lia.
  - intros Hl. pose proof (kept_count c _ _ Hl). lia.
Qed.
(** The core recorded in the task's entry. *)
Lemma record_slack h core_id own s k : knows cap s k -> let '(err, b) := bb_task_base_set_core_owning h core_id own (sc_base s) in
  (exists k', knows cap (with_base b s) k') /\
  if is_ok err then exists e, tasks (sc_base s) !! h = Some e /\ entry_count (with_base b s) + Z.b2z (entry_owns c e) = entry_count s + Z.b2z (own && (core_id =? c)) /\ tasks b = <[h := fill_core core_id own e]> (tasks (sc_base s))
  else entry_count (with_base b s) = entry_count s.
Proof.
  intros Hk. pose proof (step_knows cap (TSetCore h core_id own) s k Hk) as Hs. cbn [task_step known_step] in Hs. unfold on_base, on_table in Hs.
  destruct Hk as [(_ & Hk & _) _ _ _]. unfold map_update in Hs. rewrite <- Hk in Hs.
  destruct (bb_task_base_set_core_owning h core_id own (sc_base s)) as [err b]. destruct (h =? 0); [|destruct (tasks (sc_base s) !! h) as [e|] eqn:E]; destruct Hs as [[= ->] Hs]; (split; [by eexists|]);
    destruct Hs as [(_ & Hs & _) _ _ _]; cbn [kn_table fst] in Hs; cbn [is_ok with_base sc_base] in *.
  - unfold entry_count. cbn [with_base sc_base]. by rewrite Hs, Hk.
  - exists e. split_and!; [done| |done]. unfold entry_count. cbn [with_base sc_base]. rewrite Hs, count_insert, (count_at (entry_owns c) (tasks (sc_base s)) h e E).
    change (entry_owns c (fill_core core_id own e)) with (own && (core_id =? c)). destruct (entry_owns c e), (own && (core_id =? c)); cbn [Nat.b2n Z.b2z]; lia.
  - unfold entry_count. cbn [with_base sc_base]. by rewrite Hs, Hk.
Qed.
(** The entry dropped, and the core it owned. *)
Lemma drop_slack h s k : knows cap s k -> let '(err, b, owned) := bb_task_deregister_entry h (sc_base s) in
  (exists k', knows cap (with_base b s) k') /\ entry_count s = entry_count (with_base b s) + Z.b2z (match owned with Some d => d =? c | None => false end).
Proof.
  intros Hk. pose proof (deregister_knows cap h s k Hk) as Hs. cbn [task_step known_step] in Hs. destruct (bb_task_deregister_entry h (sc_base s)) as [[err b] owned].
  destruct Hk as [(_ & Hk & _) _ _ _]. unfold map_drop in Hs. rewrite <- Hk in Hs. unfold entry_count. cbn [with_base sc_base].
  destruct (h =? 0); [|destruct (tasks (sc_base s) !! h) as [e|] eqn:E]; destruct Hs as [[= -> ->] Hs]; (split; [by eexists|]); destruct Hs as [(_ & Hs & _) _ _ _]; cbn [kn_table fst with_base sc_base] in Hs; rewrite Hs.
  - rewrite Hk. cbn. lia.
  - rewrite (count_at (entry_owns c) (tasks (sc_base s)) h e E). cbn [mbind option_bind]. unfold entry_owns at 1. destruct (be_core_owning e); cbn [andb]; [|cbn; lia]. destruct (be_core e =? c); cbn; lia.
  - rewrite Hk. cbn. lia.
Qed.

(** One stretch of a thread. *)
Definition tracked (st : cores) : Prop := exists k, knows cap (co_scan st) k.
Lemma tracked_release tid d next st : tracked st -> tracked (release tid d next st).
Proof. intros Hk. unfold release. destruct (bb_wdt_release_core d (co_mask st)) as [err mask]. by destruct (is_ok err). Qed.
Lemma entered_slack tid cfg res own h rc st : tracked st -> 0 <= slack st -> co_threads st !! tid = Some (Entered cfg res own h rc) ->
  let st' := thread_step num_cores idle tid 0 (Entered cfg res own h rc) st in
  tracked st' /\ slack st <= slack st' /\ (existsb (entry_lost (tasks (sc_base (co_scan st')))) (map_to_list (tasks (sc_base (co_scan st)))) = false -> slack st' <= slack st).
Proof.
  intros [k Hk] Hs Ht. pose proof (slack_at _ _ _ Ht) as Ha. unfold owns_z in Ha. cbn [thread_owns] in Ha. cbn [thread_step]. destruct (is_ok rc) eqn:Erc.
  2:{ split; [by exists k|]. rewrite slack_put, Ha. unfold owns_z. cbn [thread_owns]. rewrite Erc. cbn [negb]. rewrite andb_true_r. lia. }
  pose proof (record_slack h (tr_core res) own (co_scan st) k Hk) as Hr. destruct (bb_task_base_set_core_owning _ _ _ _) as [err b].
  destruct Hr as [Hk' Hr]. split; [exact Hk'|]. unfold put_base. rewrite slack_write, Ha. unfold owns_z. cbn [thread_owns co_scan]. destruct (is_ok err); cbn [negb].
  2:{ rewrite Hr, andb_true_r. lia. }
  destruct Hr as (e & He & Hc & Hb). rewrite andb_false_r. cbn [andb Z.b2z]. cbn [with_base sc_base]. rewrite Hb.
  assert (Hrest : 0 <= rest tid st) by (unfold rest, thread_count; lia). split; [destruct (entry_owns c e), (own && _); cbn [Z.b2z] in *; lia|].
  intros Hl. pose proof (kept_count c _ _ Hl) as Hge. rewrite <- Hb in Hge. change (tasks b) with (tasks (sc_base (with_base b (co_scan st)))) in Hge.
  fold (entry_count (co_scan st)) in Hge. unfold entry_count in *. unfold bit in *. destruct (entry_owns c e) eqn:Eo; [|cbn [Z.b2z] in *; lia].
  assert (H1 : (1 <= count_of (entry_owns c) (tasks (sc_base (co_scan st))))%nat) by (rewrite (count_at (entry_owns c) _ h e He), Eo; cbn; lia).
  destruct (own && (tr_core res =? c)), (Z.testbit (co_mask st) c); cbn [Z.b2z] in *; lia.
Qed.
Lemma thread_slack tid answer t st : tracked st -> 0 <= slack st -> co_threads st !! tid = Some t ->
  let st' := thread_step num_cores idle tid answer t st in
  tracked st' /\ slack st <= slack st' /\ (existsb (entry_lost (tasks (sc_base (co_scan st')))) (map_to_list (tasks (sc_base (co_scan st)))) = false -> slack st' <= slack st).
Proof.
  intros Hk Hs Ht. pose proof (slack_at _ _ _ Ht) as Ha. assert (Hput : forall t', owns_z t' = owns_z t -> slack (put tid t' st) = slack st) by (intros t' Et; by rewrite slack_put, Et).
  destruct t as [cfg res|cfg res own|res|cfg res own h|cfg res own h rc|res own h rc|core_id|next|m next|err h].
  - pose proof (slack_claim tid answer cfg res st Ht) as Hc. cbv zeta. rewrite Hc. split; [|done]. cbn [thread_step].
    destruct (tc_core_owning cfg && _); [|done]. destruct (bb_wdt_claim_core_exclusive _ _) as [rc mask]. by destruct (is_ok rc).
  - cbn [thread_step]. destruct (answer =? 0); (split; [done|]); rewrite Hput; try done; unfold owns_z; cbn [thread_owns]; by destruct own.
  - cbn [thread_step]. split; [by apply tracked_release|]. rewrite (slack_release tid _ _ st _ Ht); done.
  - destruct Hk as [k Hk]. cbn [thread_step]. pose proof (table_slack (TUpsert h (tc_name cfg) (tr_stack_bytes res) (tc_wdt_arm cfg)) (co_scan st) k eq_refl Hk) as Hu.
    cbn [task_step] in Hu. unfold on_base in Hu. destruct (bb_task_base_upsert _ _ _ _ _) as [rc b]. cbn [snd] in Hu. destruct Hu as (Hk' & H1 & H2).
    split; [exact Hk'|]. unfold put_base. rewrite slack_write, Ha. unfold owns_z. cbn [thread_owns co_scan]. split; [lia|]. intros Hl. specialize (H2 Hl). lia.
  - exact (entered_slack tid cfg res own h rc st Hk Hs Ht).
  - cbn [thread_step]. destruct (own && negb (is_ok rc)) eqn:Eo.
    + split; [by apply tracked_release|]. rewrite (slack_release tid _ _ st _ Ht); try done. cbn [thread_owns]. by rewrite Eo.
    + split; [done|]. rewrite Hput; [done|]. unfold owns_z. cbn [thread_owns]. by rewrite Eo.
  - cbn [thread_step]. split; [by apply tracked_release|]. rewrite (slack_release tid _ _ st _ Ht); done.
  - cbn [thread_step]. split; [done|]. by rewrite Hput.
  - cbn [thread_step]. split; [done|]. rewrite slack_write, Ha. unfold owns_z. cbn [thread_owns]. lia.
  - done.
Qed.
Lemma step_slack call st : client call = true -> tracked st -> 0 <= slack st ->
  tracked (cores_step num_cores idle call st) /\ slack st <= slack (cores_step num_cores idle call st) /\
  (loses num_cores idle call st = false -> slack (cores_step num_cores idle call st) <= slack st).
Proof.
  intros Hc Hk Hs. unfold loses. destruct call as [tid cfg|tid h|tid answer|op]; cbn [cores_step].
  - destruct (idle_thread (co_threads st !! tid)) eqn:Ei; [|done]. split; [done|]. rewrite slack_put, (slack_idle tid st Ei). unfold create_begin, owns_z.
    destruct cfg as [cfg|]; [|cbn; lia]. destruct (bb_task_resolve _ _ _); cbn; lia.
  - destruct (idle_thread (co_threads st !! tid)) eqn:Ei; [|done]. destruct Hk as [k Hk]. pose proof (drop_slack h _ k Hk) as Hd. destruct (bb_task_deregister_entry _ _) as [[err b] owned].
    destruct Hd as [Hk' Hd]. split; [exact Hk'|]. unfold put_base. rewrite slack_write, (slack_idle tid st Ei), Hd. unfold owns_z. destruct owned as [d|]; cbn [thread_owns Z.b2z]; lia.
  - destruct (co_threads st !! tid) as [t|] eqn:Et; [|done]. by apply thread_slack.
  - destruct Hk as [k Hk]. destruct (table_slack op _ k Hc Hk) as (H1 & H2 & H3). split; [exact H1|]. unfold slack. cbn [co_mask co_scan co_threads]. split; [lia|]. intros Hl. specialize (H3 Hl). lia.
Qed.
Lemma run_slack calls : forall st, forallb client calls = true -> tracked st -> 0 <= slack st ->
  0 <= slack (cores_run num_cores idle calls st) /\ (none_lost num_cores idle calls st = true -> slack (cores_run num_cores idle calls st) <= slack st).
Proof.
  induction calls as [|call calls IH]; intros st Hc Hk Hs; [done|]. cbn [forallb] in Hc. apply andb_true_iff in Hc as [Hc Hcs]. destruct (step_slack call st Hc Hk Hs) as (H1 & H2 & H3).
  change (cores_run num_cores idle (call :: calls) st) with (cores_run num_cores idle calls (cores_step num_cores idle call st)). destruct (IH _ Hcs H1 ltac:(lia)) as [H4 H5].
  split; [done|]. cbn [none_lost]. intros [Hl Hn]%andb_true_iff. apply negb_true_iff in Hl. specialize (H3 Hl). specialize (H5 Hn). lia.
Qed.
End Balance.
Lemma cores0_slack cap idle c : tracked cap (cores0 cap idle) /\ slack c (cores0 cap idle) = 0.
Proof.
  split; [exists known0; apply scan0_knows|]. unfold slack, entry_count, thread_count, bit. cbn [cores0 co_mask co_scan co_threads]. destruct (scan0_knows cap) as [(_ & -> & _) _ _ _].
  rewrite Z.bits_0. done.
Qed.

(** * A core has one owner *)


(** * Runs *)

Definition own_cfg (core : Z) : task_config := mk_tcfg 1 (Some (bs "worker")) 4096 core true BB_TASK_BACKING_DYNAMIC 0 0 false.
(** A whole bb_task_create by thread [tid], the kernel answering [answer]. *)
Definition create_alone (tid : nat) (core answer : Z) : list cores_call := Create tid (Some (own_cfg core)) :: repeat (Next tid answer) 9.
(** Two threads that both saw core 0 free: the first is given it, the other is
    refused; then the first's task is dropped and the core is free again. *)
Definition race : list cores_call :=
  [Create 1 (Some (own_cfg 0)); Create 2 (Some (own_cfg 0)); Next 1 0; Next 2 0; Next 1 0; Next 1 0; Next 1 64; Next 1 0; Table (TScan (Some [mk_row 64 (bs "worker") 900]) 1); Next 1 0; Next 1 0].
Example race_has_one_winner : let st := cores_run 2 3 race (cores0 4 3) in
  (co_threads st !! 1%nat, co_threads st !! 2%nat, co_mask st, owners 0 st, co_idle_core_mask st) = (Some (Done BB_OK 64), Some (Done BB_ERR_INVALID_STATE 0), 1, 1%nat, 2).
Proof. vm_compute. reflexivity. Qed.
Example race_then_released : let st := cores_run 2 3 (race ++ Deregister 1 64 :: repeat (Next 1 0) 3) (cores0 4 3) in
  (co_threads st !! 1%nat, co_mask st, owners 0 st, co_idle_core_mask st) = (Some (Done BB_OK 0), 0, 0%nat, 3).
Proof. vm_compute. reflexivity. Qed.
(** A task that cannot be entered gives its core back and runs. *)
Example full_table_releases : let st := cores_run 2 3 (create_alone 1 0 64 ++ create_alone 1 1 65) (cores0 1 3) in
  (co_threads st !! 1%nat, co_mask st, bb_task_base_dropped (sc_base (co_scan st))) = (Some (Done BB_OK 65), 1, 1).
Proof. vm_compute. reflexivity. Qed.
(** The mask is read and written to the watchdog in two steps: the one that read
    first may write last, and an owned core's idle task is watched. *)
Example stale_reconfiguration : let st := cores_run 2 3
    ([Create 1 (Some (own_cfg 0)); Create 2 (Some (own_cfg 1)); Next 1 0; Next 1 0; Next 2 0; Next 2 0; Next 2 0; Next 1 0]
     ++ [Next 1 64; Next 1 0; Next 1 0; Next 1 0; Next 2 65; Next 2 0; Next 2 0; Next 2 0]) (cores0 4 3) in
  (co_threads st !! 1%nat, co_threads st !! 2%nat, co_mask st, monitored_mask 3 (co_mask st) 2, co_idle_core_mask st) = (Some (Done BB_OK 64), Some (Done BB_OK 65), 3, 0, 2).
Proof. vm_compute. reflexivity. Qed.
(** A task created after the kernel was asked for its tasks is not among the
    scan's rows: from the second scan on it is swept at once, and its core stays
    claimed when the task is deregistered. *)
Example new_task_swept : let st := cores_run 2 3 (create_alone 1 0 64 ++ [Table (TScan (Some []) 2)] ++ Deregister 1 64 :: repeat (Next 1 0) 3) (cores0 4 3) in
  (co_threads st !! 1%nat, co_mask st, owners 0 st) = (Some (Done BB_ERR_NOT_FOUND 0), 1, 0%nat).
Proof. vm_compute. reflexivity. Qed.
Example swept_core_refused : let st := cores_run 2 3 (create_alone 1 0 64 ++ [Table (TScan (Some []) 2)] ++ create_alone 1 0 65) (cores0 4 3) in
  co_threads st !! 1%nat = Some (Done BB_ERR_INVALID_ARG 0).
Proof. vm_compute. reflexivity. Qed.

