(* ===== verification/TaskWatch.v ===== *)
(** bb_task_registry: the tasks registered under a name, their tokens, and the
    software watchdog that checks that each is fed in time
    (platform/host/bb_task_registry/bb_task_registry.c). *)
From Stdlib Require Import Strings.String.
From S2P Require Import Prelude Bytes Num Str Registry Tasks.

(** * The pool *)

Record task_entry := mk_tentry {
  te_handle : Z; te_stack_budget_bytes : Z; te_wdt_subscribed : bool; te_in_use : bool; te_generation : Z; te_last_feed_ms : Z; te_sw_wdt_timeout_ms : Z;
  te_miss_count : Z; te_last_miss_ms : Z; te_miss_active : bool
}.
(** The constructor has set the generation. *)
Definition tentry0 : task_entry := mk_tentry 0 0 false false 1 0 0 0 0 false.
Record token := mk_token { tk_index : Z; tk_generation : Z }.
Record sw_wdt_row := mk_swrow {
  sr_index : nat; sr_generation : Z; sr_name : list byte; sr_handle : Z; sr_sw_wdt_timeout_ms : Z; sr_last_feed_ms : Z; sr_miss_count : Z; sr_last_miss_ms : Z;
  sr_miss_active : bool; sr_dirty : bool
}.
(** How far a check has come: its snapshot taken, or evaluated. *)
Inductive check_phase : Set := Snapshotted | Evaluated.
(** An evaluation of a registration: whether it was overdue; the miss that was
    logged; whether the miss handler was called with it. *)
Record evaluation := mk_eval { ev_index : nat; ev_generation : Z; ev_overdue : bool; ev_miss : option (list byte * Z * Z); ev_called : bool }.
(** The pool, the registry of its addresses by name (entry [i] is at [i + 1]),
    the counters; whether there is a miss handler; the base table; the check
    that runs and the feeds that have read their generation; the evaluations so
    far. *)
Record watch := mk_watch {
  wa_pool : list task_entry; wa_registry : bb_registry; wa_dropped : Z; wa_hwm_warned : bool; wa_handler : bool; wa_base : base;
  wa_check : option (check_phase * list sw_wdt_row); wa_feeds : gmap nat nat; wa_log : list evaluation
}.
Definition watch0 (cap base_cap : nat) : watch := mk_watch (repeat tentry0 cap) (BB_REGISTRY_DEFINE cap) 0 false false (base0 base_cap) None ∅ [].
Definition with_pool (pool : list task_entry) (w : watch) : watch :=
  mk_watch pool (wa_registry w) (wa_dropped w) (wa_hwm_warned w) (wa_handler w) (wa_base w) (wa_check w) (wa_feeds w) (wa_log w).
Definition with_registry (r : bb_registry) (w : watch) : watch :=
  mk_watch (wa_pool w) r (wa_dropped w) (wa_hwm_warned w) (wa_handler w) (wa_base w) (wa_check w) (wa_feeds w) (wa_log w).
Definition with_counters (dropped : Z) (warned : bool) (w : watch) : watch :=
  mk_watch (wa_pool w) (wa_registry w) dropped warned (wa_handler w) (wa_base w) (wa_check w) (wa_feeds w) (wa_log w).
Definition with_handler (h : bool) (w : watch) : watch :=
  mk_watch (wa_pool w) (wa_registry w) (wa_dropped w) (wa_hwm_warned w) h (wa_base w) (wa_check w) (wa_feeds w) (wa_log w).
Definition with_task_base (b : base) (w : watch) : watch :=
  mk_watch (wa_pool w) (wa_registry w) (wa_dropped w) (wa_hwm_warned w) (wa_handler w) b (wa_check w) (wa_feeds w) (wa_log w).
Definition with_check (c : option (check_phase * list sw_wdt_row)) (log : list evaluation) (w : watch) : watch :=
  mk_watch (wa_pool w) (wa_registry w) (wa_dropped w) (wa_hwm_warned w) (wa_handler w) (wa_base w) c (wa_feeds w) log.
Definition with_feeds (f : gmap nat nat) (w : watch) : watch :=
  mk_watch (wa_pool w) (wa_registry w) (wa_dropped w) (wa_hwm_warned w) (wa_handler w) (wa_base w) (wa_check w) f (wa_log w).

Definition taken (e : task_entry) : task_entry :=
  mk_tentry (te_handle e) (te_stack_budget_bytes e) (te_wdt_subscribed e) true (te_generation e) (te_last_feed_ms e) (te_sw_wdt_timeout_ms e) (te_miss_count e) (te_last_miss_ms e) (te_miss_active e).
Definition freed (e : task_entry) : task_entry :=
  mk_tentry (te_handle e) (te_stack_budget_bytes e) (te_wdt_subscribed e) false (te_generation e) (te_last_feed_ms e) (te_sw_wdt_timeout_ms e) (te_miss_count e) (te_last_miss_ms e) (te_miss_active e).
Definition fed (now_ms : Z) (e : task_entry) : task_entry :=
  mk_tentry (te_handle e) (te_stack_budget_bytes e) (te_wdt_subscribed e) (te_in_use e) (te_generation e) now_ms (te_sw_wdt_timeout_ms e) (te_miss_count e) (te_last_miss_ms e) (te_miss_active e).
Definition subscribed (wdt : bool) (e : task_entry) : task_entry :=
  mk_tentry (te_handle e) (te_stack_budget_bytes e) wdt (te_in_use e) (te_generation e) (te_last_feed_ms e) (te_sw_wdt_timeout_ms e) (te_miss_count e) (te_last_miss_ms e) (te_miss_active e).
Definition next_generation (e : task_entry) : task_entry :=
  mk_tentry (te_handle e) (te_stack_budget_bytes e) (te_wdt_subscribed e) (te_in_use e) (u16 (te_generation e + 1)) (te_last_feed_ms e) (te_sw_wdt_timeout_ms e) (te_miss_count e) (te_last_miss_ms e) (te_miss_active e).
Definition registered (handle budget timeout : Z) (e : task_entry) : task_entry :=
  mk_tentry handle budget false (te_in_use e) (te_generation e) 0 timeout 0 0 false.
Definition committed (r : sw_wdt_row) (e : task_entry) : task_entry :=
  mk_tentry (te_handle e) (te_stack_budget_bytes e) (te_wdt_subscribed e) (te_in_use e) (te_generation e) (te_last_feed_ms e) (te_sw_wdt_timeout_ms e) (sr_miss_count r) (sr_last_miss_ms r) (sr_miss_active r).

Definition count_locked (pool : list task_entry) : nat := length (filter (fun e => te_in_use e = true) pool).
Fixpoint first_free (pool : list task_entry) (i : nat) : option nat :=
  match pool with [] => None | e :: pool => if negb (te_in_use e) then Some i else first_free pool (S i) end.
Definition BB_TASK_REGISTRY_HWM_MARGIN : nat := 2.
Definition hwm_threshold (cap : nat) : nat := if (BB_TASK_REGISTRY_HWM_MARGIN <? cap)%nat then (cap - BB_TASK_REGISTRY_HWM_MARGIN)%nat else cap.
Definition pool_alloc_locked (w : watch) : option nat * watch :=
  match first_free (wa_pool w) 0 with
  | Some i =>
      let pool := alter taken i (wa_pool w) in
      let warned := wa_hwm_warned w || (hwm_threshold (length pool) <=? count_locked pool)%nat in
      (Some i, with_pool pool (with_counters (wa_dropped w) warned w))
  | None => (None, with_counters (u32 (wa_dropped w + 1)) (wa_hwm_warned w) w)
  end.

Section Watch.
(** The texts of names, which are borrowed and stay as they are. *)
Context (str : Z -> list byte).

(** [hw]: whether the hardware watchdog takes the task. *)
Definition bb_task_registry_register (name budget handle : Z) (opts : option (bool * Z)) (hw : bool) (w : watch) : bb_err * option token * watch :=
  if name =? 0 then (BB_ERR_INVALID_ARG, None, w) else
  match pool_alloc_locked w with
  | (None, w) => (BB_ERR_NO_SPACE, None, w)
  | (Some i, w) =>
      let w := with_pool (alter (registered handle budget (match opts with Some (_, timeout) => timeout | None => 0 end)) i (wa_pool w)) w in
      let wdt := match opts with Some (true, _) => negb (handle =? 0) && hw | _ => false end in
      let w := with_pool (alter (subscribed wdt) i (wa_pool w)) w in
      let '(err, r) := bb_registry_register str BB_OK name (entry_addr i) (wa_registry w) in
      let w := with_registry r w in
      if is_ok err then
        let generation := match wa_pool w !! i with Some e => te_generation e | None => 0 end in
        let w := if negb (handle =? 0) then with_task_base (bb_task_base_upsert handle (Some (str name)) budget wdt (wa_base w)).2 w else w in
        (BB_OK, Some (mk_token (u16 (Z.of_nat i)) generation), w)
      else (err, None, with_pool (alter (fun e => freed (subscribed false e)) i (wa_pool w)) w)
  end.
Definition entry_handle (pool : list task_entry) (value : Z) : Z := match pool !! entry_index value with Some e => te_handle e | None => 0 end.
Definition find_by_handle (handle : Z) (w : watch) : option (Z * Z) :=
  find (fun p => entry_handle (wa_pool w) p.2 =? handle) (registry_snapshot BB_OK (wa_registry w)).
Definition bb_task_registry_deregister (handle : Z) (w : watch) : bb_err * watch :=
  if handle =? 0 then (BB_ERR_INVALID_ARG, w) else
  match find_by_handle handle w with
  | None => (BB_ERR_NOT_FOUND, w)
  | Some (name, value) =>
      let '(err, r) := bb_registry_deregister str BB_OK name (wa_registry w) in
      let w := with_registry r w in
      if is_ok err then
        let w := with_pool (alter (fun e => freed (next_generation (subscribed false e))) (entry_index value) (wa_pool w)) w in
        (BB_OK, with_task_base (bb_task_base_remove handle (wa_base w)).2 w)
      else (err, w)
  end.
(** bb_task_registry_feed takes no lock: the generation is read, and the time
    stored, in two steps. *)
Definition feed_check (tid : nat) (t : token) (w : watch) : watch :=
  match wa_pool w !! Z.to_nat (tk_index t) with
  | Some e => if te_generation e =? tk_generation t then with_feeds (<[tid := Z.to_nat (tk_index t)]> (wa_feeds w)) w else w
  | None => w
  end.
Definition feed_store (tid : nat) (now_ms : Z) (w : watch) : watch :=
  match wa_feeds w !! tid with
  | Some i => with_feeds (delete tid (wa_feeds w)) (with_pool (alter (fed now_ms) i (wa_pool w)) w)
  | None => w
  end.
Definition bb_task_registry_feed (tid : nat) (t : token) (now_ms : Z) (w : watch) : watch := feed_store tid now_ms (feed_check tid t w).

(** bb_task_registry_sw_wdt_check, its three parts. *)
Definition sw_wdt_snapshot (pool : list task_entry) (rows : list sw_wdt_row) (p : Z * Z) : list sw_wdt_row :=
  if (length pool <=? length rows)%nat then rows else
  match pool !! entry_index p.2 with
  | None => rows
  | Some e =>
      if te_sw_wdt_timeout_ms e =? 0 then rows else
      rows ++ [mk_swrow (entry_index p.2) (te_generation e) (copy_name (str p.1)) (te_handle e) (te_sw_wdt_timeout_ms e) (te_last_feed_ms e) (te_miss_count e) (te_last_miss_ms e) (te_miss_active e) false]
  end.
Definition overdue_by (now_ms : Z) (r : sw_wdt_row) : bool := sr_sw_wdt_timeout_ms r <? u32 (now_ms - sr_last_feed_ms r).
Definition sw_wdt_eval (handler : bool) (now_ms : Z) (r : sw_wdt_row) : sw_wdt_row * evaluation :=
  let overdue := overdue_by now_ms r in
  let overrun_ms := u32 (u32 (now_ms - sr_last_feed_ms r) - sr_sw_wdt_timeout_ms r) in
  if overdue && negb (sr_miss_active r) then
    (mk_swrow (sr_index r) (sr_generation r) (sr_name r) (sr_handle r) (sr_sw_wdt_timeout_ms r) (sr_last_feed_ms r) (u32 (sr_miss_count r + 1)) now_ms true true,
     mk_eval (sr_index r) (sr_generation r) overdue (Some (sr_name r, sr_handle r, overrun_ms)) handler)
  else if negb overdue && sr_miss_active r then
    (mk_swrow (sr_index r) (sr_generation r) (sr_name r) (sr_handle r) (sr_sw_wdt_timeout_ms r) (sr_last_feed_ms r) (sr_miss_count r) (sr_last_miss_ms r) false true,
     mk_eval (sr_index r) (sr_generation r) overdue None false)
  else (r, mk_eval (sr_index r) (sr_generation r) overdue None false).
Definition sw_wdt_commit (pool : list task_entry) (r : sw_wdt_row) : list task_entry :=
  if negb (sr_dirty r) then pool else
  match pool !! sr_index r with
  | Some e => if te_generation e =? sr_generation r then alter (committed r) (sr_index r) pool else pool
  | None => pool
  end.
Definition check_snapshot (w : watch) : watch :=
  match wa_check w with
  | None => with_check (Some (Snapshotted, fold_left (sw_wdt_snapshot (wa_pool w)) (registry_snapshot BB_OK (wa_registry w)) [])) (wa_log w) w
  | Some _ => w
  end.
Definition check_evaluate (now_ms : Z) (w : watch) : watch :=
  match wa_check w with
  | Some (Snapshotted, rows) => let es := map (sw_wdt_eval (wa_handler w) now_ms) rows in with_check (Some (Evaluated, map fst es)) (wa_log w ++ map snd es) w
  | _ => w
  end.
Definition check_commit (w : watch) : watch :=
  match wa_check w with
  | Some (Evaluated, rows) => with_check None (wa_log w) (with_pool (fold_left sw_wdt_commit rows (wa_pool w)) w)
  | _ => w
  end.
Definition bb_task_registry_sw_wdt_check (now_ms : Z) (w : watch) : watch := check_commit (check_evaluate now_ms (check_snapshot w)).

Definition bb_task_registry_lookup_sw_wdt (name now_ms : Z) (w : watch) : option (Z * Z * Z * Z) :=
  if name =? 0 then None else
  let a := bb_registry_lookup str BB_OK name (wa_registry w) in
  if a =? 0 then None else
  e ← wa_pool w !! entry_index a;
  if te_sw_wdt_timeout_ms e =? 0 then None else
  Some (te_sw_wdt_timeout_ms e, u32 (now_ms - te_last_feed_ms e), (if 0 <? te_miss_count e then u32 (now_ms - te_last_miss_ms e) else 0), te_miss_count e).
Definition bb_task_registry_lookup_budget (name : Z) (w : watch) : option (Z * bool) :=
  if name =? 0 then None else
  let a := bb_registry_lookup str BB_OK name (wa_registry w) in
  if a =? 0 then None else (fun e => (te_stack_budget_bytes e, te_wdt_subscribed e)) <$> wa_pool w !! entry_index a.
(** The triples a callback of bb_task_registry_foreach is given. *)
Definition bb_task_registry_foreach (w : watch) : list (list byte * Z * bool) :=
  omap (fun p => (fun e => (str p.1, te_stack_budget_bytes e, te_wdt_subscribed e)) <$> wa_pool w !! entry_index p.2) (registry_snapshot BB_OK (wa_registry w)).
Definition bb_task_registry_count (w : watch) : nat := count_locked (wa_pool w).
Definition bb_task_registry_capacity (w : watch) : nat := length (wa_pool w).
Definition bb_task_registry_dropped (w : watch) : Z := wa_dropped w.
Definition bb_task_registry_set_sw_wdt_handler (handler : bool) (w : watch) : watch := with_handler handler w.

(** Any thread's next step; one task runs the checks. *)
Inductive watch_call : Type :=
  | WRegister (name budget handle : Z) (opts : option (bool * Z)) (hw : bool) | WDeregister (handle : Z) | WFeedCheck (tid : nat) (t : token) | WFeedStore (tid : nat) (now_ms : Z)
  | WSetHandler (handler : bool) | WCheckSnapshot | WCheckEvaluate (now_ms : Z) | WCheckCommit.
Definition watch_step (w : watch) (call : watch_call) : watch :=
  match call with
  | WRegister name budget handle opts hw => (bb_task_registry_register name budget handle opts hw w).2
  | WDeregister handle => (bb_task_registry_deregister handle w).2
  | WFeedCheck tid t => feed_check tid t w
  | WFeedStore tid now_ms => feed_store tid now_ms w
  | WSetHandler handler => bb_task_registry_set_sw_wdt_handler handler w
  | WCheckSnapshot => check_snapshot w
  | WCheckEvaluate now_ms => check_evaluate now_ms w
  | WCheckCommit => check_commit w
  end.
Definition watch_run (calls : list watch_call) (w : watch) : watch := fold_left watch_step calls w.
End Watch.

(** * Episodes *)

(** What a watchdog does that is silent until a task is overdue, reports it once,
    and waits until the task is on time again. *)
Fixpoint episodes (active : bool) (overdue : list bool) : list bool :=
  match overdue with [] => [] | o :: overdue => (o && negb active) :: episodes o overdue end.
Definition trues (l : list bool) : Z := Z.of_nat (length (filter (fun b => b = true) l)).
Definition evs (i : nat) (g : Z) (log : list evaluation) : list evaluation := filter (fun ev => ev_index ev = i /\ ev_generation ev = g) log.
Definition overdues (i : nat) (g : Z) (log : list evaluation) : list bool := map ev_overdue (evs i g log).
Definition reports (i : nat) (g : Z) (log : list evaluation) : list bool := map (fun ev => bool_decide (is_Some (ev_miss ev))) (evs i g log).
(** How many misses, and whether the last evaluation was overdue. *)
Definition missed (l : list bool) : Z := u32 (trues (episodes false l)).
Definition is_overdue (l : list bool) : bool := List.last l false.

Lemma episodes_snoc l : forall a o, episodes a (l ++ [o]) = episodes a l ++ [o && negb (List.last l a)].
Proof.
  induction l as [|x l IH]; intros a o; [done|]. cbn [app episodes]. rewrite IH. do 4 f_equal. destruct l as [|y l]; [done|]. clear. revert y. induction l as [|z l IH]; intros y; [done|].
  exact (IH z).
Qed.
Lemma last_snoc {A} (l : list A) d x : List.last (l ++ [x]) d = x.
Proof. induction l as [|y l IH]; [done|]. cbn [app]. destruct (l ++ [x]) eqn:E; [by destruct l|]. exact IH. Qed.
Lemma missed_snoc l o : missed (l ++ [o]) = if o && negb (is_overdue l) then u32 (missed l + 1) else missed l.
Proof.
  unfold missed, is_overdue. rewrite episodes_snoc. unfold trues. rewrite filter_app, length_app. destruct (o && negb (List.last l false)).
  - rewrite filter_cons, decide_True by done. cbn [length filter]. unfold u32. rewrite Zplus_mod_idemp_l. f_equal. change (filter (fun b : bool => b = true) (@nil bool)) with (@nil bool). cbn. lia.
  - rewrite filter_cons, decide_False by done. change (filter (fun b : bool => b = true) (@nil bool)) with (@nil bool). cbn. by rewrite Nat.add_0_r.
Qed.
Lemma evs_app i g l1 l2 : evs i g (l1 ++ l2) = evs i g l1 ++ evs i g l2.
Proof. apply filter_app. Qed.
Lemma overdues_app i g l1 l2 : overdues i g (l1 ++ l2) = overdues i g l1 ++ overdues i g l2.
Proof. unfold overdues. by rewrite evs_app, map_app. Qed.
Lemma reports_app i g l1 l2 : reports i g (l1 ++ l2) = reports i g l1 ++ reports i g l2.
Proof. unfold reports. by rewrite evs_app, map_app. Qed.
Lemma evs_none i g log : (forall ev, ev ∈ log -> ev_index ev = i -> ev_generation ev = g -> False) -> evs i g log = [].
Proof.
  intros H. unfold evs. destruct (filter _ log) as [|ev l] eqn:E; [done|]. exfalso. assert (Hin : ev ∈ filter (fun ev => ev_index ev = i /\ ev_generation ev = g) log) by (rewrite E; by left).
  apply list_elem_of_filter in Hin as [[H1 H2] Hin]. exact (H ev Hin H1 H2).
Qed.

(** ** Entries and rows *)

Lemma entry_alter_at {A} (f : A -> A) (i : nat) (l : list A) (j : nat) x : alter f i l !! j = Some x -> (j = i /\ exists y, l !! i = Some y /\ x = f y) \/ (j <> i /\ l !! j = Some x).
Proof.
  destruct (decide (j = i)) as [->|Hj].
  - rewrite list_lookup_alter_eq. intros (y & Hy & ->)%fmap_Some. left. split; [done|]. by exists y.
  - rewrite list_lookup_alter_ne by done. by right.
Qed.
(** An entry has what the evaluations of its registration say. *)
Definition agrees (log : list evaluation) (i : nat) (e : task_entry) : Prop :=
  te_miss_count e = missed (overdues i (te_generation e) log) /\ te_miss_active e = is_overdue (overdues i (te_generation e) log).
Definition row_agrees (log : list evaluation) (r : sw_wdt_row) : Prop :=
  sr_miss_count r = missed (overdues (sr_index r) (sr_generation r) log) /\ sr_miss_active r = is_overdue (overdues (sr_index r) (sr_generation r) log).
Definition rows_of (w : watch) : list sw_wdt_row := match wa_check w with Some (_, rows) => rows | None => [] end.
Definition evaluated (w : watch) : bool := match wa_check w with Some (Evaluated, _) => true | _ => false end.
(** A row that waits to be written to this entry. *)
Definition waits (w : watch) (i : nat) (e : task_entry) : Prop :=
  evaluated w = true /\ exists r, r ∈ rows_of w /\ sr_index r = i /\ sr_generation r = te_generation e /\ sr_dirty r = true.
(** The slot has not moved on past this generation, and has it only in use. *)
Definition holds_slot (w : watch) (i : nat) (g : Z) : Prop := exists e, wa_pool w !! i = Some e /\ g <= te_generation e /\ (g = te_generation e -> te_in_use e = true).
Record watch_inv (str : Z -> list byte) (T : list token) (n : Z) (w : watch) : Prop := {
  wi_registry : registry_wf str false (wa_registry w);
  wi_frozen : rg_frozen (wa_registry w) = false;
  wi_values : NoDup (live (wa_registry w)).*2;
  wi_live : forall p, p ∈ live (wa_registry w) -> exists i e, p.2 = entry_addr i /\ wa_pool w !! i = Some e /\ te_in_use e = true;
  wi_generation : forall i e, wa_pool w !! i = Some e -> 1 <= te_generation e <= 1 + n;
  wi_old : forall ev e, ev ∈ wa_log w -> wa_pool w !! ev_index ev = Some e -> ev_generation ev <= te_generation e;
  wi_free : forall i e, wa_pool w !! i = Some e -> te_in_use e = false -> overdues i (te_generation e) (wa_log w) = [];
  wi_log : forall i g, reports i g (wa_log w) = episodes false (overdues i g (wa_log w));
  wi_rows : NoDup (map sr_index (rows_of w));
  wi_row : forall r, r ∈ rows_of w -> row_agrees (wa_log w) r /\ (evaluated w = false -> sr_dirty r = false) /\
             holds_slot w (sr_index r) (sr_generation r);
  wi_entry : forall i e, wa_pool w !! i = Some e -> te_in_use e = true -> agrees (wa_log w) i e \/ waits w i e;
  wi_length : Z.of_nat (length (wa_pool w)) <= 65536;
  wi_tokens : forall t, t ∈ T -> 0 <= tk_index t /\ holds_slot w (Z.to_nat (tk_index t)) (tk_generation t);
  wi_distinct : NoDup T
}.

(** ** Entries that keep what matters *)

Lemma inv_more str T n m w : watch_inv str T n w -> n <= m -> watch_inv str T m w.
Proof. intros [I1 I2 I3 I4 I5 I6 I7 I8 I9 I10 I11 I12 I13 I14] Hm. split; try done. intros i e He. specialize (I5 i e He). lia. Qed.
(** A write that changes neither who has the slot nor what was missed. *)
Definition quiet (f : task_entry -> task_entry) : Prop := forall e, te_in_use (f e) = te_in_use e /\ te_generation (f e) = te_generation e /\ te_miss_count (f e) = te_miss_count e /\ te_miss_active (f e) = te_miss_active e.
Lemma quiet_inv str T n f i w : quiet f -> watch_inv str T n w -> watch_inv str T n (with_pool (alter f i (wa_pool w)) w).
Proof.
  intros Hf [I1 I2 I3 I4 I5 I6 I7 I8 I9 I10 I11 I12 I13 I14].
  assert (Hold : forall j x, alter f i (wa_pool w) !! j = Some x -> exists y, wa_pool w !! j = Some y /\ te_in_use x = te_in_use y /\ te_generation x = te_generation y /\ te_miss_count x = te_miss_count y /\ te_miss_active x = te_miss_active y).
  { intros j x [(-> & y & Hy & ->)|[_ Hx]]%entry_alter_at; [exists y; by destruct (Hf y) as (-> & -> & -> & ->)|by exists x]. }
  assert (Hnew : forall j y, wa_pool w !! j = Some y -> exists x, alter f i (wa_pool w) !! j = Some x /\ te_in_use x = te_in_use y /\ te_generation x = te_generation y).
  { intros j y Hy. destruct (decide (j = i)) as [->|Hj]; [exists (f y); rewrite list_lookup_alter_eq, Hy; by destruct (Hf y) as (-> & -> & _)|exists y; by rewrite list_lookup_alter_ne]. }
  split; cbn [wa_registry wa_pool wa_log wa_check with_pool]; try done.
  - intros p Hp. destruct (I4 p Hp) as (j & e & H1 & H2 & H3). destruct (Hnew j e H2) as (x & Hx & Hu & _). exists j, x. by rewrite Hu.
  - intros j x Hx. destruct (Hold j x Hx) as (y & Hy & _ & -> & _). by apply (I5 j).
  - intros ev x Hev Hx. destruct (Hold _ x Hx) as (y & Hy & _ & -> & _). by apply I6.
  - intros j x Hx Hu. destruct (Hold j x Hx) as (y & Hy & Hu' & -> & _). apply (I7 j y Hy). congruence.
  - intros r Hr. destruct (I10 r Hr) as (H1 & H2 & e & H3 & H4 & H5). split_and!; try done. destruct (Hnew _ e H3) as (x & Hx & Hu & Hg). exists x. by rewrite Hu, Hg.
  - intros j x Hx Hu. destruct (Hold j x Hx) as (y & Hy & Hu' & Hg & Hm & Ha). destruct (I11 j y Hy) as [[H1 H2]|Hw]; [congruence| |].
    + left. unfold agrees. rewrite Hg, Hm, Ha. by split.
    + right. unfold waits in *. rewrite Hg. exact Hw.
  - by rewrite length_alter.
  - intros t Ht. destruct (I13 t Ht) as (H0 & e & H3 & H4 & H5). split; [done|]. destruct (Hnew _ e H3) as (x & Hx & Hu & Hg). exists x. by rewrite Hu, Hg.
Qed.
Lemma feed_store_inv str T n tid now w : watch_inv str T n w -> watch_inv str T n (feed_store tid now w).
Proof.
  intros Hw. unfold feed_store. destruct (wa_feeds w !! tid) as [i|]; [|done]. destruct (quiet_inv str T n (fed now) i w (fun e => conj eq_refl (conj eq_refl (conj eq_refl eq_refl))) Hw). by split.
Qed.
Lemma feed_check_inv str T n tid t w : watch_inv str T n w -> watch_inv str T n (feed_check tid t w).
Proof. intros Hw. unfold feed_check. destruct (wa_pool w !! _) as [e|]; [|done]. destruct (_ =? _); [|done]. destruct Hw. by split. Qed.

(** ** Registering *)

Lemma first_free_spec pool : forall k, match first_free pool k with
  | Some j => exists i e, j = (k + i)%nat /\ pool !! i = Some e /\ te_in_use e = false
  | None => Forall (fun e => te_in_use e = true) pool
  end.
Proof.
  induction pool as [|e pool IH]; intros k; cbn [first_free]; [constructor|]. destruct (te_in_use e) eqn:E; cbn [negb].
  - specialize (IH (S k)). destruct (first_free pool (S k)) as [j|]; [|by constructor]. destruct IH as (i & x & -> & H1 & H2). exists (S i), x. split_and!; [lia|done|done].
  - exists 0%nat, e. split_and!; [lia|done|done].
Qed.
(** A free slot is given to a registration of its generation. *)
Definition fresh_slot (i : nat) (e : task_entry) (w w' : watch) : Prop :=
  wa_pool w' = <[i := e]> (wa_pool w) /\ wa_check w' = wa_check w /\ wa_log w' = wa_log w.
Lemma slot_taken_inv str T n i e0 e w w' r name : watch_inv str T n w -> wa_pool w !! i = Some e0 -> te_in_use e0 = false -> te_generation e = te_generation e0 -> te_in_use e = true ->
  te_miss_count e = 0 -> te_miss_active e = false -> fresh_slot i e w w' -> wa_registry w' = r -> registry_wf str false r -> rg_frozen r = false -> live r = live (wa_registry w) ++ [(name, entry_addr i)] ->
  watch_inv str (T ++ [mk_token (u16 (Z.of_nat i)) (te_generation e)]) n w'.
Proof.
  intros [I1 I2 I3 I4 I5 I6 I7 I8 I9 I10 I11 I12 I13 I14] Hi Hu0 Hg Hu Hm Ha (Hp & Hc & Hl) <- Hwf Hfr Hlive. pose proof (lookup_lt_Some _ _ _ Hi) as Hlt.
  assert (Hat : forall j x, wa_pool w' !! j = Some x -> (j = i /\ x = e) \/ (j <> i /\ wa_pool w !! j = Some x)).
  { intros j x. rewrite Hp. destruct (decide (j = i)) as [->|Hj]; [rewrite list_lookup_insert_eq by done; intros [= ->]; by left|rewrite list_lookup_insert_ne by done; by right]. }
  assert (Hnew : forall j x, wa_pool w !! j = Some x -> j <> i -> wa_pool w' !! j = Some x) by (intros j x Hx Hj; by rewrite Hp, list_lookup_insert_ne).
  assert (Hi' : wa_pool w' !! i = Some e) by (by rewrite Hp, list_lookup_insert_eq).
  assert (Hno : forall p, p ∈ live (wa_registry w) -> p.2 <> entry_addr i).
  { intros p Hin Heq. destruct (I4 p Hin) as (j & x & H1 & H2 & H3). rewrite H1 in Heq. apply (f_equal entry_index) in Heq. rewrite !entry_index_addr in Heq. subst j. congruence. }
  assert (Hrows : rows_of w' = rows_of w) by (unfold rows_of; by rewrite Hc). assert (Hev : evaluated w' = evaluated w) by (unfold evaluated; by rewrite Hc).
  split; rewrite ?Hrows, ?Hl; try done.
  - rewrite Hlive, fmap_app. apply NoDup_app. split_and!; [done| |by apply NoDup_singleton]. intros a (p & -> & Hin)%list_elem_of_fmap Ha'%list_elem_of_singleton. by apply (Hno p Hin).
  - intros p. rewrite Hlive, elem_of_app. intros [Hin| ->%list_elem_of_singleton]; [|by exists i, e]. pose proof (Hno p Hin) as Hne. destruct (I4 p Hin) as (j & x & H1 & H2 & H3).
    exists j, x. split_and!; try done. apply Hnew; [done|]. intros ->. congruence.
  - intros j x [[-> ->]|[_ Hx]]%Hat; [rewrite Hg; by apply (I5 i)|by apply (I5 j)].
  - intros ev x Hin [[Hj ->]|[_ Hx]]%Hat; [rewrite Hg; apply I6; [done|by rewrite Hj]|by apply I6].
  - intros j x [[-> ->]|[_ Hx]]%Hat Hxu; [congruence|by apply (I7 j)].
  - intros rr Hr. destruct (I10 rr Hr) as (H1 & H2 & x & H3 & H4 & H5). rewrite Hev. split_and!; try done. destruct (decide (sr_index rr = i)) as [Hj|Hj].
    + exists e. rewrite Hj. split_and!; [done| |done]. rewrite Hj, Hi in H3. injection H3 as <-. by rewrite Hg.
    + exists x. split_and!; try done. by apply Hnew.
  - intros j x Hjx Hxu. destruct (Hat j x Hjx) as [[-> ->]|[_ Hx]].
    + left. unfold agrees. by rewrite Hg, (I7 i e0 Hi Hu0), Hm, Ha.
    + destruct (I11 j x Hx Hxu) as [Hag|Hwt]; [by left|right]. unfold waits in *. by rewrite Hev, Hrows.
  - by rewrite Hp, length_insert.
  - assert (E16 : u16 (Z.of_nat i) = Z.of_nat i) by (apply Z.mod_small; lia). intros t [Ht| ->%list_elem_of_singleton]%elem_of_app.
    + destruct (I13 t Ht) as (H0 & x & H3 & H4 & H5). split; [done|]. destruct (decide (Z.to_nat (tk_index t) = i)) as [Hj|Hj]; [|exists x; split_and!; try done; by apply Hnew].
      exists e. rewrite Hj. rewrite Hj, Hi in H3. injection H3 as <-. by rewrite Hg.
    + cbn [tk_index tk_generation]. rewrite E16, Nat2Z.id. split; [lia|]. by exists e.
  - apply NoDup_app. split_and!; [done| |by apply NoDup_singleton]. intros t Ht ->%list_elem_of_singleton. destruct (I13 _ Ht) as (_ & x & H3 & _ & H5). cbn [tk_index tk_generation] in *.
    assert (E16 : u16 (Z.of_nat i) = Z.of_nat i) by (apply Z.mod_small; lia). rewrite E16, Nat2Z.id, Hi in H3. injection H3 as <-. specialize (H5 Hg). congruence.
Qed.
(** A slot that is left unused may be written; its generation may grow if it is
    out of the registry. *)
Lemma vacant_inv str T n m i e0 e w w' : watch_inv str T n w -> n <= m -> wa_pool w !! i = Some e0 -> te_in_use e = false -> fresh_slot i e w w' ->
  (te_in_use e0 = false /\ te_generation e = te_generation e0 \/ te_generation e = te_generation e0 + 1 /\ te_generation e <= 1 + m) ->
  registry_wf str false (wa_registry w') -> rg_frozen (wa_registry w') = false -> NoDup (live (wa_registry w')).*2 ->
  (forall p, p ∈ live (wa_registry w') -> p ∈ live (wa_registry w) /\ p.2 <> entry_addr i) -> watch_inv str T m w'.
Proof.
  intros [I1 I2 I3 I4 I5 I6 I7 I8 I9 I10 I11 I12 I13 I14] Hm Hi Hu (Hp & Hc & Hl) Hg Hwf Hfr Hnd Hlive. pose proof (lookup_lt_Some _ _ _ Hi) as Hlt. pose proof (I5 i e0 Hi) as Hb.
  assert (Hat : forall j x, wa_pool w' !! j = Some x -> (j = i /\ x = e) \/ (j <> i /\ wa_pool w !! j = Some x)).
  { intros j x. rewrite Hp. destruct (decide (j = i)) as [->|Hj]; [rewrite list_lookup_insert_eq by done; intros [= ->]; by left|rewrite list_lookup_insert_ne by done; by right]. }
  assert (Hnew : forall j x, wa_pool w !! j = Some x -> j <> i -> wa_pool w' !! j = Some x) by (intros j x Hx Hj; by rewrite Hp, list_lookup_insert_ne).
  assert (Hi' : wa_pool w' !! i = Some e) by (by rewrite Hp, list_lookup_insert_eq).
  assert (Hrows : rows_of w' = rows_of w) by (unfold rows_of; by rewrite Hc). assert (Hev : evaluated w' = evaluated w) by (unfold evaluated; by rewrite Hc).
  split; rewrite ?Hrows, ?Hl; try done.
  - intros p Hin. destruct (Hlive p Hin) as [Hin' Hne]. destruct (I4 p Hin') as (j & x & H1 & H2 & H3). exists j, x. split_and!; try done. apply Hnew; [done|]. intros ->. congruence.
  - intros j x [[-> ->]|[_ Hx]]%Hat; [lia|specialize (I5 j x Hx); lia].
  - intros ev x Hin [[Hj ->]|[_ Hx]]%Hat; [|by apply I6]. assert (ev_generation ev <= te_generation e0) by (apply I6; [done|by rewrite Hj]). lia.
  - intros j x [[-> ->]|[_ Hx]]%Hat Hxu; [|by apply (I7 j)]. destruct Hg as [[Hu0 ->]|[Hgr _]]; [by apply (I7 i)|]. unfold overdues. rewrite evs_none; [done|].
    intros ev Hin Hj Hge. assert (ev_generation ev <= te_generation e0) by (apply I6; [done|by rewrite Hj]). lia.
  - intros rr Hr. destruct (I10 rr Hr) as (H1 & H2 & x & H3 & H4 & H5). rewrite Hev. split_and!; try done. destruct (decide (sr_index rr = i)) as [Hj|Hj].
    + exists e. rewrite Hj. rewrite Hj, Hi in H3. injection H3 as <-. destruct Hg as [[Hu0 Hge]|[Hge _]]; (split_and!; [done|lia|intros Heq]); [|lia]. rewrite Hge in Heq. specialize (H5 Heq). congruence.
    + exists x. split_and!; try done. by apply Hnew.
  - intros j x Hjx Hxu. destruct (Hat j x Hjx) as [[-> ->]|[_ Hx]]; [congruence|].
    destruct (I11 j x Hx Hxu) as [Hag|Hwt]; [by left|right]. unfold waits in *. by rewrite Hev, Hrows.
  - by rewrite Hp, length_insert.
  - intros t Ht. destruct (I13 t Ht) as (H0 & x & H3 & H4 & H5). split; [done|]. destruct (decide (Z.to_nat (tk_index t) = i)) as [Hj|Hj]; [|exists x; split_and!; try done; by apply Hnew].
    exists e. rewrite Hj. rewrite Hj, Hi in H3. injection H3 as <-. destruct Hg as [[Hu0 Hge]|[Hge _]]; (split_and!; [done|lia|intros Heq]); [|lia]. rewrite Hge in Heq. specialize (H5 Heq). congruence.
Qed.
Lemma same_parts str T n w w' : watch_inv str T n w -> wa_pool w' = wa_pool w -> wa_registry w' = wa_registry w -> wa_check w' = wa_check w -> wa_log w' = wa_log w -> watch_inv str T n w'.
Proof.
  intros [I1 I2 I3 I4 I5 I6 I7 I8 I9 I10 I11 I12 I13 I14] Hp Hr Hc Hl. assert (Hrows : rows_of w' = rows_of w) by (unfold rows_of; by rewrite Hc). assert (Hev : evaluated w' = evaluated w) by (unfold evaluated; by rewrite Hc).
  assert (Hs : forall i g, holds_slot w i g -> holds_slot w' i g) by (intros i g; unfold holds_slot; by rewrite Hp).
  split; rewrite ?Hrows, ?Hl, ?Hp, ?Hr, ?Hev; try done.
  - intros r Hin. destruct (I10 r Hin) as (H1 & H2 & H3). split_and!; [done|done|by apply Hs].
  - intros i e He Hu. destruct (I11 i e He Hu) as [H|H]; [by left|right]. unfold waits in *. by rewrite Hev, Hrows.
  - intros t Ht. destruct (I13 t Ht) as [H0 H1]. split; [done|by apply Hs].
Qed.
Lemma alter_insert {A} (f : A -> A) (i : nat) (l : list A) x : l !! i = Some x -> alter f i l = <[i := f x]> l.
Proof.
  intros Hx. apply list_eq. intros j. destruct (decide (j = i)) as [->|Hj].
  - rewrite list_lookup_alter_eq, list_lookup_insert_eq by (by eapply lookup_lt_Some). by rewrite Hx.
  - by rewrite list_lookup_alter_ne, list_lookup_insert_ne.
Qed.
Lemma register_inv str T n name budget handle opts hw w : watch_inv str T n w -> 
  let '(_, t, w') := bb_task_registry_register str name budget handle opts hw w in watch_inv str (T ++ match t with Some t => [t] | None => [] end) n w'.
Proof.
  intros Hw. unfold bb_task_registry_register. destruct (Z.eqb_spec name 0) as [|Hname]; [cbn; by rewrite app_nil_r|]. unfold pool_alloc_locked. pose proof (first_free_spec (wa_pool w) 0) as Hf.
  destruct (first_free (wa_pool w) 0) as [j|]; [|cbn; rewrite app_nil_r; by apply (same_parts str T n w)]. destruct Hf as (i & e & -> & Hi & Hu). cbn [Nat.add]. cbv zeta.
  set (timeout := match opts with Some (_, timeout) => timeout | None => 0 end). set (wdt := match opts with Some (true, _) => _ | _ => false end).
  cbn [wa_pool with_pool with_counters wa_registry]. pose proof (lookup_lt_Some _ _ _ Hi) as Hlt.
  rewrite (alter_insert taken i (wa_pool w) e Hi). rewrite (alter_insert (registered handle budget timeout) i _ (taken e)) by (by rewrite list_lookup_insert_eq). rewrite list_insert_insert_eq.
  rewrite (alter_insert (subscribed wdt) i _ (registered handle budget timeout (taken e))) by (by rewrite list_lookup_insert_eq). rewrite list_insert_insert_eq. set (e1 := subscribed wdt _).
  pose proof (rg_register_spec str BB_OK name (entry_addr i) false (wa_registry w) (wi_registry _ _ _ _ Hw)) as Hr. unfold bb_registry_register.
  rewrite (proj2 (Z.eqb_neq name 0) Hname), (proj2 (Z.eqb_neq _ 0) (entry_addr_nz i)). cbn [orb].
  destruct (registry_register_common str BB_OK name (entry_addr i) false (wa_registry w)) as [err r]. cbn [fst snd] in Hr. destruct Hr as (R1 & R2 & R3 & R4). rewrite (wi_frozen _ _ _ _ Hw) in R3.
  destruct (_ && _) in R4.
  - destruct R4 as [-> Hlive]. cbn [is_ok wa_pool with_registry with_pool]. cbv zeta. rewrite list_lookup_insert_eq by done.
    destruct (negb (handle =? 0)); apply (slot_taken_inv str T n i e e1 w _ r name); try done.
  - destruct R4 as [Herr ->]. destruct (is_ok err) eqn:Ek; [by destruct err|]. rewrite app_nil_r. cbn [wa_pool with_registry with_pool]. rewrite (alter_insert _ i _ e1) by (by rewrite list_lookup_insert_eq). rewrite list_insert_insert_eq.
    apply (vacant_inv str T n n i e (freed (subscribed false e1)) w); try done; [by left|exact (wi_values _ _ _ _ Hw)|].
    intros p Hin. split; [done|]. intros Heq. destruct (wi_live _ _ _ _ Hw p Hin) as (k & x & H1 & H2 & H3). rewrite H1 in Heq. apply (f_equal entry_index) in Heq. rewrite !entry_index_addr in Heq. subst k. congruence.
Qed.
Lemma deregister_inv str T n handle w : watch_inv str T n w -> n < 65534 -> watch_inv str T (n + 1) (bb_task_registry_deregister str handle w).2.
Proof.
  intros Hw Hn. unfold bb_task_registry_deregister. destruct (handle =? 0); [by apply (inv_more str T n); [|lia]|]. unfold find_by_handle.
  destruct (find _ _) as [[name value]|] eqn:Ef; [|by apply (inv_more str T n); [|lia]]. apply find_some in Ef as [Hin%list_elem_of_In _].
  change (registry_snapshot BB_OK (wa_registry w)) with (live (wa_registry w)) in Hin. destruct (wi_live _ _ _ _ Hw _ Hin) as (i & e & Hv & Hi & Hu). cbn [snd] in Hv. subst value. rewrite entry_index_addr.
  unfold bb_registry_deregister. destruct (name =? 0); [by apply (inv_more str T n); [apply (same_parts str T n w)|lia]|].
  pose proof (rg_deregister_spec str BB_OK name false (wa_registry w) (wi_registry _ _ _ _ Hw)) as Hr. destruct (registry_deregister_common str BB_OK name false (wa_registry w)) as [err r].
  cbn [fst snd is_ok andb] in Hr. rewrite (wi_frozen _ _ _ _ Hw) in Hr. destruct Hr as (R1 & R2 & R3 & -> & Hlive).
  replace (existsb (has_key str false name) (live (wa_registry w))) with true.
  2:{ symmetry. apply existsb_exists. exists (name, entry_addr i). split; [by apply list_elem_of_In|]. unfold has_key, same_key. by apply bool_decide_eq_true. }
  cbn [is_ok snd wa_pool with_registry with_pool]. rewrite (alter_insert _ i (wa_pool w) e Hi). set (e' := freed _). pose proof (wi_generation _ _ _ _ Hw i e Hi) as Hg.
  assert (Hge : te_generation e' = te_generation e + 1) by (apply Z.mod_small; lia).
  apply (vacant_inv str T n (n + 1) i e e' w); try done; [lia|right; lia| |]; cbn [wa_registry with_task_base with_pool with_registry]; rewrite Hlive; unfold remove_key.
  - eapply sublist_NoDup; [exact (wi_values _ _ _ _ Hw)|]. apply fmap_sublist, sublist_filter.
  - intros p [Hk Hp]%list_elem_of_filter. split; [done|]. intros Heq. pose proof (wi_values _ _ _ _ Hw) as Hnd.
    assert (p = (name, entry_addr i)) as ->.
    { apply list_elem_of_lookup in Hin as [a Ha]. apply list_elem_of_lookup in Hp as [b Hb]. assert (a = b) as ->; [|congruence].
      eapply (NoDup_lookup _ a b (entry_addr i) Hnd); rewrite list_lookup_fmap; [by rewrite Ha|by rewrite Hb, <- Heq]. }
    unfold has_key, same_key in Hk. cbn [fst] in Hk. by apply bool_decide_eq_false in Hk.
Qed.

(** ** The check *)

Lemma snapshot_spec str T n w : watch_inv str T n w -> wa_check w = None ->
  let rows := fold_left (sw_wdt_snapshot str (wa_pool w)) (registry_snapshot BB_OK (wa_registry w)) [] in
  NoDup (map sr_index rows) /\ forall r, r ∈ rows -> sr_dirty r = false /\ exists e, wa_pool w !! sr_index r = Some e /\ te_in_use e = true /\ sr_generation r = te_generation e /\ sr_miss_count r = te_miss_count e /\ sr_miss_active r = te_miss_active e.
Proof.
  intros Hw _. change (registry_snapshot BB_OK (wa_registry w)) with (live (wa_registry w)). cbv zeta. pose proof (wi_live _ _ _ _ Hw) as Hl. pose proof (wi_values _ _ _ _ Hw) as Hnd.
  set (good := fun r => sr_dirty r = false /\ exists e, wa_pool w !! sr_index r = Some e /\ te_in_use e = true /\ sr_generation r = te_generation e /\ sr_miss_count r = te_miss_count e /\ sr_miss_active r = te_miss_active e).
  assert (H : forall l acc, (forall p, p ∈ l -> p ∈ live (wa_registry w)) -> NoDup l.*2 -> NoDup (map sr_index acc) -> (forall r, r ∈ acc -> good r /\ entry_addr (sr_index r) ∉ l.*2) ->
    let rows := fold_left (sw_wdt_snapshot str (wa_pool w)) l acc in NoDup (map sr_index rows) /\ forall r, r ∈ rows -> good r).
  { intros l. induction l as [|p l IH]; intros acc Hin Hn Ha Hr; [split; [done|]; intros r Hx; by apply Hr|]. cbn [fold_left]. apply NoDup_cons in Hn as [Hp Hn].
    assert (Hkeep : forall r, r ∈ acc -> good r /\ entry_addr (sr_index r) ∉ l.*2) by (intros r Hx; destruct (Hr r Hx) as [H1 H2]; split; [done|]; intros H3; apply H2; by right).
    assert (Hsub : forall q, q ∈ l -> q ∈ live (wa_registry w)) by (intros q Hq; apply Hin; by right).
    destruct (Hl p (Hin p ltac:(by left))) as (i & e & Hv & Hi & Hu). 
    assert (Hcase : sw_wdt_snapshot str (wa_pool w) acc p = acc \/ sw_wdt_snapshot str (wa_pool w) acc p =
      acc ++ [mk_swrow i (te_generation e) (copy_name (str p.1)) (te_handle e) (te_sw_wdt_timeout_ms e) (te_last_feed_ms e) (te_miss_count e) (te_last_miss_ms e) (te_miss_active e) false]).
    { unfold sw_wdt_snapshot. rewrite Hv, entry_index_addr, Hi. destruct (length (wa_pool w) <=? length acc)%nat; [by left|]. destruct (te_sw_wdt_timeout_ms e =? 0); [by left|by right]. }
    destruct Hcase as [-> | ->]; [by apply IH|]. apply IH; try done.
    - rewrite map_app. apply NoDup_app. split_and!; [done| |by apply NoDup_singleton]. intros j (r & <- & Hx%list_elem_of_In)%list_elem_of_In%in_map_iff Hj%list_elem_of_singleton.
      cbn in Hj. destruct (Hr r Hx) as [_ H2]. apply H2. rewrite Hj, fmap_cons, Hv. by left.
    - intros r [Hx| ->%list_elem_of_singleton]%elem_of_app; [by apply Hkeep|]. cbn [sr_index sr_dirty]. split; [|by rewrite <- Hv]. split; [done|]. by exists e. }
  apply H; try done; [constructor|]. intros r Hx. by apply elem_of_nil in Hx.
Qed.
Lemma check_snapshot_inv str T n w : watch_inv str T n w -> watch_inv str T n (check_snapshot str w).
Proof.
  intros Hw. unfold check_snapshot. destruct (wa_check w) as [c|] eqn:Ec; [done|]. pose proof (snapshot_spec str T n w Hw Ec) as [Hnd Hrows]. set (rows := fold_left _ _ _) in *. clearbody rows.
  destruct Hw as [I1 I2 I3 I4 I5 I6 I7 I8 I9 I10 I11 I12 I13 I14].
  assert (Hag : forall i e, wa_pool w !! i = Some e -> te_in_use e = true -> agrees (wa_log w) i e).
  { intros i e He Hu. destruct (I11 i e He Hu) as [H|[_ (r & Hr & _)]]; [done|]. unfold rows_of in Hr. rewrite Ec in Hr. by apply elem_of_nil in Hr. }
  split; cbn [wa_registry wa_pool wa_log with_check]; try done.
  - intros r Hr. destruct (Hrows r Hr) as (H1 & e & H2 & H3 & H4 & H5 & H6). split_and!; [|done|exists e; split_and!; [done|lia|done]].
    unfold row_agrees. rewrite H4, H5, H6. exact (Hag _ e H2 H3).
  - intros i e He Hu. left. by apply Hag.
Qed.
Section Evaluate.
Context (handler : bool) (now_ms : Z).
Abbreviation eval := (sw_wdt_eval handler now_ms).
Abbreviation evals rows := (map snd (map eval rows)).

Lemma eval_keys r : sr_index (eval r).1 = sr_index r /\ sr_generation (eval r).1 = sr_generation r /\ ev_index (eval r).2 = sr_index r /\ ev_generation (eval r).2 = sr_generation r.
Proof. unfold sw_wdt_eval. destruct (_ && _); [done|]. by destruct (_ && _). Qed.
Lemma eval_outcome r : let o := overdue_by now_ms r in
  ev_overdue (eval r).2 = o /\ bool_decide (is_Some (ev_miss (eval r).2)) = o && negb (sr_miss_active r) /\
  sr_miss_count (eval r).1 = (if o && negb (sr_miss_active r) then u32 (sr_miss_count r + 1) else sr_miss_count r) /\ sr_miss_active (eval r).1 = o /\
  (sr_dirty (eval r).1 = false -> sr_miss_count (eval r).1 = sr_miss_count r /\ sr_miss_active (eval r).1 = sr_miss_active r).
Proof. unfold sw_wdt_eval. cbv zeta. destruct (overdue_by now_ms r) eqn:Eo, (sr_miss_active r) eqn:Ea; cbn; rewrite ?Ea; split_and!; done. Qed.
Lemma evals_none i g rows : ~ Exists (fun r => sr_index r = i /\ sr_generation r = g) rows -> evs i g (evals rows) = [].
Proof.
  intros H. apply evs_none. intros ev (x & <- & (r & <- & Hr)%in_map_iff)%list_elem_of_In%in_map_iff Hi Hg. destruct (eval_keys r) as (_ & _ & Ei & Eg).
  apply H, Exists_exists. exists r. split; [by apply list_elem_of_In|]. split; congruence.
Qed.
Lemma evals_one r rows : NoDup (map sr_index rows) -> r ∈ rows -> evs (sr_index r) (sr_generation r) (evals rows) = [(eval r).2].
Proof.
  induction rows as [|x rows IH]; intros Hn Hr; [by apply elem_of_nil in Hr|]. cbn [map] in *. apply NoDup_cons in Hn as [Hx Hn]. unfold evs. rewrite filter_cons. destruct (eval_keys x) as (_ & _ & Ei & Eg).
  apply elem_of_cons in Hr as [->|Hr].
  - rewrite decide_True by done. f_equal. apply evals_none. intros (y & Hy & [Hi _])%Exists_exists. apply Hx. rewrite <- Hi. apply list_elem_of_In, in_map. by apply list_elem_of_In.
  - rewrite decide_False; [by apply IH|]. intros [Hi _]. apply Hx. rewrite <- Ei, Hi. apply list_elem_of_In, in_map. by apply list_elem_of_In.
Qed.
Lemma overdues_one r rows log : NoDup (map sr_index rows) -> r ∈ rows ->
  overdues (sr_index r) (sr_generation r) (log ++ evals rows) = overdues (sr_index r) (sr_generation r) log ++ [overdue_by now_ms r].
Proof. intros Hn Hr. rewrite overdues_app. unfold overdues at 2. rewrite evals_one by done. cbn [map]. by destruct (eval_outcome r) as [-> _]. Qed.
Lemma overdues_none i g rows log : ~ Exists (fun r => sr_index r = i /\ sr_generation r = g) rows -> overdues i g (log ++ evals rows) = overdues i g log.
Proof. intros H. rewrite overdues_app. unfold overdues at 2. rewrite evals_none by done. apply app_nil_r. Qed.
Lemma eval_agrees log rows r : NoDup (map sr_index rows) -> r ∈ rows -> row_agrees log r -> row_agrees (log ++ evals rows) (eval r).1.
Proof.
  intros Hn Hr [H1 H2]. unfold row_agrees. destruct (eval_keys r) as (-> & -> & _). rewrite overdues_one by done. destruct (eval_outcome r) as (_ & _ & -> & -> & _).
  unfold is_overdue. by rewrite missed_snoc, last_snoc, H1, H2.
Qed.
Lemma check_evaluate_inv str T n w : watch_inv str T n w -> watch_inv str T n (match wa_check w with
  | Some (Snapshotted, rows) => let es := map eval rows in with_check (Some (Evaluated, map fst es)) (wa_log w ++ map snd es) w | _ => w end).
Proof.
  intros Hw. destruct (wa_check w) as [[[] rows]|] eqn:Ec; [|done|done]. cbv zeta. destruct Hw as [I1 I2 I3 I4 I5 I6 I7 I8 I9 I10 I11 I12 I13 I14].
  assert (Erows : rows_of w = rows) by (unfold rows_of; by rewrite Ec). assert (Eev : evaluated w = false) by (unfold evaluated; by rewrite Ec). rewrite Erows in *.
  assert (Hag : forall i e, wa_pool w !! i = Some e -> te_in_use e = true -> agrees (wa_log w) i e) by (intros i e He Hu; destruct (I11 i e He Hu) as [H|[H _]]; [done|congruence]).
  split; cbn [wa_registry wa_pool wa_log with_check rows_of evaluated wa_check]; try done.
  - intros ev e [Hin|Hin]%elem_of_app He; [by apply I6|]. apply list_elem_of_In, in_map_iff in Hin as (x & <- & (r & <- & Hr%list_elem_of_In)%in_map_iff).
    destruct (eval_keys r) as (_ & _ & Ei & ->). rewrite Ei in He. destruct (I10 r Hr) as (_ & _ & e' & H1 & H2 & _). rewrite He in H1. by injection H1 as ->.
  - intros i e He Hu. rewrite overdues_none; [by apply I7|]. intros (r & Hr & [Hi Hg])%Exists_exists. destruct (I10 r Hr) as (_ & _ & e' & H1 & _ & H3).
    rewrite Hi, He in H1. injection H1 as <-. specialize (H3 Hg). congruence.
  - intros i g. destruct (decide (Exists (fun r => sr_index r = i /\ sr_generation r = g) rows)) as [(r & Hr & [<- <-])%Exists_exists|Hno].
    + rewrite overdues_one, reports_app by done. unfold reports at 2. rewrite evals_one by done. cbn [map]. destruct (eval_outcome r) as (_ & -> & _). rewrite I8, episodes_snoc. do 4 f_equal. by destruct (I10 r Hr) as [[_ ->] _].
    + rewrite overdues_none, reports_app by done. unfold reports at 2. rewrite evals_none by done. cbn [map]. by rewrite app_nil_r.
  - replace (map sr_index (map fst (map eval rows))) with (map sr_index rows); [done|]. rewrite !map_map. apply map_ext. intros r. by destruct (eval_keys r) as [-> _].
  - intros r' (x & <- & (r & <- & Hr%list_elem_of_In)%in_map_iff)%list_elem_of_In%in_map_iff. destruct (I10 r Hr) as (H1 & _ & H3). split; [by apply eval_agrees|]. split; [done|]. by destruct (eval_keys r) as (-> & -> & _).
  - intros i e He Hu. pose proof (Hag i e He Hu) as [H1 H2]. destruct (decide (Exists (fun r => sr_index r = i /\ sr_generation r = te_generation e) rows)) as [(r & Hr & [Hi Hg])%Exists_exists|Hno].
    + destruct (sr_dirty (eval r).1) eqn:Ed.
      * right. split; [done|]. exists (eval r).1. destruct (eval_keys r) as (-> & -> & _). split_and!; try done. apply list_elem_of_In. rewrite map_map. by apply (in_map (fun x => (eval x).1)), list_elem_of_In.
      * left. destruct (I10 r Hr) as (Hra & _). pose proof (eval_agrees _ _ _ I9 Hr Hra) as [H3 H4]. destruct Hra as [H5 H6]. destruct (eval_outcome r) as (_ & _ & _ & _ & Hk). destruct (Hk Ed) as [Hk1 Hk2].
        destruct (eval_keys r) as (Ei & Eg & _). rewrite Ei, Eg, Hi, Hg in H3, H4. rewrite Hi, Hg in H5, H6. split; congruence.
    + left. unfold agrees. rewrite overdues_none by done. by split.
Qed.
End Evaluate.

(** What the commit writes. *)
Definition written_by (rows : list sw_wdt_row) (i : nat) (e : task_entry) : task_entry :=
  match find (fun r => (sr_index r =? i)%nat) rows with
  | Some r => if sr_dirty r && (te_generation e =? sr_generation r) then committed r e else e
  | None => e
  end.
Lemma sw_commit_spec rows : NoDup (map sr_index rows) -> forall pool i, fold_left sw_wdt_commit rows pool !! i = written_by rows i <$> pool !! i.
Proof.
  induction rows as [|r rows IH]; intros Hn pool i.
  - unfold written_by. cbn. by destruct (pool !! i).
  - cbn [map fold_left] in *. apply NoDup_cons in Hn as [Hr Hn]. rewrite IH by done. unfold written_by. cbn [find].
    assert (Hone : sw_wdt_commit pool r !! i = (fun e => if (sr_index r =? i)%nat && sr_dirty r && (te_generation e =? sr_generation r) then committed r e else e) <$> pool !! i).
    { unfold sw_wdt_commit. destruct (sr_dirty r) eqn:Ed; cbn [negb].
      2:{ rewrite andb_false_r. cbn [andb]. by destruct (pool !! i). }
      rewrite andb_true_r. destruct (Nat.eqb_spec (sr_index r) i) as [->|Hi]; cbn [andb].
      - destruct (pool !! i) as [e|] eqn:Ee; [|by rewrite Ee]. destruct (te_generation e =? sr_generation r) eqn:Eg; [by rewrite list_lookup_alter_eq, Ee; cbn; rewrite Eg|by rewrite Ee; cbn; rewrite Eg].
      - destruct (pool !! sr_index r) as [e|]; [destruct (te_generation e =? sr_generation r)|]; rewrite ?list_lookup_alter_ne by done; by destruct (pool !! i). }
    rewrite Hone. destruct (Nat.eqb_spec (sr_index r) i) as [Hi|Hi]; cbn [andb].
    + destruct (find (fun x => (sr_index x =? i)%nat) rows) as [x|] eqn:Ef.
      * apply find_some in Ef as [Hx Hxi]. apply Nat.eqb_eq in Hxi. exfalso. apply Hr. rewrite Hi, <- Hxi. by apply list_elem_of_In, in_map.
      * by destruct (pool !! i).
    + by destruct (pool !! i).
Qed.
Lemma written_keeps rows i e : te_in_use (written_by rows i e) = te_in_use e /\ te_generation (written_by rows i e) = te_generation e.
Proof. unfold written_by. destruct (find _ rows) as [r|]; [|done]. by destruct (sr_dirty r && _). Qed.
Lemma find_row i rows r : NoDup (map sr_index rows) -> r ∈ rows -> sr_index r = i -> find (fun r => (sr_index r =? i)%nat) rows = Some r.
Proof.
  induction rows as [|x rows IH]; intros Hn Hr Hi; [by apply elem_of_nil in Hr|]. cbn [find map] in *. apply NoDup_cons in Hn as [Hx Hn]. apply elem_of_cons in Hr as [->|Hr]; [by rewrite Hi, Nat.eqb_refl|].
  destruct (Nat.eqb_spec (sr_index x) i) as [He|_]; [|by apply IH]. exfalso. apply Hx. rewrite He, <- Hi. apply list_elem_of_In, in_map. by apply list_elem_of_In.
Qed.
Lemma check_commit_inv str T n w : watch_inv str T n w -> watch_inv str T n (check_commit w).
Proof.
  intros Hw. unfold check_commit. destruct (wa_check w) as [[[] rows]|] eqn:Ec; [done| |done]. destruct Hw as [I1 I2 I3 I4 I5 I6 I7 I8 I9 I10 I11 I12 I13 I14].
  assert (Erows : rows_of w = rows) by (unfold rows_of; by rewrite Ec). rewrite Erows in *.
  assert (Hold : forall i e', fold_left sw_wdt_commit rows (wa_pool w) !! i = Some e' -> exists e, wa_pool w !! i = Some e /\ e' = written_by rows i e).
  { intros i e'. rewrite sw_commit_spec by done. intros (e & He & ->)%fmap_Some. by exists e. }
  assert (Hnew : forall i e, wa_pool w !! i = Some e -> fold_left sw_wdt_commit rows (wa_pool w) !! i = Some (written_by rows i e)) by (intros i e He; by rewrite sw_commit_spec, He).
  split; cbn [wa_registry wa_pool wa_log with_check with_pool rows_of wa_check]; try done.
  - intros p Hp. destruct (I4 p Hp) as (i & e & H1 & H2 & H3). exists i, (written_by rows i e). split_and!; [done|by apply Hnew|]. by destruct (written_keeps rows i e) as [-> _].
  - intros i x Hx. destruct (Hold i x Hx) as (e & He & ->). destruct (written_keeps rows i e) as [_ ->]. by apply (I5 i).
  - intros ev x Hev Hx. destruct (Hold _ x Hx) as (e & He & ->). destruct (written_keeps rows (ev_index ev) e) as [_ ->]. by apply I6.
  - intros i x Hx. destruct (Hold i x Hx) as (e & He & ->). destruct (written_keeps rows i e) as [-> ->]. by apply I7.
  - constructor.
  - intros r Hr. by apply elem_of_nil in Hr.
  - intros i x Hx Hu. left. destruct (Hold i x Hx) as (e & He & ->). destruct (written_keeps rows i e) as [Eu Eg]. rewrite Eu in Hu. unfold agrees. rewrite Eg. unfold written_by.
    destruct (find _ rows) as [r|] eqn:Ef.
    + apply find_some in Ef as [Hr%list_elem_of_In Hi%Nat.eqb_eq]. destruct (sr_dirty r && (te_generation e =? sr_generation r)) eqn:Ed.
      * apply andb_true_iff in Ed as [_ Eg'%Z.eqb_eq]. destruct (I10 r Hr) as [[H1 H2] _]. cbn [te_miss_count te_miss_active committed]. by rewrite H1, H2, Hi, Eg'.
      * destruct (I11 i e He Hu) as [H|(_ & r' & Hr' & Hi' & Hg' & Hd')]; [exact H|]. rewrite Erows in Hr'. pose proof (find_row i rows r I9 Hr Hi) as F1. pose proof (find_row i rows r' I9 Hr' Hi') as F2.
        rewrite F1 in F2. injection F2 as ->. rewrite Hd', Hg', Z.eqb_refl in Ed. done.
    + destruct (I11 i e He Hu) as [H|(_ & r' & Hr' & Hi' & _)]; [exact H|]. rewrite Erows in Hr'. by rewrite (find_row i rows r' I9 Hr' Hi') in Ef.
  - assert (Hlen : length (fold_left sw_wdt_commit rows (wa_pool w)) = length (wa_pool w)); [|by rewrite Hlen].
    clear. generalize (wa_pool w). induction rows as [|r rows IH]; intros pool; [done|]. cbn [fold_left]. rewrite IH. unfold sw_wdt_commit. destruct (negb _); [done|]. destruct (pool !! _) as [e|]; [|done]. destruct (_ =? _); [|done]. apply length_alter.
  - intros t Ht. destruct (I13 t Ht) as (H0 & e & H3 & H4 & H5). split; [done|]. exists (written_by rows (Z.to_nat (tk_index t)) e). destruct (written_keeps rows (Z.to_nat (tk_index t)) e) as [-> ->]. split_and!; [by apply Hnew|done|done].
Qed.

(** * Any sequence of steps *)

(** The tokens the registrations among the calls were given. *)
Fixpoint tokens (str : Z -> list byte) (calls : list watch_call) (w : watch) : list token :=
  match calls with
  | [] => []
  | call :: calls =>
      match call with
      | WRegister name budget handle opts hw => match (bb_task_registry_register str name budget handle opts hw w).1.2 with Some t => [t] | None => [] end
      | _ => []
      end ++ tokens str calls (watch_step str w call)
  end.
Lemma watch_step_inv str T n w call : watch_inv str T n w -> n < 65534 ->
  watch_inv str (T ++ match call with WRegister name budget handle opts hw => match (bb_task_registry_register str name budget handle opts hw w).1.2 with Some t => [t] | None => [] end | _ => [] end) (n + 1) (watch_step str w call).
Proof.
  intros Hw Hn. destruct call as [name budget handle opts hw|handle|tid t|tid now|h| |now|]; cbn [watch_step]; rewrite ?app_nil_r.
  - apply (inv_more str _ n); [|lia]. pose proof (register_inv str T n name budget handle opts hw w Hw) as Hr. by destruct (bb_task_registry_register _ _ _ _ _ _ _) as [[err t] w'].
  - by apply deregister_inv.
  - apply (inv_more str _ n); [by apply feed_check_inv|lia].
  - apply (inv_more str _ n); [by apply feed_store_inv|lia].
  - apply (inv_more str _ n); [by apply (same_parts str T n w)|lia].
  - apply (inv_more str _ n); [by apply check_snapshot_inv|lia].
  - apply (inv_more str _ n); [exact (check_evaluate_inv (wa_handler w) now str T n w Hw)|lia].
  - apply (inv_more str _ n); [by apply check_commit_inv|lia].
Qed.
Lemma watch_run_inv str calls : forall T n w, watch_inv str T n w -> n + Z.of_nat (length calls) <= 65534 ->
  watch_inv str (T ++ tokens str calls w) (n + Z.of_nat (length calls)) (watch_run str calls w).
Proof.
  induction calls as [|call calls IH]; intros T n w Hw Hn; cbn [tokens watch_run length].
  - rewrite app_nil_r. cbn. by rewrite Z.add_0_r.
  - cbn [length] in Hn. pose proof (watch_step_inv str T n w call Hw ltac:(lia)) as Hs. specialize (IH _ _ _ Hs ltac:(lia)). rewrite <- app_assoc in IH.
    replace (n + Z.of_nat (S (length calls))) with (n + 1 + Z.of_nat (length calls)) by lia. exact IH.
Qed.
Lemma watch0_inv str cap base_cap : Z.of_nat cap <= 65536 -> watch_inv str [] 0 (watch0 cap base_cap).
Proof.
  intros Hc. destruct (define_wf str false cap) as [H1 H2].
  assert (H0 : forall i e, repeat tentry0 cap !! i = Some e -> e = tentry0) by (intros i e He; by apply list_elem_of_lookup_2, list_elem_of_In, repeat_spec in He).
  split; cbn [watch0 wa_registry wa_pool wa_log]; rewrite ?H2; try done; try (by constructor).
  - intros p Hp. by apply elem_of_nil in Hp.
  - intros i e ->%H0. by cbn.
  - intros ev e Hev. by apply elem_of_nil in Hev.
  - intros r Hr. by apply elem_of_nil in Hr.
  - intros i e ->%H0. done.
  - by rewrite repeat_length.
  - intros t Ht. by apply elem_of_nil in Ht.
Qed.


(** * Runs *)

Definition names0 (p : Z) : list byte := if p =? 1 then bs "net" else bs "ui".
(** Silent until late, one report an episode, silent again once fed. *)
Definition late : list watch_call :=
  [WRegister 1 2048 64 (Some (false, 1000)) false; WSetHandler true; WFeedCheck 7 (mk_token 0 1); WFeedStore 7 500;
   WCheckSnapshot; WCheckEvaluate 1000; WCheckCommit; WCheckSnapshot; WCheckEvaluate 1600; WCheckCommit; WCheckSnapshot; WCheckEvaluate 2600; WCheckCommit;
   WFeedCheck 7 (mk_token 0 1); WFeedStore 7 2700; WCheckSnapshot; WCheckEvaluate 3000; WCheckCommit; WCheckSnapshot; WCheckEvaluate 3800; WCheckCommit].
Example late_reported : let w := watch_run names0 late (watch0 4 4) in
  (map ev_miss (wa_log w), bb_task_registry_lookup_sw_wdt names0 1 4000 w) =
  ([None; Some (bs "net", 64, 100); None; None; Some (bs "net", 64, 100)], Some (1000, 1300, 200, 2)).
Proof. vm_compute. reflexivity. Qed.
(** The slot changes hands between the evaluation and the write: the new task
    keeps its own, empty, record. *)
Definition handover : list watch_call :=
  [WRegister 1 2048 64 (Some (false, 1000)) false; WCheckSnapshot; WCheckEvaluate 5000; WDeregister 64; WRegister 2 2048 65 (Some (false, 9000)) false; WCheckCommit].
Example handover_kept_apart : let w := watch_run names0 handover (watch0 4 4) in
  (tokens names0 handover (watch0 4 4), map ev_miss (wa_log w), bb_task_registry_lookup_sw_wdt names0 2 6000 w) =
  ([mk_token 0 1; mk_token 0 2], [Some (bs "net", 64, 4000)], Some (9000, 6000, 0, 0)).
Proof. vm_compute. reflexivity. Qed.
(** A registration starts with the last feed at 0: once the clock is past the
    timeout a task is late at the first check, before it could feed. *)
Example registered_late : let w := watch_run names0 [WRegister 1 2048 64 (Some (false, 1000)) false; WCheckSnapshot; WCheckEvaluate 60000; WCheckCommit] (watch0 4 4) in
  map ev_miss (wa_log w) = [Some (bs "net", 64, 59000)].
Proof. vm_compute. reflexivity. Qed.
(** The generation is read before the time is stored: a feed of a registration
    that ends in between lands on the next one in the slot. *)
Example overtaken_feed : let w := watch_run names0
    [WRegister 1 2048 64 (Some (false, 1000)) false; WFeedCheck 7 (mk_token 0 1); WDeregister 64; WRegister 2 2048 65 (Some (false, 1000)) false; WFeedStore 7 5000] (watch0 4 4) in
  (bb_task_registry_lookup_sw_wdt names0 1 5000 w, bb_task_registry_lookup_sw_wdt names0 2 5000 w) = (None, Some (1000, 0, 0, 0)).
Proof. vm_compute. reflexivity. Qed.
(** Registering a task enters it in the base table as well, deregistering it
    drops it there, and a second task of the same name is refused. *)
Example registered_in_base : let w := watch_run names0 [WRegister 1 2048 64 None false; WRegister 1 4096 65 None false] (watch0 4 4) in
  (bb_task_registry_foreach names0 w, map fst (bb_task_base_foreach (wa_base w)), bb_task_registry_count w) = ([(bs "net", 2048, false)], [64], 1%nat).
Proof. vm_compute. reflexivity. Qed.

